(* ===== verification/_CoqProject ===== *)
-Q . S2P
Prelude.v
CrushHash.v
CrushLn.v
CrushTypes.v
CrushChoose.v
CrushPerm.v
CrushChooseSpec.v
CrushTree.v
CrushMapper.v
CrushMapSpec.v
CrushFirstn.v
CrushIndep.v
CrushRule.v
CrushBuilder.v
CrushBuilderSpec.v
CrushMapBuild.v
CrushBuildThms.v
PgTypes.v
PgSplit.v
HObject.v
CrushWrapper.v
OsdMap.v
OsdMapSpec.v
OsdMapCrush.v
IntervalSet.v
IntervalSetSpec.v
IntervalSetThms.v
Striper.v
StriperSpec.v
StriperExtents.v
StriperThms.v
StriperRead.v
Filer.v
FilerThms.v
MonitorDBStore.v
Paxos.v
PaxosSystem.v
PaxosSpec.v
PaxosInv.v
PaxosDisk.v
PaxosSim.v
PaxosSimOps.v
PaxosSimCommit.v
PaxosSimCollect.v
PaxosSimStore.v
PaxosSimPeon.v
PaxosSimLead.v
PaxosRefine.v
PaxosThms.v
MonFrame.v
ConnectionTracker.v
ElectorPing.v
ConnectionThms.v
PingThms.v
Election.v
MonCluster.v
MonClusterSim.v
MonClusterVote.v
MonClusterRefine.v
MonClusterThms.v
ElectionLive.v
PgLog.v
PgLogSpec.v
PgLogMerge.v
PgLogAppend.v
PgLogThms.v
PgLogReplica.v
PgLogExample.v
PgLogDisk.v
PgLogPersist.v
PgLogRestart.v
ClsQueue.v
ClsQueueThms.v
ClsQueueList.v
Cls2pcQueue.v
Cls2pcThms.v
Allocator.v
AllocatorThms.v
AllocatorRun.v
HybridRun.v
