(* ===== verification/Prelude.v ===== *)
(** * Placement, striping, recovery logs, allocation and consensus in a distributed object store

    This library models the parts of the repository that decide where data
    lives, from the bytes of a file down to the devices that hold them, the log
    by which the devices of a placement group agree on its objects, and the
    monitors that agree on the maps those decisions use, and proves that they do
    what they promise.

    ** The program and its parts

    A client cuts a file into objects ([src/src/osdc/Striper.cc]) and sends reads
    and writes to them ([src/src/osdc/Filer.h], [Objecter.h]).  The name of an
    object is hashed to a placement group of its pool
    ([src/src/osd/osd_types.cc]); the objects of a group are a range of the order
    on object names ([src/src/common/hobject.cc]).  The OSD map
    ([src/src/osd/OSDMap.cc]) maps a group to devices: it runs a CRUSH rule
    through [src/src/crush/CrushWrapper.h] and adjusts the result by upmaps,
    device states, primary affinities and temporary mappings.  CRUSH
    ([src/src/crush/mapper.c], [builder.c], [crush.h], [hash.c]) is a
    pseudo-random descent through a tree of weighted buckets.  [interval_set]
    ([src/src/include/interval_set.h]) is the set of integers that free space,
    snapshots and extents are kept in.

    Every device of a group keeps a log of the changes to its objects
    ([src/src/osd/PGLog.h], [PGLog.cc], [osd_types.h]).  After a failure the
    devices merge the log of one of them into theirs: entries that only they have
    are rolled back or their objects become missing, to be recovered later.  The
    log is written to the key-value part of the object store piece by piece, and
    read at start.

    The free space of a device is kept by an allocator, as ranges in two balanced
    trees ([src/src/os/bluestore/AvlAllocator.h], [AvlAllocator.cc]); the hybrid
    allocator ([HybridAllocator.cc]) limits their number and hands the smallest
    ranges over to a bitmap.

    Methods of object classes run on the device, on one object, and their
    effects are dropped when they fail.  The queue class ([src/src/cls/queue])
    keeps a ring of entries in the data of an object; the two-phase queue
    ([src/src/cls/2pc_queue]) adds reservations of space.

    The maps are kept by monitors.  They elect a leader
    ([src/src/mon/ElectionLogic.cc], [Elector.cc]), under one of three strategies;
    one of them compares the connection scores that the monitors gather by pings
    and share ([ConnectionTracker.cc]).  The leader and its quorum replicate a
    log of transactions on their key-value stores ([MonitorDBStore.h]) by Paxos
    ([Paxos.cc]); [Monitor.cc] connects the two.

    ** Files

    - [Prelude]: machine integers as [Z] with explicit truncation ([u32], [s32],
      [u64], ...), the result monad [res] (a value, [Fault] for undefined
      behaviour and failed assertions, [NoFuel] for an exhausted budget), arrays
      with bounds ([rd], [wr]), ordered maps, shared tactics and hints.
    - CRUSH.  [CrushHash] (hash.c), [CrushLn] (crush_ln and its tables),
      [CrushTypes] (crush.h: maps, buckets, rules, workspaces), [CrushChoose] (the
      five bucket choose methods), [CrushPerm] (the permutation cache against a
      Fisher-Yates shuffle), [CrushChooseSpec] (list and straw2), [CrushTree] (tree
      buckets), [CrushMapper] (crush_choose_firstn, crush_choose_indep,
      crush_do_rule), [CrushMapSpec] (well-formed maps and workspaces,
      and a concrete map), [CrushFirstn], [CrushIndep] (the loop invariants),
      [CrushRule] (whole rules), [CrushBuilder] (all of builder.c),
      [CrushBuilderSpec] (editing refines lists of weighted items),
      [CrushMapBuild] (adding buckets, finalising), [CrushBuildThms] (tree
      buckets, choose arguments and straw lengths of the builder).
    - Placement groups.  [PgTypes] (pg_t, pg_pool_t, name hashes), [PgSplit]
      (splitting and merging), [HObject] (object names and their order).
    - The OSD map.  [CrushWrapper] (do_rule; the class [PlacementLaws] is what the
      OSD map expects of a rule), [OsdMap] (OSDMap.cc), [OsdMapSpec] (proved
      against the class), [OsdMapCrush] (CRUSH rules are instances of the class,
      and the composition).
    - [IntervalSet] (interval_set.h), [IntervalSetSpec], [IntervalSetThms].
    - Files over objects.  [Striper] (Striper.cc, fs_types), [StriperSpec] (the
      geometry over unbounded integers), [StriperExtents] (loop invariants),
      [StriperThms], [StriperRead] (StripedReadResult), [Filer] (Filer.h and the
      scatter/gather part of the Objecter over the class [ObjectStore]),
      [FilerThms].

    - The placement-group log.  [PgLog] (versions, entries, the missing set, the
      log, merging, rewinding and trimming, over the class [LogEntryHandler] of
      backends), [PgLogSpec] (histories, the class [HandlerLaws] of what a backend
      promises, and when a log, a missing set and a store agree with a history),
      [PgLogMerge] (divergent entries), [PgLogAppend] (new entries), [PgLogThms]
      (merging), [PgLogReplica] (the primary's view of a replica), [PgLogExample]
      (a backend and concrete logs), [PgLogDisk] (the log in the omap, and the
      marks), [PgLogPersist] (each operation marks what it changes),
      [PgLogRestart] (writing and reading back).

    - Allocators.  [Allocator] (the AVL and the hybrid allocator over the class
      [Bitmap]), [AllocatorThms] (adding and removing ranges, over the class
      [SpillLaws] of what becomes of ranges beyond the limit), [AllocatorRun]
      (searching and allocating; runs of the AVL allocator), [HybridRun] (runs of
      the hybrid allocator over the class [BitmapLaws], and a bitmap).

    - Object classes.  [ClsQueue] (the queue class with the encodings and object
      calls it uses, on the bytes of an object), [ClsQueueThms] (encodings, the
      ring, enqueuing and removing), [ClsQueueList] (listing, and the class as a
      whole), [Cls2pcQueue] (the two-phase queue), [Cls2pcThms].

    - Monitors.  [MonitorDBStore] (stores and transactions), [Paxos] (Paxos.cc and
      what Monitor.cc does around it, as computations over the state of one
      monitor), [PaxosSystem] (a cluster in which an election is its outcome: a
      step function on labels), [PaxosSpec] and [PaxosInv] (an abstract protocol
      over one log and its invariant), [PaxosDisk] (what the disk of a monitor
      holds of the log), [PaxosSim], [PaxosSimOps], [PaxosSimCommit],
      [PaxosSimCollect], [PaxosSimStore], [PaxosSimPeon], [PaxosSimLead] (each
      handler simulates abstract steps), [PaxosRefine] (the cluster refines the
      abstract protocol), [PaxosThms] (agreement, replication, durability).
      [ConnectionTracker] (ConnectionTracker.cc, doubles as binary64 numbers),
      [ElectorPing] (the pings of Elector.cc), [ConnectionThms], [PingThms].
      [Election] (ElectionLogic.cc and the rest of Elector.cc), [MonCluster] (a
      cluster of monitors with their electors), [MonFrame] (what Paxos leaves to
      the elector), [MonClusterSim], [MonClusterVote], [MonClusterRefine] (this
      cluster refines [PaxosSystem]), [MonClusterThms] (agreement of the whole,
      quorums and epochs), [ElectionLive] (elections end).

    Each definition keeps the name of the C or C++ function where it can; the
    body of a loop that is too long for one definition is split at the places
    its comments name.

    ** What the theorems show

    - Rules: every rule on a well-formed map ends without an invalid access;
      replicated and erasure-coded rules over buckets of a type return distinct
      devices that are in, in different failure domains, for every content of the
      scratch memory.
    - Buckets: each choose method selects as its weights say; the cached
      permutation equals the uncached one; raising one straw2 weight moves inputs
      only to that item; the builder's edits refine operations on lists of
      weighted items and keep what the choose methods need.
    - Placement groups: splitting by bit steps finds the children that brute
      force finds; objects move only to children; merging undoes splitting; a
      group is exactly a range in the order of object names.
    - OSD map: the up and acting sets hold distinct devices that exist and are
      up; composed with CRUSH, and for groups without upmap exceptions, in different
      failure domains.
    - Interval sets: every operation computes its set operation and keeps the
      intervals maximal and the size exact.
    - Striping: extents name every byte once, with one extent per object, and are
      mapped back by extent_to_file; truncation and object counts agree with the
      same geometry; replies in any order, full or sparse, assemble to the bytes
      of the file, as a buffer list for ranges below 4 GiB; a file written and read
      through the filer in such ranges is a flat array of bytes whatever order the
      object writes happen in.
    - Placement-group logs: merging an authoritative log fails no assertion and
      leaves the log, the missing set and the store of any lawful backend in
      agreement with the authoritative history; the primary computes the missing
      set a replica will have; what is written piece by piece is what is read
      after a restart, unless an entry has extra requests.
    - Allocators: whatever clients allocate and release, no byte is handed out
      twice, no assertion fails and the reported free space is exact; the AVL
      allocator falls short of a request only when no aligned unit is free; the
      hybrid allocator keeps trees and bitmap apart, for requests whose unit the
      bitmap can serve and whose extents are limited to multiples of the unit.
    - Queues: a queue object answers sequences of calls as a list of entries does,
      through wrap-around, chunked reads and markers in string form, and writes
      nothing outside its ring.  Left out are enqueue calls of which a first part
      fills the ring exactly, listings of no entries and listings from the end of a
      full queue.  A reservation of the two-phase queue can be committed after any
      calls in which nobody reserved on a completely full queue, committed more
      than was reserved or was given a number still in use.
    - Paxos: in every run with late and lost messages, elections, timeouts and
      restarts, monitors that commit a version commit the same transaction, the
      stores of the services are replays of one log, and a committed version is
      on the disks of a majority.  Restarts are allowed where the monitor's
      promise is on its disk; a run shows that agreement is lost without this.
    - Elections: the elector keeps what Paxos assumes, so the same holds of the
      monitors as they are; a leader has a majority, a monitor is in one quorum
      per epoch for good.  When every monitor takes part with the classic
      strategy in no later epoch, and no write of Paxos and no election message
      from or to rank 0 is under way, an election that rank 0 starts succeeds in
      every interleaving of the deliveries it causes, as long as nothing else
      happens.  Two leaders in one epoch are possible, and a run shows them.
    - Connection scores: their exchange converges, removing a rank fails no
      assertion, the pings never fail theirs and follow a change of ranks.
    - Errors: concrete states in which the code departs from what it means to do
      are theorems as well (an out device returned by an erasure-coded rule, the
      primary of pg_to_raw_up, overlapping inserts, a promise lost in a restart,
      reports lost by a reset of the scores, a missing object that recovery does
      not find, requests forgotten in a restart, entries of a queue overwritten,
      reserved space that is not given back, free bytes released again, a deleted
      range read by the hybrid allocator, a hole of 4 GiB cut from a read).

    ** Bounds and fuel

    Loops that C runs until a condition holds take fuel and return [NoFuel] when
    it is used up; each theorem either shows that a stated amount is enough or
    computes it: CRUSH descends at most the rank of the map per try, the retry
    budgets are the tunables' own; [is_split] needs at most the new number of
    groups; the striper's loops take the number of blocks in the range plus
    three ([rounds]); listing a queue reads at most one chunk per byte of the
    object; an allocation takes at most as many extents as bytes, and halves the
    size of an extent at most 65 times.  Integers keep their
    width, lengths of buffer lists their 32 bits; theorems that need the absence of
    wrap-around say so ([offset + len < 2 ^ 64] and the like).  Counters that only
    grow are unbounded in the monitors, where the code has 32 or 64 bits: the epochs
    of elections and of connection scores, the versions of Paxos and its proposal
    numbers.

    ** What is not modelled

    Monitors: the number of monitors is fixed, between 2 and 100, and a message
    names its sender by rank; changes of the monitor map, probing and the
    synchronisation of a store that is too old happen outside the model, which
    lets a monitor start an election at any time.  While a monitor waits for a
    write of Paxos to end (Monitor::wait_for_paxos_write) the code releases its
    lock; the model runs nothing else of the monitor meanwhile.  The services on
    top of Paxos appear through the transactions they propose.  Stretch mode,
    authentication and the metadata of the monitors are left out.

    The placement-group log: the indexes by request, the recovery pointers
    ([complete_to], [last_requested]), the clean regions of a missing object, the
    splitting and merging of logs with their groups, and the rebuilding of the
    missing set from the object store.  What a backend does with an entry is the
    class [LogEntryHandler]; the peering messages that carry the logs are not
    modelled.

    Allocators: a tree is the list of its elements in order, and an iterator is
    the element it is at.  Devices have at most 2^62 bytes.  The methods of the
    bitmap allocator are a class with laws; in runs of the hybrid allocator
    ranges are whole blocks.  Dumps, fragmentation scores and shutdown are left
    out.

    Queues: the object exists, was never truncated and is smaller than 2^31 bytes
    (the object calls take [int]); requests arrive decoded; the size of
    attributes is not limited, which is the default.  The order in which an
    unordered map is iterated is a parameter, with the hypothesis that it lists
    every element once.  The other object classes are not modelled.

    Memory allocation fails only for sizes the code itself computes as zero or
    negative.  Logging is left out.  Floating point in straw bucket weights is a
    parameter.  What one object does on an OSD is the class [ObjectStore].  The
    daemons, messengers, encodings, command handling, authentication, the
    metadata server, the gateway and the client libraries above the filer are
    driven by I/O and callbacks and are outside this library.

    ** Plan

    Next: the bitmap allocator; the other object classes (locks, reference
    counts); incremental OSD maps and cleaning of temporary mappings. *)

From stdpp Require Export prelude list list_numbers gmap.
From Stdlib Require Export ZArith Lia.

Open Scope Z_scope.

(** ** Machine integers

    A C integer of width [w] is a [Z]; every place where the source converts
    or may wrap applies one of these truncations explicitly. *)

Definition u8 (z : Z) : Z := z mod 2 ^ 8.
Definition u16 (z : Z) : Z := z mod 2 ^ 16.
Definition u32 (z : Z) : Z := z mod 2 ^ 32.
Definition u64 (z : Z) : Z := z mod 2 ^ 64.
Definition s32 (z : Z) : Z := (z + 2 ^ 31) mod 2 ^ 32 - 2 ^ 31.
Definition s64 (z : Z) : Z := (z + 2 ^ 63) mod 2 ^ 64 - 2 ^ 63.

Definition S64_MIN : Z := - 2 ^ 63.

Definition is_u32 (z : Z) : Prop := 0 <= z < 2 ^ 32.
Definition is_s32 (z : Z) : Prop := - 2 ^ 31 <= z < 2 ^ 31.

(** [crush_width] is the hint database of the width lemmas: results of the
    truncations are in range, and truncating a value in range is the identity. *)
Create HintDb crush_width.

Lemma u32_range z : is_u32 (u32 z).
Proof. unfold is_u32, u32. apply Z.mod_pos_bound. lia. Qed.

Lemma u32_id z : is_u32 z -> u32 z = z.
Proof. unfold is_u32, u32. apply Z.mod_small. Qed.

Lemma s32_range z : is_s32 (s32 z).
Proof.
  unfold is_s32, s32. pose proof (Z.mod_pos_bound (z + 2 ^ 31) (2 ^ 32) eq_refl). lia.
Qed.

Lemma s32_id z : is_s32 z -> s32 z = z.
Proof. unfold is_s32, s32. intros. rewrite Z.mod_small; lia. Qed.

Lemma u32_u32 z : u32 (u32 z) = u32 z.
Proof. apply u32_id, u32_range. Qed.

Lemma u64_id z : 0 <= z < 2 ^ 64 -> u64 z = z.
Proof. unfold u64. apply Z.mod_small. Qed.

Lemma s64_id z : - 2 ^ 63 <= z < 2 ^ 63 -> s64 z = z.
Proof. unfold s64. intros. rewrite Z.mod_small; lia. Qed.

Lemma u32_mod_eq a b : u32 a = u32 b <-> (a - b) mod 2 ^ 32 = 0.
Proof. unfold u32. Z.to_euclidean_division_equations. lia. Qed.

Lemma shiftr_u32 a n : is_u32 a -> 0 <= n -> is_u32 (Z.shiftr a n).
Proof.
  unfold is_u32. intros Ha Hn. rewrite Z.shiftr_div_pow2 by done. split.
  - apply Z.div_pos; lia.
  - apply Z.div_lt_upper_bound; nia.
Qed.

(** Bitwise operations do not leave the word: a nonnegative number is below
    [2^32] exactly when its bits from 32 on are clear. *)
Lemma is_u32_bits a : is_u32 a <-> forall i, (i < 0 \/ 32 <= i) -> 0 <= a /\ Z.testbit a i = false.
Proof.
  unfold is_u32. split.
  - intros Ha i [Hi | Hi]; (split; [lia |]).
    + by apply Z.testbit_neg_r.
    + rewrite Z.testbit_false by lia. rewrite Z.div_small; [done |].
      pose proof (Z.pow_le_mono_r 2 32 i). lia.
  - intros H. destruct (H 32) as [Ha _]; [lia |]. split; [done |].
    destruct (decide (a = 0)) as [-> | Hne]; [done |].
    apply Z.log2_lt_pow2; [lia |].
    destruct (Z.lt_ge_cases (Z.log2 a) 32) as [| Hl]; [done |].
    destruct (H (Z.log2 a)) as [_ Hb]; [lia |]. rewrite Z.bit_log2 in Hb by lia. done.
Qed.

Lemma lxor_u32 a b : is_u32 a -> is_u32 b -> is_u32 (Z.lxor a b).
Proof.
  rewrite !is_u32_bits. intros Ha Hb i Hi.
  destruct (Ha i Hi) as [Ha0 Hai], (Hb i Hi) as [Hb0 Hbi]. split.
  - apply Z.lxor_nonneg. lia.
  - by rewrite Z.lxor_spec, Hai, Hbi.
Qed.

Lemma lor_u32 a b : is_u32 a -> is_u32 b -> is_u32 (Z.lor a b).
Proof.
  rewrite !is_u32_bits. intros Ha Hb i Hi.
  destruct (Ha i Hi) as [Ha0 Hai], (Hb i Hi) as [Hb0 Hbi]. split.
  - apply Z.lor_nonneg. lia.
  - by rewrite Z.lor_spec, Hai, Hbi.
Qed.

Lemma land_u32 a b : is_u32 b -> is_u32 (Z.land a b).
Proof.
  rewrite !is_u32_bits. intros Hb i Hi. destruct (Hb i Hi) as [Hb0 Hbi]. split.
  - apply Z.land_nonneg. lia.
  - by rewrite Z.land_spec, Hbi, andb_false_r.
Qed.

Lemma lxor_cancel_r a b : Z.lxor (Z.lxor a b) b = a.
Proof. by rewrite Z.lxor_assoc, Z.lxor_nilpotent, Z.lxor_0_r. Qed.

#[export] Hint Resolve u32_range s32_range lxor_u32 lor_u32 land_u32 : crush_width.
#[export] Hint Extern 1 (is_u32 (Z.shiftr _ _)) => (apply shiftr_u32; [| done]) : crush_width.

(** ** Results

    [res] is the outcome of a piece of C code: a value, an access the language
    leaves undefined or an assertion that aborts ([Fault]), or an iteration
    budget that was exhausted before the loop ended ([NoFuel]). *)

Inductive res (A : Type) : Type :=
  | Ok (a : A)
  | Fault
  | NoFuel.
Arguments Ok {A} a.
Arguments Fault {A}.
Arguments NoFuel {A}.

#[export] Instance res_ret : MRet res := fun A a => Ok a.
#[export] Instance res_bind : MBind res := fun A B f m =>
  match m with
  | Ok a => f a
  | Fault => Fault
  | NoFuel => NoFuel
  end.

#[export] Instance res_fmap : FMap res := fun A B f m =>
  match m with
  | Ok a => Ok (f a)
  | Fault => Fault
  | NoFuel => NoFuel
  end.

Lemma res_bind_Ok {A B} (m : res A) (f : A -> res B) b :
  (m ≫= f) = Ok b <-> exists a, m = Ok a /\ f a = Ok b.
Proof. destruct m; cbn; naive_solver. Qed.

(** [res_simpl] runs the binds whose first computation is known. *)
Ltac res_simpl := cbn [mbind res_bind mret res_ret].

(** [res_inv] opens every [bind] of a successful computation in the context. *)
Ltac res_inv :=
  repeat match goal with
  | H : (_ ≫= _) = Ok _ |- _ =>
      apply res_bind_Ok in H; destruct H as (? & ? & H)
  | H : mret _ = Ok _ |- _ => injection H as H
  | H : Ok _ = Ok _ |- _ => injection H as H
  end.

(** ** Arrays indexed by C integers *)

Definition rd {A} (l : list A) (i : Z) : res A :=
  if i <? 0 then Fault
  else match l !! Z.to_nat i with Some a => Ok a | None => Fault end.

Definition wr {A} (l : list A) (i : Z) (v : A) : res (list A) :=
  if (i <? 0) || (Z.of_nat (length l) <=? i) then Fault
  else Ok (<[Z.to_nat i := v]> l).

Definition zlen {A} (l : list A) : Z := Z.of_nat (length l).

Lemma rd_Ok {A} (l : list A) i a :
  rd l i = Ok a <-> 0 <= i /\ l !! Z.to_nat i = Some a.
Proof.
  unfold rd. destruct (Z.ltb_spec i 0).
  - split; [done | lia].
  - destruct (l !! Z.to_nat i) eqn:E; naive_solver lia.
Qed.

Lemma rd_in_range {A} (l : list A) i :
  0 <= i < zlen l -> exists a, rd l i = Ok a.
Proof.
  unfold zlen. intros H. destruct (lookup_lt_is_Some_2 l (Z.to_nat i)) as [a Ha]; [lia |].
  exists a. apply rd_Ok. split; [lia | done].
Qed.

Lemma rd_elem_of {A} (l : list A) i a : rd l i = Ok a -> a ∈ l.
Proof. rewrite rd_Ok. intros [_ H]. by apply list_elem_of_lookup_2 in H. Qed.

Lemma rd_range_inv {A} (l : list A) i a : rd l i = Ok a -> 0 <= i < zlen l.
Proof.
  rewrite rd_Ok. intros [? H]. apply lookup_lt_Some in H. unfold zlen. lia.
Qed.

Lemma wr_Ok {A} (l l' : list A) i v :
  wr l i v = Ok l' <-> 0 <= i < zlen l /\ l' = <[Z.to_nat i := v]> l.
Proof.
  unfold wr, zlen. destruct (Z.ltb_spec i 0), (Z.leb_spec (Z.of_nat (length l)) i);
    cbn; naive_solver lia.
Qed.

Lemma zlen_nonneg {A} (l : list A) : 0 <= zlen l.
Proof. unfold zlen. lia. Qed.

Lemma zlen_app {A} (a b : list A) : zlen (a ++ b) = zlen a + zlen b.
Proof. unfold zlen. rewrite length_app. lia. Qed.

Lemma filter_all {A} (P : A -> Prop) `{!forall x, Decision (P x)} (l : list A) :
  (forall x, x ∈ l -> P x) -> filter P l = l.
Proof.
  induction l as [| x l IH]; intros Hl; [done |]. rewrite filter_cons_True by (apply Hl; left).
  f_equal. apply IH. intros y Hy. apply Hl. by right.
Qed.

Lemma insert_middle {A} (a b : list A) x y : <[length a := x]> (a ++ y :: b) = a ++ x :: b.
Proof. rewrite <- (Nat.add_0_r (length a)). by rewrite insert_app_r. Qed.

Lemma delete_second {A} (a b : list A) x y : delete (S (length a)) (a ++ x :: y :: b) = a ++ x :: b.
Proof.
  rewrite (cons_middle x a), (cons_middle x a b), !app_assoc.
  replace (S (length a)) with (length (a ++ [x])) by (rewrite length_app; cbn; lia). apply delete_middle.
Qed.

(** ** Ordered maps

    A [std::map] with integer keys is the list of its entries in increasing
    order of the keys. *)

(** [m[k] = v]. *)
Fixpoint map_set {A} (m : list (Z * A)) (k : Z) (v : A) : list (Z * A) :=
  match m with
  | [] => [(k, v)]
  | (s, l) :: m' =>
      if k <? s then (k, v) :: m
      else if k =? s then (k, v) :: m'
      else (s, l) :: map_set m' k v
  end.

(** [m[k]], with the value [operator[]] creates where the key is new. *)
Fixpoint map_at {A} (dflt : A) (m : list (Z * A)) (k : Z) : A :=
  match m with
  | [] => dflt
  | (s, v) :: m' => if k =? s then v else map_at dflt m' k
  end.

Lemma map_set_split {A} (a b : list (Z * A)) k v : Forall (fun e => e.1 < k) a -> Forall (fun e => k < e.1) b ->
  map_set (a ++ b) k v = a ++ (k, v) :: b.
Proof.
  intros Ha Hb. induction Ha as [| [s l] a Hs _ IH]; cbn [app map_set].
  - destruct Hb as [| [s l] b Hs Hb]; [done |]. cbn in Hs |- *. destruct (Z.ltb_spec k s); [done | lia].
  - cbn in Hs. destruct (Z.ltb_spec k s); [lia |]. destruct (Z.eqb_spec k s); [lia |]. by rewrite IH.
Qed.


(** ** Bounded checks

    Facts about a finite range of integers are established by evaluating a
    boolean on the range once. *)

Lemma forallb_seqZ (P : Z -> bool) m n :
  forallb P (seqZ m n) = true -> forall k, m <= k < m + n -> P k = true.
Proof.
  rewrite forallb_forall. intros H k Hk. apply H. apply list_elem_of_In, elem_of_seqZ. lia.
Qed.

Lemma Z_mono_steps (f : Z -> Z) lo hi :
  (forall k, lo <= k < hi -> f k <= f (k + 1)) ->
  forall i j, lo <= i <= j -> j <= hi -> f i <= f j.
Proof.
  intros Hstep i j Hij Hj.
  assert (H : forall d, 0 <= d -> i + d <= hi -> f i <= f (i + d)).
  { refine (natlike_ind _ _ _).
    - intros. rewrite Z.add_0_r. lia.
    - intros d Hd IH Hh. rewrite Z.add_succ_r.
      etransitivity; [apply IH; lia | apply Hstep; lia]. }
  replace j with (i + (j - i)) by lia. apply H; lia.
Qed.

(** [bool_hyps] turns boolean conjunctions and integer tests into propositions. *)
Ltac bool_hyps :=
  repeat match goal with
  | H : (_ && _) = true |- _ => apply andb_true_iff in H; destruct H
  | H : (_ || _) = true |- _ => apply orb_true_iff in H
  | H : (_ || _) = false |- _ => apply orb_false_iff in H; destruct H
  | H : (_ <=? _) = true |- _ => apply Z.leb_le in H
  | H : (_ <? _) = true |- _ => apply Z.ltb_lt in H
  | H : (_ =? _) = true |- _ => apply Z.eqb_eq in H
  | H : (_ <=? _) = false |- _ => apply Z.leb_gt in H
  | H : (_ <? _) = false |- _ => apply Z.ltb_ge in H
  | H : (_ =? _) = false |- _ => apply Z.eqb_neq in H
  | H : negb _ = true |- _ => apply negb_true_iff in H
  | H : negb _ = false |- _ => apply negb_false_iff in H
  end.
