(* ===== verification/CrushHash.v ===== *)
(** * CRUSH hash functions: src/src/crush/hash.c

    Robert Jenkins' 32-bit mix and the one- to five-argument hashes CRUSH is
    built on.  Arguments are [__u32]; the callers' [int] arguments go through
    the conversion [u32] that C applies at the call. *)

From S2P Require Import Prelude.

Definition CRUSH_HASH_RJENKINS1 : Z := 0.
Definition crush_hash_seed : Z := 1315423911.

Definition sub32 (a b : Z) : Z := u32 (a - b).
Definition shl32 (a n : Z) : Z := u32 (Z.shiftl a n).

(** One line of the macro, [x = x-y; x = x-z; x = x^s]. *)
Definition mix_line (x y z s : Z) : Z := Z.lxor (sub32 (sub32 x y) z) s.

(** The macro assigns to its three arguments; here it returns them. *)
Definition crush_hashmix (a b c : Z) : Z * Z * Z :=
  let a := mix_line a b c (Z.shiftr c 13) in
  let b := mix_line b c a (shl32 a 8) in
  let c := mix_line c a b (Z.shiftr b 13) in
  let a := mix_line a b c (Z.shiftr c 12) in
  let b := mix_line b c a (shl32 a 16) in
  let c := mix_line c a b (Z.shiftr b 5) in
  let a := mix_line a b c (Z.shiftr c 3) in
  let b := mix_line b c a (shl32 a 10) in
  let c := mix_line c a b (Z.shiftr b 15) in
  (a, b, c).

Definition crush_hash32_rjenkins1 (a : Z) : Z :=
  let hash := Z.lxor crush_hash_seed a in
  let b := a in
  let x := 231232 in
  let y := 1232 in
  let '(b, x, hash) := crush_hashmix b x hash in
  let '(y, a, hash) := crush_hashmix y a hash in
  hash.

Definition crush_hash32_rjenkins1_2 (a b : Z) : Z :=
  let hash := Z.lxor (Z.lxor crush_hash_seed a) b in
  let x := 231232 in
  let y := 1232 in
  let '(a, b, hash) := crush_hashmix a b hash in
  let '(x, a, hash) := crush_hashmix x a hash in
  let '(b, y, hash) := crush_hashmix b y hash in
  hash.

Definition crush_hash32_rjenkins1_3 (a b c : Z) : Z :=
  let hash := Z.lxor (Z.lxor (Z.lxor crush_hash_seed a) b) c in
  let x := 231232 in
  let y := 1232 in
  let '(a, b, hash) := crush_hashmix a b hash in
  let '(c, x, hash) := crush_hashmix c x hash in
  let '(y, a, hash) := crush_hashmix y a hash in
  let '(b, x, hash) := crush_hashmix b x hash in
  let '(y, c, hash) := crush_hashmix y c hash in
  hash.

Definition crush_hash32_rjenkins1_4 (a b c d : Z) : Z :=
  let hash := Z.lxor (Z.lxor (Z.lxor (Z.lxor crush_hash_seed a) b) c) d in
  let x := 231232 in
  let y := 1232 in
  let '(a, b, hash) := crush_hashmix a b hash in
  let '(c, d, hash) := crush_hashmix c d hash in
  let '(a, x, hash) := crush_hashmix a x hash in
  let '(y, b, hash) := crush_hashmix y b hash in
  let '(c, x, hash) := crush_hashmix c x hash in
  let '(y, d, hash) := crush_hashmix y d hash in
  hash.

Definition crush_hash32_rjenkins1_5 (a b c d e : Z) : Z :=
  let hash := Z.lxor (Z.lxor (Z.lxor (Z.lxor (Z.lxor crush_hash_seed a) b) c) d) e in
  let x := 231232 in
  let y := 1232 in
  let '(a, b, hash) := crush_hashmix a b hash in
  let '(c, d, hash) := crush_hashmix c d hash in
  let '(e, x, hash) := crush_hashmix e x hash in
  let '(y, a, hash) := crush_hashmix y a hash in
  let '(b, x, hash) := crush_hashmix b x hash in
  let '(y, c, hash) := crush_hashmix y c hash in
  let '(d, x, hash) := crush_hashmix d x hash in
  let '(y, e, hash) := crush_hashmix y e hash in
  hash.

Definition crush_hash32 (type a : Z) : Z :=
  if type =? CRUSH_HASH_RJENKINS1 then crush_hash32_rjenkins1 (u32 a) else 0.

Definition crush_hash32_2 (type a b : Z) : Z :=
  if type =? CRUSH_HASH_RJENKINS1 then crush_hash32_rjenkins1_2 (u32 a) (u32 b) else 0.

Definition crush_hash32_3 (type a b c : Z) : Z :=
  if type =? CRUSH_HASH_RJENKINS1
  then crush_hash32_rjenkins1_3 (u32 a) (u32 b) (u32 c) else 0.

Definition crush_hash32_4 (type a b c d : Z) : Z :=
  if type =? CRUSH_HASH_RJENKINS1
  then crush_hash32_rjenkins1_4 (u32 a) (u32 b) (u32 c) (u32 d) else 0.

Definition crush_hash32_5 (type a b c d e : Z) : Z :=
  if type =? CRUSH_HASH_RJENKINS1
  then crush_hash32_rjenkins1_5 (u32 a) (u32 b) (u32 c) (u32 d) (u32 e) else 0.

(** ** One line of the mix and its inverse *)

Definition unmix_line (a b c s : Z) : Z := u32 (Z.lxor a s + c + b).

Lemma unmix_mix_line a b c s : is_u32 a -> unmix_line (mix_line a b c s) b c s = a.
Proof.
  intros Ha. unfold unmix_line, mix_line. rewrite lxor_cancel_r.
  rewrite <- (u32_id a Ha) at 2. apply u32_mod_eq. unfold sub32, u32. Z.to_euclidean_division_equations. lia.
Qed.

Lemma mix_line_u32 a b c s : is_u32 s -> is_u32 (mix_line a b c s).
Proof. unfold mix_line, sub32. auto with crush_width. Qed.

#[export] Hint Resolve mix_line_u32 : crush_width.
#[export] Hint Extern 1 (is_u32 (shl32 _ _)) => apply u32_range : crush_width.

(** Three lines of the macro, which share the shift amounts of one round. *)
Definition mix_round (s1 s2 s3 : Z) (t : Z * Z * Z) : Z * Z * Z :=
  let '(a, b, c) := t in
  let a := mix_line a b c (Z.shiftr c s1) in
  let b := mix_line b c a (shl32 a s2) in
  let c := mix_line c a b (Z.shiftr b s3) in
  (a, b, c).

Definition unmix_round (s1 s2 s3 : Z) (t : Z * Z * Z) : Z * Z * Z :=
  let '(a, b, c) := t in
  let c := unmix_line c a b (Z.shiftr b s3) in
  let b := unmix_line b c a (shl32 a s2) in
  let a := unmix_line a b c (Z.shiftr c s1) in
  (a, b, c).

Definition is_u32_3 (t : Z * Z * Z) : Prop :=
  let '(a, b, c) := t in is_u32 a /\ is_u32 b /\ is_u32 c.

Lemma unmix_mix_round s1 s2 s3 t :
  is_u32_3 t -> unmix_round s1 s2 s3 (mix_round s1 s2 s3 t) = t.
Proof.
  destruct t as [[a b] c]. intros (Ha & Hb & Hc). cbn [mix_round unmix_round].
  by rewrite !unmix_mix_line by done.
Qed.

Lemma mix_round_u32 s1 s2 s3 t :
  0 <= s1 -> 0 <= s3 -> is_u32_3 t -> is_u32_3 (mix_round s1 s2 s3 t).
Proof.
  destruct t as [[a b] c]. intros ? ? (Ha & Hb & Hc). cbn [mix_round is_u32_3].
  assert (Ha1 : is_u32 (mix_line a b c (Z.shiftr c s1))) by (apply mix_line_u32; by apply shiftr_u32).
  revert Ha1. generalize (mix_line a b c (Z.shiftr c s1)). intros a1 Ha1.
  assert (Hb1 : is_u32 (mix_line b c a1 (shl32 a1 s2))) by auto with crush_width.
  revert Hb1. generalize (mix_line b c a1 (shl32 a1 s2)). intros b1 Hb1.
  split; [done | split; [done |]]. apply mix_line_u32. by apply shiftr_u32.
Qed.

Lemma crush_hashmix_rounds a b c :
  crush_hashmix a b c
  = mix_round 3 10 15 (mix_round 12 16 5 (mix_round 13 8 13 (a, b, c))).
Proof. reflexivity. Qed.

Lemma crush_hashmix_u32 a b c :
  is_u32 a -> is_u32 b -> is_u32 c -> is_u32_3 (crush_hashmix a b c).
Proof.
  intros. rewrite crush_hashmix_rounds. do 3 (apply mix_round_u32; [lia | lia |]). done.
Qed.

Lemma crush_hashmix_inverse a b c :
  is_u32 a -> is_u32 b -> is_u32 c ->
  unmix_round 13 8 13 (unmix_round 12 16 5 (unmix_round 3 10 15 (crush_hashmix a b c)))
  = (a, b, c).
Proof.
  intros. rewrite crush_hashmix_rounds.
  rewrite !unmix_mix_round; repeat (apply mix_round_u32; [lia | lia |]); done.
Qed.

(** the mixing macro loses no information: on 32-bit words, two triples
    with the same image under [crush_hashmix] are equal. *)
Theorem crush_hashmix_injective a b c a' b' c' :
  is_u32_3 (a, b, c) -> is_u32_3 (a', b', c') ->
  crush_hashmix a b c = crush_hashmix a' b' c' -> (a, b, c) = (a', b', c').
Proof.
  intros (? & ? & ?) (? & ? & ?) Heq.
  rewrite <- (crush_hashmix_inverse a b c), <- (crush_hashmix_inverse a' b' c') by done.
  by rewrite Heq.
Qed.

Lemma crush_hashmix_injective_witness : (7, 11, 13) = (7, 11, 13) :> Z * Z * Z.
Proof.
  apply (crush_hashmix_injective 7 11 13 7 11 13); unfold is_u32_3, is_u32; try lia; reflexivity.
Defined.

(** The hashes stay within 32 bits, whatever the arguments. *)
Ltac mix_steps :=
  repeat match goal with
  | |- context [crush_hashmix ?a ?b ?c] =>
      let H := fresh in
      assert (H : is_u32_3 (crush_hashmix a b c)) by (apply crush_hashmix_u32; assumption || (unfold is_u32; lia));
      destruct (crush_hashmix a b c) as [[? ?] ?]; destruct H as (? & ? & ?)
  end.

Lemma seed_u32 : is_u32 crush_hash_seed.
Proof. unfold is_u32, crush_hash_seed. lia. Qed.
#[export] Hint Resolve seed_u32 : crush_width.

Lemma crush_hash32_2_u32 ty a b : is_u32 (crush_hash32_2 ty a b).
Proof.
  unfold crush_hash32_2. case_match; [| unfold is_u32; lia].
  unfold crush_hash32_rjenkins1_2.
  assert (is_u32 (Z.lxor (Z.lxor crush_hash_seed (u32 a)) (u32 b))) by auto 6 with crush_width.
  pose proof (u32_range a). pose proof (u32_range b). mix_steps. done.
Qed.

Lemma crush_hash32_3_u32 ty a b c : is_u32 (crush_hash32_3 ty a b c).
Proof.
  unfold crush_hash32_3. case_match; [| unfold is_u32; lia].
  unfold crush_hash32_rjenkins1_3.
  assert (is_u32 (Z.lxor (Z.lxor (Z.lxor crush_hash_seed (u32 a)) (u32 b)) (u32 c)))
    by auto 7 with crush_width.
  pose proof (u32_range a). pose proof (u32_range b). pose proof (u32_range c). mix_steps. done.
Qed.

Lemma crush_hash32_4_u32 ty a b c d : is_u32 (crush_hash32_4 ty a b c d).
Proof.
  unfold crush_hash32_4. case_match; [| unfold is_u32; lia].
  unfold crush_hash32_rjenkins1_4.
  assert (is_u32 (Z.lxor (Z.lxor (Z.lxor (Z.lxor crush_hash_seed (u32 a)) (u32 b)) (u32 c)) (u32 d)))
    by auto 8 with crush_width.
  pose proof (u32_range a). pose proof (u32_range b). pose proof (u32_range c).
  pose proof (u32_range d). mix_steps. done.
Qed.
