(* ===== verification/CrushTypes.v ===== *)
(** * CRUSH data: src/src/crush/crush.h and the accessors of
      src/src/crush/crush.c

    A bucket is the common header [struct crush_bucket] and the part that its
    algorithm adds ([bucket_body]).  In C the algorithm-specific structs start
    with the header and [alg] says which one a pointer may be cast to; here the
    constructor of the body plays the role of [alg], and [b_alg] is its number.
    Arrays are lists; [b_size] is kept apart from the length of [b_items]
    because the builder lets an array be longer than the bucket's size. *)

From S2P Require Import Prelude.

Definition CRUSH_MAX_RULES : Z := 256.
Definition CRUSH_MAX_DEVICE_WEIGHT : Z := 100 * 0x10000.
Definition CRUSH_MAX_BUCKET_WEIGHT : Z := 65535 * 0x10000.
Definition CRUSH_ITEM_UNDEF : Z := 0x7ffffffe.
Definition CRUSH_ITEM_NONE : Z := 0x7fffffff.

(** ** Rules *)

Record crush_rule_step : Type := mk_step { op : Z; arg1 : Z; arg2 : Z }.

Definition CRUSH_RULE_NOOP : Z := 0.
Definition CRUSH_RULE_TAKE : Z := 1.
Definition CRUSH_RULE_CHOOSE_FIRSTN : Z := 2.
Definition CRUSH_RULE_CHOOSE_INDEP : Z := 3.
Definition CRUSH_RULE_EMIT : Z := 4.
Definition CRUSH_RULE_CHOOSELEAF_FIRSTN : Z := 6.
Definition CRUSH_RULE_CHOOSELEAF_INDEP : Z := 7.
Definition CRUSH_RULE_SET_CHOOSE_TRIES : Z := 8.
Definition CRUSH_RULE_SET_CHOOSELEAF_TRIES : Z := 9.
Definition CRUSH_RULE_SET_CHOOSE_LOCAL_TRIES : Z := 10.
Definition CRUSH_RULE_SET_CHOOSE_LOCAL_FALLBACK_TRIES : Z := 11.
Definition CRUSH_RULE_SET_CHOOSELEAF_VARY_R : Z := 12.
Definition CRUSH_RULE_SET_CHOOSELEAF_STABLE : Z := 13.

(** [len] is the length of [steps]. *)
Record crush_rule : Type := mk_rule {
  rule_type : Z;
  deprecated_min_size : Z;
  deprecated_max_size : Z;
  steps : list crush_rule_step;
}.

(** ** Buckets *)

Definition CRUSH_BUCKET_UNIFORM : Z := 1.
Definition CRUSH_BUCKET_LIST : Z := 2.
Definition CRUSH_BUCKET_TREE : Z := 3.
Definition CRUSH_BUCKET_STRAW : Z := 4.
Definition CRUSH_BUCKET_STRAW2 : Z := 5.

Inductive bucket_body : Type :=
  | bucket_uniform (item_weight : Z)
  | bucket_list (item_weights sum_weights : list Z)
  | bucket_tree (num_nodes : Z) (node_weights : list Z)
  | bucket_straw (item_weights straws : list Z)
  | bucket_straw2 (item_weights : list Z)
  | bucket_other (alg : Z).

Record crush_bucket : Type := mk_bucket {
  b_id : Z;
  b_type : Z;
  b_hash : Z;
  b_weight : Z;
  b_size : Z;
  b_items : list Z;
  b_body : bucket_body;
}.

Definition b_alg (b : crush_bucket) : Z :=
  match b_body b with
  | bucket_uniform _ => CRUSH_BUCKET_UNIFORM
  | bucket_list _ _ => CRUSH_BUCKET_LIST
  | bucket_tree _ _ => CRUSH_BUCKET_TREE
  | bucket_straw _ _ => CRUSH_BUCKET_STRAW
  | bucket_straw2 _ => CRUSH_BUCKET_STRAW2
  | bucket_other alg => alg
  end.

(** [ids] and [weight_set] may be NULL; [weight_set_positions] is the number of
    weight sets. *)
Record crush_choose_arg : Type := mk_choose_arg {
  ids : option (list Z);
  weight_set : option (list (list Z));
}.

(** ** The map

    [max_buckets] and [max_rules] are the sizes of the two arrays.  An entry is
    [None] where the C array holds NULL. *)
Record crush_map : Type := mk_map {
  buckets : list (option crush_bucket);
  rules : list (option crush_rule);
  max_devices : Z;
  choose_local_tries : Z;
  choose_local_fallback_tries : Z;
  choose_total_tries : Z;
  chooseleaf_descend_once : Z;
  chooseleaf_vary_r : Z;
  chooseleaf_stable : Z;
  working_size : Z;
  straw_calc_version : Z;
  allowed_bucket_algs : Z;
}.

Definition max_buckets (m : crush_map) : Z := zlen (buckets m).
Definition max_rules (m : crush_map) : Z := zlen (rules m).

(** [map->buckets[i]] followed by a dereference. *)
Definition deref_bucket (m : crush_map) (i : Z) : res crush_bucket :=
  b ← rd (buckets m) i;
  match b with Some b => Ok b | None => Fault end.

(** ** Working space of the mapper *)

Record crush_work_bucket : Type := mk_work_bucket {
  perm_x : Z;
  perm_n : Z;
  perm : list Z;
}.

(** [work] has one entry per bucket position; [choose_tries] is the histogram
    hanging off the map, the only part of it the mapper writes. *)
Record crush_work : Type := mk_work {
  work : list (option crush_work_bucket);
  choose_tries : option (list Z);
}.

(** ** crush.c *)

Definition crush_calc_tree_node (i : Z) : Z := s32 (Z.shiftl (i + 1) 1) - 1.

Definition crush_get_bucket_item_weight (b : crush_bucket) (p : Z) : res Z :=
  if b_size b <=? u32 p then Ok 0
  else match b_body b with
  | bucket_uniform item_weight => Ok (s32 item_weight)
  | bucket_list item_weights _ => s32 <$> rd item_weights p
  | bucket_tree _ node_weights => s32 <$> rd node_weights (crush_calc_tree_node p)
  | bucket_straw item_weights _ => s32 <$> rd item_weights p
  | bucket_straw2 item_weights => s32 <$> rd item_weights p
  | bucket_other _ => Ok 0
  end.
