(* ===== verification/CrushChoose.v ===== *)
(** * CRUSH bucket selection: the choose methods of src/src/crush/mapper.c

    One definition per [bucket_*_choose] function.  The permutation cache
    [struct crush_work_bucket] is passed in and returned; every array access is
    an [rd] or [wr], and a division by a zero size is a [Fault].  The loops
    whose number of iterations is known at entry recurse on that number; the
    two loops of the tree methods have a fuel of 32, the width of [int]. *)

From S2P Require Import Prelude CrushHash CrushLn CrushTypes.

(** ** bucket_perm_choose *)

(** [for (; i < ...; i++) work->perm[i] = i], [n] iterations. *)
Fixpoint perm_fill (n : nat) (i : Z) (p : list Z) : res (list Z) :=
  match n with
  | O => Ok p
  | S n => p ← wr p i i; perm_fill n (i + 1) p
  end.

(** The body of [while (work->perm_n <= pr)] at [p = work->perm_n]. *)
Definition perm_step (b : crush_bucket) (x p : Z) (pm : list Z) : res (list Z) :=
  if p <? u32 (b_size b - 1) then
    let i := crush_hash32_3 (b_hash b) x (b_id b) p mod (b_size b - p) in
    if negb (i =? 0) then
      t ← rd pm (p + i);
      q ← rd pm p;
      pm ← wr pm (p + i) q;
      wr pm p t
    else Ok pm
  else Ok pm.

Fixpoint perm_extend (b : crush_bucket) (x : Z) (n : nat) (p : Z) (pm : list Z) : res (list Z) :=
  match n with
  | O => Ok pm
  | S n => pm ← perm_step b x p pm; perm_extend b x n (p + 1) pm
  end.

(** The value of [perm_n] after the r=0 shortcut. *)
Definition PERM_MAGIC : Z := 0xffff.

Definition bucket_perm_choose (b : crush_bucket) (w : crush_work_bucket) (x r : Z)
    : res (Z * crush_work_bucket) :=
  if b_size b =? 0 then Fault else
  let pr := u32 r mod b_size b in
  let fresh := negb (perm_x w =? u32 x) || (perm_n w =? 0) in
  if fresh && (pr =? 0) then
    let s := crush_hash32_3 (b_hash b) x (b_id b) 0 mod b_size b in
    pm ← wr (perm w) 0 s;
    item ← rd (b_items b) s;
    mret (item, mk_work_bucket (u32 x) PERM_MAGIC pm)
  else
    w ← (if fresh then
           pm ← perm_fill (Z.to_nat (b_size b)) 0 (perm w);
           mret (mk_work_bucket (u32 x) 0 pm)
         else if perm_n w =? PERM_MAGIC then
           pm ← perm_fill (Z.to_nat (b_size b - 1)) 1 (perm w);
           p0 ← rd pm 0;
           pm ← wr pm p0 0;
           mret (mk_work_bucket (perm_x w) 1 pm)
         else mret w);
    pm ← perm_extend b x (Z.to_nat (pr + 1 - perm_n w)) (perm_n w) (perm w);
    s ← rd pm pr;
    item ← rd (b_items b) s;
    mret (item, mk_work_bucket (perm_x w) (Z.max (perm_n w) (pr + 1)) pm).

Definition bucket_uniform_choose (b : crush_bucket) (w : crush_work_bucket) (x r : Z)
    : res (Z * crush_work_bucket) :=
  bucket_perm_choose b w x r.

(** ** list *)

(** [for (i = size-1; i >= 0; i--)]: [n] is [i + 1]. *)
Fixpoint list_choose_loop (b : crush_bucket) (iw sw : list Z) (x r : Z) (n : nat) : res Z :=
  match n with
  | O => rd (b_items b) 0
  | S n =>
    let i := Z.of_nat n in
    item ← rd (b_items b) i;
    let w := Z.land (crush_hash32_4 (b_hash b) x item r (b_id b)) 0xffff in
    sum ← rd sw i;
    let w := Z.shiftr (u64 (w * sum)) 16 in
    weight ← rd iw i;
    if w <? weight then Ok item else list_choose_loop b iw sw x r n
  end.

Definition bucket_list_choose (b : crush_bucket) (iw sw : list Z) (x r : Z) : res Z :=
  list_choose_loop b iw sw x r (Z.to_nat (b_size b)).

(** ** (binary) tree *)

Fixpoint height_loop (fuel : nat) (n h : Z) : res Z :=
  match fuel with
  | O => NoFuel
  | S fuel => if Z.land n 1 =? 0 then height_loop fuel (Z.shiftr n 1) (h + 1) else Ok h
  end.

Definition height (n : Z) : res Z := height_loop 32 n 0.

Definition left (x : Z) : res Z := h ← height x; mret (x - Z.shiftl 1 (h - 1)).
Definition right (x : Z) : res Z := h ← height x; mret (x + Z.shiftl 1 (h - 1)).
Definition terminal (x : Z) : bool := negb (Z.land x 1 =? 0).

Fixpoint tree_choose_loop (fuel : nat) (b : crush_bucket) (node_weights : list Z)
    (x r n : Z) : res Z :=
  match fuel with
  | O => NoFuel
  | S fuel =>
    if terminal n then Ok n
    else
      w ← rd node_weights n;
      let t := Z.shiftr (u64 (crush_hash32_4 (b_hash b) x n r (b_id b) * w)) 32 in
      l ← left n;
      wl ← rd node_weights l;
      if t <? wl then tree_choose_loop fuel b node_weights x r l
      else rn ← right n; tree_choose_loop fuel b node_weights x r rn
  end.

Definition bucket_tree_choose (b : crush_bucket) (num_nodes : Z) (node_weights : list Z)
    (x r : Z) : res Z :=
  n ← tree_choose_loop 32 b node_weights x r (Z.shiftr num_nodes 1);
  rd (b_items b) (Z.shiftr n 1).

(** ** straw and straw2 *)

(** The loop both methods share: remember the index of the highest draw. *)
Fixpoint draw_loop (draw : Z -> res Z) (n : nat) (i high high_draw : Z) : res Z :=
  match n with
  | O => Ok high
  | S n =>
    d ← draw i;
    if (i =? 0) || (high_draw <? d) then draw_loop draw n (i + 1) i d
    else draw_loop draw n (i + 1) high high_draw
  end.

Definition straw_draw (b : crush_bucket) (straws : list Z) (x r i : Z) : res Z :=
  item ← rd (b_items b) i;
  straw ← rd straws i;
  mret (u64 (Z.land (crush_hash32_3 (b_hash b) x item r) 0xffff * straw)).

Definition bucket_straw_choose (b : crush_bucket) (straws : list Z) (x r : Z) : res Z :=
  high ← draw_loop (straw_draw b straws x r) (Z.to_nat (b_size b)) 0 0 0;
  rd (b_items b) high.

Definition get_choose_arg_weights (item_weights : list Z) (arg : option crush_choose_arg)
    (position : Z) : res (list Z) :=
  match arg with
  | None => Ok item_weights
  | Some arg =>
    match weight_set arg with
    | None => Ok item_weights
    | Some ws =>
      let position := if zlen ws <=? u32 position then zlen ws - 1 else position in
      rd ws position
    end
  end.

Definition get_choose_arg_ids (b : crush_bucket) (arg : option crush_choose_arg) : list Z :=
  match arg with
  | None => b_items b
  | Some arg => match ids arg with None => b_items b | Some l => l end
  end.

Definition div64_s64 (dividend divisor : Z) : res Z :=
  if divisor =? 0 then Fault else Ok (Z.quot dividend divisor).

Definition generate_exponential_distribution (type x y z weight : Z) : res Z :=
  let u := Z.land (crush_hash32_3 type x y z) 0xffff in
  l ← crush_ln u;
  let ln := s64 (l - 0x1000000000000) in
  div64_s64 ln (s32 weight).

Definition straw2_draw (b : crush_bucket) (weights ids : list Z) (x r i : Z) : res Z :=
  w ← rd weights i;
  if negb (w =? 0) then
    id ← rd ids i;
    generate_exponential_distribution (b_hash b) x id r w
  else Ok S64_MIN.

Definition bucket_straw2_choose (b : crush_bucket) (item_weights : list Z) (x r : Z)
    (arg : option crush_choose_arg) (position : Z) : res Z :=
  weights ← get_choose_arg_weights item_weights arg position;
  let ids := get_choose_arg_ids b arg in
  high ← draw_loop (straw2_draw b weights ids x r) (Z.to_nat (b_size b)) 0 0 0;
  rd (b_items b) high.

(** ** crush_bucket_choose *)

Definition crush_bucket_choose (b : crush_bucket) (w : crush_work_bucket) (x r : Z)
    (arg : option crush_choose_arg) (position : Z) : res (Z * crush_work_bucket) :=
  if b_size b =? 0 then Fault else
  match b_body b with
  | bucket_uniform _ => bucket_uniform_choose b w x r
  | bucket_list iw sw => item ← bucket_list_choose b iw sw x r; mret (item, w)
  | bucket_tree nn nw => item ← bucket_tree_choose b nn nw x r; mret (item, w)
  | bucket_straw _ straws => item ← bucket_straw_choose b straws x r; mret (item, w)
  | bucket_straw2 iw => item ← bucket_straw2_choose b iw x r arg position; mret (item, w)
  | bucket_other _ => item ← rd (b_items b) 0; mret (item, w)
  end.

(** ** is_out *)

Definition is_out (weight : list Z) (item x : Z) : res bool :=
  if zlen weight <=? item then Ok true
  else
    w ← rd weight item;
    if 0x10000 <=? w then Ok false
    else if w =? 0 then Ok true
    else if Z.land (crush_hash32_2 CRUSH_HASH_RJENKINS1 x item) 0xffff <? w then Ok false
    else Ok true.
