(* ===== verification/CrushPerm.v ===== *)
(** * The permutation cache of [bucket_perm_choose]

    [bucket_perm_choose] builds a random permutation of a bucket step by step
    and keeps what it has built in the workspace, with a shortcut for [r = 0]
    that leaves a half-initialized array behind a magic count.  The reference
    here is the plain Fisher-Yates shuffle [fy]; the theorems say that whatever
    calls came before, the function returns the reference's item, and that it
    leaves the cache in a state from which that stays true. *)

From S2P Require Import Prelude CrushHash CrushTypes CrushChoose.

(** ** Reference shuffle *)

Definition swap (l : list Z) (i j : nat) : list Z :=
  match l !! i, l !! j with
  | Some a, Some c => <[i := c]> (<[j := a]> l)
  | _, _ => l
  end.

(** The partner of position [p] in step [p]. *)
Definition fy_partner (b : crush_bucket) (x p : Z) : Z :=
  p + crush_hash32_3 (b_hash b) x (b_id b) p mod (b_size b - p).

Definition fy_step (b : crush_bucket) (x : Z) (l : list Z) (p : Z) : list Z :=
  if p <? b_size b - 1 then swap l (Z.to_nat p) (Z.to_nat (fy_partner b x p)) else l.

Definition fy (b : crush_bucket) (x n : Z) : list Z :=
  foldl (fy_step b x) (seqZ 0 (b_size b)) (seqZ 0 n).

Definition bucket_perm_ref (b : crush_bucket) (x r : Z) : res Z :=
  let pr := u32 r mod b_size b in
  s ← rd (fy b x (pr + 1)) pr;
  rd (b_items b) s.

(** ** What the cache may hold between calls *)

Definition work_ok (b : crush_bucket) (w : crush_work_bucket) : Prop :=
  zlen (perm w) = b_size b /\ is_u32 (perm_x w) /\
  (perm_n w = 0 \/
   (perm_n w = PERM_MAGIC /\ perm w !! 0%nat = fy b (perm_x w) 1 !! 0%nat) \/
   (0 < perm_n w <= b_size b /\ perm w = fy b (perm_x w) (perm_n w))).

(** ** Facts about the shuffle *)

Lemma swap_Permutation l i j : swap l i j ≡ₚ l.
Proof.
  unfold swap. destruct (l !! i) as [a|] eqn:Hi, (l !! j) as [c|] eqn:Hj; try done.
  destruct (decide (i = j)) as [-> | Hne].
  - simplify_eq. rewrite list_insert_insert_eq, list_insert_id; done.
  - apply Permutation_inj. split.
    + by rewrite !length_insert.
    + pose (f := fun k => if decide (k = i) then j else if decide (k = j) then i else k).
      exists f. split.
      * intros k k'. unfold f. repeat case_decide; subst; congruence.
      * intros k. unfold f.
        assert (i < length l)%nat by eauto using lookup_lt_Some.
        assert (j < length l)%nat by eauto using lookup_lt_Some.
        destruct (decide (k = i)) as [-> |].
        { rewrite list_lookup_insert_eq by (by rewrite length_insert). congruence. }
        rewrite list_lookup_insert_ne by done.
        destruct (decide (k = j)) as [-> |].
        { rewrite list_lookup_insert_eq by done. congruence. }
        by rewrite list_lookup_insert_ne by done.
Qed.

Lemma length_swap l i j : length (swap l i j) = length l.
Proof. by rewrite swap_Permutation. Qed.

Lemma fy_S b x n : 0 <= n -> fy b x (n + 1) = fy_step b x (fy b x n) n.
Proof.
  intros. unfold fy. rewrite (seqZ_app 0 n 1), foldl_app by lia. reflexivity.
Qed.

Lemma fy_Permutation b x n : fy b x n ≡ₚ seqZ 0 (b_size b).
Proof.
  unfold fy. generalize (seqZ 0 n). intros ps.
  induction ps as [| p ps IH] using rev_ind; [done |].
  rewrite foldl_app. cbn. unfold fy_step. case_match; [| done]. by rewrite swap_Permutation.
Qed.

Lemma zlen_fy b x n : 0 <= b_size b -> zlen (fy b x n) = b_size b.
Proof. intros. unfold zlen. rewrite fy_Permutation, length_seqZ. lia. Qed.

Lemma fy_partner_range b x p :
  0 <= p < b_size b -> p <= fy_partner b x p < b_size b.
Proof.
  intros Hp. unfold fy_partner.
  pose proof (Z.mod_pos_bound (crush_hash32_3 (b_hash b) x (b_id b) p) (b_size b - p)). lia.
Qed.

(** Step [p] touches positions from [p] on only. *)
Lemma fy_step_lookup b x l p i :
  0 <= p < b_size b -> (i < Z.to_nat p)%nat -> fy_step b x l p !! i = l !! i.
Proof.
  intros Hp Hi. unfold fy_step. case_match; [| done].
  pose proof (fy_partner_range b x p Hp). unfold swap.
  destruct (l !! Z.to_nat p), (l !! Z.to_nat (fy_partner b x p)); try done.
  rewrite !list_lookup_insert_ne by lia. done.
Qed.

(** Once position [i] is fixed, later steps leave it alone. *)
Lemma fy_lookup_stable b x i n m :
  0 <= n <= m -> m <= b_size b -> (i < Z.to_nat n)%nat -> fy b x m !! i = fy b x n !! i.
Proof.
  intros Hnm Hm Hi.
  assert (H : forall d, 0 <= d -> n + d <= b_size b -> fy b x (n + d) !! i = fy b x n !! i).
  { refine (natlike_ind _ _ _).
    - intros. by rewrite Z.add_0_r.
    - intros d Hd IH Hb. rewrite Z.add_succ_r, <- Z.add_1_r, fy_S by lia.
      rewrite fy_step_lookup by lia. apply IH. lia. }
  replace m with (n + (m - n)) by lia. apply H; lia.
Qed.

Lemma hash32_3_u32_l ty x b c : crush_hash32_3 ty (u32 x) b c = crush_hash32_3 ty x b c.
Proof. unfold crush_hash32_3. by rewrite u32_u32. Qed.

Lemma fy_step_u32 b x l p : fy_step b (u32 x) l p = fy_step b x l p.
Proof. unfold fy_step, fy_partner. by rewrite hash32_3_u32_l. Qed.

Lemma fy_u32 b x n : fy b (u32 x) n = fy b x n.
Proof.
  unfold fy. generalize (seqZ 0 (b_size b)) as l. induction (seqZ 0 n) as [| p ps IH]; [done |].
  intros l. cbn. by rewrite fy_step_u32, IH.
Qed.

(** The shortcut's [hash % size] is position 0 of the full shuffle. *)
Lemma fy_1_0 b x :
  0 < b_size b ->
  fy b x 1 !! 0%nat = Some (crush_hash32_3 (b_hash b) x (b_id b) 0 mod b_size b).
Proof.
  intros Hs. change 1 with (0 + 1). rewrite fy_S by lia. unfold fy. cbn [seqZ foldl].
  change (seqZ 0 0) with (@nil Z). cbn [foldl]. unfold fy_step.
  pose proof (fy_partner_range b x 0 ltac:(lia)) as Hr.
  assert (Hp : fy_partner b x 0 = crush_hash32_3 (b_hash b) x (b_id b) 0 mod b_size b)
    by (unfold fy_partner; by rewrite Z.sub_0_r).
  destruct (Z.ltb_spec 0 (b_size b - 1)) as [Hlt | Hge].
  - unfold swap. rewrite (lookup_seqZ_lt _ _ (Z.to_nat 0)) by lia.
    rewrite (lookup_seqZ_lt _ _ (Z.to_nat (fy_partner b x 0))) by lia.
    rewrite list_lookup_insert_eq by (rewrite length_insert, length_seqZ; lia).
    f_equal. lia.
  - rewrite lookup_seqZ_lt by lia. f_equal. rewrite <- Hp. lia.
Qed.

(** ** The C loops compute the shuffle *)

Lemma perm_step_fy b x p pm :
  is_u32 (b_size b) -> zlen pm = b_size b -> 0 <= p < b_size b ->
  perm_step b x p pm = Ok (fy_step b x pm p).
Proof.
  intros Hs Hl Hp. unfold perm_step, fy_step.
  rewrite u32_id by (unfold is_u32 in *; lia). case_match; [| done].
  pose proof (fy_partner_range b x p Hp) as Hr. unfold fy_partner in Hr |- *.
  set (i := crush_hash32_3 _ _ _ _ mod _) in *.
  destruct (rd_in_range pm (p + i)) as [t Ht]; [lia |].
  destruct (rd_in_range pm p) as [q Hq]; [lia |].
  unfold swap. pose proof (proj2 (proj1 (rd_Ok _ _ _) Ht)) as Et.
  pose proof (proj2 (proj1 (rd_Ok _ _ _) Hq)) as Eq. rewrite Et, Eq.
  destruct (Z.eqb_spec i 0) as [Hi | Hi]; cbn [negb].
  - rewrite Hi, Z.add_0_r in *. simplify_eq.
    rewrite list_insert_insert_eq, list_insert_id by done. done.
  - rewrite Ht, Hq. cbn [mbind res_bind].
    assert (Hw : wr pm (p + i) q = Ok (<[Z.to_nat (p + i) := q]> pm)) by (apply wr_Ok; split; [lia | done]).
    rewrite Hw. cbn [mbind res_bind]. apply wr_Ok. split; [| done].
    unfold zlen in *. rewrite length_insert. lia.
Qed.

Lemma perm_extend_fy b x n p pm :
  is_u32 (b_size b) -> 0 <= p -> p + Z.of_nat n <= b_size b ->
  pm = fy b x p ->
  perm_extend b x n p pm = Ok (fy b x (p + Z.of_nat n)).
Proof.
  intros Hs. revert p pm. induction n as [| n IH]; intros p pm Hp Hn ->; cbn [perm_extend].
  - by rewrite Z.add_0_r.
  - rewrite perm_step_fy by (try done; rewrite ?zlen_fy by (unfold is_u32 in *; lia); lia).
    cbn [mbind res_bind]. rewrite <- fy_S by lia. rewrite IH by (done || lia). do 2 f_equal. lia.
Qed.

Lemma perm_fill_seqZ n i p :
  0 <= i -> i + Z.of_nat n <= zlen p ->
  perm_fill n i p = Ok (take (Z.to_nat i) p ++ seqZ i (Z.of_nat n) ++ drop (Z.to_nat i + n) p).
Proof.
  revert i p. induction n as [| n IH]; intros i p Hi Hl; cbn [perm_fill].
  - change (seqZ i (Z.of_nat 0)) with (@nil Z). rewrite Nat.add_0_r. cbn. by rewrite take_drop.
  - assert (Hw : wr p i i = Ok (<[Z.to_nat i := i]> p)) by (apply wr_Ok; split; [lia | done]).
    rewrite Hw. cbn [mbind res_bind].
    assert (Hlen : (Z.to_nat i < length p)%nat) by (unfold zlen in Hl; lia).
    rewrite IH by (unfold zlen in *; rewrite ?length_insert; lia). f_equal.
    replace (Z.to_nat (i + 1)) with (S (Z.to_nat i)) by lia.
    rewrite (take_S_r _ _ i) by (by apply list_lookup_insert_eq).
    rewrite take_insert_ge by lia. rewrite drop_insert_lt by lia.
    rewrite <- app_assoc. cbn [app]. f_equal.
    rewrite (seqZ_cons i (Z.of_nat (S n))) by lia. cbn [app].
    rewrite Z.add_1_r, Nat2Z.inj_succ, Z.pred_succ. do 3 f_equal. lia.
Qed.

Lemma perm_fill_all b p :
  0 <= b_size b -> zlen p = b_size b ->
  perm_fill (Z.to_nat (b_size b)) 0 p = Ok (fy b 0 0).
Proof.
  intros Hs Hl. rewrite perm_fill_seqZ by lia. cbn. rewrite drop_ge by (unfold zlen in Hl; lia).
  rewrite app_nil_r, Z2Nat.id by done. done.
Qed.

(** Cleaning up after the shortcut rebuilds the state after step 0. *)
Lemma cleanup_fy b x p :
  0 < b_size b -> zlen p = b_size b -> p !! 0%nat = fy b x 1 !! 0%nat ->
  (pm ← perm_fill (Z.to_nat (b_size b - 1)) 1 p; p0 ← rd pm 0; wr pm p0 0) = Ok (fy b x 1).
Proof.
  intros Hs Hl H0. rewrite perm_fill_seqZ by lia. rewrite fy_1_0 in H0 by done.
  destruct p as [| p0 p]; [done |]. cbn in H0. simplify_eq.
  pose proof (fy_partner_range b x 0 ltac:(lia)) as Hr. unfold fy_partner in Hr.
  rewrite Z.sub_0_r, Z.add_0_l in Hr.
  set (s := crush_hash32_3 _ _ _ _ mod _) in *.
  rewrite drop_ge by (unfold zlen in Hl; cbn in Hl |- *; lia).
  rewrite app_nil_r, Z2Nat.id by lia. cbn [mbind res_bind].
  change (take (Z.to_nat 1) (s :: p) ++ seqZ 1 (b_size b - 1)) with (s :: seqZ 1 (b_size b - 1)).
  change (rd (s :: seqZ 1 (b_size b - 1)) 0) with (@Ok Z s). cbn [mbind res_bind].
  assert (Hw : forall l, zlen l = b_size b -> wr l s 0 = Ok (<[Z.to_nat s := 0]> l))
    by (intros; apply wr_Ok; split; [lia | done]).
  rewrite Hw by (unfold zlen; cbn; rewrite length_seqZ; lia). f_equal.
  change (fy b x 1) with (fy b x (0 + 1)). rewrite fy_S by lia. change (fy b x 0) with (seqZ 0 (b_size b)).
  unfold fy_step, fy_partner. rewrite Z.sub_0_r, Z.add_0_l. fold s.
  rewrite (seqZ_cons 0 (b_size b)) by lia. change (Z.succ 0) with 1. rewrite <- Z.sub_1_r.
  destruct (Z.ltb_spec 0 (b_size b - 1)) as [Hlt | Hge].
  - unfold swap. cbn [lookup list_lookup Z.to_nat].
    destruct (Z.to_nat s) as [| k] eqn:Ek.
    + cbn. f_equal.
    + cbn. rewrite lookup_seqZ_lt by lia. change (Z.to_nat 0) with 0%nat. cbn. f_equal. lia.
  - assert (s = 0) as -> by lia. done.
Qed.

(** ** The theorem *)

Lemma work_ok_init b p :
  zlen p = b_size b -> work_ok b (mk_work_bucket 0 0 p).
Proof. intros. split; [done |]. split; [unfold is_u32; cbn [perm_x]; lia | by left]. Qed.

Lemma bucket_perm_ref_total b x r :
  0 < b_size b <= zlen (b_items b) ->
  exists item, bucket_perm_ref b x r = Ok item /\ item ∈ take (Z.to_nat (b_size b)) (b_items b).
Proof.
  intros Hs. unfold bucket_perm_ref. cbv zeta.
  pose proof (Z.mod_pos_bound (u32 r) (b_size b)) as Hpr.
  destruct (rd_in_range (fy b x (u32 r mod b_size b + 1)) (u32 r mod b_size b)) as [s Hsr];
    [rewrite zlen_fy; lia |].
  rewrite Hsr. cbn [mbind res_bind]. pose proof (rd_elem_of _ _ _ Hsr) as Hin.
  rewrite fy_Permutation in Hin. apply elem_of_seqZ in Hin.
  destruct (rd_in_range (b_items b) s) as [item Hit]; [lia |]. exists item. split; [done |].
  apply rd_Ok in Hit as [_ Hit]. apply list_elem_of_lookup_2 with (Z.to_nat s).
  by rewrite lookup_take_lt by lia.
Qed.

(** Shared with the mapper: the call succeeds, returns the reference's item and
    re-establishes the cache invariant. *)
Lemma bucket_perm_choose_spec b w x r item :
  is_u32 (b_size b) -> b_size b <> 0 -> work_ok b w -> bucket_perm_ref b x r = Ok item ->
  exists w', bucket_perm_choose b w x r = Ok (item, w') /\ work_ok b w'.
Proof.
  intros Hsz Hnz (Hl & Hx & Hw) Href. unfold bucket_perm_choose, bucket_perm_ref in *.
  destruct (Z.eqb_spec (b_size b) 0) as [| _]; [done |].
  assert (Hs : 0 < b_size b) by (unfold is_u32 in Hsz; lia).
  pose proof (Z.mod_pos_bound (u32 r) (b_size b) Hs) as Hpr.
  cbv zeta in *. set (pr := u32 r mod b_size b) in *.
  destruct (negb (perm_x w =? u32 x) || (perm_n w =? 0)) eqn:Hfresh; cbn [andb].
  - destruct (Z.eqb_spec pr 0) as [Hpr0 | Hprn].
    + rewrite Hpr0 in Href. apply res_bind_Ok in Href as (s & Hsr & Hit).
      apply rd_Ok in Hsr as [_ Hsr]. change (Z.to_nat 0) with 0%nat in Hsr. change (0 + 1) with 1 in Hsr.
      pose proof (fy_1_0 b x Hs) as Hs0. rewrite Hsr in Hs0. injection Hs0 as ->.
      eexists. split.
      * unfold wr. unfold zlen in Hl. destruct (Z.leb_spec (Z.of_nat (length (perm w))) 0); [lia |].
        cbn [Z.ltb orb mbind res_bind]. rewrite Hit. reflexivity.
      * split; [unfold zlen in *; cbn; by rewrite length_insert |].
        split; [apply u32_range |]. right; left. split; [done |]. cbn [perm perm_x].
        rewrite fy_u32, Hsr. apply list_lookup_insert_eq. unfold zlen in Hl. lia.
    + rewrite perm_fill_all by lia. cbn [mbind res_bind mret res_ret perm perm_n perm_x].
      rewrite (perm_extend_fy b x) by (done || lia).
      cbn [mbind res_bind]. replace (0 + Z.of_nat (Z.to_nat (pr + 1 - 0))) with (pr + 1) by lia.
      apply res_bind_Ok in Href as (s & Hsr & Hit). rewrite Hsr. cbn [mbind res_bind]. rewrite Hit.
      eexists. split; [reflexivity |].
      split; [apply zlen_fy; lia |]. split; [apply u32_range |]. right; right. cbn.
      rewrite fy_u32, Z.max_r by lia. split; [lia | done].
  - bool_hyps. rename H into Hpx, H0 into Hn0.
    apply res_bind_Ok in Href as (s & Hsr & Hit).
    assert (Hgen : forall n pm, 0 < n <= b_size b -> pm = fy b x n ->
      exists w', (pm ← perm_extend b x (Z.to_nat (pr + 1 - n)) n pm;
         s ← rd pm pr; item ← rd (b_items b) s;
         mret (item, mk_work_bucket (perm_x w) (Z.max n (pr + 1)) pm)) = Ok (item, w')
        /\ work_ok b w').
    { intros n pm Hn ->. rewrite (perm_extend_fy b x) by (done || lia). cbn [mbind res_bind].
      assert (Hmax : n + Z.of_nat (Z.to_nat (pr + 1 - n)) = Z.max n (pr + 1)) by lia. rewrite Hmax.
      assert (Hrd : rd (fy b x (Z.max n (pr + 1))) pr = Ok s).
      { apply rd_Ok in Hsr as [? Hsr]. apply rd_Ok. split; [done |].
        rewrite <- Hsr. apply fy_lookup_stable; lia. }
      rewrite Hrd. cbn [mbind res_bind]. rewrite Hit. cbn [mbind res_bind mret res_ret].
      eexists. split; [reflexivity |]. split; [apply zlen_fy; lia |].
      split; [rewrite Hpx; apply u32_range |]. right; right. cbn. rewrite Hpx, fy_u32.
      split; [lia | done]. }
    destruct (Z.eqb_spec (perm_n w) PERM_MAGIC) as [Hmag | Hnmag].
    + assert (H0 : perm w !! 0%nat = fy b x 1 !! 0%nat).
      { destruct Hw as [| [[_ Hw] | [Hn Hw]]]; [lia | by rewrite Hw, Hpx, fy_u32 |].
        rewrite Hw, Hpx, fy_u32. apply fy_lookup_stable; lia. }
      pose proof (cleanup_fy b x (perm w) Hs Hl H0) as Hc.
      apply res_bind_Ok in Hc as (pm1 & Hf & Hc). rewrite Hf. cbn [mbind res_bind].
      apply res_bind_Ok in Hc as (p0 & Hp0 & Hc). rewrite Hp0. cbn [mbind res_bind]. rewrite Hc.
      cbn [mbind res_bind mret res_ret perm perm_n perm_x]. apply Hgen; [lia | done].
    + cbn [mbind res_bind mret res_ret].
      destruct Hw as [| [[] | [Hn Hw]]]; [lia | done |].
      apply Hgen; [lia |]. by rewrite Hw, Hpx, fy_u32.
Qed.

(** C33. the permutation cache is transparent: from any two cache states that
    earlier calls can have left, [bucket_perm_choose] succeeds with the item of
    the plain Fisher-Yates shuffle, and leaves such a state again. *)
Theorem bucket_perm_choose_transparent b w x r :
  is_u32 (b_size b) -> 0 < b_size b <= zlen (b_items b) -> work_ok b w ->
  exists item w', bucket_perm_choose b w x r = Ok (item, w')
    /\ bucket_perm_ref b x r = Ok item /\ work_ok b w'.
Proof.
  intros Hsz Hs Hw. destruct (bucket_perm_ref_total b x r Hs) as (item & Href & _).
  destruct (bucket_perm_choose_spec b w x r item) as (w' & Hc & Hw'); [done | lia | done | done |].
  eauto.
Qed.

Definition ex_uniform : crush_bucket :=
  mk_bucket (-1) 1 CRUSH_HASH_RJENKINS1 0x50000 5 [10; 11; 12; 13; 14] (bucket_uniform 0x10000).

Lemma bucket_perm_choose_transparent_witness :
  exists item w',
    bucket_perm_choose ex_uniform (mk_work_bucket 0 0 [0; 0; 0; 0; 0]) 1234 3 = Ok (item, w')
    /\ bucket_perm_ref ex_uniform 1234 3 = Ok item /\ work_ok ex_uniform w'.
Proof.
  apply (bucket_perm_choose_transparent ex_uniform (mk_work_bucket 0 0 [0; 0; 0; 0; 0]) 1234 3).
  - unfold is_u32. cbn. lia.
  - unfold zlen. cbn. lia.
  - apply work_ok_init. reflexivity.
Defined.

(** The items for one full cycle of [r], each chosen from the cache state [w]. *)
Definition perm_sequence (b : crush_bucket) (w : crush_work_bucket) (x : Z) : list (res Z) :=
  (fun r => fst <$> bucket_perm_choose b w x r) <$> seqZ 0 (b_size b).

Lemma perm_ref_enumerates b x :
  is_u32 (b_size b) -> b_size b <= zlen (b_items b) ->
  bucket_perm_ref b x <$> seqZ 0 (b_size b) ≡ₚ Ok <$> take (Z.to_nat (b_size b)) (b_items b).
Proof.
  intros Hsz Hs. unfold is_u32 in Hsz.
  assert (Hall : forall r, 0 <= r < b_size b ->
    bucket_perm_ref b x r = (s ← rd (fy b x (b_size b)) r; rd (b_items b) s)).
  { intros r Hr. unfold bucket_perm_ref. rewrite u32_id by (unfold is_u32; lia).
    rewrite Z.mod_small by lia. f_equal. unfold rd. destruct (Z.ltb_spec r 0); [done |].
    rewrite (fy_lookup_stable b x _ (r + 1) (b_size b)) by lia. done. }
  transitivity ((fun r => s ← rd (fy b x (b_size b)) r; rd (b_items b) s) <$> seqZ 0 (b_size b)).
  { apply reflexive_eq, Forall_fmap_ext_1, Forall_forall. intros r Hr%elem_of_seqZ. apply Hall. lia. }
  transitivity (rd (b_items b) <$> fy b x (b_size b)).
  { apply reflexive_eq. apply list_eq. intros i. rewrite !list_lookup_fmap.
    destruct (decide (i < length (fy b x (b_size b)))%nat) as [Hi | Hi].
    - pose proof (zlen_fy b x (b_size b) ltac:(lia)) as Hl. unfold zlen in Hl.
      rewrite lookup_seqZ_lt by lia. destruct (lookup_lt_is_Some_2 _ _ Hi) as [s Hsi].
      rewrite Hsi. cbn. f_equal. unfold rd at 2. destruct (Z.ltb_spec (0 + Z.of_nat i) 0); [lia |].
      replace (Z.to_nat (0 + Z.of_nat i)) with i by lia. by rewrite Hsi.
    - pose proof (zlen_fy b x (b_size b) ltac:(lia)) as Hl. unfold zlen in Hl.
      rewrite lookup_seqZ_ge by lia. by rewrite lookup_ge_None_2 by lia. }
  rewrite fy_Permutation. apply reflexive_eq. apply list_eq. intros i. rewrite !list_lookup_fmap.
  unfold zlen in Hs. destruct (decide (i < Z.to_nat (b_size b)))%nat as [Hi | Hi].
  - rewrite lookup_seqZ_lt, lookup_take_lt by lia. cbn. unfold rd.
    destruct (Z.ltb_spec (0 + Z.of_nat i) 0); [lia |].
    replace (Z.to_nat (0 + Z.of_nat i)) with i by lia.
    destruct (lookup_lt_is_Some_2 (b_items b) i) as [s Hsi]; [lia |]. by rewrite Hsi.
  - rewrite lookup_seqZ_ge by lia. by rewrite lookup_take_ge by lia.
Qed.

(**  Over a full cycle of [r] the permutation method visits every item of the
    bucket exactly once, from whatever valid cache state. *)
Theorem perm_choose_enumerates b w x :
  is_u32 (b_size b) -> b_size b <= zlen (b_items b) -> work_ok b w ->
  perm_sequence b w x ≡ₚ Ok <$> take (Z.to_nat (b_size b)) (b_items b).
Proof.
  intros Hsz Hs Hw. rewrite <- (perm_ref_enumerates b x Hsz Hs). apply reflexive_eq.
  apply Forall_fmap_ext_1, Forall_forall. intros r Hr%elem_of_seqZ.
  destruct (bucket_perm_ref_total b x r) as (item & Href & _); [lia |].
  destruct (bucket_perm_choose_spec b w x r item) as (w' & -> & _); [done | lia | done | done |]. by rewrite Href.
Qed.

Lemma perm_choose_enumerates_witness :
  perm_sequence ex_uniform (mk_work_bucket 99 0 [0; 0; 0; 0; 0]) 99 ≡ₚ Ok <$> take 5 [10; 11; 12; 13; 14].
Proof.
  apply (perm_choose_enumerates ex_uniform (mk_work_bucket 99 0 [0; 0; 0; 0; 0]) 99);
    [unfold is_u32; cbn; lia | unfold zlen; cbn; lia |].
  split; [done |]. split; [unfold is_u32; cbn; lia | by left].
Defined.
