(* ===== verification/CrushChooseSpec.v ===== *)
(** * Properties of the list, straw and straw2 choose methods

    Totality (no access out of range, the result is an item of the bucket), the
    characterization of the straw methods as the first maximum of the draws,
    and what the methods do with weights: items of weight zero are avoided and
    a straw2 weight change moves data only to or from the changed item. *)

From S2P Require Import Prelude CrushHash CrushLn CrushTypes CrushChoose CrushPerm.

(** ** The first maximum *)

Definition first_max (f : Z -> Z) (n h : Z) : Prop :=
  0 <= h < n /\ (forall j, 0 <= j < n -> f j <= f h) /\ (forall j, 0 <= j < h -> f j < f h).

Lemma first_max_change f g n k h h' :
  (forall j, 0 <= j -> j <> k -> f j = g j) -> f k <= g k ->
  first_max f n h -> first_max g n h' -> h' = h \/ h' = k.
Proof.
  intros Heq Hk (Hh & Hm & Hf) (Hh' & Hm' & Hf').
  destruct (decide (h' = k)) as [| Hn]; [by right | left].
  pose proof (Heq h' ltac:(lia) Hn) as E'. pose proof (Hm h' Hh') as M1. pose proof (Hm' h Hh) as M2.
  assert (E : f h <= g h).
  { destruct (decide (h = k)) as [-> |]; [done | rewrite Heq by (done || lia); lia]. }
  destruct (Z.lt_trichotomy h h') as [Hlt | [-> | Hlt]]; [| done |].
  - pose proof (Hf' h ltac:(lia)). lia.
  - pose proof (Hf h' ltac:(lia)). lia.
Qed.

Lemma draw_loop_first_max draw f n i high hd :
  0 <= i -> 0 < i + Z.of_nat n ->
  (forall j, i <= j < i + Z.of_nat n -> draw j = Ok (f j)) ->
  (i = 0 \/ (first_max f i high /\ hd = f high)) ->
  exists h, draw_loop draw n i high hd = Ok h /\ first_max f (i + Z.of_nat n) h.
Proof.
  revert i high hd. induction n as [| n IH]; intros i high hd Hi Hn Hd Hinv; cbn [draw_loop].
  - destruct Hinv as [| [Hm _]]; [lia |]. exists high. split; [done |]. by rewrite Z.add_0_r.
  - rewrite Hd by lia. cbn [mbind res_bind].
    assert (Hstep : forall h' d', first_max f (i + 1) h' -> d' = f h' ->
      exists h, draw_loop draw n (i + 1) h' d' = Ok h /\ first_max f (i + Z.of_nat (S n)) h).
    { intros h' d' Hm ->. destruct (IH (i + 1) h' (f h')) as (h & Hl & Hf); [lia | lia | | by right |].
      - intros j Hj. apply Hd. lia.
      - exists h. split; [done |]. by replace (i + Z.of_nat (S n)) with (i + 1 + Z.of_nat n) by lia. }
    destruct (Z.eqb_spec i 0) as [-> | Hi0]; cbn [orb].
    + apply Hstep; [| done]. split; [lia |]. split; intros j Hj; [| lia]. by replace j with 0 by lia.
    + destruct Hinv as [| [(Hh & Hm & Hf) ->]]; [lia |].
      destruct (Z.ltb_spec (f high) (f i)) as [Hlt | Hge]; (apply Hstep; [| done]).
      * split; [lia |]. split; intros j Hj.
        -- destruct (decide (j = i)) as [-> |]; [lia |]. pose proof (Hm j ltac:(lia)). lia.
        -- pose proof (Hm j ltac:(lia)). lia.
      * split; [lia |]. split; intros j Hj; [| apply Hf; lia].
        destruct (decide (j = i)) as [-> |]; [lia |]. apply Hm. lia.
Qed.

Lemma land_ffff_range a : 0 <= Z.land a 0xffff <= 0xffff.
Proof.
  change 0xffff with (Z.ones 16). rewrite Z.land_ones by lia.
  pose proof (Z.mod_pos_bound a (2 ^ 16)). change (Z.ones 16) with (2 ^ 16 - 1). lia.
Qed.

(** ** The draw of straw2 *)

Definition ln_value (u : Z) : Z := ln_exp u * 2 ^ 44 + ln_core (ln_mant u) / 16.

Lemma ln_value_range u : 0 <= u <= 0xffff -> 0 <= ln_value u < 2 ^ 48.
Proof.
  intros Hu. unfold ln_value. destruct (ln_mant_range u Hu) as [Hm He].
  pose proof (ln_core_range _ Hm).
  assert (0 <= ln_core (ln_mant u) / 16 < 2 ^ 44) by (Z.to_euclidean_division_equations; lia). lia.
Qed.

(** The draw of an item of weight [w] and id [id]. *)
Definition straw2_val (b : crush_bucket) (x r w id : Z) : Z :=
  if w =? 0 then S64_MIN
  else Z.quot (ln_value (Z.land (crush_hash32_3 (b_hash b) x id r) 0xffff) - 2 ^ 48) (s32 w).

Lemma straw2_draw_val b ws ids x r i w id :
  rd ws i = Ok w -> rd ids i = Ok id -> is_u32 w ->
  straw2_draw b ws ids x r i = Ok (straw2_val b x r w id).
Proof.
  intros Hw Hid Hu. unfold straw2_draw, straw2_val. rewrite Hw. cbn [mbind res_bind].
  destruct (Z.eqb_spec w 0) as [| Hne]; cbn [negb]; [done |].
  rewrite Hid. cbn [mbind res_bind]. unfold generate_exponential_distribution.
  pose proof (land_ffff_range (crush_hash32_3 (b_hash b) x id r)) as Hr.
  rewrite crush_ln_eq by done. cbn [mbind res_bind]. fold (ln_value (Z.land (crush_hash32_3 (b_hash b) x id r) 0xffff)).
  pose proof (ln_value_range _ Hr). rewrite s64_id by lia. unfold div64_s64.
  destruct (Z.eqb_spec (s32 w) 0) as [Hz | _]; [| done]. exfalso.
  unfold s32, is_u32 in *. Z.to_euclidean_division_equations. lia.
Qed.

Lemma quot_neg_bounds a w : 0 < a -> 0 < w -> - a <= Z.quot (- a) w <= 0.
Proof.
  intros. rewrite Z.quot_opp_l by lia. rewrite Z.quot_div_nonneg by lia.
  assert (0 <= a / w <= a); [| lia]. split; [apply Z.div_pos; lia |]. apply Z.div_le_upper_bound; nia.
Qed.

Lemma straw2_val_bounds b x r w id :
  0 < w < 2 ^ 31 -> - 2 ^ 48 <= straw2_val b x r w id <= 0.
Proof.
  intros Hw. unfold straw2_val. destruct (Z.eqb_spec w 0); [lia |].
  rewrite s32_id by (unfold is_s32; lia).
  pose proof (ln_value_range _ (land_ffff_range (crush_hash32_3 (b_hash b) x id r))).
  set (l := ln_value _) in *. replace (l - 2 ^ 48) with (- (2 ^ 48 - l)) by lia.
  pose proof (quot_neg_bounds (2 ^ 48 - l) w). lia.
Qed.

(** A larger weight never lowers the draw, as long as the weight is below
    [2^31], where the [int] parameter of
    [generate_exponential_distribution] represents it. *)
Lemma straw2_val_mono b x r id w w' :
  0 <= w <= w' -> w' < 2 ^ 31 -> straw2_val b x r w id <= straw2_val b x r w' id.
Proof.
  intros Hw Hw'. destruct (Z.eq_dec w 0) as [-> | Hne].
  - unfold straw2_val at 1. cbn [Z.eqb].
    destruct (Z.eq_dec w' 0) as [-> |]; [done |].
    pose proof (straw2_val_bounds b x r w' id ltac:(lia)). unfold S64_MIN. lia.
  - unfold straw2_val. destruct (Z.eqb_spec w 0), (Z.eqb_spec w' 0); [lia | lia | lia |].
    rewrite !s32_id by (unfold is_s32; lia).
    pose proof (ln_value_range _ (land_ffff_range (crush_hash32_3 (b_hash b) x id r))).
    set (l := ln_value _) in *. replace (l - 2 ^ 48) with (- (2 ^ 48 - l)) by lia.
    rewrite !Z.quot_opp_l, !Z.quot_div_nonneg by lia.
    pose proof (Z.div_le_compat_l (2 ^ 48 - l) w w'). lia.
Qed.

(** ** bucket_straw2_choose *)

Section straw2.
Context (b : crush_bucket) (x r : Z).

Definition weights_ok (ws : list Z) : Prop :=
  b_size b <= zlen ws /\ Forall is_u32 (take (Z.to_nat (b_size b)) ws).

Definition straw2_f (ws ids : list Z) (i : Z) : Z := straw2_val b x r (tz ws i) (tz ids i).

Lemma straw2_loop_spec ws ids :
  0 < b_size b -> weights_ok ws -> b_size b <= zlen ids ->
  exists h, draw_loop (straw2_draw b ws ids x r) (Z.to_nat (b_size b)) 0 0 0 = Ok h
    /\ first_max (straw2_f ws ids) (b_size b) h.
Proof.
  intros Hs [Hw Hu] Hi.
  destruct (draw_loop_first_max (straw2_draw b ws ids x r) (straw2_f ws ids)
              (Z.to_nat (b_size b)) 0 0 0) as (h & Hl & Hf); [lia | lia | | by left |].
  - intros j Hj. apply straw2_draw_val; [apply rd_tz; lia | apply rd_tz; lia |].
    pose proof (rd_tz ws j ltac:(lia)) as Hr. apply rd_Ok in Hr as [_ Hr].
    apply (Forall_lookup_1 _ _ (Z.to_nat j) _ Hu). by rewrite lookup_take_lt by lia.
  - exists h. split; [done |]. rewrite Z.add_0_l, Z2Nat.id in Hf by lia. done.
Qed.

Lemma straw2_choose_spec ws :
  0 < b_size b <= zlen (b_items b) -> weights_ok ws ->
  exists h item, bucket_straw2_choose b ws x r None 0 = Ok item
    /\ first_max (straw2_f ws (b_items b)) (b_size b) h /\ rd (b_items b) h = Ok item.
Proof.
  intros Hs Hw. destruct (straw2_loop_spec ws (b_items b)) as (h & Hl & Hf); [lia | done | lia |].
  destruct (rd_in_range (b_items b) h) as [item Hit]; [destruct Hf; lia |].
  exists h, item. split; [| done]. unfold bucket_straw2_choose. cbn. rewrite Hl. exact Hit.
Qed.
End straw2.

(** C34. raising the weight of one straw2 item moves inputs only to that item:
    every input keeps its old item or moves to the reweighted one. *)
Theorem straw2_reweight_minimal b ws k w w' x r :
  0 < b_size b <= zlen (b_items b) -> 0 <= k ->
  b_size b <= zlen ws -> Forall (fun v => 0 <= v < 2 ^ 31) ws ->
  ws !! Z.to_nat k = Some w -> w <= w' < 2 ^ 31 ->
  exists item item',
    bucket_straw2_choose b ws x r None 0 = Ok item /\
    bucket_straw2_choose b (<[Z.to_nat k := w']> ws) x r None 0 = Ok item' /\
    (item' = item \/ rd (b_items b) k = Ok item').
Proof.
  intros Hs Hk0 Hl Hu Hk Hw'.
  assert (Hw : 0 <= w < 2 ^ 31) by (rewrite Forall_forall in Hu; eapply Hu, list_elem_of_lookup_2, Hk).
  assert (Hu' : Forall is_u32 ws) by (eapply Forall_impl; [done |]; unfold is_u32; intros v Hv; cbn in Hv; lia).
  destruct (straw2_choose_spec b x r ws) as (h & item & Hc & Hf & Hit); [done | split; [done | by apply Forall_take] |].
  destruct (straw2_choose_spec b x r (<[Z.to_nat k := w']> ws)) as (h' & item' & Hc' & Hf' & Hit');
    [done | |].
  { split; [unfold zlen in *; by rewrite length_insert |]. apply Forall_take, Forall_insert; [done |]. unfold is_u32. lia. }
  exists item, item'. split; [done |]. split; [done |].
  pose proof (lookup_lt_Some _ _ _ Hk) as Hlt.
  destruct (first_max_change (straw2_f b x r ws (b_items b))
              (straw2_f b x r (<[Z.to_nat k := w']> ws) (b_items b)) (b_size b) k h h') as [-> | ->];
    [| | done | done | left; congruence | by right].
  - intros j Hj0 Hj. unfold straw2_f, tz. by rewrite list_lookup_insert_ne by lia.
  - unfold straw2_f, tz. rewrite list_lookup_insert_eq by done. rewrite Hk. cbn.
    apply straw2_val_mono; lia.
Qed.

Definition ex_straw2 : crush_bucket :=
  mk_bucket (-2) 1 CRUSH_HASH_RJENKINS1 0x30000 3 [3; 4; 5] (bucket_straw2 [0x10000; 0x10000; 0x10000]).

Lemma straw2_reweight_minimal_witness : exists item item',
  bucket_straw2_choose ex_straw2 [0x10000; 0x10000; 0x10000] 77 0 None 0 = Ok item /\
  bucket_straw2_choose ex_straw2 [0x10000; 0x40000; 0x10000] 77 0 None 0 = Ok item' /\
  (item' = item \/ rd (b_items ex_straw2) 1 = Ok item').
Proof.
  apply (straw2_reweight_minimal ex_straw2 [0x10000; 0x10000; 0x10000] 1 0x10000 0x40000 77 0).
  - unfold zlen. cbn. lia.
  - lia.
  - unfold zlen. cbn. lia.
  - repeat constructor; lia.
  - reflexivity.
  - lia.
Defined.

(** a straw2 item of weight zero is never chosen while some item of the
    bucket has a positive weight. *)
Theorem straw2_avoids_zero b ws x r k w :
  0 < b_size b <= zlen (b_items b) -> b_size b <= zlen ws ->
  Forall (fun v => 0 <= v < 2 ^ 31) ws ->
  0 <= k < b_size b -> rd ws k = Ok w -> 0 < w ->
  exists h item wh, bucket_straw2_choose b ws x r None 0 = Ok item /\
    rd (b_items b) h = Ok item /\ rd ws h = Ok wh /\ 0 < wh.
Proof.
  intros Hs Hl Hu Hk Hw Hpos.
  assert (Hu' : Forall is_u32 ws) by (eapply Forall_impl; [done |]; unfold is_u32; intros v Hv; cbn in Hv; lia).
  assert (Hr : forall j v, rd ws j = Ok v -> 0 <= v < 2 ^ 31).
  { intros j v Hv. rewrite Forall_forall in Hu. eapply Hu, rd_elem_of, Hv. }
  destruct (straw2_choose_spec b x r ws) as (h & item & Hc & (Hh & Hm & _) & Hit); [done | split; [done | by apply Forall_take] |].
  exists h, item, (tz ws h). split; [done |]. split; [done |].
  assert (Hwh : rd ws h = Ok (tz ws h)) by (apply rd_tz; lia). split; [done |].
  pose proof (Hr _ _ Hwh). pose proof (Hr _ _ Hw). destruct (Z.eq_dec (tz ws h) 0) as [Hz |]; [| lia].
  exfalso. pose proof (Hm k Hk) as Hle. unfold straw2_f in Hle. rewrite Hz in Hle.
  unfold straw2_val at 2 in Hle. cbn [Z.eqb] in Hle.
  rewrite (rd_tz ws k) in Hw by lia. injection Hw as Hw.
  pose proof (straw2_val_bounds b x r w (tz (b_items b) k) ltac:(lia)).
  rewrite Hw in Hle. unfold S64_MIN in Hle. lia.
Qed.

Lemma straw2_avoids_zero_witness : exists h item wh,
  bucket_straw2_choose ex_straw2 [0; 0x10000; 0] 5 1 None 0 = Ok item /\
  rd (b_items ex_straw2) h = Ok item /\ rd [0; 0x10000; 0] h = Ok wh /\ 0 < wh.
Proof.
  apply (straw2_avoids_zero ex_straw2 [0; 0x10000; 0] 5 1 1 0x10000).
  - unfold zlen. cbn. lia.
  - unfold zlen. cbn. lia.
  - repeat constructor; lia.
  - cbn. lia.
  - reflexivity.
  - lia.
Defined.

(** the weight reaches the division as a signed [int], so a first item
    of weight [2^31] (32768.0) or more takes every input from items of smaller
    weight, whatever the ratio of the weights. *)
Theorem straw2_weight_sign b w0 ws x r item0 items :
  b_items b = item0 :: items -> 0 < b_size b <= zlen (b_items b) ->
  b_size b <= zlen (w0 :: ws) -> 2 ^ 31 <= w0 < 2 ^ 32 ->
  Forall (fun v => 0 <= v < 2 ^ 31) ws ->
  bucket_straw2_choose b (w0 :: ws) x r None 0 = Ok item0.
Proof.
  intros Hi Hs Hl Hw0 Hu.
  assert (Hu' : Forall is_u32 (w0 :: ws)).
  { constructor; [unfold is_u32; lia |].
    eapply Forall_impl; [done |]. unfold is_u32. intros v Hv. cbn in Hv. lia. }
  destruct (straw2_choose_spec b x r (w0 :: ws)) as (h & item & Hc & (Hh & _ & Hf) & Hit); [done | split; [done | by apply Forall_take] |].
  rewrite Hc. destruct (Z.eq_dec h 0) as [-> | Hne].
  { rewrite Hi in Hit. injection Hit as ->. done. }
  exfalso. pose proof (Hf 0 ltac:(lia)) as Hlt. unfold straw2_f in Hlt.
  assert (H0 : 0 <= straw2_val b x r (tz (w0 :: ws) 0) (tz (b_items b) 0)).
  { change (tz (w0 :: ws) 0) with w0. unfold straw2_val. destruct (Z.eqb_spec w0 0); [lia |].
    assert (Hsw : s32 w0 = w0 - 2 ^ 32) by (unfold s32; Z.to_euclidean_division_equations; lia).
    rewrite Hsw.
    pose proof (ln_value_range _ (land_ffff_range (crush_hash32_3 (b_hash b) x (tz (b_items b) 0) r))).
    set (l := ln_value _) in *. replace (l - 2 ^ 48) with (- (2 ^ 48 - l)) by lia.
    replace (w0 - 2 ^ 32) with (- (2 ^ 32 - w0)) by lia.
    rewrite Z.quot_opp_opp by lia. apply Z.quot_pos; lia. }
  assert (Hh' : 0 <= tz (w0 :: ws) h < 2 ^ 31).
  { rewrite Forall_forall in Hu. apply Hu. apply rd_elem_of with (h - 1).
    pose proof (rd_tz (w0 :: ws) h ltac:(lia)) as Hrd. apply rd_Ok in Hrd as [_ Hrd].
    apply rd_Ok. split; [lia |]. replace (Z.to_nat h) with (S (Z.to_nat (h - 1))) in Hrd by lia.
    exact Hrd. }
  destruct (Z.eq_dec (tz (w0 :: ws) h) 0) as [Hz |].
  - rewrite Hz in Hlt. unfold straw2_val at 2 in Hlt. cbn [Z.eqb] in Hlt. unfold S64_MIN in Hlt. lia.
  - pose proof (straw2_val_bounds b x r (tz (w0 :: ws) h) (tz (b_items b) h) ltac:(lia)). lia.
Qed.

Lemma straw2_weight_sign_witness :
  bucket_straw2_choose ex_straw2 [0x80000000; 0x7fff0000; 0x7fff0000] 123 0 None 0 = Ok 3.
Proof.
  apply (straw2_weight_sign ex_straw2 0x80000000 [0x7fff0000; 0x7fff0000] 123 0 3 [4; 5]).
  - reflexivity.
  - unfold zlen. cbn. lia.
  - unfold zlen. cbn. lia.
  - lia.
  - repeat constructor; lia.
Defined.

(** ** straw *)

Lemma straw_choose_total b straws x r :
  0 < b_size b <= zlen (b_items b) -> b_size b <= zlen straws ->
  exists h item, bucket_straw_choose b straws x r = Ok item
    /\ 0 <= h < b_size b /\ rd (b_items b) h = Ok item.
Proof.
  intros Hs Hl.
  destruct (draw_loop_first_max (straw_draw b straws x r)
    (fun i => u64 (Z.land (crush_hash32_3 (b_hash b) x (tz (b_items b) i) r) 0xffff * tz straws i))
    (Z.to_nat (b_size b)) 0 0 0) as (h & Hl' & Hf); [lia | lia | | by left |].
  - intros j Hj. unfold straw_draw. by rewrite !rd_tz by lia.
  - rewrite Z.add_0_l, Z2Nat.id in Hf by lia. destruct Hf as [Hh _].
    destruct (rd_in_range (b_items b) h) as [item Hit]; [lia |].
    exists h, item. split; [| done]. unfold bucket_straw_choose. rewrite Hl'. exact Hit.
Qed.

(** ** list *)

(** The prefix sums of a list bucket are consistent with the item weights. *)
Definition list_sums_ok (size : Z) (iw sw : list Z) : Prop :=
  size <= zlen iw /\ size <= zlen sw /\ Forall is_u32 iw /\ Forall is_u32 sw /\
  (forall i, 0 <= i < size -> tz sw i = (if i =? 0 then 0 else tz sw (i - 1)) + tz iw i).

Lemma tz_nonneg l i : Forall is_u32 l -> is_u32 (tz l i).
Proof.
  intros Hf. unfold tz. destruct (l !! Z.to_nat i) as [v|] eqn:E; cbn; [| unfold is_u32; lia].
  rewrite Forall_forall in Hf. eapply Hf, list_elem_of_lookup_2, E.
Qed.

Lemma scaled_lt h s : 0 <= h <= 0xffff -> 0 < s < 2 ^ 32 -> 0 <= Z.shiftr (u64 (h * s)) 16 < s.
Proof.
  intros Hh Hs. rewrite u64_id by nia. rewrite Z.shiftr_div_pow2 by lia.
  split; [apply Z.div_pos; nia |]. apply Z.div_lt_upper_bound; nia.
Qed.

(** when the prefix sums are right and the bucket's total weight is
    positive, the list method chooses an item of positive weight; the
    bad-sums fallback at the end of the function is not reached. *)
Theorem list_choose_positive b iw sw x r :
  0 < b_size b <= zlen (b_items b) -> list_sums_ok (b_size b) iw sw ->
  0 < tz sw (b_size b - 1) ->
  exists i item, bucket_list_choose b iw sw x r = Ok item /\
    0 <= i < b_size b /\ rd (b_items b) i = Ok item /\ 0 < tz iw i.
Proof.
  intros Hs (Hli & Hls & Hui & Hus & Hsum) Htot. unfold bucket_list_choose.
  assert (H : forall n, Z.of_nat n <= b_size b -> 0 < Z.of_nat n -> 0 < tz sw (Z.of_nat n - 1) ->
    exists i item, list_choose_loop b iw sw x r n = Ok item /\
      0 <= i < b_size b /\ rd (b_items b) i = Ok item /\ 0 < tz iw i).
  { induction n as [| n IH]; intros Hn Hn0 Hpos; [lia |]. cbn [list_choose_loop].
    destruct (rd_in_range (b_items b) (Z.of_nat n)) as [item Hit]; [lia |].
    rewrite Hit. cbn [mbind res_bind]. rewrite (rd_tz sw), (rd_tz iw) by lia. cbn [mbind res_bind].
    replace (Z.of_nat (S n) - 1) with (Z.of_nat n) in Hpos by lia.
    pose proof (tz_nonneg sw (Z.of_nat n) Hus). pose proof (tz_nonneg iw (Z.of_nat n) Hui).
    pose proof (scaled_lt _ (tz sw (Z.of_nat n))
      (land_ffff_range (crush_hash32_4 (b_hash b) x item r (b_id b))) ltac:(unfold is_u32 in *; lia)) as Hsc.
    destruct (Z.ltb_spec (Z.shiftr (u64 (Z.land (crush_hash32_4 (b_hash b) x item r (b_id b)) 0xffff
      * tz sw (Z.of_nat n))) 16) (tz iw (Z.of_nat n))) as [Hlt | Hge].
    - exists (Z.of_nat n), item. split; [done |]. split; [lia |]. split; [done | lia].
    - pose proof (Hsum (Z.of_nat n) ltac:(lia)) as Hn'.
      destruct (Z.eqb_spec (Z.of_nat n) 0) as [Hz | Hz]; [lia |].
      pose proof (tz_nonneg sw (Z.of_nat n - 1) Hus).
      apply IH; [lia | lia |]. unfold is_u32 in *. lia. }
  apply H; rewrite ?Z2Nat.id by lia; lia.
Qed.

Definition ex_list : crush_bucket :=
  mk_bucket (-3) 1 CRUSH_HASH_RJENKINS1 0x30000 3 [6; 7; 8]
    (bucket_list [0x10000; 0; 0x20000] [0x10000; 0x10000; 0x30000]).

Lemma list_choose_positive_witness : exists i item,
  bucket_list_choose ex_list [0x10000; 0; 0x20000] [0x10000; 0x10000; 0x30000] 42 0 = Ok item /\
  0 <= i < 3 /\ rd [6; 7; 8] i = Ok item /\ 0 < tz [0x10000; 0; 0x20000] i.
Proof.
  apply (list_choose_positive ex_list [0x10000; 0; 0x20000] [0x10000; 0x10000; 0x30000] 42 0).
  - unfold zlen. cbn. lia.
  - split; [unfold zlen; cbn; lia |]. split; [unfold zlen; cbn; lia |].
    split; [repeat constructor; lia |]. split; [repeat constructor; lia |].
    intros i Hi. cbn in Hi. assert (i = 0 \/ i = 1 \/ i = 2) as [-> | [-> | ->]] by lia; reflexivity.
  - vm_compute. reflexivity.
Defined.

Lemma list_choose_total b iw sw x r :
  0 < b_size b <= zlen (b_items b) -> b_size b <= zlen iw -> b_size b <= zlen sw ->
  exists i item, bucket_list_choose b iw sw x r = Ok item
    /\ 0 <= i < b_size b /\ rd (b_items b) i = Ok item.
Proof.
  intros Hs Hli Hls. unfold bucket_list_choose.
  assert (H : forall n, Z.of_nat n <= b_size b ->
    exists i item, list_choose_loop b iw sw x r n = Ok item
      /\ 0 <= i < b_size b /\ rd (b_items b) i = Ok item).
  { induction n as [| n IH]; intros Hn; cbn [list_choose_loop].
    - destruct (rd_in_range (b_items b) 0) as [item Hit]; [lia |]. exists 0, item. split; [done | split; [lia | done]].
    - destruct (rd_in_range (b_items b) (Z.of_nat n)) as [item Hit]; [lia |].
      rewrite Hit. cbn [mbind res_bind]. rewrite (rd_tz sw), (rd_tz iw) by lia. cbn [mbind res_bind].
      case_match; [| apply IH; lia]. exists (Z.of_nat n), item. split; [done | split; [lia | done]]. }
  apply H. lia.
Qed.
