(* ===== verification/CrushTree.v ===== *)
(** * The binary tree method

    Nodes of a tree bucket are numbered in order: leaf [i] is node [2i+1] and
    an inner node of height [h] is an odd multiple of [2^h].  [node h k] is the
    [k]-th node of height [h]; its children are [node (h-1) (2k)] and
    [node (h-1) (2k+1)]. *)

From S2P Require Import Prelude CrushHash CrushLn CrushTypes CrushChoose CrushPerm CrushChooseSpec.

Definition node (h k : Z) : Z := 2 ^ h * (2 * k + 1).

Lemma node_children h k : 1 <= h ->
  node h k - 2 ^ (h - 1) = node (h - 1) (2 * k) /\
  node h k + 2 ^ (h - 1) = node (h - 1) (2 * k + 1).
Proof.
  intros Hh. unfold node.
  assert (2 ^ h = 2 * 2 ^ (h - 1)) by (rewrite <- Z.pow_succ_r by lia; f_equal; lia). lia.
Qed.

Lemma land_1_even h k : 1 <= h -> Z.land (node h k) 1 = 0.
Proof.
  intros Hh. change 1 with (Z.ones 1). rewrite Z.land_ones by lia. change (2 ^ 1) with 2.
  unfold node. replace h with (Z.succ (h - 1)) by lia. rewrite Z.pow_succ_r by lia.
  replace (2 * 2 ^ (h - 1) * (2 * k + 1)) with (2 ^ (h - 1) * (2 * k + 1) * 2) by lia.
  apply Z.mod_mul. lia.
Qed.

Lemma land_1_odd k : Z.land (node 0 k) 1 = 1.
Proof.
  change 1 with (Z.ones 1) at 1. rewrite Z.land_ones by lia. unfold node.
  change (2 ^ 0) with 1. change (2 ^ 1) with 2. Z.to_euclidean_division_equations. lia.
Qed.

Lemma height_loop_node fuel h k acc :
  0 <= h -> h < Z.of_nat fuel -> height_loop fuel (node h k) acc = Ok (acc + h).
Proof.
  revert h acc. induction fuel as [| fuel IH]; intros h acc Hh Hf; [lia |]. cbn [height_loop].
  destruct (Z.eq_dec h 0) as [-> | Hne].
  - rewrite land_1_odd. cbn. by rewrite Z.add_0_r.
  - rewrite land_1_even by lia. cbn [Z.eqb].
    replace (Z.shiftr (node h k) 1) with (node (h - 1) k).
    + rewrite IH by lia. f_equal. lia.
    + rewrite Z.shiftr_div_pow2 by lia. unfold node. replace h with (Z.succ (h - 1)) at 2 by lia.
      rewrite Z.pow_succ_r by lia. change (2 ^ 1) with 2.
      replace (2 * 2 ^ (h - 1) * (2 * k + 1)) with (2 ^ (h - 1) * (2 * k + 1) * 2) by lia.
      by rewrite Z.div_mul.
Qed.

Lemma height_node h k : 0 <= h < 32 -> height (node h k) = Ok h.
Proof. intros. unfold height. rewrite height_loop_node by lia. f_equal. Qed.

Lemma left_node h k : 1 <= h < 32 -> left (node h k) = Ok (node (h - 1) (2 * k)).
Proof.
  intros. unfold left. rewrite height_node by lia. cbn [mbind res_bind mret res_ret].
  rewrite Z.shiftl_1_l. f_equal. apply node_children. lia.
Qed.

Lemma right_node h k : 1 <= h < 32 -> right (node h k) = Ok (node (h - 1) (2 * k + 1)).
Proof.
  intros. unfold right. rewrite height_node by lia. cbn [mbind res_bind mret res_ret].
  rewrite Z.shiftl_1_l. f_equal. apply node_children. lia.
Qed.

Lemma terminal_node h k : 0 <= h -> terminal (node h k) = (h =? 0).
Proof.
  intros Hh. unfold terminal. destruct (Z.eqb_spec h 0) as [-> |].
  - by rewrite land_1_odd.
  - by rewrite land_1_even by lia.
Qed.

(** Node weights of a tree of depth [d] over [size] items: an inner node weighs
    as much as its children, and the leaves past the last item weigh nothing. *)
Record tree_ok (d size : Z) (nw : list Z) : Prop := {
  tree_depth : 1 <= d < 32;
  tree_len : zlen nw = 2 ^ d;
  tree_u32 : Forall is_u32 nw;
  tree_sum : forall h k, 1 <= h < d -> 0 <= k < 2 ^ (d - 1 - h) ->
    tz nw (node h k) = tz nw (node (h - 1) (2 * k)) + tz nw (node (h - 1) (2 * k + 1));
  tree_pad : forall i, size <= i < 2 ^ (d - 1) -> tz nw (node 0 i) = 0;
}.

Lemma node_bound d h k : 0 <= h < d -> 0 <= k < 2 ^ (d - 1 - h) -> 0 < node h k < 2 ^ d.
Proof.
  intros Hh Hk. unfold node.
  assert (Hp : 2 ^ d = 2 ^ h * 2 * 2 ^ (d - 1 - h)).
  { replace d with (h + 1 + (d - 1 - h)) at 1 by lia. rewrite !Z.pow_add_r by lia. lia. }
  assert (0 < 2 ^ h) by (apply Z.pow_pos_nonneg; lia). nia.
Qed.

Lemma child_index d h k : 1 <= h < d -> 0 <= k < 2 ^ (d - 1 - h) ->
  0 <= 2 * k < 2 ^ (d - 1 - (h - 1)) /\ 0 <= 2 * k + 1 < 2 ^ (d - 1 - (h - 1)).
Proof.
  intros Hh Hk. replace (d - 1 - (h - 1)) with (Z.succ (d - 1 - h)) by lia.
  rewrite Z.pow_succ_r by lia. lia.
Qed.

Lemma hash_scaled_lt b x n r w : 0 < w < 2 ^ 32 ->
  0 <= Z.shiftr (u64 (crush_hash32_4 (b_hash b) x n r (b_id b) * w)) 32 < w.
Proof.
  intros Hw. pose proof (crush_hash32_4_u32 (b_hash b) x n r (b_id b)) as Hh. unfold is_u32 in Hh.
  rewrite u64_id by nia. rewrite Z.shiftr_div_pow2 by lia.
  split; [apply Z.div_pos; nia |]. apply Z.div_lt_upper_bound; nia.
Qed.

(** The descent keeps the weight of the current node positive. *)
Lemma tree_choose_loop_spec fuel b nw x r d size h k :
  tree_ok d size nw -> 0 <= h < d -> h < Z.of_nat fuel -> 0 <= k < 2 ^ (d - 1 - h) ->
  0 < tz nw (node h k) ->
  exists i, tree_choose_loop fuel b nw x r (node h k) = Ok (node 0 i)
    /\ 0 <= i < 2 ^ (d - 1) /\ 0 < tz nw (node 0 i).
Proof.
  intros Hok. revert h k. induction fuel as [| fuel IH]; intros h k Hh Hf Hk Hpos; [lia |].
  pose proof (tree_depth _ _ _ Hok). cbn [tree_choose_loop]. rewrite terminal_node by lia.
  destruct (Z.eqb_spec h 0) as [-> | Hne].
  { exists k. split; [done |]. split; [| done]. by rewrite Z.sub_0_r in Hk. }
  pose proof (node_bound d h k ltac:(lia) Hk). pose proof (tree_len _ _ _ Hok) as Hlen.
  destruct (child_index d h k ltac:(lia) Hk) as [Hkl Hkr].
  pose proof (node_bound d (h - 1) (2 * k) ltac:(lia) Hkl).
  pose proof (tz_nonneg nw (node h k) (tree_u32 _ _ _ Hok)).
  pose proof (tz_nonneg nw (node (h - 1) (2 * k)) (tree_u32 _ _ _ Hok)).
  pose proof (tz_nonneg nw (node (h - 1) (2 * k + 1)) (tree_u32 _ _ _ Hok)).
  unfold is_u32 in *.
  pose proof (hash_scaled_lt b x (node h k) r (tz nw (node h k)) ltac:(lia)).
  pose proof (tree_sum _ _ _ Hok h k ltac:(lia) Hk).
  rewrite (rd_tz nw (node h k)) by lia. cbn [mbind res_bind].
  rewrite left_node by lia. cbn [mbind res_bind].
  rewrite (rd_tz nw) by lia. cbn [mbind res_bind].
  destruct (Z.ltb_spec (Z.shiftr (u64 (crush_hash32_4 (b_hash b) x (node h k) r (b_id b)
    * tz nw (node h k))) 32) (tz nw (node (h - 1) (2 * k)))).
  - apply IH; [lia | lia | done | lia].
  - rewrite right_node by lia. cbn [mbind res_bind]. apply IH; [lia | lia | done | lia].
Qed.

Lemma tree_root d : 1 <= d -> Z.shiftr (2 ^ d) 1 = node (d - 1) 0.
Proof.
  intros. rewrite Z.shiftr_div_pow2 by lia. unfold node. change (2 ^ 1) with 2.
  replace d with (Z.succ (d - 1)) at 1 by lia. rewrite Z.pow_succ_r, Z.mul_comm, Z.div_mul by lia. lia.
Qed.

Lemma tree_leaf i : Z.shiftr (node 0 i) 1 = i.
Proof.
  rewrite Z.shiftr_div_pow2 by lia. unfold node. change (2 ^ 0) with 1. change (2 ^ 1) with 2.
  Z.to_euclidean_division_equations. lia.
Qed.

(** Shared with the totality of [crush_bucket_choose]. *)
Lemma tree_choose_spec b d nw x r :
  0 < b_size b <= zlen (b_items b) -> tree_ok d (b_size b) nw ->
  0 < tz nw (node (d - 1) 0) ->
  exists i item, bucket_tree_choose b (2 ^ d) nw x r = Ok item /\
    0 <= i < b_size b /\ rd (b_items b) i = Ok item /\ 0 < tz nw (node 0 i).
Proof.
  intros Hs Hok Hroot. pose proof (tree_depth _ _ _ Hok). unfold bucket_tree_choose.
  rewrite tree_root by lia.
  destruct (tree_choose_loop_spec 32 b nw x r d (b_size b) (d - 1) 0) as (i & Hl & Hi & Hpos);
    [done | lia | lia | | done |].
  { rewrite Z.sub_diag. change (2 ^ 0) with 1. lia. }
  rewrite Hl. cbn [mbind res_bind]. rewrite tree_leaf.
  assert (i < b_size b).
  { destruct (Z.lt_ge_cases i (b_size b)); [done |].
    rewrite (tree_pad _ _ _ Hok i) in Hpos by lia. lia. }
  destruct (rd_in_range (b_items b) i) as [item Hit]; [lia |]. exists i, item.
  split; [done |]. split; [lia | done].
Qed.

(** with consistent node weights and a positive root, the tree method
    terminates at a leaf of positive weight, which is one of the items. *)
Theorem tree_choose_positive b d nw x r :
  0 < b_size b <= zlen (b_items b) -> tree_ok d (b_size b) nw ->
  0 < tz nw (node (d - 1) 0) ->
  exists i item, bucket_tree_choose b (2 ^ d) nw x r = Ok item /\
    0 <= i < b_size b /\ rd (b_items b) i = Ok item /\ 0 < tz nw (node 0 i).
Proof. apply tree_choose_spec. Qed.

Definition ex_tree_weights : list Z := [0; 0x10000; 0x30000; 0x20000; 0x40000; 0x10000; 0x10000; 0].
Definition ex_tree : crush_bucket :=
  mk_bucket (-4) 1 CRUSH_HASH_RJENKINS1 0x40000 3 [20; 21; 22] (bucket_tree 8 ex_tree_weights).

Lemma ex_tree_ok : tree_ok 3 3 ex_tree_weights.
Proof.
  split.
  - lia.
  - reflexivity.
  - repeat constructor; lia.
  - intros h k Hh Hk. assert (h = 1 \/ h = 2) as [-> | ->] by lia.
    + assert (k = 0 \/ k = 1) as [-> | ->] by lia; reflexivity.
    + assert (k = 0) as -> by (change (2 ^ (3 - 1 - 2)) with 1 in Hk; lia). reflexivity.
  - intros i Hi. assert (i = 3) as -> by lia. reflexivity.
Qed.

Lemma tree_choose_positive_witness : exists i item,
  bucket_tree_choose ex_tree (2 ^ 3) ex_tree_weights 9 2 = Ok item /\
  0 <= i < 3 /\ rd [20; 21; 22] i = Ok item /\ 0 < tz ex_tree_weights (node 0 i).
Proof.
  apply (tree_choose_positive ex_tree 3 ex_tree_weights 9 2).
  - unfold zlen. cbn. lia.
  - apply ex_tree_ok.
  - vm_compute. reflexivity.
Defined.
