(* ===== verification/CrushMapper.v ===== *)
(** * The CRUSH mapping algorithm: crush_choose_firstn, crush_choose_indep,
      crush_init_workspace and crush_do_rule of src/src/crush/mapper.c

    The output vectors are lists that are passed in and returned; a pointer into
    the middle of a vector ([o+osize]) is the list from that position on.  The
    two nested do-while loops of [crush_choose_firstn] are one loop
    ([firstn_try]) whose body returns which of the two is taken next; that loop
    and the endless loop of [crush_choose_indep] have a fuel, and the recursive
    call for a leaf a depth.  CrushFirstn.v and CrushIndep.v show what suffices. *)

From S2P Require Import Prelude CrushHash CrushLn CrushTypes CrushChoose.

(** ** Accesses shared by the two choose functions *)

(** [for (i = ...; ...; i++) if (out[i] == item) { collide = 1; break; }] *)
Fixpoint scan (out : list Z) (item : Z) (n : nat) (i : Z) : res bool :=
  match n with
  | O => Ok false
  | S n => v ← rd out i; if v =? item then Ok true else scan out item n (i + 1)
  end.

(** [work->work[-1-in->id]] *)
Definition get_work (cw : crush_work) (b : crush_bucket) : res crush_work_bucket :=
  w ← rd (work cw) (-1 - b_id b);
  match w with Some w => Ok w | None => Fault end.

Definition set_work (cw : crush_work) (b : crush_bucket) (w : crush_work_bucket) : res crush_work :=
  l ← wr (work cw) (-1 - b_id b) (Some w);
  mret (mk_work l (choose_tries cw)).

(** [choose_args ? &choose_args[-1-in->id] : 0] *)
Definition get_choose_arg (choose_args : option (list crush_choose_arg)) (b : crush_bucket)
    : res (option crush_choose_arg) :=
  match choose_args with
  | None => Ok None
  | Some args => Some <$> rd args (-1 - b_id b)
  end.

(** [if (map->choose_tries && ftotal <= map->choose_total_tries)
    map->choose_tries[ftotal]++] *)
Definition count_tries (m : crush_map) (cw : crush_work) (ftotal : Z) : res crush_work :=
  match choose_tries cw with
  | Some t =>
    if ftotal <=? choose_total_tries m then
      v ← rd t ftotal;
      t ← wr t ftotal (u32 (v + 1));
      mret (mk_work (work cw) (Some t))
    else mret cw
  | None => mret cw
  end.

(** ** crush_choose_firstn *)

(** What an iteration of the inner loop does next. *)
Inductive firstn_next : Type :=
  | retry_bucket (in_ : crush_bucket) (ftotal flocal : Z)
  | retry_descent (ftotal : Z)
  | skip_rep
  | got (item ftotal : Z).

Section mapper.
Context (m : crush_map) (weight : list Z) (x : Z) (choose_args : option (list crush_choose_arg)).

Definition item_type (item : Z) : res Z :=
  if item <? 0 then b_type <$> deref_bucket m (-1 - item) else Ok 0.

Definition call_bucket_choose (in_ : crush_bucket) (cw : crush_work) (r position : Z)
    : res (Z * crush_work) :=
  w ← get_work cw in_;
  arg ← get_choose_arg choose_args in_;
  '(item, w) ← crush_bucket_choose in_ w x r arg position;
  cw ← set_work cw in_ w;
  mret (item, cw).

Definition call_perm_choose (in_ : crush_bucket) (cw : crush_work) (r : Z)
    : res (Z * crush_work) :=
  w ← get_work cw in_;
  '(item, w) ← bucket_perm_choose in_ w x r;
  cw ← set_work cw in_ w;
  mret (item, cw).

Section firstn.
Context (local_retries local_fallback_retries vary_r stable : Z).

(** bucket, numrep, type, out, outpos, out_size, tries, recurse_tries,
    recurse_to_leaf, out2, parent_r *)
Definition firstn_fun : Type :=
  crush_bucket -> Z -> Z -> list Z -> Z -> Z -> Z -> Z -> bool -> option (list Z) -> Z ->
  crush_work -> res (Z * list Z * option (list Z) * crush_work).

(** The code at label [reject] when [reject || collide]. *)
Definition firstn_reject (tries : Z) (in_ : crush_bucket) (collide : bool) (ftotal flocal : Z)
    : firstn_next :=
  let ftotal := u32 (ftotal + 1) in
  let flocal := u32 (flocal + 1) in
  if collide && (flocal <=? local_retries) then retry_bucket in_ ftotal flocal
  else if (0 <? local_fallback_retries)
          && (flocal <=? u32 (b_size in_ + local_fallback_retries))
  then retry_bucket in_ ftotal flocal
  else if ftotal <? tries then retry_descent ftotal
  else skip_rep.

(** [r >> (vary_r-1)] *)
Definition leaf_r (r : Z) : res Z :=
  if vary_r =? 0 then Ok 0
  else if 32 <=? vary_r - 1 then Fault
  else Ok (Z.shiftr r (vary_r - 1)).

(** The [if (!collide && recurse_to_leaf)] block: whether the item is rejected. *)
Definition firstn_leaf (rec : firstn_fun) (item r outpos count recurse_tries : Z)
    (out2 : option (list Z)) (cw : crush_work) : res (bool * option (list Z) * crush_work) :=
  if item <? 0 then
    sub_r ← leaf_r r;
    leaf ← deref_bucket m (-1 - item);
    match out2 with
    | None => Fault
    | Some o2 =>
      '(pos, o2, _, cw) ← rec leaf (if stable =? 0 then outpos + 1 else 1) 0 o2 outpos count
                            recurse_tries 0 false None sub_r cw;
      mret (pos <=? outpos, Some o2, cw)
    end
  else
    match out2 with
    | None => Fault
    | Some o2 => o2 ← wr o2 outpos item; mret (false, Some o2, cw)
    end.

(** One iteration of [do { ... } while (retry_bucket)]. *)
Definition firstn_iter (rec : firstn_fun) (type : Z) (out : list Z)
    (outpos count tries recurse_tries : Z) (recurse_to_leaf : bool) (rep parent_r : Z)
    (in_ : crush_bucket) (ftotal flocal : Z) (out2 : option (list Z)) (cw : crush_work)
    : res (firstn_next * option (list Z) * crush_work) :=
  let r := s32 (s32 (rep + parent_r) + ftotal) in
  if b_size in_ =? 0 then
    mret (firstn_reject tries in_ false ftotal flocal, out2, cw)
  else
    '(item, cw) ←
      (if (0 <? local_fallback_retries) && (Z.shiftr (b_size in_) 1 <=? flocal)
          && (local_fallback_retries <? flocal)
       then call_perm_choose in_ cw r
       else call_bucket_choose in_ cw r outpos);
    if max_devices m <=? item then mret (skip_rep, out2, cw)
    else
      itemtype ← item_type item;
      if negb (itemtype =? type) then
        if (0 <=? item) || (max_buckets m <=? -1 - item) then mret (skip_rep, out2, cw)
        else
          next ← deref_bucket m (-1 - item);
          mret (retry_bucket next ftotal flocal, out2, cw)
      else
        collide ← scan out item (Z.to_nat outpos) 0;
        '(reject, out2, cw) ←
          (if negb collide && recurse_to_leaf
           then firstn_leaf rec item r outpos count recurse_tries out2 cw
           else mret (false, out2, cw));
        reject ←
          (if negb reject && negb collide && (itemtype =? 0)
           then is_out weight item x else mret reject);
        if reject || collide
        then mret (firstn_reject tries in_ collide ftotal flocal, out2, cw)
        else mret (got item ftotal, out2, cw).

(** Both do-while loops, for one [rep]: the item found and its [ftotal]. *)
Fixpoint firstn_try (fuel : nat) (rec : firstn_fun) (bucket : crush_bucket) (type : Z)
    (out : list Z) (outpos count tries recurse_tries : Z) (recurse_to_leaf : bool)
    (rep parent_r : Z) (in_ : crush_bucket) (ftotal flocal : Z)
    (out2 : option (list Z)) (cw : crush_work)
    : res (option (Z * Z) * option (list Z) * crush_work) :=
  match fuel with
  | O => NoFuel
  | S fuel =>
    '(next, out2, cw) ← firstn_iter rec type out outpos count tries recurse_tries
                          recurse_to_leaf rep parent_r in_ ftotal flocal out2 cw;
    match next with
    | retry_bucket in_ ftotal flocal =>
        firstn_try fuel rec bucket type out outpos count tries recurse_tries recurse_to_leaf
          rep parent_r in_ ftotal flocal out2 cw
    | retry_descent ftotal =>
        firstn_try fuel rec bucket type out outpos count tries recurse_tries recurse_to_leaf
          rep parent_r bucket ftotal 0 out2 cw
    | skip_rep => mret (None, out2, cw)
    | got item ftotal => mret (Some (item, ftotal), out2, cw)
    end
  end.

(** [for (rep = ...; rep < numrep && count > 0; rep++)], [n] is [numrep - rep]. *)
Fixpoint firstn_reps (fuel : nat) (rec : firstn_fun) (bucket : crush_bucket) (type : Z)
    (tries recurse_tries : Z) (recurse_to_leaf : bool) (parent_r : Z)
    (n : nat) (rep : Z) (out : list Z) (outpos count : Z)
    (out2 : option (list Z)) (cw : crush_work)
    : res (Z * list Z * option (list Z) * crush_work) :=
  match n with
  | O => mret (outpos, out, out2, cw)
  | S n =>
    if count <=? 0 then mret (outpos, out, out2, cw)
    else
      '(o, out2, cw) ← firstn_try fuel rec bucket type out outpos count tries recurse_tries
                         recurse_to_leaf rep parent_r bucket 0 0 out2 cw;
      match o with
      | None =>
          firstn_reps fuel rec bucket type tries recurse_tries recurse_to_leaf parent_r
            n (rep + 1) out outpos count out2 cw
      | Some (item, ftotal) =>
          out ← wr out outpos item;
          cw ← count_tries m cw ftotal;
          firstn_reps fuel rec bucket type tries recurse_tries recurse_to_leaf parent_r
            n (rep + 1) out (outpos + 1) (count - 1) out2 cw
      end
  end.

Fixpoint crush_choose_firstn (depth : nat) (fuel : nat)
    (bucket : crush_bucket) (numrep type : Z) (out : list Z) (outpos out_size : Z)
    (tries recurse_tries : Z) (recurse_to_leaf : bool) (out2 : option (list Z)) (parent_r : Z)
    (cw : crush_work) : res (Z * list Z * option (list Z) * crush_work) :=
  let rec : firstn_fun :=
    match depth with
    | O => fun _ _ _ _ _ _ _ _ _ _ _ _ => NoFuel
    | S depth => crush_choose_firstn depth fuel
    end in
  let rep := if stable =? 0 then outpos else 0 in
  firstn_reps fuel rec bucket type tries recurse_tries recurse_to_leaf parent_r
    (Z.to_nat (numrep - rep)) rep out outpos out_size out2 cw.
End firstn.

(** ** crush_choose_indep *)

(** bucket, left, numrep, type, out, outpos, tries, recurse_tries,
    recurse_to_leaf, out2, parent_r *)
Definition indep_fun : Type :=
  crush_bucket -> Z -> Z -> Z -> list Z -> Z -> Z -> Z -> bool -> option (list Z) -> Z ->
  crush_work -> res (list Z * option (list Z) * crush_work).

(** [if (out2) out2[rep] = v] *)
Definition wr_opt (out2 : option (list Z)) (rep v : Z) : res (option (list Z)) :=
  match out2 with
  | None => Ok None
  | Some o2 => Some <$> wr o2 rep v
  end.

(** initially my result is undefined *)
Fixpoint indep_init (n : nat) (rep : Z) (out : list Z) (out2 : option (list Z))
    : res (list Z * option (list Z)) :=
  match n with
  | O => mret (out, out2)
  | S n =>
    out ← wr out rep CRUSH_ITEM_UNDEF;
    out2 ← wr_opt out2 rep CRUSH_ITEM_UNDEF;
    indep_init n (rep + 1) out out2
  end.

(** The [if (recurse_to_leaf)] block: whether a leaf is missing. *)
Definition indep_leaf (rec : indep_fun) (item r numrep recurse_tries rep : Z)
    (out2 : option (list Z)) (cw : crush_work) : res (bool * option (list Z) * crush_work) :=
  if item <? 0 then
    leaf ← deref_bucket m (-1 - item);
    match out2 with
    | None => Fault
    | Some o2 =>
      '(o2, _, cw) ← rec leaf 1 numrep 0 o2 rep recurse_tries 0 false None r cw;
      v ← rd o2 rep;
      mret (v =? CRUSH_ITEM_NONE, Some o2, cw)
    end
  else out2 ← wr_opt out2 rep item; mret (false, out2, cw).

(** The replica number an attempt tries in bucket [in_]. *)
Definition indep_r (in_ : crush_bucket) (numrep rep parent_r ftotal : Z) : res Z :=
  let r := s32 (rep + parent_r) in
  bump ←
    (if b_alg in_ =? CRUSH_BUCKET_UNIFORM then
       if u32 numrep =? 0 then Fault
       else if b_size in_ mod u32 numrep =? 0 then Ok (u32 ((numrep + 1) * ftotal))
       else Ok (u32 (numrep * ftotal))
     else Ok (u32 (numrep * ftotal)));
  mret (s32 (r + bump)).

(** choose through intervening buckets, for one position *)
Fixpoint indep_descend (fuel : nat) (rec : indep_fun) (numrep type outpos endpos : Z)
    (recurse_tries : Z) (recurse_to_leaf : bool) (parent_r ftotal rep : Z)
    (in_ : crush_bucket) (out : list Z) (out2 : option (list Z)) (left : Z) (cw : crush_work)
    : res (list Z * option (list Z) * Z * crush_work) :=
  match fuel with
  | O => NoFuel
  | S fuel =>
    r ← indep_r in_ numrep rep parent_r ftotal;
    if b_size in_ =? 0 then mret (out, out2, left, cw)
    else
      '(item, cw) ← call_bucket_choose in_ cw r outpos;
      if max_devices m <=? item then
        out ← wr out rep CRUSH_ITEM_NONE;
        out2 ← wr_opt out2 rep CRUSH_ITEM_NONE;
        mret (out, out2, left - 1, cw)
      else
        itemtype ← item_type item;
        if negb (itemtype =? type) then
          if (0 <=? item) || (max_buckets m <=? -1 - item) then
            out ← wr out rep CRUSH_ITEM_NONE;
            out2 ← wr_opt out2 rep CRUSH_ITEM_NONE;
            mret (out, out2, left - 1, cw)
          else
            next ← deref_bucket m (-1 - item);
            indep_descend fuel rec numrep type outpos endpos recurse_tries recurse_to_leaf
              parent_r ftotal rep next out out2 left cw
        else
          collide ← scan out item (Z.to_nat (endpos - outpos)) outpos;
          if collide : bool then mret (out, out2, left, cw)
          else
            '(noleaf, out2, cw) ←
              (if recurse_to_leaf
               then indep_leaf rec item r numrep recurse_tries rep out2 cw
               else mret (false, out2, cw));
            if noleaf : bool then mret (out, out2, left, cw)
            else
              isout ← (if itemtype =? 0 then is_out weight item x else mret false);
              if isout : bool then mret (out, out2, left, cw)
              else
                out ← wr out rep item;
                mret (out, out2, left - 1, cw)
  end.

(** [for (rep = outpos; rep < endpos; rep++)] of one round *)
Fixpoint indep_round (fuel : nat) (rec : indep_fun) (bucket : crush_bucket)
    (numrep type outpos endpos recurse_tries : Z) (recurse_to_leaf : bool) (parent_r ftotal : Z)
    (n : nat) (rep : Z) (out : list Z) (out2 : option (list Z)) (left : Z) (cw : crush_work)
    : res (list Z * option (list Z) * Z * crush_work) :=
  match n with
  | O => mret (out, out2, left, cw)
  | S n =>
    v ← rd out rep;
    '(out, out2, left, cw) ←
      (if negb (v =? CRUSH_ITEM_UNDEF) then mret (out, out2, left, cw)
       else indep_descend fuel rec numrep type outpos endpos recurse_tries recurse_to_leaf
              parent_r ftotal rep bucket out out2 left cw);
    indep_round fuel rec bucket numrep type outpos endpos recurse_tries recurse_to_leaf
      parent_r ftotal n (rep + 1) out out2 left cw
  end.

(** [for (ftotal = 0; left > 0 && ftotal < tries; ftotal++)], [n] is
    [tries - ftotal]; also returns the final [ftotal]. *)
Fixpoint indep_rounds (fuel : nat) (rec : indep_fun) (bucket : crush_bucket)
    (numrep type outpos endpos recurse_tries : Z) (recurse_to_leaf : bool) (parent_r : Z)
    (n : nat) (ftotal : Z) (out : list Z) (out2 : option (list Z)) (left : Z) (cw : crush_work)
    : res (list Z * option (list Z) * Z * Z * crush_work) :=
  match n with
  | O => mret (out, out2, left, ftotal, cw)
  | S n =>
    if left <=? 0 then mret (out, out2, left, ftotal, cw)
    else
      '(out, out2, left, cw) ←
        indep_round fuel rec bucket numrep type outpos endpos recurse_tries recurse_to_leaf
          parent_r ftotal (Z.to_nat (endpos - outpos)) outpos out out2 left cw;
      indep_rounds fuel rec bucket numrep type outpos endpos recurse_tries recurse_to_leaf
        parent_r n (ftotal + 1) out out2 left cw
  end.

(** The final loop: what is still undefined becomes none. *)
Fixpoint indep_finish (n : nat) (rep : Z) (out : list Z) (out2 : option (list Z))
    : res (list Z * option (list Z)) :=
  match n with
  | O => mret (out, out2)
  | S n =>
    v ← rd out rep;
    out ← (if v =? CRUSH_ITEM_UNDEF then wr out rep CRUSH_ITEM_NONE else mret out);
    out2 ←
      match out2 with
      | None => mret None
      | Some o2 =>
        v2 ← rd o2 rep;
        Some <$> (if v2 =? CRUSH_ITEM_UNDEF then wr o2 rep CRUSH_ITEM_NONE else mret o2)
      end;
    indep_finish n (rep + 1) out out2
  end.

Fixpoint crush_choose_indep (depth : nat) (fuel : nat)
    (bucket : crush_bucket) (left numrep type : Z) (out : list Z) (outpos : Z)
    (tries recurse_tries : Z) (recurse_to_leaf : bool) (out2 : option (list Z)) (parent_r : Z)
    (cw : crush_work) : res (list Z * option (list Z) * crush_work) :=
  let rec : indep_fun :=
    match depth with
    | O => fun _ _ _ _ _ _ _ _ _ _ _ _ => NoFuel
    | S depth => crush_choose_indep depth fuel
    end in
  let endpos := outpos + left in
  let n := Z.to_nat (endpos - outpos) in
  '(out, out2) ← indep_init n outpos out out2;
  '(out, out2, _, ftotal, cw) ←
    indep_rounds fuel rec bucket numrep type outpos endpos recurse_tries recurse_to_leaf parent_r
      (Z.to_nat tries) 0 out out2 left cw;
  '(out, out2) ← indep_finish n outpos out out2;
  cw ← count_tries m cw ftotal;
  mret (out, out2, cw).
End mapper.

(** ** crush_init_workspace *)

Definition sizeof_crush_work : Z := 8.
Definition sizeof_pointer : Z := 8.
Definition sizeof_crush_work_bucket : Z := 16.
Definition sizeof_u32 : Z := 4.

(** The permutation array of a bucket points into memory that the function does
    not write: [mem b] is what position [b]'s array holds.  [point] is the
    offset reached in the workspace. *)
Fixpoint init_work_loop (mem : Z -> list Z) (bs : list (option crush_bucket)) (b point : Z)
    : list (option crush_work_bucket) * Z :=
  match bs with
  | [] => ([], point)
  | None :: bs =>
      let '(ws, point) := init_work_loop mem bs (b + 1) point in (None :: ws, point)
  | Some bk :: bs =>
      let point := point + sizeof_crush_work_bucket in
      let point := point + b_size bk * sizeof_u32 in
      let '(ws, point) := init_work_loop mem bs (b + 1) point in
      (Some (mk_work_bucket 0 0 (mem b)) :: ws, point)
  end.

Definition crush_init_workspace (m : crush_map) (tries : option (list Z)) (mem : Z -> list Z)
    : res crush_work :=
  let point := sizeof_crush_work + max_buckets m * sizeof_pointer in
  let '(ws, point) := init_work_loop mem (buckets m) 0 point in
  if negb (point =? working_size m) then Fault
  else Ok (mk_work ws tries).

(** ** crush_do_rule *)

(** The variables of the function that live across steps. *)
Record rule_state : Type := mk_rs {
  rs_w : list Z;
  rs_o : list Z;
  rs_c : list Z;
  rs_wsize : Z;
  rs_result : list Z;
  rs_cw : crush_work;
  rs_choose_tries : Z;
  rs_choose_leaf_tries : Z;
  rs_local_retries : Z;
  rs_local_fallback_retries : Z;
  rs_vary_r : Z;
  rs_stable : Z;
}.

Section do_rule.
Context (fuel : nat) (m : crush_map) (weight : list Z) (x : Z)
  (choose_args : option (list crush_choose_arg)) (result_max : Z).

Definition take_ok (arg : Z) : bool :=
  ((0 <=? arg) && (arg <? max_devices m))
  || ((0 <=? -1 - arg) && (-1 - arg <? max_buckets m)
      && match buckets m !! Z.to_nat (-1 - arg) with Some (Some _) => true | _ => false end).

Definition step_take (s : rule_state) (arg : Z) : res rule_state :=
  if take_ok arg then
    w ← wr (rs_w s) 0 arg;
    mret (mk_rs w (rs_o s) (rs_c s) 1 (rs_result s) (rs_cw s) (rs_choose_tries s)
            (rs_choose_leaf_tries s) (rs_local_retries s) (rs_local_fallback_retries s)
            (rs_vary_r s) (rs_stable s))
  else mret s.

(** The call of [crush_choose_firstn] or [crush_choose_indep] for one [w[i]]. *)
Definition choose_one (s : rule_state) (firstn recurse_to_leaf : bool) (numrep type : Z)
    (bno : Z) (o c : list Z) (osize : Z) (cw : crush_work)
    : res (list Z * list Z * Z * crush_work) :=
  bucket ← deref_bucket m bno;
  let n := Z.to_nat osize in
  if firstn then
    let recurse_tries :=
      if negb (rs_choose_leaf_tries s =? 0) then rs_choose_leaf_tries s
      else if negb (chooseleaf_descend_once m =? 0) then 1
      else rs_choose_tries s in
    '(pos, out, out2, cw) ←
      crush_choose_firstn m weight x choose_args (u32 (rs_local_retries s))
        (u32 (rs_local_fallback_retries s)) (u32 (rs_vary_r s)) (u32 (rs_stable s)) 1 fuel
        bucket numrep type (drop n o) 0 (result_max - osize) (u32 (rs_choose_tries s))
        (u32 recurse_tries) recurse_to_leaf (Some (drop n c)) 0 cw;
    mret (take n o ++ out, take n c ++ default [] out2, osize + pos, cw)
  else
    let out_size := if numrep <? result_max - osize then numrep else result_max - osize in
    '(out, out2, cw) ←
      crush_choose_indep m weight x choose_args 1 fuel
        bucket out_size numrep type (drop n o) 0 (u32 (rs_choose_tries s))
        (u32 (if negb (rs_choose_leaf_tries s =? 0) then rs_choose_leaf_tries s else 1))
        recurse_to_leaf (Some (drop n c)) 0 cw;
    mret (take n o ++ out, take n c ++ default [] out2, osize + out_size, cw).

(** [for (i = 0; i < wsize; i++)] of a choose step *)
Fixpoint choose_loop (s : rule_state) (firstn recurse_to_leaf : bool) (arg1 arg2 : Z)
    (n : nat) (i : Z) (o c : list Z) (osize : Z) (cw : crush_work)
    : res (list Z * list Z * Z * crush_work) :=
  match n with
  | O => mret (o, c, osize, cw)
  | S n =>
    let numrep := if arg1 <=? 0 then arg1 + result_max else arg1 in
    if numrep <=? 0 then choose_loop s firstn recurse_to_leaf arg1 arg2 n (i + 1) o c osize cw
    else
      wi ← rd (rs_w s) i;
      let bno := -1 - wi in
      if (bno <? 0) || (max_buckets m <=? bno)
      then choose_loop s firstn recurse_to_leaf arg1 arg2 n (i + 1) o c osize cw
      else
        '(o, c, osize, cw) ← choose_one s firstn recurse_to_leaf numrep arg2 bno o c osize cw;
        choose_loop s firstn recurse_to_leaf arg1 arg2 n (i + 1) o c osize cw
  end.

Definition step_choose (s : rule_state) (firstn recurse_to_leaf : bool) (arg1 arg2 : Z)
    : res rule_state :=
  if rs_wsize s =? 0 then mret s
  else
    '(o, c, osize, cw) ←
      choose_loop s firstn recurse_to_leaf arg1 arg2 (Z.to_nat (rs_wsize s)) 0
        (rs_o s) (rs_c s) 0 (rs_cw s);
    let o := if recurse_to_leaf then take (Z.to_nat osize) c ++ drop (Z.to_nat osize) o else o in
    mret (mk_rs o (rs_w s) c osize (rs_result s) cw (rs_choose_tries s)
            (rs_choose_leaf_tries s) (rs_local_retries s) (rs_local_fallback_retries s)
            (rs_vary_r s) (rs_stable s)).

Fixpoint emit_loop (w : list Z) (n : nat) (i : Z) (result : list Z) : res (list Z) :=
  match n with
  | O => mret result
  | S n =>
    if result_max <=? zlen result then mret result
    else v ← rd w i; emit_loop w n (i + 1) (result ++ [v])
  end.

Definition step_emit (s : rule_state) : res rule_state :=
  result ← emit_loop (rs_w s) (Z.to_nat (rs_wsize s)) 0 (rs_result s);
  mret (mk_rs (rs_w s) (rs_o s) (rs_c s) 0 result (rs_cw s) (rs_choose_tries s)
          (rs_choose_leaf_tries s) (rs_local_retries s) (rs_local_fallback_retries s)
          (rs_vary_r s) (rs_stable s)).

(** The [SET_*] steps. *)
Definition step_set (s : rule_state) (op v : Z) : rule_state :=
  let set ct clt lr lfr vr st :=
    mk_rs (rs_w s) (rs_o s) (rs_c s) (rs_wsize s) (rs_result s) (rs_cw s) ct clt lr lfr vr st in
  let ct := rs_choose_tries s in
  let clt := rs_choose_leaf_tries s in
  let lr := rs_local_retries s in
  let lfr := rs_local_fallback_retries s in
  let vr := rs_vary_r s in
  let st := rs_stable s in
  if op =? CRUSH_RULE_SET_CHOOSE_TRIES then
    if 0 <? v then set v clt lr lfr vr st else s
  else if op =? CRUSH_RULE_SET_CHOOSELEAF_TRIES then
    if 0 <? v then set ct v lr lfr vr st else s
  else if op =? CRUSH_RULE_SET_CHOOSE_LOCAL_TRIES then
    if 0 <=? v then set ct clt v lfr vr st else s
  else if op =? CRUSH_RULE_SET_CHOOSE_LOCAL_FALLBACK_TRIES then
    if 0 <=? v then set ct clt lr v vr st else s
  else if op =? CRUSH_RULE_SET_CHOOSELEAF_VARY_R then
    if 0 <=? v then set ct clt lr lfr v st else s
  else if op =? CRUSH_RULE_SET_CHOOSELEAF_STABLE then
    if 0 <=? v then set ct clt lr lfr vr v else s
  else s.

Definition rule_step (s : rule_state) (st : crush_rule_step) : res rule_state :=
  let o := op st in
  if o =? CRUSH_RULE_TAKE then step_take s (arg1 st)
  else if o =? CRUSH_RULE_CHOOSELEAF_FIRSTN then step_choose s true true (arg1 st) (arg2 st)
  else if o =? CRUSH_RULE_CHOOSE_FIRSTN then step_choose s true false (arg1 st) (arg2 st)
  else if o =? CRUSH_RULE_CHOOSELEAF_INDEP then step_choose s false true (arg1 st) (arg2 st)
  else if o =? CRUSH_RULE_CHOOSE_INDEP then step_choose s false false (arg1 st) (arg2 st)
  else if o =? CRUSH_RULE_EMIT then step_emit s
  else mret (step_set s o (arg1 st)).

Fixpoint rule_steps (s : rule_state) (l : list crush_rule_step) : res rule_state :=
  match l with
  | [] => mret s
  | st :: l => s ← rule_step s st; rule_steps s l
  end.

(** [a], [b] and [c] are the three scratch vectors after the workspace.  The
    result is the part of [result] that was filled; its length is the return
    value. *)
Definition crush_do_rule (ruleno : Z) (cw : crush_work) (a b c : list Z)
    : res (list Z * crush_work) :=
  if max_rules m <=? u32 ruleno then mret ([], cw)
  else
    r ← rd (rules m) (u32 ruleno);
    match r with
    | None => Fault
    | Some r =>
      s ← rule_steps
            (mk_rs a b c 0 [] cw (s32 (choose_total_tries m + 1)) 0
               (s32 (choose_local_tries m)) (s32 (choose_local_fallback_tries m))
               (chooseleaf_vary_r m) (chooseleaf_stable m))
            (steps r);
      mret (rs_result s, rs_cw s)
    end.
End do_rule.
