(* ===== verification/CrushMapSpec.v ===== *)
(** * Well-formed maps, and the logic for code that uses the workspace

    [map_ok] is what a decoded or built CRUSH map satisfies.  [runs] is a small
    Hoare logic for the mapper: [runs f P] says that from every valid workspace
    the code [f] returns, leaves a valid workspace, and returns one and the same
    value, which satisfies [P].  Termination, absence of faults, independence of
    the workspace's history and functional correctness are thus proved in one
    pass over the code. *)

From S2P Require Import Prelude CrushHash CrushLn CrushTypes CrushChoose CrushPerm CrushChooseSpec CrushTree CrushMapper.

(** ** Buckets *)

Definition bucket_ok (b : crush_bucket) : Prop :=
  is_u32 (b_size b) /\ b_size b <= zlen (b_items b) /\
  match b_body b with
  | bucket_uniform _ => True
  | bucket_list iw sw => b_size b <= zlen iw /\ b_size b <= zlen sw
  | bucket_tree nn nw =>
      b_size b <> 0 -> exists d, nn = 2 ^ d /\ tree_ok d (b_size b) nw /\ 0 < tz nw (node (d - 1) 0)
  | bucket_straw _ straws => b_size b <= zlen straws
  | bucket_straw2 iw => weights_ok b iw
  | bucket_other _ => True
  end.

Definition arg_ok (b : crush_bucket) (arg : option crush_choose_arg) : Prop :=
  match arg with
  | None => True
  | Some a =>
    match weight_set a with None => True | Some ws => ws <> [] /\ Forall (weights_ok b) ws end /\
    match ids a with None => True | Some l => b_size b <= zlen l end
  end.

(** The items a bucket can return. *)
Definition b_live (b : crush_bucket) : list Z := take (Z.to_nat (b_size b)) (b_items b).

Lemma rd_live b i item :
  0 <= i < b_size b -> rd (b_items b) i = Ok item -> item ∈ b_live b.
Proof.
  intros Hi Hit. apply rd_Ok in Hit as [_ Hit]. apply list_elem_of_lookup_2 with (Z.to_nat i).
  unfold b_live. by rewrite lookup_take_lt by lia.
Qed.

Lemma get_choose_arg_weights_ok b iw arg position :
  weights_ok b iw -> arg_ok b arg -> is_u32 position ->
  exists ws, get_choose_arg_weights iw arg position = Ok ws /\ weights_ok b ws.
Proof.
  intros Hiw Harg Hp. unfold get_choose_arg_weights. destruct arg as [a |]; [| eauto].
  destruct Harg as [Hws _]. destruct (weight_set a) as [ws |]; [| eauto].
  destruct Hws as [Hne Hall]. rewrite u32_id by done.
  assert (0 < zlen ws) by (unfold zlen; destruct ws; [done | cbn; lia]).
  unfold is_u32 in Hp.
  destruct (rd_in_range ws (if zlen ws <=? position then zlen ws - 1 else position)) as [w Hw].
  { destruct (Z.leb_spec (zlen ws) position); lia. }
  exists w. split; [done |]. rewrite Forall_forall in Hall. eapply Hall, rd_elem_of, Hw.
Qed.

(** A choose method does not look at the cache (the permutation method looks at
    it, but [bucket_perm_choose_spec] says that it does not matter). *)
Lemma crush_bucket_choose_runs b x r arg position :
  bucket_ok b -> b_size b <> 0 -> arg_ok b arg -> is_u32 position ->
  exists item, item ∈ b_live b /\
    forall w, work_ok b w ->
      exists w', crush_bucket_choose b w x r arg position = Ok (item, w') /\ work_ok b w'.
Proof.
  intros (Hu & Hl & Hb) Hnz Harg Hp. assert (Hs : 0 < b_size b) by (unfold is_u32 in Hu; lia).
  unfold crush_bucket_choose. destruct (Z.eqb_spec (b_size b) 0) as [| _]; [done |].
  destruct (b_body b) as [iw | iw sw | nn nw | iw st | iw | alg].
  - destruct (bucket_perm_ref_total b x r) as (item & Href & Hin); [lia |].
    exists item. split; [done |]. intros w Hw. by apply bucket_perm_choose_spec.
  - destruct (list_choose_total b iw sw x r) as (i & item & Hc & Hi & Hit); [lia | lia | lia |].
    exists item. split; [by eapply rd_live |]. intros w Hw. rewrite Hc. by exists w.
  - destruct Hb as (d & -> & Hok & Hroot); [done |].
    destruct (tree_choose_spec b d nw x r) as (i & item & Hc & Hi & Hit & _); [lia | done | done |].
    exists item. split; [by eapply rd_live |]. intros w Hw. rewrite Hc. by exists w.
  - destruct (straw_choose_total b st x r) as (i & item & Hc & Hi & Hit); [lia | lia |].
    exists item. split; [by eapply rd_live |]. intros w Hw. rewrite Hc. by exists w.
  - unfold bucket_straw2_choose.
    destruct (get_choose_arg_weights_ok b iw arg position) as (ws & Hws & Hok); [done .. |].
    rewrite Hws. cbn [mbind res_bind].
    destruct (straw2_loop_spec b x r ws (get_choose_arg_ids b arg)) as (h & Hc & Hf & _); [lia | done | |].
    { unfold get_choose_arg_ids. destruct arg as [a |]; [| lia].
      destruct Harg as [_ Hids]. destruct (ids a); lia. }
    destruct (rd_in_range (b_items b) h) as [item Hit]; [lia |].
    exists item. split; [by eapply rd_live |]. intros w Hw. rewrite Hc. cbn [mbind res_bind].
    rewrite Hit. by exists w.
  - destruct (rd_in_range (b_items b) 0) as [item Hit]; [lia |].
    exists item. split; [apply (rd_live b 0); [lia | done] |]. intros w Hw. rewrite Hit. by exists w.
Qed.

Lemma bucket_perm_choose_runs b x r :
  bucket_ok b -> b_size b <> 0 ->
  exists item, item ∈ b_live b /\
    forall w, work_ok b w ->
      exists w', bucket_perm_choose b w x r = Ok (item, w') /\ work_ok b w'.
Proof.
  intros (Hu & Hl & _) Hnz.
  destruct (bucket_perm_ref_total b x r) as (item & Href & Hin); [unfold is_u32 in Hu; lia |].
  exists item. split; [done |]. intros w Hw. by apply bucket_perm_choose_spec.
Qed.

(** ** Maps *)

Definition is_bucket (m : crush_map) (b : crush_bucket) : Prop :=
  buckets m !! Z.to_nat (-1 - b_id b) = Some (Some b) /\ b_id b < 0.

(** [rank] witnesses that the hierarchy has no cycle. *)
Record map_ok (m : crush_map) (rank : Z -> nat) : Prop := {
  mo_id : forall i b, buckets m !! i = Some (Some b) -> b_id b = -1 - Z.of_nat i;
  mo_bucket : forall b, is_bucket m b -> bucket_ok b;
  mo_type : forall b, is_bucket m b -> b_type b <> 0;
  mo_child : forall b item, is_bucket m b -> item ∈ b_live b -> item < 0 ->
    exists c, buckets m !! Z.to_nat (-1 - item) = Some (Some c);
  mo_rank : forall b item, is_bucket m b -> item ∈ b_live b -> item < 0 ->
    (rank item < rank (b_id b))%nat;
  mo_tries : 0 <= choose_total_tries m;
}.

Lemma deref_bucket_Ok m i b :
  deref_bucket m i = Ok b <-> 0 <= i /\ buckets m !! Z.to_nat i = Some (Some b).
Proof.
  unfold deref_bucket. split.
  - intros H. apply res_bind_Ok in H as ([b' |] & Hr & Hb); [| done]. simplify_eq.
    by apply rd_Ok in Hr.
  - intros [Hi Hb]. assert (Hr : rd (buckets m) i = Ok (Some b)) by (by apply rd_Ok).
    by rewrite Hr.
Qed.

(** Children of a bucket of the map are buckets of the map. *)
Lemma map_ok_child m rank b item :
  map_ok m rank -> is_bucket m b -> item ∈ b_live b -> item < 0 ->
  exists c, deref_bucket m (-1 - item) = Ok c /\ is_bucket m c /\ b_id c = item
    /\ (rank (b_id c) < rank (b_id b))%nat.
Proof.
  intros Hm Hb Hin Hneg. destruct (mo_child _ _ Hm b item Hb Hin Hneg) as [c Hc].
  pose proof (mo_id _ _ Hm _ _ Hc) as Hid. rewrite Z2Nat.id in Hid by lia.
  assert (b_id c = item) as Hci by lia.
  exists c. split; [apply deref_bucket_Ok; split; [lia | done] |].
  split; [split; [by rewrite Hci | lia] |]. split; [done |].
  rewrite Hci. by apply (mo_rank _ _ Hm).
Qed.

Definition args_ok (m : crush_map) (choose_args : option (list crush_choose_arg)) : Prop :=
  match choose_args with
  | None => True
  | Some args => forall b, is_bucket m b -> exists a, args !! Z.to_nat (-1 - b_id b) = Some a /\ arg_ok b (Some a)
  end.

(** ** Items below a bucket *)

Inductive below (m : crush_map) : crush_bucket -> Z -> Prop :=
  | below_item b item : item ∈ b_live b -> below m b item
  | below_child b c item :
      b_id c ∈ b_live b -> is_bucket m c -> below m c item -> below m b item.

Lemma below_trans m b c item :
  below m b (b_id c) -> is_bucket m c -> below m c item -> below m b item.
Proof.
  intros Hbc Hc Hci. remember (b_id c) as k eqn:Hk. revert Hk.
  induction Hbc as [b k Hin | b d k Hin Hd Hdk IH]; intros ->.
  - by apply below_child with c.
  - apply below_child with d; [done | done |]. by apply IH.
Qed.

(** ** The workspace *)

Definition work_inv (m : crush_map) (cw : crush_work) : Prop :=
  (forall b, is_bucket m b ->
     exists w, work cw !! Z.to_nat (-1 - b_id b) = Some (Some w) /\ work_ok b w) /\
  match choose_tries cw with None => True | Some t => zlen t = choose_total_tries m + 1 end.

Section runs.
Context (m : crush_map) (rank : Z -> nat) (Hm : map_ok m rank).

Definition runs {A} (f : crush_work -> res (A * crush_work)) (P : A -> Prop) : Prop :=
  exists v, P v /\ forall cw, work_inv m cw -> exists cw', f cw = Ok (v, cw') /\ work_inv m cw'.

Lemma runs_ret {A} (v : A) (P : A -> Prop) : P v -> runs (fun cw => mret (v, cw)) P.
Proof. intros HP. exists v. split; [done |]. intros cw Hcw. by exists cw. Qed.

Lemma runs_bind {A B} (f : crush_work -> res (A * crush_work))
    (g : A -> crush_work -> res (B * crush_work)) P Q :
  runs f P -> (forall v, P v -> runs (g v) Q) ->
  runs (fun cw => f cw ≫= fun '(a, cw) => g a cw) Q.
Proof.
  intros (v & HP & Hf) Hg. destruct (Hg v HP) as (u & HQ & Hu). exists u. split; [done |].
  intros cw Hcw. destruct (Hf cw Hcw) as (cw1 & E1 & H1). rewrite E1. cbn.
  destruct (Hu cw1 H1) as (cw2 & E2 & H2). by exists cw2.
Qed.

(** A step that does not touch the workspace. *)
Lemma runs_pure {A B} (e : res A) (a : A) (k : A -> crush_work -> res (B * crush_work)) Q :
  e = Ok a -> runs (k a) Q -> runs (fun cw => e ≫= fun a => k a cw) Q.
Proof. intros -> Hk. exact Hk. Qed.

Lemma runs_ext {A} (f g : crush_work -> res (A * crush_work)) P :
  (forall cw, f cw = g cw) -> runs f P -> runs g P.
Proof.
  intros Hfg (v & HP & Hf). exists v. split; [done |]. intros cw Hcw. rewrite <- Hfg. by apply Hf.
Qed.

Lemma runs_mono {A} (f : crush_work -> res (A * crush_work)) (P Q : A -> Prop) :
  runs f P -> (forall v, P v -> Q v) -> runs f Q.
Proof. intros (v & HP & Hf) HPQ. exists v. split; [by apply HPQ | done]. Qed.

Lemma get_work_Ok cw b :
  is_bucket m b -> work_inv m cw -> exists w, get_work cw b = Ok w /\ work_ok b w.
Proof.
  intros Hb [Hw _]. destruct (Hw b Hb) as (w & Hl & Hok). exists w. split; [| done].
  unfold get_work. assert (Hr : rd (work cw) (-1 - b_id b) = Ok (Some w)).
  { apply rd_Ok. destruct Hb. split; [lia | done]. }
  by rewrite Hr.
Qed.

Lemma set_work_Ok cw b w :
  is_bucket m b -> work_inv m cw -> work_ok b w ->
  exists cw', set_work cw b w = Ok cw' /\ work_inv m cw'.
Proof.
  intros Hb [Hw Ht] Hok. destruct (Hw b Hb) as (w0 & Hl & _).
  pose proof (lookup_lt_Some _ _ _ Hl) as Hlt. destruct Hb as [Hbl Hneg].
  unfold set_work. assert (Hr : wr (work cw) (-1 - b_id b) (Some w)
    = Ok (<[Z.to_nat (-1 - b_id b) := Some w]> (work cw))).
  { apply wr_Ok. unfold zlen. split; [lia | done]. }
  rewrite Hr. cbn. eexists. split; [reflexivity |]. split; [| done].
  intros c Hc. cbn. destruct (decide (Z.to_nat (-1 - b_id c) = Z.to_nat (-1 - b_id b))) as [E | E].
  - rewrite E, list_lookup_insert_eq by done. exists w. split; [done |].
    destruct Hc as [Hcl _]. rewrite E in Hcl. by simplify_eq.
  - rewrite list_lookup_insert_ne by done. by apply Hw.
Qed.

Lemma call_bucket_choose_runs x choose_args b r position :
  args_ok m choose_args -> is_bucket m b -> b_size b <> 0 -> is_u32 position ->
  runs (fun cw => call_bucket_choose x choose_args b cw r position) (fun item => item ∈ b_live b).
Proof.
  intros Ha Hb Hnz Hp.
  assert (exists arg, get_choose_arg choose_args b = Ok arg /\ arg_ok b arg) as (arg & Harg & Hargok).
  { unfold get_choose_arg, args_ok in *. destruct choose_args as [args |]; [| eauto].
    destruct (Ha b Hb) as (a & Hl & Hok). exists (Some a). split; [| done].
    assert (Hr : rd args (-1 - b_id b) = Ok a) by (apply rd_Ok; destruct Hb; split; [lia | done]).
    by rewrite Hr. }
  destruct (crush_bucket_choose_runs b x r arg position) as (item & Hin & Hrun);
    [by apply (mo_bucket _ _ Hm) | done | done | done |].
  exists item. split; [done |]. intros cw Hcw. unfold call_bucket_choose.
  destruct (get_work_Ok cw b Hb Hcw) as (w & Hg & Hw). rewrite Hg. cbn [mbind res_bind].
  rewrite Harg. cbn [mbind res_bind]. destruct (Hrun w Hw) as (w' & Hc & Hw'). rewrite Hc. cbn.
  destruct (set_work_Ok cw b w' Hb Hcw Hw') as (cw' & Hs & Hcw'). rewrite Hs. by exists cw'.
Qed.

Lemma call_perm_choose_runs x b r :
  is_bucket m b -> b_size b <> 0 ->
  runs (fun cw => call_perm_choose x b cw r) (fun item => item ∈ b_live b).
Proof.
  intros Hb Hnz.
  destruct (bucket_perm_choose_runs b x r) as (item & Hin & Hrun);
    [by apply (mo_bucket _ _ Hm) | done |].
  exists item. split; [done |]. intros cw Hcw. unfold call_perm_choose.
  destruct (get_work_Ok cw b Hb Hcw) as (w & Hg & Hw). rewrite Hg. cbn [mbind res_bind].
  destruct (Hrun w Hw) as (w' & Hc & Hw'). rewrite Hc. cbn.
  destruct (set_work_Ok cw b w' Hb Hcw Hw') as (cw' & Hs & Hcw'). rewrite Hs. by exists cw'.
Qed.

Lemma count_tries_Ok cw ftotal :
  0 <= ftotal -> work_inv m cw -> exists cw', count_tries m cw ftotal = Ok cw' /\ work_inv m cw'.
Proof.
  intros Hf [Hw Ht]. unfold count_tries. destruct (choose_tries cw) as [t |] eqn:E.
  - destruct (Z.leb_spec ftotal (choose_total_tries m)) as [Hle | Hgt].
    + destruct (rd_in_range t ftotal) as [v Hv]; [lia |]. rewrite Hv. cbn [mbind res_bind].
      assert (Hr : wr t ftotal (u32 (v + 1)) = Ok (<[Z.to_nat ftotal := u32 (v + 1)]> t))
        by (apply wr_Ok; split; [lia | done]).
      rewrite Hr. cbn. eexists. split; [reflexivity |]. split; [done |]. cbn.
      unfold zlen in *. by rewrite length_insert.
    + exists cw. split; [done |]. split; [done |]. by rewrite E.
  - exists cw. split; [done |]. split; [done |]. by rewrite E.
Qed.

Lemma runs_count {A} ftotal (k : crush_work -> res (A * crush_work)) Q :
  0 <= ftotal -> runs k Q -> runs (fun cw => count_tries m cw ftotal ≫= fun cw => k cw) Q.
Proof.
  intros Hf (v & HQ & Hk). exists v. split; [done |]. intros cw Hcw.
  destruct (count_tries_Ok cw ftotal Hf Hcw) as (cw' & E & Hcw'). rewrite E. cbn. by apply Hk.
Qed.

Lemma item_type_Ok b item :
  is_bucket m b -> item ∈ b_live b ->
  exists t, item_type m item = Ok t /\ (t = 0 -> 0 <= item) /\ (0 <= item -> t = 0).
Proof.
  intros Hb Hin. unfold item_type. destruct (Z.ltb_spec item 0) as [Hneg | Hpos].
  - destruct (map_ok_child m rank b item Hm Hb Hin Hneg) as (c & Hd & Hc & _). rewrite Hd. cbn.
    exists (b_type c). split; [done |]. pose proof (mo_type _ _ Hm c Hc). split; [done | lia].
  - exists 0. auto.
Qed.

Lemma is_out_Ok weight item x : 0 <= item -> exists o, is_out weight item x = Ok o.
Proof.
  intros Hi. unfold is_out. destruct (Z.leb_spec (zlen weight) item); [eauto |].
  destruct (rd_in_range weight item) as [w Hw]; [lia |]. rewrite Hw. cbn [mbind res_bind].
  repeat case_match; eauto.
Qed.
End runs.

Lemma scan_Ok out item n i :
  0 <= i -> i + Z.of_nat n <= zlen out ->
  scan out item n i = Ok (bool_decide (item ∈ take n (drop (Z.to_nat i) out))).
Proof.
  revert i. induction n as [| n IH]; intros i Hi Hl; cbn [scan].
  - rewrite take_0, bool_decide_eq_false_2 by apply not_elem_of_nil. done.
  - destruct (rd_in_range out i) as [v Hv]; [lia |]. rewrite Hv. cbn [mbind res_bind].
    apply rd_Ok in Hv as [_ Hv]. rewrite (drop_S _ _ _ Hv). cbn [take].
    destruct (Z.eqb_spec v item) as [-> | Hne].
    + rewrite bool_decide_eq_true_2 by left. done.
    + rewrite IH by lia. f_equal. apply bool_decide_ext. rewrite elem_of_cons.
      replace (Z.to_nat (i + 1)) with (S (Z.to_nat i)) by lia. naive_solver.
Qed.

(** * A small cluster

    A root with three hosts of two devices each, all straw2, and the rules that
    the monitors create for replicated and for erasure-coded pools.  The
    theorems about rules are applied to it. *)

Definition ex_host (id d0 : Z) : crush_bucket :=
  mk_bucket id 1 0 0x20000 2 [d0; d0 + 1] (bucket_straw2 [0x10000; 0x10000]).

Definition ex_root : crush_bucket :=
  mk_bucket (-1) 10 0 0x60000 3 [-2; -3; -4] (bucket_straw2 [0x20000; 0x20000; 0x20000]).

Definition ex_replicated : crush_rule :=
  mk_rule 1 1 10 [mk_step CRUSH_RULE_TAKE (-1) 0; mk_step CRUSH_RULE_CHOOSELEAF_FIRSTN 0 1;
                  mk_step CRUSH_RULE_EMIT 0 0].

Definition ex_erasure : crush_rule :=
  mk_rule 3 1 10 [mk_step CRUSH_RULE_TAKE (-1) 0; mk_step CRUSH_RULE_CHOOSELEAF_INDEP 0 1;
                  mk_step CRUSH_RULE_EMIT 0 0].

(** Spread over devices, with a single try. *)
Definition ex_devices : crush_rule :=
  mk_rule 3 1 10 [mk_step CRUSH_RULE_SET_CHOOSE_TRIES 1 0; mk_step CRUSH_RULE_TAKE (-1) 0;
                  mk_step CRUSH_RULE_CHOOSELEAF_INDEP 0 0; mk_step CRUSH_RULE_EMIT 0 0].

Definition ex_map : crush_map :=
  mk_map [Some ex_root; Some (ex_host (-2) 0); Some (ex_host (-3) 2); Some (ex_host (-4) 4)]
    [Some ex_replicated; Some ex_erasure; Some ex_devices] 6 0 0 50 1 1 1 140 1 54.

Definition ex_rank (id : Z) : nat := if id =? -1 then 1%nat else 0%nat.

Definition ex_mem (b : Z) : list Z := if b =? 0 then [0; 0; 0] else [0; 0].

Definition ex_work : crush_work :=
  mk_work [Some (mk_work_bucket 0 0 [0; 0; 0]); Some (mk_work_bucket 0 0 [0; 0]);
           Some (mk_work_bucket 0 0 [0; 0]); Some (mk_work_bucket 0 0 [0; 0])] None.

Lemma ex_map_buckets (P : crush_bucket -> Prop) :
  P ex_root -> P (ex_host (-2) 0) -> P (ex_host (-3) 2) -> P (ex_host (-4) 4) ->
  forall b, is_bucket ex_map b -> P b.
Proof.
  intros H0 H1 H2 H3 b [Hb _]. revert Hb. generalize (Z.to_nat (-1 - b_id b)).
  intros [| [| [| [| n]]]] H; cbn in H; simplify_eq; done.
Qed.

Lemma ex_straw2_ok b iw :
  b_body b = bucket_straw2 iw -> is_u32 (b_size b) -> b_size b <= zlen (b_items b) ->
  b_size b <= zlen iw -> forallb (fun w => (0 <=? w) && (w <? 2 ^ 32)) iw = true -> bucket_ok b.
Proof.
  intros Hb Hu Hi Hw Hf. split; [done |]. split; [done |]. rewrite Hb. split; [done |].
  apply Forall_take, Forall_forall. intros w Hin. rewrite forallb_forall in Hf.
  specialize (Hf w (proj1 (list_elem_of_In _ _) Hin)). bool_hyps. done.
Qed.

Lemma ex_map_ok : map_ok ex_map ex_rank.
Proof.
  split.
  - intros [| [| [| [| n]]]] b H; cbn in H; simplify_eq; reflexivity.
  - apply ex_map_buckets; (eapply ex_straw2_ok; [reflexivity | done | done | done | reflexivity]).
  - by apply ex_map_buckets.
  - intros b item Hb. revert item. revert b Hb. refine (ex_map_buckets _ _ _ _ _); intros item Hin Hneg;
      vm_compute in Hin; set_unfold in Hin;
      destruct_or? Hin; subst; try lia; cbn; eauto.
  - intros b item Hb. revert item. revert b Hb. refine (ex_map_buckets _ _ _ _ _); intros item Hin Hneg;
      vm_compute in Hin; set_unfold in Hin;
      destruct_or? Hin; subst; try lia; cbn; lia.
  - done.
Qed.

Lemma ex_work_inv : work_inv ex_map ex_work.
Proof.
  split; [| done]. apply ex_map_buckets; (eexists; split; [reflexivity | by apply work_ok_init]).
Qed.

Lemma ex_init_workspace : crush_init_workspace ex_map None ex_mem = Ok ex_work.
Proof. reflexivity. Qed.
