(* ===== verification/CrushFirstn.v ===== *)
(** * crush_choose_firstn: total correctness

    On a well-formed map, with a fuel that covers the retry budget, the function
    returns; every item it adds is of the requested type, lies below the start
    bucket, is not marked out and differs from the items before it; with
    [recurse_to_leaf] every item comes with a device below it that is not out
    and differs from the devices before it.  All of this for every valid
    workspace, with the same result. *)

From S2P Require Import Prelude CrushHash CrushLn CrushTypes CrushChoose CrushPerm CrushChooseSpec CrushTree CrushMapper CrushMapSpec.

Section firstn_spec.
Context (m : crush_map) (rank : Z -> nat) (Hm : map_ok m rank).
Context (weight : list Z) (x : Z) (choose_args : option (list crush_choose_arg))
  (Hargs : args_ok m choose_args).

(** What every chosen item satisfies. *)
Definition good (b : crush_bucket) (type item : Z) : Prop :=
  below m b item /\ item < max_devices m /\ item_type m item = Ok type /\
  (type = 0 -> is_out weight item x = Ok false).

(** The device recorded for [item] at position [i] of the leaf vector. *)
Definition leaf_for (item leaf : Z) (o2 : list Z) (i : nat) : Prop :=
  if item <? 0
  then exists c, deref_bucket m (-1 - item) = Ok c /\ good c 0 leaf /\ leaf ∉ take i o2
  else leaf = item.

(** [o2'] is [o2] except from position [n] on. *)
Definition frame (n : nat) (o o' : list Z) : Prop :=
  length o' = length o /\ take n o' = take n o.

Lemma frame_refl n o : frame n o o.
Proof. done. Qed.

Lemma frame_trans n o1 o2 o3 : frame n o1 o2 -> frame n o2 o3 -> frame n o1 o3.
Proof. intros [] []. split; congruence. Qed.

Lemma frame_insert n o v : frame n o (<[n := v]> o).
Proof. split; [apply length_insert | by apply take_insert_ge]. Qed.

Lemma frame_le n k o o' : (k <= n)%nat -> frame n o o' -> frame k o o'.
Proof.
  intros Hk [Hl Ht]. split; [done |]. apply (f_equal (take k)) in Ht.
  rewrite !take_take in Ht. by replace (k `min` n)%nat with k in Ht by lia.
Qed.

Lemma frame_lookup n o o' i : frame n o o' -> (i < n)%nat -> o' !! i = o !! i.
Proof.
  intros [_ Ht] Hi. rewrite <- (lookup_take_lt o' n i), <- (lookup_take_lt o n i) by done. by rewrite Ht.
Qed.

Definition opt_frame (n : nat) (o o' : option (list Z)) : Prop :=
  match o, o' with
  | Some o, Some o' => frame n o o'
  | None, None => True
  | _, _ => False
  end.

Lemma opt_frame_refl n o : opt_frame n o o.
Proof. by destruct o. Qed.

Lemma opt_frame_trans n o1 o2 o3 : opt_frame n o1 o2 -> opt_frame n o2 o3 -> opt_frame n o1 o3.
Proof. destruct o1, o2, o3; cbn; try done. apply frame_trans. Qed.

Context (local_retries local_fallback_retries vary_r stable : Z)
  (Hlr : is_u32 local_retries) (Hlfr : is_u32 local_fallback_retries)
  (Hvr : 0 <= vary_r <= 32).

(** Bounds on the sizes of the buckets and on the height of the hierarchy, from
    which the length of the retry loops is derived. *)
Context (max_size max_rank : Z)
  (Hsize : forall b, is_bucket m b -> b_size b <= max_size)
  (Hrank : forall b, is_bucket m b -> Z.of_nat (rank (b_id b)) <= max_rank)
  (Hsz0 : 0 <= max_size) (Hrk0 : 0 <= max_rank).

(** An upper bound on [flocal] when an iteration stays in the bucket. *)
Definition flocal_max : Z := Z.max local_retries (max_size + local_fallback_retries).

Definition tries_ok (fuel : nat) (tries : Z) : Prop :=
  0 <= tries /\ tries + flocal_max + 2 < 2 ^ 32 /\
  (flocal_max + max_rank + 2) * (tries + 1) <= Z.of_nat fuel.

(** What the recursive call for a leaf promises. *)
Definition rec_ok (fuel : nat) (rec : firstn_fun) : Prop :=
  forall leaf o2 outpos count rt sub_r,
    is_bucket m leaf -> 0 <= outpos -> 0 < count -> outpos + count <= zlen o2 ->
    zlen o2 < 2 ^ 31 -> tries_ok fuel rt ->
    runs m (fun cw => rec leaf (if stable =? 0 then outpos + 1 else 1) 0 o2 outpos count
                        rt 0 false None sub_r cw)
      (fun '(pos, o2', _) => frame (Z.to_nat outpos) o2 o2' /\
         (outpos < pos -> exists lf, o2' !! Z.to_nat outpos = Some lf /\ good leaf 0 lf
                            /\ lf ∉ take (Z.to_nat outpos) o2')).

Lemma leaf_r_Ok r : exists s, leaf_r vary_r r = Ok s.
Proof.
  unfold leaf_r. destruct (vary_r =? 0); [eauto |].
  destruct (Z.leb_spec 32 (vary_r - 1)); [lia | eauto].
Qed.

Lemma firstn_leaf_runs fuel rec b item r outpos count rt o2 :
  rec_ok fuel rec -> is_bucket m b -> item ∈ b_live b ->
  0 <= outpos -> 0 < count -> outpos + count <= zlen o2 -> zlen o2 < 2 ^ 31 -> tries_ok fuel rt ->
  runs m (fun cw => firstn_leaf m vary_r stable rec item r outpos count rt (Some o2) cw)
    (fun '(reject, out2) => exists o2', out2 = Some o2' /\ frame (Z.to_nat outpos) o2 o2' /\
       (reject = false -> exists lf, o2' !! Z.to_nat outpos = Some lf
                            /\ leaf_for item lf o2' (Z.to_nat outpos))).
Proof.
  intros Hrec Hb Hin Hpos Hc Hlen Hsmall Ht. unfold firstn_leaf, leaf_for.
  destruct (Z.ltb_spec item 0) as [Hneg | Hnn].
  - destruct (leaf_r_Ok r) as [s Hs]. eapply runs_pure; [exact Hs |].
    destruct (map_ok_child m rank b item Hm Hb Hin Hneg) as (c & Hd & Hcb & _).
    eapply runs_pure; [exact Hd |].
    eapply runs_bind; [by apply Hrec |].
    intros [[pos o2'] none] [Hf Hgot]. apply runs_ret. exists o2'. split; [done |]. split; [done |].
    intros Hle. bool_hyps. destruct (Hgot Hle) as (lf & Hl & Hg & Hn). exists lf. split; [done |].
    exists c. done.
  - eapply runs_pure.
    { apply wr_Ok. split; [lia | reflexivity]. }
    apply runs_ret. eexists. split; [reflexivity |]. split; [apply frame_insert |].
    intros _. exists item. split; [| done]. apply list_lookup_insert_eq. unfold zlen in Hlen. lia.
Qed.

Definition out2_ok (rtl : bool) (outpos count : Z) (out2 : option (list Z)) : Prop :=
  rtl = true -> exists o2, out2 = Some o2 /\ outpos + count <= zlen o2 /\ zlen o2 < 2 ^ 31.

Lemma out2_ok_frame rtl outpos count n o o' :
  opt_frame n o o' -> out2_ok rtl outpos count o -> out2_ok rtl outpos count o'.
Proof.
  intros Hf Ho Hr. destruct (Ho Hr) as (o2 & -> & Hl & Hs). destruct o' as [o2' |]; [| done].
  destruct Hf as [Hlen _]. exists o2'. unfold zlen in *. rewrite Hlen. done.
Qed.

(** The leaf vector after an item was found. *)
Definition leaf_at (rtl : bool) (item outpos : Z) (out2 : option (list Z)) : Prop :=
  rtl = true -> exists o2 lf, out2 = Some o2 /\ o2 !! Z.to_nat outpos = Some lf
    /\ leaf_for item lf o2 (Z.to_nat outpos).

(** The next iteration is closer to the end. *)
Definition next_ok (bucket : crush_bucket) (type : Z) (out : list Z) (outpos tries : Z)
    (rtl : bool) (in_ : crush_bucket) (ftotal flocal : Z)
    (next : firstn_next) (out2 : option (list Z)) : Prop :=
  match next with
  | retry_bucket in' ft fl =>
      is_bucket m in' /\ (forall i, below m in' i -> below m bucket i) /\
      ((ft = ftotal /\ fl = flocal /\ (rank (b_id in') < rank (b_id in_))%nat) \/
       (in' = in_ /\ ft = ftotal + 1 /\ fl = flocal + 1 /\ fl <= flocal_max))
  | retry_descent ft => ft = ftotal + 1 /\ ft < tries
  | skip_rep => True
  | got item ft => ft = ftotal /\ good bucket type item /\ (item ∉ take (Z.to_nat outpos) out)
      /\ leaf_at rtl item outpos out2
  end.

Lemma firstn_reject_ok bucket type out outpos tries rtl in_ collide ftotal flocal out2 :
  is_bucket m in_ -> (forall i, below m in_ i -> below m bucket i) ->
  0 <= flocal <= flocal_max -> 0 <= ftotal <= tries + flocal ->
  0 <= tries -> tries + flocal_max + 2 < 2 ^ 32 ->
  next_ok bucket type out outpos tries rtl in_ ftotal flocal
    (firstn_reject local_retries local_fallback_retries tries in_ collide ftotal flocal) out2.
Proof.
  intros Hb Hbelow Hfl Hft Ht0 Hbound. unfold firstn_reject. cbv zeta.
  pose proof (Hsize _ Hb). unfold flocal_max, is_u32 in *.
  destruct (mo_bucket _ _ Hm _ Hb) as (Hu & _). unfold is_u32 in Hu.
  rewrite (u32_id (ftotal + 1)), (u32_id (flocal + 1)) by (unfold is_u32; lia).
  assert (u32 (b_size in_ + local_fallback_retries) <= b_size in_ + local_fallback_retries).
  { unfold u32. apply Z.mod_le; lia. }
  destruct (collide && (flocal + 1 <=? local_retries)) eqn:E1; [| clear E1].
  - bool_hyps. split; [done |]. split; [done |]. right. unfold flocal_max. split; [done | lia].
  - destruct ((0 <? local_fallback_retries)
      && (flocal + 1 <=? u32 (b_size in_ + local_fallback_retries))) eqn:E2; [| clear E2].
    + bool_hyps. split; [done |]. split; [done |]. right. unfold flocal_max. split; [done | lia].
    + destruct (Z.ltb_spec (ftotal + 1) tries); [| done]. done.
Qed.

Lemma firstn_iter_runs fuel rec bucket type out outpos count tries rt rtl rep parent_r
    in_ ftotal flocal out2 :
  (rtl = true -> rec_ok fuel rec /\ tries_ok fuel rt) ->
  0 <= outpos -> 0 < count -> outpos + count <= zlen out -> zlen out < 2 ^ 31 ->
  out2_ok rtl outpos count out2 ->
  is_bucket m in_ -> (forall i, below m in_ i -> below m bucket i) ->
  0 <= flocal <= flocal_max -> 0 <= ftotal <= tries + flocal ->
  0 <= tries -> tries + flocal_max + 2 < 2 ^ 32 ->
  runs m (fun cw => firstn_iter m weight x choose_args local_retries local_fallback_retries vary_r
                      stable rec type out outpos count tries rt rtl rep parent_r
                      in_ ftotal flocal out2 cw)
    (fun '(next, out2') => opt_frame (Z.to_nat outpos) out2 out2' /\
       next_ok bucket type out outpos tries rtl in_ ftotal flocal next out2').
Proof.
  intros Hrec Hpos Hcount Hlen Hsmall Ho2 Hb Hbelow Hfl Hft Htr0 Hbound. unfold firstn_iter. cbv zeta.
  destruct (Z.eqb_spec (b_size in_) 0) as [Hz | Hnz].
  { apply runs_ret. split; [apply opt_frame_refl |]. by apply firstn_reject_ok. }
  set (r := s32 (s32 (rep + parent_r) + ftotal)).
  eapply runs_bind with (P := fun item => item ∈ b_live in_).
  { case_match; [by apply (call_perm_choose_runs m rank Hm) |].
    apply (call_bucket_choose_runs m rank Hm); [done | done | done |]. unfold is_u32. lia. }
  intros item Hin.
  destruct (Z.leb_spec (max_devices m) item) as [Hbig | Hdev].
  { apply runs_ret. split; [apply opt_frame_refl | done]. }
  destruct (item_type_Ok m rank Hm in_ item Hb Hin) as (t & Ht & Ht0 & Ht0').
  eapply runs_pure; [exact Ht |].
  destruct (Z.eqb_spec t type) as [<- | Hne]; cbn [negb].
  2: { destruct (Z.leb_spec 0 item) as [Hnn | Hneg]; cbn [orb].
    { apply runs_ret. split; [apply opt_frame_refl | done]. }
    destruct (map_ok_child m rank in_ item Hm Hb Hin Hneg) as (c & Hd & Hcb & Hid & Hrk).
    case_match; [apply runs_ret; split; [apply opt_frame_refl | done] |].
    eapply runs_pure; [exact Hd |]. apply runs_ret. split; [apply opt_frame_refl |].
    split; [done |]. split; [| by left]. intros i Hi. apply Hbelow.
    apply below_child with c; [by rewrite Hid | done | done]. }
  eapply runs_pure; [apply scan_Ok; lia |]. change (Z.to_nat 0) with 0%nat. rewrite drop_0.
  set (collide := bool_decide (item ∈ take (Z.to_nat outpos) out)).
  eapply runs_bind with (P := fun '(reject, out2') => opt_frame (Z.to_nat outpos) out2 out2' /\
    (collide = false -> reject = false -> leaf_at rtl item outpos out2')).
  { destruct (negb collide && rtl) eqn:E.
    - bool_hyps. destruct (Hrec ltac:(done)) as [Hrec' Hrt]. destruct (Ho2 ltac:(done)) as (o2 & -> & Hl2 & Hs2).
      eapply runs_mono; [by eapply firstn_leaf_runs |]. intros [reject out2'] (o2' & -> & Hf & Hlf).
      split; [done |]. intros _ Hrj _. destruct (Hlf Hrj) as (lf & Hl & Hfor). eauto.
    - apply runs_ret. split; [apply opt_frame_refl |]. intros Hc _ Hr. rewrite Hc, Hr in E. done. }
  intros [reject out2'] [Hf Hlf].
  assert (exists reject', (if negb reject && negb collide && (t =? 0) then is_out weight item x
             else mret reject) = Ok reject' /\
           (reject' = false -> collide = false -> reject = false /\ (t = 0 -> is_out weight item x = Ok false)))
    as (reject' & Hrj & Hrj').
  { destruct reject; cbn [negb andb]; [exists true; done |].
    destruct (negb collide && (t =? 0)) eqn:E.
    - bool_hyps. destruct (is_out_Ok weight item x) as [o Ho]; [auto |]. exists o. split; [done |].
      intros -> _. done.
    - exists false. split; [done |]. intros _ Hc. split; [done |]. intros Ht0z. rewrite Hc, Ht0z in E. done. }
  eapply runs_pure; [exact Hrj |].
  destruct (reject' || collide) eqn:E; apply runs_ret; (split; [done |]).
  - by apply firstn_reject_ok.
  - bool_hyps. destruct (Hrj' ltac:(done) ltac:(done)) as [Hr Hout].
    split; [done |]. split; [| split; [| auto]].
    + split; [apply Hbelow; by apply below_item |]. done.
    + subst collide. by apply bool_decide_eq_false in H0.
Qed.

(** Iterations that remain from a loop state. *)
Definition tries_left (tries : Z) (in_ : crush_bucket) (ftotal flocal : Z) : Z :=
  (flocal_max - flocal) + Z.of_nat (rank (b_id in_)) + 1
  + Z.max 0 (tries - ftotal) * (flocal_max + max_rank + 2).

Definition try_post (bucket : crush_bucket) (type : Z) (out : list Z) (outpos : Z) (rtl : bool)
    (out2 : option (list Z)) (res : option (Z * Z) * option (list Z)) : Prop :=
  let '(o, out2') := res in
  opt_frame (Z.to_nat outpos) out2 out2' /\
  match o with
  | None => True
  | Some (item, ft) => 0 <= ft /\ good bucket type item
      /\ (item ∉ take (Z.to_nat outpos) out) /\ leaf_at rtl item outpos out2'
  end.

Lemma flocal_max_nonneg : 0 <= flocal_max.
Proof. unfold flocal_max, is_u32 in *. lia. Qed.

Lemma firstn_try_runs lfuel fuel rec bucket type out outpos count tries rt rtl rep parent_r
    in_ ftotal flocal out2 :
  (rtl = true -> rec_ok lfuel rec /\ tries_ok lfuel rt) ->
  0 <= outpos -> 0 < count -> outpos + count <= zlen out -> zlen out < 2 ^ 31 ->
  out2_ok rtl outpos count out2 ->
  is_bucket m bucket -> is_bucket m in_ -> (forall i, below m in_ i -> below m bucket i) ->
  0 <= flocal <= flocal_max -> 0 <= ftotal <= tries + flocal ->
  0 <= tries -> tries + flocal_max + 2 < 2 ^ 32 ->
  tries_left tries in_ ftotal flocal <= Z.of_nat fuel ->
  runs m (fun cw => firstn_try m weight x choose_args local_retries local_fallback_retries vary_r
                      stable fuel rec bucket type out outpos count tries rt rtl rep parent_r
                      in_ ftotal flocal out2 cw)
    (try_post bucket type out outpos rtl out2).
Proof.
  intros Hrec Hpos Hcount Hlen Hsmall Ho2 Hbk. pose proof flocal_max_nonneg.
  pose proof (Hrank bucket Hbk). revert in_ ftotal flocal out2 Ho2.
  induction fuel as [| fuel IH]; intros in_ ftotal flocal out2 Ho2 Hb Hbelow Hfl Hft Ht0 Hbound Hleft.
  { unfold tries_left in Hleft. nia. }
  cbn [firstn_try]. eapply runs_bind; [by apply firstn_iter_runs with (bucket := bucket) (fuel := lfuel) |].
  assert (Hmono : forall o o' res, opt_frame (Z.to_nat outpos) o o' ->
    try_post bucket type out outpos rtl o' res -> try_post bucket type out outpos rtl o res).
  { intros o o' [r ro] Hf [Hf' Hr]. split; [by eapply opt_frame_trans | done]. }
  intros [next out2'] [Hf Hn]. destruct next as [in' ft fl | ft | | item ft]; cbn [next_ok] in Hn.
  - destruct Hn as (Hb' & Hbelow' & Hcase).
    eapply runs_mono; [apply IH | intros res; by apply Hmono]; try done.
    + by eapply out2_ok_frame.
    + destruct Hcase as [(-> & -> & _) | (_ & -> & -> & ?)]; lia.
    + destruct Hcase as [(-> & -> & _) | (_ & -> & -> & ?)]; lia.
    + unfold tries_left in *.
      destruct Hcase as [(-> & -> & ?) | (-> & -> & -> & ?)]; [lia |]. nia.
  - destruct Hn as (-> & Hlt).
    eapply runs_mono; [apply IH | intros res; by apply Hmono]; try done; try lia.
    + by eapply out2_ok_frame.
    + unfold tries_left in *. rewrite Z.max_r in Hleft |- * by lia. nia.
  - apply runs_ret. done.
  - destruct Hn as (-> & Hg & Hni & Hla). apply runs_ret. split; [done |]. split; [lia | done].
Qed.

(** ** The loop over [rep] *)

(** Positions [from, to) of [l] hold good items, each different from all before it. *)
Definition filled (b : crush_bucket) (type : Z) (l : list Z) (from to : Z) : Prop :=
  forall i, from <= i < to -> exists item, l !! Z.to_nat i = Some item /\ good b type item
    /\ (item ∉ take (Z.to_nat i) l).

Definition filled_leaf (rtl : bool) (out : list Z) (out2 : option (list Z)) (from to : Z) : Prop :=
  rtl = true -> exists o2, out2 = Some o2 /\
    forall i, from <= i < to -> exists item lf, out !! Z.to_nat i = Some item
      /\ o2 !! Z.to_nat i = Some lf /\ leaf_for item lf o2 (Z.to_nat i).

Definition firstn_post (bucket : crush_bucket) (type : Z) (out : list Z) (outpos : Z) (limit : Z)
    (rtl : bool) (out2 : option (list Z)) (res : Z * list Z * option (list Z)) : Prop :=
  let '(pos, out', out2') := res in
  outpos <= pos <= outpos + limit /\
  frame (Z.to_nat outpos) out out' /\ opt_frame (Z.to_nat outpos) out2 out2' /\
  filled bucket type out' outpos pos /\ filled_leaf rtl out' out2' outpos pos.

Lemma firstn_post_stop bucket type out outpos rtl out2 count :
  out2_ok rtl outpos count out2 -> firstn_post bucket type out outpos 0 rtl out2 (outpos, out, out2).
Proof.
  intros Ho. split; [lia |]. split; [done |]. split; [apply opt_frame_refl |]. split.
  - intros i Hi. lia.
  - intros Hr. destruct (Ho Hr) as (o2 & -> & _). exists o2. split; [done |]. intros i Hi. lia.
Qed.

Lemma firstn_post_weaken bucket type out outpos l l' rtl out2 res :
  l <= l' -> firstn_post bucket type out outpos l rtl out2 res ->
  firstn_post bucket type out outpos l' rtl out2 res.
Proof. destruct res as [[pos out'] out2']. intros Hl (Hp & H). split; [lia | done]. Qed.

(** Adding one item in front of what the rest of the loop adds. *)
Lemma firstn_post_step bucket type out outpos limit rtl out2 out2' item res :
  0 <= outpos < zlen out -> opt_frame (Z.to_nat outpos) out2 out2' ->
  good bucket type item -> item ∉ take (Z.to_nat outpos) out -> leaf_at rtl item outpos out2' ->
  firstn_post bucket type (<[Z.to_nat outpos := item]> out) (outpos + 1) limit rtl out2' res ->
  firstn_post bucket type out outpos (limit + 1) rtl out2 res.
Proof.
  intros Hpos Hf2 Hg Hni Hla. destruct res as [[pos out'] out2'']. unfold firstn_post.
  replace (Z.to_nat (outpos + 1)) with (S (Z.to_nat outpos)) by lia.
  intros (Hp & Hfo & Hfo2 & Hfill & Hleaf).
  assert (Hfo' : frame (Z.to_nat outpos) out out').
  { eapply frame_trans; [apply frame_insert |]. eapply frame_le; [| exact Hfo]. lia. }
  assert (Hfo2' : opt_frame (Z.to_nat outpos) out2' out2'').
  { destruct out2', out2''; try done. eapply frame_le; [| exact Hfo2]. lia. }
  assert (Hat : out' !! Z.to_nat outpos = Some item).
  { rewrite (frame_lookup _ _ _ (Z.to_nat outpos) Hfo) by lia. apply list_lookup_insert_eq. unfold zlen in Hpos. lia. }
  split; [lia |]. split; [done |]. split; [by eapply opt_frame_trans |]. split.
  - intros i Hi. destruct (decide (i = outpos)) as [-> |]; [| apply Hfill; lia].
    exists item. split; [done |]. split; [done |]. by rewrite (proj2 Hfo').
  - intros Hr. destruct (Hleaf Hr) as (o2'' & -> & Hrest). exists o2''. split; [done |].
    intros i Hi. destruct (decide (i = outpos)) as [-> |]; [| apply Hrest; lia].
    destruct (Hla Hr) as (o2' & lf & -> & Hlf & Hfor). exists item, lf. split; [done |].
    split; [by rewrite (frame_lookup _ _ _ (Z.to_nat outpos) Hfo2) by lia |].
    unfold leaf_for in *. by rewrite (proj2 Hfo2').
Qed.

Lemma firstn_reps_runs lfuel fuel rec bucket type tries rt rtl parent_r n rep out outpos count out2 :
  (rtl = true -> rec_ok lfuel rec /\ tries_ok lfuel rt) -> tries_ok fuel tries ->
  0 <= outpos -> 0 <= count -> outpos + count <= zlen out -> zlen out < 2 ^ 31 ->
  out2_ok rtl outpos count out2 -> is_bucket m bucket ->
  runs m (fun cw => firstn_reps m weight x choose_args local_retries local_fallback_retries vary_r
                      stable fuel rec bucket type tries rt rtl parent_r n rep out outpos count out2 cw)
    (firstn_post bucket type out outpos (Z.min (Z.of_nat n) count) rtl out2).
Proof.
  intros Hrec (Ht0 & Hbound & Hfuel) Hpos Hc Hlen Hsmall Ho2 Hb.
  pose proof flocal_max_nonneg. pose proof (Hrank bucket Hb).
  revert rep out outpos count out2 Hpos Hc Hlen Hsmall Ho2.
  induction n as [| n IH]; intros rep out outpos count out2 Hpos Hc Hlen Hsmall Ho2; cbn [firstn_reps].
  { apply runs_ret. eapply firstn_post_weaken; [| by eapply firstn_post_stop]. lia. }
  destruct (Z.leb_spec count 0) as [Hz | Hcpos].
  { apply runs_ret. eapply firstn_post_weaken; [| by eapply firstn_post_stop]. lia. }
  eapply runs_bind.
  { apply firstn_try_runs with (lfuel := lfuel); try done; try lia.
    unfold tries_left. nia. }
  intros [o out2'] [Hf Ho]. destruct o as [[item ft] |].
  - destruct Ho as (Hft & Hg & Hni & Hla).
    eapply runs_pure; [apply wr_Ok; split; [lia | reflexivity] |].
    apply runs_count; [done |].
    eapply runs_mono.
    + apply IH; [lia | lia | | |].
      * unfold zlen in *. rewrite length_insert. lia.
      * unfold zlen in *. by rewrite length_insert.
      * intros Hr. destruct (out2_ok_frame _ _ _ _ _ _ Hf Ho2 Hr) as (o2 & -> & ? & ?).
        exists o2. split; [done |]. lia.
    + intros res Hres.
      eapply firstn_post_weaken, firstn_post_step with (out2' := out2') (item := item);
        [| lia | done | done | done | done | exact Hres]. lia.
  - eapply runs_mono.
    + apply IH; try done. by eapply out2_ok_frame.
    + intros [[pos out'] out2''] (Hp & Hfo & Hfo2 & Hrest). split; [lia |]. split; [done |].
      split; [by eapply opt_frame_trans | done].
Qed.

(** ** The function *)

Lemma choose_firstn_leaf_rec_ok fuel :
  rec_ok fuel (crush_choose_firstn m weight x choose_args local_retries local_fallback_retries
                 vary_r stable 0 fuel).
Proof.
  intros leaf o2 outpos count rt sub_r Hb Hpos Hc Hlen Hsmall Ht. cbn [crush_choose_firstn]. cbv zeta.
  eapply runs_mono; [apply firstn_reps_runs with (lfuel := fuel); try done; lia |].
  intros [[pos o2'] none] (Hp & Hf & _ & Hfill & _). split; [done |]. intros Hlt.
  destruct (Hfill outpos ltac:(lia)) as (lf & Hl & Hg & Hn). by exists lf.
Qed.

Lemma choose_firstn_runs fuel bucket numrep type out outpos out_size tries rt rtl out2 parent_r :
  (rtl = true -> tries_ok fuel rt) -> tries_ok fuel tries ->
  0 <= outpos -> 0 <= out_size -> outpos + out_size <= zlen out -> zlen out < 2 ^ 31 ->
  out2_ok rtl outpos out_size out2 -> is_bucket m bucket ->
  runs m (fun cw => crush_choose_firstn m weight x choose_args local_retries local_fallback_retries
                      vary_r stable 1 fuel bucket numrep type out outpos out_size tries rt rtl out2
                      parent_r cw)
    (firstn_post bucket type out outpos
       (Z.min (Z.max 0 (numrep - (if stable =? 0 then outpos else 0))) out_size) rtl out2).
Proof.
  intros Hrt Ht Hpos Hc Hlen Hsmall Ho2 Hb. cbn [crush_choose_firstn]. cbv zeta.
  eapply runs_mono; [apply firstn_reps_runs with (lfuel := fuel); try done |].
  - intros Hr. split; [apply choose_firstn_leaf_rec_ok | by apply Hrt].
  - intros res Hres. eapply firstn_post_weaken; [| exact Hres]. lia.
Qed.
End firstn_spec.
