(* ===== verification/CrushIndep.v ===== *)
(** * crush_choose_indep: total correctness

    The positionally stable variant.  Every position of the output range ends
    up with an item of the requested type that lies below the start bucket, is
    not out and occurs at no other position, or with [CRUSH_ITEM_NONE]; outside
    the range nothing changes.  With [recurse_to_leaf], and a type other than
    0, the leaf vector holds at each position a device below the item there, or
    [CRUSH_ITEM_NONE] where the item is none. *)

From S2P Require Import Prelude CrushHash CrushLn CrushTypes CrushChoose CrushPerm CrushChooseSpec CrushTree CrushMapper CrushMapSpec CrushFirstn.

Definition hole (v : Z) : Prop := v = CRUSH_ITEM_UNDEF \/ v = CRUSH_ITEM_NONE.

(** [o'] is [o] outside positions [lo, hi). *)
Definition outside (lo hi : Z) (o o' : list Z) : Prop :=
  length o' = length o /\ forall i, Z.of_nat i < lo \/ hi <= Z.of_nat i -> o' !! i = o !! i.

Lemma outside_refl lo hi o : outside lo hi o o.
Proof. done. Qed.

Lemma outside_trans lo hi o1 o2 o3 : outside lo hi o1 o2 -> outside lo hi o2 o3 -> outside lo hi o1 o3.
Proof. intros [L1 H1] [L2 H2]. split; [congruence |]. intros i Hi. rewrite H2, H1; done. Qed.

Lemma outside_le lo hi lo' hi' o o' : lo' <= lo -> hi <= hi' -> outside lo hi o o' -> outside lo' hi' o o'.
Proof. intros ? ? [L H]. split; [done |]. intros i Hi. apply H. lia. Qed.

Lemma outside_insert i o v : 0 <= i -> outside i (i + 1) o (<[Z.to_nat i := v]> o).
Proof. intros. split; [apply length_insert |]. intros j Hj. apply list_lookup_insert_ne. lia. Qed.

Definition opt_outside (lo hi : Z) (o o' : option (list Z)) : Prop :=
  match o, o' with
  | Some o, Some o' => outside lo hi o o'
  | None, None => True
  | _, _ => False
  end.

Lemma opt_outside_refl lo hi o : opt_outside lo hi o o.
Proof. by destruct o. Qed.

Lemma opt_outside_trans lo hi o1 o2 o3 :
  opt_outside lo hi o1 o2 -> opt_outside lo hi o2 o3 -> opt_outside lo hi o1 o3.
Proof. destruct o1, o2, o3; cbn; try done. apply outside_trans. Qed.

Lemma opt_outside_le lo hi lo' hi' o o' :
  lo' <= lo -> hi <= hi' -> opt_outside lo hi o o' -> opt_outside lo' hi' o o'.
Proof. destruct o, o'; cbn; try done. apply outside_le. Qed.

Section indep_spec.
Context (m : crush_map) (rank : Z -> nat) (Hm : map_ok m rank).
Context (Hmaxdev : max_devices m <= CRUSH_ITEM_UNDEF).
Context (weight : list Z) (x : Z) (choose_args : option (list crush_choose_arg))
  (Hargs : args_ok m choose_args).
Context (max_rank : Z)
  (Hrank : forall b, is_bucket m b -> Z.of_nat (rank (b_id b)) <= max_rank).

Abbreviation good := (good m weight x).

Lemma good_not_hole b type v : good b type v -> ~ hole v.
Proof. intros (_ & Hd & _) [-> | ->]; unfold CRUSH_ITEM_UNDEF, CRUSH_ITEM_NONE in *; lia. Qed.

Definition leaf_in (item leaf : Z) : Prop :=
  if item <? 0 then exists c, deref_bucket m (-1 - item) = Ok c /\ good c 0 leaf else leaf = item.

(** The leaf of a position without an item.  Where devices themselves are
    chosen (type 0), the leaf of an attempt that found its device out stays. *)
Definition stale (b : crush_bucket) (type v2 : Z) : Prop :=
  hole v2 \/ (type = 0 /\ 0 <= v2 < max_devices m /\ below m b v2).

(** Position [i] of the output, with its leaf. *)
Definition slot (b : crush_bucket) (type : Z) (rtl : bool) (out : list Z) (out2 : option (list Z))
    (i : Z) : Prop :=
  exists v, out !! Z.to_nat i = Some v /\ (hole v \/ good b type v) /\
    (rtl = true -> exists o2 v2, out2 = Some o2 /\ o2 !! Z.to_nat i = Some v2 /\
       (hole v -> stale b type v2) /\ (~ hole v -> leaf_in v v2)).

Definition distinct (out : list Z) (lo hi : Z) : Prop :=
  forall i j v, lo <= i < hi -> lo <= j < hi -> i <> j ->
    out !! Z.to_nat i = Some v -> out !! Z.to_nat j = Some v -> hole v.

Record indep_inv (b : crush_bucket) (type : Z) (rtl : bool) (lo hi : Z)
    (out : list Z) (out2 : option (list Z)) : Prop := {
  inv_len : 0 <= lo /\ hi <= zlen out;
  inv_len2 : match out2 with None => rtl = false | Some o2 => hi <= zlen o2 end;
  inv_slot : forall i, lo <= i < hi -> slot b type rtl out out2 i;
  inv_distinct : distinct out lo hi;
}.

(** Changing position [rep] only. *)
Lemma indep_inv_change b type rtl lo hi out out2 rep out' out2' :
  indep_inv b type rtl lo hi out out2 -> lo <= rep < hi ->
  outside rep (rep + 1) out out' -> opt_outside rep (rep + 1) out2 out2' ->
  slot b type rtl out' out2' rep -> distinct out' lo hi ->
  indep_inv b type rtl lo hi out' out2'.
Proof.
  intros [Hl Hl2 Hs _] Hrep Ho Ho2 Hslot Hd. split; [| | | done].
  - destruct Ho as [Hlen _]. unfold zlen in *. lia.
  - destruct out2, out2'; try done. destruct Ho2 as [Hlen _]. unfold zlen in *. lia.
  - intros i Hi. destruct (decide (i = rep)) as [-> |]; [done |].
    destruct (Hs i Hi) as (v' & Hv & Hcase & Hleaf). exists v'.
    split; [by rewrite (proj2 Ho) by lia |]. split; [done |]. intros Hr.
    destruct (Hleaf Hr) as (o2 & v2 & -> & Hv2 & H1 & H2). destruct out2' as [o2' |]; [| done].
    exists o2', v2. split; [done |]. split; [| done]. rewrite (proj2 Ho2) by lia. done.
Qed.

Lemma distinct_insert out lo hi rep v :
  distinct out lo hi -> lo <= rep < hi -> 0 <= lo -> hi <= zlen out ->
  (hole v \/ forall i, lo <= i < hi -> out !! Z.to_nat i <> Some v) ->
  distinct (<[Z.to_nat rep := v]> out) lo hi.
Proof.
  intros Hd Hrep Hlo Hhi Hfresh.
  assert (Hlt : (Z.to_nat rep < length out)%nat) by (unfold zlen in Hhi; lia).
  intros i j u Hi Hj Hne Hu Hu'. destruct (decide (i = rep)) as [-> |].
  - rewrite list_lookup_insert_eq in Hu by done. injection Hu as <-.
    rewrite list_lookup_insert_ne in Hu' by lia. destruct Hfresh as [| Hfr]; [done |]. by destruct (Hfr j Hj).
  - rewrite list_lookup_insert_ne in Hu by lia. destruct (decide (j = rep)) as [-> |].
    + rewrite list_lookup_insert_eq in Hu' by done. injection Hu' as <-.
      destruct Hfresh as [| Hfr]; [done |]. by destruct (Hfr i Hi).
    + rewrite list_lookup_insert_ne in Hu' by lia. by eapply (Hd i j).
Qed.

Lemma wr_opt_Ok out2 rep v hi :
  match out2 with None => True | Some o2 => hi <= zlen o2 end -> 0 <= rep < hi ->
  exists out2', wr_opt out2 rep v = Ok out2' /\ opt_outside rep (rep + 1) out2 out2' /\
    (forall o2, out2 = Some o2 -> exists o2', out2' = Some o2' /\ o2' !! Z.to_nat rep = Some v).
Proof.
  intros Hl Hrep. unfold wr_opt. destruct out2 as [o2 |]; [| by exists None].
  assert (Hw : wr o2 rep v = Ok (<[Z.to_nat rep := v]> o2)) by (apply wr_Ok; split; [lia | done]).
  rewrite Hw. eexists. split; [reflexivity |]. split; [apply outside_insert; lia |].
  intros ? [= <-]. eexists. split; [reflexivity |]. apply list_lookup_insert_eq. unfold zlen in Hl. lia.
Qed.

(** What the recursive call for a leaf promises. *)
Definition indep_rec_ok (numrep rt : Z) (rec : indep_fun) : Prop :=
  forall leaf o2 rep r, is_bucket m leaf -> 0 <= rep < zlen o2 -> zlen o2 < 2 ^ 31 ->
    runs m (fun cw => rec leaf 1 numrep 0 o2 rep rt 0 false None r cw)
      (fun '(o2', _) => outside rep (rep + 1) o2 o2' /\
         exists v, o2' !! Z.to_nat rep = Some v /\ (v = CRUSH_ITEM_NONE \/ good leaf 0 v)).

(** The leaf block, for an item of the requested type. *)
Lemma indep_leaf_runs rec b item r numrep rt rep o2 :
  indep_rec_ok numrep rt rec -> is_bucket m b -> item ∈ b_live b ->
  0 <= rep < zlen o2 -> zlen o2 < 2 ^ 31 ->
  runs m (fun cw => indep_leaf m rec item r numrep rt rep (Some o2) cw)
    (fun '(noleaf, out2') => exists o2' v2, out2' = Some o2' /\ outside rep (rep + 1) o2 o2' /\
       o2' !! Z.to_nat rep = Some v2 /\
       (noleaf = true -> hole v2) /\ (noleaf = false -> leaf_in item v2)).
Proof.
  intros Hrec Hb Hin Hrep Hsmall. unfold indep_leaf, leaf_in. destruct (Z.ltb_spec item 0) as [Hneg | Hnn].
  - destruct (map_ok_child m rank b item Hm Hb Hin Hneg) as (c & Hd & Hcb & _).
    eapply runs_pure; [exact Hd |]. eapply runs_bind; [by apply Hrec |].
    intros [o2' none] (Ho & v & Hv & Hcase).
    eapply runs_pure; [apply rd_Ok; split; [lia | exact Hv] |]. apply runs_ret.
    exists o2', v. split; [done |]. split; [done |]. split; [done |]. split.
    + intros. bool_hyps. by right.
    + intros. bool_hyps. destruct Hcase as [| Hg]; [done |]. by exists c.
  - destruct (wr_opt_Ok (Some o2) rep item (zlen o2)) as (out2' & Hw & Ho & Hat); [cbn; lia | lia |].
    eapply runs_pure; [exact Hw |]. apply runs_ret.
    destruct (Hat o2 eq_refl) as (o2' & -> & Hv). exists o2', item. done.
Qed.

Lemma indep_r_Ok in_ numrep rep parent_r ftotal :
  0 < numrep < 2 ^ 31 -> exists r, indep_r in_ numrep rep parent_r ftotal = Ok r.
Proof.
  intros Hn. unfold indep_r. cbv zeta. rewrite u32_id by (unfold is_u32; lia).
  destruct (b_alg in_ =? CRUSH_BUCKET_UNIFORM); cbn [mbind res_bind mret res_ret]; [| eauto].
  destruct (Z.eqb_spec numrep 0); [lia |]. case_match; cbn; eauto.
Qed.

Definition descend_post (b : crush_bucket) (type : Z) (rtl : bool) (lo hi rep : Z)
    (out : list Z) (out2 : option (list Z)) (res : list Z * option (list Z) * Z) : Prop :=
  let '(out', out2', _) := res in
  indep_inv b type rtl lo hi out' out2' /\
  outside rep (rep + 1) out out' /\ opt_outside rep (rep + 1) out2 out2'.

(** Writing [CRUSH_ITEM_NONE] at [rep]. *)
Lemma indep_none_ok b type rtl lo hi rep out out2 :
  indep_inv b type rtl lo hi out out2 -> lo <= rep < hi ->
  exists out2', wr_opt out2 rep CRUSH_ITEM_NONE = Ok out2' /\
    wr out rep CRUSH_ITEM_NONE = Ok (<[Z.to_nat rep := CRUSH_ITEM_NONE]> out) /\
    forall l, descend_post b type rtl lo hi rep out out2
      (<[Z.to_nat rep := CRUSH_ITEM_NONE]> out, out2', l).
Proof.
  intros Hinv Hrep. destruct (inv_len _ _ _ _ _ _ _ Hinv) as [Hlo Hhi].
  pose proof (inv_len2 _ _ _ _ _ _ _ Hinv) as Hl2.
  destruct (wr_opt_Ok out2 rep CRUSH_ITEM_NONE hi) as (out2' & Hw & Ho & Hat);
    [by destruct out2 | lia |].
  exists out2'. split; [done |]. split; [apply wr_Ok; split; [lia | done] |]. intros l.
  split; [| split; [apply outside_insert; lia | done]].
  eapply indep_inv_change; [done | done | apply outside_insert; lia | done | |].
  - exists CRUSH_ITEM_NONE. split; [apply list_lookup_insert_eq; unfold zlen in Hhi; lia |].
    split; [left; by right |]. intros Hr. destruct out2 as [o2 |]; [| by rewrite Hl2 in Hr].
    destruct (Hat o2 eq_refl) as (o2' & -> & Hv). exists o2', CRUSH_ITEM_NONE. split; [done |].
    split; [done |]. split; [intros; left; by right |]. intros Hn. destruct Hn. by right.
  - apply distinct_insert; try done; [apply Hinv | left; by right].
Qed.

(** Recording an item that passed all tests. *)
Lemma indep_place_ok b type rtl lo hi rep out out2 out2' item :
  indep_inv b type rtl lo hi out out2 -> lo <= rep < hi ->
  good b type item -> item ∉ take (Z.to_nat (hi - lo)) (drop (Z.to_nat lo) out) ->
  opt_outside rep (rep + 1) out2 out2' ->
  (rtl = true -> exists o2 v2, out2' = Some o2 /\ o2 !! Z.to_nat rep = Some v2 /\ leaf_in item v2) ->
  wr out rep item = Ok (<[Z.to_nat rep := item]> out) /\
  forall l, descend_post b type rtl lo hi rep out out2 (<[Z.to_nat rep := item]> out, out2', l).
Proof.
  intros Hinv Hrep Hg Hni Ho Hleaf. destruct (inv_len _ _ _ _ _ _ _ Hinv) as [Hlo Hhi].
  split; [apply wr_Ok; split; [lia | done] |]. intros l.
  split; [| split; [apply outside_insert; lia | done]].
  eapply indep_inv_change; [done | done | apply outside_insert; lia | done | |].
  - exists item. split; [apply list_lookup_insert_eq; unfold zlen in Hhi; lia |].
    split; [by right |]. intros Hr. destruct (Hleaf Hr) as (o2 & v2 & -> & Hv2 & Hl).
    exists o2, v2. split; [done |]. split; [done |]. split; [| done].
    intros Hh. by destruct (good_not_hole _ _ _ Hg).
  - apply distinct_insert; try done; [apply Hinv |]. right. intros i Hi Heq. apply Hni.
    apply list_elem_of_lookup_2 with (Z.to_nat (i - lo)). rewrite lookup_take_lt by lia.
    rewrite lookup_drop. by replace (Z.to_nat lo + Z.to_nat (i - lo))%nat with (Z.to_nat i) by lia.
Qed.

Lemma indep_leaf_keep b type rtl lo hi rep out out2 out2' l :
  indep_inv b type rtl lo hi out out2 -> lo <= rep < hi ->
  out !! Z.to_nat rep = Some CRUSH_ITEM_UNDEF -> opt_outside rep (rep + 1) out2 out2' ->
  (rtl = true -> exists o2 v2, out2' = Some o2 /\ o2 !! Z.to_nat rep = Some v2 /\ stale b type v2) ->
  descend_post b type rtl lo hi rep out out2 (out, out2', l).
Proof.
  intros Hinv Hrep Hun Ho Hleaf. split; [| split; [apply outside_refl | done]].
  eapply indep_inv_change; [done | done | apply outside_refl | done | | apply Hinv].
  exists CRUSH_ITEM_UNDEF. split; [done |]. split; [left; by left |]. intros Hr.
  destruct (Hleaf Hr) as (o2 & v2 & -> & Hv2 & Hl). exists o2, v2. split; [done |]. split; [done |].
  split; [auto |]. intros Hn. destruct Hn. by left.
Qed.

Lemma descend_post_same b type rtl lo hi rep out out2 l :
  indep_inv b type rtl lo hi out out2 -> descend_post b type rtl lo hi rep out out2 (out, out2, l).
Proof. intros. split; [done |]. split; [apply outside_refl | apply opt_outside_refl]. Qed.

Lemma indep_descend_runs fuel rec b numrep type lo hi rt rtl parent_r ftotal rep in_ out out2 left :
  (rtl = true -> indep_rec_ok numrep rt rec) -> 0 < numrep < 2 ^ 31 ->
  indep_inv b type rtl lo hi out out2 -> lo <= rep < hi -> zlen out < 2 ^ 31 ->
  match out2 with None => True | Some o2 => zlen o2 < 2 ^ 31 end ->
  out !! Z.to_nat rep = Some CRUSH_ITEM_UNDEF ->
  is_bucket m in_ -> (forall i, below m in_ i -> below m b i) ->
  (rank (b_id in_) < fuel)%nat ->
  runs m (fun cw => indep_descend m weight x choose_args fuel rec numrep type lo hi rt rtl parent_r
                      ftotal rep in_ out out2 left cw)
    (descend_post b type rtl lo hi rep out out2).
Proof.
  intros Hrec Hn Hinv Hrep Hsmall Hsmall2 Hun. destruct (inv_len _ _ _ _ _ _ _ Hinv) as [Hlo Hhi].
  pose proof (inv_len2 _ _ _ _ _ _ _ Hinv) as Hl2.
  revert in_. induction fuel as [| fuel IH]; intros in_ Hb Hbelow Hfuel; [lia |]. cbn [indep_descend].
  destruct (indep_r_Ok in_ numrep rep parent_r ftotal Hn) as [r Hr]. eapply runs_pure; [exact Hr |].
  destruct (Z.eqb_spec (b_size in_) 0) as [Hz | Hnz]; [apply runs_ret; by apply descend_post_same |].
  eapply runs_bind.
  { apply (call_bucket_choose_runs m rank Hm); [done | done | done |]. unfold is_u32. lia. }
  intros item Hin.
  destruct (indep_none_ok b type rtl lo hi rep out out2 Hinv Hrep) as (out2n & Hw2 & Hw & Hpost).
  destruct (Z.leb_spec (max_devices m) item) as [Hbig | Hdev].
  { eapply runs_pure; [exact Hw |]. eapply runs_pure; [exact Hw2 |]. by apply runs_ret. }
  destruct (item_type_Ok m rank Hm in_ item Hb Hin) as (t & Ht & Ht0 & Ht0').
  eapply runs_pure; [exact Ht |].
  destruct (Z.eqb_spec t type) as [<- | Hne]; cbn [negb].
  2: { destruct (Z.leb_spec 0 item) as [Hnn | Hneg]; cbn [orb].
    { eapply runs_pure; [exact Hw |]. eapply runs_pure; [exact Hw2 |]. by apply runs_ret. }
    destruct (map_ok_child m rank in_ item Hm Hb Hin Hneg) as (c & Hd & Hcb & Hid & Hrk).
    destruct (max_buckets m <=? -1 - item); [eapply runs_pure; [exact Hw |]; eapply runs_pure; [exact Hw2 |]; by apply runs_ret |].
    eapply runs_pure; [exact Hd |]. apply IH; [done | | lia]. intros i Hi. apply Hbelow.
    apply below_child with c; [by rewrite Hid | done | done]. }
  eapply runs_pure; [apply scan_Ok; lia |].
  case_bool_decide as Hcoll; [apply runs_ret; by apply descend_post_same |].
  eapply runs_bind with (P := fun '(noleaf, out2') => opt_outside rep (rep + 1) out2 out2' /\
    (rtl = true -> exists o2 v2, out2' = Some o2 /\ o2 !! Z.to_nat rep = Some v2 /\
      (noleaf = true -> hole v2) /\ (noleaf = false -> leaf_in item v2)) /\ (rtl = false -> noleaf = false)).
  { destruct rtl; [| apply runs_ret; split; [apply opt_outside_refl | done]].
    destruct out2 as [o2 |]; [| done].
    eapply runs_mono; [apply (indep_leaf_runs rec in_); try done; [by apply Hrec | lia] |].
    intros [noleaf out2'] (o2' & v2 & -> & Ho & Hv & H1 & H2). split; [done |]. split; [| done]. eauto 7. }
  intros [noleaf out2'] (Ho & Hleaf & Hnl). destruct noleaf.
  { apply runs_ret. apply indep_leaf_keep; try done. intros Hrt.
    destruct (Hleaf Hrt) as (o2 & v2 & -> & Hv2 & Hh & _). exists o2, v2. split; [done |].
    split; [done |]. left. auto. }
  assert (Hl : rtl = true -> exists o2 v2, out2' = Some o2 /\ o2 !! Z.to_nat rep = Some v2 /\ leaf_in item v2).
  { intros Hrt. destruct (Hleaf Hrt) as (o2 & v2 & -> & Hv2 & _ & Hli). exists o2, v2. auto. }
  assert (exists o, (if t =? 0 then is_out weight item x else mret false) = Ok o /\
            (o = true -> t = 0) /\ (o = false -> t = 0 -> is_out weight item x = Ok false)) as (o & Hout & Ho1 & Ho2).
  { destruct (Z.eqb_spec t 0) as [Hz |]; [| exists false; done].
    destruct (is_out_Ok weight item x) as [o Hoo]; [auto |]. exists o. split; [done |]. split; [done |]. by intros ->. }
  eapply runs_pure; [exact Hout |]. destruct o.
  - apply runs_ret. apply indep_leaf_keep; try done. intros Hrt.
    destruct (Hl Hrt) as (o2 & v2 & -> & Hv2 & Hli). exists o2, v2. split; [done |]. split; [done |].
    right. split; [auto |]. assert (Hpos : 0 <= item) by auto. unfold leaf_in in Hli.
    rewrite (proj2 (Z.ltb_ge item 0)) in Hli by lia. subst v2. split; [lia |].
    apply Hbelow. by apply below_item.
  - destruct (indep_place_ok b t rtl lo hi rep out out2 out2' item) as [Hwr Hpl]; try done.
    + split; [apply Hbelow; by apply below_item |]. auto.
    + eapply runs_pure; [exact Hwr |]. by apply runs_ret.
Qed.

Definition opt_small (o : option (list Z)) : Prop :=
  match o with None => True | Some o2 => zlen o2 < 2 ^ 31 end.

Lemma opt_small_outside lo hi o o' : opt_outside lo hi o o' -> opt_small o -> opt_small o'.
Proof. destruct o, o'; cbn; try done. unfold zlen. intros [-> _]. done. Qed.

Lemma zlen_outside lo hi o o' : outside lo hi o o' -> zlen o' = zlen o.
Proof. intros [H _]. unfold zlen. by rewrite H. Qed.

(** What a round, and all rounds, leave behind. *)
Definition round_post (b : crush_bucket) (type : Z) (rtl : bool) (lo hi : Z)
    (out : list Z) (out2 : option (list Z)) (out' : list Z) (out2' : option (list Z)) : Prop :=
  indep_inv b type rtl lo hi out' out2' /\ outside lo hi out out' /\ opt_outside lo hi out2 out2'.

Lemma round_post_refl b type rtl lo hi out out2 :
  indep_inv b type rtl lo hi out out2 -> round_post b type rtl lo hi out out2 out out2.
Proof. intros. split; [done |]. split; [apply outside_refl | apply opt_outside_refl]. Qed.

Lemma indep_round_runs fuel rec b numrep type lo hi rt rtl parent_r ftotal n rep out out2 left :
  (rtl = true -> indep_rec_ok numrep rt rec) -> 0 < numrep < 2 ^ 31 ->
  indep_inv b type rtl lo hi out out2 -> lo <= rep -> rep + Z.of_nat n = hi -> zlen out < 2 ^ 31 ->
  opt_small out2 -> is_bucket m b -> (rank (b_id b) < fuel)%nat ->
  runs m (fun cw => indep_round m weight x choose_args fuel rec b numrep type lo hi rt rtl parent_r
                      ftotal n rep out out2 left cw)
    (fun '(out', out2', _) => round_post b type rtl lo hi out out2 out' out2').
Proof.
  intros Hrec Hn Hinv Hlo Hhi Hsm Hsm2 Hb Hfuel. revert rep out out2 left Hinv Hlo Hhi Hsm Hsm2.
  induction n as [| n IH]; intros rep out out2 left Hinv Hlo Hhi Hsm Hsm2; cbn [indep_round].
  { apply runs_ret. by apply round_post_refl. }
  destruct (inv_len _ _ _ _ _ _ _ Hinv) as [Hlo0 Hlen].
  destruct (rd_in_range out rep) as [v Hv]; [lia |]. eapply runs_pure; [exact Hv |].
  eapply runs_bind with (P := descend_post b type rtl lo hi rep out out2).
  - destruct (Z.eqb_spec v CRUSH_ITEM_UNDEF) as [-> |]; cbn [negb];
      [| apply runs_ret; by apply descend_post_same].
    apply indep_descend_runs; try done; [lia |]. by apply rd_Ok in Hv as [_ Hv].
  - intros [[out' out2'] left'] (Hinv' & Ho & Ho2).
    eapply runs_mono; [apply IH; try done; try lia |].
    + rewrite (zlen_outside _ _ _ _ Ho). done.
    + by eapply opt_small_outside.
    + intros [[out'' out2''] l''] (Hinv'' & Ho' & Ho2'). split; [done |].
      split; [eapply outside_trans; [eapply outside_le; [| | exact Ho]; lia | done] |].
      eapply opt_outside_trans; [eapply opt_outside_le; [| | exact Ho2]; lia | done].
Qed.

Lemma indep_rounds_runs fuel rec b numrep type lo hi rt rtl parent_r n ftotal out out2 left :
  (rtl = true -> indep_rec_ok numrep rt rec) -> 0 < numrep < 2 ^ 31 ->
  indep_inv b type rtl lo hi out out2 -> lo <= hi -> zlen out < 2 ^ 31 ->
  opt_small out2 -> is_bucket m b -> (rank (b_id b) < fuel)%nat -> 0 <= ftotal ->
  runs m (fun cw => indep_rounds m weight x choose_args fuel rec b numrep type lo hi rt rtl parent_r
                      n ftotal out out2 left cw)
    (fun '(out', out2', _, ft) => 0 <= ft /\ round_post b type rtl lo hi out out2 out' out2').
Proof.
  intros Hrec Hn Hinv Hlh Hsm Hsm2 Hb Hfuel Hft. revert ftotal out out2 left Hinv Hsm Hsm2 Hft.
  induction n as [| n IH]; intros ftotal out out2 left Hinv Hsm Hsm2 Hft; cbn [indep_rounds];
    [apply runs_ret; split; [done | by apply round_post_refl] |].
  destruct (left <=? 0);
    [apply runs_ret; split; [done | by apply round_post_refl] |].
  eapply runs_bind; [apply indep_round_runs; try done; lia |].
  intros [[out' out2'] left'] (Hinv' & Ho & Ho2).
  eapply runs_mono; [apply IH; try done |].
  - rewrite (zlen_outside _ _ _ _ Ho). done.
  - by eapply opt_small_outside.
  - lia.
  - intros [[[out'' out2''] l''] ft] (Hft' & Hinv'' & Ho' & Ho2'). split; [done |]. split; [done |].
    split; [by eapply outside_trans | by eapply opt_outside_trans].
Qed.

(** The initial loop fills the range with [CRUSH_ITEM_UNDEF]. *)
Lemma indep_init_Ok n rep out out2 :
  0 <= rep -> rep + Z.of_nat n <= zlen out ->
  match out2 with None => True | Some o2 => rep + Z.of_nat n <= zlen o2 end ->
  exists out' out2', indep_init n rep out out2 = Ok (out', out2') /\
    outside rep (rep + Z.of_nat n) out out' /\ opt_outside rep (rep + Z.of_nat n) out2 out2' /\
    forall i, rep <= i < rep + Z.of_nat n ->
      out' !! Z.to_nat i = Some CRUSH_ITEM_UNDEF /\
      forall o2, out2' = Some o2 -> o2 !! Z.to_nat i = Some CRUSH_ITEM_UNDEF.
Proof.
  revert rep out out2. induction n as [| n IH]; intros rep out out2 Hrep Hl Hl2; cbn [indep_init].
  { exists out, out2. split; [done |]. split; [apply outside_refl |].
    split; [apply opt_outside_refl |]. intros i Hi. lia. }
  assert (Hw : wr out rep CRUSH_ITEM_UNDEF = Ok (<[Z.to_nat rep := CRUSH_ITEM_UNDEF]> out))
    by (apply wr_Ok; split; [lia | done]). rewrite Hw. cbn [mbind res_bind].
  destruct (wr_opt_Ok out2 rep CRUSH_ITEM_UNDEF (rep + Z.of_nat (S n))) as (out2' & Hw2 & Ho2 & Hat);
    [done | lia |]. rewrite Hw2. cbn [mbind res_bind].
  pose proof (outside_insert rep out CRUSH_ITEM_UNDEF Hrep) as Ho.
  destruct (IH (rep + 1) (<[Z.to_nat rep := CRUSH_ITEM_UNDEF]> out) out2')
    as (o' & o2' & Hi & HO & HO2 & Hall); [lia | rewrite (zlen_outside _ _ _ _ Ho); lia | |].
  { destruct out2, out2'; try done. rewrite (zlen_outside _ _ _ _ Ho2). lia. }
  exists o', o2'. split; [done |].
  split; [eapply outside_trans; eapply outside_le; [| | exact Ho | | | exact HO]; lia |].
  split; [eapply opt_outside_trans; eapply opt_outside_le; [| | exact Ho2 | | | exact HO2]; lia |].
  intros i Hi'. destruct (decide (i = rep)) as [-> |]; [| apply Hall; lia]. split.
  - rewrite (proj2 HO) by lia. apply list_lookup_insert_eq. unfold zlen in Hl. lia.
  - intros o2f ->. destruct out2' as [o2m |]; [| done]. rewrite (proj2 HO2) by lia.
    destruct out2 as [o2 |]; [| done]. by destruct (Hat o2 eq_refl) as (? & [= <-] & ?).
Qed.

Definition defined (v : Z) : Z := if v =? CRUSH_ITEM_UNDEF then CRUSH_ITEM_NONE else v.

Lemma defined_wr o rep v :
  rd o rep = Ok v ->
  (if v =? CRUSH_ITEM_UNDEF then wr o rep CRUSH_ITEM_NONE else mret o)
  = Ok (<[Z.to_nat rep := defined v]> o).
Proof.
  intros Hv. apply rd_Ok in Hv as [Hr Hv]. unfold defined. destruct (v =? CRUSH_ITEM_UNDEF).
  - apply wr_Ok. split; [| done]. split; [done |]. apply lookup_lt_Some in Hv. unfold zlen. lia.
  - by rewrite list_insert_id.
Qed.

(** The final loop turns undefined entries into [CRUSH_ITEM_NONE]. *)
Lemma indep_finish_Ok n rep out out2 :
  0 <= rep -> rep + Z.of_nat n <= zlen out ->
  match out2 with None => True | Some o2 => rep + Z.of_nat n <= zlen o2 end ->
  exists out' out2', indep_finish n rep out out2 = Ok (out', out2') /\
    outside rep (rep + Z.of_nat n) out out' /\ opt_outside rep (rep + Z.of_nat n) out2 out2' /\
    forall i, rep <= i < rep + Z.of_nat n ->
      out' !! Z.to_nat i = defined <$> out !! Z.to_nat i /\
      forall o2 o2', out2 = Some o2 -> out2' = Some o2' ->
        o2' !! Z.to_nat i = defined <$> o2 !! Z.to_nat i.
Proof.
  revert rep out out2. induction n as [| n IH]; intros rep out out2 Hrep Hl Hl2; cbn [indep_finish].
  { exists out, out2. split; [done |]. split; [apply outside_refl |].
    split; [apply opt_outside_refl |]. intros i Hi. lia. }
  destruct (rd_in_range out rep) as [v Hv]; [lia |]. rewrite Hv. cbn [mbind res_bind].
  rewrite (defined_wr out rep v Hv). cbn [mbind res_bind]. apply rd_Ok in Hv as [_ Hv].
  pose proof (outside_insert rep out (defined v) Hrep) as Ho.
  assert (exists out2m, match out2 with
      | None => mret None
      | Some o2 => v2 ← rd o2 rep;
          Some <$> (if v2 =? CRUSH_ITEM_UNDEF then wr o2 rep CRUSH_ITEM_NONE else mret o2)
      end = Ok out2m /\ opt_outside rep (rep + 1) out2 out2m /\
      forall o2 o2', out2 = Some o2 -> out2m = Some o2' ->
        o2' !! Z.to_nat rep = defined <$> o2 !! Z.to_nat rep) as (out2m & -> & Ho2 & Hat).
  { destruct out2 as [o2 |]; [| by exists None].
    destruct (rd_in_range o2 rep) as [v2 Hv2]; [lia |]. rewrite Hv2. cbn [mbind res_bind].
    rewrite (defined_wr o2 rep v2 Hv2). eexists. split; [reflexivity |].
    split; [by apply outside_insert |]. intros ? ? [= <-] [= <-]. apply rd_Ok in Hv2 as [_ Hv2].
    rewrite Hv2, list_lookup_insert_eq; [done |]. unfold zlen in Hl2. lia. }
  cbn [mbind res_bind].
  destruct (IH (rep + 1) (<[Z.to_nat rep := defined v]> out) out2m)
    as (o' & o2' & Hi & HO & HO2 & Hall); [lia | rewrite (zlen_outside _ _ _ _ Ho); lia | |].
  { destruct out2, out2m; try done. rewrite (zlen_outside _ _ _ _ Ho2). lia. }
  exists o', o2'. split; [done |].
  split; [eapply outside_trans; eapply outside_le; [| | exact Ho | | | exact HO]; lia |].
  split; [eapply opt_outside_trans; eapply opt_outside_le; [| | exact Ho2 | | | exact HO2]; lia |].
  intros i Hi'. destruct (decide (i = rep)) as [-> |].
  - split.
    + rewrite (proj2 HO) by lia. rewrite Hv, list_lookup_insert_eq; [done |]. unfold zlen in Hl. lia.
    + intros o2 o2f -> ->. destruct out2m as [o2m |]; [| done]. rewrite (proj2 HO2) by lia. auto.
  - destruct (Hall i) as [H1 H2]; [lia |]. split.
    + rewrite H1, list_lookup_insert_ne by lia. done.
    + intros o2 o2f -> ->. destruct out2m as [o2m |]; [| done].
      rewrite (H2 o2m o2f eq_refl eq_refl), (proj2 Ho2) by lia. done.
Qed.

Lemma defined_hole v : hole v -> defined v = CRUSH_ITEM_NONE.
Proof. by intros [-> | ->]. Qed.

Lemma defined_good v : ~ hole v -> defined v = v.
Proof. intros Hv. unfold defined. destruct (Z.eqb_spec v CRUSH_ITEM_UNDEF); [| done]. destruct Hv. by left. Qed.

Lemma defined_inj u v : defined u = defined v -> u = v \/ hole u.
Proof. unfold defined, hole. do 2 case_match; bool_hyps; auto. Qed.

(** The final state of a position. *)
Definition final_slot (b : crush_bucket) (type : Z) (rtl : bool) (out : list Z)
    (out2 : option (list Z)) (i : Z) : Prop :=
  exists v, out !! Z.to_nat i = Some v /\ (v = CRUSH_ITEM_NONE \/ good b type v) /\
    (rtl = true -> exists o2 v2, out2 = Some o2 /\ o2 !! Z.to_nat i = Some v2 /\
       (v = CRUSH_ITEM_NONE -> v2 = CRUSH_ITEM_NONE \/
          (type = 0 /\ 0 <= v2 < max_devices m /\ below m b v2)) /\
       (v <> CRUSH_ITEM_NONE -> leaf_in v v2)).

Record indep_post (b : crush_bucket) (type : Z) (rtl : bool) (lo hi : Z)
    (out : list Z) (out2 : option (list Z)) (out' : list Z) (out2' : option (list Z)) : Prop := {
  ip_slot : forall i, lo <= i < hi -> final_slot b type rtl out' out2' i;
  ip_distinct : forall i j v, lo <= i < hi -> lo <= j < hi -> i <> j ->
    out' !! Z.to_nat i = Some v -> out' !! Z.to_nat j = Some v -> v = CRUSH_ITEM_NONE;
  ip_out : outside lo hi out out';
  ip_out2 : opt_outside lo hi out2 out2';
}.

Lemma leaf_in_not_hole b type v v2 : good b type v -> leaf_in v v2 -> ~ hole v2.
Proof.
  unfold leaf_in. intros Hg. destruct (v <? 0); [| intros ->; by eapply good_not_hole].
  intros (c & _ & Hc). by eapply good_not_hole.
Qed.

Lemma final_slot_defined b type rtl out out2 out' out2' i :
  slot b type rtl out out2 i -> out' !! Z.to_nat i = defined <$> out !! Z.to_nat i ->
  opt_outside i i out2 out2' \/ is_Some out2' ->
  (forall o2 o2', out2 = Some o2 -> out2' = Some o2' ->
     o2' !! Z.to_nat i = defined <$> o2 !! Z.to_nat i) ->
  final_slot b type rtl out' out2' i.
Proof.
  intros (v & Hv & Hc & Hl) Hd Hsome Hd2. exists (defined v). rewrite Hd, Hv. split; [done |].
  split.
  { destruct Hc as [Hh | Hg]; [left; by apply defined_hole |]. right.
    rewrite defined_good; [done | by eapply good_not_hole]. }
  intros Hr. destruct (Hl Hr) as (o2 & v2 & -> & Hv2 & H1 & H2).
  assert (exists o2', out2' = Some o2') as [o2' ->].
  { destruct Hsome as [Ho | [o2' ->]]; [| eauto]. destruct out2'; [eauto | done]. }
  exists o2', (defined v2). split; [done |].
  split; [by rewrite (Hd2 o2 o2' eq_refl eq_refl), Hv2 |]. destruct Hc as [Hh | Hg].
  - split; [| intros Hn; destruct Hn; by apply defined_hole]. intros _.
    destruct (H1 Hh) as [Hh2 | (Ht & Hd' & Hbl)]; [left; by apply defined_hole |]. right.
    rewrite defined_good; [done |]. unfold hole, CRUSH_ITEM_UNDEF, CRUSH_ITEM_NONE in *. lia.
  - assert (Hnh : ~ hole v) by (by eapply good_not_hole). rewrite (defined_good v) by done.
    split; [intros ->; destruct Hnh; by right |]. intros _.
    rewrite defined_good; [auto |]. eapply leaf_in_not_hole; eauto.
Qed.

Lemma indep_core_runs fuel rec b left numrep type out outpos tries rt rtl out2 parent_r :
  (rtl = true -> indep_rec_ok numrep rt rec) -> 0 < numrep < 2 ^ 31 ->
  0 <= outpos -> 0 <= left -> outpos + left <= zlen out -> zlen out < 2 ^ 31 ->
  match out2 with None => rtl = false | Some o2 => outpos + left <= zlen o2 end -> opt_small out2 ->
  is_bucket m b -> (rank (b_id b) < fuel)%nat ->
  runs m (fun cw =>
    '(out, out2) ← indep_init (Z.to_nat (outpos + left - outpos)) outpos out out2;
    '(out, out2, _, ftotal, cw) ←
      indep_rounds m weight x choose_args fuel rec b numrep type outpos (outpos + left) rt rtl parent_r
        (Z.to_nat tries) 0 out out2 left cw;
    '(out, out2) ← indep_finish (Z.to_nat (outpos + left - outpos)) outpos out out2;
    cw ← count_tries m cw ftotal;
    mret (out, out2, cw))
    (fun '(out', out2') => indep_post b type rtl outpos (outpos + left) out out2 out' out2').
Proof.
  intros Hrec Hn Hpos Hleft Hl Hsm Hl2 Hsm2 Hb Hfuel.
  assert (HN : outpos + Z.of_nat (Z.to_nat (outpos + left - outpos)) = outpos + left) by lia.
  set (hi := outpos + left) in *.
  destruct (indep_init_Ok (Z.to_nat (hi - outpos)) outpos out out2)
    as (o1 & o21 & Hi & Ho1 & Ho21 & Hu); [done | lia | by destruct out2; [lia |] |].
  rewrite HN in *. eapply runs_pure; [exact Hi |].
  assert (Hl21 : match o21 with None => rtl = false | Some o2 => hi <= zlen o2 end).
  { destruct out2, o21; try done. rewrite (zlen_outside _ _ _ _ Ho21). lia. }
  eapply runs_bind.
  { apply indep_rounds_runs; try done; [| lia | rewrite (zlen_outside _ _ _ _ Ho1); lia
      | by eapply opt_small_outside].
    split; [rewrite (zlen_outside _ _ _ _ Ho1); lia | done | |].
    - intros i Hi'. destruct (Hu i Hi') as [H1 H2]. exists CRUSH_ITEM_UNDEF. split; [done |].
      split; [left; by left |]. intros ->. destruct o21 as [o21 |]; [| done].
      exists o21, CRUSH_ITEM_UNDEF. split; [done |]. split; [auto |].
      split; [intros; by left | intros Hx; destruct Hx; by left].
    - intros i j v Hi' Hj _ Hv _. destruct (Hu i Hi') as [H1 _]. left. congruence. }
  intros [[[o' o2'] l'] ft] (Hft & Hinv & Ho' & Ho2').
  destruct (inv_len _ _ _ _ _ _ _ Hinv) as [_ Hlen']. pose proof (inv_len2 _ _ _ _ _ _ _ Hinv) as Hlen2'.
  destruct (indep_finish_Ok (Z.to_nat (hi - outpos)) outpos o' o2')
    as (oF & o2f & Hf & Hof & Ho2f & Hd); [done | lia | by destruct o2'; [lia |] |].
  rewrite HN in *. eapply runs_pure; [exact Hf |]. apply runs_count; [done |]. apply runs_ret. split.
  - intros i Hi'. destruct (Hd i Hi') as [H1 H2]. eapply final_slot_defined; [by apply Hinv | done | | done].
    destruct o2', o2f; try done; [right; eauto | by left].
  - intros i j v Hi' Hj Hne Hv Hv'. destruct (Hd i Hi') as [H1 _]. destruct (Hd j Hj) as [H1' _].
    rewrite Hv in H1. rewrite Hv' in H1'.
    destruct (o' !! Z.to_nat i) as [u |] eqn:E; [| done]. destruct (o' !! Z.to_nat j) as [u' |] eqn:E'; [| done].
    cbn in H1, H1'. injection H1 as ->. injection H1' as Heq.
    destruct (defined_inj u u' Heq) as [-> | Hh]; [| by apply defined_hole].
    apply defined_hole. by eapply (inv_distinct _ _ _ _ _ _ _ Hinv i j).
  - eapply outside_trans; [done | by eapply outside_trans].
  - eapply opt_outside_trans; [done | by eapply opt_outside_trans].
Qed.

Lemma choose_indep_leaf_rec_ok fuel numrep rt :
  0 < numrep < 2 ^ 31 -> max_rank < Z.of_nat fuel ->
  indep_rec_ok numrep rt (crush_choose_indep m weight x choose_args 0 fuel).
Proof.
  intros Hn Hf leaf o2 rep r Hb Hrep Hsm. cbn [crush_choose_indep]. cbv zeta.
  eapply runs_mono; [apply indep_core_runs; try done; try lia; pose proof (Hrank leaf Hb); lia |].
  intros [o2' none] Hp. split; [apply Hp |].
  destruct (ip_slot _ _ _ _ _ _ _ _ _ Hp rep) as (v & Hv & Hc & _); [lia |]. by exists v.
Qed.

Lemma choose_indep_runs fuel bucket left numrep type out outpos tries rt rtl out2 parent_r :
  0 < numrep < 2 ^ 31 -> max_rank < Z.of_nat fuel ->
  0 <= outpos -> 0 <= left -> outpos + left <= zlen out -> zlen out < 2 ^ 31 ->
  match out2 with None => rtl = false | Some o2 => outpos + left <= zlen o2 end -> opt_small out2 ->
  is_bucket m bucket ->
  runs m (fun cw => crush_choose_indep m weight x choose_args 1 fuel bucket left numrep type out outpos
                      tries rt rtl out2 parent_r cw)
    (fun '(out', out2') => indep_post bucket type rtl outpos (outpos + left) out out2 out' out2').
Proof.
  intros Hn Hf Hpos Hleft Hl Hsm Hl2 Hsm2 Hb. cbn [crush_choose_indep]. cbv zeta.
  apply indep_core_runs; try done; [intros _; by apply choose_indep_leaf_rec_ok |].
  pose proof (Hrank bucket Hb). lia.
Qed.
End indep_spec.
