(* ===== verification/CrushRule.v ===== *)
(** * crush_do_rule: rules as a whole

    A rule on a well-formed map returns: no step faults or runs out of fuel, the
    result depends neither on what earlier calls left in the workspace nor on the
    state of the try histogram, it has at most [result_max] entries and each is a
    device, a bucket or [CRUSH_ITEM_NONE].  For the two rules the monitors create
    (one take, one chooseleaf, one emit) the placement guarantees are proved:
    devices that are not out, in pairwise different failure domains. *)

From S2P Require Import Prelude CrushHash CrushLn CrushTypes CrushChoose CrushPerm CrushChooseSpec CrushTree CrushMapper CrushMapSpec CrushFirstn CrushIndep.

(** ** What a rule needs *)

(** Bounds on the map and on the tunables, from which the fuel is computed. *)
Record limits : Type := mk_limits {
  lim_size : Z;
  lim_rank : Z;
  lim_tries : Z;
  lim_local : Z;
}.

Definition lim_flocal (L : limits) : Z := lim_size L + lim_local L.

Record env_ok (m : crush_map) (rank : Z -> nat) (choose_args : option (list crush_choose_arg))
    (L : limits) (fuel : nat) (result_max : Z) : Prop := {
  eo_map : map_ok m rank;
  eo_maxdev : max_devices m <= CRUSH_ITEM_UNDEF;
  eo_args : args_ok m choose_args;
  eo_size : forall b, is_bucket m b -> b_size b <= lim_size L;
  eo_rank : forall b, is_bucket m b -> Z.of_nat (rank (b_id b)) <= lim_rank L;
  eo_pos : 0 <= lim_size L /\ 0 <= lim_rank L /\ 0 <= lim_tries L;
  eo_tries : choose_total_tries m + 1 <= lim_tries L;
  eo_local : 0 <= choose_local_tries m <= lim_local L;
  eo_fallback : 0 <= choose_local_fallback_tries m <= lim_local L;
  eo_vary : 0 <= chooseleaf_vary_r m <= 32;
  eo_width : lim_tries L + lim_flocal L + 2 < 2 ^ 31;
  eo_fuel : (lim_flocal L + lim_rank L + 2) * (lim_tries L + 1) <= Z.of_nat fuel;
  eo_result : 0 < result_max < 2 ^ 31;
}.

(** The arguments of the [SET_*] steps respect the bounds. *)
Definition step_ok (L : limits) (st : crush_rule_step) : Prop :=
  is_s32 (arg1 st) /\
  (op st = CRUSH_RULE_SET_CHOOSE_TRIES \/ op st = CRUSH_RULE_SET_CHOOSELEAF_TRIES -> arg1 st <= lim_tries L) /\
  (op st = CRUSH_RULE_SET_CHOOSE_LOCAL_TRIES \/ op st = CRUSH_RULE_SET_CHOOSE_LOCAL_FALLBACK_TRIES ->
     arg1 st <= lim_local L) /\
  (op st = CRUSH_RULE_SET_CHOOSELEAF_VARY_R -> arg1 st <= 32).

(** What a result vector may hold. *)
Definition entry (m : crush_map) (v : Z) : Prop :=
  v = CRUSH_ITEM_NONE \/ 0 <= v < max_devices m \/ exists b, is_bucket m b /\ b_id b = v.

Definition with_cw (s : rule_state) (cw : crush_work) : rule_state :=
  mk_rs (rs_w s) (rs_o s) (rs_c s) (rs_wsize s) (rs_result s) cw (rs_choose_tries s)
    (rs_choose_leaf_tries s) (rs_local_retries s) (rs_local_fallback_retries s)
    (rs_vary_r s) (rs_stable s).

Section rule_spec.
Context (m : crush_map) (rank : Z -> nat) (weight : list Z) (x : Z)
  (choose_args : option (list crush_choose_arg)) (L : limits) (fuel : nat) (result_max : Z)
  (He : env_ok m rank choose_args L fuel result_max).

Definition params_ok (s : rule_state) : Prop :=
  0 < rs_choose_tries s <= lim_tries L /\ 0 <= rs_choose_leaf_tries s <= lim_tries L /\
  0 <= rs_local_retries s <= lim_local L /\ 0 <= rs_local_fallback_retries s <= lim_local L /\
  0 <= rs_vary_r s <= 32.

(** A scratch vector with [n] entries in use. *)
Definition vec_ok (v : list Z) (n : Z) : Prop :=
  zlen v = result_max /\ Forall (entry m) (take (Z.to_nat n) v).

Record rs_ok (s : rule_state) : Prop := {
  ro_params : params_ok s;
  ro_wsize : 0 <= rs_wsize s <= result_max;
  ro_w : vec_ok (rs_w s) (rs_wsize s);
  ro_o : zlen (rs_o s) = result_max;
  ro_c : zlen (rs_c s) = result_max;
  ro_result : zlen (rs_result s) <= result_max /\ Forall (entry m) (rs_result s);
}.

Lemma good_entry b type v : good m weight x b type v -> entry m v.
Proof.
  intros (_ & Hd & Ht & _). unfold item_type in Ht. right.
  destruct (Z.ltb_spec v 0) as [Hneg |]; [| left; lia]. right.
  apply res_bind_Ok in Ht as (c & Hc & _). apply deref_bucket_Ok in Hc as [_ Hc]. exists c.
  pose proof (mo_id _ _ (eo_map _ _ _ _ _ _ He) _ _ Hc) as Hid. rewrite Z2Nat.id in Hid by lia.
  split; [| lia]. split; [by replace (-1 - b_id c) with (-1 - v) by lia | lia].
Qed.

Lemma leaf_for_entry b type v lf o2 i :
  good m weight x b type v -> leaf_for m weight x v lf o2 i -> entry m lf.
Proof.
  intros Hg. unfold leaf_for. destruct (v <? 0); [| intros ->; by eapply good_entry].
  intros (c & _ & Hc & _). by eapply good_entry.
Qed.

Lemma leaf_in_entry b type v lf :
  good m weight x b type v -> leaf_in m weight x v lf -> entry m lf.
Proof.
  intros Hg. unfold leaf_in. destruct (v <? 0); [| intros ->; by eapply good_entry].
  intros (c & _ & Hc). by eapply good_entry.
Qed.

Lemma entry_bucket v :
  entry m v -> 0 <= -1 - v -> exists b, deref_bucket m (-1 - v) = Ok b /\ is_bucket m b.
Proof.
  intros [-> | [? | (b & Hb & <-)]] Hneg; [unfold CRUSH_ITEM_NONE in *; lia | lia |].
  exists b. split; [| done]. apply deref_bucket_Ok. by destruct Hb.
Qed.

(** Entries added behind the first [n]. *)
Lemma vec_ok_extend v n o k :
  vec_ok v n -> 0 <= n <= result_max -> length o = length (drop (Z.to_nat n) v) -> 0 <= k ->
  (forall i, 0 <= i < k -> exists e, o !! Z.to_nat i = Some e /\ entry m e) ->
  vec_ok (take (Z.to_nat n) v ++ o) (n + k).
Proof.
  intros [Hl Hf] Hn Ho Hk Hall. unfold zlen in Hl. split.
  - unfold zlen. rewrite length_app, Ho, <- length_app, take_drop. done.
  - rewrite take_app_ge by (rewrite length_take; lia). rewrite length_take.
    apply Forall_app. split; [done |]. apply Forall_forall. intros e Hin.
    apply list_elem_of_lookup in Hin as [i Hi]. rewrite lookup_take_Some in Hi.
    destruct Hi as [Hi Hlt]. destruct (Hall (Z.of_nat i)) as (e' & He' & Hent); [lia |].
    rewrite Nat2Z.id in He'. congruence.
Qed.

Lemma lim_tries_ok s tries :
  params_ok s -> 0 <= tries <= lim_tries L ->
  tries_ok (u32 (rs_local_retries s)) (u32 (rs_local_fallback_retries s)) (lim_size L) (lim_rank L)
    fuel (u32 tries).
Proof.
  intros (_ & _ & Hlr & Hlfr & _) Ht. pose proof (eo_width _ _ _ _ _ _ He) as Hw.
  pose proof (eo_fuel _ _ _ _ _ _ He) as Hf. destruct (eo_pos _ _ _ _ _ _ He) as (Hs & Hr & HT).
  unfold lim_flocal in *. rewrite !u32_id by (unfold is_u32; lia). unfold tries_ok, flocal_max.
  assert (0 <= Z.max (rs_local_retries s) (lim_size L + rs_local_fallback_retries s)
            <= lim_size L + lim_local L) as Hb by lia.
  split; [lia |]. split; [lia |]. etransitivity; [| exact Hf]. apply Z.mul_le_mono_nonneg; lia.
Qed.

Lemma call_firstn_runs s bucket numrep type o c out_size recurse_tries rtl :
  params_ok s -> 0 <= recurse_tries <= lim_tries L -> 0 <= out_size ->
  out_size <= zlen o -> zlen o < 2 ^ 31 -> zlen c = zlen o -> is_bucket m bucket ->
  runs m (fun cw => crush_choose_firstn m weight x choose_args (u32 (rs_local_retries s))
            (u32 (rs_local_fallback_retries s)) (u32 (rs_vary_r s)) (u32 (rs_stable s)) 1 fuel
            bucket numrep type o 0 out_size (u32 (rs_choose_tries s)) (u32 recurse_tries) rtl (Some c) 0 cw)
    (firstn_post m weight x bucket type o 0 (Z.min (Z.max 0 numrep) out_size) rtl (Some c)).
Proof.
  intros Hp Hrt Hos Hlen Hsm Hc Hb. pose proof Hp as (Hct & _ & _ & _ & Hvr).
  pose proof (eo_width _ _ _ _ _ _ He) as Hw. destruct (eo_pos _ _ _ _ _ _ He) as (Hs & Hr & HT).
  eapply runs_mono.
  - apply (choose_firstn_runs m rank (eo_map _ _ _ _ _ _ He) weight x choose_args
             (eo_args _ _ _ _ _ _ He)) with (max_size := lim_size L) (max_rank := lim_rank L);
      try done; try lia; auto using u32_range.
    + rewrite u32_id by (unfold is_u32; lia). lia.
    + apply He.
    + apply He.
    + intros _. by apply lim_tries_ok.
    + apply lim_tries_ok; [done | lia].
    + intros _. exists c. split; [done |]. lia.
  - intros r Hr'. eapply firstn_post_weaken; [| exact Hr']. destruct (u32 (rs_stable s) =? 0); lia.
Qed.

Lemma call_indep_runs bucket left numrep type o c tries recurse_tries rtl :
  0 < numrep < 2 ^ 31 -> 0 <= left -> left <= zlen o -> zlen o < 2 ^ 31 -> zlen c = zlen o ->
  is_bucket m bucket ->
  runs m (fun cw => crush_choose_indep m weight x choose_args 1 fuel bucket left numrep type o 0
            tries recurse_tries rtl (Some c) 0 cw)
    (fun '(o', c') => indep_post m weight x bucket type rtl 0 left o (Some c) o' c').
Proof.
  intros Hn Hl Hlen Hsm Hc Hb. destruct (eo_pos _ _ _ _ _ _ He) as (Hs & Hr & HT).
  pose proof (eo_fuel _ _ _ _ _ _ He) as Hf. pose proof (eo_local _ _ _ _ _ _ He).
  eapply (choose_indep_runs m rank (eo_map _ _ _ _ _ _ He) (eo_maxdev _ _ _ _ _ _ He) weight x
             choose_args (eo_args _ _ _ _ _ _ He) (lim_rank L) (eo_rank _ _ _ _ _ _ He));
    try done; try lia.
  - unfold lim_flocal in Hf. nia.
  - cbn. lia.
Qed.

(** What one call adds to the vectors. *)
Definition one_post (rtl : bool) (osize : Z) (res : list Z * list Z * Z) : Prop :=
  let '(o', c', osize') := res in
  osize <= osize' <= result_max /\ vec_ok o' osize' /\ zlen c' = result_max /\ (rtl = true -> vec_ok c' osize').

Lemma vec_drop (v : list Z) n :
  zlen v = result_max -> 0 <= n <= result_max -> zlen (drop (Z.to_nat n) v) = result_max - n.
Proof. unfold zlen. intros. rewrite length_drop. lia. Qed.

Lemma vec_app_len (v : list Z) n o :
  zlen v = result_max -> length o = length (drop (Z.to_nat n) v) -> zlen (take (Z.to_nat n) v ++ o) = result_max.
Proof. unfold zlen. intros Hv Ho. rewrite length_app, Ho, <- length_app, take_drop. done. Qed.

Lemma choose_one_runs s firstn rtl numrep type bno bucket o c osize :
  params_ok s -> 0 < numrep < 2 ^ 31 -> deref_bucket m bno = Ok bucket -> is_bucket m bucket ->
  0 <= osize <= result_max -> vec_ok o osize -> zlen c = result_max -> (rtl = true -> vec_ok c osize) ->
  runs m (fun cw => choose_one fuel m weight x choose_args result_max s firstn rtl numrep type bno
                      o c osize cw)
    (one_post rtl osize).
Proof.
  intros Hp Hn Hd Hb Hos Ho Hc Hcv. pose proof (eo_result _ _ _ _ _ _ He) as Hrm.
  unfold choose_one. eapply runs_pure; [exact Hd |]. cbv zeta.
  pose proof (vec_drop o osize (proj1 Ho) Hos) as Hdo. pose proof (vec_drop c osize Hc Hos) as Hdc.
  destruct firstn.
  - eapply runs_bind.
    { apply call_firstn_runs; try done; try lia. destruct Hp as (? & ? & _). 
      destruct (eo_pos _ _ _ _ _ _ He) as (_ & _ & ?). repeat case_match; lia. }
    intros [[pos o'] c'] (Hpos & [Hlo _] & Hfc & Hfill & Hleaf). destruct c' as [c' |]; [| done].
    apply runs_ret. cbn [default]. destruct Hfc as [Hlc _].
    split; [lia |]. split; [| split; [by apply vec_app_len |]].
    + apply vec_ok_extend; try done; [lia |]. intros i Hi.
      destruct (Hfill i Hi) as (item & Hl & Hg & _). exists item. split; [done |]. by eapply good_entry.
    + intros Hr. apply vec_ok_extend; auto; [lia |]. intros i Hi.
      destruct (Hleaf Hr) as (c'' & [= <-] & Hlf). destruct (Hlf i Hi) as (item & lf & Hit & Hl & Hfor).
      exists lf. split; [done |]. destruct (Hfill i Hi) as (item' & Hit' & Hg & _).
      rewrite Hit in Hit'. injection Hit' as <-. by eapply leaf_for_entry.
  - set (out_size := if numrep <? result_max - osize then numrep else result_max - osize).
    assert (0 <= out_size <= result_max - osize) as Hout by (subst out_size; destruct (Z.ltb_spec numrep (result_max - osize)); lia).
    eapply runs_bind; [apply call_indep_runs; try done; lia |].
    intros [o' c'] [Hslot _ [Hlo _] Hfc]. destruct c' as [c' |]; [| done].
    apply runs_ret. cbn [default]. destruct Hfc as [Hlc _].
    split; [lia |]. split; [| split; [by apply vec_app_len |]].
    + apply vec_ok_extend; try done; [lia |]. intros i Hi.
      destruct (Hslot i Hi) as (v & Hv & Hcase & _). exists v. split; [done |].
      destruct Hcase as [-> | Hg]; [by left | by eapply good_entry].
    + intros Hr. apply vec_ok_extend; auto; [lia |]. intros i Hi.
      destruct (Hslot i Hi) as (v & Hv & Hcase & Hl). destruct (Hl Hr) as (? & lf & [= <-] & Hlf & H1 & H2).
      exists lf. split; [done |]. destruct (decide (v = CRUSH_ITEM_NONE)) as [-> | Hne].
      * destruct (H1 eq_refl) as [-> | (_ & Hdev & _)]; [by left | right; by left].
      * destruct Hcase as [| Hg]; [done |]. by eapply leaf_in_entry; auto.
Qed.

Lemma choose_loop_runs s firstn rtl a1 a2 n i o c osize :
  params_ok s -> vec_ok (rs_w s) (rs_wsize s) -> is_s32 a1 ->
  0 <= i -> i + Z.of_nat n <= rs_wsize s -> rs_wsize s <= result_max ->
  0 <= osize <= result_max -> vec_ok o osize -> zlen c = result_max -> (rtl = true -> vec_ok c osize) ->
  runs m (fun cw => choose_loop fuel m weight x choose_args result_max s firstn rtl a1 a2 n i o c osize cw)
    (one_post rtl osize).
Proof.
  intros Hp [Hlw Hw] Ha Hi Hn Hws. pose proof (eo_result _ _ _ _ _ _ He) as Hrm.
  unfold is_s32 in Ha. revert i o c osize Hi Hn.
  induction n as [| n IH]; intros i o c osize Hi Hn Hos Ho Hc Hcv; cbn [choose_loop].
  { apply runs_ret. split; [lia | done]. }
  cbv zeta. set (numrep := if a1 <=? 0 then a1 + result_max else a1).
  assert (numrep < 2 ^ 31) as Hnr by (subst numrep; destruct (Z.leb_spec a1 0); lia).
  destruct (Z.leb_spec numrep 0) as [| Hpos]; [apply IH; auto; lia |].
  destruct (rd_in_range (rs_w s) i) as [wi Hwi]; [lia |]. eapply runs_pure; [exact Hwi |].
  destruct (Z.ltb_spec (-1 - wi) 0) as [| Hneg]; cbn [orb]; [apply IH; auto; lia |].
  destruct (max_buckets m <=? -1 - wi); [apply IH; auto; lia |].
  assert (entry m wi) as Hent.
  { apply rd_Ok in Hwi as [_ Hwi]. apply (Forall_lookup_1 _ _ (Z.to_nat i) _ Hw).
    rewrite lookup_take_lt by lia. exact Hwi. }
  destruct (entry_bucket wi Hent Hneg) as (b & Hd & Hb).
  eapply runs_bind; [by eapply choose_one_runs |].
  intros [[o' c'] osize'] (Hos' & Ho' & Hc' & Hcv').
  eapply runs_mono; [apply IH; auto; lia |].
  intros [[o'' c''] osize''] (Hos'' & Hrest). split; [lia | done].
Qed.

(** ** Steps *)

(** A step from [s] reaches, whatever the workspace, one and the same state. *)
Definition srun (f : rule_state -> res rule_state) (s : rule_state) (P : rule_state -> Prop) : Prop :=
  exists s', P s' /\ forall cw, work_inv m cw ->
    exists cw', f (with_cw s cw) = Ok (with_cw s' cw') /\ work_inv m cw'.

Lemma srun_pure (f : rule_state -> res rule_state) s s' (P : rule_state -> Prop) :
  (forall cw, f (with_cw s cw) = Ok (with_cw s' cw)) -> P s' -> srun f s P.
Proof. intros Hf HP. exists s'. split; [done |]. intros cw Hcw. exists cw. by rewrite Hf. Qed.

Lemma step_take_srun s arg : rs_ok s -> srun (fun s => step_take m s arg) s rs_ok.
Proof.
  intros Hs. pose proof (eo_result _ _ _ _ _ _ He) as Hrm.
  destruct (take_ok m arg) eqn:Ht.
  2: { apply srun_pure with s; [intros cw; unfold step_take; by rewrite Ht | done]. }
  destruct Hs as [Hp Hws [Hlw Hw] Ho Hc Hr].
  assert (Hwr : wr (rs_w s) 0 arg = Ok (<[0%nat := arg]> (rs_w s))) by (apply wr_Ok; split; [lia | done]).
  apply srun_pure with (mk_rs (<[0%nat := arg]> (rs_w s)) (rs_o s) (rs_c s) 1 (rs_result s) (rs_cw s)
    (rs_choose_tries s) (rs_choose_leaf_tries s) (rs_local_retries s) (rs_local_fallback_retries s)
    (rs_vary_r s) (rs_stable s)).
  { intros cw. unfold step_take. rewrite Ht. cbn [with_cw rs_w]. by rewrite Hwr. }
  split; try done; cbn; [lia |]. split; [unfold zlen in *; by rewrite length_insert |].
  destruct (rs_w s) as [| w0 wt]; [unfold zlen in Hlw; cbn in Hlw; lia |].
  change (Z.to_nat 1) with 1%nat. cbn [take insert list_insert]. constructor; [| constructor].
  unfold take_ok in Ht. apply orb_prop in Ht as [Ht | Ht].
  - right. left. bool_hyps. lia.
  - right. right. bool_hyps. case_match eqn:E; [| done]. case_match; [| done]. simplify_eq.
    exists c. pose proof (mo_id _ _ (eo_map _ _ _ _ _ _ He) _ _ E) as Hid.
    rewrite Z2Nat.id in Hid by lia. split; [split |]; [| lia | lia].
    by replace (-1 - b_id c) with (-1 - arg) by lia.
Qed.

(** The choices do not look at the workspace that the state carries. *)
Lemma choose_loop_cw s cw firstn rtl a1 a2 n i o c osize cw' :
  choose_loop fuel m weight x choose_args result_max (with_cw s cw) firstn rtl a1 a2 n i o c osize cw'
  = choose_loop fuel m weight x choose_args result_max s firstn rtl a1 a2 n i o c osize cw'.
Proof.
  revert i o c osize cw'. induction n as [| n IH]; intros; cbn [choose_loop]; [done |]. cbv zeta.
  destruct ((if a1 <=? 0 then a1 + result_max else a1) <=? 0); [apply IH |]. cbn [with_cw rs_w].
  destruct (rd (rs_w s) i) as [wi | |]; cbn [mbind res_bind]; [| done ..].
  destruct ((-1 - wi <? 0) || (max_buckets m <=? -1 - wi)); [apply IH |].
  change (choose_one fuel m weight x choose_args result_max (with_cw s cw))
    with (choose_one fuel m weight x choose_args result_max s).
  destruct (choose_one _ _ _ _ _ _ _ _ _ _ _ _ _ _ _ _) as [[[[o' c'] os'] cw''] | |]; cbn; auto.
Qed.

Lemma step_choose_srun s firstn rtl a1 a2 :
  rs_ok s -> is_s32 a1 ->
  srun (fun s => step_choose fuel m weight x choose_args result_max s firstn rtl a1 a2) s rs_ok.
Proof.
  intros Hs Ha. destruct (Z.eqb_spec (rs_wsize s) 0) as [Hz | Hnz].
  { apply srun_pure with s; [| done]. intros cw. unfold step_choose. cbn [with_cw rs_wsize].
    by rewrite Hz. }
  pose proof Hs as [Hp Hws Hw Ho Hc Hr].
  destruct (choose_loop_runs s firstn rtl a1 a2 (Z.to_nat (rs_wsize s)) 0 (rs_o s) (rs_c s) 0)
    as ([[o' c'] osize'] & (Hos & Ho' & Hc' & Hcv) & Hrun); try done; try lia.
  exists (mk_rs (if rtl then take (Z.to_nat osize') c' ++ drop (Z.to_nat osize') o' else o') (rs_w s) c'
    osize' (rs_result s) (rs_cw s) (rs_choose_tries s) (rs_choose_leaf_tries s) (rs_local_retries s)
    (rs_local_fallback_retries s) (rs_vary_r s) (rs_stable s)). split.
  - split; try done; cbn; [| apply Hw]. destruct rtl; [| done]. specialize (Hcv eq_refl).
    destruct Hcv as [_ Hcv], Ho' as [Hlo _]. unfold zlen in *.
    split; [unfold zlen; rewrite length_app, length_take, length_drop; lia |].
    rewrite take_app_length'; [done |]. rewrite length_take. lia.
  - intros cw Hcw. destruct (Hrun cw Hcw) as (cw' & E & Hcw'). exists cw'. split; [| done].
    unfold step_choose. cbn [with_cw rs_wsize]. rewrite (proj2 (Z.eqb_neq _ _) Hnz).
    cbn [with_cw rs_o rs_c rs_cw].
    rewrite choose_loop_cw, E. reflexivity.
Qed.

(** [emit] copies as much of the working vector as the result has room for. *)
Lemma emit_loop_Ok w n i result :
  0 <= i -> i + Z.of_nat n <= zlen w -> zlen result <= result_max ->
  emit_loop result_max w n i result
  = Ok (result ++ take (Z.to_nat (result_max - zlen result)) (take n (drop (Z.to_nat i) w))).
Proof.
  revert i result. induction n as [| n IH]; intros i result Hi Hl Hr; cbn [emit_loop].
  { rewrite take_0, take_nil, app_nil_r. done. }
  destruct (Z.leb_spec result_max (zlen result)) as [Hge | Hlt].
  { replace (Z.to_nat (result_max - zlen result)) with 0%nat by lia. by rewrite take_0, app_nil_r. }
  destruct (rd_in_range w i) as [v Hv]; [lia |]. rewrite Hv. cbn [mbind res_bind].
  assert (zlen (result ++ [v]) = zlen result + 1) as Hz by (unfold zlen; rewrite length_app; cbn; lia).
  rewrite IH by lia. rewrite Hz. apply rd_Ok in Hv as [_ Hv]. rewrite (drop_S _ _ _ Hv).
  rewrite <- app_assoc. do 2 f_equal.
  replace (Z.to_nat (result_max - zlen result)) with (S (Z.to_nat (result_max - (zlen result + 1)))) by lia.
  cbn [take app]. by replace (Z.to_nat (i + 1)) with (S (Z.to_nat i)) by lia.
Qed.

Lemma step_emit_srun s : rs_ok s -> srun (step_emit result_max) s rs_ok.
Proof.
  intros [Hp Hws [Hlw Hw] Ho Hc [Hr Hrf]].
  assert (He' : emit_loop result_max (rs_w s) (Z.to_nat (rs_wsize s)) 0 (rs_result s)
    = Ok (rs_result s ++ take (Z.to_nat (result_max - zlen (rs_result s)))
            (take (Z.to_nat (rs_wsize s)) (rs_w s)))) by (rewrite emit_loop_Ok; [done | lia ..]).
  eapply srun_pure with (s' := mk_rs (rs_w s) (rs_o s) (rs_c s) 0 _ (rs_cw s) (rs_choose_tries s)
    (rs_choose_leaf_tries s) (rs_local_retries s) (rs_local_fallback_retries s) (rs_vary_r s) (rs_stable s)).
  { intros cw. unfold step_emit. cbn [with_cw rs_w rs_wsize rs_result]. rewrite He'. reflexivity. }
  split; try done; cbn [rs_wsize rs_result]; [lia |]. split.
  - unfold zlen in *. rewrite length_app, !length_take. lia.
  - apply Forall_app. split; [done |]. by apply Forall_take.
Qed.

Lemma step_set_ok s o v :
  rs_ok s -> step_ok L (mk_step o v 0) -> rs_ok (step_set s o v).
Proof.
  intros [(H1 & H2 & H3 & H4 & H5) Hws Hw Ho Hc Hr] (_ & Ht & Hl & Hv). cbn in Ht, Hl, Hv.
  unfold step_set. cbv zeta. repeat case_match; bool_hyps; (split; [| done ..]); unfold params_ok; cbn;
    intuition lia.
Qed.

Lemma rule_step_srun s st :
  rs_ok s -> step_ok L st ->
  srun (fun s => rule_step fuel m weight x choose_args result_max s st) s rs_ok.
Proof.
  intros Hs Hst. pose proof Hst as (Ha & _). unfold rule_step. cbv zeta.
  destruct (op st =? CRUSH_RULE_TAKE); [by apply step_take_srun |].
  do 4 (case_match; [by apply step_choose_srun |]).
  case_match; [by apply step_emit_srun |].
  apply srun_pure with (step_set s (op st) (arg1 st)); [| by apply step_set_ok].
  intros cw. unfold step_set. cbv zeta. repeat case_match; reflexivity.
Qed.

Lemma rule_steps_srun s l :
  rs_ok s -> Forall (step_ok L) l ->
  srun (fun s => rule_steps fuel m weight x choose_args result_max s l) s rs_ok.
Proof.
  intros Hs Hl. revert s Hs. induction Hl as [| st l Hst Hl IH]; intros s Hs; cbn [rule_steps].
  { by apply srun_pure with s. }
  destruct (rule_step_srun s st Hs Hst) as (s1 & Hs1 & H1).
  destruct (IH s1 Hs1) as (s2 & Hs2 & H2). exists s2. split; [done |]. intros cw Hcw.
  destruct (H1 cw Hcw) as (cw1 & E1 & Hcw1). rewrite E1. cbn [mbind res_bind]. by apply H2.
Qed.

Definition init_state (a b c : list Z) (cw : crush_work) : rule_state :=
  mk_rs a b c 0 [] cw (s32 (choose_total_tries m + 1)) 0 (s32 (choose_local_tries m))
    (s32 (choose_local_fallback_tries m)) (chooseleaf_vary_r m) (chooseleaf_stable m).

Lemma init_state_ok a b c cw :
  zlen a = result_max -> zlen b = result_max -> zlen c = result_max -> rs_ok (init_state a b c cw).
Proof.
  intros Ha Hb Hc. pose proof (eo_result _ _ _ _ _ _ He) as Hrm.
  pose proof (eo_width _ _ _ _ _ _ He) as Hw. destruct (eo_pos _ _ _ _ _ _ He) as (? & ? & ?).
  pose proof (eo_tries _ _ _ _ _ _ He). pose proof (eo_local _ _ _ _ _ _ He).
  pose proof (eo_fallback _ _ _ _ _ _ He). pose proof (eo_vary _ _ _ _ _ _ He).
  pose proof (mo_tries _ _ (eo_map _ _ _ _ _ _ He)). unfold lim_flocal in Hw.
  split; cbn; try done; [| lia | split; [unfold zlen; cbn; lia | by constructor]].
  unfold params_ok. cbn. rewrite !s32_id by (unfold is_s32; lia). lia.
Qed.

(** ** One take, one chooseleaf, one emit *)

Definition simple_steps (root o n type : Z) : list crush_rule_step :=
  [mk_step CRUSH_RULE_TAKE root 0; mk_step o n type; mk_step CRUSH_RULE_EMIT 0 0].

Definition leaf_op (firstn : bool) : Z :=
  if firstn then CRUSH_RULE_CHOOSELEAF_FIRSTN else CRUSH_RULE_CHOOSELEAF_INDEP.

Definition rule_numrep (n : Z) : Z := if n <=? 0 then n + result_max else n.

Definition taken_state (root : Z) (a b c : list Z) (cw : crush_work) : rule_state :=
  mk_rs (<[0%nat := root]> a) b c 1 [] cw (s32 (choose_total_tries m + 1)) 0
    (s32 (choose_local_tries m)) (s32 (choose_local_fallback_tries m))
    (chooseleaf_vary_r m) (chooseleaf_stable m).

Lemma step_take_bucket root a b c cw :
  is_bucket m root -> zlen a = result_max ->
  step_take m (init_state a b c cw) (b_id root) = Ok (taken_state (b_id root) a b c cw).
Proof.
  intros [Hl Hneg] Ha. pose proof (eo_result _ _ _ _ _ _ He) as Hrm.
  assert (take_ok m (b_id root) = true) as Ht.
  { unfold take_ok. rewrite Hl. pose proof (lookup_lt_Some _ _ _ Hl). unfold max_buckets, zlen.
    apply orb_true_iff. right. rewrite andb_true_r. apply andb_true_iff.
    split; [apply Z.leb_le | apply Z.ltb_lt]; lia. }
  assert (Hwr : wr a 0 (b_id root) = Ok (<[0%nat := b_id root]> a)) by (apply wr_Ok; split; [lia | done]).
  unfold step_take, init_state. rewrite Ht. cbn [rs_w]. rewrite Hwr. reflexivity.
Qed.

(** The state after the choose step on a single bucket. *)
Definition chosen_state (root : Z) (a w c : list Z) (n : Z) (cw : crush_work) : rule_state :=
  mk_rs w (<[0%nat := root]> a) c n [] cw (s32 (choose_total_tries m + 1)) 0
    (s32 (choose_local_tries m)) (s32 (choose_local_fallback_tries m))
    (chooseleaf_vary_r m) (chooseleaf_stable m).

Lemma step_choose_taken firstn root n type a b c cw o' c' osize cw' :
  is_bucket m root -> zlen a = result_max -> 0 < rule_numrep n ->
  choose_one fuel m weight x choose_args result_max (taken_state (b_id root) a b c (mk_work [] None))
    firstn true (rule_numrep n) type (-1 - b_id root) b c 0 cw = Ok (o', c', osize, cw') ->
  step_choose fuel m weight x choose_args result_max (taken_state (b_id root) a b c cw) firstn true n type
  = Ok (chosen_state (b_id root) a (take (Z.to_nat osize) c' ++ drop (Z.to_nat osize) o') c' osize cw').
Proof.
  intros [Hl Hneg] Ha Hnr E.
  change (taken_state (b_id root) a b c cw) with (with_cw (taken_state (b_id root) a b c (mk_work [] None)) cw).
  unfold step_choose. cbn [with_cw taken_state rs_wsize rs_o rs_c rs_cw Z.eqb].
  change (Z.to_nat 1) with 1%nat.
  rewrite choose_loop_cw. cbn [choose_loop]. cbv zeta. fold (rule_numrep n).
  destruct (Z.leb_spec (rule_numrep n) 0); [lia |]. pose proof (eo_result _ _ _ _ _ _ He).
  assert (Hrd : rd (rs_w (taken_state (b_id root) a b c (mk_work [] None))) 0 = Ok (b_id root)).
  { apply rd_Ok. split; [lia |]. apply list_lookup_insert_eq. unfold zlen in Ha. lia. }
  rewrite Hrd. cbn [mbind res_bind]. apply lookup_lt_Some in Hl. unfold max_buckets, zlen.
  destruct (Z.ltb_spec (-1 - b_id root) 0); [lia |]. cbn [orb].
  destruct (Z.leb_spec (Z.of_nat (length (buckets m))) (-1 - b_id root)); [lia |].
  rewrite E. reflexivity.
Qed.

Lemma step_emit_chosen root a o' c' osize cw :
  0 <= osize <= result_max -> osize <= zlen c' ->
  exists s', step_emit result_max
      (chosen_state root a (take (Z.to_nat osize) c' ++ drop (Z.to_nat osize) o') c' osize cw) = Ok s' /\
    rs_result s' = take (Z.to_nat osize) c' /\ rs_cw s' = cw.
Proof.
  intros Hos Hc. assert (length (take (Z.to_nat osize) c') = Z.to_nat osize) as Hlen
    by (rewrite length_take; unfold zlen in *; lia).
  unfold step_emit. cbn [chosen_state rs_w rs_wsize rs_result].
  rewrite emit_loop_Ok; [| lia | unfold zlen; rewrite length_app, Hlen; lia | unfold zlen; cbn; lia].
  cbn [mbind res_bind]. eexists. split; [reflexivity |]. split; [| done].
  cbn [rs_result app]. change (Z.to_nat 0) with 0%nat. rewrite drop_0.
  rewrite take_app_length' by done. by rewrite take_ge by (rewrite Hlen; unfold zlen; cbn; lia).
Qed.

(** The rule returns the leaves that the single call chose. *)
Lemma simple_rule_runs firstn root n type a b c (P : list Z * list Z * Z -> Prop) :
  is_bucket m root -> zlen a = result_max -> 0 < rule_numrep n ->
  (forall r, P r -> let '(_, c', osize) := r in 0 <= osize <= result_max /\ osize <= zlen c') ->
  runs m (fun cw => choose_one fuel m weight x choose_args result_max
                      (taken_state (b_id root) a b c (mk_work [] None)) firstn true (rule_numrep n) type
                      (-1 - b_id root) b c 0 cw) P ->
  exists o' c' osize, P (o', c', osize) /\ forall cw, work_inv m cw -> exists s',
    rule_steps fuel m weight x choose_args result_max (init_state a b c cw)
      (simple_steps (b_id root) (leaf_op firstn) n type) = Ok s' /\
    rs_result s' = take (Z.to_nat osize) c' /\ work_inv m (rs_cw s').
Proof.
  intros Hroot Ha Hnr HP ([[o' c'] osize] & Hp & Hrun). destruct (HP _ Hp) as [Hos Hc].
  exists o', c', osize. split; [done |]. intros cw Hcw. destruct (Hrun cw Hcw) as (cw' & E & Hcw').
  destruct (step_emit_chosen (b_id root) a o' c' osize cw' Hos Hc) as (s' & Hs' & Hres & Hw).
  exists s'. split; [| by rewrite Hw].
  assert (Hst : forall s, rule_step fuel m weight x choose_args result_max s
    (mk_step (leaf_op firstn) n type) = step_choose fuel m weight x choose_args result_max s firstn true n type)
    by (by destruct firstn).
  assert (Htk : forall s, rule_step fuel m weight x choose_args result_max s
    (mk_step CRUSH_RULE_TAKE (b_id root) 0) = step_take m s (b_id root)) by done.
  assert (Hem : forall s, rule_step fuel m weight x choose_args result_max s
    (mk_step CRUSH_RULE_EMIT 0 0) = step_emit result_max s) by done.
  unfold simple_steps. cbn [rule_steps]. rewrite Htk, step_take_bucket by done. cbn [mbind res_bind].
  rewrite Hst, (step_choose_taken _ _ _ _ _ _ _ _ _ _ _ _ Hroot Ha Hnr E). cbn [mbind res_bind].
  rewrite Hem, Hs'. done.
Qed.

(** Device [v] serves under the failure domain [d] of type [type]. *)
Definition placed (root : crush_bucket) (type d v : Z) : Prop :=
  exists db, is_bucket m db /\ b_id db = d /\ b_type db = type /\ below m root d /\ below m db v /\
    0 <= v < max_devices m /\ is_out weight v x = Ok false.

Lemma good_negative b type v : type <> 0 -> good m weight x b type v -> v < 0.
Proof. intros Ht (_ & _ & Hi & _). unfold item_type in Hi. destruct (Z.ltb_spec v 0); [done | congruence]. Qed.

Lemma good_placed root type item c lf :
  type <> 0 -> good m weight x root type item -> deref_bucket m (-1 - item) = Ok c ->
  good m weight x c 0 lf -> placed root type item lf.
Proof.
  intros Ht Hg Hd (Hbl & Hdev & Hit & Hno). pose proof (good_negative _ _ _ Ht Hg) as Hneg.
  destruct Hg as (Hb & _ & Hi & _). unfold item_type in Hi. destruct (Z.ltb_spec item 0); [| lia].
  rewrite Hd in Hi. cbn in Hi. injection Hi as Hty. apply deref_bucket_Ok in Hd as [_ Hd].
  pose proof (eo_map _ _ _ _ _ _ He) as Hm. pose proof (mo_id _ _ Hm _ _ Hd) as Hid.
  rewrite Z2Nat.id in Hid by lia. assert (is_bucket m c) as Hc.
  { split; [by replace (-1 - b_id c) with (-1 - item) by lia | lia]. }
  exists c. split; [done |]. split; [lia |]. split; [done |]. split; [done |]. split; [done |].
  split; [| auto]. split; [| done]. unfold item_type in Hit. destruct (Z.ltb_spec lf 0) as [Hlf |]; [| done].
  apply res_bind_Ok in Hit as (c0 & Hc0 & [= Hty0]). apply deref_bucket_Ok in Hc0 as [_ Hc0].
  pose proof (mo_id _ _ Hm _ _ Hc0) as Hid0. rewrite Z2Nat.id in Hid0 by lia.
  destruct (mo_type _ _ Hm c0); [| done]. split; [by replace (-1 - b_id c0) with (-1 - lf) by lia | lia].
Qed.

Definition one_firstn_post (root : crush_bucket) (type numrep : Z) (res : list Z * list Z * Z) : Prop :=
  let '(o', c', osize) := res in
  0 <= osize <= Z.min numrep result_max /\ zlen c' = result_max /\
  filled m weight x root type o' 0 osize /\ filled_leaf m weight x true o' (Some c') 0 osize.

Lemma choose_one_firstn s root numrep type b c :
  params_ok s -> 0 < numrep < 2 ^ 31 -> is_bucket m root -> zlen b = result_max -> zlen c = result_max ->
  runs m (fun cw => choose_one fuel m weight x choose_args result_max s true true numrep type
                      (-1 - b_id root) b c 0 cw) (one_firstn_post root type numrep).
Proof.
  intros Hp Hn Hroot Hb Hc. pose proof (eo_result _ _ _ _ _ _ He) as Hrm.
  unfold choose_one. eapply runs_pure; [apply deref_bucket_Ok; destruct Hroot; split; [lia | done] |]. cbv zeta.
  change (Z.to_nat 0) with 0%nat. rewrite !drop_0.
  eapply runs_bind.
  { apply call_firstn_runs; try done; try lia. destruct Hp as (? & ? & _). repeat case_match; lia. }
  intros [[pos o'] c'] (Hpos & _ & Hfc & Hfill & Hleaf). destruct c' as [c' |]; [| done].
  apply runs_ret. destruct Hfc as [Hlc _]. split; [lia |]. split; [| by split].
  change (zlen c' = result_max). unfold zlen in *. lia.
Qed.

Definition one_indep_post (root : crush_bucket) (type numrep : Z) (b c : list Z)
    (res : list Z * list Z * Z) : Prop :=
  let '(o', c', osize) := res in
  osize = Z.min numrep result_max /\ zlen o' = result_max /\ zlen c' = result_max /\
  indep_post m weight x root type true 0 osize b (Some c) o' (Some c').

Lemma choose_one_indep s root numrep type b c :
  0 < numrep < 2 ^ 31 -> is_bucket m root -> zlen b = result_max -> zlen c = result_max ->
  runs m (fun cw => choose_one fuel m weight x choose_args result_max s false true numrep type
                      (-1 - b_id root) b c 0 cw) (one_indep_post root type numrep b c).
Proof.
  intros Hn Hroot Hb Hc. pose proof (eo_result _ _ _ _ _ _ He) as Hrm.
  unfold choose_one. eapply runs_pure; [apply deref_bucket_Ok; destruct Hroot; split; [lia | done] |]. cbv zeta.
  assert (Hmin : (if numrep <? result_max - 0 then numrep else result_max - 0) = Z.min numrep result_max)
    by (destruct (Z.ltb_spec numrep (result_max - 0)); lia).
  rewrite Hmin. change (Z.to_nat 0) with 0%nat. rewrite !drop_0.
  eapply runs_bind; [apply call_indep_runs; try done; lia |].
  intros [o' c'] Hpost. pose proof (ip_out _ _ _ _ _ _ _ _ _ _ _ _ Hpost) as [Hlo _].
  pose proof (ip_out2 _ _ _ _ _ _ _ _ _ _ _ _ Hpost) as Hfc. destruct c' as [c' |]; [| done].
  destruct Hfc as [Hlc _]. apply runs_ret. split; [lia |].
  split; [change (zlen o' = result_max); unfold zlen in *; lia |].
  split; [change (zlen c' = result_max); unfold zlen in *; lia | done].
Qed.
End rule_spec.

(** ** Theorems *)

Lemma do_rule_steps m weight x choose_args fuel result_max ruleno r a b c cw s :
  is_u32 ruleno -> rules m !! Z.to_nat ruleno = Some (Some r) ->
  rule_steps fuel m weight x choose_args result_max (init_state m a b c cw) (steps r) = Ok s ->
  crush_do_rule fuel m weight x choose_args result_max ruleno cw a b c = Ok (rs_result s, rs_cw s).
Proof.
  intros Hu Hr E.
  assert (Hrd : rd (rules m) ruleno = Ok (Some r)) by (apply rd_Ok; unfold is_u32 in Hu; split; [lia | done]).
  unfold crush_do_rule. rewrite u32_id by done. apply lookup_lt_Some in Hr. unfold max_rules, zlen.
  unfold is_u32 in Hu. destruct (Z.leb_spec (Z.of_nat (length (rules m))) ruleno); [lia |].
  rewrite Hrd. cbn [mbind res_bind]. unfold init_state in E. rewrite E. done.
Qed.

Definition ex_limits : limits := mk_limits 3 1 51 0.

Lemma ex_env result_max : 0 < result_max < 2 ^ 31 -> env_ok ex_map ex_rank None ex_limits 312 result_max.
Proof.
  intros Hr. split; try done; [apply ex_map_ok | by apply ex_map_buckets ..].
Qed.

Lemma ex_steps_ok : Forall (step_ok ex_limits) (steps ex_replicated).
Proof. repeat constructor; cbn; try done; unfold is_s32; lia. Qed.

Lemma ex_root_bucket : is_bucket ex_map ex_root.
Proof. done. Qed.

(** C22. On a well-formed map a rule never faults and always terminates: for
    every input there is one result, and every call with that input returns it,
    whatever valid state earlier calls left in the workspace; the workspace is
    valid again afterwards.  The result has at most [result_max] entries and each
    of them is [CRUSH_ITEM_NONE], a device id, or the id of a bucket of the map. *)
Theorem do_rule_total m rank weight x choose_args L fuel result_max ruleno r a b c :
  env_ok m rank choose_args L fuel result_max ->
  is_u32 ruleno -> rules m !! Z.to_nat ruleno = Some (Some r) -> Forall (step_ok L) (steps r) ->
  zlen a = result_max -> zlen b = result_max -> zlen c = result_max ->
  exists result, zlen result <= result_max /\ Forall (entry m) result /\
    forall cw, work_inv m cw ->
      exists cw', crush_do_rule fuel m weight x choose_args result_max ruleno cw a b c = Ok (result, cw')
        /\ work_inv m cw'.
Proof.
  intros He Hu Hr Hst Ha Hb Hc.
  destruct (rule_steps_srun m rank weight x choose_args L fuel result_max He
              (init_state m a b c (mk_work [] None)) (steps r)) as (s' & Hs' & Hrun);
    [by eapply init_state_ok | done |].
  exists (rs_result s'). destruct (ro_result _ _ _ _ Hs'). split; [done |]. split; [done |].
  intros cw Hcw. destruct (Hrun cw Hcw) as (cw' & E & Hcw'). exists cw'. split; [| done].
  by apply (do_rule_steps _ _ _ _ _ _ _ r _ _ _ _ (with_cw s' cw')).
Qed.

Lemma do_rule_total_witness :
  exists result, zlen result <= 3 /\ Forall (entry ex_map) result /\
    forall cw, work_inv ex_map cw ->
      exists cw', crush_do_rule 312 ex_map (replicate 6 0x10000) 7 None 3 0 cw
                    [0; 0; 0] [0; 0; 0] [0; 0; 0] = Ok (result, cw') /\ work_inv ex_map cw'.
Proof.
  apply (do_rule_total ex_map ex_rank (replicate 6 0x10000) 7 None ex_limits 312 3 0 ex_replicated);
    [by apply ex_env | done | done | apply ex_steps_ok | done ..].
Defined.

(** The item and the leaf at one position. *)
Lemma filled_pair m weight x root type o c osize i :
  type <> 0 -> filled m weight x root type o 0 osize -> filled_leaf m weight x true o (Some c) 0 osize ->
  0 <= i < osize ->
  exists d v cb, o !! Z.to_nat i = Some d /\ c !! Z.to_nat i = Some v /\
    (d ∉ take (Z.to_nat i) o) /\ (v ∉ take (Z.to_nat i) c) /\ good m weight x root type d /\
    deref_bucket m (-1 - d) = Ok cb /\ good m weight x cb 0 v.
Proof.
  intros Hty Hfill Hleaf Hi. destruct (Hleaf eq_refl) as (c' & [= <-] & Hlf).
  destruct (Hfill i Hi) as (d & Hd & Hg & Hni). destruct (Hlf i Hi) as (d' & v & Hd' & Hv & Hfor).
  assert (d' = d) as -> by congruence. unfold leaf_for in Hfor.
  destruct (Z.ltb_spec d 0); [| pose proof (good_negative m weight x root type d Hty Hg); lia].
  destruct Hfor as (cb & Hcb & Hgv & Hnv). exists d, v, cb. auto 10.
Qed.

(** Entries that differ from all before them are pairwise different. *)
Lemma NoDup_fresh (l : list Z) n :
  (forall i, 0 <= i < Z.of_nat n -> exists v, l !! Z.to_nat i = Some v /\ (v ∉ take (Z.to_nat i) l)) ->
  NoDup (take n l).
Proof.
  induction n as [| n IH]; intros H; [rewrite take_0; constructor |].
  destruct (H (Z.of_nat n)) as (v & Hv & Hni); [lia |]. rewrite Nat2Z.id in Hv, Hni.
  rewrite (take_S_r _ _ _ Hv). apply NoDup_app. split; [apply IH; intros; apply H; lia |].
  split; [| apply NoDup_singleton]. intros y Hy ->%list_elem_of_singleton. done.
Qed.

Lemma replicated_rule_result m rank weight x choose_args L fuel result_max ruleno r a b c root n type :
  env_ok m rank choose_args L fuel result_max ->
  is_u32 ruleno -> rules m !! Z.to_nat ruleno = Some (Some r) ->
  steps r = simple_steps (b_id root) CRUSH_RULE_CHOOSELEAF_FIRSTN n type ->
  is_s32 n -> 0 < rule_numrep result_max n -> type <> 0 -> is_bucket m root ->
  zlen a = result_max -> zlen b = result_max -> zlen c = result_max ->
  exists result domains,
    zlen result <= Z.min (rule_numrep result_max n) result_max /\ NoDup result /\ NoDup domains /\
    Forall2 (placed m weight x root type) domains result /\
    forall cw, work_inv m cw ->
      exists cw', crush_do_rule fuel m weight x choose_args result_max ruleno cw a b c = Ok (result, cw')
        /\ work_inv m cw'.
Proof.
  intros He Hu Hr Hst Hn Hnr Hty Hroot Ha Hb Hc. pose proof (eo_result _ _ _ _ _ _ He) as Hrm.
  assert (rule_numrep result_max n < 2 ^ 31) as Hnr2
    by (unfold rule_numrep, is_s32 in *; destruct (Z.leb_spec n 0); lia).
  assert (Hp : params_ok L (taken_state m (b_id root) a b c (mk_work [] None)))
    by (apply (ro_params _ _ _ _ (init_state_ok m rank choose_args L fuel result_max He a b c (mk_work [] None) Ha Hb Hc))).
  destruct (simple_rule_runs m rank weight x choose_args L fuel result_max He true root n type a b c
    (one_firstn_post m weight x result_max root type (rule_numrep result_max n)))
    as (o' & c' & osize & (Hos & Hlc & Hfill & Hleaf) & Hrun); try done.
  { intros [[o' c'] osize] (Hos & Hlc & _). lia. }
  { by eapply choose_one_firstn. }
  exists (take (Z.to_nat osize) c'), (take (Z.to_nat osize) o').
  pose proof (fun i Hi => filled_pair m weight x root type o' c' osize i Hty Hfill Hleaf Hi) as Hall.
  split; [unfold zlen; rewrite length_take; lia |].
  split; [apply NoDup_fresh; intros i Hi; destruct (Hall i) as (d & v & cb & ? & ? & ? & ? & _); [lia | eauto] |].
  split; [apply NoDup_fresh; intros i Hi; destruct (Hall i) as (d & v & cb & ? & ? & ? & ? & _); [lia | eauto] |].
  split.
  - apply Forall2_same_length_lookup_2.
    + rewrite !length_take. destruct (decide (osize = 0)) as [-> |]; [lia |].
      destruct (Hall (osize - 1)) as (d & v & cb & Hd & Hv & _); [lia |].
      apply lookup_lt_Some in Hd, Hv. lia.
    + intros i d v Hd Hv. rewrite lookup_take_Some in Hd, Hv. destruct Hd as [Hd Hi], Hv as [Hv _].
      destruct (Hall (Z.of_nat i)) as (d' & v' & cb & Hd' & Hv' & _ & _ & Hg & Hcb & Hgv); [lia |].
      rewrite Nat2Z.id in Hd', Hv'. simplify_eq. by eapply good_placed.
  - intros cw Hcw. destruct (Hrun cw Hcw) as (s' & E & Hres & Hcw'). exists (rs_cw s'). split; [| done].
    rewrite <- Hres. by apply do_rule_steps with r; rewrite ?Hst.
Qed.

(** C20. The replicated rule (take a bucket, choose leaves first-n, emit), for a
    failure domain type that is not the device type: every input has one result,
    reached from every valid workspace.  It lists at most the requested number of
    devices; the devices are pairwise different, none is marked out, and they sit
    under pairwise different failure domains of the requested type, each below
    the bucket that the rule takes. *)
Theorem replicated_rule_placement m rank weight x choose_args L fuel result_max ruleno r a b c root n type :
  env_ok m rank choose_args L fuel result_max ->
  is_u32 ruleno -> rules m !! Z.to_nat ruleno = Some (Some r) ->
  steps r = simple_steps (b_id root) CRUSH_RULE_CHOOSELEAF_FIRSTN n type ->
  is_s32 n -> 0 < rule_numrep result_max n -> type <> 0 -> is_bucket m root ->
  zlen a = result_max -> zlen b = result_max -> zlen c = result_max ->
  exists result domains,
    zlen result <= Z.min (rule_numrep result_max n) result_max /\ NoDup result /\ NoDup domains /\
    Forall2 (placed m weight x root type) domains result /\
    forall cw, work_inv m cw ->
      exists cw', crush_do_rule fuel m weight x choose_args result_max ruleno cw a b c = Ok (result, cw')
        /\ work_inv m cw'.
Proof. apply replicated_rule_result. Qed.

Lemma replicated_rule_placement_witness :
  exists result domains,
    zlen result <= 3 /\ NoDup result /\ NoDup domains /\
    Forall2 (placed ex_map [0x10000; 0; 0x10000; 0x10000; 0x10000; 0x10000] 7 ex_root 1) domains result /\
    forall cw, work_inv ex_map cw ->
      exists cw', crush_do_rule 312 ex_map [0x10000; 0; 0x10000; 0x10000; 0x10000; 0x10000] 7 None 3 0 cw
                    [0; 0; 0] [0; 0; 0] [0; 0; 0] = Ok (result, cw') /\ work_inv ex_map cw'.
Proof.
  apply (replicated_rule_placement ex_map ex_rank [0x10000; 0; 0x10000; 0x10000; 0x10000; 0x10000] 7 None
           ex_limits 312 3 0 ex_replicated [0; 0; 0] [0; 0; 0] [0; 0; 0] ex_root 0 1);
    [by apply ex_env | done | done | done | done | done | done | apply ex_root_bucket | done ..].
Defined.

Lemma erasure_rule_result m rank weight x choose_args L fuel result_max ruleno r a b c root n type :
  env_ok m rank choose_args L fuel result_max ->
  is_u32 ruleno -> rules m !! Z.to_nat ruleno = Some (Some r) ->
  steps r = simple_steps (b_id root) CRUSH_RULE_CHOOSELEAF_INDEP n type ->
  is_s32 n -> 0 < rule_numrep result_max n -> type <> 0 -> is_bucket m root ->
  zlen a = result_max -> zlen b = result_max -> zlen c = result_max ->
  exists result domains,
    zlen result = Z.min (rule_numrep result_max n) result_max /\
    Forall2 (fun d v => (d = CRUSH_ITEM_NONE /\ v = CRUSH_ITEM_NONE) \/ placed m weight x root type d v)
      domains result /\
    (forall i j d, domains !! i = Some d -> domains !! j = Some d -> i <> j -> d = CRUSH_ITEM_NONE) /\
    forall cw, work_inv m cw ->
      exists cw', crush_do_rule fuel m weight x choose_args result_max ruleno cw a b c = Ok (result, cw')
        /\ work_inv m cw'.
Proof.
  intros He Hu Hr Hst Hn Hnr Hty Hroot Ha Hb Hc. pose proof (eo_result _ _ _ _ _ _ He) as Hrm.
  assert (rule_numrep result_max n < 2 ^ 31) as Hnr2
    by (unfold rule_numrep, is_s32 in *; destruct (Z.leb_spec n 0); lia).
  destruct (simple_rule_runs m rank weight x choose_args L fuel result_max He false root n type a b c
    (one_indep_post m weight x result_max root type (rule_numrep result_max n) b c))
    as (o' & c' & osize & (Hos & Hlo & Hlc & Hpost) & Hrun); try done.
  { intros [[o' c'] osize] (-> & _ & Hlc & _). lia. }
  { by eapply choose_one_indep. }
  exists (take (Z.to_nat osize) c'), (take (Z.to_nat osize) o').
  split; [unfold zlen in *; rewrite length_take; lia |]. split; [| split].
  - apply Forall2_same_length_lookup_2; [rewrite !length_take; unfold zlen in *; lia |].
    intros i d v Hd Hv. rewrite lookup_take_Some in Hd, Hv. destruct Hd as [Hd Hi], Hv as [Hv _].
    destruct (ip_slot _ _ _ _ _ _ _ _ _ _ _ _ Hpost (Z.of_nat i)) as (d' & Hd' & Hcase & Hl); [lia |].
    destruct (Hl eq_refl) as (? & v' & [= <-] & Hv' & H1 & H2).
    rewrite Nat2Z.id in Hd', Hv'. simplify_eq.
    destruct (decide (d = CRUSH_ITEM_NONE)) as [-> | Hne].
    + left. split; [done |]. by destruct (H1 eq_refl) as [| (? & _)].
    + right. destruct Hcase as [| Hg]; [done |]. specialize (H2 Hne). unfold leaf_in in H2.
      pose proof (good_negative m weight x root type d Hty Hg).
      destruct (Z.ltb_spec d 0); [| lia]. destruct H2 as (cb & Hcb & Hgv). by eapply good_placed.
  - intros i j d Hi Hj Hne. rewrite lookup_take_Some in Hi, Hj. destruct Hi as [Hi ?], Hj as [Hj ?].
    apply (ip_distinct _ _ _ _ _ _ _ _ _ _ _ _ Hpost (Z.of_nat i) (Z.of_nat j));
      [lia | lia | lia | by rewrite Nat2Z.id ..].
  - intros cw Hcw. destruct (Hrun cw Hcw) as (s' & E & Hres & Hcw'). exists (rs_cw s'). split; [| done].
    rewrite <- Hres. by apply do_rule_steps with r; rewrite ?Hst.
Qed.

(** C21. The erasure-coded rule (take a bucket, choose leaves independently,
    emit) on a well-formed map, for a failure domain type that is not the device
    type (for which a device that is out can be returned, see below): every input
    has one result, reached from every valid workspace.  The result has exactly the
    requested number of positions (as far as the result vector has room); each
    position is [CRUSH_ITEM_NONE] or a device that is not marked out, under a
    failure domain of the requested type below the taken bucket, and no two
    positions use the same failure domain. *)
Theorem erasure_rule_placement m rank weight x choose_args L fuel result_max ruleno r a b c root n type :
  env_ok m rank choose_args L fuel result_max ->
  is_u32 ruleno -> rules m !! Z.to_nat ruleno = Some (Some r) ->
  steps r = simple_steps (b_id root) CRUSH_RULE_CHOOSELEAF_INDEP n type ->
  is_s32 n -> 0 < rule_numrep result_max n -> type <> 0 -> is_bucket m root ->
  zlen a = result_max -> zlen b = result_max -> zlen c = result_max ->
  exists result domains,
    zlen result = Z.min (rule_numrep result_max n) result_max /\
    Forall2 (fun d v => (d = CRUSH_ITEM_NONE /\ v = CRUSH_ITEM_NONE) \/ placed m weight x root type d v)
      domains result /\
    (forall i j d, domains !! i = Some d -> domains !! j = Some d -> i <> j -> d = CRUSH_ITEM_NONE) /\
    forall cw, work_inv m cw ->
      exists cw', crush_do_rule fuel m weight x choose_args result_max ruleno cw a b c = Ok (result, cw')
        /\ work_inv m cw'.
Proof. apply erasure_rule_result. Qed.

Lemma erasure_rule_placement_witness :
  exists result domains,
    zlen result = 3 /\
    Forall2 (fun d v => (d = CRUSH_ITEM_NONE /\ v = CRUSH_ITEM_NONE) \/
                        placed ex_map [0x10000; 0; 0x10000; 0x10000; 0x10000; 0x10000] 7 ex_root 1 d v)
      domains result /\
    (forall i j d, domains !! i = Some d -> domains !! j = Some d -> i <> j -> d = CRUSH_ITEM_NONE) /\
    forall cw, work_inv ex_map cw ->
      exists cw', crush_do_rule 312 ex_map [0x10000; 0; 0x10000; 0x10000; 0x10000; 0x10000] 7 None 3 1 cw
                    [0; 0; 0] [0; 0; 0] [0; 0; 0] = Ok (result, cw') /\ work_inv ex_map cw'.
Proof.
  apply (erasure_rule_placement ex_map ex_rank [0x10000; 0; 0x10000; 0x10000; 0x10000; 0x10000] 7 None
           ex_limits 312 3 1 ex_erasure [0; 0; 0] [0; 0; 0] [0; 0; 0] ex_root 0 1);
    [by apply ex_env | done | done | done | done | done | done | apply ex_root_bucket | done ..].
Defined.

(** With the device type as failure domain the erasure-coded rule can return
    a device that is marked out: the leaf is recorded before the test, and stays
    when the tries are used up.  Here device 5 has weight 0 and is returned. *)
Theorem erasure_rule_returns_out_device :
  exists result cw',
    crush_do_rule 312 ex_map [0x10000; 0x10000; 0x10000; 0x10000; 0x10000; 0] 7 None 6 2 ex_work
      [0; 0; 0; 0; 0; 0] [0; 0; 0; 0; 0; 0] [0; 0; 0; 0; 0; 0] = Ok (result, cw') /\
    5 ∈ result /\ is_out [0x10000; 0x10000; 0x10000; 0x10000; 0x10000; 0] 5 7 = Ok true.
Proof.
  eexists _, _. split; [vm_compute; reflexivity |]. split; [| reflexivity].
  apply list_elem_of_In. cbn. tauto.
Qed.
