(* ===== verification/CrushBuilder.v ===== *)
(** * Building CRUSH maps: src/src/crush/builder.c

    The functions take a bucket or a map and return the C return value with the
    new one.  Allocation succeeds, with two exceptions the code runs into: a
    negative size, and [realloc] to size 0, which frees the block and returns
    NULL (the pointer that the bucket keeps is then dangling: an empty list).
    Memory that [realloc] adds is not initialised; its contents are the argument
    [junk].  Reads one past the end of an array, where the code has them, return
    [junk] too. *)

From Stdlib Require Import SpecFloat.
From S2P Require Import Prelude CrushTypes.

Definition EPERM : Z := 1.
Definition ENOENT : Z := 2.
Definition ENOMEM : Z := 12.
Definition EEXIST : Z := 17.
Definition EINVAL : Z := 22.
Definition ENOSPC : Z := 28.
Definition ERANGE : Z := 34.

(** ** Checked arithmetic *)

Definition crush_addition_is_unsafe (a b : Z) : bool := u32 (u32 (-1) - u32 b) <? u32 a.

Definition crush_multiplication_is_unsafe (a b : Z) : bool :=
  if u32 a =? 0 then false
  else if u32 b =? 0 then true
  else u32 (-1) / u32 b <? u32 a.

(** ** Memory *)

Section memory.
Context (junk : Z -> Z).

(** [realloc] to [n] elements; [None] is NULL. *)
Definition realloc (l : list Z) (n : Z) : option (list Z) :=
  if n <=? 0 then None
  else Some (take (Z.to_nat n) l ++ (junk <$> seqZ (zlen l) (n - zlen l))).

(** A read that may be one past the end. *)
Definition rd_past (l : list Z) (i : Z) : res Z :=
  if i =? zlen l then Ok (junk i) else rd l i.
End memory.

(** ** Setters *)

Definition set_id (b : crush_bucket) (id : Z) : crush_bucket :=
  mk_bucket id (b_type b) (b_hash b) (b_weight b) (b_size b) (b_items b) (b_body b).

Definition set_items (b : crush_bucket) (items : list Z) : crush_bucket :=
  mk_bucket (b_id b) (b_type b) (b_hash b) (b_weight b) (b_size b) items (b_body b).

Definition set_body (b : crush_bucket) (body : bucket_body) : crush_bucket :=
  mk_bucket (b_id b) (b_type b) (b_hash b) (b_weight b) (b_size b) (b_items b) body.

Definition set_weight (b : crush_bucket) (weight : Z) : crush_bucket :=
  mk_bucket (b_id b) (b_type b) (b_hash b) weight (b_size b) (b_items b) (b_body b).

Definition set_size (b : crush_bucket) (size : Z) : crush_bucket :=
  mk_bucket (b_id b) (b_type b) (b_hash b) (b_weight b) size (b_items b) (b_body b).

Definition set_buckets (m : crush_map) (bs : list (option crush_bucket)) : crush_map :=
  mk_map bs (rules m) (max_devices m) (choose_local_tries m) (choose_local_fallback_tries m)
    (choose_total_tries m) (chooseleaf_descend_once m) (chooseleaf_vary_r m) (chooseleaf_stable m)
    (working_size m) (straw_calc_version m) (allowed_bucket_algs m).

Definition set_rules (m : crush_map) (rs : list (option crush_rule)) : crush_map :=
  mk_map (buckets m) rs (max_devices m) (choose_local_tries m) (choose_local_fallback_tries m)
    (choose_total_tries m) (chooseleaf_descend_once m) (chooseleaf_vary_r m) (chooseleaf_stable m)
    (working_size m) (straw_calc_version m) (allowed_bucket_algs m).

(** ** Map configuration, creation and finalisation *)

Definition CRUSH_LEGACY_ALLOWED_BUCKET_ALGS : Z :=
  Z.lor (Z.shiftl 1 CRUSH_BUCKET_UNIFORM)
    (Z.lor (Z.shiftl 1 CRUSH_BUCKET_LIST) (Z.shiftl 1 CRUSH_BUCKET_STRAW)).

Definition set_legacy_crush_map (m : crush_map) : crush_map :=
  mk_map (buckets m) (rules m) (max_devices m) 2 5 19 0 0 0
    (working_size m) 0 CRUSH_LEGACY_ALLOWED_BUCKET_ALGS.

Definition set_optimal_crush_map (m : crush_map) : crush_map :=
  mk_map (buckets m) (rules m) (max_devices m) 0 0 50 1 1 1
    (working_size m) (straw_calc_version m)
    (Z.lor (Z.shiftl 1 CRUSH_BUCKET_UNIFORM)
      (Z.lor (Z.shiftl 1 CRUSH_BUCKET_LIST)
        (Z.lor (Z.shiftl 1 CRUSH_BUCKET_STRAW) (Z.shiftl 1 CRUSH_BUCKET_STRAW2)))).

Definition crush_create : crush_map :=
  set_optimal_crush_map (mk_map [] [] 0 0 0 0 0 0 0 0 0 0).

(** The inner loop of [crush_finalize] over the items of a bucket. *)
Fixpoint finalize_items (n : nat) (i : Z) (items : list Z) (maxdev : Z) : res Z :=
  match n with
  | O => mret maxdev
  | S n =>
    it ← rd items i;
    finalize_items n (i + 1) items (if maxdev <=? it then s32 (it + 1) else maxdev)
  end.

(** The loop over the buckets: [max_devices] and [working_size]. *)
Fixpoint finalize_loop (bs : list (option crush_bucket)) (maxdev wsize : Z) : res (Z * Z) :=
  match bs with
  | [] => mret (maxdev, wsize)
  | None :: bs => finalize_loop bs maxdev wsize
  | Some b :: bs =>
    maxdev ← finalize_items (Z.to_nat (b_size b)) 0 (b_items b) maxdev;
    finalize_loop bs maxdev (wsize + 16 + b_size b * 4)
  end.

Definition crush_finalize (m : crush_map) : res crush_map :=
  '(maxdev, wsize) ← finalize_loop (buckets m) 0 (8 + max_buckets m * 8);
  mret (mk_map (buckets m) (rules m) maxdev (choose_local_tries m) (choose_local_fallback_tries m)
    (choose_total_tries m) (chooseleaf_descend_once m) (chooseleaf_vary_r m) (chooseleaf_stable m)
    wsize (straw_calc_version m) (allowed_bucket_algs m)).

(** ** Rules *)

(** The first index that holds NULL, or the length. *)
Fixpoint first_null {A} (l : list (option A)) : Z :=
  match l with
  | [] => 0
  | None :: _ => 0
  | Some _ :: l => 1 + first_null l
  end.

Definition crush_add_rule (m : crush_map) (rule : crush_rule) (ruleno : Z) : res (Z * crush_map) :=
  r ← (if ruleno <? 0 then
         let r := first_null (rules m) in
         if r <? CRUSH_MAX_RULES then Ok r else Fault
       else Ok ruleno);
  if max_rules m <=? r then
    if CRUSH_MAX_RULES <? max_rules m + 1 then mret (- ENOSPC, m)
    else
      rs ← wr (rules m ++ replicate (Z.to_nat (r + 1 - max_rules m)) None) r (Some rule);
      mret (r, set_rules m rs)
  else
    rs ← wr (rules m) r (Some rule);
    mret (r, set_rules m rs).

(** The steps of a new rule are not initialised. *)
Definition crush_make_rule (uninit : list crush_rule_step) (len type : Z) : crush_rule :=
  mk_rule (u8 type) 1 100 (take (Z.to_nat len) uninit).

Definition crush_rule_set_step (rule : crush_rule) (n o a1 a2 : Z) : res crush_rule :=
  if u32 n <? zlen (steps rule) then
    s ← wr (steps rule) n (mk_step o a1 a2);
    mret (mk_rule (rule_type rule) (deprecated_min_size rule) (deprecated_max_size rule) s)
  else Fault.

(** ** Buckets of the map *)

Definition crush_get_next_bucket_id (m : crush_map) : Z := -1 - first_null (buckets m).

(** [while (pos >= map->max_buckets)]: the array grows by doubling.  Doubling
    past the range of [int] is a fault. *)
Fixpoint grow_buckets (fuel : nat) (pos : Z) (bs : list (option crush_bucket))
    : res (list (option crush_bucket)) :=
  match fuel with
  | O => NoFuel
  | S fuel =>
    if zlen bs <=? pos then
      let new := if negb (zlen bs =? 0) then zlen bs * 2 else 8 in
      if 2 ^ 31 <=? new then Fault
      else grow_buckets fuel pos (bs ++ replicate (Z.to_nat (new - zlen bs)) None)
    else mret bs
  end.

(** Returns the return value, the map and, on success, [*idout]. *)
Definition crush_add_bucket (m : crush_map) (id : Z) (bucket : crush_bucket)
    : res (Z * crush_map * option Z) :=
  let id := if id =? 0 then crush_get_next_bucket_id m else id in
  let pos := -1 - id in
  bs ← grow_buckets 32 pos (buckets m);
  old ← rd bs pos;
  match old with
  | Some _ => mret (- EEXIST, set_buckets m bs, None)
  | None =>
    bs ← wr bs pos (Some (set_id bucket id));
    mret (0, set_buckets m bs, Some id)
  end.

Definition crush_remove_bucket (m : crush_map) (bucket : crush_bucket) : res (Z * crush_map) :=
  let pos := -1 - b_id bucket in
  if pos <? max_buckets m then
    bs ← wr (buckets m) pos None;
    mret (0, set_buckets m bs)
  else Fault.

(** ** Making buckets

    [None] is the NULL that the error paths return. *)

Definition new_bucket (type hash size : Z) (body : bucket_body) : crush_bucket :=
  mk_bucket 0 (u16 type) (u8 hash) 0 (u32 size) [] body.

(** [for (i = 0; i < size; i++) dst[i] = src[i]] *)
Fixpoint copy_loop (n : nat) (i : Z) (src dst : list Z) : res (list Z) :=
  match n with
  | O => mret dst
  | S n => v ← rd src i; copy_loop n (i + 1) src (dst ++ [v])
  end.

Definition crush_make_uniform_bucket (hash type size : Z) (items : list Z) (item_weight : Z)
    : res (option crush_bucket) :=
  let b := new_bucket type hash size (bucket_uniform 0) in
  if crush_multiplication_is_unsafe size item_weight then mret None
  else
    let b := set_body (set_weight b (u32 (size * item_weight))) (bucket_uniform (u32 item_weight)) in
    if size =? 0 then mret (Some b)
    else if size <? 0 then mret None
    else
      its ← copy_loop (Z.to_nat size) 0 items [];
      mret (Some (set_items b its)).

(** Items, item weights and sums so far, and the running sum [w]. *)
Fixpoint make_list_loop (n : nat) (i : Z) (items weights its iw sw : list Z) (w : Z)
    : res (option (list Z * list Z * list Z * Z)) :=
  match n with
  | O => mret (Some (its, iw, sw, w))
  | S n =>
    it ← rd items i;
    wt ← rd weights i;
    if crush_addition_is_unsafe w wt then mret None
    else
      let w := s32 (w + wt) in
      make_list_loop n (i + 1) items weights (its ++ [it]) (iw ++ [u32 wt]) (sw ++ [u32 w]) w
  end.

Definition crush_make_list_bucket (hash type size : Z) (items weights : list Z)
    : res (option crush_bucket) :=
  let b := new_bucket type hash size (bucket_list [] []) in
  if size =? 0 then mret (Some b)
  else if size <? 0 then mret None
  else
    r ← make_list_loop (Z.to_nat size) 0 items weights [] [] [] 0;
    mret (match r with
          | None => None
          | Some (its, iw, sw, w) => Some (set_weight (set_body (set_items b its) (bucket_list iw sw)) (u32 w))
          end).

(** *** tree *)

Fixpoint b_height_loop (fuel : nat) (n h : Z) : res Z :=
  match fuel with
  | O => NoFuel
  | S fuel => if Z.land n 1 =? 0 then b_height_loop fuel (Z.shiftr n 1) (h + 1) else Ok h
  end.

Definition b_height (n : Z) : res Z := b_height_loop 32 n 0.

Definition on_right (n h : Z) : bool := negb (Z.land n (Z.shiftl 1 (h + 1)) =? 0).

Definition parent (n : Z) : res Z :=
  h ← b_height n;
  mret (if on_right n h then n - Z.shiftl 1 h else n + Z.shiftl 1 h).

(** [while (t) { t = t >> 1; depth++; }] *)
Fixpoint calc_depth_loop (fuel : nat) (t depth : Z) : res Z :=
  match fuel with
  | O => NoFuel
  | S fuel => if t =? 0 then Ok depth else calc_depth_loop fuel (Z.shiftr t 1) (depth + 1)
  end.

Definition calc_depth (size : Z) : res Z :=
  if size =? 0 then Ok 0 else calc_depth_loop 33 (size - 1) 1.

(** [for (j = 1; j < depth; j++)]: add [w] on the path to the root; [None] when
    an addition is unsafe, with the weights written so far. *)
Fixpoint tree_add_path (n : nat) (node w : Z) (nw : list Z) : res (bool * list Z) :=
  match n with
  | O => mret (true, nw)
  | S n =>
    node ← parent node;
    v ← rd nw node;
    if crush_addition_is_unsafe v w then mret (false, nw)
    else
      nw ← wr nw node (u32 (v + w));
      tree_add_path n node w nw
  end.

Fixpoint make_tree_loop (n : nat) (i depth : Z) (items weights its nw : list Z) (weight : Z)
    : res (option (list Z * list Z * Z)) :=
  match n with
  | O => mret (Some (its, nw, weight))
  | S n =>
    it ← rd items i;
    let node := crush_calc_tree_node i in
    wt ← rd weights i;
    nw ← wr nw node (u32 wt);
    if crush_addition_is_unsafe weight wt then mret None
    else
      '(safe, nw) ← tree_add_path (Z.to_nat (depth - 1)) node wt nw;
      if safe : bool then
        make_tree_loop n (i + 1) depth items weights (its ++ [it]) nw (u32 (weight + wt))
      else mret None
  end.

Definition crush_make_tree_bucket (hash type size : Z) (items weights : list Z)
    : res (option crush_bucket) :=
  let b := new_bucket type hash size (bucket_tree 0 []) in
  if size =? 0 then mret (Some b)
  else if size <? 0 then mret None
  else
    depth ← calc_depth size;
    let num_nodes := u8 (Z.shiftl 1 depth) in
    r ← make_tree_loop (Z.to_nat size) 0 depth items weights [] (replicate (Z.to_nat num_nodes) 0) 0;
    match r with
    | None => mret None
    | Some (its, nw, weight) =>
      root ← rd nw (num_nodes / 2);
      if negb (root =? weight) then Fault
      else mret (Some (set_weight (set_body (set_items b its) (bucket_tree num_nodes nw)) weight))
    end.

(** *** straw

    Doubles are the IEEE binary64 numbers of the Standard Library's [SpecFloat].
    [pow] is the C library's function. *)

Definition f64 : Type := spec_float.
Definition f64_of_Z (z : Z) : f64 := binary_normalize 53 1024 z 0 false.
Definition f64_add (a b : f64) : f64 := SFadd 53 1024 a b.
Definition f64_sub (a b : f64) : f64 := SFsub 53 1024 a b.
Definition f64_mul (a b : f64) : f64 := SFmul 53 1024 a b.
Definition f64_div (a b : f64) : f64 := SFdiv 53 1024 a b.

(** Conversion to [__u32]: the fraction is dropped; a value out of range is
    undefined behaviour. *)
Definition f64_to_u32 (a : f64) : res Z :=
  match a with
  | S754_zero _ => Ok 0
  | S754_finite s m e =>
    let v := if 0 <=? e then Z.shiftl (Zpos m) e else Z.shiftr (Zpos m) (- e) in
    if s then if v =? 0 then Ok 0 else Fault
    else if v <? 2 ^ 32 then Ok v else Fault
  | _ => Fault
  end.

(** Insert index [i] before the first index with a larger weight. *)
Fixpoint straw_insert (weights : list Z) (i : Z) (reverse : list Z) : res (list Z) :=
  match reverse with
  | [] => mret [i]
  | r :: rest =>
    wi ← rd weights i;
    wr_ ← rd weights r;
    if wi <? wr_ then mret (i :: r :: rest)
    else rest ← straw_insert weights i rest; mret (r :: rest)
  end.

(** [for (i = 1; i < size; i++)] of the insertion sort *)
Fixpoint straw_sort (n : nat) (i : Z) (weights reverse : list Z) : res (list Z) :=
  match n with
  | O => mret reverse
  | S n => reverse ← straw_insert weights i reverse; straw_sort n (i + 1) weights reverse
  end.

(** [weights[reverse[i]]] *)
Definition straw_w (weights reverse : list Z) (i : Z) : res Z := k ← rd reverse i; rd weights k.

(** [for (j = i; j < size; j++) if (same weight as i) numleft--; else break;] *)
Fixpoint straw_same (n : nat) (j wi : Z) (weights reverse : list Z) (numleft : Z) : res Z :=
  match n with
  | O => mret numleft
  | S n =>
    wj ← straw_w weights reverse j;
    if wj =? wi then straw_same n (j + 1) wi weights reverse (numleft - 1) else mret numleft
  end.

Section straw.
Context (pow : f64 -> f64 -> f64).

(** The new [straw], from [wbelow], the number left and the two weights. *)
Definition straw_scale (straw wbelow : f64) (numleft wi wprev : Z) : f64 :=
  let wnext := f64_of_Z (u32 (numleft * u32 (wi - wprev))) in
  let pbelow := f64_div wbelow (f64_add wbelow wnext) in
  f64_mul straw (pow (f64_div (f64_of_Z 1) pbelow) (f64_div (f64_of_Z 1) (f64_of_Z numleft))).

(** One pass of the loop for each index; [n] is [size - i]. *)
Fixpoint straw_loop (version size : Z) (n : nat) (i : Z) (weights reverse straws : list Z)
    (numleft : Z) (straw wbelow lastw : f64) : res (list Z) :=
  match n with
  | O => mret straws
  | S n =>
    k ← rd reverse i;
    wk ← rd weights k;
    if wk =? 0 then
      straws ← wr straws k 0;
      straw_loop version size n (i + 1) weights reverse straws
        (if version =? 0 then numleft else numleft - 1) straw wbelow lastw
    else
      len ← f64_to_u32 (f64_mul straw (f64_of_Z 0x10000));
      straws ← wr straws k len;
      let i := i + 1 in
      if i =? size then mret straws
      else
        wi ← straw_w weights reverse i;
        if version =? 0 then
          if wi =? wk then straw_loop version size n i weights reverse straws numleft straw wbelow lastw
          else
            let wbelow := f64_add wbelow (f64_mul (f64_sub (f64_of_Z wk) lastw) (f64_of_Z numleft)) in
            numleft ← straw_same (Z.to_nat (size - i)) i wi weights reverse numleft;
            straw_loop version size n i weights reverse straws numleft
              (straw_scale straw wbelow numleft wi wk) wbelow (f64_of_Z wk)
        else
          let wbelow := f64_add wbelow (f64_mul (f64_sub (f64_of_Z wk) lastw) (f64_of_Z numleft)) in
          let numleft := numleft - 1 in
          straw_loop version size n i weights reverse straws numleft
            (straw_scale straw wbelow numleft wi wk) wbelow (f64_of_Z wk)
  end.

(** The new straw lengths; the function returns 0. *)
Definition crush_calc_straw (version size : Z) (weights straws : list Z) : res (list Z) :=
  reverse ← straw_sort (Z.to_nat (size - 1)) 1 weights (if size =? 0 then [] else [0]);
  straw_loop version size (Z.to_nat size) 0 weights reverse straws size
    (f64_of_Z 1) (f64_of_Z 0) (f64_of_Z 0).

(** Items and weights are copied and the weights added, unchecked. *)
Fixpoint make_straw_loop (n : nat) (i : Z) (items weights its iw : list Z) (weight : Z)
    : res (list Z * list Z * Z) :=
  match n with
  | O => mret (its, iw, weight)
  | S n =>
    it ← rd items i;
    wt ← rd weights i;
    make_straw_loop n (i + 1) items weights (its ++ [it]) (iw ++ [u32 wt]) (u32 (weight + wt))
  end.

(** [straws] is the allocated, uninitialised array. *)
Definition crush_make_straw_bucket (m : crush_map) (junk : Z -> Z) (hash type size : Z)
    (items weights : list Z) : res (option crush_bucket) :=
  let b := new_bucket type hash size (bucket_straw [] []) in
  if size <? 0 then mret None
  else
    '(its, iw, weight) ← make_straw_loop (Z.to_nat size) 0 items weights [] [] 0;
    straws ← crush_calc_straw (straw_calc_version m) size iw (junk <$> seqZ 0 size);
    mret (Some (set_weight (set_body (set_items b its) (bucket_straw iw straws)) weight)).

Definition crush_make_straw2_bucket (hash type size : Z) (items weights : list Z)
    : res (option crush_bucket) :=
  let b := new_bucket type hash size (bucket_straw2 []) in
  if size =? 0 then mret (Some b)
  else if size <? 0 then mret None
  else
    '(its, iw, weight) ← make_straw_loop (Z.to_nat size) 0 items weights [] [] 0;
    mret (Some (set_weight (set_body (set_items b its) (bucket_straw2 iw)) weight)).

(** [weights] is [None] where the caller passes NULL. *)
Definition crush_make_bucket (m : crush_map) (junk : Z -> Z) (alg hash type size : Z)
    (items : list Z) (weights : option (list Z)) : res (option crush_bucket) :=
  let ws := default [] weights in
  if alg =? CRUSH_BUCKET_UNIFORM then
    item_weight ← (if negb (size =? 0) && bool_decide (is_Some weights) then rd ws 0 else mret 0);
    crush_make_uniform_bucket hash type size items item_weight
  else if alg =? CRUSH_BUCKET_LIST then crush_make_list_bucket hash type size items ws
  else if alg =? CRUSH_BUCKET_TREE then crush_make_tree_bucket hash type size items ws
  else if alg =? CRUSH_BUCKET_STRAW then crush_make_straw_bucket m junk hash type size items ws
  else if alg =? CRUSH_BUCKET_STRAW2 then crush_make_straw2_bucket hash type size items ws
  else mret None.
End straw.

(** ** Adding items

    The return value and the bucket as the call leaves it. *)
Section edit.
Context (pow : f64 -> f64 -> f64) (junk : Z -> Z).

Abbreviation realloc := (realloc junk).

Definition crush_add_uniform_bucket_item (b : crush_bucket) (item_weight item weight : Z)
    : res (Z * crush_bucket) :=
  let newsize := b_size b + 1 in
  if negb (item_weight =? u32 weight) then mret (- EINVAL, b)
  else match realloc (b_items b) newsize with
  | None => mret (- ENOMEM, b)
  | Some its =>
    its ← wr its (newsize - 1) item;
    let b := set_items b its in
    if crush_addition_is_unsafe (b_weight b) weight then mret (- ERANGE, b)
    else mret (0, set_size (set_weight b (u32 (b_weight b + weight))) newsize)
  end.

Definition crush_add_list_bucket_item (b : crush_bucket) (iw sw : list Z) (item weight : Z)
    : res (Z * crush_bucket) :=
  let newsize := b_size b + 1 in
  match realloc (b_items b) newsize, realloc iw newsize, realloc sw newsize with
  | Some its, Some iw, Some sw =>
    its ← wr its (newsize - 1) item;
    iw ← wr iw (newsize - 1) (u32 weight);
    if 1 <? newsize then
      prev ← rd sw (newsize - 2);
      if crush_addition_is_unsafe prev weight
      then mret (- ERANGE, set_body (set_items b its) (bucket_list iw sw))
      else
        sw ← wr sw (newsize - 1) (u32 (prev + weight));
        mret (0, set_size (set_weight (set_body (set_items b its) (bucket_list iw sw))
                   (u32 (b_weight b + weight))) newsize)
    else
      sw ← wr sw (newsize - 1) (u32 weight);
      mret (0, set_size (set_weight (set_body (set_items b its) (bucket_list iw sw))
                 (u32 (b_weight b + weight))) newsize)
  | _, _, _ => mret (- ENOMEM, b)
  end.

Definition crush_add_tree_bucket_item (b : crush_bucket) (nw : list Z) (item weight : Z)
    : res (Z * crush_bucket) :=
  let newsize := b_size b + 1 in
  depth ← calc_depth newsize;
  let num_nodes := u8 (Z.shiftl 1 depth) in
  match realloc (b_items b) newsize with
  | None => mret (- ENOMEM, set_body b (bucket_tree num_nodes nw))
  | Some its =>
    match realloc nw num_nodes with
    | None => mret (- ENOMEM, set_body (set_items b its) (bucket_tree num_nodes []))
    | Some nw =>
      let node := crush_calc_tree_node (newsize - 1) in
      nw ← wr nw node (u32 weight);
      let root := num_nodes / 2 in
      nw ← (if (2 <=? depth) && (node - 1 =? root)
            then v ← rd nw (root / 2); wr nw root v
            else mret nw);
      '(safe, nw) ← tree_add_path (Z.to_nat (depth - 1)) node weight nw;
      let b := set_body (set_items b its) (bucket_tree num_nodes nw) in
      if negb safe then mret (- ERANGE, b)
      else if crush_addition_is_unsafe (b_weight b) weight then mret (- ERANGE, b)
      else
        its ← wr its (newsize - 1) item;
        mret (0, set_size (set_weight (set_items b its) (u32 (b_weight b + weight))) newsize)
    end
  end.

Definition crush_add_straw_bucket_item (m : crush_map) (b : crush_bucket) (iw straws : list Z)
    (item weight : Z) : res (Z * crush_bucket) :=
  let newsize := b_size b + 1 in
  match realloc (b_items b) newsize, realloc iw newsize, realloc straws newsize with
  | Some its, Some iw, Some straws =>
    its ← wr its (newsize - 1) item;
    iw ← wr iw (newsize - 1) (u32 weight);
    let b := set_body (set_items b its) (bucket_straw iw straws) in
    if crush_addition_is_unsafe (b_weight b) weight then mret (- ERANGE, b)
    else
      let b := set_size (set_weight b (u32 (b_weight b + weight))) newsize in
      straws ← crush_calc_straw pow (straw_calc_version m) newsize iw straws;
      mret (0, set_body b (bucket_straw iw straws))
  | _, _, _ => mret (- ENOMEM, b)
  end.

Definition crush_add_straw2_bucket_item (b : crush_bucket) (iw : list Z) (item weight : Z)
    : res (Z * crush_bucket) :=
  let newsize := b_size b + 1 in
  match realloc (b_items b) newsize, realloc iw newsize with
  | Some its, Some iw =>
    its ← wr its (newsize - 1) item;
    iw ← wr iw (newsize - 1) (u32 weight);
    let b := set_body (set_items b its) (bucket_straw2 iw) in
    if crush_addition_is_unsafe (b_weight b) weight then mret (- ERANGE, b)
    else mret (0, set_size (set_weight b (u32 (b_weight b + weight))) newsize)
  | _, _ => mret (- ENOMEM, b)
  end.

Definition crush_bucket_add_item (m : crush_map) (b : crush_bucket) (item weight : Z)
    : res (Z * crush_bucket) :=
  match b_body b with
  | bucket_uniform item_weight => crush_add_uniform_bucket_item b item_weight item weight
  | bucket_list iw sw => crush_add_list_bucket_item b iw sw item weight
  | bucket_tree _ nw => crush_add_tree_bucket_item b nw item weight
  | bucket_straw iw straws => crush_add_straw_bucket_item m b iw straws item weight
  | bucket_straw2 iw => crush_add_straw2_bucket_item b iw item weight
  | bucket_other _ => mret (-1, b)
  end.

(** ** Removing items *)

(** [for (i = 0; i < size; i++) if (items[i] == item) break;] *)
Fixpoint find_item (n : nat) (i : Z) (items : list Z) (item : Z) : res Z :=
  match n with
  | O => mret i
  | S n => v ← rd items i; if v =? item then mret i else find_item n (i + 1) items item
  end.

(** [for (; j < end; j++) l[j] = l[j+1]], the read at the end may be past it. *)
Fixpoint shift_past (n : nat) (j : Z) (l : list Z) : res (list Z) :=
  match n with
  | O => mret l
  | S n => v ← rd_past junk l (j + 1); l ← wr l j v; shift_past n (j + 1) l
  end.

(** The same for the prefix sums, less [weight]. *)
Fixpoint shift_sums (n : nat) (j weight : Z) (l : list Z) : res (list Z) :=
  match n with
  | O => mret l
  | S n => v ← rd_past junk l (j + 1); l ← wr l j (u32 (v - weight)); shift_sums n (j + 1) weight l
  end.

Definition less_weight (total weight : Z) : Z := if weight <? total then total - weight else 0.

Definition crush_remove_uniform_bucket_item (b : crush_bucket) (item_weight item : Z)
    : res (Z * crush_bucket) :=
  i ← find_item (Z.to_nat (b_size b)) 0 (b_items b) item;
  if i =? b_size b then mret (- ENOENT, b)
  else
    its ← shift_past (Z.to_nat (b_size b - i)) i (b_items b);
    let newsize := b_size b - 1 in
    let b := set_weight (set_size b newsize) (less_weight (b_weight b) item_weight) in
    match realloc its newsize with
    | None => mret (- ENOMEM, set_items b [])
    | Some its => mret (0, set_items b its)
    end.

Definition crush_remove_list_bucket_item (b : crush_bucket) (iw sw : list Z) (item : Z)
    : res (Z * crush_bucket) :=
  i ← find_item (Z.to_nat (b_size b)) 0 (b_items b) item;
  if i =? b_size b then mret (- ENOENT, b)
  else
    weight ← rd iw i;
    its ← shift_past (Z.to_nat (b_size b - i)) i (b_items b);
    iw ← shift_past (Z.to_nat (b_size b - i)) i iw;
    sw ← shift_sums (Z.to_nat (b_size b - i)) i weight sw;
    let newsize := b_size b - 1 in
    let b := set_size (set_weight b (less_weight (b_weight b) weight)) newsize in
    match realloc its newsize with
    | None => mret (- ENOMEM, set_body (set_items b []) (bucket_list iw sw))
    | Some its =>
      let b := set_items b its in
      match realloc iw newsize with
      | None => mret (- ENOMEM, set_body b (bucket_list [] sw))
      | Some iw =>
        match realloc sw newsize with
        | None => mret (- ENOMEM, set_body b (bucket_list iw []))
        | Some sw => mret (0, set_body b (bucket_list iw sw))
        end
      end
    end.

(** Subtract [w] on the path to the root. *)
Fixpoint tree_sub_path (n : nat) (node w : Z) (nw : list Z) : res (list Z) :=
  match n with
  | O => mret nw
  | S n =>
    node ← parent node;
    v ← rd nw node;
    nw ← wr nw node (u32 (v - w));
    tree_sub_path n node w nw
  end.

(** [while (newsize > 0)]: drop trailing leaves of weight 0. *)
Fixpoint tree_trim (newsize : nat) (nw : list Z) : res Z :=
  match newsize with
  | O => mret 0
  | S n =>
    v ← rd nw (crush_calc_tree_node (Z.of_nat n));
    if negb (v =? 0) then mret (Z.of_nat newsize) else tree_trim n nw
  end.

Definition crush_remove_tree_bucket_item (b : crush_bucket) (num_nodes : Z) (nw : list Z) (item : Z)
    : res (Z * crush_bucket) :=
  i ← find_item (Z.to_nat (b_size b)) 0 (b_items b) item;
  if i =? b_size b then mret (- ENOENT, b)
  else
    depth ← calc_depth (b_size b);
    its ← wr (b_items b) i 0;
    let node := crush_calc_tree_node i in
    weight ← rd nw node;
    nw ← wr nw node 0;
    nw ← tree_sub_path (Z.to_nat (depth - 1)) node weight nw;
    let b := set_body (set_weight (set_items b its) (less_weight (b_weight b) weight))
               (bucket_tree num_nodes nw) in
    newsize ← tree_trim (Z.to_nat (b_size b)) nw;
    if newsize =? b_size b then mret (0, b)
    else match realloc its newsize with
    | None => mret (- ENOMEM, set_items b [])
    | Some its =>
      newdepth ← calc_depth newsize;
      if depth =? newdepth then mret (0, set_size (set_items b its) newsize)
      else
        let num_nodes := u8 (Z.shiftl 1 newdepth) in
        match realloc nw num_nodes with
        | None => mret (- ENOMEM, set_body (set_items b its) (bucket_tree num_nodes []))
        | Some nw => mret (0, set_size (set_body (set_items b its) (bucket_tree num_nodes nw)) newsize)
        end
    end.

Definition crush_remove_straw_bucket_item (m : crush_map) (b : crush_bucket) (iw straws : list Z)
    (item : Z) : res (Z * crush_bucket) :=
  let newsize := b_size b - 1 in
  i ← find_item (Z.to_nat (b_size b)) 0 (b_items b) item;
  if i =? b_size b then mret (- ENOENT, b)
  else
    weight ← rd iw i;
    its ← shift_past (Z.to_nat (b_size b - 1 - i)) i (b_items b);
    iw ← shift_past (Z.to_nat (b_size b - 1 - i)) i iw;
    let b := set_size (set_body (set_items (set_weight b (less_weight (b_weight b) weight)) its)
               (bucket_straw iw straws)) newsize in
    if newsize =? 0 then mret (0, b)
    else match realloc its newsize, realloc iw newsize, realloc straws newsize with
    | Some its, Some iw, Some straws =>
      straws ← crush_calc_straw pow (straw_calc_version m) newsize iw straws;
      mret (0, set_body (set_items b its) (bucket_straw iw straws))
    | _, _, _ => mret (- ENOMEM, b)
    end.

Definition crush_remove_straw2_bucket_item (b : crush_bucket) (iw : list Z) (item : Z)
    : res (Z * crush_bucket) :=
  let newsize := b_size b - 1 in
  i ← find_item (Z.to_nat (b_size b)) 0 (b_items b) item;
  if i =? b_size b then mret (- ENOENT, b)
  else
    weight ← rd iw i;
    its ← shift_past (Z.to_nat (b_size b - 1 - i)) i (b_items b);
    iw ← shift_past (Z.to_nat (b_size b - 1 - i)) i iw;
    let b := set_size (set_body (set_items (set_weight b (less_weight (b_weight b) weight)) its)
               (bucket_straw2 iw)) newsize in
    if newsize =? 0 then mret (0, b)
    else match realloc its newsize, realloc iw newsize with
    | Some its, Some iw => mret (0, set_body (set_items b its) (bucket_straw2 iw))
    | _, _ => mret (- ENOMEM, b)
    end.

Definition crush_bucket_remove_item (m : crush_map) (b : crush_bucket) (item : Z)
    : res (Z * crush_bucket) :=
  match b_body b with
  | bucket_uniform item_weight => crush_remove_uniform_bucket_item b item_weight item
  | bucket_list iw sw => crush_remove_list_bucket_item b iw sw item
  | bucket_tree num_nodes nw => crush_remove_tree_bucket_item b num_nodes nw item
  | bucket_straw iw straws => crush_remove_straw_bucket_item m b iw straws item
  | bucket_straw2 iw => crush_remove_straw2_bucket_item b iw item
  | bucket_other _ => mret (-1, b)
  end.

(** ** Adjusting item weights: the weight difference and the bucket *)

Definition crush_adjust_uniform_bucket_item_weight (b : crush_bucket) (item_weight item weight : Z)
    : res (Z * crush_bucket) :=
  let diff := s32 (u32 (weight - item_weight) * b_size b) in
  mret (diff, set_weight (set_body b (bucket_uniform (u32 weight))) (u32 (u32 weight * b_size b))).

(** [for (j = i; j < size; j++) sum_weights[j] += diff;] *)
Fixpoint add_sums (n : nat) (j diff : Z) (sw : list Z) : res (list Z) :=
  match n with
  | O => mret sw
  | S n => v ← rd sw j; sw ← wr sw j (u32 (v + diff)); add_sums n (j + 1) diff sw
  end.

Definition crush_adjust_list_bucket_item_weight (b : crush_bucket) (iw sw : list Z) (item weight : Z)
    : res (Z * crush_bucket) :=
  i ← find_item (Z.to_nat (b_size b)) 0 (b_items b) item;
  if i =? b_size b then mret (0, b)
  else
    old ← rd iw i;
    let diff := s32 (weight - old) in
    iw ← wr iw i (u32 weight);
    sw ← add_sums (Z.to_nat (b_size b - i)) i diff sw;
    mret (diff, set_body (set_weight b (u32 (b_weight b + diff))) (bucket_list iw sw)).

(** [for (j = 1; j < depth; j++)]: add [diff] on the path, unchecked. *)
Fixpoint tree_diff_path (n : nat) (node diff : Z) (nw : list Z) : res (list Z) :=
  match n with
  | O => mret nw
  | S n =>
    node ← parent node;
    v ← rd nw node;
    nw ← wr nw node (u32 (v + diff));
    tree_diff_path n node diff nw
  end.

Definition crush_adjust_tree_bucket_item_weight (b : crush_bucket) (num_nodes : Z) (nw : list Z)
    (item weight : Z) : res (Z * crush_bucket) :=
  depth ← calc_depth (b_size b);
  i ← find_item (Z.to_nat (b_size b)) 0 (b_items b) item;
  if i =? b_size b then mret (0, b)
  else
    let node := crush_calc_tree_node i in
    old ← rd nw node;
    let diff := s32 (weight - old) in
    nw ← wr nw node (u32 weight);
    nw ← tree_diff_path (Z.to_nat (depth - 1)) node diff nw;
    mret (diff, set_body (set_weight b (u32 (b_weight b + diff))) (bucket_tree num_nodes nw)).

Definition crush_adjust_straw_bucket_item_weight (m : crush_map) (b : crush_bucket) (iw straws : list Z)
    (item weight : Z) : res (Z * crush_bucket) :=
  i ← find_item (Z.to_nat (b_size b)) 0 (b_items b) item;
  if i =? b_size b then mret (0, b)
  else
    old ← rd iw i;
    let diff := s32 (weight - old) in
    iw ← wr iw i (u32 weight);
    straws ← crush_calc_straw pow (straw_calc_version m) (b_size b) iw straws;
    mret (diff, set_body (set_weight b (u32 (b_weight b + diff))) (bucket_straw iw straws)).

Definition crush_adjust_straw2_bucket_item_weight (b : crush_bucket) (iw : list Z) (item weight : Z)
    : res (Z * crush_bucket) :=
  i ← find_item (Z.to_nat (b_size b)) 0 (b_items b) item;
  if i =? b_size b then mret (0, b)
  else
    old ← rd iw i;
    let diff := s32 (weight - old) in
    iw ← wr iw i (u32 weight);
    mret (diff, set_body (set_weight b (u32 (b_weight b + diff))) (bucket_straw2 iw)).

Definition crush_bucket_adjust_item_weight (m : crush_map) (b : crush_bucket) (item weight : Z)
    : res (Z * crush_bucket) :=
  match b_body b with
  | bucket_uniform item_weight => crush_adjust_uniform_bucket_item_weight b item_weight item weight
  | bucket_list iw sw => crush_adjust_list_bucket_item_weight b iw sw item weight
  | bucket_tree num_nodes nw => crush_adjust_tree_bucket_item_weight b num_nodes nw item weight
  | bucket_straw iw straws => crush_adjust_straw_bucket_item_weight m b iw straws item weight
  | bucket_straw2 iw => crush_adjust_straw2_bucket_item_weight b iw item weight
  | bucket_other _ => mret (-1, b)
  end.
End edit.

(** ** Reweighting

    The functions walk down the hierarchy and write the buckets of the map, so
    they thread the map: [pos] is the position of the bucket in it. *)

Definition put_bucket (m : crush_map) (pos : Z) (b : crush_bucket) : res crush_map :=
  bs ← wr (buckets m) pos (Some b); mret (set_buckets m bs).

Section reweight.
Context (pow : f64 -> f64 -> f64).

(** The weight that the bucket holds for its [i]-th item, and the update. *)
Definition item_weight_at (b : crush_bucket) (i : Z) : res Z :=
  match b_body b with
  | bucket_list iw _ | bucket_straw iw _ | bucket_straw2 iw => rd iw i
  | bucket_tree _ nw => rd nw (crush_calc_tree_node i)
  | _ => Fault
  end.

Definition set_item_weight_at (b : crush_bucket) (i w : Z) : res crush_bucket :=
  match b_body b with
  | bucket_list iw sw => iw ← wr iw i w; mret (set_body b (bucket_list iw sw))
  | bucket_tree n nw => nw ← wr nw (crush_calc_tree_node i) w; mret (set_body b (bucket_tree n nw))
  | bucket_straw iw st => iw ← wr iw i w; mret (set_body b (bucket_straw iw st))
  | bucket_straw2 iw => iw ← wr iw i w; mret (set_body b (bucket_straw2 iw))
  | _ => Fault
  end.

(** The loop over the items that the list, tree, straw and straw2 functions
    share; [false] when an addition is unsafe. *)
Fixpoint reweight_items (rec : crush_map -> Z -> res (Z * crush_map)) (pos : Z) (n : nat) (i : Z)
    (m : crush_map) : res (bool * crush_map) :=
  match n with
  | O => mret (true, m)
  | S n =>
    b ← deref_bucket m pos;
    id ← rd (b_items b) i;
    m ← (if id <? 0 then
           _ ← deref_bucket m (-1 - id);
           '(_, m) ← rec m (-1 - id);
           c ← deref_bucket m (-1 - id);
           b ← deref_bucket m pos;
           b ← set_item_weight_at b i (b_weight c);
           put_bucket m pos b
         else mret m);
    b ← deref_bucket m pos;
    w ← item_weight_at b i;
    if crush_addition_is_unsafe (b_weight b) w then mret (false, m)
    else
      m ← put_bucket m pos (set_weight b (u32 (b_weight b + w)));
      reweight_items rec pos n (i + 1) m
  end.

(** [bucket->h.weight = 0], the loop, and the return value. *)
Definition reweight_sum (rec : crush_map -> Z -> res (Z * crush_map)) (m : crush_map) (pos : Z)
    : res (Z * crush_map) :=
  b ← deref_bucket m pos;
  m ← put_bucket m pos (set_weight b 0);
  '(safe, m) ← reweight_items rec pos (Z.to_nat (b_size b)) 0 m;
  mret (if safe : bool then 0 else - ERANGE, m).

Definition crush_reweight_list_bucket := reweight_sum.
Definition crush_reweight_tree_bucket := reweight_sum.
Definition crush_reweight_straw2_bucket := reweight_sum.

Definition crush_reweight_straw_bucket (rec : crush_map -> Z -> res (Z * crush_map)) (m : crush_map)
    (pos : Z) : res (Z * crush_map) :=
  '(r, m) ← reweight_sum rec m pos;
  if negb (r =? 0) then mret (r, m)
  else
    b ← deref_bucket m pos;
    match b_body b with
    | bucket_straw iw straws =>
      straws ← crush_calc_straw pow (straw_calc_version m) (b_size b) iw straws;
      m ← put_bucket m pos (set_body b (bucket_straw iw straws));
      mret (0, m)
    | _ => Fault
    end.

(** [None] for [-ERANGE], else the sum, the number of buckets and of devices. *)
Fixpoint reweight_uniform_items (rec : crush_map -> Z -> res (Z * crush_map)) (pos : Z) (k : nat) (i : Z)
    (sum n leaves : Z) (m : crush_map) : res (option (Z * Z * Z) * crush_map) :=
  match k with
  | O => mret (Some (sum, n, leaves), m)
  | S k =>
    b ← deref_bucket m pos;
    id ← rd (b_items b) i;
    if id <? 0 then
      _ ← deref_bucket m (-1 - id);
      '(_, m) ← rec m (-1 - id);
      c ← deref_bucket m (-1 - id);
      if crush_addition_is_unsafe sum (b_weight c) then mret (None, m)
      else reweight_uniform_items rec pos k (i + 1) (u32 (sum + b_weight c)) (n + 1) leaves m
    else reweight_uniform_items rec pos k (i + 1) sum n (leaves + 1) m
  end.

Definition crush_reweight_uniform_bucket (rec : crush_map -> Z -> res (Z * crush_map)) (m : crush_map)
    (pos : Z) : res (Z * crush_map) :=
  b ← deref_bucket m pos;
  '(r, m) ← reweight_uniform_items rec pos (Z.to_nat (b_size b)) 0 0 0 0 m;
  match r with
  | None => mret (- ERANGE, m)
  | Some (sum, n, leaves) =>
    b ← deref_bucket m pos;
    match b_body b with
    | bucket_uniform item_weight =>
      let item_weight := if leaves <? n then sum / n else item_weight in
      m ← put_bucket m pos (set_weight (set_body b (bucket_uniform item_weight))
                              (u32 (item_weight * b_size b)));
      mret (0, m)
    | _ => Fault
    end
  end.

Fixpoint crush_reweight_bucket (fuel : nat) (m : crush_map) (pos : Z) : res (Z * crush_map) :=
  match fuel with
  | O => NoFuel
  | S fuel =>
    b ← deref_bucket m pos;
    match b_body b with
    | bucket_uniform _ => crush_reweight_uniform_bucket (crush_reweight_bucket fuel) m pos
    | bucket_list _ _ => crush_reweight_list_bucket (crush_reweight_bucket fuel) m pos
    | bucket_tree _ _ => crush_reweight_tree_bucket (crush_reweight_bucket fuel) m pos
    | bucket_straw _ _ => crush_reweight_straw_bucket (crush_reweight_bucket fuel) m pos
    | bucket_straw2 _ => crush_reweight_straw2_bucket (crush_reweight_bucket fuel) m pos
    | bucket_other _ => mret (-1, m)
    end
  end.
End reweight.

(** ** Choose arguments

    Every bucket is read as a straw2 bucket.  For a list or straw bucket that
    is the item weights too; a uniform or tree bucket has no pointer at that
    place.  The sizes of the three areas are computed and filled consistently,
    so the arrays are lists here. *)
Definition choose_arg_weights (b : crush_bucket) : res (list Z) :=
  match b_body b with
  | bucket_list iw _ | bucket_straw iw _ | bucket_straw2 iw => copy_loop (Z.to_nat (b_size b)) 0 iw []
  | _ => Fault
  end.

Fixpoint crush_make_choose_args_loop (bs : list (option crush_bucket)) (num_positions : Z)
    : res (list crush_choose_arg) :=
  match bs with
  | [] => mret []
  | None :: bs =>
    rest ← crush_make_choose_args_loop bs num_positions;
    mret (mk_choose_arg None None :: rest)
  | Some b :: bs =>
    ws ← choose_arg_weights b;
    its ← copy_loop (Z.to_nat (b_size b)) 0 (b_items b) [];
    rest ← crush_make_choose_args_loop bs num_positions;
    mret (mk_choose_arg (Some its) (Some (replicate (Z.to_nat num_positions) ws)) :: rest)
  end.

Definition crush_make_choose_args (m : crush_map) (num_positions : Z) : res (list crush_choose_arg) :=
  crush_make_choose_args_loop (buckets m) num_positions.
