(* ===== verification/CrushBuilderSpec.v ===== *)
(** * The bucket editor refines a list of weighted items

    A bucket of the uniform, list or straw2 kind stands for a list of items with
    their weights ([entries]).  Adding, removing and adjusting an item are shown
    to be the corresponding operations on that list, on every path, and to keep
    the bucket well formed: the total is the sum of the weights and the prefix
    sums of a list bucket are right. *)

From S2P Require Import Prelude CrushHash CrushLn CrushTypes CrushChoose CrushPerm CrushChooseSpec CrushTree CrushMapper CrushMapSpec CrushBuilder.

(** ** Sums *)

Definition zsum (l : list Z) : Z := foldr Z.add 0 l.

Lemma zsum_app l k : zsum (l ++ k) = zsum l + zsum k.
Proof. induction l; cbn; unfold zsum in *; lia. Qed.

Lemma zsum_nonneg l : Forall is_u32 l -> 0 <= zsum l.
Proof. induction 1; cbn; unfold is_u32, zsum in *; lia. Qed.

Lemma zsum_cons v l : zsum (v :: l) = v + zsum l.
Proof. done. Qed.

Lemma zsum_delete l i w : l !! i = Some w -> zsum (delete i l) = zsum l - w.
Proof.
  revert i. induction l as [| v l IH]; intros [| i] H; [done | done | |].
  - injection H as ->. change (delete 0%nat (w :: l)) with l. rewrite zsum_cons. lia.
  - change (delete (S i) (v :: l)) with (v :: delete i l). rewrite !zsum_cons, (IH i H). lia.
Qed.

Lemma zsum_insert l i w v : l !! i = Some w -> zsum (<[i := v]> l) = zsum l - w + v.
Proof.
  revert i. induction l as [| u l IH]; intros [| i] H; [done | done | |].
  - injection H as ->. change (<[0%nat := v]> (w :: l)) with (v :: l). rewrite !zsum_cons. lia.
  - change (<[S i := v]> (u :: l)) with (u :: <[i := v]> l). rewrite !zsum_cons, (IH i H). lia.
Qed.

Lemma zsum_lookup_le l i w : Forall is_u32 l -> l !! i = Some w -> w <= zsum l.
Proof.
  intros Hf Hi. pose proof (zsum_delete l i w Hi).
  assert (Forall is_u32 (delete i l)) as Hd by (by apply Forall_delete).
  pose proof (zsum_nonneg _ Hd). lia.
Qed.

Lemma zsum_replicate n w : zsum (replicate n w) = Z.of_nat n * w.
Proof. induction n as [| n IH]; [done |]. cbn [replicate]. unfold zsum in *. cbn. lia. Qed.

(** Prefix sums. *)
Fixpoint psums (acc : Z) (l : list Z) : list Z :=
  match l with
  | [] => []
  | w :: l => acc + w :: psums (acc + w) l
  end.

Lemma length_psums acc l : length (psums acc l) = length l.
Proof. revert acc. induction l; intros; cbn; auto. Qed.

Lemma psums_app acc l k : psums acc (l ++ k) = psums acc l ++ psums (acc + zsum l) k.
Proof.
  revert acc. induction l as [| w l IH]; intros acc; cbn.
  - by rewrite Z.add_0_r.
  - rewrite IH. do 3 f_equal. unfold zsum. lia.
Qed.

Lemma psums_lookup acc l i w :
  l !! i = Some w -> psums acc l !! i = Some (acc + zsum (take (S i) l)).
Proof.
  revert acc i. induction l as [| v l IH]; intros acc [| i] H; [done | done | |].
  - injection H as ->. cbn. rewrite take_0. cbn. f_equal. lia.
  - cbn [psums]. change (take (S (S i)) (v :: l)) with (v :: take (S i) l).
    rewrite zsum_cons. change ((acc + v :: psums (acc + v) l) !! S i) with (psums (acc + v) l !! i).
    rewrite (IH _ _ H). f_equal. lia.
Qed.

Lemma psums_shift a b l : psums (a + b) l = (fun v => v + b) <$> psums a l.
Proof.
  revert a. induction l as [| w l IH]; intros a; cbn; [done |].
  f_equal; [lia |]. rewrite <- IH. f_equal. lia.
Qed.

(** ** Checked addition *)

Lemma addition_unsafe_iff a b : is_u32 a ->
  crush_addition_is_unsafe a b = true <-> 2 ^ 32 <= a + u32 b.
Proof.
  intros Ha. unfold crush_addition_is_unsafe. rewrite (u32_id a Ha). pose proof (u32_range b) as Hb.
  change (u32 (-1)) with (2 ^ 32 - 1). unfold is_u32 in *. rewrite u32_id by (unfold is_u32; lia).
  rewrite Z.ltb_lt. lia.
Qed.

Lemma u32_add_safe a b : is_u32 a -> crush_addition_is_unsafe a b = false -> u32 (a + b) = a + u32 b.
Proof.
  intros Ha H. assert (~ 2 ^ 32 <= a + u32 b) as Hlt by (rewrite <- addition_unsafe_iff, H by done; done).
  unfold is_u32, u32 in *. rewrite <- Z.add_mod_idemp_r by lia. apply Z.mod_small.
  pose proof (Z.mod_pos_bound b (2 ^ 32)). lia.
Qed.

(** ** Arrays *)

Lemma realloc_append junk l n v :
  0 <= n <= zlen l ->
  exists l1, realloc junk l (n + 1) = Some l1 /\ wr l1 n v = Ok (take (Z.to_nat n) l ++ [v]).
Proof.
  intros Hn. unfold realloc. destruct (Z.leb_spec (n + 1) 0); [lia |]. eexists. split; [reflexivity |].
  replace (Z.to_nat (n + 1)) with (S (Z.to_nat n)) by lia. unfold zlen in *.
  destruct (decide (n = Z.of_nat (length l))) as [-> |].
  - replace (Z.of_nat (length l) + 1 - Z.of_nat (length l)) with 1 by lia.
    rewrite take_ge by lia. rewrite Nat2Z.id, take_ge by lia.
    change (seqZ (Z.of_nat (length l)) 1) with [0 + Z.of_nat (length l)]. cbn [fmap list_fmap].
    apply wr_Ok. split; [unfold zlen; rewrite length_app; cbn; lia |].
    rewrite Nat2Z.id. rewrite insert_app_r_alt by lia. by rewrite Nat.sub_diag.
  - rewrite seqZ_nil, app_nil_r by lia.
    destruct (lookup_lt_is_Some_2 l (Z.to_nat n)) as [w Hw]; [lia |].
    rewrite (take_S_r _ _ _ Hw). apply wr_Ok.
    assert (length (take (Z.to_nat n) l) = Z.to_nat n) as Hlen by (rewrite length_take; lia).
    split; [unfold zlen; rewrite length_app, Hlen; cbn; lia |].
    rewrite insert_app_r_alt by lia. by rewrite Hlen, Nat.sub_diag.
Qed.

(** Shifting the tail down over position [j]. *)
Lemma shift_past_Ok junk n j l :
  0 <= j -> j + Z.of_nat n <= zlen l ->
  exists l', shift_past junk n j l = Ok l' /\ length l' = length l /\
    forall t, l' !! t =
      (if decide (j <= Z.of_nat t < j + Z.of_nat n)
       then if decide (Z.of_nat t + 1 = zlen l) then Some (junk (zlen l)) else l !! S t
       else l !! t).
Proof.
  revert j l. induction n as [| n IH]; intros j l Hj Hl; cbn [shift_past].
  { exists l. split; [done |]. split; [done |]. intros t. case_decide; [lia | done]. }
  assert (exists v, rd_past junk l (j + 1) = Ok v /\
    Some v = if decide (j + 1 = zlen l) then Some (junk (zlen l)) else l !! S (Z.to_nat j)) as (v & Hv & Hval).
  { unfold rd_past. destruct (Z.eqb_spec (j + 1) (zlen l)) as [E | E].
    - exists (junk (j + 1)). split; [done |]. case_decide; [by rewrite E | done].
    - destruct (rd_in_range l (j + 1)) as [v Hv]; [lia |]. exists v. split; [done |]. case_decide; [done |].
      apply rd_Ok in Hv as [_ Hv]. by replace (S (Z.to_nat j)) with (Z.to_nat (j + 1)) by lia. }
  rewrite Hv. cbn [mbind res_bind].
  assert (Hw : wr l j v = Ok (<[Z.to_nat j := v]> l)) by (apply wr_Ok; split; [lia | done]).
  rewrite Hw. cbn [mbind res_bind].
  assert (zlen (<[Z.to_nat j := v]> l) = zlen l) as Hzl by (unfold zlen; by rewrite length_insert).
  destruct (IH (j + 1) (<[Z.to_nat j := v]> l)) as (l' & Hs & Hlen & Hlk); [lia | lia |].
  exists l'. split; [done |]. rewrite length_insert in Hlen. split; [done |]. intros t.
  rewrite Hlk, Hzl. unfold zlen in *. destruct (decide (Z.of_nat t = j)) as [<- | Hne].
  - rewrite decide_False by lia. rewrite decide_True by lia.
    rewrite Nat2Z.id in Hval |- *. rewrite list_lookup_insert_eq by lia. done.
  - destruct (decide (j <= Z.of_nat t < j + Z.of_nat (S n))).
    + rewrite decide_True by lia. destruct (decide (Z.of_nat t + 1 = Z.of_nat (length l))); [done |]. rewrite list_lookup_insert_ne by lia. done.
    + rewrite decide_False by lia. rewrite list_lookup_insert_ne by lia. done.
Qed.

(** Over the whole rest, what is below the new size is the list without [i];
    shifting one step less, which stays in range, gives the same. *)
Lemma shift_past_delete junk k n i l :
  0 <= i < n -> n <= zlen l -> n - 1 - i <= Z.of_nat k <= n - i ->
  exists l', shift_past junk k i l = Ok l' /\ length l' = length l /\
    take (Z.to_nat (n - 1)) l' = delete (Z.to_nat i) (take (Z.to_nat n) l).
Proof.
  intros Hi Hn Hk. destruct (shift_past_Ok junk k i l) as (l' & Hs & Hlen & Hlk); [lia | lia |].
  exists l'. split; [done |]. split; [done |]. unfold zlen in *. apply list_eq. intros t.
  destruct (decide (Z.of_nat t < n - 1)) as [Ht | Ht].
  - rewrite lookup_take_lt by lia. rewrite Hlk. destruct (decide (Z.of_nat t < i)).
    + rewrite decide_False by lia. rewrite list_lookup_delete_lt, lookup_take_lt by lia. done.
    + rewrite decide_True, decide_False by lia. rewrite list_lookup_delete_ge, lookup_take_lt by lia. done.
  - rewrite lookup_take_ge by lia. symmetry. apply lookup_ge_None.
    rewrite length_delete; [rewrite length_take; lia |]. apply lookup_lt_is_Some. rewrite length_take. lia.
Qed.

(** [shift_sums] is [shift_past] with the weight subtracted. *)
Lemma shift_sums_Ok junk n i w l :
  0 <= i < n -> n <= zlen l ->
  exists l', shift_sums junk (Z.to_nat (n - i)) i w l = Ok l' /\ length l' = length l /\
    forall t, Z.of_nat t < n - 1 ->
      l' !! t = if decide (Z.of_nat t < i) then l !! t else (fun v => u32 (v - w)) <$> l !! S t.
Proof.
  intros Hi Hn.
  assert (H : forall k j l, 0 <= j -> j + Z.of_nat k <= zlen l ->
    exists l', shift_sums junk k j w l = Ok l' /\ length l' = length l /\
      forall t, Z.of_nat t + 1 < zlen l -> l' !! t =
        if decide (j <= Z.of_nat t < j + Z.of_nat k) then (fun v => u32 (v - w)) <$> l !! S t else l !! t).
  { induction k as [| k IH]; intros j l0 Hj Hl; cbn [shift_sums].
    { exists l0. split; [done |]. split; [done |]. intros t _. case_decide; [lia | done]. }
    assert (exists v, rd_past junk l0 (j + 1) = Ok v /\ (j + 1 < zlen l0 -> l0 !! S (Z.to_nat j) = Some v))
      as (v & Hv & Hval).
    { unfold rd_past. destruct (Z.eqb_spec (j + 1) (zlen l0)); [eexists; split; [done | lia] |].
      destruct (rd_in_range l0 (j + 1)) as [v Hv]; [lia |]. exists v. split; [done |]. intros _.
      apply rd_Ok in Hv as [_ Hv]. by replace (S (Z.to_nat j)) with (Z.to_nat (j + 1)) by lia. }
    rewrite Hv. cbn [mbind res_bind].
    assert (Hw : wr l0 j (u32 (v - w)) = Ok (<[Z.to_nat j := u32 (v - w)]> l0)) by (apply wr_Ok; split; [lia | done]).
    rewrite Hw. cbn [mbind res_bind].
    assert (zlen (<[Z.to_nat j := u32 (v - w)]> l0) = zlen l0) as Hzl by (unfold zlen; by rewrite length_insert).
    destruct (IH (j + 1) (<[Z.to_nat j := u32 (v - w)]> l0)) as (l' & Hs & Hlen & Hlk); [lia | lia |].
    exists l'. split; [done |]. rewrite length_insert in Hlen. split; [done |]. intros t Ht.
    rewrite Hlk by lia. unfold zlen in *. destruct (decide (Z.of_nat t = j)) as [<- | Hne].
    - rewrite decide_False by lia. rewrite decide_True by lia.
      rewrite Nat2Z.id in Hval |- *. rewrite list_lookup_insert_eq by lia. by rewrite Hval by lia.
    - destruct (decide (j <= Z.of_nat t < j + Z.of_nat (S k))).
      + rewrite decide_True by lia. rewrite list_lookup_insert_ne by lia. done.
      + rewrite decide_False by lia. rewrite list_lookup_insert_ne by lia. done. }
  destruct (H (Z.to_nat (n - i)) i l) as (l' & Hs & Hlen & Hlk); [lia | lia |].
  exists l'. split; [done |]. split; [done |]. intros t Ht. rewrite Hlk by lia.
  destruct (decide (Z.of_nat t < i)); [rewrite decide_False by lia | rewrite decide_True by lia]; done.
Qed.

(** ** Buckets as lists of weighted items *)

Definition item_weights (b : crush_bucket) : list Z :=
  match b_body b with
  | bucket_uniform w => replicate (Z.to_nat (b_size b)) w
  | bucket_list iw _ | bucket_straw2 iw => take (Z.to_nat (b_size b)) iw
  | _ => []
  end.

Definition entries (b : crush_bucket) : list (Z * Z) := zip (b_live b) (item_weights b).

(** Well-formed uniform, list and straw2 buckets. *)
Record bucket_wf (b : crush_bucket) : Prop := {
  wf_size : 0 <= b_size b < 2 ^ 31;
  wf_items : b_size b <= zlen (b_items b);
  wf_len : zlen (item_weights b) = b_size b;
  wf_u32 : Forall is_u32 (item_weights b);
  wf_total : b_weight b = zsum (item_weights b);
  wf_max : b_weight b < 2 ^ 32;
  wf_body : match b_body b with
            | bucket_uniform w => is_u32 w
            | bucket_list iw sw => take (Z.to_nat (b_size b)) sw = psums 0 (item_weights b)
            | bucket_straw2 _ => True
            | _ => False
            end;
}.

Lemma take_snoc (l : list Z) n v : 0 <= n <= zlen l -> take (Z.to_nat (n + 1)) (take (Z.to_nat n) l ++ [v]) = take (Z.to_nat n) l ++ [v].
Proof. intros. apply take_ge. rewrite length_app, length_take. unfold zlen in *. cbn. lia. Qed.

Lemma take_before (l : list Z) n v : 0 <= n <= zlen l -> take (Z.to_nat n) (take (Z.to_nat n) l ++ [v]) = take (Z.to_nat n) l.
Proof. intros. rewrite take_app_le by (rewrite length_take; unfold zlen in *; lia). rewrite take_take. by rewrite Nat.min_id. Qed.

Lemma wf_weight_u32 b : bucket_wf b -> is_u32 (b_weight b).
Proof.
  intros H. pose proof (zsum_nonneg _ (wf_u32 _ H)). pose proof (wf_total _ H). pose proof (wf_max _ H).
  unfold is_u32. lia.
Qed.

Lemma live_length b : bucket_wf b -> length (b_live b) = Z.to_nat (b_size b).
Proof. intros H. unfold b_live. rewrite length_take. pose proof (wf_items _ H). unfold zlen in *. lia. Qed.

Lemma wf_len_nat b : bucket_wf b -> length (item_weights b) = Z.to_nat (b_size b).
Proof. intros H. pose proof (wf_len _ H). unfold zlen in *. lia. Qed.

Definition add_post (b : crush_bucket) (item weight : Z) (r : Z) (b' : crush_bucket) : Prop :=
  bucket_wf b' /\
  ((r = 0 /\ entries b' = entries b ++ [(item, u32 weight)]) \/
   (r = - ERANGE /\ entries b' = entries b /\ 2 ^ 32 <= b_weight b + u32 weight) \/
   (r = - EINVAL /\ b' = b /\ exists w, b_body b = bucket_uniform w /\ w <> u32 weight)).

(** A bucket whose arrays were extended by one item past the size. *)
Lemma add_post_range b b' item weight :
  bucket_wf b -> b_size b' = b_size b -> b_weight b' = b_weight b ->
  b_items b' = take (Z.to_nat (b_size b)) (b_items b) ++ [item] ->
  item_weights b' = item_weights b ->
  match b_body b' with
  | bucket_uniform w => is_u32 w
  | bucket_list _ sw => take (Z.to_nat (b_size b)) sw = psums 0 (item_weights b)
  | bucket_straw2 _ => True
  | _ => False
  end ->
  2 ^ 32 <= b_weight b + u32 weight ->
  add_post b item weight (- ERANGE) b'.
Proof.
  intros H Hs Hw Hi Hiw Hb Hlt. pose proof (wf_size _ H). pose proof (wf_items _ H). split.
  - split; rewrite ?Hs, ?Hw, ?Hiw; try apply H.
    + rewrite Hi. unfold zlen in *. rewrite length_app, length_take. cbn. lia.
    + by destruct (b_body b').
  - right. left. split; [done |]. split; [| done].
    unfold entries, b_live. rewrite Hs, Hi, Hiw, take_before by lia. done.
Qed.

(** A bucket with one item more. *)
Lemma add_post_zero b b' item weight :
  bucket_wf b -> b_size b + 1 < 2 ^ 31 -> crush_addition_is_unsafe (b_weight b) weight = false ->
  b_size b' = b_size b + 1 -> b_weight b' = u32 (b_weight b + weight) ->
  b_items b' = take (Z.to_nat (b_size b)) (b_items b) ++ [item] ->
  item_weights b' = item_weights b ++ [u32 weight] ->
  match b_body b' with
  | bucket_uniform w => is_u32 w
  | bucket_list _ sw => take (Z.to_nat (b_size b')) sw = psums 0 (item_weights b')
  | bucket_straw2 _ => True
  | _ => False
  end ->
  add_post b item weight 0 b'.
Proof.
  intros H Hsz Hsafe Hs Hwt Hi Hiw Hb. pose proof (wf_size _ H). pose proof (wf_items _ H).
  pose proof (wf_len_nat _ H) as Hl. pose proof (u32_range weight) as Hw.
  rewrite (u32_add_safe _ _ (wf_weight_u32 _ H) Hsafe) in Hwt.
  assert (b_weight b + u32 weight < 2 ^ 32).
  { rewrite <- (u32_add_safe _ _ (wf_weight_u32 _ H) Hsafe). apply u32_range. }
  split.
  - split; rewrite ?Hs, ?Hwt, ?Hiw; [lia | | | | | lia |].
    + rewrite Hi. unfold zlen in *. rewrite length_app, length_take. cbn. lia.
    + unfold zlen in *. rewrite length_app, Hl. cbn. lia.
    + apply Forall_app. split; [apply H | by constructor].
    + rewrite zsum_app, (wf_total _ H). cbn. lia.
    + destruct (b_body b'); try done. by rewrite Hs, Hiw in Hb.
  - left. split; [done |]. unfold entries, b_live. rewrite Hs, Hi, Hiw, take_snoc by lia.
    rewrite zip_with_app; [done |]. rewrite Hl, length_take. unfold zlen in *. lia.
Qed.

Lemma add_uniform_ok junk b w item weight :
  bucket_wf b -> b_size b + 1 < 2 ^ 31 -> b_body b = bucket_uniform w ->
  exists r b', crush_add_uniform_bucket_item junk b w item weight = Ok (r, b') /\ add_post b item weight r b'.
Proof.
  intros H Hsz Hb. pose proof (wf_size _ H). pose proof (wf_items _ H). pose proof (wf_body _ H) as Hu.
  rewrite Hb in Hu. pose proof (wf_weight_u32 _ H) as Hwu. unfold crush_add_uniform_bucket_item. cbv zeta.
  destruct (Z.eqb_spec w (u32 weight)) as [-> | Hne]; cbn [negb].
  2: { exists (- EINVAL), b. split; [done |]. split; [done |]. right. right. eauto. }
  destruct (realloc_append junk (b_items b) (b_size b) item) as (l1 & -> & Hw); [lia |].
  replace (b_size b + 1 - 1) with (b_size b) by lia. rewrite Hw. cbn [mbind res_bind set_items b_weight].
  destruct (crush_addition_is_unsafe (b_weight b) weight) eqn:E.
  - apply addition_unsafe_iff in E; [| done]. eexists _, _. split; [reflexivity |].
    apply add_post_range; try done; unfold item_weights; cbn; by rewrite Hb.
  - eexists _, _. split; [reflexivity |]. apply add_post_zero; try done; [| cbn; by rewrite Hb].
    unfold item_weights. cbn. rewrite Hb. replace (Z.to_nat (b_size b + 1)) with (S (Z.to_nat (b_size b))) by lia.
    by rewrite replicate_S_end.
Qed.

Lemma add_straw2_ok junk b iw item weight :
  bucket_wf b -> b_size b + 1 < 2 ^ 31 -> b_body b = bucket_straw2 iw ->
  exists r b', crush_add_straw2_bucket_item junk b iw item weight = Ok (r, b') /\ add_post b item weight r b'.
Proof.
  intros H Hsz Hb. pose proof (wf_size _ H). pose proof (wf_items _ H). pose proof (wf_weight_u32 _ H) as Hwu.
  assert (Hiw : item_weights b = take (Z.to_nat (b_size b)) iw) by (unfold item_weights; by rewrite Hb).
  assert (b_size b <= zlen iw) as Hl.
  { pose proof (wf_len _ H) as Hl. rewrite Hiw in Hl. unfold zlen in *. rewrite length_take in Hl. lia. }
  unfold crush_add_straw2_bucket_item. cbv zeta.
  destruct (realloc_append junk (b_items b) (b_size b) item) as (l1 & -> & Hw); [lia |].
  destruct (realloc_append junk iw (b_size b) (u32 weight)) as (l2 & -> & Hw2); [lia |].
  replace (b_size b + 1 - 1) with (b_size b) by lia. rewrite Hw. cbn [mbind res_bind].
  rewrite Hw2. cbn [mbind res_bind set_items set_body b_weight].
  destruct (crush_addition_is_unsafe (b_weight b) weight) eqn:E.
  - apply addition_unsafe_iff in E; [| done]. eexists _, _. split; [reflexivity |].
    apply add_post_range; try done. rewrite Hiw. unfold item_weights. cbn. apply take_before. lia.
  - eexists _, _. split; [reflexivity |]. apply add_post_zero; try done.
    rewrite Hiw. unfold item_weights. cbn. apply take_snoc. lia.
Qed.

Lemma add_list_ok junk b iw sw item weight :
  bucket_wf b -> b_size b + 1 < 2 ^ 31 -> b_body b = bucket_list iw sw ->
  exists r b', crush_add_list_bucket_item junk b iw sw item weight = Ok (r, b') /\ add_post b item weight r b'.
Proof.
  intros H Hsz Hb. pose proof (wf_size _ H). pose proof (wf_items _ H). pose proof (wf_weight_u32 _ H) as Hwu.
  pose proof (wf_len_nat _ H) as Hln. pose proof (wf_body _ H) as Hbody. rewrite Hb in Hbody.
  assert (Hiw : item_weights b = take (Z.to_nat (b_size b)) iw) by (unfold item_weights; by rewrite Hb).
  assert (b_size b <= zlen iw) as Hl by (rewrite Hiw, length_take in Hln; unfold zlen; lia).
  assert (b_size b <= zlen sw) as Hls.
  { apply (f_equal length) in Hbody. rewrite length_psums, length_take, Hln in Hbody. unfold zlen. lia. }
  unfold crush_add_list_bucket_item. cbv zeta.
  destruct (realloc_append junk (b_items b) (b_size b) item) as (l1 & -> & Hw); [lia |].
  destruct (realloc_append junk iw (b_size b) (u32 weight)) as (l2 & -> & Hw2); [lia |].
  set (s0 := psums 0 (item_weights b)) in *.
  assert (exists l3, realloc junk sw (b_size b + 1) = Some l3 /\
    (forall v, wr l3 (b_size b) v = Ok (take (Z.to_nat (b_size b)) sw ++ [v])) /\
    take (Z.to_nat (b_size b)) l3 = s0) as (l3 & -> & Hw3 & Hpre).
  { destruct (realloc_append junk sw (b_size b) 0) as (l3 & E & Hw3); [lia |]. exists l3. split; [done |]. split.
    - intros v. destruct (realloc_append junk sw (b_size b) v) as (l3' & E' & Hw3'); [lia |]. congruence.
    - apply wr_Ok in Hw3 as [Hr Hw3]. apply (f_equal (take (Z.to_nat (b_size b)))) in Hw3.
      rewrite take_insert_ge, take_before, Hbody in Hw3 by lia. done. }
  replace (b_size b + 1 - 1) with (b_size b) by lia. replace (b_size b + 1 - 2) with (b_size b - 1) by lia.
  rewrite Hw. cbn [mbind res_bind]. rewrite Hw2. cbn [mbind res_bind].
  assert (Hsnoc : s0 ++ [b_weight b + u32 weight] = psums 0 (item_weights b ++ [u32 weight])).
  { rewrite psums_app. subst s0. cbn. by rewrite (wf_total _ H). }
  assert (Hfin : crush_addition_is_unsafe (b_weight b) weight = false ->
    take (Z.to_nat (b_size b + 1)) (take (Z.to_nat (b_size b)) sw ++ [u32 (b_weight b + weight)])
    = psums 0 (take (Z.to_nat (b_size b + 1)) (take (Z.to_nat (b_size b)) iw ++ [u32 weight]))).
  { intros E. rewrite !take_snoc by lia. rewrite Hbody, (u32_add_safe _ _ Hwu E), Hsnoc. by rewrite Hiw. }
  destruct (Z.ltb_spec 1 (b_size b + 1)) as [Hgt | Hle].
  - assert (Hprev : rd l3 (b_size b - 1) = Ok (b_weight b)).
    { apply rd_Ok. split; [lia |]. rewrite <- (lookup_take_lt l3 (Z.to_nat (b_size b))) by lia. rewrite Hpre.
      destruct (lookup_lt_is_Some_2 (item_weights b) (Z.to_nat (b_size b - 1))) as [w Hww]; [lia |].
      subst s0. rewrite (psums_lookup _ _ _ _ Hww), take_ge by lia. by rewrite (wf_total _ H). }
    rewrite Hprev. cbn [mbind res_bind]. destruct (crush_addition_is_unsafe (b_weight b) weight) eqn:E.
    + apply addition_unsafe_iff in E; [| done]. eexists _, _. split; [reflexivity |].
      apply add_post_range; try done. rewrite Hiw. unfold item_weights. cbn. apply take_before. lia.
    + rewrite Hw3. cbn [mbind res_bind]. eexists _, _. split; [reflexivity |]. apply add_post_zero; try done.
      * rewrite Hiw. unfold item_weights. cbn. apply take_snoc. lia.
      * cbn. by apply Hfin.
  - assert (b_size b = 0) as Hz by lia. assert (b_weight b = 0) as Hw0.
    { rewrite (wf_total _ H). destruct (item_weights b); [done | cbn in Hln; lia]. }
    assert (crush_addition_is_unsafe (b_weight b) weight = false) as E.
    { apply not_true_iff_false. rewrite addition_unsafe_iff, Hw0 by done. pose proof (u32_range weight).
      unfold is_u32 in *. lia. }
    rewrite Hw3. cbn [mbind res_bind]. eexists _, _. split; [reflexivity |]. apply add_post_zero; try done.
    + rewrite Hiw. unfold item_weights. cbn. apply take_snoc. lia.
    + cbn. specialize (Hfin E). rewrite Hw0, Z.add_0_l in Hfin. exact Hfin.
Qed.

(** ** Removing *)

(** [i] is the first index of [item]. *)
Definition first_at (item : Z) (l : list Z) (i : nat) : Prop :=
  l !! i = Some item /\ forall j, (j < i)%nat -> l !! j <> Some item.

Lemma find_item_Ok n k l item :
  0 <= k -> k + Z.of_nat n <= zlen l ->
  exists i, find_item n k l item = Ok i /\ k <= i <= k + Z.of_nat n /\
    (forall j, k <= j < i -> l !! Z.to_nat j <> Some item) /\
    (i < k + Z.of_nat n -> l !! Z.to_nat i = Some item).
Proof.
  revert k. induction n as [| n IH]; intros k Hk Hl; cbn [find_item].
  { exists k. split; [done |]. split; [lia |]. split; lia. }
  destruct (rd_in_range l k) as [v Hv]; [lia |]. rewrite Hv. cbn [mbind res_bind]. apply rd_Ok in Hv as [_ Hv].
  destruct (Z.eqb_spec v item) as [-> | Hne].
  { exists k. split; [done |]. split; [lia |]. split; [lia | done]. }
  destruct (IH (k + 1)) as (i & Hf & Hr & Hno & Hyes); [lia | lia |].
  exists i. split; [done |]. split; [lia |]. split; [| intros; apply Hyes; lia].
  intros j Hj. destruct (decide (j = k)) as [-> |]; [congruence | apply Hno; lia].
Qed.

Lemma find_item_live b item :
  bucket_wf b ->
  (find_item (Z.to_nat (b_size b)) 0 (b_items b) item = Ok (b_size b) /\ (item ∉ b_live b)) \/
  (exists i, find_item (Z.to_nat (b_size b)) 0 (b_items b) item = Ok i /\ 0 <= i < b_size b /\
     first_at item (b_live b) (Z.to_nat i)).
Proof.
  intros H. pose proof (wf_size _ H). pose proof (wf_items _ H).
  destruct (find_item_Ok (Z.to_nat (b_size b)) 0 (b_items b) item) as (i & Hf & Hr & Hno & Hyes); [lia | lia |].
  destruct (decide (i = b_size b)) as [-> | Hne].
  - left. split; [done |]. intros Hin. apply list_elem_of_lookup in Hin as [j Hj]. unfold b_live in Hj.
    rewrite lookup_take_Some in Hj. destruct Hj as [Hj Hlt]. apply (Hno (Z.of_nat j)); [lia |]. by rewrite Nat2Z.id.
  - right. exists i. split; [done |]. split; [lia |]. unfold b_live. split.
    + rewrite lookup_take_lt by lia. apply Hyes. lia.
    + intros j Hj. rewrite lookup_take_lt by lia. specialize (Hno (Z.of_nat j) ltac:(lia)). by rewrite Nat2Z.id in Hno.
Qed.

Lemma delete_cons_S {A} i (v : A) (l : list A) : delete (S i) (v :: l) = v :: delete i l.
Proof. done. Qed.

Lemma delete_zip {A B} i (l : list A) (k : list B) :
  length l = length k -> delete i (zip l k) = zip (delete i l) (delete i k).
Proof.
  revert i k. induction l as [| x l IH]; intros [| i] [| y k] Hl; try done.
  cbn [zip zip_with]. rewrite !delete_cons_S. cbn [zip zip_with]. f_equal. apply IH. by injection Hl.
Qed.

Lemma take_delete {A} i n (l : list A) : (i <= n)%nat -> take n (delete i l) = delete i (take (S n) l).
Proof.
  revert i n. induction l as [| x l IH]; intros [| i] [| n] Hi; try done; try lia.
  rewrite delete_cons_S. change (take (S (S n)) (x :: l)) with (x :: take (S n) l). rewrite delete_cons_S.
  change (take (S n) (x :: delete i l)) with (x :: take n (delete i l)). f_equal. apply IH. lia.
Qed.

Lemma delete_replicate {A} i n (x : A) : (i < S n)%nat -> delete i (replicate (S n) x) = replicate n x.
Proof.
  revert i. induction n as [| n IH]; intros [| i] Hi; try done; try lia.
  change (replicate (S (S n)) x) with (x :: replicate (S n) x). rewrite delete_cons_S, IH by lia. done.
Qed.

(** The prefix sums without the [i]-th weight. *)
Lemma psums_delete l i w t :
  l !! i = Some w -> (S t < length l)%nat ->
  psums 0 (delete i l) !! t = if decide (t < i)%nat then psums 0 l !! t else (fun v => v - w) <$> psums 0 l !! S t.
Proof.
  intros Hi Ht. pose proof (lookup_lt_Some _ _ _ Hi) as Hil.
  destruct (lookup_lt_is_Some_2 (delete i l) t) as [u Hu].
  { rewrite length_delete by eauto. lia. }
  rewrite (psums_lookup _ _ _ _ Hu). case_decide as Hlt.
  - destruct (lookup_lt_is_Some_2 l t) as [v Hv]; [lia |]. rewrite (psums_lookup _ _ _ _ Hv). do 2 f_equal.
    f_equal. apply list_eq. intros j. destruct (decide (j < S t)%nat).
    + rewrite !lookup_take_lt by lia. apply list_lookup_delete_lt. lia.
    + rewrite !lookup_take_ge by lia. done.
  - destruct (lookup_lt_is_Some_2 l (S t)) as [v Hv]; [lia |]. rewrite (psums_lookup _ _ _ _ Hv). cbn [fmap option_fmap option_map].
    f_equal. rewrite take_delete by lia. rewrite (zsum_delete _ _ w); [lia |]. rewrite lookup_take_lt by lia. done.
Qed.

Definition remove_post (b : crush_bucket) (item : Z) (r : Z) (b' : crush_bucket) : Prop :=
  bucket_wf b' /\
  ((r = - ENOENT /\ b' = b /\ (item ∉ b_live b)) \/
   (exists i, first_at item (b_live b) i /\ entries b' = delete i (entries b) /\
      (r = 0 \/ (r = - ENOMEM /\ b_size b = 1)))).

(** A bucket without its [i]-th item. *)
Lemma remove_post_delete b b' item i w r :
  bucket_wf b -> 0 <= i < b_size b -> first_at item (b_live b) (Z.to_nat i) ->
  item_weights b !! Z.to_nat i = Some w ->
  b_size b' = b_size b - 1 -> b_weight b' = less_weight (b_weight b) w ->
  b_live b' = delete (Z.to_nat i) (b_live b) -> b_size b' <= zlen (b_items b') ->
  item_weights b' = delete (Z.to_nat i) (item_weights b) ->
  match b_body b' with
  | bucket_uniform w => is_u32 w
  | bucket_list _ sw => take (Z.to_nat (b_size b')) sw = psums 0 (item_weights b')
  | bucket_straw2 _ => True
  | _ => False
  end ->
  r = 0 \/ (r = - ENOMEM /\ b_size b = 1) ->
  remove_post b item r b'.
Proof.
  intros H Hi Hfirst Hw Hs Hwt Hlive Hil Hiw Hb Hr. pose proof (wf_size _ H).
  pose proof (zsum_lookup_le _ _ _ (wf_u32 _ H) Hw) as Hle. rewrite <- (wf_total _ H) in Hle.
  assert (b_weight b' = b_weight b - w) as Hwt'.
  { rewrite Hwt. unfold less_weight. destruct (Z.ltb_spec w (b_weight b)); lia. }
  assert (0 <= w) as Hw0.
  { pose proof (wf_u32 _ H) as Hu. rewrite Forall_lookup in Hu. specialize (Hu _ _ Hw). unfold is_u32 in Hu. lia. }
  pose proof (wf_len_nat _ H) as Hln. pose proof (wf_max _ H). split.
  - split; [lia | done | | | | lia | done]; rewrite Hiw.
    + unfold zlen. rewrite length_delete by eauto. lia.
    + apply Forall_delete, H.
    + rewrite (zsum_delete _ _ _ Hw), <- (wf_total _ H). done.
  - right. exists (Z.to_nat i). split; [done |]. split; [| done].
    unfold entries. rewrite Hlive, Hiw. symmetry. apply delete_zip. by rewrite live_length, Hln.
Qed.

(** Cutting an array down to a smaller, positive size. *)
Lemma realloc_cut junk l n :
  0 < n <= zlen l -> realloc junk l n = Some (take (Z.to_nat n) l).
Proof.
  intros Hn. unfold realloc. destruct (Z.leb_spec n 0); [lia |]. by rewrite seqZ_nil, app_nil_r by lia.
Qed.

Lemma realloc_none junk l n : n <= 0 -> realloc junk l n = None.
Proof. intros Hn. unfold realloc. destruct (Z.leb_spec n 0); [done | lia]. Qed.

(** A bucket of size 1 without its item is empty. *)
Lemma delete_single (l : list Z) : length l = 1%nat -> delete 0%nat l = [].
Proof. destruct l as [| x [| y l]]; done. Qed.

Lemma remove_uniform_ok junk b w item :
  bucket_wf b -> b_body b = bucket_uniform w ->
  exists r b', crush_remove_uniform_bucket_item junk b w item = Ok (r, b') /\ remove_post b item r b'.
Proof.
  intros H Hb. pose proof (wf_size _ H). pose proof (wf_items _ H) as Hil. pose proof (wf_body _ H) as Hu. rewrite Hb in Hu.
  unfold crush_remove_uniform_bucket_item.
  destruct (find_item_live b item H) as [[-> Hni] | (i & -> & Hi & Hfirst)]; cbn [mbind res_bind].
  { rewrite Z.eqb_refl. exists (- ENOENT), b. split; [done |]. split; [done |]. by left. }
  destruct (Z.eqb_spec i (b_size b)); [lia |].
  destruct (shift_past_delete junk (Z.to_nat (b_size b - i)) (b_size b) i (b_items b)) as (its & -> & Hlen & Htake);
    [done | lia | lia |].
  assert (Hiw : item_weights b = replicate (S (Z.to_nat (b_size b - 1))) w).
  { unfold item_weights. rewrite Hb. f_equal. lia. }
  assert (Hww : item_weights b !! Z.to_nat i = Some w) by (rewrite Hiw; apply lookup_replicate; split; [done | lia]).
  assert (Hiw' : replicate (Z.to_nat (b_size b - 1)) w = delete (Z.to_nat i) (item_weights b))
    by (rewrite Hiw, delete_replicate; [done | lia]).
  cbn [mbind res_bind]. cbv zeta. destruct (decide (b_size b = 1)) as [H1 | H1].
  - rewrite realloc_none by lia. eexists _, _. split; [reflexivity |].
    eapply remove_post_delete with (i := i); try done; cbn; rewrite ?H1.
    + assert (i = 0) as -> by lia. unfold b_live. cbn. change (Z.to_nat 0) with 0%nat.
      rewrite delete_single; [done |]. rewrite length_take. unfold zlen in *. lia.
    + done.
    + rewrite <- Hiw'. unfold item_weights. cbn. rewrite Hb, ?H1. done.
    + by rewrite Hb.
    + right. done.
  - rewrite realloc_cut by (unfold zlen in *; lia). eexists _, _. split; [reflexivity |].
    eapply remove_post_delete with (i := i); try done; cbn.
    + unfold b_live. cbn. rewrite take_take, Nat.min_id. done.
    + unfold zlen in *. rewrite length_take. lia.
    + rewrite <- Hiw'. unfold item_weights. cbn. by rewrite Hb.
    + by rewrite Hb.
    + by left.
Qed.

Lemma remove_straw2_ok junk b iw item :
  bucket_wf b -> b_body b = bucket_straw2 iw ->
  exists r b', crush_remove_straw2_bucket_item junk b iw item = Ok (r, b') /\ remove_post b item r b'.
Proof.
  intros H Hb. pose proof (wf_size _ H). pose proof (wf_items _ H) as Hil. pose proof (wf_len_nat _ H) as Hln.
  assert (Hiw : item_weights b = take (Z.to_nat (b_size b)) iw) by (unfold item_weights; by rewrite Hb).
  assert (b_size b <= zlen iw) as Hl by (rewrite Hiw, length_take in Hln; unfold zlen; lia).
  unfold crush_remove_straw2_bucket_item. cbv zeta.
  destruct (find_item_live b item H) as [[-> Hni] | (i & -> & Hi & Hfirst)]; cbn [mbind res_bind].
  { rewrite Z.eqb_refl. exists (- ENOENT), b. split; [done |]. split; [done |]. by left. }
  destruct (Z.eqb_spec i (b_size b)); [lia |].
  destruct (rd_in_range iw i) as [w Hw]; [lia |]. rewrite Hw. cbn [mbind res_bind]. apply rd_Ok in Hw as [_ Hw].
  assert (Hww : item_weights b !! Z.to_nat i = Some w) by (rewrite Hiw, lookup_take_lt by lia; done).
  destruct (shift_past_delete junk (Z.to_nat (b_size b - 1 - i)) (b_size b) i (b_items b)) as (its & -> & Hlen & Htake);
    [done | lia | lia |].
  destruct (shift_past_delete junk (Z.to_nat (b_size b - 1 - i)) (b_size b) i iw) as (iw' & -> & Hlen2 & Htake2);
    [done | lia | lia |].
  cbn [mbind res_bind]. destruct (Z.eqb_spec (b_size b - 1) 0) as [H1 | H1].
  - eexists _, _. split; [reflexivity |].
    eapply remove_post_delete with (i := i); try done; cbn; [unfold zlen in *; lia | | by left].
    unfold item_weights. cbn. rewrite Hb, Htake2. done.
  - rewrite !realloc_cut by (unfold zlen in *; lia). eexists _, _. split; [reflexivity |].
    eapply remove_post_delete with (i := i); try done; cbn.
    + unfold b_live. cbn. rewrite take_take, Nat.min_id. done.
    + unfold zlen in *. rewrite length_take. lia.
    + unfold item_weights. cbn. rewrite take_take, Nat.min_id, Hb, Htake2. done.
    + by left.
Qed.

(** The shifted prefix sums are the prefix sums of the remaining weights. *)
Lemma shift_sums_psums junk l sw n i w :
  Forall is_u32 l -> zsum l < 2 ^ 32 -> length l = Z.to_nat n -> 0 <= i < n -> n <= zlen sw ->
  take (Z.to_nat n) sw = psums 0 l -> l !! Z.to_nat i = Some w ->
  exists sw', shift_sums junk (Z.to_nat (n - i)) i w sw = Ok sw' /\ length sw' = length sw /\
    take (Z.to_nat (n - 1)) sw' = psums 0 (delete (Z.to_nat i) l).
Proof.
  intros Hu Hmax Hl Hi Hn Hps Hw. destruct (shift_sums_Ok junk n i w sw Hi Hn) as (sw' & Hs & Hlen & Hlk).
  exists sw'. split; [done |]. split; [done |]. apply list_eq. intros t. unfold zlen in *.
  destruct (decide (Z.of_nat t < n - 1)) as [Ht | Ht].
  2: { rewrite lookup_take_ge by lia. symmetry. apply lookup_ge_None. rewrite length_psums, length_delete by eauto. lia. }
  rewrite lookup_take_lt by lia. rewrite Hlk by done. rewrite (psums_delete _ _ w) by (try done; lia).
  destruct (decide (Z.of_nat t < i)) as [Hti | Hti].
  - rewrite decide_True by lia. rewrite <- Hps, lookup_take_lt by lia. done.
  - rewrite decide_False by lia.
    assert (sw !! S t = psums 0 l !! S t) as -> by (rewrite <- Hps, lookup_take_lt by lia; done).
    destruct (lookup_lt_is_Some_2 l (S t)) as [v Hv]; [lia |]. rewrite (psums_lookup _ _ _ _ Hv).
    cbn [fmap option_fmap option_map]. f_equal. apply u32_id.
    assert (Hw' : take (S (S t)) l !! Z.to_nat i = Some w) by (rewrite lookup_take_lt by lia; done).
    pose proof (zsum_lookup_le _ _ _ (Forall_take _ (S (S t)) l Hu) Hw').
    assert (zsum (take (S (S t)) l) <= zsum l).
    { rewrite <- (take_drop (S (S t)) l) at 2. rewrite zsum_app.
      pose proof (zsum_nonneg _ (Forall_drop _ (S (S t)) l Hu)). lia. }
    rewrite Forall_lookup in Hu. specialize (Hu _ _ Hw). unfold is_u32 in *. lia.
Qed.

Lemma remove_list_ok junk b iw sw item :
  bucket_wf b -> b_body b = bucket_list iw sw ->
  exists r b', crush_remove_list_bucket_item junk b iw sw item = Ok (r, b') /\ remove_post b item r b'.
Proof.
  intros H Hb. pose proof (wf_size _ H). pose proof (wf_items _ H) as Hil. pose proof (wf_len_nat _ H) as Hln.
  pose proof (wf_body _ H) as Hbody. rewrite Hb in Hbody.
  assert (Hiw : item_weights b = take (Z.to_nat (b_size b)) iw) by (unfold item_weights; by rewrite Hb).
  assert (b_size b <= zlen iw) as Hl by (rewrite Hiw, length_take in Hln; unfold zlen; lia).
  assert (b_size b <= zlen sw) as Hls.
  { apply (f_equal length) in Hbody. rewrite length_psums, length_take, Hln in Hbody. unfold zlen. lia. }
  unfold crush_remove_list_bucket_item.
  destruct (find_item_live b item H) as [[-> Hni] | (i & -> & Hi & Hfirst)]; cbn [mbind res_bind].
  { rewrite Z.eqb_refl. exists (- ENOENT), b. split; [done |]. split; [done |]. by left. }
  destruct (Z.eqb_spec i (b_size b)); [lia |].
  destruct (rd_in_range iw i) as [w Hw]; [lia |]. rewrite Hw. cbn [mbind res_bind]. apply rd_Ok in Hw as [_ Hw].
  assert (Hww : item_weights b !! Z.to_nat i = Some w) by (rewrite Hiw, lookup_take_lt by lia; done).
  destruct (shift_past_delete junk (Z.to_nat (b_size b - i)) (b_size b) i (b_items b)) as (its & -> & Hlen & Htake);
    [done | lia | lia |].
  destruct (shift_past_delete junk (Z.to_nat (b_size b - i)) (b_size b) i iw) as (iw' & -> & Hlen2 & Htake2);
    [done | lia | lia |].
  destruct (shift_sums_psums junk (item_weights b) sw (b_size b) i w) as (sw' & -> & Hlen3 & Htake3);
    [apply H | rewrite <- (wf_total _ H); apply H | done | done | done | done | done |].
  cbn [mbind res_bind]. cbv zeta. unfold zlen in *. rewrite <- Hiw in Htake2.
  destruct (decide (b_size b = 1)) as [H1 | H1].
  - rewrite realloc_none by lia. eexists _, _. split; [reflexivity |].
    eapply remove_post_delete with (i := i); try done; cbn.
    + unfold b_live at 1. cbn. rewrite H1. assert (i = 0) as -> by lia. change (Z.to_nat 0) with 0%nat.
      rewrite delete_single; [done |]. rewrite live_length by done. lia.
    + unfold zlen. cbn. lia.
    + by rewrite Htake3, <- Htake2.
    + right. done.
  - rewrite !realloc_cut by (unfold zlen; lia). eexists _, _. split; [reflexivity |].
    eapply remove_post_delete with (i := i); try done; cbn.
    + unfold b_live. cbn. rewrite take_take, Nat.min_id. done.
    + unfold zlen in *. rewrite length_take. lia.
    + unfold item_weights at 1. cbn. rewrite take_take, Nat.min_id. done.
    + rewrite !take_take, !Nat.min_id, Htake3, <- Htake2. done.
    + by left.
Qed.

(** ** Adjusting *)

Lemma u32_add_s32 a d : u32 (a + s32 d) = u32 (a + d).
Proof.
  apply u32_mod_eq. unfold s32. Z.to_euclidean_division_equations. lia.
Qed.

(** The sums after position [j] grow by [diff]. *)
Lemma add_sums_Ok n j d sw :
  0 <= j -> j + Z.of_nat n <= zlen sw ->
  exists sw', add_sums n j d sw = Ok sw' /\ length sw' = length sw /\
    forall t, sw' !! t = if decide (j <= Z.of_nat t < j + Z.of_nat n)
                         then (fun v => u32 (v + d)) <$> sw !! t else sw !! t.
Proof.
  revert j sw. induction n as [| n IH]; intros j sw Hj Hl; cbn [add_sums].
  { exists sw. split; [done |]. split; [done |]. intros t. case_decide; [lia | done]. }
  destruct (rd_in_range sw j) as [v Hv]; [lia |]. rewrite Hv. cbn [mbind res_bind].
  assert (Hw : wr sw j (u32 (v + d)) = Ok (<[Z.to_nat j := u32 (v + d)]> sw)) by (apply wr_Ok; split; [lia | done]).
  rewrite Hw. cbn [mbind res_bind]. apply rd_Ok in Hv as [_ Hv]. unfold zlen in *.
  destruct (IH (j + 1) (<[Z.to_nat j := u32 (v + d)]> sw)) as (sw' & Hs & Hlen & Hlk); [lia | rewrite length_insert; lia |].
  exists sw'. split; [done |]. rewrite length_insert in Hlen. split; [done |]. intros t. rewrite Hlk.
  destruct (decide (Z.of_nat t = j)) as [<- | Hne].
  - rewrite decide_False, decide_True by lia. rewrite Nat2Z.id in Hv |- *.
    rewrite list_lookup_insert_eq by (by eapply lookup_lt_Some). by rewrite Hv.
  - rewrite list_lookup_insert_ne by lia.
    destruct (decide (j <= Z.of_nat t < j + Z.of_nat (S n))); [rewrite decide_True by lia | rewrite decide_False by lia]; done.
Qed.

Lemma add_sums_psums l sw n i w v :
  Forall is_u32 l -> zsum l - w + v < 2 ^ 32 -> is_u32 v -> length l = Z.to_nat n -> 0 <= i < n -> n <= zlen sw ->
  take (Z.to_nat n) sw = psums 0 l -> l !! Z.to_nat i = Some w ->
  exists sw', add_sums (Z.to_nat (n - i)) i (s32 (v - w)) sw = Ok sw' /\
    take (Z.to_nat n) sw' = psums 0 (<[Z.to_nat i := v]> l).
Proof.
  intros Hu Hmax Hv Hl Hi Hn Hps Hw.
  destruct (add_sums_Ok (Z.to_nat (n - i)) i (s32 (v - w)) sw) as (sw' & Hs & Hlen & Hlk); [lia | lia |].
  exists sw'. split; [done |]. apply list_eq. intros t. unfold zlen in *.
  destruct (decide (Z.of_nat t < n)) as [Ht | Ht].
  2: { rewrite lookup_take_ge by lia. symmetry. apply lookup_ge_None. rewrite length_psums, length_insert. lia. }
  rewrite lookup_take_lt by lia. rewrite Hlk.
  destruct (lookup_lt_is_Some_2 l t) as [u Hut]; [lia |].
  destruct (lookup_lt_is_Some_2 (<[Z.to_nat i := v]> l) t) as [u' Hut']; [rewrite length_insert; lia |].
  rewrite (psums_lookup _ _ _ _ Hut').
  assert (sw !! t = Some (zsum (take (S t) l))) as ->.
  { rewrite <- (lookup_take_lt sw (Z.to_nat n)) by lia. rewrite Hps, (psums_lookup _ _ _ _ Hut). done. }
  destruct (decide (Z.of_nat t < i)) as [Hti | Hti].
  - rewrite decide_False by lia. rewrite take_insert_ge by lia. done.
  - rewrite decide_True by lia. cbn [fmap option_fmap option_map]. f_equal. rewrite u32_add_s32.
    rewrite take_insert_lt by lia.
    assert (Hw' : take (S t) l !! Z.to_nat i = Some w) by (rewrite lookup_take_lt by lia; done).
    rewrite (zsum_insert _ _ w) by done. rewrite u32_id; [lia |].
    pose proof (zsum_lookup_le _ _ _ (Forall_take _ (S t) l Hu) Hw').
    assert (zsum (take (S t) l) <= zsum l).
    { rewrite <- (take_drop (S t) l) at 2. rewrite zsum_app.
      pose proof (zsum_nonneg _ (Forall_drop _ (S t) l Hu)). lia. }
    unfold is_u32 in *. lia.
Qed.

Definition adjust_post (b : crush_bucket) (item weight : Z) (r : Z) (b' : crush_bucket) : Prop :=
  (r = 0 /\ b' = b /\ (item ∉ b_live b)) \/
  (exists i w, first_at item (b_live b) i /\ item_weights b !! i = Some w /\ r = s32 (weight - w) /\
     (b_weight b - w + u32 weight < 2 ^ 32 ->
        bucket_wf b' /\ entries b' = <[i := (item, u32 weight)]> (entries b))).

Lemma insert_zip {A B} i (l : list A) (k : list B) x y :
  l !! i = Some x -> <[i := (x, y)]> (zip l k) = zip l (<[i := y]> k).
Proof.
  revert i k. induction l as [| a l IH]; intros [| i] [| c k] H; try done; cbn in H; simplify_eq; [done |].
  change (<[S i := (x, y)]> (zip (a :: l) (c :: k))) with ((a, c) :: <[i := (x, y)]> (zip l k)).
  change (<[S i := y]> (c :: k)) with (c :: <[i := y]> k). cbn [zip zip_with]. f_equal. by apply IH.
Qed.

(** A bucket with the weight of its [i]-th item replaced. *)
Lemma adjust_post_insert b b' item weight i w :
  bucket_wf b -> 0 <= i < b_size b -> first_at item (b_live b) (Z.to_nat i) ->
  item_weights b !! Z.to_nat i = Some w ->
  b_size b' = b_size b -> b_items b' = b_items b -> b_weight b' = u32 (b_weight b + s32 (weight - w)) ->
  item_weights b' = <[Z.to_nat i := u32 weight]> (item_weights b) ->
  (b_weight b - w + u32 weight < 2 ^ 32 -> match b_body b' with
  | bucket_list _ sw => take (Z.to_nat (b_size b')) sw = psums 0 (item_weights b')
  | bucket_straw2 _ => True
  | _ => False
  end) ->
  adjust_post b item weight (s32 (weight - w)) b'.
Proof.
  intros H Hi Hfirst Hw Hs Hit Hwt Hiw Hb. right. exists (Z.to_nat i), w.
  split; [done |]. split; [done |]. split; [done |]. intros Hmax.
  pose proof (wf_size _ H). pose proof (wf_items _ H). pose proof (wf_len_nat _ H) as Hln.
  pose proof (zsum_lookup_le _ _ _ (wf_u32 _ H) Hw) as Hle. rewrite <- (wf_total _ H) in Hle.
  pose proof (u32_range weight) as Hwr.
  assert (b_weight b' = b_weight b - w + u32 weight) as Hwt'.
  { rewrite Hwt, u32_add_s32. transitivity (u32 (b_weight b - w + u32 weight)); [| apply u32_id; unfold is_u32 in *; lia].
    apply u32_mod_eq. unfold u32. Z.to_euclidean_division_equations. lia. }
  split.
  - split; rewrite ?Hs, ?Hit, ?Hiw; [lia | lia | | | | lia |].
    + unfold zlen in *. rewrite length_insert. lia.
    + apply Forall_insert; [apply H | done].
    + rewrite (zsum_insert _ _ w), <- (wf_total _ H) by done. done.
    + specialize (Hb Hmax). rewrite Hs, Hiw in Hb. by destruct (b_body b').
  - unfold entries, b_live in *. rewrite Hs, Hit, Hiw. symmetry. apply insert_zip. apply Hfirst.
Qed.

Lemma s32_u32_sub a w : s32 (u32 a - w) = s32 (a - w).
Proof. unfold s32, u32. Z.to_euclidean_division_equations. lia. Qed.

Lemma adjust_straw2_ok b iw item weight :
  bucket_wf b -> b_body b = bucket_straw2 iw ->
  exists r b', crush_adjust_straw2_bucket_item_weight b iw item weight = Ok (r, b') /\
    adjust_post b item weight r b'.
Proof.
  intros H Hb. pose proof (wf_size _ H). pose proof (wf_len_nat _ H) as Hln.
  assert (Hiw : item_weights b = take (Z.to_nat (b_size b)) iw) by (unfold item_weights; by rewrite Hb).
  assert (b_size b <= zlen iw) as Hl by (rewrite Hiw, length_take in Hln; unfold zlen; lia).
  unfold crush_adjust_straw2_bucket_item_weight.
  destruct (find_item_live b item H) as [[-> Hni] | (i & -> & Hi & Hfirst)]; cbn [mbind res_bind].
  { rewrite Z.eqb_refl. exists 0, b. split; [done |]. by left. }
  destruct (Z.eqb_spec i (b_size b)); [lia |].
  destruct (rd_in_range iw i) as [w Hw]; [lia |]. rewrite Hw. cbn [mbind res_bind]. apply rd_Ok in Hw as [_ Hw].
  assert (Hwr : wr iw i (u32 weight) = Ok (<[Z.to_nat i := u32 weight]> iw)) by (apply wr_Ok; split; [lia | done]).
  rewrite Hwr. cbn [mbind res_bind]. eexists _, _. split; [reflexivity |].
  apply adjust_post_insert with i; try done.
  - rewrite Hiw, lookup_take_lt by lia. done.
  - rewrite Hiw. unfold item_weights. cbn. apply take_insert_lt. lia.
Qed.

Lemma adjust_list_ok b iw sw item weight :
  bucket_wf b -> b_body b = bucket_list iw sw ->
  (forall i w, first_at item (b_live b) i -> item_weights b !! i = Some w -> b_weight b - w + u32 weight < 2 ^ 32) ->
  exists r b', crush_adjust_list_bucket_item_weight b iw sw item weight = Ok (r, b') /\
    adjust_post b item weight r b'.
Proof.
  intros H Hb Hmax. pose proof (wf_size _ H). pose proof (wf_len_nat _ H) as Hln.
  pose proof (wf_body _ H) as Hbody. rewrite Hb in Hbody.
  assert (Hiw : item_weights b = take (Z.to_nat (b_size b)) iw) by (unfold item_weights; by rewrite Hb).
  assert (b_size b <= zlen iw) as Hl by (rewrite Hiw, length_take in Hln; unfold zlen; lia).
  assert (b_size b <= zlen sw) as Hls.
  { apply (f_equal length) in Hbody. rewrite length_psums, length_take, Hln in Hbody. unfold zlen. lia. }
  unfold crush_adjust_list_bucket_item_weight.
  destruct (find_item_live b item H) as [[-> Hni] | (i & -> & Hi & Hfirst)]; cbn [mbind res_bind].
  { rewrite Z.eqb_refl. exists 0, b. split; [done |]. by left. }
  destruct (Z.eqb_spec i (b_size b)); [lia |].
  destruct (rd_in_range iw i) as [w Hw]; [lia |]. rewrite Hw. cbn [mbind res_bind]. apply rd_Ok in Hw as [_ Hw].
  assert (Hww : item_weights b !! Z.to_nat i = Some w) by (rewrite Hiw, lookup_take_lt by lia; done).
  assert (Hwr : wr iw i (u32 weight) = Ok (<[Z.to_nat i := u32 weight]> iw)) by (apply wr_Ok; split; [lia | done]).
  rewrite Hwr. cbn [mbind res_bind].
  destruct (add_sums_psums (item_weights b) sw (b_size b) i w (u32 weight)) as (sw' & Hs & Htake); try done.
  { apply H. }
  { rewrite <- (wf_total _ H). by eapply Hmax. }
  { apply u32_range. }
  rewrite s32_u32_sub in Hs. rewrite Hs. cbn [mbind res_bind]. eexists _, _. split; [reflexivity |].
  apply adjust_post_insert with i; try done.
  - rewrite Hiw. unfold item_weights. cbn. apply take_insert_lt. lia.
  - intros _. cbn. rewrite Htake, Hiw. by rewrite take_insert_lt by lia.
Qed.

(** ** Theorems *)

(** Adding an item to a well-formed uniform, list or straw2 bucket: the
    call always returns, and the bucket stays well formed.  On success the item
    and its weight are appended to the bucket's entries; when the total would
    leave 32 bits it returns [-ERANGE], and for a uniform bucket with another item
    weight [-EINVAL], and the entries are what they were.  Uninitialised memory
    does not matter. *)
Theorem add_item_refines pow junk m b item weight :
  bucket_wf b -> b_size b + 1 < 2 ^ 31 ->
  exists r b', crush_bucket_add_item pow junk m b item weight = Ok (r, b') /\ add_post b item weight r b'.
Proof.
  intros H Hs. pose proof (wf_body _ H) as Hb. unfold crush_bucket_add_item.
  destruct (b_body b) eqn:E; try done;
    [by apply add_uniform_ok | by apply add_list_ok | by apply add_straw2_ok].
Qed.

(** Removing an item from a well-formed uniform, list or straw2 bucket: the
    call returns and the bucket stays well formed.  An unknown item gives
    [-ENOENT] and no change; otherwise the first entry with that item is deleted
    and the total and the prefix sums follow.  The out-of-bounds reads of the
    shifting loops do not influence the result.  Only when the last item goes can
    the call report [-ENOMEM] although it has removed it. *)
Theorem remove_item_refines pow junk m b item :
  bucket_wf b ->
  exists r b', crush_bucket_remove_item pow junk m b item = Ok (r, b') /\ remove_post b item r b'.
Proof.
  intros H. pose proof (wf_body _ H) as Hb. unfold crush_bucket_remove_item.
  destruct (b_body b) eqn:E; try done;
    [by apply remove_uniform_ok | by apply remove_list_ok | by apply remove_straw2_ok].
Qed.

(** Adjusting the weight of an item of a well-formed list or straw2 bucket,
    when the new total fits in 32 bits: the first entry with that item gets the
    new weight, the returned difference is the new weight less the old one, and
    total and prefix sums are right again; an unknown item changes nothing. *)
Theorem adjust_item_refines pow m b item weight :
  bucket_wf b -> (forall w, b_body b <> bucket_uniform w) ->
  (forall i w, first_at item (b_live b) i -> item_weights b !! i = Some w -> b_weight b - w + u32 weight < 2 ^ 32) ->
  exists r b', crush_bucket_adjust_item_weight pow m b item weight = Ok (r, b') /\
    adjust_post b item weight r b'.
Proof.
  intros H Hu Hmax. pose proof (wf_body _ H) as Hb. unfold crush_bucket_adjust_item_weight.
  destruct (b_body b) eqn:E; try done;
    [by destruct (Hu item_weight) | by apply adjust_list_ok | by apply adjust_straw2_ok].
Qed.

(** What the editor maintains is what the mapper needs: a well-formed bucket
    satisfies the preconditions of the choose methods, and for a list bucket the
    prefix sums are consistent with the item weights, so that the choice by
    weight does not fall through to its fallback. *)
Theorem builder_meets_mapper b :
  bucket_wf b ->
  bucket_ok b /\
  forall iw sw, b_body b = bucket_list iw sw ->
    list_sums_ok (b_size b) (item_weights b) (take (Z.to_nat (b_size b)) sw).
Proof.
  intros H. pose proof (wf_size _ H). pose proof (wf_items _ H). pose proof (wf_len_nat _ H) as Hln.
  pose proof (wf_body _ H) as Hb. pose proof (wf_u32 _ H) as Hu. split.
  - split; [unfold is_u32; lia |]. split; [done |]. unfold item_weights in Hln, Hb, Hu.
    destruct (b_body b) as [w | iw sw | | | iw |]; try done.
    + apply (f_equal length) in Hb. rewrite length_psums, Hln, length_take in Hb. rewrite length_take in Hln.
      unfold zlen. lia.
    + split; [| done]. rewrite length_take in Hln. unfold zlen. lia.
  - intros iw sw E. rewrite E in Hb. rewrite Hb. unfold zlen.
    split; [unfold zlen; lia |]. split; [unfold zlen; rewrite length_psums; lia |]. split; [done |].
    assert (Hval : forall i w, item_weights b !! i = Some w ->
      tz (psums 0 (item_weights b)) (Z.of_nat i) = zsum (take (S i) (item_weights b))).
    { intros i w Hw. unfold tz. rewrite Nat2Z.id, (psums_lookup _ _ _ _ Hw). done. }
    split.
    + apply Forall_lookup. intros i v Hv. pose proof (lookup_lt_Some _ _ _ Hv) as Hi. rewrite length_psums in Hi.
      destruct (lookup_lt_is_Some_2 (item_weights b) i) as [w Hw]; [done |].
      rewrite (psums_lookup _ _ _ _ Hw) in Hv. injection Hv as <-. pose proof (wf_max _ H). pose proof (wf_total _ H).
      pose proof (zsum_nonneg _ (Forall_take _ (S i) _ Hu)). pose proof (zsum_nonneg _ (Forall_drop _ (S i) _ Hu)).
      pose proof (zsum_app (take (S i) (item_weights b)) (drop (S i) (item_weights b))) as Ha.
      rewrite take_drop in Ha. unfold is_u32. lia.
    + intros i Hi. destruct (lookup_lt_is_Some_2 (item_weights b) (Z.to_nat i)) as [w Hw]; [lia |].
      pose proof (Hval _ _ Hw) as Hv. rewrite Z2Nat.id in Hv by lia. rewrite Hv.
      assert (tz (item_weights b) i = w) as -> by (unfold tz; by rewrite Hw).
      rewrite (take_S_r _ _ _ Hw), zsum_app. cbn [zsum foldr]. destruct (Z.eqb_spec i 0) as [-> | Hne]; [change (Z.to_nat 0) with 0%nat; rewrite take_0; cbn; lia |].
      destruct (lookup_lt_is_Some_2 (item_weights b) (Z.to_nat (i - 1))) as [u Hu']; [lia |].
      pose proof (Hval _ _ Hu') as Hv'. rewrite Z2Nat.id in Hv' by lia. rewrite Hv'.
      replace (S (Z.to_nat (i - 1))) with (Z.to_nat i) by lia. lia.
Qed.

Lemma ex_list_wf : bucket_wf ex_list.
Proof. split; try done; repeat constructor; unfold is_u32; cbn; lia. Qed.

Lemma add_item_refines_witness :
  exists r b', crush_bucket_add_item (fun a _ => a) (fun _ => 7) crush_create ex_list 9 0x10000 = Ok (r, b') /\
    add_post ex_list 9 0x10000 r b'.
Proof. apply (add_item_refines (fun a _ => a) (fun _ => 7) crush_create ex_list 9 0x10000); [apply ex_list_wf | done]. Defined.

Lemma remove_item_refines_witness :
  exists r b', crush_bucket_remove_item (fun a _ => a) (fun _ => 7) crush_create ex_list 7 = Ok (r, b') /\
    remove_post ex_list 7 r b'.
Proof. apply (remove_item_refines (fun a _ => a) (fun _ => 7) crush_create ex_list 7), ex_list_wf. Defined.

Lemma adjust_item_refines_witness :
  exists r b', crush_bucket_adjust_item_weight (fun a _ => a) crush_create ex_list 7 0x8000 = Ok (r, b') /\
    adjust_post ex_list 7 0x8000 r b'.
Proof.
  apply (adjust_item_refines (fun a _ => a) crush_create ex_list 7 0x8000); [apply ex_list_wf | done |].
  intros [| [| [| i]]] w _ Hw; vm_compute in Hw; simplify_eq; reflexivity.
Defined.

Lemma builder_meets_mapper_witness :
  bucket_ok ex_list /\
  forall iw sw, b_body ex_list = bucket_list iw sw ->
    list_sums_ok 3 [0x10000; 0; 0x20000] (take 3 sw).
Proof. apply (builder_meets_mapper ex_list), ex_list_wf. Defined.
