(* ===== verification/CrushMapBuild.v ===== *)
(** * Assembling a map: bucket positions, finalisation, the workspace

    [crush_add_bucket] keeps every bucket at the position its id names, and
    never moves or loses another bucket.  [crush_finalize] computes a device
    bound and a workspace size that the mapper's initialisation agrees with:
    a finalised map always gets a valid workspace. *)

From S2P Require Import Prelude CrushHash CrushLn CrushTypes CrushChoose CrushPerm CrushChooseSpec CrushTree CrushMapper CrushMapSpec CrushBuilder.

(** A bucket sits at the position that its id names. *)
Definition ids_ok (m : crush_map) : Prop :=
  forall i b, buckets m !! i = Some (Some b) -> b_id b = -1 - Z.of_nat i.

Definition occupied (m : crush_map) (pos : Z) (b : crush_bucket) : Prop :=
  buckets m !! Z.to_nat pos = Some (Some b).

(** ** Adding buckets *)

Lemma first_null_le {A} (l : list (option A)) : 0 <= first_null l <= zlen l.
Proof. unfold zlen. induction l as [| [x |] l IH]; cbn [first_null length]; lia. Qed.

Lemma first_null_free {A} (l : list (option A)) x :
  l !! Z.to_nat (first_null l) = Some (Some x) -> False.
Proof.
  induction l as [| [y |] l IH]; cbn [first_null]; [done | | done].
  pose proof (first_null_le l). replace (Z.to_nat (1 + first_null l)) with (S (Z.to_nat (first_null l))) by lia. done.
Qed.

(** Growing only appends NULL entries, and reaches the position. *)
Lemma grow_buckets_Ok fuel pos bs :
  0 < zlen bs -> pos < zlen bs * 2 ^ Z.of_nat fuel -> pos < 2 ^ 30 ->
  exists k, grow_buckets (S fuel) pos bs = Ok (bs ++ replicate k None) /\ pos < zlen (bs ++ replicate k (None : option crush_bucket)).
Proof.
  revert bs. induction fuel as [| fuel IH]; intros bs Hl Hp Hmax; cbn [grow_buckets];
    destruct (Z.leb_spec (zlen bs) pos) as [Hle | Hgt].
  - change (2 ^ Z.of_nat 0) with 1 in Hp. lia.
  - exists 0%nat. cbn [replicate]. by rewrite app_nil_r.
  - destruct (Z.eqb_spec (zlen bs) 0); [lia |]. cbn [negb]. destruct (Z.leb_spec (2 ^ 31) (zlen bs * 2)); [lia |].
    set (bs1 := bs ++ replicate (Z.to_nat (zlen bs * 2 - zlen bs)) None).
    assert (zlen bs1 = zlen bs * 2) as Hz1.
    { subst bs1. unfold zlen in *. rewrite length_app, length_replicate. lia. }
    destruct (IH bs1) as (k & Hk & Hpos); [lia | | done |].
    { rewrite Hz1. replace (Z.of_nat (S fuel)) with (Z.succ (Z.of_nat fuel)) in Hp by lia.
      rewrite Z.pow_succ_r in Hp by lia. lia. }
    cbn [grow_buckets] in Hk. rewrite Hk. exists (Z.to_nat (zlen bs * 2 - zlen bs) + k)%nat.
    subst bs1. rewrite <- app_assoc, <- replicate_add in Hpos |- *. done.
  - exists 0%nat. cbn [replicate]. by rewrite app_nil_r.
Qed.

Lemma grow_buckets_empty fuel pos :
  0 <= pos -> grow_buckets (S fuel) pos [] = grow_buckets fuel pos (replicate 8 None).
Proof.
  intros Hp. cbn [grow_buckets].
  destruct (Z.leb_spec (zlen (A := option crush_bucket) []) pos) as [_ | Hgt]; [done |].
  change (zlen []) with 0 in Hgt. lia.
Qed.

Lemma grow_buckets_fuel pos bs :
  0 <= pos < 2 ^ 30 ->
  exists k, grow_buckets 32 pos bs = Ok (bs ++ replicate k None) /\ pos < zlen (bs ++ replicate k (None : option crush_bucket)).
Proof.
  intros Hp. destruct bs as [| b bs].
  - destruct (grow_buckets_Ok 30 pos (replicate 8 None)) as (k & Hk & Hpos); [done | | lia |].
    { transitivity (2 ^ 30); [lia | done]. }
    exists (8 + k)%nat. rewrite replicate_add, app_nil_l. split; [| exact Hpos].
    rewrite grow_buckets_empty by lia. exact Hk.
  - apply (grow_buckets_Ok 31); [unfold zlen; cbn [length]; lia | | lia].
    assert (1 <= zlen (b :: bs)) by (unfold zlen; cbn [length]; lia).
    assert (2 ^ Z.of_nat 31 = 2 ^ 31) as -> by done. lia.
Qed.

Lemma lookup_pad {A} (l : list (option A)) k i x :
  (l ++ replicate k None) !! i = Some (Some x) <-> l !! i = Some (Some x).
Proof.
  rewrite lookup_app. destruct (l !! i) eqn:E; [done |]. split; [| done].
  intros H. apply lookup_replicate in H as [? _]. done.
Qed.

(** Adding a bucket to a map whose buckets sit where their ids say: the call
    returns; either the chosen position was free, and afterwards it holds the
    bucket under that id, or a bucket was there and the call reports [-EEXIST];
    in both cases every other bucket is where it was, and the positions still
    agree with the ids.  With id 0 a free position is always found. *)
Theorem add_bucket_correct m id b :
  ids_ok m -> id <= 0 -> - 2 ^ 30 <= id -> zlen (buckets m) < 2 ^ 30 ->
  exists r m' idout, crush_add_bucket m id b = Ok (r, m', idout) /\ ids_ok m' /\
    ((exists id', r = 0 /\ idout = Some id' /\ (id <> 0 -> id' = id) /\ id' < 0 /\
        (forall c, ~ occupied m (-1 - id') c) /\ occupied m' (-1 - id') (set_id b id') /\
        (forall pos c, pos <> -1 - id' -> 0 <= pos -> (occupied m' pos c <-> occupied m pos c))) \/
     (r = - EEXIST /\ idout = None /\ id <> 0 /\ (exists c, occupied m (-1 - id) c) /\
        (forall pos c, occupied m' pos c <-> occupied m pos c))).
Proof.
  intros Hids Hneg Hlow Hlen. unfold crush_add_bucket. cbv zeta.
  set (id' := if id =? 0 then crush_get_next_bucket_id m else id).
  pose proof (first_null_le (buckets m)) as Hfn.
  assert (id' < 0 /\ 0 <= -1 - id' < 2 ^ 30) as [Hid' Hb'].
  { subst id'. unfold crush_get_next_bucket_id. destruct (Z.eqb_spec id 0); lia. }
  destruct (grow_buckets_fuel (-1 - id') (buckets m) Hb') as (k & -> & Hpos). cbn [mbind res_bind].
  set (bs := buckets m ++ replicate k None) in *.
  destruct (rd_in_range bs (-1 - id')) as [old Hold]; [lia |]. rewrite Hold. cbn [mbind res_bind].
  apply rd_Ok in Hold as [_ Hold]. unfold occupied. destruct old as [c |].
  - eexists _, _, _. split; [reflexivity |]. apply lookup_pad in Hold.
    split; [intros i d Hd; cbn in Hd; apply lookup_pad in Hd; by apply Hids |]. right.
    split; [done |]. split; [done |]. subst id'. destruct (Z.eqb_spec id 0) as [-> | Hnz].
    + exfalso. unfold crush_get_next_bucket_id in Hold.
      replace (-1 - (-1 - first_null (buckets m))) with (first_null (buckets m)) in Hold by lia.
      by eapply first_null_free.
    + split; [done |]. split; [eauto |]. intros pos d. cbn. apply lookup_pad.
  - assert (Hw : wr bs (-1 - id') (Some (set_id b id')) = Ok (<[Z.to_nat (-1 - id') := Some (set_id b id')]> bs))
      by (apply wr_Ok; split; [lia | done]).
    rewrite Hw. cbn [mbind res_bind]. eexists _, _, _. split; [reflexivity |]. cbn [buckets set_buckets].
    assert (Hfree : forall c, buckets m !! Z.to_nat (-1 - id') <> Some (Some c)).
    { intros c Hc. apply (lookup_pad _ k) in Hc. fold bs in Hc. congruence. }
    split.
    + intros i d Hd. cbn in Hd. destruct (decide (i = Z.to_nat (-1 - id'))) as [-> | Hne].
      * rewrite list_lookup_insert_eq in Hd by (unfold zlen in Hpos; lia). injection Hd as <-. cbn. lia.
      * rewrite list_lookup_insert_ne in Hd by done. apply lookup_pad in Hd. by apply Hids.
    + left. exists id'. split; [done |]. split; [done |].
      split; [intros Hnz; subst id'; by destruct (Z.eqb_spec id 0) |]. split; [done |]. split; [done |].
      split; [apply list_lookup_insert_eq; unfold zlen in Hpos; lia |].
      intros pos c Hne Hp0. rewrite list_lookup_insert_ne by lia. apply lookup_pad.
Qed.

Lemma add_bucket_correct_witness :
  exists r m' idout, crush_add_bucket ex_map 0 (ex_host 0 6) = Ok (r, m', idout) /\ ids_ok m' /\
    ((exists id', r = 0 /\ idout = Some id' /\ (0 <> 0 -> id' = 0) /\ id' < 0 /\
        (forall c, ~ occupied ex_map (-1 - id') c) /\ occupied m' (-1 - id') (set_id (ex_host 0 6) id') /\
        (forall pos c, pos <> -1 - id' -> 0 <= pos -> (occupied m' pos c <-> occupied ex_map pos c))) \/
     (r = - EEXIST /\ idout = None /\ 0 <> 0 /\ (exists c, occupied ex_map (-1 - 0) c) /\
        (forall pos c, occupied m' pos c <-> occupied ex_map pos c))).
Proof.
  apply (add_bucket_correct ex_map 0 (ex_host 0 6)); [exact (mo_id _ _ ex_map_ok) | done | done | done].
Defined.

(** ** Finalisation *)

(** The workspace bytes of the buckets. *)
Fixpoint work_bytes (bs : list (option crush_bucket)) : Z :=
  match bs with
  | [] => 0
  | None :: bs => work_bytes bs
  | Some b :: bs => 16 + b_size b * 4 + work_bytes bs
  end.

Definition items_ok (b : crush_bucket) : Prop :=
  0 <= b_size b <= zlen (b_items b) /\ Forall (fun it => it < 2 ^ 31 - 1) (b_items b).

Definition all_items_ok (bs : list (option crush_bucket)) : Prop :=
  forall i b, bs !! i = Some (Some b) -> items_ok b.

Lemma finalize_items_Ok n i items d :
  0 <= i -> i + Z.of_nat n <= zlen items -> Forall (fun it => it < 2 ^ 31 - 1) items -> 0 <= d < 2 ^ 31 ->
  exists d', finalize_items n i items d = Ok d' /\ d <= d' < 2 ^ 31 /\
    forall j it, i <= j < i + Z.of_nat n -> items !! Z.to_nat j = Some it -> it < d'.
Proof.
  intros Hi Hl Hf. revert i d Hi Hl. induction n as [| n IH]; intros i d Hi Hl Hd; cbn [finalize_items].
  { exists d. split; [done |]. split; [lia |]. intros j it Hj. lia. }
  destruct (rd_in_range items i) as [v Hv]; [lia |]. rewrite Hv. cbn [mbind res_bind]. apply rd_Ok in Hv as [_ Hv].
  rewrite Forall_lookup in Hf. pose proof (Hf _ _ Hv) as Hvb. cbn in Hvb.
  set (d1 := if d <=? v then s32 (v + 1) else d).
  assert (d <= d1 < 2 ^ 31 /\ v < d1) as [Hd1 Hvd].
  { subst d1. destruct (Z.leb_spec d v); [rewrite s32_id by (unfold is_s32; lia) |]; lia. }
  destruct (IH (i + 1) d1) as (d' & Hf' & Hb & Hall); [lia | lia | lia |].
  exists d'. split; [done |]. split; [lia |]. intros j it Hj Hit.
  destruct (decide (j = i)) as [-> |]; [| apply (Hall j it); [lia | done]]. simplify_eq. lia.
Qed.

Lemma finalize_loop_Ok bs d w :
  all_items_ok bs -> 0 <= d < 2 ^ 31 ->
  exists d', finalize_loop bs d w = Ok (d', w + work_bytes bs) /\ d <= d' < 2 ^ 31 /\
    forall i b it, bs !! i = Some (Some b) -> it ∈ b_live b -> it < d'.
Proof.
  revert d w. induction bs as [| [b |] bs IH]; intros d w Hok Hd; cbn [finalize_loop work_bytes].
  - exists d. rewrite Z.add_0_r. split; [done |]. split; [lia |]. done.
  - destruct (Hok 0%nat b) as [Hs Hf]; [done |].
    destruct (finalize_items_Ok (Z.to_nat (b_size b)) 0 (b_items b) d) as (d1 & -> & Hb1 & Hall);
      [lia | lia | done | done |]. cbn [mbind res_bind].
    destruct (IH d1 (w + 16 + b_size b * 4)) as (d' & -> & Hb' & Hrest);
      [intros i c Hc; by apply (Hok (S i)) | lia |].
    exists d'. split; [do 2 f_equal; lia |]. split; [lia |]. intros [| i] c it Hc Hin; [| by eapply Hrest].
    cbn in Hc. simplify_eq. apply list_elem_of_lookup in Hin as [j Hj]. unfold b_live in Hj.
    rewrite lookup_take_Some in Hj. destruct Hj as [Hj Hlt].
    assert (it < d1); [| lia]. apply (Hall (Z.of_nat j)); [lia | by rewrite Nat2Z.id].
  - destruct (IH d w) as (d' & -> & Hb' & Hrest); [intros i c Hc; by apply (Hok (S i)) | lia |].
    exists d'. split; [done |]. split; [done |]. intros [| i] c it Hc Hin; [done | by eapply Hrest].
Qed.

Lemma init_work_loop_Ok mem bs b p :
  exists ws, init_work_loop mem bs b p = (ws, p + work_bytes bs) /\
    forall i c, bs !! i = Some (Some c) -> ws !! i = Some (Some (mk_work_bucket 0 0 (mem (b + Z.of_nat i)))).
Proof.
  revert b p. induction bs as [| [c |] bs IH]; intros b p; cbn [init_work_loop work_bytes].
  - exists []. rewrite Z.add_0_r. done.
  - destruct (IH (b + 1) (p + sizeof_crush_work_bucket + b_size c * sizeof_u32)) as (ws & -> & Hall).
    eexists. split; [f_equal; unfold sizeof_crush_work_bucket, sizeof_u32; lia |].
    intros [| i] d Hd; [cbn; by rewrite Z.add_0_r |]. change (ws !! i = Some (Some (mk_work_bucket 0 0 (mem (b + Z.of_nat (S i)))))).
    rewrite (Hall i d Hd). do 3 f_equal. f_equal. lia.
  - destruct (IH (b + 1) p) as (ws & -> & Hall). eexists. split; [done |].
    intros [| i] d Hd; [done |]. change (ws !! i = Some (Some (mk_work_bucket 0 0 (mem (b + Z.of_nat (S i)))))).
    rewrite (Hall i d Hd). do 3 f_equal. f_equal. lia.
Qed.

(** The workspace size that [crush_finalize] stores. *)
Definition workspace_bytes (m : crush_map) : Z := 8 + max_buckets m * 8 + work_bytes (buckets m).

Lemma init_workspace_Ok m tries mem :
  working_size m = workspace_bytes m ->
  (forall i b, buckets m !! i = Some (Some b) -> zlen (mem (Z.of_nat i)) = b_size b) ->
  match tries with None => True | Some t => zlen t = choose_total_tries m + 1 end ->
  exists cw, crush_init_workspace m tries mem = Ok cw /\ work_inv m cw.
Proof.
  intros Hws Hmem Htries. unfold workspace_bytes in Hws.
  destruct (init_work_loop_Ok mem (buckets m) 0 (8 + max_buckets m * 8)) as (ws & Hi & Hall).
  exists (mk_work ws tries). split.
  - unfold crush_init_workspace, sizeof_crush_work, sizeof_pointer. rewrite Hi, Hws. by rewrite Z.eqb_refl.
  - split; [| done]. intros b [Hb Hneg]. exists (mk_work_bucket 0 0 (mem (-1 - b_id b))). split.
    + cbn [work]. rewrite (Hall _ _ Hb). rewrite Z.add_0_l, Z2Nat.id by lia. done.
    + apply work_ok_init. specialize (Hmem _ _ Hb). by rewrite Z2Nat.id in Hmem by lia.
Qed.

(** A finalised map is ready for the mapper: [crush_finalize] returns, the
    device bound it computes is above every item of every bucket, and the
    workspace size it computes is the one that [crush_init_workspace] fills, so
    the initialisation succeeds (its consistency check holds) and yields a valid
    workspace, whatever the permutation arrays contain. *)
Theorem finalize_gives_workspace m tries mem :
  ids_ok m -> all_items_ok (buckets m) ->
  (forall i b, buckets m !! i = Some (Some b) -> zlen (mem (Z.of_nat i)) = b_size b) ->
  match tries with None => True | Some t => zlen t = choose_total_tries m + 1 end ->
  exists m' cw, crush_finalize m = Ok m' /\ buckets m' = buckets m /\
    (forall i b it, buckets m !! i = Some (Some b) -> it ∈ b_live b -> it < max_devices m') /\
    crush_init_workspace m' tries mem = Ok cw /\ work_inv m' cw.
Proof.
  intros Hids Hok Hmem Htries. unfold crush_finalize.
  destruct (finalize_loop_Ok (buckets m) 0 (8 + max_buckets m * 8)) as (d & -> & Hd & Hall); [done | lia |].
  cbn [mbind res_bind].
  set (m' := mk_map _ _ _ _ _ _ _ _ _ _ _ _).
  destruct (init_workspace_Ok m' tries mem) as (cw & Hi & Hinv); [done | done | done |].
  by exists m', cw.
Qed.

Lemma finalize_gives_workspace_witness :
  exists m' cw, crush_finalize ex_map = Ok m' /\ buckets m' = buckets ex_map /\
    (forall i b it, buckets ex_map !! i = Some (Some b) -> it ∈ b_live b -> it < max_devices m') /\
    crush_init_workspace m' None ex_mem = Ok cw /\ work_inv m' cw.
Proof.
  apply (finalize_gives_workspace ex_map None ex_mem); [exact (mo_id _ _ ex_map_ok) | | | done].
  - intros [| [| [| [| i]]]] b H; cbn in H; simplify_eq; (split; [done |]); repeat constructor.
  - intros [| [| [| [| i]]]] b H; cbn in H; simplify_eq; done.
Defined.
