(* ===== verification/CrushBuildThms.v ===== *)
(** * What the builder's other functions make

    Tree buckets, choose arguments and the order in which straws are computed. *)

From Stdlib Require Import Sorting.Sorted.
From S2P Require Import Prelude CrushHash CrushLn CrushTypes CrushChoose CrushPerm CrushChooseSpec CrushTree CrushMapper CrushMapSpec CrushBuilder CrushBuilderSpec.

(** * Building tree buckets

    [crush_make_tree_bucket] adds every weight on the path from its leaf to the
    root.  The node weights it ends with are those of [tree_ok], the shape the
    tree choose method needs, as long as the number of nodes fits the 8-bit
    field that holds it. *)

(** ** Nodes *)

Lemma b_height_node h k : 0 <= h < 32 -> b_height (node h k) = Ok h.
Proof. exact (height_node h k). Qed.

Lemma node_inj h k h' k' : 0 <= h < 32 -> 0 <= h' < 32 -> node h k = node h' k' -> h = h' /\ k = k'.
Proof.
  intros Hh Hh' E. pose proof (height_node h k Hh) as H1. rewrite E, (height_node h' k' Hh') in H1.
  injection H1 as ->. split; [done |]. unfold node in E.
  assert (0 < 2 ^ h) by (apply Z.pow_pos_nonneg; lia). nia.
Qed.

Lemma on_right_node h k : 0 <= h -> 0 <= k -> on_right (node h k) h = Z.odd k.
Proof.
  intros Hh Hk. unfold on_right. rewrite Z.shiftl_1_l.
  assert (Hb : Z.testbit (node h k) (h + 1) = Z.odd k).
  { unfold node. rewrite Z.mul_comm, <- Z.shiftl_mul_pow2 by lia. rewrite Z.shiftl_spec by lia.
    replace (h + 1 - h) with (Z.succ 0) by lia. rewrite Z.testbit_odd_succ by lia. apply Z.bit0_odd. }
  rewrite <- Hb. destruct (Z.testbit (node h k) (h + 1)) eqn:E.
  - apply negb_true_iff, Z.eqb_neq. intros H0. apply (f_equal (fun z => Z.testbit z (h + 1))) in H0.
    rewrite Z.land_spec, E, Z.pow2_bits_true, Z.bits_0 in H0 by lia. done.
  - apply negb_false_iff, Z.eqb_eq. apply Z.bits_inj'. intros n Hn. rewrite Z.land_spec, Z.bits_0.
    destruct (decide (n = h + 1)) as [-> |]; [by rewrite E |].
    rewrite Z.pow2_bits_false by lia. apply andb_false_r.
Qed.

Lemma parent_node h k : 0 <= h < 31 -> 0 <= k -> parent (node h k) = Ok (node (h + 1) (k / 2)).
Proof.
  intros Hh Hk. unfold parent. rewrite b_height_node by lia. cbn [mbind res_bind mret res_ret].
  rewrite on_right_node by lia. rewrite Z.shiftl_1_l. f_equal. unfold node.
  rewrite Z.pow_add_r by lia. change (2 ^ 1) with 2.
  destruct (Z.odd k) eqn:E.
  - apply Zodd_bool_iff in E. apply Zodd_div2 in E. rewrite Z.div2_div in E. nia.
  - rewrite <- Z.negb_even in E. apply negb_false_iff, Zeven_bool_iff, Zeven_div2 in E.
    rewrite Z.div2_div in E. nia.
Qed.

Lemma calc_tree_node_leaf i : 0 <= i < 2 ^ 29 -> crush_calc_tree_node i = node 0 i.
Proof.
  intros Hi. unfold crush_calc_tree_node, node. rewrite Z.shiftl_mul_pow2 by lia. change (2 ^ 1) with 2.
  rewrite s32_id by (unfold is_s32; lia). change (2 ^ 0) with 1. lia.
Qed.

(** ** Depth *)

Lemma calc_depth_loop_Ok fuel t depth k :
  0 <= t < 2 ^ k -> 0 <= k < Z.of_nat fuel ->
  exists d, calc_depth_loop fuel t depth = Ok d /\ depth <= d <= depth + k /\ t < 2 ^ (d - depth).
Proof.
  revert t depth k. induction fuel as [| fuel IH]; intros t depth k Ht Hk; [lia |]. cbn [calc_depth_loop].
  destruct (Z.eqb_spec t 0) as [-> | Hne].
  { exists depth. split; [done |]. split; [lia |]. by rewrite Z.sub_diag. }
  assert (k <> 0) by (intros ->; change (2 ^ 0) with 1 in Ht; lia).
  rewrite Z.shiftr_div_pow2 by lia. change (2 ^ 1) with 2.
  assert (2 ^ k = 2 * 2 ^ (k - 1)) as Hp by (rewrite <- Z.pow_succ_r by lia; f_equal; lia).
  destruct (IH (t / 2) (depth + 1) (k - 1)) as (d & Hd & Hb & Hlt); [split; [apply Z.div_pos; lia | apply Z.div_lt_upper_bound; lia] | lia |].
  exists d. split; [done |]. split; [lia |].
  replace (d - depth) with (Z.succ (d - (depth + 1))) by lia. rewrite Z.pow_succ_r by lia.
  Z.to_euclidean_division_equations. lia.
Qed.

Lemma calc_depth_Ok size k :
  1 <= size <= 2 ^ k -> 0 <= k <= 31 ->
  exists d, calc_depth size = Ok d /\ 1 <= d <= k + 1 /\ size <= 2 ^ (d - 1).
Proof.
  intros Hs Hk. unfold calc_depth. destruct (Z.eqb_spec size 0); [lia |].
  destruct (calc_depth_loop_Ok 33 (size - 1) 1 k) as (d & Hd & Hb & Hlt); [lia | lia |].
  exists d. split; [done |]. split; [lia | lia].
Qed.

(** ** Sums over subtrees *)

Fixpoint tsum (leaf : Z -> Z) (h : nat) (k : Z) : Z :=
  match h with
  | O => leaf k
  | S h => tsum leaf h (2 * k) + tsum leaf h (2 * k + 1)
  end.

Definition on_path (i h k : Z) : bool := i / 2 ^ h =? k.

Lemma on_path_children i h k : 0 <= h ->
  on_path i (h + 1) k = on_path i h (2 * k) || on_path i h (2 * k + 1).
Proof.
  intros Hh. unfold on_path. rewrite Z.pow_add_r, <- Z.div_div by (try apply Z.pow_pos_nonneg; lia).
  change (2 ^ 1) with 2. set (q := i / 2 ^ h).
  destruct (Z.eqb_spec (q / 2) k), (Z.eqb_spec q (2 * k)), (Z.eqb_spec q (2 * k + 1)); try done;
    Z.to_euclidean_division_equations; lia.
Qed.

Lemma on_path_excl i h k : on_path i h (2 * k) = true -> on_path i h (2 * k + 1) = false.
Proof. unfold on_path. rewrite Z.eqb_eq, Z.eqb_neq. lia. Qed.

Lemma tsum_update leaf leaf' i w h k :
  0 <= i -> (forall j, leaf' j = leaf j + (if j =? i then w else 0)) ->
  tsum leaf' h k = tsum leaf h k + (if on_path i (Z.of_nat h) k then w else 0).
Proof.
  intros Hi Hl. revert k. induction h as [| h IH]; intros k; cbn [tsum].
  - rewrite Hl. unfold on_path. change (2 ^ Z.of_nat 0) with 1. rewrite Z.div_1_r, Z.eqb_sym. done.
  - rewrite !IH. replace (Z.of_nat (S h)) with (Z.of_nat h + 1) by lia. rewrite on_path_children by lia.
    destruct (on_path i (Z.of_nat h) (2 * k)) eqn:E; [rewrite (on_path_excl _ _ _ E) | destruct (on_path _ _ (2 * k + 1))]; cbn [orb]; lia.
Qed.

Lemma tsum_nonneg leaf h k : (forall j, 0 <= leaf j) -> 0 <= tsum leaf h k.
Proof. intros H. revert k. induction h as [| h IH]; intros k; cbn [tsum]; [done |]. pose proof (IH (2 * k)). pose proof (IH (2 * k + 1)). lia. Qed.

(** ** The path to the root *)

Section path.
Context (d : Z) (Hd : 1 <= d < 32).

(** [k] numbers a node of height [h] in a tree of depth [d]. *)
Definition in_tree (h k : Z) : Prop := 0 <= h < d /\ 0 <= k < 2 ^ (d - 1 - h).

Lemma path_in_tree i h : 0 <= i < 2 ^ (d - 1) -> 0 <= h < d -> in_tree h (i / 2 ^ h).
Proof.
  intros Hi Hh. split; [done |]. assert (0 < 2 ^ h) by (apply Z.pow_pos_nonneg; lia).
  split; [apply Z.div_pos; lia |]. apply Z.div_lt_upper_bound; [done |].
  rewrite <- Z.pow_add_r by lia. replace (h + (d - 1 - h)) with (d - 1) by lia. lia.
Qed.

Lemma tz_wr (nw : list Z) h k h' k' v :
  zlen nw = 2 ^ d -> in_tree h k -> in_tree h' k' ->
  tz (<[Z.to_nat (node h k) := v]> nw) (node h' k')
  = if decide (h = h' /\ k = k') then v else tz nw (node h' k').
Proof.
  intros Hl [Hh Hk] [Hh' Hk']. pose proof (node_bound d h k Hh Hk). pose proof (node_bound d h' k' Hh' Hk').
  unfold tz. destruct (decide (h = h' /\ k = k')) as [[-> ->] | Hne].
  - rewrite list_lookup_insert_eq; [done |]. unfold zlen in Hl. lia.
  - rewrite list_lookup_insert_ne; [done |]. intros E. apply Hne, node_inj; lia.
Qed.

Lemma rd_node (nw : list Z) h k : zlen nw = 2 ^ d -> in_tree h k -> rd nw (node h k) = Ok (tz nw (node h k)).
Proof. intros Hl [Hh Hk]. apply rd_tz. pose proof (node_bound d h k Hh Hk). lia. Qed.

Lemma wr_node (nw : list Z) h k v :
  zlen nw = 2 ^ d -> in_tree h k -> wr nw (node h k) v = Ok (<[Z.to_nat (node h k) := v]> nw).
Proof. intros Hl [Hh Hk]. apply wr_Ok. pose proof (node_bound d h k Hh Hk). split; [lia | done]. Qed.

Lemma tree_add_path_Ok n h i w nw :
  0 <= i < 2 ^ (d - 1) -> 0 <= h -> h + Z.of_nat n = d - 1 -> zlen nw = 2 ^ d -> Forall is_u32 nw ->
  (forall h', h < h' < d -> tz nw (node h' (i / 2 ^ h')) + u32 w < 2 ^ 32) ->
  exists nw', tree_add_path n (node h (i / 2 ^ h)) w nw = Ok (true, nw') /\
    zlen nw' = 2 ^ d /\ Forall is_u32 nw' /\
    forall h' k', in_tree h' k' ->
      tz nw' (node h' k') = tz nw (node h' k') + (if (h <? h') && on_path i h' k' then u32 w else 0).
Proof.
  intros Hi. revert h nw. induction n as [| n IH]; intros h nw Hh Hn Hl Hu Hsafe; cbn [tree_add_path].
  { exists nw. split; [done |]. split; [done |]. split; [done |]. intros h' k' [Hh' _].
    destruct (Z.ltb_spec h h'); [lia |]. cbn [andb]. lia. }
  destruct (path_in_tree i h Hi ltac:(lia)) as [_ Hk].
  rewrite parent_node by lia. cbn [mbind res_bind].
  assert (0 < 2 ^ h) by (apply Z.pow_pos_nonneg; lia).
  assert (i / 2 ^ h / 2 = i / 2 ^ (h + 1)) as ->.
  { rewrite Z.pow_add_r, Z.div_div by lia. done. }
  pose proof (path_in_tree i (h + 1) Hi ltac:(lia)) as Hin.
  rewrite rd_node by done. cbn [mbind res_bind]. set (v := tz nw (node (h + 1) (i / 2 ^ (h + 1)))).
  assert (is_u32 v) as Hv by (by apply tz_nonneg). pose proof (Hsafe (h + 1) ltac:(lia)) as Hs. fold v in Hs.
  assert (crush_addition_is_unsafe v w = false) as E.
  { apply not_true_iff_false. rewrite addition_unsafe_iff by done. lia. }
  rewrite E, (u32_add_safe _ _ Hv E). rewrite wr_node by done. cbn [mbind res_bind].
  pose proof (u32_range w) as Hw.
  set (nw1 := <[Z.to_nat (node (h + 1) (i / 2 ^ (h + 1))) := v + u32 w]> nw).
  destruct (IH (h + 1) nw1) as (nw' & Hp & Hl' & Hu' & Hval); [lia | lia | | | |].
  - subst nw1. unfold zlen in *. by rewrite length_insert.
  - apply Forall_insert; [done |]. unfold is_u32 in *. lia.
  - intros h' Hh'. subst nw1. rewrite tz_wr; [| done | done | apply path_in_tree; [done | lia]].
    rewrite decide_False by lia. apply Hsafe. lia.
  - exists nw'. split; [done |]. split; [done |]. split; [done |]. intros h' k' Hin'. rewrite Hval by done.
    subst nw1. rewrite tz_wr by done. destruct (decide (h + 1 = h' /\ i / 2 ^ (h + 1) = k')) as [[<- <-] | Hne].
    + destruct (Z.ltb_spec (h + 1) (h + 1)); [lia |]. destruct (Z.ltb_spec h (h + 1)); [| lia].
      unfold on_path. rewrite Z.eqb_refl. cbn [andb]. fold v. lia.
    + f_equal. unfold on_path. destruct (Z.ltb_spec h h'), (Z.ltb_spec (h + 1) h'); try lia; try done.
      assert (h' = h + 1) as -> by lia. destruct (Z.eqb_spec (i / 2 ^ (h + 1)) k'); [| done]. by destruct Hne.
Qed.
End path.

(** ** The loop over the items *)

Definition leaf_of (ws : list Z) (i j : Z) : Z := if (0 <=? j) && (j <? i) then tz ws j else 0.

Lemma leaf_of_succ ws i j : 0 <= i ->
  leaf_of ws (i + 1) j = leaf_of ws i j + (if j =? i then tz ws i else 0).
Proof.
  intros Hi. unfold leaf_of. destruct (Z.leb_spec 0 j), (Z.ltb_spec j (i + 1)), (Z.ltb_spec j i), (Z.eqb_spec j i);
    cbn [andb]; subst; try lia.
Qed.

Lemma zsum_take_succ ws i : 0 <= i < zlen ws -> zsum (take (Z.to_nat (i + 1)) ws) = zsum (take (Z.to_nat i) ws) + tz ws i.
Proof.
  intros Hi. unfold zlen in Hi. destruct (lookup_lt_is_Some_2 ws (Z.to_nat i)) as [v Hv]; [lia |].
  replace (Z.to_nat (i + 1)) with (S (Z.to_nat i)) by lia. rewrite (take_S_r _ _ _ Hv), zsum_app.
  unfold tz. rewrite Hv. cbn. lia.
Qed.

(** A subtree weighs at most the total, and the root exactly that. *)
Lemma tsum_leaf_le ws i h k :
  Forall is_u32 ws -> 0 <= i <= zlen ws ->
  tsum (leaf_of ws i) h k <= zsum (take (Z.to_nat i) ws) /\
  (i <= 2 ^ Z.of_nat h -> k = 0 -> tsum (leaf_of ws i) h k = zsum (take (Z.to_nat i) ws)).
Proof.
  intros Hu [Hi Hl]. revert Hl. pattern i. apply natlike_ind; [| | done].
  - intros _. change (Z.to_nat 0) with 0%nat. rewrite take_0. cbn [zsum foldr].
    assert (forall k, tsum (leaf_of ws 0) h k = 0) as Hz; [| rewrite Hz; split; [lia | done]].
    induction h as [| h IH]; intros j; cbn [tsum]; [| rewrite !IH; lia].
    unfold leaf_of. destruct (Z.leb_spec 0 j), (Z.ltb_spec j 0); cbn [andb]; try lia.
  - intros j Hj IH Hle. unfold Z.succ in *. rewrite zsum_take_succ by lia.
    rewrite (tsum_update (leaf_of ws j) (leaf_of ws (j + 1)) j (tz ws j)) by (try done; intros; by apply leaf_of_succ).
    destruct (IH ltac:(lia)) as [IH1 IH2]. pose proof (tz_nonneg ws j Hu) as Hw. unfold is_u32 in Hw. split.
    + destruct (on_path j (Z.of_nat h) k); lia.
    + intros Hp ->. rewrite IH2 by (try done; lia). unfold on_path. rewrite Z.div_small by lia. cbn [Z.eqb]. lia.
Qed.

Record tinv (d : Z) (ws : list Z) (i : Z) (nw : list Z) : Prop := {
  ti_len : zlen nw = 2 ^ d;
  ti_u32 : Forall is_u32 nw;
  ti_sum : forall h k, in_tree d h k -> tz nw (node h k) = tsum (leaf_of ws i) (Z.to_nat h) k;
}.

Lemma make_tree_loop_Ok d n i items weights its nw :
  1 <= d < 31 -> 0 <= i -> i + Z.of_nat n <= 2 ^ (d - 1) -> i + Z.of_nat n <= 2 ^ 29 ->
  i + Z.of_nat n <= zlen items -> i + Z.of_nat n <= zlen weights ->
  its = take (Z.to_nat i) items -> tinv d (u32 <$> weights) i nw ->
  zsum (take (Z.to_nat i) (u32 <$> weights)) < 2 ^ 32 ->
  exists r, make_tree_loop n i d items weights its nw (zsum (take (Z.to_nat i) (u32 <$> weights))) = Ok r /\
    match r with
    | None => 2 ^ 32 <= zsum (take (Z.to_nat (i + Z.of_nat n)) (u32 <$> weights))
    | Some (its', nw', total) =>
        its' = take (Z.to_nat (i + Z.of_nat n)) items /\ tinv d (u32 <$> weights) (i + Z.of_nat n) nw' /\
        total = zsum (take (Z.to_nat (i + Z.of_nat n)) (u32 <$> weights)) /\ total < 2 ^ 32
    end.
Proof.
  intros Hd. set (ws := u32 <$> weights).
  assert (Hlw : zlen ws = zlen weights) by (unfold zlen, ws; by rewrite length_fmap).
  assert (Hws : Forall is_u32 ws) by (apply Forall_fmap, Forall_true; intros; apply u32_range).
  revert i its nw. induction n as [| n IH]; intros i its nw Hi Hd1 Hd2 Hli Hlwt -> Hinv Hmax; cbn [make_tree_loop].
  { exists (Some (take (Z.to_nat i) items, nw, zsum (take (Z.to_nat i) ws))). rewrite Z.add_0_r. done. }
  destruct (rd_in_range items i) as [it Hit]; [lia |]. rewrite Hit. cbn [mbind res_bind].
  destruct (rd_in_range weights i) as [wt Hwt]; [lia |]. rewrite Hwt. cbn [mbind res_bind].
  apply rd_Ok in Hit as [_ Hit]. apply rd_Ok in Hwt as [_ Hwt].
  assert (tz ws i = u32 wt) as Htz by (unfold tz, ws; rewrite list_lookup_fmap, Hwt; done).
  rewrite calc_tree_node_leaf by lia.
  assert (in_tree d 0 i) as Hleaf by (split; [lia | split; [lia |]; replace (d - 1 - 0) with (d - 1) by lia; lia]).
  rewrite (wr_node d) by (first [done | lia | apply (ti_len _ _ _ _ Hinv)]). cbn [mbind res_bind].
  set (nw1 := <[Z.to_nat (node 0 i) := u32 wt]> nw). set (total := zsum (take (Z.to_nat i) ws)) in *.
  assert (Htot : is_u32 total).
  { pose proof (zsum_nonneg _ (Forall_take _ (Z.to_nat i) _ Hws)). unfold is_u32. lia. }
  assert (Hsucc : zsum (take (Z.to_nat (i + 1)) ws) = total + u32 wt) by (rewrite zsum_take_succ, Htz by lia; done).
  destruct (crush_addition_is_unsafe total wt) eqn:E.
  { exists None. split; [done |]. apply addition_unsafe_iff in E; [| done].
    rewrite <- (take_drop (Z.to_nat (i + 1)) (take (Z.to_nat (i + Z.of_nat (S n))) ws)), zsum_app.
    rewrite take_take. replace (Z.to_nat (i + 1) `min` Z.to_nat (i + Z.of_nat (S n)))%nat with (Z.to_nat (i + 1)) by lia.
    pose proof (zsum_nonneg _ (Forall_drop _ (Z.to_nat (i + 1)) _ (Forall_take _ (Z.to_nat (i + Z.of_nat (S n))) _ Hws))). lia. }
  assert (total + u32 wt < 2 ^ 32) as Hlt.
  { rewrite <- (u32_add_safe _ _ Htot E). apply u32_range. }
  destruct (tree_add_path_Ok d ltac:(lia) (Z.to_nat (d - 1)) 0 i wt nw1) as (nw2 & Hp & Hl2 & Hu2 & Hval);
    [lia | lia | lia | subst nw1; unfold zlen; rewrite length_insert; apply Hinv
    | apply Forall_insert; [apply Hinv | apply u32_range] | |].
  { intros h' Hh'. pose proof (path_in_tree d i h' ltac:(lia) ltac:(lia)) as Hin. subst nw1.
    rewrite (tz_wr d ltac:(lia)) by (first [done | lia | apply (ti_len _ _ _ _ Hinv)]). rewrite decide_False by lia. rewrite (ti_sum _ _ _ _ Hinv) by done.
    destruct (tsum_leaf_le ws i (Z.to_nat h') (i / 2 ^ h') Hws ltac:(lia)) as [Hle _]. fold total in Hle. lia. }
  change (2 ^ 0) with 1 in Hp. rewrite Z.div_1_r in Hp. rewrite Hp. cbn [mbind res_bind].
  rewrite (u32_add_safe _ _ Htot E), <- Hsucc.
  destruct (IH (i + 1) (take (Z.to_nat i) items ++ [it]) nw2) as (r & Hr & Hpost); try lia.
  - replace (Z.to_nat (i + 1)) with (S (Z.to_nat i)) by lia. by rewrite (take_S_r _ _ _ Hit).
  - split; [done | done |]. intros h k Hin. rewrite Hval by done. subst nw1. rewrite (tz_wr d ltac:(lia)) by (first [done | lia | apply (ti_len _ _ _ _ Hinv)]).
    rewrite (tsum_update (leaf_of ws i) (leaf_of ws (i + 1)) i (u32 wt)) by (try done; intros; rewrite <- Htz; by apply leaf_of_succ).
    destruct Hin as [Hh Hk]. rewrite Z2Nat.id by lia. destruct (decide (0 = h /\ i = k)) as [[<- <-] | Hne].
    + cbn [Z.ltb Z.compare andb]. change (Z.to_nat 0) with 0%nat. cbn [tsum]. unfold leaf_of, on_path.
      change (2 ^ 0) with 1. rewrite Z.div_1_r, Z.eqb_refl. destruct (Z.ltb_spec i i); [lia |]. rewrite andb_false_r. lia.
    + rewrite (ti_sum _ _ _ _ Hinv) by done. f_equal. destruct (Z.ltb_spec 0 h); cbn [andb]; [done |].
      assert (h = 0) as -> by lia. unfold on_path. change (2 ^ 0) with 1. rewrite Z.div_1_r.
      destruct (Z.eqb_spec i k); [by destruct Hne | done].
  - exists r. split; [exact Hr |]. replace (i + Z.of_nat (S n)) with (i + 1 + Z.of_nat n) by lia. done.
Qed.

(** ** Theorems *)

Lemma u8_pow2 d : 1 <= d <= 7 -> u8 (Z.shiftl 1 d) = 2 ^ d.
Proof.
  intros Hd. rewrite Z.shiftl_1_l. unfold u8. apply Z.mod_small.
  split; [apply Z.pow_nonneg; lia |]. apply Z.pow_lt_mono_r; lia.
Qed.

Lemma tinv_init d ws : 1 <= d < 31 -> tinv d ws 0 (replicate (Z.to_nat (2 ^ d)) 0).
Proof.
  intros Hd. split.
  - unfold zlen. rewrite length_replicate. assert (0 < 2 ^ d) by (apply Z.pow_pos_nonneg; lia). lia.
  - apply Forall_replicate. unfold is_u32. lia.
  - intros h k _. assert (forall h k, tsum (leaf_of ws 0) h k = 0) as ->.
    { clear. induction h as [| h IH]; intros k; cbn [tsum]; [| rewrite !IH; lia].
      unfold leaf_of. destruct (Z.leb_spec 0 k), (Z.ltb_spec k 0); cbn [andb]; try lia. }
    unfold tz. destruct (replicate _ 0 !! _) eqn:E; [| done]. apply lookup_replicate in E as [-> _]. done.
Qed.

Lemma tinv_tree_ok d ws size nw :
  1 <= d < 31 -> 0 <= size -> tinv d ws size nw -> tree_ok d size nw.
Proof.
  intros Hd Hs Hinv. split; [lia | apply Hinv | apply Hinv | |].
  - intros h k Hh Hk. destruct (child_index d h k Hh Hk) as [Hk1 Hk2].
    rewrite !(ti_sum _ _ _ _ Hinv) by (split; [lia | done]).
    replace (Z.to_nat h) with (S (Z.to_nat (h - 1))) by lia. done.
  - intros i Hi. rewrite (ti_sum _ _ _ _ Hinv); [| split; [lia |]; replace (d - 1 - 0) with (d - 1) by lia; lia].
    change (Z.to_nat 0) with 0%nat. cbn [tsum]. unfold leaf_of. destruct (Z.ltb_spec i size); [lia |]. by rewrite andb_false_r.
Qed.

(** Making a tree bucket of at most 64 items: the call returns; it returns
    NULL only when the weights add up to more than 32 bits, and otherwise a
    bucket with the items in order, whose leaves have the given weights, whose
    inner nodes weigh as much as their children, and whose root weighs as much as
    the bucket (so the final consistency check never fails). *)
Theorem make_tree_correct hash type size items weights :
  1 <= size <= 64 -> size <= zlen items -> size <= zlen weights ->
  exists r, crush_make_tree_bucket hash type size items weights = Ok r /\
    match r with
    | None => 2 ^ 32 <= zsum (take (Z.to_nat size) (u32 <$> weights))
    | Some b =>
        b_size b = size /\ b_items b = take (Z.to_nat size) items /\
        b_weight b = zsum (take (Z.to_nat size) (u32 <$> weights)) /\
        exists d nw, b_body b = bucket_tree (2 ^ d) nw /\ tree_ok d size nw /\
          tz nw (node (d - 1) 0) = b_weight b /\
          forall i, 0 <= i < size -> tz nw (node 0 i) = tz (u32 <$> weights) i
    end.
Proof.
  intros Hs Hli Hlw. unfold crush_make_tree_bucket. cbv zeta.
  destruct (Z.eqb_spec size 0); [lia |]. destruct (Z.ltb_spec size 0); [lia |].
  destruct (calc_depth_Ok size 6) as (d & -> & Hd & Hsd); [split; [lia | etransitivity; [apply Hs | done]] | lia |].
  cbn [mbind res_bind]. rewrite u8_pow2 by lia. set (ws := u32 <$> weights).
  assert (Hws : Forall is_u32 ws) by (apply Forall_fmap, Forall_true; intros; apply u32_range).
  assert (Hzl : zlen ws = zlen weights) by (unfold zlen, ws; by rewrite length_fmap).
  destruct (make_tree_loop_Ok d (Z.to_nat size) 0 items weights [] (replicate (Z.to_nat (2 ^ d)) 0)) as (r & Hr & Hpost);
    [lia | lia | lia | lia | lia | lia | done | apply tinv_init; lia | done |].
  fold ws in Hr, Hpost. change (zsum (take (Z.to_nat 0) ws)) with 0 in Hr. rewrite Hr. cbn [mbind res_bind].
  rewrite Z.add_0_l, Z2Nat.id in Hpost by lia. destruct r as [[[its nw] total] |]; [| by exists None].
  destruct Hpost as (-> & Hinv & -> & Hmax).
  assert (Hroot : tz nw (node (d - 1) 0) = zsum (take (Z.to_nat size) ws)).
  { rewrite (ti_sum _ _ _ _ Hinv) by (split; [lia |]; replace (d - 1 - (d - 1)) with 0 by lia; change (2 ^ 0) with 1; lia).
    apply (tsum_leaf_le ws size (Z.to_nat (d - 1)) 0 Hws); [lia | rewrite Z2Nat.id by lia; done | done]. }
  assert (Hhalf : 2 ^ d / 2 = node (d - 1) 0).
  { unfold node. replace d with (Z.succ (d - 1)) at 1 by lia. rewrite Z.pow_succ_r, Z.mul_comm, Z.div_mul by lia. lia. }
  rewrite Hhalf, (rd_node d) by first [lia | apply (ti_len _ _ _ _ Hinv)
    | split; [lia |]; replace (d - 1 - (d - 1)) with 0 by lia; change (2 ^ 0) with 1; lia].
  cbn [mbind res_bind]. rewrite Hroot, Z.eqb_refl. cbn [negb]. eexists. split; [reflexivity |]. cbn [b_size b_items b_weight b_body set_weight set_body set_items new_bucket].
  split; [apply u32_id; unfold is_u32; lia |]. split; [done |]. split; [done |].
  exists d, nw. split; [done |]. split; [apply tinv_tree_ok with ws; [lia | lia | done] |]. split; [done |].
  intros i Hi. rewrite (ti_sum _ _ _ _ Hinv) by (split; [lia |]; replace (d - 1 - 0) with (d - 1) by lia; lia).
  change (Z.to_nat 0) with 0%nat. cbn [tsum]. unfold leaf_of.
  destruct (Z.leb_spec 0 i), (Z.ltb_spec i size); try lia. done.
Qed.

Lemma make_tree_correct_witness :
  exists r, crush_make_tree_bucket 0 1 3 [4; 5; 6] [0x10000; 0x20000; 0x10000] = Ok r /\
    match r with
    | None => 2 ^ 32 <= zsum (take (Z.to_nat 3) (u32 <$> [0x10000; 0x20000; 0x10000]))
    | Some b =>
        b_size b = 3 /\ b_items b = take (Z.to_nat 3) [4; 5; 6] /\
        b_weight b = zsum (take (Z.to_nat 3) (u32 <$> [0x10000; 0x20000; 0x10000])) /\
        exists d nw, b_body b = bucket_tree (2 ^ d) nw /\ tree_ok d 3 nw /\
          tz nw (node (d - 1) 0) = b_weight b /\
          forall i, 0 <= i < 3 -> tz nw (node 0 i) = tz (u32 <$> [0x10000; 0x20000; 0x10000]) i
    end.
Proof. apply (make_tree_correct 0 1 3 [4; 5; 6] [0x10000; 0x20000; 0x10000]); [lia | done | done]. Defined.

(**  The number of nodes of a tree bucket is kept in 8 bits.  With 65 items
    or more it is truncated to 0, and the first weight is written outside the
    array: making such a bucket faults for every input. *)
Theorem make_tree_too_big hash type size items weights :
  65 <= size <= 2 ^ 29 -> size <= zlen items -> size <= zlen weights ->
  crush_make_tree_bucket hash type size items weights = Fault.
Proof.
  intros Hs Hli Hlw. unfold crush_make_tree_bucket. cbv zeta.
  destruct (Z.eqb_spec size 0); [lia |]. destruct (Z.ltb_spec size 0); [lia |].
  destruct (calc_depth_Ok size 29) as (d & -> & Hd & Hsd); [lia | lia |]. cbn [mbind res_bind].
  assert (8 <= d) as Hd8.
  { destruct (Z.leb_spec 8 d); [done |]. exfalso.
    assert (2 ^ (d - 1) <= 2 ^ 6) by (apply Z.pow_le_mono_r; lia). change (2 ^ 6) with 64 in *. lia. }
  assert (u8 (Z.shiftl 1 d) = 0) as ->.
  { rewrite Z.shiftl_1_l. unfold u8. replace d with (d - 8 + 8) by lia. rewrite Z.pow_add_r by lia. apply Z.mod_mul. lia. }
  destruct (Z.to_nat size) as [| n1] eqn:En; [lia |]. cbn [make_tree_loop].
  destruct (rd_in_range items 0) as [it Hit]; [lia |]. rewrite Hit. cbn [mbind res_bind].
  destruct (rd_in_range weights 0) as [wt Hwt]; [lia |]. rewrite Hwt. reflexivity.
Qed.

Lemma make_tree_too_big_witness :
  crush_make_tree_bucket 0 1 65 (replicate 65 3) (replicate 65 0x10000) = Fault.
Proof. apply (make_tree_too_big 0 1 65); [lia | done | done]. Defined.

(**  Adding the third item to a tree bucket reads a node weight that
    [realloc] has just added and nothing has initialised: the resulting node
    weights depend on it.  The same call gives 0x10000 or 0x30000 for the inner
    node above the new leaf. *)
Theorem add_tree_uninitialised :
  exists b nw0 nw1,
    crush_make_tree_bucket 0 1 2 [4; 5] [0x10000; 0x10000] = Ok (Some b) /\
    (exists b0, crush_bucket_add_item (fun a _ => a) (fun _ => 0) crush_create b 6 0x10000 = Ok (0, b0) /\
       b_body b0 = bucket_tree 8 nw0 /\ tz nw0 (node 1 1) = 0x10000) /\
    (exists b1, crush_bucket_add_item (fun a _ => a) (fun _ => 0x20000) crush_create b 6 0x10000 = Ok (0, b1) /\
       b_body b1 = bucket_tree 8 nw1 /\ tz nw1 (node 1 1) = 0x30000).
Proof.
  eexists _, _, _. split; [vm_compute; reflexivity |].
  split; (eexists; split; [vm_compute; reflexivity |]; split; [reflexivity |]; vm_compute; reflexivity).
Qed.

(** * Choose arguments made from a map change nothing

    [crush_make_choose_args] copies the weights and ids of every bucket.  Until
    somebody edits the copies, choosing with them is choosing without them. *)

Lemma copy_loop_Ok n i src dst :
  0 <= i -> i + Z.of_nat n <= zlen src ->
  copy_loop n i src dst = Ok (dst ++ take n (drop (Z.to_nat i) src)).
Proof.
  revert i dst. induction n as [| n IH]; intros i dst Hi Hl; cbn [copy_loop].
  { by rewrite take_0, app_nil_r. }
  destruct (rd_in_range src i) as [v Hv]; [lia |]. rewrite Hv. cbn [mbind res_bind]. rewrite IH by lia.
  apply rd_Ok in Hv as [_ Hv]. rewrite (drop_S _ _ _ Hv). cbn [take]. rewrite <- app_assoc.
  by replace (Z.to_nat (i + 1)) with (S (Z.to_nat i)) by lia.
Qed.

(** Straw2 buckets with complete arrays. *)
Definition straw2_ok (b : crush_bucket) : Prop :=
  0 <= b_size b /\ b_size b <= zlen (b_items b) /\
  exists iw, b_body b = bucket_straw2 iw /\ b_size b <= zlen iw.

Definition arg_of (b : crush_bucket) (iw : list Z) (n : nat) : crush_choose_arg :=
  mk_choose_arg (Some (take (Z.to_nat (b_size b)) (b_items b)))
    (Some (replicate n (take (Z.to_nat (b_size b)) iw))).

Lemma make_choose_args_loop_Ok bs n :
  (forall i b, bs !! i = Some (Some b) -> straw2_ok b) ->
  exists args, crush_make_choose_args_loop bs n = Ok args /\
    forall i b iw, bs !! i = Some (Some b) -> b_body b = bucket_straw2 iw ->
      args !! i = Some (arg_of b iw (Z.to_nat n)).
Proof.
  induction bs as [| [b |] bs IH]; intros Hok; cbn [crush_make_choose_args_loop].
  - by exists [].
  - destruct (Hok 0%nat b) as (Hs & Hi & iw & Hb & Hw); [done |]. unfold choose_arg_weights. rewrite Hb.
    rewrite !copy_loop_Ok by lia. cbn [mbind res_bind].
    destruct IH as (args & -> & Hargs); [intros i c Hc; by apply (Hok (S i)) |]. cbn [mbind res_bind].
    eexists. split; [reflexivity |]. intros [| i] c iw' Hc Hcb.
    + cbn in Hc. injection Hc as <-. rewrite Hb in Hcb. injection Hcb as <-. done.
    + by apply (Hargs i).
  - destruct IH as (args & -> & Hargs); [intros i c Hc; by apply (Hok (S i)) |]. cbn [mbind res_bind].
    eexists. split; [reflexivity |]. intros [| i] c iw' Hc Hcb; [done | by apply (Hargs i)].
Qed.

Lemma rd_take {A} (l : list A) n i : 0 <= i < n -> rd (take (Z.to_nat n) l) i = rd l i.
Proof. intros Hi. unfold rd. by rewrite lookup_take_lt by lia. Qed.

Lemma draw_loop_ext f g n i h hd :
  (forall j, i <= j < i + Z.of_nat n -> f j = g j) -> draw_loop f n i h hd = draw_loop g n i h hd.
Proof.
  revert i h hd. induction n as [| n IH]; intros i h hd H; cbn [draw_loop]; [done |].
  rewrite (H i) by lia. destruct (g i); cbn [mbind res_bind]; try done.
  case_match; apply IH; intros; apply H; lia.
Qed.

Lemma straw2_choose_arg_of b iw x r n position :
  0 <= b_size b -> (0 < n)%nat -> is_u32 position ->
  bucket_straw2_choose b iw x r (Some (arg_of b iw n)) position = bucket_straw2_choose b iw x r None position.
Proof.
  intros Hs Hn Hp. unfold bucket_straw2_choose, get_choose_arg_weights. cbn [arg_of weight_set mbind res_bind get_choose_arg_ids ids].
  set (ws := replicate n (take (Z.to_nat (b_size b)) iw)). rewrite u32_id by done. unfold is_u32 in Hp.
  assert (zlen ws = Z.of_nat n) as Hl by (unfold zlen, ws; by rewrite length_replicate).
  assert (rd ws (if zlen ws <=? position then zlen ws - 1 else position) = Ok (take (Z.to_nat (b_size b)) iw)) as ->.
  { apply rd_Ok. destruct (Z.leb_spec (zlen ws) position); (split; [lia |]); apply lookup_replicate; (split; [done | lia]). }
  cbn [mbind res_bind].
  rewrite (draw_loop_ext _ (straw2_draw b iw (b_items b) x r)); [done |].
  intros j Hj. unfold straw2_draw. rewrite !rd_take by lia. done.
Qed.

(** Choose arguments that [crush_make_choose_args] makes (for at least one
    position) from a map of straw2 buckets are neutral: for every bucket of the
    map, every input and every position, choosing with them picks the same item
    and leaves the same workspace as choosing without choose arguments. *)
Theorem make_choose_args_neutral m num_positions :
  (forall i b, buckets m !! i = Some (Some b) -> straw2_ok b) -> 0 < num_positions ->
  exists args, crush_make_choose_args m num_positions = Ok args /\
    forall b cw x r position, is_bucket m b -> is_u32 position ->
      call_bucket_choose x (Some args) b cw r position = call_bucket_choose x None b cw r position.
Proof.
  intros Hok Hn. destruct (make_choose_args_loop_Ok (buckets m) num_positions Hok) as (args & Hm & Hargs).
  exists args. split; [done |]. intros b cw x r position [Hb Hneg] Hp.
  destruct (Hok _ _ Hb) as (Hs & Hi & iw & Hbody & Hw). pose proof (Hargs _ _ _ Hb Hbody) as Ha.
  assert (Hrd : rd args (-1 - b_id b) = Ok (arg_of b iw (Z.to_nat num_positions))) by (apply rd_Ok; split; [lia | done]).
  unfold call_bucket_choose. destruct (get_work cw b) as [w | |]; cbn [mbind res_bind]; try done.
  unfold get_choose_arg. rewrite Hrd. cbn [fmap res_fmap mbind res_bind].
  unfold crush_bucket_choose. rewrite Hbody. case_match; [done |].
  by rewrite straw2_choose_arg_of by (try done; lia).
Qed.

Lemma make_choose_args_neutral_witness :
  exists args, crush_make_choose_args ex_map 3 = Ok args /\
    forall b cw x r position, is_bucket ex_map b -> is_u32 position ->
      call_bucket_choose x (Some args) b cw r position = call_bucket_choose x None b cw r position.
Proof.
  apply (make_choose_args_neutral ex_map 3); [| done].
  intros [| [| [| [| i]]]] b H; cbn in H; simplify_eq; (split; [done | split; [done |]]); eexists; by split.
Defined.

(** * The order in which straws are computed

    [crush_calc_straw] starts with an insertion sort of the item indices by
    weight.  It is a sort: a permutation of the indices, with ascending weights,
    and stable. *)

Section sort.
Context (weights : list Z).

(** Earlier in the order: a smaller weight, or the same weight and an earlier
    index. *)
Definition before (i j : Z) : Prop :=
  tz weights i < tz weights j \/ (tz weights i = tz weights j /\ i < j).

Lemma straw_insert_Ok i reverse :
  0 <= i < zlen weights -> Forall (fun r => 0 <= r < i) reverse -> StronglySorted before reverse ->
  exists reverse', straw_insert weights i reverse = Ok reverse' /\ reverse' ≡ₚ i :: reverse /\
    StronglySorted before reverse'.
Proof.
  intros Hi. induction reverse as [| r reverse IH]; intros Hr Hs; cbn [straw_insert].
  { exists [i]. split; [done |]. split; [done |]. repeat constructor. }
  inversion Hr as [| ? ? Hr0 Hr']; subst. inversion Hs as [| ? ? Hs' Hall]; subst.
  rewrite !rd_tz by lia. cbn [mbind res_bind].
  destruct (Z.ltb_spec (tz weights i) (tz weights r)) as [Hlt | Hge].
  - eexists. split; [reflexivity |]. split; [done |]. constructor; [done |]. constructor; [by left |].
    eapply Forall_impl; [exact Hall |]. intros j Hj. left. unfold before in Hj. lia.
  - destruct (IH Hr' Hs') as (rev' & -> & Hp & Hs''). cbn [mbind res_bind].
    eexists. split; [reflexivity |]. split; [rewrite Hp; constructor |]. constructor; [done |].
    rewrite Hp. constructor; [| done]. unfold before. lia.
Qed.

Lemma straw_sort_Ok n i reverse :
  0 <= i -> i + Z.of_nat n <= zlen weights -> reverse ≡ₚ seqZ 0 i -> StronglySorted before reverse ->
  exists reverse', straw_sort n i weights reverse = Ok reverse' /\
    reverse' ≡ₚ seqZ 0 (i + Z.of_nat n) /\ StronglySorted before reverse'.
Proof.
  revert i reverse. induction n as [| n IH]; intros i reverse Hi Hl Hp Hs; cbn [straw_sort].
  { exists reverse. by rewrite Z.add_0_r. }
  destruct (straw_insert_Ok i reverse) as (rev1 & -> & Hp1 & Hs1); [lia | | done |].
  { rewrite Hp. apply Forall_forall. intros r Hr. apply elem_of_seqZ in Hr. lia. }
  cbn [mbind res_bind]. destruct (IH (i + 1) rev1) as (rev' & -> & Hp' & Hs'); [lia | lia | | done |].
  - rewrite Hp1, Hp, seqZ_app by lia. rewrite (Permutation_app_comm (seqZ 0 i)). by rewrite Z.add_0_l, (seqZ_cons i 1) by lia.
  - exists rev'. split; [done |]. by replace (i + Z.of_nat (S n)) with (i + 1 + Z.of_nat n) by lia.
Qed.
End sort.

(**  The insertion sort of [crush_calc_straw] terminates without a fault
    and orders all item indices by weight, equal weights by index. *)
Theorem straw_sort_correct weights size :
  0 < size <= zlen weights ->
  exists reverse, straw_sort (Z.to_nat (size - 1)) 1 weights [0] = Ok reverse /\
    reverse ≡ₚ seqZ 0 size /\ StronglySorted (before weights) reverse.
Proof.
  intros Hs. destruct (straw_sort_Ok weights (Z.to_nat (size - 1)) 1 [0]) as (rev & Hr & Hp & Hss);
    [lia | lia | done | repeat constructor |].
  exists rev. split; [done |]. split; [| done]. by replace size with (1 + Z.of_nat (Z.to_nat (size - 1))) by lia.
Qed.

Lemma straw_sort_correct_witness :
  exists reverse, straw_sort 2 1 [5; 3; 5] [0] = Ok reverse /\
    reverse ≡ₚ seqZ 0 3 /\ StronglySorted (before [5; 3; 5]) reverse.
Proof. apply (straw_sort_correct [5; 3; 5] 3). done. Defined.
