(* ===== verification/PgTypes.v ===== *)
(** * Placement groups: [pg_t] and the placement part of [pg_pool_t]

    src/src/osd/osd_types.{h,cc}, with [ceph_stable_mod] of
    src/src/include/rados.h, [cbits] of src/src/include/intarith.h and the string
    hashes of src/src/common/ceph_hash.cc.

    Naming a PG, the hash of an object name, the mask arithmetic by which a hash
    selects a PG, and how PGs split and merge when [pg_num] changes.  PgSplit.v
    holds the theorems. *)

From S2P Require Import Prelude CrushHash.

(** ** Integer helpers *)

(** [std::countl_zero] of a 32-bit word. *)
Definition countl_zero (v : Z) : Z := if v =? 0 then 32 else 31 - Z.log2 v.

Definition cbits (v : Z) : Z := 32 - countl_zero (u32 v).

(** [x], [b] and [bmask] are [int] parameters. *)
Definition ceph_stable_mod (x b bmask : Z) : Z :=
  let x := s32 x in
  let b := s32 b in
  let bmask := s32 bmask in
  if Z.land x bmask <? b then Z.land x bmask
  else Z.land x (Z.shiftr bmask 1).

(** The expression [(1 << n) - 1] of type [int]: the subtraction overflows for
    [n = 31] and the shift is undefined from 32 on. *)
Definition low_mask (n : Z) : res Z :=
  if (0 <=? n) && (n <? 31) then Ok (Z.shiftl 1 n - 1) else Fault.

(** The expression [~((~0) << n)] of type [int], for [0 <= n < 32]. *)
Definition low_ones (n : Z) : Z := Z.lnot (Z.shiftl (-1) n).

(** ** String hashes *)

Definition CEPH_STR_HASH_LINUX : Z := 1.
Definition CEPH_STR_HASH_RJENKINS : Z := 2.

(** Four bytes, little endian. *)
Definition word4 (k0 k1 k2 k3 : Z) : Z :=
  u32 (k0 + shl32 k1 8 + shl32 k2 16 + shl32 k3 24).

Definition add32 (a b : Z) : Z := u32 (a + b).

(** The loop over whole groups of twelve bytes; what is left of the key is
    returned with the state. *)
Fixpoint rjenkins_blocks (k : list Z) (a b c : Z) : Z * Z * Z * list Z :=
  match k with
  | k0 :: k1 :: k2 :: k3 :: k4 :: k5 :: k6 :: k7 :: k8 :: k9 :: k10 :: k11 :: rest =>
      let a := add32 a (word4 k0 k1 k2 k3) in
      let b := add32 b (word4 k4 k5 k6 k7) in
      let c := add32 c (word4 k8 k9 k10 k11) in
      let '(a, b, c) := crush_hashmix a b c in
      rjenkins_blocks rest a b c
  | _ => (a, b, c, k)
  end.

(** [k[i] << n] when the key still has that byte; the cases of the switch fall
    through, so byte [i] is added exactly when more than [i] bytes are left. *)
Definition tail_byte (k : list Z) (i : nat) (n : Z) : Z :=
  match k !! i with Some v => shl32 v n | None => 0 end.

Definition ceph_str_hash_rjenkins (str : list Z) : Z :=
  let a := 0x9e3779b9 in
  let '(a, b, c, k) := rjenkins_blocks str a a 0 in
  let c := add32 c (u32 (zlen str)) in
  let c := add32 c (tail_byte k 10 24) in
  let c := add32 c (tail_byte k 9 16) in
  let c := add32 c (tail_byte k 8 8) in
  let b := add32 b (tail_byte k 7 24) in
  let b := add32 b (tail_byte k 6 16) in
  let b := add32 b (tail_byte k 5 8) in
  let b := add32 b (tail_byte k 4 0) in
  let a := add32 a (tail_byte k 3 24) in
  let a := add32 a (tail_byte k 2 16) in
  let a := add32 a (tail_byte k 1 8) in
  let a := add32 a (tail_byte k 0 0) in
  let '(_, _, c) := crush_hashmix a b c in
  c.

Definition ceph_str_hash_linux (str : list Z) : Z :=
  foldl (fun hash c => u32 ((hash + Z.shiftl c 4 + Z.shiftr c 4) * 11)) 0 str.

Definition ceph_str_hash (type : Z) (s : list Z) : Z :=
  if type =? CEPH_STR_HASH_LINUX then ceph_str_hash_linux s
  else if type =? CEPH_STR_HASH_RJENKINS then ceph_str_hash_rjenkins s
  else u32 (-1).

(** ** Placement group ids *)

(** [m_pool] is a [uint64_t], [m_seed] a [uint32_t]. *)
Record pg_t : Type := mk_pg { m_pool : Z; m_seed : Z }.

#[export] Instance pg_t_eq_dec : EqDecision pg_t.
Proof. solve_decision. Defined.

#[export] Instance pg_t_countable : Countable pg_t.
Proof.
  refine (inj_countable' (fun p => (m_pool p, m_seed p)) (fun q => mk_pg q.1 q.2) _).
  by intros [].
Defined.

(** The accessor [pool()] returns the pool as [int64_t]. *)
Definition pg_pool (p : pg_t) : Z := s64 (m_pool p).

Definition set_ps (p : pg_t) (s : Z) : pg_t := mk_pg (m_pool p) (u32 s).

Definition get_ancestor (p : pg_t) (old_pg_num : Z) : res pg_t :=
  old_mask ← low_mask (cbits old_pg_num);
  mret (set_ps p (ceph_stable_mod (m_seed p) old_pg_num old_mask)).

(** The loop [for (unsigned n = 1; ; n++)]; [acc] is whether a child was found
    and the set of children. *)
Fixpoint is_split_loop (fuel : nat) (p : pg_t) (old_pg_num new_pg_num old_bits old_mask n : Z)
    (acc : bool * gset pg_t) : res (bool * gset pg_t) :=
  match fuel with
  | O => NoFuel
  | S fuel =>
      let next_bit := shl32 n (old_bits - 1) in
      let s := Z.lor next_bit (m_seed p) in
      if (s <? old_pg_num) || (s =? m_seed p) then
        is_split_loop fuel p old_pg_num new_pg_num old_bits old_mask (u32 (n + 1)) acc
      else if new_pg_num <=? s then Ok acc
      else
        let acc :=
          if u32 (ceph_stable_mod s old_pg_num old_mask) =? m_seed p
          then (true, {[ mk_pg (m_pool p) s ]} ∪ acc.2) else acc in
        is_split_loop fuel p old_pg_num new_pg_num old_bits old_mask (u32 (n + 1)) acc
  end.

Definition is_split (fuel : nat) (p : pg_t) (old_pg_num new_pg_num : Z) : res (bool * gset pg_t) :=
  if old_pg_num <=? m_seed p then mret (false, ∅)
  else if new_pg_num <=? old_pg_num then mret (false, ∅)
  else
    let old_bits := cbits old_pg_num in
    old_mask ← low_mask old_bits;
    is_split_loop fuel p old_pg_num new_pg_num old_bits old_mask 1 (false, ∅).

(** The block marked "brute force" that the source keeps, disabled, as the
    reference for the loop above. *)
Definition is_split_brute (p : pg_t) (old_pg_num new_pg_num : Z) : res (bool * gset pg_t) :=
  old_mask ← low_mask (cbits old_pg_num);
  mret (foldl (fun acc x =>
                 if u32 (ceph_stable_mod x old_pg_num old_mask) =? m_seed p
                 then (true, {[ mk_pg (m_pool p) x ]} ∪ acc.2) else acc)
          (false, ∅) (seqZ old_pg_num (new_pg_num - old_pg_num))).

Definition get_split_bits (p : pg_t) (pg_num : Z) : res Z :=
  if pg_num =? 1 then mret 0
  else if negb (1 <? pg_num) then Fault
  else
    let b := cbits pg_num in
    if b =? 0 then Fault
    else if m_seed p mod Z.shiftl 1 (b - 1) <? pg_num mod Z.shiftl 1 (b - 1)
         then mret b else mret (b - 1).

Definition get_parent (p : pg_t) : res pg_t :=
  let bits := cbits (m_seed p) in
  if bits =? 0 then Fault
  else mret (mk_pg (m_pool p) (Z.land (m_seed p) (low_ones (bits - 1)))).

Fixpoint merge_parent_loop (fuel : nat) (t : pg_t) (new_pg_num : Z) : res pg_t :=
  match fuel with
  | O => NoFuel
  | S fuel =>
      if new_pg_num <=? m_seed t then
        t ← get_parent t;
        merge_parent_loop fuel t new_pg_num
      else mret t
  end.

(** [None] is the result [false]; [Some parent] is [true] with the merge target
    that is stored through the pointer. *)
Definition is_merge_source (fuel : nat) (p : pg_t) (old_pg_num new_pg_num : Z) : res (option pg_t) :=
  if (m_seed p <? old_pg_num) && (new_pg_num <=? m_seed p) then
    t ← merge_parent_loop fuel p new_pg_num;
    mret (Some t)
  else mret None.

Definition is_merge_target (fuel : nat) (p : pg_t) (old_pg_num new_pg_num : Z) : res bool :=
  if m_seed p <? new_pg_num then
    r ← is_split fuel p new_pg_num old_pg_num;
    mret r.1
  else mret false.

(** ** Pools *)

Definition TYPE_REPLICATED : Z := 1.
Definition TYPE_ERASURE : Z := 3.
Definition FLAG_HASHPSPOOL : Z := 1.

(** The fields of [pg_pool_t] that placement reads. *)
Record pg_pool_t : Type := mk_pool {
  pool_flags : Z;
  pool_type : Z;
  pool_size : Z;
  pool_crush_rule : Z;
  object_hash : Z;
  pg_num : Z;
  pgp_num : Z;
  pg_num_pending : Z;
  pg_num_mask : Z;
  pgp_num_mask : Z;
}.

Definition is_erasure (pl : pg_pool_t) : bool := pool_type pl =? TYPE_ERASURE.

Definition can_shift_osds (pl : pg_pool_t) : res bool :=
  if pool_type pl =? TYPE_REPLICATED then mret true
  else if pool_type pl =? TYPE_ERASURE then mret false
  else Fault.

(** [with_pg_nums pl n np pending] assigns the three counts. *)
Definition with_pg_nums (pl : pg_pool_t) (n np pending : Z) : pg_pool_t :=
  mk_pool (pool_flags pl) (pool_type pl) (pool_size pl) (pool_crush_rule pl) (object_hash pl)
    n np pending (pg_num_mask pl) (pgp_num_mask pl).

Definition calc_pg_masks (pl : pg_pool_t) : res pg_pool_t :=
  m ← low_mask (cbits (u32 (pg_num pl - 1)));
  mp ← low_mask (cbits (u32 (pgp_num pl - 1)));
  mret (mk_pool (pool_flags pl) (pool_type pl) (pool_size pl) (pool_crush_rule pl) (object_hash pl)
          (pg_num pl) (pgp_num pl) (pg_num_pending pl) m mp).

Definition set_pg_num (pl : pg_pool_t) (p : Z) : res pg_pool_t :=
  calc_pg_masks (with_pg_nums pl (u32 p) (pgp_num pl) (u32 p)).

Definition set_pgp_num (pl : pg_pool_t) (p : Z) : res pg_pool_t :=
  calc_pg_masks (with_pg_nums pl (pg_num pl) (u32 p) (pg_num_pending pl)).

Definition set_pg_num_pending (pl : pg_pool_t) (p : Z) : res pg_pool_t :=
  calc_pg_masks (with_pg_nums pl (pg_num pl) (pgp_num pl) (u32 p)).

(** The merge metadata that is recorded as well is not part of the model. *)
Definition dec_pg_num (pl : pg_pool_t) : res pg_pool_t :=
  calc_pg_masks (with_pg_nums pl (u32 (pg_num pl - 1)) (pgp_num pl) (pg_num_pending pl)).

Definition get_pg_num_divisor (pl : pg_pool_t) (p : pg_t) : Z :=
  if pg_num pl =? u32 (pg_num_mask pl + 1) then pg_num pl
  else
    let mask := Z.shiftr (pg_num_mask pl) 1 in
    if Z.land (m_seed p) mask <? Z.land (pg_num pl) mask
    then u32 (pg_num_mask pl + 1)
    else Z.shiftr (u32 (pg_num_mask pl + 1)) 1.

(** The loop over the seeds that are about to merge. *)
Fixpoint pending_merge_scan (p : pg_t) (seeds : list Z) : res (option bool) :=
  match seeds with
  | [] => mret None
  | ps :: seeds =>
      t ← get_parent (mk_pg (u64 (pg_pool p)) ps);
      if decide (t = p) then mret (Some true) else pending_merge_scan p seeds
  end.

(** [None] is the result [false]; [Some target] is [true] with [*target]. *)
Definition is_pending_merge (pl : pg_pool_t) (p : pg_t) : res (option bool) :=
  if pg_num pl <=? pg_num_pending pl then mret None
  else if (pg_num_pending pl <=? m_seed p) && (m_seed p <? pg_num pl) then mret (Some false)
  else pending_merge_scan p (seqZ (pg_num_pending pl) (pg_num pl - pg_num_pending pl)).

Definition hash_key (pl : pg_pool_t) (key ns : list Z) : Z :=
  match ns with
  | [] => ceph_str_hash (object_hash pl) key
  | _ => ceph_str_hash (object_hash pl) (ns ++ [0x1f] ++ key)
  end.

Definition raw_hash_to_pg (pl : pg_pool_t) (v : Z) : Z :=
  u32 (ceph_stable_mod v (pg_num pl) (pg_num_mask pl)).

Definition raw_pg_to_pg (pl : pg_pool_t) (p : pg_t) : pg_t :=
  set_ps p (ceph_stable_mod (m_seed p) (pg_num pl) (pg_num_mask pl)).

Definition raw_pg_to_pps (pl : pg_pool_t) (p : pg_t) : Z :=
  if negb (Z.land (pool_flags pl) FLAG_HASHPSPOOL =? 0)
  then crush_hash32_2 CRUSH_HASH_RJENKINS1
         (ceph_stable_mod (m_seed p) (pgp_num pl) (pgp_num_mask pl)) (pg_pool p)
  else u32 (ceph_stable_mod (m_seed p) (pgp_num pl) (pgp_num_mask pl) + pg_pool p).

Definition get_random_pg_position (pl : pg_pool_t) (p : pg_t) (seed : Z) : Z :=
  let r := crush_hash32_2 CRUSH_HASH_RJENKINS1 seed 123 in
  let r :=
    if pg_num pl =? u32 (pg_num_mask pl + 1) then Z.land r (u32 (Z.lnot (pg_num_mask pl)))
    else
      let smaller_mask := Z.shiftr (pg_num_mask pl) 1 in
      if Z.land (m_seed p) smaller_mask <? Z.land (pg_num pl) smaller_mask
      then Z.land r (u32 (Z.lnot (pg_num_mask pl)))
      else Z.land r (u32 (Z.lnot smaller_mask)) in
  Z.lor r (m_seed p).
