(* ===== verification/PgSplit.v ===== *)
(** * Splitting and merging placement groups

    The operations of PgTypes.v on PG seeds are stated in several ways: masks in
    [ceph_stable_mod], a search over candidate bits in [is_split], clearing the
    highest set bit in [get_parent], a number of significant bits in
    [get_split_bits].  All of them are characterised by one relation, [cut b x y],
    which says that [y] is what remains of [x] when just enough of its high bits
    are dropped to get below [b]; the theorems of this file follow from that. *)

From S2P Require Import Prelude CrushHash PgTypes.

(** ** The relation behind [ceph_stable_mod]

    [cut b x y]: [y] consists of the low [j] bits of [x], is below [b], and no
    larger number of low bits of [x] gives another value below [b]. *)

Definition cut (b x y : Z) : Prop :=
  exists j, 0 <= j /\ y = x mod 2 ^ j /\ y < b /\
    forall i, j <= i -> x mod 2 ^ i < b -> x mod 2 ^ i = y.

Lemma cut_fun b x y z : cut b x y -> cut b x z -> y = z.
Proof.
  intros (j & Hj & -> & Hy & Hjm) (k & Hk & -> & Hz & Hkm).
  destruct (Z.le_ge_cases j k); [symmetry; by apply Hjm | by apply Hkm].
Qed.

Lemma mod_pow2_mod x i j : 0 <= i -> 0 <= j -> (x mod 2 ^ i) mod 2 ^ j = x mod 2 ^ Z.min i j.
Proof.
  intros Hi Hj. rewrite <- !Z.land_ones by lia. apply Z.bits_inj'. intros n Hn.
  rewrite !Z.land_spec, !Z.testbit_ones_nonneg by lia.
  destruct (Z.testbit x n), (Z.ltb_spec n i), (Z.ltb_spec n j), (Z.ltb_spec n (Z.min i j)); lia || done.
Qed.

Lemma mod_pow2_small x k i : 0 <= x < 2 ^ k -> k <= i -> x mod 2 ^ i = x.
Proof. intros Hx Hi. apply Z.mod_small. pose proof (Z.pow_le_mono_r 2 k i). lia. Qed.

Lemma mod_pow2_agree x k i :
  0 <= k <= i -> x mod 2 ^ i < 2 ^ k -> x mod 2 ^ i = x mod 2 ^ k.
Proof.
  intros Hi Hx. rewrite <- (mod_pow2_small (x mod 2 ^ i) k k) at 1; [| split | lia].
  - rewrite mod_pow2_mod by lia. f_equal. f_equal. lia.
  - apply Z.mod_pos_bound, Z.pow_pos_nonneg; lia.
  - done.
Qed.

(** Cutting to a larger bound first does not change the result. *)
Lemma cut_trans b b' x y z : 0 <= x -> b <= b' -> cut b' x y -> cut b y z -> cut b x z.
Proof.
  intros Hx Hb (j & Hj & -> & Hy & Hjm) (k & Hk & -> & Hz & Hkm).
  exists (Z.min j k). split; [lia |]. split; [by apply mod_pow2_mod |]. split; [done |].
  intros i Hi Hib. destruct (Z.le_gt_cases j i) as [Hji | Hji].
  - rewrite Hjm in Hib |- * by lia. rewrite <- (Hkm (Z.max j k)) by
      (rewrite ?mod_pow2_mod by lia; rewrite ?Z.min_l by lia; lia).
    rewrite mod_pow2_mod by lia. f_equal. f_equal. lia.
  - rewrite <- Hkm with i by (rewrite ?mod_pow2_mod, ?Z.min_r by lia; lia).
    rewrite mod_pow2_mod by lia. f_equal. f_equal. lia.
Qed.

Lemma cut_bounds b x y : cut b x y -> 0 <= y < b.
Proof.
  intros (j & Hj & -> & ? & _). split; [| done]. apply Z.mod_pos_bound, Z.pow_pos_nonneg; lia.
Qed.

Lemma cut_id b x : 0 <= x < b -> cut b x x.
Proof.
  intros Hx. pose proof (Z.log2_nonneg x).
  assert (x < 2 ^ (Z.log2 x + 1)).
  { destruct (decide (x = 0)) as [-> |]; [done |]. apply Z.log2_spec. lia. }
  exists (Z.log2 x + 1). split; [lia |]. split; [| split; [lia |]].
  - symmetry. apply Z.mod_small. lia.
  - intros i Hi _. apply mod_pow2_small with (Z.log2 x + 1); lia.
Qed.

(** ** Masks *)

(** [span k b]: a mask of [k] ones fits the bound [b]. *)
Definition span (k b : Z) : Prop := 0 <= k < 31 /\ 2 ^ k <= 2 * b /\ b <= 2 ^ k.

Lemma cbits_eq v : 0 < v < 2 ^ 32 -> cbits v = Z.log2 v + 1.
Proof.
  intros Hv. unfold cbits, countl_zero. rewrite u32_id by (unfold is_u32; lia).
  destruct (Z.eqb_spec v 0); lia.
Qed.

Lemma cbits_spec v : 0 < v < 2 ^ 32 -> 2 ^ (cbits v - 1) <= v < 2 ^ cbits v.
Proof.
  intros Hv. rewrite cbits_eq by done. replace (Z.log2 v + 1 - 1) with (Z.log2 v) by lia.
  apply Z.log2_spec. lia.
Qed.

Lemma cbits_bounds v n : 0 < v < 2 ^ n -> 0 <= n <= 32 -> 0 < cbits v <= n.
Proof.
  intros Hv Hn. assert (v < 2 ^ 32) by (pose proof (Z.pow_le_mono_r 2 n 32); lia).
  rewrite cbits_eq by lia. pose proof (Z.log2_nonneg v).
  assert (Z.log2 v < n) by (apply Z.log2_lt_pow2; lia). lia.
Qed.

Lemma pow2_half k : 0 < k -> 2 ^ k = 2 * 2 ^ (k - 1).
Proof. intros. rewrite <- Z.pow_succ_r by lia. f_equal. lia. Qed.

Lemma span_cbits b : 0 < b < 2 ^ 30 -> span (cbits b) b.
Proof.
  intros Hb. destruct (cbits_spec b); [lia |]. destruct (cbits_bounds b 30); [lia.. |].
  unfold span. rewrite (pow2_half (cbits b)) in * by lia. lia.
Qed.

Lemma span_cbits_pred b : 0 < b <= 2 ^ 30 -> span (cbits (u32 (b - 1))) b.
Proof.
  intros Hb. rewrite u32_id by (unfold is_u32; lia).
  destruct (decide (b = 1)) as [-> |]; [by cbn |].
  destruct (cbits_spec (b - 1)); [lia |]. destruct (cbits_bounds (b - 1) 30); [lia.. |].
  unfold span. rewrite (pow2_half (cbits (b - 1))) in * by lia. lia.
Qed.

Lemma low_mask_Ok n : 0 <= n < 31 -> low_mask n = Ok (2 ^ n - 1).
Proof.
  intros Hn. unfold low_mask. destruct (Z.leb_spec 0 n), (Z.ltb_spec n 31); try lia. cbn.
  by rewrite Z.shiftl_1_l.
Qed.

Lemma land_low x k : 0 <= k -> Z.land x (2 ^ k - 1) = x mod 2 ^ k.
Proof. intros. rewrite <- Z.land_ones by done. by rewrite Z.ones_equiv. Qed.

Lemma s32_mod_pow2 x k : 0 <= k <= 32 -> s32 x mod 2 ^ k = x mod 2 ^ k.
Proof.
  intros Hk. assert (exists c, x = s32 x + c * 2 ^ 32) as [c E].
  { exists ((x + 2 ^ 31) / 2 ^ 32). unfold s32.
    pose proof (Z.div_mod (x + 2 ^ 31) (2 ^ 32)). lia. }
  rewrite E at 2. replace (2 ^ 32) with (2 ^ (32 - k) * 2 ^ k)
    by (rewrite <- Z.pow_add_r by lia; f_equal; lia).
  rewrite Z.mul_assoc, Z.mod_add; [done |]. apply Z.pow_nonzero; lia.
Qed.

Lemma shiftr_mask k : 0 <= k -> Z.shiftr (2 ^ k - 1) 1 = 2 ^ Z.max 0 (k - 1) - 1.
Proof.
  intros Hk. rewrite Z.shiftr_div_pow2 by done. change (2 ^ 1) with 2.
  destruct (decide (k = 0)) as [-> |]; [done |]. rewrite (pow2_half k), Z.max_r by lia.
  Z.to_euclidean_division_equations. lia.
Qed.

Lemma stable_mod_eq x b k : span k b ->
  ceph_stable_mod x b (2 ^ k - 1) =
  if x mod 2 ^ k <? b then x mod 2 ^ k else x mod 2 ^ Z.max 0 (k - 1).
Proof.
  intros (Hk & Hb2 & Hb). unfold ceph_stable_mod.
  assert (2 ^ k <= 2 ^ 30) by (apply Z.pow_le_mono_r; lia).
  assert (0 < 2 ^ k) by (apply Z.pow_pos_nonneg; lia).
  rewrite (s32_id b), (s32_id (2 ^ k - 1)) by (unfold is_s32; lia).
  rewrite shiftr_mask, !land_low, !s32_mod_pow2 by lia. done.
Qed.

(** [ceph_stable_mod] with any mask that fits computes the cut; so masks that
    fit the same bound are interchangeable. *)
Lemma stable_mod_cut x b k : 0 <= x -> span k b -> cut b x (ceph_stable_mod x b (2 ^ k - 1)).
Proof.
  intros Hx Hs. rewrite stable_mod_eq by done. destruct Hs as (Hk & Hb2 & Hb).
  assert (Hup : forall i, k <= i -> x mod 2 ^ i < b -> x mod 2 ^ i = x mod 2 ^ k)
    by (intros; apply mod_pow2_agree; lia).
  destruct (Z.ltb_spec (x mod 2 ^ k) b) as [Hlt | Hge].
  { exists k. split; [lia |]. done. }
  assert (0 < k) as Hk0.
  { destruct (decide (k = 0)) as [-> |]; [| lia]. change (2 ^ 0) with 1 in *. rewrite Z.mod_1_r in Hge. lia. }
  rewrite Z.max_r by lia. exists (k - 1). split; [lia |]. split; [done |]. split.
  - rewrite (pow2_half k) in Hb2 by lia. pose proof (Z.mod_pos_bound x (2 ^ (k - 1))). lia.
  - intros i Hi Hib. destruct (decide (i = k - 1)) as [-> |]; [done |].
    rewrite Hup in Hib by lia. lia.
Qed.

Lemma stable_mod_u32 x b k : 0 <= x -> span k b ->
  u32 (ceph_stable_mod x b (2 ^ k - 1)) = ceph_stable_mod x b (2 ^ k - 1).
Proof.
  intros Hx Hs. destruct (cut_bounds _ _ _ (stable_mod_cut x b k Hx Hs)).
  destruct Hs as (Hk & _ & Hb). assert (2 ^ k <= 2 ^ 30) by (apply Z.pow_le_mono_r; lia).
  apply u32_id. unfold is_u32. lia.
Qed.

(** ** Well-formed pools *)

(** The counts are in range and the masks are those [calc_pg_masks] computes. *)
Definition pool_wf (pl : pg_pool_t) : Prop :=
  0 < pg_num pl < 2 ^ 30 /\ 0 < pgp_num pl < 2 ^ 30 /\ calc_pg_masks pl = Ok pl.

Definition pg_wf (p : pg_t) : Prop := is_u32 (m_seed p).

Lemma calc_pg_masks_Ok pl :
  0 < pg_num pl < 2 ^ 30 -> 0 < pgp_num pl < 2 ^ 30 ->
  exists pl', calc_pg_masks pl = Ok pl' /\ pool_wf pl' /\ pg_num pl' = pg_num pl /\
    pgp_num pl' = pgp_num pl /\ pg_num_pending pl' = pg_num_pending pl.
Proof.
  intros H1 H2. unfold pool_wf, calc_pg_masks.
  rewrite !low_mask_Ok by (apply span_cbits_pred; lia). cbn. eexists. split; [done |].
  cbn. rewrite !low_mask_Ok by (apply span_cbits_pred; lia). cbn. done.
Qed.

Lemma pool_wf_mask pl : pool_wf pl ->
  exists k, span k (pg_num pl) /\ pg_num_mask pl = 2 ^ k - 1.
Proof.
  intros (H1 & H2 & E). pose proof (span_cbits_pred (pg_num pl)) as Hs.
  exists (cbits (u32 (pg_num pl - 1))). split; [apply Hs; lia |].
  unfold calc_pg_masks in E. rewrite !low_mask_Ok in E by (apply span_cbits_pred; lia).
  cbn in E. injection E as E. by rewrite <- E at 1.
Qed.

Lemma raw_pg_to_pg_cut pl p : pool_wf pl -> pg_wf p ->
  m_pool (raw_pg_to_pg pl p) = m_pool p /\ cut (pg_num pl) (m_seed p) (m_seed (raw_pg_to_pg pl p)).
Proof.
  intros Hpl Hp. split; [done |]. destruct (pool_wf_mask pl Hpl) as (k & Hs & Hm).
  unfold pg_wf, is_u32 in Hp. cbn. rewrite Hm, stable_mod_u32 by (done || lia).
  apply stable_mod_cut; [lia | done].
Qed.

Lemma get_ancestor_cut p b : 0 < b < 2 ^ 30 -> pg_wf p ->
  exists s, get_ancestor p b = Ok (mk_pg (m_pool p) s) /\ cut b (m_seed p) s.
Proof.
  intros Hb Hp. pose proof (span_cbits b Hb) as Hs. unfold get_ancestor, pg_wf, is_u32 in *.
  rewrite low_mask_Ok by apply Hs. cbn. unfold set_ps. rewrite stable_mod_u32 by (done || lia).
  eexists. split; [done |]. apply stable_mod_cut; [lia | done].
Qed.

Lemma pg_eq p q : m_pool p = m_pool q -> m_seed p = m_seed q -> p = q.
Proof. destruct p, q; cbn; by intros -> ->. Qed.

(** ** Splitting *)

Lemma ancestor_of_raw po pn p :
  pool_wf po -> pool_wf pn -> pg_num po <= pg_num pn -> pg_wf p ->
  get_ancestor (raw_pg_to_pg pn p) (pg_num po) = Ok (raw_pg_to_pg po p).
Proof.
  intros Ho Hn Hle Hp. destruct (raw_pg_to_pg_cut po p Ho Hp) as [Epo Co].
  destruct (raw_pg_to_pg_cut pn p Hn Hp) as [Epn Cn].
  destruct (get_ancestor_cut (raw_pg_to_pg pn p) (pg_num po)) as (s & -> & Cs).
  - apply Ho.
  - unfold pg_wf, is_u32. pose proof (cut_bounds _ _ _ Cn). destruct Hn. lia.
  - f_equal. apply pg_eq; [done |]. cbn. unfold pg_wf, is_u32 in Hp.
    eapply cut_fun; [| exact Co]. eapply cut_trans; [lia | exact Hle | done..].
Qed.

(** [child old p s]: the seed [s] is a PG of the enlarged pool that holds what
    [p] held before. *)
Definition child_seed (old : Z) (p : pg_t) (s : Z) : Prop := cut old s (m_seed p).

Lemma stable_mod_child old s p :
  0 < old < 2 ^ 30 -> 0 <= s ->
  (u32 (ceph_stable_mod s old (2 ^ cbits old - 1)) =? m_seed p) = true <-> child_seed old p s.
Proof.
  intros Ho Hs. pose proof (span_cbits old Ho) as Hsp. rewrite stable_mod_u32 by done.
  pose proof (stable_mod_cut s old _ Hs Hsp) as C. rewrite Z.eqb_eq. unfold child_seed. split.
  - by intros <-.
  - intros C'. by eapply cut_fun.
Qed.

Lemma elem_of_brute (Q : Z -> bool) pool l (acc : gset pg_t) (b : bool) :
  let r := foldl (fun acc x => if Q x then (true, {[ mk_pg pool x ]} ∪ acc.2) else acc) (b, acc) l in
  (forall q, q ∈ r.2 <-> q ∈ acc \/ (m_pool q = pool /\ m_seed q ∈ l /\ Q (m_seed q) = true)) /\
  r.1 = b || existsb Q l.
Proof.
  revert b acc. induction l as [| x l IH]; intros b acc; cbn.
  { split; [| by rewrite orb_false_r]. intros q. rewrite elem_of_nil. tauto. }
  destruct (Q x) eqn:E.
  - destruct (IH true ({[ mk_pg pool x ]} ∪ acc)) as [H1 H2]. split; [| by rewrite H2, orb_true_r].
    intros q. rewrite H1, elem_of_union, elem_of_singleton, elem_of_cons. split.
    + intros [[-> | ?] | (? & ? & ?)]; cbn; auto.
    + intros [? | (? & [Hx | ?] & ?)]; [by left; right | left; left | by right].
      by apply pg_eq.
  - destruct (IH b acc) as [H1 H2]. split; [| by rewrite H2]. intros q.
    rewrite H1, elem_of_cons. split; [intros [? | (? & ? & ?)]; auto |].
    intros [? | (? & [Hx | ?] & ?)]; [by left | congruence | by right].
Qed.

(** Bits of a number split into blocks of [e] bits. *)
Lemma testbit_block X r e i : 0 <= e -> 0 <= i -> 0 <= r < 2 ^ e ->
  Z.testbit (X * 2 ^ e + r) i = if i <? e then Z.testbit r i else Z.testbit X (i - e).
Proof.
  intros He Hi Hr. destruct (Z.ltb_spec i e).
  - rewrite <- Z.mod_pow2_bits_low with (n := e) by done.
    rewrite Z.add_comm, Z.mod_add, Z.mod_small by lia. done.
  - replace i with (i - e + e) at 1 by lia. rewrite <- Z.div_pow2_bits by lia.
    rewrite Z.div_add_l, Z.div_small, Z.add_0_r by lia. done.
Qed.

Lemma lor_block n e s : 0 <= e -> 0 <= n -> 0 <= s ->
  Z.lor (n * 2 ^ e) s = Z.lor n (s / 2 ^ e) * 2 ^ e + s mod 2 ^ e.
Proof.
  intros He Hn Hs. assert (0 < 2 ^ e) by (apply Z.pow_pos_nonneg; lia).
  apply Z.bits_inj'. intros i Hi. rewrite testbit_block by (lia || by apply Z.mod_pos_bound).
  rewrite Z.lor_spec. destruct (Z.ltb_spec i e).
  - rewrite Z.mul_pow2_bits_low, Z.mod_pow2_bits_low by done. done.
  - rewrite Z.mul_pow2_bits, Z.lor_spec, Z.div_pow2_bits by lia. do 2 f_equal. lia.
Qed.

Lemma lor_1 n : 0 <= n -> Z.lor n 1 = 2 * (n / 2) + 1.
Proof.
  intros Hn. assert (Hb : forall x, 0 <= x -> Z.lor (x * 2 ^ 1) 1 = 2 * x + 1).
  { intros x Hx. rewrite lor_block by lia. change (1 / 2 ^ 1) with 0. rewrite Z.lor_0_r.
    change (2 ^ 1) with 2. change (1 mod 2) with 1. lia. }
  assert (0 <= n / 2) by (apply Z.div_pos; lia).
  destruct (decide (n mod 2 = 0)) as [E | E].
  - rewrite <- Hb by done. f_equal. change (2 ^ 1) with 2. Z.to_euclidean_division_equations. lia.
  - assert (n = Z.lor (n / 2 * 2 ^ 1) 1) as En by (rewrite Hb by done; Z.to_euclidean_division_equations; lia).
    rewrite En at 1. rewrite <- Z.lor_assoc, Z.lor_diag. by rewrite Hb.
Qed.

(** The seed the loop examines in round [n]. *)
Section split.
Context (pool seed old new : Z) (Hold : 0 < old < 2 ^ 30) (Hnew : old < new < 2 ^ 30)
        (Hseed : 0 <= seed < old).

Let e := cbits old - 1.
Let H := 2 ^ e.

Lemma split_H : 0 <= e < 30 /\ 0 < H /\ H <= old < 2 * H.
Proof.
  destruct (cbits_spec old); [lia |]. destruct (cbits_bounds old 30); [lia.. |].
  unfold H, e. rewrite <- pow2_half by lia. split; [lia |]. split; [apply Z.pow_pos_nonneg; lia |]. lia.
Qed.

Definition cand (n : Z) : Z := Z.lor (n * H) seed.

Lemma cand_eq n : 0 <= n ->
  cand n = (if seed <? H then n else 2 * (n / 2) + 1) * H + seed mod H.
Proof.
  intros Hn. destruct split_H as (He & HH & Hoh). unfold cand, H at 1. rewrite lor_block by lia. fold H.
  destruct (Z.ltb_spec seed H).
  - rewrite Z.div_small, Z.lor_0_r by lia. done.
  - replace (seed / H) with 1 by (apply Z.div_unique with (seed - H); lia). by rewrite lor_1.
Qed.

Lemma cand_bounds n : 0 <= n -> n * H <= cand n < (n + 2) * H.
Proof.
  intros Hn. rewrite cand_eq by done. destruct split_H as (He & HH & _).
  pose proof (Z.mod_pos_bound seed H HH).
  assert (n <= 2 * (n / 2) + 1 <= n + 1) by (Z.to_euclidean_division_equations; lia).
  destruct (seed <? H); nia.
Qed.

Lemma cand_mono m n : 0 <= m <= n -> cand m <= cand n.
Proof.
  intros Hn. rewrite !cand_eq by lia. destruct split_H as (He & HH & _).
  assert (2 * (m / 2) + 1 <= 2 * (n / 2) + 1) by (Z.to_euclidean_division_equations; lia).
  destruct (seed <? H); nia.
Qed.

(** Every descendant is examined. *)
Lemma child_is_cand s : old <= s -> cut old s seed -> s = cand (s / H) /\ 1 <= s / H.
Proof.
  intros Hs C. destruct split_H as (He & HH & Hoh).
  pose proof (span_cbits old Hold) as Hsp.
  assert (E : seed = ceph_stable_mod s old (2 ^ cbits old - 1))
    by (eapply cut_fun; [exact C | apply stable_mod_cut; [lia | done]]).
  rewrite stable_mod_eq in E by done. destruct Hsp as (Hsp & _).
  rewrite Z.max_r in E by (unfold e in *; lia). fold e in E. fold H in E.
  rewrite (pow2_half (cbits old)) in E by (unfold e in *; lia). fold e in E. fold H in E.
  assert (1 <= s / H) by (apply Z.div_le_lower_bound; lia). split; [| done].
  rewrite cand_eq by lia.
  assert (Hm : 0 <= s mod H < H) by (apply Z.mod_pos_bound; lia).
  assert (E2 : s mod (2 * H) = s mod H + H * ((s / H) mod 2)).
  { rewrite (Z.mul_comm 2 H), Z.rem_mul_r by lia. done. }
  pose proof (Z.div_mod s H). pose proof (Z.mod_pos_bound (s / H) 2).
  assert (s / H = 2 * ((s / H) / 2) + (s / H) mod 2) as Ed by (apply Z.div_mod; lia).
  destruct (Z.ltb_spec (s mod (2 * H)) old); destruct (Z.ltb_spec seed H).
  - assert ((s / H) mod 2 = 0) by nia. rewrite (Z.mod_small seed H) by lia. nia.
  - assert ((s / H) mod 2 = 1) by nia. replace (seed mod H) with (s mod H); [nia |].
    apply Z.mod_unique with 1; nia.
  - rewrite (Z.mod_small seed H) by lia. nia.
  - lia.
Qed.

Definition found (m : Z) : Prop := old <= cand m < new /\ cut old (cand m) seed.

(** What the loop has collected before round [n]. *)
Definition split_acc (n : Z) (acc : bool * gset pg_t) : Prop :=
  (forall q, q ∈ acc.2 <-> m_pool q = pool /\ exists m, 1 <= m < n /\ m_seed q = cand m /\ found m) /\
  acc.1 = bool_decide (acc.2 <> ∅).

Lemma split_acc_skip n acc : 1 <= n -> ~ found n -> split_acc n acc -> split_acc (n + 1) acc.
Proof.
  intros Hn Hf [H1 H2]. split; [| done]. intros q. rewrite H1. split.
  - intros (? & m & ? & ?). split; [done |]. exists m. split; [lia | done].
  - intros (? & m & ? & Hq & Hm). split; [done |]. exists m. split; [| done].
    destruct (decide (m = n)) as [-> |]; [done | lia].
Qed.

Lemma split_acc_add n acc : 1 <= n -> found n -> split_acc n acc ->
  split_acc (n + 1) (true, {[ mk_pg pool (cand n) ]} ∪ acc.2).
Proof.
  intros Hn Hf [H1 H2]. split; [| symmetry; apply bool_decide_eq_true; set_solver]. intros q.
  cbn. rewrite elem_of_union, elem_of_singleton, H1. split.
  - intros [-> | (? & m & ? & ?)]; (split; [done |]).
    + exists n. split; [lia | done].
    + exists m. split; [lia | done].
  - intros (? & m & ? & Hq & Hm). destruct (decide (m = n)) as [-> |].
    + left. by apply pg_eq.
    + right. split; [done |]. exists m. split; [lia | done].
Qed.

Lemma is_split_loop_Ok fuel n acc :
  1 <= n -> (n - 1) * H < new -> new - (n - 1) <= Z.of_nat fuel -> split_acc n acc ->
  exists r n', is_split_loop fuel (mk_pg pool seed) old new (cbits old) (2 ^ cbits old - 1) n acc = Ok r /\
    split_acc n' r /\ new <= cand n' /\ 1 <= n'.
Proof.
  destruct split_H as (He & HH & Hoh). assert (HH30 : H <= 2 ^ 30) by lia.
  revert n acc. induction fuel as [| fuel IH]; intros n acc Hn Hlt Hf Hacc; [nia |].
  assert (Hs : Z.lor (shl32 n (cbits old - 1)) seed = cand n).
  { unfold shl32, cand. fold e. rewrite Z.shiftl_mul_pow2 by lia. fold H.
    rewrite u32_id; [done |]. unfold is_u32. nia. }
  assert (Hnext : u32 (n + 1) = n + 1) by (apply u32_id; unfold is_u32; nia).
  pose proof (cand_bounds n).
  cbn [is_split_loop m_seed m_pool]. rewrite Hs, Hnext.
  destruct (Z.ltb_spec (cand n) old); [| destruct (Z.eqb_spec (cand n) seed)]; cbn [orb].
  - apply IH; [lia | nia | lia |]. apply split_acc_skip; [done | | done]. unfold found. lia.
  - lia.
  - destruct (Z.leb_spec new (cand n)); [by exists acc, n |].
    pose proof (stable_mod_child old (cand n) (mk_pg pool seed)) as Hc. unfold child_seed in Hc. cbn in Hc.
    apply IH; [lia | nia | lia |].
    destruct (Z.eqb_spec (u32 (ceph_stable_mod (cand n) old (2 ^ cbits old - 1))) seed).
    + apply split_acc_add; [done | | done]. split; [done |]. apply Hc; [lia | lia | done].
    + apply split_acc_skip; [done | | done]. intros [_ C]. apply Hc in C; [done | lia | lia].
Qed.

Lemma split_acc_final n acc : new <= cand n -> 1 <= n -> split_acc n acc ->
  forall q, q ∈ acc.2 <-> m_pool q = pool /\ old <= m_seed q < new /\ cut old (m_seed q) seed.
Proof.
  intros Hc Hn [H1 _] q. rewrite H1. destruct split_H as (He & HH & Hoh). split.
  - intros (? & m & ? & -> & Hm). done.
  - intros (Hp & Hq & C). split; [done |].
    destruct (child_is_cand (m_seed q)) as [Eq Hm]; [lia | done |].
    exists (m_seed q / H). unfold found. rewrite <- Eq. split; [| done]. split; [done |].
    destruct (Z.lt_ge_cases (m_seed q / H) n) as [| Hge]; [done |].
    pose proof (cand_mono n (m_seed q / H)). lia.
Qed.
End split.

Lemma is_split_spec fuel p old new :
  0 < old -> old < new < 2 ^ 30 -> 0 <= m_seed p < old -> new <= Z.of_nat fuel ->
  exists children, is_split fuel p old new = Ok (bool_decide (children <> ∅), children) /\
    forall q, q ∈ children <->
      m_pool q = m_pool p /\ old <= m_seed q < new /\ cut old (m_seed q) (m_seed p).
Proof.
  intros Ho Hn Hs Hf. destruct p as [pool seed]. cbn [m_seed m_pool] in *.
  assert (Hold : 0 < old < 2 ^ 30) by lia. destruct (span_cbits old Hold) as [Hk _].
  unfold is_split. cbn [m_seed].
  destruct (Z.leb_spec old seed), (Z.leb_spec new old); try lia.
  rewrite low_mask_Ok by done.
  destruct (is_split_loop_Ok pool seed old new Hold Hn Hs fuel 1 (false, ∅))
    as ([b ch] & n & E & Hacc & Hn' & Hn1).
  - lia.
  - lia.
  - lia.
  - split; [| symmetry; by apply bool_decide_eq_false; intros []]. intros q.
    cbn [snd]. rewrite elem_of_empty. split; [done |]. intros (_ & m & ? & _). lia.
  - exists ch. cbn [mbind res_bind]. rewrite E. split.
    + f_equal. f_equal. apply (proj2 Hacc).
    + by apply (split_acc_final pool seed old new Hold Hn Hs n (b, ch)).
Qed.

Lemma is_split_brute_spec p old new :
  0 < old -> old < new < 2 ^ 30 ->
  exists children, is_split_brute p old new = Ok (bool_decide (children <> ∅), children) /\
    forall q, q ∈ children <->
      m_pool q = m_pool p /\ old <= m_seed q < new /\ cut old (m_seed q) (m_seed p).
Proof.
  intros Ho Hn. assert (Hold : 0 < old < 2 ^ 30) by lia. destruct (span_cbits old Hold) as [Hk _].
  unfold is_split_brute. rewrite low_mask_Ok by done. cbn [mbind res_bind mret res_ret].
  set (Q := fun x => u32 (ceph_stable_mod x old (2 ^ cbits old - 1)) =? m_seed p).
  destruct (elem_of_brute Q (m_pool p) (seqZ old (new - old)) ∅ false) as [H1 H2].
  set (r := foldl _ _ _) in *. fold r in H1, H2.
  assert (Hq : forall q, q ∈ r.2 <->
    m_pool q = m_pool p /\ old <= m_seed q < new /\ cut old (m_seed q) (m_seed p)).
  { intros q. rewrite H1, elem_of_empty, elem_of_seqZ. split.
    - intros [[] | (? & ? & HQ)]. split; [done |]. split; [lia |]. apply stable_mod_child in HQ; [done | lia..].
    - intros (? & ? & C). right. split; [done |]. split; [lia |]. apply stable_mod_child; [lia.. | done]. }
  exists r.2. split; [| done]. f_equal. rewrite (surjective_pairing r) at 1. f_equal. rewrite H2. cbn [orb].
  symmetry. destruct (existsb Q _) eqn:Ex.
  - apply bool_decide_eq_true. apply existsb_exists in Ex as (x & Hin & HQ).
    apply list_elem_of_In, elem_of_seqZ in Hin. intros Hr.
    assert (mk_pg (m_pool p) x ∈ r.2) as Hx; [| rewrite Hr in Hx; set_solver].
    apply H1. right. cbn. rewrite elem_of_seqZ. done.
  - apply bool_decide_eq_false. intros Hne. apply set_choose_L in Hne as [q Hin].
    apply H1 in Hin as [Hin | (_ & Hin & HQ)]; [set_solver |].
    assert (existsb Q (seqZ old (new - old)) = true); [| congruence].
    apply existsb_exists. exists (m_seed q). split; [by apply list_elem_of_In | done].
Qed.

Lemma get_ancestor_iff q p b : 0 < b < 2 ^ 30 -> pg_wf q ->
  get_ancestor q b = Ok p <-> m_pool q = m_pool p /\ cut b (m_seed q) (m_seed p).
Proof.
  intros Hb Hq. destruct (get_ancestor_cut q b Hb Hq) as (s & -> & C). split.
  - intros [= <-]. done.
  - intros [Hp C']. f_equal. apply pg_eq; [done |]. by eapply cut_fun.
Qed.

(** C29. PG splitting: for every PG of a pool and every larger [pg_num], the loop
    of [is_split] ends, and the children it reports are those the brute-force
    search reports: the new PGs whose ancestor is the given PG. *)
Theorem is_split_correct fuel p old new :
  0 < old -> old < new < 2 ^ 30 -> 0 <= m_seed p < old -> new <= Z.of_nat fuel ->
  exists children,
    is_split fuel p old new = Ok (bool_decide (children <> ∅), children) /\
    is_split_brute p old new = is_split fuel p old new /\
    forall q, q ∈ children <->
      m_pool q = m_pool p /\ old <= m_seed q < new /\ get_ancestor q old = Ok p.
Proof.
  intros Ho Hn Hs Hf. destruct (is_split_spec fuel p old new) as (ch & E & Hch); try done.
  destruct (is_split_brute_spec p old new) as (ch' & E' & Hch'); try done.
  assert (ch' = ch) as -> by (apply set_eq; intros q; rewrite Hch, Hch'; done).
  exists ch. split; [done |]. split; [congruence |]. intros q. rewrite Hch. split.
  - intros (? & ? & C). split; [done |]. split; [done |]. apply get_ancestor_iff; [lia | | done].
    unfold pg_wf, is_u32. lia.
  - intros (? & ? & C). split; [done |]. split; [done |]. apply get_ancestor_iff in C; [apply C | lia |].
    unfold pg_wf, is_u32. lia.
Qed.

Lemma is_split_correct_witness :
  exists children,
    is_split 100 (mk_pg 5 2) 6 13 = Ok (bool_decide (children <> ∅), children) /\
    is_split_brute (mk_pg 5 2) 6 13 = is_split 100 (mk_pg 5 2) 6 13 /\
    forall q, q ∈ children <-> m_pool q = 5 /\ 6 <= m_seed q < 13 /\ get_ancestor q 6 = Ok (mk_pg 5 2).
Proof. apply (is_split_correct 100 (mk_pg 5 2) 6 13); cbn; lia. Defined.

Lemma raw_pg_range pl p : pool_wf pl -> pg_wf p -> 0 <= m_seed (raw_pg_to_pg pl p) < pg_num pl.
Proof. intros Hpl Hp. eapply cut_bounds, raw_pg_to_pg_cut; done. Qed.

(** C31. What a split moves: when [pg_num] grows, the PG of an object's hash either
    stays the same or becomes one of the children [is_split] reports for the old
    PG; in both cases its ancestor is the old PG. *)
Theorem split_moves_to_children fuel po pn raw children split :
  pool_wf po -> pool_wf pn -> pg_num po < pg_num pn -> pg_num pn <= Z.of_nat fuel -> pg_wf raw ->
  is_split fuel (raw_pg_to_pg po raw) (pg_num po) (pg_num pn) = Ok (split, children) ->
  get_ancestor (raw_pg_to_pg pn raw) (pg_num po) = Ok (raw_pg_to_pg po raw) /\
  (raw_pg_to_pg pn raw = raw_pg_to_pg po raw \/ raw_pg_to_pg pn raw ∈ children).
Proof.
  intros Hpo Hpn Hlt Hf Hraw Hsp. pose proof (raw_pg_range po raw Hpo Hraw) as Hro.
  pose proof (raw_pg_range pn raw Hpn Hraw) as Hrn. destruct Hpo as (Ho & Hpo'), Hpn as (Hn & Hpn').
  assert (Ha : get_ancestor (raw_pg_to_pg pn raw) (pg_num po) = Ok (raw_pg_to_pg po raw))
    by (apply ancestor_of_raw; [split | split | lia |]; done).
  split; [done |]. apply get_ancestor_iff in Ha; [| lia | unfold pg_wf, is_u32; lia].
  destruct Ha as [Hp C].
  destruct (is_split_spec fuel (raw_pg_to_pg po raw) (pg_num po) (pg_num pn)) as (ch & E & Hch); [lia.. |].
  rewrite Hsp in E. injection E as -> ->.
  destruct (Z.lt_ge_cases (m_seed (raw_pg_to_pg pn raw)) (pg_num po)) as [Hl | Hl].
  - left. apply pg_eq; [done |]. eapply cut_fun; [| exact C]. apply cut_id. lia.
  - right. apply Hch. split; [done |]. split; [lia | done].
Qed.

Definition ex_pool (n : Z) : pg_pool_t :=
  mk_pool FLAG_HASHPSPOOL TYPE_REPLICATED 3 0 CEPH_STR_HASH_RJENKINS n n n
    (Z.ones (cbits (n - 1))) (Z.ones (cbits (n - 1))).

Lemma ex_pool_wf n : n = 6 \/ n = 13 -> pool_wf (ex_pool n).
Proof. intros [-> | ->]; (split; [done |]; split; [done | reflexivity]). Qed.

Lemma split_moves_to_children_witness :
  get_ancestor (raw_pg_to_pg (ex_pool 13) (mk_pg 5 0xcafe0012)) 6 = Ok (raw_pg_to_pg (ex_pool 6) (mk_pg 5 0xcafe0012)) /\
  (raw_pg_to_pg (ex_pool 13) (mk_pg 5 0xcafe0012) = raw_pg_to_pg (ex_pool 6) (mk_pg 5 0xcafe0012) \/
   raw_pg_to_pg (ex_pool 13) (mk_pg 5 0xcafe0012) ∈ ({[mk_pg 5 10; mk_pg 5 6]} : gset pg_t)).
Proof.
  apply (split_moves_to_children 13 (ex_pool 6) (ex_pool 13) (mk_pg 5 0xcafe0012) {[mk_pg 5 10; mk_pg 5 6]} true);
    [apply ex_pool_wf; auto.. | done | done | done | vm_compute; reflexivity].
Defined.

(** ** Merging *)

Lemma land_low_ones x k : 0 <= k -> Z.land x (low_ones k) = x mod 2 ^ k.
Proof.
  intros Hk. unfold low_ones. rewrite <- Z.land_ones by done. f_equal.
  unfold Z.ones. rewrite Z.shiftl_mul_pow2, Z.shiftl_1_l by done. unfold Z.lnot. lia.
Qed.

Lemma get_parent_Ok p : 0 < m_seed p < 2 ^ 32 ->
  get_parent p = Ok (mk_pg (m_pool p) (m_seed p mod 2 ^ (cbits (m_seed p) - 1))).
Proof.
  intros Hp. destruct (cbits_bounds (m_seed p) 32); [lia.. |]. unfold get_parent.
  destruct (Z.eqb_spec (cbits (m_seed p)) 0); [lia |]. rewrite land_low_ones by lia. done.
Qed.

(** Dropping the highest set bit until the seed is below [b] cuts it to [b]. *)
Lemma merge_parent_loop_Ok fuel x j t b :
  0 < b -> 0 <= x -> 0 <= j <= 32 -> m_seed t = x mod 2 ^ j -> m_seed t < 2 ^ 32 ->
  (forall i, j <= i -> x mod 2 ^ i < b -> x mod 2 ^ i = m_seed t) -> m_seed t < 2 ^ (Z.of_nat fuel - 1) ->
  exists s, merge_parent_loop fuel t b = Ok (mk_pg (m_pool t) s) /\ cut b x s.
Proof.
  intros Hb Hx. revert j t. induction fuel as [| fuel IH]; intros j t Hj Ht Hu Hup Hf.
  { pose proof (Z.mod_pos_bound x (2 ^ j)) as Hm. rewrite <- Ht in Hm.
    rewrite (Z.pow_neg_r 2) in Hf by lia. assert (0 < 2 ^ j) by (apply Z.pow_pos_nonneg; lia). lia. }
  cbn [merge_parent_loop]. destruct (Z.leb_spec b (m_seed t)) as [Hle | Hlt].
  - rewrite get_parent_Ok by lia. cbn [mbind res_bind].
    destruct (cbits_spec (m_seed t)) as [Hc1 Hc2]; [lia |]. destruct (cbits_bounds (m_seed t) 32); [lia.. |].
    set (c := cbits (m_seed t)) in *.
    assert (c - 1 < j) as Hcj.
    { apply Z.pow_lt_mono_r_iff with 2; [lia | lia |]. pose proof (Z.mod_pos_bound x (2 ^ j)).
      assert (0 < 2 ^ j) by (apply Z.pow_pos_nonneg; lia). lia. }
    assert (Et : m_seed t mod 2 ^ (c - 1) = x mod 2 ^ (c - 1))
      by (rewrite Ht, mod_pow2_mod, Z.min_r by lia; done).
    apply (IH (c - 1) (mk_pg (m_pool t) (m_seed t mod 2 ^ (c - 1)))); cbn [m_seed].
    + lia.
    + done.
    + pose proof (Z.mod_le (m_seed t) (2 ^ (c - 1))). assert (0 < 2 ^ (c - 1)) by (apply Z.pow_pos_nonneg; lia). lia.
    + intros i Hi Hib. destruct (decide (i = c - 1)) as [-> |]; [done |].
      destruct (Z.le_gt_cases j i) as [Hji | Hji]; [specialize (Hup i Hji Hib); lia |].
      assert (x mod 2 ^ i = m_seed t); [| lia].
      rewrite <- (mod_pow2_small (m_seed t) c i) by lia. rewrite Ht, mod_pow2_mod, Z.min_r by lia. done.
    + eapply Z.lt_le_trans; [apply Z.mod_pos_bound, Z.pow_pos_nonneg; lia |].
      apply Z.pow_le_mono_r; [lia |].
      assert (c - 1 < Z.of_nat (S fuel) - 1); [| lia].
      apply Z.pow_lt_mono_r_iff with 2; [lia | lia |]. lia.
  - exists (m_seed t). split; [cbn; f_equal; by apply pg_eq |]. exists j.
    split; [lia |]. split; [done |]. split; [done |]. done.
Qed.

(** PG merging: when [pg_num] shrinks, every PG beyond the new [pg_num] is a
    merge source; the loop of [is_merge_source] finds its target, which is the
    source's ancestor under the smaller [pg_num], and [is_merge_target] confirms
    it: splitting undoes merging. *)
Theorem merge_target_correct fuel p old new :
  0 < new -> new < old < 2 ^ 30 -> new <= m_seed p < old -> 33 <= Z.of_nat fuel -> old <= Z.of_nat fuel ->
  exists t, is_merge_source fuel p old new = Ok (Some t) /\
    get_ancestor p new = Ok t /\ is_merge_target fuel t old new = Ok true.
Proof.
  intros Hn Ho Hp Hf Hf2. unfold is_merge_source.
  destruct (Z.ltb_spec (m_seed p) old), (Z.leb_spec new (m_seed p)); try lia. cbn [andb].
  destruct (merge_parent_loop_Ok fuel (m_seed p) 32 p new) as (s & -> & C).
  - lia.
  - lia.
  - lia.
  - symmetry. apply Z.mod_small. lia.
  - lia.
  - intros i Hi _. apply mod_pow2_small with 32; lia.
  - apply Z.lt_le_trans with (2 ^ 32); [lia |]. apply Z.pow_le_mono_r; lia.
  - exists (mk_pg (m_pool p) s). split; [done |]. pose proof (cut_bounds _ _ _ C) as Hs.
    split; [apply get_ancestor_iff; [lia | unfold pg_wf, is_u32; lia | done] |].
    unfold is_merge_target. cbn [m_seed]. destruct (Z.ltb_spec s new); [| lia].
    destruct (is_split_spec fuel (mk_pg (m_pool p) s) new old) as (ch & -> & Hch); [lia.. | cbn; lia | done |].
    cbn [mbind res_bind fst]. f_equal. apply bool_decide_eq_true. intros Hemp.
    assert (p ∈ ch) as Hin; [| rewrite Hemp in Hin; set_solver]. apply Hch. done.
Qed.

Lemma merge_target_correct_witness :
  exists t, is_merge_source 40 (mk_pg 5 12) 13 6 = Ok (Some t) /\
    get_ancestor (mk_pg 5 12) 6 = Ok t /\ is_merge_target 40 t 13 6 = Ok true.
Proof. apply (merge_target_correct 40 (mk_pg 5 12) 13 6); cbn; lia. Defined.

(** ** The hashes of a PG *)

Lemma split_bits_iff p n x bits : 0 < n < 2 ^ 30 -> 0 <= m_seed p < n -> 0 <= x ->
  get_split_bits p n = Ok bits -> 0 <= bits < 31 /\ m_seed p < 2 ^ bits /\
    (cut n x (m_seed p) <-> x mod 2 ^ bits = m_seed p).
Proof.
  intros Hn Hp Hx. unfold get_split_bits. destruct (Z.eqb_spec n 1) as [-> | Hne].
  { intros [= <-]. split; [lia |]. split; [cbn; lia |]. split; [intros _; rewrite Z.mod_1_r; lia |].
    intros E. rewrite Z.mod_1_r in E. rewrite <- E. exists 0. split; [done |]. rewrite Z.mod_1_r.
    split; [done |]. split; [lia |]. intros i Hi Hib.
    pose proof (Z.mod_pos_bound x (2 ^ i)). assert (0 < 2 ^ i) by (apply Z.pow_pos_nonneg; lia). lia. }
  destruct (Z.ltb_spec 1 n); [| lia]. cbn [negb].
  destruct (cbits_spec n) as [Hc1 Hc2]; [lia |]. destruct (cbits_bounds n 30); [lia.. |].
  set (c := cbits n) in *. destruct (Z.eqb_spec c 0); [lia |].
  rewrite Z.shiftl_1_l. rewrite (pow2_half c) in Hc2 by lia. set (M := 2 ^ (c - 1)) in *.
  assert (Hcut : cut n x (m_seed p) <-> ceph_stable_mod x n (2 ^ c - 1) = m_seed p).
  { pose proof (stable_mod_cut x n c Hx (span_cbits n Hn)) as C. split; [intros; by eapply cut_fun | by intros <-]. }
  rewrite stable_mod_eq in Hcut by (apply span_cbits; done).
  rewrite Z.max_r, (pow2_half c) in Hcut by lia. fold M in Hcut.
  assert (En : n mod M = n - M) by (symmetry; apply Z.mod_unique with 1; lia). rewrite En.
  assert (E2 : x mod (2 * M) = x mod M + M * ((x / M) mod 2)) by (rewrite (Z.mul_comm 2 M), Z.rem_mul_r by lia; done).
  pose proof (Z.mod_pos_bound x M).
  assert (Hr : (x / M) mod 2 = 0 \/ (x / M) mod 2 = 1) by (pose proof (Z.mod_pos_bound (x / M) 2); lia).
  assert (Hsm : m_seed p < M -> m_seed p mod M = m_seed p) by (intros; apply Z.mod_small; lia).
  assert (Hsl : M <= m_seed p -> m_seed p mod M = m_seed p - M) by (intros; symmetry; apply Z.mod_unique with 1; lia).
  destruct (Z.ltb_spec (m_seed p mod M) (n - M)); intros [= <-]; (split; [lia |]).
  - rewrite (pow2_half c) by lia. fold M. split; [lia |]. rewrite Hcut.
    destruct (Z.ltb_spec (x mod (2 * M)) n); [done |]. destruct Hr as [Er | Er]; rewrite Er in E2; lia.
  - fold M. split; [lia |]. rewrite Hcut. destruct (Z.ltb_spec (x mod (2 * M)) n); [| done].
    destruct Hr as [Er | Er]; rewrite Er in E2; lia.
Qed.

Lemma get_split_bits_Ok p n : 0 < n < 2 ^ 30 -> exists bits, get_split_bits p n = Ok bits.
Proof.
  intros Hn. unfold get_split_bits. destruct (Z.eqb_spec n 1); [by eexists |].
  destruct (Z.ltb_spec 1 n); [| lia]. cbn [negb]. destruct (cbits_bounds n 30); [lia.. |].
  destruct (Z.eqb_spec (cbits n) 0); [lia |]. case_match; by eexists.
Qed.

Lemma cbits_unique v k : 1 <= k <= 32 -> 2 ^ (k - 1) <= v < 2 ^ k -> cbits v = k.
Proof.
  intros Hk Hv. assert (0 < 2 ^ (k - 1)) by (apply Z.pow_pos_nonneg; lia).
  assert (2 ^ k <= 2 ^ 32) by (apply Z.pow_le_mono_r; lia).
  rewrite cbits_eq by lia. rewrite (Z.log2_unique v (k - 1)); [lia | lia |].
  replace (Z.succ (k - 1)) with k by lia. done.
Qed.

Lemma mask_succ k : 0 <= k < 31 -> u32 (2 ^ k - 1 + 1) = 2 ^ k.
Proof.
  intros Hk. assert (2 ^ k <= 2 ^ 30) by (apply Z.pow_le_mono_r; lia).
  assert (0 < 2 ^ k) by (apply Z.pow_pos_nonneg; lia).
  replace (2 ^ k - 1 + 1) with (2 ^ k) by lia. apply u32_id. unfold is_u32. lia.
Qed.

(** The case distinction that [get_pg_num_divisor] and [get_random_pg_position]
    make on the masks selects the same number of bits as [get_split_bits]. *)
Lemma split_bits_by_mask pl p : pool_wf pl -> 0 <= m_seed p < pg_num pl ->
  let mask := pg_num_mask pl in
  let half := Z.shiftr mask 1 in
  exists bits, get_split_bits p (pg_num pl) = Ok bits /\ 0 <= bits < 31 /\
    (if pg_num pl =? u32 (mask + 1) then 2 ^ bits = pg_num pl /\ mask = 2 ^ bits - 1
     else if Z.land (m_seed p) half <? Z.land (pg_num pl) half
          then 2 ^ bits = u32 (mask + 1) /\ mask = 2 ^ bits - 1
          else 2 ^ bits = Z.shiftr (u32 (mask + 1)) 1 /\ half = 2 ^ bits - 1).
Proof.
  intros Hpl Hp mask half. destruct (pool_wf_mask pl Hpl) as (k & (Hk & Hk2 & Hk1) & Em).
  unfold half, mask. rewrite Em, mask_succ, shiftr_mask by lia. set (n := pg_num pl) in *.
  unfold get_split_bits. destruct (Z.eqb_spec n (2 ^ k)) as [En | En].
  - exists k. split; [| done]. destruct (Z.eqb_spec n 1) as [E1 | E1].
    { f_equal. rewrite En in E1. destruct (decide (k = 0)) as [-> |]; [done |].
      rewrite (pow2_half k) in E1 by lia. lia. }
    assert (0 < 2 ^ k) by (apply Z.pow_pos_nonneg; lia).
    destruct (Z.ltb_spec 1 n); [| lia]. cbn [negb].
    assert (cbits n = k + 1) as ->.
    { apply cbits_unique; [lia |]. replace (k + 1 - 1) with k by lia. rewrite (pow2_half (k + 1)) by lia.
      replace (k + 1 - 1) with k by lia. lia. }
    destruct (Z.eqb_spec (k + 1) 0); [lia |]. replace (k + 1 - 1) with k by lia.
    rewrite Z.shiftl_1_l, En, Z.mod_same by lia. pose proof (Z.mod_pos_bound (m_seed p) (2 ^ k)).
    destruct (Z.ltb_spec (m_seed p mod 2 ^ k) 0); [lia | done].
  - assert (0 < k) as Hk0.
    { destruct (decide (k = 0)) as [-> |]; [| lia]. change (2 ^ 0) with 1 in *. lia. }
    rewrite Z.max_r, !land_low by lia. pose proof (pow2_half k Hk0) as Hh.
    assert (Hc : cbits n = k) by (apply cbits_unique; lia).
    rewrite Z.shiftr_div_pow2 by lia. change (2 ^ 1) with 2.
    replace (2 ^ k / 2) with (2 ^ (k - 1)) by (rewrite Hh, Z.mul_comm, Z.div_mul; lia).
    destruct (Z.eqb_spec n 1) as [E1 | E1].
    + assert (2 ^ k = 2 ^ 1) as E2 by (change (2 ^ 1) with 2; lia).
      apply Z.pow_inj_r in E2; [| lia..]. subst k. exists 0. split; [done |]. split; [lia |].
      rewrite E2. change (2 ^ (1 - 1)) with 1. rewrite !Z.mod_1_r. done.
    + rewrite Hc. destruct (Z.ltb_spec 1 n); [| lia]. cbn [negb]. destruct (Z.eqb_spec k 0); [lia |].
      rewrite Z.shiftl_1_l. destruct (Z.ltb_spec (m_seed p mod 2 ^ (k - 1)) (n mod 2 ^ (k - 1))).
      * exists k. split; [done |]. split; [lia | done].
      * exists (k - 1). split; [done |]. split; [lia | done].
Qed.

Lemma lor_clear_low r s k : 0 <= k <= 32 -> 0 <= s < 2 ^ k ->
  Z.lor (Z.land r (u32 (Z.lnot (2 ^ k - 1)))) s mod 2 ^ k = s.
Proof.
  intros Hk Hs. rewrite <- (Z.mod_small s (2 ^ k)) at 2 by done. apply Z.bits_inj'. intros i Hi.
  destruct (Z.lt_ge_cases i k).
  - rewrite !Z.mod_pow2_bits_low by done. rewrite Z.lor_spec, Z.land_spec. unfold u32.
    rewrite Z.mod_pow2_bits_low by lia. rewrite Z.lnot_spec by done.
    replace (2 ^ k - 1) with (Z.ones k) by (rewrite Z.ones_equiv; lia).
    rewrite Z.ones_spec_low by lia. cbn [negb]. by rewrite andb_false_r.
  - rewrite !Z.mod_pow2_bits_high by lia. done.
Qed.
