(* ===== verification/HObject.v ===== *)
(** * Object names and their order: src/src/common/hobject.{h,cc} and
      src/src/common/reverse.c

    [hobject_t] names an object: pool, namespace, locator key, name, snapshot and
    the 32-bit hash of the locator.  Objects are ordered by the bit-reversed hash
    first, so that a placement group is a contiguous range of objects whatever
    [pg_num] is.  Strings are lists of byte values. *)

From S2P Require Import Prelude CrushHash PgTypes PgSplit.

(** ** Three-way comparison *)

Class Compare (A : Type) : Type := compare : A -> A -> comparison.

(** What the C++ operators [<], [==] and [>] promise of a totally ordered type. *)
Class CompareLaws (A : Type) `{Compare A} : Prop := {
  compare_eq : forall x y, compare x y = Eq <-> x = y;
  compare_antisym : forall x y, compare y x = CompOpp (compare x y);
  compare_trans : forall x y z, compare x y = Lt -> compare y z = Lt -> compare x z = Lt;
}.

#[export] Instance Z_compare : Compare Z := Z.compare.

#[export] Instance bool_compare : Compare bool := fun a b =>
  match a, b with
  | false, true => Lt
  | true, false => Gt
  | _, _ => Eq
  end.

(** [then_by c d] is [d] unless [c] already decides. *)
Definition then_by (c d : comparison) : comparison :=
  match c with Eq => d | _ => c end.

(** [std::string::compare]: byte by byte, a proper prefix comes first. *)
Fixpoint str_compare (a b : list Z) : comparison :=
  match a, b with
  | [], [] => Eq
  | [], _ => Lt
  | _, [] => Gt
  | x :: a, y :: b => then_by (compare x y) (str_compare a b)
  end.

#[export] Instance string_compare : Compare (list Z) := str_compare.

#[export] Instance prod_compare {A B} `{Compare A} `{Compare B} : Compare (A * B) := fun p q =>
  then_by (compare p.1 q.1) (compare p.2 q.2).

(** ** Bit reversal *)

Definition reverse_bits (v : Z) : Z :=
  if v =? 0 then v
  else
    let v := Z.lor (Z.land (Z.shiftr v 1) 0x55555555) (shl32 (Z.land v 0x55555555) 1) in
    let v := Z.lor (Z.land (Z.shiftr v 2) 0x33333333) (shl32 (Z.land v 0x33333333) 2) in
    let v := Z.lor (Z.land (Z.shiftr v 4) 0x0F0F0F0F) (shl32 (Z.land v 0x0F0F0F0F) 4) in
    let v := Z.lor (Z.land (Z.shiftr v 8) 0x00FF00FF) (shl32 (Z.land v 0x00FF00FF) 8) in
    Z.lor (Z.shiftr v 16) (shl32 v 16).

Definition reverse_nibbles (v : Z) : Z :=
  let v := Z.lor (shl32 (Z.land v 0x0f0f0f0f) 4) (Z.shiftr (Z.land v 0xf0f0f0f0) 4) in
  let v := Z.lor (shl32 (Z.land v 0x00ff00ff) 8) (Z.shiftr (Z.land v 0xff00ff00) 8) in
  Z.lor (shl32 (Z.land v 0x0000ffff) 16) (Z.shiftr (Z.land v 0xffff0000) 16).

(** ** Objects *)

Definition CEPH_NOSNAP : Z := 2 ^ 64 - 2.
Definition POOL_META : Z := -1.
Definition POOL_TEMP_START : Z := -2.
Definition INT64_MIN : Z := - 2 ^ 63.

Record hobject_t : Type := mk_hobject {
  oid : list Z;
  snap : Z;
  hash : Z;
  max : bool;
  nibblewise_key_cache : Z;
  hash_reverse_bits : Z;
  pool : Z;
  nspace : list Z;
  key : list Z;
}.

Definition is_temp_pool (p : Z) : bool := p <=? POOL_TEMP_START.
Definition get_temp_pool (p : Z) : Z := POOL_TEMP_START - p.

Definition get_logical_pool (o : hobject_t) : Z :=
  if is_temp_pool (pool o) then get_temp_pool (pool o) else pool o.

Definition build_hash_cache (o : hobject_t) : hobject_t :=
  mk_hobject (oid o) (snap o) (hash o) (max o) (reverse_nibbles (hash o)) (reverse_bits (hash o))
    (pool o) (nspace o) (key o).

Definition set_hash (o : hobject_t) (value : Z) : hobject_t :=
  build_hash_cache (mk_hobject (oid o) (snap o) value (max o) (nibblewise_key_cache o)
                      (hash_reverse_bits o) (pool o) (nspace o) (key o)).

Definition set_bitwise_key_u32 (o : hobject_t) (value : Z) : hobject_t :=
  let h := reverse_bits value in
  mk_hobject (oid o) (snap o) h (max o) (reverse_nibbles h) value (pool o) (nspace o) (key o).

Definition set_key (o : hobject_t) (k : list Z) : hobject_t :=
  mk_hobject (oid o) (snap o) (hash o) (max o) (nibblewise_key_cache o) (hash_reverse_bits o)
    (pool o) (nspace o) (if decide (k = oid o) then [] else k).

(** The default constructor, the minimum of the order. *)
Definition hobject_min : hobject_t :=
  build_hash_cache (mk_hobject [] 0 0 false 0 0 INT64_MIN [] []).

(** [hobject_t(hobject_t::get_max())]. *)
Definition hobject_max : hobject_t :=
  mk_hobject (oid hobject_min) (snap hobject_min) (hash hobject_min) true
    (nibblewise_key_cache hobject_min) (hash_reverse_bits hobject_min) (pool hobject_min)
    (nspace hobject_min) (key hobject_min).

Definition make_hobject (name k : list Z) (sn h p : Z) (ns : list Z) : hobject_t :=
  build_hash_cache (mk_hobject name sn h false 0 0 p ns (if decide (name = k) then [] else k)).

Definition get_boundary (o : hobject_t) : hobject_t :=
  if max o then o
  else
    let ret := set_hash hobject_min (hash o) in
    mk_hobject (oid ret) (snap ret) (hash ret) (max ret) (nibblewise_key_cache ret)
      (hash_reverse_bits ret) (pool o) (nspace ret) (key ret).

Definition get_effective_key (o : hobject_t) : list Z :=
  match key o with [] => oid o | _ => key o end.

Definition get_bitwise_key (o : hobject_t) : Z :=
  if max o then 0x100000000 else hash_reverse_bits o.

(** Comparison of two values as the pairs of tests [<] and [>] of the source. *)
Definition cmp_step {A} `{Compare A} (x y : A) (rest : Z) : Z :=
  match compare x y with Lt => -1 | Gt => 1 | Eq => rest end.

Definition cmp (l r : hobject_t) : Z :=
  cmp_step (max l) (max r)
  (cmp_step (pool l) (pool r)
  (cmp_step (get_bitwise_key l) (get_bitwise_key r)
  (cmp_step (nspace l) (nspace r)
  (let rest := cmp_step (oid l) (oid r) (cmp_step (snap l) (snap r) 0) in
   if negb (bool_decide (key l = []) && bool_decide (key r = []))
   then cmp_step (get_effective_key l) (get_effective_key r) rest
   else rest)))).

(** [operator<=>], which [std::map] and [operator==] use. *)
Definition spaceship (l r : hobject_t) : comparison :=
  then_by (compare (max l) (max r))
  (then_by (compare (pool l) (pool r))
  (then_by (compare (get_bitwise_key l) (get_bitwise_key r))
  (then_by (compare (nspace l) (nspace r))
  (then_by
     (if negb (bool_decide (key l = []) && bool_decide (key r = []))
      then compare (get_effective_key l) (get_effective_key r) else Eq)
  (then_by (compare (oid l) (oid r)) (compare (snap l) (snap r))))))).

Definition match_hash (to_check bits mtch : Z) : bool :=
  Z.land mtch (low_ones bits) =? Z.land to_check (low_ones bits).

(** ** The objects of a placement group *)

Definition contains (p : pg_t) (bits : Z) (o : hobject_t) : bool :=
  (s64 (m_pool p) =? get_logical_pool o) && match_hash (hash o) bits (m_seed p).

Definition get_hobj_start (p : pg_t) : hobject_t :=
  make_hobject [] [] 0 (m_seed p) (s64 (m_pool p)) [].

Definition get_hobj_end (p : pg_t) (pg_num : Z) : res hobject_t :=
  bits ← get_split_bits p pg_num;
  let rev_start := reverse_bits (m_seed p) in
  let rev_end := Z.lor rev_start (Z.shiftr 0xffffffff bits) + 1 in
  if 0x100000000 <=? rev_end then
    if rev_end =? 0x100000000 then mret hobject_max else Fault
  else mret (make_hobject [] [] CEPH_NOSNAP (reverse_bits (u32 rev_end)) (s64 (m_pool p)) []).

(** ** The order laws *)

#[export] Instance Z_compare_laws : CompareLaws Z.
Proof.
  split; unfold compare, Z_compare.
  - apply Z.compare_eq_iff.
  - apply Z.compare_antisym.
  - intros x y z. rewrite !Z.compare_lt_iff. lia.
Qed.

#[export] Instance bool_compare_laws : CompareLaws bool.
Proof.
  split; unfold compare, bool_compare.
  - by intros [] [].
  - by intros [] [].
  - by intros [] [] [].
Qed.

Lemma then_by_Eq c d : then_by c d = Eq <-> c = Eq /\ d = Eq.
Proof. destruct c; naive_solver. Qed.

Lemma then_by_opp c d : CompOpp (then_by c d) = then_by (CompOpp c) (CompOpp d).
Proof. by destruct c. Qed.

Section lex.
Context {A B C : Type} `{CompareLaws A}.

(** Lexicographic transitivity, for whatever decides after the first component. *)
Lemma then_by_trans (x y z : A) (c d e : comparison) :
  (c = Lt -> d = Lt -> e = Lt) ->
  then_by (compare x y) c = Lt -> then_by (compare y z) d = Lt -> then_by (compare x z) e = Lt.
Proof.
  intros Hcd. destruct (compare x y) eqn:E1; [| | done]; destruct (compare y z) eqn:E2; cbn; try done.
  - apply compare_eq in E1, E2. subst. rewrite (proj2 (compare_eq z z) eq_refl). cbn. auto.
  - apply compare_eq in E1. subst. by rewrite E2.
  - apply compare_eq in E2. subst. by rewrite E1.
  - by rewrite (compare_trans _ _ _ E1 E2).
Qed.
End lex.

#[export] Instance string_compare_laws : CompareLaws (list Z).
Proof.
  split.
  - intros x. induction x as [| a x IH]; intros [| b y]; try done.
    change (then_by (compare a b) (compare x y) = Eq <-> a :: x = b :: y).
    rewrite then_by_Eq, compare_eq, IH. naive_solver.
  - intros x. induction x as [| a x IH]; intros [| b y]; try done.
    change (then_by (compare b a) (compare y x) = CompOpp (then_by (compare a b) (compare x y))).
    by rewrite then_by_opp, IH, compare_antisym.
  - intros x. induction x as [| a x IH]; intros [| b y] [| c z]; try done.
    change (then_by (compare a b) (compare x y) = Lt -> then_by (compare b c) (compare y z) = Lt ->
            then_by (compare a c) (compare x z) = Lt). apply then_by_trans, IH.
Qed.

#[export] Instance prod_compare_laws {A B} `{CompareLaws A} `{CompareLaws B} : CompareLaws (A * B).
Proof.
  split.
  - intros [a b] [c d]. unfold compare, prod_compare. cbn. rewrite then_by_Eq, !compare_eq. naive_solver.
  - intros [a b] [c d]. unfold compare, prod_compare. cbn. by rewrite then_by_opp, <- !compare_antisym.
  - intros [a b] [c d] [e f]. unfold compare at 1 2 3, prod_compare. cbn. apply then_by_trans, compare_trans.
Qed.

(** The tuple of values by which objects are ordered. *)
Definition order_key (o : hobject_t) : bool * (Z * (Z * (list Z * (list Z * (list Z * Z))))) :=
  (max o, (pool o, (get_bitwise_key o, (nspace o, (get_effective_key o, (oid o, snap o)))))).

Definition cmp_sign (c : comparison) : Z := match c with Lt => -1 | Eq => 0 | Gt => 1 end.

Lemma cmp_step_sign {A} `{Compare A} (x y : A) c :
  cmp_step x y (cmp_sign c) = cmp_sign (then_by (compare x y) c).
Proof. unfold cmp_step. by destruct (compare x y). Qed.

Lemma then_by_self c d : then_by c (then_by c d) = then_by c d.
Proof. by destruct c. Qed.

(** Skipping the effective keys when neither object has a locator key is sound:
    both effective keys are then the names, which are compared next. *)
Lemma effective_key_skip l r d :
  then_by (if negb (bool_decide (key l = []) && bool_decide (key r = []))
           then compare (get_effective_key l) (get_effective_key r) else Eq)
    (then_by (compare (oid l) (oid r)) d) =
  then_by (compare (get_effective_key l) (get_effective_key r)) (then_by (compare (oid l) (oid r)) d).
Proof.
  case_bool_decide as Hl; case_bool_decide as Hr; cbn [negb andb]; try done.
  unfold get_effective_key. rewrite Hl, Hr. cbn. by rewrite then_by_self.
Qed.

Lemma spaceship_key l r : spaceship l r = compare (order_key l) (order_key r).
Proof. unfold spaceship. by rewrite effective_key_skip. Qed.

Lemma cmp_spaceship l r : cmp l r = cmp_sign (spaceship l r).
Proof.
  unfold cmp, spaceship.
  assert (cmp_step (snap l) (snap r) 0 = cmp_sign (compare (snap l) (snap r))) as ->
    by (unfold cmp_step; by destruct (compare (snap l) (snap r))).
  cbv zeta. destruct (negb _); rewrite !cmp_step_sign; done.
Qed.

(** ** Bit reversal, bit by bit *)

(** One line of [reverse_bits]. *)
Definition swap_groups (v k m : Z) : Z :=
  Z.lor (Z.land (Z.shiftr v k) m) (shl32 (Z.land v m) k).

Lemma swap_groups_bit v k m i : 0 <= i < 32 -> 0 <= k ->
  Z.testbit (swap_groups v k m) i =
  (Z.testbit v (i + k) && Z.testbit m i) || (Z.testbit v (i - k) && Z.testbit m (i - k)).
Proof.
  intros Hi Hk. unfold swap_groups, shl32, u32.
  rewrite Z.lor_spec, Z.mod_pow2_bits_low, Z.shiftl_spec, !Z.land_spec, Z.shiftr_spec by lia. done.
Qed.

Lemma swap_groups_u32 v k m : is_u32 m -> is_u32 (swap_groups v k m).
Proof. intros. unfold swap_groups, shl32. auto with crush_width. Qed.

(** [eval_masks] evaluates the bits of the constant masks in the goal. *)
Ltac eval_masks :=
  repeat match goal with
  | |- context [Z.testbit (Zpos ?m) ?i] =>
      let b := eval vm_compute in (Z.testbit (Zpos m) i) in change (Z.testbit (Zpos m) i) with b
  end;
  rewrite ?andb_true_r, ?andb_false_r, ?orb_false_r, ?orb_false_l.

(** The first four lines reverse the bits of each half. *)
Lemma reverse_halves v j : 0 <= j < 32 ->
  Z.testbit (swap_groups (swap_groups (swap_groups (swap_groups v 1 0x55555555) 2 0x33333333)
    4 0x0F0F0F0F) 8 0x00FF00FF) j = Z.testbit v (16 * (j / 16) + (15 - j mod 16)).
Proof.
  intros Hj. assert (Hin : j ∈ seqZ 0 32) by (apply elem_of_seqZ; lia). clear Hj.
  apply list_elem_of_In in Hin. vm_compute in Hin.
  repeat (destruct Hin as [<- | Hin]; [do 4 (rewrite swap_groups_bit by lia; eval_masks); reflexivity |]).
  done.
Qed.

Lemma reverse_bits_u32 v : is_u32 v -> is_u32 (reverse_bits v).
Proof.
  intros Hv. unfold reverse_bits. destruct (v =? 0); [done |]. cbv zeta. unfold shl32.
  apply lor_u32; [| apply u32_range]. apply shiftr_u32; [| lia]. by apply swap_groups_u32.
Qed.

Lemma reverse_bits_bit v i : is_u32 v -> 0 <= i < 32 ->
  Z.testbit (reverse_bits v) i = Z.testbit v (31 - i).
Proof.
  intros Hv Hi. unfold reverse_bits. destruct (Z.eqb_spec v 0) as [-> | _]; [by rewrite !Z.testbit_0_l |].
  cbv zeta. set (w := Z.lor (Z.land _ 0x00FF00FF) _).
  assert (Hw : is_u32 w) by (by apply swap_groups_u32).
  assert (Hb : forall j, 0 <= j < 32 -> Z.testbit w j = Z.testbit v (16 * (j / 16) + (15 - j mod 16)))
    by (exact (reverse_halves v)).
  rewrite is_u32_bits in Hw. unfold shl32, u32.
  rewrite Z.lor_spec, Z.shiftr_spec, Z.mod_pow2_bits_low, Z.shiftl_spec by lia.
  destruct (Z.lt_ge_cases i 16).
  - rewrite (proj2 (Hw (i - 16) ltac:(lia))), orb_false_r, Hb by lia. f_equal.
    Z.to_euclidean_division_equations. lia.
  - rewrite (proj2 (Hw (i + 16) ltac:(lia))), orb_false_l, Hb by lia. f_equal.
    Z.to_euclidean_division_equations. lia.
Qed.

Lemma u32_bits_eq a b : is_u32 a -> is_u32 b ->
  (forall i, 0 <= i < 32 -> Z.testbit a i = Z.testbit b i) -> a = b.
Proof.
  rewrite !is_u32_bits. intros Ha Hb H. apply Z.bits_inj'. intros i Hi.
  destruct (Z.lt_ge_cases i 32); [apply H; lia |].
  by rewrite (proj2 (Ha i ltac:(lia))), (proj2 (Hb i ltac:(lia))).
Qed.

Lemma reverse_bits_involutive v : is_u32 v -> reverse_bits (reverse_bits v) = v.
Proof.
  intros Hv. pose proof (reverse_bits_u32 v Hv) as Hr.
  apply u32_bits_eq; [by apply reverse_bits_u32 | done |]. intros i Hi.
  rewrite !reverse_bits_bit by (done || lia). f_equal. lia.
Qed.

(** The high bits of the reversed hashes agree exactly when the low bits of the
    hashes do. *)
Lemma reverse_prefix h s b : is_u32 h -> is_u32 s -> 0 <= b <= 32 ->
  reverse_bits h / 2 ^ (32 - b) = reverse_bits s / 2 ^ (32 - b) <-> h mod 2 ^ b = s mod 2 ^ b.
Proof.
  intros Hh Hs Hb. split; intros E; apply Z.bits_inj'; intros i Hi.
  - destruct (Z.lt_ge_cases i b); [| by rewrite !Z.mod_pow2_bits_high by lia].
    rewrite !Z.mod_pow2_bits_low by done.
    assert (Hbit : forall v, is_u32 v -> Z.testbit v i = Z.testbit (reverse_bits v / 2 ^ (32 - b)) (b - 1 - i)).
    { intros v Hv. rewrite Z.div_pow2_bits, reverse_bits_bit by (done || lia). f_equal. lia. }
    rewrite !Hbit by done. by rewrite E.
  - rewrite !Z.div_pow2_bits by lia. destruct (Z.lt_ge_cases i b).
    + rewrite !reverse_bits_bit by (done || lia).
      rewrite <- (Z.mod_pow2_bits_low h b), <- (Z.mod_pow2_bits_low s b) by lia. by rewrite E.
    + pose proof (proj1 (is_u32_bits _) (reverse_bits_u32 h Hh) (i + (32 - b)) ltac:(lia)) as [_ ->].
      by pose proof (proj1 (is_u32_bits _) (reverse_bits_u32 s Hs) (i + (32 - b)) ltac:(lia)) as [_ ->].
Qed.

Lemma reverse_range h s b : is_u32 h -> 0 <= b <= 32 -> 0 <= s < 2 ^ b ->
  let rev_end := Z.lor (reverse_bits s) (Z.shiftr 0xffffffff b) + 1 in
  (h mod 2 ^ b = s <-> reverse_bits s <= reverse_bits h < rev_end) /\ 0 < rev_end <= 2 ^ 32.
Proof.
  intros Hh Hb Hs. assert (2 ^ b <= 2 ^ 32) by (apply Z.pow_le_mono_r; lia).
  assert (Hsu : is_u32 s) by (unfold is_u32; lia).
  pose proof (reverse_prefix h s b Hh Hsu Hb) as Hpre. rewrite (Z.mod_small s) in Hpre by done.
  cbv zeta. rewrite <- Hpre. assert (0 < 2 ^ (32 - b)) by (apply Z.pow_pos_nonneg; lia).
  assert (Hz : reverse_bits s mod 2 ^ (32 - b) = 0).
  { apply Z.bits_inj_0. intros i. destruct (Z.lt_ge_cases i 0); [by apply Z.testbit_neg_r |].
    destruct (Z.lt_ge_cases i (32 - b)); [| by rewrite Z.mod_pow2_bits_high by lia].
    rewrite Z.mod_pow2_bits_low, reverse_bits_bit by (done || lia).
    rewrite <- (Z.mod_small s (2 ^ b)) by done. by rewrite Z.mod_pow2_bits_high by lia. }
  assert (Hm : Z.shiftr 0xffffffff b = 2 ^ (32 - b) - 1).
  { change 0xffffffff with (Z.ones 32). rewrite Z.shiftr_div_pow2, Z.ones_div_pow2 by lia.
    rewrite Z.ones_equiv. lia. }
  pose proof (reverse_bits_u32 s Hsu) as Hu. pose proof (reverse_bits_u32 h Hh) as Hhu.
  unfold is_u32 in Hu, Hhu.
  assert (E32 : 2 ^ 32 = 2 ^ b * 2 ^ (32 - b)) by (rewrite <- Z.pow_add_r by lia; f_equal; lia).
  set (M := 2 ^ (32 - b)) in *. set (R := reverse_bits s / M) in *.
  assert (ER : reverse_bits s = R * M) by (pose proof (Z.div_mod (reverse_bits s) M); lia).
  assert (0 <= R < 2 ^ b) by nia.
  rewrite Hm, ER. assert (El : Z.lor (R * M) (M - 1) = Z.lor R ((M - 1) / M) * M + (M - 1) mod M)
    by (apply lor_block; lia).
  rewrite El, (Z.div_small (M - 1)), (Z.mod_small (M - 1)), Z.lor_0_r by lia.
  split; [| nia]. split.
  - intros E. pose proof (Z.div_mod (reverse_bits h) M). pose proof (Z.mod_pos_bound (reverse_bits h) M). nia.
  - intros E. symmetry. apply Z.div_unique with (reverse_bits h - R * M); lia.
Qed.

(** ** Well-formed objects *)

Record hobject_wf (o : hobject_t) : Prop := {
  hw_hash : is_u32 (hash o);
  hw_cache : build_hash_cache o = o;
  hw_key : key o = [] \/ key o <> oid o;
  hw_max : max o = true -> o = hobject_max;
}.

Lemma hobject_wf_bits o : hobject_wf o -> hash_reverse_bits o = reverse_bits (hash o).
Proof. intros Ho. by rewrite <- (hw_cache o Ho) at 1. Qed.

Lemma order_key_inj l r : hobject_wf l -> hobject_wf r -> order_key l = order_key r -> l = r.
Proof.
  intros Hl Hr [= Hm Hp Hb Hn He Ho Hs].
  destruct (max r) eqn:Em; [by rewrite (hw_max l Hl), (hw_max r Hr) |].
  assert (Hh : hash l = hash r).
  { unfold get_bitwise_key in Hb. rewrite Hm, Em, !hobject_wf_bits in Hb by done.
    rewrite <- (reverse_bits_involutive (hash l)), <- (reverse_bits_involutive (hash r)) by (by apply hw_hash).
    by rewrite Hb. }
  assert (Hk : key l = key r).
  { destruct (hw_key l Hl), (hw_key r Hr); unfold get_effective_key in He;
      destruct (key l), (key r); congruence. }
  rewrite <- (hw_cache l Hl), <- (hw_cache r Hr). unfold build_hash_cache. congruence.
Qed.

(** Every way of making an object yields a well-formed one. *)
Lemma make_hobject_wf name k sn h p ns : is_u32 h -> hobject_wf (make_hobject name k sn h p ns).
Proof. intros Hh. split; cbn; try done. case_decide; [by left | right; congruence]. Qed.

Lemma hobject_max_wf : hobject_wf hobject_max.
Proof. split; try done. by left. Qed.

(** The order on object names: [cmp] and [operator<=>] agree, and on
    well-formed objects they are a total order: only equal objects compare equal,
    swapping the arguments reverses the result, and "less than" is transitive.
    (Comparing locator keys only when one of them is set does not break this.) *)
Theorem hobject_total_order l m r :
  hobject_wf l -> hobject_wf m -> hobject_wf r ->
  cmp l r = cmp_sign (spaceship l r) /\
  (cmp l r = 0 <-> l = r) /\ cmp r l = - cmp l r /\
  (cmp l m = -1 -> cmp m r = -1 -> cmp l r = -1).
Proof.
  intros Hl Hm Hr. rewrite !cmp_spaceship, !spaceship_key.
  assert (Hs : forall c, cmp_sign c = -1 <-> c = Lt) by (by intros []).
  split; [done |]. split; [| split].
  - split; [| intros ->; by rewrite (proj2 (compare_eq _ _) eq_refl)]. intros E.
    apply order_key_inj; [done.. |]. apply compare_eq. by destruct (compare (order_key l) (order_key r)).
  - rewrite (compare_antisym (order_key l) (order_key r)). by destruct (compare (order_key l) (order_key r)).
  - rewrite !Hs. apply compare_trans.
Qed.

Definition ex_obj (k name : list Z) (sn h : Z) : hobject_t := make_hobject name k sn h 5 [].

Lemma hobject_total_order_witness :
  let l := ex_obj [98] [97] 1 7 in let m := ex_obj [] [99] 1 7 in let r := ex_obj [] [99] 2 7 in
  cmp l r = cmp_sign (spaceship l r) /\
  (cmp l r = 0 <-> l = r) /\ cmp r l = - cmp l r /\
  (cmp l m = -1 -> cmp m r = -1 -> cmp l r = -1).
Proof.
  apply (hobject_total_order (ex_obj [98] [97] 1 7) (ex_obj [] [99] 1 7) (ex_obj [] [99] 2 7));
    by apply make_hobject_wf.
Defined.

(** ** Placement groups are ranges of the order *)

Lemma match_hash_iff v bits s : 0 <= bits < 31 -> 0 <= s < 2 ^ bits ->
  match_hash v bits s = true <-> v mod 2 ^ bits = s.
Proof.
  intros Hb Hs. unfold match_hash. rewrite !land_low_ones, Z.eqb_eq, (Z.mod_small s) by lia.
  split; congruence.
Qed.

Lemma raw_hash_cut pl v : pool_wf pl -> 0 <= v -> cut (pg_num pl) v (raw_hash_to_pg pl v).
Proof.
  intros Hpl Hv. destruct (pool_wf_mask pl Hpl) as (k & Hs & Hm). unfold raw_hash_to_pg.
  rewrite Hm, stable_mod_u32 by done. by apply stable_mod_cut.
Qed.

Lemma raw_hash_iff pl p bits v : pool_wf pl -> 0 <= m_seed p < pg_num pl -> 0 <= v ->
  get_split_bits p (pg_num pl) = Ok bits -> raw_hash_to_pg pl v = m_seed p <-> v mod 2 ^ bits = m_seed p.
Proof.
  intros Hpl Hp Hv Hb. destruct (split_bits_iff p (pg_num pl) v bits) as (_ & _ & Hiff); [apply Hpl | done.. |].
  rewrite <- Hiff. pose proof (raw_hash_cut pl v Hpl Hv) as C. split; [by intros <- |]. intros C'.
  by eapply cut_fun.
Qed.

(** The hashes of a PG, in every form the code uses: a hash maps to the PG
    ([raw_hash_to_pg]) iff its low [get_split_bits] bits match the PG's seed
    ([match_hash]), iff its remainder modulo [get_pg_num_divisor] is the seed; and
    [get_random_pg_position] produces such a hash for every random seed. *)
Theorem pg_hashes_agree pl p v rnd :
  pool_wf pl -> 0 <= m_seed p < pg_num pl -> 0 <= v ->
  exists bits, get_split_bits p (pg_num pl) = Ok bits /\
    (raw_hash_to_pg pl v = m_seed p <-> match_hash v bits (m_seed p) = true) /\
    (raw_hash_to_pg pl v = m_seed p <-> v mod get_pg_num_divisor pl p = m_seed p) /\
    raw_hash_to_pg pl (get_random_pg_position pl p rnd) = m_seed p.
Proof.
  intros Hpl Hp Hv. destruct (split_bits_by_mask pl p Hpl Hp) as (bits & Hb & Hbr & Hcase).
  destruct (split_bits_iff p (pg_num pl) v bits) as (_ & Hsb & _); [apply Hpl | done.. |].
  assert (Hrnd : get_random_pg_position pl p rnd mod 2 ^ bits = m_seed p /\ 2 ^ bits = get_pg_num_divisor pl p).
  { unfold get_random_pg_position, get_pg_num_divisor. cbv zeta.
    destruct (pg_num pl =? u32 (pg_num_mask pl + 1)); [| destruct (Z.land _ _ <? Z.land _ _)];
      destruct Hcase as [E1 E2]; (split; [rewrite E2; apply lor_clear_low; lia | done]). }
  destruct Hrnd as [Hrnd Hdiv].
  assert (Hpos : 0 <= get_random_pg_position pl p rnd).
  { unfold get_random_pg_position. cbv zeta. apply Z.lor_nonneg. split; [| lia].
    case_match; [| case_match]; apply Z.land_nonneg; right; apply u32_range. }
  exists bits. split; [done |]. rewrite <- Hdiv, match_hash_iff, !(raw_hash_iff pl p bits) by (done || lia). done.
Qed.

Lemma pg_hashes_agree_witness :
  exists bits, get_split_bits (mk_pg 5 2) 13 = Ok bits /\
    (raw_hash_to_pg (ex_pool 13) 0xcafe = 2 <-> match_hash 0xcafe bits 2 = true) /\
    (raw_hash_to_pg (ex_pool 13) 0xcafe = 2 <-> 0xcafe mod get_pg_num_divisor (ex_pool 13) (mk_pg 5 2) = 2) /\
    raw_hash_to_pg (ex_pool 13) (get_random_pg_position (ex_pool 13) (mk_pg 5 2) 77) = 2.
Proof. apply (pg_hashes_agree (ex_pool 13) (mk_pg 5 2) 0xcafe 77); [by apply ex_pool_wf; auto | done | done]. Defined.

(** What decides between objects with the same hash. *)
Definition tail_key (o : hobject_t) : list Z * (list Z * (list Z * Z)) :=
  (nspace o, (get_effective_key o, (oid o, snap o))).

Lemma cmp_same_pool l r : hobject_wf l -> hobject_wf r -> max l = false -> max r = false -> pool l = pool r ->
  cmp l r = cmp_sign (then_by (reverse_bits (hash l) ?= reverse_bits (hash r)) (compare (tail_key l) (tail_key r))).
Proof.
  intros Hl Hr Hml Hmr Hp. rewrite cmp_spaceship, spaceship_key. f_equal.
  unfold order_key, get_bitwise_key. rewrite Hml, Hmr, (hobject_wf_bits l Hl), (hobject_wf_bits r Hr), Hp.
  unfold compare at 1, prod_compare at 1. cbn [fst snd]. change (compare false false) with Eq. cbn [then_by].
  unfold compare at 1, prod_compare at 1. cbn [fst snd].
  by rewrite (proj2 (compare_eq (pool r) _) eq_refl).
Qed.

Lemma pair_compare {A B} `{Compare A} `{Compare B} (a c : A) (b d : B) :
  compare (a, b) (c, d) = then_by (compare a c) (compare b d).
Proof. done. Qed.

Lemma str_min_le s : compare ([] : list Z) s <> Gt.
Proof. by destruct s. Qed.

Lemma tail_min o : 0 <= snap o -> compare ([], ([], ([], 0))) (tail_key o) <> Gt.
Proof.
  intros Hs. unfold tail_key. rewrite !pair_compare.
  pose proof (str_min_le (nspace o)). pose proof (str_min_le (get_effective_key o)). pose proof (str_min_le (oid o)).
  destruct (compare [] (nspace o)), (compare [] (get_effective_key o)), (compare [] (oid o)); try done.
Qed.

Lemma tail_head_le o : oid o <> [] \/ CEPH_NOSNAP <= snap o ->
  compare (tail_key o) ([], ([], ([], CEPH_NOSNAP))) <> Lt.
Proof.
  intros Hs. unfold tail_key. rewrite !pair_compare.
  assert (Hmin : forall s : list Z, compare s [] = if decide (s = []) then Eq else Gt) by (by intros []).
  rewrite !Hmin. destruct (decide (nspace o = [])), (decide (get_effective_key o = [])), (decide (oid o = []));
    try done. cbn. destruct Hs as [| Hs]; [done |]. unfold compare, Z_compare.
  destruct (Z.compare_spec (snap o) CEPH_NOSNAP); first [done | exfalso; lia].
Qed.

Lemma then_by_le a b d : d <> Gt -> cmp_sign (then_by (a ?= b) d) <= 0 <-> a <= b.
Proof. intros Hd. destruct (Z.compare_spec a b); cbn; try lia. destruct d; cbn; done || lia. Qed.

Lemma then_by_lt a b d : d <> Lt -> cmp_sign (then_by (a ?= b) d) < 0 <-> a < b.
Proof. intros Hd. destruct (Z.compare_spec a b); cbn; try lia. destruct d; cbn; done || lia. Qed.

Lemma cmp_below_max o : max o = false -> cmp o hobject_max = -1.
Proof. intros Hm. unfold cmp, cmp_step. by rewrite Hm. Qed.

Lemma get_logical_pool_id o : 0 <= pool o -> get_logical_pool o = pool o.
Proof.
  intros. unfold get_logical_pool, is_temp_pool, POOL_TEMP_START.
  destruct (Z.leb_spec (pool o) (-2)); [lia | done].
Qed.

(** C30. A placement group is a range of the object order: for every object of the
    pool (with a name, or a head object), the object's hash maps to the PG iff the
    object is contained in it, iff it lies between [get_hobj_start] (included) and
    [get_hobj_end] (excluded). *)
Theorem pg_is_object_range pl p o :
  pool_wf pl -> 0 <= m_seed p < pg_num pl -> 0 <= m_pool p < 2 ^ 63 ->
  hobject_wf o -> max o = false -> pool o = m_pool p -> 0 <= snap o ->
  oid o <> [] \/ CEPH_NOSNAP <= snap o ->
  exists bits e, get_split_bits p (pg_num pl) = Ok bits /\ get_hobj_end p (pg_num pl) = Ok e /\
    (contains p bits o = true <-> raw_hash_to_pg pl (hash o) = m_seed p) /\
    (contains p bits o = true <-> cmp (get_hobj_start p) o <= 0 /\ cmp o e < 0).
Proof.
  intros Hpl Hp Hpool Ho Hm Hop Hs Hname. pose proof (hw_hash o Ho) as Hu.
  destruct (get_split_bits_Ok p (pg_num pl)) as [bits Hb]; [apply Hpl |].
  destruct (split_bits_iff p (pg_num pl) (hash o) bits) as (Hbr & Hsb & _);
    [apply Hpl | done | apply Hu | done |].
  assert (Hspool : s64 (m_pool p) = m_pool p) by (apply s64_id; lia).
  assert (Hcont : contains p bits o = true <-> hash o mod 2 ^ bits = m_seed p).
  { unfold contains. rewrite get_logical_pool_id, Hspool, Hop, Z.eqb_refl by lia. cbn [andb].
    apply match_hash_iff; lia. }
  destruct (reverse_range (hash o) (m_seed p) bits) as [Hrange Hend]; [done | lia | lia |].
  assert (Hstart : cmp (get_hobj_start p) o <= 0 <-> reverse_bits (m_seed p) <= reverse_bits (hash o)).
  { destruct Hpl as [Hpl _]. rewrite cmp_same_pool;
      [| apply make_hobject_wf; unfold is_u32; lia | done | done | done | cbn; congruence].
    apply then_by_le. by apply tail_min. }
  set (rev_end := Z.lor _ _ + 1) in *.
  assert (He : exists e, get_hobj_end p (pg_num pl) = Ok e /\ (cmp o e < 0 <-> reverse_bits (hash o) < rev_end)).
  { unfold get_hobj_end. rewrite Hb. cbn [mbind res_bind]. fold rev_end.
    pose proof (reverse_bits_u32 (hash o) Hu) as Hru. unfold is_u32 in Hru.
    destruct (Z.leb_spec 0x100000000 rev_end).
    - destruct (Z.eqb_spec rev_end 0x100000000); [| lia]. eexists. split; [done |].
      rewrite cmp_below_max by done. lia.
    - assert (Hre : is_u32 rev_end) by (unfold is_u32; lia). rewrite (u32_id rev_end Hre).
      eexists. split; [done |].
      rewrite cmp_same_pool;
        [| done | by apply make_hobject_wf, reverse_bits_u32 | done | done | cbn; congruence].
      cbn [hash make_hobject build_hash_cache]. rewrite reverse_bits_involutive by done.
      apply then_by_lt. by apply tail_head_le. }
  destruct He as (e & Ee & He). exists bits, e. split; [done |]. split; [done |].
  rewrite Hcont. split.
  - symmetry. apply raw_hash_iff; [done | done | apply Hu | done].
  - rewrite Hstart, He. done.
Qed.

Lemma pg_is_object_range_witness :
  let o := ex_obj [] [97; 98] CEPH_NOSNAP 0xcafe0012 in
  exists bits e, get_split_bits (mk_pg 5 2) 13 = Ok bits /\ get_hobj_end (mk_pg 5 2) 13 = Ok e /\
    (contains (mk_pg 5 2) bits o = true <-> raw_hash_to_pg (ex_pool 13) (hash o) = 2) /\
    (contains (mk_pg 5 2) bits o = true <-> cmp (get_hobj_start (mk_pg 5 2)) o <= 0 /\ cmp o e < 0).
Proof.
  apply (pg_is_object_range (ex_pool 13) (mk_pg 5 2) (ex_obj [] [97; 98] CEPH_NOSNAP 0xcafe0012));
    [by apply ex_pool_wf; auto | done | done | by apply make_hobject_wf | done | done | done | by left].
Defined.
