(* ===== verification/CrushWrapper.v ===== *)
(** * CrushWrapper::do_rule: src/src/crush/CrushWrapper.h

    The C++ wrapper through which the rest of the system reaches CRUSH: it lays
    out the workspace on the stack, selects the choose_args of the pool and
    copies the result.  [PlacementRule] is the interface it offers to [OSDMap]:
    the theorems of OsdMapSpec.v are proved against its laws, and the instances
    at the end of this file discharge them for the rules that the monitors
    create. *)

From S2P Require Import Prelude CrushHash CrushLn CrushTypes CrushChoose CrushPerm CrushChooseSpec CrushTree CrushMapper.
From S2P Require Import CrushMapSpec CrushFirstn CrushIndep CrushRule.

(** [cw_choose_tries] is the optional histogram that the map points to. *)
Record CrushWrapper : Type := mk_wrapper {
  cw_crush : crush_map;
  cw_choose_tries : option (list Z);
  cw_choose_args : gmap Z (list crush_choose_arg);
}.

Definition DEFAULT_CHOOSE_ARGS : Z := -1.

(** [None] is the empty [crush_choose_arg_map] with [args == NULL]. *)
Definition choose_args_get_with_fallback (w : CrushWrapper) (choose_args_index : Z)
    : option (list crush_choose_arg) :=
  match cw_choose_args w !! choose_args_index with
  | Some a => Some a
  | None => cw_choose_args w !! DEFAULT_CHOOSE_ARGS
  end.

(** ** The stack

    [junk i k] is the word at offset [k] of the [i]-th uninitialised area. *)

Definition junk_vec (junk : Z -> Z -> Z) (i n : Z) : list Z := junk i <$> seqZ 0 n.

Definition junk_perm (junk : Z -> Z -> Z) (m : crush_map) (b : Z) : list Z :=
  match buckets m !! Z.to_nat b with
  | Some (Some bk) => junk_vec junk (3 + b) (b_size bk)
  | _ => []
  end.

Definition do_rule (fuel : nat) (junk : Z -> Z -> Z) (w : CrushWrapper)
    (rule x maxout : Z) (weight : list Z) (choose_args_index : Z) : res (list Z) :=
  if maxout <? 0 then Fault
  else
    work ← crush_init_workspace (cw_crush w) (cw_choose_tries w) (junk_perm junk (cw_crush w));
    let args := choose_args_get_with_fallback w choose_args_index in
    r ← crush_do_rule fuel (cw_crush w) weight x args maxout rule work
          (junk_vec junk 0 maxout) (junk_vec junk 1 maxout) (junk_vec junk 2 maxout);
    mret r.1.

(** ** The interface *)

(** A rule engine: rule number, input, result size, device weights and pool. *)
Class PlacementRule : Type :=
  run_rule : Z -> Z -> Z -> list Z -> Z -> res (list Z).

#[export] Instance wrapper_rule (fuel : nat) (junk : Z -> Z -> Z) (w : CrushWrapper) : PlacementRule :=
  do_rule fuel junk w.

(** The devices of a result, without the holes. *)
Definition devices (l : list Z) : list Z := filter (fun o => o <> CRUSH_ITEM_NONE) l.

(** What a client relies on for a rule number, a result size and a pool: the rule
    returns, with at most [size] entries, holes aside all different and not
    negative; for a rule of an erasure-coded pool, with exactly [size] entries,
    and for one of a replicated pool, without holes. *)
Class PlacementLaws `{PlacementRule} (rule size pool : Z) (shift : bool) : Prop := {
  placement_total : forall x weight, exists out,
    run_rule rule x size weight pool = Ok out /\ zlen out <= size /\
    NoDup (devices out) /\ Forall (fun o => 0 <= o) out /\
    (if shift then devices out = out else zlen out = size);
}.
