(* ===== verification/OsdMap.v ===== *)
(** * OSDMap: from placement groups to OSDs

    src/src/osd/OSDMap.{h,cc}: the state of the OSDs, the exception tables
    (pg_upmap, pg_upmap_items, pg_temp, primary_temp) and the functions that map
    an object to its placement group and a placement group to its "up" and
    "acting" OSDs.  OSD vectors are modified in place as in the source; an index
    outside a vector is a [Fault].  CRUSH is reached through [PlacementRule]. *)

From S2P Require Import Prelude CrushHash CrushTypes CrushWrapper PgTypes.

Definition CEPH_OSD_EXISTS : Z := 1.
Definition CEPH_OSD_UP : Z := 2.
Definition CEPH_OSD_OUT : Z := 0.
Definition CEPH_OSD_MAX_PRIMARY_AFFINITY : Z := 0x10000.
Definition CEPH_OSD_DEFAULT_PRIMARY_AFFINITY : Z := 0x10000.
Definition ENOENT : Z := 2.

Record OSDMap : Type := mk_osdmap {
  max_osd : Z;
  osd_state : list Z;
  osd_weight : list Z;
  osd_primary_affinity : option (list Z);
  pg_temp : gmap pg_t (list Z);
  primary_temp : gmap pg_t Z;
  pg_upmap : gmap pg_t (list Z);
  pg_upmap_items : gmap pg_t (list (Z * Z));
  pools : gmap Z pg_pool_t;
}.

Section osdmap.
Context (m : OSDMap).

(** ** State of an OSD *)

Definition get_pg_pool (p : Z) : option pg_pool_t := pools m !! p.

Definition osd_exists (osd : Z) : res bool :=
  if (0 <=? osd) && (osd <? max_osd m) then
    st ← rd (osd_state m) osd;
    mret (negb (Z.land st CEPH_OSD_EXISTS =? 0))
  else mret false.

Definition is_up (osd : Z) : res bool :=
  e ← osd_exists osd;
  if e : bool then
    st ← rd (osd_state m) osd;
    mret (negb (Z.land st CEPH_OSD_UP =? 0))
  else mret false.

Definition is_down (osd : Z) : res bool :=
  u ← is_up osd;
  mret (negb u).

Definition osd_is_out (osd : Z) : res bool :=
  e ← osd_exists osd;
  if e : bool then
    w ← rd (osd_weight m) osd;
    mret (w =? CEPH_OSD_OUT)
  else mret true.

(** The test [!exists(o) || is_down(o)]. *)
Definition unusable (osd : Z) : res bool :=
  e ← osd_exists osd;
  if e : bool then is_down osd else mret true.

(** ** Objects to placement groups *)

Definition map_to_pg (poolid : Z) (name k ns : list Z) : pg_t + Z :=
  match get_pg_pool poolid with
  | None => inr (- ENOENT)
  | Some pl =>
      let ps := match k with [] => hash_key pl name ns | _ => hash_key pl k ns end in
      inl (mk_pg (u64 poolid) ps)
  end.

(** [object_locator_t]. *)
Record object_locator : Type := mk_loc {
  loc_pool : Z;
  loc_key : list Z;
  loc_nspace : list Z;
  loc_hash : Z;
}.

Definition object_locator_to_pg (name : list Z) (loc : object_locator) : pg_t + Z :=
  if 0 <=? loc_hash loc then
    match get_pg_pool (loc_pool loc) with
    | None => inr (- ENOENT)
    | Some _ => inl (mk_pg (u64 (loc_pool loc)) (u32 (loc_hash loc)))
    end
  else map_to_pg (loc_pool loc) name (loc_key loc) (loc_nspace loc).

(** ** Raw mapping *)

(** The loop of the shifting case; [n] rounds are left. *)
Fixpoint remove_loop (n : nat) (osds : list Z) (i removed : Z) : res (list Z * Z) :=
  match n with
  | O => mret (osds, removed)
  | S n =>
      o ← rd osds i;
      e ← osd_exists o;
      if negb e then remove_loop n osds (i + 1) (removed + 1)
      else
        osds ← (if negb (removed =? 0) then wr osds (i - removed) o else mret osds);
        remove_loop n osds (i + 1) removed
  end.

Definition _remove_nonexistent_osds (pl : pg_pool_t) (osds : list Z) : res (list Z) :=
  shift ← can_shift_osds pl;
  if shift : bool then
    r ← remove_loop (length osds) osds 0 0;
    let '(osds, removed) := r in
    mret (if negb (removed =? 0) then take (Z.to_nat (zlen osds - removed)) osds else osds)
  else
    mapM (fun osd => e ← osd_exists osd; mret (if e : bool then osd else CRUSH_ITEM_NONE)) osds.

(** Returns the vector and the placement seed. *)
Definition _pg_to_raw_osds `{PlacementRule} (pl : pg_pool_t) (pg : pg_t) (osds : list Z) : res (list Z * Z) :=
  let pps := raw_pg_to_pps pl pg in
  let size := s32 (pool_size pl) in
  let ruleno := pool_crush_rule pl in
  osds ← (if 0 <=? ruleno
          then run_rule ruleno (s32 pps) size (osd_weight m) (pg_pool pg)
          else mret osds);
  osds ← _remove_nonexistent_osds pl osds;
  mret (osds, pps).

Fixpoint _pick_primary (osds : list Z) : Z :=
  match osds with
  | [] => -1
  | osd :: osds => if negb (osd =? CRUSH_ITEM_NONE) then osd else _pick_primary osds
  end.

(** ** Upmap exceptions *)

(** The test [osd != NONE && osd < max_osd && osd >= 0 && osd_weight[osd] == 0]. *)
Definition target_out (osd : Z) : res bool :=
  if negb (osd =? CRUSH_ITEM_NONE) && (osd <? max_osd m) && (0 <=? osd) then
    w ← rd (osd_weight m) osd;
    mret (w =? 0)
  else mret false.

Fixpoint any_target_out (l : list Z) : res bool :=
  match l with
  | [] => mret false
  | osd :: l =>
      t ← target_out osd;
      if t : bool then mret true else any_target_out l
  end.

(** The scan for one pair [(from, to)]: whether [to] was met, and the first
    position of [from]; it stops where [to] is met. *)
Fixpoint upmap_scan (from to : Z) (raw : list Z) (i pos : Z) : res (bool * Z) :=
  match raw with
  | [] => mret (false, pos)
  | osd :: raw =>
      if osd =? to then mret (true, pos)
      else if (osd =? from) && (pos <? 0) then
        t ← target_out to;
        upmap_scan from to raw (i + 1) (if negb t then i else pos)
      else upmap_scan from to raw (i + 1) pos
  end.

Fixpoint upmap_items_loop (items : list (Z * Z)) (raw : list Z) : res (list Z) :=
  match items with
  | [] => mret raw
  | (from, to) :: items =>
      r ← upmap_scan from to raw 0 (-1);
      let '(found, pos) := r in
      raw ← (if negb found && (0 <=? pos) then wr raw pos to else mret raw);
      upmap_items_loop items raw
  end.

Definition _apply_upmap (pl : pg_pool_t) (raw_pg : pg_t) (raw : list Z) : res (list Z) :=
  let pg := raw_pg_to_pg pl raw_pg in
  explicit ← match pg_upmap m !! pg with
             | Some p =>
                 t ← any_target_out p;
                 mret (if t : bool then None else Some p)
             | None => mret (Some raw)
             end;
  match explicit with
  | None => mret raw
  | Some raw =>
      match pg_upmap_items m !! pg with
      | Some items => upmap_items_loop items raw
      | None => mret raw
      end
  end.

(** ** Up set *)

(** The pushing loop shared by the shifting cases below. *)
Fixpoint keep_usable (l : list Z) : res (list Z) :=
  match l with
  | [] => mret []
  | o :: l =>
      b ← unusable o;
      rest ← keep_usable l;
      mret (if b : bool then rest else o :: rest)
  end.

Definition mask_unusable (l : list Z) : res (list Z) :=
  mapM (fun o => b ← unusable o; mret (if b : bool then CRUSH_ITEM_NONE else o)) l.

Definition _raw_to_up_osds (pl : pg_pool_t) (raw : list Z) : res (list Z) :=
  shift ← can_shift_osds pl;
  if shift : bool then keep_usable raw else mask_unusable raw.

(** ** Primary affinity *)

Fixpoint any_affinity (aff : list Z) (osds : list Z) : res bool :=
  match osds with
  | [] => mret false
  | osd :: osds =>
      if negb (osd =? CRUSH_ITEM_NONE) then
        a ← rd aff osd;
        if negb (a =? CEPH_OSD_DEFAULT_PRIMARY_AFFINITY) then mret true
        else any_affinity aff osds
      else any_affinity aff osds
  end.

Fixpoint affinity_pos (aff : list Z) (seed : Z) (osds : list Z) (i pos : Z) : res Z :=
  match osds with
  | [] => mret pos
  | o :: osds =>
      if o =? CRUSH_ITEM_NONE then affinity_pos aff seed osds (i + 1) pos
      else
        a ← rd aff o;
        if (a <? CEPH_OSD_MAX_PRIMARY_AFFINITY)
           && (a <=? Z.shiftr (crush_hash32_2 CRUSH_HASH_RJENKINS1 seed o) 16)
        then affinity_pos aff seed osds (i + 1) (if pos <? 0 then i else pos)
        else mret i
  end.

(** The loop [for (int i = pos; i > 0; --i) osds[i] = osds[i-1]]. *)
Fixpoint shift_right (i : nat) (osds : list Z) : res (list Z) :=
  match i with
  | O => mret osds
  | S i' =>
      v ← rd osds (Z.of_nat i');
      osds ← wr osds (Z.of_nat i) v;
      shift_right i' osds
  end.

(** Takes and returns the vector and the primary. *)
Definition _apply_primary_affinity (seed : Z) (pl : pg_pool_t) (osds : list Z) (primary : Z)
    : res (list Z * Z) :=
  match osd_primary_affinity m with
  | None => mret (osds, primary)
  | Some aff =>
      any ← any_affinity aff osds;
      if negb any then mret (osds, primary)
      else
        pos ← affinity_pos aff seed osds 0 (-1);
        if pos <? 0 then mret (osds, primary)
        else
          primary ← rd osds pos;
          shift ← can_shift_osds pl;
          if shift && (0 <? pos) then
            osds ← shift_right (Z.to_nat pos) osds;
            osds ← wr osds 0 primary;
            mret (osds, primary)
          else mret (osds, primary)
  end.

(** ** Temporary mappings *)

Fixpoint temp_loop (pl : pg_pool_t) (l : list Z) : res (list Z) :=
  match l with
  | [] => mret []
  | o :: l =>
      b ← unusable o;
      if b : bool then
        shift ← can_shift_osds pl;
        rest ← temp_loop pl l;
        mret (if shift : bool then rest else CRUSH_ITEM_NONE :: rest)
      else
        rest ← temp_loop pl l;
        mret (o :: rest)
  end.

Definition _get_temp_osds (pl : pg_pool_t) (pg : pg_t) : res (list Z * Z) :=
  let pg := raw_pg_to_pg pl pg in
  temp ← match pg_temp m !! pg with
         | Some p => temp_loop pl p
         | None => mret []
         end;
  mret (temp, match primary_temp m !! pg with
              | Some pp => pp
              | None => _pick_primary temp
              end).

(** ** The complete mapping *)

Section mapping.
Context `{PlacementRule}.

(** The two out-parameters, [raw] being what the caller's vector holds before. *)
Definition pg_to_raw_osds (pg : pg_t) (raw : list Z) : res (list Z * Z) :=
  match get_pg_pool (pg_pool pg) with
  | None => mret ([], -1)
  | Some pl =>
      r ← _pg_to_raw_osds pl pg raw;
      mret (r.1, _pick_primary r.1)
  end.

Definition pg_to_raw_upmap (pg : pg_t) (raw : list Z) : res (list Z * list Z) :=
  match get_pg_pool (pg_pool pg) with
  | None => mret (raw, [])
  | Some pl =>
      r ← _pg_to_raw_osds pl pg raw;
      up ← _apply_upmap pl pg r.1;
      mret (r.1, up)
  end.

Definition pg_to_raw_up (pg : pg_t) : res (list Z * Z) :=
  match get_pg_pool (pg_pool pg) with
  | None => mret ([], -1)
  | Some pl =>
      r ← _pg_to_raw_osds pl pg [];
      let '(raw, pps) := r in
      raw ← _apply_upmap pl pg raw;
      up ← _raw_to_up_osds pl raw;
      _apply_primary_affinity pps pl up (_pick_primary raw)
  end.

(** The results a caller asked for: a null pointer is [None]. *)
Record up_acting : Type := mk_up_acting {
  ua_up : option (list Z);
  ua_up_primary : option Z;
  ua_acting : option (list Z);
  ua_acting_primary : option Z;
}.

Definition when {A} (b : bool) (a : A) : option A := if b then Some a else None.

(** The up set and its primary. *)
Definition compute_up (pl : pg_pool_t) (pg : pg_t) : res (list Z * Z) :=
  r ← _pg_to_raw_osds pl pg [];
  let '(raw, pps) := r in
  raw ← _apply_upmap pl pg raw;
  up ← _raw_to_up_osds pl raw;
  _apply_primary_affinity pps pl up (_pick_primary up).

(** [up], [up_primary], [acting] and [acting_primary] say which pointers are not
    null. *)
Definition _pg_to_up_acting_osds (pg : pg_t) (up up_primary acting acting_primary : bool)
    (raw_pg_to_pg : bool) : res up_acting :=
  let none := mk_up_acting (when up []) (when up_primary (-1)) (when acting []) (when acting_primary (-1)) in
  match get_pg_pool (pg_pool pg) with
  | None => mret none
  | Some pl =>
      if negb raw_pg_to_pg && (pg_num pl <=? m_seed pg) then mret none
      else
        t ← _get_temp_osds pl pg;
        let '(_acting, _acting_primary) := t in
        if bool_decide (_acting = []) || up || up_primary then
          u ← compute_up pl pg;
          let '(_up, _up_primary) := u in
          let '(_acting, _acting_primary) :=
            if bool_decide (_acting = [])
            then (_up, if _acting_primary =? -1 then _up_primary else _acting_primary)
            else (_acting, _acting_primary) in
          mret (mk_up_acting (when up _up) (when up_primary _up_primary)
                  (when acting _acting) (when acting_primary _acting_primary))
        else
          mret (mk_up_acting None None (when acting _acting) (when acting_primary _acting_primary))
  end.

Definition pg_to_up_acting_osds (pg : pg_t) : res up_acting :=
  _pg_to_up_acting_osds pg true true true true true.

Definition pg_to_acting_osds (pg : pg_t) : res up_acting :=
  _pg_to_up_acting_osds pg false false true true true.

Definition get_pg_acting_primary (pg : pg_t) : res Z :=
  r ← _pg_to_up_acting_osds pg false false false true true;
  mret (match ua_acting_primary r with Some p => p | None => -1 end).

(** ** Roles *)

(** [pg_shard_t]: an OSD and the shard it holds, [NO_SHARD] in replicated pools. *)
Definition NO_SHARD : Z := -1.

(** First index of [osd] among the entries from [i] on. *)
Fixpoint role_from (osd : Z) (acting : list Z) (i : Z) : Z :=
  match acting with
  | [] => -1
  | o :: acting => if o =? osd then i else role_from osd acting (i + 1)
  end.

Definition calc_pg_role (osd shard : Z) (acting : list Z) : res Z :=
  if shard =? NO_SHARD then mret (role_from osd acting 0)
  else if shard <? zlen acting then
    o ← rd acting shard;
    mret (if o =? osd then shard else -1)
  else mret (-1).

Definition is_up_acting_osd_shard (pg : pg_t) (shard osd : Z) : res bool :=
  r ← _pg_to_up_acting_osds pg true false true false false;
  a ← calc_pg_role osd shard (default [] (ua_acting r));
  if 0 <=? a then mret true
  else
    u ← calc_pg_role osd shard (default [] (ua_up r));
    mret (0 <=? u).

(** A conversion to [int8_t], the type of a shard id. *)
Definition s8 (z : Z) : Z := (z + 2 ^ 7) mod 2 ^ 8 - 2 ^ 7.

(** [None] is the result [false]; [Some shard] is [true] with the shard of [*out].
    The loop's index is a [uint8_t]; when the primary is not among the first 256
    entries of a longer vector the loop does not end. *)
Definition get_primary_shard (pg : pg_t) : res (option Z) :=
  match get_pg_pool (pg_pool pg) with
  | None => mret None
  | Some pl =>
      if negb (is_erasure pl) then mret (Some NO_SHARD)
      else
        r ← pg_to_acting_osds pg;
        let acting := default [] (ua_acting r) in
        let i := role_from (default (-1) (ua_acting_primary r)) (take 256 acting) 0 in
        if 0 <=? i then mret (Some (s8 i))
        else if zlen acting <? 256 then mret None else NoFuel
  end.
End mapping.
End osdmap.
