(* ===== verification/OsdMapSpec.v ===== *)
(** * OSDMap: what the mapping guarantees

    The functions of OsdMap.v on a well-formed map never index out of range, and
    their results are described by filters and maps over the raw CRUSH result.
    From that: the up set consists of distinct OSDs that are up, its primary is
    one of them, the acting set is the temporary mapping where there is one, and
    the shortcuts the code takes when a caller asks for less do not change what
    it gets.  The theorems hold for every [PlacementRule] that satisfies the
    laws; the last section instantiates them with CRUSH. *)

From S2P Require Import Prelude CrushHash CrushLn CrushTypes CrushChoose CrushPerm CrushChooseSpec CrushTree CrushMapper.
From S2P Require Import CrushMapSpec CrushFirstn CrushIndep CrushRule.
From S2P Require Import CrushWrapper PgTypes PgSplit OsdMap.

Record osdmap_wf (m : OSDMap) : Prop := {
  ow_max : 0 <= max_osd m < CRUSH_ITEM_NONE;
  ow_state : zlen (osd_state m) = max_osd m;
  ow_weight : zlen (osd_weight m) = max_osd m;
  ow_affinity : forall a, osd_primary_affinity m = Some a -> zlen a = max_osd m;
}.

(** ** The predicates behind the queries *)

Definition flag_set (m : OSDMap) (osd flag : Z) : bool :=
  match osd_state m !! Z.to_nat osd with
  | Some st => negb (Z.land st flag =? 0)
  | None => false
  end.

Definition exists_b (m : OSDMap) (osd : Z) : bool :=
  (0 <=? osd) && (osd <? max_osd m) && flag_set m osd CEPH_OSD_EXISTS.

Definition up_b (m : OSDMap) (osd : Z) : bool :=
  exists_b m osd && flag_set m osd CEPH_OSD_UP.

(** [osd] with the OSDs that fail [P] replaced by a hole. *)
Definition mask (P : Z -> bool) (osd : Z) : Z := if P osd then osd else CRUSH_ITEM_NONE.

Section queries.
Context (m : OSDMap) (Hm : osdmap_wf m).

Lemma rd_state osd : 0 <= osd < max_osd m ->
  exists st, rd (osd_state m) osd = Ok st /\ osd_state m !! Z.to_nat osd = Some st.
Proof.
  intros Ho. destruct (rd_in_range (osd_state m) osd) as [st Hst]; [rewrite ow_state; done |].
  exists st. split; [done |]. by apply rd_Ok in Hst as [_ Hst].
Qed.

Lemma osd_exists_Ok osd : osd_exists m osd = Ok (exists_b m osd).
Proof.
  unfold osd_exists, exists_b, flag_set. destruct (Z.leb_spec 0 osd), (Z.ltb_spec osd (max_osd m)); try done.
  cbn [andb]. destruct (rd_state osd) as (st & -> & ->); [lia |]. done.
Qed.

Lemma is_up_Ok osd : is_up m osd = Ok (up_b m osd).
Proof.
  unfold is_up. rewrite osd_exists_Ok. cbn [mbind res_bind]. unfold up_b.
  destruct (exists_b m osd) eqn:E; [| done]. unfold exists_b in E. bool_hyps.
  destruct (rd_state osd) as (st & -> & Hst); [lia |]. cbn. unfold flag_set. by rewrite Hst.
Qed.

Lemma unusable_Ok osd : unusable m osd = Ok (negb (up_b m osd)).
Proof.
  unfold unusable, is_down. rewrite osd_exists_Ok, is_up_Ok. cbn. unfold up_b.
  by destruct (exists_b m osd).
Qed.

Lemma exists_range osd : exists_b m osd = true -> 0 <= osd < max_osd m.
Proof. unfold exists_b. intros H. bool_hyps. lia. Qed.

Lemma up_range osd : up_b m osd = true -> 0 <= osd < max_osd m.
Proof. unfold up_b. intros H. bool_hyps. by apply exists_range. Qed.

Lemma up_not_none osd : up_b m osd = true -> osd <> CRUSH_ITEM_NONE.
Proof. intros H%up_range. destruct (ow_max m Hm). lia. Qed.

(** ** The loops over a vector *)

Lemma keep_usable_Ok l : keep_usable m l = Ok (filter (fun o => up_b m o = true) l).
Proof.
  induction l as [| o l IH]; [done |]. cbn [keep_usable]. rewrite unusable_Ok, IH. cbn [mbind res_bind].
  rewrite filter_cons. by destruct (up_b m o).
Qed.

Lemma mask_unusable_Ok l : mask_unusable m l = Ok (mask (up_b m) <$> l).
Proof.
  unfold mask_unusable. induction l as [| o l IH]; [done |]. cbn [mapM]. rewrite unusable_Ok, IH. cbn.
  unfold mask at 2. by destruct (up_b m o).
Qed.

(** The usable part of a vector, as the pool type wants it. *)
Definition usable (shift : bool) (l : list Z) : list Z :=
  if shift then filter (fun o => up_b m o = true) l else mask (up_b m) <$> l.

Lemma raw_to_up_Ok pl shift l : can_shift_osds pl = Ok shift ->
  _raw_to_up_osds m pl l = Ok (usable shift l).
Proof.
  intros Hs. unfold _raw_to_up_osds. rewrite Hs. cbn [mbind res_bind].
  destruct shift; [apply keep_usable_Ok | apply mask_unusable_Ok].
Qed.

Lemma temp_loop_Ok pl shift l : can_shift_osds pl = Ok shift -> temp_loop m pl l = Ok (usable shift l).
Proof.
  intros Hs. induction l as [| o l IH]; [by destruct shift |]. cbn [temp_loop]. rewrite unusable_Ok, IH, Hs.
  cbn [mbind res_bind]. unfold usable, mask. destruct shift; rewrite ?filter_cons, ?fmap_cons; by destruct (up_b m o).
Qed.

(** Removing OSDs that do not exist, in place: before round [i] the vector is what
    was kept, then [removed] stale entries, then the part not yet looked at. *)
Lemma remove_loop_Ok rest kept stale i removed :
  i = zlen kept + removed -> removed = zlen stale ->
  exists stale', remove_loop m (length rest) (kept ++ stale ++ rest) i removed =
    Ok ((kept ++ filter (fun o => exists_b m o = true) rest) ++ stale', zlen stale').
Proof.
  revert kept stale i removed. induction rest as [| o rest IH]; intros kept stale i removed -> ->.
  { exists stale. cbn. by rewrite !app_nil_r. }
  cbn [remove_loop length].
  assert (rd (kept ++ stale ++ o :: rest) (zlen kept + zlen stale) = Ok o) as ->.
  { apply rd_Ok. unfold zlen. split; [lia |]. rewrite app_assoc.
    replace (Z.to_nat _) with (length (kept ++ stale)) by (rewrite length_app; lia).
    apply list_lookup_middle. done. }
  cbn [mbind res_bind]. rewrite osd_exists_Ok. cbn [mbind res_bind]. destruct (exists_b m o) eqn:Eo; cbn [negb].
  - rewrite filter_cons_True by done. destruct stale as [| s stale].
    + destruct (IH (kept ++ [o]) [] (zlen kept + 0 + 1) 0) as (st & E).
      { unfold zlen. rewrite length_app. cbn. lia. }
      { done. }
      exists st. etransitivity; [| rewrite (cons_middle o kept), (app_assoc kept); exact E].
      cbn. by rewrite <- app_assoc.
    + destruct (Z.eqb_spec (zlen (s :: stale)) 0) as [E0 | E0]; [done |]. cbn [negb].
      assert (wr (kept ++ (s :: stale) ++ o :: rest) (zlen kept + zlen (s :: stale) - zlen (s :: stale)) o
              = Ok ((kept ++ [o]) ++ (stale ++ [o]) ++ rest)) as ->.
      { apply wr_Ok. unfold zlen. rewrite !length_app. cbn. split; [lia |].
        replace (Z.to_nat _) with (length kept + 0)%nat by lia. rewrite insert_app_r. cbn.
        by rewrite <- !app_assoc. }
      cbn [mbind res_bind]. destruct (IH (kept ++ [o]) (stale ++ [o]) (zlen kept + zlen (s :: stale) + 1) (zlen (s :: stale)))
        as (st & E).
      { unfold zlen. rewrite length_app. cbn. lia. }
      { unfold zlen. rewrite length_app. cbn. lia. }
      exists st. by rewrite E, <- (app_assoc kept).
  - rewrite filter_cons_False by congruence. destruct (IH kept (stale ++ [o]) (zlen kept + zlen stale + 1) (zlen stale + 1)) as (st & E).
    { lia. }
    { unfold zlen. rewrite length_app. cbn. lia. }
    exists st. rewrite <- E. by rewrite <- !app_assoc.
Qed.

Definition existing (shift : bool) (l : list Z) : list Z :=
  if shift then filter (fun o => exists_b m o = true) l else mask (exists_b m) <$> l.

Lemma remove_nonexistent_Ok pl shift l : can_shift_osds pl = Ok shift ->
  _remove_nonexistent_osds m pl l = Ok (existing shift l).
Proof.
  intros Hs. unfold _remove_nonexistent_osds. rewrite Hs. cbn [mbind res_bind]. destruct shift.
  - destruct (remove_loop_Ok l [] [] 0 0) as (st & E); [done | done |]. cbn in E. rewrite E. cbn [mbind res_bind].
    change (0 =? 0) with true. destruct (Z.eqb_spec (zlen st) 0) as [E0 | E0]; cbn [negb].
    + destruct st; [by rewrite app_nil_r |]. unfold zlen in E0. cbn [length] in E0. lia.
    + f_equal. apply take_app_length'. unfold zlen, existing. rewrite length_app. lia.
  - induction l as [| o l IH]; [done |]. cbn [mapM]. rewrite osd_exists_Ok. cbn [mbind res_bind].
    rewrite IH. cbn. done.
Qed.

(** ** Upmap *)

Definition distinct (l : list Z) : Prop := NoDup (devices l).

Lemma distinct_lookup l : distinct l <->
  forall i j o, l !! i = Some o -> l !! j = Some o -> o <> CRUSH_ITEM_NONE -> i = j.
Proof.
  unfold distinct, devices. induction l as [| a l IH].
  { split; [intros _ i j o H; by rewrite lookup_nil in H | intros _; constructor]. }
  rewrite filter_cons. case_decide as Ha.
  - rewrite NoDup_cons, IH, list_elem_of_filter. split.
    + intros [Hn Hd] [| i] [| j] o Hi Hj Ho; cbn in Hi, Hj; simplify_eq; try done.
      * exfalso. apply Hn. split; [done |]. by eapply list_elem_of_lookup_2.
      * exfalso. apply Hn. split; [done |]. by eapply list_elem_of_lookup_2.
      * f_equal. by apply (Hd i j o).
    + intros H. split.
      * intros [_ Hin]. apply list_elem_of_lookup in Hin as [i Hi]. by specialize (H 0%nat (S i) a eq_refl Hi Ha).
      * intros i j o Hi Hj Ho. by specialize (H (S i) (S j) o Hi Hj Ho) as [= ->].
  - rewrite IH. split.
    + intros H [| i] [| j] o Hi Hj Ho; cbn in Hi, Hj; simplify_eq; try done. f_equal. by apply (H i j o).
    + intros H i j o Hi Hj Ho. by specialize (H (S i) (S j) o Hi Hj Ho) as [= ->].
Qed.

(** Writing an OSD that is not in the vector keeps the vector duplicate-free. *)
Lemma distinct_update l i v : distinct l -> v ∉ l -> distinct (<[i := v]> l).
Proof.
  rewrite !distinct_lookup. intros H Hv j k o Hj Hk Ho.
  apply list_lookup_insert_Some in Hj, Hk.
  destruct Hj as [(-> & -> & _) | [Hij Hj]], Hk as [(-> & ? & _) | [Hik Hk]]; subst; try done.
  - exfalso. apply Hv. by eapply list_elem_of_lookup_2.
  - exfalso. apply Hv. by eapply list_elem_of_lookup_2.
  - by eapply H.
Qed.

Lemma target_out_Ok osd : exists b, target_out m osd = Ok b.
Proof.
  unfold target_out. destruct (negb _ && _ && _) eqn:E; [| by eexists]. bool_hyps.
  destruct (rd_in_range (osd_weight m) osd) as [w ->]; [rewrite ow_weight by done; lia | by eexists].
Qed.

Lemma any_target_out_Ok l : exists b, any_target_out m l = Ok b.
Proof.
  induction l as [| o l [b IH]]; [by eexists |]. cbn [any_target_out].
  destruct (target_out_Ok o) as [[] ->]; cbn [mbind res_bind]; [by eexists | by exists b].
Qed.

Lemma upmap_scan_Ok from to raw i pos : exists found pos',
  upmap_scan m from to raw i pos = Ok (found, pos') /\ (found = false -> to ∉ raw) /\
  (pos' = pos \/ i <= pos' < i + zlen raw).
Proof.
  revert i pos. induction raw as [| o raw IH]; intros i pos.
  { exists false, pos. split; [done |]. split; [intros _; apply not_elem_of_nil | by left]. }
  cbn [upmap_scan]. change (zlen (o :: raw)) with (Z.of_nat (S (length raw))).
  destruct (Z.eqb_spec o to) as [-> | Hne]; [exists true, pos; split; [done |]; split; [done | by left] |].
  assert (Hrec : forall p, (p = pos \/ p = i) -> exists found pos',
    upmap_scan m from to raw (i + 1) p = Ok (found, pos') /\ (found = false -> to ∉ o :: raw) /\
    (pos' = pos \/ i <= pos' < i + Z.of_nat (S (length raw)))).
  { intros p Hp. destruct (IH (i + 1) p) as (f & p' & E & Hf & Hp'). exists f, p'. split; [done |]. split.
    - intros Ef. rewrite not_elem_of_cons. split; [congruence | auto].
    - unfold zlen in Hp'. lia. }
  destruct ((o =? from) && (pos <? 0)); [| by apply Hrec; left].
  destruct (target_out_Ok to) as [t ->]. cbn [mbind res_bind]. apply Hrec. destruct t; auto.
Qed.

Lemma upmap_items_Ok items raw : distinct raw ->
  exists raw', upmap_items_loop m items raw = Ok raw' /\ distinct raw' /\ length raw' = length raw.
Proof.
  revert raw. induction items as [| [from to] items IH]; intros raw Hd; [by exists raw |].
  cbn [upmap_items_loop]. destruct (upmap_scan_Ok from to raw 0 (-1)) as (found & pos & -> & Hf & Hp).
  cbn [mbind res_bind]. destruct found; cbn [negb andb]; [by apply IH |].
  destruct (Z.leb_spec 0 pos); [| by apply IH].
  assert (wr raw pos to = Ok (<[Z.to_nat pos := to]> raw)) as -> by (apply wr_Ok; split; [lia | done]).
  cbn [mbind res_bind].
  destruct (IH (<[Z.to_nat pos := to]> raw)) as (raw' & -> & Hd' & Hl); [by apply distinct_update; auto |].
  exists raw'. split; [done |]. split; [done |]. by rewrite Hl, length_insert.
Qed.

(** Explicit mappings name each OSD once. *)
Definition upmaps_distinct : Prop := forall pg l, pg_upmap m !! pg = Some l -> distinct l.

Lemma apply_upmap_Ok pl pg raw : upmaps_distinct -> distinct raw ->
  exists raw', _apply_upmap m pl pg raw = Ok raw' /\ distinct raw' /\
    (pg_upmap m !! raw_pg_to_pg pl pg = None -> length raw' = length raw /\
     (pg_upmap_items m !! raw_pg_to_pg pl pg = None -> raw' = raw)).
Proof.
  intros Hu Hd. unfold _apply_upmap.
  destruct (pg_upmap m !! raw_pg_to_pg pl pg) as [p |] eqn:Ep.
  - destruct (any_target_out_Ok p) as [[] ->]; res_simpl; [by exists raw |].
    destruct (pg_upmap_items m !! raw_pg_to_pg pl pg) as [items |].
    + destruct (upmap_items_Ok items p) as (raw' & -> & ? & _); [by eapply Hu | by exists raw'].
    + exists p. split; [done |]. split; [by eapply Hu | done].
  - res_simpl. destruct (pg_upmap_items m !! raw_pg_to_pg pl pg) as [items |].
    + destruct (upmap_items_Ok items raw) as (raw' & -> & ? & ?); [done |]. by exists raw'.
    + by exists raw.
Qed.

(** ** Primary affinity *)

Definition slots_ok (l : list Z) : Prop :=
  Forall (fun o => o = CRUSH_ITEM_NONE \/ 0 <= o < max_osd m) l.

Lemma any_affinity_Ok aff osds : zlen aff = max_osd m -> slots_ok osds ->
  exists b, any_affinity aff osds = Ok b.
Proof.
  intros Ha Hs. induction Hs as [| o l Ho _ [b IH]]; [by eexists |]. cbn [any_affinity].
  destruct (Z.eqb_spec o CRUSH_ITEM_NONE); cbn [negb]; [by exists b |].
  destruct Ho as [| Ho]; [done |]. destruct (rd_in_range aff o) as [a ->]; [by rewrite Ha |]. res_simpl.
  destruct (negb _); [by eexists | by exists b].
Qed.

Lemma affinity_pos_Ok aff seed osds i pos : zlen aff = max_osd m -> slots_ok osds -> 0 <= i -> pos < i ->
  exists p, affinity_pos aff seed osds i pos = Ok p /\
    ((p = pos /\ (0 <= pos \/ devices osds = [])) \/
     exists o, i <= p /\ osds !! Z.to_nat (p - i) = Some o /\ o <> CRUSH_ITEM_NONE).
Proof.
  intros Ha Hs. revert i pos. induction Hs as [| o l Ho _ IH]; intros i pos Hi Hpos.
  { exists pos. split; [done |]. left. auto. }
  cbn [affinity_pos]. unfold devices in *. rewrite filter_cons.
  assert (Hnext : forall p q, (exists o, i + 1 <= p /\ l !! Z.to_nat (p - (i + 1)) = Some o /\ o <> q) ->
    exists o', i <= p /\ (o :: l) !! Z.to_nat (p - i) = Some o' /\ o' <> q).
  { intros p q (o' & ? & Hl & ?). exists o'. split; [lia |]. split; [| done].
    replace (Z.to_nat (p - i)) with (S (Z.to_nat (p - (i + 1)))) by lia. done. }
  destruct (Z.eqb_spec o CRUSH_ITEM_NONE) as [Hn | Hn].
  - destruct (IH (i + 1) pos) as (p & -> & Hp); [lia.. |]. exists p. split; [done |].
    rewrite decide_False by (intros ?; done). destruct Hp as [? | ?]; [by left | right; by apply Hnext].
  - destruct Ho as [| Ho]; [done |]. destruct (rd_in_range aff o) as [a ->]; [by rewrite Ha |]. res_simpl.
    rewrite decide_True by done.
    assert (Hhere : exists o', i <= i /\ (o :: l) !! Z.to_nat (i - i) = Some o' /\ o' <> CRUSH_ITEM_NONE).
    { exists o. split; [lia |]. by replace (i - i) with 0 by lia. }
    destruct (_ && _); [| exists i; split; [done | by right]].
    destruct (IH (i + 1) (if pos <? 0 then i else pos)) as (p & -> & Hp);
      [lia | destruct (pos <? 0); lia |]. exists p. split; [done |].
    destruct Hp as [[-> _] | ?]; [| right; by apply Hnext].
    destruct (Z.ltb_spec pos 0); [by right | left; split; [done | by left]].
Qed.

Lemma shift_right_Ok k (l : list Z) a : (k < length l)%nat -> l !! 0%nat = Some a ->
  shift_right k l = Ok (a :: take k l ++ drop (S k) l).
Proof.
  revert l. induction k as [| k IH]; intros l Hk Ha.
  { destruct l; [done |]. cbn in Ha. by injection Ha as ->. }
  cbn [shift_right]. destruct (lookup_lt_is_Some_2 l k) as [v Hv]; [lia |].
  assert (rd l (Z.of_nat k) = Ok v) as -> by (apply rd_Ok; rewrite Nat2Z.id; split; [lia | done]). res_simpl.
  assert (wr l (Z.of_nat (S k)) v = Ok (<[S k := v]> l)) as ->.
  { apply wr_Ok. rewrite Nat2Z.id. unfold zlen. split; [lia | done]. }
  res_simpl. rewrite IH; [| rewrite length_insert; lia | by rewrite list_lookup_insert_ne by done].
  f_equal. f_equal. rewrite take_insert_ge by lia. rewrite (take_S_r l k v) by done. rewrite <- app_assoc. f_equal.
  rewrite (drop_S (<[S k := v]> l) v (S k)); [| by rewrite list_lookup_insert_eq by lia].
  by rewrite drop_insert_lt by lia.
Qed.

Lemma apply_affinity_Ok seed pl shift osds primary : can_shift_osds pl = Ok shift -> slots_ok osds ->
  exists osds' p', _apply_primary_affinity m seed pl osds primary = Ok (osds', p') /\
    osds' ≡ₚ osds /\ (shift = false -> osds' = osds) /\
    ((p' = primary /\ osds' = osds) \/
     (p' ∈ devices osds /\ (shift = true -> head osds' = Some p'))).
Proof.
  intros Hsh Hs. unfold _apply_primary_affinity.
  assert (Hsame : exists osds' p', Ok (osds, primary) = Ok (osds', p') /\
    osds' ≡ₚ osds /\ (shift = false -> osds' = osds) /\
    ((p' = primary /\ osds' = osds) \/ (p' ∈ devices osds /\ (shift = true -> head osds' = Some p'))))
    by (exists osds, primary; split; [done |]; split; [done |]; split; [done | by left]).
  destruct (osd_primary_affinity m) as [aff |] eqn:Ea; [| done]. pose proof (ow_affinity m Hm aff Ea) as Hl.
  destruct (any_affinity_Ok aff osds Hl Hs) as [[] ->]; res_simpl; cbn [negb]; [| done].
  destruct (affinity_pos_Ok aff seed osds 0 (-1) Hl Hs) as (p & -> & Hp); [lia.. |]. res_simpl.
  destruct (Z.ltb_spec p 0) as [Hneg | Hpos]; [done |].
  destruct Hp as [[-> _] | (o & _ & Ho & Hne)]; [lia |]. rewrite Z.sub_0_r in Ho.
  assert (rd osds p = Ok o) as -> by (apply rd_Ok; done). rewrite Hsh. res_simpl.
  assert (Hin : o ∈ devices osds).
  { unfold devices. apply list_elem_of_filter. split; [done |]. by eapply list_elem_of_lookup_2. }
  destruct shift; cbn [andb].
  2: { exists osds, o. split; [done |]. split; [done |]. split; [done |]. by right. }
  destruct (Z.ltb_spec 0 p) as [Hp0 | Hp0].
  - pose proof (lookup_lt_Some _ _ _ Ho) as Hlt.
    destruct (lookup_lt_is_Some_2 osds 0) as [a Ha]; [lia |].
    rewrite (shift_right_Ok _ _ a) by done. res_simpl.
    assert (wr (a :: take (Z.to_nat p) osds ++ drop (S (Z.to_nat p)) osds) 0 o =
            Ok (o :: take (Z.to_nat p) osds ++ drop (S (Z.to_nat p)) osds)) as ->.
    { apply wr_Ok. split; [unfold zlen; cbn [length]; lia | done]. }
    res_simpl. eexists _, o. split; [done |]. split; [| split; [done | right; done]].
    rewrite <- (take_drop_middle osds (Z.to_nat p) o) at 3 by done. by rewrite Permutation_middle.
  - exists osds, o. split; [done |]. split; [done |]. split; [done |]. right. split; [done |]. intros _.
    assert (p = 0) as -> by lia. change (Z.to_nat 0) with 0%nat in Ho. by destruct osds.
Qed.

(** ** The up set *)

Lemma devices_filter P l : (forall o, P o = true -> o <> CRUSH_ITEM_NONE) ->
  devices (filter (fun o => P o = true) l) = filter (fun o => P o = true) (devices l) /\
  devices (mask P <$> l) = filter (fun o => P o = true) (devices l) /\
  devices (filter (fun o => P o = true) l) = filter (fun o => P o = true) l.
Proof.
  intros HP. unfold devices. induction l as [| o l (IH1 & IH2 & IH3)]; [done |].
  rewrite fmap_cons. destruct (P o) eqn:E.
  - pose proof (HP o E) as Hn. assert (mask P o = o) as -> by (unfold mask; by rewrite E).
    rewrite !(filter_cons_True (fun o => o <> CRUSH_ITEM_NONE)) by done.
    rewrite !(filter_cons_True (fun o => P o = true)) by done.
    rewrite !(filter_cons_True (fun o => o <> CRUSH_ITEM_NONE)) by done.
    split; [by rewrite IH1 | split; [by rewrite IH2 | by rewrite IH3]].
  - assert (mask P o = CRUSH_ITEM_NONE) as -> by (unfold mask; by rewrite E).
    rewrite !(filter_cons_False (fun o => P o = true) o) by congruence.
    rewrite (filter_cons_False (fun o => o <> CRUSH_ITEM_NONE) CRUSH_ITEM_NONE) by (intros H; by apply H).
    rewrite (filter_cons _ o l). split; [| split; [| done]]; case_decide; rewrite ?filter_cons_False by congruence; done.
Qed.

Lemma usable_devices shift l : devices (usable shift l) = filter (fun o => up_b m o = true) (devices l).
Proof. destruct shift; apply devices_filter, up_not_none. Qed.

Lemma existing_devices shift l : devices (existing shift l) = filter (fun o => exists_b m o = true) (devices l).
Proof.
  destruct shift; apply devices_filter; intros o Ho%exists_range; destruct (ow_max m Hm); lia.
Qed.

Lemma usable_alive shift l : Forall (fun o => o = CRUSH_ITEM_NONE \/ up_b m o = true) (usable shift l).
Proof.
  destruct shift; cbn.
  - apply Forall_forall. intros o [Ho _]%list_elem_of_filter. by right.
  - apply Forall_fmap, Forall_forall. intros o _. cbn. unfold mask. destruct (up_b m o) eqn:E; auto.
Qed.

Lemma usable_slots shift l : slots_ok (usable shift l).
Proof.
  eapply Forall_impl; [apply usable_alive |]. intros o [| Ho]; [by left |]. right. by apply up_range.
Qed.

Lemma pick_primary_eq l : _pick_primary l = default (-1) (head (devices l)).
Proof.
  unfold devices. induction l as [| o l IH]; [done |]. cbn [_pick_primary]. rewrite filter_cons.
  destruct (Z.eqb_spec o CRUSH_ITEM_NONE); cbn [negb].
  - by rewrite decide_False by (intros ?; done).
  - by rewrite decide_True.
Qed.

(** A vector of OSDs and its primary: the OSDs are up and all different; in a
    replicated pool there are no holes and the primary comes first; there is no
    primary exactly when there is no OSD. *)
Record up_ok (shift : bool) (up : list Z) (p : Z) : Prop := {
  uo_alive : Forall (fun o => o = CRUSH_ITEM_NONE \/ up_b m o = true) up;
  uo_distinct : distinct up;
  uo_dense : shift = true -> devices up = up;
  uo_none : devices up = [] -> p = -1;
  uo_member : devices up <> [] -> p ∈ devices up;
  uo_first : shift = true -> devices up <> [] -> head up = Some p;
}.

Lemma up_ok_pick shift l : distinct l -> up_ok shift (usable shift l) (_pick_primary (usable shift l)).
Proof.
  intros Hd. split.
  - apply usable_alive.
  - unfold distinct. rewrite usable_devices. by apply NoDup_filter.
  - intros ->. apply devices_filter, up_not_none.
  - rewrite pick_primary_eq. by intros ->.
  - rewrite pick_primary_eq. destruct (devices (usable shift l)); [done |]. intros _. left.
  - intros -> Hne. rewrite pick_primary_eq. assert (devices (usable true l) = usable true l) as E
      by apply devices_filter, up_not_none. rewrite E in Hne |- *. by destruct (usable true l).
Qed.

Lemma up_ok_affinity seed pl shift l p : can_shift_osds pl = Ok shift -> up_ok shift l p ->
  exists l' p', _apply_primary_affinity m seed pl l p = Ok (l', p') /\ up_ok shift l' p' /\
    l' ≡ₚ l /\ (shift = false -> l' = l).
Proof.
  intros Hs [Ha Hd Hde Hn Hme Hf].
  destruct (apply_affinity_Ok seed pl shift l p) as (l' & p' & E & Hperm & Hsame & Hcase); [done | |].
  { eapply Forall_impl; [exact Ha |]. intros o [| Ho]; [by left |]. right. by apply up_range. }
  exists l', p'. split; [done |]. split; [| done].
  assert (Hdp : devices l' ≡ₚ devices l) by (unfold devices; by rewrite Hperm).
  destruct Hcase as [[-> ->] | [Hin Hhd]]; [by split |].
  assert (Hne : devices l' <> []) by (intros E0; rewrite E0 in Hdp; apply Permutation_nil in Hdp; rewrite Hdp in Hin;
    by apply elem_of_nil in Hin).
  split.
  - by rewrite Hperm.
  - unfold distinct. by rewrite Hdp.
  - intros Es. unfold devices. apply filter_all. intros o Ho. rewrite Hperm in Ho.
    rewrite <- (Hde Es) in Ho. unfold devices in Ho. by apply list_elem_of_filter in Ho as [].
  - done.
  - intros _. by rewrite Hdp.
  - auto.
Qed.
End queries.

(** The temporary mapping of a PG, as far as its OSDs can serve. *)
Definition temp_osds (m : OSDMap) (pl : pg_pool_t) (pg : pg_t) (shift : bool) : list Z :=
  usable m shift (default [] (pg_temp m !! raw_pg_to_pg pl pg)).

Lemma temp_osds_Ok m pl pg shift : osdmap_wf m -> can_shift_osds pl = Ok shift ->
  _get_temp_osds m pl pg =
  Ok (temp_osds m pl pg shift,
      match primary_temp m !! raw_pg_to_pg pl pg with
      | Some pp => pp | None => _pick_primary (temp_osds m pl pg shift) end).
Proof.
  intros Hm Hs. unfold _get_temp_osds, temp_osds. destruct (pg_temp m !! raw_pg_to_pg pl pg) as [p |].
  - rewrite (temp_loop_Ok m Hm pl shift) by done. done.
  - res_simpl. by destruct shift.
Qed.

(** ** The mapping of a placement group *)

Section mapping.
Context `{PlacementRule} (m : OSDMap) (pl : pg_pool_t) (pg : pg_t) (shift : bool).
Context (Hm : osdmap_wf m) (Hup : upmaps_distinct m) (Hshift : can_shift_osds pl = Ok shift)
        (Hrule : 0 <= pool_crush_rule pl)
        `{!PlacementLaws (pool_crush_rule pl) (s32 (pool_size pl)) (pg_pool pg) shift}.

Lemma raw_osds_Ok : exists out,
  run_rule (pool_crush_rule pl) (s32 (raw_pg_to_pps pl pg)) (s32 (pool_size pl)) (osd_weight m) (pg_pool pg) = Ok out /\
  _pg_to_raw_osds m pl pg [] = Ok (existing m shift out, raw_pg_to_pps pl pg) /\
  distinct (existing m shift out) /\ zlen out <= s32 (pool_size pl) /\
  (shift = false -> zlen out = s32 (pool_size pl)).
Proof.
  destruct (placement_total (s32 (raw_pg_to_pps pl pg)) (osd_weight m)) as (out & E & Hl & Hd & _ & Hsz).
  exists out. split; [done |]. split.
  - unfold _pg_to_raw_osds. destruct (Z.leb_spec 0 (pool_crush_rule pl)); [| lia]. rewrite E. res_simpl.
    rewrite (remove_nonexistent_Ok m Hm pl shift) by done. done.
  - split; [| split; [done | by intros ->]]. unfold distinct. rewrite existing_devices by done. by apply NoDup_filter.
Qed.

Lemma zlen_usable l : zlen (usable m shift l) <= zlen l /\ (shift = false -> zlen (usable m shift l) = zlen l).
Proof.
  unfold usable, zlen. destruct shift; [split; [| done] | rewrite length_fmap; lia].
  pose proof (length_filter (fun o => up_b m o = true) l). lia.
Qed.

Lemma zlen_existing l : zlen (existing m shift l) <= zlen l /\ (shift = false -> zlen (existing m shift l) = zlen l).
Proof.
  unfold existing, zlen. destruct shift; [split; [| done] | rewrite length_fmap; lia].
  pose proof (length_filter (fun o => exists_b m o = true) l). lia.
Qed.

Lemma compute_up_Ok : exists out up p,
  run_rule (pool_crush_rule pl) (s32 (raw_pg_to_pps pl pg)) (s32 (pool_size pl)) (osd_weight m) (pg_pool pg) = Ok out /\
  compute_up m pl pg = Ok (up, p) /\ up_ok m shift up p /\
  (pg_upmap m !! raw_pg_to_pg pl pg = None ->
   zlen up <= s32 (pool_size pl) /\ (shift = false -> zlen up = s32 (pool_size pl)) /\
   (pg_upmap_items m !! raw_pg_to_pg pl pg = None -> up ≡ₚ usable m shift (existing m shift out) /\
      (shift = false -> up = usable m shift (existing m shift out)))).
Proof.
  destruct raw_osds_Ok as (out & Erun & Eraw & Hd & Hl & Hsz).
  destruct (apply_upmap_Ok m Hm pl pg _ Hup Hd) as (raw & Eup & Hdr & Hnone).
  destruct (up_ok_affinity m Hm (raw_pg_to_pps pl pg) pl shift _ _ Hshift (up_ok_pick m Hm shift raw Hdr))
    as (up & p & Eaff & Hok & Hperm & Hsame).
  exists out, up, p. split; [done |]. split; [| split; [done |]].
  - unfold compute_up. rewrite Eraw. res_simpl. rewrite Eup. res_simpl.
    rewrite (raw_to_up_Ok m Hm pl shift) by done. done.
  - intros Hn. destruct (Hnone Hn) as [Hlen Hraw]. destruct (zlen_usable raw) as [Hu1 Hu2].
    destruct (zlen_existing out) as [He1 He2].
    assert (zlen up = zlen (usable m shift raw)) as -> by (unfold zlen; by rewrite Hperm).
    assert (zlen raw = zlen (existing m shift out)) by (unfold zlen; by rewrite Hlen).
    split; [lia |]. split.
    2: { intros Hi. rewrite <- (Hraw Hi). done. }
    intros Es. rewrite Hu2 by done. specialize (He2 Es). specialize (Hsz Es). lia.
Qed.
End mapping.

(** C23. The up and acting sets: on a well-formed map, for a pool whose CRUSH rule
    satisfies the placement laws, the mapping returns.  The up set holds distinct
    OSDs that exist and are up, with holes only in erasure-coded pools, and its
    primary is one of them (the first one in replicated pools), or -1 when it is
    empty.  The acting set is the usable part of the PG's temporary mapping, or
    the up set when that is empty; its primary is the primary_temp entry, or else
    derived from the acting set; without such an entry the acting set satisfies
    all that the up set does. *)
Theorem pg_mapping_sound `{PlacementRule} m pl pg shift :
  osdmap_wf m -> upmaps_distinct m -> pools m !! pg_pool pg = Some pl -> can_shift_osds pl = Ok shift ->
  0 <= pool_crush_rule pl -> PlacementLaws (pool_crush_rule pl) (s32 (pool_size pl)) (pg_pool pg) shift ->
  (forall l, pg_temp m !! raw_pg_to_pg pl pg = Some l -> distinct l) ->
  let temp := temp_osds m pl pg shift in
  exists up p acting ap,
    pg_to_up_acting_osds m pg = Ok (mk_up_acting (Some up) (Some p) (Some acting) (Some ap)) /\
    up_ok m shift up p /\
    (pg_upmap m !! raw_pg_to_pg pl pg = None ->
     zlen up <= s32 (pool_size pl) /\ (shift = false -> zlen up = s32 (pool_size pl))) /\
    acting = (if decide (temp = []) then up else temp) /\
    match primary_temp m !! raw_pg_to_pg pl pg with
    | Some pp => ap = if decide (temp = [] /\ pp = -1) then p else pp
    | None => up_ok m shift acting ap
    end.
Proof.
  intros Hm Hup Hp Hs Hr Hl Ht temp.
  destruct (compute_up_Ok m pl pg shift Hm Hup Hs Hr) as (out & up & p & _ & Eup & Hok & Hlen).
  assert (Htd : up_ok m shift temp (_pick_primary temp)).
  { apply up_ok_pick; [done |]. destruct (pg_temp m !! raw_pg_to_pg pl pg); [by apply Ht | constructor]. }
  unfold pg_to_up_acting_osds, _pg_to_up_acting_osds, get_pg_pool. rewrite Hp. cbn [negb andb].
  rewrite (temp_osds_Ok m pl pg shift) by done. res_simpl. fold temp. rewrite orb_true_r. cbn [orb].
  rewrite Eup. res_simpl. cbn [when].
  destruct (decide (temp = [])) as [E | E].
  - rewrite bool_decide_true by done. eexists up, p, up, _. split; [done |]. split; [done |].
    split; [intros Hn; by destruct (Hlen Hn) as (? & ? & _) |]. split; [done |].
    destruct (primary_temp m !! raw_pg_to_pg pl pg) as [pp |].
    + destruct (Z.eqb_spec pp (-1)); [by rewrite decide_True | by rewrite decide_False by tauto].
    + rewrite E. done.
  - rewrite bool_decide_false by done. eexists up, p, temp, _. split; [done |]. split; [done |].
    split; [intros Hn; by destruct (Hlen Hn) as (? & ? & _) |]. split; [done |].
    destruct (primary_temp m !! raw_pg_to_pg pl pg) as [pp |]; [| done].
    by rewrite decide_False by tauto.
Qed.

(** Asking for less: [pg_to_acting_osds] and [get_pg_acting_primary], which
    skip the computation of the up set when the temporary mapping decides, report
    the acting set and primary that the complete query reports. *)
Theorem acting_shortcut_agrees `{PlacementRule} m pg r :
  pg_to_up_acting_osds m pg = Ok r ->
  pg_to_acting_osds m pg = Ok (mk_up_acting None None (ua_acting r) (ua_acting_primary r)) /\
  get_pg_acting_primary m pg = Ok (default (-1) (ua_acting_primary r)).
Proof.
  unfold pg_to_up_acting_osds, pg_to_acting_osds, get_pg_acting_primary, _pg_to_up_acting_osds.
  destruct (get_pg_pool m (pg_pool pg)) as [pl |]; [| by intros [= <-]]. cbn [negb andb].
  intros E. apply res_bind_Ok in E as ([acting ap] & -> & E). res_simpl.
  rewrite orb_true_r in E. cbn [orb] in E. apply res_bind_Ok in E as ([up p] & Eup & E).
  rewrite orb_false_r, orb_false_r. destruct (bool_decide (acting = [])) eqn:Ea.
  - rewrite Eup. res_simpl. injection E as <-. done.
  - injection E as <-. done.
Qed.

(** ** A small map *)

(** Three OSDs, the last one down; a replicated pool of size 3 whose rule answers
    with all of them. *)
Definition ex_rule : PlacementRule := fun _ _ _ _ _ => Ok [2; 0; 1].

Lemma ex_rule_laws : @PlacementLaws ex_rule 0 3 5 true.
Proof.
  split. intros x weight. exists [2; 0; 1]. split; [done |]. split; [done |].
  split; [by apply (bool_decide_unpack (NoDup [2; 0; 1])); vm_compute |].
  split; [repeat constructor; done | done].
Qed.

Definition ex_osds : OSDMap :=
  mk_osdmap 3 [3; 3; 1] [0x10000; 0x10000; 0x10000] None ∅ ∅ ∅ ∅ {[5 := ex_pool 6]}.

Lemma ex_osds_wf : osdmap_wf ex_osds.
Proof. by split. Qed.

Lemma ex_osds_plain : upmaps_distinct ex_osds /\ forall pg l, pg_temp ex_osds !! pg = Some l -> distinct l.
Proof. split; intros pg l H; cbn in H; by rewrite lookup_empty in H. Qed.

Lemma pg_mapping_sound_witness :
  exists up p acting ap,
    pg_to_up_acting_osds (H := ex_rule) ex_osds (mk_pg 5 77) =
      Ok (mk_up_acting (Some up) (Some p) (Some acting) (Some ap)) /\
    up_ok ex_osds true up p /\
    (pg_upmap ex_osds !! raw_pg_to_pg (ex_pool 6) (mk_pg 5 77) = None ->
     zlen up <= 3 /\ (true = false -> zlen up = 3)) /\
    acting = (if decide (temp_osds ex_osds (ex_pool 6) (mk_pg 5 77) true = []) then up
              else temp_osds ex_osds (ex_pool 6) (mk_pg 5 77) true) /\
    up_ok ex_osds true acting ap.
Proof.
  apply (pg_mapping_sound (H := ex_rule) ex_osds (ex_pool 6) (mk_pg 5 77) true);
    [apply ex_osds_wf | apply ex_osds_plain | done | done | done | apply ex_rule_laws
    | intros l; apply ex_osds_plain].
Defined.

Lemma acting_shortcut_agrees_witness :
  pg_to_acting_osds (H := ex_rule) ex_osds (mk_pg 5 77) = Ok (mk_up_acting None None (Some [0; 1]) (Some 0)) /\
  get_pg_acting_primary (H := ex_rule) ex_osds (mk_pg 5 77) = Ok (default (-1) (Some 0)).
Proof.
  apply (acting_shortcut_agrees (H := ex_rule) ex_osds (mk_pg 5 77)
           (mk_up_acting (Some [0; 1]) (Some 0) (Some [0; 1]) (Some 0))).
  vm_compute. reflexivity.
Defined.

(** [pg_to_raw_up] takes its primary from the raw mapping and not from the up
    set it returns: here it names OSD 2, which is down and not in the up set, where
    the complete query names OSD 0. *)
Theorem raw_up_primary_is_down :
  pg_to_raw_up (H := ex_rule) ex_osds (mk_pg 5 77) = Ok ([0; 1], 2) /\ is_up ex_osds 2 = Ok false /\
  pg_to_up_acting_osds (H := ex_rule) ex_osds (mk_pg 5 77) =
    Ok (mk_up_acting (Some [0; 1]) (Some 0) (Some [0; 1]) (Some 0)).
Proof. vm_compute. done. Qed.
