(* ===== verification/OsdMapCrush.v ===== *)
(** * Placement groups on CRUSH, end to end

    The rules that the monitors create satisfy the laws that OsdMapSpec.v asks of
    a rule engine, so the guarantees of the OSD map hold on CRUSH; and the failure
    domain guarantees of CRUSH carry over from raw results to up sets. *)

From S2P Require Import Prelude CrushHash CrushLn CrushTypes CrushChoose CrushPerm CrushChooseSpec CrushTree CrushMapper.
From S2P Require Import CrushMapSpec CrushFirstn CrushIndep CrushRule CrushMapBuild.
From S2P Require Import CrushWrapper PgTypes PgSplit OsdMap OsdMapSpec.

(** What the wrapper needs for a pool: the map is well-formed and finalised, and
    the fuel covers its size. *)
Record wrapper_ok (fuel : nat) (w : CrushWrapper) (rank : Z -> nat) (L : limits) (pool size : Z) : Prop := {
  wo_env : env_ok (cw_crush w) rank (choose_args_get_with_fallback w pool) L fuel size;
  wo_bytes : working_size (cw_crush w) = workspace_bytes (cw_crush w);
  wo_tries : match cw_choose_tries w with
             | None => True | Some t => zlen t = choose_total_tries (cw_crush w) + 1 end;
}.

(** The rule [ruleno] takes [root] and chooses leaves in domains of type [type]. *)
Definition rule_is (m : crush_map) (ruleno : Z) (root : crush_bucket) (op n type : Z) : Prop :=
  is_u32 ruleno /\ (exists r, rules m !! Z.to_nat ruleno = Some (Some r) /\ steps r = simple_steps (b_id root) op n type) /\
  is_s32 n /\ type <> 0 /\ is_bucket m root.

Section wrapper.
Context (fuel : nat) (junk : Z -> Z -> Z) (w : CrushWrapper) (rank : Z -> nat) (L : limits) (pool size : Z).
Context (Hw : wrapper_ok fuel w rank L pool size) (ruleno : Z) (root : crush_bucket) (n type : Z).

Lemma junk_vec_len i k : 0 <= k -> zlen (junk_vec junk i k) = k.
Proof. intros. unfold junk_vec, zlen. rewrite length_fmap, length_seqZ. lia. Qed.

Lemma wrapper_workspace : exists work,
  crush_init_workspace (cw_crush w) (cw_choose_tries w) (junk_perm junk (cw_crush w)) = Ok work /\
  work_inv (cw_crush w) work.
Proof.
  destruct Hw as [Henv Hb Ht]. apply init_workspace_Ok; [done | | done]. intros i b Hi.
  unfold junk_perm. rewrite Nat2Z.id, Hi. apply junk_vec_len.
  pose proof (eo_map _ _ _ _ _ _ Henv) as Hm. pose proof (mo_id _ _ Hm _ _ Hi) as Hid.
  destruct (mo_bucket _ _ Hm b) as [Hs _]; [| apply Hs].
  split; [by replace (Z.to_nat (-1 - b_id b)) with i by lia | lia].
Qed.

Lemma do_rule_unfold x weight result :
  0 < size ->
  (forall cw, work_inv (cw_crush w) cw -> exists cw',
    crush_do_rule fuel (cw_crush w) weight x (choose_args_get_with_fallback w pool) size ruleno cw
      (junk_vec junk 0 size) (junk_vec junk 1 size) (junk_vec junk 2 size) = Ok (result, cw') /\
    work_inv (cw_crush w) cw') ->
  do_rule fuel junk w ruleno x size weight pool = Ok result.
Proof.
  intros Hs Hrun. unfold do_rule. destruct (Z.ltb_spec size 0); [lia |].
  destruct wrapper_workspace as (work & -> & Hinv). res_simpl.
  destruct (Hrun work Hinv) as (cw' & -> & _). done.
Qed.

Lemma placed_device x weight d v :
  placed (cw_crush w) weight x root type d v -> 0 <= v /\ v <> CRUSH_ITEM_NONE.
Proof.
  intros (db & _ & _ & _ & _ & _ & Hv & _). pose proof (eo_maxdev _ _ _ _ _ _ (wo_env _ _ _ _ _ _ Hw)).
  unfold CRUSH_ITEM_UNDEF, CRUSH_ITEM_NONE in *. lia.
Qed.

Lemma do_rule_replicated x weight :
  rule_is (cw_crush w) ruleno root CRUSH_RULE_CHOOSELEAF_FIRSTN n type -> 0 < rule_numrep size n ->
  exists out domains, do_rule fuel junk w ruleno x size weight pool = Ok out /\
    zlen out <= size /\ NoDup out /\ NoDup domains /\
    Forall2 (placed (cw_crush w) weight x root type) domains out.
Proof.
  intros (Hu & (r & Hr & Hst) & Hn & Hty & Hroot) Hnr. pose proof (wo_env _ _ _ _ _ _ Hw) as Henv.
  pose proof (eo_result _ _ _ _ _ _ Henv) as Hs.
  destruct (replicated_rule_result (cw_crush w) rank weight x (choose_args_get_with_fallback w pool) L fuel size
    ruleno r (junk_vec junk 0 size) (junk_vec junk 1 size) (junk_vec junk 2 size) root n type)
    as (out & domains & Hl & Hd & Hdd & Hpl & Hrun); try done; try (apply junk_vec_len; lia).
  exists out, domains. split; [apply do_rule_unfold; [lia | done] |]. split; [lia | done].
Qed.

Lemma do_rule_erasure x weight :
  rule_is (cw_crush w) ruleno root CRUSH_RULE_CHOOSELEAF_INDEP 0 type ->
  exists out domains, do_rule fuel junk w ruleno x size weight pool = Ok out /\
    zlen out = size /\
    Forall2 (fun d v => (d = CRUSH_ITEM_NONE /\ v = CRUSH_ITEM_NONE) \/
                        placed (cw_crush w) weight x root type d v) domains out /\
    (forall i j d, domains !! i = Some d -> domains !! j = Some d -> i <> j -> d = CRUSH_ITEM_NONE).
Proof.
  intros (Hu & (r & Hr & Hst) & Hn & Hty & Hroot). pose proof (wo_env _ _ _ _ _ _ Hw) as Henv.
  pose proof (eo_result _ _ _ _ _ _ Henv) as Hs.
  destruct (erasure_rule_result (cw_crush w) rank weight x (choose_args_get_with_fallback w pool) L fuel size
    ruleno r (junk_vec junk 0 size) (junk_vec junk 1 size) (junk_vec junk 2 size) root 0 type)
    as (out & domains & Hl & Hpl & Hd & Hrun); try done; try (apply junk_vec_len; lia).
  { unfold rule_numrep. cbn. lia. }
  exists out, domains. split; [apply do_rule_unfold; [lia | done] |].
  split; [unfold rule_numrep in Hl; cbn in Hl; lia | done].
Qed.

(** Replicated pools satisfy the laws. *)
Lemma replicated_laws :
  rule_is (cw_crush w) ruleno root CRUSH_RULE_CHOOSELEAF_FIRSTN n type -> 0 < rule_numrep size n ->
  @PlacementLaws (wrapper_rule fuel junk w) ruleno size pool true.
Proof.
  intros Hr Hn. split. intros x weight. destruct (do_rule_replicated x weight Hr Hn) as (out & ds & E & Hl & Hd & _ & Hpl).
  exists out. split; [done |]. split; [done |].
  assert (Hall : forall v, v ∈ out -> 0 <= v /\ v <> CRUSH_ITEM_NONE).
  { intros v Hv. apply list_elem_of_lookup in Hv as [i Hi].
    destruct (Forall2_lookup_r _ _ _ _ _ Hpl Hi) as (d & _ & Hp). by eapply placed_device. }
  assert (devices out = out) as Hdev by (apply filter_all; intros v Hv; by apply Hall).
  rewrite Hdev. split; [done |]. split; [| done]. apply Forall_forall. intros v Hv. by apply Hall.
Qed.

(** Erasure-coded pools satisfy them when no device is below two failure domains
    of the rule's type. *)
Definition unique_domains (m : crush_map) : Prop := forall b b' v, is_bucket m b -> is_bucket m b' ->
  b_type b = type -> b_type b' = type -> below m b v -> below m b' v -> b_id b = b_id b'.

Lemma erasure_laws :
  rule_is (cw_crush w) ruleno root CRUSH_RULE_CHOOSELEAF_INDEP 0 type -> unique_domains (cw_crush w) ->
  @PlacementLaws (wrapper_rule fuel junk w) ruleno size pool false.
Proof.
  intros Hr Huniq. split. intros x weight. destruct (do_rule_erasure x weight Hr) as (out & ds & E & Hl & Hpl & Hd).
  exists out. split; [done |]. split; [lia |]. split; [| split; [| done]].
  - apply distinct_lookup. intros i j v Hi Hj Hv.
    destruct (Forall2_lookup_r _ _ _ _ _ Hpl Hi) as (d & Hdi & [[_ ?] | Hp]); [done |].
    destruct (Forall2_lookup_r _ _ _ _ _ Hpl Hj) as (d' & Hdj & [[_ ?] | Hp']); [done |].
    destruct (decide (i = j)) as [| Hne]; [done |].
    destruct Hp as (b & Hb & Hbid & Hbt & _ & Hbv & _), Hp' as (b' & Hb' & Hbid' & Hbt' & _ & Hbv' & _).
    assert (d = d') as <- by (rewrite <- Hbid, <- Hbid'; by apply (Huniq b b' v)).
    specialize (Hd i j d Hdi Hdj Hne). destruct Hb as [_ Hneg]. unfold CRUSH_ITEM_NONE in Hd. lia.
  - apply Forall_forall. intros v Hv. apply list_elem_of_lookup in Hv as [i Hi].
    destruct (Forall2_lookup_r _ _ _ _ _ Hpl Hi) as (d & _ & [[_ ->] | Hp]); [done |].
    by eapply placed_device.
Qed.
End wrapper.

(** ** From raw results to up sets *)

(** A complete query reports the up set that [compute_up] computes. *)
Lemma mapping_reports_up `{PlacementRule} m pl pg shift up p :
  osdmap_wf m -> pools m !! pg_pool pg = Some pl -> can_shift_osds pl = Ok shift ->
  compute_up m pl pg = Ok (up, p) ->
  exists acting ap,
    pg_to_up_acting_osds m pg = Ok (mk_up_acting (Some up) (Some p) (Some acting) (Some ap)).
Proof.
  intros Hm Hp Hs E. unfold pg_to_up_acting_osds, _pg_to_up_acting_osds, get_pg_pool. rewrite Hp. cbn [negb andb].
  rewrite (temp_osds_Ok m pl pg shift) by done. res_simpl. rewrite orb_true_r. cbn [orb]. rewrite E. res_simpl.
  destruct (bool_decide (temp_osds m pl pg shift = [])); by eexists _, _.
Qed.

(** Restricting and reordering the second list of a related pair of lists. *)
Lemma Forall2_filter_perm {A B} (R : A -> B -> Prop) (P : B -> Prop) `{!forall x, Decision (P x)} l k k' :
  Forall2 R l k -> NoDup l -> k' ≡ₚ filter P k -> exists l', NoDup l' /\ Forall2 R l' k'.
Proof.
  intros HR Hl Hk.
  assert (Hf : exists l1, sublist l1 l /\ Forall2 R l1 (filter P k)).
  { clear Hl Hk. induction HR as [| a b l k Hab _ (l1 & Hs & IH)]; [by exists []; split; constructor |].
    rewrite filter_cons. case_decide.
    - exists (a :: l1). split; by constructor.
    - exists l1. split; [by constructor | done]. }
  destruct Hf as (l1 & Hs & Hf). symmetry in Hk.
  apply Forall2_flip in Hf. destruct (Permutation_Forall2 Hk Hf) as (l2 & Hperm & H2).
  exists l2. split; [| by apply Forall2_flip]. rewrite <- Hperm. eapply sublist_NoDup; done.
Qed.

(** C24. Failure domains of a replicated pool: for a PG without upmap exceptions
    (no entry in [pg_upmap] and none in [pg_upmap_items], which override CRUSH), a
    well-formed CRUSH map and a take/chooseleaf-firstn/emit rule for a bucket type,
    the OSDs of the up set (distinct, up, the primary first) are devices that CRUSH
    does not consider out, each in a failure domain of the rule's type below the
    rule's root, and no two of them in the same one. *)
Theorem replicated_pg_domains fuel junk w rank L m pl pg root n type :
  osdmap_wf m -> upmaps_distinct m -> pools m !! pg_pool pg = Some pl ->
  pg_upmap m !! raw_pg_to_pg pl pg = None -> pg_upmap_items m !! raw_pg_to_pg pl pg = None ->
  pool_type pl = TYPE_REPLICATED -> 0 <= pool_crush_rule pl ->
  wrapper_ok fuel w rank L (pg_pool pg) (s32 (pool_size pl)) ->
  rule_is (cw_crush w) (pool_crush_rule pl) root CRUSH_RULE_CHOOSELEAF_FIRSTN n type ->
  0 < rule_numrep (s32 (pool_size pl)) n ->
  exists up p acting ap domains,
    pg_to_up_acting_osds (H := wrapper_rule fuel junk w) m pg =
      Ok (mk_up_acting (Some up) (Some p) (Some acting) (Some ap)) /\
    up_ok m true up p /\ NoDup domains /\
    Forall2 (placed (cw_crush w) (osd_weight m) (s32 (raw_pg_to_pps pl pg)) root type) domains up.
Proof.
  intros Hm Hup Hp Hn1 Hn2 Ht Hr Hw Hrule Hnr.
  assert (Hs : can_shift_osds pl = Ok true) by (unfold can_shift_osds; by rewrite Ht).
  pose proof (replicated_laws fuel junk w rank L _ _ Hw _ root n type Hrule Hnr) as Hlaws.
  destruct (compute_up_Ok (H := wrapper_rule fuel junk w) m pl pg true Hm Hup Hs Hr)
    as (out & up & p & Erun & Eup & Hok & Hlen).
  destruct (mapping_reports_up (H := wrapper_rule fuel junk w) m pl pg true up p Hm Hp Hs Eup) as (acting & ap & E).
  destruct (Hlen Hn1) as (_ & _ & Hperm). destruct (Hperm Hn2) as [Hperm' _].
  destruct (do_rule_replicated fuel junk w rank L _ _ Hw _ root n type (s32 (raw_pg_to_pps pl pg)) (osd_weight m) Hrule Hnr)
    as (out' & domains & Erun' & _ & _ & Hdd & Hpl).
  assert (out' = out) as -> by (cbv [run_rule wrapper_rule] in Erun; congruence).
  cbn [usable existing] in Hperm'.
  destruct (Forall2_filter_perm _ (fun o => exists_b m o = true) domains out (filter (fun o => exists_b m o = true) out) Hpl Hdd)
    as (d1 & Hd1 & HF1); [done |].
  destruct (Forall2_filter_perm _ (fun o => up_b m o = true) _ _ up HF1 Hd1 Hperm') as (d2 & Hd2 & HF2).
  by exists up, p, acting, ap, d2.
Qed.

(** C25. Failure domains of an erasure-coded pool: for a PG without upmap
    exceptions (no entry in [pg_upmap] and none in [pg_upmap_items]), a well-formed
    CRUSH map in which no device is below two domains of the rule's type, and a
    take/chooseleaf-indep/emit rule with the count 0, which stands for the size of
    the pool, and a bucket type, the up set has as many positions as the pool's size; every position
    is a hole or an OSD that is up, that CRUSH does not consider out and that lies
    in a failure domain of the rule's type below the rule's root; no two positions
    use the same domain. *)
Theorem erasure_pg_domains fuel junk w rank L m pl pg root type :
  osdmap_wf m -> upmaps_distinct m -> pools m !! pg_pool pg = Some pl ->
  pg_upmap m !! raw_pg_to_pg pl pg = None -> pg_upmap_items m !! raw_pg_to_pg pl pg = None ->
  pool_type pl = TYPE_ERASURE -> 0 <= pool_crush_rule pl ->
  wrapper_ok fuel w rank L (pg_pool pg) (s32 (pool_size pl)) ->
  rule_is (cw_crush w) (pool_crush_rule pl) root CRUSH_RULE_CHOOSELEAF_INDEP 0 type ->
  unique_domains type (cw_crush w) ->
  exists up p acting ap domains,
    pg_to_up_acting_osds (H := wrapper_rule fuel junk w) m pg =
      Ok (mk_up_acting (Some up) (Some p) (Some acting) (Some ap)) /\
    up_ok m false up p /\ zlen up = s32 (pool_size pl) /\
    Forall2 (fun d v => v = CRUSH_ITEM_NONE \/
      placed (cw_crush w) (osd_weight m) (s32 (raw_pg_to_pps pl pg)) root type d v) domains up /\
    (forall i j d, domains !! i = Some d -> domains !! j = Some d -> i <> j -> d = CRUSH_ITEM_NONE).
Proof.
  intros Hm Hup Hp Hn1 Hn2 Ht Hr Hw Hrule Huniq.
  assert (Hs : can_shift_osds pl = Ok false) by (unfold can_shift_osds; by rewrite Ht).
  pose proof (erasure_laws fuel junk w rank L _ _ Hw _ root type Hrule Huniq) as Hlaws.
  destruct (compute_up_Ok (H := wrapper_rule fuel junk w) m pl pg false Hm Hup Hs Hr)
    as (out & up & p & Erun & Eup & Hok & Hlen).
  destruct (mapping_reports_up (H := wrapper_rule fuel junk w) m pl pg false up p Hm Hp Hs Eup) as (acting & ap & E).
  destruct (Hlen Hn1) as (_ & Hsz & Hperm). destruct (Hperm Hn2) as [_ Heq].
  destruct (do_rule_erasure fuel junk w rank L _ _ Hw _ root type (s32 (raw_pg_to_pps pl pg)) (osd_weight m) Hrule)
    as (out' & domains & Erun' & _ & Hpl & Hd).
  assert (out' = out) as -> by (cbv [run_rule wrapper_rule] in Erun; congruence).
  exists up, p, acting, ap, domains. split; [done |]. split; [done |]. split; [by apply Hsz |]. split; [| done].
  rewrite (Heq eq_refl). cbn [usable existing]. rewrite <- list_fmap_compose. apply Forall2_fmap_r.
  eapply Forall2_impl; [exact Hpl |]. intros d v Hdv. cbn. unfold mask.
  destruct (exists_b m v); [| left; by case_match]. destruct (up_b m v); [| by left].
  destruct Hdv as [[_ ->] | ?]; [by left | by right].
Qed.

(** ** A small cluster

    The CRUSH map of CrushMapSpec.v under an OSD map with six OSDs, one of them
    down and one out; pool 5 is replicated, pool 7 erasure-coded. *)

Definition ex_wrapper : CrushWrapper := mk_wrapper ex_map None ∅.

Definition ex_ec_pool : pg_pool_t :=
  mk_pool FLAG_HASHPSPOOL TYPE_ERASURE 3 1 CEPH_STR_HASH_RJENKINS 8 8 8 7 7.

Definition ex_cluster : OSDMap :=
  mk_osdmap 6 [3; 3; 3; 1; 3; 3] [0x10000; 0x10000; 0x10000; 0x10000; 0; 0x10000] None ∅ ∅ ∅ ∅
    {[5 := ex_pool 6; 7 := ex_ec_pool]}.

Lemma ex_cluster_wf : osdmap_wf ex_cluster /\ upmaps_distinct ex_cluster.
Proof. split; [by split |]. intros pg l H. cbn in H. by rewrite lookup_empty in H. Qed.

Lemma ex_wrapper_ok pool : wrapper_ok 312 ex_wrapper ex_rank ex_limits pool 3.
Proof.
  split; [| done | done]. unfold choose_args_get_with_fallback. cbn. rewrite !lookup_empty. by apply ex_env.
Qed.

Lemma ex_rule_is ruleno op :
  (ruleno = 0 /\ op = CRUSH_RULE_CHOOSELEAF_FIRSTN) \/ (ruleno = 1 /\ op = CRUSH_RULE_CHOOSELEAF_INDEP) ->
  rule_is ex_map ruleno ex_root op 0 1.
Proof.
  intros [[-> ->] | [-> ->]]; (split; [done |]; split; [by eexists |]; split; [done |]; split; [done |]);
    apply ex_root_bucket.
Qed.

Lemma ex_below_host b v : is_bucket ex_map b -> b_type b = 1 -> below ex_map b v -> v ∈ b_live b.
Proof.
  intros Hb Ht Hv. destruct Hv as [| b c item Hc Hcb _]; [done |]. exfalso. destruct Hcb as [_ Hneg].
  revert Hc Hneg. generalize (b_id c). intros i Hc Hneg.
  revert b Hb Ht Hc. refine (ex_map_buckets _ _ _ _ _); intros Ht Hc; [done | ..];
    vm_compute in Hc; set_unfold in Hc; destruct_or? Hc; lia.
Qed.

Lemma ex_unique_domains : unique_domains 1 ex_map.
Proof.
  intros b b' v Hb Hb' Ht Ht' Hv Hv'. apply ex_below_host in Hv, Hv'; [| done..].
  revert b' Hb' Ht' Hv'. revert b Hb Ht Hv. refine (ex_map_buckets _ _ _ _ _); intros Ht Hv; [done | ..];
    refine (ex_map_buckets _ _ _ _ _); intros Ht' Hv'; try done; exfalso;
    vm_compute in Hv, Hv'; set_unfold in Hv; set_unfold in Hv'; destruct_or? Hv; destruct_or? Hv'; lia.
Qed.

Lemma replicated_pg_domains_witness :
  exists up p acting ap domains,
    pg_to_up_acting_osds (H := wrapper_rule 312 (fun _ _ => 0) ex_wrapper) ex_cluster (mk_pg 5 77) =
      Ok (mk_up_acting (Some up) (Some p) (Some acting) (Some ap)) /\
    up_ok ex_cluster true up p /\ NoDup domains /\
    Forall2 (placed ex_map (osd_weight ex_cluster) (s32 (raw_pg_to_pps (ex_pool 6) (mk_pg 5 77))) ex_root 1) domains up.
Proof.
  apply (replicated_pg_domains 312 (fun _ _ => 0) ex_wrapper ex_rank ex_limits ex_cluster (ex_pool 6) (mk_pg 5 77)
           ex_root 0 1);
    [apply ex_cluster_wf | apply ex_cluster_wf | done | done | done | done | done | apply ex_wrapper_ok
    | by apply ex_rule_is; left | done].
Defined.

Lemma erasure_pg_domains_witness :
  exists up p acting ap domains,
    pg_to_up_acting_osds (H := wrapper_rule 312 (fun _ _ => 0) ex_wrapper) ex_cluster (mk_pg 7 77) =
      Ok (mk_up_acting (Some up) (Some p) (Some acting) (Some ap)) /\
    up_ok ex_cluster false up p /\ zlen up = 3 /\
    Forall2 (fun d v => v = CRUSH_ITEM_NONE \/
      placed ex_map (osd_weight ex_cluster) (s32 (raw_pg_to_pps ex_ec_pool (mk_pg 7 77))) ex_root 1 d v) domains up /\
    (forall i j d, domains !! i = Some d -> domains !! j = Some d -> i <> j -> d = CRUSH_ITEM_NONE).
Proof.
  apply (erasure_pg_domains 312 (fun _ _ => 0) ex_wrapper ex_rank ex_limits ex_cluster ex_ec_pool (mk_pg 7 77)
           ex_root 1);
    [apply ex_cluster_wf | apply ex_cluster_wf | done | done | done | done | done | apply ex_wrapper_ok
    | by apply ex_rule_is; right | apply ex_unique_domains].
Defined.
