(* ===== verification/IntervalSet.v ===== *)
(** * interval_set<uint64_t>: src/src/include/interval_set.h

    A set of integers kept as a map from the start of each maximal run to its
    length, with the total length cached in [_size].  The map is a list of
    (start, length) pairs in increasing order of the starts; an iterator is a
    position in it, [end()] the position behind the last one.  A failed
    [ceph_assert], a [ceph_abort] and a dereference of [end()] are a [Fault].
    Iterators that only move forward are the rest of the list they still have to
    visit. *)

From S2P Require Import Prelude.

(** ** The map *)

Abbreviation imap := (list (Z * Z)).

Fixpoint map_lower_bound (m : imap) (k : Z) : nat :=
  match m with
  | [] => O
  | (s, _) :: m => if s <? k then S (map_lower_bound m k) else O
  end.

(** [m.insert] and [m.emplace_hint]: an existing entry is kept. *)
Fixpoint map_emplace (m : imap) (k v : Z) : imap :=
  match m with
  | [] => [(k, v)]
  | (s, l) :: m' =>
      if k <? s then (k, v) :: m
      else if k =? s then m
      else (s, l) :: map_emplace m' k v
  end.

Definition deref (m : imap) (p : nat) : res (Z * Z) :=
  match m !! p with Some e => Ok e | None => Fault end.

Definition i_end (e : Z * Z) : Z := u64 (e.1 + e.2).

(** ** The set *)

Record interval_set : Type := mk_iset { is_m : imap; is_size : Z }.

Definition iset_empty : interval_set := mk_iset [] 0.

(** The sum of the lengths, as the decoders and the moving constructor compute it. *)
Definition sum_lens (m : imap) : Z := foldl (fun s e => u64 (s + e.2)) 0 m.

Definition of_map (m : imap) : interval_set := mk_iset m (sum_lens m).

(** The common part of the four find functions; [past e] is the test on the
    preceding interval. *)
Definition find_with (past : Z * Z -> bool) (m : imap) (start : Z) : res nat :=
  let p := map_lower_bound m start in
  if negb (p =? 0)%nat && match m !! p with None => true | Some e => start <? e.1 end then
    e ← deref m (pred p);
    mret (if past e then p else pred p)
  else mret p.

Definition find_inc (m : imap) (start : Z) : res nat :=
  find_with (fun e => i_end e <=? start) m start.

Definition find_adj (m : imap) (start : Z) : res nat :=
  find_with (fun e => i_end e <? start) m start.

(** ** Queries *)

(** [None] is the result [false]; [Some e] is [true] with the interval found. *)
Definition iset_contains (s : interval_set) (i : Z) : res (option (Z * Z)) :=
  p ← find_inc (is_m s) i;
  match is_m s !! p with
  | None => mret None
  | Some e =>
      if i <? e.1 then mret None
      else if i_end e <=? i then mret None
      else mret (Some e)
  end.

Definition contains_range (s : interval_set) (start len : Z) : res bool :=
  p ← find_inc (is_m s) start;
  match is_m s !! p with
  | None => mret false
  | Some e =>
      if start <? e.1 then mret false
      else if i_end e <=? start then mret false
      else if i_end e <? u64 (start + len) then mret false
      else mret true
  end.

Definition range_start (s : interval_set) : res Z :=
  match is_m s with [] => Fault | e :: _ => mret e.1 end.

Definition range_end (s : interval_set) : res Z :=
  match last (is_m s) with None => Fault | Some e => mret (i_end e) end.

Definition starts_after (s : interval_set) (i : Z) : res bool :=
  c ← iset_contains s i;
  match c with
  | Some _ => Fault
  | None =>
      p ← find_inc (is_m s) i;
      mret (negb (p =? length (is_m s))%nat)
  end.

Definition start_after (s : interval_set) (i : Z) : res Z :=
  c ← iset_contains s i;
  match c with
  | Some _ => Fault
  | None =>
      p ← find_inc (is_m s) i;
      e ← deref (is_m s) p;
      mret e.1
  end.

Definition end_after (s : interval_set) (start : Z) : res Z :=
  c ← iset_contains s start;
  match c with
  | None => Fault
  | Some _ =>
      p ← find_inc (is_m s) start;
      e ← deref (is_m s) p;
      mret (i_end e)
  end.

(** ** Insert and erase *)

(** The pair is what is stored through [pstart] and [plen]. *)
Definition iset_insert (s : interval_set) (start len : Z) : res (interval_set * (Z * Z)) :=
  if negb (0 <? len) then Fault
  else
    let m := is_m s in
    let size := u64 (is_size s + len) in
    p ← find_adj m start;
    match m !! p with
    | None => mret (mk_iset (map_set m start len) size, (start, len))
    | Some (pf, ps) =>
        if pf <? start then
          if negb (i_end (pf, ps) =? start) then Fault
          else
            let ps := u64 (ps + len) in
            let m := <[p := (pf, ps)]> m in
            match m !! S p with
            | Some (nf, ns) =>
                if u64 (start + len) =? nf then
                  let ps := u64 (ps + ns) in
                  mret (mk_iset (delete (S p) (<[p := (pf, ps)]> m)) size, (pf, ps))
                else mret (mk_iset m size, (pf, ps))
            | None => mret (mk_iset m size, (pf, ps))
            end
        else if u64 (start + len) =? pf then
          mret (mk_iset (map_set (delete p m) start (u64 (len + ps))) size, (start, u64 (len + ps)))
        else if negb (u64 (start + len) <? pf) then Fault
        else mret (mk_iset (map_set m start len) size, (start, len))
    end.

(** [claim], when given, may take over what is left on either side. *)
Definition iset_erase (s : interval_set) (start len : Z) (claim : option (Z -> Z -> bool)) : res interval_set :=
  let m := is_m s in
  p ← find_inc m start;
  let size := u64 (is_size s - len) in
  match m !! p with
  | None => Fault
  | Some (pf, ps) =>
      if negb (pf <=? start) then Fault
      else
        let before := u64 (start - pf) in
        if negb (u64 (before + len) <=? ps) then Fault
        else
          let after := u64 (ps - before - len) in
          let claims x l := match claim with Some f => f x l | None => false end in
          let '(m, size) :=
            if negb (before =? 0) then
              if claims pf before then (delete p m, u64 (size - before))
              else (<[p := (pf, before)]> m, size)
            else (delete p m, size) in
          let '(m, size) :=
            if negb (after =? 0) then
              if claims (u64 (start + len)) after then (m, u64 (size - after))
              else (map_set m (u64 (start + len)) after, size)
            else (m, size) in
          mret (mk_iset m size)
  end.

Fixpoint subtract_map (s : interval_set) (a : imap) : res interval_set :=
  match a with
  | [] => mret s
  | (start, len) :: a =>
      s ← iset_erase s start len None;
      subtract_map s a
  end.

Definition iset_subtract (s a : interval_set) : res interval_set := subtract_map s (is_m a).

Fixpoint insert_map (s : interval_set) (a : imap) : res interval_set :=
  match a with
  | [] => mret s
  | (start, len) :: a =>
      r ← iset_insert s start len;
      insert_map r.1 a
  end.

Definition insert_set (s a : interval_set) : res interval_set := insert_map s (is_m a).

(** ** Intersection *)

(** The do-while loop over equal intervals: returns the set and what is left of
    both sides. *)
Fixpoint copy_equal (acc : interval_set) (pa pb : imap) : interval_set * imap * imap :=
  match pa, pb with
  | e :: pa', e' :: pb' =>
      if decide (e = e')
      then copy_equal (mk_iset (map_emplace (is_m acc) e.1 e.2) (u64 (is_size acc + e.2))) pa' pb'
      else (acc, pa, pb)
  | _, _ => (acc, pa, pb)
  end.

(** [mi = m.emplace_hint(mi, start, en - start); _size += mi->second]. *)
Definition emplace_range (acc : interval_set) (start en : Z) : interval_set :=
  mk_iset (map_emplace (is_m acc) start (u64 (en - start))) (u64 (is_size acc + u64 (en - start))).

(** The loop of [intersection_of] for sets of similar size. *)
Fixpoint intersect_sym (fuel : nat) (acc : interval_set) (pa pb : imap) : res interval_set :=
  match fuel with
  | O => NoFuel
  | S fuel =>
      match pa, pb with
      | a :: pa', b :: pb' =>
          if i_end a <=? b.1 then intersect_sym fuel acc pa' pb
          else if i_end b <=? a.1 then intersect_sym fuel acc pa pb'
          else if decide (a = b) then
            let '(acc, pa, pb) := copy_equal acc pa pb in intersect_sym fuel acc pa pb
          else
            let start := Z.max a.1 b.1 in
            let en := Z.min (i_end a) (i_end b) in
            if negb (start <? en) then Fault
            else
              let acc := emplace_range acc start en in
              if i_end b <? i_end a then intersect_sym fuel acc pa pb'
              else intersect_sym fuel acc pa' pb
      | _, _ => mret acc
      end
  end.

(** [while (ps != end && ps->first + ps->second <= x) ++ps]. *)
Fixpoint skip_before (ps : imap) (x : Z) : imap :=
  match ps with
  | [] => []
  | s :: ps' => if i_end s <=? x then skip_before ps' x else ps
  end.

(** The loop of [intersection_size_asym]: every round searches the larger set [l]
    from [offset] on. *)
Fixpoint intersect_asym (fuel : nat) (acc : interval_set) (l ps : imap) (offset : Z) : res interval_set :=
  match fuel with
  | O => NoFuel
  | S fuel =>
      pl ← find_inc l offset;
      match l !! pl with
      | None => mret acc
      | Some b =>
          match skip_before ps b.1 with
          | [] => mret acc
          | s :: ps' =>
              let offset := i_end b in
              if offset <=? s.1 then intersect_asym fuel acc l (s :: ps') s.1
              else if decide (s = b) then
                let '(acc, ps, _) := copy_equal acc (s :: ps') (drop pl l) in
                match ps with
                | [] => mret acc
                | s :: _ => intersect_asym fuel acc l ps s.1
                end
              else
                let start := Z.max s.1 b.1 in
                let en := Z.min (i_end s) offset in
                if negb (start <? en) then Fault
                else
                  let acc := emplace_range acc start en in
                  if i_end s <=? offset then
                    match ps' with
                    | [] => mret acc
                    | s :: _ => intersect_asym fuel acc l ps' s.1
                    end
                  else intersect_asym fuel acc l (s :: ps') offset
          end
      end
  end.

Definition intersection_size_asym (s l : interval_set) : res interval_set :=
  match is_m s with
  | [] => Fault
  | e :: _ => intersect_asym (S (length (is_m s) + length (is_m l))) iset_empty (is_m l) (is_m s) e.1
  end.

(** The result of [intersection_of], which starts by clearing [*this]. *)
Definition intersection_of (a b : interval_set) : res interval_set :=
  let '(s, l) := if is_size a <? is_size b then (a, b) else (b, a) in
  if is_size s =? 0 then mret iset_empty
  else if 10 <=? is_size l / is_size s then intersection_size_asym s l
  else intersect_sym (S (length (is_m a) + length (is_m b))) iset_empty (is_m a) (is_m b).

Definition intersects (s : interval_set) (start len : Z) : res bool :=
  a ← iset_insert iset_empty start len;
  i ← intersection_of s a.1;
  mret (negb (bool_decide (is_m i = []))).

(** ** Union *)

Definition union_of (a b : interval_set) : res interval_set :=
  ab ← intersection_of a b;
  s ← iset_subtract a ab;
  insert_set s b.

Definition union_insert (s : interval_set) (off len : Z) : res interval_set :=
  a ← iset_insert iset_empty off len;
  union_of s a.1.

(** ** Subset *)

Fixpoint skip_equal (pa pb : imap) : imap * imap :=
  match pa, pb with
  | a :: pa', b :: pb' => if decide (a = b) then skip_equal pa' pb' else (pa, pb)
  | _, _ => (pa, pb)
  end.

Fixpoint subset_sym (fuel : nat) (pa pb : imap) : res bool :=
  match fuel with
  | O => NoFuel
  | S fuel =>
      match pa, pb with
      | a :: pa', _ :: _ =>
          match skip_before pb a.1 with
          | [] => mret false
          | (b :: _) as pb =>
              if decide (a = b) then
                let '(pa, pb) := skip_equal pa pb in subset_sym fuel pa pb
              else if a.1 <? b.1 then mret false
              else if i_end b <? i_end a then mret false
              else subset_sym fuel pa' pb
          end
      | _, _ => mret (bool_decide (pa = []))
      end
  end.

Fixpoint all_contained (big : interval_set) (m : imap) : res bool :=
  match m with
  | [] => mret true
  | (start, len) :: m =>
      c ← contains_range big start len;
      if negb c then mret false else all_contained big m
  end.

Definition subset_of (s big : interval_set) : res bool :=
  if is_size s =? 0 then mret true
  else if is_size big <? is_size s then mret false
  else
    e ← range_end s;
    be ← range_end big;
    if be <? e then mret false
    else if is_size big / is_size s <? 10 then subset_sym (S (length (is_m s))) (is_m s) (is_m big)
    else all_contained big (is_m s).

(** ** Span *)

Fixpoint span_loop (acc : interval_set) (p : imap) (len : Z) : res interval_set :=
  match p with
  | [] => mret acc
  | (pf, ps) :: p =>
      if 0 <? len then
        if ps <? len then
          r ← iset_insert acc pf ps;
          span_loop r.1 p (u64 (len - ps))
        else
          r ← iset_insert acc pf len;
          mret r.1
      else mret acc
  end.

Definition span_of (other : interval_set) (start len : Z) : res interval_set :=
  let m := is_m other in
  p ← find_inc m start;
  match drop p m with
  | [] => mret iset_empty
  | (pf, ps) :: rest =>
      if pf <? start then
        if i_end (pf, ps) <? start then mret iset_empty
        else if i_end (pf, ps) <? u64 (start + len) then
          let howmuch := u64 (ps - u64 (start - pf)) in
          r ← iset_insert iset_empty start howmuch;
          span_loop r.1 rest (u64 (len - howmuch))
        else
          r ← iset_insert iset_empty start len;
          mret r.1
      else span_loop iset_empty ((pf, ps) :: rest) len
  end.
