(* ===== verification/IntervalSetSpec.v ===== *)
(** * interval_set as a set of integers

    The invariant of the class is that the intervals are in order, not empty, end
    before [2^64] and do not touch.  Under it every operation of IntervalSet.v is
    the operation on sets that its name says ([x ∈ s]), it returns (no assertion
    fails, no loop runs out of fuel) and keeps the invariant; and since a set has
    only one representation, [operator==] is equality of sets. *)

From S2P Require Import Prelude IntervalSet.

(** ** The invariant *)

(** The intervals of [m] are ordered, do not touch, and start at [lo] or later. *)
Fixpoint runs_from (lo : Z) (m : imap) : Prop :=
  match m with
  | [] => True
  | (s, l) :: m => lo <= s /\ 0 < l /\ s + l < 2 ^ 64 /\ runs_from (s + l + 1) m
  end.

Definition covers (m : imap) (x : Z) : Prop := exists s l, (s, l) ∈ m /\ s <= x < s + l.

Fixpoint total (m : imap) : Z :=
  match m with [] => 0 | (_, l) :: m => l + total m end.

Definition iset_ok (s : interval_set) : Prop :=
  runs_from 0 (is_m s) /\ is_size s = total (is_m s).

#[export] Instance iset_elem_of : ElemOf Z interval_set := fun x s => covers (is_m s) x.

Lemma covers_nil x : ~ covers [] x.
Proof. intros (s & l & H & _). by apply elem_of_nil in H. Qed.

Lemma covers_cons e m x : covers (e :: m) x <-> e.1 <= x < e.1 + e.2 \/ covers m x.
Proof.
  unfold covers. split.
  - intros (s & l & [<- | H]%elem_of_cons & Hx); [by left | right; eauto].
  - intros [Hx | (s & l & H & Hx)].
    + exists e.1, e.2. destruct e. split; [left | done].
    + exists s, l. split; [by right | done].
Qed.

Lemma covers_app a b x : covers (a ++ b) x <-> covers a x \/ covers b x.
Proof.
  induction a as [| e a IH]; cbn.
  - split; [by right |]. intros [H | H]; [by apply covers_nil in H | done].
  - rewrite !covers_cons, IH. tauto.
Qed.

#[export] Instance covers_dec m x : Decision (covers m x).
Proof.
  induction m as [| e m IH]; [right; apply covers_nil |].
  destruct (decide (e.1 <= x < e.1 + e.2)) as [H | H]; [left; apply covers_cons; by left |].
  destruct IH as [IH | IH]; [left; apply covers_cons; by right |]. right. rewrite covers_cons. tauto.
Defined.

(** Where the next interval behind [m] may start. *)
Fixpoint next (lo : Z) (m : imap) : Z :=
  match m with [] => lo | (s, l) :: m => next (s + l + 1) m end.

Lemma runs_from_app lo a b : runs_from lo (a ++ b) <-> runs_from lo a /\ runs_from (next lo a) b.
Proof. revert lo. induction a as [| [s l] a IH]; intros lo; cbn; [tauto |]. rewrite IH. tauto. Qed.

Lemma runs_from_weaken lo lo' m : lo' <= lo -> runs_from lo m -> runs_from lo' m.
Proof. destruct m as [| [s l] m]; cbn; [done |]. intuition lia. Qed.

Lemma next_ge lo m : runs_from lo m -> lo <= next lo m.
Proof.
  revert lo. induction m as [| [s l] m IH]; intros lo; cbn; [lia |].
  intros (? & ? & ? & Hr). specialize (IH _ Hr). lia.
Qed.

Lemma runs_from_covers lo m x : runs_from lo m -> covers m x -> lo <= x < 2 ^ 64 - 1.
Proof.
  revert lo. induction m as [| [s l] m IH]; intros lo; [by intros _ ?%covers_nil |].
  intros (? & ? & ? & Hr) [Hx | Hx]%covers_cons; cbn in *; [lia |]. specialize (IH _ Hr Hx). lia.
Qed.

(** Elements of the list lie between the bounds on both sides of them. *)
Lemma runs_from_elem lo m s l : runs_from lo m -> (s, l) ∈ m ->
  lo <= s /\ 0 < l /\ s + l < 2 ^ 64 /\ s + l + 1 <= next lo m.
Proof.
  revert lo. induction m as [| [s' l'] m IH]; intros lo; [by intros _ ?%elem_of_nil |].
  intros (? & ? & ? & Hr) [[= -> ->] | Hin]%elem_of_cons; cbn.
  - pose proof (next_ge _ _ Hr). lia.
  - destruct (IH _ Hr Hin) as (? & ? & ? & ?). lia.
Qed.

Lemma total_bounds lo m : 0 <= lo -> runs_from lo m -> 0 <= total m < 2 ^ 64.
Proof.
  intros Hlo Hr. assert (0 <= total m /\ (total m = 0 \/ total m + lo < 2 ^ 64)) by
    (revert lo Hlo Hr; induction m as [| [s l] m IH]; intros lo; cbn; [lia |];
     intros H1 (? & ? & ? & Hr); specialize (IH (s + l + 1) ltac:(lia) Hr); lia).
  lia.
Qed.

Lemma total_app a b : total (a ++ b) = total a + total b.
Proof. induction a as [| [s l] a IH]; cbn; lia. Qed.

Lemma total_zero lo m : runs_from lo m -> total m = 0 -> m = [].
Proof.
  destruct m as [| [s l] m]; [done |]. cbn. intros (? & ? & ? & Hr).
  assert (0 <= total m); [| lia]. clear -Hr. revert Hr. generalize (s + l + 1).
  induction m as [| [s' l'] m IH]; intros lo; cbn; [lia |]. intros (? & ? & ? & Hr). specialize (IH _ Hr). lia.
Qed.

(** Intervals do not touch: the end of one is not covered. *)
Lemma run_end_not_covered lo m s l : runs_from lo m -> (s, l) ∈ m -> ~ covers m (s + l).
Proof.
  revert lo. induction m as [| [s' l'] m IH]; intros lo; [by intros _ ?%elem_of_nil |].
  intros (? & ? & ? & Hr) [[= -> ->] | Hin]%elem_of_cons [Hx | Hx]%covers_cons; cbn in *.
  - lia.
  - apply (runs_from_covers _ _ _ Hr) in Hx. lia.
  - destruct (runs_from_elem _ _ _ _ Hr Hin). lia.
  - by eapply IH.
Qed.

(** A covered range lies inside one interval. *)
Lemma covered_range lo m start len : runs_from lo m -> 0 < len ->
  (forall x, start <= x < start + len -> covers m x) ->
  exists s l, (s, l) ∈ m /\ s <= start /\ start + len <= s + l.
Proof.
  intros Hr Hlen Hc. destruct (Hc start) as (s & l & Hin & Hx); [lia |]. exists s, l. split; [done |].
  split; [lia |]. destruct (Z.le_gt_cases (start + len) (s + l)) as [| Hgt]; [done |].
  destruct (run_end_not_covered lo m s l Hr Hin). apply Hc. lia.
Qed.

(** ** One representation per set *)

Lemma covers_head lo s l m x : runs_from lo ((s, l) :: m) -> covers ((s, l) :: m) x -> s <= x.
Proof.
  intros (? & ? & ? & Hr) [Hx | Hx]%covers_cons; cbn in *; [lia |].
  apply (runs_from_covers _ _ _ Hr) in Hx. lia.
Qed.

Lemma runs_from_inj lo lo' a b : runs_from lo a -> runs_from lo' b ->
  (forall x, covers a x <-> covers b x) -> a = b.
Proof.
  revert lo lo' b. induction a as [| [s l] a IH]; intros lo lo' [| [s' l'] b] Ha Hb Hab.
  - done.
  - destruct Hb as (? & ? & _). destruct (covers_nil s'). apply Hab, covers_cons. left. cbn. lia.
  - destruct Ha as (? & ? & _). destruct (covers_nil s). apply Hab, covers_cons. left. cbn. lia.
  - pose proof Ha as (? & ? & ? & Hra). pose proof Hb as (? & ? & ? & Hrb).
    assert (s = s') as <-.
    { assert (s' <= s) by (eapply covers_head; [exact Hb |]; apply Hab, covers_cons; left; cbn; lia).
      assert (s <= s') by (eapply covers_head; [exact Ha |]; apply Hab, covers_cons; left; cbn; lia). lia. }
    assert (l = l') as <-.
    { pose proof (run_end_not_covered lo _ s l Ha ltac:(left)) as Hea.
      pose proof (run_end_not_covered lo' _ s l' Hb ltac:(left)) as Heb.
      destruct (Z.lt_trichotomy l l') as [Hl | [| Hl]]; [| done |].
      - destruct Hea. apply Hab, covers_cons. left. cbn. lia.
      - destruct Heb. apply Hab, covers_cons. left. cbn. lia. }
    f_equal. eapply IH; [exact Hra | exact Hrb |]. intros x. specialize (Hab x). rewrite !covers_cons in Hab.
    cbn in Hab. split; intros Hx; pose proof Hx as Hx'.
    + apply (runs_from_covers _ _ _ Hra) in Hx'. destruct Hab as [[] _]; [by right | lia | done].
    + apply (runs_from_covers _ _ _ Hrb) in Hx'. destruct Hab as [_ []]; [by right | lia | done].
Qed.

(** ** Searching *)

Definition run_end (e : Z * Z) : Z := e.1 + e.2.

Lemma i_end_run lo m e : 0 <= lo -> runs_from lo m -> e ∈ m -> i_end e = run_end e.
Proof.
  intros Hlo Hr Hin. destruct e as [s l]. destruct (runs_from_elem _ _ _ _ Hr Hin) as (? & ? & ? & _).
  unfold i_end, run_end. cbn. apply u64_id. lia.
Qed.

Lemma lower_bound_split lo m x : runs_from lo m ->
  exists a b, m = a ++ b /\ map_lower_bound m x = length a /\
    Forall (fun e => e.1 < x) a /\ Forall (fun e => x <= e.1) b.
Proof.
  revert lo. induction m as [| [s l] m IH]; intros lo Hr; [by exists [], [] |].
  cbn [map_lower_bound]. destruct Hr as (? & ? & ? & Hr). destruct (Z.ltb_spec s x).
  - destruct (IH _ Hr) as (a & b & -> & -> & Ha & Hb). exists ((s, l) :: a), b.
    split; [done |]. split; [done |]. split; [by constructor | done].
  - exists [], ((s, l) :: m). split; [done |]. split; [done |]. split; [done |]. constructor; [done |].
    apply Forall_forall. intros [s' l'] Hin. destruct (runs_from_elem _ _ _ _ Hr Hin). cbn. lia.
Qed.

(** The found position separates the intervals that the test lets pass ([past]:
    they end before [x], strictly or not) from those that reach [x] or more. *)
Definition past (strict : bool) (x : Z) (e : Z * Z) : Prop :=
  if strict then run_end e < x else run_end e <= x.

Lemma runs_behind lo a e b x : runs_from lo (a ++ e :: b) -> e.1 <= x -> Forall (fun e => run_end e < x) a.
Proof.
  intros [Ha He]%runs_from_app Hx. destruct e as [s l]. destruct He as [Hs _]. cbn in Hx.
  apply Forall_forall. intros [s' l'] Hin. destruct (runs_from_elem _ _ _ _ Ha Hin) as (_ & _ & _ & ?).
  unfold run_end. cbn. lia.
Qed.

Lemma past_behind (strict : bool) x a : Forall (fun e => run_end e < x) a -> Forall (past strict x) a.
Proof. intros H. eapply Forall_impl; [exact H |]. intros e He. cbn beta in He. unfold past. destruct strict; lia. Qed.

Lemma find_with_split (strict : bool) lo m x : 0 <= lo -> runs_from lo m ->
  exists a b, m = a ++ b /\
    find_with (fun e => if strict then i_end e <? x else i_end e <=? x) m x = Ok (length a) /\
    Forall (past strict x) a /\ Forall (fun e => ~ past strict x e) b.
Proof.
  intros Hlo Hr. destruct (lower_bound_split lo m x Hr) as (a & b & -> & Hlb & Ha & Hb).
  assert (Hpb : Forall (fun e => ~ past strict x e) b).
  { apply Forall_forall. intros [s l] Hin. rewrite Forall_forall in Hb. specialize (Hb _ Hin). cbn in Hb.
    destruct (runs_from_elem lo (a ++ b) s l Hr) as (_ & ? & _); [set_solver |].
    unfold past, run_end. destruct strict; cbn; lia. }
  unfold find_with. rewrite Hlb. destruct a as [| e a _] using rev_ind; [by exists [], b |].
  destruct (Nat.eqb_spec (length (a ++ [e])) 0) as [H0 | _]; [rewrite length_app in H0; cbn in H0; lia |].
  rewrite <- app_assoc in Hr |- *. cbn [app negb andb] in *. apply Forall_app in Ha as [Ha He].
  rewrite Forall_singleton in He. pose proof (runs_behind lo a e b x Hr ltac:(lia)) as Hbehind.
  assert (Hlk : (a ++ e :: b) !! length (a ++ [e]) = b !! 0%nat).
  { rewrite length_app, lookup_app_r by (cbn; lia). cbn [length].
    by replace (length a + 1 - length a)%nat with 1%nat by lia. }
  assert (Hpred : pred (length (a ++ [e])) = length a) by (rewrite length_app; cbn; lia).
  rewrite Hlk, Hpred.
  destruct (match b !! 0%nat with Some e' => x <? e'.1 | None => true end) eqn:Et.
  - unfold deref. rewrite list_lookup_middle by done. res_simpl.
    rewrite (i_end_run lo _ e Hlo Hr) by set_solver.
    destruct (if strict then run_end e <? x else run_end e <=? x) eqn:Ep.
    + exists (a ++ [e]), b. rewrite <- app_assoc. split; [done |]. split; [done |]. split; [| done].
      apply Forall_app. split; [by apply past_behind |]. constructor; [| done].
      unfold past. destruct strict; lia.
    + exists a, (e :: b). split; [done |]. split; [done |]. split; [by apply past_behind |].
      constructor; [| done]. unfold past. destruct strict; lia.
  - exists (a ++ [e]), b. rewrite <- app_assoc. split; [done |]. split; [done |]. split; [| done].
    apply past_behind. destruct b as [| e' b]; [done |]. cbn in Et.
    rewrite (cons_middle e a (e' :: b)), app_assoc in Hr. eapply runs_behind; [exact Hr | lia].
Qed.

Lemma find_inc_split lo m x : 0 <= lo -> runs_from lo m -> exists a b, m = a ++ b /\
  find_inc m x = Ok (length a) /\ Forall (fun e => run_end e <= x) a /\ Forall (fun e => x < run_end e) b.
Proof.
  intros Hlo Hr. destruct (find_with_split false lo m x Hlo Hr) as (a & b & Hm & Hf & Ha & Hb).
  exists a, b. split; [done |]. split; [done |]. split; [done |].
  eapply Forall_impl; [exact Hb |]. intros e He. unfold past in He. lia.
Qed.

Lemma find_adj_split lo m x : 0 <= lo -> runs_from lo m -> exists a b, m = a ++ b /\
  find_adj m x = Ok (length a) /\ Forall (fun e => run_end e < x) a /\ Forall (fun e => x <= run_end e) b.
Proof.
  intros Hlo Hr. destruct (find_with_split true lo m x Hlo Hr) as (a & b & Hm & Hf & Ha & Hb).
  exists a, b. split; [done |]. split; [done |]. split; [done |].
  eapply Forall_impl; [exact Hb |]. intros e He. unfold past in He. lia.
Qed.

(** ** Updating the map *)

Lemma map_emplace_end a k v : Forall (fun e => e.1 < k) a -> map_emplace a k v = a ++ [(k, v)].
Proof.
  intros Ha. induction Ha as [| [s l] a Hs _ IH]; cbn [app map_emplace]; [done |].
  cbn in Hs. destruct (Z.ltb_spec k s); [lia |]. destruct (Z.eqb_spec k s); [lia |]. by rewrite IH.
Qed.

(** In a valid map, the intervals on each side of a position. *)
Lemma runs_left lo a k : runs_from lo a -> next lo a <= k -> Forall (fun e => e.1 < k) a.
Proof.
  intros Hr Hk. apply Forall_forall. intros [s l] Hin. destruct (runs_from_elem _ _ _ _ Hr Hin) as (? & ? & ? & ?).
  cbn. lia.
Qed.

Lemma runs_right lo b k : runs_from lo b -> k < lo -> Forall (fun e => k < e.1) b.
Proof.
  intros Hr Hk. apply Forall_forall. intros [s l] Hin. destruct (runs_from_elem _ _ _ _ Hr Hin) as (? & ? & ? & ?).
  cbn. lia.
Qed.

(** Intervals that end strictly before [k] leave room for one that starts at [k]. *)
Lemma next_le lo a k : Forall (fun e => run_end e < k) a -> lo <= k -> next lo a <= k.
Proof.
  revert lo. induction a as [| [s l] a IH]; intros lo Ha Hlo; cbn; [done |].
  rewrite Forall_cons in Ha. destruct Ha as [H1 Ha]. unfold run_end in H1. cbn in H1. apply IH; [done | lia].
Qed.

(** An interval between two valid parts. *)
Lemma runs_from_mid lo a k v b : runs_from lo a -> next lo a <= k -> 0 < v -> k + v < 2 ^ 64 ->
  runs_from (k + v + 1) b -> runs_from lo (a ++ (k, v) :: b).
Proof. intros. apply runs_from_app. cbn. auto. Qed.

(** ** Insert *)

Definition insert_post (m : imap) (start len : Z) (r : res (interval_set * (Z * Z))) : Prop :=
  exists s' e, r = Ok (s', e) /\ iset_ok s' /\
    (forall x, x ∈ s' <-> covers m x \/ start <= x < start + len) /\
    e ∈ is_m s' /\ e.1 <= start /\ start + len <= run_end e /\ is_size s' = total m + len.

Lemma insert_post_mid m a k v b start len size :
  runs_from 0 (a ++ (k, v) :: b) -> size = total m -> total (a ++ (k, v) :: b) = total m + len ->
  (forall x, covers (a ++ (k, v) :: b) x <-> covers m x \/ start <= x < start + len) ->
  k <= start -> start + len <= k + v ->
  insert_post m start len (Ok (mk_iset (a ++ (k, v) :: b) (u64 (size + len)), (k, v))).
Proof.
  intros Hr -> Ht Hc H1 H2. eexists _, _. split; [done |].
  pose proof (total_bounds 0 _ ltac:(lia) Hr). assert (u64 (total m + len) = total m + len) as -> by (apply u64_id; lia).
  split; [split; [done |]; cbn [is_size is_m]; lia |].
  split; [done |]. split; [set_solver |]. done.
Qed.

Lemma insert_spec s start len :
  iset_ok s -> 0 <= start -> 0 < len -> start + len < 2 ^ 64 ->
  (forall x, start <= x < start + len -> x ∉ s) ->
  insert_post (is_m s) start len (iset_insert s start len).
Proof.
  destruct s as [m size]. intros [Hr Hs] H0 Hlen Hend Hdis. unfold elem_of, iset_elem_of in Hdis. cbn [is_m is_size] in *.
  unfold iset_insert. destruct (Z.ltb_spec 0 len); [| lia]. cbn [negb is_m is_size].
  destruct (find_adj_split 0 m start) as (a & b & -> & Hf & Ha & Hb); [lia | done |]. rewrite Hf. res_simpl.
  pose proof Hr as [Hra Hrb]%runs_from_app. pose proof (next_le 0 a start Ha ltac:(lia)) as Hna.
  pose proof (runs_left 0 a start Hra Hna) as Hla. pose proof (next_ge 0 a Hra) as Hge.
  rewrite lookup_app_r, Nat.sub_diag by done. destruct b as [| [pf ps] b]; cbn [lookup list_lookup].
  - rewrite map_set_split by done. apply insert_post_mid; try done; try lia.
    + by apply runs_from_mid.
    + rewrite !total_app. cbn. lia.
    + intros x. rewrite !covers_app, covers_cons. cbn. pose proof (covers_nil x). tauto.
  - rewrite Forall_cons in Hb. destruct Hb as [Hp Hb]. unfold run_end in Hp. cbn in Hp, Hrb.
    destruct Hrb as (Hrb1 & Hrb2 & Hrb3 & Hrb).
    assert (Hpc : forall x, pf <= x < pf + ps -> ~ (start <= x < start + len)).
    { intros x Hx Hx'. apply (Hdis x Hx'). apply covers_app. right. apply covers_cons. by left. }
    assert (Hbc : forall x, covers b x -> ~ (start <= x < start + len)).
    { intros x Hx Hx'. apply (Hdis x Hx'). apply covers_app. right. apply covers_cons. by right. }
    destruct (Z.ltb_spec pf start).
    + assert (pf + ps = start) as Hadj by (specialize (Hpc start); lia).
      unfold i_end. cbn [fst snd]. rewrite (u64_id (pf + ps)) by lia.
      destruct (Z.eqb_spec (pf + ps) start); [| lia]. cbn [negb].
      rewrite insert_middle, lookup_app_r by lia. replace (S (length a) - length a)%nat with 1%nat by lia.
      destruct b as [| [nf ns] b]; cbn [lookup list_lookup].
      * rewrite (u64_id (ps + len)) by lia. apply insert_post_mid; try done; try lia.
        -- apply runs_from_mid; (done || lia).
        -- rewrite !total_app. cbn. lia.
        -- intros x. rewrite !covers_app, !covers_cons. cbn. pose proof (covers_nil x). intuition lia.
      * destruct Hrb as (Hn1 & Hn2 & Hn3 & Hrb).
        assert (start + len <= nf).
        { specialize (Hbc nf). rewrite covers_cons in Hbc. cbn in Hbc. lia. }
        rewrite (u64_id (start + len)), (u64_id (ps + len)) by lia. destruct (Z.eqb_spec (start + len) nf).
        -- rewrite insert_middle, delete_second, (u64_id (ps + len + ns)) by lia.
           apply insert_post_mid; try done; try lia.
           ++ apply runs_from_mid; try (done || lia). eapply runs_from_weaken; [| exact Hrb]. lia.
           ++ rewrite !total_app. cbn. lia.
           ++ intros x. rewrite !covers_app, !covers_cons. cbn. intuition lia.
        -- apply insert_post_mid; try done; try lia.
           ++ apply runs_from_mid; try (done || lia). cbn. repeat split; (done || lia).
           ++ rewrite !total_app. cbn. lia.
           ++ intros x. rewrite !covers_app, !covers_cons. cbn. intuition lia.
    + assert (start + len <= pf) by (specialize (Hpc pf); lia).
      rewrite (u64_id (start + len)) by lia. destruct (Z.eqb_spec (start + len) pf) as [Hadj |].
      * rewrite delete_middle, (u64_id (len + ps)) by lia.
        rewrite map_set_split by (done || (eapply runs_right; [exact Hrb | lia])).
        apply insert_post_mid; try done; try lia.
        -- apply runs_from_mid; try (done || lia). eapply runs_from_weaken; [| exact Hrb]. lia.
        -- rewrite !total_app. cbn. lia.
        -- intros x. rewrite !covers_app, !covers_cons. cbn. intuition lia.
      * destruct (Z.ltb_spec (start + len) pf); [| lia]. cbn [negb].
        assert (Hr2 : runs_from (start + len + 1) ((pf, ps) :: b)) by (cbn; repeat split; (done || lia)).
        rewrite map_set_split by (done || (eapply runs_right; [exact Hr2 | lia])).
        apply insert_post_mid; try done; try lia.
        -- by apply runs_from_mid.
        -- rewrite !total_app. cbn. lia.
        -- intros x. rewrite !covers_app, !covers_cons. cbn. intuition lia.
Qed.

(** ** Erase *)

Lemma total_nonneg lo m : runs_from lo m -> 0 <= total m.
Proof.
  revert lo. induction m as [| [s l] m IH]; intros lo; cbn; [lia |]. intros (? & ? & ? & Hr). specialize (IH _ Hr). lia.
Qed.

(** The interval that contains a covered range is the one [find_inc] finds. *)
Lemma find_inc_covered m start len : runs_from 0 m -> 0 < len ->
  (forall x, start <= x < start + len -> covers m x) ->
  exists a pf ps b, m = a ++ (pf, ps) :: b /\ find_inc m start = Ok (length a) /\
    pf <= start /\ start + len <= pf + ps.
Proof.
  intros Hr Hlen Hc. destruct (covered_range 0 m start len Hr Hlen Hc) as (pf & ps & Hin & H1 & H2).
  destruct (find_inc_split 0 m start) as (a & b & -> & Hf & Ha & Hb); [lia | done |].
  apply elem_of_app in Hin as [Hin | Hin].
  { rewrite Forall_forall in Ha. specialize (Ha _ Hin). unfold run_end in Ha. cbn in Ha. lia. }
  destruct b as [| [f l] b]; [by apply elem_of_nil in Hin |].
  apply elem_of_cons in Hin as [[= -> ->] | Hin]; [by exists a, f, l, b |].
  apply runs_from_app in Hr as [_ (? & ? & ? & Hr)]. destruct (runs_from_elem _ _ _ _ Hr Hin) as (? & _).
  rewrite Forall_cons in Hb. destruct Hb as [Hb _]. unfold run_end in Hb. cbn in Hb. lia.
Qed.

Definition claims (claim : option (Z -> Z -> bool)) (x l : Z) : bool :=
  match claim with Some f => f x l | None => false end.

Definition if_kept (b : bool) (e : Z * Z) : imap := if b then [e] else [].

Lemma erase_eq a pf ps b size start len claim :
  runs_from 0 (a ++ (pf, ps) :: b) -> size = total (a ++ (pf, ps) :: b) -> 0 < len -> pf <= start -> start + len <= pf + ps ->
  find_inc (a ++ (pf, ps) :: b) start = Ok (length a) ->
  let before := start - pf in
  let after := pf + ps - (start + len) in
  let kl := negb (before =? 0) && negb (claims claim pf before) in
  let kr := negb (after =? 0) && negb (claims claim (start + len) after) in
  let m' := a ++ if_kept kl (pf, before) ++ if_kept kr (start + len, after) ++ b in
  iset_erase (mk_iset (a ++ (pf, ps) :: b) size) start len claim = Ok (mk_iset m' (total m')) /\ runs_from 0 m'.
Proof.
  intros Hr Hs Hlen H1 H2 Hf before after kl kr m'. subst size.
  pose proof (total_bounds 0 _ ltac:(lia) Hr) as Ht. pose proof Hr as [Hra (Hp1 & Hp2 & Hp3 & Hrb)]%runs_from_app.
  pose proof (next_ge 0 a Hra) as Hge. pose proof (total_nonneg _ _ Hra). pose proof (total_nonneg _ _ Hrb).
  rewrite total_app in Ht. cbn in Ht.
  assert (Hrun : runs_from 0 m').
  { unfold m'. apply runs_from_app. split; [done |].
    assert (Hright : runs_from (start + 1) (if_kept kr (start + len, after) ++ b)).
    { unfold if_kept. destruct kr eqn:Ek; cbn [app].
      - unfold kr in Ek. bool_hyps. cbn. repeat split; try lia. eapply runs_from_weaken; [| exact Hrb]. unfold after. lia.
      - eapply runs_from_weaken; [| exact Hrb]. lia. }
    unfold if_kept at 1. destruct kl eqn:Ek; cbn [app].
    - unfold kl in Ek. bool_hyps. cbn. unfold before in *. repeat split; try lia.
      replace (pf + (start - pf) + 1) with (start + 1) by lia. done.
    - eapply runs_from_weaken; [| exact Hright]. lia. }
  split; [| done]. unfold iset_erase. cbn [is_m is_size]. rewrite Hf. res_simpl.
  rewrite list_lookup_middle by done. destruct (Z.leb_spec pf start); [| lia]. cbn [negb].
  rewrite (u64_id (start - pf)), (u64_id (start - pf + len)), (u64_id (start + len)) by lia.
  destruct (Z.leb_spec (start - pf + len) ps); [| lia]. cbn [negb].
  replace (ps - (start - pf) - len) with after by (unfold after; lia). rewrite (u64_id after) by (unfold after; lia).
  rewrite delete_middle, insert_middle, total_app. cbn [total].
  fold (claims claim pf (start - pf)) (claims claim (start + len) after). fold before.
  rewrite (u64_id (total a + (ps + total b) - len)) by lia.
  assert (Hset : forall left, next 0 left <= start + 1 -> runs_from 0 left ->
    map_set (left ++ b) (start + len) after = left ++ (start + len, after) :: b).
  { intros left Hn Hl. apply map_set_split; [apply (runs_left 0); [done | lia] |].
    eapply runs_right; [exact Hrb | lia]. }
  assert (Hleft : before <> 0 -> next 0 (a ++ [(pf, before)]) <= start + 1 /\ runs_from 0 (a ++ [(pf, before)])).
  { intros Hb. rewrite runs_from_app. unfold before in *. split; [| cbn; repeat split; (done || lia)].
    assert (Hnext : forall lo, next lo (a ++ [(pf, start - pf)]) = start + 1).
    { clear. induction a as [| [s l] a IH]; intros lo; cbn; [lia | apply IH]. }
    rewrite Hnext. lia. }
  unfold m', kl, kr. clear m' kl kr Hrun.
  destruct (Z.eqb_spec before 0) as [Eb | Eb], (Z.eqb_spec after 0) as [Ea | Ea]; cbn [negb andb];
    destruct (claims claim pf before) eqn:Ecb; destruct (claims claim (start + len) after) eqn:Eca; cbn [negb if_kept app];
    rewrite ?Hset by (lia || done || (by apply Hleft)); rewrite ?(u64_id (_ - before)), ?(u64_id (_ - after)) by (unfold before, after in *; lia);
    do 2 f_equal; rewrite ?total_app; cbn [total]; try (unfold before, after in *; lia).
  rewrite (cons_middle (pf, before) a b), app_assoc, Hset, <- app_assoc by (by apply Hleft). done.
Qed.

(** What [erase] leaves: everything outside the range, except the remainders of
    the interval that [claim] takes. *)
Lemma erase_spec s start len claim :
  iset_ok s -> 0 < len -> (forall x, start <= x < start + len -> x ∈ s) ->
  exists s' pf ps, iset_erase s start len claim = Ok s' /\ iset_ok s' /\
    (pf, ps) ∈ is_m s /\ pf <= start /\ start + len <= pf + ps /\
    forall x, x ∈ s' <-> x ∈ s /\ ~ (start <= x < start + len) /\
      ~ (claims claim pf (start - pf) = true /\ pf <= x < start) /\
      ~ (claims claim (start + len) (pf + ps - (start + len)) = true /\ start + len <= x < pf + ps).
Proof.
  destruct s as [m size]. intros [Hr Hs] Hlen Hc. cbn [is_m is_size] in *.
  destruct (find_inc_covered m start len Hr Hlen Hc) as (a & pf & ps & b & -> & Hf & H1 & H2).
  destruct (erase_eq a pf ps b size start len claim) as [E Hr']; [done.. |].
  set (before := start - pf) in *. set (after := pf + ps - (start + len)) in *.
  eexists _, pf, ps. split; [exact E |]. split; [done |]. split; [set_solver |]. split; [done |]. split; [done |].
  intros x. unfold elem_of, iset_elem_of. cbn [is_m].
  pose proof Hr as [Hra (Hp1 & Hp2 & Hp3 & Hrb)]%runs_from_app.
  rewrite !covers_app, covers_cons. cbn [fst snd].
  assert (Hka : covers a x -> x < pf).
  { intros (s & l & Hin & Hx). destruct (runs_from_elem _ _ _ _ Hra Hin) as (_ & _ & _ & ?). lia. }
  assert (Hkb : covers b x -> pf + ps < x) by (intros Hx; apply (runs_from_covers _ _ _ Hrb) in Hx; lia).
  assert (Hkept : forall keep k v, covers (if_kept keep (k, v)) x <-> keep = true /\ k <= x < k + v).
  { intros [] k v; cbn [if_kept]; [rewrite covers_cons; cbn; pose proof (covers_nil x); tauto |].
    pose proof (covers_nil x). intuition congruence. }
  rewrite !Hkept. unfold before, after.
  destruct (Z.eqb_spec (start - pf) 0), (Z.eqb_spec (pf + ps - (start + len)) 0),
    (claims claim pf (start - pf)), (claims claim (start + len) (pf + ps - (start + len))); cbn [negb andb];
    intuition (lia || congruence).
Qed.

Lemma subtract_spec s a lo : iset_ok s -> runs_from lo a -> (forall x, covers a x -> x ∈ s) ->
  exists s', subtract_map s a = Ok s' /\ iset_ok s' /\ forall x, x ∈ s' <-> x ∈ s /\ ~ covers a x.
Proof.
  revert s lo. induction a as [| [st len] a IH]; intros s lo Hs Hr Hin.
  { exists s. split; [done |]. split; [done |]. intros x. pose proof (covers_nil x). tauto. }
  destruct Hr as (? & Hlen & ? & Hr). cbn [subtract_map].
  destruct (erase_spec s st len None) as (s1 & pf & ps & -> & Hs1 & _ & _ & _ & Hx); [done | done | |].
  { intros x Hx. apply Hin, covers_cons. by left. }
  res_simpl. cbn [claims] in Hx. destruct (IH s1 (st + len + 1)) as (s2 & -> & Hs2 & Hx2); [done | done | |].
  - intros x Hc. apply Hx. pose proof (runs_from_covers _ _ _ Hr Hc).
    split; [apply Hin, covers_cons; by right |]. intuition (lia || congruence).
  - exists s2. split; [done |]. split; [done |]. intros x. rewrite Hx2, Hx, covers_cons. cbn.
    intuition (lia || congruence).
Qed.

Lemma insert_map_spec s a lo : iset_ok s -> 0 <= lo -> runs_from lo a -> (forall x, covers a x -> x ∉ s) ->
  exists s', insert_map s a = Ok s' /\ iset_ok s' /\ forall x, x ∈ s' <-> x ∈ s \/ covers a x.
Proof.
  revert s lo. induction a as [| [st len] a IH]; intros s lo Hs Hlo Hr Hin.
  { exists s. split; [done |]. split; [done |]. intros x. pose proof (covers_nil x). tauto. }
  destruct Hr as (? & Hlen & ? & Hr). cbn [insert_map].
  destruct (insert_spec s st len) as (s1 & e & -> & Hs1 & Hx & _); [done | lia | done | done | |].
  { intros x Hx. apply Hin, covers_cons. by left. }
  res_simpl. cbn [fst]. destruct (IH s1 (st + len + 1)) as (s2 & -> & Hs2 & Hx2); [done | lia | done | |].
  - intros x Hc [Hx' | Hx']%Hx.
    + apply (Hin x); [apply covers_cons; by right | done].
    + pose proof (runs_from_covers _ _ _ Hr Hc). lia.
  - exists s2. split; [done |]. split; [done |]. intros x. rewrite Hx2, Hx, covers_cons. cbn. unfold elem_of, iset_elem_of. tauto.
Qed.

(** ** Intersection *)

Section intersection.
Context (R : Z -> Prop).

(** The state of both intersection loops: what was collected, all of it before
    [lo], and what is left of the two sides make up the result [R]; what they still
    have in common does not touch what was collected. *)
Definition inter_inv (acc : interval_set) (pa pb : imap) : Prop :=
  exists la lb lo, 0 <= la /\ 0 <= lb /\ runs_from la pa /\ runs_from lb pb /\
    iset_ok acc /\ next 0 (is_m acc) <= lo /\
    (forall x, covers pa x -> covers pb x -> lo <= x) /\
    (forall x, R x <-> x ∈ acc \/ (covers pa x /\ covers pb x)).

Lemma inter_inv_sym acc pa pb : inter_inv acc pa pb -> inter_inv acc pb pa.
Proof.
  intros (la & lb & lo & ? & ? & ? & ? & ? & ? & Hlo & HR). exists lb, la, lo.
  split; [done |]. split; [done |]. split; [done |]. split; [done |]. split; [done |]. split; [done |].
  split; [auto |]. intros x. rewrite HR. tauto.
Qed.

(** An interval that ends before the other side begins can be dropped. *)
Lemma inter_pop acc a pa pb :
  (forall x, covers pb x -> run_end a <= x) -> inter_inv acc (a :: pa) pb -> inter_inv acc pa pb.
Proof.
  intros Hend (la & lb & lo & ? & ? & Ha & ? & ? & ? & Hlo & HR). destruct a as [s l]. unfold run_end in Hend. cbn in Hend.
  destruct Ha as (? & ? & ? & Ha). exists (s + l + 1), lb, lo.
  split; [lia |]. split; [done |]. split; [done |]. split; [done |]. split; [done |]. split; [done |]. split.
  - intros x Hx. apply Hlo, covers_cons. by right.
  - intros x. rewrite HR, covers_cons. cbn. split; [| tauto]. intros [? | [[Hx | Hx] Hb]]; [tauto | | tauto].
    specialize (Hend x Hb). lia.
Qed.

Lemma covers_from lo pb x : runs_from lo pb -> covers pb x -> exists e pb', pb = e :: pb' /\ e.1 <= x.
Proof.
  intros Hr Hx. destruct pb as [| [s l] pb]; [by apply covers_nil in Hx |].
  exists (s, l), pb. split; [done |]. by eapply covers_head.
Qed.

Lemma inter_pop_before acc a pa b pb : run_end a <= b.1 ->
  inter_inv acc (a :: pa) (b :: pb) -> inter_inv acc pa (b :: pb).
Proof.
  intros Hend Hinv. eapply inter_pop; [| done]. destruct Hinv as (la & lb & lo & _ & _ & _ & Hb & _).
  intros x Hx. destruct b as [s l]. pose proof (covers_head _ _ _ _ _ Hb Hx). cbn in Hend. lia.
Qed.

Lemma emplace_range_ok acc lo start en : iset_ok acc -> next 0 (is_m acc) <= lo -> lo <= start -> start < en < 2 ^ 64 ->
  let acc' := emplace_range acc start en in
  iset_ok acc' /\ next 0 (is_m acc') <= en + 1 /\ forall x, x ∈ acc' <-> x ∈ acc \/ start <= x < en.
Proof.
  intros [Hr Hs] Hn Hlo He acc'. pose proof (next_ge 0 _ Hr).
  assert (Em : is_m acc' = is_m acc ++ [(start, en - start)]).
  { unfold acc', emplace_range. cbn [is_m]. rewrite u64_id by lia. apply map_emplace_end.
    apply (runs_left 0); [done | lia]. }
  assert (Hr' : runs_from 0 (is_m acc')).
  { rewrite Em. apply runs_from_app. split; [done |]. cbn. repeat split; lia. }
  pose proof (total_bounds 0 _ ltac:(lia) Hr') as Ht. rewrite Em, total_app in Ht. cbn in Ht. split; [split; [done |] |].
  - rewrite Em, total_app. cbn [is_size acc' emplace_range total]. rewrite (u64_id (en - start)), Hs by lia.
    rewrite u64_id; lia.
  - rewrite Em. split.
    + assert (Hnext : forall m lo k v, next lo (m ++ [(k, v)]) = k + v + 1)
        by (intros m; induction m as [| [? ?] m IH]; intros; cbn; [done | apply IH]).
      rewrite Hnext. lia.
    + intros x. unfold elem_of, iset_elem_of. rewrite Em, covers_app, covers_cons. cbn.
      pose proof (covers_nil x). intuition lia.
Qed.

(** Adding the common part of the two first intervals, then dropping the one that
    ends first. *)
Lemma inter_emplace acc a pa b pb :
  Z.max a.1 b.1 < Z.min (run_end a) (run_end b) -> run_end a <= run_end b ->
  inter_inv acc (a :: pa) (b :: pb) ->
  inter_inv (emplace_range acc (Z.max a.1 b.1) (Z.min (run_end a) (run_end b))) pa (b :: pb).
Proof.
  intros Hov Hab (la & lb & lo & ? & ? & Ha & Hb & Hacc & Hn & Hlo & HR). destruct a as [sa na], b as [sb nb].
  unfold run_end in *. cbn [fst snd] in *. pose proof Ha as (? & ? & ? & Hpa). pose proof Hb as (? & ? & ? & Hpb).
  set (start := Z.max sa sb) in *. set (en := Z.min (sa + na) (sb + nb)) in *.
  assert (Hcov : forall x, start <= x < en -> covers ((sa, na) :: pa) x /\ covers ((sb, nb) :: pb) x)
    by (intros x Hx; rewrite !covers_cons; cbn; split; left; lia).
  destruct (emplace_range_ok acc lo start en) as (Hok & Hn' & Hx); [done | done | apply Hlo; apply Hcov; lia | lia |].
  exists (sa + na + 1), lb, (en + 1). split; [lia |]. split; [done |]. split; [done |]. split; [done |].
  split; [done |]. split; [done |]. split.
  - intros x Hpx _. pose proof (runs_from_covers _ _ _ Hpa Hpx). lia.
  - intros x. rewrite HR, Hx, (covers_cons (sa, na)). cbn.
    assert (sa <= x < sa + na -> covers ((sb, nb) :: pb) x -> start <= x < en).
    { intros Hxa [Hxb | Hxb]%covers_cons; cbn in Hxb; [lia |]. pose proof (runs_from_covers _ _ _ Hpb Hxb). lia. }
    pose proof (Hcov x). rewrite (covers_cons (sa, na)) in *. cbn in *. tauto.
Qed.

(** Equal intervals are copied. *)
Lemma inter_copy acc e pa pb :
  inter_inv acc (e :: pa) (e :: pb) ->
  inter_inv (mk_iset (map_emplace (is_m acc) e.1 e.2) (u64 (is_size acc + e.2))) pa pb.
Proof.
  intros Hinv. pose proof Hinv as (la & lb & lo & ? & ? & Ha & Hb & _). destruct e as [s n].
  destruct Ha as (? & ? & ? & Hpa). destruct Hb as (? & ? & ? & Hpb).
  pose proof (inter_emplace acc (s, n) pa (s, n) pb) as He. unfold run_end in He. cbn [fst snd] in He.
  specialize (He ltac:(lia) ltac:(lia) Hinv). rewrite Z.max_id, Z.min_id in He. unfold emplace_range in He.
  replace (s + n - s) with n in He by lia. rewrite (u64_id n) in He by lia. cbn [fst snd].
  apply inter_inv_sym in He. apply inter_inv_sym. eapply inter_pop; [| exact He]. unfold run_end. cbn.
  intros x Hx. pose proof (runs_from_covers _ _ _ Hpa Hx). lia.
Qed.

Lemma copy_equal_inv acc pa pb : inter_inv acc pa pb ->
  let '(acc', pa', pb') := copy_equal acc pa pb in
  inter_inv acc' pa' pb' /\ exists c, pa = c ++ pa' /\ pb = c ++ pb'.
Proof.
  revert acc pb. induction pa as [| a pa IH]; intros acc pb Hinv; [split; [done |]; by exists [] |].
  destruct pb as [| b pb]; [split; [done |]; by exists [] |]. cbn [copy_equal].
  destruct (decide (a = b)) as [<- | Hne]; [| split; [done |]; by exists []].
  pose proof (IH _ pb (inter_copy _ _ _ _ Hinv)) as Hrec. destruct (copy_equal _ pa pb) as [[acc' pa'] pb'].
  destruct Hrec as [Hi (c & -> & ->)]. split; [done |]. by exists (a :: c).
Qed.

Lemma inter_done acc pa pb : pa = [] \/ pb = [] -> inter_inv acc pa pb ->
  iset_ok acc /\ forall x, x ∈ acc <-> R x.
Proof.
  intros Hd (la & lb & lo & _ & _ & _ & _ & Hacc & _ & _ & HR). split; [done |]. intros x. rewrite HR.
  pose proof (covers_nil x). destruct Hd as [-> | ->]; tauto.
Qed.

Lemma inter_inv_ends acc a pa b pb : inter_inv acc (a :: pa) (b :: pb) ->
  i_end a = run_end a /\ i_end b = run_end b /\ a.1 < run_end a /\ b.1 < run_end b.
Proof.
  intros (la & lb & lo & Hla & Hlb & Ha & Hb & _).
  split; [apply (i_end_run la (a :: pa)); [done | done | left] |].
  split; [apply (i_end_run lb (b :: pb)); [done | done | left] |].
  destruct a, b. unfold run_end. cbn in Ha, Hb |- *. lia.
Qed.

Lemma intersect_sym_ok fuel acc pa pb : inter_inv acc pa pb -> (length pa + length pb < fuel)%nat ->
  exists r, intersect_sym fuel acc pa pb = Ok r /\ iset_ok r /\ forall x, x ∈ r <-> R x.
Proof.
  revert acc pa pb. induction fuel as [| fuel IH]; intros acc pa pb Hinv Hf; [lia |]. cbn [intersect_sym].
  destruct pa as [| a pa]; [exists acc; split; [done |]; eapply inter_done; [by left | done] |].
  destruct pb as [| b pb]; [exists acc; split; [done |]; eapply inter_done; [by right | done] |].
  destruct (inter_inv_ends _ _ _ _ _ Hinv) as (Ea & Eb & Ha & Hb). rewrite Ea, Eb. cbn [length] in Hf.
  destruct (Z.leb_spec (run_end a) b.1); [apply IH; [by eapply inter_pop_before | cbn; lia] |].
  destruct (Z.leb_spec (run_end b) a.1).
  { apply IH; [| cbn; lia]. apply inter_inv_sym. eapply inter_pop_before; [done | by apply inter_inv_sym]. }
  destruct (decide (a = b)) as [<- | Hne].
  - cbn [copy_equal]. rewrite decide_True by done.
    pose proof (copy_equal_inv _ pa pb (inter_copy _ _ _ _ Hinv)) as Hc.
    destruct (copy_equal _ pa pb) as [[acc' pa'] pb']. destruct Hc as [Hi (c & -> & ->)].
    apply IH; [done |]. rewrite !length_app in Hf. lia.
  - destruct (Z.ltb_spec (Z.max a.1 b.1) (Z.min (run_end a) (run_end b))); [| lia]. cbn [negb].
    destruct (Z.ltb_spec (run_end b) (run_end a)).
    + apply IH; [| cbn; lia]. apply inter_inv_sym. rewrite Z.max_comm, Z.min_comm.
      apply inter_emplace; [lia | lia | by apply inter_inv_sym].
    + apply IH; [| cbn; lia]. apply inter_emplace; [lia | lia | done].
Qed.

(** *** The asymmetric loop *)

Lemma skip_before_inv acc ps b pb : inter_inv acc ps (b :: pb) ->
  inter_inv acc (skip_before ps b.1) (b :: pb) /\ (length (skip_before ps b.1) <= length ps)%nat /\
  forall s ps', skip_before ps b.1 = s :: ps' -> b.1 < run_end s.
Proof.
  induction ps as [| s ps IH]; intros Hinv; [done |]. cbn [skip_before].
  destruct (inter_inv_ends _ _ _ _ _ Hinv) as (-> & _ & _).
  destruct (Z.leb_spec (run_end s) b.1).
  - destruct IH as (H1 & H2 & H3); [by eapply inter_pop_before |]. split; [done |]. cbn. split; [lia | done].
  - split; [done |]. split; [lia |]. by intros s' ps' [= <- <-].
Qed.

(** The part of the larger set that the search from [offset] still sees. *)
Definition asym_inv (acc : interval_set) (l ps : imap) (offset : Z) (l1 : imap) : Prop :=
  exists l0, l = l0 ++ l1 /\ runs_from 0 l /\ Forall (fun e => run_end e <= offset) l0 /\
    Forall (fun e => offset < run_end e) l1 /\ inter_inv acc ps l1.

Lemma split_unique {A} (P : A -> Prop) (a b c d : list A) : a ++ b = c ++ d ->
  Forall P a -> Forall (fun x => ~ P x) b -> Forall P c -> Forall (fun x => ~ P x) d -> a = c /\ b = d.
Proof.
  revert c. induction a as [| x a IH]; intros [| y c] E Ha Hb Hc Hd; cbn in E; subst.
  - done.
  - rewrite !Forall_cons in *. tauto.
  - rewrite !Forall_cons in *. tauto.
  - injection E as -> E. rewrite !Forall_cons in *. destruct (IH c E); [tauto.. |]. by subst.
Qed.

Lemma asym_find acc l ps offset l1 : asym_inv acc l ps offset l1 ->
  exists l0, find_inc l offset = Ok (length l0) /\ l = l0 ++ l1.
Proof.
  intros (l0 & -> & Hr & H0 & H1 & _).
  destruct (find_inc_split 0 (l0 ++ l1) offset) as (a & b & Hab & Hf & Ha & Hb); [lia | done |].
  destruct (split_unique (fun e => run_end e <= offset) l0 l1 a b) as [-> ->]; [done | done | | done | |].
  - eapply Forall_impl; [exact H1 |]. cbn. lia.
  - eapply Forall_impl; [exact Hb |]. cbn. lia.
  - by exists a.
Qed.

(** Moving the search on to the start of the next interval of the smaller set. *)
Lemma asym_advance acc l l0 l1 s ps : l = l0 ++ l1 -> runs_from 0 l ->
  Forall (fun e => run_end e <= s.1) l0 -> inter_inv acc (s :: ps) l1 ->
  exists l2, asym_inv acc l (s :: ps) s.1 l2 /\ (length l2 <= length l1)%nat.
Proof.
  intros -> Hr H0 Hinv. revert l0 Hr H0. induction l1 as [| b l1 IH]; intros l0 Hr H0.
  { exists []. split; [| done]. by exists l0. }
  destruct (inter_inv_ends _ _ _ _ _ Hinv) as (_ & _ & Hs & _).
  destruct (Z.le_gt_cases (run_end b) s.1).
  - assert (Hinv' : inter_inv acc (s :: ps) l1)
      by (apply inter_inv_sym; eapply inter_pop_before; [done | by apply inter_inv_sym]).
    rewrite (cons_middle b l0 l1), app_assoc in Hr |- *.
    destruct (IH Hinv' (l0 ++ [b])) as (l2 & H2 & Hl); [done | by apply Forall_app; split; [| constructor] |].
    exists l2. split; [done | cbn; lia].
  - exists (b :: l1). split; [| done]. exists l0. split; [done |]. split; [done |]. split; [done |]. split; [| done].
    constructor; [done |]. apply runs_from_app in Hr as [_ Hr]. destruct b as [sb nb]. destruct Hr as (? & ? & ? & Hr).
    apply Forall_forall. intros [s' n'] Hin. destruct (runs_from_elem _ _ _ _ Hr Hin) as (? & ? & _).
    unfold run_end in *. cbn in *. lia.
Qed.

Lemma before_ends l0 b l1 : runs_from 0 (l0 ++ b :: l1) -> Forall (fun e => run_end e < b.1) l0.
Proof. intros Hr. by eapply runs_behind. Qed.

(** One round, from a state where the search has found [b]: either the result is
    complete, or the loop goes on with less left. *)
Lemma asym_overlap acc l l0 b l1 s ps :
  l = l0 ++ b :: l1 -> runs_from 0 l -> b.1 < run_end s -> s.1 < run_end b ->
  inter_inv acc (s :: ps) (b :: l1) ->
  let acc' := emplace_range acc (Z.max s.1 b.1) (Z.min (run_end s) (run_end b)) in
  if run_end s <=? run_end b
  then match ps with
       | [] => iset_ok acc' /\ forall x, x ∈ acc' <-> R x
       | s' :: _ => exists l2, asym_inv acc' l ps s'.1 l2 /\ (length l2 <= S (length l1))%nat
       end
  else asym_inv acc' l (s :: ps) (run_end b) l1.
Proof.
  intros -> Hr Hbs Hsb Hinv acc'. destruct (inter_inv_ends _ _ _ _ _ Hinv) as (_ & _ & Hs & Hb).
  pose proof (before_ends _ _ _ Hr) as H0. destruct (Z.leb_spec (run_end s) (run_end b)).
  - assert (Hinv' : inter_inv acc' ps (b :: l1)) by (apply inter_emplace; [lia | lia | done]).
    destruct ps as [| s' ps]; [eapply inter_done; [by left | done] |].
    apply (asym_advance acc' (l0 ++ b :: l1) l0 (b :: l1) s' ps); [done | done | | done].
    eapply Forall_impl; [exact H0 |]. intros e He. cbn in He |- *.
    destruct Hinv as (la & _ & _ & _ & _ & Hps & _). destruct s as [ss ns], s' as [ss' ns'].
    destruct Hps as (_ & _ & _ & Hps' & _). unfold run_end in *. cbn in *. lia.
  - exists (l0 ++ [b]). rewrite <- app_assoc. split; [done |]. split; [done |]. split; [| split].
    + apply Forall_app. split; [| by constructor]. eapply Forall_impl; [exact H0 |]. cbn. lia.
    + apply runs_from_app in Hr as [_ Hr]. destruct b as [sb nb]. destruct Hr as (? & ? & ? & Hr).
      apply Forall_forall. intros [s' n'] Hin. destruct (runs_from_elem _ _ _ _ Hr Hin) as (? & ? & _).
      unfold run_end. cbn. lia.
    + unfold acc'. apply inter_inv_sym. rewrite Z.max_comm, Z.min_comm.
      apply inter_emplace; [lia | lia | by apply inter_inv_sym].
Qed.

Lemma intersect_asym_ok fuel acc l ps offset l1 :
  asym_inv acc l ps offset l1 -> (length ps + length l1 < fuel)%nat ->
  exists r, intersect_asym fuel acc l ps offset = Ok r /\ iset_ok r /\ forall x, x ∈ r <-> R x.
Proof.
  revert acc ps offset l1. induction fuel as [| fuel IH]; intros acc ps offset l1 Hasym Hf; [lia |].
  cbn [intersect_asym]. destruct (asym_find _ _ _ _ _ Hasym) as (l0 & -> & El). res_simpl.
  destruct Hasym as (_ & _ & Hr & _ & _ & Hinv). 
  assert (Hlk : l !! length l0 = l1 !! 0%nat) by (by rewrite El, lookup_app_r, Nat.sub_diag by done).
  rewrite Hlk. destruct l1 as [| b l1]; cbn [lookup list_lookup].
  { exists acc. split; [done |]. eapply inter_done; [by right | done]. }
  destruct (skip_before_inv _ _ _ _ Hinv) as (Hinv1 & Hlen & Hskip).
  destruct (skip_before ps b.1) as [| s ps1] eqn:Eps; rewrite ?Eps in Hinv1, Hlen, Hskip.
  { exists acc. split; [done |]. eapply inter_done; [| exact Hinv1]. by left. }
  specialize (Hskip s ps1 eq_refl). destruct (inter_inv_ends _ _ _ _ _ Hinv1) as (Es & Eb & Hs & Hb).
  rewrite Es, Eb. cbn [length] in Hf, Hlen. rewrite El in Hr. pose proof (before_ends _ _ _ Hr) as H0.
  destruct (Z.leb_spec (run_end b) s.1) as [Hbs | Hbs].
  - destruct (asym_advance acc l (l0 ++ [b]) l1 s ps1) as (l2 & H2 & Hl2).
    + by rewrite <- app_assoc.
    + by rewrite El.
    + apply Forall_app. split; [| by constructor]. eapply Forall_impl; [exact H0 |]. cbn. lia.
    + apply inter_inv_sym. eapply inter_pop_before; [done | by apply inter_inv_sym].
    + apply (IH _ _ _ l2); [done | cbn; lia].
  - destruct (decide (s = b)) as [-> | Hne].
    + assert (Hdrop : drop (length l0) l = b :: l1) by (by rewrite El, drop_app_length). rewrite Hdrop.
      pose proof (copy_equal_inv _ ps1 l1 (inter_copy _ _ _ _ Hinv1)) as Hc. cbn [copy_equal].
      rewrite decide_True by done. destruct (copy_equal _ ps1 l1) as [[acc' ps2] l2].
      destruct Hc as [Hi (c & Ep & El1)].
      destruct ps2 as [| s' ps2]; [exists acc'; split; [done |]; eapply inter_done; [| exact Hi]; by left |].
      assert (Hps : exists lo, runs_from lo (b :: c ++ s' :: ps2)) by
        (destruct Hinv1 as (la & _ & _ & _ & _ & Hps & _); exists la; by rewrite Ep in Hps).
      destruct Hps as [lo Hps].
      destruct (asym_advance acc' l (l0 ++ b :: c) l2 s' ps2) as (l3 & H3 & Hl3).
      * rewrite <- app_assoc, El, El1. done.
      * by rewrite El.
      * pose proof (runs_behind lo (b :: c) s' ps2 s'.1 Hps ltac:(lia)) as Hbc.
        apply Forall_app. split; [| eapply Forall_impl; [exact Hbc |]; cbn; lia].
        rewrite Forall_cons in Hbc. destruct Hbc as [Hbe _]. eapply Forall_impl; [exact H0 |]. cbn. lia.
      * done.
      * apply (IH _ _ _ l3); [done |]. rewrite Ep, El1, !length_app in *. cbn [length] in *. lia.
    + destruct (Z.ltb_spec (Z.max s.1 b.1) (Z.min (run_end s) (run_end b))); [| lia]. cbn [negb].
      assert (Hrl : runs_from 0 l) by (by rewrite El).
      pose proof (asym_overlap acc l l0 b l1 s ps1 El Hrl Hskip Hbs Hinv1) as Hov. cbv zeta in Hov.
      destruct (run_end s <=? run_end b).
      * destruct ps1 as [| s' ps1]; [by eexists |]. destruct Hov as (l2 & H2 & Hl2).
        apply (IH _ _ _ l2); [done |]. cbn [length] in *. lia.
      * apply (IH _ _ _ l1); [done |]. cbn [length] in *. lia.
Qed.
End intersection.

Lemma iset_empty_ok : iset_ok iset_empty.
Proof. done. Qed.

Lemma iset_size_zero s : iset_ok s -> is_size s = 0 -> is_m s = [].
Proof. intros [Hr Hs] H0. eapply total_zero; [done | congruence]. Qed.

Lemma inter_inv_start a b : iset_ok a -> iset_ok b ->
  inter_inv (fun x => x ∈ a /\ x ∈ b) iset_empty (is_m a) (is_m b).
Proof.
  intros [Ha _] [Hb _]. exists 0, 0, 0. split; [lia |]. split; [lia |]. split; [done |]. split; [done |].
  split; [done |]. split; [done |]. split; [intros x Hx _; apply (runs_from_covers _ _ _ Ha) in Hx; lia |].
  intros x. unfold elem_of, iset_elem_of. pose proof (covers_nil x). cbn. tauto.
Qed.

Lemma asym_spec s l : iset_ok s -> iset_ok l -> is_size s <> 0 ->
  exists r, intersection_size_asym s l = Ok r /\ iset_ok r /\ forall x, x ∈ r <-> x ∈ s /\ x ∈ l.
Proof.
  intros Hs Hl Hne. pose proof (inter_inv_start s l Hs Hl) as Hinv. unfold intersection_size_asym.
  destruct (is_m s) as [| e ps] eqn:Es; [destruct Hs as [_ Hs]; rewrite Es in Hs; done |].
  destruct (asym_advance (fun x => x ∈ s /\ x ∈ l) iset_empty (is_m l) [] (is_m l) e ps) as (l1 & H1 & Hl1);
    [done | apply Hl | done | done |].
  apply (intersect_asym_ok (fun x => x ∈ s /\ x ∈ l)) with l1; [done | cbn [length] in *; lia].
Qed.

Lemma intersection_spec a b : iset_ok a -> iset_ok b ->
  exists r, intersection_of a b = Ok r /\ iset_ok r /\ forall x, x ∈ r <-> x ∈ a /\ x ∈ b.
Proof.
  intros Ha Hb. unfold intersection_of.
  assert (Hsym : exists r, intersect_sym (S (length (is_m a) + length (is_m b))) iset_empty (is_m a) (is_m b) = Ok r /\
    iset_ok r /\ forall x, x ∈ r <-> x ∈ a /\ x ∈ b)
    by (apply (intersect_sym_ok (fun x => x ∈ a /\ x ∈ b)); [by apply inter_inv_start | lia]).
  assert (Hempty : forall s l : interval_set, iset_ok s -> is_size s = 0 -> exists r, Ok iset_empty = Ok r /\ iset_ok r /\
    forall x, x ∈ r <-> x ∈ s /\ x ∈ l).
  { intros s l Hs H0. exists iset_empty. split; [done |]. split; [done |]. intros x.
    unfold elem_of at 2, iset_elem_of at 2. rewrite (iset_size_zero s Hs H0). pose proof (covers_nil x).
    unfold elem_of, iset_elem_of. cbn. tauto. }
  assert (Hswap : forall f, (exists r, f = Ok r /\ iset_ok r /\ forall x, x ∈ r <-> x ∈ b /\ x ∈ a) ->
    exists r, f = Ok r /\ iset_ok r /\ forall x, x ∈ r <-> x ∈ a /\ x ∈ b).
  { intros f (r & ? & ? & Hx). exists r. split; [done |]. split; [done |]. intros x. rewrite Hx. tauto. }
  destruct (is_size a <? is_size b).
  - destruct (Z.eqb_spec (is_size a) 0); [by apply Hempty |]. destruct (10 <=? _); [by apply asym_spec | done].
  - destruct (Z.eqb_spec (is_size b) 0); [by apply Hswap, Hempty |].
    destruct (10 <=? _); [by apply Hswap, asym_spec | done].
Qed.

(** ** Union *)

Lemma union_spec a b : iset_ok a -> iset_ok b ->
  exists r, union_of a b = Ok r /\ iset_ok r /\ forall x, x ∈ r <-> x ∈ a \/ x ∈ b.
Proof.
  intros Ha Hb. unfold union_of. destruct (intersection_spec a b Ha Hb) as (ab & -> & Hab & Hx). res_simpl.
  unfold iset_subtract, insert_set.
  destruct (subtract_spec a (is_m ab) 0) as (s & -> & Hs & Hxs); [done | apply Hab | |].
  { intros x Hc. by apply Hx. }
  res_simpl. assert (Hcov : forall x, covers (is_m ab) x <-> x ∈ a /\ x ∈ b) by (intros x; apply Hx).
  assert (Hcb : forall x, covers (is_m b) x <-> x ∈ b) by done.
  destruct (insert_map_spec s (is_m b) 0) as (r & -> & Hr & Hxr); [done | lia | apply Hb | |].
  - intros x Hc Hsx. apply Hxs in Hsx as [Hax Hn]. apply Hn, Hcov. by rewrite <- Hcb.
  - exists r. split; [done |]. split; [done |]. intros x. rewrite Hxr, Hxs, Hcov, Hcb.
    destruct (decide (covers (is_m b) x)) as [H | H]; rewrite Hcb in H; tauto.
Qed.
