(* ===== verification/IntervalSetThms.v ===== *)
(** * interval_set: queries, subset, span, and the theorems

    The remaining operations on the invariant of IntervalSetSpec.v, and the
    statements that make up the contract of the class. *)

From S2P Require Import Prelude IntervalSet IntervalSetSpec.

(** ** Queries *)

Lemma find_inc_head m x : runs_from 0 m -> exists a b, m = a ++ b /\ find_inc m x = Ok (length a) /\
  m !! length a = head b /\ (forall y, x <= y -> covers m y <-> covers b y) /\
  match b with [] => True | e :: _ => i_end e = run_end e /\ x < run_end e end.
Proof.
  intros Hr. destruct (find_inc_split 0 m x) as (a & b & -> & Hf & Ha & Hb); [lia | done |].
  exists a, b. split; [done |]. split; [done |]. split; [| split].
  - rewrite lookup_app_r, Nat.sub_diag by done. by destruct b.
  - intros y Hy. rewrite covers_app. split; [| by right]. intros [(s & l & Hin & Hs) | ?]; [| done].
    rewrite Forall_forall in Ha. specialize (Ha _ Hin). unfold run_end in Ha. cbn in Ha. lia.
  - destruct b as [| e b]; [done |]. rewrite Forall_cons in Hb. split; [| by destruct Hb].
    apply (i_end_run 0 (a ++ e :: b)); [lia | done | set_solver].
Qed.

Lemma contains_spec s i : iset_ok s -> exists c, iset_contains s i = Ok c /\
  match c with
  | Some e => e ∈ is_m s /\ e.1 <= i < run_end e
  | None => i ∉ s
  end.
Proof.
  intros [Hr _]. unfold iset_contains. destruct (find_inc_head (is_m s) i Hr) as (a & b & Em & -> & Hlk & Hc & Hb).
  res_simpl. rewrite Hlk. destruct b as [| e b]; cbn [head].
  { exists None. split; [done |]. intros Hi. apply Hc in Hi; [by apply covers_nil in Hi | lia]. }
  destruct Hb as [-> Hx]. destruct (Z.ltb_spec i e.1).
  - exists None. split; [done |]. intros Hi. apply Hc in Hi; [| lia]. rewrite Em in Hr.
    apply runs_from_app in Hr as [_ Hr]. destruct e. pose proof (covers_head _ _ _ _ _ Hr Hi). cbn in *. lia.
  - destruct (Z.leb_spec (run_end e) i); [lia |]. exists (Some e). split; [done |]. split; [rewrite Em; set_solver | lia].
Qed.

Lemma contains_range_spec s start len : iset_ok s -> 0 <= start -> 0 < len -> start + len < 2 ^ 64 ->
  exists c, contains_range s start len = Ok c /\ (c = true <-> forall x, start <= x < start + len -> x ∈ s).
Proof.
  intros [Hr _] H0 Hlen Hend. unfold contains_range.
  destruct (find_inc_head (is_m s) start Hr) as (a & b & Em & -> & Hlk & Hc & Hb). res_simpl.
  rewrite Hlk, (u64_id (start + len)) by lia.
  assert (Hno : forall y, start <= y < start + len -> ~ covers b y ->
    false = true <-> forall x, start <= x < start + len -> x ∈ s).
  { intros y Hy Hn. split; [done |]. intros Hall. destruct Hn. apply Hc; [lia |]. by apply Hall. }
  destruct b as [| e b]; cbn [head].
  { exists false. split; [done |]. apply (Hno start); [lia | apply covers_nil]. }
  destruct Hb as [-> Hx]. rewrite Em in Hr. apply runs_from_app in Hr as [_ Hr]. destruct e as [es el]. cbn [fst].
  destruct (Z.ltb_spec start es).
  { exists false. split; [done |]. apply (Hno start); [lia |]. intros Hs.
    pose proof (covers_head _ _ _ _ _ Hr Hs). lia. }
  destruct (Z.leb_spec (run_end (es, el)) start); [lia |]. destruct (Z.ltb_spec (run_end (es, el)) (start + len)).
  - exists false. split; [done |]. apply (Hno (es + el)); [unfold run_end in *; cbn in *; lia |].
    eapply run_end_not_covered; [exact Hr | left].
  - exists true. split; [done |]. split; [| done]. intros _ x Hxr. apply Hc; [lia |]. apply covers_cons. left.
    unfold run_end in *. cbn in *. lia.
Qed.

(** ** Counting elements *)

Definition points (m : imap) : list Z := mjoin ((fun e => seqZ e.1 e.2) <$> m).

Lemma elem_of_points m x : x ∈ points m <-> covers m x.
Proof.
  unfold points. induction m as [| [s l] m IH]; cbn.
  - rewrite elem_of_nil. pose proof (covers_nil x). tauto.
  - rewrite elem_of_app, elem_of_seqZ, IH, covers_cons. cbn. tauto.
Qed.

Lemma points_NoDup lo m : runs_from lo m -> NoDup (points m).
Proof.
  revert lo. induction m as [| [s l] m IH]; intros lo Hr; [constructor |]. destruct Hr as (? & ? & ? & Hr).
  change (NoDup (seqZ s l ++ points m)). apply NoDup_app. split; [apply NoDup_seqZ |]. split; [| by eapply IH].
  intros x Hx. rewrite elem_of_seqZ in Hx. rewrite elem_of_points. intros Hc.
  apply (runs_from_covers _ _ _ Hr) in Hc. lia.
Qed.

Lemma points_length lo m : runs_from lo m -> Z.of_nat (length (points m)) = total m.
Proof.
  revert lo. induction m as [| [s l] m IH]; intros lo Hr; [done |]. destruct Hr as (? & ? & ? & Hr).
  change (points ((s, l) :: m)) with (seqZ s l ++ points m). rewrite length_app, length_seqZ. cbn [total].
  rewrite <- (IH _ Hr). lia.
Qed.

Lemma total_mono lo lo' a b : runs_from lo a -> runs_from lo' b -> (forall x, covers a x -> covers b x) ->
  total a <= total b.
Proof.
  intros Ha Hb Hsub. rewrite <- (points_length lo a Ha), <- (points_length lo' b Hb).
  apply inj_le, submseteq_length, NoDup_submseteq; [by eapply points_NoDup |].
  intros x. rewrite !elem_of_points. apply Hsub.
Qed.

(** ** Subset *)

Definition sub_of (pa pb : imap) : Prop := forall x, covers pa x -> covers pb x.

Lemma sub_skip la lb a pa pb : runs_from la (a :: pa) -> 0 <= lb -> runs_from lb pb ->
  exists lb', 0 <= lb' /\ runs_from lb' (skip_before pb a.1) /\
    (sub_of (a :: pa) pb <-> sub_of (a :: pa) (skip_before pb a.1)) /\
    forall b pb', skip_before pb a.1 = b :: pb' -> a.1 < run_end b.
Proof.
  intros Ha. revert lb. induction pb as [| [s l] pb IH]; intros lb Hlb Hb; [by exists lb |].
  cbn [skip_before]. rewrite (i_end_run lb ((s, l) :: pb)) by (done || left).
  destruct (Z.leb_spec (run_end (s, l)) a.1) as [He | He].
  - destruct Hb as (? & ? & ? & Hb). destruct (IH (s + l + 1)) as (lb' & ? & ? & Hiff & ?); [lia | done |].
    exists lb'. split; [done |]. split; [done |]. split; [| done]. rewrite <- Hiff. unfold sub_of.
    split; intros Hsub x Hx; specialize (Hsub x Hx).
    + apply covers_cons in Hsub as [Hs |]; [| done]. destruct a as [sa na].
      pose proof (covers_head _ _ _ _ _ Ha Hx). unfold run_end in He. cbn in *. lia.
    + apply covers_cons. by right.
  - exists lb. split; [done |]. split; [done |]. split; [done |]. by intros b pb' [= <- <-].
Qed.

Lemma sub_equal la lb e pa pb : runs_from la (e :: pa) -> runs_from lb (e :: pb) ->
  sub_of (e :: pa) (e :: pb) <-> sub_of pa pb.
Proof.
  destruct e as [s l]. intros (? & ? & ? & Ha) (? & ? & ? & Hb). unfold sub_of. split; intros Hsub x Hx.
  - pose proof (runs_from_covers _ _ _ Ha Hx).
    destruct (proj1 (covers_cons _ _ _) (Hsub x (proj2 (covers_cons _ _ _) (or_intror Hx)))) as [Hx' |]; [| done].
    cbn in Hx'. lia.
  - apply covers_cons. apply covers_cons in Hx as [? | ?]; [by left | right; auto].
Qed.

Lemma skip_equal_spec la lb pa pb : 0 <= la -> 0 <= lb -> runs_from la pa -> runs_from lb pb ->
  let '(pa', pb') := skip_equal pa pb in
  (length pa' <= length pa)%nat /\ (sub_of pa pb <-> sub_of pa' pb') /\
  exists la' lb', 0 <= la' /\ 0 <= lb' /\ runs_from la' pa' /\ runs_from lb' pb'.
Proof.
  revert la lb pb. induction pa as [| a pa IH]; intros la lb pb Hla Hlb Ha Hb.
  { cbn. split; [done |]. split; [done |]. by exists la, lb. }
  destruct pb as [| b pb]; [cbn; split; [done |]; split; [done |]; by exists la, lb |]. cbn [skip_equal].
  destruct (decide (a = b)) as [<- | Hne]; [| split; [done |]; split; [done |]; by exists la, lb].
  pose proof (sub_equal _ _ _ _ _ Ha Hb) as Heq. destruct a as [s l].
  destruct Ha as (? & ? & ? & Ha), Hb as (? & ? & ? & Hb).
  specialize (IH (s + l + 1) (s + l + 1) pb ltac:(lia) ltac:(lia) Ha Hb).
  destruct (skip_equal pa pb) as [pa' pb']. destruct IH as (Hl & Hiff & Hr). split; [cbn; lia |].
  split; [by rewrite Heq | done].
Qed.

Lemma subset_sym_spec fuel la lb pa pb :
  0 <= la -> 0 <= lb -> runs_from la pa -> runs_from lb pb -> (length pa < fuel)%nat ->
  exists c, subset_sym fuel pa pb = Ok c /\ (c = true <-> sub_of pa pb).
Proof.
  revert la lb pa pb. induction fuel as [| fuel IH]; intros la lb pa pb Hla Hlb Ha Hb Hf; [lia |]. cbn [subset_sym].
  destruct pa as [| a pa]; [exists true; split; [by destruct pb |]; split; [| done]; intros _ x Hx; by apply covers_nil in Hx |].
  assert (Hac : forall x, a.1 <= x < run_end a -> covers (a :: pa) x) by (intros x Hx; apply covers_cons; by left).
  assert (Hal : a.1 < run_end a /\ i_end a = run_end a).
  { split; [destruct a, Ha as (_ & ? & _); unfold run_end; cbn; lia |]. apply (i_end_run la (a :: pa)); [done | done | left]. }
  destruct Hal as [Hal Ea].
  assert (Hfalse : forall y, a.1 <= y < run_end a -> forall pb', ~ covers pb' y -> false = true <-> sub_of (a :: pa) pb')
    by (intros y Hy pb' Hn; split; [done |]; intros Hsub; destruct Hn; by apply Hsub, Hac).
  destruct pb as [| b0 pb0]; [exists false; split; [done |]; apply (Hfalse a.1); [lia | apply covers_nil] |].
  set (pb := b0 :: pb0) in *. destruct (sub_skip la lb a pa pb Ha Hlb Hb) as (lb' & Hlb' & Hb' & Hiff & Hhd).
  destruct (skip_before pb a.1) as [| b pb1] eqn:Eskip.
  { exists false. split; [done |]. rewrite Hiff. apply (Hfalse a.1); [lia | apply covers_nil]. }
  specialize (Hhd b pb1 eq_refl). cbn [length] in Hf. destruct (decide (a = b)) as [<- | Hne].
  - cbn [skip_equal]. rewrite decide_True by done.
    pose proof (sub_equal _ _ _ _ _ Ha Hb') as Heq. destruct a as [s l].
    destruct Ha as (? & ? & ? & Ha), Hb' as (? & ? & ? & Hb').
    pose proof (skip_equal_spec (s + l + 1) (s + l + 1) pa pb1 ltac:(lia) ltac:(lia) Ha Hb') as Hsk.
    destruct (skip_equal pa pb1) as [pa' pb']. destruct Hsk as (Hl & Hiff' & la' & lb2 & ? & ? & ? & ?).
    destruct (IH la' lb2 pa' pb') as (c & Ec & Hc); [done.. | lia |]. exists c. split; [done |].
    by rewrite Hiff, Heq, Hiff'.
  - rewrite Ea, (i_end_run lb' (b :: pb1)) by (done || left). destruct (Z.ltb_spec a.1 b.1).
    { exists false. split; [done |]. rewrite Hiff. apply (Hfalse a.1); [lia |]. intros Hx. destruct b.
      pose proof (covers_head _ _ _ _ _ Hb' Hx). cbn in *. lia. }
    destruct (Z.ltb_spec (run_end b) (run_end a)).
    { exists false. split; [done |]. rewrite Hiff. apply (Hfalse (run_end b)); [lia |]. destruct b.
      eapply run_end_not_covered; [exact Hb' | left]. }
    destruct a as [s l]. pose proof Ha as (? & ? & ? & Ha').
    destruct (IH (s + l + 1) lb' pa (b :: pb1)) as (c & Ec & Hc); [lia | done | done | done | lia |].
    exists c. split; [done |]. rewrite Hc, Hiff. unfold sub_of. split; intros Hsub x Hx.
    + apply covers_cons in Hx as [Hx | Hx]; [| auto]. apply covers_cons. left. unfold run_end in *. cbn in *. lia.
    + apply Hsub, covers_cons. by right.
Qed.

Lemma all_contained_spec big m lo : iset_ok big -> 0 <= lo -> runs_from lo m ->
  exists c, all_contained big m = Ok c /\ (c = true <-> forall x, covers m x -> x ∈ big).
Proof.
  intros Hbig. revert lo. induction m as [| [s l] m IH]; intros lo Hlo Hr.
  { exists true. split; [done |]. split; [| done]. intros _ x Hx. by apply covers_nil in Hx. }
  destruct Hr as (? & ? & ? & Hr). cbn [all_contained].
  destruct (contains_range_spec big s l) as (c & -> & Hc); [done | lia | lia | lia |]. res_simpl.
  destruct c; cbn [negb].
  - destruct (IH (s + l + 1)) as (c & -> & Hc'); [lia | done |]. exists c. split; [done |]. rewrite Hc'.
    split; intros Hall x Hx; [apply covers_cons in Hx as [Hx | Hx]; [by apply Hc | auto] |].
    apply Hall, covers_cons. by right.
  - exists false. split; [done |]. split; [done |]. intros Hall. apply Hc. intros x Hx.
    apply Hall, covers_cons. by left.
Qed.

Lemma last_end lo m : 0 <= lo -> runs_from lo m -> m <> [] ->
  exists e, last m = Some e /\ i_end e = run_end e /\ covers m (run_end e - 1) /\ forall x, covers m x -> x < run_end e.
Proof.
  intros Hlo Hr Hne. destruct m as [| [s l] m _] using rev_ind; [done |]. exists (s, l). rewrite last_snoc.
  split; [done |]. split; [apply (i_end_run lo (m ++ [(s, l)])); [done | done | set_solver] |].
  apply runs_from_app in Hr as [Hm (? & ? & ? & _)]. unfold run_end. cbn [fst snd]. split.
  - apply covers_app. right. apply covers_cons. left. cbn. lia.
  - intros x [(s' & l' & Hin & Hx) | [Hx | Hx]%covers_cons]%covers_app; cbn in Hx.
    + destruct (runs_from_elem _ _ _ _ Hm Hin) as (_ & _ & _ & ?). lia.
    + lia.
    + by apply covers_nil in Hx.
Qed.

Lemma subset_spec s big : iset_ok s -> iset_ok big ->
  exists c, subset_of s big = Ok c /\ (c = true <-> forall x, x ∈ s -> x ∈ big).
Proof.
  intros Hs Hb. unfold subset_of. destruct (Z.eqb_spec (is_size s) 0) as [H0 | H0].
  { exists true. split; [done |]. split; [| done]. intros _ x Hx. unfold elem_of, iset_elem_of in Hx.
    rewrite (iset_size_zero s Hs H0) in Hx. by apply covers_nil in Hx. }
  pose proof Hs as [Hrs Hss]. pose proof Hb as [Hrb Hsb].
  destruct (Z.ltb_spec (is_size big) (is_size s)).
  { exists false. split; [done |]. split; [done |]. intros Hsub.
    pose proof (total_mono 0 0 (is_m s) (is_m big) Hrs Hrb Hsub). lia. }
  assert (Hns : is_m s <> []) by (intros E; rewrite E in Hss; done).
  pose proof (total_bounds 0 _ ltac:(lia) Hrs).
  assert (Hnb : is_m big <> []) by (intros E; rewrite E in Hsb; cbn in Hsb; lia).
  destruct (last_end 0 (is_m s)) as (e & He & Ee & Hce & _); [lia | done | done |].
  destruct (last_end 0 (is_m big)) as (be & Hbe & Ebe & _ & Hmax); [lia | done | done |].
  unfold range_end. rewrite He, Hbe. res_simpl. rewrite Ee, Ebe. destruct (Z.ltb_spec (run_end be) (run_end e)).
  { exists false. split; [done |]. split; [done |]. intros Hsub. specialize (Hmax _ (Hsub _ Hce)). lia. }
  destruct (_ <? 10).
  - destruct (subset_sym_spec (S (length (is_m s))) 0 0 (is_m s) (is_m big)) as (c & -> & Hc); [lia | lia | done | done | lia |].
    by exists c.
  - by apply (all_contained_spec big (is_m s) 0).
Qed.

(** ** Span *)

(** [q] is the part of [p] that comes first, at most [len] elements of it. *)
Definition first_part (q p : imap) (len : Z) : Prop :=
  (forall x, covers q x -> covers p x) /\ (forall x y, covers q y -> covers p x -> x <= y -> covers q x) /\
  total q <= len /\ (total q = len \/ forall x, covers p x -> covers q x).

Lemma first_part_all p len : total p <= len -> first_part p p len.
Proof. intros. split; [done |]. split; [done |]. split; [done |]. by right. Qed.

Lemma first_part_head lo s l p len : runs_from lo ((s, l) :: p) -> 0 < len <= l -> first_part [(s, len)] ((s, l) :: p) len.
Proof.
  intros Hr Hlen. pose proof Hr as (? & ? & ? & Hp).
  assert (Hq : forall x, covers [(s, len)] x <-> s <= x < s + len)
    by (intros x; rewrite covers_cons; pose proof (covers_nil x); cbn; tauto).
  split; [intros x Hx; apply Hq in Hx; apply covers_cons; left; cbn; lia |]. split.
  - intros x y Hy Hx Hxy. apply Hq in Hy. apply Hq. pose proof (covers_head _ _ _ _ _ Hr Hx). lia.
  - cbn. split; [lia |]. left. lia.
Qed.

Lemma first_part_cons lo s l q p len : runs_from lo ((s, l) :: p) -> first_part q p len ->
  first_part ((s, l) :: q) ((s, l) :: p) (l + len).
Proof.
  intros (Hs1 & Hs2 & Hs3 & Hp) (Hsub & Hclosed & Hlen & Hall). split; [| split; [| split]].
  - intros x. rewrite !covers_cons. naive_solver.
  - intros x y. rewrite !covers_cons. intros Hy [Hx | Hx] Hxy; [by left |]. right. pose proof (runs_from_covers _ _ _ Hp Hx).
    destruct Hy as [Hy | Hy]; [cbn in Hy; lia |]. by eapply Hclosed.
  - cbn. lia.
  - cbn. destruct Hall as [Hall | Hall]; [left; lia |]. right. intros x. rewrite !covers_cons. naive_solver.
Qed.

Lemma span_loop_spec acc lo p len :
  iset_ok acc -> (forall x, x ∈ acc -> x < lo) -> 0 <= lo -> runs_from lo p -> 0 <= len < 2 ^ 64 ->
  exists r q, span_loop acc p len = Ok r /\ iset_ok r /\ first_part q p len /\
    (forall x, x ∈ r <-> x ∈ acc \/ covers q x) /\ is_size r = is_size acc + total q.
Proof.
  revert acc lo len. induction p as [| [s l] p IH]; intros acc lo len Hacc Hlt Hlo Hr Hlen.
  { exists acc, []. split; [done |]. split; [done |]. split; [apply first_part_all; cbn; lia |].
    split; [intros x; pose proof (covers_nil x); tauto | cbn; lia]. }
  pose proof Hr as (? & ? & ? & Hp). cbn [span_loop]. destruct (Z.ltb_spec 0 len).
  2: { exists acc, []. split; [done |]. split; [done |]. split.
       - split; [intros x Hx; by apply covers_nil in Hx |]. split; [intros x y Hy; by apply covers_nil in Hy |].
         cbn. split; [lia |]. left. lia.
       - split; [intros x; pose proof (covers_nil x); tauto | cbn; lia]. }
  pose proof Hacc as [Hra Hsa]. destruct (Z.ltb_spec l len).
  - destruct (insert_spec acc s l) as (s1 & e & -> & Hs1 & Hx1 & _ & _ & _ & Hz1); [done | lia | lia | lia | |].
    { intros x Hx Hin. specialize (Hlt x Hin). lia. }
    res_simpl. rewrite (u64_id (len - l)) by lia. cbn [fst].
    destruct (IH s1 (s + l + 1) (len - l)) as (r & q & -> & Hok & Hfp & Hx & Hz); [done | | lia | done | lia |].
    { intros x [Hx | Hx]%Hx1; [specialize (Hlt x Hx); lia | lia]. }
    exists r, ((s, l) :: q). split; [done |]. split; [done |]. split.
    + replace len with (l + (len - l)) by lia. by eapply first_part_cons.
    + split; [intros x; rewrite Hx, Hx1, covers_cons; unfold elem_of, iset_elem_of; cbn; tauto |]. cbn. lia.
  - destruct (insert_spec acc s len) as (s1 & e & -> & Hs1 & Hx1 & _ & _ & _ & Hz1); [done | lia | lia | lia | |].
    { intros x Hx Hin. specialize (Hlt x Hin). lia. }
    res_simpl. exists s1, [(s, len)]. split; [done |]. split; [done |].
    split; [eapply first_part_head; [exact Hr | lia] |].
    split; [| cbn; lia]. intros x. rewrite Hx1, covers_cons. pose proof (covers_nil x).
    unfold elem_of, iset_elem_of. cbn. tauto.
Qed.

(** The elements of [m] from [start] on, when [b] is what [find_inc] leaves. *)
Lemma span_spec other start len : iset_ok other -> 0 <= start -> 0 < len -> start + len < 2 ^ 64 ->
  exists r, span_of other start len = Ok r /\ iset_ok r /\
    (forall x, x ∈ r -> x ∈ other /\ start <= x) /\
    (forall x y, y ∈ r -> x ∈ other -> start <= x <= y -> x ∈ r) /\
    is_size r <= len /\ (is_size r = len \/ forall x, x ∈ other -> start <= x -> x ∈ r).
Proof.
  intros [Hr _] H0 Hlen Hend. unfold span_of.
  destruct (find_inc_head (is_m other) start Hr) as (a & b & Em & -> & _ & Hc & Hb). res_simpl.
  assert (drop (length a) (is_m other) = b) as -> by (by rewrite Em, drop_app_length).
  assert (Hfp : forall r q p, is_size r = total q -> (forall x, x ∈ r <-> covers q x) -> first_part q p len ->
    (forall x, covers p x <-> x ∈ other /\ start <= x) ->
    (forall x, x ∈ r -> x ∈ other /\ start <= x) /\
    (forall x y, y ∈ r -> x ∈ other -> start <= x <= y -> x ∈ r) /\
    is_size r <= len /\ (is_size r = len \/ forall x, x ∈ other -> start <= x -> x ∈ r)).
  { intros r q p Hz Hx (Hsub & Hclosed & Hl & Hall) Hp. split; [| split; [| split; [lia |]]].
    - intros x Hxr. apply Hp, Hsub, Hx, Hxr.
    - intros x y Hy Ho Hxy. apply Hx. eapply Hclosed; [by apply Hx | apply Hp; split; [done | lia] | lia].
    - destruct Hall as [Hall | Hall]; [left; lia |]. right. intros x Ho Hs. by apply Hx, Hall, Hp. }
  rewrite Em in Hr. apply runs_from_app in Hr as [Hra Hrb]. pose proof (next_ge 0 a Hra) as Hge.
  destruct b as [| [s l] b].
  { exists iset_empty. split; [done |]. split; [done |]. eapply (Hfp iset_empty [] []); [done | done | |].
    - apply first_part_all. cbn. lia.
    - intros x. pose proof (covers_nil x). split; [done |]. intros [Hx Hs]. by apply Hc in Hx. }
  destruct Hb as [Ee He]. pose proof Hrb as (Hs1 & Hs2 & Hs3 & Hb').
  destruct (Z.ltb_spec s start) as [Hin | Hin].
  - rewrite Ee. unfold run_end in *. cbn [fst snd] in *. destruct (Z.ltb_spec (s + l) start); [lia |].
    rewrite (u64_id (start + len)), (u64_id (start - s)) by lia.
    (* the rest of the interval, then what follows it *)
    assert (Hp : forall x, covers ((start, s + l - start) :: b) x <-> x ∈ other /\ start <= x).
    { intros x. rewrite covers_cons. cbn. split.
      - intros [Hx | Hx].
        + split; [| lia]. apply Hc; [lia |]. apply covers_cons. left. cbn. lia.
        + pose proof (runs_from_covers _ _ _ Hb' Hx). split; [| lia]. apply Hc; [lia |]. apply covers_cons. by right.
      - intros [Ho Hs]. apply Hc in Ho; [| done]. apply covers_cons in Ho as [Ho | Ho]; cbn in Ho; [left; lia | by right]. }
    assert (Hrp : runs_from start ((start, s + l - start) :: b))
      by (cbn; replace (start + (s + l - start) + 1) with (s + l + 1) by lia; repeat split; (done || lia)).
    destruct (span_loop_spec iset_empty start ((start, s + l - start) :: b) len) as (r & q & E & Hok & Hq & Hx & Hz);
      [done | intros x Hx; by apply covers_nil in Hx | done | done | lia |].
    exists r. split; [| split; [done |]; eapply (Hfp r q); [cbn in Hz; lia | | exact Hq | done]].
    + cbn [span_loop] in E. destruct (Z.ltb_spec 0 len); [| lia].
      destruct (Z.ltb_spec (s + l) (start + len)), (Z.ltb_spec (s + l - start) len); try lia; [| done].
      replace (l - (start - s)) with (s + l - start) by lia. rewrite (u64_id (s + l - start)) by lia. done.
    + intros x. rewrite Hx. split; [intros [Hx' | ?]; [by apply covers_nil in Hx' | done] | by right].
  - assert (Hp : forall x, covers ((s, l) :: b) x <-> x ∈ other /\ start <= x).
    { intros x. split; [intros Hx; pose proof (covers_head _ _ _ _ _ Hrb Hx); split; [apply Hc; [lia | done] | lia] |].
      intros [Ho Hs]. by apply Hc. }
    destruct (span_loop_spec iset_empty (next 0 a) ((s, l) :: b) len) as (r & q & E & Hok & Hq & Hx & Hz);
      [done | intros x Hx; by apply covers_nil in Hx | lia | done | lia |].
    exists r. split; [done |]. split; [done |]. eapply (Hfp r q); [cbn in Hz; lia | | exact Hq | done].
    intros x. rewrite Hx. split; [intros [Hx' | ?]; [by apply covers_nil in Hx' | done] | by right].
Qed.

(** ** The contract *)

Lemma iset_ext s t : iset_ok s -> iset_ok t -> (forall x, x ∈ s <-> x ∈ t) -> s = t.
Proof.
  intros [Hrs Hss] [Hrt Hst] Hx. destruct s as [ms zs], t as [mt zt]. cbn in *.
  assert (ms = mt) as -> by (eapply runs_from_inj; [exact Hrs | exact Hrt | exact Hx]). by rewrite Hss, Hst.
Qed.

(** Insert: adding a range that is not in the set returns; the set gains
    exactly the range and keeps its invariant (ordered, merged intervals and the
    right size), and the interval reported to the caller is the one of the new set
    that contains the range. *)
Theorem iset_insert_correct s start len :
  iset_ok s -> 0 <= start -> 0 < len -> start + len < 2 ^ 64 ->
  (forall x, start <= x < start + len -> x ∉ s) ->
  exists s' e, iset_insert s start len = Ok (s', e) /\ iset_ok s' /\
    (forall x, x ∈ s' <-> x ∈ s \/ start <= x < start + len) /\
    is_size s' = is_size s + len /\ e ∈ is_m s' /\ e.1 <= start /\ start + len <= run_end e.
Proof.
  intros Hs H0 Hl He Hd. destruct (insert_spec s start len Hs H0 Hl He Hd) as (s' & e & E & Hok & Hx & ? & ? & ? & Hz).
  exists s', e. split; [done |]. split; [done |]. split; [done |]. split; [| done]. rewrite Hz. by rewrite (proj2 Hs).
Qed.

(** Erase: removing a range of the set returns; the set loses exactly the
    range and those remainders of the interval around it that the callback claims. *)
Theorem iset_erase_correct s start len claim :
  iset_ok s -> 0 < len -> (forall x, start <= x < start + len -> x ∈ s) ->
  exists s' pf ps, iset_erase s start len claim = Ok s' /\ iset_ok s' /\
    (pf, ps) ∈ is_m s /\ pf <= start /\ start + len <= pf + ps /\
    forall x, x ∈ s' <-> x ∈ s /\ ~ (start <= x < start + len) /\
      ~ (claims claim pf (start - pf) = true /\ pf <= x < start) /\
      ~ (claims claim (start + len) (pf + ps - (start + len)) = true /\ start + len <= x < pf + ps).
Proof. apply erase_spec. Qed.

(** C32. Set operations: [intersection_of], [union_of] and [subset_of] compute
    intersection, union and inclusion, whichever of their algorithms the sizes
    select; their loops end and no assertion fails.  The representation is
    canonical, so that [operator==] decides equality of sets. *)
Theorem iset_operations_correct a b :
  iset_ok a -> iset_ok b ->
  (exists r, intersection_of a b = Ok r /\ iset_ok r /\ forall x, x ∈ r <-> x ∈ a /\ x ∈ b) /\
  (exists r, union_of a b = Ok r /\ iset_ok r /\ forall x, x ∈ r <-> x ∈ a \/ x ∈ b) /\
  (exists c, subset_of a b = Ok c /\ (c = true <-> forall x, x ∈ a -> x ∈ b)) /\
  (a = b <-> forall x, x ∈ a <-> x ∈ b).
Proof.
  intros Ha Hb. split; [by apply intersection_spec |]. split; [by apply union_spec |].
  split; [by apply subset_spec |]. split; [by intros -> | by apply iset_ext].
Qed.

(** Span: [span_of] returns the first [len] elements of the set from [start]
    on, or all of them when there are fewer. *)
Theorem iset_span_correct other start len :
  iset_ok other -> 0 <= start -> 0 < len -> start + len < 2 ^ 64 ->
  exists r, span_of other start len = Ok r /\ iset_ok r /\
    (forall x, x ∈ r -> x ∈ other /\ start <= x) /\
    (forall x y, y ∈ r -> x ∈ other -> start <= x <= y -> x ∈ r) /\
    is_size r <= len /\ (is_size r = len \/ forall x, x ∈ other -> start <= x -> x ∈ r).
Proof. apply span_spec. Qed.

(** Erasing what was inserted restores the set, bit for bit. *)
Theorem iset_insert_erase s start len s' e :
  iset_ok s -> 0 <= start -> 0 < len -> start + len < 2 ^ 64 ->
  (forall x, start <= x < start + len -> x ∉ s) -> iset_insert s start len = Ok (s', e) ->
  iset_erase s' start len None = Ok s.
Proof.
  intros Hs H0 Hl He Hd Hins. destruct (insert_spec s start len Hs H0 Hl He Hd) as (s1 & e1 & E & Hok & Hx & _).
  rewrite E in Hins. injection Hins as -> ->.
  destruct (erase_spec s' start len None Hok Hl) as (s2 & pf & ps & -> & Hok2 & _ & _ & _ & Hx2).
  { intros x Hxr. apply Hx. by right. }
  f_equal. apply iset_ext; [done | done |]. intros x. rewrite Hx2, Hx. cbn [claims]. specialize (Hd x).
  unfold elem_of, iset_elem_of in *. intuition congruence.
Qed.

(** Overlapping inserts are not always caught: when the new range touches the
    interval before it, nothing checks that it stays clear of the interval behind
    it.  Inserting 5~4 into {0~5, 8~2} returns a set whose intervals overlap, where
    inserting the same range into {8~2} fails the assertion. *)
Theorem iset_insert_overlap_uncaught :
  iset_ok (of_map [(0, 5); (8, 2)]) /\
  iset_insert (of_map [(0, 5); (8, 2)]) 5 4 = Ok (mk_iset [(0, 9); (8, 2)] 11, (0, 9)) /\
  ~ iset_ok (mk_iset [(0, 9); (8, 2)] 11) /\
  iset_insert (of_map [(8, 2)]) 5 4 = Fault.
Proof.
  split; [split; [cbn; lia | done] |]. split; [done |]. split; [| done]. intros [Hr _]. cbn in Hr. lia.
Qed.

Definition ex_set : interval_set := of_map [(0, 5); (8, 2); (20, 10)].

Lemma ex_set_ok : iset_ok ex_set.
Proof. split; [cbn; lia | done]. Qed.

Lemma ex_set_elem x : x ∈ ex_set <-> 0 <= x < 5 \/ 8 <= x < 10 \/ 20 <= x < 30.
Proof.
  unfold elem_of, iset_elem_of. cbn. rewrite !covers_cons. cbn. pose proof (covers_nil x). intuition lia.
Qed.

Lemma iset_insert_correct_witness :
  exists s' e, iset_insert ex_set 5 3 = Ok (s', e) /\ iset_ok s' /\
    (forall x, x ∈ s' <-> x ∈ ex_set \/ 5 <= x < 5 + 3) /\
    is_size s' = is_size ex_set + 3 /\ e ∈ is_m s' /\ e.1 <= 5 /\ 5 + 3 <= run_end e.
Proof.
  apply (iset_insert_correct ex_set 5 3); [apply ex_set_ok | lia | lia | lia |].
  intros x Hx. rewrite ex_set_elem. lia.
Defined.

Lemma iset_erase_correct_witness :
  exists s' pf ps, iset_erase ex_set 22 3 (Some (fun x _ => x =? 25)) = Ok s' /\ iset_ok s' /\
    (pf, ps) ∈ is_m ex_set /\ pf <= 22 /\ 22 + 3 <= pf + ps /\
    forall x, x ∈ s' <-> x ∈ ex_set /\ ~ (22 <= x < 22 + 3) /\
      ~ (claims (Some (fun x _ => x =? 25)) pf (22 - pf) = true /\ pf <= x < 22) /\
      ~ (claims (Some (fun x _ => x =? 25)) (22 + 3) (pf + ps - (22 + 3)) = true /\ 22 + 3 <= x < pf + ps).
Proof.
  apply (iset_erase_correct ex_set 22 3 (Some (fun x _ => x =? 25))); [apply ex_set_ok | lia |].
  intros x Hx. rewrite ex_set_elem. lia.
Defined.

Lemma iset_operations_correct_witness :
  let b := of_map [(3, 6)] in
  (exists r, intersection_of ex_set b = Ok r /\ iset_ok r /\ forall x, x ∈ r <-> x ∈ ex_set /\ x ∈ b) /\
  (exists r, union_of ex_set b = Ok r /\ iset_ok r /\ forall x, x ∈ r <-> x ∈ ex_set \/ x ∈ b) /\
  (exists c, subset_of ex_set b = Ok c /\ (c = true <-> forall x, x ∈ ex_set -> x ∈ b)) /\
  (ex_set = b <-> forall x, x ∈ ex_set <-> x ∈ b).
Proof.
  apply (iset_operations_correct ex_set (of_map [(3, 6)])); [apply ex_set_ok | split; [cbn; lia | done]].
Defined.

Lemma iset_span_correct_witness :
  exists r, span_of ex_set 3 6 = Ok r /\ iset_ok r /\
    (forall x, x ∈ r -> x ∈ ex_set /\ 3 <= x) /\
    (forall x y, y ∈ r -> x ∈ ex_set -> 3 <= x <= y -> x ∈ r) /\
    is_size r <= 6 /\ (is_size r = 6 \/ forall x, x ∈ ex_set -> 3 <= x -> x ∈ r).
Proof. apply (iset_span_correct ex_set 3 6); [apply ex_set_ok | lia | lia | lia]. Defined.

Lemma iset_insert_erase_witness :
  iset_erase (of_map [(0, 10); (20, 10)]) 5 3 None = Ok ex_set.
Proof.
  apply (iset_insert_erase ex_set 5 3 (of_map [(0, 10); (20, 10)]) (0, 10)); [apply ex_set_ok | lia | lia | lia | | reflexivity].
  intros x Hx. rewrite ex_set_elem. lia.
Defined.
