(* ===== verification/Striper.v ===== *)
(** * Striping a file over objects: src/src/osdc/Striper.cc, osdc/StriperTypes.h,
    include/fs_types.h and common/fs_types.cc

    A file is cut into blocks of [stripe_unit] bytes which are dealt to
    [stripe_count] objects in turn until these objects are [object_size] bytes
    long; then the next set of objects is started.  A division by zero, a failed
    [ceph_assert] and an exception of [buffer::list] are a [Fault].  A
    [bufferlist] is the list of its bytes, a [std::map] the list of its entries
    in key order. *)

From S2P Require Import Prelude OsdMap.

(** ** The layout *)

Record file_layout_t : Type := mk_layout {
  stripe_unit : Z;
  stripe_count : Z;
  object_size : Z;
  layout_pool_id : Z;
  layout_pool_ns : list Z;
}.

Definition CEPH_MIN_STRIPE_UNIT : Z := 65536.

Definition get_period (layout : file_layout_t) : Z :=
  u64 (stripe_count layout * object_size layout).

Definition is_valid (layout : file_layout_t) : bool :=
  if (stripe_unit layout =? 0) || negb (Z.land (stripe_unit layout) (CEPH_MIN_STRIPE_UNIT - 1) =? 0)
  then false
  else if (object_size layout =? 0) || negb (Z.land (object_size layout) (CEPH_MIN_STRIPE_UNIT - 1) =? 0)
  then false
  else if (object_size layout <? stripe_unit layout)
          || negb (object_size layout mod stripe_unit layout =? 0)
  then false
  else if stripe_count layout =? 0 then false
  else true.

(** [a / b] and [a % b] on unsigned operands. *)
Definition udiv (a b : Z) : res Z := if b =? 0 then Fault else Ok (a / b).

Definition umod (a b : Z) : res Z := if b =? 0 then Fault else Ok (a mod b).

Definition ensure (b : bool) : res unit := if b then Ok tt else Fault.

(** ** From objects to the file *)

Definition get_file_offset (layout : file_layout_t) (objectno off : Z) : res Z :=
  let object_size := object_size layout in
  let su := stripe_unit layout in
  let stripe_count := stripe_count layout in
  _ ← ensure (su <=? object_size);
  stripes_per_object ← udiv object_size su;
  off_in_block ← umod off su;
  stripepos ← umod objectno stripe_count;
  objectsetno ← udiv objectno stripe_count;
  row ← udiv off su;
  let stripeno := u64 (row + u64 (objectsetno * stripes_per_object)) in
  let blockno := u64 (u64 (stripeno * stripe_count) + stripepos) in
  mret (u64 (u64 (blockno * su) + off_in_block)).

(** The loop of [extent_to_file]; the extents are pushed at the back. *)
Fixpoint extent_to_file_loop (fuel : nat) (su stripe_count stripes_per_object objectno : Z)
    (off off_in_block len : Z) (extents : list (Z * Z)) : res (list (Z * Z)) :=
  match fuel with
  | O => NoFuel
  | S fuel =>
      if negb (0 <? len) then mret extents
      else
        stripepos ← umod objectno stripe_count;
        objectsetno ← udiv objectno stripe_count;
        row ← udiv off su;
        let stripeno := u64 (row + u64 (objectsetno * stripes_per_object)) in
        let blockno := u64 (u64 (stripeno * stripe_count) + stripepos) in
        let extent_off := u64 (u64 (blockno * su) + off_in_block) in
        let extent_len := Z.min len (u64 (su - off_in_block)) in
        extent_to_file_loop fuel su stripe_count stripes_per_object objectno
          (u64 (off + extent_len)) 0 (u64 (len - extent_len))
          (extents ++ [(extent_off, extent_len)])
  end.

(** A round takes a whole block, apart from the first and the last one. *)
Definition rounds (len su : Z) : nat := Z.to_nat (len / su + 3).

Definition extent_to_file (layout : file_layout_t) (objectno off len : Z)
    (extents : list (Z * Z)) : res (list (Z * Z)) :=
  let object_size := object_size layout in
  let su := stripe_unit layout in
  let stripe_count := stripe_count layout in
  _ ← ensure (su <=? object_size);
  stripes_per_object ← udiv object_size su;
  off_in_block ← umod off su;
  extent_to_file_loop (rounds len su) su stripe_count stripes_per_object objectno
    off off_in_block len extents.

Definition object_truncate_size (layout : file_layout_t) (objectno trunc_size : Z) : res Z :=
  if (trunc_size =? 0) || (trunc_size =? u64 (-1)) then mret trunc_size
  else
    let object_size := object_size layout in
    let su := stripe_unit layout in
    let stripe_count := stripe_count layout in
    _ ← ensure (su <=? object_size);
    stripes_per_object ← udiv object_size su;
    objectsetno ← udiv objectno stripe_count;
    trunc_object ← udiv trunc_size object_size;
    trunc_objectsetno ← udiv trunc_object stripe_count;
    if trunc_objectsetno <? objectsetno then mret 0
    else if objectsetno <? trunc_objectsetno then mret object_size
    else
      trunc_blockno ← udiv trunc_size su;
      trunc_stripeno ← udiv trunc_blockno stripe_count;
      trunc_stripepos ← umod trunc_blockno stripe_count;
      let trunc_objectno := u64 (u64 (trunc_objectsetno * stripe_count) + trunc_stripepos) in
      trunc_row ← umod trunc_stripeno stripes_per_object;
      if objectno <? trunc_objectno then mret (u64 (u64 (trunc_row + 1) * su))
      else if trunc_objectno <? objectno then mret (u64 (trunc_row * su))
      else
        trunc_off ← umod trunc_size su;
        mret (u64 (u64 (trunc_row * su) + trunc_off)).

Definition get_num_objects (layout : file_layout_t) (size : Z) : res Z :=
  let stripe_unit := stripe_unit layout in
  let stripe_count := stripe_count layout in
  let period := get_period layout in
  num_periods ← udiv (u64 (u64 (size + period) - 1)) period;
  remainder_bytes ← umod size period;
  remainder_objs ←
    (if (0 <? remainder_bytes) && (remainder_bytes <? u64 (stripe_count * stripe_unit)) then
       objs ← udiv (u64 (u64 (remainder_bytes + stripe_unit) - 1)) stripe_unit;
       mret (u64 (stripe_count - objs))
     else mret 0);
  mret (u64 (u64 (num_periods * stripe_count) - remainder_objs)).

(** ** From the file to objects *)

Record LightweightObjectExtent : Type := mk_extent {
  object_no : Z;
  ex_offset : Z;
  ex_length : Z;
  truncate_size : Z;
  buffer_extents : list (Z * Z);
}.

(** [std::upper_bound] with [OrderByObject] on extents in the order of their
    objects: the position of the first extent of a later object. *)
Fixpoint upper_bound (extents : list LightweightObjectExtent) (objectno : Z) : nat :=
  match extents with
  | [] => O
  | ex :: extents => if objectno <? object_no ex then O else S (upper_bound extents objectno)
  end.

(** The block that holds [cur]: its object, the place of [cur] in the object
    and the bytes left from there to the end of the block. *)
Definition layout_block (su stripe_count stripes_per_object cur : Z) : res (Z * Z * Z) :=
  blockno ← udiv cur su;
  stripeno ← udiv blockno stripe_count;
  stripepos ← umod blockno stripe_count;
  objectsetno ← udiv stripeno stripes_per_object;
  let objectno := u64 (u64 (objectsetno * stripe_count) + stripepos) in
  row ← umod stripeno stripes_per_object;
  let block_start := u64 (row * su) in
  block_off ← umod cur su;
  let max := u64 (su - block_off) in
  mret (objectno, u64 (block_start + block_off), max).

(** The extent the bytes are put into: the one that ends where they start, or a
    new one behind the extents of the same and the earlier objects. *)
Definition extend_extents (layout : file_layout_t) (trunc_size : Z)
    (extents : list LightweightObjectExtent) (objectno x_offset x_len buf : Z)
    : res (list LightweightObjectExtent) :=
  let it := upper_bound extents objectno in
  let emplace :=
    t ← object_truncate_size layout objectno trunc_size;
    mret (take it extents ++ mk_extent objectno x_offset x_len t [(buf, x_len)] :: drop it extents) in
  match it with
  | O => emplace
  | S p =>
      match extents !! p with
      | None => Fault
      | Some ex =>
          if negb (object_no ex =? objectno) || negb (u64 (ex_offset ex + ex_length ex) =? x_offset)
          then emplace
          else mret (<[p := mk_extent (object_no ex) (ex_offset ex) (u64 (ex_length ex + x_len))
                              (truncate_size ex) (buffer_extents ex ++ [(buf, x_len)])]> extents)
      end
  end.

Section FileToExtents.
Context (layout : file_layout_t) (offset trunc_size buffer_offset : Z).

Fixpoint file_to_extents_loop (fuel : nat) (su stripe_count stripes_per_object cur left : Z)
    (extents : list LightweightObjectExtent) : res (list LightweightObjectExtent) :=
  match fuel with
  | O => NoFuel
  | S fuel =>
      if negb (0 <? left) then mret extents
      else
        '(objectno, x_offset, max) ← layout_block su stripe_count stripes_per_object cur;
        let x_len := if max <? left then max else left in
        extents ← extend_extents layout trunc_size extents objectno x_offset x_len
                    (u64 (u64 (cur - offset) + buffer_offset));
        file_to_extents_loop fuel su stripe_count stripes_per_object
          (u64 (cur + x_len)) (u64 (left - x_len)) extents
  end.

Definition file_to_extents (len : Z) (extents : list LightweightObjectExtent)
    : res (list LightweightObjectExtent) :=
  _ ← ensure (0 <? len);
  let object_size := object_size layout in
  let stripe_count := stripe_count layout in
  _ ← ensure (stripe_unit layout <=? object_size);
  let su := if stripe_count =? 1 then object_size else stripe_unit layout in
  stripes_per_object ← udiv object_size su;
  file_to_extents_loop (rounds len su) su stripe_count stripes_per_object offset len extents.

End FileToExtents.

(** ** The extents by object name

    [format_oid] applies a [printf] format to the object number; the format is
    the caller's, so that its effect is an argument here. *)

Record ObjectExtent : Type := mk_object_extent {
  oe_oid : list Z;
  oe_objectno : Z;
  oe_offset : Z;
  oe_length : Z;
  oe_truncate_size : Z;
  oe_oloc : object_locator;
  oe_buffer_extents : list (Z * Z);
}.

Definition file_to_object_locator (layout : file_layout_t) : object_locator :=
  mk_loc (layout_pool_id layout) [] (layout_pool_ns layout) (-1).

Section Heavyweight.
Context (format_oid : Z -> list Z) (layout : file_layout_t).

Definition object_extent_of (ex : LightweightObjectExtent) : ObjectExtent :=
  mk_object_extent (format_oid (object_no ex)) (object_no ex) (ex_offset ex) (ex_length ex)
    (truncate_size ex) (file_to_object_locator layout) (buffer_extents ex).

Definition file_to_extents_vec (offset len trunc_size : Z) (extents : list ObjectExtent)
    (buffer_offset : Z) : res (list ObjectExtent) :=
  lightweight ← file_to_extents layout offset trunc_size buffer_offset len [];
  mret (extents ++ (object_extent_of <$> lightweight)).

Definition file_to_extents_map (offset len trunc_size : Z)
    (object_extents : gmap (list Z) (list ObjectExtent)) (buffer_offset : Z)
    : res (gmap (list Z) (list ObjectExtent)) :=
  lightweight ← file_to_extents layout offset trunc_size buffer_offset len [];
  mret (foldl (fun m ex =>
          let oid := format_oid (object_no ex) in
          <[oid := default [] (m !! oid) ++ [object_extent_of ex]]> m) object_extents lightweight).

End Heavyweight.

(** ** Putting a read together: [StripedReadResult] *)

(** Position in the buffer -> data and intended length. *)
Abbreviation partial_map := (list (Z * (list Z * Z))).

Record StripedReadResult : Type := mk_result {
  partial : partial_map;
  total_intended_len : Z;
}.

Definition no_result : StripedReadResult := mk_result [] 0.

Definition partial_at (r : StripedReadResult) (k : Z) : list Z * Z := map_at ([], 0) (partial r) k.

Definition put_partial (r : StripedReadResult) (k : Z) (data : list Z) (intended : Z)
    : StripedReadResult :=
  mk_result (map_set (partial r) k (data, intended)) (u64 (total_intended_len r + intended)).

(** A [ceph::buffer::list] counts its bytes in 32 bits, and its operations take
    [unsigned] lengths. *)
Definition bl_length (bl : list Z) : Z := u32 (zlen bl).

Definition zero_bytes (n : Z) : list Z := replicate (Z.to_nat n) 0.

Definition append_zero (bl : list Z) (len : Z) : list Z := bl ++ zero_bytes (u32 len).

(** It asserts that the length does not overflow. *)
Definition claim_append (bl other : list Z) : res (list Z) :=
  _ ← ensure (bl_length bl <=? u32 (bl_length bl + bl_length other));
  mret (bl ++ other).

(** [bl.splice(0, len, &dst)]: the bytes for [dst] and the rest of [bl]. *)
Definition splice (bl : list Z) (len : Z) : res (list Z * list Z) :=
  let len := u32 len in
  if len =? 0 then mret ([], bl)
  else if (bl_length bl =? 0) || (zlen bl <? len) then Fault
  else mret (take (Z.to_nat len) bl, drop (Z.to_nat len) bl).

(** The two overloads of [add_partial_result]; the remaining bytes of [bl] are
    handed back. *)
Fixpoint add_partial_result (r : StripedReadResult) (bl : list Z) (extents : list (Z * Z))
    : res (StripedReadResult * list Z) :=
  match extents with
  | [] => mret (r, bl)
  | p :: extents =>
      let actual := Z.min (bl_length bl) p.2 in
      '(data, bl) ← splice bl actual;
      add_partial_result (put_partial r p.1 ((partial_at r p.1).1 ++ data) p.2) bl extents
  end.

Definition add_partial_result_move (r : StripedReadResult) (bl : list Z) (extents : list (Z * Z))
    : res (StripedReadResult * list Z) :=
  match extents with
  | [be] => mret (put_partial r be.1 bl be.2, [])
  | _ => add_partial_result r bl extents
  end.

(** The loop of the anonymous [add_partial_sparse_result] for one buffer extent
    [tofs~tlen].  Each round steps to the next entry of the extent map or
    finishes the buffer extent, so that the recursion follows the entries [s]
    that are left. *)
Fixpoint sparse_loop (r : StripedReadResult) (bl : list Z) (s : list (Z * Z))
    (bl_off tofs tlen : Z) : res (StripedReadResult * list Z * list (Z * Z) * Z) :=
  if negb (0 <? tlen) then mret (r, bl, s, bl_off)
  else
    match s with
    | [] => mret (put_partial r tofs (partial_at r tofs).1 tlen, bl, [], bl_off)
    | e :: s' =>
        if e.2 =? 0 then sparse_loop r bl s' bl_off tofs tlen
        else
          let gap := if bl_off <? e.1 then Z.min (u64 (e.1 - bl_off)) tlen else 0 in
          let r := if bl_off <? e.1 then put_partial r tofs (partial_at r tofs).1 gap else r in
          let bl_off := u64 (bl_off + gap) in
          let tofs := u64 (tofs + gap) in
          let tlen := u64 (tlen - gap) in
          if tlen =? 0 then mret (r, bl, s, bl_off)
          else
            _ ← ensure (e.1 <=? bl_off);
            let left := u64 (u64 (e.1 + e.2) - bl_off) in
            let actual := Z.min left tlen in
            '(r, bl, bl_off, tofs, tlen) ←
              (if 0 <? actual then
                 '(data, bl) ← splice bl actual;
                 mret (put_partial r tofs ((partial_at r tofs).1 ++ data) actual, bl,
                       u64 (bl_off + actual), u64 (tofs + actual), u64 (tlen - actual))
               else mret (r, bl, bl_off, tofs, tlen));
            if actual =? left then sparse_loop r bl s' bl_off tofs tlen
            else mret (r, bl, s, bl_off)
    end.

Fixpoint sparse_extents (r : StripedReadResult) (bl : list Z) (s : list (Z * Z)) (bl_off : Z)
    (extents : list (Z * Z)) : res StripedReadResult :=
  match extents with
  | [] => mret r
  | be :: extents =>
      '(r, bl, s, bl_off) ← sparse_loop r bl s bl_off be.1 be.2;
      sparse_extents r bl s bl_off extents
  end.

Definition add_partial_sparse_result (r : StripedReadResult) (bl : list Z)
    (bl_map : list (Z * Z)) (bl_off : Z) (extents : list (Z * Z)) : res StripedReadResult :=
  match bl_map with
  | [] => '(r, _) ← add_partial_result r bl extents; mret r
  | _ => sparse_extents r bl bl_map bl_off extents
  end.

(** The overload that takes [bl] over. *)
Definition add_partial_sparse_result_move (r : StripedReadResult) (bl : list Z)
    (bl_map : list (Z * Z)) (bl_off : Z) (extents : list (Z * Z)) : res StripedReadResult :=
  match bl_map with
  | [] => '(r, _) ← add_partial_result_move r bl extents; mret r
  | _ => sparse_extents r bl bl_map bl_off extents
  end.

(** One round of the forward [assemble_result]; [zeros] precede the current
    position. *)
Definition assemble_step (bl : list Z) (zeros : Z) (p : Z * (list Z * Z)) : res (list Z * Z) :=
  let got := bl_length p.2.1 in
  let expect := p.2.2 in
  '(bl, zeros) ←
    (if negb (got =? 0) then
       let '(bl, zeros) :=
         if negb (zeros =? 0) then (append_zero bl zeros, 0) else (bl, zeros) in
       bl ← claim_append bl p.2.1;
       mret (bl, zeros)
     else mret (bl, zeros));
  mret (bl, u64 (zeros + u64 (expect - got))).

Fixpoint assemble_loop (ps : partial_map) (bl : list Z) (zeros : Z) : res (list Z * Z) :=
  match ps with
  | [] => mret (bl, zeros)
  | p :: ps => '(bl, zeros) ← assemble_step bl zeros p; assemble_loop ps bl zeros
  end.

Definition assemble_result (r : StripedReadResult) (bl : list Z) (zero_tail : bool)
    : res (list Z * StripedReadResult) :=
  '(bl, zeros) ← assemble_loop (partial r) bl 0;
  mret (if zero_tail && negb (zeros =? 0) then append_zero bl zeros else bl,
        mk_result [] (total_intended_len r)).

(** Writing [data] at [pos] of a [char] buffer. *)
Definition write_at (buffer : list Z) (pos : Z) (data : list Z) : res (list Z) :=
  if (pos <? 0) || (zlen buffer <? pos + zlen data) then Fault
  else mret (take (Z.to_nat pos) buffer ++ data ++ drop (Z.to_nat (pos + zlen data)) buffer).

(** The backward [assemble_result] over the reversed map. *)
Fixpoint assemble_back (ps : partial_map) (buffer : list Z) (curr e : Z) : res (list Z * Z) :=
  match ps with
  | [] => mret (buffer, curr)
  | p :: ps =>
      _ ← ensure (p.1 =? u64 (e - p.2.2));
      let len := bl_length p.2.1 in
      _ ← ensure (p.2.2 <=? curr);
      let curr := u64 (curr - p.2.2) in
      buffer ← write_at buffer curr (take (Z.to_nat len) p.2.1);
      buffer ← (if len <? p.2.2
                then write_at buffer (curr + len) (zero_bytes (p.2.2 - len))
                else mret buffer);
      assemble_back ps buffer curr p.1
  end.

Definition assemble_buffer (r : StripedReadResult) (buffer : list Z) (length : Z)
    : res (list Z * StripedReadResult) :=
  _ ← ensure (length =? total_intended_len r);
  match rev (partial r) with
  | [] => mret (buffer, r)
  | (p :: _) as ps =>
      '(buffer, curr) ← assemble_back ps buffer length (u64 (p.1 + p.2.2));
      _ ← ensure (curr =? 0);
      mret (buffer, mk_result [] (total_intended_len r))
  end.

(** The sparse [assemble_result]: the data and where it goes. *)
Fixpoint sparse_parts (ps : partial_map) (extent_map : list (Z * Z)) (bl : list Z)
    : res (list (Z * Z) * list Z) :=
  match ps with
  | [] => mret (extent_map, bl)
  | p :: ps =>
      let len := bl_length p.2.1 in
      if 0 <? len then
        bl ← claim_append bl p.2.1;
        sparse_parts ps (map_set extent_map p.1 len) bl
      else sparse_parts ps extent_map bl
  end.

Definition assemble_sparse (r : StripedReadResult) (extent_map : list (Z * Z)) (bl : list Z)
    : res (list (Z * Z) * list Z * Z) :=
  '(extent_map, bl) ← sparse_parts (partial r) extent_map bl;
  mret (extent_map, bl, total_intended_len r).
