(* ===== verification/StriperSpec.v ===== *)
(** * The geometry of a striped file

    [file_off] and [obj_of]/[obj_off] are the two directions of the mapping
    between the bytes of a file and the bytes of its objects over unbounded
    integers.  They are inverse to each other and the routines of Striper.v
    compute them on 64-bit words. *)

From S2P Require Import Prelude OsdMap Striper.

(** ** Division *)

Lemma divmod_unique a b n : 0 <= b < n -> (a * n + b) / n = a /\ (a * n + b) mod n = b.
Proof.
  intros H. split.
  - rewrite Z.div_add_l, (Z.div_small b) by lia. lia.
  - rewrite Z.add_comm, Z.mod_add, Z.mod_small by lia. done.
Qed.

Lemma divmod_split a n : 0 < n -> a = (a / n) * n + a mod n /\ 0 <= a mod n < n.
Proof. intros H. pose proof (Z.div_mod a n). pose proof (Z.mod_pos_bound a n). lia. Qed.

Lemma mul_ge a b : 0 <= a -> 0 < b -> a <= a * b.
Proof. nia. Qed.

Lemma udiv_Ok a b : 0 < b -> udiv a b = Ok (a / b).
Proof. intros H. unfold udiv. by destruct (Z.eqb_spec b 0); [lia |]. Qed.

Lemma umod_Ok a b : 0 < b -> umod a b = Ok (a mod b).
Proof. intros H. unfold umod. by destruct (Z.eqb_spec b 0); [lia |]. Qed.

Lemma ensure_Ok b : b = true -> ensure b = Ok tt.
Proof. by intros ->. Qed.

(** [run_words] runs the checked divisions, and drops the truncations of values
    that fit. *)
Ltac run_words :=
  repeat (first [rewrite udiv_Ok by lia | rewrite umod_Ok by lia | rewrite ensure_Ok by lia]; res_simpl).

Ltac words_fit :=
  repeat match goal with
  | |- context [u64 ?z] =>
      lazymatch z with context [u64 _] => fail | _ => rewrite (u64_id z) by lia end
  end.

(** ** The two mappings *)

Section Geometry.
Context (su sc spo : Z) (Hsu : 0 < su) (Hsc : 0 < sc) (Hspo : 0 < spo).

Definition file_off (o x : Z) : Z :=
  ((x / su + o / sc * spo) * sc + o mod sc) * su + x mod su.

Definition obj_of (f : Z) : Z := f / su / sc / spo * sc + (f / su) mod sc.

Definition obj_off (f : Z) : Z := (f / su / sc) mod spo * su + f mod su.

Lemma obj_off_range f : 0 <= obj_off f < spo * su.
Proof using Hsu Hspo.
  unfold obj_off. pose proof (Z.mod_pos_bound (f / su / sc) spo Hspo).
  pose proof (Z.mod_pos_bound f su Hsu). nia.
Qed.

Lemma obj_of_nonneg f : 0 <= f -> 0 <= obj_of f.
Proof using Hsu Hsc Hspo.
  intros Hf. unfold obj_of. pose proof (Z.mod_pos_bound (f / su) sc Hsc).
  assert (0 <= f / su / sc / spo) by (repeat apply Z.div_pos; lia). nia.
Qed.

Lemma file_off_obj f : file_off (obj_of f) (obj_off f) = f.
Proof using Hsu Hsc Hspo.
  unfold file_off, obj_of, obj_off.
  destruct (divmod_unique (f / su / sc / spo) ((f / su) mod sc) sc) as [-> ->];
    [apply Z.mod_pos_bound; lia |].
  destruct (divmod_unique ((f / su / sc) mod spo) (f mod su) su) as [-> ->];
    [apply Z.mod_pos_bound; lia |].
  destruct (divmod_split f su Hsu), (divmod_split (f / su) sc Hsc),
    (divmod_split (f / su / sc) spo Hspo). nia.
Qed.

Lemma obj_file_off o x : 0 <= x < spo * su -> obj_of (file_off o x) = o /\ obj_off (file_off o x) = x.
Proof using Hsu Hsc Hspo.
  intros Hx. unfold file_off, obj_of, obj_off.
  destruct (divmod_split x su Hsu) as [Ex Hxm], (divmod_split o sc Hsc) as [Eo Hom].
  assert (Hrow : 0 <= x / su < spo).
  { split; [apply Z.div_pos; lia | apply Z.div_lt_upper_bound; lia]. }
  destruct (divmod_unique ((x / su + o / sc * spo) * sc + o mod sc) (x mod su) su) as [-> ->];
    [lia |].
  destruct (divmod_unique (x / su + o / sc * spo) (o mod sc) sc) as [-> ->]; [lia |].
  rewrite (Z.add_comm (x / su)).
  destruct (divmod_unique (o / sc) (x / su) spo) as [-> ->]; [lia |]. lia.
Qed.

Lemma file_off_lt o x y : 0 <= x -> x < y -> file_off o x < file_off o y.
Proof using Hsu Hsc.
  intros Hx Hxy. unfold file_off.
  destruct (divmod_split x su Hsu), (divmod_split y su Hsu).
  assert (Hq : x / su <= y / su) by (apply Z.div_le_mono; lia).
  destruct (decide (x / su = y / su)) as [E | Hne]; [rewrite E in *; nia |].
  assert ((x / su + o / sc * spo + 1) * sc <= (y / su + o / sc * spo) * sc)
    by (apply Z.mul_le_mono_nonneg_r; lia).
  assert (((x / su + o / sc * spo) * sc + o mod sc + 1) * su <= ((y / su + o / sc * spo) * sc + o mod sc) * su)
    by (apply Z.mul_le_mono_nonneg_r; lia). lia.
Qed.

Lemma file_off_le o x y : 0 <= x -> x <= y -> file_off o x <= file_off o y.
Proof using Hsu Hsc.
  intros Hx Hxy. destruct (decide (x = y)) as [-> | Hne]; [lia |].
  pose proof (file_off_lt o x y). lia.
Qed.

Lemma file_off_nonneg o x : 0 <= o -> 0 <= x -> 0 <= file_off o x.
Proof using Hsu Hsc Hspo.
  intros Ho Hx. unfold file_off. pose proof (Z.mod_pos_bound o sc Hsc).
  pose proof (Z.mod_pos_bound x su Hsu). pose proof (Z.div_pos o sc). pose proof (Z.div_pos x su).
  assert (0 <= o / sc * spo) by (apply Z.mul_nonneg_nonneg; lia).
  assert (0 <= (x / su + o / sc * spo) * sc) by (apply Z.mul_nonneg_nonneg; lia). nia.
Qed.

(** Inside a block the two sides advance together. *)
Lemma obj_in_block f i : 0 <= i < su - f mod su ->
  obj_of (f + i) = obj_of f /\ obj_off (f + i) = obj_off f + i.
Proof using Hsu.
  intros Hi. destruct (divmod_split f su Hsu) as [E Hm].
  destruct (divmod_unique (f / su) (f mod su + i) su) as [Hq Hr]; [lia |].
  replace (f / su * su + (f mod su + i)) with (f + i) in * by lia.
  unfold obj_of, obj_off. rewrite Hq, Hr. split; [done | lia].
Qed.

Lemma file_off_in_block o x i : 0 <= i < su - x mod su -> file_off o (x + i) = file_off o x + i.
Proof using Hsu.
  intros Hi. destruct (divmod_split x su Hsu) as [E Hm].
  destruct (divmod_unique (x / su) (x mod su + i) su) as [Hq Hr]; [lia |].
  replace (x / su * su + (x mod su + i)) with (x + i) in * by lia.
  unfold file_off. rewrite Hq, Hr. lia.
Qed.

(** The intermediate values of the word computations are below the results. *)
Lemma file_off_bounds o x M : 0 <= o -> 0 <= x -> file_off o x < M ->
  0 <= o / sc * spo < M /\ 0 <= x / su + o / sc * spo < M /\
  0 <= (x / su + o / sc * spo) * sc < M /\
  0 <= (x / su + o / sc * spo) * sc + o mod sc < M /\
  0 <= ((x / su + o / sc * spo) * sc + o mod sc) * su < M /\ 0 <= file_off o x < M.
Proof using Hsu Hsc Hspo.
  intros Ho Hx HM. pose proof (file_off_nonneg o x Ho Hx). unfold file_off in *.
  pose proof (Z.mod_pos_bound o sc Hsc). pose proof (Z.mod_pos_bound x su Hsu).
  pose proof (Z.div_pos o sc). pose proof (Z.div_pos x su).
  assert (0 <= o / sc * spo) by (apply Z.mul_nonneg_nonneg; lia).
  pose proof (mul_ge (x / su + o / sc * spo) sc).
  pose proof (mul_ge ((x / su + o / sc * spo) * sc + o mod sc) su). lia.
Qed.

Lemma obj_bounds f M : 0 <= f < M ->
  0 <= f / su / sc / spo * sc < M /\ 0 <= obj_of f < M /\
  0 <= (f / su / sc) mod spo * su < M /\ 0 <= obj_off f < M.
Proof using Hsu Hsc Hspo.
  intros Hf. destruct (divmod_split f su Hsu), (divmod_split (f / su) sc Hsc),
    (divmod_split (f / su / sc) spo Hspo).
  assert (0 <= f / su) by (apply Z.div_pos; lia).
  assert (0 <= f / su / sc) by (apply Z.div_pos; lia).
  assert (0 <= f / su / sc / spo) by (apply Z.div_pos; lia).
  pose proof (mul_ge (f / su / sc / spo) spo). pose proof (mul_ge (f / su / sc) sc).
  pose proof (mul_ge (f / su) su). unfold obj_of, obj_off.
  assert (f / su / sc / spo * sc <= f / su / sc * sc) by (apply Z.mul_le_mono_nonneg_r; lia).
  assert ((f / su / sc) mod spo * su <= f / su * su).
  { apply Z.mul_le_mono_nonneg_r; nia. }
  nia.
Qed.

Lemma layout_block_Ok f : 0 <= f < 2 ^ 64 -> su < 2 ^ 64 ->
  layout_block su sc spo f = Ok (obj_of f, obj_off f, su - f mod su).
Proof using Hsu Hsc Hspo.
  intros Hf Hs. unfold layout_block. run_words.
  destruct (obj_bounds f _ Hf) as (H1 & H2 & H3 & H4). unfold obj_of, obj_off in *.
  pose proof (Z.mod_pos_bound f su Hsu). by words_fit.
Qed.

End Geometry.

(** ** Layouts *)

Record layout_ok (l : file_layout_t) : Prop := {
  lo_su : 0 < stripe_unit l;
  lo_sc : 0 < stripe_count l < 2 ^ 32;
  lo_os : 0 < object_size l < 2 ^ 32;
  lo_div : object_size l mod stripe_unit l = 0;
}.

Lemma valid_layout_ok l : is_u32 (stripe_unit l) -> is_u32 (stripe_count l) -> is_u32 (object_size l) ->
  is_valid l = true -> layout_ok l.
Proof.
  unfold is_u32, is_valid. intros Hsu Hsc Hos H.
  repeat (case_match; [done |]); bool_hyps. constructor; lia.
Qed.

Definition per_object (l : file_layout_t) : Z := object_size l / stripe_unit l.

Definition l_file_off (l : file_layout_t) : Z -> Z -> Z :=
  file_off (stripe_unit l) (stripe_count l) (per_object l).

Section Layout.
Context (l : file_layout_t) (Hl : layout_ok l).

Lemma per_object_eq : object_size l = per_object l * stripe_unit l.
Proof using Hl.
  destruct Hl as [Hs _ _ Hd]. unfold per_object.
  destruct (divmod_split (object_size l) (stripe_unit l) Hs). lia.
Qed.

Lemma per_object_pos : 0 < per_object l.
Proof using Hl. pose proof per_object_eq. destruct Hl. nia. Qed.

Lemma su_le_os : stripe_unit l <= object_size l.
Proof using Hl. pose proof per_object_eq. pose proof per_object_pos. destruct Hl. nia. Qed.

Lemma get_file_offset_Ok o x : 0 <= o -> 0 <= x -> l_file_off l o x < 2 ^ 64 ->
  get_file_offset l o x = Ok (l_file_off l o x).
Proof using Hl.
  intros Ho Hx HM. pose proof su_le_os. pose proof per_object_pos.
  destruct Hl as [Hsu [Hsc _] _ _]. unfold get_file_offset.
  run_words. fold (per_object l).
  destruct (file_off_bounds _ _ _ Hsu Hsc per_object_pos o x _ Ho Hx HM) as (? & ? & ? & ? & ? & ?).
  unfold l_file_off, file_off in *. by words_fit.
Qed.

End Layout.
