(* ===== verification/StriperExtents.v ===== *)
(** * The loops of the striper

    The invariant of the loop of [file_to_extents]: one extent per object, which
    holds exactly the bytes of the object that lie in the part of the file done
    so far, and buffer extents that account for every byte once.  The extents
    are related to the geometry through pieces [(object, offset, position in the
    buffer, length)], one for each round of the loop. *)

From stdpp Require Import sorting.
From S2P Require Import Prelude OsdMap Striper StriperSpec.

(** ** Pieces *)

Definition piece : Type := Z * Z * Z * Z.

Definition range (e : Z * Z) : list Z := seqZ e.1 e.2.

Fixpoint sum_lengths (bes : list (Z * Z)) : Z :=
  match bes with [] => 0 | be :: bes => be.2 + sum_lengths bes end.

(** The buffer extents of an extent take its bytes one after the other. *)
Fixpoint walk (o x : Z) (bes : list (Z * Z)) : list piece :=
  match bes with
  | [] => []
  | (b, n) :: bes => (o, x, b, n) :: walk o (x + n) bes
  end.

Definition ext_pieces (ex : LightweightObjectExtent) : list piece :=
  walk (object_no ex) (ex_offset ex) (buffer_extents ex).

(** The bytes of a piece: position in the buffer, object, position in the object. *)
Definition piece_bytes (p : piece) : list (Z * Z * Z) :=
  let '(o, x, b, n) := p in (fun i => (b + i, o, x + i)) <$> seqZ 0 n.

Definition extent_bytes (ex : LightweightObjectExtent) : list (Z * Z * Z) :=
  ext_pieces ex ≫= piece_bytes.

Lemma sum_lengths_snoc bes b n : sum_lengths (bes ++ [(b, n)]) = sum_lengths bes + n.
Proof. induction bes as [| [b' n'] bes IH]; cbn in *; lia. Qed.

Lemma walk_snoc o x bes b n :
  walk o x (bes ++ [(b, n)]) = walk o x bes ++ [(o, x + sum_lengths bes, b, n)].
Proof.
  revert x. induction bes as [| [b' n'] bes IH]; intros x; cbn.
  - by rewrite Z.add_0_r.
  - rewrite IH, Z.add_assoc. done.
Qed.

Lemma seqZ_cut m n k : 0 <= k <= n -> seqZ m n = seqZ m k ++ seqZ (m + k) (n - k).
Proof. intros H. rewrite <- seqZ_app by lia. f_equal. lia. Qed.

(** ** Fuel *)

(** [blocks_left fuel su at left]: the rounds that are left reach the end of the
    range of [left] bytes at [at]. *)
Definition blocks_left (fuel : nat) (su pos left : Z) : Prop :=
  (1 <= fuel)%nat /\ (0 < left -> pos mod su + left <= (Z.of_nat fuel - 1) * su).

Lemma rounds_enough su pos len : 0 < su -> 0 <= len -> blocks_left (rounds len su) su pos len.
Proof.
  intros Hsu Hlen. unfold blocks_left, rounds. pose proof (Z.div_pos len su).
  split; [lia |]. intros _. rewrite Z2Nat.id by lia.
  destruct (divmod_split len su Hsu). pose proof (Z.mod_pos_bound pos su). lia.
Qed.

Lemma blocks_left_step fuel su pos left : 0 < su -> 0 < left -> blocks_left (S fuel) su pos left ->
  blocks_left fuel su (pos + Z.min left (su - pos mod su)) (left - Z.min left (su - pos mod su)).
Proof.
  intros Hsu Hleft [_ Hb]. specialize (Hb Hleft). unfold blocks_left.
  destruct (divmod_split pos su Hsu) as [E Hm].
  split; [nia |]. intros H.
  rewrite Z.min_r in * by lia.
  replace (pos + (su - pos mod su)) with ((pos / su + 1) * su + 0) by lia.
  destruct (divmod_unique (pos / su + 1) 0 su) as [_ ->]; [lia |]. lia.
Qed.

(** ** [extent_to_file] *)

Section ExtentToFile.
Context (su sc spo o : Z) (Hsu : 0 < su < 2 ^ 64) (Hsc : 0 < sc) (Hspo : 0 < spo) (Ho : 0 <= o).

Lemma file_range_block x n : 0 < n -> n <= su - x mod su ->
  file_off su sc spo o <$> seqZ x n = range (file_off su sc spo o x, n).
Proof using Hsu.
  intros Hn Hb. unfold range. cbn. apply list_eq. intros i.
  rewrite list_lookup_fmap. destruct (decide (Z.of_nat i < n)).
  - rewrite !lookup_seqZ_lt by lia. cbn. f_equal. apply file_off_in_block; lia.
  - rewrite !lookup_seqZ_ge by lia. done.
Qed.

Lemma extent_to_file_loop_ok fuel off len acc : blocks_left fuel su off len ->
  0 <= off -> 0 <= len -> (0 < len -> file_off su sc spo o (off + len - 1) < 2 ^ 64) -> off + len < 2 ^ 64 ->
  exists res, extent_to_file_loop fuel su sc spo o off (off mod su) len acc = Ok (acc ++ res) /\
    (res ≫= range) = file_off su sc spo o <$> seqZ off len.
Proof using Hsu Hsc Hspo Ho.
  revert off len acc. induction fuel as [| fuel IH]; intros off len acc Hfuel Hoff Hlen Hfit Hw.
  { destruct Hfuel. lia. }
  cbn [extent_to_file_loop]. destruct (Z.ltb_spec 0 len) as [Hpos |]; cbn [negb].
  2: { exists []. rewrite app_nil_r. split; [done |]. by replace len with 0 by lia. }
  pose proof (blocks_left_step _ _ _ _ (proj1 Hsu) Hpos Hfuel) as Hfuel'.
  pose proof (Z.mod_pos_bound off su (proj1 Hsu)) as Hm.
  pose proof (file_off_le su sc spo ltac:(lia) Hsc o off (off + len - 1) Hoff ltac:(lia)) as Hle.
  destruct (file_off_bounds su sc spo ltac:(lia) Hsc Hspo o off (2 ^ 64)) as (? & ? & ? & ? & ? & ?);
    [done | done | lia |].
  run_words. rewrite (u64_id (su - off mod su)) by lia.
  set (n := Z.min len (su - off mod su)) in *.
  assert (Hn : 0 < n <= len /\ n <= su - off mod su) by lia.
  assert (Hnext : (off + n) mod su = 0 \/ len - n = 0).
  { destruct (Z.le_gt_cases len (su - off mod su)); [right; lia | left].
    destruct (divmod_split off su) as [E _]; [lia |].
    replace (off + n) with ((off / su + 1) * su + 0) by lia. apply divmod_unique. lia. }
  rewrite !(u64_id (off + n)), !(u64_id (len - n)) by lia. unfold file_off in *. words_fit.
  fold (file_off su sc spo o off).
  destruct (IH (off + n) (len - n) (acc ++ [(file_off su sc spo o off, n)])) as (res & Hres & Hr);
    [exact Hfuel' | lia | lia | intros; replace (off + n + (len - n)) with (off + len) by lia; auto
    | lia |].
  exists ((file_off su sc spo o off, n) :: res). split.
  - rewrite <- app_assoc in Hres. destruct Hnext as [Hz | Hz]; [by rewrite Hz in Hres |].
    destruct fuel; [destruct Hfuel'; lia |]. rewrite Hz in *. exact Hres.
  - rewrite bind_cons, Hr, (seqZ_cut off len n), fmap_app by lia. f_equal.
    symmetry. apply file_range_block; lia.
Qed.

End ExtentToFile.

Lemma extent_to_file_ok l o off len : layout_ok l -> 0 <= o -> 0 <= off -> 0 <= len ->
  (0 < len -> l_file_off l o (off + len - 1) < 2 ^ 64) -> off + len < 2 ^ 64 ->
  exists res, extent_to_file l o off len [] = Ok res /\
    (res ≫= range) = l_file_off l o <$> seqZ off len.
Proof.
  intros Hl Ho Hoff Hlen Hfit Hw. pose proof (su_le_os l Hl). pose proof (per_object_pos l Hl).
  destruct Hl as [Hsu Hsc Hos Hd]. unfold extent_to_file. run_words. fold (per_object l).
  destruct (extent_to_file_loop_ok (stripe_unit l) (stripe_count l) (per_object l) o
    ltac:(lia) ltac:(lia) ltac:(done) Ho (rounds len (stripe_unit l)) off len []) as (r & Hr & Hb);
    [by apply rounds_enough | done.. |]. by exists r.
Qed.

(** ** [file_to_extents] *)

(** Extents in the order of their objects, one per object. *)
Abbreviation by_object := (StronglySorted (fun a b => object_no a < object_no b)).

Lemma by_object_split exts o : by_object exts ->
  exists a m b, exts = a ++ m ++ b /\ Forall (fun ex => object_no ex < o) a /\
    Forall (fun ex => o < object_no ex) b /\ (m = [] \/ exists ex, m = [ex] /\ object_no ex = o).
Proof.
  induction exts as [| ex exts IH]; intros Hs.
  { exists [], [], []. naive_solver. }
  apply StronglySorted_inv in Hs as [Hs Hex].
  destruct (Z.lt_trichotomy (object_no ex) o) as [Hlt | [Heq | Hgt]].
  - destruct (IH Hs) as (a & m & b & -> & Ha & Hb & Hm). exists (ex :: a), m, b.
    split_and!; [done | by constructor | done..].
  - exists [], [ex], exts.
    split_and!; [done | constructor | by rewrite <- Heq | right; by exists ex].
  - exists [], [], (ex :: exts). split_and!; [done | constructor | | by left].
    constructor; [done |].
    eapply Forall_impl; [exact Hex |]. cbn. lia.
Qed.

Lemma upper_bound_split a b o : Forall (fun ex => object_no ex <= o) a ->
  Forall (fun ex => o < object_no ex) b -> upper_bound (a ++ b) o = length a.
Proof.
  intros Ha Hb. induction Ha as [| ex a Hex _ IH]; cbn [app upper_bound].
  - destruct Hb as [| ex b Hex Hb]; [done |]. cbn. by destruct (Z.ltb_spec o (object_no ex)); [| lia].
  - destruct (Z.ltb_spec o (object_no ex)); [lia |]. cbn. by rewrite IH.
Qed.

(** What a round does to the extents. *)
Lemma extend_new l trunc a b o x n buf t :
  Forall (fun ex => object_no ex < o) a -> Forall (fun ex => o < object_no ex) b ->
  object_truncate_size l o trunc = Ok t ->
  extend_extents l trunc (a ++ b) o x n buf = Ok (a ++ mk_extent o x n t [(buf, n)] :: b).
Proof.
  intros Ha Hb Ht. unfold extend_extents.
  rewrite upper_bound_split by (done || (eapply Forall_impl; [exact Ha | cbn; lia])).
  rewrite Ht. res_simpl. rewrite take_app_length, drop_app_length.
  destruct (length a) as [| p] eqn:E; [done |].
  destruct (lookup_lt_is_Some_2 a p) as [ex Hex]; [lia |].
  rewrite (lookup_app_l_Some _ _ _ _ Hex).
  assert (object_no ex < o) by (eapply Forall_lookup_1 in Ha; [exact Ha | exact Hex]).
  destruct (Z.eqb_spec (object_no ex) o); [lia |]. done.
Qed.

Lemma extend_old l trunc a b ex n buf :
  Forall (fun ex' => object_no ex' < object_no ex) a ->
  Forall (fun ex' => object_no ex < object_no ex') b ->
  u64 (ex_offset ex + ex_length ex) = ex_offset ex + ex_length ex ->
  extend_extents l trunc (a ++ ex :: b) (object_no ex) (ex_offset ex + ex_length ex) n buf =
  Ok (a ++ mk_extent (object_no ex) (ex_offset ex) (u64 (ex_length ex + n)) (truncate_size ex)
             (buffer_extents ex ++ [(buf, n)]) :: b).
Proof.
  intros Ha Hb Hu. unfold extend_extents. rewrite cons_middle, app_assoc.
  rewrite upper_bound_split; [| | done].
  2: { apply Forall_app. split; [| by repeat constructor].
       eapply Forall_impl; [exact Ha | cbn; lia]. }
  rewrite length_app. cbn [length]. rewrite Nat.add_1_r, <- app_assoc. cbn [app].
  rewrite list_lookup_middle by done. rewrite Z.eqb_refl, Hu, Z.eqb_refl. cbn [negb orb].
  by rewrite insert_middle.
Qed.

Section FileToExtentsLoop.
Context (l : file_layout_t) (offset trunc bo : Z) (su sc spo : Z).
Context (Hsu : 0 < su < 2 ^ 32) (Hsc : 0 < sc) (Hspo : 0 < spo) (Hos : spo * su < 2 ^ 32).
Context (Hoff : 0 <= offset) (Hbo : 0 <= bo).
Context (Htrunc : forall o, 0 <= o -> exists t, object_truncate_size l o trunc = Ok t).

Local Abbreviation foff := (file_off su sc spo).
Local Abbreviation oof := (obj_of su sc spo).
Local Abbreviation xof := (obj_off su sc spo).

(** The pieces of [p, q), in the order of the file. *)
Fixpoint tiled (p : Z) (ps : list piece) (q : Z) : Prop :=
  match ps with
  | [] => p = q
  | (o, x, b, n) :: ps =>
      o = oof p /\ x = xof p /\ b = p - offset + bo /\ 0 < n <= su - p mod su /\ tiled (p + n) ps q
  end.

Record ext_ok (cur : Z) (ex : LightweightObjectExtent) : Prop := {
  eo_no : 0 <= object_no ex;
  eo_len : ex_length ex = sum_lengths (buffer_extents ex);
  eo_pos : 0 < ex_length ex;
  eo_trunc : object_truncate_size l (object_no ex) trunc = Ok (truncate_size ex);
  eo_range : forall x, ex_offset ex <= x < ex_offset ex + ex_length ex <->
    0 <= x < spo * su /\ offset <= foff (object_no ex) x < cur;
}.

Record loop_inv (cur : Z) (exts : list LightweightObjectExtent) (ps : list piece) : Prop := {
  li_sorted : by_object exts;
  li_ok : Forall (ext_ok cur) exts;
  li_all : forall f, offset <= f < cur -> exists ex, ex ∈ exts /\ object_no ex = oof f;
  li_tiled : tiled offset ps cur;
  li_pieces : (exts ≫= ext_pieces) ≡ₚ ps;
}.

Lemma tiled_snoc p ps q n : tiled p ps q -> 0 < n <= su - q mod su ->
  tiled p (ps ++ [(oof q, xof q, q - offset + bo, n)]) (q + n).
Proof using.
  revert p. induction ps as [| [[[o x] b] m] ps IH]; intros p H Hn; cbn in *.
  - by subst.
  - destruct H as (? & ? & ? & ? & H). split_and!; auto; lia.
Qed.

(** The bytes of the object of [cur] in the next block are the next bytes of the
    object, and those of no other object. *)
Lemma block_of cur n o x : 0 <= cur -> 0 < n <= su - cur mod su -> 0 <= x < spo * su ->
  cur <= foff o x < cur + n <-> o = oof cur /\ xof cur <= x < xof cur + n.
Proof using Hsu Hsc Hspo.
  intros Hc Hn Hx. split.
  - intros H. destruct (obj_file_off su sc spo ltac:(lia) Hsc Hspo o x Hx) as [Ho Hxx].
    destruct (obj_in_block su sc spo ltac:(lia) cur (foff o x - cur)) as [H1 H2]; [lia |].
    replace (cur + (foff o x - cur)) with (foff o x) in * by lia. split; [congruence | lia].
  - intros [-> Hr].
    assert (Hm : xof cur mod su = cur mod su).
    { unfold obj_off. apply divmod_unique, Z.mod_pos_bound. lia. }
    pose proof (file_off_obj su sc spo ltac:(lia) Hsc Hspo cur) as He.
    pose proof (file_off_in_block su sc spo ltac:(lia) (oof cur) (xof cur) (x - xof cur)) as Hb.
    replace (xof cur + (x - xof cur)) with x in Hb by lia. rewrite Hb by lia. lia.
Qed.

(** The extent of the object of [cur] ends where the next block goes. *)
Lemma ext_end cur ex : 0 <= cur -> ext_ok cur ex -> object_no ex = oof cur ->
  ex_offset ex + ex_length ex = xof cur.
Proof using Hsu Hsc Hspo.
  intros Hc [Hno Hlen Hpos Htr Hr] Ho. rewrite Ho in Hr.
  pose proof (obj_off_range su sc spo ltac:(lia) Hspo cur) as Hx.
  pose proof (file_off_obj su sc spo ltac:(lia) Hsc Hspo cur) as He.
  pose proof (file_off_lt su sc spo ltac:(lia) Hsc (oof cur)) as Hmono.
  set (e := ex_offset ex + ex_length ex) in *.
  destruct (proj1 (Hr (e - 1)) ltac:(lia)) as [He0 He1].
  destruct (Z.lt_trichotomy e (xof cur)) as [H | [H | H]]; [| done |].
  - pose proof (Hmono e (xof cur) ltac:(lia) H). pose proof (Hmono (e - 1) e ltac:(lia) ltac:(lia)).
    pose proof (proj2 (Hr e) ltac:(lia)). lia.
  - destruct (decide (e - 1 = xof cur)) as [E | Hne]; [rewrite E in He1; lia |].
    pose proof (Hmono (xof cur) (e - 1) ltac:(lia) ltac:(lia)). lia.
Qed.

Lemma ext_ok_other cur n ex : offset <= cur -> 0 < n <= su - cur mod su ->
  ext_ok cur ex -> object_no ex <> oof cur -> ext_ok (cur + n) ex.
Proof using Hsu Hsc Hspo Hoff.
  intros Hc Hn [Hno Hlen Hpos Htr Hr] Hne. constructor; try done. intros x. rewrite Hr.
  split; [lia |]. intros [Hx Hf]. split; [done |]. split; [lia |].
  destruct (Z.lt_ge_cases (foff (object_no ex) x) cur) as [| Hge]; [done |].
  destruct (proj1 (block_of cur n (object_no ex) x ltac:(lia) Hn Hx)) as [? _]; [lia | done].
Qed.

Lemma ext_ok_extend cur n ex : offset <= cur -> 0 < n <= su - cur mod su ->
  ext_ok cur ex -> object_no ex = oof cur ->
  ext_ok (cur + n) (mk_extent (object_no ex) (ex_offset ex) (u64 (ex_length ex + n))
    (truncate_size ex) (buffer_extents ex ++ [(cur - offset + bo, n)])).
Proof using Hsu Hsc Hspo Hos Hoff.
  intros Hc Hn Hok Ho. pose proof (ext_end cur ex ltac:(lia) Hok Ho) as Hend.
  destruct Hok as [Hno Hlen Hpos Htr Hr].
  assert (Hw : u64 (ex_length ex + n) = ex_length ex + n).
  { apply u64_id. pose proof (obj_off_range su sc spo ltac:(lia) Hspo cur).
    pose proof (Z.mod_pos_bound cur su ltac:(lia)). pose proof (proj1 (Hr (ex_offset ex)) ltac:(lia)). lia. }
  rewrite Hw. constructor; cbn [object_no ex_offset ex_length truncate_size buffer_extents]; try done.
  - by rewrite sum_lengths_snoc, Hlen.
  - lia.
  - intros x. rewrite Z.add_assoc, Hend. split.
    + intros Hx. destruct (Z.lt_ge_cases x (xof cur)) as [Hlt | Hge].
      * pose proof (proj1 (Hr x) ltac:(lia)). lia.
      * assert (Hx' : 0 <= x < spo * su).
        { pose proof (obj_off_range su sc spo ltac:(lia) Hspo (cur + n - 1)).
          destruct (obj_in_block su sc spo ltac:(lia) cur (n - 1)) as [_ E]; [lia |].
          replace (cur + (n - 1)) with (cur + n - 1) in E by lia.
          pose proof (obj_off_range su sc spo ltac:(lia) Hspo cur). lia. }
        split; [done |]. rewrite Ho. cut (cur <= foff (oof cur) x < cur + n); [lia |].
        apply (block_of cur n (oof cur) x ltac:(lia) Hn Hx'). split; [done | lia].
    + intros [Hx Hf]. destruct (Z.lt_ge_cases (foff (object_no ex) x) cur) as [Hlt | Hge].
      * pose proof (proj2 (Hr x) ltac:(lia)). lia.
      * destruct (proj1 (block_of cur n (object_no ex) x ltac:(lia) Hn Hx)) as [_ ?]; [lia |].
        pose proof (proj1 (Hr (ex_offset ex)) ltac:(lia)). lia.
Qed.

Lemma ext_ok_new cur n t : offset <= cur -> 0 < n <= su - cur mod su ->
  object_truncate_size l (oof cur) trunc = Ok t ->
  (forall f, offset <= f < cur -> oof f <> oof cur) ->
  ext_ok (cur + n) (mk_extent (oof cur) (xof cur) n t [(cur - offset + bo, n)]).
Proof using Hsu Hsc Hspo Hoff.
  intros Hc Hn Ht Hnew.
  constructor; cbn [object_no ex_offset ex_length truncate_size buffer_extents]; try done.
  - apply obj_of_nonneg; lia.
  - cbn. lia.
  - lia.
  - intros x. split.
    + intros Hx. assert (Hx' : 0 <= x < spo * su).
      { destruct (obj_in_block su sc spo ltac:(lia) cur (x - xof cur)) as [_ E]; [lia |].
        pose proof (obj_off_range su sc spo ltac:(lia) Hspo (cur + (x - xof cur))). lia. }
      split; [done |].
      pose proof (proj2 (block_of cur n _ x ltac:(lia) Hn Hx') (conj eq_refl Hx)). lia.
    + intros [Hx Hf]. apply (block_of cur n (oof cur) x); [lia | done | done |]. split; [| lia].
      destruct (Z.lt_ge_cases (foff (oof cur) x) cur) as [Hlt |]; [| done].
      exfalso. apply (Hnew (foff (oof cur) x)); [lia |]. by apply obj_file_off; [lia.. |].
Qed.

Lemma by_object_insert a b ex : by_object (a ++ b) -> Forall (fun ex' => object_no ex' < object_no ex) a ->
  Forall (fun ex' => object_no ex < object_no ex') b -> by_object (a ++ ex :: b).
Proof using.
  rewrite !StronglySorted_app, StronglySorted_cons. intros (Hab & Ha & Hb) Hla Hlb.
  split_and!; [| done..]. intros x y Hx [-> | Hy]%elem_of_cons; [| by apply Hab].
  by apply (proj1 (Forall_forall _ _) Hla).
Qed.

Lemma ext_ok_others cur n a : offset <= cur -> 0 < n <= su - cur mod su ->
  Forall (ext_ok cur) a -> Forall (fun ex => object_no ex <> oof cur) a -> Forall (ext_ok (cur + n)) a.
Proof using Hsu Hsc Hspo Hoff.
  intros Hc Hn Ha Hne. apply Forall_forall. intros ex Hex. rewrite Forall_forall in Ha, Hne.
  apply ext_ok_other; auto.
Qed.

(** A round of the loop. *)
Lemma extend_step cur n exts ps : offset <= cur -> 0 < n <= su - cur mod su ->
  loop_inv cur exts ps ->
  exists exts', extend_extents l trunc exts (oof cur) (xof cur) n (cur - offset + bo) = Ok exts' /\
    loop_inv (cur + n) exts' (ps ++ [(oof cur, xof cur, cur - offset + bo, n)]).
Proof using Hsu Hsc Hspo Hos Hoff Hbo Htrunc.
  intros Hc Hn [Hs Hok Hall Htl Hp].
  destruct (by_object_split exts (oof cur) Hs) as (a & m & b & -> & Ha & Hb & Hm).
  apply Forall_app in Hok as [Hoka [Hokm Hokb]%Forall_app].
  assert (Hna : Forall (ext_ok (cur + n)) a)
    by (apply ext_ok_others; [done.. | eapply Forall_impl; [exact Ha | cbn; lia]]).
  assert (Hnb : Forall (ext_ok (cur + n)) b)
    by (apply ext_ok_others; [done.. | eapply Forall_impl; [exact Hb | cbn; lia]]).
  assert (Hnext : forall f, offset <= f < cur + n -> f < cur \/ oof f = oof cur).
  { intros f Hf. destruct (Z.lt_ge_cases f cur); [by left | right].
    destruct (obj_in_block su sc spo ltac:(lia) cur (f - cur)) as [E _]; [lia |].
    by replace (cur + (f - cur)) with f in E by lia. }
  destruct Hm as [-> | (ex & -> & Ho)]; cbn [app] in *.
  - destruct (Htrunc (oof cur)) as [t Ht]; [apply obj_of_nonneg; lia |].
    eexists. split; [by apply extend_new |]. constructor.
    + by apply by_object_insert.
    + apply Forall_app. split; [done |]. constructor; [| done]. apply ext_ok_new; [done.. |].
      intros f Hf E. destruct (Hall f Hf) as (ex & Hex & Ho). rewrite E in Ho.
      apply elem_of_app in Hex as [Hex | Hex]; [rewrite Forall_forall in Ha; apply Ha in Hex
        | rewrite Forall_forall in Hb; apply Hb in Hex]; lia.
    + intros f Hf. destruct (Hnext f Hf) as [Hlt | E].
      * destruct (Hall f) as (ex & Hex & Ho); [lia |]. exists ex. split; [set_solver | done].
      * eexists. split; [apply elem_of_app; right; left | done].
    + by apply tiled_snoc.
    + rewrite bind_app, bind_cons. cbn [ext_pieces walk buffer_extents object_no ex_offset app].
      rewrite <- Hp, bind_app. solve_Permutation.
  - rewrite Forall_singleton in Hokm. pose proof (ext_end cur ex ltac:(lia) Hokm Ho) as Hend.
    rewrite <- Ho in Ha, Hb. pose proof (obj_off_range su sc spo ltac:(lia) Hspo cur) as Hx.
    eexists. split; [rewrite <- Ho, <- Hend; apply extend_old; [done | done | apply u64_id; lia] |].
    constructor.
    + apply by_object_insert; [| done | done].
      apply StronglySorted_app in Hs as (Hab & Hsa & [_ Hsb]%StronglySorted_cons).
      apply StronglySorted_app. split_and!; [| done..]. intros x y ??. apply Hab; [done | by right].
    + apply Forall_app. split; [done |]. constructor; [| done]. by apply ext_ok_extend.
    + intros f Hf. destruct (Hnext f Hf) as [Hlt | E].
      * destruct (Hall f) as (ex' & Hex & Ho'); [lia |].
        apply elem_of_app in Hex as [Hex | [-> | Hex]%elem_of_cons].
        -- exists ex'. split; [set_solver | done].
        -- eexists. split; [apply elem_of_app; right; left | done].
        -- exists ex'. split; [set_solver | done].
      * eexists. split; [apply elem_of_app; right; left | cbn; congruence].
    + by apply tiled_snoc.
    + rewrite bind_app, bind_cons. unfold ext_pieces at 2. cbn [buffer_extents object_no ex_offset].
      rewrite walk_snoc, <- (eo_len _ _ Hokm), Hend, Ho, <- Hp, bind_app, bind_cons.
      rewrite <- Ho at 1. fold (ext_pieces ex). solve_Permutation.
Qed.

Lemma file_to_extents_loop_ok fuel cur left exts ps : offset <= cur -> 0 <= left ->
  cur + left < 2 ^ 64 -> cur + left - offset + bo <= 2 ^ 64 ->
  blocks_left fuel su cur left -> loop_inv cur exts ps ->
  exists exts' ps', file_to_extents_loop l offset trunc bo fuel su sc spo cur left exts = Ok exts' /\
    loop_inv (cur + left) exts' ps'.
Proof using Hsu Hsc Hspo Hos Hoff Hbo Htrunc.
  revert cur left exts ps. induction fuel as [| fuel IH]; intros cur left exts ps Hc Hl Hw Hb Hf Hinv.
  { destruct Hf. lia. }
  cbn [file_to_extents_loop]. destruct (Z.ltb_spec 0 left) as [Hpos |]; cbn [negb].
  2: { exists exts, ps. replace left with 0 by lia. rewrite Z.add_0_r. split; [done |]. exact Hinv. }
  pose proof (blocks_left_step fuel su cur left ltac:(lia) Hpos Hf) as Hf'.
  pose proof (Z.mod_pos_bound cur su ltac:(lia)) as Hm.
  rewrite layout_block_Ok by lia. res_simpl.
  replace (if su - cur mod su <? left then su - cur mod su else left)
    with (Z.min left (su - cur mod su)) by (destruct (Z.ltb_spec (su - cur mod su) left); lia).
  set (n := Z.min left (su - cur mod su)) in *.
  rewrite (u64_id (cur - offset)), !u64_id by lia.
  destruct (extend_step cur n exts ps ltac:(lia) ltac:(lia) Hinv) as (exts' & -> & Hinv'). res_simpl.
  destruct (IH (cur + n) (left - n) exts' _ ltac:(lia) ltac:(lia) ltac:(lia) ltac:(lia) Hf' Hinv')
    as (r & ps' & -> & Hr).
  exists r, ps'. split; [done |]. by replace (cur + n + (left - n)) with (cur + left) in Hr by lia.
Qed.

(** What the invariant says of single pieces. *)
Lemma tiled_elem p ps q o x b n : offset <= p -> tiled p ps q -> (o, x, b, n) ∈ ps ->
  exists f, p <= f /\ f + n <= q /\ o = oof f /\ x = xof f /\ b = f - offset + bo /\ 0 < n <= su - f mod su.
Proof using.
  revert p. induction ps as [| [[[o' x'] b'] n'] ps IH]; intros p Hp Ht Hin; [by apply not_elem_of_nil in Hin |].
  cbn in Ht. destruct Ht as (-> & -> & -> & Hn & Ht).
  assert (Hq : forall p ps q, tiled p ps q -> p <= q).
  { clear. intros p ps. revert p. induction ps as [| [[[??]?]?] ps IH]; cbn; intros p q H; [lia |].
    destruct H as (_ & _ & _ & ? & H). apply IH in H. lia. }
  apply elem_of_cons in Hin as [E | Hin].
  - simplify_eq. exists p. apply Hq in Ht. split_and!; try done; lia.
  - destruct (IH (p + n') ltac:(lia) Ht Hin) as (f & ? & ? & ?). exists f. split; [lia | done].
Qed.

Lemma loop_inv_init : loop_inv offset [] [].
Proof using. constructor; [constructor | constructor | intros; lia | done | done]. Qed.

End FileToExtentsLoop.
