(* ===== verification/StriperThms.v ===== *)
(** * What the striper computes

    The extents of a file range name every byte of the range once, at the place
    [get_file_offset] leads back from, with one extent per object;
    [extent_to_file] undoes them; truncation and object counting agree with the
    same geometry. *)

From stdpp Require Import sorting.
From S2P Require Import Prelude OsdMap Striper StriperSpec StriperExtents.

(** Lexicographic comparison of numbers in mixed radix. *)
Lemma lex_lt a b a' b' n : 0 <= b < n -> 0 <= b' <= n ->
  a * n + b < a' * n + b' <-> a < a' \/ a = a' /\ b < b'.
Proof.
  intros Hb Hb'. split.
  - intros H. destruct (Z.lt_trichotomy a a') as [? | [-> | Hgt]]; [by left | right; lia |].
    exfalso. assert ((a' + 1) * n <= a * n) by (apply Z.mul_le_mono_nonneg_r; lia). lia.
  - intros [Hlt | [-> ?]]; [| lia].
    assert ((a + 1) * n <= a' * n) by (apply Z.mul_le_mono_nonneg_r; lia). lia.
Qed.

Lemma lex_eq a b a' b' n : 0 <= b < n -> 0 <= b' < n ->
  a * n + b = a' * n + b' <-> a = a' /\ b = b'.
Proof.
  intros Hb Hb'. split; [| by intros [-> ->]]. intros H.
  destruct (divmod_unique a b n Hb) as [Ha Hm], (divmod_unique a' b' n Hb') as [Ha' Hm'].
  rewrite H in *. split; congruence.
Qed.

(** A position of a file in mixed radix: object set, stripe in the set, object in
    the stripe, byte in the block. *)
Lemma lex4 su sc spo s r p i s' r' p' i' : 0 <= r < spo -> 0 <= r' < spo ->
  0 <= p < sc -> 0 <= p' < sc -> 0 <= i < su -> 0 <= i' < su ->
  ((r + s * spo) * sc + p) * su + i < ((r' + s' * spo) * sc + p') * su + i' <->
  s < s' \/ s = s' /\ (r < r' \/ r = r' /\ (p < p' \/ p = p' /\ i < i')).
Proof.
  intros. rewrite (Z.add_comm r), (Z.add_comm r').
  rewrite (lex_lt _ i _ i'), (lex_lt _ p _ p'), (lex_lt s r s' r') by lia.
  rewrite (lex_eq _ p _ p'), (lex_eq s r s' r') by lia. lia.
Qed.

(** The objects whose object set lies in the 64-bit address space. *)
Definition in_file (l : file_layout_t) (o : Z) : Prop :=
  0 <= o /\ (o / stripe_count l + 1) * (stripe_count l * object_size l) <= 2 ^ 64.

Section Layout.
Context (l : file_layout_t) (Hl : layout_ok l).

Local Abbreviation su := (stripe_unit l).
Local Abbreviation sc := (stripe_count l).
Local Abbreviation os := (object_size l).
Local Abbreviation spo := (per_object l).

Lemma in_file_offset o x : in_file l o -> 0 <= x < os ->
  get_file_offset l o x = Ok (l_file_off l o x) /\ 0 <= l_file_off l o x < 2 ^ 64.
Proof using Hl.
  intros [Ho Hin] Hx. pose proof (per_object_pos l Hl). pose proof (per_object_eq l Hl) as Eos.
  assert (Hf : 0 <= l_file_off l o x < 2 ^ 64).
  { destruct Hl as [Hsu [Hsc _] _ _]. split; [apply file_off_nonneg; lia |].
    eapply Z.lt_le_trans; [| exact Hin]. unfold l_file_off, file_off.
    destruct (divmod_split x su Hsu), (divmod_split o sc Hsc).
    assert (x / su < spo) by (apply Z.div_lt_upper_bound; lia).
    assert (E : (o / sc + 1) * (sc * os) = ((o / sc + 1) * spo * sc) * su + 0) by lia.
    rewrite E. apply lex_lt; [lia | lia |]. left.
    replace ((o / sc + 1) * spo * sc) with ((o / sc + 1) * spo * sc + 0) by lia.
    apply lex_lt; lia. }
  split; [| done]. apply get_file_offset_Ok; [done | done | lia | lia].
Qed.

(** ** Truncation *)

Lemma file_off_lt_iff o x t : 0 <= x < os ->
  l_file_off l o x < t <-> o / sc < t / su / sc / spo \/ o / sc = t / su / sc / spo /\
    (x / su < (t / su / sc) mod spo \/ x / su = (t / su / sc) mod spo /\
      (o mod sc < (t / su) mod sc \/ o mod sc = (t / su) mod sc /\ x mod su < t mod su)).
Proof using Hl.
  intros Hx. pose proof (per_object_pos l Hl) as Hspo. pose proof (per_object_eq l Hl) as Eos.
  destruct Hl as [Hsu [Hsc _] _ _].
  assert (Hr : 0 <= x / su < spo) by (split; [apply Z.div_pos; lia | apply Z.div_lt_upper_bound; lia]).
  rewrite <- (lex4 su sc spo) by (done || by apply Z.mod_pos_bound).
  destruct (divmod_split t su Hsu), (divmod_split (t / su) sc Hsc), (divmod_split (t / su / sc) spo Hspo).
  unfold l_file_off, file_off. replace (((t / su / sc) mod spo + t / su / sc / spo * spo) * sc) with
    (t / su / sc * sc) by (f_equal; lia). lia.
Qed.

Lemma object_truncate_size_ok o t : 0 <= o -> 0 < t < 2 ^ 64 - 1 ->
  exists r, object_truncate_size l o t = Ok r /\ 0 <= r <= os /\
    forall x, 0 <= x < os -> l_file_off l o x < t <-> x < r.
Proof using Hl.
  intros Ho Ht. pose proof (per_object_pos l Hl) as Hspo. pose proof (per_object_eq l Hl) as Eos.
  pose proof (su_le_os l Hl). pose proof file_off_lt_iff as Hlex. destruct Hl as [Hsu Hsc Hos _].
  unfold object_truncate_size. destruct (Z.eqb_spec t 0); [lia |].
  change (u64 (-1)) with (2 ^ 64 - 1). destruct (Z.eqb_spec t (2 ^ 64 - 1)); [lia |]. cbn [orb].
  run_words. fold spo. replace (t / os / sc) with (t / su / sc / spo).
  2: { rewrite !Z.div_div by lia. f_equal. lia. }
  destruct (obj_bounds su sc spo Hsu ltac:(lia) Hspo t (2 ^ 64)) as (Hb1 & Hb2 & Hb3 & Hb4); [lia |].
  unfold obj_of, obj_off in *. destruct (divmod_split o sc ltac:(lia)) as [Eo Hpo].
  pose proof (Z.mod_pos_bound t su Hsu) as Hot. pose proof (Z.mod_pos_bound (t / su) sc ltac:(lia)) as Hpt.
  pose proof (Z.mod_pos_bound (t / su / sc) spo Hspo) as Hrt.
  assert (Hrow : (t / su / sc) mod spo * su + su <= os).
  { rewrite Eos. replace ((t / su / sc) mod spo * su + su) with (((t / su / sc) mod spo + 1) * su) by lia.
    apply Z.mul_le_mono_nonneg_r; lia. }
  assert (Hx : forall x b, 0 <= b <= su -> x < (t / su / sc) mod spo * su + b <->
    x / su < (t / su / sc) mod spo \/ x / su = (t / su / sc) mod spo /\ x mod su < b).
  { intros x b Hb. destruct (divmod_split x su Hsu) as [Ex Hm]. rewrite Ex at 1. by apply lex_lt. }
  destruct (Z.ltb_spec (t / su / sc / spo) (o / sc)).
  { exists 0. split_and!; [done | lia | lia |]. intros x Hxr. rewrite Hlex by done. lia. }
  destruct (Z.ltb_spec (o / sc) (t / su / sc / spo)).
  { exists os. split_and!; [done | lia | lia |]. intros x Hxr. rewrite Hlex by done. lia. }
  assert (Es : o / sc = t / su / sc / spo) by lia. run_words. words_fit. rewrite <- Es in *.
  assert (Hm : forall x, x mod su < su) by (intros; by apply Z.mod_pos_bound).
  destruct (Z.ltb_spec o (o / sc * sc + (t / su) mod sc)).
  { exists ((t / su / sc) mod spo * su + su). split_and!; [| lia | lia |].
    - replace (((t / su / sc) mod spo + 1) * su) with ((t / su / sc) mod spo * su + su) by lia. by words_fit.
    - intros x Hxr. rewrite Hlex, Hx by (done || lia). specialize (Hm x). lia. }
  destruct (Z.ltb_spec (o / sc * sc + (t / su) mod sc) o).
  - exists ((t / su / sc) mod spo * su + 0). split_and!; [by rewrite Z.add_0_r | lia | lia |].
    intros x Hxr. rewrite Hlex, Hx by (done || lia). pose proof (Z.mod_pos_bound x su). lia.
  - exists ((t / su / sc) mod spo * su + t mod su). split_and!; [done | lia | lia |].
    intros x Hxr. rewrite Hlex, Hx by (done || lia). lia.
Qed.

Lemma object_truncate_size_total o t : 0 <= o -> 0 <= t < 2 ^ 64 ->
  exists r, object_truncate_size l o t = Ok r.
Proof using Hl.
  intros Ho Ht. destruct (decide (0 < t < 2 ^ 64 - 1)) as [H | H].
  - destruct (object_truncate_size_ok o t Ho H) as (r & ? & _). by exists r.
  - exists t. unfold object_truncate_size. change (u64 (-1)) with (2 ^ 64 - 1).
    destruct (Z.eqb_spec t 0); [done |]. destruct (Z.eqb_spec t (2 ^ 64 - 1)); [done | lia].
Qed.

(** ** Counting objects *)

Lemma u64_pred a b : u64 (u64 (a + b) - 1) = u64 (a + b - 1).
Proof using. unfold u64. rewrite Zminus_mod_idemp_l. done. Qed.

(** [(a + n - 1) / n] is [a / n] rounded up. *)
Lemma div_up a n k : 0 < n -> 0 <= a -> k < (a + n - 1) / n <-> k * n < a.
Proof using.
  intros Hn Ha. pose proof (Z.div_mod (a + n - 1) n). pose proof (Z.mod_pos_bound (a + n - 1) n). nia.
Qed.

Lemma get_num_objects_ok size : 0 <= size -> size + sc * os <= 2 ^ 64 ->
  exists n, get_num_objects l size = Ok n /\ forall o, 0 <= o -> o < n <-> l_file_off l o 0 < size.
Proof using Hl.
  intros Hsize Hw. pose proof (per_object_pos l Hl) as Hspo. pose proof (per_object_eq l Hl) as Eos.
  destruct Hl as [Hsu Hsc Hos _].
  assert (HP : 0 < sc * os) by lia. assert (Hrow : sc * su <= sc * os) by nia.
  destruct (divmod_split size (sc * os) HP) as [Eq Hrem].
  set (q := size / (sc * os)) in *. set (rem := size mod (sc * os)) in *.
  assert (Hq : 0 <= q) by (apply Z.div_pos; lia).
  assert (Hf : forall o, 0 <= o -> l_file_off l o 0 < size <-> o / sc < q \/ o / sc = q /\ o mod sc * su < rem).
  { intros o Ho. pose proof (Z.mod_pos_bound o sc ltac:(lia)) as Hm. rewrite Eq.
    rewrite <- (lex_lt _ _ _ _ (sc * os)) by nia. unfold l_file_off, file_off.
    rewrite Z.div_0_l, Z.mod_0_l by lia. rewrite Eos. lia. }
  assert (Hlt : forall o m, 0 <= o -> 0 <= m <= sc -> o < q * sc + m <-> o / sc < q \/ o / sc = q /\ o mod sc < m).
  { intros o m Ho Hm. destruct (divmod_split o sc ltac:(lia)) as [Eo Hpo]. rewrite Eo at 1. by apply lex_lt. }
  assert (Hcov : 0 <= q * sc /\ q * sc + sc <= q * (sc * os) + sc * os).
  { pose proof (mul_ge sc os). pose proof (Z.mul_le_mono_nonneg_l sc (sc * os) q).
    pose proof (Z.mul_nonneg_nonneg q sc). lia. }
  unfold get_num_objects, get_period. assert (Hp64 : sc * os < 2 ^ 32 * 2 ^ 32) by (apply Z.mul_lt_mono_nonneg; lia).
  rewrite (u64_id (sc * os)) by lia.
  run_words. fold rem. rewrite u64_pred, (u64_id (size + sc * os - 1)) by lia.
  rewrite (u64_id (sc * su)) by lia.
  assert (Hnp : (size + sc * os - 1) / (sc * os) = if rem =? 0 then q else q + 1).
  { symmetry. apply Z.div_unique with (if rem =? 0 then sc * os - 1 else rem - 1); destruct (Z.eqb_spec rem 0); lia. }
  rewrite Hnp. destruct (Z.eqb_spec rem 0) as [E0 | Hne].
  { destruct (Z.ltb_spec 0 rem); [lia |]. cbn [andb]. res_simpl. exists (q * sc). words_fit.
    split; [by rewrite Z.sub_0_r; words_fit |]. intros o Ho. rewrite Hf by done.
    replace (q * sc) with (q * sc + 0) by lia. rewrite Hlt by lia.
    pose proof (Z.mod_pos_bound o sc). assert (0 <= o mod sc * su) by (apply Z.mul_nonneg_nonneg; lia). lia. }
  destruct (Z.ltb_spec 0 rem); [| lia]. cbn [andb]. destruct (Z.ltb_spec rem (sc * su)) as [Hs | Hs].
  - pose proof (Z.mul_nonneg_nonneg q (sc * os)). pose proof (mul_ge su sc).
    run_words. rewrite u64_pred, (u64_id (rem + su - 1)) by lia.
    set (objs := (rem + su - 1) / su).
    assert (Hobjs : forall k, k < objs <-> k * su < rem) by (intros; apply div_up; lia).
    assert (0 <= objs <= sc) by (pose proof (Hobjs (-1)); pose proof (Hobjs sc); lia).
    exists (q * sc + objs). split.
    { res_simpl. replace ((q + 1) * sc) with (q * sc + sc) by lia. words_fit. unfold mret, res_ret. f_equal. lia. }
    intros o Ho. rewrite Hf, Hlt by lia. by rewrite Hobjs.
  - res_simpl. exists (q * sc + sc). split.
    + rewrite Z.sub_0_r. replace ((q + 1) * sc) with (q * sc + sc) by lia. by words_fit.
    + intros o Ho. rewrite Hf, Hlt by lia. pose proof (Z.mod_pos_bound o sc).
      assert (o mod sc * su < sc * su) by (apply Z.mul_lt_mono_pos_r; lia). lia.
Qed.
(** ** Extents *)

(** The stripe unit [file_to_extents] works with. *)
Definition eff_su : Z := if sc =? 1 then os else su.

Definition eff_spo : Z := os / eff_su.

Lemma eff_geometry : 0 < eff_su <= os /\ 0 < eff_spo /\ eff_spo * eff_su = os /\
  forall o x, file_off eff_su sc eff_spo o x = l_file_off l o x.
Proof using Hl.
  pose proof (per_object_pos l Hl) as Hspo. pose proof (per_object_eq l Hl) as Eos.
  pose proof (su_le_os l Hl). destruct Hl as [Hsu Hsc Hos _]. unfold eff_spo, eff_su.
  destruct (Z.eqb_spec sc 1) as [E1 | _].
  - rewrite Z.div_same by lia. split_and!; [lia.. |]. intros o x. unfold l_file_off, file_off.
    rewrite E1, Z.div_1_r, Z.mod_1_r.
    destruct (divmod_split x os ltac:(lia)) as [Ex _], (divmod_split x su Hsu) as [Ex' _]. nia.
  - fold spo. split_and!; [lia.. | done].
Qed.

Lemma file_to_extents_inv offset len trunc bo : 0 <= offset -> 0 < len -> offset + len < 2 ^ 64 ->
  0 <= bo -> bo + len <= 2 ^ 64 -> 0 <= trunc < 2 ^ 64 ->
  exists exts ps, file_to_extents l offset trunc bo len [] = Ok exts /\
    loop_inv l offset trunc bo eff_su sc eff_spo (offset + len) exts ps.
Proof using Hl.
  intros Ho Hlen Hw Hbo Hbw Ht. destruct eff_geometry as (Hsu & Hspo & Eos & _).
  pose proof (su_le_os l Hl). unfold file_to_extents. fold eff_su. run_words. fold eff_spo.
  eapply file_to_extents_loop_ok; try done; try (destruct Hl; lia).
  - intros o Hno. by apply object_truncate_size_total.
  - apply rounds_enough; lia.
  - apply loop_inv_init.
Qed.

End Layout.

Lemma tiled_bytes offset bo su sc spo p ps q : 0 < su -> tiled offset bo su sc spo p ps q ->
  ps ≫= piece_bytes =
  (fun f => (f - offset + bo, obj_of su sc spo f, obj_off su sc spo f)) <$> seqZ p (q - p) /\ p <= q.
Proof.
  intros Hsu. revert p. induction ps as [| [[[o x] b] n] ps IH]; intros p Ht; cbn in Ht.
  { subst. rewrite Z.sub_diag. split; [done | lia]. }
  destruct Ht as (-> & -> & -> & Hn & [IH' Hq]%IH).
  split; [| lia]. rewrite bind_cons, IH', (seqZ_cut p (q - p) n), fmap_app by lia. f_equal.
  - cbn [piece_bytes]. apply list_eq. intros i. rewrite !list_lookup_fmap.
    destruct (decide (Z.of_nat i < n)).
    + rewrite !lookup_seqZ_lt by lia. cbn. rewrite Z.add_0_l.
      destruct (obj_in_block su sc spo Hsu p (Z.of_nat i)) as [-> ->]; [lia |]. f_equal. f_equal. f_equal. lia.
    + by rewrite !lookup_seqZ_ge by lia.
  - do 2 f_equal. lia.
Qed.

Lemma extent_bytes_pieces exts : exts ≫= extent_bytes = (exts ≫= ext_pieces) ≫= piece_bytes.
Proof. induction exts as [| ex exts IH]; [done |]. rewrite !bind_cons, bind_app. by rewrite IH. Qed.

(** C27. Striping a range of a file into objects.  For a layout whose object size is a
    multiple of the stripe unit, [file_to_extents] ends without a failed
    assertion.  It returns at most one extent per object, in the order of the
    objects; each lies inside its object, its buffer extents add up to its
    length and it carries the truncation size of its object.  The buffer extents
    name each position of the buffer exactly once, and the byte of an object put
    there is the one [get_file_offset] maps to the corresponding file offset. *)
Theorem file_to_extents_correct l offset len trunc bo : layout_ok l ->
  0 <= offset -> 0 < len -> offset + len < 2 ^ 64 -> 0 <= bo -> bo + len <= 2 ^ 64 ->
  0 <= trunc < 2 ^ 64 ->
  exists exts, file_to_extents l offset trunc bo len [] = Ok exts /\
    by_object exts /\
    Forall (fun ex => 0 < ex_length ex /\ sum_lengths (buffer_extents ex) = ex_length ex /\
      0 <= ex_offset ex /\ ex_offset ex + ex_length ex <= object_size l /\
      object_truncate_size l (object_no ex) trunc = Ok (truncate_size ex)) exts /\
    ((fun '(b, o, x) => b) <$> (exts ≫= extent_bytes)) ≡ₚ seqZ bo len /\
    (forall b o x, (b, o, x) ∈ exts ≫= extent_bytes ->
      0 <= x < object_size l /\ get_file_offset l o x = Ok (offset + (b - bo))).
Proof.
  intros Hl Ho Hlen Hw Hbo Hbw Ht.
  destruct (file_to_extents_inv l Hl offset len trunc bo) as (exts & ps & Hr & Hinv); try done.
  destruct (eff_geometry l Hl) as (Hsu & Hspo & Eos & Hoff). destruct Hinv as [Hs Hok _ Htl Hp].
  destruct (tiled_bytes offset bo (eff_su l) _ _ _ _ _ ltac:(lia) Htl) as [Hb _].
  assert (Hbytes : exts ≫= extent_bytes ≡ₚ ps ≫= piece_bytes)
    by (rewrite extent_bytes_pieces; by rewrite Hp).
  rewrite Hb in Hbytes. replace (offset + len - offset) with len in * by lia.
  exists exts. split_and!; [done | done | | |].
  - eapply Forall_impl; [exact Hok |]. intros ex [Hno Hl' Hpos Htr Hrg].
    pose proof (proj1 (Hrg (ex_offset ex)) ltac:(lia)).
    pose proof (proj1 (Hrg (ex_offset ex + ex_length ex - 1)) ltac:(lia)). split_and!; try done; lia.
  - rewrite Hbytes, <- list_fmap_compose. unfold seqZ. rewrite <- !list_fmap_compose.
    erewrite list_fmap_ext; [reflexivity |]. intros. cbn. lia.
  - intros b o x Hin. rewrite Hbytes in Hin. apply list_elem_of_fmap in Hin as (f & E & Hf%elem_of_seqZ).
    simplify_eq.
    pose proof (obj_off_range (eff_su l) (stripe_count l) (eff_spo l) ltac:(lia) Hspo f).
    pose proof (file_off_obj (eff_su l) (stripe_count l) (eff_spo l) ltac:(lia) ltac:(destruct Hl; lia) Hspo f) as Ef.
    rewrite Hoff in Ef. split; [lia |].
    rewrite get_file_offset_Ok; [f_equal; lia | done | | lia | lia].
    apply obj_of_nonneg; [lia | destruct Hl; lia | done | lia].
Qed.

Definition ex_layout : file_layout_t := mk_layout 4 3 8 0 [].

Lemma ex_layout_ok : layout_ok ex_layout.
Proof. by constructor. Qed.

Lemma file_to_extents_correct_witness :
  exists exts, file_to_extents ex_layout 5 0 100 30 [] = Ok exts /\ length exts = 6%nat.
Proof.
  destruct (file_to_extents_correct ex_layout 5 30 0 100 ex_layout_ok) as (exts & H & _); [lia.. |].
  exists exts. split; [exact H |]. vm_compute in H. by injection H as <-.
Defined.

(** ** Back to the file *)

Lemma walk_sum_nonneg o x bes : (forall x' b n, (o, x', b, n) ∈ walk o x bes -> 0 < n) -> 0 <= sum_lengths bes.
Proof.
  revert x. induction bes as [| [b n] bes IH]; intros x H; cbn; [lia |].
  pose proof (H x b n ltac:(left)). assert (0 <= sum_lengths bes); [| lia].
  apply (IH (x + n)). intros x' b' n' Hin. apply (H x' b'). by right.
Qed.

(** Walking the buffer extents and walking the object visit the same bytes. *)
Lemma walk_file (foff shift : Z -> Z) o x bes :
  (forall x' b n, (o, x', b, n) ∈ walk o x bes ->
    0 < n /\ forall i, 0 <= i < n -> foff (x' + i) = shift (b + i)) ->
  foff <$> seqZ x (sum_lengths bes) = shift <$> (bes ≫= range).
Proof.
  revert x. induction bes as [| [b n] bes IH]; intros x H; [done |].
  destruct (H x b n ltac:(left)) as [Hn Hi].
  assert (Hr : forall x' b n', (o, x', b, n') ∈ walk o (x + n) bes ->
    0 < n' /\ forall i, 0 <= i < n' -> foff (x' + i) = shift (b + i)) by (intros; apply H; by right).
  assert (0 <= sum_lengths bes) by (apply (walk_sum_nonneg o (x + n)); intros ??? ?%Hr; tauto).
  rewrite bind_cons, fmap_app. cbn [sum_lengths snd].
  rewrite (seqZ_cut x _ n), fmap_app, Z.add_simpl_l, IH by (done || lia). f_equal.
  unfold range. cbn. apply list_eq. intros i. rewrite !list_lookup_fmap.
  destruct (decide (Z.of_nat i < n)); [| by rewrite !lookup_seqZ_ge by lia].
  rewrite !lookup_seqZ_lt by lia. cbn. f_equal. apply Hi. lia.
Qed.

Lemma loop_inv_piece l offset trunc bo su sc spo cur exts ps ex x b n :
  0 < su -> 0 < sc -> 0 < spo -> 
  loop_inv l offset trunc bo su sc spo cur exts ps -> ex ∈ exts ->
  (object_no ex, x, b, n) ∈ ext_pieces ex ->
  0 < n /\ forall i, 0 <= i < n -> file_off su sc spo (object_no ex) (x + i) = offset + (b + i - bo).
Proof.
  intros Hsu Hsc Hspo [_ _ _ Htl Hp] Hex Hin.
  assert (Hps : (object_no ex, x, b, n) ∈ ps).
  { rewrite <- Hp. apply list_elem_of_bind. by exists ex. }
  destruct (tiled_elem offset bo su sc spo offset ps cur (object_no ex) x b n ltac:(lia) Htl Hps)
    as (f & _ & _ & Eo & Ex & Eb & Hn).
  split; [lia |]. intros i Hi.
  destruct (obj_in_block su sc spo Hsu f i) as [E1 E2]; [lia |].
  rewrite Eo, Ex, <- E1, <- E2, file_off_obj by done. lia.
Qed.

(** Striping and back.  Mapping each extent of a file range back with [extent_to_file]
    visits the bytes of the file that its buffer extents stand for, in the same
    order; so the extents together lead back to the range they were made from. *)
Theorem file_extents_roundtrip l offset len trunc bo exts ex : layout_ok l ->
  0 <= offset -> 0 < len -> offset + len < 2 ^ 64 -> 0 <= bo -> bo + len <= 2 ^ 64 ->
  0 <= trunc < 2 ^ 64 -> file_to_extents l offset trunc bo len [] = Ok exts -> ex ∈ exts ->
  exists fes, extent_to_file l (object_no ex) (ex_offset ex) (ex_length ex) [] = Ok fes /\
    fes ≫= range = (fun b => offset + (b - bo)) <$> (buffer_extents ex ≫= range).
Proof.
  intros Hl Ho Hlen Hw Hbo Hbw Ht Hr Hex.
  destruct (file_to_extents_inv l Hl offset len trunc bo) as (exts' & ps & Hr' & Hinv); try done.
  assert (exts' = exts) as -> by congruence.
  destruct (eff_geometry l Hl) as (Hsu & Hspo & Eos & Hoff).
  assert (Hsc : 0 < stripe_count l) by (destruct Hl; lia).
  pose proof (proj1 (Forall_forall _ _) (li_ok _ _ _ _ _ _ _ _ _ _ Hinv) ex Hex) as [Hno Hl' Hpos _ Hrg].
  pose proof (proj1 (Hrg (ex_offset ex)) ltac:(lia)) as [H1 _].
  pose proof (proj1 (Hrg (ex_offset ex + ex_length ex - 1)) ltac:(lia)) as [H2 H3]. rewrite Hoff in H3.
  destruct (extent_to_file_ok l (object_no ex) (ex_offset ex) (ex_length ex)) as (fes & -> & Hb);
    [done | done | lia | lia | lia | destruct Hl; lia |].
  exists fes. split; [done |]. rewrite Hb, Hl'.
  apply (walk_file _ _ (object_no ex)). intros x b n Hin.
  destruct (loop_inv_piece l offset trunc bo (eff_su l) (stripe_count l) (eff_spo l) (offset + len) exts ps ex x b n)
    as [Hn Hi]; try done; [lia |]. split; [done |]. intros i Hi'. by rewrite <- Hoff, Hi.
Qed.

Definition ex_extents : list LightweightObjectExtent :=
  match file_to_extents ex_layout 5 0 100 30 [] with Ok exts => exts | _ => [] end.

Lemma file_extents_roundtrip_witness :
  exists fes, extent_to_file ex_layout 0 4 4 [] = Ok fes /\
    fes ≫= range = (fun b => 5 + (b - 100)) <$> ([(107, 4)] ≫= range).
Proof.
  assert (E : file_to_extents ex_layout 5 0 100 30 [] = Ok ex_extents) by (vm_compute; reflexivity).
  assert (Hex : ex_extents !! 0%nat = Some (mk_extent 0 4 4 0 [(107, 4)])) by (vm_compute; reflexivity).
  exact (file_extents_roundtrip ex_layout 5 30 0 100 ex_extents _ ex_layout_ok ltac:(lia) ltac:(lia) ltac:(lia)
    ltac:(lia) ltac:(lia) ltac:(lia) E (list_elem_of_lookup_2 _ _ _ Hex)).
Defined.

(** Truncation by object.  For a file truncated to [t] bytes, [object_truncate_size]
    of an object is a size within the object that separates its bytes: exactly
    the bytes below it come from file offsets below [t]. *)
Theorem object_truncate_size_correct l o t : layout_ok l -> in_file l o -> 0 < t < 2 ^ 64 - 1 ->
  exists r, object_truncate_size l o t = Ok r /\ 0 <= r <= object_size l /\
    forall x, 0 <= x < object_size l ->
      exists f, get_file_offset l o x = Ok f /\ (f < t <-> x < r).
Proof.
  intros Hl Hin Ht. destruct (object_truncate_size_ok l Hl o t (proj1 Hin) Ht) as (r & Hr & Hb & Hx).
  exists r. split_and!; [done | lia | lia |]. intros x Hxr.
  destruct (in_file_offset l Hl o x Hin Hxr) as [Hf _]. exists (l_file_off l o x). auto.
Qed.

Lemma object_truncate_size_correct_witness :
  exists r, object_truncate_size ex_layout 4 37 = Ok r /\ r = 4 /\
    exists f, get_file_offset ex_layout 4 5 = Ok f /\ (f < 37 <-> 5 < r).
Proof.
  assert (Hin : in_file ex_layout 4) by (unfold in_file; vm_compute; split; intros; discriminate).
  destruct (object_truncate_size_correct ex_layout 4 37 ex_layout_ok Hin ltac:(lia)) as (r & Hr & _ & Hx).
  exists r. split; [exact Hr |]. split; [vm_compute in Hr; by injection Hr as <- |]. apply (Hx 5). cbn. lia.
Defined.

(** Counting objects.  The number of objects [get_num_objects] gives for a file
    of [size] bytes bounds exactly the objects whose first byte lies in the file,
    for every size that leaves room for one more period below [2^64]. *)
Theorem get_num_objects_correct l size : layout_ok l -> 0 <= size ->
  size + get_period l <= 2 ^ 64 ->
  exists n, get_num_objects l size = Ok n /\
    forall o, in_file l o -> exists f, get_file_offset l o 0 = Ok f /\ (o < n <-> f < size).
Proof.
  intros Hl Hs Hw. assert (Hp : get_period l = stripe_count l * object_size l).
  { destruct Hl as [_ Hsc Hos _]. apply u64_id.
    pose proof (Z.mul_lt_mono_nonneg (stripe_count l) (2 ^ 32) (object_size l) (2 ^ 32)). lia. }
  destruct (get_num_objects_ok l Hl size Hs ltac:(lia)) as (n & Hn & Ho). exists n. split; [done |].
  intros o Hin. destruct (in_file_offset l Hl o 0 Hin) as [Hf _]; [destruct Hl; lia |].
  exists (l_file_off l o 0). split; [done |]. apply Ho, Hin.
Qed.

Lemma get_num_objects_correct_witness :
  exists n, get_num_objects ex_layout 29 = Ok n /\ n = 5 /\
    exists f, get_file_offset ex_layout 5 0 = Ok f /\ (5 < n <-> f < 29).
Proof.
  destruct (get_num_objects_correct ex_layout 29 ex_layout_ok ltac:(lia)) as (n & Hn & Ho);
    [vm_compute; discriminate |].
  exists n. split; [exact Hn |]. split; [vm_compute in Hn; by injection Hn as <- |]. apply (Ho 5).
  unfold in_file; vm_compute; split; intros; discriminate.
Defined.
