(* ===== verification/StriperRead.v ===== *)
(** * Assembling striped reads

    A read of a file range goes to several objects; the replies come back in any
    order and are kept by position in [StripedReadResult].  The replies, full or
    sparse, are shown to put the bytes of the file into the buffer, whichever of
    the [assemble_result] functions collects them. *)

From stdpp Require Import sorting.
From S2P Require Import Prelude OsdMap Striper StriperSpec StriperExtents StriperThms.

(** ** Tilings *)

(** [tiles b P e]: the parts [P] cover the buffer from [b] to [e] without gaps; the
    data of a part is a [bufferlist], shorter than 4 GiB. *)
Fixpoint tiles (b : Z) (P : partial_map) (e : Z) : Prop :=
  match P with
  | [] => b = e
  | (k, (d, n)) :: P => k = b /\ 0 < n /\ zlen d <= Z.min n (2 ^ 32 - 1) /\ tiles (b + n) P e
  end.

(** The bytes of a part: its data and zeros up to the intended length. *)
Definition pad (p : list Z * Z) : list Z := p.1 ++ zero_bytes (p.2 - zlen p.1).

Definition flat (P : partial_map) : list Z := P ≫= (fun e => pad e.2).

Lemma tiles_le b P e : tiles b P e -> b <= e.
Proof.
  revert b. induction P as [| [k [d n]] P IH]; intros b H; cbn in H; [lia |].
  destruct H as (_ & ? & _ & H%IH). lia.
Qed.

Lemma tiles_app b P m Q e : tiles b P m -> tiles m Q e -> tiles b (P ++ Q) e.
Proof.
  revert b. induction P as [| [k [d n]] P IH]; intros b HP HQ; cbn in *; [by subst |].
  destruct HP as (? & ? & ? & ?). auto.
Qed.

Lemma tiles_snoc_inv b P p e : tiles b (P ++ [p]) e ->
  tiles b P p.1 /\ 0 < p.2.2 /\ zlen p.2.1 <= Z.min p.2.2 (2 ^ 32 - 1) /\ e = p.1 + p.2.2.
Proof.
  destruct p as [k [d n]]. revert b. induction P as [| [k' [d' n']] P IH]; intros b H; cbn in *.
  - destruct H as (? & ? & ? & ?). split_and!; lia.
  - destruct H as (? & ? & ? & H). apply IH in H. naive_solver.
Qed.

Lemma tiles_keys b P e k : tiles b P e -> k ∈ P.*1 -> b <= k < e.
Proof.
  revert b. induction P as [| [k' [d n]] P IH]; intros b H Hin; cbn in H; [by apply not_elem_of_nil in Hin |].
  destruct H as (-> & ? & ? & H). pose proof (tiles_le _ _ _ H). cbn in Hin.
  apply elem_of_cons in Hin as [-> | Hin]; [lia |]. specialize (IH _ H Hin). lia.
Qed.

Abbreviation by_key := (StronglySorted (fun a b : Z * (list Z * Z) => a.1 < b.1)).

Lemma tiles_sorted b P e : tiles b P e -> by_key P.
Proof.
  revert b. induction P as [| [k [d n]] P IH]; intros b H; [constructor |]. cbn in H.
  destruct H as (-> & ? & ? & H). constructor; [by eapply IH |].
  apply Forall_forall. intros p Hp. pose proof (tiles_keys _ _ _ p.1 H) as Hk.
  cbn. destruct Hk as [? _]; [| lia]. apply list_elem_of_fmap. by exists p.
Qed.

Lemma zero_bytes_add a b : 0 <= a -> 0 <= b -> zero_bytes (a + b) = zero_bytes a ++ zero_bytes b.
Proof. intros. unfold zero_bytes. rewrite Z2Nat.inj_add, replicate_add by done. done. Qed.

Lemma zlen_zero n : 0 <= n -> zlen (zero_bytes n) = n.
Proof. intros. unfold zlen, zero_bytes. rewrite length_replicate. lia. Qed.

Lemma zlen_pad p : zlen p.1 <= p.2 -> zlen (pad p) = p.2.
Proof. intros. unfold pad. rewrite zlen_app, zlen_zero by lia. lia. Qed.

Lemma zlen_flat b P e : tiles b P e -> zlen (flat P) = e - b.
Proof.
  revert b. induction P as [| [k [d n]] P IH]; intros b H; cbn in H; [subst; change (zlen (flat [])) with 0; lia |].
  destruct H as (-> & ? & ? & H). unfold flat in *. rewrite bind_cons, zlen_app, (IH _ H). cbn [snd].
  rewrite zlen_pad by (cbn; lia). cbn. lia.
Qed.

(** ** The forward [assemble_result] *)

Lemma bl_length_id bl : zlen bl < 2 ^ 32 -> bl_length bl = zlen bl.
Proof. intros H. pose proof (zlen_nonneg bl). apply u32_id. unfold is_u32. lia. Qed.

Lemma claim_append_Ok bl d : zlen bl + zlen d < 2 ^ 32 -> claim_append bl d = Ok (bl ++ d).
Proof.
  intros H. pose proof (zlen_nonneg bl). pose proof (zlen_nonneg d). unfold claim_append.
  rewrite !bl_length_id, u32_id by (unfold is_u32; lia). rewrite ensure_Ok by lia. done.
Qed.

Lemma append_zero_id bl z : 0 <= z < 2 ^ 32 -> append_zero bl z = bl ++ zero_bytes z.
Proof. intros H. unfold append_zero. by rewrite u32_id. Qed.

(** One round, where the list stays shorter than 4 GiB. *)
Lemma assemble_step_Ok acc z k d n : 0 <= z -> zlen d <= n -> zlen acc + z + n < 2 ^ 32 ->
  exists acc' z', assemble_step acc z (k, (d, n)) = Ok (acc', z') /\ 0 <= z' /\
    zlen acc' + z' = zlen acc + z + n /\
    acc' ++ zero_bytes z' = acc ++ zero_bytes z ++ pad (d, n).
Proof.
  intros Hz Hd Hw. pose proof (zlen_nonneg d). pose proof (zlen_nonneg acc).
  unfold assemble_step. cbn [fst snd]. rewrite bl_length_id by lia. unfold pad. cbn [fst snd].
  destruct (Z.eqb_spec (zlen d) 0) as [E | Hne]; cbn [negb]; res_simpl.
  - destruct d; [| unfold zlen in E; cbn in E; lia]. rewrite E, Z.sub_0_r. words_fit.
    exists acc, (z + n). split_and!; [done | lia | lia |]. by rewrite zero_bytes_add by lia.
  - assert (Hb : (if negb (z =? 0) then (append_zero acc z, 0) else (acc, z)) = (acc ++ zero_bytes z, 0)).
    { destruct (Z.eqb_spec z 0) as [-> |]; cbn [negb]; [| by rewrite append_zero_id by lia].
      change (zero_bytes 0) with (@nil Z). by rewrite app_nil_r. }
    rewrite Hb, claim_append_Ok by (rewrite zlen_app, zlen_zero; lia). res_simpl. words_fit.
    eexists _, _. split_and!; [done | lia | rewrite !zlen_app, zlen_zero by lia; lia |].
    rewrite Z.add_0_l. by rewrite <- !app_assoc.
Qed.

Lemma assemble_loop_Ok b P e acc z : tiles b P e -> 0 <= z -> zlen acc + z + (e - b) < 2 ^ 32 ->
  exists acc' z', assemble_loop P acc z = Ok (acc', z') /\ 0 <= z' < 2 ^ 32 /\
    acc' ++ zero_bytes z' = acc ++ zero_bytes z ++ flat P.
Proof.
  revert b acc z. induction P as [| [k [d n]] P IH]; intros b acc z H Hz Hw; cbn in H; pose proof (zlen_nonneg acc).
  { exists acc, z. split_and!; [done | lia | lia |]. unfold flat. cbn. by rewrite app_nil_r. }
  destruct H as (-> & Hn & Hd & H). pose proof (tiles_le _ _ _ H).
  destruct (assemble_step_Ok acc z b d n) as (acc1 & z1 & E1 & Hz1 & Hl1 & Hb1); [lia.. |].
  destruct (IH (b + n) acc1 z1 H Hz1) as (acc' & z' & Hf & Hz' & Hb'); [lia |].
  exists acc', z'. cbn [assemble_loop]. rewrite E1. res_simpl. split_and!; [done | lia | lia |].
  rewrite Hb', app_assoc, Hb1. unfold flat. rewrite bind_cons. by rewrite <- !app_assoc.
Qed.

Lemma assemble_tiles b P e t : tiles b P e -> e - b < 2 ^ 32 ->
  assemble_result (mk_result P t) [] true = Ok (flat P, mk_result [] t) /\
  exists bl z, assemble_result (mk_result P t) [] false = Ok (bl, mk_result [] t) /\
    0 <= z /\ bl ++ zero_bytes z = flat P.
Proof.
  intros H Hw. unfold assemble_result. cbn [partial total_intended_len].
  destruct (assemble_loop_Ok b P e [] 0 H) as (acc & z & -> & Hz & Hb); [lia | by rewrite Z.add_0_l |].
  change (zero_bytes 0) with (@nil Z) in Hb. cbn [app] in Hb. res_simpl. cbn [andb].
  split; [| exists acc, z; split_and!; [done | lia | done]].
  destruct (Z.eqb_spec z 0) as [-> | Hne]; cbn [negb].
  - rewrite <- Hb. change (zero_bytes 0) with (@nil Z). by rewrite app_nil_r.
  - by rewrite append_zero_id, Hb by done.
Qed.

Lemma assemble_loop_holes b P e bl z : tiles b P e -> Forall (fun p => p.2.1 = []) P ->
  0 <= z -> z + (e - b) < 2 ^ 64 -> assemble_loop P bl z = Ok (bl, z + (e - b)).
Proof.
  revert b z. induction P as [| [k [d n]] P IH]; intros b z H Hd Hz Hw; cbn in H.
  { subst. by rewrite Z.sub_diag, Z.add_0_r. }
  destruct H as (-> & Hn & _ & H). apply Forall_cons in Hd as [Ed Hd]. cbn in Ed. subst d.
  pose proof (tiles_le _ _ _ H). cbn [assemble_loop]. unfold assemble_step. cbn [fst snd].
  change (bl_length []) with 0. cbn [Z.eqb negb]. res_simpl. rewrite Z.sub_0_r, (u64_id n), (u64_id (z + n)) by lia.
  rewrite (IH _ _ H Hd) by lia. do 2 f_equal. lia.
Qed.

(** A hole of 4 GiB or more does not fit: [append_zero] takes its length in 32 bits,
    and the zeros beyond a multiple of 2^32 are all that is appended. *)
Theorem long_hole_cut b P e t : tiles b P e -> Forall (fun p => p.2.1 = []) P -> e - b < 2 ^ 64 ->
  assemble_result (mk_result P t) [] true = Ok (zero_bytes ((e - b) mod 2 ^ 32), mk_result [] t).
Proof.
  intros H Hd Hw. pose proof (tiles_le _ _ _ H). unfold assemble_result. cbn [partial total_intended_len].
  rewrite (assemble_loop_holes b P e) by (done || lia). res_simpl. rewrite Z.add_0_l. cbn [andb].
  unfold append_zero. destruct (Z.eqb_spec (e - b) 0) as [E |]; cbn [negb]; [by rewrite E | done].
Qed.

(** ** The backward [assemble_result] *)

Lemma write_at_app (a m r d : list Z) : length m = length d ->
  write_at (a ++ m ++ r) (zlen a) d = Ok (a ++ d ++ r).
Proof.
  intros Hm. unfold write_at. rewrite !zlen_app. pose proof (zlen_nonneg a). pose proof (zlen_nonneg r).
  assert (zlen m = zlen d) by (unfold zlen; lia).
  destruct (Z.ltb_spec (zlen a) 0); [lia |].
  destruct (Z.ltb_spec (zlen a + (zlen m + zlen r)) (zlen a + zlen d)); [lia |]. cbn [orb].
  replace (Z.to_nat (zlen a)) with (length a) by (unfold zlen; lia).
  replace (Z.to_nat (zlen a + zlen d)) with (length (a ++ m)) by (rewrite length_app; unfold zlen; lia).
  rewrite take_app_length. rewrite (app_assoc a m r), drop_app_length. done.
Qed.

Lemma split_at_len (l : list Z) n : 0 <= n <= zlen l ->
  exists a b, l = a ++ b /\ zlen a = n /\ zlen b = zlen l - n.
Proof.
  intros Hn. exists (take (Z.to_nat n) l), (drop (Z.to_nat n) l). rewrite take_drop. unfold zlen in *.
  rewrite length_take, length_drop. split_and!; [done | lia | lia].
Qed.

Lemma assemble_back_tiles b P e pre rest : tiles b P e -> 0 <= b -> e < 2 ^ 64 -> zlen pre = e - b ->
  assemble_back (rev P) (pre ++ rest) (e - b) e = Ok (flat P ++ rest, 0).
Proof.
  revert e pre rest. induction P as [| p P IH] using rev_ind; intros e pre rest H Hb He Hpre.
  { cbn in *. subst. assert (pre = []) as -> by (destruct pre; [done | unfold zlen in Hpre; cbn in Hpre; lia]).
    by rewrite Z.sub_diag. }
  destruct (tiles_snoc_inv _ _ _ _ H) as (HP & Hn & Hd & ->). pose proof (tiles_le _ _ _ HP) as Hle.
  destruct p as [k [d n]]. cbn [fst snd] in *. pose proof (zlen_nonneg d).
  rewrite rev_app_distr. cbn [rev app assemble_back fst snd]. rewrite (bl_length_id d) by lia.
  rewrite (u64_id (k + n - n)) by lia. run_words. rewrite (u64_id (k + n - b - n)) by lia.
  destruct (split_at_len pre (k - b)) as (a & m & -> & Ha & Hm); [lia |].
  destruct (split_at_len m (zlen d)) as (m1 & m2 & -> & Hm1 & Hm2); [lia |].
  rewrite zlen_app in Hm. rewrite <- !app_assoc. replace (k + n - b - n) with (zlen a) by lia.
  rewrite (take_ge d) by (unfold zlen; lia). rewrite write_at_app by (unfold zlen in *; lia). res_simpl.
  assert (E : (if zlen d <? n then write_at (a ++ d ++ m2 ++ rest) (zlen a + zlen d) (zero_bytes (n - zlen d))
               else mret (a ++ d ++ m2 ++ rest)) = Ok (a ++ pad (d, n) ++ rest)).
  { unfold pad. cbn [fst snd]. destruct (Z.ltb_spec (zlen d) n).
    - rewrite app_assoc, <- zlen_app, write_at_app; [by rewrite <- !app_assoc |].
      unfold zero_bytes. rewrite length_replicate. unfold zlen in *. lia.
    - assert (m2 = []) as -> by (destruct m2; [done | unfold zlen in *; cbn in *; lia]).
      replace (n - zlen d) with 0 by lia. change (zero_bytes 0) with (@nil Z). by rewrite app_nil_r. }
  rewrite E. res_simpl. rewrite Ha, IH by (done || lia).
  unfold flat. rewrite bind_app, bind_cons. cbn [snd]. change ([] ≫= _) with (@nil Z).
  by rewrite app_nil_r, <- app_assoc.
Qed.

Lemma assemble_buffer_tiles b P e buffer t : tiles b P e -> 0 <= b < e -> e < 2 ^ 64 ->
  t = e - b -> zlen buffer = t ->
  assemble_buffer (mk_result P t) buffer t = Ok (flat P, mk_result [] t).
Proof.
  intros H Hb He Ht Hlen. unfold assemble_buffer. cbn [partial total_intended_len].
  rewrite ensure_Ok by lia. res_simpl.
  destruct (rev P) as [| p ps] eqn:E.
  { apply (f_equal (@rev _)) in E. rewrite rev_involutive in E. cbn in E. subst. cbn in H. lia. }
  assert (HP : P = rev ps ++ [p]) by (rewrite <- (rev_involutive P), E; done).
  assert (Hend : p.1 + p.2.2 = e) by (rewrite HP in H; apply tiles_snoc_inv in H; naive_solver).
  rewrite Hend, u64_id by lia. rewrite <- E, Ht. rewrite <- (app_nil_r buffer).
  rewrite (assemble_back_tiles b) by (done || lia). res_simpl. by rewrite app_nil_r.
Qed.

(** ** Adding parts *)

Lemma map_at_fresh {A} (d : A) m k : k ∉ m.*1 -> map_at d m k = d.
Proof.
  induction m as [| [s v] m IH]; intros H; [done |]. cbn in *.
  apply not_elem_of_cons in H as [Hne H]. destruct (Z.eqb_spec k s); [done | by apply IH].
Qed.

Lemma map_set_fresh {A} (m : list (Z * A)) k v : k ∉ m.*1 -> map_set m k v ≡ₚ (k, v) :: m.
Proof.
  induction m as [| [s w] m IH]; intros H; [done |]. cbn in *.
  apply not_elem_of_cons in H as [Hne H]. destruct (Z.ltb_spec k s); [done |].
  destruct (Z.eqb_spec k s); [done |]. rewrite IH by done. apply Permutation_swap.
Qed.

Lemma map_set_sorted (m : partial_map) k v : by_key m -> by_key (map_set m k v).
Proof.
  induction m as [| [s w] m IH]; intros H; cbn [map_set]; [by repeat constructor |].
  apply StronglySorted_cons in H as [Hs Hm]. destruct (Z.ltb_spec k s).
  - constructor; [by apply StronglySorted_cons |]. constructor; [done |].
    eapply Forall_impl; [exact Hs |]. cbn. lia.
  - destruct (Z.eqb_spec k s) as [-> | Hne]; [by constructor |]. constructor; [by apply IH |].
    assert (Hk : s < k) by lia. clear -Hs Hk. induction m as [| [s' w'] m IH]; cbn [map_set].
    + by repeat constructor.
    + apply Forall_cons in Hs as [? Hs]. destruct (k <? s'), (k =? s'); repeat constructor; auto.
Qed.

Definition intended (P : partial_map) : Z := foldr (fun e s => e.2.2 + s) 0 P.

Lemma intended_app P Q : intended (P ++ Q) = intended P + intended Q.
Proof. induction P as [| p P IH]; cbn; [done |]. unfold intended in *. lia. Qed.

Lemma tiles_intended b P e : tiles b P e -> intended P = e - b.
Proof.
  revert b. induction P as [| [k [d n]] P IH]; intros b H; cbn in H |- *; [lia |].
  destruct H as (-> & _ & _ & H%IH). unfold intended in *. lia.
Qed.

(** The parts collected in a result, in no particular order. *)
Record collected (r : StripedReadResult) (P : partial_map) : Prop := {
  co_sorted : by_key (partial r);
  co_parts : partial r ≡ₚ P;
  co_total : total_intended_len r = u64 (intended P);
}.

Lemma collected_none : collected no_result [].
Proof. constructor; [constructor | done | done]. Qed.

Lemma put_collected r P k data n : collected r P -> k ∉ P.*1 ->
  collected (put_partial r k data n) (P ++ [(k, (data, n))]) /\ (partial_at r k).1 = [].
Proof.
  intros [Hs Hp Ht] Hk. rewrite <- Hp in Hk. split.
  - constructor; cbn [put_partial partial total_intended_len].
    + by apply map_set_sorted.
    + rewrite map_set_fresh, <- Hp by done. apply Permutation_cons_append.
    + rewrite Ht, intended_app. cbn. unfold u64. rewrite Zplus_mod_idemp_l. f_equal. lia.
  - unfold partial_at. by rewrite map_at_fresh.
Qed.

Section Content.
Context (c : Z -> Z -> Z).

(** [good p sub]: the parts [sub] fill the place of the piece [p] with the bytes
    of its object. *)
Definition good (p : piece) (sub : partial_map) : Prop :=
  let '(o, x, b, n) := p in tiles b sub (b + n) /\ flat sub = c o <$> seqZ x n.

(** A full reply for the bytes [x .. x + len) of an object: a shorter reply stands
    for zeros behind it. *)
Definition full_reply (o x len : Z) (bl : list Z) : Prop :=
  zlen bl <= len /\ forall i, 0 <= i < len -> c o (x + i) = default 0 (bl !! Z.to_nat i).

Lemma splice_min (bl : list Z) n : 0 <= n -> zlen bl < 2 ^ 32 ->
  splice bl (Z.min (bl_length bl) n) = Ok (take (Z.to_nat n) bl, drop (Z.to_nat n) bl).
Proof using.
  intros Hn Hw. pose proof (zlen_nonneg bl). unfold splice. rewrite bl_length_id by done.
  rewrite u32_id by (unfold is_u32; lia).
  destruct (Z.eqb_spec (Z.min (zlen bl) n) 0) as [E |].
  - destruct (decide (n = 0)) as [-> | Hne]; [done |].
    assert (bl = []) as -> by (destruct bl; [done | unfold zlen in *; cbn in *; lia]).
    by rewrite take_nil, drop_nil.
  - destruct (Z.eqb_spec (zlen bl) 0); [lia |].
    destruct (Z.ltb_spec (zlen bl) (Z.min (zlen bl) n)); [lia |]. cbn [orb]. unfold mret, res_ret. do 2 f_equal.
    + destruct (Z.le_gt_cases n (zlen bl)); [by rewrite Z.min_r by lia |].
      rewrite !take_ge; [done | unfold zlen in *; lia..].
    + destruct (Z.le_gt_cases n (zlen bl)); [by rewrite Z.min_r by lia |].
      rewrite !drop_ge; [done | unfold zlen in *; lia..].
Qed.

Lemma pad_reply o x len n bl : full_reply o x len bl -> 0 <= n <= len ->
  pad (take (Z.to_nat n) bl, n) = c o <$> seqZ x n /\
  full_reply o (x + n) (len - n) (drop (Z.to_nat n) bl).
Proof using.
  intros [Hl Hc] Hn. split.
  - unfold pad, zero_bytes. cbn [fst snd]. apply list_eq. intros i. rewrite list_lookup_fmap.
    destruct (decide (Z.of_nat i < n)).
    2: { rewrite lookup_seqZ_ge by lia. cbn. apply lookup_ge_None.
         rewrite length_app, length_replicate, length_take. unfold zlen. rewrite length_take. lia. }
    rewrite lookup_seqZ_lt by lia. cbn. rewrite Hc, Nat2Z.id by lia.
    destruct (bl !! i) as [v |] eqn:E.
    + apply lookup_lt_Some in E as Hlt. rewrite lookup_app_l by (rewrite length_take; lia).
      rewrite lookup_take_lt by lia. done.
    + apply lookup_ge_None in E. rewrite lookup_app_r by (rewrite length_take; lia).
      apply lookup_replicate. split; [done |]. unfold zlen. rewrite !length_take. lia.
  - split; [unfold zlen in *; rewrite length_drop; lia |]. intros i Hi.
    rewrite lookup_drop, <- Z.add_assoc, Hc by lia. do 2 f_equal. lia.
Qed.

(** [add_partial_result] with a full reply. *)
Lemma add_partial_ok r P bl o x bes : collected r P -> Forall (fun be => 0 < be.2) bes ->
  NoDup (bes ≫= range) -> (forall k, k ∈ P.*1 -> k ∉ bes ≫= range) ->
  full_reply o x (sum_lengths bes) bl -> zlen bl < 2 ^ 32 ->
  exists r' subs bl', add_partial_result r bl bes = Ok (r', bl') /\ collected r' (P ++ mjoin subs) /\
    Forall2 good (walk o x bes) subs.
Proof using.
  revert r P bl x. induction bes as [| [b n] bes IH]; intros r P bl x Hr Hpos Hnd Hfr Hbl Hw.
  { exists r, [], bl. cbn. rewrite app_nil_r. split_and!; [done | done | constructor]. }
  apply Forall_cons in Hpos as [Hn Hpos]. cbn [fst snd] in Hn. rewrite bind_cons in Hnd, Hfr.
  apply NoDup_app in Hnd as (_ & Hd & Hnd).
  assert (Hb : b ∈ range (b, n)) by (apply elem_of_seqZ; cbn; lia).
  assert (0 <= sum_lengths bes).
  { clear -Hpos. induction Hpos as [| [??] ? ? _ IH]; cbn in *; lia. }
  cbn [sum_lengths snd] in Hbl. destruct (pad_reply _ _ _ n _ Hbl) as [Hpad Hrest]; [lia |].
  cbn [add_partial_result fst snd]. rewrite splice_min by lia. res_simpl.
  assert (Hk : b ∉ P.*1) by (intros Hin; apply (Hfr b Hin); apply elem_of_app; by left).
  destruct (put_collected r P b (take (Z.to_nat n) bl) n Hr Hk) as [Hc Hat]. rewrite Hat. cbn [app].
  destruct (IH _ _ (drop (Z.to_nat n) bl) (x + n) Hc Hpos Hnd) as (r' & subs & bl' & -> & Hc' & Hg).
  - intros k Hin. rewrite fmap_app in Hin. apply elem_of_app in Hin as [Hin | Hin].
    + intros Hin'. apply (Hfr k Hin). apply elem_of_app. by right.
    + cbn in Hin. apply list_elem_of_singleton in Hin as ->. by apply Hd.
  - by rewrite Z.add_simpl_l in Hrest.
  - unfold zlen in *. rewrite length_drop. lia.
  - exists r', ([(b, (take (Z.to_nat n) bl, n))] :: subs), bl'. split; [done |]. split.
    + rewrite <- app_assoc in Hc'. exact Hc'.
    + constructor; [| exact Hg]. split.
      * cbn. split_and!; [done | done | | done]. unfold zlen in *. rewrite length_take. lia.
      * unfold flat. cbn. by rewrite app_nil_r.
Qed.

(** ** All replies *)

Definition buffer_bytes (ex : LightweightObjectExtent) : list Z := buffer_extents ex ≫= range.

Lemma good_keys o x bes subs k : Forall2 good (walk o x bes) subs -> k ∈ (mjoin subs).*1 ->
  k ∈ bes ≫= range.
Proof using.
  revert x subs. induction bes as [| [b n] bes IH]; intros x subs H Hk; cbn [walk] in H.
  - apply Forall2_nil_inv_l in H as ->. by apply not_elem_of_nil in Hk.
  - apply Forall2_cons_inv_l in H as (sub & subs' & [Ht _] & H & ->). cbn in Hk.
    rewrite fmap_app in Hk. rewrite bind_cons. apply elem_of_app.
    apply elem_of_app in Hk as [Hk | Hk]; [left | right; by eapply IH].
    apply elem_of_seqZ. cbn. eapply tiles_keys in Ht; [| exact Hk]. lia.
Qed.

Section Replies.
Context {I : Type} (ext : I -> LightweightObjectExtent)
  (handle : StripedReadResult -> I -> res StripedReadResult).

(** Handling the reply [i] adds parts that fill the places of its extent. *)
Definition handles (i : I) : Prop := forall r P, collected r P ->
  (forall k, k ∈ P.*1 -> k ∉ buffer_bytes (ext i)) ->
  exists r' subs, handle r i = Ok r' /\ collected r' (P ++ mjoin subs) /\
    Forall2 good (ext_pieces (ext i)) subs.

Fixpoint add_replies (r : StripedReadResult) (items : list I) : res StripedReadResult :=
  match items with
  | [] => mret r
  | i :: items => r ← handle r i; add_replies r items
  end.

Lemma add_replies_ok r P items : collected r P -> Forall handles items ->
  NoDup ((ext <$> items) ≫= buffer_bytes) -> (forall k, k ∈ P.*1 -> k ∉ (ext <$> items) ≫= buffer_bytes) ->
  exists r' subs, add_replies r items = Ok r' /\ collected r' (P ++ mjoin subs) /\
    Forall2 good ((ext <$> items) ≫= ext_pieces) subs.
Proof using.
  intros Hr His. revert r P Hr. induction His as [| i items Hi _ IH]; intros r P Hr Hnd Hfr.
  { exists r, []. cbn. rewrite app_nil_r. split_and!; [done | done | constructor]. }
  rewrite fmap_cons in Hnd, Hfr |- *. rewrite bind_cons in Hnd. setoid_rewrite bind_cons in Hfr.
  rewrite bind_cons. apply NoDup_app in Hnd as (_ & Hd & Hnd).
  destruct (Hi r P Hr) as (r1 & subs1 & E1 & Hc1 & Hg1).
  { intros k Hk Hin. apply (Hfr k Hk), elem_of_app. by left. }
  destruct (IH r1 _ Hc1 Hnd) as (r2 & subs2 & E2 & Hc2 & Hg2).
  { intros k Hk Hin. rewrite fmap_app in Hk. apply elem_of_app in Hk as [Hk | Hk].
    - apply (Hfr k Hk), elem_of_app. by right.
    - apply (Hd k); [| done]. by eapply good_keys. }
  exists r2, (subs1 ++ subs2). cbn [add_replies]. rewrite E1. res_simpl. split; [done |]. split.
  - rewrite join_app, app_assoc. exact Hc2.
  - by apply Forall2_app.
Qed.

End Replies.

Lemma walk_buffers o x bes : walk o x bes ≫= (fun '(o, x, b, n) => seqZ b n) = bes ≫= range.
Proof using.
  revert x. induction bes as [| [b n] bes IH]; intros x; [done |]. cbn [walk]. by rewrite !bind_cons, IH.
Qed.

Lemma exts_buffers exts :
  exts ≫= buffer_bytes = (exts ≫= ext_pieces) ≫= (fun '(o, x, b, n) => seqZ b n).
Proof using.
  induction exts as [| ex exts IH]; [done |]. rewrite !bind_cons, bind_app, IH. f_equal.
  symmetry. apply walk_buffers.
Qed.

Lemma tiled_buffers offset bo su sc spo p ps q : tiled offset bo su sc spo p ps q ->
  ps ≫= (fun '(o, x, b, n) => seqZ b n) = seqZ (p - offset + bo) (q - p) /\ p <= q.
Proof using.
  revert p. induction ps as [| [[[o x] b] n] ps IH]; intros p H; cbn in H.
  { subst. rewrite Z.sub_diag. split; [done | lia]. }
  destruct H as (-> & -> & -> & Hn & [IH' Hq]%IH). split; [| lia].
  rewrite bind_cons, IH', (seqZ_cut _ (q - p) n) by lia. f_equal. f_equal; lia.
Qed.

(** Parts that fill the pieces of a range fill the range. *)
Lemma tiled_good offset bo su sc spo p ps q subs : 0 < su ->
  tiled offset bo su sc spo p ps q -> Forall2 good ps subs ->
  tiles (p - offset + bo) (mjoin subs) (q - offset + bo) /\
  flat (mjoin subs) = (fun f => c (obj_of su sc spo f) (obj_off su sc spo f)) <$> seqZ p (q - p).
Proof using.
  intros Hsu. revert p subs. induction ps as [| [[[o x] b] n] ps IH]; intros p subs H Hg; cbn in H.
  { apply Forall2_nil_inv_l in Hg as ->. subst. rewrite Z.sub_diag. done. }
  destruct H as (-> & -> & -> & Hn & H). apply Forall2_cons_inv_l in Hg as (sub & subs' & [Ht Hf] & Hg & ->).
  destruct (tiled_buffers _ _ _ _ _ _ _ _ H) as [_ Hq]. destruct (IH _ _ H Hg) as [Ht' Hf'].
  change (mjoin (sub :: subs')) with (sub ++ mjoin subs'). split.
  - eapply tiles_app; [exact Ht |]. by replace (p - offset + bo + n) with (p + n - offset + bo) by lia.
  - unfold flat in *. rewrite bind_app, Hf, Hf', (seqZ_cut p (q - p) n), fmap_app by lia.
    f_equal; [| do 2 f_equal; lia]. apply list_eq. intros i. rewrite !list_lookup_fmap.
    destruct (decide (Z.of_nat i < n)); [| by rewrite !lookup_seqZ_ge by lia].
    rewrite !lookup_seqZ_lt by lia. cbn.
    by destruct (obj_in_block su sc spo Hsu p (Z.of_nat i)) as [-> ->]; [lia |].
Qed.

Lemma collected_tiles r Q b e : collected r Q -> tiles b Q e -> partial r = Q.
Proof using.
  intros [Hs Hp _] Ht. eapply StronglySorted_unique_strong; [| exact Hs | by eapply tiles_sorted | done].
  cbn. lia.
Qed.

(** The result of handling the replies of a file range in any order. *)
Lemma replies_assemble {I} (ext : I -> LightweightObjectExtent) handle items l offset trunc bo su sc spo len exts ps :
  0 < su -> 0 <= len < 2 ^ 64 -> loop_inv l offset trunc bo su sc spo (offset + len) exts ps ->
  (ext <$> items) ≡ₚ exts -> Forall (handles ext handle) items ->
  exists Q, add_replies handle no_result items = Ok (mk_result Q len) /\ tiles bo Q (bo + len) /\
    flat Q = (fun f => c (obj_of su sc spo f) (obj_off su sc spo f)) <$> seqZ offset len.
Proof using.
  intros Hsu Hlen [_ _ _ Htl Hp] Hperm His.
  destruct (tiled_buffers _ _ _ _ _ _ _ _ Htl) as [Hb _].
  assert (Hpieces : (ext <$> items) ≫= ext_pieces ≡ₚ ps) by (by rewrite Hperm).
  destruct (add_replies_ok ext handle no_result [] items collected_none His) as (r & subs & E & Hc & Hg).
  { rewrite exts_buffers, Hpieces, Hb. apply NoDup_seqZ. }
  { intros k Hk. by apply not_elem_of_nil in Hk. }
  destruct (Permutation_Forall2 Hpieces Hg) as (subs' & Hs & Hg').
  destruct (tiled_good _ _ _ _ _ _ _ _ _ Hsu Htl Hg') as [Ht Hf].
  replace (offset + len - offset) with len in Hf by lia.
  replace (offset - offset + bo) with bo in Ht by lia.
  replace (offset + len - offset + bo) with (bo + len) in Ht by lia.
  assert (Hc' : collected r (mjoin subs')).
  { destruct Hc as [H1 H2 H3]. cbn [app] in *. constructor; [done | by rewrite H2, Hs |].
    rewrite H3. f_equal. clear -Hs. assert (Hm : mjoin subs ≡ₚ mjoin subs') by (by rewrite Hs).
    induction Hm; cbn in *; unfold intended in *; lia. }
  exists (mjoin subs'). split; [| done]. rewrite E. f_equal.
  pose proof (collected_tiles _ _ _ _ Hc' Ht) as Hq. destruct Hc' as [_ _ Htot].
  rewrite (tiles_intended _ _ _ Ht) in Htot. destruct r as [P t]. cbn in *. subst. f_equal.
  replace (bo + len - bo) with len by lia. apply u64_id. lia.
Qed.

(** ** Sparse replies *)

(** [fill P x b x' b' r]: on top of the parts [P], the bytes [x .. x'] of the object
    have been put at [b .. b'] of the buffer. *)
Definition fill (o : Z) (P : partial_map) (x b x' b' : Z) (r : StripedReadResult) : Prop :=
  exists sub, collected r (P ++ sub) /\ tiles b sub b' /\ flat sub = c o <$> seqZ x (x' - x) /\
    x' - x = b' - b.

Lemma fill_put o P x b x1 b1 r d m n : fill o P x b x1 b1 r ->
  (forall k, k ∈ P.*1 -> ~ b <= k < b + n) -> 0 < m -> b1 + m <= b + n -> zlen d <= Z.min m (2 ^ 32 - 1) ->
  pad (d, m) = c o <$> seqZ x1 m ->
  fill o P x b (x1 + m) (b1 + m) (put_partial r b1 ((partial_at r b1).1 ++ d) m).
Proof using.
  intros (sub & Hc & Ht & Hf & E) Hcl Hm Hb Hd Hpad. pose proof (tiles_le _ _ _ Ht) as Hle.
  assert (Hk : b1 ∉ (P ++ sub).*1).
  { rewrite fmap_app. intros [Hin | Hin]%elem_of_app; [apply (Hcl b1 Hin); lia |].
    pose proof (tiles_keys _ _ _ _ Ht Hin). lia. }
  destruct (put_collected r _ b1 d m Hc Hk) as [Hc' ->]. exists (sub ++ [(b1, (d, m))]).
  rewrite app_assoc. split_and!; [done | | | lia].
  - eapply tiles_app; [exact Ht |]. by cbn.
  - unfold flat in *. rewrite bind_app, Hf, (seqZ_cut x (x1 + m - x) (x1 - x)), fmap_app by lia.
    f_equal. rewrite bind_cons. change ([] ≫= _) with (@nil Z). rewrite app_nil_r. cbn [snd]. rewrite Hpad.
    do 2 f_equal; lia.
Qed.

(** The entries of a sparse reply follow each other from [p] on. *)
Fixpoint ordered (p : Z) (s : list (Z * Z)) : Prop :=
  match s with
  | [] => True
  | e :: s => p <= e.1 /\ 0 <= e.2 /\ e.1 + e.2 < 2 ^ 64 /\ ordered (e.1 + e.2) s
  end.

Definition entry_bytes (o : Z) (e : Z * Z) : list Z := c o <$> seqZ e.1 e.2.

Definition in_entry (y : Z) (e : Z * Z) : Prop := e.1 <= y < e.1 + e.2.

(** What no entry covers is zero. *)
Definition holes (o x lim : Z) (s : list (Z * Z)) : Prop :=
  forall y, x <= y < lim -> (forall e, e ∈ s -> ~ in_entry y e) -> c o y = 0.

(** A sparse reply for the bytes [x .. x + len) of an object. *)
Definition sparse_reply (o x len : Z) (s : list (Z * Z)) (bl : list Z) : Prop :=
  ordered x s /\ bl = s ≫= entry_bytes o /\ zlen bl < 2 ^ 32 /\ holes o x (x + len) s.

(** The entries and the data left when the reply has been used up to [x]. *)
Definition sparse_at (o x : Z) (s : list (Z * Z)) (bl : list Z) : Prop :=
  match s with
  | [] => True
  | e :: s => 0 <= e.2 /\ x <= e.1 + e.2 < 2 ^ 64 /\ ordered (e.1 + e.2) s /\ zlen bl < 2 ^ 32 /\
      bl = (c o <$> seqZ (Z.max x e.1) (e.1 + e.2 - Z.max x e.1)) ++ (s ≫= entry_bytes o)
  end.

Lemma ordered_start p s e : ordered p s -> e ∈ s -> p <= e.1.
Proof using.
  revert p. induction s as [| e' s IH]; intros p H Hin; [by apply not_elem_of_nil in Hin |].
  cbn in H. destruct H as (? & ? & ? & H). apply elem_of_cons in Hin as [-> | Hin]; [done |].
  specialize (IH _ H Hin). lia.
Qed.

Lemma sparse_at_start o p x s : ordered p s -> x <= p -> zlen (s ≫= entry_bytes o) < 2 ^ 32 -> sparse_at o x s (s ≫= entry_bytes o).
Proof using.
  intros H Hx Hl. destruct s as [| e s]; [done |]. cbn in H. destruct H as (? & ? & ? & H). cbn.
  split_and!; [done | lia | lia | done | done |]. rewrite Z.max_r by lia. rewrite Z.add_simpl_l. done.
Qed.

Lemma holes_zero o x lim s p m : holes o x lim s -> ordered p s -> x + m <= p -> x + m <= lim ->
  pad ([], m) = c o <$> seqZ x m.
Proof using.
  intros Hh Ho Hp Hl. unfold pad, zero_bytes. cbn [fst snd app]. change (zlen []) with 0.
  rewrite Z.sub_0_r. apply list_eq. intros i. rewrite list_lookup_fmap. destruct (decide (Z.of_nat i < m)).
  - rewrite lookup_seqZ_lt by lia. cbn. rewrite Hh; [apply lookup_replicate; lia | lia |].
    intros e He Hin. pose proof (ordered_start _ _ _ Ho He). unfold in_entry in Hin. lia.
  - rewrite lookup_seqZ_ge by lia. apply lookup_ge_None. rewrite length_replicate. lia.
Qed.

Lemma splice_app (a b : list Z) n : zlen a = n -> 0 < n -> zlen (a ++ b) < 2 ^ 32 -> splice (a ++ b) n = Ok (a, b).
Proof using.
  intros Ha Hn Hw. unfold splice. rewrite bl_length_id by done. rewrite zlen_app in *.
  pose proof (zlen_nonneg b). rewrite u32_id by (unfold is_u32; lia). destruct (Z.eqb_spec n 0); [lia |].
  destruct (Z.eqb_spec (zlen a + zlen b) 0); [lia |].
  destruct (Z.ltb_spec (zlen a + zlen b) n); [lia |]. cbn [orb].
  replace (Z.to_nat n) with (length a) by (unfold zlen in Ha; lia).
  by rewrite take_app_length, drop_app_length.
Qed.

Lemma zlen_fmap_seqZ (f : Z -> Z) x n : 0 <= n -> zlen (f <$> seqZ x n) = n.
Proof using. intros. unfold zlen. rewrite length_fmap, length_seqZ. lia. Qed.

Lemma pad_full (d : list Z) n : zlen d = n -> pad (d, n) = d.
Proof using. intros <-. unfold pad. cbn. rewrite Z.sub_diag. by rewrite app_nil_r. Qed.

(** The copying half of a round: the entry [e] starts at or before [x1]. *)
Lemma sparse_copy o P x b x1 b1 r n e s : fill o P x b x1 b1 r ->
  (forall k, k ∈ P.*1 -> ~ b <= k < b + n) -> 0 <= x1 -> 0 <= b1 ->
  e.1 <= x1 <= e.1 + e.2 -> e.1 + e.2 < 2 ^ 64 -> 0 < b + n - b1 < 2 ^ 32 -> b + n < 2 ^ 64 ->
  ordered (e.1 + e.2) s ->
  let actual := Z.min (e.1 + e.2 - x1) (b + n - b1) in
  let bl := (c o <$> seqZ x1 (e.1 + e.2 - x1)) ++ (s ≫= entry_bytes o) in
  zlen bl < 2 ^ 32 ->
  exists r' bl', fill o P x b (x1 + actual) (b1 + actual) r' /\
    sparse_at o (x1 + actual) (e :: s) bl' /\
    (actual = e.1 + e.2 - x1 -> bl' = s ≫= entry_bytes o) /\
    (if 0 <? actual then
       '(data, bl) ← splice bl actual;
       mret (put_partial r b1 ((partial_at r b1).1 ++ data) actual, bl,
             u64 (x1 + actual), u64 (b1 + actual), u64 (b + n - b1 - actual))
     else mret (r, bl, x1, b1, b + n - b1)) =
    Ok (r', bl', x1 + actual, b1 + actual, b + n - b1 - actual).
Proof using.
  intros Hf Hcl Hx Hb He Hw Hn Hbw Ho actual bl Hbl32.
  destruct (Z.ltb_spec 0 actual) as [Hpos | Hz].
  - assert (Hbl : bl = (c o <$> seqZ x1 actual) ++
        ((c o <$> seqZ (x1 + actual) (e.1 + e.2 - (x1 + actual))) ++ (s ≫= entry_bytes o))).
    { unfold bl. rewrite (seqZ_cut x1 _ actual), fmap_app, <- app_assoc by lia.
      do 4 f_equal. lia. }
    rewrite Hbl in Hbl32 |- *. rewrite splice_app by (rewrite ?zlen_fmap_seqZ; lia). res_simpl.
    rewrite zlen_app, zlen_fmap_seqZ in Hbl32 by lia. rewrite !u64_id by lia.
    eexists _, _. split_and!; [| | | done].
    + eapply fill_put; [done | exact Hcl | done | lia | rewrite zlen_fmap_seqZ; lia |].
      apply pad_full, zlen_fmap_seqZ. lia.
    + cbn. rewrite Z.max_l by lia. split_and!; [lia | lia | lia | done | lia | done].
    + intros E. rewrite E. by replace (e.1 + e.2 - (x1 + (e.1 + e.2 - x1))) with 0 by lia.
  - assert (E : actual = 0) by lia. rewrite E. exists r, bl. rewrite !Z.add_0_r, Z.sub_0_r.
    split_and!; [done | | | done].
    + cbn. rewrite Z.max_l by lia. split_and!; [lia | lia | lia | done | lia | done].
    + intros E'. unfold bl. by rewrite <- E'.
Qed.

Lemma sparse_loop_ok o P x b n lim s r bl bl_off x1 b1 : fill o P x b x1 b1 r ->
  (forall k, k ∈ P.*1 -> ~ b <= k < b + n) -> 0 <= x -> 0 <= b -> b1 <= b + n ->
  n < 2 ^ 32 -> b + n < 2 ^ 64 -> x + n < 2 ^ 64 -> x + n <= lim ->
  sparse_at o x1 s bl -> holes o x1 lim s -> s = [] \/ bl_off = x1 ->
  exists r' bl' s' bl_off', sparse_loop r bl s bl_off b1 (b + n - b1) = Ok (r', bl', s', bl_off') /\
    fill o P x b (x + n) (b + n) r' /\ sparse_at o (x + n) s' bl' /\ holes o (x + n) lim s' /\
    (s' = [] \/ bl_off' = x + n).
Proof using.
  intros Hf Hcl Hx Hb. revert r bl bl_off x1 b1 Hf.
  induction s as [| e s IH]; intros r bl bl_off x1 b1 Hf Hb1 Hn Hbw Hxw Hlim Hat Hh Hoff;
    pose proof Hf as (_ & _ & Htl%tiles_le & _ & Ed); cbn [sparse_loop];
    (destruct (Z.ltb_spec 0 (b + n - b1)) as [Hpos | Hz]; cbn [negb];
      [| assert (x1 = x + n) as -> by lia; assert (b1 = b + n) as -> by lia; eexists _, _, _, _; by split_and!]).
  { eexists _, _, _, _. split; [done |]. split_and!; [| done | | by left].
    - pose proof (fill_put o P x b x1 b1 r [] (b + n - b1) n Hf Hcl Hpos) as H.
      rewrite app_nil_r in H. replace (x1 + (b + n - b1)) with (x + n) in H by lia.
      replace (b1 + (b + n - b1)) with (b + n) in H by lia. apply H; [lia | |].
      + change (zlen []) with 0. lia.
      + eapply (holes_zero o x1 lim [] (x1 + (b + n - b1))); [done | done | lia | lia].
    - intros y Hy He. apply Hh; [lia | done]. }
  destruct Hoff as [? | ->]; [done |]. destruct e as [e1 e2].
  pose proof Hat as (He2 & Hend & Ho & Hl32 & Hbl). cbn [fst snd] in *.
  assert (Hskip : x1 = e1 + e2 \/ e2 = 0 -> holes o x1 lim s).
  { intros E y Hy Hne. apply Hh; [done |]. intros e' [-> | Hin]%elem_of_cons; [unfold in_entry; cbn; lia | by apply Hne]. }
  destruct (Z.eqb_spec e2 0) as [E0 | Hne].
  { apply IH with x1; try done; [| by apply Hskip; right | by right].
    rewrite Hbl. replace (e1 + e2 - Z.max x1 e1) with 0 by lia. cbn [seqZ fmap list_fmap app].
    eapply sparse_at_start; [exact Ho | lia |].
    rewrite Hbl, zlen_app in Hl32. pose proof (zlen_nonneg (c o <$> seqZ (Z.max x1 e1) (e1 + e2 - Z.max x1 e1))). lia. }
  (* the hole in front of the entry *)
  cbn zeta. set (gap := if x1 <? e1 then Z.min (u64 (e1 - x1)) (b + n - b1) else 0).
  assert (Hgap : gap = Z.min (Z.max x1 e1 - x1) (b + n - b1)).
  { unfold gap. destruct (Z.ltb_spec x1 e1); [rewrite u64_id by lia |]; lia. }
  set (r1 := if x1 <? e1 then put_partial r b1 (partial_at r b1).1 gap else r).
  assert (Hf1 : fill o P x b (x1 + gap) (b1 + gap) r1).
  { unfold r1. destruct (Z.ltb_spec x1 e1).
    - rewrite <- (app_nil_r (partial_at r b1).1). eapply fill_put; [done | exact Hcl | lia | lia | |].
      + change (zlen []) with 0. lia.
      + eapply (holes_zero o x1 lim ((e1, e2) :: s) e1); [done | | lia | lia]. cbn. split_and!; [lia.. | done].
    - replace gap with 0 by lia. by rewrite !Z.add_0_r. }
  clearbody r1. clearbody gap. rewrite (u64_id (x1 + gap)), (u64_id (b1 + gap)), (u64_id (b + n - b1 - gap)) by lia.
  assert (Hh1 : holes o (x1 + gap) lim ((e1, e2) :: s)) by (intros y Hy; apply Hh; lia).
  destruct (Z.eqb_spec (b + n - b1 - gap) 0) as [Eg | Hgn].
  { assert (x1 + gap = x + n) as Ex by lia. assert (b1 + gap = b + n) as Eb by lia.
    rewrite Ex, Eb in Hf1. rewrite Ex in Hh1 |- *. eexists _, _, _, _. split; [done |].
    split_and!; [done | | done | by right].
    cbn. split_and!; [lia | lia | lia | done | done |]. rewrite Hbl.
    assert (x + n <= e1 /\ x1 <= e1) as [Hm1 Hm2] by (clear -Hgap Eg Ex Hpos; lia).
    by rewrite !Z.max_r by done. }
  assert (Eg : x1 + gap = Z.max x1 e1) by lia. rewrite ensure_Ok by lia. res_simpl.
  rewrite (u64_id (e1 + e2)), (u64_id (e1 + e2 - (x1 + gap))) by lia.
  destruct (sparse_copy o P x b (x1 + gap) (b1 + gap) r1 n (e1, e2) s) as (r2 & bl2 & Hf2 & Hat2 & Hbl2 & Hrun);
    [done | done | lia | lia | cbn; lia | cbn; lia | lia | done | done | cbn [fst snd]; by rewrite Eg, <- Hbl |]. cbn [fst snd] in *.
  rewrite <- Eg in Hbl. rewrite <- Hbl in Hrun.
  replace (b + n - (b1 + gap)) with (b + n - b1 - gap) in * by lia. rewrite Hrun. res_simpl.
  set (actual := Z.min (e1 + e2 - (x1 + gap)) (b + n - b1 - gap)) in *.
  destruct (Z.eqb_spec actual (e1 + e2 - (x1 + gap))) as [Ea | Hna].
  - replace (b + n - b1 - gap - actual) with (b + n - (b1 + gap + actual)) by lia.
    apply IH with (x1 + gap + actual); try done; [lia | | | by right].
    + destruct Hat2 as (_ & _ & _ & Hl2 & _). rewrite (Hbl2 Ea) in Hl2 |- *.
      eapply sparse_at_start; [exact Ho | lia | done].
    + intros y Hy Hno. apply Hh; [lia |]. intros e' [-> | Hin]%elem_of_cons; [unfold in_entry; cbn; lia | by apply Hno].
  - assert (Ex : x1 + gap + actual = x + n) by lia. assert (Eb : b1 + gap + actual = b + n) by lia.
    rewrite Ex, Eb in Hf2. rewrite Ex in Hat2 |- *. eexists _, _, _, _. split; [done |].
    split_and!; [done | done | | by right].
    intros y Hy. apply Hh. lia.
Qed.

(** Buffer extents inside the 64-bit buffer. *)
Definition be_ok (be : Z * Z) : Prop := 0 <= be.1 /\ 0 < be.2 < 2 ^ 32 /\ be.1 + be.2 < 2 ^ 64.

Lemma sum_lengths_nonneg bes : Forall be_ok bes -> 0 <= sum_lengths bes.
Proof using. induction 1 as [| be bes [? [? ?]] _ IH]; cbn; lia. Qed.

Lemma sparse_extents_ok o r P bl s bl_off x bes : collected r P -> Forall be_ok bes ->
  NoDup (bes ≫= range) -> (forall k, k ∈ P.*1 -> k ∉ bes ≫= range) -> 0 <= x ->
  x + sum_lengths bes < 2 ^ 64 -> sparse_at o x s bl -> holes o x (x + sum_lengths bes) s ->
  s = [] \/ bl_off = x ->
  exists r' subs, sparse_extents r bl s bl_off bes = Ok r' /\ collected r' (P ++ mjoin subs) /\
    Forall2 good (walk o x bes) subs.
Proof using.
  intros Hr Hbes. revert r P bl s bl_off x Hr.
  induction Hbes as [| [b n] bes (Hb & Hn & Hbw) Hbes IH];
    intros r P bl s bl_off x Hr Hnd Hfr Hx Hw Hat Hh Hoff.
  { exists r, []. cbn. rewrite app_nil_r. split_and!; [done | done | constructor]. }
  cbn [fst snd sum_lengths] in *. rewrite bind_cons in Hnd. setoid_rewrite bind_cons in Hfr.
  apply NoDup_app in Hnd as (_ & Hd & Hnd). pose proof (sum_lengths_nonneg _ Hbes).
  destruct (sparse_loop_ok o P x b n (x + (n + sum_lengths bes)) s r bl bl_off x b)
    as (r1 & bl1 & s1 & off1 & E1 & (sub & Hc & Ht & Hf & _) & Hat1 & Hh1 & Hoff1); try done; try lia.
  { exists []. rewrite app_nil_r, Z.sub_diag. split_and!; [done | done | done | lia]. }
  { intros k Hk Hin. apply (Hfr k Hk), elem_of_app. left. apply elem_of_seqZ. cbn. lia. }
  replace (b + n - b) with n in E1 by lia. rewrite Z.add_simpl_l in Hf.
  destruct (IH r1 (P ++ sub) bl1 s1 off1 (x + n) Hc Hnd) as (r2 & subs & E2 & Hc2 & Hg2);
    [| lia | lia | done | by rewrite <- Z.add_assoc | done |].
  { intros k Hk Hin. rewrite fmap_app in Hk. apply elem_of_app in Hk as [Hk | Hk].
    - apply (Hfr k Hk), elem_of_app. by right.
    - apply (Hd k); [| done]. apply elem_of_seqZ. cbn. pose proof (tiles_keys _ _ _ _ Ht Hk). lia. }
  exists r2, (sub :: subs). cbn [sparse_extents fst snd]. rewrite E1. res_simpl. split; [done |]. split.
  - change (mjoin (sub :: subs)) with (sub ++ mjoin subs). by rewrite app_assoc.
  - by constructor.
Qed.

(** ** The ways of adding a reply *)

Definition add_full (r : StripedReadResult) (i : LightweightObjectExtent * list Z) : res StripedReadResult :=
  '(r, _) ← add_partial_result r i.2 (buffer_extents i.1); mret r.

Definition add_moved (r : StripedReadResult) (i : LightweightObjectExtent * list Z) : res StripedReadResult :=
  '(r, _) ← add_partial_result_move r i.2 (buffer_extents i.1); mret r.

Definition add_sparse (r : StripedReadResult) (i : LightweightObjectExtent * (list (Z * Z) * list Z))
    : res StripedReadResult :=
  add_partial_sparse_result r i.2.2 i.2.1 (ex_offset i.1) (buffer_extents i.1).

Definition add_sparse_moved (r : StripedReadResult) (i : LightweightObjectExtent * (list (Z * Z) * list Z))
    : res StripedReadResult :=
  add_partial_sparse_result_move r i.2.2 i.2.1 (ex_offset i.1) (buffer_extents i.1).

(** The extents a reply can be for. *)
Record target (ex : LightweightObjectExtent) : Prop := {
  ta_buffers : Forall be_ok (buffer_extents ex);
  ta_nodup : NoDup (buffer_bytes ex);
  ta_len : sum_lengths (buffer_extents ex) = ex_length ex;
  ta_off : 0 <= ex_offset ex;
  ta_bound : ex_offset ex + ex_length ex < 2 ^ 32;
}.

Lemma add_full_handles i : target i.1 ->
  full_reply (object_no i.1) (ex_offset i.1) (ex_length i.1) i.2 -> handles fst add_full i.
Proof using.
  intros [Hb Hnd Hl Ho Hw] Hf r P Hr Hfr.
  destruct (add_partial_ok r P i.2 (object_no i.1) (ex_offset i.1) (buffer_extents i.1))
    as (r' & subs & bl' & E & Hc & Hg); try done.
  - eapply Forall_impl; [exact Hb |]. intros be (? & ? & ?). lia.
  - by rewrite Hl.
  - destruct Hf. lia.
  - exists r', subs. unfold add_full. rewrite E. by res_simpl.
Qed.

Lemma add_moved_handles i : target i.1 ->
  full_reply (object_no i.1) (ex_offset i.1) (ex_length i.1) i.2 -> handles fst add_moved i.
Proof using.
  intros Ht Hf r P Hr Hfr. destruct (add_full_handles i Ht Hf r P Hr Hfr) as (r' & subs & E & Hc & Hg).
  exists r', subs. split; [| done]. unfold add_full, add_moved, add_partial_result_move in *.
  destruct (buffer_extents i.1) as [| [b n] [|]] eqn:Eb; try done. cbn [add_partial_result] in E.
  destruct Ht as [Hb _ Hl _ _], Hf as [Hlen _]. rewrite Eb in *. cbn in Hl. cbn [fst snd] in *.
  rewrite Forall_singleton in Hb. destruct Hb as (? & ? & ?). cbn [fst snd] in *.
  rewrite splice_min in E by lia.
  assert (Hk : b ∉ P.*1).
  { intros Hin. apply (Hfr b Hin). unfold buffer_bytes. rewrite Eb. apply list_elem_of_bind.
    exists (b, n). split; [apply elem_of_seqZ; cbn; lia | left]. }
  destruct (put_collected r P b [] n Hr Hk) as [_ Hat]. rewrite Hat in E. res_simpl. revert E. res_simpl.
  cbn [app]. rewrite take_ge by (unfold zlen in Hlen; lia). done.
Qed.

Lemma sparse_extents_handle ex s bl r P : target ex -> sparse_reply (object_no ex) (ex_offset ex) (ex_length ex) s bl ->
  collected r P -> (forall k, k ∈ P.*1 -> k ∉ buffer_bytes ex) ->
  exists r' subs, sparse_extents r bl s (ex_offset ex) (buffer_extents ex) = Ok r' /\
    collected r' (P ++ mjoin subs) /\ Forall2 good (ext_pieces ex) subs.
Proof using.
  intros [Hb Hnd Hl Hoff Hw] (Ho & Hbl & Hl32 & Hh) Hr Hfr.
  apply sparse_extents_ok; try done; [lia | subst; eapply sparse_at_start; [exact Ho | lia | done]
    | by rewrite Hl | by right].
Qed.

(** A sparse reply without entries is a full one without data. *)
Lemma sparse_reply_nil ex bl : target ex -> sparse_reply (object_no ex) (ex_offset ex) (ex_length ex) [] bl ->
  full_reply (object_no ex) (ex_offset ex) (ex_length ex) bl.
Proof using.
  intros [Hb _ Hl _ _] (_ & -> & _ & Hh). split.
  - change (zlen _) with 0. rewrite <- Hl. by apply sum_lengths_nonneg.
  - intros y Hy. cbn. apply Hh; [lia |]. intros e He. by apply not_elem_of_nil in He.
Qed.

Lemma add_sparse_handles (moved : bool) i : target i.1 ->
  sparse_reply (object_no i.1) (ex_offset i.1) (ex_length i.1) i.2.1 i.2.2 ->
  handles fst (if moved then add_sparse_moved else add_sparse) i.
Proof using.
  intros Ht Hs r P Hr Hfr. destruct i as [ex [[| e s] bl]]; cbn [fst snd] in *.
  - pose proof (sparse_reply_nil _ _ Ht Hs) as Hf.
    destruct moved; [exact (add_moved_handles (ex, bl) Ht Hf r P Hr Hfr) | exact (add_full_handles (ex, bl) Ht Hf r P Hr Hfr)].
  - destruct moved; exact (sparse_extents_handle ex (e :: s) bl r P Ht Hs Hr Hfr).
Qed.

End Content.
