(* ===== verification/Filer.v ===== *)
(** * Files over an object store: src/src/osdc/Filer.h, the scatter/gather part of
    src/src/osdc/Objecter.h and Objecter.cc

    A file operation is striped into object extents ([Striper.v]) and sent to the
    objects; the replies of a read are gathered.  What a single object does is
    the business of the OSDs: it is the interface [ObjectStore].  The callbacks
    and flags of the asynchronous calls are left out: a write is the list of its
    object operations, which the OSDs may carry out in any order. *)

From S2P Require Import Prelude OsdMap Striper.

(** ** Object names

    [snprintf(buf, sizeof(buf), "%llx.%%08llx", ino)], then applied to the object
    number. *)

Definition hex_char (d : Z) : Z := if d <? 10 then 48 + d else 87 + d.

(** [%llx]; 16 digits are enough for 64 bits. *)
Fixpoint to_hex (digits : nat) (n : Z) : list Z :=
  match digits with
  | O => []
  | S digits => if n <? 16 then [hex_char n] else to_hex digits (n / 16) ++ [hex_char (n mod 16)]
  end.

(** [%08llx]. *)
Definition to_hex8 (n : Z) : list Z :=
  let h := to_hex 16 n in replicate (8 - length h) 48 ++ h.

Definition inode_oid (ino objectno : Z) : list Z := to_hex 16 ino ++ [46] ++ to_hex8 objectno.

Definition file_to_extents_ino (ino : Z) (layout : file_layout_t) (offset len trunc_size : Z)
    : res (list ObjectExtent) :=
  file_to_extents_vec (inode_oid ino) layout offset len trunc_size [] 0.

(** ** Scatter and gather *)

(** The arguments of [Objecter::read_trunc] and [Objecter::write_trunc]. *)
Record ReadOp : Type := mk_read {
  ro_oid : list Z;
  ro_oloc : object_locator;
  ro_off : Z;
  ro_len : Z;
  ro_trunc_size : Z;
  ro_trunc_seq : Z;
}.

Record WriteOp : Type := mk_write {
  wo_oid : list Z;
  wo_oloc : object_locator;
  wo_off : Z;
  wo_len : Z;
  wo_data : list Z;
  wo_trunc_size : Z;
  wo_trunc_seq : Z;
}.

Definition read_of (trunc_seq : Z) (p : ObjectExtent) : ReadOp :=
  mk_read (oe_oid p) (oe_oloc p) (oe_offset p) (oe_length p) (oe_truncate_size p) trunc_seq.

(** [sg_read_trunc]: one read per extent. *)
Definition sg_read_trunc (extents : list ObjectExtent) (trunc_seq : Z) : list ReadOp :=
  read_of trunc_seq <$> extents.

(** The loop of [_sg_read_finish]; running out of results is an access past the
    end of the vector. *)
Fixpoint gather_results (r : StripedReadResult) (extents : list ObjectExtent)
    (resultbl : list (list Z)) : res StripedReadResult :=
  match extents, resultbl with
  | [], _ => mret r
  | _ :: _, [] => Fault
  | eit :: extents, bit :: resultbl =>
      '(r, _) ← add_partial_result r bit (oe_buffer_extents eit);
      gather_results r extents resultbl
  end.

Definition _sg_read_finish (extents : list ObjectExtent) (resultbl : list (list Z)) : res (list Z) :=
  if 1 <? zlen extents then
    r ← gather_results no_result extents resultbl;
    '(bl, _) ← assemble_result r [] false;
    mret bl
  else match resultbl with [] => Fault | bl :: _ => mret bl end.

(** [it.seek(first)] and [it.copy(second, cur)] take [unsigned] arguments and throw
    past the end of [bl]. *)
Fixpoint gather_buffer (bl : list Z) (extents : list (Z * Z)) (cur : list Z) : res (list Z) :=
  match extents with
  | [] => mret cur
  | bit :: extents =>
      let off := u32 bit.1 in
      let len := u32 bit.2 in
      if zlen bl <? off + len then Fault
      else gather_buffer bl extents (cur ++ take (Z.to_nat len) (drop (Z.to_nat off) bl))
  end.

Definition write_of (trunc_seq : Z) (p : ObjectExtent) (cur : list Z) : WriteOp :=
  mk_write (oe_oid p) (oe_oloc p) (oe_offset p) (oe_length p) cur (oe_truncate_size p) trunc_seq.

Fixpoint scatter_writes (bl : list Z) (trunc_seq : Z) (extents : list ObjectExtent)
    : res (list WriteOp) :=
  match extents with
  | [] => mret []
  | p :: extents =>
      cur ← gather_buffer bl (oe_buffer_extents p) [];
      _ ← ensure (bl_length cur =? oe_length p);
      ops ← scatter_writes bl trunc_seq extents;
      mret (write_of trunc_seq p cur :: ops)
  end.

Definition sg_write_trunc (extents : list ObjectExtent) (bl : list Z) (trunc_seq : Z)
    : res (list WriteOp) :=
  match extents with
  | [p] => mret [write_of trunc_seq p bl]
  | _ => scatter_writes bl trunc_seq extents
  end.

(** ** The objects

    The name and the locator of an object are its key. *)

Definition object_key : Type := list Z * object_locator.

#[export] Instance object_locator_eq_dec : EqDecision object_locator.
Proof. solve_decision. Defined.

#[export] Instance object_key_eq_dec : EqDecision object_key.
Proof. unfold object_key. apply _. Defined.

Class ObjectStore (S : Type) : Type := {
  store_read : S -> object_key -> Z -> Z -> Z -> Z -> list Z;
  store_write : S -> object_key -> Z -> list Z -> Z -> Z -> S;
  store_byte : S -> object_key -> Z -> Z;
}.

(** What the OSDs promise for operations with truncation sequence 0: a read
    returns the bytes of the object up to its end, where bytes that were never
    written count as zero, and a write changes the bytes it covers. *)
Class ObjectStoreLaws (S : Type) `{!ObjectStore S} : Prop := {
  store_read_len s k off len t : 0 <= off -> 0 <= len -> zlen (store_read s k off len t 0) <= len;
  store_read_byte s k off len t i : 0 <= off -> 0 <= i < len ->
    default 0 (store_read s k off len t 0 !! Z.to_nat i) = store_byte s k (off + i);
  store_write_same s k off data t y : 0 <= off -> 0 <= y ->
    store_byte (store_write s k off data t 0) k y =
    if decide (off <= y < off + zlen data) then default 0 (data !! Z.to_nat (y - off))
    else store_byte s k y;
  store_write_other s k k' off data t y : k <> k' ->
    store_byte (store_write s k off data t 0) k' y = store_byte s k' y;
}.

Section Files.
Context {S : Type} `{!ObjectStore S}.

Definition do_read (s : S) (op : ReadOp) : list Z :=
  store_read s (ro_oid op, ro_oloc op) (ro_off op) (ro_len op) (ro_trunc_size op) (ro_trunc_seq op).

Definition do_write (s : S) (op : WriteOp) : S :=
  store_write s (wo_oid op, wo_oloc op) (wo_off op) (wo_data op) (wo_trunc_size op) (wo_trunc_seq op).

Definition do_writes (s : S) (ops : list WriteOp) : S := foldl do_write s ops.

(** [Filer::read_trunc] and [Filer::write_trunc], with the replies of the OSDs. *)
Definition filer_read (s : S) (ino : Z) (layout : file_layout_t) (offset len : Z)
    (truncate_size truncate_seq : Z) : res (list Z) :=
  extents ← file_to_extents_ino ino layout offset len truncate_size;
  _sg_read_finish extents (do_read s <$> sg_read_trunc extents truncate_seq).

Definition filer_write (ino : Z) (layout : file_layout_t) (offset len : Z) (bl : list Z)
    (truncate_size truncate_seq : Z) : res (list WriteOp) :=
  extents ← file_to_extents_ino ino layout offset len truncate_size;
  sg_write_trunc extents bl truncate_seq.

End Files.
