(* ===== verification/FilerThms.v ===== *)
(** * A striped file is a flat array of bytes

    Reading and writing through the filer is shown to act on the bytes of the
    file, whatever store implements the objects and in whatever order the object
    writes are carried out. *)

From stdpp Require Import sorting.
From S2P Require Import Prelude OsdMap Striper StriperSpec StriperExtents StriperThms StriperRead Filer.

(** ** Object names are injective *)

Definition hex_val (c : Z) : Z := if c <? 58 then c - 48 else c - 87.

Definition from_hex (h : list Z) : Z := foldl (fun v c => v * 16 + hex_val c) 0 h.

Lemma hex_val_char d : 0 <= d < 16 -> hex_val (hex_char d) = d.
Proof.
  intros Hd. unfold hex_val, hex_char. destruct (Z.ltb_spec d 10).
  - destruct (Z.ltb_spec (48 + d) 58); lia.
  - destruct (Z.ltb_spec (87 + d) 58); lia.
Qed.

Lemma from_to_hex k n : 0 <= n < 16 ^ Z.of_nat k -> from_hex (to_hex k n) = n.
Proof.
  revert n. induction k as [| k IH]; intros n Hn; [change (16 ^ Z.of_nat 0) with 1 in Hn; cbn; lia |].
  cbn [to_hex]. destruct (Z.ltb_spec n 16).
  - unfold from_hex. cbn. rewrite hex_val_char by lia. lia.
  - unfold from_hex in *. rewrite foldl_app, IH.
    + cbn. pose proof (Z.mod_pos_bound n 16). rewrite hex_val_char by lia.
      pose proof (Z.div_mod n 16). lia.
    + split; [apply Z.div_pos; lia |]. apply Z.div_lt_upper_bound; [lia |].
      rewrite Nat2Z.inj_succ, Z.pow_succ_r in Hn by lia. lia.
Qed.

Lemma from_to_hex8 n : 0 <= n < 2 ^ 64 -> from_hex (to_hex8 n) = n.
Proof.
  intros Hn. unfold to_hex8, from_hex. rewrite foldl_app.
  assert (H0 : forall m, foldl (fun v c => v * 16 + hex_val c) 0 (replicate m 48) = 0)
    by (intros m; induction m; [done | cbn; done]).
  rewrite H0. by apply (from_to_hex 16).
Qed.

Lemma inode_oid_inj ino o o' : 0 <= o < 2 ^ 64 -> 0 <= o' < 2 ^ 64 ->
  inode_oid ino o = inode_oid ino o' -> o = o'.
Proof.
  intros Ho Ho' E. unfold inode_oid in E. apply app_inv_head, app_inv_head in E.
  apply (f_equal from_hex) in E. by rewrite !from_to_hex8 in E.
Qed.

#[local] Opaque inode_oid.

(** ** Facts about the extents of a range *)

Section Range.
Context (l : file_layout_t) (Hl : layout_ok l).

Definition l_obj : Z -> Z := obj_of (stripe_unit l) (stripe_count l) (per_object l).

Definition l_xoff : Z -> Z := obj_off (stripe_unit l) (stripe_count l) (per_object l).

Lemma l_obj_file f : l_file_off l (l_obj f) (l_xoff f) = f.
Proof using Hl.
  pose proof (per_object_pos l Hl). destruct Hl. apply file_off_obj; lia.
Qed.

Lemma l_file_obj o x : 0 <= x < object_size l -> l_obj (l_file_off l o x) = o /\ l_xoff (l_file_off l o x) = x.
Proof using Hl.
  pose proof (per_object_pos l Hl). rewrite (per_object_eq l Hl). destruct Hl. apply obj_file_off; lia.
Qed.

Lemma l_obj_bounds f : 0 <= f < 2 ^ 64 -> 0 <= l_obj f < 2 ^ 64 /\ 0 <= l_xoff f < object_size l.
Proof using Hl.
  intros Hf. pose proof (per_object_pos l Hl). rewrite (per_object_eq l Hl). destruct Hl.
  split; [| apply obj_off_range; lia].
  destruct (obj_bounds (stripe_unit l) (stripe_count l) (per_object l) ltac:(lia) ltac:(lia) ltac:(lia) f (2 ^ 64) Hf)
    as (_ & ? & _). done.
Qed.

Lemma eff_obj f : obj_of (eff_su l) (stripe_count l) (eff_spo l) f = l_obj f /\
  obj_off (eff_su l) (stripe_count l) (eff_spo l) f = l_xoff f.
Proof using Hl.
  destruct (eff_geometry l Hl) as (Hsu & Hspo & Eos & Hoff). assert (0 < stripe_count l) by (destruct Hl; lia).
  pose proof (file_off_obj (eff_su l) (stripe_count l) (eff_spo l) ltac:(lia) ltac:(lia) Hspo f) as E.
  rewrite Hoff in E. set (o := obj_of _ _ _ f) in *. set (x := obj_off _ _ _ f) in *.
  destruct (l_file_obj o x) as [E1 E2].
  { rewrite <- Eos. apply obj_off_range; lia. }
  rewrite E in E1, E2. done.
Qed.

Context (offset len trunc bo : Z) (Hof : 0 <= offset) (Hlen : 0 < len) (Hw : offset + len < 2 ^ 64).
Context (Hbo : 0 <= bo) (Hbw : bo + len < 2 ^ 64).
Context (exts : list LightweightObjectExtent) (ps : list piece).
Context (Hinv : loop_inv l offset trunc bo (eff_su l) (stripe_count l) (eff_spo l) (offset + len) exts ps).

(** The bytes of an extent: those of its object in the range. *)
Lemma ext_range ex : ex ∈ exts -> 0 <= object_no ex /\ 0 < ex_length ex /\
  forall x, ex_offset ex <= x < ex_offset ex + ex_length ex <->
    0 <= x < object_size l /\ offset <= l_file_off l (object_no ex) x < offset + len.
Proof using Hinv Hl.
  intros Hex. destruct (eff_geometry l Hl) as (_ & _ & Eos & Hoff).
  destruct (proj1 (Forall_forall _ _) (li_ok _ _ _ _ _ _ _ _ _ _ Hinv) ex Hex) as [Hno _ Hpos _ Hrg].
  split; [done |]. split; [done |]. intros x. by rewrite <- Eos, <- Hoff.
Qed.

Lemma ext_object_bound ex : ex ∈ exts -> 0 <= object_no ex < 2 ^ 64 /\ 0 <= ex_offset ex /\
  ex_offset ex + ex_length ex <= object_size l.
Proof using Hinv Hl Hof Hw.
  intros Hex. destruct (ext_range ex Hex) as (Hno & Hpos & Hr).
  destruct (proj1 (Hr (ex_offset ex)) ltac:(lia)) as [Hx Hf].
  destruct (proj1 (Hr (ex_offset ex + ex_length ex - 1)) ltac:(lia)) as [Hx' _].
  split; [| lia]. destruct (l_file_obj (object_no ex) (ex_offset ex) Hx) as [E _].
  rewrite <- E. apply l_obj_bounds. lia.
Qed.

Lemma ext_walk ex : ex ∈ exts -> sum_lengths (buffer_extents ex) = ex_length ex /\
  l_file_off l (object_no ex) <$> seqZ (ex_offset ex) (ex_length ex) =
  (fun b => offset + (b - bo)) <$> buffer_bytes ex.
Proof using Hinv Hl.
  intros Hex. destruct (eff_geometry l Hl) as (Hsu & Hspo & Eos & Hoff).
  assert (Hsc : 0 < stripe_count l) by (destruct Hl; lia).
  destruct (proj1 (Forall_forall _ _) (li_ok _ _ _ _ _ _ _ _ _ _ Hinv) ex Hex) as [_ Hl' _ _ _].
  split; [done |]. rewrite Hl'. apply (walk_file _ _ (object_no ex)). intros x b n Hin.
  destruct (loop_inv_piece l offset trunc bo (eff_su l) (stripe_count l) (eff_spo l) (offset + len) exts ps ex x b n)
    as [Hn Hi]; try done; [lia |]. split; [done |]. intros i Hi'. by rewrite <- Hoff, Hi.
Qed.

Lemma exts_buffer : exts ≫= buffer_bytes ≡ₚ seqZ bo len.
Proof using Hinv.
  destruct Hinv as [_ _ _ Htl Hp]. destruct (tiled_buffers _ _ _ _ _ _ _ _ Htl) as [Hb _].
  rewrite exts_buffers, Hp, Hb. replace (offset - offset + bo) with bo by lia.
  by replace (offset + len - offset) with len by lia.
Qed.

Lemma walk_elem o x bes b n : (b, n) ∈ bes -> exists x', (o, x', b, n) ∈ walk o x bes.
Proof using.
  revert x. induction bes as [| [b' n'] bes IH]; intros x Hin; [by apply not_elem_of_nil in Hin |].
  apply elem_of_cons in Hin as [E | Hin]; [simplify_eq; exists x; left |].
  destruct (IH (x + n') Hin) as [x' Hx']. exists x'. by right.
Qed.

Lemma ext_target ex : ex ∈ exts -> target ex.
Proof using Hinv Hl Hof Hw Hbo Hbw.
  intros Hex. destruct (ext_object_bound ex Hex) as (Hno & Ho & Hb). destruct (ext_walk ex Hex) as [Hs _].
  destruct (eff_geometry l Hl) as (Hsu & Hspo & Eos & _). assert (object_size l < 2 ^ 32) by (destruct Hl; lia).
  constructor; [| | done | done | lia].
  - apply Forall_forall. intros [b n] Hbe. destruct (walk_elem (object_no ex) (ex_offset ex) _ _ _ Hbe) as [x Hx].
    destruct Hinv as [_ _ _ Htl Hp].
    destruct (tiled_elem offset bo (eff_su l) _ _ offset ps (offset + len) (object_no ex) x b n ltac:(lia) Htl)
      as (f & Hf1 & Hf2 & _ & _ & -> & Hn); [rewrite <- Hp; apply list_elem_of_bind; by exists ex |].
    pose proof (Z.mod_pos_bound f (eff_su l)). unfold be_ok. cbn. lia.
  - assert (Hnd : NoDup (exts ≫= buffer_bytes)) by (rewrite exts_buffer; apply NoDup_seqZ).
    apply list_elem_of_split in Hex as (a & b & E). rewrite E, bind_app, bind_cons in Hnd.
    apply NoDup_app in Hnd as (_ & _ & Hnd). by apply NoDup_app in Hnd as (? & _ & _).
Qed.

Lemma seqZ_sorted (g : Z -> Z) m n : (forall a b, m <= a < b -> g a < g b) ->
  StronglySorted Z.lt (g <$> seqZ m n).
Proof using.
  intros Hg. unfold seqZ. rewrite <- list_fmap_compose. generalize (Z.to_nat n) as k. intros k.
  generalize 0%nat as i. induction k as [| k IH]; intros i; [constructor |].
  cbn. constructor; [apply IH |]. apply Forall_forall. intros y Hy.
  apply list_elem_of_fmap in Hy as (j & -> & Hj%elem_of_seq). apply Hg. lia.
Qed.

Lemma shift_seqZ m n k : (fun b => k + (b - m)) <$> seqZ m n = seqZ k n.
Proof using. unfold seqZ. rewrite <- list_fmap_compose. apply list_fmap_ext. intros. cbn. lia. Qed.

(** A range in a single object is contiguous there. *)
Lemma single_ext ex : exts = [ex] -> buffer_bytes ex = seqZ bo len /\
  l_file_off l (object_no ex) <$> seqZ (ex_offset ex) (ex_length ex) = seqZ offset len.
Proof using Hinv Hl Hof Hw.
  intros E. assert (Hex : ex ∈ exts) by (rewrite E; left).
  pose proof exts_buffer as Hb. rewrite E in Hb. cbn in Hb. rewrite app_nil_r in Hb.
  destruct (ext_walk ex Hex) as [_ Hwk]. destruct (ext_object_bound ex Hex) as (_ & Ho & _).
  assert (Hbb : buffer_bytes ex = seqZ bo len).
  { eapply (StronglySorted_unique_strong Z.lt); [lia | | | done].
    - assert (buffer_bytes ex = (fun f => f - offset + bo) <$>
        (l_file_off l (object_no ex) <$> seqZ (ex_offset ex) (ex_length ex))) as ->.
      { rewrite Hwk, <- list_fmap_compose, <- (list_fmap_id (buffer_bytes ex)) at 1.
        apply list_fmap_ext. intros. cbn. lia. }
      rewrite <- list_fmap_compose. apply seqZ_sorted. intros a b Hab. cbn.
      destruct Hl as [Hsu [Hsc _] _ _]. unfold l_file_off.
      pose proof (file_off_lt _ _ (per_object l) Hsu Hsc (object_no ex) a b). lia.
    - rewrite <- (list_fmap_id (seqZ bo len)). apply seqZ_sorted. cbn. lia. }
  split; [done |]. by rewrite Hwk, Hbb, shift_seqZ.
Qed.

End Range.

(** ** Striped reads in general *)

(** The objects of a content [c] hold the bytes of a file. *)
Definition holds (l : file_layout_t) (c : Z -> Z -> Z) (file : Z -> Z) : Prop :=
  forall f o x, 0 <= f < 2 ^ 64 -> 0 <= o -> 0 <= x < object_size l -> l_file_off l o x = f ->
    get_file_offset l o x = Ok f -> c o x = file f.

Lemma holds_at l c file f : layout_ok l -> holds l c file -> 0 <= f < 2 ^ 64 -> c (l_obj l f) (l_xoff l f) = file f.
Proof.
  intros Hl Hh Hf. destruct (l_obj_bounds l Hl f Hf) as [Ho Hx]. pose proof (l_obj_file l Hl f) as E.
  apply Hh; [done | lia | done | done |]. rewrite get_file_offset_Ok; [by rewrite E | done | lia | lia | lia].
Qed.

(** C28. Striped reads.  The sparse replies for the extents of a file range are added to a
    [StripedReadResult] in any order, by either overload of
    [add_partial_sparse_result].  If each reply describes the bytes of its object
    (the data of the extents in its map, zeros elsewhere), then every step succeeds and assembling the result in a [char] buffer of the length of the
    range gives the bytes of the file.  For a range shorter than 4 GiB, the limit
    of a [bufferlist], so does assembling it as a [bufferlist]: with [zero_tail]
    completely, without it up to zeros at the end. *)
Theorem striped_read_correct (moved : bool) l offset len trunc bo exts replies c file : layout_ok l ->
  0 <= offset -> 0 < len -> offset + len < 2 ^ 64 -> 0 <= bo -> bo + len < 2 ^ 64 -> 0 <= trunc < 2 ^ 64 ->
  file_to_extents l offset trunc bo len [] = Ok exts ->
  replies.*1 ≡ₚ exts ->
  Forall (fun i => sparse_reply c (object_no i.1) (ex_offset i.1) (ex_length i.1) i.2.1 i.2.2) replies ->
  holds l c file ->
  exists r, add_replies (if moved then add_sparse_moved else add_sparse) no_result replies = Ok r /\
    (len < 2 ^ 32 ->
      (exists r', assemble_result r [] true = Ok (file <$> seqZ offset len, r')) /\
      exists bl z r', assemble_result r [] false = Ok (bl, r') /\
        bl ++ zero_bytes z = file <$> seqZ offset len) /\
    forall buffer, zlen buffer = len ->
      exists r', assemble_buffer r buffer len = Ok (file <$> seqZ offset len, r').
Proof.
  intros Hl Ho Hlen Hw Hbo Hbw Ht Hr Hperm Hrep Hh.
  destruct (file_to_extents_inv l Hl offset len trunc bo) as (exts' & ps & Hr' & Hinv); try done; [lia |].
  assert (exts' = exts) as -> by congruence. destruct (eff_geometry l Hl) as (Hsu & _ & _ & _).
  destruct (replies_assemble c fst (if moved then add_sparse_moved else add_sparse) replies l offset trunc bo (eff_su l) (stripe_count l) (eff_spo l) len exts ps)
    as (Q & E & HQ & Hflat); try done; [lia | lia | |].
  { apply Forall_forall. intros i Hi. rewrite Forall_forall in Hrep. apply add_sparse_handles; [| by apply Hrep].
    eapply (ext_target l Hl offset len trunc bo); try done.
    rewrite <- Hperm. apply list_elem_of_fmap. by exists i. }
  assert (Hfile : flat Q = file <$> seqZ offset len).
  { rewrite Hflat. apply list_fmap_ext. intros i f Hi. apply list_elem_of_lookup_2, elem_of_seqZ in Hi.
    destruct (eff_obj l Hl f) as [-> ->]. apply holds_at; [done | done | lia]. }
  exists (mk_result Q len). split; [done |]. rewrite <- Hfile.
  split.
  { intros H32. destruct (assemble_tiles bo Q (bo + len) len HQ ltac:(lia)) as [E1 (bl & z & E2 & _ & Hz)].
    split; [by eexists | by eexists _, _, _]. }
  intros buffer Hb. eexists. apply (assemble_buffer_tiles bo Q (bo + len)); done || lia.
Qed.

(** ** Reading through the filer *)

Section Files.
Context {S : Type} `{!ObjectStore S} `{!ObjectStoreLaws S} (ino : Z) (l : file_layout_t) (Hl : layout_ok l).

Definition file_key (o : Z) : object_key := (inode_oid ino o, file_to_object_locator l).

(** The byte [f] of the file of [ino]. *)
Definition file_byte (s : S) (f : Z) : Z := store_byte s (file_key (l_obj l f)) (l_xoff l f).

Definition read_ext (s : S) (trunc_seq : Z) (ex : LightweightObjectExtent) : list Z :=
  do_read s (read_of trunc_seq (object_extent_of (inode_oid ino) l ex)).

Lemma gather_results_add s seq r exts :
  gather_results r (object_extent_of (inode_oid ino) l <$> exts) (read_ext s seq <$> exts) =
  add_replies add_full r ((fun ex => (ex, read_ext s seq ex)) <$> exts).
Proof using.
  revert r. induction exts as [| ex exts IH]; intros r; [done |]. rewrite !fmap_cons.
  cbn [gather_results add_replies]. unfold add_full at 2. cbn [fst snd oe_buffer_extents object_extent_of].
  destruct (add_partial_result r (read_ext s seq ex) (buffer_extents ex)) as [[r' bl] | |]; [| done..].
  res_simpl. apply IH.
Qed.

Lemma read_ext_full s ex : 0 <= ex_offset ex -> 0 <= ex_length ex ->
  full_reply (fun o x => store_byte s (file_key o) x) (object_no ex) (ex_offset ex) (ex_length ex) (read_ext s 0 ex).
Proof using ObjectStoreLaws0.
  intros Ho Hlen. unfold read_ext, do_read. cbn. split.
  - by apply store_read_len.
  - intros i Hi. by rewrite store_read_byte.
Qed.

Lemma filer_read_ok s offset len trunc : 0 <= offset -> 0 < len < 2 ^ 32 -> offset + len < 2 ^ 64 -> 0 <= trunc < 2 ^ 64 ->
  exists bl z, filer_read s ino l offset len trunc 0 = Ok bl /\
    bl ++ zero_bytes z = file_byte s <$> seqZ offset len.
Proof using Hl ObjectStoreLaws0.
  intros Ho Hlen Hw Ht.
  destruct (file_to_extents_inv l Hl offset len trunc 0) as (exts & ps & Hr & Hinv); [lia.. |].
  destruct (eff_geometry l Hl) as (Hsu & _ & _ & _).
  unfold filer_read, file_to_extents_ino, file_to_extents_vec. rewrite Hr. res_simpl. cbn [app].
  unfold sg_read_trunc. rewrite <- !list_fmap_compose. fold (read_ext s 0).
  assert (Htarget : forall ex, ex ∈ exts -> target ex)
    by (intros; eapply (ext_target l Hl offset len trunc 0); done || lia).
  unfold _sg_read_finish, zlen. rewrite length_fmap.
  destruct (Z.ltb_spec 1 (Z.of_nat (length exts))) as [Hmany | Hone].
  - change (do_read s ∘ read_of 0 ∘ object_extent_of (inode_oid ino) l) with (read_ext s 0).
    rewrite gather_results_add.
    destruct (replies_assemble (fun o x => store_byte s (file_key o) x) fst add_full
      ((fun ex => (ex, read_ext s 0 ex)) <$> exts) l offset trunc 0 (eff_su l) (stripe_count l) (eff_spo l) len exts ps)
      as (Q & -> & HQ & Hflat); try done; [lia | lia | | |].
    { rewrite <- list_fmap_compose. clear. induction exts as [| ex exts IH]; [done |].
      rewrite fmap_cons. by constructor. }
    { apply Forall_fmap, Forall_forall. intros ex Hex. apply add_full_handles; [by apply Htarget |].
      destruct (Htarget ex Hex). destruct (ext_range l Hl offset len trunc 0 exts ps Hinv ex Hex) as (_ & ? & _).
      apply read_ext_full; cbn; lia. }
    res_simpl. destruct (assemble_tiles 0 Q (0 + len) len HQ ltac:(lia)) as [_ (bl & z & E & _ & Hz)].
    rewrite E. res_simpl. eexists _, z. split; [done |]. rewrite Hz, Hflat. apply list_fmap_ext. intros i f _.
    by destruct (eff_obj l Hl f) as [-> ->].
  - destruct exts as [| ex [| ? ?]]; [| | cbn in Hone; lia].
    { destruct (li_all _ _ _ _ _ _ _ _ _ _ Hinv offset) as (? & []%not_elem_of_nil & _). lia. }
    destruct (single_ext l Hl offset len trunc 0 Ho Hw [ex] ps Hinv ex eq_refl) as [_ Hf].
    destruct (Htarget ex ltac:(left)) as [_ _ _ Hoff _].
    destruct (ext_range l Hl offset len trunc 0 _ ps Hinv ex ltac:(left)) as (_ & Hpos & Hrg).
    destruct (pad_reply _ _ _ _ (ex_length ex) _ (read_ext_full s ex Hoff ltac:(lia))) as [Hpad _]; [lia |].
    cbn [fmap list_fmap]. exists (read_ext s 0 ex), (ex_length ex - zlen (read_ext s 0 ex)). split; [done |].
    unfold pad in Hpad. rewrite take_ge in Hpad.
    2: { pose proof (read_ext_full s ex Hoff ltac:(lia)) as [Hlen' _]. unfold zlen in Hlen'. lia. }
    cbn [fst snd] in Hpad. rewrite Hpad, <- Hf, <- list_fmap_compose. apply list_fmap_ext.
    intros i x Hi. apply list_elem_of_lookup_2, elem_of_seqZ in Hi. unfold file_byte. cbn.
    by destruct (l_file_obj l Hl (object_no ex) x) as [-> ->]; [apply Hrg; lia |].
Qed.

(** ** Writing through the filer *)

Definition byte_of (data : list Z) (b : Z) : Z := default 0 (data !! Z.to_nat b).

Lemma gather_buffer_ok data bes cur : zlen data < 2 ^ 32 -> Forall (fun be => 0 <= be.1 /\ 0 < be.2 /\ be.1 + be.2 <= zlen data) bes ->
  gather_buffer data bes cur = Ok (cur ++ (byte_of data <$> (bes ≫= range))).
Proof using.
  intros H32 H. revert cur. induction H as [| [b n] bes (Hb & Hn & Hbn) _ IH]; intros cur.
  { cbn. by rewrite app_nil_r. }
  cbn [gather_buffer fst snd] in *. rewrite !u32_id by (unfold is_u32; lia). destruct (Z.ltb_spec (zlen data) (b + n)); [lia |].
  rewrite IH, bind_cons, fmap_app, app_assoc. do 3 f_equal. unfold range. cbn [fst snd].
  apply list_eq. intros i. rewrite list_lookup_fmap. unfold zlen in *. destruct (decide (Z.of_nat i < n)).
  - rewrite lookup_seqZ_lt by lia. cbn. unfold byte_of. rewrite lookup_take_lt, lookup_drop by lia.
    replace (Z.to_nat (b + Z.of_nat i)) with (Z.to_nat b + i)%nat by lia.
    destruct (data !! (Z.to_nat b + i)%nat) eqn:E; [done |]. apply lookup_ge_None in E. lia.
  - rewrite lookup_seqZ_ge by lia. apply lookup_ge_None. rewrite length_take. lia.
Qed.

(** The object writes of a range: each extent with its bytes of the file. *)
Definition ext_write (offset : Z) (data : list Z) (ex : LightweightObjectExtent) : WriteOp :=
  write_of 0 (object_extent_of (inode_oid ino) l ex)
    ((fun x => byte_of data (l_file_off l (object_no ex) x - offset)) <$> seqZ (ex_offset ex) (ex_length ex)).

Section Write.
Context (offset len trunc : Z) (Hof : 0 <= offset) (Hlen : 0 < len) (Hw : offset + len < 2 ^ 64).
Context (exts : list LightweightObjectExtent) (ps : list piece) (data : list Z) (Hdata : zlen data = len) (H32 : len < 2 ^ 32).
Context (Hinv : loop_inv l offset trunc 0 (eff_su l) (stripe_count l) (eff_spo l) (offset + len) exts ps).

Lemma ext_data ex : ex ∈ exts ->
  byte_of data <$> buffer_bytes ex =
  (fun x => byte_of data (l_file_off l (object_no ex) x - offset)) <$> seqZ (ex_offset ex) (ex_length ex).
Proof using Hinv Hl.
  intros Hex. destruct (ext_walk l Hl offset len trunc 0 exts ps Hinv ex Hex) as [_ Hwk].
  change (fun x => byte_of data (l_file_off l (object_no ex) x - offset))
    with ((fun f => byte_of data (f - offset)) ∘ l_file_off l (object_no ex)).
  rewrite list_fmap_compose, Hwk, <- list_fmap_compose. apply list_fmap_ext. intros i b _. cbn. f_equal. lia.
Qed.

Lemma buffer_bound ex : ex ∈ exts ->
  Forall (fun be => 0 <= be.1 /\ 0 < be.2 /\ be.1 + be.2 <= zlen data) (buffer_extents ex).
Proof using Hinv Hl Hof Hw Hlen Hdata H32.
  intros Hex. destruct (ext_target l Hl offset len trunc 0 Hof Hw ltac:(lia) ltac:(lia) exts ps Hinv ex Hex) as [Hb _ _ _ _].
  apply Forall_forall. intros be Hbe. rewrite Forall_forall in Hb. destruct (Hb be Hbe) as (H1 & H2 & H3).
  split; [done |]. split; [lia |].
  assert (Hin : be.1 + be.2 - 1 ∈ exts ≫= buffer_bytes).
  { apply list_elem_of_bind. exists ex. split; [| done]. apply list_elem_of_bind. exists be. split; [| done].
    apply elem_of_seqZ. lia. }
  rewrite (exts_buffer l offset len trunc 0 exts ps Hinv) in Hin. apply elem_of_seqZ in Hin. lia.
Qed.

Lemma scatter_ok : scatter_writes data 0 (object_extent_of (inode_oid ino) l <$> exts) =
  Ok (ext_write offset data <$> exts).
Proof using Hinv Hl Hof Hw Hlen Hdata H32.
  assert (H : forall es, es ⊆ exts -> scatter_writes data 0 (object_extent_of (inode_oid ino) l <$> es) =
    Ok (ext_write offset data <$> es)); [| by apply H].
  intros es. induction es as [| ex es IH]; intros Hsub; [done |].
  assert (Hex : ex ∈ exts) by (apply Hsub; left).
  rewrite !fmap_cons. cbn [scatter_writes object_extent_of oe_buffer_extents oe_length].
  rewrite gather_buffer_ok by (lia || by apply buffer_bound). res_simpl. cbn [app]. fold (buffer_bytes ex).
  rewrite (ext_data ex Hex).
  destruct (ext_range l Hl offset len trunc 0 exts ps Hinv ex Hex) as (_ & Hpos & _).
  destruct (ext_target l Hl offset len trunc 0 Hof Hw ltac:(lia) ltac:(lia) exts ps Hinv ex Hex) as [_ _ _ Hxo Hx32].
  rewrite ensure_Ok. 2: { apply Z.eqb_eq. rewrite bl_length_id; rewrite zlen_fmap_seqZ; lia. }
  res_simpl. rewrite IH; [done |]. intros y Hy. apply Hsub. by right.
Qed.

Lemma sg_write_ok : sg_write_trunc (object_extent_of (inode_oid ino) l <$> exts) data 0 =
  Ok (ext_write offset data <$> exts).
Proof using Hinv Hl Hof Hw Hlen Hdata H32.
  assert (Hone : forall ex, exts = [ex] -> data =
    (fun x => byte_of data (l_file_off l (object_no ex) x - offset)) <$> seqZ (ex_offset ex) (ex_length ex)).
  { intros ex E. rewrite <- (ext_data ex) by (rewrite E; left).
    destruct (single_ext l Hl offset len trunc 0 Hof Hw exts ps Hinv ex E) as [-> _].
    apply list_eq. intros i. rewrite list_lookup_fmap. unfold zlen in Hdata. destruct (decide (Z.of_nat i < len)).
    - rewrite lookup_seqZ_lt by lia. cbn. unfold byte_of. rewrite Z.add_0_l, Nat2Z.id.
      destruct (data !! i) eqn:Ei; [done |]. apply lookup_ge_None in Ei. lia.
    - rewrite lookup_seqZ_ge by lia. apply lookup_ge_None. lia. }
  pose proof scatter_ok as Hs. clear Hinv. destruct exts as [| ex [| ex' exts']]; [done | | done].
  cbn. unfold ext_write. do 2 f_equal. by rewrite <- (Hone ex eq_refl).
Qed.

End Write.

Definition op_key (op : WriteOp) : object_key := (wo_oid op, wo_oloc op).

(** Writes to different objects: what happens to one object. *)
Lemma do_writes_other (s : S) ops k y : Forall (fun op => wo_trunc_seq op = 0) ops -> k ∉ op_key <$> ops ->
  store_byte (do_writes s ops) k y = store_byte s k y.
Proof using ObjectStoreLaws0.
  intros H. revert s. induction H as [| op ops Hop _ IH]; intros s Hk; [done |].
  rewrite fmap_cons in Hk. apply not_elem_of_cons in Hk as [Hne Hk]. unfold do_writes in *. cbn. rewrite IH by done.
  unfold do_write. rewrite Hop. apply store_write_other. intros E. by apply Hne.
Qed.

Lemma do_writes_one (s : S) ops op y : Forall (fun op => wo_trunc_seq op = 0) ops -> NoDup (op_key <$> ops) ->
  op ∈ ops -> 0 <= wo_off op -> 0 <= y ->
  store_byte (do_writes s ops) (op_key op) y =
  if decide (wo_off op <= y < wo_off op + zlen (wo_data op)) then byte_of (wo_data op) (y - wo_off op)
  else store_byte s (op_key op) y.
Proof using ObjectStoreLaws0.
  intros Hseq Hnd Hin Ho Hy. apply list_elem_of_split in Hin as (a & b & ->).
  rewrite fmap_app, fmap_cons in Hnd. apply NoDup_app in Hnd as (_ & Ha & [Hb _]%NoDup_cons).
  apply Forall_app in Hseq as [Hsa [Hop Hsb]%Forall_cons].
  unfold do_writes. rewrite foldl_app. cbn [foldl]. fold (do_writes s a).
  change (foldl do_write ?s b) with (do_writes s b). rewrite do_writes_other by done.
  unfold do_write at 1. rewrite Hop. fold (op_key op). rewrite store_write_same by done.
  unfold byte_of. rewrite do_writes_other; [done | done |].
  intros Hka. apply (Ha _ Hka). left.
Qed.

Lemma filer_write_ok (s : S) offset len trunc data ops' : 0 <= offset -> 0 < len < 2 ^ 32 -> offset + len < 2 ^ 64 ->
  0 <= trunc < 2 ^ 64 -> zlen data = len ->
  exists ops, filer_write ino l offset len data trunc 0 = Ok ops /\
    (ops' ≡ₚ ops ->
      (forall f, 0 <= f < 2 ^ 64 -> file_byte (do_writes s ops') f =
        if decide (offset <= f < offset + len) then byte_of data (f - offset) else file_byte s f) /\
      (forall k y, (forall o, k <> file_key o) -> store_byte (do_writes s ops') k y = store_byte s k y)).
Proof using Hl ObjectStoreLaws0.
  intros Ho Hlen Hw Ht Hdata.
  destruct (file_to_extents_inv l Hl offset len trunc 0) as (exts & ps & Hr & Hinv); [lia.. |].
  exists (ext_write offset data <$> exts).
  unfold filer_write, file_to_extents_ino, file_to_extents_vec. rewrite Hr. res_simpl. cbn [app].
  split; [eapply (sg_write_ok offset len trunc); done || lia |]. intros Hops.
  assert (Hseq : Forall (fun op => wo_trunc_seq op = 0) ops').
  { rewrite Hops. apply Forall_fmap, Forall_forall. done. }
  assert (Hkeys : op_key <$> ops' ≡ₚ (fun ex => file_key (object_no ex)) <$> exts)
    by (rewrite Hops, <- list_fmap_compose; done).
  pose proof (ext_object_bound l Hl offset len trunc 0 Ho Hw exts ps Hinv) as Hob.
  assert (Hnd : NoDup (op_key <$> ops')).
  { rewrite Hkeys. pose proof (li_sorted _ _ _ _ _ _ _ _ _ _ Hinv) as Hs. clear -Hs Hob.
    induction Hs as [| ex exts Hs IH Hex]; [constructor |]. rewrite fmap_cons. constructor.
    - intros (ex' & E & Hin)%list_elem_of_fmap. rewrite Forall_forall in Hex. specialize (Hex ex' Hin).
      injection E as E. apply inode_oid_inj in E; [lia | apply Hob; left | apply Hob; by right].
    - apply IH. intros e He. apply Hob. by right. }
  split.
  - intros f Hf. destruct (l_obj_bounds l Hl f Hf) as [Hno Hx]. pose proof (l_obj_file l Hl f) as Ef.
    unfold file_byte. destruct (decide (file_key (l_obj l f) ∈ op_key <$> ops')) as [Hin | Hout].
    + rewrite Hkeys in Hin. apply list_elem_of_fmap in Hin as (ex & E & Hex).
      injection E as E. apply inode_oid_inj in E; [| done | by apply Hob].
      destruct (ext_range l Hl offset len trunc 0 exts ps Hinv ex Hex) as (_ & Hpos & Hrg).
      specialize (Hrg (l_xoff l f)). rewrite <- E, Ef in Hrg.
      assert (Hop : ext_write offset data ex ∈ ops') by (rewrite Hops; apply list_elem_of_fmap; by exists ex).
      pose proof (do_writes_one s ops' (ext_write offset data ex) (l_xoff l f) Hseq Hnd Hop) as Hone.
      unfold ext_write, op_key, write_of in Hone. cbn in Hone. rewrite zlen_fmap_seqZ, <- E in Hone by lia.
      fold (file_key (l_obj l f)) in Hone. destruct (Hob ex Hex) as (_ & Hxo & _).
      rewrite Hone by lia. clear Hone.
      destruct (decide (ex_offset ex <= l_xoff l f < ex_offset ex + ex_length ex)) as [Hi | Hi];
        destruct (decide (offset <= f < offset + len)) as [Hi' | Hi']; try tauto.
      unfold byte_of at 1. rewrite list_lookup_fmap, lookup_seqZ_lt by lia. cbn.
      rewrite Z2Nat.id by lia. replace (ex_offset ex + (l_xoff l f - ex_offset ex)) with (l_xoff l f) by lia.
      by rewrite Ef.
    + rewrite do_writes_other by done. destruct (decide (offset <= f < offset + len)) as [Hi |]; [| done].
      exfalso. apply Hout. destruct (li_all _ _ _ _ _ _ _ _ _ _ Hinv f Hi) as (ex & Hex & E).
      destruct (eff_obj l Hl f) as [E' _]. rewrite Hkeys. apply list_elem_of_fmap. exists ex.
      split; [congruence | done].
  - intros k y Hk. apply do_writes_other; [done |]. rewrite Hkeys. intros (ex & E & _)%list_elem_of_fmap.
    by apply (Hk (object_no ex)).
Qed.

End Files.

(** Reading a file.  Whatever implements the objects, reading a range of a file,
    shorter than 4 GiB, through the filer succeeds and returns the bytes of the file in that range, up
    to zeros missing at the end; the byte [f] of the file is the byte of the object
    that [get_file_offset] maps to [f]. *)
Theorem filer_read_flat {S} `{!ObjectStore S} `{!ObjectStoreLaws S} (s : S) ino l offset len trunc file :
  layout_ok l -> 0 <= offset -> 0 < len < 2 ^ 32 -> offset + len < 2 ^ 64 -> 0 <= trunc < 2 ^ 64 ->
  holds l (fun o x => store_byte s (inode_oid ino o, file_to_object_locator l) x) file ->
  exists bl z, filer_read s ino l offset len trunc 0 = Ok bl /\
    bl ++ zero_bytes z = file <$> seqZ offset len.
Proof.
  intros Hl Ho Hlen Hw Ht Hh. destruct (filer_read_ok ino l Hl s offset len trunc) as (bl & z & Hr & Hb); [lia.. |].
  exists bl, z. split; [done |]. rewrite Hb. apply list_fmap_ext. intros i f Hi.
  apply list_elem_of_lookup_2, elem_of_seqZ in Hi. unfold file_byte, file_key.
  apply (holds_at l _ file f Hl Hh). lia.
Qed.

(** C26. A striped file is a flat file.  A write through the filer, of a [bufferlist]
    shorter than 4 GiB, becomes object writes; however the OSDs order them, a later
    read of any range of the file shorter than 4 GiB returns the new bytes inside
    the written range and the old ones outside, up to zeros missing at the end, and
    objects of other files keep their bytes. *)
Theorem filer_flat_file {S} `{!ObjectStore S} `{!ObjectStoreLaws S} (s : S) ino l offset data ops' offset' len' :
  layout_ok l -> 0 <= offset -> 0 < zlen data < 2 ^ 32 -> offset + zlen data < 2 ^ 64 ->
  0 <= offset' -> 0 < len' < 2 ^ 32 -> offset' + len' < 2 ^ 64 ->
  exists ops, filer_write ino l offset (zlen data) data 0 0 = Ok ops /\
    (ops' ≡ₚ ops ->
      (exists bl z, filer_read (do_writes s ops') ino l offset' len' 0 0 = Ok bl /\
        bl ++ zero_bytes z =
        (fun f => if decide (offset <= f < offset + zlen data) then byte_of data (f - offset)
                  else file_byte ino l s f) <$> seqZ offset' len') /\
      (forall k y, (forall o, k <> (inode_oid ino o, file_to_object_locator l)) ->
        store_byte (do_writes s ops') k y = store_byte s k y)).
Proof.
  intros Hl Ho Hlen Hw Ho' Hlen' Hw'.
  destruct (filer_write_ok ino l Hl s offset (zlen data) 0 data ops') as (ops & Hr & Hops); try done.
  exists ops. split; [done |]. intros Hp. destruct (Hops Hp) as [Hf Hk]. split; [| exact Hk].
  destruct (filer_read_ok ino l Hl (do_writes s ops') offset' len' 0) as (bl & z & Hr' & Hb); try done.
  exists bl, z. split; [done |]. rewrite Hb. apply list_fmap_ext. intros i f Hi.
  apply list_elem_of_lookup_2, elem_of_seqZ in Hi. apply Hf. lia.
Qed.

(** ** A store

    Objects as functions from keys to bytes satisfy the interface. *)

Definition mem_store : Type := object_key -> list Z.

Definition mem_write (s : mem_store) (k : object_key) (off : Z) (data : list Z) : mem_store :=
  fun k' =>
    if decide (k' = k) then
      let old := s k ++ zero_bytes (off - zlen (s k)) in
      take (Z.to_nat off) old ++ data ++ drop (Z.to_nat (off + zlen data)) old
    else s k'.

#[export] Instance mem_object_store : ObjectStore mem_store := {
  store_read s k off len _ _ := take (Z.to_nat len) (drop (Z.to_nat off) (s k));
  store_write s k off data _ _ := mem_write s k off data;
  store_byte s k y := default 0 (s k !! Z.to_nat y);
}.

Lemma lookup_old (b : list Z) n y : default 0 ((b ++ zero_bytes n) !! y) = default 0 (b !! y).
Proof.
  destruct (decide (y < length b)%nat).
  - by rewrite lookup_app_l.
  - rewrite lookup_app_r, (lookup_ge_None_2 b) by lia. unfold zero_bytes. cbn.
    destruct (replicate _ 0 !! _) as [v |] eqn:E; [| done]. by apply lookup_replicate in E as [-> _].
Qed.

Lemma mem_write_byte (s : mem_store) k off data y : 0 <= off -> 0 <= y ->
  default 0 (mem_write s k off data k !! Z.to_nat y) =
  if decide (off <= y < off + zlen data) then default 0 (data !! Z.to_nat (y - off))
  else default 0 (s k !! Z.to_nat y).
Proof.
  intros Ho Hy. unfold mem_write. rewrite decide_True by done.
  rewrite <- (lookup_old (s k) (off - zlen (s k)) (Z.to_nat y)).
  set (old := s k ++ zero_bytes (off - zlen (s k))).
  assert (Hold : (Z.to_nat off <= length old)%nat).
  { unfold old. rewrite length_app. unfold zero_bytes, zlen. rewrite length_replicate. lia. }
  destruct (decide (off <= y < off + zlen data)) as [Hi | Hi].
  - rewrite lookup_app_r by (rewrite length_take; lia). rewrite lookup_app_l.
    + do 2 f_equal. rewrite length_take. lia.
    + rewrite length_take. unfold zlen in Hi. lia.
  - destruct (decide (y < off)).
    + rewrite lookup_app_l by (rewrite length_take; lia). by rewrite lookup_take_lt by lia.
    + unfold zlen in *. rewrite lookup_app_r by (rewrite length_take; lia).
      rewrite lookup_app_r by (rewrite length_take; lia). rewrite lookup_drop. do 2 f_equal.
      rewrite length_take. lia.
Qed.

#[export] Instance mem_object_store_laws : ObjectStoreLaws mem_store.
Proof.
  constructor; cbn.
  - intros. unfold zlen. rewrite length_take. lia.
  - intros s k off len _ i Ho Hi. rewrite lookup_take_lt, lookup_drop by lia. do 2 f_equal. lia.
  - intros. by apply mem_write_byte.
  - intros s k k' off data _ y Hne. unfold mem_write. by rewrite decide_False.
Qed.

Definition ex_data : list Z := seqZ 1 30.

Lemma filer_flat_file_witness : exists ops,
  filer_write 7 ex_layout 5 30 ex_data 0 0 = Ok ops /\ length ops = 6%nat /\
  exists bl z, filer_read (do_writes (fun _ => []) (reverse ops)) 7 ex_layout 2 20 0 0 = Ok bl /\
    bl ++ zero_bytes z =
    (fun f => if decide (5 <= f < 35) then byte_of ex_data (f - 5)
              else file_byte 7 ex_layout (fun _ => [] : list Z) f) <$> seqZ 2 20.
Proof.
  assert (Hw : exists ops, filer_write 7 ex_layout 5 30 ex_data 0 0 = Ok ops) by (vm_compute; by eexists).
  destruct Hw as [ops E]. assert (Hz : zlen ex_data = 30) by reflexivity.
  destruct (filer_flat_file (fun _ => [] : list Z) 7 ex_layout 5 ex_data (reverse ops) 2 20 ex_layout_ok)
    as (ops' & E' & H); [lia.. |].
  rewrite Hz in *. assert (ops' = ops) as -> by congruence.
  destruct (H (reverse_Permutation ops)) as [Hr _]. exists ops. split; [exact E |]. split; [| exact Hr].
  vm_compute in E. by injection E as <-.
Defined.

Lemma filer_read_flat_witness : exists bl z,
  filer_read (fun _ => [] : list Z) 7 ex_layout 2 20 0 0 = Ok bl /\
  bl ++ zero_bytes z = (fun _ => 0) <$> seqZ 2 20.
Proof.
  apply (filer_read_flat (fun _ => [] : list Z) 7 ex_layout 2 20 0 (fun _ => 0) ex_layout_ok); try lia.
  intros f o x _ _ _ _ _. done.
Defined.

Lemma striped_read_correct_witness : exists r,
  add_replies add_sparse no_result [(mk_extent 0 0 2 0 [(100, 2)], ([(1, 1)], [9]))] = Ok r /\
  exists r', assemble_result r [] true = Ok ((fun f => if f =? 1 then 9 else 0) <$> seqZ 0 2, r').
Proof.
  assert (E : file_to_extents ex_layout 0 0 100 2 [] = Ok [mk_extent 0 0 2 0 [(100, 2)]]) by (vm_compute; reflexivity).
  destruct (striped_read_correct false ex_layout 0 2 0 100 _ [(mk_extent 0 0 2 0 [(100, 2)], ([(1, 1)], [9]))]
    (fun o x => if decide (o = 0 /\ x = 1) then 9 else 0) (fun f => if f =? 1 then 9 else 0)
    ex_layout_ok ltac:(lia) ltac:(lia) ltac:(lia) ltac:(lia) ltac:(lia) ltac:(lia) E)
    as (r & Hr & Ha & _); [done | | | destruct (Ha ltac:(lia)) as [H' _]; by exists r].
  - constructor; [| constructor]. split; [vm_compute; by intuition |]. split; [reflexivity |].
    split; [done |].
    intros y Hy He. cbn. destruct (decide (0 = 0 /\ y = 1)) as [[_ ->] | ]; [| done].
    exfalso. apply (He (1, 1)); [left | by vm_compute].
  - intros f o x Hf Ho Hx Ef _. change (object_size ex_layout) with 8 in Hx.
    destruct (decide (o = 0 /\ x = 1)) as [[-> ->] | Hne]; [by subst |].
    destruct (Z.eqb_spec f 1) as [-> | ]; [| done]. exfalso. apply Hne.
    destruct (l_file_obj ex_layout ex_layout_ok o x) as [E1 E2]; [done |]. rewrite Ef in E1, E2.
    split; [rewrite <- E1; done | rewrite <- E2; done].
Defined.
