(* ===== verification/MonitorDBStore.v ===== *)
(** * The monitor's key/value store

    [src/src/mon/MonitorDBStore.h]: the transactions a monitor applies to its
    local database and the typed reads Paxos makes from it.

    The database behind the class (a [KeyValueDB]) is a finite map from a
    prefix and a key to the bytes stored there.  A bufferlist is kept as the
    thing that was encoded into it: bytes, a [version_t], or a transaction; so
    decoding what was encoded is the identity, and decoding something else is
    an error. *)

From stdpp Require Import strings pretty.
From S2P Require Import Prelude.

(** An operation of a transaction and a bufferlist.  [BBytes ""] is the empty
    bufferlist. *)
Inductive Op :=
  | OP_PUT (prefix key : string) (bl : bufferlist)
  | OP_ERASE (prefix key : string)
  | OP_COMPACT (prefix start end_ : string)
  | OP_ERASE_RANGE (prefix start end_ : string)
with bufferlist :=
  | BBytes (bytes : string)
  | BVersion (ver : Z)
  | BTransaction (ops : list Op).

Abbreviation Transaction := (list Op).
Abbreviation Store := (gmap (string * string) bufferlist).

Definition bl_empty : bufferlist := BBytes "".

(** [bl.length() != 0]; an encoded version or transaction has a header. *)
Definition bl_nonempty (bl : bufferlist) : bool :=
  match bl with
  | BBytes s => match s with EmptyString => false | _ => true end
  | _ => true
  end.

(** [os << ver] *)
Definition ver_key (ver : Z) : string := pretty (Z.to_N ver).

Definition put_ver (prefix : string) (ver : Z) (bl : bufferlist) : Op := OP_PUT prefix (ver_key ver) bl.
Definition put_num (prefix key : string) (ver : Z) : Op := OP_PUT prefix key (BVersion ver).
Definition erase_ver (prefix : string) (ver : Z) : Op := OP_ERASE prefix (ver_key ver).

(** The bytewise order of the keys, for the half-open range of
    [OP_ERASE_RANGE]. *)
Definition in_range (prefix start end_ : string) (k : string * string) : bool :=
  bool_decide (k.1 = prefix) && String.leb start k.2 && String.ltb k.2 end_.

Definition apply_op (op : Op) (s : Store) : Store :=
  match op with
  | OP_PUT p k bl => <[(p, k) := bl]> s
  | OP_ERASE p k => delete (p, k) s
  | OP_COMPACT _ _ _ => s
  | OP_ERASE_RANGE p a b => filter (fun kv => in_range p a b kv.1 = false) s
  end.

(** The operations of a transaction take effect in order, and all together:
    [submit_transaction_sync] is atomic, a failure aborts the monitor. *)
Definition apply_transaction (t : Transaction) (s : Store) : Store :=
  fold_left (fun s op => apply_op op s) t s.

(** [get(prefix, ver, bl)]: the bufferlist stays empty when the key is
    missing. *)
Definition get_bl (s : Store) (prefix : string) (ver : Z) : bufferlist :=
  default bl_empty (s !! (prefix, ver_key ver)).

(** [get(prefix, key)]: a missing key counts as version 0; [None] when the
    bytes are no [version_t]. *)
Definition get_num (s : Store) (prefix key : string) : option Z :=
  match s !! (prefix, key) with
  | None => Some 0
  | Some (BVersion v) => Some v
  | Some _ => None
  end.

Definition exists_ver (s : Store) (prefix : string) (ver : Z) : bool :=
  bool_decide (is_Some (s !! (prefix, ver_key ver))).

(** [Transaction::decode] *)
Definition decode_transaction (bl : bufferlist) : option Transaction :=
  match bl with BTransaction ops => Some ops | _ => None end.

(** ** Keys *)

Lemma ver_key_inj a b : 0 <= a -> 0 <= b -> ver_key a = ver_key b -> a = b.
Proof. unfold ver_key. intros Ha Hb H. apply (inj pretty) in H. lia. Qed.

(** A key that begins with a letter is no version number. *)
Definition digit_head (s : string) : bool :=
  match s with
  | EmptyString => false
  | String c _ => let n := Ascii.nat_of_ascii c in (48 <=? n)%nat && (n <=? 57)%nat
  end.

Lemma pretty_N_char_digit x s : (x < 10)%N -> digit_head (String (pretty_N_char x) s) = true.
Proof. intros H. destruct x as [| p]; [done |]. by repeat (destruct p as [p | p |]; try done; try lia). Qed.

Lemma pretty_N_go_digit x s : (0 < x)%N \/ digit_head s = true -> digit_head (pretty_N_go x s) = true.
Proof.
  revert s. induction (N.lt_wf_0 x) as [x _ IH]. intros s Hx.
  destruct (decide (x = 0)%N) as [-> | Hne].
  - rewrite pretty_N_go_0. destruct Hx; [lia | done].
  - rewrite pretty_N_go_step by lia. apply IH.
    + apply N.div_lt; lia.
    + right. apply pretty_N_char_digit. by apply N.mod_lt.
Qed.

Lemma ver_key_digit v : digit_head (ver_key v) = true.
Proof.
  unfold ver_key, pretty, pretty_N. case_decide; [done |]. apply pretty_N_go_digit. left. lia.
Qed.

Lemma ver_key_name v k : digit_head k = false -> ver_key v <> k.
Proof. intros Hk <-. by rewrite ver_key_digit in Hk. Qed.

(** ** Transactions *)

Lemma apply_transaction_app t1 t2 s :
  apply_transaction (t1 ++ t2) s = apply_transaction t2 (apply_transaction t1 s).
Proof. apply fold_left_app. Qed.

(** An operation leaves the keys of the other prefixes alone. *)
Definition op_prefix (op : Op) : string :=
  match op with OP_PUT p _ _ | OP_ERASE p _ | OP_COMPACT p _ _ | OP_ERASE_RANGE p _ _ => p end.

Lemma apply_op_other op s p k : op_prefix op <> p -> apply_op op s !! (p, k) = s !! (p, k).
Proof.
  intros Hp. destruct op as [q k' bl | q k' | q a b | q a b]; cbn in *; try done.
  - by rewrite lookup_insert_ne by congruence.
  - by rewrite lookup_delete_ne by congruence.
  - rewrite map_lookup_filter. destruct (s !! (p, k)) as [x |]; [| done]. cbn.
    unfold in_range. cbn. rewrite bool_decide_eq_false_2 by congruence. cbn. by rewrite option_guard_True.
Qed.

Lemma apply_transaction_other t s p k :
  Forall (fun op => op_prefix op <> p) t -> apply_transaction t s !! (p, k) = s !! (p, k).
Proof.
  intros Ht. revert s. induction Ht as [| op t Hop _ IH]; intros s; [done |].
  cbn. rewrite IH. by apply apply_op_other.
Qed.
