(* ===== verification/Paxos.v ===== *)
(** * The monitors' Paxos

    [src/src/mon/Paxos.cc] and [Paxos.h], with the parts of
    [src/src/mon/Monitor.cc] that call it: one monitor as a state, and one
    definition per handler, timer and entry point.

    A [node] is one monitor process: its disk ([store] and the transactions
    queued on it), its role in the current election epoch, the members of class
    [Paxos] and the messages it has sent in the running step.  A handler is a
    computation of [M]: it reads and writes the node and may stop at a failed
    [ceph_assert], which kills the process but keeps what was already written
    and sent.

    What the model leaves out: logging and performance counters; the contexts
    of [waiting_for_active], [waiting_for_readable] and [waiting_for_writeable],
    which wake the services and change nothing here; the time stamps other than
    the lease.  Version and proposal numbers are unbounded: they grow by one per
    commit and by about one hundred per election. *)

From stdpp Require Import strings.
From S2P Require Import Prelude MonitorDBStore.

(** ** Messages ([messages/MMonPaxos.h]) *)

Inductive paxos_op :=
  OP_COLLECT | OP_LAST | OP_BEGIN | OP_ACCEPT | OP_COMMIT | OP_LEASE | OP_LEASE_ACK.

#[export] Instance paxos_op_eq : EqDecision paxos_op.
Proof. solve_decision. Defined.

(** [values] is a [std::map<version_t, bufferlist>]. *)
Record MMonPaxos := {
  m_epoch : Z;
  m_op : paxos_op;
  m_first_committed : Z;
  m_last_committed : Z;
  m_pn_from : Z;
  m_pn : Z;
  m_uncommitted_pn : Z;
  m_lease_timestamp : Z;
  m_values : list (Z * bufferlist)
}.

(** ** The state of a monitor *)

Inductive paxos_state :=
  STATE_RECOVERING | STATE_ACTIVE | STATE_UPDATING | STATE_UPDATING_PREVIOUS
| STATE_WRITING | STATE_WRITING_PREVIOUS | STATE_REFRESH | STATE_SHUTDOWN.

#[export] Instance paxos_state_eq : EqDecision paxos_state.
Proof. solve_decision. Defined.

(** [MON_DOWN]: the process has died. *)
Inductive mon_state := MON_PROBING | MON_ELECTING | MON_LEADER | MON_PEON | MON_DOWN.

#[export] Instance mon_state_eq : EqDecision mon_state.
Proof. solve_decision. Defined.

(** The contexts Paxos completes when a proposal commits: its own [C_Trimmed],
    and the ones services queue, known by a number. *)
Inductive finisher := C_Trimmed | C_service (id : Z).

Record node := Node {
  (* Monitor *)
  rank : Z;
  mstate : mon_state;
  epoch : Z;
  leader : Z;
  quorum : gset Z;
  (* the store, the transactions queued on it, and whether the first of them
     is already on disk with its completion still to run *)
  store : Store;
  io_queue : list Transaction;
  io_applied : bool;
  (* Paxos *)
  state : paxos_state;
  first_committed : Z;
  last_committed : Z;
  last_pn : Z;
  accepted_pn : Z;
  accepted_pn_from : Z;
  num_last : Z;
  peer_first_committed : list (Z * Z);
  peer_last_committed : list (Z * Z);
  uncommitted_v : Z;
  uncommitted_pn : Z;
  uncommitted_value : bufferlist;
  new_value : bufferlist;
  accepted : gset Z;
  lease_expire : Z;
  acked_lease : gset Z;
  collect_timeout_event : bool;
  accept_timeout_event : bool;
  lease_renew_event : bool;
  lease_ack_timeout_event : bool;
  lease_timeout_event : bool;
  pending_proposal : option Transaction;
  pending_finishers : list finisher;
  committing_finishers : list finisher;
  commits_started : Z;
  trimming : bool;
  plugged : bool;
  (* what the completed contexts were told, and the messages sent *)
  completed : list (Z * Z);
  outbox : list (Z * MMonPaxos)
}.

Definition node_eta (n : node) : node :=
  Node (rank n) (mstate n) (epoch n) (leader n) (quorum n) (store n) (io_queue n) (io_applied n)
    (state n) (first_committed n) (last_committed n) (last_pn n) (accepted_pn n) (accepted_pn_from n)
    (num_last n) (peer_first_committed n) (peer_last_committed n)
    (uncommitted_v n) (uncommitted_pn n) (uncommitted_value n) (new_value n) (accepted n)
    (lease_expire n) (acked_lease n) (collect_timeout_event n) (accept_timeout_event n)
    (lease_renew_event n) (lease_ack_timeout_event n) (lease_timeout_event n)
    (pending_proposal n) (pending_finishers n) (committing_finishers n) (commits_started n)
    (trimming n) (plugged n) (completed n) (outbox n).

(** [field_setter f] is the assignment to the member [f]. *)
Ltac field_setter f :=
  let h := constr:(fun n : node => ltac:(
    let t := eval cbv beta delta [node_eta] in (node_eta n) in
    let t' := eval pattern (f n) in t in
    match t' with ?g _ => exact g end)) in
  exact (fun v n => h n v).

Definition set_mstate (v : mon_state) (n : node) : node := Eval cbv beta in (ltac:(field_setter mstate) v n).
Definition set_epoch (v : Z) (n : node) : node := Eval cbv beta in (ltac:(field_setter epoch) v n).
Definition set_leader (v : Z) (n : node) : node := Eval cbv beta in (ltac:(field_setter leader) v n).
Definition set_quorum (v : gset Z) (n : node) : node := Eval cbv beta in (ltac:(field_setter quorum) v n).
Definition set_store (v : Store) (n : node) : node := Eval cbv beta in (ltac:(field_setter store) v n).
Definition set_io_queue (v : list Transaction) (n : node) : node := Eval cbv beta in (ltac:(field_setter io_queue) v n).
Definition set_io_applied (v : bool) (n : node) : node := Eval cbv beta in (ltac:(field_setter io_applied) v n).
Definition set_state (v : paxos_state) (n : node) : node := Eval cbv beta in (ltac:(field_setter state) v n).
Definition set_first_committed (v : Z) (n : node) : node := Eval cbv beta in (ltac:(field_setter first_committed) v n).
Definition set_last_committed (v : Z) (n : node) : node := Eval cbv beta in (ltac:(field_setter last_committed) v n).
Definition set_last_pn (v : Z) (n : node) : node := Eval cbv beta in (ltac:(field_setter last_pn) v n).
Definition set_accepted_pn (v : Z) (n : node) : node := Eval cbv beta in (ltac:(field_setter accepted_pn) v n).
Definition set_accepted_pn_from (v : Z) (n : node) : node := Eval cbv beta in (ltac:(field_setter accepted_pn_from) v n).
Definition set_num_last (v : Z) (n : node) : node := Eval cbv beta in (ltac:(field_setter num_last) v n).
Definition set_peer_first_committed (v : list (Z * Z)) (n : node) : node := Eval cbv beta in (ltac:(field_setter peer_first_committed) v n).
Definition set_peer_last_committed (v : list (Z * Z)) (n : node) : node := Eval cbv beta in (ltac:(field_setter peer_last_committed) v n).
Definition set_uncommitted_v (v : Z) (n : node) : node := Eval cbv beta in (ltac:(field_setter uncommitted_v) v n).
Definition set_uncommitted_pn (v : Z) (n : node) : node := Eval cbv beta in (ltac:(field_setter uncommitted_pn) v n).
Definition set_uncommitted_value (v : bufferlist) (n : node) : node := Eval cbv beta in (ltac:(field_setter uncommitted_value) v n).
Definition set_new_value (v : bufferlist) (n : node) : node := Eval cbv beta in (ltac:(field_setter new_value) v n).
Definition set_accepted (v : gset Z) (n : node) : node := Eval cbv beta in (ltac:(field_setter accepted) v n).
Definition set_lease_expire (v : Z) (n : node) : node := Eval cbv beta in (ltac:(field_setter lease_expire) v n).
Definition set_acked_lease (v : gset Z) (n : node) : node := Eval cbv beta in (ltac:(field_setter acked_lease) v n).
Definition set_collect_timeout_event (v : bool) (n : node) : node := Eval cbv beta in (ltac:(field_setter collect_timeout_event) v n).
Definition set_accept_timeout_event (v : bool) (n : node) : node := Eval cbv beta in (ltac:(field_setter accept_timeout_event) v n).
Definition set_lease_renew_event (v : bool) (n : node) : node := Eval cbv beta in (ltac:(field_setter lease_renew_event) v n).
Definition set_lease_ack_timeout_event (v : bool) (n : node) : node := Eval cbv beta in (ltac:(field_setter lease_ack_timeout_event) v n).
Definition set_lease_timeout_event (v : bool) (n : node) : node := Eval cbv beta in (ltac:(field_setter lease_timeout_event) v n).
Definition set_pending_proposal (v : option Transaction) (n : node) : node := Eval cbv beta in (ltac:(field_setter pending_proposal) v n).
Definition set_pending_finishers (v : list finisher) (n : node) : node := Eval cbv beta in (ltac:(field_setter pending_finishers) v n).
Definition set_committing_finishers (v : list finisher) (n : node) : node := Eval cbv beta in (ltac:(field_setter committing_finishers) v n).
Definition set_commits_started (v : Z) (n : node) : node := Eval cbv beta in (ltac:(field_setter commits_started) v n).
Definition set_trimming (v : bool) (n : node) : node := Eval cbv beta in (ltac:(field_setter trimming) v n).
Definition set_plugged (v : bool) (n : node) : node := Eval cbv beta in (ltac:(field_setter plugged) v n).
Definition set_completed (v : list (Z * Z)) (n : node) : node := Eval cbv beta in (ltac:(field_setter completed) v n).
Definition set_outbox (v : list (Z * MMonPaxos)) (n : node) : node := Eval cbv beta in (ltac:(field_setter outbox) v n).

(** ** Computations *)

Definition M (A : Type) : Type := node -> option A * node.

#[export] Instance M_ret : MRet M := fun A a n => (Some a, n).
#[export] Instance M_bind : MBind M := fun A B f m n =>
  match m n with
  | (Some a, n') => f a n'
  | (None, n') => (None, n')
  end.

Definition self : M node := fun n => (Some n, n).
Definition upd (f : node -> node) : M unit := fun n => (Some tt, f n).
Definition abort {A} : M A := fun n => (None, n).

(** [ceph_assert] *)
Definition assert (b : bool) : M unit := if b then mret tt else abort.
Definition unless_None {A} (o : option A) : M A := match o with Some a => mret a | None => abort end.
Definition when (b : bool) (m : M unit) : M unit := if b then m else mret tt.

Definition paxos_name : string := "paxos".

Definition run_tx (t : Transaction) : M unit := upd (fun n => set_store (apply_transaction t (store n)) n).
Definition get_key (key : string) : M Z := n ← self; unless_None (get_num (store n) paxos_name key).
Definition decode (bl : bufferlist) : M Transaction := unless_None (decode_transaction bl).

Definition send (to : Z) (m : MMonPaxos) : M unit := upd (fun n => set_outbox (outbox n ++ [(to, m)]) n).

(** The loops over [mon.get_quorum()] that skip the monitor itself. *)
Definition others (n : node) : list Z := filter (fun p => p <> rank n) (elements (quorum n)).
Definition send_quorum (m : MMonPaxos) : M unit :=
  upd (fun n => set_outbox (outbox n ++ map (fun p => (p, m)) (others n)) n).

(** ** Configuration and environment

    [monmap_size] is the number of monitors in the monitor map; the rest are
    configuration options.  The environment of a step is the clock and what the
    services answer to [refresh_from_paxos]. *)

Record conf := {
  monmap_size : Z;
  mon_lease : Z;
  paxos_min : Z;
  paxos_trim_min : Z;
  paxos_trim_max : Z;
  mon_compact_on_trim : bool
}.

Record env := { now : Z; need_bootstrap : bool }.

Definition is_leader (n : node) : bool := bool_decide (mstate n = MON_LEADER).
Definition is_peon (n : node) : bool := bool_decide (mstate n = MON_PEON).
Definition is_probing (n : node) : bool := bool_decide (mstate n = MON_PROBING).
Definition is_electing (n : node) : bool := bool_decide (mstate n = MON_ELECTING).
Definition is_active (n : node) : bool := bool_decide (state n = STATE_ACTIVE).
Definition is_updating (n : node) : bool := bool_decide (state n = STATE_UPDATING).
Definition is_updating_previous (n : node) : bool := bool_decide (state n = STATE_UPDATING_PREVIOUS).
Definition is_writing (n : node) : bool := bool_decide (state n = STATE_WRITING).
Definition is_writing_previous (n : node) : bool := bool_decide (state n = STATE_WRITING_PREVIOUS).
Definition is_refresh (n : node) : bool := bool_decide (state n = STATE_REFRESH).
Definition is_shutdown (n : node) : bool := bool_decide (state n = STATE_SHUTDOWN).
Definition is_consistent (n : node) : bool := first_committed n <=? last_committed n.
Definition quorum_size (n : node) : Z := Z.of_nat (size (quorum n)).

Section Paxos.
Context (c : conf) (e : env).

(** ** Service interface *)

Definition is_lease_valid (n : node) : bool := (quorum_size n =? 1) || (now e <? lease_expire n).

Definition is_readable (v : Z) (n : node) : bool :=
  if last_committed n <? v then false
  else (is_peon n || is_leader n) && (is_active n || is_updating n || is_writing n) &&
       (0 <? last_committed n) && is_lease_valid n.

Definition is_writeable (n : node) : bool := is_leader n && is_active n && is_lease_valid n.

(** [get()] returns 0 on success, so [read] answers [false] exactly when the
    version is there. *)
Definition read (v : Z) (n : node) : bool * bufferlist :=
  (negb (exists_ver (store n) paxos_name v), get_bl (store n) paxos_name v).

Definition read_current (n : node) : Z * bufferlist :=
  let '(b, bl) := read (last_committed n) n in (if b then last_committed n else 0, bl).

(** ** Timers and contexts *)

Definition cancel_events : M unit :=
  upd (fun n => set_collect_timeout_event false (set_accept_timeout_event false (set_lease_renew_event false
    (set_lease_ack_timeout_event false (set_lease_timeout_event false n))))).

Definition reset_lease_timeout : M unit := upd (set_lease_timeout_event true).

Definition finish_context (r : Z) (n : node) (f : finisher) : node :=
  match f with
  | C_Trimmed => set_trimming false n
  | C_service id => set_completed (completed n ++ [(id, r)]) n
  end.

Definition finish_contexts (fs : list finisher) (r : Z) : M unit := upd (fun n => fold_left (finish_context r) fs n).

Definition EAGAIN : Z := 11.

Definition reset_pending_committing_finishers : M unit :=
  n ← self;
  upd (set_committing_finishers []);;
  upd (set_pending_finishers []);;
  finish_contexts (committing_finishers n ++ pending_finishers n) (- EAGAIN).

Definition queue_pending_finisher (f : finisher) : M unit :=
  upd (fun n => set_pending_finishers (pending_finishers n ++ [f]) n).

Definition get_pending_transaction : M Transaction :=
  n ← self;
  assert (is_leader n);;
  match pending_proposal n with
  | Some t => mret t
  | None =>
      upd (set_pending_proposal (Some []));;
      assert (bool_decide (pending_finishers n = []));;
      mret []
  end.

(** ** Trimming *)

Definition should_trim (n : node) : bool :=
  let available_versions := s32 (last_committed n - first_committed n) in
  let maximum_versions := s32 (paxos_min c + paxos_trim_min c) in
  negb (trimming n || (available_versions <=? maximum_versions)).

Definition trim_ops (fc end_ : Z) : Transaction :=
  map (erase_ver paxos_name) (seqZ fc (end_ - fc)) ++
  put_num paxos_name "first_committed" end_ ::
  (if mon_compact_on_trim c then [OP_COMPACT paxos_name (ver_key (fc - 1)) (ver_key end_)] else []).

Definition trim : M unit :=
  n ← self;
  assert (should_trim n);;
  let end_ := Z.min (u64 (last_committed n - paxos_min c)) (u64 (first_committed n + paxos_trim_max c)) in
  if end_ <=? first_committed n then mret tt
  else
    t ← get_pending_transaction;
    upd (set_pending_proposal (Some (t ++ trim_ops (first_committed n) end_)));;
    upd (set_trimming true);;
    queue_pending_finisher C_Trimmed.

(** ** Phase 1, leader *)

Definition get_new_proposal_number (gt : Z) : M Z :=
  n ← self;
  let pn := (Z.max (last_pn n) gt `div` 100 + 1) * 100 + rank n in
  upd (set_last_pn pn);;
  run_tx [put_num paxos_name "last_pn" pn];;
  mret pn.

(** The pn under which the value found at [last_committed + 1] was accepted;
    [prev] where the disk does not say. *)
Definition pending_pn_or (prev : Z) : M Z :=
  n ← self;
  v ← get_key "pending_v";
  pn ← get_key "pending_pn";
  mret (if negb (v =? 0) && negb (pn =? 0) && (v =? last_committed n + 1) then pn else prev).

Definition collect (oldpn : Z) : M unit :=
  upd (set_state STATE_RECOVERING);;
  n ← self;
  assert (is_leader n);;
  upd (fun n => set_uncommitted_v 0 (set_uncommitted_pn 0 (set_uncommitted_value bl_empty
    (set_peer_first_committed [] (set_peer_last_committed [] n)))));;
  when (exists_ver (store n) paxos_name (last_committed n + 1))
    (pn ← pending_pn_or (accepted_pn n);
     let bl := get_bl (store n) paxos_name (last_committed n + 1) in
     upd (fun n => set_uncommitted_pn pn (set_uncommitted_v (last_committed n + 1) (set_uncommitted_value bl n)));;
     assert (bl_nonempty bl));;
  pn ← get_new_proposal_number (Z.max (accepted_pn n) oldpn);
  upd (fun n => set_accepted_pn pn (set_accepted_pn_from (last_committed n) (set_num_last 1 n)));;
  send_quorum {| m_epoch := epoch n; m_op := OP_COLLECT;
                 m_first_committed := first_committed n; m_last_committed := last_committed n;
                 m_pn_from := 0; m_pn := pn; m_uncommitted_pn := 0; m_lease_timestamp := 0; m_values := [] |};;
  upd (set_collect_timeout_event true).

(** ** Sharing committed values *)

Fixpoint share_loop (s : Store) (vs : list Z) (values : list (Z * bufferlist)) : M (list (Z * bufferlist)) :=
  match vs with
  | [] => mret values
  | v :: vs' =>
      if exists_ver s paxos_name v then
        let bl := get_bl s paxos_name v in
        assert (bl_nonempty bl);;
        share_loop s vs' (map_set values v bl)
      else share_loop s vs' values
  end.

(** The message [m] with the versions after [peer_last_committed]. *)
Definition share_state (m : MMonPaxos) (peer_last_committed : Z) : M MMonPaxos :=
  n ← self;
  assert (peer_last_committed <? last_committed n);;
  values ← share_loop (store n) (seqZ (peer_last_committed + 1) (last_committed n - peer_last_committed)) (m_values m);
  mret {| m_epoch := m_epoch m; m_op := m_op m;
          m_first_committed := m_first_committed m; m_last_committed := last_committed n;
          m_pn_from := m_pn_from m; m_pn := m_pn m; m_uncommitted_pn := m_uncommitted_pn m;
          m_lease_timestamp := m_lease_timestamp m; m_values := values |}.

(** [while (it != end && it->first <= b) ++it] *)
Fixpoint skip_upto (b : Z) (l : list (Z * bufferlist)) : list (Z * bufferlist) :=
  match l with
  | (v, x) :: l' => if v <=? b then skip_upto b l' else l
  | [] => []
  end.

Fixpoint take_upto (b : Z) (l : list (Z * bufferlist)) : list (Z * bufferlist) :=
  match l with
  | (v, x) :: l' => if v <=? b then (v, x) :: take_upto b l' else []
  | [] => []
  end.

(** The transaction that writes and applies the values. *)
Fixpoint apply_values (l : list (Z * bufferlist)) : M Transaction :=
  match l with
  | [] => mret []
  | (v, bl) :: l' =>
      t ← decode bl;
      t' ← apply_values l';
      mret (put_ver paxos_name v bl :: t ++ t')
  end.

Definition sanity_check_store : M unit :=
  lc ← get_key "last_committed"; n ← self; assert (lc =? last_committed n).

Definition store_state (m : MMonPaxos) : M bool :=
  n ← self;
  if match m_values m with (v, _) :: _ => last_committed n + 1 <? v | [] => false end then mret false
  else
    let range := take_upto (m_last_committed m) (skip_upto (last_committed n) (m_values m)) in
    match last range with
    | None => mret false
    | Some (lc, _) =>
        upd (set_last_committed lc);;
        t ← apply_values range;
        when (negb (uncommitted_v n =? 0) && (uncommitted_v n <=? lc))
          (upd (fun n => set_uncommitted_v 0 (set_uncommitted_pn 0 (set_uncommitted_value bl_empty n))));;
        run_tx (put_num paxos_name "last_committed" lc :: t);;
        fc ← get_key "first_committed";
        upd (set_first_committed fc);;
        sanity_check_store;;
        mret true
    end.

(** ** Phase 2, leader *)

Definition commit_start : M unit :=
  n ← self;
  t ← decode (new_value n);
  upd (fun n => set_io_queue (io_queue n ++ [put_num paxos_name "last_committed" (last_committed n + 1) :: t]) n);;
  (if is_updating_previous n then upd (set_state STATE_WRITING_PREVIOUS)
   else if is_updating n then upd (set_state STATE_WRITING)
   else abort);;
  upd (fun n => set_commits_started (commits_started n + 1) n);;
  when (1 <? quorum_size n) (upd (set_accept_timeout_event false)).

Definition begin (v : bufferlist) : M unit :=
  n ← self;
  assert (is_leader n);;
  assert (is_updating n || is_updating_previous n);;
  assert ((quorum_size n =? 1) || (monmap_size c / 2 <? num_last n));;
  assert (negb (bl_nonempty (new_value n)));;
  upd (fun n => set_accepted {[rank n]} (set_new_value v n));;
  when (last_committed n =? 0)
    (t ← decode v;
     upd (set_new_value (BTransaction (put_num paxos_name "first_committed" 1 :: t))));;
  n ← self;
  run_tx [put_ver paxos_name (last_committed n + 1) (new_value n);
          put_num paxos_name "pending_v" (last_committed n + 1);
          put_num paxos_name "pending_pn" (accepted_pn n)];;
  if quorum_size n =? 1 then commit_start
  else
    send_quorum {| m_epoch := epoch n; m_op := OP_BEGIN;
                   m_first_committed := 0; m_last_committed := last_committed n;
                   m_pn_from := 0; m_pn := accepted_pn n; m_uncommitted_pn := 0; m_lease_timestamp := 0;
                   m_values := [(last_committed n + 1, new_value n)] |};;
    upd (set_accept_timeout_event true).

Definition propose_pending : M unit :=
  n ← self;
  assert (is_active n);;
  t ← unless_None (pending_proposal n);
  cancel_events;;
  upd (set_pending_proposal None);;
  upd (fun n => set_committing_finishers (pending_finishers n) (set_pending_finishers (committing_finishers n) n));;
  upd (set_state STATE_UPDATING);;
  begin (BTransaction t).

Definition finish_round : M unit :=
  n ← self;
  assert (is_leader n);;
  upd (set_state STATE_ACTIVE);;
  n ← self;
  when (should_trim n) trim;;
  n ← self;
  when (is_active n && bool_decide (is_Some (pending_proposal n))) propose_pending.

Definition extend_lease : M unit :=
  n ← self;
  assert (is_leader n);;
  upd (fun n => set_lease_expire (now e + mon_lease c) (set_acked_lease {[rank n]} n));;
  send_quorum {| m_epoch := epoch n; m_op := OP_LEASE;
                 m_first_committed := first_committed n; m_last_committed := last_committed n;
                 m_pn_from := 0; m_pn := 0; m_uncommitted_pn := 0; m_lease_timestamp := now e + mon_lease c;
                 m_values := [] |};;
  upd (set_lease_ack_timeout_event true);;
  upd (set_lease_renew_event true).

Definition trigger_propose : M bool :=
  n ← self;
  if plugged n then mret false
  else if is_active n then propose_pending;; mret true
  else mret false.

Definition plug : M unit := n ← self; assert (negb (plugged n));; upd (set_plugged true).
Definition unplug : M unit := n ← self; assert (plugged n);; upd (set_plugged false).

(** ** Resetting

    [flush] waits until the store has run the queued transactions and their
    completions; it is a parameter here because the completion, [commit_finish],
    may itself reset the monitor. *)

Definition restart_with (flush : M unit) : M unit :=
  cancel_events;;
  upd (set_new_value bl_empty);;
  n ← self;
  when (is_writing n || is_writing_previous n) flush;;
  upd (set_state STATE_RECOVERING);;
  upd (set_pending_proposal None);;
  reset_pending_committing_finishers.

Definition wait_for_paxos_write_with (flush : M unit) : M unit :=
  n ← self; when (is_writing n || is_writing_previous n) flush.

(** [Monitor::_reset] *)
Definition reset_with (flush : M unit) : M unit :=
  upd (set_quorum ∅);;
  restart_with flush.

(** [Monitor::bootstrap] *)
Definition bootstrap_with (flush : M unit) : M unit :=
  wait_for_paxos_write_with flush;;
  upd (set_mstate MON_PROBING);;
  reset_with flush.

Definition do_refresh_with (flush : M unit) : M bool :=
  if need_bootstrap e then bootstrap_with flush;; mret false else mret true.

Definition commit_proposal : M unit :=
  n ← self;
  assert (is_leader n);;
  assert (is_refresh n);;
  upd (set_committing_finishers []);;
  finish_contexts (committing_finishers n) 0.

(** The state is [STATE_REFRESH] when [do_refresh] runs, so a reset finds no
    write to wait for. *)
Definition commit_finish : M unit :=
  upd (set_lease_expire 0);;
  upd (fun n => set_last_committed (last_committed n + 1) n);;
  fc ← get_key "first_committed";
  upd (set_first_committed fc);;
  sanity_check_store;;
  n ← self;
  send_quorum {| m_epoch := epoch n; m_op := OP_COMMIT;
                 m_first_committed := 0; m_last_committed := last_committed n;
                 m_pn_from := 0; m_pn := accepted_pn n; m_uncommitted_pn := 0; m_lease_timestamp := 0;
                 m_values := [(last_committed n, new_value n)] |};;
  upd (set_new_value bl_empty);;
  assert (is_writing n || is_writing_previous n);;
  upd (set_state STATE_REFRESH);;
  assert (0 <? commits_started n);;
  upd (fun n => set_commits_started (commits_started n - 1) n);;
  b ← do_refresh_with (mret tt);
  when b
    (commit_proposal;;
     n ← self;
     when (1 <? quorum_size n) extend_lease;;
     finish_round).

Definition abort_commit : M unit :=
  n ← self;
  assert (0 <? commits_started n);;
  upd (fun n => set_commits_started (commits_started n - 1) n).

(** [C_Committed::finish] *)
Definition committed : M unit :=
  n ← self; if is_shutdown n then abort_commit else commit_finish.

(** The store's thread: a queued transaction reaches the disk, then its
    completion runs under the monitor's lock. *)
Definition io_apply : M unit :=
  n ← self;
  match io_queue n with
  | t :: _ => when (negb (io_applied n)) (run_tx t;; upd (set_io_applied true))
  | [] => mret tt
  end.

Definition io_complete : M unit :=
  n ← self;
  match io_queue n with
  | _ :: q => when (io_applied n) (upd (set_io_applied false);; upd (set_io_queue q);; committed)
  | [] => mret tt
  end.

(** [MonitorDBStore::flush].  The completion of a write can queue one more (a
    single monitor commits a proposal it has pending at once), and that one
    leaves nothing pending. *)
Definition flush : M unit := io_apply;; io_complete;; io_apply;; io_complete.

Definition restart : M unit := restart_with flush.
Definition bootstrap : M unit := bootstrap_with flush.
Definition do_refresh : M bool := do_refresh_with flush.

(** [Monitor::join_election], and [Monitor::start_election] up to the call of
    the elector. *)
Definition join_election : M unit :=
  wait_for_paxos_write_with flush;;
  reset_with flush;;
  upd (set_mstate MON_ELECTING).

(** ** Roles *)

Definition leader_init : M unit :=
  cancel_events;;
  upd (set_new_value bl_empty);;
  upd (set_pending_proposal None);;
  reset_pending_committing_finishers;;
  n ← self;
  if quorum_size n =? 1 then upd (set_state STATE_ACTIVE)
  else
    upd (set_state STATE_RECOVERING);;
    upd (set_lease_expire 0);;
    collect 0.

Definition peon_init : M unit :=
  cancel_events;;
  upd (set_new_value bl_empty);;
  upd (set_state STATE_RECOVERING);;
  upd (set_lease_expire 0);;
  reset_lease_timeout;;
  upd (set_pending_proposal None);;
  reset_pending_committing_finishers.

(** [Monitor::win_election]; [metadata] goes with the first transaction. *)
Definition win_election (active : gset Z) (metadata : string) : M unit :=
  n ← self;
  assert (is_electing n);;
  upd (fun n => set_mstate MON_LEADER (set_leader (rank n) (set_quorum active n)));;
  leader_init;;
  t ← get_pending_transaction;
  upd (set_pending_proposal (Some (t ++ [OP_PUT "monitor_store" "last_metadata" (BBytes metadata)]))).

Definition lose_election (q : gset Z) (l : Z) : M unit :=
  upd (fun n => set_mstate MON_PEON (set_leader l (set_quorum q n)));;
  peon_init.

(** ** Handlers *)

Definition handle_collect (from : Z) (m : MMonPaxos) : M unit :=
  n ← self;
  assert (is_peon n);;
  upd (set_state STATE_RECOVERING);;
  reset_lease_timeout;;
  if last_committed n + 1 <? m_first_committed m then bootstrap
  else
    when (accepted_pn n <? m_pn m)
      (upd (fun n => set_accepted_pn (m_pn m) (set_accepted_pn_from (m_pn_from m) n));;
       run_tx [put_num paxos_name "accepted_pn" (m_pn m)]);;
    n' ← self;
    let reply := {| m_epoch := epoch n; m_op := OP_LAST;
                    m_first_committed := first_committed n; m_last_committed := last_committed n;
                    m_pn_from := accepted_pn_from n'; m_pn := accepted_pn n'; m_uncommitted_pn := 0;
                    m_lease_timestamp := 0; m_values := [] |} in
    reply ← (if m_last_committed m <? last_committed n then share_state reply (m_last_committed m) else mret reply);
    reply ←
      (if (m_last_committed m <=? last_committed n) && exists_ver (store n') paxos_name (last_committed n + 1) then
         let bl := get_bl (store n') paxos_name (last_committed n + 1) in
         assert (bl_nonempty bl);;
         pn ← pending_pn_or (accepted_pn n);
         mret {| m_epoch := m_epoch reply; m_op := m_op reply;
                 m_first_committed := m_first_committed reply; m_last_committed := m_last_committed reply;
                 m_pn_from := m_pn_from reply; m_pn := m_pn reply; m_uncommitted_pn := pn;
                 m_lease_timestamp := m_lease_timestamp reply;
                 m_values := map_set (m_values reply) (last_committed n + 1) bl |}
       else mret reply);
    send from reply.

(** The loop of [handle_last] that brings the peers up to date; [false] when it
    ends in a bootstrap. *)
Fixpoint update_peers (peers : list (Z * Z)) : M bool :=
  match peers with
  | [] => mret true
  | (p, lc) :: peers' =>
      n ← self;
      if (lc + 1 <? first_committed n) && (1 <? first_committed n) then bootstrap;; mret false
      else
        when (lc <? last_committed n)
          (m ← share_state {| m_epoch := epoch n; m_op := OP_COMMIT;
                              m_first_committed := 0; m_last_committed := 0;
                              m_pn_from := 0; m_pn := 0; m_uncommitted_pn := 0; m_lease_timestamp := 0;
                              m_values := [] |} lc;
           send p m);;
        update_peers peers'
  end.

(** Adopt the uncommitted value a peer reports, when it is at least as recent
    as the one known. *)
Definition learn_uncommitted (m : MMonPaxos) : M unit :=
  n ← self;
  when (negb (m_uncommitted_pn m =? 0) &&
        ((uncommitted_pn n <=? m_uncommitted_pn m) && (last_committed n <=? m_last_committed m) &&
         (uncommitted_v n <=? m_last_committed m + 1)))
    (upd (fun n => set_uncommitted_v (m_last_committed m + 1) (set_uncommitted_pn (m_uncommitted_pn m)
       (set_uncommitted_value (map_at bl_empty (m_values m) (m_last_committed m + 1)) n)))).

(** Every member of the quorum has answered; the result is the [need_refresh]
    that is left. *)
Definition collect_done (need_refresh : bool) : M bool :=
  upd (set_collect_timeout_event false);;
  upd (fun n => set_peer_first_committed [] (set_peer_last_committed [] n));;
  n ← self;
  if (uncommitted_v n =? last_committed n + 1) && bl_nonempty (uncommitted_value n) then
    upd (set_state STATE_UPDATING_PREVIOUS);;
    begin (uncommitted_value n);;
    mret need_refresh
  else
    extend_lease;;
    b ← do_refresh;
    when b finish_round;;
    mret false.

Definition handle_last (from : Z) (m : MMonPaxos) : M unit :=
  n ← self;
  if negb (is_leader n) then mret tt
  else
    upd (fun n => set_peer_first_committed (map_set (peer_first_committed n) from (m_first_committed m))
      (set_peer_last_committed (map_set (peer_last_committed n) from (m_last_committed m)) n));;
    if last_committed n + 1 <? m_first_committed m then bootstrap
    else
      need_refresh ← store_state m;
      n ← self;
      go_on ← update_peers (peer_last_committed n);
      if negb go_on then mret tt
      else
        n ← self;
        need_refresh ←
          (if accepted_pn n <? m_pn m then
             upd (set_collect_timeout_event false);;
             collect (m_pn m);;
             mret need_refresh
           else if m_pn m =? accepted_pn n then
             upd (fun n => set_num_last (num_last n + 1) n);;
             learn_uncommitted m;;
             n ← self;
             if num_last n =? quorum_size n then collect_done need_refresh else mret need_refresh
           else mret need_refresh);
        when need_refresh (_ ← do_refresh; mret tt).

Definition handle_begin (from : Z) (m : MMonPaxos) : M unit :=
  n ← self;
  if m_pn m <? accepted_pn n then mret tt
  else
    assert (m_pn m =? accepted_pn n);;
    assert (m_last_committed m =? last_committed n);;
    upd (set_state STATE_UPDATING);;
    upd (set_lease_expire 0);;
    let v := last_committed n + 1 in
    run_tx [put_ver paxos_name v (map_at bl_empty (m_values m) v);
            put_num paxos_name "pending_v" v;
            put_num paxos_name "pending_pn" (accepted_pn n)];;
    send from {| m_epoch := epoch n; m_op := OP_ACCEPT;
                 m_first_committed := 0; m_last_committed := last_committed n;
                 m_pn_from := 0; m_pn := accepted_pn n; m_uncommitted_pn := 0; m_lease_timestamp := 0;
                 m_values := [] |}.

Definition handle_accept (from : Z) (m : MMonPaxos) : M unit :=
  n ← self;
  if negb (m_pn m =? accepted_pn n) then mret tt
  else if (0 <? last_committed n) && (m_last_committed m <? last_committed n - 1) then mret tt
  else
    assert ((m_last_committed m =? last_committed n) || (m_last_committed m =? last_committed n - 1));;
    assert (is_updating n || is_updating_previous n);;
    assert (bool_decide (from ∉ accepted n));;
    upd (fun n => set_accepted ({[from]} ∪ accepted n) n);;
    n ← self;
    when (bool_decide (accepted n = quorum n)) commit_start.

Definition handle_commit (m : MMonPaxos) : M unit :=
  n ← self;
  assert (is_peon n);;
  _ ← store_state m;
  _ ← do_refresh;
  mret tt.

Definition handle_lease (from : Z) (m : MMonPaxos) : M unit :=
  n ← self;
  if negb (is_peon n) || negb (last_committed n =? m_last_committed m) then mret tt
  else
    when (lease_expire n <? m_lease_timestamp m) (upd (set_lease_expire (m_lease_timestamp m)));;
    upd (set_state STATE_ACTIVE);;
    send from {| m_epoch := epoch n; m_op := OP_LEASE_ACK;
                 m_first_committed := first_committed n; m_last_committed := last_committed n;
                 m_pn_from := 0; m_pn := 0; m_uncommitted_pn := 0; m_lease_timestamp := now e;
                 m_values := [] |};;
    reset_lease_timeout.

Definition handle_lease_ack (from : Z) (m : MMonPaxos) : M unit :=
  n ← self;
  if negb (lease_ack_timeout_event n) then mret tt
  else if bool_decide (from ∈ acked_lease n) then mret tt
  else
    upd (fun n => set_acked_lease ({[from]} ∪ acked_lease n) n);;
    n ← self;
    when (bool_decide (acked_lease n = quorum n)) (upd (set_lease_ack_timeout_event false)).

Definition dispatch (from : Z) (m : MMonPaxos) : M unit :=
  n ← self;
  if negb (is_leader n) && negb (is_peon n) then mret tt
  else
    assert (is_leader n || (is_peon n && (from =? leader n)));;
    match m_op m with
    | OP_COLLECT => handle_collect from m
    | OP_LAST => handle_last from m
    | OP_BEGIN => handle_begin from m
    | OP_ACCEPT => handle_accept from m
    | OP_COMMIT => handle_commit m
    | OP_LEASE => handle_lease from m
    | OP_LEASE_ACK => handle_lease_ack from m
    end.

(** [Monitor::dispatch_op] for [MSG_MON_PAXOS] *)
Definition monitor_dispatch (from : Z) (m : MMonPaxos) : M unit :=
  n ← self;
  if epoch n <? m_epoch m then bootstrap
  else if negb (m_epoch m =? epoch n) then mret tt
  else dispatch from m.

(** ** Timers *)

Definition collect_timeout : M unit :=
  upd (set_collect_timeout_event false);;
  n ← self; assert (is_leader n);; bootstrap.

Definition accept_timeout : M unit :=
  upd (set_accept_timeout_event false);;
  n ← self;
  assert (is_leader n);;
  assert (is_updating n || is_updating_previous n || is_writing n || is_writing_previous n);;
  bootstrap.

Definition lease_ack_timeout : M unit :=
  n ← self;
  assert (is_leader n);;
  assert (is_active n);;
  upd (set_lease_ack_timeout_event false);;
  bootstrap.

Definition lease_timeout : M unit :=
  n ← self;
  assert (is_peon n);;
  upd (set_lease_timeout_event false);;
  bootstrap.

Definition lease_renew_timeout : M unit :=
  upd (set_lease_renew_event false);;
  extend_lease.

(** ** Starting the process

    Only the store and the election epoch, which the elector keeps in the same
    store, survive; [Paxos::init] reads the rest back. *)

Definition fresh (r ep : Z) (s : Store) : node :=
  Node r MON_PROBING ep (-1) ∅ s [] false
    STATE_RECOVERING 0 0 0 0 0 0 [] [] 0 0 bl_empty bl_empty ∅ 0 ∅
    false false false false false None [] [] 0 false false [] [].

Definition init : M unit :=
  pn ← get_key "last_pn";
  upd (set_last_pn pn);;
  apn ← get_key "accepted_pn";
  upd (set_accepted_pn apn);;
  lc ← get_key "last_committed";
  upd (set_last_committed lc);;
  fc ← get_key "first_committed";
  upd (set_first_committed fc);;
  n ← self;
  assert (is_consistent n).

End Paxos.
