(* ===== verification/PaxosSystem.v ===== *)
(** * A cluster of monitors

    The monitors of a monitor map run the handlers of [Paxos.v] and exchange
    messages.  Between two monitors messages arrive in the order they were sent
    (the messenger's sessions are ordered) and at most once; any of them may be
    lost.  Elections appear through their outcome: a monitor that leads, or
    follows, was in no quorum and does so in an epoch above the one it was in,
    and a leader's quorum is a majority that contains it ([MonClusterRefine.v] shows
    this of the elector).

    A step is a function of its label, so a run can be evaluated. *)

From stdpp Require Import strings.
From S2P Require Import Prelude MonitorDBStore Paxos.

Record sys := Sys {
  nodes : gmap Z node;
  net : gmap (Z * Z) (list MMonPaxos)
}.

Definition chan (s : sys) (i j : Z) : list MMonPaxos := default [] (net s !! (i, j)).

Inductive timer := T_collect | T_accept | T_lease_ack | T_lease | T_lease_renew.

Inductive label :=
  | LDeliver (from to : Z)
  | LDrop (from to : Z) (k : nat)
  | LJoin (i ep : Z)
  | LWin (i ep : Z) (q : gset Z) (metadata : string)
  | LLose (i ep : Z) (q : gset Z) (l : Z)
  | LEpoch (i ep : Z)
  | LBootstrap (i : Z)
  | LTimer (i : Z) (t : timer)
  | LApply (i : Z)
  | LComplete (i : Z)
  | LPropose (i : Z) (t : Transaction) (f : option finisher)
  | LTrigger (i : Z)
  | LPlug (i : Z) (b : bool)
  | LCrash (i : Z)
  | LRestart (i : Z).

Section System.
Context (c : conf).

(** The messages a node has sent enter the network. *)
Definition post (i : Z) (out : list (Z * MMonPaxos)) (nt : gmap (Z * Z) (list MMonPaxos)) : gmap (Z * Z) (list MMonPaxos) :=
  fold_left (fun nt '(to, m) => <[(i, to) := default [] (nt !! (i, to)) ++ [m]]> nt) out nt.

(** Running a handler on monitor [i]; a failed assertion ends the process. *)
Definition run (i : Z) (m : M unit) (s : sys) : option sys :=
  n ← nodes s !! i;
  if bool_decide (mstate n = MON_DOWN) then None
  else
    let '(o, n') := m n in
    let n'' := match o with Some _ => n' | None => set_mstate MON_DOWN n' end in
    Some (Sys (<[i := set_outbox [] n'']> (nodes s)) (post i (outbox n'') (net s))).

Definition ranks : gset Z := list_to_set (seqZ 0 (monmap_size c)).

(** The monitor is in no quorum. *)
Definition outside (n : node) : bool := is_probing n || is_electing n.

Definition majority (q : gset Z) : bool := monmap_size c / 2 <? Z.of_nat (size q).

(** A service's transaction leaves the keys of Paxos alone. *)
Definition service_tx (t : Transaction) : bool := forallb (fun op => bool_decide (op_prefix op <> paxos_name)) t.

Definition timer_armed (t : timer) (n : node) : bool :=
  match t with
  | T_collect => collect_timeout_event n
  | T_accept => accept_timeout_event n
  | T_lease_ack => lease_ack_timeout_event n
  | T_lease => lease_timeout_event n
  | T_lease_renew => lease_renew_event n
  end.

Definition timer_fires (e : env) (t : timer) : M unit :=
  match t with
  | T_collect => collect_timeout c e
  | T_accept => accept_timeout c e
  | T_lease_ack => lease_ack_timeout c e
  | T_lease => lease_timeout c e
  | T_lease_renew => lease_renew_timeout c e
  end.

Definition propose (t : Transaction) (f : option finisher) : M unit :=
  p ← get_pending_transaction;
  upd (set_pending_proposal (Some (p ++ t)));;
  match f with Some f => queue_pending_finisher f | None => mret tt end.

Definition service_finisher (f : option finisher) : bool :=
  match f with Some C_Trimmed => false | _ => true end.

(** A new process on the disk of the old one. *)
Definition boot (n : node) : node :=
  let '(o, n') := init (fresh (rank n) (epoch n) (store n)) in
  match o with Some _ => n' | None => set_mstate MON_DOWN n' end.

Definition check (b : bool) : option unit := if b then Some tt else None.

Definition step (l : label) (e : env) (s : sys) : option sys :=
  match l with
  | LDeliver from to =>
      match chan s from to with
      | [] => None
      | m :: q => run to (monitor_dispatch c e from m) (Sys (nodes s) (<[(from, to) := q]> (net s)))
      end
  | LDrop from to k =>
      Some (Sys (nodes s) (<[(from, to) := delete k (chan s from to)]> (net s)))
  | LJoin i ep =>
      n ← nodes s !! i;
      _ ← check (epoch n <=? ep);
      run i (upd (set_epoch ep);; join_election c e) s
  | LWin i ep q md =>
      n ← nodes s !! i;
      _ ← check (outside n && (epoch n <? ep) && majority q && bool_decide (i ∈ q) && bool_decide (q ⊆ ranks));
      run i (upd (set_epoch ep);; join_election c e;; win_election q md) s
  | LLose i ep q l =>
      n ← nodes s !! i;
      _ ← check (outside n && (epoch n <? ep));
      run i (upd (set_epoch ep);; join_election c e;; lose_election q l) s
  | LEpoch i ep =>
      n ← nodes s !! i;
      _ ← check (outside n && (epoch n <=? ep));
      run i (upd (set_epoch ep)) s
  | LBootstrap i => run i (bootstrap c e) s
  | LTimer i t =>
      n ← nodes s !! i;
      _ ← check (timer_armed t n);
      run i (timer_fires e t) s
  | LApply i => run i io_apply s
  | LComplete i => run i (io_complete c e) s
  | LPropose i t f =>
      _ ← check (service_tx t && service_finisher f);
      run i (propose t f) s
  | LTrigger i => run i (_ ← trigger_propose c; mret tt) s
  | LPlug i b => run i (if b then plug else unplug) s
  | LCrash i => run i abort s
  | LRestart i =>
      n ← nodes s !! i;
      Some (Sys (<[i := boot n]> (nodes s)) (net s))
  end.

Definition init_sys : sys :=
  Sys (list_to_map (map (fun r => (r, fresh r 0 ∅)) (seqZ 0 (monmap_size c)))) ∅.

Fixpoint runs (ls : list (label * env)) (s : sys) : option sys :=
  match ls with
  | [] => Some s
  | (l, e) :: ls' => s' ← step l e s; runs ls' s'
  end.

(** A monitor's promise is durable when the proposal number it has accepted is
    the one on its disk. *)
Definition promise_durable (n : node) : Prop := get_num (store n) paxos_name "accepted_pn" = Some (accepted_pn n).

Definition allowed (l : label) (s : sys) : Prop :=
  match l with
  | LRestart i => forall n, nodes s !! i = Some n -> promise_durable n
  | _ => True
  end.

(** The states of the runs in which only monitors with a durable promise are
    restarted. *)
Inductive reachable : sys -> Prop :=
  | reachable_init : reachable init_sys
  | reachable_step l e s s' : reachable s -> allowed l s -> step l e s = Some s' -> reachable s'.

End System.
