(* ===== verification/PaxosSpec.v ===== *)
(** * The protocol behind the monitors' Paxos

    An abstract machine with only what agreement depends on: for every monitor
    its election epoch and role, the proposal number it has accepted
    ([a_acc]), the highest one it has generated ([a_lpn]), the number of
    versions it has committed ([a_lc]) and the value it has accepted for the
    next version ([a_pend]); the messages of the two phases in flight; and three
    history variables, the committed [alog], the values proposed per proposal
    number and version, and the votes cast for them.

    [PaxosInv.v] proves the invariant of this machine; [PaxosSim.v] shows that
    the handlers of [Paxos.v] are sequences of its steps. *)

From stdpp Require Import functions sorting.
From S2P Require Import Prelude.

(** [fn_simpl] decides which entry of an updated function is read. *)
Ltac fn_simpl :=
  repeat first
    [ rewrite fn_lookup_insert
    | rewrite fn_lookup_insert_ne by (first [done | congruence]) ].

Section Spec.

(** Values are compared by [eqv]; [ok l x] says that [x] may follow the log
    [l]. *)
Context {V : Type} (eqv : relation V) (ok : list V -> V -> Prop) (ranks : gset Z).

Inductive phase :=
  | PCollect (resp : gset Z) (unc : option (Z * V))
  | PReady
  | PUpdate (x : V) (acks : gset Z)
  | PWrite (x : V).

Inductive role := RNone | RPeon | RLead (q : gset Z) (ph : phase).

Record anode := ANode {
  a_ep : Z;
  a_role : role;
  a_acc : Z;
  a_lpn : Z;
  a_lc : Z;
  a_pend : option (Z * V)
}.

Inductive amsg :=
  | ACollect (e pn lc : Z)
  | ALast (e pn lc : Z) (unc : option (Z * V))
  | ABegin (e pn lc : Z) (x : V)
  | AAccept (e pn lc : Z)
  | AOther.

Record astate := AState {
  an : Z -> anode;
  anet : Z * Z -> list amsg;
  alog : list V;
  aprops : gmap (Z * Z) V;
  avotes : gset (Z * Z * Z)
}.

Definition maj (q : gset Z) : Prop := q ⊆ ranks /\ (size ranks < 2 * size q)%nat.

Definition with_ep (e : Z) (x : anode) : anode := ANode e (a_role x) (a_acc x) (a_lpn x) (a_lc x) (a_pend x).
Definition with_role (r : role) (x : anode) : anode := ANode (a_ep x) r (a_acc x) (a_lpn x) (a_lc x) (a_pend x).
Definition with_acc (p : Z) (x : anode) : anode := ANode (a_ep x) (a_role x) p (a_lpn x) (a_lc x) (a_pend x).
Definition with_lc (v : Z) (x : anode) : anode := ANode (a_ep x) (a_role x) (a_acc x) (a_lpn x) v None.
Definition with_pend (p : Z) (v : V) (x : anode) : anode :=
  ANode (a_ep x) (a_role x) (a_acc x) (a_lpn x) (a_lc x) (Some (p, v)).

Definition set_an (a : astate) (i : Z) (x : anode) : astate :=
  AState (<[i := x]> (an a)) (anet a) (alog a) (aprops a) (avotes a).
Definition set_chan (a : astate) (i j : Z) (l : list amsg) : astate :=
  AState (an a) (<[(i, j) := l]> (anet a)) (alog a) (aprops a) (avotes a).

(** [m] goes from [i] to the members of [q] other than [i]. *)
Definition bcast (i : Z) (q : gset Z) (m : amsg) (nt : Z * Z -> list amsg) : Z * Z -> list amsg :=
  fun ij => if bool_decide (ij.1 = i /\ ij.2 <> i /\ ij.2 ∈ q) then nt ij ++ [m] else nt ij.

(** A new round of phase 1 with the proposal number [p]. *)
Definition collecting (a : astate) (i : Z) (e : Z) (q : gset Z) (p : Z) : astate :=
  AState (<[i := ANode e (RLead q (PCollect {[i]} (a_pend (an a i)))) p p (a_lc (an a i)) (a_pend (an a i))]> (an a))
    (bcast i q (ACollect e p (a_lc (an a i))) (anet a)) (alog a) (aprops a) (avotes a).

(** Phase 2 for [x]: the leader votes first. *)
Definition beginning (a : astate) (i : Z) (q : gset Z) (x : V) : astate :=
  let n := an a i in
  AState (<[i := with_pend (a_acc n) x (with_role (RLead q (PUpdate x {[i]})) n)]> (an a))
    (bcast i q (ABegin (a_ep n) (a_acc n) (a_lc n) x) (anet a)) (alog a)
    (<[(a_acc n, a_lc n + 1) := x]> (aprops a)) ({[(i, a_acc n, a_lc n + 1)]} ∪ avotes a).

(** What a monitor reports: the value it holds for the next version, unless the
    leader is ahead. *)
Definition report (n : anode) (lc : Z) : option (Z * V) := if lc <=? a_lc n then a_pend n else None.

(** The better of two uncommitted values. *)
Definition adopt (old new : option (Z * V)) : option (Z * V) :=
  match old, new with
  | Some (p, _), Some (q, _) => if p <=? q then new else old
  | None, _ => new
  | _, None => old
  end.

Definition learned_role (r : role) : role :=
  match r with RLead q (PCollect resp _) => RLead q (PCollect resp None) | _ => r end.

Definition may_learn (r : role) : Prop :=
  match r with RLead _ (PCollect _ _) => True | RLead _ _ => False | _ => True end.

Inductive astep (a : astate) : astate -> Prop :=
  | S_drop i j k : astep a (set_chan a i j (delete k (anet a (i, j))))
  | S_send i j : astep a (set_chan a i j (anet a (i, j) ++ [AOther]))
  | S_epoch i e : a_ep (an a i) <= e -> astep a (set_an a i (with_ep e (an a i)))
  | S_none i : astep a (set_an a i (with_role RNone (an a i)))
  | S_peon i e : a_ep (an a i) < e -> astep a (set_an a i (with_role RPeon (with_ep e (an a i))))
  | S_lead i e q p : a_ep (an a i) < e -> maj q -> i ∈ q ->
      a_acc (an a i) < p -> a_lpn (an a i) < p -> p mod 100 = i -> astep a (collecting a i e q p)
  | S_collect i q resp u p : a_role (an a i) = RLead q (PCollect resp u) ->
      a_acc (an a i) < p -> a_lpn (an a i) < p -> p mod 100 = i -> astep a (collecting a i (a_ep (an a i)) q p)
  | S_promise i k e p lc l : anet a (i, k) = ACollect e p lc :: l -> a_ep (an a k) = e -> a_role (an a k) = RPeon ->
      astep a (let n := with_acc (Z.max (a_acc (an a k)) p) (an a k) in
               let a' := set_an (set_chan a i k l) k n in
               set_chan a' k i (anet a' (k, i) ++ [ALast e (a_acc n) (a_lc n) (report n lc)]))
  | S_learn i v : may_learn (a_role (an a i)) -> a_lc (an a i) < v <= zlen (alog a) ->
      astep a (set_an a i (with_role (learned_role (a_role (an a i))) (with_lc v (an a i))))
  | S_count i k e p lc u l q resp w : anet a (k, i) = ALast e p lc u :: l ->
      a_ep (an a i) = e -> a_role (an a i) = RLead q (PCollect resp w) -> a_acc (an a i) = p -> lc <= a_lc (an a i) ->
      astep a (set_an (set_chan a k i l) i
        (with_role (RLead q (PCollect ({[k]} ∪ resp) (if lc =? a_lc (an a i) then adopt w u else w))) (an a i)))
  | S_ready i q : a_role (an a i) = RLead q (PCollect q None) ->
      astep a (set_an a i (with_role (RLead q PReady) (an a i)))
  | S_again i q p x y : a_role (an a i) = RLead q (PCollect q (Some (p, x))) -> eqv x y -> astep a (beginning a i q y)
  | S_begin i q x : a_role (an a i) = RLead q PReady -> ok (take (Z.to_nat (a_lc (an a i))) (alog a)) x ->
      astep a (beginning a i q x)
  | S_vote i k e p lc x l : anet a (i, k) = ABegin e p lc x :: l -> a_ep (an a k) = e -> a_role (an a k) = RPeon ->
      a_acc (an a k) = p -> a_lc (an a k) = lc ->
      astep a (let a' := set_an (set_chan a i k l) k (with_pend p x (an a k)) in
               AState (an a') (<[(k, i) := anet a' (k, i) ++ [AAccept e p lc]]> (anet a')) (alog a) (aprops a)
                 ({[(k, p, lc + 1)]} ∪ avotes a))
  | S_ack i k e p lc l q x acks : anet a (k, i) = AAccept e p lc :: l -> a_ep (an a i) = e ->
      a_role (an a i) = RLead q (PUpdate x acks) -> a_acc (an a i) = p ->
      astep a (set_an (set_chan a k i l) i (with_role (RLead q (PUpdate x ({[k]} ∪ acks))) (an a i)))
  | S_write i q x : a_role (an a i) = RLead q (PUpdate x q) ->
      astep a (set_an a i (with_role (RLead q (PWrite x)) (an a i)))
  | S_apply i q x : a_role (an a i) = RLead q (PWrite x) ->
      astep a (AState (<[i := with_role (RLead q PReady) (with_lc (a_lc (an a i) + 1) (an a i))]> (an a)) (anet a)
        (if zlen (alog a) =? a_lc (an a i) then alog a ++ [x] else alog a) (aprops a) (avotes a)).

Definition ainit : astate := AState (fun _ => ANode 0 RNone 0 0 0 None) (fun _ => []) [] ∅ ∅.

(** [asteps] is the reflexive and transitive closure. *)
Definition asteps : relation astate := rtc astep.

(** ** The invariant *)

(** The proposal numbers, and versions, of the messages of one kind in a
    channel; the collects are the ones of epoch [e] or with the number [P]. *)
Definition collects (e P : Z) (l : list amsg) : list Z :=
  omap (fun m => match m with ACollect e' p _ => if (e' =? e) || (p =? P) then Some p else None | _ => None end) l.
Definition lasts (e : Z) (l : list amsg) : list Z :=
  omap (fun m => match m with ALast e' p _ _ => if e' =? e then Some p else None | _ => None end) l.
Definition begins (p : Z) (l : list amsg) : list Z :=
  omap (fun m => match m with ABegin _ p' lc _ => if p' =? p then Some lc else None | _ => None end) l.
Definition accepts (p : Z) (l : list amsg) : list Z :=
  omap (fun m => match m with AAccept _ p' lc => if p' =? p then Some lc else None | _ => None end) l.

(** [p] is at the end of [l], or nowhere. *)
Fixpoint only_last (p : Z) (l : list Z) : Prop :=
  match l with
  | [] => True
  | x :: l' => (x = p -> l' = []) /\ only_last p l'
  end.

(** What travels between a leader with proposal number [P] and a monitor whose
    accepted number is [acck]. *)
Definition link_inv (e P lc : Z) (q : gset Z) (ph : phase) (k acck : Z) (out inn : list amsg) : Prop :=
  match ph with
  | PCollect resp _ =>
      StronglySorted Z.lt (collects e P out) /\ Forall (fun p => p <= P) (collects e P out) /\
      (acck = P -> collects e P out = []) /\
      only_last P (lasts e inn) /\ (P ∈ lasts e inn -> collects e P out = []) /\
      (k ∈ resp \/ k ∉ q -> collects e P out = [] /\ lasts e inn = []) /\
      begins P out = [] /\ accepts P inn = []
  | PUpdate _ acks =>
      collects e P out = [] /\ lasts e inn = [] /\
      Forall (fun v => v = lc) (begins P out ++ accepts P inn) /\
      (length (begins P out ++ accepts P inn) <= 1)%nat /\
      (k ∈ acks \/ k ∉ q -> begins P out ++ accepts P inn = [])
  | _ => collects e P out = [] /\ lasts e inn = [] /\ begins P out = [] /\ accepts P inn = []
  end.

(** No member of [q] voted below [P] for a version above [b]. *)
Definition closed (a : astate) (q : gset Z) (P b : Z) : Prop :=
  forall k, k ∈ q -> P <= a_acc (an a k) /\ forall p1 v, p1 < P -> (k, p1, v) ∈ avotes a -> v <= b.

Definition phase_inv (a : astate) (i : Z) (q : gset Z) (ph : phase) : Prop :=
  let P := a_acc (an a i) in
  let lc := a_lc (an a i) in
  match ph with
  | PCollect resp u =>
      resp ⊆ q /\ i ∈ resp /\
      (forall k, k ∈ resp -> P <= a_acc (an a k) /\
         forall p1 v, p1 < P -> (k, p1, v) ∈ avotes a -> v <= lc \/ (v = lc + 1 /\ exists p x, u = Some (p, x) /\ p1 <= p)) /\
      (forall p x, u = Some (p, x) -> aprops a !! (p, lc + 1) = Some x /\ p < P) /\
      (forall v, aprops a !! (P, v) = None)
  | PReady => closed a q P lc /\ (forall v, is_Some (aprops a !! (P, v)) -> v <= lc)
  | PUpdate x acks =>
      closed a q P (lc + 1) /\ (forall v, is_Some (aprops a !! (P, v)) -> v <= lc + 1) /\
      aprops a !! (P, lc + 1) = Some x /\ acks ⊆ q /\ (forall k, k ∈ acks -> (k, P, lc + 1) ∈ avotes a)
  | PWrite x =>
      closed a q P (lc + 1) /\ (forall v, is_Some (aprops a !! (P, v)) -> v <= lc + 1) /\
      aprops a !! (P, lc + 1) = Some x /\ (forall k, k ∈ q -> (k, P, lc + 1) ∈ avotes a)
  end.

Definition msg_inv (a : astate) (i j : Z) (m : amsg) : Prop :=
  match m with
  | ACollect e p lc =>
      i <> j /\ e <= a_ep (an a i) /\ (e = a_ep (an a i) -> a_role (an a i) <> RPeon) /\
      p mod 100 = i /\ p <= a_lpn (an a i) /\ lc <= a_lc (an a i)
  | ALast e p lc u =>
      i <> j /\ e <= a_ep (an a j) /\ (e = a_ep (an a j) -> a_role (an a j) <> RPeon) /\
      p <= a_acc (an a i) /\ p <= a_lpn (an a (p mod 100)) /\ lc <= zlen (alog a) /\
      (forall p1 v, p1 < p -> (i, p1, v) ∈ avotes a ->
         v <= lc \/ v <= a_lc (an a j) \/ (v = lc + 1 /\ exists q x, u = Some (q, x) /\ p1 <= q)) /\
      (forall q x, u = Some (q, x) -> aprops a !! (q, lc + 1) = Some x /\ q <= p)
  | ABegin e p lc x =>
      i <> j /\ e <= a_ep (an a i) /\ (e = a_ep (an a i) -> a_role (an a i) <> RPeon) /\
      p mod 100 = i /\ p <= a_lpn (an a i) /\ aprops a !! (p, lc + 1) = Some x
  | AAccept e p lc =>
      i <> j /\ e <= a_ep (an a j) /\ (e = a_ep (an a j) -> a_role (an a j) <> RPeon) /\
      p <= a_lpn (an a (p mod 100)) /\ (i, p, lc + 1) ∈ avotes a
  | AOther => True
  end.

(** Every number below [p] has a majority that can no longer vote for it and
    cast no vote for another value than [x]. *)
Definition safe_at (a : astate) (p v : Z) (x : V) : Prop :=
  forall p1, p1 < p -> exists q, maj q /\ forall k, k ∈ q ->
    p1 < a_acc (an a k) /\ ((k, p1, v) ∈ avotes a -> exists y, aprops a !! (p1, v) = Some y /\ eqv y x).

Definition vote_inv (a : astate) (k p v : Z) : Prop :=
  is_Some (aprops a !! (p, v)) /\ p <= a_acc (an a k) /\
  (v <= a_lc (an a k) \/ (v = a_lc (an a k) + 1 /\ exists q x, a_pend (an a k) = Some (q, x) /\ p <= q)).

Definition node_inv (a : astate) (i : Z) : Prop :=
  0 <= a_lc (an a i) <= zlen (alog a) /\
  (forall p x, a_pend (an a i) = Some (p, x) -> aprops a !! (p, a_lc (an a i) + 1) = Some x /\ p <= a_acc (an a i)) /\
  a_acc (an a i) <= a_lpn (an a (a_acc (an a i) mod 100)).

Definition prop_inv (a : astate) (p v : Z) (x : V) : Prop :=
  1 <= v <= zlen (alog a) + 1 /\ ok (take (Z.to_nat (v - 1)) (alog a)) x /\ p <= a_lpn (an a (p mod 100)) /\
  safe_at a p v x.

Definition chosen (a : astate) (v : Z) (x : V) : Prop :=
  exists p q y, maj q /\ aprops a !! (p, v) = Some y /\ eqv y x /\ forall k, k ∈ q -> (k, p, v) ∈ avotes a.

Definition lead_inv (a : astate) (i : Z) (q : gset Z) (ph : phase) : Prop :=
  maj q /\ i ∈ q /\ a_acc (an a i) mod 100 = i /\ a_acc (an a i) = a_lpn (an a i) /\ phase_inv a i q ph /\
  forall k, k <> i ->
    link_inv (a_ep (an a i)) (a_acc (an a i)) (a_lc (an a i)) q ph k (a_acc (an a k)) (anet a (i, k)) (anet a (k, i)).

Record Inv (a : astate) : Prop := {
  I_prop : forall p v x, aprops a !! (p, v) = Some x -> prop_inv a p v x;
  I_log : forall v x, 1 <= v -> alog a !! Z.to_nat (v - 1) = Some x -> chosen a v x;
  I_vote : forall k p v, (k, p, v) ∈ avotes a -> vote_inv a k p v;
  I_node : forall i, node_inv a i;
  I_msg : forall i j m, m ∈ anet a (i, j) -> msg_inv a i j m;
  I_lead : forall i q ph, a_role (an a i) = RLead q ph -> lead_inv a i q ph
}.

End Spec.
