(* ===== verification/PaxosInv.v ===== *)
(** * Agreement of the abstract protocol

    Every step of the machine of [PaxosSpec.v] keeps its invariant.  The parts
    of the invariant that only grow are carried over by one lemma
    ([grows]); what is left for each step is the monitor that moves and the
    channels it touches. *)

From stdpp Require Import functions sorting.
From S2P Require Import Prelude PaxosSpec.

Section Inv.
Context {V : Type} (eqv : relation V) `{!Equivalence eqv} (ok : list V -> V -> Prop).
Context (ok_eqv : forall l x y, eqv x y -> ok l x -> ok l y).
Context (ranks : gset Z).

Abbreviation astate := (@astate V).
Abbreviation amsg := (@amsg V).
Abbreviation role := (@role V).
Abbreviation maj := (maj ranks).
Abbreviation astep := (astep eqv ok ranks).
Abbreviation Inv := (Inv eqv ok ranks).
Abbreviation safe_at := (safe_at eqv ranks).
Abbreviation prop_inv := (prop_inv eqv ok ranks).
Abbreviation chosen := (chosen eqv ranks).
Abbreviation lead_inv := (lead_inv ranks).
Implicit Types a : astate.

(** ** Majorities *)

Lemma maj_meet q1 q2 : maj q1 -> maj q2 -> exists k, k ∈ q1 /\ k ∈ q2.
Proof.
  intros [H1 S1] [H2 S2].
  destruct (decide (q1 ∩ q2 = ∅)) as [He | Hne].
  - assert (Hd : q1 ## q2) by set_solver.
    pose proof (size_union q1 q2 Hd). pose proof (subseteq_size (q1 ∪ q2) ranks ltac:(set_solver)). lia.
  - apply set_choose_L in Hne as [k Hk]. exists k. set_solver.
Qed.

(** ** Growth *)

Record grows (a a' : astate) : Prop := {
  g_acc : forall k, a_acc (an a k) <= a_acc (an a' k);
  g_lpn : forall k, a_lpn (an a k) <= a_lpn (an a' k);
  g_lc : forall k, a_lc (an a k) <= a_lc (an a' k);
  g_ep : forall k, a_ep (an a k) <= a_ep (an a' k);
  g_log : alog a `prefix_of` alog a';
  g_props : aprops a ⊆ aprops a';
  g_votes : avotes a ⊆ avotes a';
  g_new : forall k p v, (k, p, v) ∈ avotes a' -> (k, p, v) ∈ avotes a \/ a_acc (an a k) <= p;
  g_peon : forall k, a_role (an a' k) = RPeon -> a_role (an a k) = RPeon \/ a_ep (an a k) < a_ep (an a' k)
}.

Lemma zlen_prefix (l l' : list V) : l `prefix_of` l' -> zlen l <= zlen l'.
Proof. intros H%prefix_length. unfold zlen. lia. Qed.

Lemma take_prefix (l l' : list V) v : l `prefix_of` l' -> v <= zlen l -> take (Z.to_nat v) l' = take (Z.to_nat v) l.
Proof. intros [r ->] Hv. apply take_app_le. unfold zlen in Hv. lia. Qed.

Lemma grows_msg a a' i j m : grows a a' -> msg_inv a i j m -> msg_inv a' i j m.
Proof.
  intros [Ha Hp Hl He Hlog Hpr Hv Hn Hpe]. apply zlen_prefix in Hlog.
  assert (HE : forall k e, e <= a_ep (an a k) -> e <= a_ep (an a' k)) by (intros k e; specialize (He k); lia).
  assert (HR : forall k e, e <= a_ep (an a k) -> (e = a_ep (an a k) -> a_role (an a k) <> RPeon) ->
    e = a_ep (an a' k) -> a_role (an a' k) <> RPeon).
  { intros k e Hle Hne -> Hr. specialize (He k). destruct (Hpe k Hr); [| lia]. apply Hne; [lia | done]. }
  destruct m as [e p lc | e p lc u | e p lc x | e p lc |]; cbn.
  - intros (? & ? & ? & ? & ? & ?). specialize (Hp i). specialize (Hl i). repeat split; eauto; lia.
  - intros (? & ? & ? & ? & ? & ? & HV & HU). pose proof (Hp (p mod 100)). pose proof (Ha i). pose proof (Hl j).
    split_and!; eauto; try lia.
    + intros p1 v Hlt Hin. destruct (Hn _ _ _ Hin) as [Hin' |]; [| lia].
      destruct (HV p1 v Hlt Hin') as [| [|]]; auto; right; left; lia.
    + intros q x Hq. destruct (HU q x Hq). split; [by eapply lookup_weaken | done].
  - intros (? & ? & ? & ? & ? & ?). specialize (Hp i). repeat split; eauto; try lia. by eapply lookup_weaken.
  - intros (? & ? & ? & ? & ?). pose proof (Hp (p mod 100)). repeat split; eauto; try lia.
  - done.
Qed.

Lemma grows_safe a a' p v x : grows a a' -> safe_at a p v x -> safe_at a' p v x.
Proof.
  intros [Ha _ _ _ _ Hpr _ Hn _] Hs p1 Hp1. destruct (Hs p1 Hp1) as (q & Hq & HQ). exists q. split; [done |].
  intros k Hk. destruct (HQ k Hk) as [Hacc Hv]. pose proof (Ha k). split; [lia |].
  intros Hin. destruct (Hn _ _ _ Hin) as [Hin' |]; [| lia].
  destruct (Hv Hin') as (y & Hy & Hxy). exists y. split; [by eapply lookup_weaken | done].
Qed.

Lemma grows_prop a a' p v x : grows a a' -> prop_inv a p v x -> prop_inv a' p v x.
Proof.
  intros Hg (Hv & Hok & Hlpn & Hs). pose proof (zlen_prefix _ _ (g_log _ _ Hg)). pose proof (g_lpn _ _ Hg (p mod 100)).
  repeat split; try lia.
  - rewrite (take_prefix _ _ _ (g_log _ _ Hg)); [done | lia].
  - by eapply grows_safe.
Qed.

Lemma grows_chosen a a' v x : grows a a' -> chosen a v x -> chosen a' v x.
Proof.
  intros Hg (p & q & y & Hq & Hy & Hxy & HQ). exists p, q, y. split_and!; try done.
  - by eapply lookup_weaken, g_props.
  - intros k Hk. by eapply g_votes, HQ.
Qed.

Lemma grows_node a a' i : grows a a' -> an a' i = an a i -> node_inv a i -> node_inv a' i.
Proof.
  intros Hg Hi (Hlc & Hpd & Hown). unfold node_inv. rewrite Hi.
  pose proof (zlen_prefix _ _ (g_log _ _ Hg)). pose proof (g_lpn _ _ Hg (a_acc (an a i) mod 100)).
  split_and!; try lia. intros p x Hp. destruct (Hpd p x Hp). split; [| done]. by eapply lookup_weaken, g_props.
Qed.

Lemma grows_vote a a' k p v : grows a a' -> an a' k = an a k -> vote_inv a k p v -> vote_inv a' k p v.
Proof.
  intros Hg Hk (Hpr & Hacc & Hv). unfold vote_inv. rewrite Hk. split_and!; [| done..].
  destruct Hpr as [x Hx]. exists x. by eapply lookup_weaken, g_props.
Qed.

(** The invariant after a step, from what is new in it. *)
Lemma inv_step a a' : Inv a -> grows a a' ->
  (forall p v x, aprops a' !! (p, v) = Some x -> aprops a !! (p, v) = Some x \/ prop_inv a' p v x) ->
  (forall v x, 1 <= v -> alog a' !! Z.to_nat (v - 1) = Some x -> alog a !! Z.to_nat (v - 1) = Some x \/ chosen a' v x) ->
  (forall k p v, (k, p, v) ∈ avotes a' -> (k, p, v) ∈ avotes a /\ an a' k = an a k \/ vote_inv a' k p v) ->
  (forall i, an a' i = an a i \/ node_inv a' i) ->
  (forall i j m, m ∈ anet a' (i, j) -> m ∈ anet a (i, j) \/ msg_inv a' i j m) ->
  (forall i q ph, a_role (an a' i) = RLead q ph -> lead_inv a' i q ph) ->
  Inv a'.
Proof.
  intros [HP HL HV HN HM _] Hg Hp Hl Hv Hn Hm Hlead. split; [| | | | | done].
  - intros p v x Hx. destruct (Hp p v x Hx); [| done]. by eapply grows_prop, HP.
  - intros v x Hv1 Hx. destruct (Hl v x Hv1 Hx); [| done]. eapply grows_chosen; [done |]. by apply HL.
  - intros k p v Hin. destruct (Hv k p v Hin) as [[] |]; [| done]. eapply grows_vote; [done..|]. by apply HV.
  - intros i. destruct (Hn i); [| done]. by eapply grows_node.
  - intros i j m Hin. destruct (Hm i j m Hin); [| done]. eapply grows_msg; [done |]. by apply HM.
Qed.

(** ** Channels *)

Lemma omap_sublist {A B} (f : A -> option B) l l' : l `sublist_of` l' -> omap f l `sublist_of` omap f l'.
Proof.
  induction 1 as [| x l l' _ IH | x l l' _ IH]; csimpl; [done | |]; destruct (f x); try done.
  - by apply sublist_skip.
  - by apply sublist_cons.
Qed.

Lemma omap_mono {A B} (f g : A -> option B) l : (forall x, x ∈ l -> f x = None \/ f x = g x) -> omap f l `sublist_of` omap g l.
Proof.
  induction l as [| x l IH]; intros H; csimpl; [done |].
  assert (Hl : omap f l `sublist_of` omap g l) by (apply IH; intros; apply H; set_solver).
  destruct (H x ltac:(set_solver)) as [-> | ->]; destruct (g x); try done; by constructor.
Qed.

Lemma sublist_Forall {A} (P : A -> Prop) l l' : l `sublist_of` l' -> Forall P l' -> Forall P l.
Proof. intros Hs. rewrite !Forall_forall. intros H x Hx. by eapply H, elem_of_sublist. Qed.

Lemma sublist_sorted l l' : l `sublist_of` l' -> StronglySorted Z.lt l' -> StronglySorted Z.lt l.
Proof.
  induction 1 as [| x l l' Hs IH | x l l' Hs IH]; inversion 1; subst; [constructor | |]; auto.
  constructor; [auto | by eapply sublist_Forall].
Qed.

Lemma sublist_only_last p l l' : l `sublist_of` l' -> only_last p l' -> only_last p l.
Proof.
  induction 1 as [| x l l' Hs IH | x l l' Hs IH]; cbn; [done | |]; intros [Hx Hl]; [| auto].
  split; [| auto]. intros ->. rewrite (Hx eq_refl) in Hs. by apply sublist_nil_r.
Qed.

Lemma only_last_head p l : only_last p (p :: l) -> l = [].
Proof. intros [H _]. auto. Qed.

Lemma only_last_app p l : p ∉ l -> only_last p (l ++ [p]).
Proof. induction l as [| x l IH]; cbn; [done |]. intros Hx. split; set_solver. Qed.

Lemma only_last_none p l : p ∉ l -> only_last p l.
Proof. induction l as [| x l IH]; cbn; [done |]. intros Hx. split; set_solver. Qed.

(** Losing messages keeps a link in order. *)
Lemma link_mono e e' P lc q ph k acck acck' out inn out' inn' : link_inv (V := V) e P lc q ph k acck out inn ->
  collects e' P out' `sublist_of` collects e P out -> lasts e' inn' `sublist_of` lasts e inn ->
  begins P out' `sublist_of` begins P out -> accepts P inn' `sublist_of` accepts P inn ->
  (acck' = P -> acck = P) -> link_inv e' P lc q ph k acck' out' inn'.
Proof.
  intros HL Hc Hl Hb Ha Hacc.
  assert (HC : collects e P out = [] -> collects e' P out' = []) by (intros H; rewrite H in Hc; by apply sublist_nil_r).
  assert (HLa : lasts e inn = [] -> lasts e' inn' = []) by (intros H; rewrite H in Hl; by apply sublist_nil_r).
  assert (HB : begins P out = [] -> begins P out' = []) by (intros H; rewrite H in Hb; by apply sublist_nil_r).
  assert (HA : accepts P inn = [] -> accepts P inn' = []) by (intros H; rewrite H in Ha; by apply sublist_nil_r).
  destruct ph; cbn in *.
  - destruct HL as (H1 & H2 & H3 & H4 & H5 & H6 & H7 & H8). split_and!; auto.
    + by eapply sublist_sorted.
    + by eapply sublist_Forall.
    + by eapply sublist_only_last.
    + intros Hin. apply HC, H5. by eapply elem_of_sublist.
    + intros Hk. destruct (H6 Hk). auto.
  - naive_solver.
  - destruct HL as (H1 & H2 & H3 & H4 & H5). pose proof (sublist_app _ _ _ _ Hb Ha) as Hba. split_and!; auto.
    + by eapply sublist_Forall.
    + apply sublist_length in Hba. lia.
    + intros Hk. rewrite (H5 Hk) in Hba. by apply sublist_nil_r.
  - naive_solver.
Qed.

(** ** Leaders *)

Lemma closed_grows a a' q P b b' : grows a a' -> b <= b' -> closed a q P b -> closed a' q P b'.
Proof.
  intros Hg Hb Hc k Hk. destruct (Hc k Hk) as [Hacc Hv]. pose proof (g_acc _ _ Hg k). split; [lia |].
  intros p1 v Hp Hin. destruct (g_new _ _ Hg _ _ _ Hin); [| lia]. specialize (Hv p1 v Hp). lia || (etransitivity; eauto).
Qed.

Lemma phase_grows a a' i q ph : grows a a' -> a_acc (an a' i) = a_acc (an a i) -> a_lc (an a' i) = a_lc (an a i) ->
  (forall v, is_Some (aprops a' !! (a_acc (an a i), v)) -> is_Some (aprops a !! (a_acc (an a i), v))) ->
  phase_inv a i q ph -> phase_inv a' i q ph.
Proof.
  intros Hg Hac Hlc Hpr. unfold phase_inv. rewrite Hac, Hlc. pose proof (g_votes _ _ Hg) as Hvs.
  destruct ph as [resp u | | x acks | x].
  - intros (Hr & Hir & Hk & Hu & Hn). split_and!; try done.
    + intros k Hin. destruct (Hk k Hin) as [Hacc Hv]. pose proof (g_acc _ _ Hg k). split; [lia |].
      intros p1 v Hp Hvt. destruct (g_new _ _ Hg _ _ _ Hvt); [auto | lia].
    + intros p x Hx. destruct (Hu p x Hx). split; [| done]. by eapply lookup_weaken, g_props.
    + intros v. apply eq_None_not_Some. intros Hs%Hpr. by rewrite Hn in Hs; apply is_Some_None in Hs.
  - intros (Hc & Hv). split; [by eapply closed_grows | auto].
  - intros (Hc & Hv & Hx & Hs & Ha). split_and!; auto; [by eapply closed_grows | by eapply lookup_weaken, g_props].
  - intros (Hc & Hv & Hx & Ha). split_and!; auto; [by eapply closed_grows | by eapply lookup_weaken, g_props].
Qed.

(** A leader that does not move keeps its invariant. *)
Lemma lead_frame a a' i q ph : grows a a' -> an a' i = an a i ->
  (forall v, is_Some (aprops a' !! (a_acc (an a i), v)) -> is_Some (aprops a !! (a_acc (an a i), v))) ->
  (forall k, k <> i ->
     collects (a_ep (an a i)) (a_acc (an a i)) (anet a' (i, k)) `sublist_of` collects (a_ep (an a i)) (a_acc (an a i)) (anet a (i, k)) /\
     lasts (a_ep (an a i)) (anet a' (k, i)) `sublist_of` lasts (a_ep (an a i)) (anet a (k, i)) /\
     begins (a_acc (an a i)) (anet a' (i, k)) `sublist_of` begins (a_acc (an a i)) (anet a (i, k)) /\
     accepts (a_acc (an a i)) (anet a' (k, i)) `sublist_of` accepts (a_acc (an a i)) (anet a (k, i)) /\
     (a_acc (an a' k) = a_acc (an a i) -> a_acc (an a k) = a_acc (an a i))) ->
  lead_inv a i q ph -> lead_inv a' i q ph.
Proof.
  intros Hg Hi Hpr Hl (Hq & Hiq & Hm & Hlpn & Hph & Hlk). unfold PaxosSpec.lead_inv. rewrite Hi.
  split_and!; try done; [eapply phase_grows; [done | by rewrite Hi | by rewrite Hi | done | done] |].
  intros k Hk. destruct (Hl k Hk) as (? & ? & ? & ? & ?). eapply link_mono; eauto.
Qed.

(** Two leaders have different proposal numbers. *)
Lemma lead_acc_ne a i j q ph p : lead_inv a i q ph -> p mod 100 = j -> i <> j -> p <> a_acc (an a i).
Proof. intros (_ & _ & Hm & _) Hp Hne ->. congruence. Qed.

(** Steps that move messages only. *)
Definition payload (m : amsg) : option amsg := match m with AOther => None | _ => Some m end.

Lemma payload_omap (g : amsg -> option Z) (l : list amsg) : g AOther = None -> omap g (omap payload l) = omap g l.
Proof. intros Hg. induction l as [| m l IH]; [done |]. destruct m; csimpl; rewrite ?Hg, IH; done. Qed.

Lemma payload_elem m (l : list amsg) : m <> AOther -> m ∈ l <-> m ∈ omap payload l.
Proof.
  intros Hm. rewrite list_elem_of_omap. split; [intros; exists m; by destruct m |].
  intros ([] & Hl & [= <-]); done.
Qed.

Lemma inv_net a nt : Inv a ->
  (forall i j, omap payload (nt (i, j)) `sublist_of` omap payload (anet a (i, j))) ->
  Inv (AState (an a) nt (alog a) (aprops a) (avotes a)).
Proof.
  intros HI Hnt.
  assert (Hsub : forall (g : amsg -> option Z), g AOther = None ->
    forall i j, omap g (nt (i, j)) `sublist_of` omap g (anet a (i, j))).
  { intros g Hg i j. rewrite <- (payload_omap g (nt (i, j)) Hg), <- (payload_omap g (anet a (i, j)) Hg).
    apply omap_sublist, Hnt. }
  assert (Hg : grows a (AState (an a) nt (alog a) (aprops a) (avotes a))) by (split; cbn; auto; intros; lia).
  eapply inv_step; [done | done | cbn; auto ..].
  - intros i j m Hm. assert (m = AOther \/ m <> AOther) as [-> | Hne] by (destruct m; [right; discriminate .. | by left]); [by right |].
    left. rewrite payload_elem by done. eapply elem_of_sublist, Hnt. by rewrite <- payload_elem.
  - intros i q ph Hr. eapply lead_frame; [done | done | done | | by apply HI].
    intros k Hk. cbn. split_and!; try done; by apply Hsub.
Qed.

Lemma inv_drop a i j k : Inv a -> Inv (set_chan a i j (delete k (anet a (i, j)))).
Proof.
  intros HI. apply inv_net; [done |]. intros x y. apply omap_sublist.
  destruct (decide ((i, j) = (x, y))) as [[= -> ->] | Hne].
  - rewrite fn_lookup_insert. apply sublist_delete.
  - by rewrite fn_lookup_insert_ne.
Qed.

Lemma inv_send a i j : Inv a -> Inv (set_chan a i j (anet a (i, j) ++ [AOther])).
Proof.
  intros HI. apply inv_net; [done |]. intros x y.
  destruct (decide ((i, j) = (x, y))) as [[= -> ->] | Hne].
  - rewrite fn_lookup_insert, omap_app. cbn. by rewrite app_nil_r.
  - by rewrite fn_lookup_insert_ne.
Qed.

(** ** Steps of one monitor *)

Lemma an_set_ne a i j x : j <> i -> an (set_an a i x) j = an a j.
Proof. intros. cbn. by fn_simpl. Qed.

Lemma an_set_eq a i x : an (set_an a i x) i = x.
Proof. cbn. by fn_simpl. Qed.

Lemma inv_set_an a i x : Inv a ->
  a_acc x = a_acc (an a i) -> a_lpn x = a_lpn (an a i) -> a_ep (an a i) <= a_ep x ->
  a_lc (an a i) <= a_lc x <= zlen (alog a) -> (a_role x = RPeon -> a_role (an a i) = RPeon \/ a_ep (an a i) < a_ep x) ->
  (a_pend x = None /\ a_lc (an a i) < a_lc x \/ a_pend x = a_pend (an a i) /\ a_lc x = a_lc (an a i)) ->
  (forall q ph, a_role x = RLead q ph -> lead_inv (set_an a i x) i q ph) ->
  Inv (set_an a i x).
Proof.
  intros HI Hacc Hlpn Hep Hlc Hpe Hpd Hlead.
  assert (Hg : grows a (set_an a i x)).
  { split; cbn; auto; intros k; destruct (decide (i = k)) as [-> |]; fn_simpl; auto; lia. }
  destruct (I_node _ _ _ _ HI i) as (Hn1 & Hn2 & Hn3).
  eapply inv_step; [done | done | cbn; auto .. | ].
  - intros k p v Hin. destruct (decide (i = k)) as [<- |]; [right | left; by fn_simpl].
    destruct (I_vote _ _ _ _ HI i p v Hin) as (Hp & Ha & Hv). unfold vote_inv. rewrite an_set_eq.
    split_and!; [done | lia |]. destruct Hpd as [[Hpd ?] | [Hpd Hc]]; [left; lia |].
    by rewrite Hpd, Hc.
  - intros k. destruct (decide (i = k)) as [<- |]; [right | left; by fn_simpl].
    unfold node_inv. rewrite an_set_eq. split_and!; [cbn; lia.. | | ].
    + intros p y Hp. destruct Hpd as [[Hpd ?] | [Hpd ->]]; [congruence |]. rewrite Hpd in Hp. rewrite Hacc. by apply Hn2.
    + rewrite Hacc. pose proof (g_lpn _ _ Hg (a_acc (an a i) mod 100)). lia.
  - intros k q ph Hr. destruct (decide (k = i)) as [-> | Hne]; [apply Hlead; by rewrite an_set_eq in Hr |].
    rewrite an_set_ne in Hr by done. eapply lead_frame; [done | by apply an_set_ne | done | | by apply HI].
    intros j Hj. cbn. split_and!; try done. destruct (decide (i = j)) as [-> |]; fn_simpl; congruence.
Qed.

(** No message of a phase carries an epoch its leader has not reached. *)
Lemma no_future a i k e e0 P : Inv a -> a_ep (an a i) < e ->
  collects e P (anet a (i, k)) `sublist_of` collects e0 P (anet a (i, k)) /\ lasts e (anet a (k, i)) = [].
Proof.
  intros HI He. split.
  - apply omap_mono. intros [e' p' ? | | | |] Hm; auto. apply (I_msg _ _ _ _ HI) in Hm. cbn in Hm.
    replace (e' =? e) with false by lia. cbn. destruct (p' =? P); [right; by rewrite orb_true_r | by left].
  - apply elem_of_nil_inv. intros p. unfold lasts. rewrite list_elem_of_omap. intros ([] & Hm & Hs); try done.
    apply (I_msg _ _ _ _ HI) in Hm. cbn in Hm, Hs. case_match eqn:E; [| done]. apply Z.eqb_eq in E. lia.
Qed.

Lemma inv_epoch a i e : Inv a -> a_ep (an a i) <= e -> Inv (set_an a i (with_ep e (an a i))).
Proof.
  intros HI He. pose proof (I_node _ _ _ _ HI i) as (Hn & _).
  apply inv_set_an; cbn; auto; try lia.
  intros q ph Hr. pose proof (I_lead _ _ _ _ HI i q ph Hr) as (Hq & Hiq & Hm & Hl & Hph & Hlk).
  unfold PaxosSpec.lead_inv. rewrite an_set_eq. cbn [with_ep a_acc a_lpn a_ep a_lc].
  split_and!; try done.
  - eapply phase_grows, Hph; [| by rewrite an_set_eq .. | done].
    split; cbn; auto; intros k; destruct (decide (i = k)) as [<- |]; fn_simpl; auto; cbn; auto; lia.
  - intros k Hk. rewrite an_set_ne by done. cbn [set_an anet]. eapply link_mono; [by apply Hlk | | | done ..].
    all: destruct (decide (e = a_ep (an a i))) as [-> |]; [done |].
    all: destruct (no_future a i k e (a_ep (an a i)) (a_acc (an a i)) HI) as [Hc Hla]; [lia |].
    + done.
    + rewrite Hla. apply sublist_nil_l.
Qed.

Lemma inv_none a i : Inv a -> Inv (set_an a i (with_role RNone (an a i))).
Proof. intros HI. pose proof (I_node _ _ _ _ HI i) as (Hn & _). apply inv_set_an; cbn; auto; try lia; done. Qed.

Lemma inv_peon a i e : Inv a -> a_ep (an a i) < e -> Inv (set_an a i (with_role RPeon (with_ep e (an a i)))).
Proof. intros HI He. pose proof (I_node _ _ _ _ HI i) as (Hn & _). apply inv_set_an; cbn; auto; try lia; done. Qed.

(** The leader that moves in place: what is left is its phase and its links. *)
Lemma lead_set a i x q ph q' ph' : Inv a -> a_role (an a i) = RLead q ph ->
  a_acc x = a_acc (an a i) -> a_lpn x = a_lpn (an a i) -> a_ep x = a_ep (an a i) -> q' = q ->
  phase_inv (set_an a i x) i q ph' ->
  (forall k, k <> i ->
    link_inv (a_ep (an a i)) (a_acc (an a i)) (a_lc (an a i)) q ph k (a_acc (an a k)) (anet a (i, k)) (anet a (k, i)) ->
    link_inv (a_ep (an a i)) (a_acc (an a i)) (a_lc x) q ph' k (a_acc (an a k)) (anet a (i, k)) (anet a (k, i))) ->
  lead_inv (set_an a i x) i q' ph'.
Proof.
  intros HI Hr Hacc Hlpn Hep -> Hph Hlk. pose proof (I_lead _ _ _ _ HI i q ph Hr) as (Hq & Hiq & Hm & Hl & _ & Hk).
  unfold PaxosSpec.lead_inv. rewrite an_set_eq, Hacc, Hlpn, Hep. split_and!; try done.
  intros k Hne. rewrite an_set_ne by done. auto.
Qed.

Lemma phase_of a i q ph : Inv a -> a_role (an a i) = RLead q ph -> phase_inv a i q ph.
Proof. intros HI Hr. by destruct (I_lead _ _ _ _ HI i q ph Hr) as (_ & _ & _ & _ & ? & _). Qed.

(** Only the accepted numbers and the votes matter for [closed]. *)
Lemma closed_set a i x q P b : a_acc x = a_acc (an a i) -> closed a q P b -> closed (set_an a i x) q P b.
Proof.
  intros Hx Hc k Hk. destruct (Hc k Hk). split; [| done].
  destruct (decide (k = i)) as [-> |]; [rewrite an_set_eq; lia | by rewrite an_set_ne].
Qed.

Lemma inv_learn a i v : Inv a -> may_learn (a_role (an a i)) -> a_lc (an a i) < v <= zlen (alog a) ->
  Inv (set_an a i (with_role (learned_role (a_role (an a i))) (with_lc v (an a i)))).
Proof.
  intros HI Hm Hv. apply inv_set_an; cbn; auto; try lia.
  - destruct (a_role (an a i)) as [| | q []]; cbn; auto; done.
  - left. split; [done | lia].
  - intros q ph Hr. destruct (a_role (an a i)) as [| | q' []] eqn:Hr0; try done. injection Hr as -> <-.
    pose proof (phase_of _ _ _ _ HI Hr0) as (Hrs & Hir & Hk & Hu & Hp).
    eapply lead_set; [done | done | done .. | | done]. cbn. fn_simpl. cbn. split_and!; try done.
    intros k Hin. destruct (Hk k Hin) as [Hac Hvt]. split.
    + destruct (decide (i = k)) as [<- |]; by fn_simpl.
    + intros p1 w Hp1 Hw. destruct (Hvt p1 w Hp1 Hw) as [| [-> _]]; left; lia.
Qed.

Lemma inv_ready a i q : Inv a -> a_role (an a i) = RLead q (PCollect q None) ->
  Inv (set_an a i (with_role (RLead q PReady) (an a i))).
Proof.
  intros HI Hr. pose proof (I_node _ _ _ _ HI i) as (Hn & _).
  apply inv_set_an; cbn; auto; try lia; [done |]. intros q' ph [= <- <-].
  pose proof (phase_of _ _ _ _ HI Hr) as (Hrs & Hir & Hk & Hu & Hp).
  eapply lead_set; [done | done | done .. | | ].
  - unfold phase_inv. rewrite an_set_eq. cbn [with_role a_acc a_lc set_an aprops]. split.
    + apply closed_set; [done |]. intros k Hin. destruct (Hk k Hin) as [Hac Hv]. split; [done |].
      intros p1 v Hp1 Hw. destruct (Hv p1 v Hp1 Hw) as [| (_ & ? & ? & ? & _)]; done.
    + intros v Hs. rewrite Hp in Hs. by apply is_Some_None in Hs.
  - intros k Hne (_ & _ & _ & _ & _ & H6 & H7 & H8). cbn. split_and!; try done; apply H6; destruct (decide (k ∈ q)); auto.
Qed.

Lemma inv_write a i q x : Inv a -> a_role (an a i) = RLead q (PUpdate x q) ->
  Inv (set_an a i (with_role (RLead q (PWrite x)) (an a i))).
Proof.
  intros HI Hr. pose proof (I_node _ _ _ _ HI i) as (Hn & _).
  apply inv_set_an; cbn; auto; try lia; [done |]. intros q' ph [= <- <-].
  pose proof (phase_of _ _ _ _ HI Hr) as (Hc & Hv & Hx & _ & Hk).
  eapply lead_set; [done | done | done .. | | ].
  - unfold phase_inv. rewrite an_set_eq. cbn [with_role a_acc a_lc set_an aprops avotes]. split_and!; try done.
    by apply closed_set.
  - intros k Hne (H1 & H2 & _ & _ & H5). cbn. destruct (app_eq_nil (begins (a_acc (an a i)) (anet a (i, k)))
      (accepts (a_acc (an a i)) (anet a (k, i)))); [apply H5; destruct (decide (k ∈ q)); auto | done].
Qed.

(** ** Phase 1 *)

(** A proposal number above the last one its owner generated is unused. *)
Lemma fresh_pn a i p : Inv a -> a_lpn (an a i) < p -> p mod 100 = i ->
  (forall v, aprops a !! (p, v) = None) /\ forall k, a_acc (an a k) <> p /\
  begins p (anet a (i, k)) = [] /\ accepts p (anet a (k, i)) = [] /\ forall e, p ∉ lasts e (anet a (k, i)).
Proof.
  intros HI Hp Hi. split; [| intros k; split_and!].
  - intros v. destruct (aprops a !! (p, v)) as [x |] eqn:E; [| done].
    apply (I_prop _ _ _ _ HI) in E as (_ & _ & Hl & _). rewrite Hi in Hl. lia.
  - intros E. destruct (I_node _ _ _ _ HI k) as (_ & _ & Hl). rewrite E, Hi in Hl. lia.
  - apply elem_of_nil_inv. intros v. unfold begins. rewrite list_elem_of_omap. intros ([] & Hm & Hs); try done.
    apply (I_msg _ _ _ _ HI) in Hm. cbn in Hm, Hs. case_match eqn:E; [| done]. apply Z.eqb_eq in E as ->. lia.
  - apply elem_of_nil_inv. intros v. unfold accepts. rewrite list_elem_of_omap. intros ([] & Hm & Hs); try done.
    apply (I_msg _ _ _ _ HI) in Hm. cbn in Hm, Hs. case_match eqn:E; [| done]. apply Z.eqb_eq in E as ->. rewrite Hi in Hm. lia.
  - intros e. unfold lasts. rewrite list_elem_of_omap. intros ([] & Hm & Hs); try done.
    apply (I_msg _ _ _ _ HI) in Hm. cbn in Hm, Hs. case_match; [| done]. injection Hs as Hs. rewrite Hs, Hi in Hm. lia.
Qed.

Lemma collects_app e P (l l' : list amsg) : collects e P (l ++ l') = collects e P l ++ collects e P l'.
Proof. apply omap_app. Qed.
Lemma lasts_app e (l l' : list amsg) : lasts e (l ++ l') = lasts e l ++ lasts e l'.
Proof. apply omap_app. Qed.
Lemma begins_app p (l l' : list amsg) : begins p (l ++ l') = begins p l ++ begins p l'.
Proof. apply omap_app. Qed.
Lemma accepts_app p (l l' : list amsg) : accepts p (l ++ l') = accepts p l ++ accepts p l'.
Proof. apply omap_app. Qed.

Lemma bcast_other i q m (nt : Z * Z -> list amsg) j k : j <> i -> bcast i q m nt (j, k) = nt (j, k).
Proof. intros Hj. unfold bcast. rewrite bool_decide_eq_false_2; [done |]. by intros [? _]. Qed.

Lemma bcast_to i q m (nt : Z * Z -> list amsg) k : k <> i ->
  bcast i q m nt (i, k) = nt (i, k) ++ (if bool_decide (k ∈ q) then [m] else []).
Proof.
  intros Hk. unfold bcast. cbn. destruct (decide (k ∈ q)).
  - rewrite !bool_decide_eq_true_2 by done. done.
  - rewrite !bool_decide_eq_false_2 by tauto. by rewrite app_nil_r.
Qed.

Lemma bcast_elem i q m (nt : Z * Z -> list amsg) j k m' : m' ∈ bcast i q m nt (j, k) ->
  m' ∈ nt (j, k) \/ (m' = m /\ j = i /\ k <> i).
Proof.
  unfold bcast. cbn. case_bool_decide as H; [| auto]. rewrite elem_of_app, list_elem_of_singleton. naive_solver.
Qed.

(** A broadcast of [m] by [i] is nothing to another leader when [m] is no
    answer. *)
Lemma bcast_frame i q m (nt : Z * Z -> list amsg) e P j k : j <> i -> k <> j ->
  lasts e [m] = [] -> accepts P [m] = [] ->
  collects e P (bcast i q m nt (j, k)) `sublist_of` collects e P (nt (j, k)) /\
  lasts e (bcast i q m nt (k, j)) `sublist_of` lasts e (nt (k, j)) /\
  begins P (bcast i q m nt (j, k)) `sublist_of` begins P (nt (j, k)) /\
  accepts P (bcast i q m nt (k, j)) `sublist_of` accepts P (nt (k, j)).
Proof.
  intros Hj Hk Hl Ha. rewrite (bcast_other i q m nt j k) by done. split_and!; try done.
  all: destruct (decide (k = i)) as [-> |]; [| by rewrite bcast_other].
  all: rewrite bcast_to by done; rewrite ?lasts_app, ?accepts_app; case_bool_decide; rewrite ?Hl, ?Ha; cbn;
    by rewrite ?app_nil_r.
Qed.

(** The collects of a leader that starts over are below its new number. *)
Lemma old_collects a i e q p k : Inv a -> a_acc (an a i) < p -> a_lpn (an a i) < p -> k <> i ->
  (a_ep (an a i) < e \/ exists resp u, a_ep (an a i) = e /\ a_role (an a i) = RLead q (PCollect resp u)) ->
  StronglySorted Z.lt (collects e p (anet a (i, k))) /\ Forall (fun p' => p' < p) (collects e p (anet a (i, k))) /\
  (k ∉ q -> collects e p (anet a (i, k)) = [] /\ lasts e (anet a (k, i)) = []).
Proof.
  intros HI Hp Hlp Hk Hold.
  assert (Hsub : forall P, collects e p (anet a (i, k)) `sublist_of` collects e P (anet a (i, k))).
  { intros P. apply omap_mono. intros [e' p' ? | | | |] Hm; auto. apply (I_msg _ _ _ _ HI) in Hm. cbn in Hm.
    replace (p' =? p) with false by lia. destruct (e' =? e); auto. }
  destruct Hold as [He | (resp & u & <- & Hr)].
  - destruct (no_future a i k e (e + 1) p HI He) as [_ ->].
    assert (Hnil : collects e p (anet a (i, k)) = []); [| rewrite Hnil; repeat split; constructor].
    apply elem_of_nil_inv. intros p'. unfold collects. rewrite list_elem_of_omap. intros ([] & Hm & Hs); try done.
    apply (I_msg _ _ _ _ HI) in Hm. cbn in Hm, Hs. case_match eqn:E; [| done]. bool_hyps. lia.
  - destruct (I_lead _ _ _ _ HI i _ _ Hr) as (_ & _ & _ & _ & _ & Hl).
    destruct (Hl k Hk) as (H1 & H2 & _ & _ & _ & H6 & _). specialize (Hsub (a_acc (an a i))). split_and!.
    + by eapply sublist_sorted.
    + eapply Forall_impl; [by eapply sublist_Forall |]. cbn. lia.
    + intros Hnq. destruct H6 as [H6 ->]; [auto |]. rewrite H6 in Hsub. by apply sublist_nil_r in Hsub.
Qed.

Lemma inv_collecting a i e q p : Inv a -> a_ep (an a i) <= e -> maj q -> i ∈ q ->
  a_acc (an a i) < p -> a_lpn (an a i) < p -> p mod 100 = i ->
  (a_ep (an a i) < e \/ exists resp u, a_ep (an a i) = e /\ a_role (an a i) = RLead q (PCollect resp u)) ->
  Inv (collecting a i e q p).
Proof.
  intros HI He Hq Hiq Hacc Hlpn Hown Hold. destruct (fresh_pn a i p HI Hlpn Hown) as [Hnp Hfr].
  set (a' := collecting a i e q p).
  assert (Hi : an a' i = ANode e (RLead q (PCollect {[i]} (a_pend (an a i)))) p p (a_lc (an a i)) (a_pend (an a i)))
    by (cbn; by fn_simpl).
  assert (Hk : forall k, k <> i -> an a' k = an a k) by (intros; cbn; by fn_simpl).
  destruct (I_node _ _ _ _ HI i) as (Hn1 & Hn2 & Hn3).
  assert (Hg : grows a a').
  { split; auto; try done; intros k; destruct (decide (k = i)) as [-> |]; rewrite ?Hi, ?Hk by done; cbn; auto; try lia; done. }
  eapply inv_step; [done | done | cbn; auto .. | ].
  - intros k p' v Hin. destruct (decide (k = i)) as [-> |]; [right | left; split; [done | by apply Hk]].
    destruct (I_vote _ _ _ _ HI i p' v Hin) as (Hp & Ha & Hv). unfold vote_inv. rewrite Hi. cbn. split_and!; [done | lia | done].
  - intros k. destruct (decide (k = i)) as [-> |]; [right | left; by apply Hk].
    unfold node_inv. rewrite Hi. cbn [a_lc a_pend a_acc]. rewrite Hown, Hi. cbn. split_and!; try lia.
    intros p' x Hp'. destruct (Hn2 p' x Hp'). split; [done | lia].
  - intros k j m [|(-> & -> & Hj)]%bcast_elem; [by left |]. right. cbn [msg_inv]. rewrite Hi. cbn. by split_and!; try lia.
  - intros j q' ph Hr. destruct (decide (j = i)) as [-> | Hj].
    + rewrite Hi in Hr. injection Hr as <- <-. unfold PaxosSpec.lead_inv. rewrite Hi. cbn [a_acc a_lpn a_ep a_lc].
      split_and!; try done.
      * unfold phase_inv. rewrite Hi. cbn [a_acc a_lc]. split_and!; [set_solver | set_solver | | | done].
        -- intros k ->%elem_of_singleton. rewrite Hi. cbn. split; [lia |]. intros p1 v Hp1 Hv.
           destruct (I_vote _ _ _ _ HI i p1 v Hv) as (_ & _ & Hv'). done.
        -- intros p' x Hp'. destruct (Hn2 p' x Hp'). split; [done | lia].
      * intros k Hne. destruct (Hfr k) as (H1 & H2 & H3 & H4). rewrite Hk by done. cbn [a' collecting anet link_inv].
        rewrite (bcast_other i q _ _ k i), bcast_to by done. rewrite begins_app, H2, H3.
        destruct (old_collects a i e q p k HI Hacc Hlpn Hne Hold) as (Hs & Hlt & Hnq).
        case_bool_decide as Hkq; rewrite ?app_nil_r.
        -- rewrite collects_app. cbn. rewrite Z.eqb_refl. cbn. split_and!; try done.
           ++ apply StronglySorted_app_2; [| done | repeat constructor]. intros x y Hx ->%list_elem_of_singleton.
              rewrite Forall_forall in Hlt. auto.
           ++ apply Forall_app. split; [| repeat constructor; lia]. eapply Forall_impl; [done |]. cbn. lia.
           ++ by apply only_last_none.
           ++ intros Hp. by apply H4 in Hp.
           ++ set_solver.
        -- destruct (Hnq Hkq) as [-> ->]. repeat split; constructor.
    + rewrite Hk in Hr by done. eapply lead_frame; [done | by apply Hk | done | | by apply HI].
      intros k Hne. cbn [a' collecting anet]. destruct (bcast_frame i q (ACollect e p (a_lc (an a i))) (anet a)
        (a_ep (an a j)) (a_acc (an a j)) j k Hj Hne eq_refl eq_refl) as (? & ? & ? & ?). split_and!; try done.
      destruct (decide (k = i)) as [-> |]; [| by rewrite Hk]. rewrite Hi. cbn. intros ->.
      destruct (I_lead _ _ _ _ HI j q' ph Hr) as (_ & _ & Hm & _). congruence.
Qed.

(** The link of a leader to the monitor that answers its collect. *)
Lemma link_promise e P lc q ph k acck e' p clc out inn u lcl :
  link_inv (V := V) e P lc q ph k acck (ACollect e' p clc :: out) inn ->
  link_inv e P lc q ph k (Z.max acck p) out (inn ++ [ALast e' (Z.max acck p) lcl u]).
Proof.
  destruct ph; cbn [link_inv]; rewrite ?lasts_app, ?accepts_app, ?app_nil_r.
  2-4: unfold collects, lasts, begins, accepts; csimpl; destruct (e' =? e); cbn [orb]; try (intros (? & _); done);
    destruct (p =? P); try (intros (? & _); done); rewrite ?app_nil_r; done.
  intros (H1 & H2 & H3 & H4 & H5 & H6 & H7 & H8). rewrite H8.
  assert (Hb : begins P out = []) by done. rewrite Hb.
  assert (Hc : collects e P (ACollect e' p clc :: out) =
    if (e' =? e) || (p =? P) then p :: collects e P out else collects e P out)
    by (unfold collects; csimpl; by destruct (_ || _)).
  assert (Hl : lasts e [ALast e' (Z.max acck p) lcl u] = if e' =? e then [Z.max acck p] else [])
    by (unfold lasts; csimpl; by destruct (_ =? _)).
  rewrite Hc in *. rewrite Hl. destruct (e' =? e) eqn:Ee; [| destruct (p =? P) eqn:Ep]; cbn [orb] in *; rewrite ?app_nil_r.
  - inversion H1 as [| ? ? Hs Hlt]; subst. inversion H2 as [| ? ? Hp Hle]; subst.
    assert (HP : P ∉ lasts e inn) by (intros Hin; by apply H5 in Hin).
    assert (Hend : p = P -> collects e P out = []).
    { intros ->. destruct (collects e P out) as [| p' l]; [done |]. inversion Hlt; inversion Hle; subst. lia. }
    assert (Hmax : Z.max acck p = P -> collects e P out = []).
    { intros HM. destruct (Z.max_spec acck p) as [[_ HM'] | [_ HM']]; rewrite HM' in HM; [auto |].
      by apply H3 in HM. }
    split_and!; auto.
    + destruct (decide (Z.max acck p = P)) as [-> |]; [by apply only_last_app |]. apply only_last_none. set_solver.
    + rewrite elem_of_app, list_elem_of_singleton. intros [| ->]; [done | auto].
    + intros Hk. by destruct (H6 Hk).
  - apply Z.eqb_eq in Ep as ->. inversion H1 as [| ? ? Hs Hlt]; subst. inversion H2 as [| ? ? Hp Hle]; subst.
    assert (Hnil : collects e P out = []).
    { destruct (collects e P out) as [| p' l]; [done |]. inversion Hlt; inversion Hle; subst. lia. }
    split_and!; auto. intros Hk. by destruct (H6 Hk).
  - apply Z.eqb_neq in Ep. split_and!; auto. intros HM. apply H3. lia.
Qed.

(** Reading the channels of a step that takes [m] from [(i, k)] and appends to
    [(k, i)]. *)
Lemma chan_swap (nt : Z * Z -> list amsg) i k l l' x y : i <> k ->
  <[(k, i) := l']> (<[(i, k) := l]> nt) (x, y) =
  if decide ((x, y) = (k, i)) then l' else if decide ((x, y) = (i, k)) then l else nt (x, y).
Proof.
  intros Hne. destruct (decide _) as [[= -> ->] |]; [by fn_simpl |].
  rewrite fn_lookup_insert_ne by congruence. destruct (decide _) as [[= -> ->] |]; by fn_simpl.
Qed.

(** A leader apart from the two ends of the channel sees nothing. *)
Lemma chan_swap_frame (nt : Z * Z -> list amsg) i k l l' j x : i <> k -> j <> i -> j <> k ->
  <[(k, i) := l']> (<[(i, k) := l]> nt) (j, x) = nt (j, x) /\ <[(k, i) := l']> (<[(i, k) := l]> nt) (x, j) = nt (x, j).
Proof. intros Hne Hi Hk. rewrite !chan_swap by done. by repeat case_decide; simplify_eq. Qed.

Lemma inv_promise a i k e p lc l : Inv a ->
  anet a (i, k) = ACollect e p lc :: l -> a_ep (an a k) = e -> a_role (an a k) = RPeon ->
  let n := with_acc (Z.max (a_acc (an a k)) p) (an a k) in
  Inv (AState (<[k := n]> (an a))
    (<[(k, i) := anet a (k, i) ++ [ALast e (a_acc n) (a_lc n) (report n lc)]]> (<[(i, k) := l]> (anet a)))
    (alog a) (aprops a) (avotes a)).
Proof.
  intros HI Hm He Hr n. pose proof (I_msg _ _ _ _ HI i k (ACollect e p lc)) as Hc. rewrite Hm in Hc.
  destruct Hc as (Hne & Hei & Hri & Hown & Hlpn & Hlc); [set_solver |].
  match goal with |- Inv ?A => set (a' := A) end.
  assert (Hk : an a' k = n) by (cbn; by fn_simpl).
  assert (Ho : forall j, j <> k -> an a' j = an a j) by (intros; cbn; by fn_simpl).
  destruct (I_node _ _ _ _ HI k) as (Hn1 & Hn2 & Hn3).
  assert (Hg : grows a a').
  { split; auto; try done; intros j; destruct (decide (j = k)) as [-> |]; rewrite ?Hk, ?Ho by done; cbn; auto; lia. }
  assert (Hown' : a_acc n <= a_lpn (an a (a_acc n mod 100))).
  { cbn. destruct (Z.max_spec (a_acc (an a k)) p) as [[_ ->] | [_ ->]]; [by rewrite Hown | done]. }
  assert (Hlp : forall j, a_lpn (an a' j) = a_lpn (an a j)).
  { intros j. destruct (decide (j = k)) as [-> |]; [by rewrite Hk | by rewrite Ho]. }
  eapply inv_step; [done | done | by left | by left | .. ].
  - intros j p' v Hin. destruct (decide (j = k)) as [-> |]; [right | left; split; [done | by apply Ho]].
    destruct (I_vote _ _ _ _ HI k p' v Hin) as (Hp & Ha & Hv). unfold vote_inv. rewrite Hk. cbn. split_and!; [done | lia | done].
  - intros j. destruct (decide (j = k)) as [-> |]; [right | left; by apply Ho].
    unfold node_inv. rewrite Hk, Hlp. split_and!; [cbn; lia .. | | done].
    intros p' x Hp'. destruct (Hn2 p' x Hp'). cbn. split; [done | lia].
  - intros x y m. cbn [a' anet]. rewrite chan_swap by done.
    destruct (decide _) as [[= -> ->] |]; [rewrite elem_of_app, list_elem_of_singleton; intros [| ->]; [by left |]; right |].
    + cbn [msg_inv]. rewrite Hlp, Hk, Ho by done. split_and!; try done; [cbn; lia | |].
      * intros p1 v Hp1 Hv. destruct (I_vote _ _ _ _ HI k p1 v Hv) as (_ & _ & Hv'). unfold report. cbn.
        destruct (Z.leb_spec lc (a_lc (an a k))); [naive_solver |]. destruct Hv'; lia.
      * intros p' x Hu. unfold report in Hu. cbn in Hu. case_match; [| done]. destruct (Hn2 p' x Hu). cbn. split; [done | lia].
    + destruct (decide _) as [[= -> ->] |]; [| by left]. intros Hin. left. rewrite Hm. set_solver.
  - intros j q ph Hrj. assert (Hj : j <> k) by (intros ->; rewrite Hk in Hrj; cbn in Hrj; congruence).
    rewrite Ho in Hrj by done. pose proof (I_lead _ _ _ _ HI j q ph Hrj) as (Hq & Hjq & Hmj & Hl & Hph & Hlk).
    destruct (decide (j = i)) as [-> | Hji].
    + unfold PaxosSpec.lead_inv. rewrite Ho by done. split_and!; try done; [eapply (phase_grows a); [done | by rewrite Ho | by rewrite Ho | done | done] |].
      intros x Hx. cbn [a' anet]. rewrite !chan_swap by done. destruct (decide (x = k)) as [-> | Hxk].
      * rewrite Hk. repeat (case_decide; try congruence). specialize (Hlk k Hx). rewrite Hm in Hlk.
        by eapply link_promise.
      * rewrite Ho by done. repeat (case_decide; try congruence). by apply Hlk.
    + eapply lead_frame; [done | by apply Ho | done | | done]. intros x Hx. cbn [a' anet].
      destruct (chan_swap_frame (anet a) i k l (anet a (k, i) ++ [ALast e (a_acc n) (a_lc n) (report n lc)]) j x) as [-> ->];
        [done .. |]. split_and!; try done.
      destruct (decide (x = k)) as [-> |]; [| by rewrite Ho]. rewrite Hk. cbn.
      destruct (Z.max_spec (a_acc (an a k)) p) as [[_ ->] | [_ ->]]; [intros ->; congruence | done].
Qed.

(** The leader takes the answer of [k] out of the channel. *)
Lemma link_count e P lc q resp u u' k acck out inn lcl w :
  link_inv (V := V) e P lc q (PCollect resp u) k acck out (ALast e P lcl w :: inn) ->
  k ∈ q /\ (k ∉ resp) /\ link_inv e P lc q (PCollect ({[k]} ∪ resp) u') k acck out inn.
Proof.
  intros (H1 & H2 & H3 & H4 & H5 & H6 & H7 & H8). revert H4 H5 H6. cbn. rewrite Z.eqb_refl.
  intros [Hin _] H5 H6. specialize (Hin eq_refl). fold (lasts e inn) in *. rewrite Hin in *.
  assert (Hc : collects e P out = []) by (apply H5; set_solver).
  split; [| split].
  - destruct (decide (k ∈ q)); [done |]. by destruct H6 as [_ ?]; [auto |].
  - intros Hk. by destruct H6 as [_ ?]; [auto |].
  - cbn [link_inv]. rewrite Hc. split_and!; auto; try constructor; done.
Qed.

Lemma link_resp e P lc q resp resp' u u' k acck (out inn : list amsg) : (k ∈ resp' -> k ∈ resp) ->
  link_inv e P lc q (PCollect resp u) k acck out inn -> link_inv e P lc q (PCollect resp' u') k acck out inn.
Proof. intros Hk (H1 & H2 & H3 & H4 & H5 & H6 & H7 & H8). cbn [link_inv]. split_and!; auto. intros []; auto. Qed.

Lemma adopt_cases (w u : option (Z * V)) : adopt w u = w \/ adopt w u = u.
Proof. destruct w as [[p x] |], u as [[p' x'] |]; cbn; auto. destruct (p <=? p'); auto. Qed.

Lemma adopt_le (w u : option (Z * V)) p1 p x : (w = Some (p, x) \/ u = Some (p, x)) -> p1 <= p ->
  exists q y, adopt w u = Some (q, y) /\ p1 <= q.
Proof.
  intros [-> | ->] Hp.
  - destruct u as [[q y] |]; cbn; [| by exists p, x]. destruct (Z.leb_spec p q); [exists q, y; split; [done | lia] | by exists p, x].
  - destruct w as [[q y] |]; cbn; [| by exists p, x]. destruct (Z.leb_spec q p); [by exists p, x | exists q, y; split; [done | lia]].
Qed.

Lemma inv_pop a i j m l : Inv a -> anet a (i, j) = m :: l -> Inv (set_chan a i j l).
Proof. intros HI Hm. pose proof (inv_drop a i j 0 HI) as H. rewrite Hm in H. done. Qed.

Lemma inv_count a i k e p lc u l q resp w : Inv a -> anet a (k, i) = ALast e p lc u :: l ->
  a_ep (an a i) = e -> a_role (an a i) = RLead q (PCollect resp w) -> a_acc (an a i) = p -> lc <= a_lc (an a i) ->
  Inv (set_an (set_chan a k i l) i
    (with_role (RLead q (PCollect ({[k]} ∪ resp) (if lc =? a_lc (an a i) then adopt w u else w))) (an a i))).
Proof.
  intros HI Hm He Hr Hp Hlc. pose proof (I_msg _ _ _ _ HI k i (ALast e p lc u)) as Hc. rewrite Hm in Hc.
  destruct Hc as (Hne & _ & _ & Hpk & _ & _ & Hvk & Huk); [set_solver |].
  pose proof (I_lead _ _ _ _ HI i _ _ Hr) as (_ & _ & _ & _ & (Hrs & Hir & Hk & Hu & Hnp) & Hlk).
  pose proof (Hlk k Hne) as Hlkk. rewrite Hm, He, Hp in Hlkk.
  destruct (link_count _ _ _ _ _ _ w _ _ _ _ _ _ Hlkk) as (Hkq & Hkr & _).
  pose proof (inv_pop _ _ _ _ _ HI Hm) as HI'. set (a1 := set_chan a k i l) in *.
  pose proof (I_node _ _ _ _ HI i) as (Hn & _).
  apply inv_set_an; cbn; auto; try lia; [done |]. intros q' ph [= <- <-].
  eapply (lead_set a1); [done | done | done .. | |].
  - unfold phase_inv. rewrite an_set_eq. cbn [with_role a_acc a_lc]. split_and!; [set_solver | set_solver | | | done].
    + intros x [->%elem_of_singleton | Hx]%elem_of_union.
      * rewrite an_set_ne by done. split; [by rewrite Hp |]. intros p1 v Hp1 Hv. rewrite Hp in Hp1.
        destruct (Hvk p1 v Hp1 Hv) as [| [| (-> & p' & x & -> & Hpp)]]; [left; lia | left; done |].
        destruct (Z.eqb_spec lc (a_lc (an a i))) as [-> |]; [right | left; lia]. split; [done |]. eapply adopt_le; eauto.
      * assert (Hacc : a_acc (an (set_an a1 i (with_role (RLead q (PCollect ({[k]} ∪ resp)
          (if lc =? a_lc (an a i) then adopt w u else w))) (an a i))) x) = a_acc (an a x)).
        { destruct (decide (x = i)) as [-> |]; [by rewrite an_set_eq | by rewrite an_set_ne]. }
        rewrite Hacc. destruct (Hk x Hx) as [Ha Hv]. split; [done |]. intros p1 v Hp1 Hin.
        destruct (Hv p1 v Hp1 Hin) as [| (-> & p' & y & -> & Hpp)]; [by left | right]. split; [done |].
        case_match; [eapply adopt_le; eauto | by eauto].
    + intros p' x Hx. destruct (Z.eqb_spec lc (a_lc (an a i))) as [-> |]; [| by apply Hu].
      destruct (adopt_cases w u) as [E | E]; rewrite E in Hx; [by apply Hu |]. destruct (Huk p' x Hx) as [Hpx Hle].
      split; [done |]. destruct (decide (p' = p)) as [-> |]; [| rewrite Hp; lia]. rewrite <- Hp in Hpx. by rewrite Hnp in Hpx.
  - intros x Hx. cbn [a1 set_chan an anet]. intros _. destruct (decide (x = k)) as [-> |].
    + rewrite He, Hp. fn_simpl. by eapply link_count.
    + rewrite !fn_lookup_insert_ne by congruence. eapply link_resp, Hlk; [set_solver | done].
Qed.

(** ** Phase 2 *)

Lemma inv_beginning a i q ph x : Inv a -> a_role (an a i) = RLead q ph ->
  let P := a_acc (an a i) in
  let lc := a_lc (an a i) in
  closed a q P (lc + 1) -> (forall v, is_Some (aprops a !! (P, v)) -> v <= lc) ->
  ok (take (Z.to_nat lc) (alog a)) x -> safe_at a P (lc + 1) x ->
  (forall k, k <> i -> collects (a_ep (an a i)) P (anet a (i, k)) = [] /\ lasts (a_ep (an a i)) (anet a (k, i)) = [] /\
     begins P (anet a (i, k)) = [] /\ accepts P (anet a (k, i)) = []) ->
  Inv (beginning a i q x).
Proof.
  intros HI Hr P lc Hcl Hpr Hok Hsafe Hlk.
  destruct (I_lead _ _ _ _ HI i q ph Hr) as (Hq & Hiq & Hm & Hl & _ & _).
  destruct (I_node _ _ _ _ HI i) as (Hn1 & Hn2 & Hn3).
  assert (Hnew : aprops a !! (P, lc + 1) = None).
  { apply eq_None_not_Some. intros Hs%Hpr. lia. }
  set (a' := beginning a i q x).
  assert (Hi : an a' i = with_pend P x (with_role (RLead q (PUpdate x {[i]})) (an a i))) by (cbn; by fn_simpl).
  assert (Ho : forall k, k <> i -> an a' k = an a k) by (intros; cbn; by fn_simpl).
  assert (Hg : grows a a').
  { assert (Hk : forall k, a_acc (an a' k) = a_acc (an a k) /\ a_lpn (an a' k) = a_lpn (an a k) /\
      a_lc (an a' k) = a_lc (an a k) /\ a_ep (an a' k) = a_ep (an a k)).
    { intros k. destruct (decide (k = i)) as [-> |]; [by rewrite Hi | by rewrite Ho]. }
    split; [intros k; destruct (Hk k) as (? & ? & ? & ?); lia .. | | | | |].
    - done.
    - by apply insert_subseteq.
    - cbn. apply union_subseteq_r.
    - intros k p v. cbn. rewrite elem_of_union, elem_of_singleton. intros [[= -> -> ->] | ?]; [right; lia | by left].
    - intros k. destruct (decide (k = i)) as [-> |]; [by rewrite Hi | rewrite Ho; auto]. }
  eapply inv_step; [done | done | | by left | .. ].
  - intros p v y. cbn. intros [[[= <- <-] <-] | [_ ?]]%lookup_insert_Some; [right | by left].
    split_and!; cbn [alog a' beginning]; [fold lc; lia .. | | | by eapply grows_safe].
    + rewrite Z.add_simpl_r. exact Hok.
    + rewrite Hm, Hi. cbn. lia.
  - intros k p v. cbn. rewrite elem_of_union, elem_of_singleton. destruct (decide (k = i)) as [-> |].
    + intros Hin. right. unfold vote_inv. rewrite Hi. cbn [with_pend with_role a_acc a_lc a_pend a' beginning aprops].
      destruct Hin as [[= -> ->] | Hin].
      * fold P lc. rewrite lookup_insert_eq. split_and!; [by eexists | done | right]. eauto with lia.
      * destruct (I_vote _ _ _ _ HI i p v Hin) as (Hp & Ha & Hv). fold P lc in Ha, Hv |- *. split_and!; [| done |].
        -- destruct Hp as [y Hy]. exists y. rewrite lookup_insert_ne; [done | congruence].
        -- destruct Hv as [| [-> _]]; [by left | right; eauto].
    + intros [[= ? ? ?] | Hin]; [done | left]. split; [done | by apply Ho].
  - intros k. destruct (decide (k = i)) as [-> |]; [right | left; by apply Ho].
    unfold node_inv. rewrite Hi. cbn [with_pend with_role a_acc a_lc a_pend a' beginning aprops alog].
    split_and!; [lia.. | |].
    + intros p y [= <- <-]. by rewrite lookup_insert_eq.
    + fold P in Hm |- *. rewrite Hm, Hi. cbn. fold P in Hl. lia.
  - intros k j m [|(-> & -> & Hj)]%bcast_elem; [by left |]. right. cbn [msg_inv]. rewrite Hi.
    cbn [with_pend with_role a_acc a_lc a_pend a' beginning aprops a_ep a_role a_lpn]. rewrite lookup_insert_eq.
    fold P in Hm, Hl |- *. by split_and!; try lia.
  - intros j q' ph' Hr'. destruct (decide (j = i)) as [-> | Hj].
    + rewrite Hi in Hr'. injection Hr' as <- <-. unfold PaxosSpec.lead_inv, phase_inv. rewrite Hi.
      cbn [with_pend with_role a_acc a_lc a_pend a' beginning aprops a_ep a_role a_lpn avotes anet]. fold P lc.
      rewrite lookup_insert_eq. split_and!; try done; [by eapply closed_grows | | set_solver | set_solver |].
      * intros v [y [[[= <-] _] | [_ Hy]]%lookup_insert_Some]; [lia |].
        pose proof (Hpr v (mk_is_Some _ _ Hy)). lia.
      * intros k Hk. destruct (Hlk k Hk) as (H1 & H2 & H3 & H4). cbn [link_inv].
        rewrite (bcast_other i q _ _ k i), bcast_to, collects_app, begins_app, H1, H2, H3, H4 by done.
        case_bool_decide; cbn; rewrite ?Z.eqb_refl; split_and!; try done; try (repeat constructor; done).
        intros [?%elem_of_singleton |]; done.
    + rewrite Ho in Hr' by done. pose proof (I_lead _ _ _ _ HI j q' ph' Hr') as Hj'.
      assert (HP : P <> a_acc (an a j)) by (eapply lead_acc_ne; done).
      eapply lead_frame; [done | by apply Ho | | | done].
      * intros v [y Hy]. cbn in Hy. apply lookup_insert_Some in Hy as [[[= ?] _] | [_ ?]]; [done | by eexists].
      * intros k Hk. cbn [a' beginning anet]. destruct (bcast_frame i q (ABegin (a_ep (an a i)) P lc x) (anet a)
          (a_ep (an a j)) (a_acc (an a j)) j k Hj Hk eq_refl eq_refl) as (? & ? & ? & ?). split_and!; try done.
        destruct (decide (k = i)) as [-> |]; [by rewrite Hi | by rewrite Ho].
Qed.

Lemma inv_begin a i q x : Inv a -> a_role (an a i) = RLead q PReady ->
  ok (take (Z.to_nat (a_lc (an a i))) (alog a)) x -> Inv (beginning a i q x).
Proof.
  intros HI Hr Hok. destruct (I_lead _ _ _ _ HI i _ _ Hr) as (Hq & _ & _ & _ & (Hcl & Hpr) & Hlk).
  eapply inv_beginning; [done | done | | done | done | | done].
  - intros k Hk. destruct (Hcl k Hk) as [Ha Hv]. split; [done |]. intros p1 v Hp1 Hin. specialize (Hv p1 v Hp1 Hin). lia.
  - intros p1 Hp1. exists q. split; [done |]. intros k Hk. destruct (Hcl k Hk) as [Ha Hv]. split; [lia |].
    intros Hin. specialize (Hv p1 _ Hp1 Hin). lia.
Qed.

(** The value with the highest number among the answers is safe to propose. *)
Lemma inv_again a i q p x y : Inv a -> a_role (an a i) = RLead q (PCollect q (Some (p, x))) -> eqv x y ->
  Inv (beginning a i q y).
Proof.
  intros HI Hr Hxy. destruct (I_lead _ _ _ _ HI i _ _ Hr) as (Hq & _ & _ & _ & (_ & _ & Hk & Hu & Hn) & Hlk).
  destruct (Hu p x eq_refl) as [Hpx HpP]. destruct (I_prop _ _ _ _ HI _ _ _ Hpx) as (_ & Hok & _ & Hsafe).
  rewrite Z.add_simpl_r in Hok.
  eapply inv_beginning; [done | done | | | by eapply ok_eqv | |].
  - intros k Hkq. destruct (Hk k Hkq) as [Ha Hv]. split; [done |]. intros p1 v Hp1 Hin.
    destruct (Hv p1 v Hp1 Hin) as [| [-> _]]; lia.
  - intros v Hs. rewrite Hn in Hs. by apply is_Some_None in Hs.
  - intros p1 Hp1. destruct (decide (p1 < p)) as [Hlt |].
    + destruct (Hsafe p1 Hlt) as (q' & Hq' & H'). exists q'. split; [done |]. intros k Hkq. destruct (H' k Hkq) as [Ha Hv].
      split; [done |]. intros Hin. destruct (Hv Hin) as (z & Hz & Hzx). exists z. split; [done |]. by etransitivity.
    + exists q. split; [done |]. intros k Hkq. destruct (Hk k Hkq) as [Ha Hv]. split; [lia |]. intros Hin.
      destruct (Hv p1 _ Hp1 Hin) as [| (_ & p' & x' & [= <- <-] & Hle)]; [lia |]. replace p1 with p by lia. by exists x.
  - intros k Hne. destruct (Hlk k Hne) as (_ & _ & _ & _ & _ & H6 & H7 & H8).
    destruct H6 as [H6 H6']; [destruct (decide (k ∈ q)); auto |]. done.
Qed.

(** The link of a leader to the monitor that votes for its value. *)
Lemma link_vote e P lc q ph k acck e' p clc x out inn :
  link_inv (V := V) e P lc q ph k acck (ABegin e' p clc x :: out) inn ->
  link_inv e P lc q ph k acck out (inn ++ [AAccept e' p clc]).
Proof.
  assert (Hb : begins P (ABegin e' p clc x :: out) = (if p =? P then [clc] else []) ++ begins P out)
    by (unfold begins; csimpl; by destruct (_ =? _)).
  assert (Ha : accepts P [AAccept (V := V) e' p clc] = if p =? P then [clc] else [])
    by (unfold accepts; csimpl; by destruct (_ =? _)).
  destruct ph as [resp u | | y acks | y]; cbn [link_inv]; rewrite Hb, ?lasts_app, ?accepts_app, Ha; destruct (p =? P);
    cbn [app]; rewrite ?app_nil_r; try done.
  - by intros (_ & _ & _ & _ & _ & _ & ? & _).
  - by intros (_ & _ & ? & _).
  - intros (H1 & H2 & H3 & H4 & H5).
    assert (Hp : begins P out ++ accepts P inn ++ [clc] ≡ₚ clc :: begins P out ++ accepts P inn)
      by (rewrite app_assoc; symmetry; apply Permutation_cons_append).
    split_and!; try done; [by rewrite Hp | by rewrite Hp |]. intros Hk. by apply H5 in Hk.
  - by intros (_ & _ & ? & _).
Qed.

Lemma inv_vote a i k e p lc x l : Inv a ->
  anet a (i, k) = ABegin e p lc x :: l -> a_ep (an a k) = e -> a_role (an a k) = RPeon ->
  a_acc (an a k) = p -> a_lc (an a k) = lc ->
  Inv (AState (<[k := with_pend p x (an a k)]> (an a))
    (<[(k, i) := anet a (k, i) ++ [AAccept e p lc]]> (<[(i, k) := l]> (anet a)))
    (alog a) (aprops a) ({[(k, p, lc + 1)]} ∪ avotes a)).
Proof.
  intros HI Hm He Hr Hp Hlc. pose proof (I_msg _ _ _ _ HI i k (ABegin e p lc x)) as Hc. rewrite Hm in Hc.
  destruct Hc as (Hne & Hei & Hri & Hown & Hlpn & Hx); [set_solver |].
  match goal with |- Inv ?A => set (a' := A) end.
  assert (Hk : an a' k = with_pend p x (an a k)) by (cbn; by fn_simpl).
  assert (Ho : forall j, j <> k -> an a' j = an a j) by (intros; cbn; by fn_simpl).
  destruct (I_node _ _ _ _ HI k) as (Hn1 & Hn2 & Hn3).
  assert (Hsame : forall j, a_acc (an a' j) = a_acc (an a j) /\ a_lpn (an a' j) = a_lpn (an a j) /\
    a_lc (an a' j) = a_lc (an a j) /\ a_ep (an a' j) = a_ep (an a j) /\ a_role (an a' j) = a_role (an a j)).
  { intros j. destruct (decide (j = k)) as [-> |]; [by rewrite Hk | by rewrite Ho]. }
  assert (Hg : grows a a').
  { split; [intros j; destruct (Hsame j) as (? & ? & ? & ? & ?); lia .. | done | done | | |].
    - cbn. apply union_subseteq_r.
    - intros j p' v. cbn. rewrite elem_of_union, elem_of_singleton. intros [[= -> -> ->] | ?]; [right; lia | by left].
    - intros j. destruct (Hsame j) as (? & ? & ? & ? & ->). auto. }
  eapply inv_step; [done | done | by left | by left | .. ].
  - intros j p' v. cbn. rewrite elem_of_union, elem_of_singleton. destruct (decide (j = k)) as [-> |].
    + intros Hin. right. unfold vote_inv. rewrite Hk. cbn [with_pend a_acc a_lc a_pend a' aprops].
      destruct Hin as [[= -> ->] | Hin].
      * split_and!; [by eexists | lia | right; subst; eauto with lia].
      * destruct (I_vote _ _ _ _ HI k p' v Hin) as (Hpr & Ha & Hv). split_and!; [done | done |].
        destruct Hv as [| [-> _]]; [by left | right]. split; [done |]. exists p, x. split; [done | lia].
    + intros [[= ? ? ?] | Hin]; [done | left]. split; [done | by apply Ho].
  - intros j. destruct (decide (j = k)) as [-> |]; [right | left; by apply Ho].
    unfold node_inv. destruct (Hsame (a_acc (an a k) mod 100)) as (_ & Hl & _).
    rewrite Hk. cbn [with_pend a_acc a_lc a_pend a' aprops alog] in *. rewrite Hl. split_and!; [lia .. | | done].
    intros p' y [= <- <-]. rewrite Hlc. split; [done | lia].
  - intros y z m. cbn [a' anet]. rewrite chan_swap by done.
    destruct (decide _) as [[= -> ->] |]; [rewrite elem_of_app, list_elem_of_singleton; intros [| ->]; [by left |]; right |].
    + cbn [msg_inv]. destruct (Hsame (p mod 100)) as (_ & -> & _). rewrite Ho by done. rewrite Hown. split_and!; try done.
      cbn. set_solver.
    + destruct (decide _) as [[= -> ->] |]; [| by left]. intros Hin. left. rewrite Hm. set_solver.
  - intros j q ph Hrj. assert (Hj : j <> k) by (intros ->; rewrite Hk in Hrj; cbn in Hrj; congruence).
    rewrite Ho in Hrj by done. pose proof (I_lead _ _ _ _ HI j q ph Hrj) as (Hq & Hjq & Hmj & Hl & Hph & Hlk).
    destruct (decide (j = i)) as [-> | Hji].
    + unfold PaxosSpec.lead_inv. rewrite Ho by done.
      split_and!; try done; [eapply (phase_grows a); [done | by rewrite Ho | by rewrite Ho | done | done] |].
      intros z Hz. cbn [a' anet]. rewrite !chan_swap by done. destruct (Hsame z) as (-> & _).
      destruct (decide (z = k)) as [-> | Hzk]; repeat (case_decide; try congruence); [| by apply Hlk].
      specialize (Hlk k Hz). rewrite Hm in Hlk. by eapply link_vote.
    + eapply lead_frame; [done | by apply Ho | done | | done]. intros z Hz. cbn [a' anet].
      destruct (chan_swap_frame (anet a) i k l (anet a (k, i) ++ [AAccept e p lc]) j z) as [-> ->]; [done .. |].
      split_and!; try done. by destruct (Hsame z) as (-> & _).
Qed.

Lemma link_ack e P lc q x acks k acck out inn e' clc :
  link_inv (V := V) e P lc q (PUpdate x acks) k acck out (AAccept e' P clc :: inn) ->
  clc = lc /\ k ∈ q /\ link_inv e P lc q (PUpdate x ({[k]} ∪ acks)) k acck out inn.
Proof.
  assert (Ha : accepts P (AAccept e' P clc :: inn) = clc :: accepts P inn) by (unfold accepts; csimpl; by rewrite Z.eqb_refl).
  intros (H1 & H2 & H3 & H4 & H5). rewrite Ha in *.
  apply Forall_app in H3 as [_ [-> _]%Forall_cons]. split; [done | split].
  - destruct (decide (k ∈ q)); [done |]. destruct (begins P out); by discriminate (H5 (or_intror n)).
  - rewrite length_app in H4. cbn in H4. destruct (begins P out) as [| b lb] eqn:Eb, (accepts P inn) as [| c lc'] eqn:Ec;
      cbn in H4; try lia. cbn [link_inv]. rewrite Eb, Ec. cbn. split_and!; auto.
Qed.

Lemma link_acks e P lc q x acks acks' k acck (out inn : list amsg) : (k ∈ acks' -> k ∈ acks) ->
  link_inv e P lc q (PUpdate x acks) k acck out inn -> link_inv e P lc q (PUpdate x acks') k acck out inn.
Proof. intros Hk (H1 & H2 & H3 & H4 & H5). cbn [link_inv]. split_and!; auto. intros []; auto. Qed.

Lemma inv_ack a i k e p lc l q x acks : Inv a -> anet a (k, i) = AAccept e p lc :: l -> a_ep (an a i) = e ->
  a_role (an a i) = RLead q (PUpdate x acks) -> a_acc (an a i) = p ->
  Inv (set_an (set_chan a k i l) i (with_role (RLead q (PUpdate x ({[k]} ∪ acks))) (an a i))).
Proof.
  intros HI Hm He Hr Hp. pose proof (I_msg _ _ _ _ HI k i (AAccept e p lc)) as Hc. rewrite Hm in Hc.
  destruct Hc as (Hne & _ & _ & _ & Hv); [set_solver |].
  pose proof (I_lead _ _ _ _ HI i _ _ Hr) as (_ & _ & _ & _ & (Hcl & Hpr & Hx & Hs & Ha) & Hlk).
  pose proof (Hlk k Hne) as Hlkk. rewrite Hm, He, Hp in Hlkk.
  destruct (link_ack _ _ _ _ _ _ _ _ _ _ _ _ Hlkk) as (-> & Hkq & Hk).
  pose proof (inv_pop _ _ _ _ _ HI Hm) as HI'. set (a1 := set_chan a k i l) in *.
  pose proof (I_node _ _ _ _ HI i) as (Hn & _).
  apply inv_set_an; cbn; auto; try lia; [done |]. intros q' ph [= <- <-].
  eapply (lead_set a1); [done | done | done .. | |].
  - unfold phase_inv. rewrite an_set_eq. cbn [with_role a_acc a_lc aprops avotes set_an].
    split_and!; [by apply closed_set | done | done | set_solver |].
    intros z [->%elem_of_singleton | Hz]%elem_of_union; [by rewrite Hp | by apply Ha].
  - intros z Hz. cbn [a1 set_chan an anet]. intros _. destruct (decide (z = k)) as [-> |].
    + rewrite He, Hp. by fn_simpl.
    + rewrite !fn_lookup_insert_ne by congruence. eapply link_acks, Hlk; [set_solver | done].
Qed.

(** A value proposed above a number that a majority voted for is that one. *)
Lemma prop_above a p1 p2 v x y q : Inv a -> p1 <= p2 -> aprops a !! (p1, v) = Some x -> aprops a !! (p2, v) = Some y -> maj q ->
  (forall k, k ∈ q -> (k, p1, v) ∈ avotes a) -> eqv x y.
Proof.
  intros HI Hle H1 H2 Hq Hv. destruct (decide (p1 = p2)) as [-> | Hne]; [by simplify_eq |].
  destruct (I_prop _ _ _ _ HI _ _ _ H2) as (_ & _ & _ & Hs). destruct (Hs p1 ltac:(lia)) as (q3 & Hq3 & H3).
  destruct (maj_meet q q3 Hq Hq3) as (k & Hk1 & Hk3).
  destruct (H3 k Hk3) as (_ & Hy). destruct (Hy (Hv k Hk1)) as (z & Hz & Hzz). congruence.
Qed.

(** A version that is already in the log was chosen with the same value. *)
Lemma chosen_agree a v x y : Inv a -> chosen a v x -> chosen a v y -> eqv x y.
Proof.
  intros HI (p & q & x' & Hq & Hx' & Hxx & Hvx) (p2 & q2 & y' & Hq2 & Hy' & Hyy & Hvy). rewrite <- Hxx, <- Hyy.
  destruct (Z.le_ge_cases p p2); [by apply (prop_above a p p2 v x' y' q) | symmetry; by apply (prop_above a p2 p v y' x' q2)].
Qed.

(** A chosen version is with a majority, committed or accepted. *)
Lemma chosen_held a v x : Inv a -> chosen a v x -> exists q, maj q /\ forall k, k ∈ q ->
  v <= a_lc (an a k) \/ v = a_lc (an a k) + 1 /\ exists p y, a_pend (an a k) = Some (p, y) /\ eqv x y.
Proof.
  intros HI (p & q & x' & Hq & Hx' & Hxx & Hv). exists q. split; [done |]. intros k Hk.
  destruct (I_vote _ _ _ _ HI _ _ _ (Hv k Hk)) as (_ & _ & [Hle | (Hlc & p2 & y & Hp & Hle)]); [by left |].
  right. split; [done |]. exists p2, y. split; [done |]. destruct (I_node _ _ _ _ HI k) as (_ & Hpd & _).
  destruct (Hpd p2 y Hp) as [Hy _]. rewrite <- Hlc in Hy. rewrite <- Hxx. by eapply prop_above.
Qed.

Lemma write_chosen a i q x : Inv a -> a_role (an a i) = RLead q (PWrite x) -> chosen a (a_lc (an a i) + 1) x.
Proof.
  intros HI Hr. destruct (I_lead _ _ _ _ HI i _ _ Hr) as (Hq & _ & _ & _ & (_ & _ & Hx & Hv) & _).
  by exists (a_acc (an a i)), q, x.
Qed.

Lemma apply_agrees a i q x y : Inv a -> a_role (an a i) = RLead q (PWrite x) ->
  alog a !! Z.to_nat (a_lc (an a i)) = Some y -> eqv x y.
Proof.
  intros HI Hr Hy. pose proof (I_node _ _ _ _ HI i) as (Hn & _). eapply chosen_agree; [done | by eapply write_chosen |].
  apply (I_log _ _ _ _ HI); [lia |]. by rewrite Z.add_simpl_r.
Qed.

(** The writer has the value on its own disk. *)
Lemma write_pend a i q x : Inv a -> a_role (an a i) = RLead q (PWrite x) -> a_pend (an a i) = Some (a_acc (an a i), x).
Proof.
  intros HI Hr. destruct (I_lead _ _ _ _ HI i _ _ Hr) as (_ & Hi & _ & _ & (_ & _ & Hx & Hv) & _).
  destruct (I_vote _ _ _ _ HI _ _ _ (Hv i Hi)) as (_ & _ & [? | (_ & p & y & Hp & Hle)]); [lia |].
  destruct (I_node _ _ _ _ HI i) as (_ & Hpd & _). destruct (Hpd p y Hp) as [Hy Hp'].
  assert (p = a_acc (an a i)) as -> by lia. congruence.
Qed.

(** The log after the write. *)
Lemma apply_log a i q x : Inv a -> a_role (an a i) = RLead q (PWrite x) ->
  let log' := if zlen (alog a) =? a_lc (an a i) then alog a ++ [x] else alog a in
  alog a `prefix_of` log' /\ exists y, log' !! Z.to_nat (a_lc (an a i)) = Some y /\ eqv x y.
Proof.
  intros HI Hr log'. destruct (I_node _ _ _ _ HI i) as (Hn & _). unfold log'. destruct (Z.eqb_spec (zlen (alog a)) (a_lc (an a i))) as [E |].
  - split; [by apply prefix_app_r |]. exists x. split; [| done]. rewrite <- E. unfold zlen. rewrite Nat2Z.id. by apply list_lookup_middle.
  - split; [done |]. unfold zlen in *. destruct (lookup_lt_is_Some_2 (alog a) (Z.to_nat (a_lc (an a i)))) as [y Hy]; [lia |].
    exists y. split; [done |]. by eapply apply_agrees.
Qed.

Lemma inv_apply a i q x : Inv a -> a_role (an a i) = RLead q (PWrite x) ->
  Inv (AState (<[i := with_role (RLead q PReady) (with_lc (a_lc (an a i) + 1) (an a i))]> (an a)) (anet a)
    (if zlen (alog a) =? a_lc (an a i) then alog a ++ [x] else alog a) (aprops a) (avotes a)).
Proof.
  intros HI Hr. pose proof (write_chosen _ _ _ _ HI Hr) as Hch.
  destruct (I_lead _ _ _ _ HI i _ _ Hr) as (Hq & Hiq & Hm & Hl & (Hcl & Hpr & Hx & Hv) & Hlk).
  destruct (I_node _ _ _ _ HI i) as (Hn1 & Hn2 & Hn3).
  match goal with |- Inv ?A => set (a' := A) end.
  assert (Hi : an a' i = with_role (RLead q PReady) (with_lc (a_lc (an a i) + 1) (an a i))) by (cbn; by fn_simpl).
  assert (Ho : forall k, k <> i -> an a' k = an a k) by (intros; cbn; by fn_simpl).
  assert (Hlog : alog a' = alog a /\ a_lc (an a i) < zlen (alog a) \/
                 alog a' = alog a ++ [x] /\ a_lc (an a i) = zlen (alog a)).
  { cbn. destruct (Z.eqb_spec (zlen (alog a)) (a_lc (an a i))); [right | left]; split; auto; lia. }
  assert (Hpre : alog a `prefix_of` alog a') by (destruct Hlog as [[-> _] | [-> _]]; [done | by apply prefix_app_r]).
  assert (Hlen : a_lc (an a i) + 1 <= zlen (alog a')).
  { destruct Hlog as [[-> ?] | [-> ->]]; unfold zlen in *; rewrite ?length_app; cbn; lia. }
  assert (Hg : grows a a').
  { split; [intros k; destruct (decide (k = i)) as [-> |]; rewrite ?Hi, ?Ho by done; cbn; lia .. | done | done | done | by left |].
    intros k. destruct (decide (k = i)) as [-> |]; [by rewrite Hi | rewrite Ho; auto]. }
  eapply inv_step; [done | done | by left | | | | by left |].
  - intros v y Hv1 Hy. destruct Hlog as [[Hl' _] | [Hl' Hlc]]; rewrite Hl' in Hy; [by left |].
    apply lookup_app_Some in Hy as [| [Hge Hy]]; [by left | right]. apply list_lookup_singleton_Some in Hy as [Hy <-].
    unfold zlen in Hlc. replace v with (a_lc (an a i) + 1) by lia. by eapply grows_chosen.
  - intros k p v Hin. destruct (decide (k = i)) as [-> |]; [right | left; split; [done | by apply Ho]].
    destruct (I_vote _ _ _ _ HI i p v Hin) as (Hp & Ha & Hvt). unfold vote_inv. rewrite Hi. cbn. split_and!; [done | done |].
    left. destruct Hvt as [| [-> _]]; lia.
  - intros k. destruct (decide (k = i)) as [-> |]; [right | left; by apply Ho].
    unfold node_inv. rewrite Hi. cbn [with_role with_lc a_lc a_pend a_acc]. split_and!; [lia .. | done |].
    rewrite Hm, Hi. cbn. lia.
  - intros j q' ph Hr'. destruct (decide (j = i)) as [-> | Hj].
    + rewrite Hi in Hr'. injection Hr' as <- <-. unfold PaxosSpec.lead_inv, phase_inv. rewrite Hi.
      cbn [with_role with_lc a_lc a_pend a_acc a_lpn a_ep anet a' aprops]. split_and!; try done.
      by eapply closed_grows.
    + rewrite Ho in Hr' by done. eapply lead_frame; [done | by apply Ho | done | | by apply HI].
      intros k Hk. split_and!; try done. destruct (decide (k = i)) as [-> |]; [by rewrite Hi | by rewrite Ho].
Qed.

Lemma head_ne a i j m l : Inv a -> anet a (i, j) = m :: l -> m <> AOther -> i <> j.
Proof.
  intros HI Hm Hne. pose proof (I_msg _ _ _ _ HI i j m) as Hc. rewrite Hm in Hc.
  destruct m; [by apply Hc; set_solver .. | done].
Qed.

(** Every step of the protocol keeps the invariant. *)
Theorem astep_inv a a' : Inv a -> astep a a' -> Inv a'.
Proof.
  intros HI [].
  - by apply inv_drop.
  - by apply inv_send.
  - by apply inv_epoch.
  - by apply inv_none.
  - by apply inv_peon.
  - apply inv_collecting; auto; lia.
  - destruct (I_lead _ _ _ _ HI _ _ _ H) as (? & ? & _). apply inv_collecting; eauto; lia.
  - unfold set_an, set_chan. cbn [an anet alog aprops avotes].
    rewrite fn_lookup_insert_ne by (intros [= ->]; by apply (head_ne _ _ _ _ _ HI H)). by apply inv_promise.
  - by apply inv_learn.
  - by eapply inv_count.
  - by apply inv_ready.
  - by eapply inv_again.
  - by apply inv_begin.
  - unfold set_an, set_chan. cbn [an anet alog aprops avotes].
    rewrite fn_lookup_insert_ne by (intros [= ->]; by apply (head_ne _ _ _ _ _ HI H)). by apply inv_vote.
  - by eapply inv_ack.
  - by apply inv_write.
  - by apply inv_apply.
Qed.

Lemma asteps_inv a a' : Inv a -> asteps eqv ok ranks a a' -> Inv a'.
Proof. intros HI Hs. induction Hs; eauto using astep_inv. Qed.

Lemma ainit_inv : Inv ainit.
Proof. split; cbn; try done; intros *; cbn; try (rewrite ?elem_of_nil; naive_solver lia). Qed.

End Inv.
