(* ===== verification/PaxosDisk.v ===== *)
(** * What a monitor has on disk

    A transaction acts on every key by itself ([tx_at]); two transactions are
    equivalent when they do the same to every key.  [disk log s lc pend] says
    that a store holds exactly the first [lc] transactions of [log]: the keys
    of the services are their replay, the versions that are not trimmed are
    there, and the only version beyond is the accepted value [pend]. *)

From stdpp Require Import strings pretty.
From S2P Require Import Prelude MonitorDBStore Paxos.

(** ** Transactions, key by key *)

Definition op_at (op : Op) (k : string * string) (o : option bufferlist) : option bufferlist :=
  match op with
  | OP_PUT p key bl => if decide ((p, key) = k) then Some bl else o
  | OP_ERASE p key => if decide ((p, key) = k) then None else o
  | OP_COMPACT _ _ _ => o
  | OP_ERASE_RANGE p a b => if in_range p a b k then None else o
  end.

Definition tx_at (t : Transaction) (k : string * string) (o : option bufferlist) : option bufferlist :=
  fold_left (fun o op => op_at op k o) t o.

Lemma apply_op_at op s k : apply_op op s !! k = op_at op k (s !! k).
Proof.
  destruct op as [p key bl | p key | p a b | p a b]; cbn; [case_decide; subst; by simplify_map_eq .. | done |].
  rewrite map_lookup_filter. destruct (s !! k) as [x |]; cbn; [| by destruct (in_range _ _ _ _)].
  destruct (in_range p a b k) eqn:E; [by rewrite option_guard_False | by rewrite option_guard_True].
Qed.

Lemma apply_at t s k : apply_transaction t s !! k = tx_at t k (s !! k).
Proof. revert s. induction t as [| op t IH]; intros s; [done |]. cbn. by rewrite IH, apply_op_at. Qed.

Lemma tx_at_cons op t k o : tx_at (op :: t) k o = tx_at t k (op_at op k o).
Proof. done. Qed.

Lemma tx_at_app t1 t2 k o : tx_at (t1 ++ t2) k o = tx_at t2 k (tx_at t1 k o).
Proof. apply fold_left_app. Qed.

Lemma tx_at_other t p key o : Forall (fun op => op_prefix op <> p) t -> tx_at t (p, key) o = o.
Proof.
  intros Ht. revert o. induction Ht as [| op t Hop _ IH]; intros o; [done |]. rewrite tx_at_cons, IH.
  destruct op as [q k' bl | q k' | q a b | q a b]; cbn in *; try done; [by rewrite decide_False by congruence .. |].
  unfold in_range. cbn. by rewrite bool_decide_eq_false_2 by congruence.
Qed.

Definition tx_eqv (t1 t2 : Transaction) : Prop := forall k o, tx_at t1 k o = tx_at t2 k o.

#[export] Instance tx_eqv_equivalence : Equivalence tx_eqv.
Proof.
  split; [by intros t k o | by intros t u H k o | intros t u w H1 H2 k o; by rewrite H1].
Qed.

#[export] Instance apply_transaction_proper : Proper (tx_eqv ==> eq ==> eq) apply_transaction.
Proof. intros t u H s ? <-. apply map_eq. intros k. by rewrite !apply_at, H. Qed.

(** Putting the same key first twice is putting it once. *)
Lemma put_twice p k bl t : tx_eqv (OP_PUT p k bl :: OP_PUT p k bl :: t) (OP_PUT p k bl :: t).
Proof. intros key o. rewrite !tx_at_cons. cbn. by repeat case_decide. Qed.

(** ** The keys of Paxos *)

Definition pkey (name : string) : string * string := (paxos_name, name).
Definition vkey (v : Z) : string * string := (paxos_name, ver_key v).

Definition meta_names : list string := ["last_committed"; "last_pn"; "accepted_pn"; "pending_v"; "pending_pn"].

Lemma vkey_pkey v name : digit_head name = false -> vkey v <> pkey name.
Proof. intros Hn [= H]. by apply (ver_key_name v name Hn). Qed.

Lemma vkey_inj a b : 0 <= a -> 0 <= b -> vkey a = vkey b -> a = b.
Proof. intros Ha Hb [= H]. by apply ver_key_inj. Qed.

Lemma meta_digit name : name ∈ "first_committed" :: meta_names -> digit_head name = false.
Proof. intros H. repeat (apply elem_of_cons in H as [-> | H]; [done |]). by apply elem_of_nil in H. Qed.

Definition num_of (o : option bufferlist) : Z := match o with Some (BVersion v) => v | _ => 0 end.

Lemma get_num_of s k v : get_num s paxos_name k = Some v -> num_of (s !! pkey k) = v.
Proof. unfold get_num, pkey. by destruct (s !! _) as [[] |]; intros [= <-]. Qed.

(** ** Logs *)

Definition replay (log : list Transaction) : Store := fold_left (fun s t => apply_transaction t s) log ∅.

Lemma replay_snoc log t : replay (log ++ [t]) = apply_transaction t (replay log).
Proof. unfold replay. by rewrite fold_left_app. Qed.

Definition fc_key : string * string := pkey "first_committed".

(** The transaction [x] can be version [zlen l + 1]: it leaves the bookkeeping
    of Paxos alone, moves [first_committed] forward and erases the versions
    it passes, and only versions below it. *)
Record tx_ok (l : list Transaction) (x : Transaction) : Prop := {
  ok_meta : forall name o, name ∈ meta_names -> tx_at x (pkey name) o = o;
  ok_fc : exists f, tx_at x fc_key (replay l !! fc_key) = Some (BVersion f) /\
    num_of (replay l !! fc_key) <= f /\ 1 <= f <= zlen l + 1 /\ (forall u o, f <= u -> tx_at x (vkey u) o = o) /\
    forall u o, 1 <= u -> num_of (replay l !! fc_key) <= u < f -> tx_at x (vkey u) o = None;
  ok_erase : forall u o, tx_at x (vkey u) o = o \/ tx_at x (vkey u) o = None;
  ok_first : l = [] -> tx_eqv (put_num paxos_name "first_committed" 1 :: x) x
}.

Lemma tx_ok_eqv l x y : tx_eqv x y -> tx_ok l x -> tx_ok l y.
Proof.
  intros H [H1 (f & H2 & H3 & H4 & H5 & H7) H6 H8]. split.
  - intros name o Hn. rewrite <- H. auto.
  - exists f. rewrite <- H. split_and!; try done; try lia; intros u o; rewrite <- H; auto.
  - intros u o. rewrite <- H. auto.
  - intros Hl k o. rewrite <- (H k o), <- (H8 Hl k o), !tx_at_cons. by rewrite H.
Qed.

(** ** The disk *)

(** Everything but the number of committed versions and the value beyond. *)
Record disk_body (log : list Transaction) (s : Store) (lc : Z) : Prop := {
  d_svc : forall k, k.1 <> paxos_name \/ k = fc_key -> s !! k = replay (take (Z.to_nat lc) log) !! k;
  d_ver : forall v, 1 <= v <= lc ->
    if v <? num_of (s !! fc_key) then s !! vkey v = None
    else exists x y, s !! vkey v = Some (BTransaction x) /\ log !! Z.to_nat (v - 1) = Some y /\ tx_eqv x y;
  d_future : forall v, lc + 1 < v -> s !! vkey v = None
}.

Definition disk_pend (s : Store) (lc : Z) (pend : option (Z * Transaction)) : Prop :=
  match pend with
  | None => s !! vkey (lc + 1) = None
  | Some (p, x) =>
      s !! vkey (lc + 1) = Some (BTransaction x) /\ get_num s paxos_name "pending_v" = Some (lc + 1) /\
      get_num s paxos_name "pending_pn" = Some p /\ 0 < p
  end.

Definition disk (log : list Transaction) (s : Store) (lc : Z) (pend : option (Z * Transaction)) : Prop :=
  0 <= lc <= zlen log /\ get_num s paxos_name "last_committed" = Some lc /\ disk_body log s lc /\ disk_pend s lc pend.

(** Every transaction of the log may stand where it stands. *)
Definition log_ok (log : list Transaction) : Prop :=
  forall v x, 1 <= v -> log !! Z.to_nat (v - 1) = Some x -> tx_ok (take (Z.to_nat (v - 1)) log) x.

Lemma disk_prefix log log' s lc pend : log `prefix_of` log' -> disk log s lc pend -> disk log' s lc pend.
Proof.
  intros [r ->] (Hlc & Hg & [H1 H2 H3] & Hp). unfold zlen in *. split_and!; [lia | unfold zlen; rewrite length_app; lia | done | | done].
  split; [| | done].
  - intros k Hk. rewrite take_app_le by lia. auto.
  - intros v Hv. specialize (H2 v Hv). case_match; [done |]. destruct H2 as (x & y & Hx & Hy & Hxy).
    exists x, y. split_and!; try done. by apply lookup_app_l_Some.
Qed.

(** The stores differ at most in keys that no clause reads. *)
Lemma body_ext log s s' lc : disk_body log s lc ->
  (forall k, k.1 <> paxos_name \/ k = fc_key -> s' !! k = s !! k) ->
  (forall v, 0 <= v -> v <> lc + 1 -> s' !! vkey v = s !! vkey v) -> 0 <= lc -> disk_body log s' lc.
Proof.
  intros [H1 H2 H3] Hk Hv Hlc. split.
  - intros k Hkk. rewrite Hk by done. auto.
  - intros v Hvv. rewrite Hv, Hk by (auto; lia). by apply H2.
  - intros v Hvv. rewrite Hv by lia. auto.
Qed.

(** ** Writes *)

Lemma op_put_num name z k o : op_at (put_num paxos_name name z) k o = if decide (pkey name = k) then Some (BVersion z) else o.
Proof. done. Qed.

Lemma op_put_ver v bl k o : op_at (put_ver paxos_name v bl) k o = if decide (vkey v = k) then Some bl else o.
Proof. done. Qed.

(** [key_ne] tells the keys of Paxos apart. *)
Ltac key_ne :=
  first
  [ done
  | let H := fresh in intros H; apply vkey_inj in H; lia
  | apply vkey_pkey; reflexivity
  | apply not_eq_sym, vkey_pkey; reflexivity
  | let H := fresh in intros H; discriminate H
  | match goal with H : _.1 <> paxos_name \/ _ = fc_key |- _ =>
      let E := fresh in intros E; destruct H as [H | ->];
        [rewrite <- E in H; by apply H | first [discriminate E | revert E; apply vkey_pkey; reflexivity]] end ].

(** [key_simpl] reads a key of a store after a transaction. *)
Ltac key_simpl :=
  unfold get_num;
  repeat match goal with |- context [(paxos_name, ?n)] => progress change (paxos_name, n) with (pkey n) end;
  rewrite ?apply_at, ?tx_at_cons, ?op_put_num, ?op_put_ver;
  repeat first [ rewrite decide_True by done | rewrite decide_False by key_ne ]; try done.

Lemma disk_meta log s lc pend name z : name ∈ ["last_pn"; "accepted_pn"] -> disk log s lc pend ->
  disk log (apply_transaction [put_num paxos_name name z] s) lc pend.
Proof.
  intros Hn (Hlc & Hg & Hb & Hp).
  assert (Hk : forall k, k <> pkey name -> apply_transaction [put_num paxos_name name z] s !! k = s !! k)
    by (intros k Hk; key_simpl; by rewrite decide_False).
  assert (Hd : digit_head name = false) by (apply meta_digit; set_solver).
  assert (Hne : forall n, n ∉ ["last_pn"; "accepted_pn"] -> pkey n <> pkey name) by (intros n H [= ->]; done).
  split_and!; try done; [lia.. | unfold get_num in *; rewrite Hk; [done |] | | ].
  - apply Hne. set_solver.
  - eapply body_ext; [done | | | lia].
    + intros k [Hk1 | ->]; apply Hk; [by intros -> | apply Hne; set_solver].
    + intros v _ _. apply Hk. by apply vkey_pkey.
  - unfold disk_pend, get_num in *.
    destruct pend as [[p x] |]; rewrite !Hk; try done; first [by apply vkey_pkey | apply Hne; set_solver].
Qed.

Lemma disk_accept log s lc pend p x : disk log s lc pend -> 0 < p ->
  disk log (apply_transaction [put_ver paxos_name (lc + 1) (BTransaction x); put_num paxos_name "pending_v" (lc + 1);
    put_num paxos_name "pending_pn" p] s) lc (Some (p, x)).
Proof.
  intros (Hlc & Hg & Hb & _) Hp. split_and!; try done; [lia .. | by key_simpl | | ].
  - eapply body_ext; [done | | | lia].
    + intros k Hk. by key_simpl.
    + intros v Hv Hne. key_simpl.
  - unfold disk_pend. split_and!; [by key_simpl .. | done].
Qed.

(** ** Commits *)

Lemma replay_fc log lc : log_ok log -> 1 <= lc <= zlen log ->
  exists f, replay (take (Z.to_nat lc) log) !! fc_key = Some (BVersion f) /\ 1 <= f <= lc.
Proof.
  intros Hok Hlc. unfold zlen in Hlc. destruct (lookup_lt_is_Some_2 log (Z.to_nat (lc - 1))) as [x Hx]; [lia |].
  destruct (ok_fc _ _ (Hok lc x ltac:(lia) Hx)) as (f & Hf & _ & Hb & _ & _).
  exists f. replace (Z.to_nat lc) with (S (Z.to_nat (lc - 1))) by lia.
  rewrite (take_S_r _ _ _ Hx), replay_snoc, apply_at. split; [done |].
  unfold zlen in Hb. rewrite length_take in Hb. lia.
Qed.

(** Writing a transaction as the next version and running it. *)
Lemma body_commit log s lc x y : log_ok log -> 0 <= lc -> disk_body log s lc ->
  log !! Z.to_nat lc = Some y -> tx_eqv x y ->
  s !! vkey (lc + 1) = Some (BTransaction x) -> disk_body log (apply_transaction x s) (lc + 1).
Proof.
  intros Hok Hlc [H1 H2 H3] Hy Hxy Hnew.
  assert (Htake : take (Z.to_nat (lc + 1)) log = take (Z.to_nat lc) log ++ [y]).
  { replace (Z.to_nat (lc + 1)) with (S (Z.to_nat lc)) by lia. by apply take_S_r. }
  assert (Hx : tx_ok (take (Z.to_nat lc) log) x).
  { eapply tx_ok_eqv; [by symmetry |]. pose proof (Hok (lc + 1) y ltac:(lia)) as H. rewrite Z.add_simpl_r in H. auto. }
  apply lookup_lt_Some in Hy as Hlen.
  destruct Hx as [_ (f & Hf & Hfle & Hfb & Hfu & Hfe) He _]. unfold zlen in Hfb. rewrite length_take in Hfb.
  assert (Hfc : apply_transaction x s !! fc_key = Some (BVersion f)) by (by rewrite apply_at, H1 by auto).
  split.
  - intros k Hk. rewrite Htake, replay_snoc, !apply_at, H1, Hxy by done. done.
  - intros v Hv. rewrite Hfc. cbn [num_of]. rewrite apply_at. specialize (H2 v). rewrite H1 in H2 by auto.
    destruct (Z.ltb_spec v f) as [Hvf | Hvf].
    + destruct (Z.ltb_spec v (num_of (replay (take (Z.to_nat lc) log) !! fc_key))); [| apply Hfe; lia].
      rewrite H2 by lia. by destruct (He v None).
    + rewrite Hfu by done. destruct (decide (v = lc + 1)) as [-> |].
      * exists x, y. rewrite Z.add_simpl_r. done.
      * destruct (Z.ltb_spec v (num_of (replay (take (Z.to_nat lc) log) !! fc_key))); [lia |]. apply H2. lia.
  - intros v Hv. rewrite apply_at, H3 by lia. destruct (He v None); done.
Qed.

Lemma tx_ok_meta log lc x y name o : log_ok log -> 0 <= lc -> log !! Z.to_nat lc = Some y -> tx_eqv x y ->
  name ∈ meta_names -> tx_at x (pkey name) o = o.
Proof.
  intros Hok Hlc Hy Hxy Hn. rewrite Hxy. pose proof (Hok (lc + 1) y ltac:(lia)) as H. rewrite Z.add_simpl_r in H.
  by apply ok_meta with (1 := H Hy).
Qed.

(** The leader's own commit: the value is in place already. *)
Lemma disk_commit log log' s lc p x y : log `prefix_of` log' -> log_ok log' -> disk log s lc (Some (p, x)) ->
  log' !! Z.to_nat lc = Some y -> tx_eqv x y ->
  disk log' (apply_transaction (put_num paxos_name "last_committed" (lc + 1) :: x) s) (lc + 1) None.
Proof.
  intros Hpre Hok Hd Hy Hxy. pose proof (disk_prefix _ _ _ _ _ Hpre Hd) as (Hlc & _ & Hb & Hv & _).
  change (put_num paxos_name "last_committed" (lc + 1) :: x) with ([put_num paxos_name "last_committed" (lc + 1)] ++ x).
  rewrite apply_transaction_app. set (s1 := apply_transaction [put_num paxos_name "last_committed" (lc + 1)] s).
  assert (Hv1 : forall v, s1 !! vkey v = s !! vkey v) by (intros v; unfold s1; by key_simpl).
  assert (Hb1 : disk_body log' s1 lc).
  { eapply body_ext; [done | | | lia]; [| done]. intros k Hk. unfold s1. by key_simpl. }
  assert (Hb2 : disk_body log' (apply_transaction x s1) (lc + 1)) by (eapply body_commit; try done; [lia | by rewrite Hv1]).
  apply lookup_lt_Some in Hy as Hlen. unfold zlen in *. split_and!; [lia | unfold zlen; lia | | done |].
  - unfold get_num. rewrite apply_at. fold (pkey "last_committed").
    rewrite (tx_ok_meta log' lc x y) by (done || lia || set_solver). unfold s1. by key_simpl.
  - cbn [disk_pend]. rewrite apply_at, Hv1. rewrite (d_future _ _ _ Hb (lc + 1 + 1)) by lia.
    pose proof (Hok (lc + 1) y ltac:(lia)) as H. rewrite Z.add_simpl_r in H.
    rewrite Hxy. by destruct (ok_erase _ _ (H Hy) (lc + 1 + 1) None).
Qed.

(** ** Values received from a peer *)

(** The entries [a], [a + 1], ... of the log. *)
Fixpoint good_values (log : list Transaction) (a : Z) (l : list (Z * bufferlist)) : Prop :=
  match l with
  | [] => True
  | (v, bl) :: l' =>
      v = a /\ (exists x y, bl = BTransaction x /\ log !! Z.to_nat (a - 1) = Some y /\ tx_eqv x y) /\ good_values log (a + 1) l'
  end.

Fixpoint values_tx (l : list (Z * bufferlist)) : option Transaction :=
  match l with
  | [] => Some []
  | (v, bl) :: l' => t ← decode_transaction bl; t' ← values_tx l'; Some (put_ver paxos_name v bl :: t ++ t')
  end.

Lemma apply_values_run l n : apply_values l n = (values_tx l, n).
Proof.
  induction l as [| [v bl] l IH]; [done |]. cbn [apply_values values_tx]. unfold decode, unless_None.
  destruct (decode_transaction bl) as [t |]; [| done]. unfold mbind, M_bind, mret, M_ret in *. rewrite IH. by destruct (values_tx l).
Qed.

(** One value. *)
Lemma body_value log s lc x y : log_ok log -> 0 <= lc -> disk_body log s lc -> log !! Z.to_nat lc = Some y -> tx_eqv x y ->
  let s' := apply_transaction (put_ver paxos_name (lc + 1) (BTransaction x) :: x) s in
  disk_body log s' (lc + 1) /\ s' !! vkey (lc + 2) = None /\ forall name, name ∈ meta_names -> s' !! pkey name = s !! pkey name.
Proof.
  intros Hok Hlc Hb Hy Hxy s'. set (s1 := apply_transaction [put_ver paxos_name (lc + 1) (BTransaction x)] s).
  assert (Hs : s' = apply_transaction x s1) by done.
  assert (Hb1 : disk_body log s1 lc).
  { eapply body_ext; [done | | | lia]; [intros k Hk | intros v Hv Hne]; unfold s1; by key_simpl. }
  rewrite Hs. split_and!.
  - eapply body_commit; try done. unfold s1. by key_simpl.
  - rewrite apply_at, (d_future _ _ _ Hb1) by lia. pose proof (Hok (lc + 1) y ltac:(lia)) as H. rewrite Z.add_simpl_r in H.
    rewrite Hxy. by destruct (ok_erase _ _ (H Hy) (lc + 2) None).
  - intros name Hn. rewrite apply_at, (tx_ok_meta log lc x y) by done. unfold s1. rewrite apply_at. cbn.
    rewrite decide_False; [done |]. apply vkey_pkey, meta_digit. set_solver.
Qed.

Lemma body_values log s lc l : log_ok log -> 0 <= lc -> disk_body log s lc -> good_values log (lc + 1) l ->
  exists t, values_tx l = Some t /\ disk_body log (apply_transaction t s) (lc + zlen l) /\
    (l <> [] -> apply_transaction t s !! vkey (lc + zlen l + 1) = None) /\
    forall name, name ∈ meta_names -> apply_transaction t s !! pkey name = s !! pkey name.
Proof.
  intros Hok. revert s lc. induction l as [| [v bl] l IH]; intros s lc Hlc Hb Hl.
  - exists []. cbn. unfold zlen. cbn. rewrite Z.add_0_r. done.
  - destruct Hl as (-> & (x & y & -> & Hy & Hxy) & Hl). rewrite Z.add_simpl_r in Hy.
    destruct (body_value log s lc x y Hok Hlc Hb Hy Hxy) as (Hb' & Hn' & Hm'). cbn zeta in *.
    set (s' := apply_transaction (put_ver paxos_name (lc + 1) (BTransaction x) :: x) s) in *.
    destruct (IH s' (lc + 1) ltac:(lia) Hb' Hl) as (t & Ht & Hbt & Hnt & Hmt).
    exists (put_ver paxos_name (lc + 1) (BTransaction x) :: x ++ t). cbn. rewrite Ht. split; [done |].
    change (put_ver paxos_name (lc + 1) (BTransaction x) :: x ++ t)
      with ((put_ver paxos_name (lc + 1) (BTransaction x) :: x) ++ t).
    rewrite apply_transaction_app. fold s'.
    assert (Hz : zlen ((lc + 1, BTransaction x) :: l) = 1 + zlen l) by (unfold zlen; cbn; lia).
    rewrite Hz, Z.add_assoc. split_and!; [done | | intros name Hn; by rewrite Hmt, Hm'].
    intros _. destruct l as [| e l']; [| by apply Hnt].
    injection Ht as <-. rewrite <- Hn'. f_equal. f_equal. unfold zlen. cbn. lia.
Qed.

Lemma disk_store log s lc pend l : log_ok log -> disk log s lc pend -> good_values log (lc + 1) l -> l <> [] ->
  lc + zlen l <= zlen log ->
  exists t, values_tx l = Some t /\
    disk log (apply_transaction (put_num paxos_name "last_committed" (lc + zlen l) :: t) s) (lc + zlen l) None /\
    get_num (apply_transaction (put_num paxos_name "last_committed" (lc + zlen l) :: t) s) paxos_name "last_pn" =
    get_num s paxos_name "last_pn".
Proof.
  intros Hok (Hlc & Hg & Hb & _) Hl Hne Hlen.
  set (s1 := apply_transaction [put_num paxos_name "last_committed" (lc + zlen l)] s).
  assert (Hb1 : disk_body log s1 lc).
  { eapply body_ext; [done | | | lia]; [intros k Hk | intros v Hv Hnv]; unfold s1; by key_simpl. }
  destruct (body_values log s1 lc l Hok ltac:(lia) Hb1 Hl) as (t & Ht & Hbt & Hnt & Hmt).
  exists t. split; [done |]. change (put_num paxos_name "last_committed" (lc + zlen l) :: t)
    with ([put_num paxos_name "last_committed" (lc + zlen l)] ++ t).
  rewrite apply_transaction_app. fold s1. split.
  - split_and!; try done; [unfold zlen in *; lia | | cbn; auto].
    unfold get_num. fold (pkey "last_committed"). rewrite Hmt by set_solver. unfold s1. by key_simpl.
  - unfold get_num. fold (pkey "last_pn"). rewrite Hmt by set_solver. unfold s1. by key_simpl.
Qed.

(** ** Proposals that may follow a log *)

Lemma service_meta t name o : Forall (fun op => op_prefix op <> paxos_name) t -> tx_at t (paxos_name, name) o = o.
Proof. apply tx_at_other. Qed.

Lemma tx_ok_service l t f : Forall (fun op => op_prefix op <> paxos_name) t ->
  replay l !! fc_key = Some (BVersion f) -> 1 <= f <= zlen l -> tx_ok l t.
Proof.
  intros Ht Hf Hb. split.
  - intros name o _. by apply service_meta.
  - exists f. rewrite Hf. cbn. rewrite (service_meta t "first_committed") by done.
    split_and!; try done; try lia. intros u o _. by apply service_meta.
  - intros u o. left. by apply service_meta.
  - intros ->. unfold zlen in Hb. cbn in Hb. lia.
Qed.

Lemma tx_ok_first t : Forall (fun op => op_prefix op <> paxos_name) t ->
  tx_ok [] (put_num paxos_name "first_committed" 1 :: t).
Proof.
  intros Ht. assert (Hv : forall u o, tx_at (put_num paxos_name "first_committed" 1 :: t) (vkey u) o = o).
  { intros u o. rewrite tx_at_cons, op_put_num, decide_False by key_ne. by apply service_meta. }
  split; [| | by left | intros _; apply put_twice].
  - intros name o Hn. rewrite tx_at_cons, op_put_num, decide_False; [by apply service_meta |].
    intros [= <-]. revert Hn. by apply (bool_decide_unpack _).
  - exists 1. rewrite tx_at_cons, op_put_num, decide_True by done. rewrite (service_meta t "first_committed") by done.
    split_and!; try done; auto; cbn; lia.
Qed.

(** The versions a trim erases. *)
Lemma op_erase_ver v k o : op_at (erase_ver paxos_name v) k o = if decide (vkey v = k) then None else o.
Proof. done. Qed.

Lemma erase_out vs k o : (forall u, u ∈ vs -> vkey u <> k) -> tx_at (map (erase_ver paxos_name) vs) k o = o.
Proof.
  revert o. induction vs as [| v vs IH]; intros o H; [done |]. cbn [map]. rewrite tx_at_cons, op_erase_ver.
  rewrite decide_False by (apply H; set_solver). apply IH. intros u Hu. apply H. set_solver.
Qed.

Lemma erase_in vs u o : u ∈ vs -> tx_at (map (erase_ver paxos_name) vs) (vkey u) o = None.
Proof.
  assert (Hn : forall vs k, tx_at (map (erase_ver paxos_name) vs) k None = None).
  { clear. intros vs k. induction vs as [| v vs IH]; [done |]. cbn [map]. rewrite tx_at_cons, op_erase_ver. by case_decide. }
  revert o. induction vs as [| v vs IH]; intros o Hu; [by apply elem_of_nil in Hu |].
  cbn [map]. rewrite tx_at_cons, op_erase_ver. apply elem_of_cons in Hu as [-> | Hu]; [| by apply IH].
  rewrite decide_True by done. apply Hn.
Qed.

(** [trim_ops], on a key of Paxos. *)
Lemma trim_at c f end_ k o : tx_at (trim_ops c f end_) k o =
  if decide (fc_key = k) then Some (BVersion end_) else tx_at (map (erase_ver paxos_name) (seqZ f (end_ - f))) k o.
Proof.
  unfold trim_ops. rewrite tx_at_app, tx_at_cons, op_put_num. by destruct (mon_compact_on_trim c), (decide _).
Qed.

Lemma tx_ok_trim c l t f end_ : Forall (fun op => op_prefix op <> paxos_name) t ->
  replay l !! fc_key = Some (BVersion f) -> 1 <= f -> f < end_ <= zlen l -> tx_ok l (t ++ trim_ops c f end_).
Proof.
  intros Ht Hf Hb He.
  assert (Hat : forall k o, k.1 = paxos_name -> k <> fc_key ->
    tx_at (t ++ trim_ops c f end_) k o = tx_at (map (erase_ver paxos_name) (seqZ f (end_ - f))) k o).
  { intros [p k] o Hp Hk. cbn in Hp. subst p. rewrite tx_at_app, (service_meta t k) by done.
    rewrite trim_at, decide_False by congruence. done. }
  assert (Hv : forall u, vkey u <> fc_key) by (intros u; by apply vkey_pkey).
  split.
  - intros name o Hn. rewrite Hat; [| done |].
    + apply erase_out. intros u _. apply vkey_pkey, meta_digit. set_solver.
    + intros [= ->]. revert Hn. by apply (bool_decide_unpack _).
  - exists end_. rewrite Hf, tx_at_app, trim_at, decide_True by done. cbn. split_and!; try done; try lia.
    + intros u o Hu. rewrite Hat by auto. apply erase_out. intros w Hw Hk. apply elem_of_seqZ in Hw.
      apply vkey_inj in Hk; lia.
    + intros u o _ Hu. rewrite Hat by auto. apply erase_in, elem_of_seqZ. lia.
  - intros u o. rewrite Hat by auto. destruct (decide (u ∈ seqZ f (end_ - f))) as [Hin | Hout].
    + right. by apply erase_in.
    + destruct (decide (0 <= u)) as [Hu |].
      * left. apply erase_out. intros w Hw Hk. apply vkey_inj in Hk; [by subst | | done]. apply elem_of_seqZ in Hw. lia.
      * left. apply erase_out. intros w Hw Hk. apply elem_of_seqZ in Hw. injection Hk as Hk. unfold ver_key in Hk.
        apply (inj pretty) in Hk. lia.
  - intros ->. unfold zlen in He. cbn in He. lia.
Qed.

(** ** Sharing *)

Lemma share_loop_good log s lc len : log_ok log -> disk_body log s lc -> forall a acc n, 1 <= a ->
  a + Z.of_nat len <= lc + 1 -> Forall (fun e => e.1 < a) acc ->
  let b := Z.max a (num_of (s !! fc_key)) in
  exists vals, share_loop s (seqZ a (Z.of_nat len)) acc n = (Some (acc ++ vals), n) /\
    good_values log b vals /\ zlen vals = Z.max 0 (a + Z.of_nat len - b).
Proof.
  intros Hok Hb. induction len as [| len IH]; intros a acc n Ha Hlen Hacc b.
  - exists []. rewrite app_nil_r. split_and!; [done .. |]. unfold zlen. cbn. lia.
  - rewrite seqZ_cons by lia. replace (Z.pred (Z.of_nat (S len))) with (Z.of_nat len) by lia. cbn [share_loop].
    pose proof (d_ver _ _ _ Hb a ltac:(lia)) as Hv. unfold exists_ver, get_bl. fold (vkey a).
    destruct (Z.ltb_spec a (num_of (s !! fc_key))) as [Hlt | Hge].
    + rewrite Hv. destruct (IH (a + 1) acc n) as (vals & Hs & Hg & Hz); [lia | lia | eapply Forall_impl; [done |]; cbn; lia |].
      exists vals. rewrite bool_decide_eq_false_2 by (by apply is_Some_None). unfold Z.succ. rewrite Hs.
      replace (Z.max (a + 1) (num_of (s !! fc_key))) with b in * by lia. split_and!; [done .. | lia].
    + destruct Hv as (x & y & Hx & Hy & Hxy). rewrite Hx. cbn [default].
      replace b with a by lia.
      assert (Hms : map_set acc a (BTransaction x) = acc ++ [(a, BTransaction x)]).
      { pose proof (map_set_split acc [] a (BTransaction x) Hacc (Forall_nil_2 _)) as H. by rewrite app_nil_r in H. }
      destruct (IH (a + 1) (acc ++ [(a, BTransaction x)]) n) as (vals & Hs & Hg & Hz).
      { lia. } { lia. }
      { apply Forall_app. split; [eapply Forall_impl; [done |]; cbn; lia | by constructor; [cbn; lia |]]. }
      exists ((a, BTransaction x) :: vals). rewrite bool_decide_eq_true_2 by done.
      cbn [id from_option]. unfold assert, bl_nonempty, mbind, M_bind, mret, M_ret. rewrite Hms. unfold Z.succ. rewrite Hs.
      rewrite <- app_assoc. replace (Z.max (a + 1) (num_of (s !! fc_key))) with (a + 1) in * by lia. split_and!; [done | | ].
      * split_and!; [done | by exists x, y | done].
      * unfold zlen in *. cbn [length]. lia.
Qed.

Lemma disk_fc log s lc pend : log_ok log -> disk log s lc pend -> 1 <= lc ->
  exists f, s !! fc_key = Some (BVersion f) /\ 1 <= f <= lc.
Proof.
  intros Hok (Hlc & _ & Hb & _) H1. rewrite (d_svc _ _ _ Hb) by auto. apply replay_fc; [done | lia].
Qed.

Lemma disk_fc_le log s lc pend : log_ok log -> disk log s lc pend -> 0 <= num_of (s !! fc_key) <= lc.
Proof.
  intros Hok Hd. destruct (decide (1 <= lc)) as [H1 |].
  - destruct (disk_fc _ _ _ _ Hok Hd H1) as (f & -> & ?). cbn. lia.
  - destruct Hd as (Hlc & _ & Hb & _). rewrite (d_svc _ _ _ Hb) by auto. replace lc with 0 by lia. done.
Qed.
