(* ===== verification/PaxosSim.v ===== *)
(** * The monitors implement the protocol: the relation

    [related] connects a cluster of [PaxosSystem.v] with a state of the machine
    of [PaxosSpec.v].  While a handler runs on monitor [i], the weaker relation
    [W] holds of what a crash would leave behind: the disks, the accepted and
    generated proposal numbers, and the messages sent.  [wp] runs a handler and
    follows it with steps of the machine. *)

From stdpp Require Import strings functions sorting relations.
From S2P Require Import Prelude MonitorDBStore Paxos PaxosSystem PaxosSpec PaxosInv PaxosDisk.

Abbreviation astate := (@PaxosSpec.astate Transaction).
Abbreviation amsg := (@PaxosSpec.amsg Transaction).
Abbreviation anode := (@PaxosSpec.anode Transaction).

(** ** Messages *)

(** The committed versions [a .. lc], where a message carries them. *)
Definition committed_values (log : list Transaction) (a lc : Z) (l : list (Z * bufferlist)) : Prop :=
  1 <= a /\ lc <= zlen log /\ good_values log a l /\ zlen l = Z.max 0 (lc + 1 - a).

Definition unc_pn (u : option (Z * Transaction)) : Z := match u with Some (p, _) => p | None => 0 end.
Definition unc_entry (lc : Z) (u : option (Z * Transaction)) : list (Z * bufferlist) :=
  match u with Some (_, x) => [(lc + 1, BTransaction x)] | None => [] end.

(** [lcj] is the number of versions the receiver has committed. *)
Definition msg_rel (log : list Transaction) (lcj : Z) (m : MMonPaxos) (am : amsg) : Prop :=
  match m_op m with
  | OP_COLLECT => am = ACollect (m_epoch m) (m_pn m) (m_last_committed m) /\ 0 <= m_last_committed m
  | OP_LAST => exists u a l,
      am = ALast (m_epoch m) (m_pn m) (m_last_committed m) u /\ 0 <= m_last_committed m /\
      m_uncommitted_pn m = unc_pn u /\ (forall p x, u = Some (p, x) -> 0 < p) /\
      m_values m = l ++ unc_entry (m_last_committed m) u /\
      committed_values log a (m_last_committed m) l /\
      (m_last_committed m <= lcj \/ a <= Z.max (m_first_committed m) (lcj + 1))
  | OP_BEGIN => exists x,
      am = ABegin (m_epoch m) (m_pn m) (m_last_committed m) x /\
      map_at bl_empty (m_values m) (m_last_committed m + 1) = BTransaction x /\ 0 < m_pn m
  | OP_ACCEPT => am = AAccept (m_epoch m) (m_pn m) (m_last_committed m)
  | OP_COMMIT => am = AOther /\ exists a, committed_values log a (m_last_committed m) (m_values m)
  | OP_LEASE | OP_LEASE_ACK => am = AOther
  end.

Lemma good_values_prefix log log' a l : log `prefix_of` log' -> good_values log a l -> good_values log' a l.
Proof.
  intros [r ->]. revert a. induction l as [| [v bl] l IH]; intros a; [done |]. cbn.
  intros (-> & (x & y & -> & Hy & Hxy) & Hl). split_and!; [done | | auto].
  exists x, y. split_and!; try done. by apply lookup_app_l_Some.
Qed.

Lemma committed_prefix log log' a lc l : log `prefix_of` log' -> committed_values log a lc l -> committed_values log' a lc l.
Proof.
  intros Hp (H1 & H2 & H3 & H4). pose proof (zlen_prefix _ _ Hp). split_and!; try done; [lia |].
  by eapply good_values_prefix.
Qed.

Lemma msg_rel_mono log log' lcj lcj' m am : log `prefix_of` log' -> lcj <= lcj' ->
  msg_rel log lcj m am -> msg_rel log' lcj' m am.
Proof.
  intros Hp Hl. unfold msg_rel. destruct (m_op m); try done.
  - intros (u & a & l & H1 & H0 & H2 & H3 & H4 & H5 & H6). exists u, a, l. split_and!; try done; [by eapply committed_prefix | lia].
  - intros (-> & a & H). split; [done |]. exists a. by eapply committed_prefix.
Qed.

(** ** Monitors *)

(** What survives a crash, and the numbers a crash must not lose. *)
Record base_rel (log : list Transaction) (i : Z) (n : node) (x : anode) : Prop := {
  b_rank : rank n = i;
  b_ep : a_ep x = epoch n;
  b_acc : a_acc x = accepted_pn n;
  b_lpn : a_lpn x = last_pn n;
  b_pos : 0 <= last_pn n;
  b_disk_lpn : get_num (store n) paxos_name "last_pn" = Some (last_pn n);
  b_disk : disk log (store n) (a_lc x) (a_pend x)
}.

Definition writing (n : node) : bool := is_writing n || is_writing_previous n.

(** No write is under way. *)
Definition idle (n : node) (lc : Z) : Prop :=
  last_committed n = lc /\ first_committed n = num_of (store n !! fc_key) /\ io_queue n = [] /\ io_applied n = false /\
  writing n = false.

Definition unc_rel (n : node) (u : option (Z * Transaction)) : Prop :=
  match u with
  | None => uncommitted_v n = 0 /\ uncommitted_pn n = 0 /\ uncommitted_value n = bl_empty
  | Some (p, x) => uncommitted_v n = last_committed n + 1 /\ uncommitted_pn n = p /\ uncommitted_value n = BTransaction x /\ 0 < p
  end.

Definition service_only (t : Transaction) : Prop := Forall (fun op => op_prefix op <> paxos_name) t.

Definition phase_rel (log : list Transaction) (n : node) (lc : Z) (ph : phase) : Prop :=
  match ph with
  | PCollect resp u => idle n lc /\ state n = STATE_RECOVERING /\ num_last n = Z.of_nat (size resp) /\ unc_rel n u /\
      Forall (fun e => 0 <= e.2) (peer_last_committed n)
  | PReady =>
      idle n lc /\ (state n = STATE_ACTIVE \/ state n = STATE_REFRESH) \/
      0 <= last_committed n /\ last_committed n + 1 = lc /\ writing n = true /\ io_applied n = true /\
      (exists t, io_queue n = [t]) /\
      exists x y, new_value n = BTransaction x /\ log !! Z.to_nat (last_committed n) = Some y /\ tx_eqv x y
  | PUpdate x acks => idle n lc /\ (is_updating n || is_updating_previous n) = true /\ new_value n = BTransaction x /\ accepted n = acks
  | PWrite x =>
      last_committed n = lc /\ writing n = true /\ io_applied n = false /\
      io_queue n = [put_num paxos_name "last_committed" (lc + 1) :: x] /\ new_value n = BTransaction x
  end.

Definition live_rel (log : list Transaction) (n : node) (x : anode) : Prop :=
  match mstate n with
  | MON_LEADER =>
      0 < accepted_pn n /\ (forall t, pending_proposal n = Some t -> service_only t) /\
      exists ph, a_role x = RLead (quorum n) ph /\ phase_rel log n (a_lc x) ph
  | MON_PEON => a_role x = RPeon /\ idle n (a_lc x)
  | MON_DOWN => a_role x = RNone
  | _ => a_role x = RNone /\ idle n (a_lc x)
  end.

Definition node_rel (log : list Transaction) (i : Z) (n : node) (x : anode) : Prop :=
  base_rel log i n x /\ live_rel log n x.

Lemma base_prefix log log' i n x : log `prefix_of` log' -> base_rel log i n x -> base_rel log' i n x.
Proof. intros Hp []. split; try done. by eapply disk_prefix. Qed.

Lemma live_prefix log log' n x : log `prefix_of` log' -> live_rel log n x -> live_rel log' n x.
Proof.
  intros [r ->]. unfold live_rel. destruct (mstate n); try done. intros (H1 & H2 & ph & H3 & H4). split_and!; try done.
  exists ph. split; [done |]. destruct ph; try done. destruct H4 as [| (? & ? & ? & ? & ? & y & z & ? & ? & ?)]; [by left | right].
  split_and!; try done. exists y, z. split_and!; try done. by apply lookup_app_l_Some.
Qed.

Lemma node_prefix log log' i n x : log `prefix_of` log' -> node_rel log i n x -> node_rel log' i n x.
Proof. intros Hp []. split; [by eapply base_prefix | by eapply live_prefix]. Qed.

(** ** A handler at work *)

(** The messages in a node's outbox for [y]. *)
Definition to_box (y : Z) (out : list (Z * MMonPaxos)) : list MMonPaxos :=
  omap (fun e => if decide (e.1 = y) then Some e.2 else None) out.

Section Sim.
Context (c : conf).
Context (i : Z) (N : gmap Z node).

Abbreviation step := (astep tx_eqv tx_ok (ranks c)).
Abbreviation steps := (asteps tx_eqv tx_ok (ranks c)).
Abbreviation inv := (Inv tx_eqv tx_ok (ranks c)).

Definition ech (nt : gmap (Z * Z) (list MMonPaxos)) (n : node) (x y : Z) : list MMonPaxos :=
  default [] (nt !! (x, y)) ++ (if decide (x = i) then to_box y (outbox n) else []).

Definition chans_rel (nt : gmap (Z * Z) (list MMonPaxos)) (n : node) (a : astate) : Prop :=
  forall x y, Forall2 (msg_rel (alog a) (a_lc (an a y))) (ech nt n x y) (anet a (x, y)).

Record W (nt : gmap (Z * Z) (list MMonPaxos)) (n : node) (a : astate) : Prop := {
  w_inv : inv a;
  w_base : base_rel (alog a) i n (an a i);
  w_others : forall j m, j <> i -> N !! j = Some m -> node_rel (alog a) j m (an a j);
  w_chans : chans_rel nt n a
}.

Definition wp {A : Type} (nt : gmap (Z * Z) (list MMonPaxos)) (m : M A) (Q : A -> node -> astate -> Prop) (n : node) (a : astate) : Prop :=
  match m n with
  | (Some x, n') => exists a', steps a a' /\ Q x n' a'
  | (None, n') => exists a', steps a a' /\ W nt n' a'
  end.

(** A crash here leaves a related state. *)
Definition safe (nt : gmap (Z * Z) (list MMonPaxos)) (n : node) (a : astate) : Prop := exists a', steps a a' /\ W nt n a'.

Lemma W_safe nt n a : W nt n a -> safe nt n a.
Proof. intros H. exists a. split; [apply rtc_refl | done]. Qed.

Lemma wp_ret {A} nt (x : A) (Q : A -> node -> astate -> Prop) n a : Q x n a -> wp nt (mret x) Q n a.
Proof. intros H. exists a. split; [apply rtc_refl | done]. Qed.

Lemma wp_run {A} nt (m : M A) (Q : A -> node -> astate -> Prop) x n n' a : m n = (Some x, n') -> Q x n' a -> wp nt m Q n a.
Proof. intros Hm HQ. unfold wp. rewrite Hm. exists a. split; [apply rtc_refl | done]. Qed.

Lemma wp_steps {A} nt (m : M A) Q n a a' : steps a a' -> wp nt m Q n a' -> wp nt m Q n a.
Proof.
  unfold wp. intros Hs. destruct (m n) as [[x |] n']; intros (a2 & H2 & HQ); exists a2; (split; [| done]);
    by etransitivity.
Qed.

Lemma wp_bind {A B} nt (m : M A) (f : A -> M B) Q n a :
  wp nt m (fun x n' a' => wp nt (f x) Q n' a') n a -> wp nt (m ≫= f) Q n a.
Proof.
  unfold wp at 1. intros H. unfold wp, mbind, M_bind. destruct (m n) as [[x |] n'].
  - destruct H as (a' & Hs & HQ). pose proof (wp_steps nt (f x) Q n' a a' Hs HQ) as HW. done.
  - done.
Qed.

Lemma wp_mono {A} nt (m : M A) (Q Q' : A -> node -> astate -> Prop) n a : (forall x n' a', Q x n' a' -> Q' x n' a') ->
  wp nt m Q n a -> wp nt m Q' n a.
Proof. unfold wp. intros HQ. destruct (m n) as [[x |] n']; naive_solver. Qed.

Lemma wp_self nt Q n a : Q n n a -> wp nt self Q n a.
Proof. apply (wp_ret nt n (fun x => Q x)). Qed.

Lemma wp_upd nt f (Q : unit -> node -> astate -> Prop) n a : (forall n', n' = f n -> Q tt n' a) -> wp nt (upd f) Q n a.
Proof. intros H. exists a. split; [apply rtc_refl | by apply H]. Qed.

Lemma wp_abort {A} nt (Q : A -> node -> astate -> Prop) n a : safe nt n a -> wp nt abort Q n a.
Proof. done. Qed.

Lemma wp_assert nt b (Q : unit -> node -> astate -> Prop) n a : safe nt n a -> (b = true -> Q tt n a) -> wp nt (assert b) Q n a.
Proof. intros Hs HQ. destruct b; [by apply wp_ret, HQ | by apply wp_abort]. Qed.

Lemma wp_option {A} nt (o : option A) (Q : A -> node -> astate -> Prop) n a :
  safe nt n a -> (forall x, o = Some x -> Q x n a) -> wp nt (unless_None o) Q n a.
Proof. intros Hs HQ. destruct o; [by apply wp_ret, HQ | by apply wp_abort]. Qed.

Lemma wp_when nt b m (Q : unit -> node -> astate -> Prop) n a :
  (b = true -> wp nt m Q n a) -> (b = false -> Q tt n a) -> wp nt (when b m) Q n a.
Proof. intros H1 H2. destruct b; [by apply H1 | by apply wp_ret, H2]. Qed.

(** The part of a node the crash relation reads. *)
Definition same_base (n n' : node) : Prop :=
  rank n' = rank n /\ epoch n' = epoch n /\ accepted_pn n' = accepted_pn n /\ last_pn n' = last_pn n /\
  store n' = store n /\ outbox n' = outbox n.

Lemma W_same nt n n' a : same_base n n' -> W nt n a -> W nt n' a.
Proof.
  intros (H1 & H2 & H3 & H4 & H5 & H6) [HI [] HO HC]. split; [done | | done |].
  - split; by rewrite ?H1, ?H2, ?H3, ?H4, ?H5.
  - intros x y. unfold ech. rewrite H6. apply HC.
Qed.

Lemma step_inv a a' : inv a -> step a a' -> inv a'.
Proof. apply astep_inv; [apply _ | apply tx_ok_eqv]. Qed.

(** One step of the machine, by monitor [i]. *)
Lemma W_step nt nt' n n' a a' : W nt n a -> step a a' -> base_rel (alog a') i n' (an a' i) ->
  alog a `prefix_of` alog a' -> (forall j, j <> i -> an a' j = an a j) -> chans_rel nt' n' a' -> W nt' n' a'.
Proof.
  intros [HI _ HO _] Hs Hb Hp Hj Hc. split; [by eapply step_inv | done | | done].
  intros j m Hne Hm. rewrite Hj by done. eapply node_prefix; [done |]. by apply HO.
Qed.

Lemma chans_mono nt n n' a a' : chans_rel nt n a -> anet a' = anet a -> outbox n' = outbox n ->
  alog a `prefix_of` alog a' -> (forall y, a_lc (an a y) <= a_lc (an a' y)) -> chans_rel nt n' a'.
Proof.
  intros Hc Hn Ho Hp Hl x y. unfold ech. rewrite Hn, Ho. eapply Forall2_impl; [apply Hc |].
  intros m am. by apply msg_rel_mono.
Qed.

(** Steps that leave the network alone. *)
Lemma W_local nt n n' a x : W nt n a -> step a (set_an a i x) -> outbox n' = outbox n -> a_lc (an a i) <= a_lc x ->
  base_rel (alog a) i n' x -> W nt n' (set_an a i x).
Proof.
  intros HW Hs Ho Hl Hb. eapply W_step; [done | done | | done | |].
  - by rewrite an_set_eq.
  - intros j Hj. by rewrite an_set_ne.
  - eapply chans_mono; [apply HW | done | done | done |]. intros y. destruct (decide (y = i)) as [-> |].
    + by rewrite an_set_eq.
    + by rewrite an_set_ne.
Qed.

Lemma W_role nt n a r : W nt n a -> step a (set_an a i (with_role r (an a i))) ->
  W nt n (set_an a i (with_role r (an a i))).
Proof.
  intros HW Hs. eapply W_local; [done | done | done | done |]. destruct (w_base _ _ _ HW). by split.
Qed.

Lemma W_none nt n a : W nt n a -> steps a (set_an a i (with_role RNone (an a i))) /\
  W nt n (set_an a i (with_role RNone (an a i))).
Proof. intros HW. split; [apply rtc_once; constructor | apply W_role; [done | constructor]]. Qed.

(** ** Sending *)

Lemma to_box_app y out out' : to_box y (out ++ out') = to_box y out ++ to_box y out'.
Proof. apply omap_app. Qed.

Definition neutral (log : list Transaction) (m : MMonPaxos) : Prop := forall lcj, msg_rel log lcj m AOther.

Lemma chans_send nt n n' a a' to m am : chans_rel nt n a -> outbox n' = outbox n ++ [(to, m)] ->
  anet a' = <[(i, to) := anet a (i, to) ++ [am]]> (anet a) -> alog a' = alog a ->
  (forall y, a_lc (an a y) <= a_lc (an a' y)) -> msg_rel (alog a) (a_lc (an a' to)) m am -> chans_rel nt n' a'.
Proof.
  intros Hc Ho Hn Hlog Hl Hm x y. rewrite Hlog, Hn. pose proof (Hc x y) as Hxy. unfold ech in *. rewrite Ho.
  assert (Hmono : Forall2 (msg_rel (alog a) (a_lc (an a' y)))
    (default [] (nt !! (x, y)) ++ (if decide (x = i) then to_box y (outbox n) else [])) (anet a (x, y)))
    by (eapply Forall2_impl; [done |]; intros ? ?; by apply msg_rel_mono).
  destruct (decide (x = i)) as [-> |]; [| by rewrite fn_lookup_insert_ne by congruence].
  rewrite to_box_app. cbn. destruct (decide (to = y)) as [-> |].
  - rewrite fn_lookup_insert, app_assoc. apply Forall2_app; [done |]. by repeat constructor.
  - rewrite fn_lookup_insert_ne by congruence. by rewrite app_nil_r.
Qed.

Lemma W_send nt n a to m : W nt n a -> neutral (alog a) m ->
  exists a', steps a a' /\ W nt (set_outbox (outbox n ++ [(to, m)]) n) a' /\ an a' = an a /\ alog a' = alog a.
Proof.
  intros HW Hm. exists (set_chan a i to (anet a (i, to) ++ [AOther])).
  assert (Hs : step a (set_chan a i to (anet a (i, to) ++ [AOther]))) by constructor.
  split_and!; [by apply rtc_once | | done | done].
  eapply W_step; [done | done | destruct (w_base _ _ _ HW); by split | done | done |].
  eapply chans_send; [apply HW | done | done | done | done | apply Hm].
Qed.

Lemma W_sends nt n a tos m : W nt n a -> neutral (alog a) m ->
  exists a', steps a a' /\ W nt (set_outbox (outbox n ++ map (fun p => (p, m)) tos) n) a' /\ an a' = an a /\ alog a' = alog a.
Proof.
  intros HW Hm. revert n a HW Hm. induction tos as [| to tos IH]; intros n a HW Hm.
  - exists a. split_and!; [apply rtc_refl | | done | done]. cbn. eapply W_same; [| done].
    unfold same_base. cbn. by rewrite app_nil_r.
  - destruct (W_send nt n a to m HW Hm) as (a1 & Hs1 & HW1 & Hn1 & Hl1).
    destruct (IH _ a1 HW1 ltac:(by rewrite Hl1)) as (a2 & Hs2 & HW2 & Hn2 & Hl2).
    exists a2. split_and!; [by etransitivity | | congruence | congruence]. eapply W_same; [| done].
    unfold same_base. cbn. by rewrite <- app_assoc.
Qed.

Lemma to_box_map y (m : MMonPaxos) (tos : list Z) : NoDup tos ->
  to_box y (map (fun p => (p, m)) tos) = if bool_decide (y ∈ tos) then [m] else [].
Proof.
  induction 1 as [| to tos Hto _ IH]; [done |]. cbn [map]. unfold to_box in *. csimpl. rewrite IH.
  destruct (decide (to = y)) as [-> |].
  - rewrite bool_decide_eq_false_2 by done. rewrite bool_decide_eq_true_2 by set_solver. done.
  - by rewrite (bool_decide_ext (y ∈ to :: tos) (y ∈ tos)) by set_solver.
Qed.

(** A broadcast to the quorum, with the abstract message [am]. *)
Lemma chans_bcast nt n n' a a' q m am : chans_rel nt n a -> rank n = i -> quorum n = q ->
  anet a' = bcast i q am (anet a) -> outbox n' = outbox n ++ map (fun p => (p, m)) (others n) ->
  alog a' = alog a -> (forall y, a_lc (an a y) <= a_lc (an a' y)) -> (forall lcj, msg_rel (alog a) lcj m am) ->
  chans_rel nt n' a'.
Proof.
  intros Hc Hr Hq Hn Ho Hlog Hl Hm x y. rewrite Hlog, Hn. pose proof (Hc x y) as Hxy. unfold ech in *. rewrite Ho.
  assert (Hmono : Forall2 (msg_rel (alog a) (a_lc (an a' y)))
    (default [] (nt !! (x, y)) ++ (if decide (x = i) then to_box y (outbox n) else [])) (anet a (x, y)))
    by (eapply Forall2_impl; [done |]; intros ? ?; by apply msg_rel_mono).
  destruct (decide (x = i)) as [-> |]; [| by rewrite bcast_other].
  rewrite to_box_app, to_box_map.
  2: { unfold others. apply NoDup_filter, NoDup_elements. }
  unfold bcast. cbn [fst snd]. rewrite (bool_decide_ext (y ∈ others n) (i = i /\ y <> i /\ y ∈ q)).
  2: { unfold others. rewrite list_elem_of_filter, elem_of_elements, Hr, Hq. tauto. }
  case_bool_decide; [| by rewrite app_nil_r]. rewrite app_assoc. apply Forall2_app; [done |]. by repeat constructor.
Qed.

(** ** Taking a message *)

Section Pop.
Context (from : Z) (m : MMonPaxos) (q : list MMonPaxos) (nt : gmap (Z * Z) (list MMonPaxos)).
Hypothesis Hhead : nt !! (from, i) = Some (m :: q).

Abbreviation nt' := (<[(from, i) := q]> nt).

Lemma pop_head n a : W nt n a -> exists am l, anet a (from, i) = am :: l /\ msg_rel (alog a) (a_lc (an a i)) m am.
Proof.
  intros HW. pose proof (w_chans _ _ _ HW from i) as Hc. unfold ech in Hc. rewrite Hhead in Hc. cbn in Hc.
  apply Forall2_cons_inv_l in Hc as (am & l & Hm & _ & ->). eauto.
Qed.

(** The channels once the head is gone. *)
Lemma pop_chans n a : chans_rel nt n a -> chans_rel nt' n (set_chan a from i (tail (anet a (from, i)))).
Proof.
  intros Hc x y. pose proof (Hc x y) as Hxy. unfold ech in *. cbn [set_chan alog an anet].
  destruct (decide ((x, y) = (from, i))) as [[= -> ->] | Hne].
  - rewrite lookup_insert_eq, fn_lookup_insert. rewrite Hhead in Hxy. cbn in Hxy |- *.
    apply Forall2_cons_inv_l in Hxy as (am & l & _ & Hl & ->). done.
  - rewrite lookup_insert_ne, fn_lookup_insert_ne by congruence. done.
Qed.

Lemma W_pop n a : W nt n a ->
  exists a', steps a a' /\ W nt' n a' /\ an a' = an a /\ alog a' = alog a.
Proof.
  intros HW. destruct (pop_head n a HW) as (am & l & Hm & _). exists (set_chan a from i (tail (anet a (from, i)))).
  assert (Hs : step a (set_chan a from i (tail (anet a (from, i))))).
  { pose proof (S_drop tx_eqv tx_ok (ranks c) a from i 0) as H. by rewrite Hm in *. }
  split_and!; [by apply rtc_once | | done | done].
  eapply W_step; [done | done | apply HW | done | done |]. apply pop_chans, HW.
Qed.

Lemma pop_safe n a : W nt n a -> safe nt' n a.
Proof. intros HW. destruct (W_pop n a HW) as (a' & Hs & HW' & _). by exists a'. Qed.
End Pop.
End Sim.
