(* ===== verification/PaxosSimOps.v ===== *)
(** * The monitors implement the protocol: operations

    The operations the handlers are made of, each followed by the steps of the
    protocol it performs. *)

From stdpp Require Import strings functions sorting relations.
From S2P Require Import Prelude MonitorDBStore Paxos PaxosSystem PaxosSpec PaxosInv PaxosDisk PaxosSim.

(** The fields of a node the relation reads, apart from its outbox. *)
Definition core (n : node) :=
  (mstate n, epoch n, quorum n, (store n, io_queue n, io_applied n), (state n, first_committed n, last_committed n),
   (last_pn n, accepted_pn n, num_last n), (uncommitted_v n, uncommitted_pn n, uncommitted_value n),
   (new_value n, accepted n, pending_proposal n, rank n, peer_last_committed n)).

(** [core_eqs H] opens an equation between cores. *)
Ltac core_eqs H := unfold core in H; cbn in H; injection H; clear H; intros.

Lemma core_live log n n' x : core n' = core n -> live_rel log n x -> live_rel log n' x.
Proof.
  unfold core. intros [= H1 H2 H3 H4 H5 H6 H7 H8 H9 H10 H11 H12 H13 H14 H15 H16 H17 H18 H19 H20].
  unfold live_rel, phase_rel, idle, unc_rel, writing, is_writing, is_writing_previous, is_updating, is_updating_previous.
  by rewrite H1, H3, H4, H5, H6, H7, H8, H9, H11, H12, H13, H14, H15, H16, H17, H18, H20.
Qed.

Lemma core_same n n' : core n' = core n -> outbox n' = outbox n -> same_base n n'.
Proof. unfold core, same_base. by intros [=] ->. Qed.

Lemma idle_eq n n' lc : last_committed n' = last_committed n -> first_committed n' = first_committed n ->
  store n' = store n -> io_queue n' = io_queue n -> io_applied n' = io_applied n ->
  (state n' = state n \/ writing n' = false) -> idle n lc -> idle n' lc.
Proof.
  intros H1 H2 H3 H4 H5 H6 (? & ? & ? & ? & Hw). unfold idle. rewrite H1, H2, H3, H4, H5. split_and!; try done.
  destruct H6 as [H6 |]; [| done]. unfold writing, is_writing, is_writing_previous in *. by rewrite H6.
Qed.

(** Computations that change nothing the relation reads. *)
Definition quiet (m : M unit) : Prop := forall n, exists n', m n = (Some tt, n') /\ core n' = core n /\ outbox n' = outbox n.

Lemma quiet_upd f : (forall n, core (f n) = core n /\ outbox (f n) = outbox n) -> quiet (upd f).
Proof. intros H n. exists (f n). split; [done | apply H]. Qed.

Lemma finish_contexts_run r fs n : exists n', finish_contexts fs r n = (Some tt, n') /\ core n' = core n /\ outbox n' = outbox n.
Proof.
  unfold finish_contexts, upd. eexists. split; [done |]. revert n. induction fs as [| f fs IH]; intros n; [done |].
  cbn. destruct (IH (finish_context r n f)) as [-> ->]. by destruct f.
Qed.

Lemma cancel_events_quiet : quiet cancel_events.
Proof. by apply quiet_upd. Qed.

Lemma reset_lease_timeout_quiet : quiet reset_lease_timeout.
Proof. by apply quiet_upd. Qed.

Lemma reset_finishers_quiet : quiet reset_pending_committing_finishers.
Proof.
  intros n.
  assert (H : reset_pending_committing_finishers n = finish_contexts (committing_finishers n ++ pending_finishers n)
    (- EAGAIN) (set_pending_finishers [] (set_committing_finishers [] n))) by reflexivity.
  rewrite H. destruct (finish_contexts_run (- EAGAIN) (committing_finishers n ++ pending_finishers n)
    (set_pending_finishers [] (set_committing_finishers [] n))) as (n' & -> & Hc & Ho). by exists n'.
Qed.

Lemma queue_finisher_quiet f : quiet (queue_pending_finisher f).
Proof. by apply quiet_upd. Qed.

(** [paxos] collects the computations without effect on the relation. *)
Create HintDb paxos.
#[export] Hint Resolve cancel_events_quiet reset_lease_timeout_quiet reset_finishers_quiet queue_finisher_quiet : paxos.

Section Ops.
Context (c : conf) (e : env).
Hypothesis Hsize : 1 < monmap_size c <= 100.
Hypothesis Htrim : 0 <= paxos_min c /\ 0 <= paxos_trim_min c /\ paxos_min c + paxos_trim_min c < 2 ^ 31.
Context (i : Z) (N : gmap Z node).

Abbreviation step := (astep tx_eqv tx_ok (ranks c)).
Abbreviation steps := (asteps tx_eqv tx_ok (ranks c)).
Abbreviation inv := (Inv tx_eqv tx_ok (ranks c)).
Abbreviation W := (W c i N).
Abbreviation wp := (wp c i N).
Abbreviation safe := (safe c i N).

Lemma wp_quiet nt m (Q : unit -> node -> astate -> Prop) n a : quiet m ->
  (forall n', core n' = core n -> outbox n' = outbox n -> Q tt n' a) -> wp nt m Q n a.
Proof. intros Hm HQ. unfold PaxosSim.wp. destruct (Hm n) as (n' & -> & Hc & Ho). exists a. split; [apply rtc_refl | auto]. Qed.

(** The full relation of a monitor at rest. *)
Definition R (nt : gmap (Z * Z) (list MMonPaxos)) (n : node) (a : astate) : Prop :=
  W nt n a /\ live_rel (alog a) n (an a i) /\ mstate n <> MON_DOWN.

Lemma R_core nt n n' a : core n' = core n -> outbox n' = outbox n -> R nt n a -> R nt n' a.
Proof.
  intros Hc Ho (HW & HL & Hd). split_and!; [eapply W_same, HW; by apply core_same | by eapply core_live |].
  unfold core in Hc. congruence.
Qed.

(** ... with no write under way. *)
Definition Ri (nt : gmap (Z * Z) (list MMonPaxos)) (n : node) (a : astate) : Prop := R nt n a /\ idle n (a_lc (an a i)).

(** ** Leases *)

Definition lease_msg (ep fc lc ts : Z) (op : paxos_op) : MMonPaxos :=
  {| m_epoch := ep; m_op := op; m_first_committed := fc; m_last_committed := lc; m_pn_from := 0; m_pn := 0;
     m_uncommitted_pn := 0; m_lease_timestamp := ts; m_values := [] |}.

Lemma wp_extend_lease nt (Q : unit -> node -> astate -> Prop) n a : W nt n a ->
  (forall n' a', W nt n' a' -> core n' = core n -> an a' = an a -> alog a' = alog a -> Q tt n' a') ->
  wp nt (extend_lease c e) Q n a.
Proof.
  intros HW HQ. unfold extend_lease.
  apply wp_bind, wp_self, wp_bind, wp_assert; [by apply W_safe | intros _].
  apply wp_bind, wp_upd. intros n1 Hn1. apply wp_bind.
  assert (HW1 : W nt n1 a) by (eapply W_same; [| done]; by rewrite Hn1).
  destruct (W_sends c i N nt n1 a (others n1) (lease_msg (epoch n) (first_committed n) (last_committed n)
    (now e + mon_lease c) OP_LEASE) HW1) as (a2 & Hs & HW2 & Hn2 & Hl2); [done |].
  eapply wp_steps; [done |]. apply wp_upd. intros n2 ->. apply wp_bind, wp_upd. intros n3 ->. apply wp_upd. intros n4 ->.
  apply HQ; [| by rewrite Hn1 | done | done]. eapply W_same, HW2. done.
Qed.

(** ** Phase 2 *)

Lemma size_ranks : Z.of_nat (size (ranks c)) = monmap_size c.
Proof.
  unfold ranks. rewrite size_list_to_set by apply NoDup_seqZ. rewrite length_seqZ. lia.
Qed.

Lemma maj_size q : maj (ranks c) q -> 1 < Z.of_nat (size q).
Proof. intros [_ H]. pose proof size_ranks. lia. Qed.

Lemma lead_size n a ph : inv a -> a_role (an a i) = RLead (quorum n) ph -> 1 < quorum_size n.
Proof. intros HI Hr. destruct (I_lead _ _ _ _ HI i _ _ Hr) as (Hq & _). by apply maj_size. Qed.

Definition begin_msg (ep lc pn : Z) (v : bufferlist) : MMonPaxos :=
  {| m_epoch := ep; m_op := OP_BEGIN; m_first_committed := 0; m_last_committed := lc; m_pn_from := 0; m_pn := pn;
     m_uncommitted_pn := 0; m_lease_timestamp := 0; m_values := [(lc + 1, v)] |}.

Definition accept_tx (lc pn : Z) (v : bufferlist) : Transaction :=
  [put_ver paxos_name (lc + 1) v; put_num paxos_name "pending_v" (lc + 1); put_num paxos_name "pending_pn" pn].

Lemma accept_tx_last_pn lc pn v s :
  get_num (apply_transaction (accept_tx lc pn v) s) paxos_name "last_pn" = get_num s paxos_name "last_pn".
Proof. unfold accept_tx. by key_simpl. Qed.

Lemma W_begin nt n n' a y : W nt n a -> step a (beginning a i (quorum n) y) -> last_committed n = a_lc (an a i) ->
  0 < accepted_pn n -> rank n' = rank n -> epoch n' = epoch n -> accepted_pn n' = accepted_pn n -> last_pn n' = last_pn n ->
  store n' = apply_transaction (accept_tx (last_committed n) (accepted_pn n) (BTransaction y)) (store n) ->
  outbox n' = outbox n ++ map (fun p => (p, begin_msg (epoch n) (last_committed n) (accepted_pn n) (BTransaction y))) (others n) ->
  W nt n' (beginning a i (quorum n) y).
Proof.
  intros HW Hs Hlc Hpos Hr He Hacc Hlpn Hst Ho. destruct (w_base _ _ _ _ _ _ HW) as [B1 B2 B3 B4 B5 B6 B7].
  eapply W_step; [done | done | | done | |].
  - cbn. fn_simpl. split; cbn; try congruence.
    + rewrite Hst, accept_tx_last_pn. congruence.
    + rewrite Hst, Hlc, B3. by eapply disk_accept.
  - intros j Hj. cbn. by fn_simpl.
  - eapply chans_bcast; [apply HW | done | done | | exact Ho | done | |].
    + cbn. rewrite B2, B3, <- Hlc. reflexivity.
    + intros y'. cbn. destruct (decide (i = y')) as [<- |]; fn_simpl; done.
    + intros lcj. cbn. exists y. split_and!; [done | | done]. by rewrite Z.eqb_refl.
Qed.

(** The value [begin] proposes: the first one carries [first_committed]. *)
Definition first_wrap (lc : Z) (x : Transaction) : Transaction :=
  if lc =? 0 then put_num paxos_name "first_committed" 1 :: x else x.

Definition can_begin (n : node) (a : astate) (x : Transaction) : Prop :=
  exists ph, a_role (an a i) = RLead (quorum n) ph /\
  (ph = PReady /\ tx_ok (take (Z.to_nat (a_lc (an a i))) (alog a)) (first_wrap (a_lc (an a i)) x) \/
   exists p, ph = PCollect (quorum n) (Some (p, x))).

Lemma can_begin_step n a x : inv a -> can_begin n a x -> step a (beginning a i (quorum n) (first_wrap (a_lc (an a i)) x)).
Proof.
  intros HI (ph & Hr & [[-> Hok] | [p ->]]); [by apply S_begin |].
  apply S_again with (p := p) (x := x); [done |].
  destruct (I_lead _ _ _ _ HI i _ _ Hr) as (_ & _ & _ & _ & (_ & _ & _ & Hu & _) & _).
  destruct (Hu p x eq_refl) as [Hp _]. destruct (I_prop _ _ _ _ HI _ _ _ Hp) as (_ & Hok & _).
  rewrite Z.add_simpl_r in Hok. unfold first_wrap. destruct (Z.eqb_spec (a_lc (an a i)) 0) as [E |]; [| done].
  symmetry. apply (ok_first _ _ Hok). by rewrite E.
Qed.

Definition pending_ok (n : node) : Prop := forall t, pending_proposal n = Some t -> service_only t.

Lemma pending_eq n n' : pending_proposal n' = pending_proposal n -> pending_ok n -> pending_ok n'.
Proof. unfold pending_ok. by intros ->. Qed.

Lemma wp_begin nt x (Q : unit -> node -> astate -> Prop) n a : W nt n a -> mstate n = MON_LEADER ->
  idle n (a_lc (an a i)) -> 0 < accepted_pn n -> pending_ok n -> can_begin n a x ->
  (forall n' a', Ri nt n' a' -> Q tt n' a') -> wp nt (begin c (BTransaction x)) Q n a.
Proof.
  intros HW Hm (Hlc & Hfc & Hq & Hap & Hwr) Hpos Hpd Hcb HQ.
  pose proof (w_inv _ _ _ _ _ _ HW) as HI. pose proof (can_begin_step n a x HI Hcb) as Hstep.
  destruct Hcb as (ph & Hr & _). pose proof (lead_size n a ph HI Hr) as Hqs.
  unfold begin. apply wp_bind, wp_self.
  apply wp_bind, wp_assert; [by apply W_safe | intros _].
  apply wp_bind, wp_assert; [by apply W_safe | intros Hst].
  apply wp_bind, wp_assert; [by apply W_safe | intros _].
  apply wp_bind, wp_assert; [by apply W_safe | intros _].
  apply wp_bind, wp_upd. intros n1 Hn1. apply wp_bind.
  set (y := first_wrap (a_lc (an a i)) x) in *.
  assert (Hk : forall Q', (forall n2, n2 = set_new_value (BTransaction y) n1 -> Q' tt n2 a) ->
    wp nt (when (last_committed n =? 0) (t ← decode (BTransaction x);
      upd (set_new_value (BTransaction (put_num paxos_name "first_committed" 1 :: t))))) Q' n1 a).
  { intros Q' HQ'. unfold y, first_wrap in HQ'. rewrite <- Hlc in HQ'. apply wp_when; intros Hb; rewrite Hb in HQ'.
    - by apply wp_bind, wp_ret, wp_upd.
    - apply HQ'. by rewrite Hn1. }
  apply Hk. intros n2 Hn2. apply wp_bind, wp_self. apply wp_bind, wp_upd. intros n3 Hn3.
  replace (quorum_size n2 =? 1) with false by (unfold quorum_size in *; rewrite Hn2, Hn1; cbn; lia).
  apply wp_bind, wp_upd. intros n4 Hn4.
  assert (HW4 : W nt n4 (beginning a i (quorum n) y)).
  { eapply W_begin; [done | done | done | done | rewrite Hn4, Hn3, Hn2, Hn1; done ..]. }
  eapply wp_steps; [by apply rtc_once |]. apply wp_upd. intros n5 Hn5. apply HQ.
  assert (Hid4 : idle n4 (a_lc (an a i))).
  { unfold idle. rewrite Hn4, Hn3, Hn2, Hn1. split_and!; try done. change (first_committed n = num_of (apply_transaction
      (accept_tx (last_committed n) (accepted_pn n) (BTransaction y)) (store n) !! fc_key)). rewrite Hfc, apply_at. unfold accept_tx, fc_key.
    rewrite !tx_at_cons, op_put_ver, !op_put_num. by rewrite !decide_False by key_ne. }
  rewrite Hn5. clear n5 Hn5.
  assert (Hlc' : a_lc (an (beginning a i (quorum n) y) i) = a_lc (an a i)) by (cbn; by fn_simpl).
  split; [apply R_core with (n := n4); [done | done |] | by rewrite Hlc'].
  split_and!; [done | | by rewrite Hn4, Hn3, Hn2, Hn1; cbn; rewrite Hm].
  unfold live_rel. replace (mstate n4) with MON_LEADER by (by rewrite Hn4, Hn3, Hn2, Hn1).
  split_and!; [by rewrite Hn4, Hn3, Hn2, Hn1 | rewrite Hn4, Hn3, Hn2, Hn1; exact Hpd |].
  exists (PUpdate y {[i]}). rewrite Hlc'. split; [cbn; fn_simpl; by rewrite Hn4, Hn3, Hn2, Hn1 |].
  split; [done |]. rewrite Hn4, Hn3, Hn2, Hn1.
  split_and!; try done. cbn. by rewrite (b_rank _ _ _ _ (w_base _ _ _ _ _ _ HW)).
Qed.

Lemma inv_log_ok a : inv a -> log_ok (alog a).
Proof.
  intros HI v x Hv Hx. destruct (I_log _ _ _ _ HI v x Hv Hx) as (p & q & y & _ & Hy & Hyx & _).
  destruct (I_prop _ _ _ _ HI _ _ _ Hy) as (_ & Hok & _). by eapply tx_ok_eqv.
Qed.

Lemma s32_le z : 0 <= z -> s32 z <= z.
Proof. intros Hz. unfold s32. pose proof (Z.mod_le (z + 2 ^ 31) (2 ^ 32)). lia. Qed.

Lemma u64_le z : 0 <= z -> u64 z <= z.
Proof. intros Hz. by apply Z.mod_le. Qed.

(** A trim stays below the last committed version. *)
Lemma trim_end n : should_trim c n = true -> 0 <= first_committed n <= last_committed n ->
  Z.min (u64 (last_committed n - paxos_min c)) (u64 (first_committed n + paxos_trim_max c)) <= last_committed n.
Proof.
  unfold should_trim. intros [_ Hs]%negb_true_iff%orb_false_iff Hfc. apply Z.leb_gt in Hs.
  rewrite (s32_id (paxos_min c + paxos_trim_min c)) in Hs by (unfold is_s32; lia).
  pose proof (s32_le (last_committed n - first_committed n)). pose proof (u64_le (last_committed n - paxos_min c)). lia.
Qed.

(** What may be pending when a proposal is made. *)
Definition proposable (n : node) (t : Transaction) : Prop :=
  service_only t \/ exists t' end_, t = t' ++ trim_ops c (first_committed n) end_ /\ service_only t' /\
    first_committed n < end_ <= last_committed n.

Lemma proposable_ok nt n a t : W nt n a -> idle n (a_lc (an a i)) -> proposable n t ->
  tx_ok (take (Z.to_nat (a_lc (an a i))) (alog a)) (first_wrap (a_lc (an a i)) t).
Proof.
  intros HW (Hlc & Hfc & _) Ht. pose proof (b_disk _ _ _ _ (w_base _ _ _ _ _ _ HW)) as Hd.
  pose proof (inv_log_ok a (w_inv _ _ _ _ _ _ HW)) as Hok. pose proof (disk_fc_le _ _ _ _ Hok Hd) as Hb.
  unfold first_wrap. destruct (Z.eqb_spec (a_lc (an a i)) 0) as [E |].
  - rewrite E. apply tx_ok_first. destruct Ht as [| (t' & end_ & _ & _ & ?)]; [done | lia].
  - destruct Hd as (Hl & Hg & Hbd & Hp). destruct (disk_fc _ _ _ _ Hok (conj Hl (conj Hg (conj Hbd Hp)))) as (f & Hf & Hfb); [lia |].
    rewrite Hf in Hfc. cbn in Hfc. rewrite (d_svc _ _ _ Hbd) in Hf by auto.
    assert (Hz : zlen (take (Z.to_nat (a_lc (an a i))) (alog a)) = a_lc (an a i)).
    { unfold zlen in *. rewrite length_take. lia. }
    destruct Ht as [| (t' & end_ & -> & Ht' & He)].
    + eapply tx_ok_service; [done | done | lia].
    + rewrite Hfc in *. eapply tx_ok_trim; [done | done | lia | lia].
Qed.

(** The leader between two rounds. *)
Definition ready (nt : gmap (Z * Z) (list MMonPaxos)) (n : node) (a : astate) : Prop :=
  W nt n a /\ mstate n = MON_LEADER /\ a_role (an a i) = RLead (quorum n) PReady /\ idle n (a_lc (an a i)) /\
  0 < accepted_pn n.

Lemma ready_R nt n a : ready nt n a -> pending_ok n -> (state n = STATE_ACTIVE \/ state n = STATE_REFRESH) -> R nt n a.
Proof.
  intros (HW & Hm & Hr & Hid & Hpos) Hpd Hst. split_and!; [done | | congruence].
  unfold live_rel. rewrite Hm. split_and!; [done | done |]. exists PReady. split; [done | by left].
Qed.

(** [core] without the transaction that is pending. *)
Lemma ready_core nt n n' a : core n' = core (set_pending_proposal (pending_proposal n') n) -> outbox n' = outbox n ->
  ready nt n a -> ready nt n' a.
Proof.
  intros Hc Ho (HW & Hm & Hr & Hid & Hpos).
  core_eqs Hc. split_and!; [eapply W_same, HW; by unfold same_base; split_and! | ..]; try congruence.
  eapply idle_eq, Hid; by auto.
Qed.

Lemma wp_propose_pending nt (Q : unit -> node -> astate -> Prop) n a : ready nt n a ->
  (forall t, pending_proposal n = Some t -> proposable n t) ->
  (forall n' a', Ri nt n' a' -> Q tt n' a') -> wp nt (propose_pending c) Q n a.
Proof.
  intros (HW & Hm & Hr & Hid & Hpos) Hpd HQ. unfold propose_pending. apply wp_bind, wp_self.
  apply wp_bind, wp_assert; [by apply W_safe | intros _].
  apply wp_bind, wp_option; [by apply W_safe | intros t Ht].
  apply wp_bind, wp_quiet; [auto with paxos | intros n1 Hc1 Ho1].
  apply wp_bind, wp_upd. intros n2 Hn2. apply wp_bind, wp_upd. intros n3 Hn3. apply wp_bind, wp_upd. intros n4 Hn4.
  core_eqs Hc1.
  assert (Hb4 : same_base n n4) by (rewrite Hn4, Hn3, Hn2; by unfold same_base; split_and!).
  assert (Hid4 : idle n4 (a_lc (an a i))).
  { rewrite Hn4, Hn3, Hn2. eapply idle_eq, Hid; cbn; auto. }
  assert (HW4 : W nt n4 a) by (by eapply W_same).
  apply wp_begin; [done | | done | | | | done]; rewrite Hn4, Hn3, Hn2.
  - cbn. congruence.
  - cbn. congruence.
  - by intros t'.
  - exists PReady. cbn. split; [congruence |]. left. split; [done |]. apply (proposable_ok nt n a t); auto.
Qed.

Lemma wp_get_pending nt (Q : Transaction -> node -> astate -> Prop) n a : ready nt n a -> pending_ok n ->
  (forall t n', ready nt n' a -> core n' = core (set_pending_proposal (Some t) n) -> service_only t -> Q t n' a) ->
  wp nt get_pending_transaction Q n a.
Proof.
  intros HR Hpd HQ. pose proof HR as (HW & Hm & _). unfold get_pending_transaction. apply wp_bind, wp_self.
  apply wp_bind, wp_assert; [by apply W_safe | intros _]. destruct (pending_proposal n) as [t |] eqn:Ht.
  - apply wp_ret, HQ; [done | unfold core; cbn; congruence | by apply Hpd].
  - apply wp_bind, wp_upd. intros n1 Hn1.
    assert (HR1 : ready nt n1 a) by (eapply ready_core, HR; by rewrite Hn1).
    apply wp_bind, wp_assert; [apply W_safe, HR1 | intros _]. apply wp_ret, HQ; [done | by rewrite Hn1 | constructor].
Qed.

Lemma wp_trim nt (Q : unit -> node -> astate -> Prop) n a : ready nt n a -> pending_ok n ->
  (forall n', ready nt n' a -> state n' = state n -> (forall t, pending_proposal n' = Some t -> proposable n' t) ->
     Q tt n' a) -> wp nt (trim c) Q n a.
Proof.
  intros HR Hpd HQ. pose proof HR as (HW & _ & _ & Hid & _). unfold trim. apply wp_bind, wp_self.
  apply wp_bind, wp_assert; [by apply W_safe | intros Hs].
  pose proof (disk_fc_le _ _ _ _ (inv_log_ok a (w_inv _ _ _ _ _ _ HW)) (b_disk _ _ _ _ (w_base _ _ _ _ _ _ HW))) as Hfc.
  destruct Hid as (Hlc & Hf & _). rewrite <- Hf, <- Hlc in Hfc. pose proof (trim_end n Hs Hfc) as Hend.
  set (end_ := Z.min _ _) in *. destruct (Z.leb_spec end_ (first_committed n)) as [| Hlt].
  - apply wp_ret, HQ; [done | done |]. intros t Ht. left. by apply Hpd.
  - apply wp_bind, wp_get_pending; [done | done |]. intros t n1 HR1 Hc1 Ht. core_eqs Hc1.
    apply wp_bind, wp_upd. intros n2 Hn2. apply wp_bind, wp_upd. intros n3 Hn3.
    apply wp_quiet; [auto with paxos |]. intros n4 Hc4 Ho4. rewrite Hn3, Hn2 in Hc4. core_eqs Hc4.
    apply HQ; [| congruence |].
    + eapply ready_core, HR1; [| by rewrite Ho4, Hn3, Hn2]. unfold core. cbn. congruence.
    + intros t' Ht'. right. exists t, end_. split_and!; [congruence | done | lia | lia].
Qed.

Lemma wp_finish_round nt (Q : unit -> node -> astate -> Prop) n a : ready nt n a -> pending_ok n ->
  (forall n' a', Ri nt n' a' -> Q tt n' a') -> wp nt (finish_round c) Q n a.
Proof.
  intros HR Hpd HQ. pose proof HR as (HW & _ & _ & Hid & _). unfold finish_round. apply wp_bind, wp_self.
  apply wp_bind, wp_assert; [by apply W_safe | intros _].
  apply wp_bind, wp_upd. intros n1 Hn1.
  assert (HR1 : ready nt n1 a).
  { destruct HR as (_ & Hm & Hr & _ & Hpos). rewrite Hn1.
    split; [eapply W_same; [| exact HW]; done |]. split; [done |]. split; [done |]. split; [| done].
    eapply idle_eq, Hid; cbn; auto. }
  assert (Hpd1 : pending_ok n1) by (rewrite Hn1; exact Hpd).
  apply wp_bind, wp_self. apply wp_bind.
  assert (Hk : forall n2, ready nt n2 a -> state n2 = STATE_ACTIVE ->
    (forall t, pending_proposal n2 = Some t -> proposable n2 t) ->
    wp nt (n ← self; when (is_active n && bool_decide (is_Some (pending_proposal n))) (propose_pending c)) Q n2 a).
  { intros n2 HR2 Hst2 Hpd2. apply wp_bind, wp_self, wp_when; intros Hb.
    - by apply wp_propose_pending.
    - apply HQ; split; [apply ready_R; [done | | by left] | apply HR2]. intros t Ht. exfalso. unfold is_active in Hb. rewrite Hst2, Ht in Hb. done. }
  apply wp_when; intros _.
  - apply wp_trim; [done | done |]. intros n2 HR2 Hst2 Hpd2. apply Hk; [done | by rewrite Hst2, Hn1 | done].
  - apply Hk; [done | by rewrite Hn1 |]. intros t Ht. left. by apply Hpd1.
Qed.
End Ops.
