(* ===== verification/PaxosSimCommit.v ===== *)
(** * The monitors implement the protocol: commits and resets

    The leader's write of a value that was accepted, its completion, and the
    resets that wait for one. *)

From stdpp Require Import strings functions sorting relations.
From S2P Require Import Prelude MonitorDBStore Paxos PaxosSystem PaxosSpec PaxosInv PaxosDisk PaxosSim PaxosSimOps.

Section Commit.
Context (c : conf) (e : env).
Hypothesis Hsize : 1 < monmap_size c <= 100.
Hypothesis Htrim : 0 <= paxos_min c /\ 0 <= paxos_trim_min c /\ paxos_min c + paxos_trim_min c < 2 ^ 31.
Context (i : Z) (N : gmap Z node).

Abbreviation step := (astep tx_eqv tx_ok (ranks c)).
Abbreviation steps := (asteps tx_eqv tx_ok (ranks c)).
Abbreviation inv := (Inv tx_eqv tx_ok (ranks c)).
Abbreviation W := (W c i N).
Abbreviation wp := (wp c i N).
Abbreviation R := (R c i N).
Abbreviation Ri := (Ri c i N).
Abbreviation ready := (ready c i N).

(** ** Resets without a write to wait for *)

Lemma writing_eq n n' : state n' = state n -> writing n' = writing n.
Proof. unfold writing, is_writing, is_writing_previous. by intros ->. Qed.

Definition cleared (n : node) : node := set_pending_proposal None (set_state STATE_RECOVERING (set_new_value bl_empty n)).

Lemma wp_restart_idle nt fl (Q : unit -> node -> astate -> Prop) n a : writing n = false ->
  (forall n', core n' = core (cleared n) -> outbox n' = outbox n -> Q tt n' a) -> wp nt (restart_with fl) Q n a.
Proof.
  intros Hw HQ. unfold restart_with.
  apply wp_bind, wp_quiet; [auto with paxos | intros n1 Hc1 Ho1]. core_eqs Hc1.
  apply wp_bind, wp_upd. intros n2 Hn2. apply wp_bind, wp_self, wp_bind.
  replace (is_writing n2 || is_writing_previous n2) with false.
  2: { symmetry. fold (writing n2). rewrite <- Hw. apply writing_eq. by rewrite Hn2. }
  apply wp_ret. apply wp_bind, wp_upd. intros n3 Hn3. apply wp_bind, wp_upd. intros n4 Hn4.
  apply wp_quiet; [auto with paxos | intros n5 Hc5 Ho5]. apply HQ.
  - rewrite Hc5, Hn4, Hn3, Hn2. unfold core. cbn. congruence.
  - rewrite Ho5, Hn4, Hn3, Hn2. done.
Qed.

(** A monitor outside the quorum. *)
Lemma out_Ri nt n n' a : W nt n a -> a_role (an a i) = RNone -> idle n (a_lc (an a i)) ->
  (mstate n' = MON_PROBING \/ mstate n' = MON_ELECTING) ->
  core n' = core (set_mstate (mstate n') (set_quorum (quorum n') (cleared n))) -> outbox n' = outbox n -> Ri nt n' a.
Proof.
  intros HW Hr Hid Hm Hc Ho. core_eqs Hc.
  assert (Hid' : idle n' (a_lc (an a i))).
  { eapply idle_eq, Hid; try done. right. by rewrite (writing_eq (cleared n) n'). }
  split; [| done]. split_and!; [eapply W_same, HW; by unfold same_base; split_and! | | by destruct Hm as [-> | ->]].
  unfold live_rel. by destruct Hm as [-> | ->].
Qed.

Lemma wp_none {A} nt (m : M A) Q n a : W nt n a ->
  (forall a', W nt n a' -> a_role (an a' i) = RNone -> a_lc (an a' i) = a_lc (an a i) -> wp nt m Q n a') -> wp nt m Q n a.
Proof.
  intros HW H. destruct (W_none c i N nt n a HW) as [Hs HW']. eapply wp_steps; [done |].
  apply H; [done | by rewrite an_set_eq ..].
Qed.

Lemma wp_reset_idle nt fl (Q : unit -> node -> astate -> Prop) n a : writing n = false ->
  (forall n', core n' = core (set_quorum ∅ (cleared n)) -> outbox n' = outbox n -> Q tt n' a) -> wp nt (reset_with fl) Q n a.
Proof.
  intros Hw HQ. unfold reset_with. apply wp_bind, wp_upd. intros n1 Hn1.
  apply wp_restart_idle; [by rewrite Hn1 |]. intros n2 Hc2 Ho2. apply HQ; [rewrite Hc2 | rewrite Ho2]; by rewrite Hn1.
Qed.

(** [Monitor::bootstrap] after the wait. *)
Lemma wp_probe nt fl (Q : unit -> node -> astate -> Prop) n a : W nt n a -> idle n (a_lc (an a i)) ->
  (forall n' a', Ri nt n' a' -> Q tt n' a') -> wp nt (upd (set_mstate MON_PROBING);; reset_with fl) Q n a.
Proof.
  intros HW Hid HQ. apply wp_none; [done |]. intros a' HW' Hr Hlc. rewrite <- Hlc in Hid. pose proof Hid as (_ & _ & _ & _ & Hw).
  apply wp_bind, wp_upd. intros n1 Hn1. apply wp_reset_idle; [by rewrite Hn1 |]. intros n2 Hc2 Ho2. rewrite Hn1 in Hc2, Ho2.
  assert (Hm : mstate n2 = MON_PROBING /\ quorum n2 = ∅) by (unfold core in Hc2; by injection Hc2).
  apply HQ, out_Ri with (n := n); try done; [left; apply Hm |]. destruct Hm as [-> ->]. done.
Qed.

Lemma wp_bootstrap_idle nt fl (Q : unit -> node -> astate -> Prop) n a : W nt n a -> idle n (a_lc (an a i)) ->
  (forall n' a', Ri nt n' a' -> Q tt n' a') -> wp nt (bootstrap_with fl) Q n a.
Proof.
  intros HW Hid HQ. pose proof Hid as (_ & _ & _ & _ & Hw). unfold bootstrap_with, wait_for_paxos_write_with.
  apply wp_bind, wp_bind, wp_self. fold (writing n). rewrite Hw. apply wp_ret. by apply wp_probe.
Qed.

(** ** The completion of a write *)

Definition commit_msg (ep lc pn : Z) (v : bufferlist) : MMonPaxos :=
  {| m_epoch := ep; m_op := OP_COMMIT; m_first_committed := 0; m_last_committed := lc; m_pn_from := 0; m_pn := pn;
     m_uncommitted_pn := 0; m_lease_timestamp := 0; m_values := [(lc, v)] |}.

Lemma commit_msg_neutral log ep lc pn x y : 1 <= lc -> log !! Z.to_nat (lc - 1) = Some y -> tx_eqv x y ->
  neutral log (commit_msg ep lc pn (BTransaction x)).
Proof.
  intros Hlc Hy Hxy lcj. split; [done |]. exists lc. apply lookup_lt_Some in Hy as Hlen.
  split; [done |]. split; [cbn; unfold zlen; lia |]. split; [| cbn; unfold zlen; cbn; lia].
  cbn. split; [done |]. split; [by exists x, y | done].
Qed.

(** The leader whose write is on disk, before the completion. *)
Definition applied (nt : gmap (Z * Z) (list MMonPaxos)) (n : node) (a : astate) : Prop :=
  W nt n a /\ mstate n = MON_LEADER /\ a_role (an a i) = RLead (quorum n) PReady /\ 0 < accepted_pn n /\ pending_ok n /\
  0 <= last_committed n /\ last_committed n + 1 = a_lc (an a i) /\ io_queue n = [] /\ io_applied n = false /\ writing n = true /\
  exists x y, new_value n = BTransaction x /\ alog a !! Z.to_nat (last_committed n) = Some y /\ tx_eqv x y.

Lemma wp_get_key nt key (Q : Z -> node -> astate -> Prop) n a : W nt n a ->
  (forall v, get_num (store n) paxos_name key = Some v -> Q v n a) -> wp nt (get_key key) Q n a.
Proof. intros HW HQ. apply wp_bind, wp_self, wp_option; [by apply W_safe | done]. Qed.

Lemma wp_sanity nt (Q : unit -> node -> astate -> Prop) n a : W nt n a -> Q tt n a -> wp nt sanity_check_store Q n a.
Proof.
  intros HW HQ. apply wp_bind, wp_get_key; [done |]. intros v _.
  apply wp_bind, wp_self, wp_assert; [by apply W_safe | done].
Qed.

(** The part of [commit_finish] from the refresh on. *)
Lemma wp_refreshed nt (Q : unit -> node -> astate -> Prop) n a : ready nt n a -> pending_ok n -> is_refresh n = true ->
  (forall n' a', Ri nt n' a' -> Q tt n' a') ->
  wp nt (b ← do_refresh_with e (mret tt);
         when b (commit_proposal;; n ← self; when (1 <? quorum_size n) (extend_lease c e);; finish_round c)) Q n a.
Proof.
  intros HR Hpd Href HQ. pose proof HR as (HW & Hm & Hr & Hid & Hpos). apply wp_bind. unfold do_refresh_with.
  destruct (need_bootstrap e).
  - apply wp_bind, wp_bootstrap_idle; [done | done |]. intros n' a' HR'. by apply wp_ret, wp_ret, HQ.
  - apply wp_ret. unfold when at 1. apply wp_bind, wp_bind, wp_self.
    apply wp_bind, wp_assert; [by apply W_safe | intros _]. apply wp_bind, wp_assert; [by apply W_safe | intros _].
    apply wp_bind, wp_upd. intros n1 Hn1.
    apply wp_quiet; [intros n0; apply finish_contexts_run |]. intros n2 Hc2 Ho2. rewrite Hn1 in Hc2, Ho2.
    assert (HR2 : ready nt n2 a).
    { eapply ready_core, HR; [| done]. rewrite Hc2. core_eqs Hc2. unfold core. cbn. congruence. }
    assert (Hpd2 : pending_ok n2) by (core_eqs Hc2; by eapply pending_eq).
    apply wp_bind, wp_self, wp_bind. apply wp_when; intros _; [| by apply wp_finish_round].
    apply wp_extend_lease; [apply HR2 |]. intros n3 a3 HW3 Hc3 Han3 _. apply wp_finish_round; try done.
    + destruct HR2 as (_ & Hm2 & Hr2 & Hid2 & Hpos2). core_eqs Hc3. split; [done |]. rewrite Han3.
      split; [congruence |]. split; [congruence |]. split; [| congruence]. eapply idle_eq, Hid2; by auto.
    + core_eqs Hc3. by eapply pending_eq.
Qed.

Lemma wp_commit_finish nt (Q : unit -> node -> astate -> Prop) n a : applied nt n a ->
  (forall n' a', Ri nt n' a' -> Q tt n' a') -> wp nt (commit_finish c e) Q n a.
Proof.
  intros (HW & Hm & Hr & Hpos & Hpd & H0 & Hlc & Hq & Hap & Hwr & x & y & Hx & Hy & Hxy) HQ. unfold commit_finish.
  apply wp_bind, wp_upd. intros n1 Hn1. apply wp_bind, wp_upd. intros n2 Hn2.
  assert (HW2 : W nt n2 a) by (eapply W_same; [| exact HW]; by rewrite Hn2, Hn1).
  apply wp_bind, wp_get_key; [done |]. intros fc Hfc. apply wp_bind, wp_upd. intros n3 Hn3.
  assert (HW3 : W nt n3 a) by (eapply W_same; [| exact HW2]; by rewrite Hn3).
  apply wp_bind, wp_sanity; [done |]. apply wp_bind, wp_self.
  assert (Hlc3 : last_committed n3 = a_lc (an a i)) by (rewrite Hn3, Hn2, Hn1; cbn; lia).
  assert (Hx3 : new_value n3 = BTransaction x) by (by rewrite Hn3, Hn2, Hn1).
  destruct (W_sends c i N nt n3 a (others n3) (commit_msg (epoch n3) (last_committed n3) (accepted_pn n3) (new_value n3)) HW3)
    as (a4 & Hs4 & HW4 & Han4 & Hl4).
  { rewrite Hx3. eapply commit_msg_neutral; [| | done]; [lia |]. rewrite Hlc3, <- Hlc, Z.add_simpl_r. done. }
  apply wp_bind. eapply wp_steps; [done |]. apply wp_upd. intros n4 Hn4.
  assert (HW4' : W nt n4 a4) by (by rewrite Hn4). clear HW4. rename HW4' into HW4.
  apply wp_bind, wp_upd. intros n5 Hn5. apply wp_bind, wp_assert.
  { apply W_safe. eapply W_same; [| exact HW4]. by rewrite Hn5. }
  intros _. apply wp_bind, wp_upd. intros n6 Hn6. apply wp_bind, wp_assert.
  { apply W_safe. eapply W_same; [| exact HW4]. by rewrite Hn6, Hn5. }
  intros _. apply wp_bind, wp_upd. intros n7 Hn7. apply wp_refreshed; try done.
  - assert (HW7 : W nt n7 a4) by (eapply W_same; [| exact HW4]; by rewrite Hn7, Hn6, Hn5).
    split; [done |]. rewrite Han4, Hn7, Hn6, Hn5, Hn4. rewrite Hn3, Hn2, Hn1. cbn.
    split; [done |]. split; [done |]. split; [| done]. unfold idle. cbn. split_and!; try done. symmetry. rewrite Hn2, Hn1 in Hfc. by apply get_num_of.
  - rewrite Hn7, Hn6, Hn5, Hn4, Hn3, Hn2, Hn1. done.
  - rewrite Hn7, Hn6. done.
Qed.

(** ** The store's thread *)

Lemma W_apply nt n n' a x : W nt n a -> a_role (an a i) = RLead (quorum n) (PWrite x) ->
  rank n' = rank n -> epoch n' = epoch n -> accepted_pn n' = accepted_pn n -> last_pn n' = last_pn n ->
  store n' = apply_transaction (put_num paxos_name "last_committed" (a_lc (an a i) + 1) :: x) (store n) ->
  outbox n' = outbox n ->
  exists a' y, steps a a' /\ W nt n' a' /\ a_role (an a' i) = RLead (quorum n) PReady /\
    a_lc (an a' i) = a_lc (an a i) + 1 /\ alog a' !! Z.to_nat (a_lc (an a i)) = Some y /\ tx_eqv x y.
Proof.
  intros HW Hr Hrk Hep Hacc Hlpn Hst Ho. pose proof (w_inv _ _ _ _ _ _ HW) as HI.
  destruct (apply_log tx_eqv tx_ok tx_ok_eqv (ranks c) a i _ x HI Hr) as (Hpre & y & Hy & Hxy).
  pose proof (write_pend tx_eqv tx_ok (ranks c) a i _ x HI Hr) as Hpend.
  pose proof (S_apply tx_eqv tx_ok (ranks c) a i _ x Hr) as Hstep. cbn zeta in *.
  set (a' := AState _ _ _ _ _) in Hstep. exists a', y. pose proof (step_inv c a a' HI Hstep) as HI'.
  destruct (w_base _ _ _ _ _ _ HW) as [B1 B2 B3 B4 B5 B6 B7]. rewrite Hpend in B7.
  pose proof (disk_commit _ _ _ _ _ _ _ Hpre (inv_log_ok c a' HI') B7 Hy Hxy) as Hd. rewrite <- Hst in Hd.
  split; [by apply rtc_once |]. split; [| unfold a'; cbn; fn_simpl; done].
  eapply W_step; [done | done | | done | |].
  - unfold a'. cbn. fn_simpl. split; cbn; try congruence. rewrite Hst, Hlpn, <- B6.
    unfold get_num. fold (pkey "last_pn"). rewrite apply_at, tx_at_cons, op_put_num, decide_False by key_ne.
    rewrite (tx_ok_meta (alog a') (a_lc (an a i)) x y); [done | by apply (inv_log_ok c) | apply B7 | done | done | set_solver].
  - intros j Hj. unfold a'. cbn. by fn_simpl.
  - eapply chans_mono; [apply HW | done | done | done |]. intros j. unfold a'. cbn.
    destruct (decide (i = j)) as [<- |]; fn_simpl; cbn; lia.
Qed.

(** A leader whose write is queued, and one whose write is on disk. *)
Definition queued (n : node) (a : astate) (x : Transaction) : Prop :=
  mstate n = MON_LEADER /\ a_role (an a i) = RLead (quorum n) (PWrite x) /\ last_committed n = a_lc (an a i) /\
  writing n = true /\ io_applied n = false /\
  io_queue n = [put_num paxos_name "last_committed" (a_lc (an a i) + 1) :: x] /\ new_value n = BTransaction x.

Definition written (n : node) (a : astate) : Prop :=
  mstate n = MON_LEADER /\ a_role (an a i) = RLead (quorum n) PReady /\ 0 <= last_committed n /\
  last_committed n + 1 = a_lc (an a i) /\ writing n = true /\ io_applied n = true /\ (exists t, io_queue n = [t]) /\
  exists x y, new_value n = BTransaction x /\ alog a !! Z.to_nat (last_committed n) = Some y /\ tx_eqv x y.

Lemma R_cases nt n a : R nt n a ->
  idle n (a_lc (an a i)) \/
  0 < accepted_pn n /\ pending_ok n /\ ((exists x, queued n a x) \/ written n a).
Proof.
  intros (_ & HL & Hd). unfold live_rel in HL. destruct (mstate n) eqn:Hm; try (by left; destruct HL).
  destruct HL as (Hpos & Hpd & ph & Hr & Hph). destruct ph as [resp u | | x acks | x]; cbn in Hph.
  - left. apply Hph.
  - destruct Hph as [[] |]; [by left | right]. split; [done |]. split; [done |]. right. done.
  - left. apply Hph.
  - right. split; [done |]. split; [done |]. left. by exists x.
Qed.

Lemma wp_io_apply nt (Q : unit -> node -> astate -> Prop) n a : R nt n a ->
  (forall n' a', R nt n' a' -> idle n' (a_lc (an a' i)) \/ written n' a' -> Q tt n' a') ->
  wp nt io_apply Q n a.
Proof.
  intros HR HQ. pose proof HR as (HW & _). unfold io_apply. apply wp_bind, wp_self.
  destruct (R_cases nt n a HR) as [Hid | (Hpos & Hpd & [(x & Hm & Hr & Hlc & Hwr & Hap & Hq & Hx) | Hwn])].
  - pose proof Hid as (_ & _ & -> & _). apply wp_ret, HQ; [done | by left].
  - rewrite Hq, Hap. unfold when. cbn [negb]. apply wp_bind, wp_upd. intros n1 Hn1. 
    destruct (W_apply nt n n1 a x HW Hr) as (a2 & y & Hs & HW2 & Hr2 & Hlc2 & Hy & Hxy); try (by rewrite Hn1).
    eapply wp_steps; [exact Hs |]. apply wp_upd. intros n2 Hn2.
    pose proof (I_node _ _ _ _ (w_inv _ _ _ _ _ _ HW) i) as ((H0 & _) & _).
    assert (Hwn : written n2 a2).
    { unfold written. rewrite Hn2, Hn1. cbn. rewrite Hlc2, Hlc. split_and!; try done; [by eexists |]. by exists x, y. }
    apply HQ; [| by right]. split_and!; [eapply W_same, HW2; by rewrite Hn2 | | by rewrite Hn2, Hn1; cbn; rewrite Hm].
    unfold live_rel. destruct Hwn as (-> & Hrole & Hrest). rewrite Hn2, Hn1 at 1. split; [done |].
    split; [rewrite Hn2, Hn1; exact Hpd |]. exists PReady. split; [done |]. right. exact Hrest.
  - pose proof Hwn as (_ & _ & _ & _ & _ & Hap & (t & Hq) & _). rewrite Hq, Hap. apply wp_ret, HQ; [done | by right].
Qed.

Lemma wp_io_complete nt (Q : unit -> node -> astate -> Prop) n a : R nt n a ->
  (forall n' a', R nt n' a' -> (idle n (a_lc (an a i)) \/ written n a -> Ri nt n' a') -> Q tt n' a') ->
  wp nt (io_complete c e) Q n a.
Proof.
  intros HR HQ. pose proof HR as (HW & _). unfold io_complete. apply wp_bind, wp_self.
  destruct (R_cases nt n a HR) as [Hid | (Hpos & Hpd & [(x & Hqd) | Hwn])].
  - pose proof Hid as (_ & _ & -> & _). by apply wp_ret, HQ.
  - pose proof Hqd as (_ & _ & _ & _ & Hap & Hq & _). rewrite Hq, Hap. apply wp_ret, HQ; [done |].
    intros [(_ & _ & ? & _) | (_ & _ & _ & _ & _ & ? & _)]; congruence.
  - pose proof Hwn as (Hm & Hr & H0 & Hlc & Hwr & Hap & (t & Hq) & x & y & Hx & Hy & Hxy). rewrite Hq, Hap. unfold when.
    apply wp_bind, wp_upd. intros n1 Hn1. apply wp_bind, wp_upd. intros n2 Hn2. unfold committed. apply wp_bind, wp_self.
    replace (is_shutdown n2) with false.
    2: { rewrite Hn2, Hn1. unfold writing, is_writing, is_writing_previous in Hwr. unfold is_shutdown. cbn. by destruct (state n). }
    apply wp_commit_finish; [| intros n' a' HR'; by apply HQ; [apply HR' |]].
    split; [eapply W_same; [| exact HW]; by rewrite Hn2, Hn1 |].
    rewrite Hn2, Hn1. split_and!; try done. by exists x, y.
Qed.

Lemma wp_flush nt (Q : unit -> node -> astate -> Prop) n a : R nt n a ->
  (forall n' a', Ri nt n' a' -> Q tt n' a') -> wp nt (flush c e) Q n a.
Proof.
  intros HR HQ. unfold flush.
  apply wp_bind, wp_io_apply; [done |]. intros n1 a1 HR1 H1.
  apply wp_bind, wp_io_complete; [done |]. intros n2 a2 _ H2. destruct (H2 H1) as [HR2 _].
  apply wp_bind, wp_io_apply; [done |]. intros n3 a3 HR3 H3.
  apply wp_io_complete; [done |]. intros n4 a4 _ H4. auto.
Qed.

(** ** Resets *)

Lemma wp_wait nt (Q : unit -> node -> astate -> Prop) n a : R nt n a ->
  (forall n' a', Ri nt n' a' -> Q tt n' a') -> wp nt (wait_for_paxos_write_with (flush c e)) Q n a.
Proof.
  intros HR HQ. unfold wait_for_paxos_write_with. apply wp_bind, wp_self. fold (writing n). apply wp_when; intros Hw.
  - by apply wp_flush.
  - apply HQ. split; [done |]. destruct (R_cases nt n a HR) as [| (_ & _ & [(x & Hqd) | Hwn])]; [done | |].
    + destruct Hqd as (_ & _ & _ & ? & _). congruence.
    + destruct Hwn as (_ & _ & _ & _ & ? & _). congruence.
Qed.

Lemma wp_bootstrap nt (Q : unit -> node -> astate -> Prop) n a : R nt n a ->
  (forall n' a', R nt n' a' -> Q tt n' a') -> wp nt (bootstrap c e) Q n a.
Proof.
  intros HR HQ. apply wp_bind, wp_wait; [done |]. intros n1 a1 [HR1 Hid1].
  apply wp_probe; [apply HR1 | done |]. intros n2 a2 [HR2 _]. auto.
Qed.

Lemma wp_do_refresh nt (Q : bool -> node -> astate -> Prop) n a : R nt n a -> Q true n a ->
  (forall n' a', R nt n' a' -> Q false n' a') -> wp nt (do_refresh c e) Q n a.
Proof.
  intros HR H1 H2. unfold do_refresh, do_refresh_with. destruct (need_bootstrap e).
  - apply wp_bind, wp_bootstrap; [done |]. intros n' a' HR'. by apply wp_ret, H2.
  - by apply wp_ret.
Qed.

Lemma wp_join_idle nt (Q : unit -> node -> astate -> Prop) n a : writing n = false ->
  (forall n', core n' = core (set_mstate MON_ELECTING (set_quorum ∅ (cleared n))) -> outbox n' = outbox n -> Q tt n' a) ->
  wp nt (join_election c e) Q n a.
Proof.
  intros Hw HQ. unfold join_election, wait_for_paxos_write_with. apply wp_bind, wp_bind, wp_self. fold (writing n).
  rewrite Hw. apply wp_ret. apply wp_bind, wp_reset_idle; [done |]. intros n1 Hc1 Ho1. apply wp_upd. intros n2 Hn2.
  apply HQ; rewrite Hn2; [| done]. core_eqs Hc1. unfold core. cbn. congruence.
Qed.

Lemma wp_join nt (Q : unit -> node -> astate -> Prop) n a : R nt n a ->
  (forall n' a', R nt n' a' -> Q tt n' a') -> wp nt (join_election c e) Q n a.
Proof.
  intros HR HQ. apply wp_bind, wp_wait; [done |]. intros n1 a1 [HR1 Hid1].
  apply wp_none; [apply HR1 |]. intros a2 HW2 Hr2 Hlc2. rewrite <- Hlc2 in Hid1.
  apply wp_bind, wp_reset_idle; [apply Hid1 |]. intros n3 Hc3 Ho3. apply wp_upd. intros n4 Hn4.
  apply HQ, out_Ri with (n := n1); rewrite ?Hn4; try done; [by right |]. core_eqs Hc3. unfold core. cbn. congruence.
Qed.
End Commit.
