(* ===== verification/PaxosSimCollect.v ===== *)
(** * The monitors implement the protocol: elections and phase 1

    A won election starts a round of phase 1 in an epoch of its own, a lost one
    makes a peon.  The proposal number of the round is the monitor's own and
    above every one it has seen. *)

From stdpp Require Import strings functions sorting relations.
From S2P Require Import Prelude MonitorDBStore Paxos PaxosSystem PaxosSpec PaxosInv PaxosDisk PaxosSim PaxosSimOps PaxosSimCommit.

Section Collect.
Context (c : conf) (e : env).
Hypothesis Hsize : 1 < monmap_size c <= 100.
Hypothesis Htrim : 0 <= paxos_min c /\ 0 <= paxos_trim_min c /\ paxos_min c + paxos_trim_min c < 2 ^ 31.
Context (i : Z) (N : gmap Z node).

Abbreviation step := (astep tx_eqv tx_ok (ranks c)).
Abbreviation steps := (asteps tx_eqv tx_ok (ranks c)).
Abbreviation inv := (Inv tx_eqv tx_ok (ranks c)).
Abbreviation W := (W c i N).
Abbreviation wp := (wp c i N).
Abbreviation safe := (safe c i N).
Abbreviation R := (R c i N).
Abbreviation Ri := (Ri c i N).

(** The machine may follow a monitor to a later epoch at any time. *)
Lemma W_epoch nt n ep a : W nt n a -> epoch n <= ep ->
  exists a', steps a a' /\ W nt (set_epoch ep n) a' /\ an a' i = with_ep ep (an a i) /\ alog a' = alog a.
Proof.
  intros HW Hep. pose proof (w_base _ _ _ _ _ _ HW) as [B1 B2 B3 B4 B5 B6 B7].
  assert (Hs : step a (set_an a i (with_ep ep (an a i)))) by (constructor; lia).
  exists (set_an a i (with_ep ep (an a i))). split_and!; [by apply rtc_once | | by rewrite an_set_eq | done].
  eapply W_local; [done | done | done | done |]. by split.
Qed.

Lemma late_safe nt n ep a : W nt (set_epoch ep n) a -> ep <= epoch n -> safe nt n a.
Proof.
  intros HW Hep. destruct (W_epoch nt _ (epoch n) a HW Hep) as (a' & Hs & HW' & _).
  exists a'. split; [done |]. by eapply W_same; [| exact HW'].
Qed.

(** ** A round of phase 1 *)

Definition new_pn (n : node) (gt : Z) : Z := (Z.max (last_pn n) gt `div` 100 + 1) * 100 + rank n.

Lemma new_pn_spec n gt : 0 <= rank n < 100 -> last_pn n < new_pn n gt /\ gt < new_pn n gt /\ new_pn n gt mod 100 = rank n.
Proof.
  intros Hr. unfold new_pn. set (m := Z.max _ _).
  pose proof (Z.div_mod m 100). pose proof (Z.mod_pos_bound m 100).
  split_and!; [lia | lia |]. rewrite Z.add_comm, Z_mod_plus_full. by apply Z.mod_small.
Qed.

Lemma others_eq n n' : rank n' = rank n -> quorum n' = quorum n -> others n' = others n.
Proof. unfold others. by intros -> ->. Qed.

Definition collect_msg (ep fc lc pn : Z) : MMonPaxos :=
  {| m_epoch := ep; m_op := OP_COLLECT; m_first_committed := fc; m_last_committed := lc; m_pn_from := 0; m_pn := pn;
     m_uncommitted_pn := 0; m_lease_timestamp := 0; m_values := [] |}.

(** What a collect needs; [ep] is the epoch the machine is still in. *)
Definition may_collect (nt : gmap (Z * Z) (list MMonPaxos)) (ep : Z) (n : node) (a : astate) : Prop :=
  W nt (set_epoch ep n) a /\ mstate n = MON_LEADER /\ idle n (a_lc (an a i)) /\ maj (ranks c) (quorum n) /\ i ∈ quorum n /\
  pending_ok n /\
  (ep < epoch n \/ ep = epoch n /\ exists resp u, a_role (an a i) = RLead (quorum n) (PCollect resp u)).

Lemma rank_bound nt ep n a : may_collect nt ep n a -> 0 <= rank n < 100.
Proof.
  intros (HW & _ & _ & [Hq _] & Hi & _). rewrite (b_rank _ _ _ _ (w_base _ _ _ _ _ _ HW) : rank n = i).
  apply Hq in Hi. unfold ranks in Hi. apply elem_of_list_to_set, elem_of_seqZ in Hi. lia.
Qed.

Lemma W_collect nt ep n n' a oldpn : may_collect nt ep n a -> 
  let p := new_pn n (Z.max (accepted_pn n) oldpn) in
  rank n' = rank n -> epoch n' = epoch n -> accepted_pn n' = p -> last_pn n' = p ->
  store n' = apply_transaction [put_num paxos_name "last_pn" p] (store n) ->
  outbox n' = outbox n ++ map (fun q => (q, collect_msg (epoch n) (first_committed n) (last_committed n) p)) (others n) ->
  step a (collecting a i (epoch n) (quorum n) p) /\ W nt n' (collecting a i (epoch n) (quorum n) p).
Proof.
  intros Hmc p Hr He Hacc Hlpn Hst Ho. pose proof (rank_bound _ _ _ _ Hmc) as Hrk.
  pose proof (new_pn_spec n (Z.max (accepted_pn n) oldpn) Hrk) as (Hp1 & Hp2 & Hp3). fold p in Hp1, Hp2, Hp3.
  destruct Hmc as (HW & _ & Hid & Hq & Hi & _ & Hep). destruct (w_base _ _ _ _ _ _ HW) as [B1 B2 B3 B4 B5 B6 B7]. cbn in B1, B2, B3, B4, B5, B6, B7.
  assert (Hs : step a (collecting a i (epoch n) (quorum n) p)).
  { destruct Hep as [Hep | (Hep & resp & u & Hrole)].
    - apply S_lead; [lia | done | done | lia | lia | lia].
    - rewrite <- Hep, <- B2. eapply S_collect; [exact Hrole | lia | lia | lia]. }
  split; [done |]. eapply W_step; [exact HW | done | | done | |].
  - cbn. fn_simpl. split; cbn; try congruence; [lia | |].
    + rewrite Hst, Hlpn. by key_simpl.
    + rewrite Hst. apply disk_meta; [set_solver | done].
  - intros j Hj. cbn. by fn_simpl.
  - eapply chans_bcast; [apply HW | done | done | | exact Ho | done | |].
    + cbn. destruct Hid as (<- & _). reflexivity.
    + intros y. cbn. destruct (decide (i = y)) as [<- |]; fn_simpl; done.
    + intros lcj. split; [done |]. cbn. destruct Hid as (-> & _). apply B7.
Qed.

(** The value the leader itself has accepted. *)
Lemma disk_pend_exists log s lc pend : disk log s lc pend ->
  exists_ver s paxos_name (lc + 1) = bool_decide (is_Some pend).
Proof.
  intros (_ & _ & _ & Hp). unfold exists_ver. fold (vkey (lc + 1)). destruct pend as [[p x] |]; cbn in Hp.
  - destruct Hp as (-> & _). done.
  - by rewrite Hp.
Qed.

Lemma pending_pn_run prev log n p x : disk log (store n) (last_committed n) (Some (p, x)) ->
  pending_pn_or prev n = (Some p, n).
Proof.
  intros ((Hlc & _) & _ & _ & _ & Hv & Hpn & Hp). unfold pending_pn_or, get_key, self, mbind, M_bind, unless_None, mret, M_ret.
  rewrite Hv, Hpn.
  replace (negb (last_committed n + 1 =? 0) && negb (p =? 0) && (last_committed n + 1 =? last_committed n + 1)) with true by lia.
  done.
Qed.

(** [collect] up to the new proposal number. *)
Lemma wp_own_value nt (Q : unit -> node -> astate -> Prop) n a :
  disk (alog a) (store n) (last_committed n) (a_pend (an a i)) ->
  uncommitted_v n = 0 -> uncommitted_pn n = 0 -> uncommitted_value n = bl_empty ->
  (forall n', core n' = core (set_uncommitted_pn (uncommitted_pn n') (set_uncommitted_v (uncommitted_v n')
       (set_uncommitted_value (uncommitted_value n') n))) -> outbox n' = outbox n ->
     unc_rel n' (a_pend (an a i)) -> Q tt n' a) ->
  wp nt (when (exists_ver (store n) paxos_name (last_committed n + 1))
    (pn ← pending_pn_or (accepted_pn n);
     let bl := get_bl (store n) paxos_name (last_committed n + 1) in
     upd (fun n => set_uncommitted_pn pn (set_uncommitted_v (last_committed n + 1) (set_uncommitted_value bl n)));;
     assert (bl_nonempty bl))) Q n a.
Proof.
  intros Hd H1 H2 H3 HQ. rewrite (disk_pend_exists _ _ _ _ Hd). destruct (a_pend (an a i)) as [[p x] |] eqn:Hp.
  - unfold when. cbn [bool_decide]. apply wp_bind. eapply wp_run; [by eapply pending_pn_run |]. cbn zeta.
    destruct Hd as (_ & _ & _ & Hx & _ & _ & Hpos). unfold get_bl. fold (vkey (last_committed n + 1)). rewrite Hx.
    apply wp_bind, wp_upd. intros n1 Hn1. apply wp_ret, HQ; rewrite Hn1; [done | done |]. by split_and!.
  - apply wp_ret, HQ; [done | done |]. by split_and!.
Qed.

Lemma wp_collect nt ep oldpn (Q : unit -> node -> astate -> Prop) n a : may_collect nt ep n a ->
  (forall n' a', R nt n' a' -> pending_proposal n' = pending_proposal n -> Q tt n' a') -> wp nt (collect oldpn) Q n a.
Proof.
  intros Hmc HQ. pose proof Hmc as (HW & Hm & Hid & Hq & Hi & Hpd & Hep).
  assert (Hle : ep <= epoch n) by (destruct Hep as [| []]; lia).
  assert (Hsafe : forall n', same_base n n' -> safe nt n' a).
  { intros n' Hb. apply late_safe with (ep := ep).
    - eapply W_same, HW. unfold same_base in *. cbn. by destruct Hb as (? & ? & ? & ? & ? & ?); split_and!.
    - destruct Hb as (_ & -> & _). done. }
  unfold collect. apply wp_bind, wp_upd. intros n1 Hn1. apply wp_bind, wp_self.
  apply wp_bind, wp_assert; [by apply Hsafe; rewrite Hn1 |]. intros _. apply wp_bind, wp_upd. intros n2 Hn2.
  pose proof (b_disk _ _ _ _ (w_base _ _ _ _ _ _ HW)) as Hd. cbn in Hd. pose proof Hid as (Hlc & _). rewrite <- Hlc in Hd.
  subst n1. apply wp_bind. subst n2.
  match goal with |- wp _ _ _ ?m _ => apply (wp_own_value nt _ m a) end; try done.
  intros n3 Hc3 Ho3 Hu.
  apply wp_bind. unfold get_new_proposal_number. apply wp_bind, wp_self. apply wp_bind, wp_upd. intros n4 Hn4.
  apply wp_bind, wp_upd. intros n5 Hn5. apply wp_ret. apply wp_bind, wp_upd. intros n6 Hn6.
  apply wp_bind, wp_upd. intros n7 Hn7. core_eqs Hc3. cbn in Ho3.
  assert (E1 : pending_proposal n3 = pending_proposal n) by done. assert (E2 : first_committed n3 = first_committed n) by done.
  assert (E3 : state n3 = STATE_RECOVERING) by done. assert (E4 : store n3 = store n) by done.
  set (p := _ * 100 + rank n3) in *.
  assert (Hp : p = new_pn n (Z.max (accepted_pn n) oldpn)) by (unfold p, new_pn; cbn; congruence). clearbody p.
  destruct (W_collect nt ep n n7 a oldpn Hmc) as [Hst HW7]; rewrite <- ?Hp; try (rewrite Hn7, Hn6, Hn5, Hn4; cbn; congruence).
  { assert (Ho6 : others n6 = others n) by (apply others_eq; rewrite Hn6, Hn5, Hn4; cbn; congruence).
    rewrite Hn7. cbn [outbox set_outbox]. rewrite Ho6. f_equal. rewrite Hn6, Hn5, Hn4. exact Ho3. }
  rewrite <- Hp in Hst, HW7.
  eapply wp_steps; [by apply rtc_once |]. apply wp_upd. intros n8 Hn8.
  apply HQ; [| rewrite Hn8, Hn7, Hn6, Hn5, Hn4; exact E1]. apply R_core with (n := n7); [by rewrite Hn8 .. |].
  assert (Hpos : 0 < p).
  { pose proof (new_pn_spec n (Z.max (accepted_pn n) oldpn) (rank_bound _ _ _ _ Hmc)) as (Hlt & _).
    pose proof (b_pos _ _ _ _ (w_base _ _ _ _ _ _ HW)) as Hnn. cbn in Hnn. lia. }
  assert (Hm7 : mstate n7 = MON_LEADER) by (rewrite Hn7, Hn6, Hn5, Hn4; cbn; congruence).
  split_and!; [done | | congruence]. unfold live_rel. rewrite Hm7.
  split; [by rewrite Hn7, Hn6 |]. split; [eapply pending_eq, Hpd; by rewrite Hn7, Hn6, Hn5, Hn4 |].
  exists (PCollect {[i]} (a_pend (an a i))). cbn [collecting an]. fn_simpl.
  split; [cbn; f_equal; rewrite Hn7, Hn6, Hn5, Hn4; cbn; congruence |].
  split; [| split; [by rewrite Hn7, Hn6, Hn5, Hn4 | split]].
  - destruct Hid as (I1 & I2 & I3 & I4 & I5). rewrite Hn7, Hn6, Hn5, Hn4.
    unfold idle, writing, is_writing, is_writing_previous. cbn -[apply_transaction]. rewrite E3.
    split_and!; try congruence; [| done]. rewrite E2, I2, E4. f_equal. by key_simpl.
  - rewrite Hn7, Hn6. cbn. by rewrite size_singleton.
  - split; [rewrite Hn7, Hn6, Hn5, Hn4; exact Hu |].
    replace (peer_last_committed n7) with (@nil (Z * Z)); [constructor |]. rewrite Hn7, Hn6, Hn5, Hn4. done.
Qed.

(** ** Elections *)

Lemma R_pending nt n a t : R nt n a -> service_only t -> R nt (set_pending_proposal (Some t) n) a.
Proof.
  intros (HW & HL & Hd) Ht. split_and!; [by eapply W_same; [| exact HW] | | done].
  revert HL. unfold live_rel. cbn [mstate set_pending_proposal]. destruct (mstate n); try done.
  intros (Hpos & _ & Hrest). split; [done |]. split; [by intros t' [= <-] | done].
Qed.

Lemma wp_get_pending_R nt (Q : Transaction -> node -> astate -> Prop) n a : R nt n a ->
  (forall t n', R nt n' a -> service_only t -> Q t n' a) -> wp nt get_pending_transaction Q n a.
Proof.
  intros HR HQ. pose proof HR as (HW & HL & _). unfold get_pending_transaction. apply wp_bind, wp_self.
  apply wp_bind, wp_assert; [by apply W_safe |]. intros Hm%bool_decide_eq_true.
  destruct (pending_proposal n) as [t |] eqn:Ht.
  - apply wp_ret, HQ; [done |]. unfold live_rel in HL. rewrite Hm in HL. by apply HL.
  - apply wp_bind, wp_upd. intros n1 Hn1.
    assert (HR1 : R nt n1 a) by (rewrite Hn1; apply R_pending; [done | constructor]).
    apply wp_bind, wp_assert; [apply W_safe, HR1 |]. intros _. apply wp_ret, HQ; [done | constructor].
Qed.

(** A transaction added to the pending one. *)
Lemma wp_add_pending nt t (Q : unit -> node -> astate -> Prop) n a : R nt n a -> service_only t ->
  (forall n', R nt n' a -> Q tt n' a) ->
  wp nt (p ← get_pending_transaction; upd (set_pending_proposal (Some (p ++ t)))) Q n a.
Proof.
  intros HR Ht HQ. apply wp_bind, wp_get_pending_R; [done |]. intros p n1 HR1 Hp.
  apply wp_upd. intros n2 ->. apply HQ, R_pending; [done |]. by apply Forall_app.
Qed.

(** A monitor that won or lost was electing, so nothing is under way. *)
Definition electing (nt : gmap (Z * Z) (list MMonPaxos)) (ep : Z) (n : node) (a : astate) : Prop :=
  W nt (set_epoch ep n) a /\ idle n (a_lc (an a i)) /\ ep < epoch n.

Lemma wp_leader_init nt ep (Q : unit -> node -> astate -> Prop) n a : electing nt ep n a -> mstate n = MON_LEADER ->
  maj (ranks c) (quorum n) -> i ∈ quorum n -> (forall n' a', R nt n' a' -> Q tt n' a') -> wp nt (leader_init) Q n a.
Proof.
  intros (HW & Hid & Hep) Hm Hq Hi HQ. unfold leader_init.
  apply wp_bind, wp_quiet; [auto with paxos |]. intros n1 Hc1 Ho1.
  apply wp_bind, wp_upd. intros n2 Hn2. apply wp_bind, wp_upd. intros n3 Hn3.
  apply wp_bind, wp_quiet; [auto with paxos |]. intros n4 Hc4 Ho4. rewrite Hn3, Hn2 in Hc4, Ho4. cbn in Ho4.
  core_eqs Hc1. core_eqs Hc4. apply wp_bind, wp_self.
  replace (quorum_size n4 =? 1) with false.
  2: { pose proof (maj_size c Hsize _ Hq). unfold quorum_size. symmetry. apply Z.eqb_neq. replace (quorum n4) with (quorum n) by congruence. lia. }
  apply wp_bind, wp_upd. intros n5 Hn5. apply wp_bind, wp_upd. intros n6 Hn6.
  apply wp_collect with (ep := ep); [| auto]. rewrite Hn6, Hn5.
  split.
  { eapply W_same, HW. unfold same_base. cbn. split_and!; congruence. }
  split; [cbn; congruence |]. split; [eapply idle_eq, Hid; cbn; try congruence; by right |].
  cbn [quorum epoch set_state set_lease_expire]. replace (quorum n4) with (quorum n) by congruence. split; [done |]. split; [done |].
  split; [intros t; cbn; congruence | left; congruence].
Qed.

Lemma wp_win nt ep q md (Q : unit -> node -> astate -> Prop) n a : electing nt ep n a ->
  maj (ranks c) q -> i ∈ q -> (forall n' a', R nt n' a' -> Q tt n' a') ->
  wp nt (join_election c e;; win_election q md) Q n a.
Proof.
  intros (HW & Hid & Hep) Hq Hi HQ.
  apply wp_bind, wp_join_idle; [apply Hid |]. intros n1 Hc1 Ho1. core_eqs Hc1.
  assert (He1 : electing nt ep n1 a).
  { split; [| split; [| congruence]].
    - eapply W_same, HW. unfold same_base. cbn. by split_and!.
    - eapply idle_eq, Hid; try done. right. by rewrite (writing_eq (cleared n) n1). }
  unfold win_election. apply wp_bind, wp_self, wp_bind, wp_assert.
  { apply late_safe with (ep := ep); [apply He1 | lia]. }
  intros _. apply wp_bind, wp_upd. intros n2 Hn2. apply wp_bind.
  apply wp_leader_init with (ep := ep); rewrite ?Hn2; try done.
  - destruct He1 as (HW1 & Hid1 & Hep1). split_and!; [by eapply W_same; [| exact HW1] | by eapply idle_eq, Hid1; auto .. | done].
  - intros n3 a3 HR3. apply wp_add_pending; [done | by repeat constructor | auto].
Qed.

Lemma wp_lose nt ep q l (Q : unit -> node -> astate -> Prop) n a : electing nt ep n a ->
  (forall n' a', R nt n' a' -> Q tt n' a') -> wp nt (join_election c e;; lose_election q l) Q n a.
Proof.
  intros (HW & Hid & Hep) HQ. pose proof (w_base _ _ _ _ _ _ HW) as [B1 B2 B3 B4 B5 B6 B7].
  assert (Hs : step a (set_an a i (with_role RPeon (with_ep (epoch n) (an a i))))) by (apply S_peon; cbn in B2; lia).
  assert (HW' : W nt n (set_an a i (with_role RPeon (with_ep (epoch n) (an a i))))).
  { eapply W_local; [exact HW | done | done | done |]. by split. }
  eapply wp_steps; [by apply rtc_once |].
  apply wp_bind, wp_join_idle; [apply Hid |]. intros n1 Hc1 Ho1. unfold lose_election, peon_init.
  apply wp_bind, wp_upd. intros n2 Hn2. apply wp_bind, wp_quiet; [auto with paxos |]. intros n3 Hc3 Ho3.
  apply wp_bind, wp_upd. intros n4 Hn4. apply wp_bind, wp_upd. intros n5 Hn5. apply wp_bind, wp_upd. intros n6 Hn6.
  apply wp_bind, wp_quiet; [auto with paxos |]. intros n7 Hc7 Ho7. apply wp_bind, wp_upd. intros n8 Hn8.
  apply wp_quiet; [auto with paxos |]. intros n9 Hc9 Ho9. apply HQ.
  rewrite Hn8 in Hc9, Ho9. rewrite Hn6, Hn5, Hn4 in Hc7, Ho7. rewrite Hn2 in Hc3, Ho3. cbn in Ho3, Ho7, Ho9.
  core_eqs Hc1. core_eqs Hc3. core_eqs Hc7. core_eqs Hc9.
  assert (Hm9 : mstate n9 = MON_PEON) by congruence.
  split_and!; [eapply W_same, HW'; unfold same_base; split_and!; congruence | | congruence].
  unfold live_rel. rewrite Hm9, an_set_eq. split; [done |].
  eapply idle_eq, Hid; cbn; try congruence. right. rewrite (writing_eq (set_state STATE_RECOVERING n) n9); [done |]. cbn. congruence.
Qed.
End Collect.
