(* ===== verification/PaxosSimStore.v ===== *)
(** * The monitors implement the protocol: sharing committed versions

    A monitor that is ahead sends the versions another one lacks, and the
    receiver writes them; in the machine the receiver moves along the log. *)

From stdpp Require Import strings functions sorting relations.
From S2P Require Import Prelude MonitorDBStore Paxos PaxosSystem PaxosSpec PaxosInv PaxosDisk PaxosSim PaxosSimOps PaxosSimCommit PaxosSimCollect.

(** ** The versions to apply *)

Lemma take_upto_none b u : Forall (fun e => b < e.1) u -> take_upto b u = [].
Proof. destruct u as [| [v x] u]; [done |]. intros [Hv _]%Forall_cons. cbn in *. destruct (Z.leb_spec v b); [lia | done]. Qed.

Lemma skip_upto_forall b (P : Z * bufferlist -> Prop) u : Forall P u -> Forall P (skip_upto b u).
Proof. induction 1 as [| [v x] u Hv Hu IH]; cbn; [constructor |]. case_match; [done | by constructor]. Qed.

Lemma take_upto_good log a l b u : good_values log a l -> a + zlen l = b + 1 -> Forall (fun e => b < e.1) u ->
  take_upto b (l ++ u) = l.
Proof.
  revert a. induction l as [| [v x] l IH]; intros a; [intros _ _; apply take_upto_none |].
  intros (-> & _ & Hl) Hz Hu. unfold zlen in Hz. cbn in Hz |- *. destruct (Z.leb_spec a b); [| lia].
  f_equal. apply (IH (a + 1)); [done | unfold zlen; lia | done].
Qed.

(** What [store_state] applies on top of version [lc]. *)
Lemma range_good log a l mlc lc u : committed_values log a mlc l -> Forall (fun e => mlc < e.1) u -> a <= lc + 1 ->
  take_upto mlc (skip_upto lc (l ++ u)) = drop (Z.to_nat (lc + 1 - a)) l.
Proof.
  intros (_ & _ & Hg & Hz) Hu. revert a Hg Hz. induction l as [| [v x] l IH]; intros a Hg Hz Ha.
  - rewrite drop_nil. apply take_upto_none. by apply skip_upto_forall.
  - destruct Hg as (-> & Hx & Hl). unfold zlen in Hz. cbn [length] in Hz. cbn [app skip_upto]. destruct (Z.leb_spec a lc).
    + replace (Z.to_nat (lc + 1 - a)) with (S (Z.to_nat (lc + 1 - (a + 1)))) by lia. cbn [drop].
      apply IH; [done | unfold zlen; lia | lia].
    + replace (Z.to_nat (lc + 1 - a)) with 0%nat by lia. cbn [drop].
      change ((a, x) :: l ++ u) with (((a, x) :: l) ++ u). apply (take_upto_good log a); [done | unfold zlen; cbn; lia | done].
Qed.

Lemma good_drop log a l k : good_values log a l -> good_values log (a + Z.of_nat k) (drop k l).
Proof.
  revert a l. induction k as [| k IH]; intros a l Hg; [by rewrite Z.add_0_r, drop_0 |].
  destruct l as [| [v x] l]; [by rewrite drop_nil |]. destruct Hg as (_ & _ & Hl).
  replace (a + Z.of_nat (S k)) with (a + 1 + Z.of_nat k) by lia. by apply IH.
Qed.

Lemma good_last log a l v x : good_values log a l -> last l = Some (v, x) -> v = a + zlen l - 1.
Proof.
  revert a. induction l as [| [w y] l IH]; intros a; [done |]. intros (-> & _ & Hl). destruct l as [| z l].
  - intros [= <- _]. unfold zlen. cbn. lia.
  - rewrite last_cons_cons. intros Hv. rewrite (IH (a + 1) Hl Hv). unfold zlen. cbn. lia.
Qed.

(** ** Sharing *)

Lemma share_state_run log n pend m plc : log_ok log -> disk log (store n) (last_committed n) pend ->
  0 <= plc < last_committed n -> m_values m = [] ->
  exists l m', share_state m plc n = (Some m', n) /\
    committed_values log (Z.max (plc + 1) (num_of (store n !! fc_key))) (last_committed n) l /\
    m_values m' = l /\ m_last_committed m' = last_committed n /\ m_op m' = m_op m /\ m_epoch m' = m_epoch m /\
    m_first_committed m' = m_first_committed m /\ m_pn m' = m_pn m /\ m_uncommitted_pn m' = m_uncommitted_pn m.
Proof.
  intros Hok (Hlc & _ & Hb & _) Hp Hm.
  destruct (share_loop_good log (store n) (last_committed n) (Z.to_nat (last_committed n - plc)) Hok Hb (plc + 1) [] n)
    as (l & Hs & Hg & Hz); [lia | lia | constructor |].
  rewrite Z2Nat.id in Hs, Hz by lia. unfold share_state, self, mbind, M_bind, assert.
  replace (plc <? last_committed n) with true by lia. cbn. rewrite Hm, Hs. exists l. eexists. split; [done |]. cbn.
  split; [| done]. split; [lia |]. split; [lia |]. split; [exact Hg | lia].
Qed.

Section Store.
Context (c : conf) (e : env).
Hypothesis Hsize : 1 < monmap_size c <= 100.
Hypothesis Htrim : 0 <= paxos_min c /\ 0 <= paxos_trim_min c /\ paxos_min c + paxos_trim_min c < 2 ^ 31.
Context (i : Z) (N : gmap Z node).

Abbreviation step := (astep tx_eqv tx_ok (ranks c)).
Abbreviation steps := (asteps tx_eqv tx_ok (ranks c)).
Abbreviation inv := (Inv tx_eqv tx_ok (ranks c)).
Abbreviation W := (W c i N).
Abbreviation wp := (wp c i N).
Abbreviation safe := (safe c i N).
Abbreviation R := (R c i N).
Abbreviation Ri := (Ri c i N).

(** While a message is handled, [nt] still has it at the head of its channel
    and [nt'] has it no more: the machine takes it when it acts on it. *)
Context (nt nt' : gmap (Z * Z) (list MMonPaxos)).
Hypothesis Htake : forall n a, W nt n a -> exists a', steps a a' /\ W nt' n a' /\ an a' = an a /\ alog a' = alog a.

Lemma Hpop n a : W nt n a -> safe nt' n a.
Proof. intros HW. destruct (Htake n a HW) as (a' & ? & ? & _). by exists a'. Qed.

Lemma R_take n a : R nt n a -> exists a', steps a a' /\ R nt' n a' /\ an a' = an a /\ alog a' = alog a.
Proof.
  intros (HW & HL & Hd). destruct (Htake n a HW) as (a' & Hs & HW' & Hn & Hl). exists a'.
  split; [done |]. split; [| done]. split; [done |]. split; [by rewrite Hl, Hn | done].
Qed.

(** ** Writing what was shared *)

(** The node that may learn, and what it keeps. *)
Definition learner (n : node) (r : role) : Prop :=
  match r with
  | RLead q (PCollect _ w) => quorum n = q /\ unc_rel n w
  | RLead _ _ => False
  | _ => True
  end.

Definition same_learner (r r' : role (V := Transaction)) : Prop :=
  match r, r' with
  | RLead q (PCollect resp _), RLead q' (PCollect resp' _) => q' = q /\ resp' = resp
  | _, _ => r' = r
  end.

Definition kept (n n' : node) : Prop :=
  core n' = core (set_store (store n') (set_last_committed (last_committed n') (set_first_committed (first_committed n')
    (set_uncommitted_v (uncommitted_v n') (set_uncommitted_pn (uncommitted_pn n')
    (set_uncommitted_value (uncommitted_value n') n)))))) /\ outbox n' = outbox n.

Lemma learner_learns n r : learner n r -> may_learn r.
Proof. destruct r as [| | q []]; done. Qed.

Lemma W_learn n n' a v l t : W nt n a -> may_learn (a_role (an a i)) ->
  good_values (alog a) (a_lc (an a i) + 1) l -> l <> [] -> v = a_lc (an a i) + zlen l -> v <= zlen (alog a) -> values_tx l = Some t ->
  rank n' = rank n -> epoch n' = epoch n -> accepted_pn n' = accepted_pn n -> last_pn n' = last_pn n -> outbox n' = outbox n ->
  store n' = apply_transaction (put_num paxos_name "last_committed" v :: t) (store n) ->
  let a' := set_an a i (with_role (learned_role (a_role (an a i))) (with_lc v (an a i))) in
  steps a a' /\ W nt n' a'.
Proof.
  intros HW Hml Hg Hne -> Hv Ht Hr He Hacc Hlpn Ho Hst a'.
  assert (Hz : 0 < zlen l) by (unfold zlen; destruct l; [done | cbn; lia]).
  assert (Hs : step a a') by (apply S_learn; [done | lia]).
  split; [by apply rtc_once |]. destruct (w_base _ _ _ _ _ _ HW) as [B1 B2 B3 B4 B5 B6 B7].
  destruct (disk_store _ _ _ _ l (inv_log_ok c a (w_inv _ _ _ _ _ _ HW)) B7 Hg Hne Hv) as (t' & Ht' & Hd & Hm).
  rewrite Ht in Ht'. injection Ht' as <-. rewrite <- Hst in Hd, Hm.
  eapply W_local; [exact HW | done | done | cbn; lia |].
  split; cbn; congruence.
Qed.

(** The range that is applied, where there is one. *)
Lemma store_range log av mlc lc l u : committed_values log av mlc l -> Forall (fun e => mlc < e.1) u ->
  match l ++ u with (v, _) :: _ => lc + 1 <? v | [] => false end = false ->
  let range := take_upto mlc (skip_upto lc (l ++ u)) in
  match last range with
  | None => mlc <= lc \/ lc + 1 < av
  | Some (v, _) => v = mlc /\ range <> [] /\ good_values log (lc + 1) range /\ mlc = lc + zlen range /\ mlc <= zlen log
  end.
Proof.
  intros Hcv Hu Hh range. pose proof Hcv as (Ha & Hlog & Hg & Hz).
  destruct (decide (lc + 1 < av)) as [Hgap | Hgap].
  - assert (l = []) as ->.
    { destruct l as [| [v x] l]; [done |]. destruct Hg as (-> & _). cbn in Hh. lia. }
    unfold range. rewrite take_upto_none; [by right |]. by apply skip_upto_forall.
  - unfold range. rewrite (range_good log av) by (done || lia).
    set (k := Z.to_nat (lc + 1 - av)). pose proof (good_drop log av l k Hg) as Hgd.
    replace (av + Z.of_nat k) with (lc + 1) in Hgd by lia.
    assert (Hzd : zlen (drop k l) = Z.max 0 (mlc - lc)) by (unfold zlen in *; rewrite length_drop; lia).
    destruct (last (drop k l)) as [[v x] |] eqn:Hl.
    + assert (Hne : drop k l <> []) by (by intros E; rewrite E in Hl).
      assert (0 < zlen (drop k l)) by (unfold zlen; destruct (drop k l); [done | cbn; lia]).
      pose proof (good_last _ _ _ _ _ Hgd Hl). split; [lia |]. split; [done |]. split; [done |]. lia.
    + apply last_None in Hl. rewrite Hl in Hzd. unfold zlen in Hzd. cbn in Hzd. lia.
Qed.

(** The write itself, once the range is known. *)
Lemma wp_learn v l t (Q : bool -> node -> astate -> Prop) n0 n a : W nt n a -> idle n0 (a_lc (an a i)) -> kept n0 n ->
  learner n0 (a_role (an a i)) ->
  (forall q resp w, a_role (an a i) = RLead q (PCollect resp w) -> uncommitted_v n = 0 /\ uncommitted_pn n = 0 /\ uncommitted_value n = bl_empty) ->
  good_values (alog a) (a_lc (an a i) + 1) l -> l <> [] -> v = a_lc (an a i) + zlen l -> v <= zlen (alog a) -> values_tx l = Some t ->
  last_committed n = v ->
  (forall n' a', W nt n' a' -> idle n' (a_lc (an a' i)) -> kept n0 n' -> learner n' (a_role (an a' i)) ->
     same_learner (a_role (an a i)) (a_role (an a' i)) -> last_committed n' = v -> Q true n' a') ->
  wp nt' (run_tx (put_num paxos_name "last_committed" v :: t);; fc ← get_key "first_committed";
          upd (set_first_committed fc);; sanity_check_store;; mret true) Q n a.
Proof.
  intros HW Hid [Hk Hko] Hln Hunc Hg Hne Hv Hvl Ht Hlc HQ. apply wp_bind.
  destruct (W_learn n (set_store (apply_transaction (put_num paxos_name "last_committed" v :: t) (store n)) n) a v l t)
    as [Hs HW1]; try done; [by eapply learner_learns |]. cbn zeta in Hs, HW1.
  eapply wp_steps; [exact Hs |]. apply wp_upd. intros n1 Hn1. rewrite <- Hn1 in HW1.
  apply wp_bind, wp_bind, wp_self, wp_option; [by apply Hpop |]. intros fc Hfc. apply wp_bind, wp_upd. intros n2 Hn2.
  assert (HW2 : W nt n2 (set_an a i (with_role (learned_role (a_role (an a i))) (with_lc v (an a i)))))
    by (eapply W_same; [| exact HW1]; by rewrite Hn2).
  apply wp_bind, wp_bind, wp_bind, wp_self, wp_option; [by apply Hpop |]. intros lc _.
  apply wp_bind, wp_self, wp_assert; [by apply Hpop |]. intros _. apply wp_ret.
  core_eqs Hk. apply HQ; [done | | | | | by rewrite Hn2, Hn1]; rewrite ?an_set_eq; cbn [a_lc a_role with_role with_lc].
  - destruct Hid as (I1 & I2 & I3 & I4 & I5). rewrite Hn2, Hn1. split_and!; cbn -[apply_transaction]; try congruence.
    + rewrite Hn1 in Hfc. symmetry. by apply get_num_of.
    + rewrite <- I5. by apply writing_eq.
  - split; [| rewrite Hn2, Hn1; done]. rewrite Hn2, Hn1. unfold core. cbn -[apply_transaction]. congruence.
  - rewrite Hn2, Hn1. destruct (a_role (an a i)) as [| | q [resp w | | |]]; try done. cbn. split; [| by eapply Hunc].
    destruct Hln as [<- _]. done.
  - destruct (a_role (an a i)) as [| | q []]; done.
Qed.

Lemma wp_store_state m l u av (Q : bool -> node -> astate -> Prop) n a : W nt n a -> idle n (a_lc (an a i)) ->
  learner n (a_role (an a i)) -> m_values m = l ++ u -> committed_values (alog a) av (m_last_committed m) l ->
  Forall (fun e => m_last_committed m < e.1) u ->
  (forall b n' a', W nt n' a' -> idle n' (a_lc (an a' i)) -> kept n n' -> learner n' (a_role (an a' i)) ->
     same_learner (a_role (an a i)) (a_role (an a' i)) ->
     last_committed n <= last_committed n' -> m_last_committed m <= last_committed n' \/ last_committed n + 1 < av -> Q b n' a') ->
  wp nt' (store_state m) Q n a.
Proof.
  intros HW Hid Hln Hm Hcv Hu HQ. unfold store_state. apply wp_bind, wp_self. rewrite Hm.
  assert (Hsame : forall r, same_learner r r) by (intros [| | q []]; done).
  pose proof Hcv as (Ha & Hlog & Hg & Hz).
  destruct (match l ++ u with (v, _) :: _ => last_committed n + 1 <? v | [] => false end) eqn:Hh.
  { apply wp_ret, HQ; try done.
    destruct l as [| [v x] l]; [unfold zlen in Hz; cbn in Hz; lia | destruct Hg as (-> & _); cbn in Hh; lia]. }
  pose proof (store_range _ av _ _ _ _ Hcv Hu Hh) as Hrange. cbn zeta in *.
  destruct (last _) as [[v x] |] eqn:Hl; [| apply wp_ret, HQ; try done; lia].
  destruct Hrange as (-> & Hne & Hgr & Hv & Hvl). set (range := take_upto _ _) in *. clearbody range.
  assert (Hml : may_learn (a_role (an a i))) by (by apply learner_learns with (n := n)).
  assert (Hgr' : good_values (alog a) (a_lc (an a i) + 1) range) by (destruct Hid as (<- & _); done).
  apply wp_bind, wp_upd. intros n1 Hn1. apply wp_bind.
  destruct (disk_store _ _ _ _ range (inv_log_ok c a (w_inv _ _ _ _ _ _ HW)) (b_disk _ _ _ _ (w_base _ _ _ _ _ _ HW)) Hgr' Hne)
    as (t & Ht & _); [destruct Hid as (<- & _); lia |].
  eapply wp_run; [rewrite apply_values_run, Ht; done |].
  apply wp_bind.
  assert (Hk : forall n2, kept n n2 -> W nt n2 a -> last_committed n2 = m_last_committed m ->
    (forall q resp w, a_role (an a i) = RLead q (PCollect resp w) ->
       uncommitted_v n2 = 0 /\ uncommitted_pn n2 = 0 /\ uncommitted_value n2 = bl_empty) ->
    wp nt' (run_tx (put_num paxos_name "last_committed" (m_last_committed m) :: t);; fc ← get_key "first_committed";
      upd (set_first_committed fc);; sanity_check_store;; mret true) Q n2 a).
  { intros n2 Hk2 HW2 Hlc2 Hunc. eapply wp_learn with (l := range); try done; [destruct Hid as (<- & _); lia |].
    intros n' a' HW' Hid' Hk' Hl' Hs' Hlc'. apply HQ; try done; unfold zlen in *; lia. }
  assert (Hw1 : W nt n1 a) by (eapply W_same; [| exact HW]; by rewrite Hn1).
  apply wp_when; intros Hb; [apply wp_upd; intros n2 Hn2 |].
  - apply Hk; rewrite ?Hn2, ?Hn1; try done. by eapply W_same; [| exact HW].
  - apply Hk; [by rewrite Hn1 | done | by rewrite Hn1 |]. rewrite Hn1. intros q resp w Hr. rewrite Hr in Hln. destruct Hln as [_ Hw].
    destruct w as [[p y] |]; [| done]. destruct Hw as (Hv1 & _). cbn. exfalso.
    assert (0 < zlen range) by (unfold zlen; destruct range; [done | cbn; lia]).
    pose proof (I_node _ _ _ _ (w_inv _ _ _ _ _ _ HW) i) as ((H0 & _) & _). destruct Hid as (Hlc & _). lia.
Qed.

(** ** Bringing the peers up to date *)

(** The leader in phase 1. *)
Definition coll (n : node) (a : astate) : Prop :=
  R nt n a /\ mstate n = MON_LEADER /\ exists resp w, a_role (an a i) = RLead (quorum n) (PCollect resp w).

Lemma coll_idle n a : coll n a -> idle n (a_lc (an a i)) /\ pending_ok n /\ 0 < accepted_pn n /\ learner n (a_role (an a i)) /\
  Forall (fun e => 0 <= e.2) (peer_last_committed n).
Proof.
  intros ((_ & HL & _) & Hm & resp & w & Hr). unfold live_rel in HL. rewrite Hm in HL.
  destruct HL as (Hpos & Hpd & ph & Hr' & Hph). rewrite Hr in Hr'. injection Hr' as <-.
  destruct Hph as (Hid & _ & _ & Hu & Hp). rewrite Hr. split_and!; done.
Qed.

Lemma coll_core n n' a a' : coll n a -> core n' = core n -> W nt n' a' -> an a' = an a -> alog a' = alog a -> coll n' a'.
Proof.
  intros ((_ & HL & Hd) & Hm & resp & w & Hr) Hc HW Hn Hl. assert (Hm' : mstate n' = MON_LEADER) by (core_eqs Hc; congruence).
  split_and!; [| done |].
  - split_and!; [done | rewrite Hl, Hn; by eapply core_live | congruence].
  - exists resp, w. rewrite Hn, Hr. core_eqs Hc. congruence.
Qed.

Lemma wp_update_peers peers (Q : bool -> node -> astate -> Prop) n a : coll n a -> Forall (fun e => 0 <= e.2) peers ->
  (forall n' a', coll n' a' -> core n' = core n -> an a' = an a -> alog a' = alog a -> Q true n' a') ->
  (forall n' a', R nt' n' a' -> Q false n' a') -> wp nt' (update_peers c e peers) Q n a.
Proof.
  intros Hcl Hp. revert n a Hcl. induction Hp as [| [p lc] peers Hlc _ IH]; intros n a Hcl HQ1 HQ2.
  { apply wp_ret. by apply HQ1. }
  cbn [update_peers]. apply wp_bind, wp_self. pose proof (coll_idle n a Hcl) as (Hid & _). pose proof Hcl as (HR & _). pose proof HR as (HW & _).
  destruct ((lc + 1 <? first_committed n) && (1 <? first_committed n)).
  - destruct (R_take n a HR) as (a1 & Hs & HR1 & _). eapply wp_steps; [done |].
    apply wp_bind, wp_bootstrap; try done. intros n2 a2 HR2. by apply wp_ret, HQ2.
  - assert (Hk : forall n' a', coll n' a' -> core n' = core n -> an a' = an a -> alog a' = alog a -> wp nt' (update_peers c e peers) Q n' a').
    { intros n' a' Hcl' Hc' Hn' Hl'. apply IH; [done | | done]. intros n2 a2 Hcl2 Hc2 Hn2 Hl2. apply HQ1; [done | congruence ..]. }
    apply wp_bind, wp_when; intros Hb; [| by apply Hk]. apply wp_bind.
    pose proof (b_disk _ _ _ _ (w_base _ _ _ _ _ _ HW)) as Hd. destruct Hid as (Hlcn & _). rewrite <- Hlcn in Hd. cbn in Hlc.
    destruct (share_state_run _ n _ {| m_epoch := epoch n; m_op := OP_COMMIT; m_first_committed := 0; m_last_committed := 0;
      m_pn_from := 0; m_pn := 0; m_uncommitted_pn := 0; m_lease_timestamp := 0; m_values := [] |} lc
      (inv_log_ok c a (w_inv _ _ _ _ _ _ HW)) Hd) as (l & m & Hrun & Hcv & Hml & Hmlc & Hop & _); [lia | done |].
    eapply wp_run; [exact Hrun |].
    destruct (W_send c i N nt n a p m HW) as (a1 & Hs & HW1 & Hn1 & Hl1).
    { intros lcj. unfold msg_rel. rewrite Hop. split; [done |]. rewrite Hmlc, Hml. by eexists. }
    eapply wp_steps; [done |]. apply wp_upd. intros n1 Hn1'. rewrite <- Hn1' in HW1. apply Hk; try done; [| by rewrite Hn1'].
    eapply coll_core; [done | by rewrite Hn1' | done ..].
Qed.
End Store.
