(* ===== verification/PaxosSimPeon.v ===== *)
(** * The monitors implement the protocol: the peon's handlers

    A promise and a vote are each one step of the machine; the other handlers
    of a peon move along the log or do nothing the machine sees. *)

From stdpp Require Import strings functions sorting relations.
From S2P Require Import Prelude MonitorDBStore Paxos PaxosSystem PaxosSpec PaxosInv PaxosDisk PaxosSim PaxosSimOps PaxosSimCommit PaxosSimCollect PaxosSimStore.

(** ** The answer to a collect *)

(** The fields of the answer, around the versions it carries. *)
Definition last_fields (ep fc lc pn : Z) (r : MMonPaxos) : Prop :=
  m_op r = OP_LAST /\ m_epoch r = ep /\ m_first_committed r = fc /\ m_last_committed r = lc /\ m_pn r = pn.

Lemma reply_values log n pend r ep fc pn mlc : log_ok log -> disk log (store n) (last_committed n) pend ->
  fc = num_of (store n !! fc_key) -> 0 <= mlc -> last_fields ep fc (last_committed n) pn r -> m_values r = [] -> m_uncommitted_pn r = 0 ->
  exists r' l av, (if mlc <? last_committed n then share_state r mlc else mret r) n = (Some r', n) /\
    last_fields ep fc (last_committed n) pn r' /\ m_uncommitted_pn r' = 0 /\ m_values r' = l /\
    committed_values log av (last_committed n) l /\ (last_committed n <= mlc \/ av <= Z.max fc (mlc + 1)).
Proof.
  intros Hok Hd Hfc Hmlc (F1 & F2 & F3 & F4 & F5) Hv Hu. destruct (Z.ltb_spec mlc (last_committed n)) as [Hlt | Hge].
  - destruct (share_state_run log n pend r mlc Hok Hd) as (l & r' & Hrun & Hcv & Hl & Hlc & Hop & Hep & Hf & Hpn & Hup); [lia | done |].
    exists r', l, (Z.max (mlc + 1) fc). rewrite Hfc. split; [done |]. split; [unfold last_fields; by rewrite Hop, Hep, Hf, Hlc, Hpn, F1, F2, F3, F5, Hfc |].
    split; [congruence |]. split; [done |]. split; [done |]. lia.
  - exists r, [], (last_committed n + 1). destruct Hd as (Hlc & _). split; [done |]. split; [done |]. split; [done |]. split; [done |].
    split; [| by left]. split; [lia |]. split; [lia |]. split; [done |]. unfold zlen. cbn. lia.
Qed.

Lemma committed_below log a lc l : committed_values log a lc l -> Forall (fun e => e.1 < lc + 1) l.
Proof.
  intros (_ & _ & Hg & Hz). revert a Hg Hz. induction l as [| [v x] l IH]; intros a; [constructor |]. intros (-> & _ & Hl) Hz.
  unfold zlen in *. cbn [length] in Hz. constructor; [cbn; lia |]. apply (IH (a + 1)); [done | lia].
Qed.

(** The answer with the accepted value [u]. *)
Definition with_unc (r : MMonPaxos) (lc : Z) (pn : Z) (bl : bufferlist) : MMonPaxos :=
  {| m_epoch := m_epoch r; m_op := m_op r; m_first_committed := m_first_committed r; m_last_committed := m_last_committed r;
     m_pn_from := m_pn_from r; m_pn := m_pn r; m_uncommitted_pn := pn; m_lease_timestamp := m_lease_timestamp r;
     m_values := map_set (m_values r) (lc + 1) bl |}.

Lemma reply_unc log n pend r ep fc pn mlc l av prev lcj : disk log (store n) (last_committed n) pend -> mlc <= lcj ->
  last_fields ep fc (last_committed n) pn r -> m_uncommitted_pn r = 0 -> m_values r = l ->
  committed_values log av (last_committed n) l -> last_committed n <= mlc \/ av <= Z.max fc (mlc + 1) ->
  exists r', (if (mlc <=? last_committed n) && exists_ver (store n) paxos_name (last_committed n + 1) then
     assert (bl_nonempty (get_bl (store n) paxos_name (last_committed n + 1)));;
     p ← pending_pn_or prev; mret (with_unc r (last_committed n) p (get_bl (store n) paxos_name (last_committed n + 1)))
   else mret r) n = (Some r', n) /\
    msg_rel log lcj r' (ALast ep pn (last_committed n) (if mlc <=? last_committed n then pend else None)).
Proof.
  intros Hd Hlcj (F1 & F2 & F3 & F4 & F5) Hu Hl Hcv Hav. rewrite (disk_pend_exists _ _ _ _ Hd). pose proof Hd as (Hlc & _ & _ & Hp).
  assert (Hplain : msg_rel log lcj r (ALast ep pn (last_committed n) None)).
  { unfold msg_rel. rewrite F1, F2, F3, F4, F5. exists None, av, l. split_and!; try done; [lia | cbn; by rewrite app_nil_r | lia]. }
  destruct (mlc <=? last_committed n); [| by exists r]. destruct pend as [[p x] |]; [| by exists r].
  destruct Hp as (Hx & _ & _ & Hpos). exists (with_unc r (last_committed n) p (BTransaction x)). split.
  - cbn [andb bool_decide]. unfold get_bl. fold (vkey (last_committed n + 1)). rewrite Hx. cbn.
    unfold assert, mbind, M_bind, mret, M_ret. cbn. by rewrite (pending_pn_run _ _ _ _ _ Hd).
  - unfold msg_rel, with_unc. cbn. rewrite F1, F2, F3, F4, F5. exists (Some (p, x)), av, l.
    split; [done |]. split; [lia |]. split; [done |]. split; [by intros ? ? [= <- <-] |]. split; [| split; [done | lia]].
    rewrite Hl. cbn. pose proof (map_set_split l [] (last_committed n + 1) (BTransaction x)) as Hms. rewrite app_nil_r in Hms.
    apply Hms; [by eapply committed_below | constructor].
Qed.

Section Peon.
Context (c : conf) (e : env).
Hypothesis Hsize : 1 < monmap_size c <= 100.
Hypothesis Htrim : 0 <= paxos_min c /\ 0 <= paxos_trim_min c /\ paxos_min c + paxos_trim_min c < 2 ^ 31.
Context (i : Z) (N : gmap Z node).

Abbreviation step := (astep tx_eqv tx_ok (ranks c)).
Abbreviation steps := (asteps tx_eqv tx_ok (ranks c)).
Abbreviation inv := (Inv tx_eqv tx_ok (ranks c)).
Abbreviation W := (W c i N).
Abbreviation wp := (wp c i N).
Abbreviation R := (R c i N).

Context (from : Z) (m : MMonPaxos) (q : list MMonPaxos) (nt : gmap (Z * Z) (list MMonPaxos)).
Hypothesis Hhead : nt !! (from, i) = Some (m :: q).

Abbreviation nt' := (<[(from, i) := q]> nt).

Lemma take_head n a : W nt n a -> exists a', steps a a' /\ W nt' n a' /\ an a' = an a /\ alog a' = alog a.
Proof. exact (W_pop c i N from m q nt Hhead n a). Qed.

Lemma wp_pop {A} (mm : M A) (Q : A -> node -> astate -> Prop) n a : R nt n a ->
  (forall a', R nt' n a' -> an a' = an a -> alog a' = alog a -> wp nt' mm Q n a') -> wp nt' mm Q n a.
Proof.
  intros HR HQ. destruct (R_take c i N nt nt' take_head n a HR) as (a' & Hs & HR' & Hn & Hl).
  eapply wp_steps; [done |]. by apply HQ.
Qed.

(** The channels when the machine takes the message and answers it. *)
Lemma chans_reply n n' a a' am l rm ram : chans_rel i nt n a -> anet a (from, i) = am :: l ->
  outbox n' = outbox n ++ [(from, rm)] ->
  anet a' = <[(i, from) := <[(from, i) := l]> (anet a) (i, from) ++ [ram]]> (<[(from, i) := l]> (anet a)) ->
  alog a' = alog a -> (forall y, a_lc (an a y) <= a_lc (an a' y)) -> msg_rel (alog a) (a_lc (an a' from)) rm ram ->
  chans_rel i nt' n' a'.
Proof.
  intros Hc Hm Ho Hn Hl Hlc Hr.
  pose proof (pop_chans i from m q nt Hhead n a Hc) as Hp. rewrite Hm in Hp. cbn [tail] in Hp.
  eapply (chans_send i nt' n n' (set_chan a from i l)); done.
Qed.

(** ** Phase 1 *)

Lemma head_from n a : W nt n a -> m_op m <> OP_COMMIT -> m_op m <> OP_LEASE -> m_op m <> OP_LEASE_ACK ->
  exists am l, anet a (from, i) = am :: l /\ msg_rel (alog a) (a_lc (an a i)) m am /\ msg_inv a from i am /\ from <> i.
Proof.
  intros HW H1 H2 H3. destruct (pop_head c i N from m q nt Hhead n a HW) as (am & l & Hm & Hr). exists am, l.
  assert (Hi : msg_inv a from i am) by (apply (I_msg _ _ _ _ (w_inv _ _ _ _ _ _ HW)); rewrite Hm; left).
  split; [done |]. split; [done |]. split; [done |]. unfold msg_rel in Hr. destruct (m_op m); try done.
  - destruct Hr as [-> _]. apply Hi.
  - destruct Hr as (u & av & l' & -> & _). apply Hi.
  - destruct Hr as (x & -> & _). apply Hi.
  - rewrite Hr in Hi. apply Hi.
Qed.

(** What a promise leaves on disk and in memory. *)
Definition promised (n n' : node) (p : Z) : Prop :=
  core n' = core (set_accepted_pn (accepted_pn n') (set_store (store n') n)) /\ outbox n' = outbox n /\
  accepted_pn n' = Z.max (accepted_pn n) p /\
  (store n' = store n \/ store n' = apply_transaction [put_num paxos_name "accepted_pn" p] (store n)).

Lemma promised_store n n' p : promised n n' p ->
  (forall log lc pend, disk log (store n) lc pend -> disk log (store n') lc pend) /\
  get_num (store n') paxos_name "last_pn" = get_num (store n) paxos_name "last_pn" /\ store n' !! fc_key = store n !! fc_key.
Proof.
  intros (_ & _ & _ & [-> | ->]); [done |]. split_and!; [| by key_simpl ..].
  intros log lc pend Hd. apply disk_meta; [set_solver | done].
Qed.

Lemma W_promise n n1 n' a l lc r : W nt n a -> anet a (from, i) = ACollect (epoch n) (m_pn m) lc :: l -> from <> i ->
  a_role (an a i) = RPeon -> promised n n1 (m_pn m) -> same_base (set_outbox (outbox n1 ++ [(from, r)]) n1) n' ->
  msg_rel (alog a) (a_lc (an a from)) r (ALast (epoch n) (accepted_pn n1) (a_lc (an a i)) (report (an a i) lc)) ->
  exists a', steps a a' /\ W nt' n' a' /\ a_role (an a' i) = RPeon /\ a_lc (an a' i) = a_lc (an a i).
Proof.
  intros HW Hm Hne Hr Hpr Hb Hrel. destruct (w_base _ _ _ _ _ _ HW) as [B1 B2 B3 B4 B5 B6 B7].
  pose proof (S_promise tx_eqv tx_ok (ranks c) a from i (epoch n) (m_pn m) lc l Hm B2 Hr) as Hs. cbn zeta in Hs.
  set (a' := set_chan _ _ _ _) in Hs. exists a'.
  assert (Hi : an a' i = with_acc (Z.max (a_acc (an a i)) (m_pn m)) (an a i)) by (cbn; by fn_simpl).
  split; [by apply rtc_once |]. split; [| by rewrite Hi].
  destruct (promised_store _ _ _ Hpr) as (Hd & Hlp & _). destruct Hpr as (Hc & Ho & Hacc & _). core_eqs Hc.
  destruct Hb as (S1 & S2 & S3 & S4 & S5 & S6). cbn in S1, S2, S3, S4, S5, S6.
  eapply W_step; [exact HW | done | | done | |].
  - rewrite Hi. split; cbn; try congruence. rewrite S5. by apply Hd.
  - intros j Hj. unfold a'. cbn. by fn_simpl.
  - eapply (chans_reply n n' a a' _ l r); [apply HW | exact Hm | by rewrite S6, Ho | done | done | |].
    + intros y. unfold a'. cbn. destruct (decide (i = y)) as [<- |]; fn_simpl; done.
    + unfold a'. cbn. fn_simpl. rewrite B3, <- Hacc. exact Hrel.
Qed.

Lemma peon_R k n n' a : R k n a -> mstate n = MON_PEON -> core n' = core (set_state (state n') n) -> outbox n' = outbox n ->
  writing n' = false -> R k n' a.
Proof.
  intros (HW & HL & _) Hm Hc Ho Hw. core_eqs Hc. assert (Hm' : mstate n' = MON_PEON) by congruence.
  split_and!; [eapply W_same, HW; unfold same_base; split_and!; congruence | | congruence].
  unfold live_rel in *. rewrite Hm in HL. rewrite Hm'. destruct HL as [? Hid]. split; [done |].
  eapply idle_eq, Hid; try congruence. by right.
Qed.

Lemma wp_promise_write (Q : unit -> node -> astate -> Prop) n a b : b = (accepted_pn n <? m_pn m) ->
  (forall n', promised n n' (m_pn m) -> Q tt n' a) ->
  wp nt' (when b (upd (fun n => set_accepted_pn (m_pn m) (set_accepted_pn_from (m_pn_from m) n));;
    run_tx [put_num paxos_name "accepted_pn" (m_pn m)])) Q n a.
Proof.
  intros -> HQ. apply wp_when; intros Hb; [apply wp_bind, wp_upd; intros n1 Hn1; apply wp_upd; intros n2 Hn2 |]; apply HQ.
  - rewrite Hn2, Hn1. split_and!; [done | done | cbn; lia | by right].
  - split_and!; [done | done | lia | by left].
Qed.

(** The answer of a peon that has promised. *)
Lemma wp_reply (Q : unit -> node -> astate -> Prop) n n3 a : R nt n a -> mstate n = MON_PEON -> m_op m = OP_COLLECT ->
  m_epoch m = epoch n -> promised n n3 (m_pn m) -> (forall n' a', R nt' n' a' -> Q tt n' a') ->
  wp nt' (let reply := {| m_epoch := epoch n; m_op := OP_LAST; m_first_committed := first_committed n;
      m_last_committed := last_committed n; m_pn_from := accepted_pn_from n3; m_pn := accepted_pn n3; m_uncommitted_pn := 0;
      m_lease_timestamp := 0; m_values := [] |} in
    reply ← (if m_last_committed m <? last_committed n then share_state reply (m_last_committed m) else mret reply);
    reply ← (if (m_last_committed m <=? last_committed n) && exists_ver (store n3) paxos_name (last_committed n + 1) then
       assert (bl_nonempty (get_bl (store n3) paxos_name (last_committed n + 1)));;
       p ← pending_pn_or (accepted_pn n); mret (with_unc reply (last_committed n) p (get_bl (store n3) paxos_name (last_committed n + 1)))
     else mret reply);
    send from reply) Q n3 a.
Proof.
  intros (HW & HL & _) Hm Hop Hep Hp3 HQ. cbn zeta.
  unfold live_rel in HL. rewrite Hm in HL. destruct HL as [Hr Hid]. pose proof Hid as (Hlc & Hfc & I3 & I4 & I5).
  destruct (promised_store _ _ _ Hp3) as (Hd3 & _ & Hf3). pose proof Hp3 as (Hc3 & _). core_eqs Hc3.
  assert (E4 : last_committed n3 = last_committed n) by congruence.
  destruct (head_from n a HW) as (am & l & Hhd & Hrel & Hinv & Hne); [by rewrite Hop ..|].
  unfold msg_rel in Hrel. rewrite Hop, Hep in Hrel. destruct Hrel as [-> Hmlc]. destruct Hinv as (_ & _ & _ & _ & _ & Hlj).
  pose proof (Hd3 _ _ _ (b_disk _ _ _ _ (w_base _ _ _ _ _ _ HW))) as Hd. rewrite <- Hlc, <- E4 in Hd.
  rewrite <- E4. apply wp_bind.
  destruct (reply_values _ n3 _ {| m_epoch := epoch n; m_op := OP_LAST; m_first_committed := first_committed n;
    m_last_committed := last_committed n3; m_pn_from := accepted_pn_from n3; m_pn := accepted_pn n3; m_uncommitted_pn := 0;
    m_lease_timestamp := 0; m_values := [] |} (epoch n) (first_committed n) (accepted_pn n3) (m_last_committed m)
    (inv_log_ok c a (w_inv _ _ _ _ _ _ HW)) Hd) as (r & vs & av & Hrun & Hfl & Hu & Hvs & Hcv & Hav); try done; [congruence |].
  eapply wp_run; [exact Hrun |]. apply wp_bind.
  destruct (reply_unc _ n3 _ r _ _ _ _ vs av (accepted_pn n) (a_lc (an a from)) Hd Hlj Hfl Hu Hvs Hcv Hav) as (r' & Hrun' & Hmr).
  eapply wp_run; [exact Hrun' |].
  destruct (W_promise n n3 (set_outbox (outbox n3 ++ [(from, r')]) n3) a l (m_last_committed m) r')
    as (a' & Hs & HW' & Hr' & Hlc'); try done.
  { rewrite <- Hlc, <- E4. unfold report. rewrite <- Hlc, <- E4. exact Hmr. }
  eapply wp_steps; [exact Hs |]. apply wp_upd. intros n4 ->. apply HQ.
  assert (Hm3 : mstate n3 = MON_PEON) by congruence.
  split_and!; [done | | cbn; congruence]. unfold live_rel. cbn [mstate set_outbox]. rewrite Hm3, Hlc'. split; [done |].
  split_and!; cbn; try congruence. by rewrite <- I5, <- (writing_eq n n3).
Qed.

Lemma wp_handle_collect (Q : unit -> node -> astate -> Prop) n a : R nt n a -> m_op m = OP_COLLECT -> m_epoch m = epoch n ->
  (forall n' a', R nt' n' a' -> Q tt n' a') -> wp nt' (handle_collect c e from m) Q n a.
Proof.
  intros HR Hop Hep HQ. pose proof HR as (HW & _). unfold handle_collect. apply wp_bind, wp_self.
  apply wp_bind, wp_assert; [by eapply Hpop, HW; apply take_head |]. intros Hm%bool_decide_eq_true.
  apply wp_bind, wp_upd. intros n1 Hn1. apply wp_bind, wp_quiet; [auto with paxos |]. intros n2 Hc2 Ho2. rewrite Hn1 in Hc2, Ho2.
  assert (HR2 : R nt n2 a).
  { eapply peon_R; [exact HR | done | rewrite Hc2; core_eqs Hc2; unfold core; cbn; congruence | done |].
    rewrite (writing_eq (set_state STATE_RECOVERING n) n2); [done |]. by core_eqs Hc2. }
  destruct (last_committed n + 1 <? m_first_committed m).
  { apply wp_pop; [done |]. intros a' HR' _ _. by apply wp_bootstrap. }
  core_eqs Hc2.
  assert (E1 : last_committed n = last_committed n2) by done. assert (E2 : epoch n = epoch n2) by done.
  assert (E3 : first_committed n = first_committed n2) by done. assert (E4 : accepted_pn n = accepted_pn n2) by done.
  rewrite E1, E2, E3, E4 in *. apply wp_bind, wp_promise_write; [done |]. intros n3 Hp3. apply wp_bind, wp_self.
  apply (wp_reply Q n2 n3 a); try done. congruence.
Qed.

(** ** Phase 2 *)

Definition accept_msg (ep lc pn : Z) : MMonPaxos :=
  {| m_epoch := ep; m_op := OP_ACCEPT; m_first_committed := 0; m_last_committed := lc; m_pn_from := 0; m_pn := pn;
     m_uncommitted_pn := 0; m_lease_timestamp := 0; m_values := [] |}.

Lemma W_vote n n' a l x : W nt n a -> anet a (from, i) = ABegin (epoch n) (accepted_pn n) (a_lc (an a i)) x :: l ->
  from <> i -> a_role (an a i) = RPeon -> 0 < accepted_pn n ->
  rank n' = rank n -> epoch n' = epoch n -> accepted_pn n' = accepted_pn n -> last_pn n' = last_pn n ->
  store n' = apply_transaction (accept_tx (a_lc (an a i)) (accepted_pn n) (BTransaction x)) (store n) ->
  outbox n' = outbox n ++ [(from, accept_msg (epoch n) (a_lc (an a i)) (accepted_pn n))] ->
  exists a', steps a a' /\ W nt' n' a' /\ a_role (an a' i) = RPeon /\ a_lc (an a' i) = a_lc (an a i).
Proof.
  intros HW Hm Hne Hr Hpos S1 S2 S3 S4 S5 S6. destruct (w_base _ _ _ _ _ _ HW) as [B1 B2 B3 B4 B5 B6 B7].
  pose proof (S_vote tx_eqv tx_ok (ranks c) a from i _ _ _ x l Hm B2 Hr B3 eq_refl) as Hs. cbn zeta in Hs.
  set (a' := AState _ _ _ _ _) in Hs. exists a'.
  assert (Hi : an a' i = with_pend (accepted_pn n) x (an a i)) by (cbn; by fn_simpl).
  split; [by apply rtc_once |]. split; [| by rewrite Hi].
  eapply W_step; [exact HW | done | | done | |].
  - rewrite Hi. split; cbn; try congruence; [rewrite S5, accept_tx_last_pn; congruence | rewrite S5; by eapply disk_accept].
  - intros j Hj. unfold a'. cbn. by fn_simpl.
  - eapply (chans_reply n n' a a' _ l); [apply HW | exact Hm | exact S6 | done | done | | done].
    intros y. unfold a'. cbn. destruct (decide (i = y)) as [<- |]; fn_simpl; done.
Qed.

(** Only the owner of a proposal number begins with it, so a leader never gets
    its own number in a begin. *)
Lemma begin_not_leader n a x l lc ph qq : W nt n a -> anet a (from, i) = ABegin (epoch n) (accepted_pn n) lc x :: l ->
  msg_inv a from i (ABegin (epoch n) (accepted_pn n) lc x) -> a_role (an a i) = RLead qq ph -> False.
Proof.
  intros HW Hm (Hne & _ & _ & Hmod & _) Hr. destruct (I_lead _ _ _ _ (w_inv _ _ _ _ _ _ HW) i _ _ Hr) as (_ & _ & Hi & _).
  rewrite (b_acc _ _ _ _ (w_base _ _ _ _ _ _ HW)) in Hi. congruence.
Qed.

Lemma wp_handle_begin (Q : unit -> node -> astate -> Prop) n a : R nt n a -> m_op m = OP_BEGIN -> m_epoch m = epoch n ->
  mstate n = MON_LEADER \/ mstate n = MON_PEON ->
  (forall n' a', R nt' n' a' -> Q tt n' a') -> wp nt' (handle_begin from m) Q n a.
Proof.
  intros HR Hop Hep Hlp HQ. pose proof HR as (HW & HL & _). unfold handle_begin. apply wp_bind, wp_self.
  destruct (m_pn m <? accepted_pn n).
  { apply wp_pop; [done |]. intros a' HR' _ _. by apply wp_ret, HQ. }
  apply wp_bind, wp_assert; [by eapply Hpop, HW; apply take_head |]. intros Hpn%Z.eqb_eq.
  apply wp_bind, wp_assert; [by eapply Hpop, HW; apply take_head |]. intros Hml%Z.eqb_eq.
  destruct (head_from n a HW) as (am & l & Hhd & Hrel & Hinv & Hne); [by rewrite Hop ..|].
  unfold msg_rel in Hrel. rewrite Hop, Hep, Hpn, Hml in Hrel. destruct Hrel as (x & -> & Hx & Hpos).
  assert (Hm : mstate n = MON_PEON).
  { destruct Hlp as [Hm | Hm]; [| done]. exfalso. unfold live_rel in HL. rewrite Hm in HL. destruct HL as (_ & _ & ph & Hr & _).
    eapply begin_not_leader; [exact HW | exact Hhd | exact Hinv | exact Hr]. }
  unfold live_rel in HL. rewrite Hm in HL. destruct HL as [Hr Hid]. pose proof Hid as (Hlc & Hfc & I3 & I4 & I5).
  apply wp_bind, wp_upd. intros n1 Hn1. apply wp_bind, wp_upd. intros n2 Hn2. cbn zeta. rewrite Hx.
  apply wp_bind, wp_upd. intros n3 Hn3. rewrite Hlc in Hhd.
  destruct (W_vote n (set_outbox (outbox n3 ++ [(from, accept_msg (epoch n) (last_committed n) (accepted_pn n))]) n3) a l x)
    as (a' & Hs & HW' & Hr' & Hlc'); try done; try (rewrite Hn3, Hn2, Hn1; done).
  { rewrite Hn3, Hn2, Hn1, <- Hlc. done. }
  { rewrite Hn3, Hn2, Hn1, <- Hlc. done. }
  eapply wp_steps; [exact Hs |]. apply wp_upd. intros n4 Hn4. apply HQ. split_and!; [by rewrite Hn4 | | by rewrite Hn4, Hn3, Hn2, Hn1; cbn; rewrite Hm].
  unfold live_rel. rewrite Hlc'. replace (mstate n4) with MON_PEON by (by rewrite Hn4, Hn3, Hn2, Hn1). split; [done |].
  rewrite Hn4, Hn3, Hn2, Hn1. split_and!; try done. cbn -[apply_transaction]. rewrite Hfc. f_equal. by key_simpl.
Qed.

(** ** Commits and leases *)

Lemma take_none k n a : W k n a -> exists a', steps a a' /\ W k n a' /\ an a' = an a /\ alog a' = alog a.
Proof. intros HW. exists a. split; [apply rtc_refl | done]. Qed.

Lemma wp_handle_commit (Q : unit -> node -> astate -> Prop) n a : R nt n a -> m_op m = OP_COMMIT ->
  (forall n' a', R nt' n' a' -> Q tt n' a') -> wp nt' (handle_commit c e m) Q n a.
Proof.
  intros HR Hop HQ. pose proof HR as (HW & _).
  destruct (pop_head c i N from m q nt Hhead n a HW) as (am & l & Hm & Hr). unfold msg_rel in Hr. rewrite Hop in Hr.
  destruct Hr as (_ & av & Hcv). apply wp_pop; [done |]. intros a1 HR1 _ Hl1. rewrite <- Hl1 in Hcv.
  pose proof HR1 as (HW1 & HL1 & _). unfold handle_commit. apply wp_bind, wp_self.
  apply wp_bind, wp_assert; [by apply W_safe |]. intros Hpeon%bool_decide_eq_true. unfold live_rel in HL1. rewrite Hpeon in HL1.
  destruct HL1 as [Hrole Hid].
  apply wp_bind, (wp_store_state c i N nt' nt' (take_none nt') m (m_values m) [] av); try done; [by rewrite Hrole | by rewrite app_nil_r |].
  intros b n2 a2 HW2 Hid2 [Hk2 Hko2] _ Hs2 _ _. rewrite Hrole in Hs2. cbn in Hs2. core_eqs Hk2.
  assert (HR2 : R nt' n2 a2).
  { assert (Hm2 : mstate n2 = MON_PEON) by congruence. split_and!; [done | unfold live_rel; by rewrite Hm2 | congruence]. }
  apply wp_bind, wp_do_refresh; try done; [by apply wp_ret, HQ |]. intros n3 a3 HR3. by apply wp_ret, HQ.
Qed.

Lemma wp_handle_lease (Q : unit -> node -> astate -> Prop) n a : R nt n a ->
  (forall n' a', R nt' n' a' -> Q tt n' a') -> wp nt' (handle_lease e from m) Q n a.
Proof.
  intros HR HQ. apply wp_pop; [done |]. intros a1 HR1 _ _. unfold handle_lease. apply wp_bind, wp_self.
  destruct (negb (is_peon n) || negb (last_committed n =? m_last_committed m)) eqn:Hb; [by apply wp_ret, HQ |].
  apply orb_false_iff in Hb as [Hm%negb_false_iff%bool_decide_eq_true _].
  apply wp_bind.
  assert (Hk : forall n1, core n1 = core n -> outbox n1 = outbox n -> wp nt' (upd (set_state STATE_ACTIVE);;
    send from (lease_msg (epoch n) (first_committed n) (last_committed n) (now e) OP_LEASE_ACK);; reset_lease_timeout) Q n1 a1).
  { intros n1 Hc1 Ho1. apply wp_bind, wp_upd. intros n2 Hn2.
    assert (HR2 : R nt' n2 a1).
    { eapply peon_R; [exact HR1 | done | | by rewrite Hn2 | by rewrite Hn2]. rewrite Hn2. core_eqs Hc1. unfold core. cbn. congruence. }
    pose proof HR2 as (HW2 & HL2 & Hd2).
    destruct (W_send c i N nt' n2 a1 from (lease_msg (epoch n) (first_committed n) (last_committed n) (now e) OP_LEASE_ACK) HW2)
      as (a3 & Hs3 & HW3 & Han3 & Hl3); [done |].
    apply wp_bind. eapply wp_steps; [exact Hs3 |]. apply wp_upd. intros n3 ->. apply wp_quiet; [auto with paxos |].
    intros n4 Hc4 Ho4. apply HQ. eapply R_core; [exact Hc4 | exact Ho4 |]. split_and!; [done | | done]. rewrite Hl3, Han3. exact HL2. }
  apply wp_when; intros _; [apply wp_upd; intros n1 ->|]; by apply Hk.
Qed.

Lemma wp_handle_lease_ack (Q : unit -> node -> astate -> Prop) n a : R nt n a ->
  (forall n' a', R nt' n' a' -> Q tt n' a') -> wp nt' (handle_lease_ack from m) Q n a.
Proof.
  intros HR HQ. apply wp_pop; [done |]. intros a1 HR1 _ _. unfold handle_lease_ack. apply wp_bind, wp_self.
  destruct (negb (lease_ack_timeout_event n)); [by apply wp_ret, HQ |].
  destruct (bool_decide (from ∈ acked_lease n)); [by apply wp_ret, HQ |].
  apply wp_bind, wp_upd. intros n1 Hn1. assert (HR2 : R nt' n1 a1) by (by eapply R_core, HR1; rewrite Hn1).
  apply wp_bind, wp_self, wp_when; intros _; [| by apply HQ]. apply wp_upd. intros n2 Hn2. apply HQ.
  by eapply R_core, HR2; rewrite Hn2.
Qed.
End Peon.
