(* ===== verification/PaxosSimLead.v ===== *)
(** * The monitors implement the protocol: the leader's handlers

    Counting the answers of phase 1, starting phase 2 with the value they
    report, and counting its votes. *)

From stdpp Require Import strings functions sorting relations.
From S2P Require Import Prelude MonitorDBStore Paxos PaxosSystem PaxosSpec PaxosInv PaxosDisk PaxosSim PaxosSimOps PaxosSimCommit PaxosSimCollect PaxosSimStore PaxosSimPeon.

Lemma map_set_forall {A} (P : Z * A -> Prop) l k v : Forall P l -> P (k, v) -> Forall P (map_set l k v).
Proof.
  intros Hl Hk. induction Hl as [| [s w] l Hs Hl IH]; cbn; [by repeat constructor |].
  repeat case_match; repeat constructor; done.
Qed.

Section Lead.
Context (c : conf) (e : env).
Hypothesis Hsize : 1 < monmap_size c <= 100.
Hypothesis Htrim : 0 <= paxos_min c /\ 0 <= paxos_trim_min c /\ paxos_min c + paxos_trim_min c < 2 ^ 31.
Context (i : Z) (N : gmap Z node).

Abbreviation step := (astep tx_eqv tx_ok (ranks c)).
Abbreviation steps := (asteps tx_eqv tx_ok (ranks c)).
Abbreviation inv := (Inv tx_eqv tx_ok (ranks c)).
Abbreviation W := (W c i N).
Abbreviation wp := (wp c i N).
Abbreviation R := (R c i N).
Abbreviation coll := (coll c i N).

(** ** The end of phase 1 *)

Lemma wp_collect_done nt b (Q : bool -> node -> astate -> Prop) n a : coll nt n a -> num_last n = quorum_size n ->
  (forall b' n' a', R nt n' a' -> Q b' n' a') -> wp nt (collect_done c e b) Q n a.
Proof.
  intros Hcl Hnl HQ. pose proof Hcl as ((HW & HL & Hd) & Hm & resp & w & Hr).
  unfold live_rel in HL. rewrite Hm in HL. destruct HL as (Hpos & Hpd & ph & Hr' & Hph). rewrite Hr in Hr'. injection Hr' as <-.
  destruct Hph as (Hid & Hst & Hnum & Hu & _).
  destruct (I_lead _ _ _ _ (w_inv _ _ _ _ _ _ HW) i _ _ Hr) as (_ & _ & _ & _ & (Hsub & _) & _).
  assert (resp = quorum n) as -> by (apply set_subseteq_size_eq; [done | unfold quorum_size in Hnl; lia]).
  pose proof (b_disk _ _ _ _ (w_base _ _ _ _ _ _ HW)) as ((H0 & _) & _). pose proof Hid as (Hlc & _).
  unfold collect_done. apply wp_bind, wp_upd. intros n1 Hn1. apply wp_bind, wp_upd. intros n2 Hn2. apply wp_bind, wp_self.
  assert (HW2 : W nt n2 a) by (eapply W_same; [| exact HW]; by rewrite Hn2, Hn1).
  assert (Hid2 : idle n2 (a_lc (an a i))) by (rewrite Hn2, Hn1; eapply idle_eq, Hid; by auto).
  assert (Hu2 : unc_rel n2 w) by (rewrite Hn2, Hn1; exact Hu).
  destruct w as [[p x] |].
  - destruct Hu2 as (Hv & _ & Hx & _). rewrite Hv, Hx, Z.eqb_refl. cbn [andb bl_nonempty].
    apply wp_bind, wp_upd. intros n3 Hn3. apply wp_bind.
    apply wp_begin; try done; try (rewrite Hn3, Hn2, Hn1; done).
    + eapply W_same, HW2. by rewrite Hn3.
    + rewrite Hn3. eapply idle_eq, Hid2; try done. by right.
    + exists (PCollect (quorum n) (Some (p, x))). rewrite Hn3, Hn2, Hn1. split; [done |]. right. by exists p.
    + intros n4 a4 [HR4 _]. by apply wp_ret, HQ.
  - destruct Hu2 as (Hv & _). rewrite Hv. replace (0 =? last_committed n2 + 1) with false by (destruct Hid2 as (-> & _); lia).
    cbn [andb]. apply wp_bind, wp_extend_lease; [done |]. intros n3 a3 HW3 Hc3 Han3 Hl3.
    assert (Hcl2 : coll nt n2 a).
    { assert (Hm2 : mstate n2 = MON_LEADER) by (by rewrite Hn2, Hn1). split_and!; [| done | by exists (quorum n), None; rewrite Hn2, Hn1].
      split_and!; [done | | congruence]. unfold live_rel. rewrite Hm2. split; [by rewrite Hn2, Hn1 |]. split; [rewrite Hn2, Hn1; exact Hpd |].
      exists (PCollect (quorum n) None). split; [by rewrite Hn2, Hn1 |]. split; [done |]. rewrite Hn2, Hn1. split_and!; try done. }
    pose proof (coll_core c i N nt n2 n3 a a3 Hcl2 Hc3 HW3 Han3 Hl3) as Hcl3.
    pose proof (coll_idle c i N nt n3 a3 Hcl3) as (Hid3 & Hpd3 & Hpos3 & _). pose proof Hcl3 as (HR3 & Hm3 & _).
    apply wp_bind, wp_do_refresh; try done.
    + assert (Hr3 : a_role (an a3 i) = RLead (quorum n3) (PCollect (quorum n3) None)).
      { rewrite Han3, Hr. core_eqs Hc3. replace (quorum n3) with (quorum n); [done |]. rewrite Hn2, Hn1 in *. done. }
      pose proof (S_ready tx_eqv tx_ok (ranks c) a3 i _ Hr3) as Hs. apply wp_bind. eapply wp_steps; [by apply rtc_once |].
      apply wp_finish_round; [done | done | | done | intros n4 a4 [HR4 _]; by apply wp_ret, HQ].
      split; [by apply W_role |]. rewrite an_set_eq. done.
    + intros n4 a4 HR4. apply wp_bind, wp_ret. by apply wp_ret, HQ.
Qed.

(** ** Counting the answers *)

Context (from : Z) (m : MMonPaxos) (q : list MMonPaxos) (nt : gmap (Z * Z) (list MMonPaxos)).
Hypothesis Hhead : nt !! (from, i) = Some (m :: q).

Abbreviation nt' := (<[(from, i) := q]> nt).

(** What the relation says of an answer to the current leader. *)
Lemma last_head n a : R nt n a -> m_op m = OP_LAST -> m_epoch m = epoch n -> mstate n = MON_LEADER ->
  coll nt n a /\ from <> i /\ exists u av l k,
    anet a (from, i) = ALast (epoch n) (m_pn m) (m_last_committed m) u :: k /\
    0 <= m_last_committed m /\ m_uncommitted_pn m = unc_pn u /\ (forall p x, u = Some (p, x) -> 0 < p) /\
    m_values m = l ++ unc_entry (m_last_committed m) u /\ committed_values (alog a) av (m_last_committed m) l /\
    (m_last_committed m <= a_lc (an a i) \/ av <= Z.max (m_first_committed m) (a_lc (an a i) + 1)).
Proof.
  intros HR Hop Hep Hm. pose proof HR as (HW & HL & _).
  destruct (head_from c i N from m q nt Hhead n a HW) as (am & k & Hhd & Hrel & Hinv & Hne); [by rewrite Hop ..|].
  unfold msg_rel in Hrel. rewrite Hop, Hep in Hrel. destruct Hrel as (u & av & l & -> & Hrest).
  split; [| split; [done | by exists u, av, l, k]]. split; [done |]. split; [done |].
  unfold live_rel in HL. rewrite Hm in HL. destruct HL as (_ & _ & ph & Hr & _).
  destruct (I_lead _ _ _ _ (w_inv _ _ _ _ _ _ HW) i _ _ Hr) as (_ & _ & _ & _ & _ & Hlk). specialize (Hlk from Hne).
  rewrite Hhd, <- (b_ep _ _ _ _ (w_base _ _ _ _ _ _ HW)) in Hlk. destruct ph as [resp w | | x acks | x]; [by exists resp, w | ..]; exfalso.
  - destruct Hlk as (_ & Hl & _). cbn in Hl. by rewrite Z.eqb_refl in Hl.
  - destruct Hlk as (_ & Hl & _). cbn in Hl. by rewrite Z.eqb_refl in Hl.
  - destruct Hlk as (_ & Hl & _). cbn in Hl. by rewrite Z.eqb_refl in Hl.
Qed.

(** The node after [num_last++] and [learn_uncommitted]. *)
Definition counted (n n' : node) (w' : option (Z * Transaction)) : Prop :=
  core n' = core (set_num_last (num_last n + 1) (set_uncommitted_v (uncommitted_v n') (set_uncommitted_pn (uncommitted_pn n')
    (set_uncommitted_value (uncommitted_value n') n)))) /\ outbox n' = outbox n /\ unc_rel n' w'.

Lemma W_count n n' a resp w u k : coll nt n a -> a_role (an a i) = RLead (quorum n) (PCollect resp w) -> from <> i ->
  anet a (from, i) = ALast (epoch n) (accepted_pn n) (m_last_committed m) u :: k -> m_last_committed m <= a_lc (an a i) ->
  counted n n' (if m_last_committed m =? a_lc (an a i) then adopt w u else w) ->
  exists a', steps a a' /\ coll nt' n' a'.
Proof.
  intros Hcl Hr Hne Hhd Hle (Hc & Ho & Hu). pose proof (coll_idle c i N nt n a Hcl) as (Hid & Hpd & Hpos & _ & Hpl).
  pose proof Hcl as ((HW & HL & _) & Hm & _). destruct (w_base _ _ _ _ _ _ HW) as [B1 B2 B3 B4 B5 B6 B7].
  unfold live_rel in HL. rewrite Hm in HL. destruct HL as (_ & _ & ph & Hr' & Hph). rewrite Hr in Hr'. injection Hr' as <-.
  destruct Hph as (_ & Hst & Hnum & _).
  destruct (I_lead _ _ _ _ (w_inv _ _ _ _ _ _ HW) i _ _ Hr) as (_ & _ & _ & _ & _ & Hlk). specialize (Hlk from Hne).
  rewrite Hhd, B2, B3 in Hlk. apply (link_count tx_eqv tx_ok tx_ok_eqv) with (u' := w) in Hlk as (_ & Hnin & _).
  pose proof (S_count tx_eqv tx_ok (ranks c) a i from _ _ _ _ k (quorum n) resp w Hhd B2 Hr B3 Hle) as Hs.
  set (a' := set_an _ _ _) in Hs. exists a'. split; [by apply rtc_once |]. core_eqs Hc.
  assert (Hi : an a' i = with_role (RLead (quorum n) (PCollect ({[from]} ∪ resp)
    (if m_last_committed m =? a_lc (an a i) then adopt w u else w))) (an a i)) by (unfold a'; by rewrite an_set_eq).
  assert (HW' : W nt' n' a').
  { eapply W_step; [exact HW | done | | done | |].
    - rewrite Hi. split; cbn; congruence.
    - intros j Hj. unfold a'. by rewrite an_set_ne.
    - pose proof (pop_chans i from m q nt Hhead n a (w_chans _ _ _ _ _ _ HW)) as Hp. rewrite Hhd in Hp. cbn [tail] in Hp.
      eapply chans_mono; [exact Hp | done | done | done |]. intros y. unfold a'.
      destruct (decide (y = i)) as [-> |]; [by rewrite an_set_eq | by rewrite an_set_ne]. }
  assert (Hm' : mstate n' = MON_LEADER) by congruence.
  split_and!; [| done | by eexists _, _; rewrite Hi; cbn; f_equal; congruence]. split_and!; [done | | congruence].
  unfold live_rel. rewrite Hm'. split; [congruence |]. split; [by eapply pending_eq |].
  eexists. split; [rewrite Hi; cbn; f_equal; congruence |]. rewrite Hi. cbn [a_lc with_role].
  split; [eapply idle_eq, Hid; try done; by left |]. split; [congruence |].
  split; [| split; [done | congruence]]. rewrite size_union by set_solver. rewrite size_singleton. lia.
Qed.

(** The value known after an answer. *)
Lemma wp_learn_uncommitted (Q : unit -> node -> astate -> Prop) n n1 a w u l : unc_rel n w -> last_committed n = a_lc (an a i) ->
  n1 = set_num_last (num_last n + 1) n -> m_uncommitted_pn m = unc_pn u -> (forall p x, u = Some (p, x) -> 0 < p) ->
  m_values m = l ++ unc_entry (m_last_committed m) u -> Forall (fun e => e.1 < m_last_committed m + 1) l ->
  0 <= m_last_committed m <= a_lc (an a i) ->
  (forall n', counted n n' (if m_last_committed m =? a_lc (an a i) then adopt w u else w) -> Q tt n' a) ->
  wp nt' (learn_uncommitted m) Q n1 a.
Proof.
  intros Hw Hlc Hn1 Hup Hpos Hv Hl Hle HQ. unfold learn_uncommitted. apply wp_bind, wp_self.
  assert (Hskip : forall w', unc_rel n w' -> counted n n1 w') by (intros w' Hw'; rewrite Hn1; done).
  destruct u as [[p x] |]; cbn in Hup.
  - specialize (Hpos p x eq_refl). apply wp_when; intros Hb; rewrite Hup, Hn1 in Hb; cbn in Hb.
    + apply wp_upd. intros n2 Hn2. apply HQ.
      assert (m_last_committed m = a_lc (an a i)) as E by lia. rewrite E, Z.eqb_refl in *.
      assert (adopt w (Some (p, x)) = Some (p, x)) as ->.
      { destruct w as [[p' x'] |]; cbn; [| done]. destruct Hw as (_ & Hp' & _). destruct (Z.leb_spec p' p); [done | lia]. }
      rewrite Hn2, Hn1, Hup. split; [done |]. split; [done |]. cbn. rewrite Hlc. split; [done |]. split; [done |]. split; [| done].
      rewrite Hv. clear -Hl. induction Hl as [| [v y] l Hv Hl IH]; cbn; [by rewrite Z.eqb_refl |].
      cbn in Hv. destruct (Z.eqb_spec (a_lc (an a i) + 1) v); [lia | done].
    + apply HQ, Hskip. destruct (Z.eqb_spec (m_last_committed m) (a_lc (an a i))); [| done].
      destruct w as [[p' x'] |]; cbn.
      * destruct Hw as (Hw1 & Hw2 & Hw3). destruct (Z.leb_spec p' p); [lia | by split].
      * destruct Hw as (Hw1 & Hw2 & Hw3). lia.
  - rewrite Hup. apply wp_ret. rewrite <- Hup in *. apply HQ, Hskip.
    destruct (m_last_committed m =? a_lc (an a i)); [| done]. by destruct w as [[] |].
Qed.

(** [handle_last] from the comparison of the proposal numbers on. *)
Lemma wp_count b (Q : bool -> node -> astate -> Prop) n a : coll nt n a -> m_op m = OP_LAST -> m_epoch m = epoch n ->
  m_last_committed m <= a_lc (an a i) -> (forall b' n' a', R nt' n' a' -> Q b' n' a') ->
  wp nt' (if accepted_pn n <? m_pn m then upd (set_collect_timeout_event false);; collect (m_pn m);; mret b
          else if m_pn m =? accepted_pn n then
            upd (fun n => set_num_last (num_last n + 1) n);;
            learn_uncommitted m;;
            n ← self;
            if num_last n =? quorum_size n then collect_done c e b else mret b
          else mret b) Q n a.
Proof.
  intros Hcl Hop Hep Hle HQ. pose proof Hcl as (HR & Hm & resp & w & Hr). pose proof HR as (HW & _).
  pose proof (coll_idle c i N nt n a Hcl) as (Hid & Hpd & Hpos & Hln & Hpl).
  destruct (accepted_pn n <? m_pn m); [| destruct (Z.eqb_spec (m_pn m) (accepted_pn n)) as [Hpn |]].
  - apply (wp_pop c i N from m q nt Hhead); [done |]. intros a1 HR1 Han1 _. apply wp_bind, wp_upd. intros n1 Hn1.
    assert (HR1' : R nt' n1 a1) by (by eapply R_core, HR1; rewrite Hn1).
    destruct (I_lead _ _ _ _ (w_inv _ _ _ _ _ _ HW) i _ _ Hr) as (Hq & Hi & _).
    apply wp_bind, wp_collect with (ep := epoch n1); [done | done | | intros n2 a2 HR2 _; by apply wp_ret, HQ].
    split; [eapply W_same, HR1'; done |]. rewrite Hn1, Han1. split; [done |]. split; [by eapply idle_eq, Hid; auto |].
    split; [done |]. split; [done |]. split; [done |]. right. by eauto.
  - destruct (last_head n a HR Hop Hep Hm) as (_ & Hne & u & av & l & k & Hhd & H0 & Hup & Hupos & Hv & Hcv & _).
    rewrite Hr in Hln. destruct Hln as [_ Hw]. rewrite Hpn in Hhd.
    apply wp_bind, wp_upd. intros n1 Hn1. apply wp_bind.
    apply (wp_learn_uncommitted _ n n1 a w u l); try done; [apply Hid | by eapply committed_below |]. intros n2 Hc2.
    destruct (W_count n n2 a resp w u k Hcl Hr Hne Hhd Hle Hc2) as (a2 & Hs2 & Hcl2).
    eapply wp_steps; [exact Hs2 |]. apply wp_bind, wp_self.
    destruct (Z.eqb_spec (num_last n2) (quorum_size n2)); [by apply wp_collect_done | apply wp_ret, HQ, Hcl2].
  - apply (wp_pop c i N from m q nt Hhead); [done |]. intros a1 HR1 _ _. by apply wp_ret, HQ.
Qed.

Lemma unc_entry_above lc u : Forall (fun e => lc < e.1) (unc_entry lc u).
Proof. destruct u as [[] |]; cbn; [| constructor]. constructor; [cbn; lia | constructor]. Qed.

(** The leader after [store_state]. *)
Lemma coll_stored n n' a a' : coll nt n a -> W nt n' a' -> idle n' (a_lc (an a' i)) -> kept n n' ->
  learner n' (a_role (an a' i)) -> same_learner (a_role (an a i)) (a_role (an a' i)) -> coll nt n' a'.
Proof.
  intros Hcl HW' Hid' [Hk Hko] Hln Hsl. pose proof (coll_idle c i N nt n a Hcl) as (_ & Hpd & Hpos & _ & Hpl).
  pose proof Hcl as ((_ & HL & _) & Hm & resp & w & Hr). unfold live_rel in HL. rewrite Hm in HL.
  destruct HL as (_ & _ & ph & Hr' & Hph). rewrite Hr in Hr', Hsl. injection Hr' as <-. destruct Hph as (_ & Hst & Hnum & _).
  destruct (a_role (an a' i)) as [| | q' [resp' w' | | |]] eqn:Hra; try done. destruct Hsl as [-> ->]. destruct Hln as [Hq Hu].
  core_eqs Hk. assert (Hm' : mstate n' = MON_LEADER) by congruence.
  split_and!; [| done | by exists resp, w'; rewrite Hra, Hq]. split_and!; [done | | congruence].
  unfold live_rel. rewrite Hm'. split; [congruence |]. split; [by eapply pending_eq |].
  exists (PCollect resp w'). split; [by rewrite Hra, Hq |]. split; [done |]. split; [congruence |]. split; [congruence |].
  split; [done | congruence].
Qed.

Lemma coll_peers n n' a : coll nt n a -> core n' = core (set_peer_last_committed (peer_last_committed n') n) ->
  outbox n' = outbox n -> Forall (fun e => 0 <= e.2) (peer_last_committed n') -> coll nt n' a.
Proof.
  intros Hcl Hc Ho Hp. pose proof Hcl as ((HW & HL & _) & Hm & resp & w & Hr). unfold live_rel in HL. rewrite Hm in HL.
  destruct HL as (Hpos & Hpd & ph & Hr' & Hph). rewrite Hr in Hr'. injection Hr' as <-. destruct Hph as (Hid & Hst & Hnum & Hu & _).
  core_eqs Hc. assert (Hm' : mstate n' = MON_LEADER) by congruence.
  assert (Hr2 : a_role (an a i) = RLead (quorum n') (PCollect resp w)) by congruence.
  split_and!; [| done | by exists resp, w]. split_and!; [eapply W_same, HW; unfold same_base; split_and!; congruence | | congruence].
  unfold live_rel. rewrite Hm'. split; [congruence |]. split; [by eapply pending_eq |]. exists (PCollect resp w). split; [done |].
  split; [by eapply idle_eq, Hid; auto |]. split; [congruence |]. split; [congruence |]. split; [| done].
  destruct w as [[p x] |]; cbn in *; destruct Hu as (? & ? & ?); split_and!; try congruence; naive_solver congruence.
Qed.

Lemma wp_handle_last (Q : unit -> node -> astate -> Prop) n a : R nt n a -> m_op m = OP_LAST -> m_epoch m = epoch n ->
  (forall n' a', R nt' n' a' -> Q tt n' a') -> wp nt' (handle_last c e from m) Q n a.
Proof.
  intros HR Hop Hep HQ. unfold handle_last. apply wp_bind, wp_self. destruct (is_leader n) eqn:Hm; cbn [negb].
  2: { apply (wp_pop c i N from m q nt Hhead); [done |]. intros a1 HR1 _ _. by apply wp_ret, HQ. }
  apply bool_decide_eq_true in Hm.
  destruct (last_head n a HR Hop Hep Hm) as (Hcl & Hne & u & av & l & k & Hhd & H0 & Hup & Hupos & Hv & Hcv & Hav).
  pose proof (coll_idle c i N nt n a Hcl) as (Hid & _ & _ & _ & Hpl). pose proof Hid as (Hlc & _).
  apply wp_bind, wp_upd. intros n1 Hn1.
  assert (Hcl1 : coll nt n1 a).
  { rewrite Hn1. eapply coll_peers; [exact Hcl | done | done |]. by apply map_set_forall. }
  destruct (Z.ltb_spec (last_committed n + 1) (m_first_committed m)) as [| Hfc].
  { apply (wp_pop c i N from m q nt Hhead); [apply Hcl1 |]. intros a1 HR1 _ _. by apply wp_bootstrap. }
  pose proof (coll_idle c i N nt n1 a Hcl1) as (Hid1 & _ & _ & Hln1 & _).
  apply wp_bind, (wp_store_state c i N nt nt' (take_head c i N from m q nt Hhead) m l (unc_entry (m_last_committed m) u) av); try done; [apply Hcl1 | apply unc_entry_above |].
  intros b n2 a2 HW2 Hid2 Hk2 Hln2 Hsl2 Hmono Hge.
  pose proof (coll_stored n1 n2 a a2 Hcl1 HW2 Hid2 Hk2 Hln2 Hsl2) as Hcl2.
  pose proof (coll_idle c i N nt n2 a2 Hcl2) as (_ & _ & _ & _ & Hpl2).
  assert (Hle : m_last_committed m <= a_lc (an a2 i)).
  { destruct Hid1 as (E1 & _), Hid2 as (E2 & _). lia. }
  apply wp_bind, wp_self. apply wp_bind, (wp_update_peers c e Hsize Htrim i N nt nt' (take_head c i N from m q nt Hhead)); try done.
  - intros n3 a3 Hcl3 Hc3 Han3 _. cbn [negb]. apply wp_bind, wp_self, wp_bind, wp_count; try done.
    + assert (epoch n1 = epoch n) by (by rewrite Hn1). destruct Hk2 as [Hk2 _]. core_eqs Hk2. core_eqs Hc3. congruence.
    + by rewrite Han3.
    + intros b' n4 a4 HR4. apply wp_when; intros _; [| by apply HQ].
      apply wp_bind, wp_do_refresh; try done; [by apply wp_ret, HQ |]. intros n5 a5 HR5. by apply wp_ret, HQ.
  - intros n3 a3 HR3. by apply wp_ret, HQ.
Qed.

(** ** Counting the votes *)

Lemma accept_head n a : W nt n a -> live_rel (alog a) n (an a i) -> m_op m = OP_ACCEPT -> m_epoch m = epoch n ->
  mstate n = MON_LEADER \/ mstate n = MON_PEON -> m_pn m = accepted_pn n ->
  mstate n = MON_LEADER /\ from <> i /\ exists x k, a_role (an a i) = RLead (quorum n) (PUpdate x (accepted n)) /\
    phase_rel (alog a) n (a_lc (an a i)) (PUpdate x (accepted n)) /\
    anet a (from, i) = AAccept (epoch n) (accepted_pn n) (m_last_committed m) :: k.
Proof.
  intros HW HL Hop Hep Hlp Hpn.
  destruct (head_from c i N from m q nt Hhead n a HW) as (am & k & Hhd & Hrel & Hinv & Hne); [by rewrite Hop ..|].
  unfold msg_rel in Hrel. rewrite Hop, Hep, Hpn in Hrel. rewrite Hrel in Hhd, Hinv. destruct Hinv as (_ & _ & Hnp & _).
  pose proof (b_ep _ _ _ _ (w_base _ _ _ _ _ _ HW)) as Hae. pose proof (b_acc _ _ _ _ (w_base _ _ _ _ _ _ HW)) as Hacc.
  unfold live_rel in HL. destruct Hlp as [Hm | Hm]; rewrite Hm in HL.
  2: { destruct HL as [Hr _]. by destruct (Hnp (eq_sym Hae)). }
  split; [done |]. split; [done |]. destruct HL as (_ & _ & ph & Hr & Hph).
  destruct (I_lead _ _ _ _ (w_inv _ _ _ _ _ _ HW) i _ _ Hr) as (_ & _ & _ & _ & _ & Hlk). specialize (Hlk from Hne).
  rewrite Hhd, Hacc in Hlk. destruct ph as [resp w | | x acks | x].
  - exfalso. destruct Hlk as (_ & _ & _ & _ & _ & _ & _ & Hl). cbn in Hl. by rewrite Z.eqb_refl in Hl.
  - exfalso. destruct Hlk as (_ & _ & _ & Hl). cbn in Hl. by rewrite Z.eqb_refl in Hl.
  - pose proof Hph as (_ & _ & _ & <-). by exists x, k.
  - exfalso. destruct Hlk as (_ & _ & _ & Hl). cbn in Hl. by rewrite Z.eqb_refl in Hl.
Qed.

(** A vote is counted. *)
Lemma R_ack n n' a x k : R nt n a -> mstate n = MON_LEADER -> a_role (an a i) = RLead (quorum n) (PUpdate x (accepted n)) ->
  phase_rel (alog a) n (a_lc (an a i)) (PUpdate x (accepted n)) ->
  anet a (from, i) = AAccept (epoch n) (accepted_pn n) (m_last_committed m) :: k ->
  n' = set_accepted ({[from]} ∪ accepted n) n ->
  exists a', steps a a' /\ R nt' n' a' /\ a_role (an a' i) = RLead (quorum n') (PUpdate x (accepted n')) /\
    phase_rel (alog a') n' (a_lc (an a' i)) (PUpdate x (accepted n')).
Proof.
  intros (HW & HL & _) Hm Hr Hph Hhd Hn'. destruct (w_base _ _ _ _ _ _ HW) as [B1 B2 B3 B4 B5 B6 B7].
  unfold live_rel in HL. rewrite Hm in HL. destruct HL as (Hpos & Hpd & _).
  pose proof (S_ack tx_eqv tx_ok (ranks c) a i from _ _ _ k _ x _ Hhd B2 Hr B3) as Hs. set (a' := set_an _ _ _) in Hs. exists a'.
  assert (Hi : an a' i = with_role (RLead (quorum n) (PUpdate x ({[from]} ∪ accepted n))) (an a i)) by (unfold a'; by rewrite an_set_eq).
  assert (HW' : W nt' n' a').
  { eapply W_step; [exact HW | done | | done | |].
    - rewrite Hi, Hn'. by split.
    - intros j Hj. unfold a'. by rewrite an_set_ne.
    - pose proof (pop_chans i from m q nt Hhead n a (w_chans _ _ _ _ _ _ HW)) as Hp. rewrite Hhd in Hp. cbn [tail] in Hp.
      eapply chans_mono; [exact Hp | done | by rewrite Hn' | done |]. intros y. unfold a'.
      destruct (decide (y = i)) as [-> |]; [by rewrite an_set_eq | by rewrite an_set_ne]. }
  assert (Hph' : phase_rel (alog a') n' (a_lc (an a' i)) (PUpdate x (accepted n'))).
  { rewrite Hi, Hn'. destruct Hph as (Hid & Hup & Hx & _). cbn. split; [eapply idle_eq, Hid; by auto | done]. }
  assert (Hr' : a_role (an a' i) = RLead (quorum n') (PUpdate x (accepted n'))) by (by rewrite Hi, Hn').
  split; [by apply rtc_once |]. split; [| done]. split_and!; [done | | by rewrite Hn'; cbn; rewrite Hm].
  unfold live_rel. replace (mstate n') with MON_LEADER by (by rewrite Hn'). split; [by rewrite Hn' |].
  split; [rewrite Hn'; exact Hpd |]. by eauto.
Qed.

Lemma wp_commit_start k (Q : unit -> node -> astate -> Prop) n a x : R k n a -> mstate n = MON_LEADER ->
  a_role (an a i) = RLead (quorum n) (PUpdate x (accepted n)) -> phase_rel (alog a) n (a_lc (an a i)) (PUpdate x (accepted n)) ->
  accepted n = quorum n -> (forall n' a', R k n' a' -> Q tt n' a') -> wp k commit_start Q n a.
Proof.
  intros (HW & HL & _) Hm Hr Hph Hq HQ. destruct Hph as (Hid & Hup & Hx & _). pose proof Hid as (Hlc & _ & I3 & I4 & _).
  unfold live_rel in HL. rewrite Hm in HL. destruct HL as (Hpos & Hpd & _). rewrite Hq in Hr.
  pose proof (S_write tx_eqv tx_ok (ranks c) a i _ x Hr) as Hs.
  unfold commit_start. apply wp_bind, wp_self. rewrite Hx. apply wp_bind, wp_ret. apply wp_bind, wp_upd. intros n1 Hn1.
  eapply wp_steps; [by apply rtc_once |]. set (a' := set_an _ _ _) in *.
  assert (HW' : W k n a') by (by apply W_role).
  assert (HR : forall n' st, (st = STATE_WRITING \/ st = STATE_WRITING_PREVIOUS) -> core n' = core (set_state st n1) ->
    outbox n' = outbox n1 -> R k n' a').
  { intros n' st Hst Hc Ho. rewrite Hn1 in Hc, Ho. cbn in Ho. core_eqs Hc. assert (Hm' : mstate n' = MON_LEADER) by congruence.
    split_and!; [eapply W_same, HW'; unfold same_base; split_and!; congruence | | congruence].
    unfold live_rel. rewrite Hm'. split; [congruence |]. split; [by eapply pending_eq |]. exists (PWrite x). unfold a'. rewrite an_set_eq.
    split; [cbn; congruence |]. split; [cbn; congruence |]. rewrite (writing_eq (set_state st n) n') by done.
    split; [by destruct Hst as [-> | ->] |]. split; [congruence |]. split; [cbn; rewrite <- Hlc; rewrite I3 in *; done | congruence]. }
  assert (Hk : forall st n2, (st = STATE_WRITING \/ st = STATE_WRITING_PREVIOUS) -> n2 = set_state st n1 ->
    wp k (upd (fun n0 => set_commits_started (commits_started n0 + 1) n0);;
          when (1 <? quorum_size n) (upd (set_accept_timeout_event false))) Q n2 a').
  { intros st n2 Hst Hn2. apply wp_bind, wp_upd. intros n3 Hn3.
    apply wp_when; intros _; [apply wp_upd; intros n4 Hn4 |]; apply HQ; eapply HR; try exact Hst; rewrite ?Hn4, Hn3, Hn2; done. }
  apply wp_bind. destruct (is_updating_previous n); [apply wp_upd; intros n2 Hn2; eapply Hk; [| exact Hn2]; auto |].
  rewrite orb_false_r in Hup. rewrite Hup. apply wp_upd. intros n2 Hn2. eapply Hk; [| exact Hn2]. auto.
Qed.

Lemma wp_handle_accept (Q : unit -> node -> astate -> Prop) n a : R nt n a -> m_op m = OP_ACCEPT -> m_epoch m = epoch n ->
  mstate n = MON_LEADER \/ mstate n = MON_PEON ->
  (forall n' a', R nt' n' a' -> Q tt n' a') -> wp nt' (handle_accept from m) Q n a.
Proof.
  intros HR Hop Hep Hlp HQ. pose proof HR as (HW & HL & _). unfold handle_accept. apply wp_bind, wp_self.
  destruct (Z.eqb_spec (m_pn m) (accepted_pn n)) as [Hpn |]; cbn [negb].
  2: { apply (wp_pop c i N from m q nt Hhead); [done |]. intros a1 HR1 _ _. by apply wp_ret, HQ. }
  destruct ((0 <? last_committed n) && (m_last_committed m <? last_committed n - 1)).
  { apply (wp_pop c i N from m q nt Hhead); [done |]. intros a1 HR1 _ _. by apply wp_ret, HQ. }
  assert (Hs : safe c i N nt' n a) by (by eapply Hpop, HW; apply (take_head c i N from m q nt Hhead)).
  do 3 (apply wp_bind, wp_assert; [done | intros _]).
  destruct (accept_head n a HW HL Hop Hep Hlp Hpn) as (Hm & Hne & x & k & Hr & Hph & Hhd).
  apply wp_bind, wp_upd. intros n1 Hn1.
  destruct (R_ack n n1 a x k HR Hm Hr Hph Hhd Hn1) as (a1 & Hs1 & HR1 & Hr1 & Hph1). eapply wp_steps; [exact Hs1 |].
  apply wp_bind, wp_self, wp_when; intros Hb; [| by apply HQ].
  apply (wp_commit_start nt' Q n1 a1 x); try done; [by rewrite Hn1 | by apply bool_decide_eq_true in Hb].
Qed.

(** ** Dispatch *)

Lemma wp_dispatch (Q : unit -> node -> astate -> Prop) n a : R nt n a ->
  (forall n' a', R nt' n' a' -> Q tt n' a') -> wp nt' (monitor_dispatch c e from m) Q n a.
Proof.
  intros HR HQ. pose proof HR as (HW & _). unfold monitor_dispatch. apply wp_bind, wp_self.
  assert (Hskip : forall mm : M unit, (forall k n a, R k n a -> wp k mm (fun _ n' a' => R k n' a') n a) -> wp nt' mm Q n a).
  { intros mm Hmm. apply (wp_pop c i N from m q nt Hhead); [done |]. intros a1 HR1 _ _.
    eapply wp_mono; [| by apply Hmm]. intros []; apply HQ. }
  destruct (epoch n <? m_epoch m); [apply Hskip; intros; by apply wp_bootstrap |].
  destruct (Z.eqb_spec (m_epoch m) (epoch n)) as [Hep |]; cbn [negb]; [| apply Hskip; intros; by apply wp_ret].
  unfold dispatch. apply wp_bind, wp_self.
  destruct (negb (is_leader n) && negb (is_peon n)) eqn:Hlp; [apply Hskip; intros; by apply wp_ret |].
  assert (Hlp' : mstate n = MON_LEADER \/ mstate n = MON_PEON).
  { unfold is_leader, is_peon in Hlp. repeat case_bool_decide; by auto. }
  apply wp_bind, wp_assert; [by eapply Hpop, HW; apply (take_head c i N from m q nt Hhead) |]. intros _.
  destruct (m_op m) eqn:Hop.
  - by eapply wp_handle_collect.
  - by apply wp_handle_last.
  - by eapply wp_handle_begin.
  - by apply wp_handle_accept.
  - by eapply wp_handle_commit.
  - by eapply wp_handle_lease.
  - by eapply wp_handle_lease_ack.
Qed.
End Lead.
