(* ===== verification/PaxosRefine.v ===== *)
(** * The monitors implement the protocol: runs of the cluster

    Every run of [PaxosSystem.v] in which only monitors with a durable promise
    are restarted is a run of the machine of [PaxosSpec.v]. *)

From stdpp Require Import strings functions sorting relations.
From S2P Require Import Prelude MonitorDBStore Paxos PaxosSystem PaxosSpec PaxosInv PaxosDisk PaxosSim PaxosSimOps PaxosSimCommit PaxosSimCollect PaxosSimStore PaxosSimPeon PaxosSimLead.

Section Refine.
Context (c : conf).
Hypothesis Hsize : 1 < monmap_size c <= 100.
Hypothesis Htrim : 0 <= paxos_min c /\ 0 <= paxos_trim_min c /\ paxos_min c + paxos_trim_min c < 2 ^ 31.

Abbreviation astep := (astep tx_eqv tx_ok (ranks c)).
Abbreviation steps := (asteps tx_eqv tx_ok (ranks c)).
Abbreviation inv := (Inv tx_eqv tx_ok (ranks c)).

Record related (s : sys) (a : astate) : Prop := {
  r_inv : inv a;
  r_nodes : forall j n, nodes s !! j = Some n -> node_rel (alog a) j n (an a j) /\ outbox n = [];
  r_net : forall x y, Forall2 (msg_rel (alog a) (a_lc (an a y))) (chan s x y) (anet a (x, y))
}.

(** ** One monitor of the cluster *)

Lemma related_R s a i n : related s a -> nodes s !! i = Some n -> mstate n <> MON_DOWN -> R c i (nodes s) (net s) n a.
Proof.
  intros [HI Hn Hc] Hi Hm. destruct (Hn i n Hi) as [[Hb HL] Ho]. split_and!; [| done | done].
  split; [done | done | | ].
  - intros j k _ Hj. by apply Hn.
  - intros x y. unfold ech. rewrite Ho. case_decide; cbn; rewrite app_nil_r; apply Hc.
Qed.

Lemma post_lookup i out nt x y :
  default [] (post i out nt !! (x, y)) = default [] (nt !! (x, y)) ++ (if decide (x = i) then to_box y out else []).
Proof.
  revert nt. induction out as [| [to m] out IH]; intros nt; cbn.
  { case_decide; by rewrite app_nil_r. }
  unfold post in IH. rewrite IH. case_decide as Hx; [subst x |].
  - destruct (decide (to = y)) as [-> |].
    + rewrite lookup_insert_eq. cbn. by rewrite <- app_assoc.
    + by rewrite lookup_insert_ne by congruence.
  - by rewrite lookup_insert_ne by congruence.
Qed.

(** A node of the cluster takes the state a handler left. *)
Lemma W_related i N nt n a : W c i N nt n a -> live_rel (alog a) n (an a i) ->
  (forall j m, N !! j = Some m -> outbox m = []) ->
  related (Sys (<[i := set_outbox [] n]> N) (post i (outbox n) nt)) a.
Proof.
  intros [HI Hb Ho Hc] HL Hout. split; [done | |]; cbn.
  - intros j m. destruct (decide (j = i)) as [-> |].
    + rewrite lookup_insert_eq. intros [= <-]. split; [| done]. split; [by destruct Hb | exact HL].
    + rewrite lookup_insert_ne by done. intros Hj. split; [by apply Ho | by eapply Hout].
  - intros x y. unfold chan. cbn. rewrite post_lookup. apply Hc.
Qed.

Lemma run_sim i m s s' n a : nodes s !! i = Some n -> (forall j k, nodes s !! j = Some k -> outbox k = []) ->
  wp c i (nodes s) (net s) m (fun _ n' a' => R c i (nodes s) (net s) n' a') n a -> run i m s = Some s' ->
  exists a', steps a a' /\ related s' a'.
Proof.
  intros Hi Hout Hwp. unfold run. rewrite Hi. cbn. case_bool_decide; [done |].
  unfold wp in Hwp. destruct (m n) as [[x |] n'].
  - destruct Hwp as (a' & Hs & HW & HL & _). intros [= <-]. exists a'. split; [done |]. by apply W_related.
  - destruct Hwp as (a' & Hs & HW). intros [= <-]. destruct (W_none c i (nodes s) (net s) n' a' HW) as [Hs2 HW2].
    exists (set_an a' i (with_role RNone (an a' i))). split; [by etransitivity |].
    apply (W_related i (nodes s) (net s) (set_mstate MON_DOWN n')); [by eapply W_same; [| exact HW2] | | done].
    unfold live_rel. cbn. by fn_simpl.
Qed.

(** ** The steps *)

Section Node.
Context (e : env) (i : Z) (N : gmap Z node) (nt : gmap (Z * Z) (list MMonPaxos)).

Abbreviation RQ := (fun _ n' a' => R c i N nt n' a').

Lemma wp_timer t n a : R c i N nt n a -> wp c i N nt (timer_fires c e t) RQ n a.
Proof.
  intros HR. pose proof HR as (HW & HL & Hd).
  assert (Hset : forall f, core (f n) = core n -> outbox (f n) = outbox n -> R c i N nt (f n) a) by (intros f Hc Ho; by eapply R_core).
  assert (Hb : forall n', R c i N nt n' a -> wp c i N nt (bootstrap c e) RQ n' a) by (intros n' HR'; by apply wp_bootstrap).
  destruct t; cbn [timer_fires].
  - apply wp_bind, wp_upd. intros n1 ->. assert (HR1 := Hset (set_collect_timeout_event false) eq_refl eq_refl).
    apply wp_bind, wp_self, wp_bind, wp_assert; [apply W_safe, HR1 | intros _; by apply Hb].
  - apply wp_bind, wp_upd. intros n1 ->. assert (HR1 := Hset (set_accept_timeout_event false) eq_refl eq_refl).
    apply wp_bind, wp_self, wp_bind, wp_assert; [apply W_safe, HR1 | intros _].
    apply wp_bind, wp_assert; [apply W_safe, HR1 | intros _; by apply Hb].
  - apply wp_bind, wp_self, wp_bind, wp_assert; [by apply W_safe | intros _].
    apply wp_bind, wp_assert; [by apply W_safe | intros _].
    apply wp_bind, wp_upd. intros n1 ->. by apply Hb, (Hset (set_lease_ack_timeout_event false)).
  - apply wp_bind, wp_self, wp_bind, wp_assert; [by apply W_safe | intros _].
    apply wp_bind, wp_upd. intros n1 ->. by apply Hb, (Hset (set_lease_timeout_event false)).
  - apply wp_bind, wp_upd. intros n1 ->. assert (HR1 := Hset (set_lease_renew_event false) eq_refl eq_refl).
    apply wp_extend_lease; [apply HR1 |]. intros n2 a2 HW2 Hc2 Han2 Hl2.
    split_and!; [done | rewrite Hl2, Han2; eapply core_live, HL; by rewrite Hc2 | core_eqs Hc2; congruence].
Qed.

Lemma wp_propose t f n a : R c i N nt n a -> service_tx t = true -> wp c i N nt (propose t f) RQ n a.
Proof.
  intros HR Ht. unfold propose. apply wp_bind, wp_get_pending_R; [done |]. intros p n1 HR1 Hp.
  assert (Hs : service_only (p ++ t)).
  { apply Forall_app. split; [done |]. apply Forall_forall. intros op Hop. unfold service_tx in Ht. rewrite forallb_forall in Ht.
    apply (bool_decide_eq_true_1 _), Ht. by apply list_elem_of_In. }
  apply wp_bind, wp_upd. intros n2 ->. pose proof (R_pending c i N nt n1 a _ HR1 Hs) as HR2.
  destruct f as [f |]; [| by apply wp_ret]. apply wp_quiet; [auto with paxos |]. intros n3 Hc3 Ho3. by eapply R_core.
Qed.

(** Only a leader proposes; another monitor stops at the assertion in [begin]. *)
Lemma wp_propose_R n a : R c i N nt n a -> is_active n = true -> wp c i N nt (propose_pending c) RQ n a.
Proof.
  intros HR Hact. pose proof HR as (HW & HL & Hd). destruct (decide (mstate n = MON_LEADER)) as [Hm | Hm].
  - unfold live_rel in HL. rewrite Hm in HL. destruct HL as (Hpos & Hpd & ph & Hr & Hph).
    apply bool_decide_eq_true in Hact. destruct ph as [resp w | | x acks | x].
    + destruct Hph as (_ & Hst & _). congruence.
    + destruct Hph as [[Hid _] | (_ & _ & Hw & _)].
      * apply wp_propose_pending; try done; [intros t Ht; left; by apply Hpd |]. by intros n' a' [HR' _].
      * unfold writing, is_writing, is_writing_previous in Hw. by rewrite Hact in Hw.
    + destruct Hph as (_ & Hup & _). unfold is_updating, is_updating_previous in Hup. by rewrite Hact in Hup.
    + destruct Hph as (_ & Hw & _). unfold writing, is_writing, is_writing_previous in Hw. by rewrite Hact in Hw.
  - unfold propose_pending. apply wp_bind, wp_self. apply wp_bind, wp_assert; [by apply W_safe | intros _].
    apply wp_bind, wp_option; [by apply W_safe | intros t _].
    apply wp_bind, wp_quiet; [auto with paxos |]. intros n1 Hc1 Ho1.
    apply wp_bind, wp_upd. intros n2 Hn2. apply wp_bind, wp_upd. intros n3 Hn3. apply wp_bind, wp_upd. intros n4 Hn4.
    unfold begin. apply wp_bind, wp_self. apply wp_bind, wp_assert.
    + apply W_safe. eapply W_same, HW. rewrite Hn4, Hn3, Hn2. core_eqs Hc1. unfold same_base. cbn. by split_and!.
    + intros Hl%bool_decide_eq_true. exfalso. apply Hm. rewrite Hn4, Hn3, Hn2 in Hl. core_eqs Hc1. cbn in Hl. congruence.
Qed.

Lemma wp_join_at ep n a : R c i N nt n a -> epoch n <= ep -> wp c i N nt (upd (set_epoch ep);; join_election c e) RQ n a.
Proof.
  intros (HW & HL & Hd) Hep. apply wp_bind, wp_upd. intros n1 ->.
  destruct (W_epoch c i N nt n ep a HW Hep) as (a1 & Hs & HW1 & Hn1 & Hl1). eapply wp_steps; [exact Hs |].
  apply wp_join; try done. split_and!; [done | | done]. by rewrite Hl1, Hn1.
Qed.

Lemma wp_epoch ep n a : R c i N nt n a -> outside n = true -> epoch n <= ep ->
  wp c i N nt (upd (set_epoch ep)) (fun _ n' a' => R c i N nt n' a') n a.
Proof.
  intros (HW & HL & Hd) Hm Hep. destruct (W_epoch c i N nt n ep a HW Hep) as (a1 & Hs1 & HW1 & Hn1 & Hl1).
  eapply wp_steps; [exact Hs1 |]. apply wp_upd. intros n1 ->. split_and!; [done | | done].
  unfold outside, is_probing, is_electing in Hm. unfold live_rel in *. cbn. rewrite Hn1. by destruct (mstate n).
Qed.

Lemma electing_at ep n a : R c i N nt n a -> outside n = true -> epoch n < ep -> electing c i N nt (epoch n) (set_epoch ep n) a.
Proof.
  intros (HW & HL & _) Hm Hep. unfold outside, is_probing, is_electing in Hm.
  assert (Hid : idle n (a_lc (an a i))).
  { unfold live_rel in HL. destruct (mstate n); try done; apply HL. }
  split; [eapply W_same, HW; done |]. split; [by eapply idle_eq, Hid; auto | done].
Qed.
End Node.

(** What the elector promises of a quorum. *)
Lemma majority_maj q : majority c q = true -> q ⊆ ranks c -> maj (ranks c) q.
Proof.
  unfold majority. intros Hm Hq. split; [done |]. pose proof (size_ranks c Hsize).
  pose proof (Z.div_mod (monmap_size c) 2). pose proof (Z.mod_pos_bound (monmap_size c) 2). lia.
Qed.

(** ** Restarts *)

Lemma disk_num log st lc pend : log_ok log -> disk log st lc pend -> get_num st paxos_name "first_committed" = Some (num_of (st !! fc_key)).
Proof.
  intros Hok Hd. unfold get_num. change (paxos_name, "first_committed"%string) with fc_key. destruct (decide (1 <= lc)) as [H1 |].
  - destruct (disk_fc _ _ _ _ Hok Hd H1) as (f & -> & _). done.
  - destruct Hd as (Hlc & _ & Hb & _). rewrite (d_svc _ _ _ Hb) by auto. replace lc with 0 by lia. done.
Qed.

Lemma boot_rel s a i n : related s a -> nodes s !! i = Some n -> promise_durable n ->
  node_rel (alog a) i (boot n) (with_role RNone (an a i)) /\ outbox (boot n) = [].
Proof.
  intros Hrel Hi Hdur. destruct (r_nodes _ _ Hrel i n Hi) as [[[B1 B2 B3 B4 B5 B6 B7] _] _].
  pose proof (inv_log_ok c a (r_inv _ _ Hrel)) as Hok. pose proof B7 as (_ & Hlc & _).
  assert (Hrun : exists o, init (fresh (rank n) (epoch n) (store n)) = (o, set_first_committed (num_of (store n !! fc_key))
    (set_last_committed (a_lc (an a i)) (set_accepted_pn (accepted_pn n) (set_last_pn (last_pn n) (fresh (rank n) (epoch n) (store n))))))).
  { unfold init, get_key, self, upd, mbind, M_bind, unless_None, assert, mret, M_ret. unfold promise_durable in Hdur.
    cbn -[get_num]. rewrite B6. cbn -[get_num]. rewrite Hdur. cbn -[get_num]. rewrite Hlc. cbn -[get_num].
    rewrite (disk_num _ _ _ _ Hok B7). cbn. case_match; eexists; done. }
  destruct Hrun as [o Hrun]. unfold boot. rewrite Hrun.
  destruct o as [u |]; (split; [split; [by split |] | done]); by cbn.
Qed.

Lemma restart_sim s a i n : related s a -> nodes s !! i = Some n -> promise_durable n ->
  exists a', steps a a' /\ related (Sys (<[i := boot n]> (nodes s)) (net s)) a'.
Proof.
  intros Hrel Hi Hdur. pose proof (boot_rel s a i n Hrel Hi Hdur) as Hb. destruct Hrel as [HI Hn Hc].
  exists (set_an a i (with_role RNone (an a i))).
  assert (Hs : astep a (set_an a i (with_role RNone (an a i)))) by constructor.
  split; [by apply rtc_once |]. split; [by eapply (step_inv c) | |]; cbn [nodes net].
  - intros j m. destruct (decide (j = i)) as [-> |].
    + rewrite lookup_insert_eq, an_set_eq. by intros [= <-].
    + rewrite lookup_insert_ne, an_set_ne by done. apply Hn.
  - intros x y. replace (a_lc (an (set_an a i (with_role RNone (an a i))) y)) with (a_lc (an a y)); [apply Hc |].
    destruct (decide (y = i)) as [-> |]; [by rewrite an_set_eq | by rewrite an_set_ne].
Qed.

Lemma drop_sim s a x y k : related s a ->
  exists a', steps a a' /\ related (Sys (nodes s) (<[(x, y) := delete k (chan s x y)]> (net s))) a'.
Proof.
  intros [HI Hn Hc]. exists (set_chan a x y (delete k (anet a (x, y)))).
  assert (Hs : astep a (set_chan a x y (delete k (anet a (x, y))))) by constructor.
  split; [by apply rtc_once |]. split; [by eapply (step_inv c) | done |].
  intros x' y'. unfold chan. cbn. destruct (decide ((x, y) = (x', y'))) as [[= -> ->] | Hne].
  - rewrite lookup_insert_eq, fn_lookup_insert. cbn. apply Forall2_delete, Hc.
  - rewrite lookup_insert_ne, fn_lookup_insert_ne by done. apply Hc.
Qed.

(** ** Runs *)

Lemma run_alive i m s s' : run i m s = Some s' -> exists n, nodes s !! i = Some n /\ mstate n <> MON_DOWN.
Proof. unfold run. destruct (nodes s !! i) as [n |]; [| done]. cbn. case_bool_decide; [done |]. by exists n. Qed.

Lemma run_R i (m : M unit) s s' a : related s a -> run i m s = Some s' ->
  (forall n, nodes s !! i = Some n -> R c i (nodes s) (net s) n a ->
     wp c i (nodes s) (net s) m (fun _ n' a' => R c i (nodes s) (net s) n' a') n a) ->
  exists a', steps a a' /\ related s' a'.
Proof.
  intros Hrel Hrun Hwp. destruct (run_alive _ _ _ _ Hrun) as (n & Hi & Hm).
  eapply run_sim; [exact Hi | intros j k Hj; by apply (r_nodes _ _ Hrel j k) | | exact Hrun].
  apply Hwp; [done |]. by apply related_R.
Qed.

Lemma deliver_sim e s s' a from to m q : related s a -> chan s from to = m :: q ->
  run to (monitor_dispatch c e from m) (Sys (nodes s) (<[(from, to) := q]> (net s))) = Some s' ->
  exists a', steps a a' /\ related s' a'.
Proof.
  intros Hrel Hch Hrun. destruct (run_alive _ _ _ _ Hrun) as (n & Hi & Hm). cbn in Hi.
  eapply (run_sim to _ (Sys _ _)); [exact Hi | intros j k Hj; by apply (r_nodes _ _ Hrel j k) | | exact Hrun]. cbn [nodes net].
  eapply (wp_dispatch c e Hsize Htrim to (nodes s) from m q (net s)); [| by apply related_R | done].
  unfold chan in Hch. destruct (net s !! (from, to)) as [l |]; cbn in Hch; congruence.
Qed.

Theorem step_sim l e s s' a : related s a -> allowed l s -> step c l e s = Some s' -> exists a', steps a a' /\ related s' a'.
Proof.
  intros Hrel Hal. destruct l as [from to | from to k | i ep | i ep q md | i ep q l | i ep | i | i t | i | i | i t f | i | i b | i | i]; cbn [step].
  - destruct (chan s from to) as [| m q] eqn:Hch; [done |]. by apply deliver_sim.
  - intros [= <-]. by apply drop_sim.
  - destruct (nodes s !! i) as [n |] eqn:Hi; [| done]. cbn. unfold check. destruct (Z.leb_spec (epoch n) ep) as [Hep |]; [| done]. cbn.
    intros Hrun. eapply run_R; [done | exact Hrun |]. intros n' Hn' HR. simplify_eq. by apply wp_join_at.
  - destruct (nodes s !! i) as [n |] eqn:Hi; [| done]. cbn. unfold check.
    destruct (outside n && (epoch n <? ep) && majority c q && bool_decide (i ∈ q) && bool_decide (q ⊆ ranks c)) eqn:Hb; [| done]. cbn.
    repeat (apply andb_true_iff in Hb as [Hb ?]). repeat match goal with H : bool_decide _ = true |- _ => apply bool_decide_eq_true in H end.
    intros Hrun. eapply run_R; [done | exact Hrun |]. intros n' Hn' HR. simplify_eq. apply wp_bind, wp_upd. intros n1 ->.
    eapply wp_win; [done | done | apply electing_at; [done | done | lia] | by apply majority_maj | done | done].
  - destruct (nodes s !! i) as [n |] eqn:Hi; [| done]. cbn. unfold check. destruct (outside n && (epoch n <? ep)) eqn:Hb; [| done]. cbn.
    apply andb_true_iff in Hb as [Hb ?].
    intros Hrun. eapply run_R; [done | exact Hrun |]. intros n' Hn' HR. simplify_eq. apply wp_bind, wp_upd. intros n1 ->.
    eapply wp_lose; [apply electing_at; [done | done | lia] | done].
  - destruct (nodes s !! i) as [n |] eqn:Hi; [| done]. cbn. unfold check. destruct (outside n && (epoch n <=? ep)) eqn:Hb; [| done]. cbn.
    apply andb_true_iff in Hb as [Hb ?].
    intros Hrun. eapply run_R; [done | exact Hrun |]. intros n' Hn' HR. simplify_eq. apply wp_epoch; [done | done | lia].
  - intros Hrun. eapply run_R; [done | exact Hrun |]. intros n' _ HR. by apply wp_bootstrap.
  - destruct (nodes s !! i) as [n |] eqn:Hi; [| done]. cbn. destruct (timer_armed t n); [| done]. cbn.
    intros Hrun. eapply run_R; [done | exact Hrun |]. intros n' _ HR. by apply wp_timer.
  - intros Hrun. eapply run_R; [done | exact Hrun |]. intros n' _ HR. by apply wp_io_apply.
  - intros Hrun. eapply run_R; [done | exact Hrun |]. intros n' _ HR. by apply wp_io_complete.
  - unfold check. destruct (service_tx t) eqn:Ht; [| done]. destruct (service_finisher f); [| done]. cbn.
    intros Hrun. eapply run_R; [done | exact Hrun |]. intros n' _ HR. by apply wp_propose.
  - intros Hrun. eapply run_R; [done | exact Hrun |]. intros n' _ HR. unfold trigger_propose. apply wp_bind, wp_bind, wp_self.
    destruct (plugged n'); [by apply wp_ret, wp_ret |]. destruct (is_active n') eqn:Hact; [| by apply wp_ret, wp_ret].
    apply wp_bind. eapply wp_mono; [| by apply wp_propose_R]. intros [] n1 a1 HR1. by apply wp_ret, wp_ret.
  - intros Hrun. eapply run_R; [done | exact Hrun |]. intros n' _ HR. pose proof HR as (HW & _).
    destruct b; apply wp_bind, wp_self, wp_bind, wp_assert; try (by apply W_safe); intros _; apply wp_upd; intros n1 ->; (eapply R_core; [| | exact HR]; done).
  - intros Hrun. eapply run_R; [done | exact Hrun |]. intros n' _ HR. apply wp_abort, W_safe, HR.
  - destruct (nodes s !! i) as [n |] eqn:Hi; [| done]. cbn. intros [= <-]. eapply restart_sim; [done | done |]. by apply Hal.
Qed.

Lemma init_disk : disk [] ∅ 0 None.
Proof.
  split; [unfold zlen; cbn; lia |]. split; [done |]. split; [| done]. split.
  - intros k _. done.
  - intros v Hv. lia.
  - intros v _. done.
Qed.

Lemma init_related : related (init_sys c) ainit.
Proof.
  split; [apply (ainit_inv tx_eqv tx_ok) | |]; cbn.
  - intros j n Hj. apply elem_of_list_to_map_2, list_elem_of_fmap in Hj as (r & [= -> ->] & _). split; [| done].
    split; [split; try done; apply init_disk |]. done.
  - intros x y. unfold chan. cbn. rewrite lookup_empty. constructor.
Qed.

Theorem reachable_related s : reachable c s -> exists a, steps ainit a /\ related s a.
Proof.
  induction 1 as [| l e s s' _ (a & Hs & Hrel) Hal Hstep].
  - exists ainit. split; [apply rtc_refl | apply init_related].
  - destruct (step_sim l e s s' a Hrel Hal Hstep) as (a' & Hs' & Hrel'). exists a'. split; [by etransitivity | done].
Qed.
End Refine.
