(* ===== verification/PaxosThms.v ===== *)
(** * What the monitors' Paxos guarantees

    Agreement and replication for every run in which only monitors with a
    durable promise are restarted, and a run that loses agreement when a leader
    is restarted before its own promise reaches its disk. *)

From stdpp Require Import strings functions relations.
From S2P Require Import Prelude MonitorDBStore Paxos PaxosSystem PaxosSpec PaxosInv PaxosDisk PaxosSim PaxosSimOps PaxosRefine.

(** A configuration the theorems cover. *)
Definition conf_ok (c : conf) : Prop :=
  1 < monmap_size c <= 100 /\ 0 <= paxos_min c /\ 0 <= paxos_trim_min c /\ paxos_min c + paxos_trim_min c < 2 ^ 31.

(** One allowed step of the cluster, and a sequence of them. *)
Definition may_step (c : conf) (s s' : sys) : Prop := exists l e, allowed l s /\ step c l e s = Some s'.
Definition later (c : conf) : sys -> sys -> Prop := rtc (may_step c).

Lemma later_reachable c s s' : reachable c s -> later c s s' -> reachable c s'.
Proof. intros Hs Hl. induction Hl as [| s s1 s' (l & e & Hal & Hst) _ IH]; [done |]. apply IH. by eapply reachable_step. Qed.

(** Version [v], where monitor [n] has committed it and not trimmed it. *)
Definition committed_value (n : node) (v : Z) : option Transaction :=
  lc ← get_num (store n) paxos_name "last_committed";
  if (1 <=? v) && (v <=? lc) then bl ← store n !! (paxos_name, ver_key v); decode_transaction bl else None.

Section Abstract.
Context {V : Type} (eqv : relation V) (ok : list V -> V -> Prop) (ranks : gset Z).

Lemma astep_log (a a' : @PaxosSpec.astate V) : astep eqv ok ranks a a' -> alog a `prefix_of` alog a'.
Proof. intros []; cbn; try done. case_match; [by apply prefix_app_r | done]. Qed.

Lemma asteps_log (a a' : @PaxosSpec.astate V) : asteps eqv ok ranks a a' -> alog a `prefix_of` alog a'.
Proof. induction 1 as [| a b d Hab _ IH]; [done |]. etransitivity; [by eapply astep_log | done]. Qed.

Lemma astep_lc (a a' : @PaxosSpec.astate V) i : astep eqv ok ranks a a' -> a_lc (an a i) <= a_lc (an a' i).
Proof.
  intros Hs. destruct Hs; cbn; try done; try (destruct (decide (i = i0)) as [-> |]; fn_simpl; cbn; lia);
    destruct (decide (i = k)) as [-> |]; fn_simpl; cbn; lia.
Qed.

End Abstract.

Section Thms.
Context (c : conf).
Hypothesis Hok : conf_ok c.

Lemma related_later s s' a : related c s a -> later c s s' ->
  exists a', asteps tx_eqv tx_ok (ranks c) a a' /\ related c s' a'.
Proof.
  destruct Hok as (Hsize & Htrim). intros Hr Hl. revert a Hr. induction Hl as [s | s s1 s' (l & e & Hal & Hst) _ IH]; intros a Hr.
  - exists a. split; [apply rtc_refl | done].
  - destruct (step_sim c Hsize Htrim l e s s1 a Hr Hal Hst) as (a1 & H1 & Hr1). destruct (IH a1 Hr1) as (a2 & H2 & Hr2).
    exists a2. split; [by etransitivity | done].
Qed.

Lemma reachable_rel s : reachable c s -> exists a, related c s a.
Proof. destruct Hok as (Hsize & Htrim). intros Hs. destruct (reachable_related c Hsize Htrim s Hs) as (a & _ & Hr). by exists a. Qed.

Lemma related_disk s a i n : related c s a -> nodes s !! i = Some n ->
  disk (alog a) (store n) (a_lc (an a i)) (a_pend (an a i)).
Proof. intros Hr Hi. destruct (r_nodes _ _ _ Hr i n Hi) as [[Hb _] _]. apply Hb. Qed.

Lemma committed_log s a i n v x : related c s a -> nodes s !! i = Some n -> committed_value n v = Some x ->
  exists y, alog a !! Z.to_nat (v - 1) = Some y /\ tx_eqv x y.
Proof.
  intros Hr Hi Hx. destruct (related_disk s a i n Hr Hi) as (_ & Hlc & Hb & _).
  unfold committed_value in Hx. rewrite Hlc in Hx. cbn in Hx. destruct ((1 <=? v) && (v <=? a_lc (an a i))) eqn:Hv; [| done].
  pose proof (d_ver _ _ _ Hb v ltac:(lia)) as Hd. fold (vkey v) in Hx. case_match; [by rewrite Hd in Hx |].
  destruct Hd as (x' & y & Hx' & Hy & Hxy). rewrite Hx' in Hx. injection Hx as <-. by exists y.
Qed.

Lemma run_nodes i m s s' r : run i m s = Some s' -> is_Some (nodes s !! r) -> is_Some (nodes s' !! r).
Proof.
  unfold run. destruct (nodes s !! i) as [n |]; [| done]. cbn. case_bool_decide; [done |].
  destruct (m n) as [o n']. intros [= <-] Hr. cbn. by apply lookup_insert_is_Some'; right.
Qed.

Lemma step_nodes l e s s' r : step c l e s = Some s' -> is_Some (nodes s !! r) -> is_Some (nodes s' !! r).
Proof.
  intros Hst Hr. destruct l; cbn in Hst; try (destruct (nodes s !! _) eqn:Hi in Hst; [| done]; cbn in Hst);
    try (destruct (check _) in Hst; [| done]; cbn in Hst); try by eapply run_nodes.
  - destruct (chan s from to); [done |]. eapply run_nodes; [exact Hst | done].
  - by injection Hst as <-.
  - injection Hst as <-. cbn. by apply lookup_insert_is_Some'; right.
Qed.

Lemma reachable_nodes s r : reachable c s -> r ∈ ranks c -> is_Some (nodes s !! r).
Proof.
  intros Hs Hr. induction Hs as [| l e s s' _ IH _ Hst]; [| by eapply step_nodes].
  unfold ranks in Hr. apply elem_of_list_to_set in Hr. cbn. destruct (list_to_map _ !! r) as [n |] eqn:E; [done |].
  apply not_elem_of_list_to_map in E. destruct E. rewrite <- list_fmap_compose. apply list_elem_of_fmap. by exists r.
Qed.

Lemma related_lc s a i n lc : related c s a -> nodes s !! i = Some n -> get_num (store n) paxos_name "last_committed" = Some lc ->
  lc = a_lc (an a i).
Proof. intros Hr Hi Hlc. destruct (related_disk s a i n Hr Hi) as (_ & Hg & _). congruence. Qed.

Lemma agree s s' i j ni nj v xi xj : reachable c s -> later c s s' -> nodes s !! i = Some ni -> nodes s' !! j = Some nj ->
  committed_value ni v = Some xi -> committed_value nj v = Some xj -> tx_eqv xi xj.
Proof.
  intros Hs Hl Hi Hj Hvi Hvj. destruct (reachable_rel s Hs) as (a & Hr). destruct (related_later s s' a Hr Hl) as (a' & Hst & Hr').
  destruct (committed_log s a i ni v xi Hr Hi Hvi) as (y & Hy & ->).
  destruct (committed_log s' a' j nj v xj Hr' Hj Hvj) as (z & Hz & ->).
  apply asteps_log in Hst. rewrite (prefix_lookup_Some _ _ _ _ Hy Hst) in Hz. by injection Hz as ->.
Qed.
End Thms.

(** ** Runs *)

Definition demo_conf (n : Z) : conf :=
  {| monmap_size := n; mon_lease := 5; paxos_min := 500; paxos_trim_min := 250; paxos_trim_max := 500; mon_compact_on_trim := true |}.
Definition demo_env : env := {| now := 1; need_bootstrap := false |}.

(** An election in epoch [ep]: the leader [l] with its first transaction, and
    the peons of the quorum. *)
Definition elect (l ep : Z) (peons : list Z) (md : string) : list label :=
  let q : gset Z := list_to_set (l :: peons) in
  [LJoin l (ep - 1); LWin l ep q md] ++ concat (map (fun p => [LJoin p (ep - 1); LLose p ep q l]) peons).

Definition run_labels (c : conf) (ls : list label) : option sys := runs c (map (fun l => (l, demo_env)) ls) (init_sys c).

Definition no_restart (l : label) : bool := match l with LRestart _ => false | _ => true end.

Lemma runs_later c ls s s' : forallb no_restart ls = true ->
  runs c (map (fun l => (l, demo_env)) ls) s = Some s' -> later c s s'.
Proof.
  revert s. induction ls as [| l ls IH]; intros s Hnr; [intros [= <-]; apply rtc_refl |]. cbn in *.
  apply andb_true_iff in Hnr as [Hl Hnr]. destruct (step c l demo_env s) as [s1 |] eqn:Hst; [| done]. cbn.
  intros Hr. eapply rtc_l; [| by apply IH]. exists l, demo_env. split; [by destruct l | done].
Qed.

(** Two of three monitors commit the leader's first transaction. *)
Definition commit_run : list label :=
  elect 0 2 [1] "v1" ++
  [LDeliver 0 1; LDeliver 1 0; LDeliver 0 1; LDeliver 0 1; LDeliver 1 0; LDeliver 1 0; LApply 0; LComplete 0; LDeliver 0 1].

(** The states at its end. *)
Definition commit_state : sys := Eval vm_compute in default (init_sys (demo_conf 3)) (run_labels (demo_conf 3) commit_run).
Definition commit_node (i : Z) : node := default (fresh i 0 ∅) (nodes commit_state !! i).

Definition demo_tx (md : string) : Transaction :=
  [put_num paxos_name "first_committed" 1; OP_PUT "monitor_store" "last_metadata" (BBytes md)].

Lemma commit_later : later (demo_conf 3) (init_sys (demo_conf 3)) commit_state.
Proof. apply (runs_later (demo_conf 3) commit_run); vm_compute; reflexivity. Qed.

Lemma commit_reachable : reachable (demo_conf 3) commit_state.
Proof. apply (later_reachable (demo_conf 3) (init_sys (demo_conf 3))); [constructor | exact commit_later]. Qed.

(** Five monitors.  The leader 2 restarts after its peons have promised and it
    has accepted its own value "b"; with its promise gone it answers a collect
    with a lower number. *)
Definition lost_promise_run : list label :=
  elect 2 2 [3; 4] "b" ++ [LDeliver 2 3; LDeliver 2 4; LDeliver 3 2; LDeliver 4 2; LRestart 2] ++
  elect 1 4 [3; 4] "a" ++ [LDeliver 1 3; LDeliver 3 1; LDeliver 1 3; LDeliver 1 4; LDeliver 1 4; LDeliver 3 1; LDeliver 4 1; LDeliver 4 1; LDeliver 1 3; LDeliver 1 3; LRestart 1] ++
  elect 0 6 [1; 2] "g" ++ [LDeliver 0 1; LDeliver 0 2; LDeliver 1 0; LDeliver 2 0; LDeliver 0 1] ++
  elect 0 8 [1; 2] "g" ++ [LDeliver 0 1; LDeliver 0 2; LDeliver 0 2; LDeliver 1 0; LDeliver 1 0; LDeliver 2 0; LDeliver 0 1; LDeliver 0 2; LDeliver 1 0; LDeliver 2 0; LApply 0; LComplete 0] ++
  elect 1 10 [3; 4] "a" ++ [LDeliver 1 3; LDeliver 1 4; LDeliver 1 4; LDeliver 1 4; LDeliver 3 1; LDeliver 3 1; LDeliver 3 1; LDeliver 4 1; LDeliver 1 3; LDeliver 1 4; LDeliver 3 1; LDeliver 4 1; LApply 1; LComplete 1].

Definition lost_state : sys := Eval vm_compute in default (init_sys (demo_conf 5)) (run_labels (demo_conf 5) lost_promise_run).

Definition metadata_key : string * string := ("monitor_store", "last_metadata")%string.

(** C4. Agreement: once some monitor has committed a version, every monitor
    that commits the version, at that time or later, commits a transaction
    with the same effect on every key. *)
Theorem paxos_agreement c s s' i j ni nj v xi xj : conf_ok c -> reachable c s -> later c s s' ->
  nodes s !! i = Some ni -> nodes s' !! j = Some nj -> committed_value ni v = Some xi -> committed_value nj v = Some xj -> tx_eqv xi xj.
Proof. intros Hok. by apply agree. Qed.

Lemma paxos_agreement_witness :
  committed_value (commit_node 0) 1 = Some (demo_tx "v1") /\ committed_value (commit_node 1) 1 = Some (demo_tx "v1") /\
  tx_eqv (demo_tx "v1") (demo_tx "v1").
Proof.
  split; [vm_compute; reflexivity |]. split; [vm_compute; reflexivity |].
  apply (paxos_agreement (demo_conf 3) commit_state commit_state 0 1 (commit_node 0) (commit_node 1) 1);
    [by split_and! | exact commit_reachable | apply rtc_refl | vm_compute; reflexivity ..].
Defined.

(** C5. Replication: there is one log such that the services' part of every
    monitor's store is the replay of the versions the monitor has committed. *)
Theorem paxos_replicates c s : conf_ok c -> reachable c s ->
  exists log, forall i n, nodes s !! i = Some n ->
    exists lc, get_num (store n) paxos_name "last_committed" = Some lc /\ 0 <= lc <= zlen log /\
      forall k, k.1 <> paxos_name -> store n !! k = replay (take (Z.to_nat lc) log) !! k.
Proof.
  intros Hok Hs. destruct (reachable_rel c Hok s Hs) as (a & Hr). exists (alog a). intros i n Hi.
  destruct (related_disk c s a i n Hr Hi) as (Hlc & Hg & Hb & _). exists (a_lc (an a i)). split_and!; try done; try lia.
  intros k Hk. apply (d_svc _ _ _ Hb). by left.
Qed.


Lemma paxos_replicates_witness : exists log, forall i n, nodes commit_state !! i = Some n ->
  exists lc, get_num (store n) paxos_name "last_committed" = Some lc /\ 0 <= lc <= zlen log /\
    forall k, k.1 <> paxos_name -> store n !! k = replay (take (Z.to_nat lc) log) !! k.
Proof. apply (paxos_replicates (demo_conf 3)); [by split_and! | exact commit_reachable]. Defined.

(** C6. Durability: a version that some monitor has committed is on the disk
    of a majority of the monitor map, committed there or accepted with the same
    effect. *)
Theorem paxos_majority c s i n v x : conf_ok c -> reachable c s -> nodes s !! i = Some n -> committed_value n v = Some x ->
  exists q, q ⊆ ranks c /\ majority c q = true /\ forall k, k ∈ q -> exists m lc, nodes s !! k = Some m /\
    get_num (store m) paxos_name "last_committed" = Some lc /\
    (v <= lc \/ exists y, store m !! (paxos_name, ver_key v) = Some (BTransaction y) /\ tx_eqv x y).
Proof.
  intros Hok Hs Hi Hx. destruct (reachable_rel c Hok s Hs) as (a & Hr). pose proof (r_inv _ _ _ Hr) as HI.
  destruct (committed_log c s a i n v x Hr Hi Hx) as (y & Hy & Hxy).
  assert (Hv : 1 <= v).
  { unfold committed_value in Hx. destruct (get_num _ _ _); [| done]. cbn in Hx. case_match; [lia | done]. }
  destruct (chosen_held tx_eqv tx_ok tx_ok_eqv (ranks c) a v y HI (I_log _ _ _ _ HI v y Hv Hy)) as (q & [Hq Hmaj] & Hk). exists q.
  pose proof (size_ranks c (proj1 Hok)) as Hsz. split; [done |]. split.
  { unfold majority. apply Z.ltb_lt. apply Z.div_lt_upper_bound; lia. }
  intros k Hkq. destruct (reachable_nodes c s k Hs (Hq k Hkq)) as [m Hm]. destruct (related_disk c s a k m Hr Hm) as (_ & Hg & _ & Hp).
  exists m, (a_lc (an a k)). split; [done |]. split; [done |]. destruct (Hk k Hkq) as [Hle | (Hv' & p & z & Hpd & Hz)]; [by left | right].
  rewrite Hpd in Hp. destruct Hp as (Hst & _). exists z. split; [by rewrite Hv' | by rewrite Hxy].
Qed.

Lemma paxos_majority_witness : exists q, q ⊆ ranks (demo_conf 3) /\ majority (demo_conf 3) q = true /\
  forall k, k ∈ q -> exists m lc, nodes commit_state !! k = Some m /\
    get_num (store m) paxos_name "last_committed" = Some lc /\
    (1 <= lc \/ exists y, store m !! (paxos_name, ver_key 1) = Some (BTransaction y) /\ tx_eqv (demo_tx "v1") y).
Proof.
  apply (paxos_majority (demo_conf 3) commit_state 0 (commit_node 0));
    [by split_and! | exact commit_reachable | vm_compute; reflexivity ..].
Defined.

(** A monitor's committed versions are never taken back, whatever the
    other monitors, the network and the elections do. *)
Theorem paxos_monotone c s s' i n n' lc lc' : conf_ok c -> reachable c s -> later c s s' ->
  nodes s !! i = Some n -> nodes s' !! i = Some n' ->
  get_num (store n) paxos_name "last_committed" = Some lc -> get_num (store n') paxos_name "last_committed" = Some lc' -> lc <= lc'.
Proof.
  intros Hok Hs Hl Hi Hi' Hlc Hlc'. destruct (reachable_rel c Hok s Hs) as (a & Hr).
  destruct (related_later c Hok s s' a Hr Hl) as (a' & Hst & Hr').
  rewrite (related_lc c s a i n lc Hr Hi Hlc), (related_lc c s' a' i n' lc' Hr' Hi' Hlc'). clear -Hst.
  induction Hst as [| a b d Hab _ IH]; [done |]. etransitivity; [by eapply astep_lc | done].
Qed.

Lemma paxos_monotone_witness : get_num (store (commit_node 0)) paxos_name "last_committed" = Some 1 /\ 0 <= 1.
Proof.
  split; [vm_compute; reflexivity |].
  apply (paxos_monotone (demo_conf 3) (init_sys (demo_conf 3)) commit_state 0 (fresh 0 0 ∅) (commit_node 0));
    [by split_and! | constructor | exact commit_later | vm_compute; reflexivity ..].
Defined.

(** C7. A leader's promise is lost when it restarts: [collect] raises
    [accepted_pn] in memory and writes only [last_pn].  Two monitors of five
    commit different transactions as version 1. *)
Theorem paxos_lost_promise : exists s n0 n1, run_labels (demo_conf 5) lost_promise_run = Some s /\
  nodes s !! 0 = Some n0 /\ nodes s !! 1 = Some n1 /\ last_committed n0 = 1 /\ last_committed n1 = 1 /\
  store n0 !! metadata_key = Some (BBytes "b") /\ store n1 !! metadata_key = Some (BBytes "a").
Proof.
  exists lost_state, (default (fresh 0 0 ∅) (nodes lost_state !! 0)), (default (fresh 1 0 ∅) (nodes lost_state !! 1)).
  split_and!; vm_compute; reflexivity.
Qed.
