(* ===== verification/MonFrame.v ===== *)
(** * What Paxos leaves to the elector

    No handler of [Paxos.v] changes the rank or the epoch of a monitor, its
    leader or its quorum, except that it may make it a probing monitor. *)

From stdpp Require Import strings.
From S2P Require Import Prelude MonitorDBStore Paxos PaxosSystem.

(** The monitor is in the same quorum, unless it was probing. *)
Definition same_role (n n' : node) : Prop :=
  mstate n' = mstate n /\ (mstate n = MON_PROBING \/ quorum n' = quorum n /\ leader n' = leader n).

Definition keep (n n' : node) : Prop :=
  epoch n' = epoch n /\ rank n' = rank n /\ (same_role n n' \/ mstate n' = MON_PROBING).

#[export] Instance keep_preorder : PreOrder keep.
Proof.
  split; [by intros n; unfold keep, same_role; split_and!; auto |]. intros x y z (H1 & H2 & H3) (H4 & H5 & H6).
  split_and!; [congruence | congruence |]. unfold same_role in *. destruct H3 as [[H3 H3'] | H3], H6 as [[H6 H6'] | H6]; auto.
  - left. split; [congruence |]. destruct H3' as [| [E1 E2]]; [by left |]. destruct H6' as [E3 | [E3 E4]]; [left | right]; [congruence |].
    by rewrite E3, E4.
  - right. congruence.
Qed.

Definition keeps {A} (m : M A) : Prop := forall n, keep n (m n).2.

Lemma keeps_ret {A} (x : A) : keeps (mret x).
Proof. by intros n. Qed.
Lemma keeps_self : keeps self.
Proof. by intros n. Qed.
Lemma keeps_abort {A} : keeps (@abort A).
Proof. by intros n. Qed.
Lemma keeps_bind {A B} (m : M A) (f : A -> M B) : keeps m -> (forall x, keeps (f x)) -> keeps (m ≫= f).
Proof.
  intros Hm Hf n. specialize (Hm n). unfold mbind, M_bind. destruct (m n) as [[x |] n']; [| done].
  etransitivity; [exact Hm | apply Hf].
Qed.
Lemma keeps_upd f : (forall n, keep n (f n)) -> keeps (upd f).
Proof. intros H n. apply H. Qed.
Lemma keeps_assert b : keeps (assert b).
Proof. destruct b; [apply keeps_ret | apply keeps_abort]. Qed.
Lemma keeps_when b m : keeps m -> keeps (when b m).
Proof. destruct b; [done | intros _; apply keeps_ret]. Qed.
Lemma keeps_unless {A} (o : option A) : keeps (unless_None o).
Proof. destruct o; [apply keeps_ret | apply keeps_abort]. Qed.
Lemma keeps_run_tx t : keeps (run_tx t).
Proof. apply keeps_upd. intros n. unfold keep, same_role. by split_and!; auto. Qed.
Lemma keeps_send to m : keeps (send to m).
Proof. apply keeps_upd. intros n. unfold keep, same_role. by split_and!; auto. Qed.
Lemma keeps_send_quorum m : keeps (send_quorum m).
Proof. apply keeps_upd. intros n. unfold keep, same_role. by split_and!; auto. Qed.

Lemma keep_finish r fs n : keep n (fold_left (finish_context r) fs n).
Proof.
  revert n. induction fs as [| f fs IH]; intros n; [done |]. cbn. etransitivity; [| apply IH].
  unfold keep, same_role. destruct f; by split_and!; auto.
Qed.
Lemma keeps_finish_contexts fs r : keeps (finish_contexts fs r).
Proof. apply keeps_upd. intros n. apply keep_finish. Qed.

Create HintDb frame.
#[export] Hint Resolve keeps_ret keeps_self keeps_abort keeps_assert keeps_unless keeps_run_tx keeps_send keeps_send_quorum
  keeps_finish_contexts : frame.
#[export] Hint Constants Opaque : frame.

Ltac keeps_step :=
  first
    [ solve [auto with frame]
    | apply keeps_bind; [| intros ?]
    | apply keeps_when
    | apply keeps_upd; intros ?; solve [unfold keep, same_role; split_and!; cbn; auto]
    | case_match ].
Ltac keeps := intros; repeat keeps_step.

Section Handlers.
Context (c : conf) (e : env).

Lemma keeps_finishers : keeps reset_pending_committing_finishers.
Proof. unfold reset_pending_committing_finishers. keeps. Qed.
Lemma keeps_queue f : keeps (queue_pending_finisher f).
Proof. unfold queue_pending_finisher. keeps. Qed.
Lemma keeps_cancel : keeps cancel_events.
Proof. unfold cancel_events. keeps. Qed.
Lemma keeps_get_key k : keeps (get_key k).
Proof. unfold get_key. keeps. Qed.
Lemma keeps_decode b : keeps (decode b).
Proof. unfold decode. keeps. Qed.
Lemma keeps_pending : keeps get_pending_transaction.
Proof. unfold get_pending_transaction. keeps. Qed.
Hint Resolve keeps_finishers keeps_queue keeps_cancel keeps_get_key keeps_decode keeps_pending : frame.

Lemma keeps_trim : keeps (trim c).
Proof. unfold trim. keeps. Qed.
Lemma keeps_new_pn gt : keeps (get_new_proposal_number gt).
Proof. unfold get_new_proposal_number. keeps. Qed.
Lemma keeps_pending_pn p : keeps (pending_pn_or p).
Proof. unfold pending_pn_or. keeps. Qed.
Hint Resolve keeps_trim keeps_new_pn keeps_pending_pn : frame.

Lemma keeps_collect pn : keeps (collect pn).
Proof. unfold collect. keeps. Qed.
Lemma keeps_share_loop s vs l : keeps (share_loop s vs l).
Proof. revert l. induction vs as [| v vs IH]; intros l; cbn; keeps. Qed.
Hint Resolve keeps_share_loop : frame.
Lemma keeps_share_state m lc : keeps (share_state m lc).
Proof. unfold share_state. keeps. Qed.
Lemma keeps_apply_values l : keeps (apply_values l).
Proof. induction l as [| [v b] l IH]; cbn; keeps. Qed.
Lemma keeps_sanity : keeps sanity_check_store.
Proof. unfold sanity_check_store. keeps. Qed.
Hint Resolve keeps_apply_values keeps_sanity keeps_collect keeps_share_state : frame.
Lemma keeps_store_state m : keeps (store_state m).
Proof. unfold store_state. keeps. Qed.
Lemma keeps_commit_start : keeps commit_start.
Proof. unfold commit_start. keeps. Qed.
Hint Resolve keeps_store_state keeps_commit_start : frame.
Lemma keeps_begin v : keeps (begin c v).
Proof. unfold begin. keeps. Qed.
Hint Resolve keeps_begin : frame.
Lemma keeps_propose_pending : keeps (propose_pending c).
Proof. unfold propose_pending. keeps. Qed.
Hint Resolve keeps_propose_pending : frame.
Lemma keeps_finish_round : keeps (finish_round c).
Proof. unfold finish_round. keeps. Qed.
Lemma keeps_extend_lease : keeps (extend_lease c e).
Proof. unfold extend_lease. keeps. Qed.
Hint Resolve keeps_finish_round keeps_extend_lease : frame.
Lemma keeps_trigger : keeps (trigger_propose c).
Proof. unfold trigger_propose. keeps. Qed.

Lemma keeps_restart fl : keeps fl -> keeps (restart_with fl).
Proof. unfold restart_with. keeps. Qed.
Lemma keeps_wait fl : keeps fl -> keeps (wait_for_paxos_write_with fl).
Proof. unfold wait_for_paxos_write_with. keeps. Qed.
Hint Resolve keeps_restart keeps_wait : frame.
Lemma reset_keeps fl n : keeps fl -> keep (set_quorum ∅ n) (reset_with fl n).2.
Proof. intros H. apply (keeps_restart fl H (set_quorum ∅ n)). Qed.
Lemma keeps_bootstrap_with fl : keeps fl -> keeps (bootstrap_with fl).
Proof.
  intros H. apply keeps_bind; [by apply keeps_wait | intros _ n].
  change (keep n (reset_with fl (set_mstate MON_PROBING n)).2). destruct (reset_keeps fl (set_mstate MON_PROBING n) H) as (H1 & H2 & H3).
  split_and!; [done | done |]. right. by destruct H3 as [[H3 _] |].
Qed.
Hint Resolve keeps_bootstrap_with : frame.
Lemma keeps_refresh_with fl : keeps fl -> keeps (do_refresh_with e fl).
Proof. unfold do_refresh_with. keeps. Qed.
Hint Resolve keeps_refresh_with : frame.

Lemma keeps_commit_finish : keeps (commit_finish c e).
Proof. unfold commit_finish, commit_proposal. keeps. Qed.
Hint Resolve keeps_commit_finish : frame.
Lemma keeps_io_apply : keeps io_apply.
Proof. unfold io_apply. keeps. Qed.
Lemma keeps_io_complete : keeps (io_complete c e).
Proof. unfold io_complete, committed, abort_commit. keeps. Qed.
Hint Resolve keeps_io_apply keeps_io_complete : frame.
Lemma keeps_flush : keeps (flush c e).
Proof. unfold flush. keeps. Qed.
Hint Resolve keeps_flush : frame.
Lemma keeps_bootstrap : keeps (bootstrap c e).
Proof. unfold bootstrap. keeps. Qed.
Lemma keeps_do_refresh : keeps (do_refresh c e).
Proof. unfold do_refresh. keeps. Qed.
Hint Resolve keeps_bootstrap keeps_do_refresh : frame.

Lemma keeps_update_peers l : keeps (update_peers c e l).
Proof. induction l as [| [p lc] l IH]; cbn; keeps. Qed.
Lemma keeps_learn m : keeps (learn_uncommitted m).
Proof. unfold learn_uncommitted. keeps. Qed.
Lemma keeps_collect_done b : keeps (collect_done c e b).
Proof. unfold collect_done. keeps. Qed.
Hint Resolve keeps_update_peers keeps_learn keeps_collect_done : frame.

Lemma keeps_monitor_dispatch from m : keeps (monitor_dispatch c e from m).
Proof.
  unfold monitor_dispatch, dispatch, handle_collect, handle_last, handle_begin, handle_accept, handle_commit, handle_lease,
    handle_lease_ack, reset_lease_timeout. keeps.
Qed.

Lemma keeps_timer t : keeps (timer_fires c e t).
Proof.
  destruct t; unfold timer_fires, collect_timeout, accept_timeout, lease_ack_timeout, lease_timeout, lease_renew_timeout; keeps.
Qed.

Lemma keeps_leader_init : keeps leader_init.
Proof. unfold leader_init. keeps. Qed.
Lemma keeps_peon_init : keeps peon_init.
Proof. unfold peon_init, reset_lease_timeout. keeps. Qed.

Lemma keeps_propose t f : keeps (propose t f).
Proof. unfold propose. keeps. Qed.
Lemma keeps_plug (b : bool) : keeps (if b then plug else unplug).
Proof. unfold plug, unplug. keeps. Qed.
Lemma keeps_trigger_step : keeps (_ ← trigger_propose c; mret tt).
Proof. pose proof keeps_trigger. keeps. Qed.
End Handlers.

#[export] Hint Resolve keeps_monitor_dispatch keeps_timer keeps_propose keeps_plug keeps_trigger_step keeps_bootstrap
  keeps_io_apply keeps_io_complete keeps_leader_init keeps_peon_init keeps_pending : frame.
