(* ===== verification/ConnectionTracker.v ===== *)
(** * Connection scores between monitors

    [src/src/mon/ConnectionTracker.h] and [ConnectionTracker.cc]: every monitor
    keeps, for each peer, whether it is connected and how reliable the
    connection has been, and shares these reports with its peers.  A [double] is
    an IEEE binary64 number of the standard library's specification; the maps
    are ordered by rank, the order in which the scores are added up. *)

From Stdlib Require Import SpecFloat.
From stdpp Require Import list.
From S2P Require Import Prelude.

(** ** [double] *)

Definition double : Type := spec_float.
Definition dadd : double -> double -> double := SFadd 53 1024.
Definition dsub : double -> double -> double := SFsub 53 1024.
Definition dmul : double -> double -> double := SFmul 53 1024.
Definition ddiv : double -> double -> double := SFdiv 53 1024.
Definition dZ (z : Z) : double := binary_normalize 53 1024 z 0 false.

(** [a < b] and [a >= b]; both are false when one of them is not a number. *)
Definition dlt (a b : double) : bool := SFltb a b.
Definition dge (a b : double) : bool := SFleb b a.

(** [std::min] and [std::max] *)
Definition dmin (a b : double) : double := if dlt b a then b else a.
Definition dmax (a b : double) : double := if dlt a b then b else a.

(** ** Ordered maps *)

Fixpoint map_find {A} (m : list (Z * A)) (k : Z) : option A :=
  match m with
  | [] => None
  | (s, v) :: m' => if k =? s then Some v else map_find m' k
  end.

Definition map_erase {A} (m : list (Z * A)) (k : Z) : list (Z * A) := filter (fun e => e.1 <> k) m.

(** ** Reports *)

Record ConnectionReport := {
  r_rank : Z;
  r_current : list (Z * bool);
  r_history : list (Z * double);
  r_epoch : Z;
  r_epoch_version : Z
}.

Definition no_report : ConnectionReport :=
  {| r_rank := -1; r_current := []; r_history := []; r_epoch := 0; r_epoch_version := 0 |}.

Record ConnectionTracker := {
  t_epoch : Z;
  t_version : Z;
  peer_reports : list (Z * ConnectionReport);
  my_reports : ConnectionReport;
  half_life : double;
  t_rank : Z;
  persist_interval : Z
}.

Definition new_tracker (rank : Z) (hl : double) (persist : Z) : ConnectionTracker :=
  {| t_epoch := 0; t_version := 0; peer_reports := [];
     my_reports := {| r_rank := rank; r_current := []; r_history := []; r_epoch := 0; r_epoch_version := 0 |};
     half_life := hl; t_rank := rank; persist_interval := persist |}.

(** ** Operations *)

Definition with_peer_reports (l : list (Z * ConnectionReport)) (t : ConnectionTracker) : ConnectionTracker :=
  {| t_epoch := t_epoch t; t_version := t_version t; peer_reports := l; my_reports := my_reports t;
     half_life := half_life t; t_rank := t_rank t; persist_interval := persist_interval t |}.

(** [report] is newer than [existing]. *)
Definition newer (report existing : ConnectionReport) : bool :=
  (r_epoch existing <? r_epoch report) ||
  ((r_epoch report =? r_epoch existing) && (r_epoch_version existing <? r_epoch_version report)).

(** One turn of the loop; [reports()] creates the entry it does not find. *)
Definition take_report (rank : Z) (l : list (Z * ConnectionReport)) (report : ConnectionReport) : list (Z * ConnectionReport) :=
  if r_rank report =? rank then l
  else
    let existing := default no_report (map_find l (r_rank report)) in
    map_set l (r_rank report) (if newer report existing then report else existing).

Definition receive_peer_report (o t : ConnectionTracker) : ConnectionTracker :=
  with_peer_reports (fold_left (take_report (t_rank t)) (map snd (peer_reports o)) (peer_reports t)) t.

Definition with_epoch (e v : Z) (r : ConnectionReport) : ConnectionReport :=
  {| r_rank := r_rank r; r_current := r_current r; r_history := r_history r; r_epoch := e; r_epoch_version := v |}.

Definition increase_epoch (e : Z) (t : ConnectionTracker) : ConnectionTracker :=
  if t_epoch t <? e then
    let mine := with_epoch e 0 (my_reports t) in
    {| t_epoch := e; t_version := 0; peer_reports := map_set (peer_reports t) (t_rank t) mine; my_reports := mine;
       half_life := half_life t; t_rank := t_rank t; persist_interval := persist_interval t |}
  else t.

(** The result says whether the scores are to be written out. *)
Definition increase_version (t : ConnectionTracker) : ConnectionTracker * bool :=
  let v := t_version t + 1 in
  let mine := with_epoch (r_epoch (my_reports t)) v (my_reports t) in
  ({| t_epoch := t_epoch t; t_version := v; peer_reports := map_set (peer_reports t) (t_rank t) mine; my_reports := mine;
      half_life := half_life t; t_rank := t_rank t; persist_interval := persist_interval t |},
   v mod persist_interval t =? 0).

Definition report_connection (peer_rank : Z) (alive : bool) (score : double) (t : ConnectionTracker) : ConnectionTracker * bool :=
  let mine := my_reports t in
  increase_version
    {| t_epoch := t_epoch t; t_version := t_version t; peer_reports := peer_reports t;
       my_reports := {| r_rank := r_rank mine; r_current := map_set (r_current mine) peer_rank alive;
                        r_history := map_set (r_history mine) peer_rank score;
                        r_epoch := r_epoch mine; r_epoch_version := r_epoch_version mine |};
       half_life := half_life t; t_rank := t_rank t; persist_interval := persist_interval t |}.

Definition old_score (t : ConnectionTracker) (peer_rank : Z) : double :=
  default (dZ 1) (map_find (r_history (my_reports t)) peer_rank).

Definition report_live_connection (peer_rank : Z) (units_alive : double) (t : ConnectionTracker) : ConnectionTracker * bool :=
  let u := ddiv units_alive (dmul (dZ 2) (half_life t)) in
  report_connection peer_rank true (dmin (dadd (dmul (old_score t peer_rank) (dsub (dZ 1) u)) u) (dZ 1)) t.

Definition report_dead_connection (peer_rank : Z) (units_dead : double) (t : ConnectionTracker) : ConnectionTracker * bool :=
  let u := ddiv units_dead (dmul (dZ 2) (half_life t)) in
  report_connection peer_rank false (dmax (dsub (dmul (old_score t peer_rank) (dsub (dZ 1) u)) u) (dZ 0)) t.

(** What one report adds to the score and the live count of [peer_rank]. *)
Definition add_score (peer_rank : Z) (acc : double * Z) (e : Z * ConnectionReport) : double * Z :=
  let '(rate, live) := acc in
  if e.1 =? peer_rank then acc
  else
    match map_find (r_history (snd e)) peer_rank with
    | Some score => if default false (map_find (r_current (snd e)) peer_rank) then (dadd rate score, live + 1) else acc
    | None => acc
    end.

Definition get_total_connection_score (peer_rank : Z) (t : ConnectionTracker) : double * Z :=
  fold_left (add_score peer_rank) (peer_reports t) (dZ 0, 0).

Definition notify_reset (t : ConnectionTracker) : ConnectionTracker :=
  {| t_epoch := t_epoch t; t_version := t_version t; peer_reports := []; my_reports := no_report;
     half_life := half_life t; t_rank := t_rank t; persist_interval := persist_interval t |}.

Definition notify_rank_changed (new_rank : Z) (t : ConnectionTracker) : ConnectionTracker :=
  if new_rank =? t_rank t then t
  else
    let mine := my_reports t in
    {| t_epoch := t_epoch t; t_version := t_version t;
       peer_reports := map_erase (map_erase (peer_reports t) (t_rank t)) new_rank;
       my_reports := {| r_rank := new_rank; r_current := r_current mine; r_history := r_history mine;
                        r_epoch := r_epoch mine; r_epoch_version := r_epoch_version mine |};
       half_life := half_life t; t_rank := new_rank; persist_interval := persist_interval t |}.

(** The ranks above [removed], which the loops step through. *)
Definition ranks_above {A} (removed : Z) (m : list (Z * A)) : list Z :=
  map fst (filter (fun e => removed < e.1) (map_erase m removed)).

(** The ranks above [removed] move down by one. *)
Definition close_gap {A} (removed : Z) (m : list (Z * A)) : list (Z * A) :=
  map (fun e => (if removed <? e.1 then e.1 - 1 else e.1, e.2)) (map_erase m removed).

(** The assertions of [notify_rank_removed]: the loop meets the same ranks in
    [current] and in [history], and each map loses at most one entry. *)
Definition removal_asserts (removed : Z) (t : ConnectionTracker) : bool :=
  let mine := my_reports t in
  let ci := ranks_above removed (r_current mine) in
  let lost {A} (m : list (Z * A)) :=
    let size := zlen (close_gap removed m) in
    (size =? zlen m) || (size + 1 =? zlen m) in
  bool_decide (ci = take (length ci) (ranks_above removed (r_history mine))) &&
  lost (r_current mine) && lost (peer_reports t).

(** [notify_rank_removed] where the assertions hold and [history] has no ranks
    beyond those of [current], which would stay where they are. *)
Definition notify_rank_removed (removed : Z) (t : ConnectionTracker) : ConnectionTracker :=
  let mine := my_reports t in
  let below := removed <? t_rank t in
  {| t_epoch := t_epoch t; t_version := t_version t;
     peer_reports := close_gap removed (peer_reports t);
     my_reports := {| r_rank := if below then t_rank t - 1 else r_rank mine; r_current := close_gap removed (r_current mine);
                      r_history := close_gap removed (r_history mine);
                      r_epoch := r_epoch mine; r_epoch_version := r_epoch_version mine |};
     half_life := half_life t; t_rank := if below then t_rank t - 1 else t_rank t; persist_interval := persist_interval t |}.

(** [decode] of what [encode] made of [o], into a tracker that persists every
    [persist] versions.  [peer_reports[rank]] creates the entry it does not find. *)
Definition decode_tracker (persist : Z) (o : ConnectionTracker) : ConnectionTracker :=
  let mine := default no_report (map_find (peer_reports o) (t_rank o)) in
  if 0 <=? t_rank o then
    {| t_epoch := t_epoch o; t_version := t_version o; peer_reports := map_set (peer_reports o) (t_rank o) mine;
       my_reports := mine; half_life := half_life o; t_rank := t_rank o; persist_interval := persist |}
  else
    {| t_epoch := t_epoch o; t_version := t_version o; peer_reports := peer_reports o;
       my_reports := no_report; half_life := half_life o; t_rank := t_rank o; persist_interval := persist |}.
