(* ===== verification/ElectorPing.v ===== *)
(** * Pings between monitors

    The part of [src/src/mon/Elector.cc] that pings the peers and turns what it
    sees into connection reports: [begin_peer_ping], [ping_check],
    [begin_dead_ping], [dead_ping], [handle_ping] and the renumbering of the
    peers when a rank leaves the monitor map.  A [utime_t] is its number of
    nanoseconds; where the code mixes it with a [double] it is converted. *)

From stdpp Require Import gmap.
From S2P Require Import Prelude ConnectionTracker.

(** ** Time *)

Definition nsecs : Z := 1000000000.

Definition utime_sub (l r : Z) : Z := u32 ((l - r) / nsecs) * nsecs + (l - r) mod nsecs.
Definition utime_double (t : Z) : double := dadd (dZ (t / nsecs)) (ddiv (dZ (t mod nsecs)) (dZ nsecs)).

(** ** State *)

Inductive ping_op := PING | PING_REPLY.

Record MMonPing := { p_op : ping_op; p_stamp : Z; p_tracker : ConnectionTracker }.

(** [check_events] and [dead_events] are the peers with a [ping_check] or a
    [dead_ping] scheduled; [persisted_scores] is the key "connectivity_scores"
    of the store. *)
Record pinger := Pinger {
  peer_tracker : ConnectionTracker;
  persisted_scores : option ConnectionTracker;
  live_pinging : gset Z;
  dead_pinging : gset Z;
  peer_acked_ping : gmap Z Z;
  peer_sent_ping : gmap Z Z;
  check_events : list Z;
  dead_events : list Z;
  ping_out : list (Z * MMonPing)
}.

Definition with_tracker (t : ConnectionTracker) (s : pinger) : pinger :=
  Pinger t (persisted_scores s) (live_pinging s) (dead_pinging s) (peer_acked_ping s) (peer_sent_ping s)
    (check_events s) (dead_events s) (ping_out s).

Definition with_pinging (live dead : gset Z) (s : pinger) : pinger :=
  Pinger (peer_tracker s) (persisted_scores s) live dead (peer_acked_ping s) (peer_sent_ping s)
    (check_events s) (dead_events s) (ping_out s).

Definition with_acked (peer t : Z) (s : pinger) : pinger :=
  Pinger (peer_tracker s) (persisted_scores s) (live_pinging s) (dead_pinging s) (<[peer := t]> (peer_acked_ping s))
    (peer_sent_ping s) (check_events s) (dead_events s) (ping_out s).

Definition with_sent (peer t : Z) (s : pinger) : pinger :=
  Pinger (peer_tracker s) (persisted_scores s) (live_pinging s) (dead_pinging s) (peer_acked_ping s)
    (<[peer := t]> (peer_sent_ping s)) (check_events s) (dead_events s) (ping_out s).

Definition with_events (checks deads : list Z) (s : pinger) : pinger :=
  Pinger (peer_tracker s) (persisted_scores s) (live_pinging s) (dead_pinging s) (peer_acked_ping s) (peer_sent_ping s)
    checks deads (ping_out s).

Definition send_ping (peer : Z) (m : MMonPing) (s : pinger) : pinger :=
  Pinger (peer_tracker s) (persisted_scores s) (live_pinging s) (dead_pinging s) (peer_acked_ping s) (peer_sent_ping s)
    (check_events s) (dead_events s) (ping_out s ++ [(peer, m)]).

Definition persist_connectivity_scores (s : pinger) : pinger :=
  Pinger (peer_tracker s) (Some (peer_tracker s)) (live_pinging s) (dead_pinging s) (peer_acked_ping s) (peer_sent_ping s)
    (check_events s) (dead_events s) (ping_out s).

(** The tracker's [owner->persist_connectivity_scores()] *)
Definition report (r : ConnectionTracker * bool) (s : pinger) : pinger :=
  let s := with_tracker r.1 s in if r.2 then persist_connectivity_scores s else s.

Definition acked_ping (s : pinger) (peer : Z) : Z := default 0 (peer_acked_ping s !! peer).
Definition sent_ping (s : pinger) (peer : Z) : Z := default 0 (peer_sent_ping s !! peer).

(** ** Operations

    [monmap_ranks] is the number of ranks of the monitor map and [can_ping]
    whether the quorum has [FEATURE_PINGING]. *)

Record ping_conf := { ping_timeout : double; PING_DIVISOR : Z; monmap_ranks : Z; can_ping : bool }.

Section Ping.
Context (pc : ping_conf) (now : Z).

Definition schedule_check (peer : Z) (s : pinger) : pinger := with_events (check_events s ++ [peer]) (dead_events s) s.
Definition schedule_dead (peer : Z) (s : pinger) : pinger := with_events (check_events s) (dead_events s ++ [peer]) s.

Definition send_peer_ping (peer : Z) (s : pinger) : pinger :=
  with_sent peer now (send_ping peer {| p_op := PING; p_stamp := now; p_tracker := peer_tracker s |} s).

Definition begin_peer_ping (peer : Z) (s : pinger) : pinger :=
  if bool_decide (peer ∈ live_pinging s) || negb (can_ping pc) then s
  else
    let s := report (report_live_connection peer (dZ 0) (peer_tracker s)) s in
    let s := with_pinging ({[peer]} ∪ live_pinging s) (dead_pinging s ∖ {[peer]}) s in
    schedule_check peer (send_peer_ping peer (with_acked peer now s)).

Definition begin_dead_ping (peer : Z) (s : pinger) : pinger :=
  if bool_decide (peer ∈ dead_pinging s) then s
  else schedule_dead peer (with_pinging (live_pinging s ∖ {[peer]}) ({[peer]} ∪ dead_pinging s) s).

Definition report_dead (peer : Z) (s : pinger) : pinger :=
  with_acked peer now
    (report (report_dead_connection peer (utime_double (utime_sub now (acked_ping s peer))) (peer_tracker s)) s).

Definition ping_check (peer : Z) (s : pinger) : pinger :=
  if monmap_ranks pc <=? peer then with_pinging (live_pinging s ∖ {[peer]}) (dead_pinging s) s
  else if negb (bool_decide (peer ∈ live_pinging s)) && negb (bool_decide (peer ∈ dead_pinging s)) then s
  else if negb (acked_ping s peer =? 0) && dlt (utime_double (acked_ping s peer)) (dsub (utime_double now) (ping_timeout pc)) then
    begin_dead_ping peer (report_dead peer s)
  else
    schedule_check peer (if acked_ping s peer =? sent_ping s peer then send_peer_ping peer s else s).

(** [None]: the assertion fails. *)
Definition dead_ping (peer : Z) (s : pinger) : option pinger :=
  if negb (bool_decide (peer ∈ dead_pinging s)) then Some s
  else if bool_decide (peer ∈ live_pinging s) then None
  else Some (schedule_dead peer (report_dead peer s)).

Definition assimilate_connection_reports (o : ConnectionTracker) (s : pinger) : pinger :=
  with_tracker (receive_peer_report (decode_tracker 10 o) (peer_tracker s)) s.

Definition handle_ping_reply (prank : Z) (m : MMonPing) (s : pinger) : pinger :=
  if (sent_ping s prank <? p_stamp m) && negb (sent_ping s prank =? 0) then s
  else
    let s :=
      if acked_ping s prank <? p_stamp m then
        with_acked prank (p_stamp m)
          (report (report_live_connection prank (utime_double (utime_sub (p_stamp m) (acked_ping s prank))) (peer_tracker s)) s)
      else s in
    if dlt (ddiv (ping_timeout pc) (dZ (PING_DIVISOR pc))) (utime_double (utime_sub now (p_stamp m))) then
      send_peer_ping prank s
    else s.

Definition handle_ping (prank : Z) (m : MMonPing) (s : pinger) : pinger :=
  let s := assimilate_connection_reports (p_tracker m) (begin_peer_ping prank s) in
  match p_op m with
  | PING => send_ping prank {| p_op := PING_REPLY; p_stamp := p_stamp m; p_tracker := peer_tracker s |} s
  | PING_REPLY => handle_ping_reply prank m s
  end.

(** ** Changes of the monitor map *)

Definition elector_rank_changed (new_rank : Z) (s : pinger) : pinger :=
  with_pinging (live_pinging s ∖ {[new_rank]}) (dead_pinging s ∖ {[new_rank]})
    (with_tracker (notify_rank_changed new_rank (peer_tracker s)) s).

(** One turn of the loop: rank [i] becomes [i - 1]. *)
Definition renumber (removed : Z) (s : pinger) (i : Z) : pinger :=
  if bool_decide (i ∈ live_pinging s) then
    let s := with_pinging (live_pinging s) (dead_pinging s ∖ {[i - 1]}) s in
    let s := if bool_decide (i - 1 ∈ live_pinging s) then s else begin_peer_ping (i - 1) s in
    if bool_decide (i + 1 ∈ live_pinging s) then s else with_pinging (live_pinging s ∖ {[i]}) (dead_pinging s) s
  else if bool_decide (i ∈ dead_pinging s) then
    let s := with_pinging (live_pinging s ∖ {[i - 1]}) (dead_pinging s) s in
    let s := if bool_decide (i - 1 ∈ dead_pinging s) then s else begin_dead_ping (i - 1) s in
    if bool_decide (i + 1 ∈ dead_pinging s) then s else with_pinging (live_pinging s) (dead_pinging s ∖ {[i]}) s
  else if i - 1 =? removed then with_pinging (live_pinging s ∖ {[removed]}) (dead_pinging s ∖ {[removed]}) s
  else s.

Definition elector_rank_removed (removed : Z) (s : pinger) : pinger :=
  let s := with_tracker (notify_rank_removed removed (peer_tracker s)) s in
  if removed <? monmap_ranks pc then fold_left (renumber removed) (seqZ (removed + 1) (monmap_ranks pc - removed)) s
  else with_pinging (live_pinging s ∖ {[removed]}) (dead_pinging s ∖ {[removed]}) s.

End Ping.
