(* ===== verification/ConnectionThms.v ===== *)
(** * Connection scores spread

    The two maps of a report have the same ranks under every operation, so that
    removing a rank fails no assertion, and the reports that trackers exchange
    converge whatever the order and repetition in which they are received. *)

From stdpp Require Import list sorting.
From S2P Require Import Prelude ConnectionTracker.

(** ** Ordered keys *)

(** The list is a [std::map]. *)
Definition ascending {A} (m : list (Z * A)) : Prop := StronglySorted Z.lt (map fst m).

Lemma ascending_cons {A} k (v : A) m : ascending ((k, v) :: m) <-> ascending m /\ Forall (fun e => k < e.1) m.
Proof.
  unfold ascending. cbn. split.
  - intros H. inversion H as [| ? ? H1 H2]; subst. split; [done |]. revert H2. apply List.Forall_map.
  - intros [H1 H2]. constructor; [done |]. by apply List.Forall_map.
Qed.

Lemma map_set_above {A} (m : list (Z * A)) k v b : Forall (fun e => b < e.1) m -> b < k -> Forall (fun e => b < e.1) (map_set m k v).
Proof.
  induction m as [| [s l] m IH]; intros Hm Hb; cbn; [by constructor |]. apply Forall_cons in Hm as [Hs Hm].
  destruct (k <? s); [by repeat constructor |]. destruct (k =? s); constructor; auto.
Qed.

Lemma map_set_ascending {A} (m : list (Z * A)) k v : ascending m -> ascending (map_set m k v).
Proof.
  induction m as [| [s l] m IH]; intros Hm; cbn; [by apply ascending_cons; split; [constructor |] |].
  pose proof Hm as Hm'. apply ascending_cons in Hm as [Hm Hs]. destruct (Z.ltb_spec k s).
  - apply ascending_cons. split; [done |]. constructor; [done |]. eapply Forall_impl; [exact Hs |]. cbn. lia.
  - destruct (Z.eqb_spec k s) as [-> | Hk]; apply ascending_cons; [done |]. split; [by apply IH |]. apply map_set_above; [done | lia].
Qed.

Lemma map_erase_Forall {A} (P : Z * A -> Prop) m k : Forall P m -> Forall P (map_erase m k).
Proof. rewrite !Forall_forall. intros H e He. apply list_elem_of_filter in He as [_ He]. auto. Qed.

Lemma map_erase_ascending {A} (m : list (Z * A)) k : ascending m -> ascending (map_erase m k).
Proof.
  unfold map_erase. induction m as [| [s l] m IH]; intros Hm; [done |]. apply ascending_cons in Hm as [Hm Hs]. rewrite filter_cons.
  case_decide; [| by apply IH]. apply ascending_cons. split; [by apply IH |]. by apply map_erase_Forall.
Qed.

Lemma close_gap_ascending {A} (m : list (Z * A)) r : ascending m -> ascending (close_gap r m).
Proof.
  intros Hm. apply (map_erase_ascending m r) in Hm. assert (Hr : Forall (fun e => e.1 <> r) (map_erase m r)).
  { apply Forall_forall. intros e He. by apply list_elem_of_filter in He as [He _]. }
  unfold close_gap. revert Hm Hr. generalize (map_erase m r). intros l. induction l as [| [s v] l IH]; intros Hl Hr; [done |].
  apply ascending_cons in Hl as [Hl Hs]. apply Forall_cons in Hr as [Hsr Hr]. cbn. apply ascending_cons. split; [by apply IH |].
  apply List.Forall_map, Forall_forall. rewrite Forall_forall in Hs, Hr. intros e He. specialize (Hs e He). specialize (Hr e He). cbn in *.
  destruct (Z.ltb_spec r s), (Z.ltb_spec r e.1); lia.
Qed.

(** Two maps with the same keys. *)
Definition same_ranks {A B} (m : list (Z * A)) (n : list (Z * B)) : Prop := map fst m = map fst n.

Lemma map_set_ranks {A B} (m : list (Z * A)) (n : list (Z * B)) k v w : same_ranks m n -> same_ranks (map_set m k v) (map_set n k w).
Proof.
  unfold same_ranks. revert n. induction m as [| [s x] m IH]; intros [| [s' y] n] H; try done. cbn in H. injection H as <- H. cbn.
  destruct (k <? s); cbn; [by rewrite H |]. destruct (k =? s); cbn; f_equal; auto.
Qed.

Lemma map_erase_ranks {A B} (m : list (Z * A)) (n : list (Z * B)) k : same_ranks m n -> same_ranks (map_erase m k) (map_erase n k).
Proof.
  unfold same_ranks, map_erase. revert n. induction m as [| [s x] m IH]; intros [| [s' y] n] H; try done. cbn in H. injection H as <- H.
  rewrite !filter_cons. cbn. destruct (decide (s <> k)); cbn; [f_equal |]; auto.
Qed.

Lemma close_gap_ranks {A B} (m : list (Z * A)) (n : list (Z * B)) r : same_ranks m n -> same_ranks (close_gap r m) (close_gap r n).
Proof.
  intros H%(map_erase_ranks _ _ r). unfold same_ranks, close_gap in *. rewrite !map_map. cbn.
  rewrite <- !(map_map fst (fun k => if r <? k then k - 1 else k)). by rewrite H.
Qed.

Lemma ranks_above_same {A B} (m : list (Z * A)) (n : list (Z * B)) r : same_ranks m n -> ranks_above r m = ranks_above r n.
Proof.
  intros H%(map_erase_ranks _ _ r). unfold ranks_above, same_ranks in *. revert H. generalize (map_erase m r), (map_erase n r). intros a.
  induction a as [| [s x] a IH]; intros [| [s' y] b] H; try done. cbn in H. injection H as <- H.
  rewrite !filter_cons. cbn. destruct (decide (r < s)); cbn; [f_equal |]; auto.
Qed.

Lemma same_ranks_find {A B} (m : list (Z * A)) (n : list (Z * B)) k : same_ranks m n -> is_Some (map_find n k) -> is_Some (map_find m k).
Proof.
  unfold same_ranks. revert n. induction m as [| [s x] m IH]; intros [| [s' y] n] H Hk; try done; [by destruct Hk |].
  cbn in *. injection H as <- H. destruct (k =? s); eauto.
Qed.

(** At most one entry is erased. *)
Lemma map_erase_size {A} (m : list (Z * A)) k : ascending m ->
  length (map_erase m k) = length m \/ S (length (map_erase m k)) = length m.
Proof.
  unfold map_erase. induction m as [| [s x] m IH]; intros Hm; [by left |]. apply ascending_cons in Hm as [Hm Hs]. rewrite filter_cons. cbn.
  case_decide as Hk; cbn; [destruct (IH Hm); lia |]. right. f_equal. clear IH Hm.
  assert (s = k) as -> by (destruct (decide (s = k)); tauto). induction Hs as [| e m He _ IH]; [done |].
  rewrite filter_cons, decide_True by lia. cbn. by rewrite IH.
Qed.

(** The maps of a report, and of a tracker. *)
Definition report_ok (r : ConnectionReport) : Prop := ascending (r_current r) /\ same_ranks (r_current r) (r_history r).

Record tracker_ok (t : ConnectionTracker) : Prop := {
  tk_peers : ascending (peer_reports t);
  tk_reports : Forall (fun e => report_ok e.2) (peer_reports t);
  tk_mine : report_ok (my_reports t)
}.

Lemma no_report_ok : report_ok no_report.
Proof. by split; [constructor |]. Qed.

Lemma map_find_ok l k : Forall (fun e => report_ok e.2) l -> report_ok (default no_report (map_find l k)).
Proof.
  induction l as [| [s r] l IH]; intros Hl; [apply no_report_ok |]. apply Forall_cons in Hl as [Hr Hl]. cbn. destruct (k =? s); auto.
Qed.

Lemma map_set_ok l k r : Forall (fun e => report_ok e.2) l -> report_ok r -> Forall (fun e => report_ok e.2) (map_set l k r).
Proof.
  induction l as [| [s x] l IH]; intros Hl Hr; cbn; [by constructor |]. pose proof Hl as Hl'. apply Forall_cons in Hl as [Hx Hl].
  destruct (k <? s); [by constructor |]. destruct (k =? s); constructor; auto.
Qed.

Create HintDb tracker.
#[export] Hint Resolve map_set_ascending map_erase_ascending close_gap_ascending map_set_ranks close_gap_ranks no_report_ok map_find_ok map_set_ok : tracker.

Lemma take_report_ok rank l r : ascending l /\ Forall (fun e => report_ok e.2) l -> report_ok r ->
  ascending (take_report rank l r) /\ Forall (fun e => report_ok e.2) (take_report rank l r).
Proof.
  intros [Ha Hl] Hr. unfold take_report. destruct (_ =? _); [done |]. split; [auto with tracker |].
  apply map_set_ok; [done |]. destruct (newer _ _); auto with tracker.
Qed.

Lemma receive_ok o t : tracker_ok o -> tracker_ok t -> tracker_ok (receive_peer_report o t).
Proof.
  intros [_ Ho _] [T1 T2 T3]. assert (H : forall reps l, Forall report_ok reps -> ascending l /\ Forall (fun e => report_ok e.2) l ->
    let l' := fold_left (take_report (t_rank t)) reps l in ascending l' /\ Forall (fun e => report_ok e.2) l').
  { intros reps. induction reps as [| r reps IH]; intros l Hr Hl; [done |]. apply Forall_cons in Hr as [Hr Hrs]. cbn.
    apply IH; [done |]. by apply take_report_ok. }
  destruct (H (map snd (peer_reports o)) (peer_reports t)) as [H1 H2]; [by apply List.Forall_map | done |]. by split.
Qed.

Lemma epoch_ok e t : tracker_ok t -> tracker_ok (increase_epoch e t).
Proof. intros [T1 T2 T3]. unfold increase_epoch. destruct (_ <? _); [| done]. split; cbn; auto with tracker. Qed.

Lemma connection_ok p b d t : tracker_ok t -> tracker_ok (fst (report_connection p b d t)).
Proof.
  intros [T1 T2 [T3 T4]]. split; cbn; [auto with tracker | apply map_set_ok; [done |] |]; split; cbn; auto with tracker.
Qed.

Lemma rank_changed_ok r t : tracker_ok t -> tracker_ok (notify_rank_changed r t).
Proof.
  intros [T1 T2 T3]. unfold notify_rank_changed. destruct (_ =? _); [done |]. split; cbn; [auto with tracker | | done].
  by apply map_erase_Forall, map_erase_Forall.
Qed.

Lemma rank_removed_ok r t : tracker_ok t -> tracker_ok (notify_rank_removed r t).
Proof.
  intros [T1 T2 [T3 T4]]. split; cbn; [auto with tracker | | split; cbn; auto with tracker].
  unfold close_gap. apply List.Forall_map. by apply map_erase_Forall.
Qed.

Lemma decode_ok p t : tracker_ok t -> tracker_ok (decode_tracker p t).
Proof.
  intros [T1 T2 T3]. unfold decode_tracker. destruct (0 <=? t_rank t); [| by split; auto with tracker].
  split; cbn; auto with tracker.
Qed.

Lemma removal_asserts_ok r t : tracker_ok t -> removal_asserts r t = true.
Proof.
  intros [T1 _ [T2 T3]]. unfold removal_asserts. rewrite <- (ranks_above_same _ _ r T3), firstn_all, bool_decide_eq_true_2 by done.
  assert (forall A (m : list (Z * A)), ascending m -> (zlen (close_gap r m) =? zlen m) || (zlen (close_gap r m) + 1 =? zlen m) = true) as H.
  { intros A m Hm. unfold close_gap, zlen. rewrite length_map. destruct (map_erase_size m r Hm); lia. }
  by rewrite !H.
Qed.

(** ** Reports *)

Lemma map_find_set {A} (m : list (Z * A)) k k' v : map_find (map_set m k v) k' = if k' =? k then Some v else map_find m k'.
Proof.
  induction m as [| [s l] m IH]; cbn; [by destruct (k' =? k) |].
  destruct (Z.ltb_spec k s); cbn; [by destruct (k' =? k) |].
  destruct (Z.eqb_spec k s) as [-> | Hks]; cbn; [by destruct (k' =? s) |].
  rewrite IH. destruct (Z.eqb_spec k' s) as [-> | Hs]; [| done]. by rewrite (proj2 (Z.eqb_neq _ _)).
Qed.

(** What the tracker holds of rank [r]. *)
Definition held (t : ConnectionTracker) (r : Z) : ConnectionReport := default no_report (map_find (peer_reports t) r).

(** The newest report of rank [r]; the current one where there is no newer. *)
Definition newest (r : Z) (cur : ConnectionReport) (l : list ConnectionReport) : ConnectionReport :=
  fold_left (fun cur rep => if (r_rank rep =? r) && newer rep cur then rep else cur) l cur.

Lemma take_reports rank l reps r : r <> rank ->
  default no_report (map_find (fold_left (take_report rank) reps l) r) = newest r (default no_report (map_find l r)) reps.
Proof.
  intros Hr. revert l. induction reps as [| rep reps IH]; intros l; [done |]. cbn. rewrite IH. f_equal. unfold take_report.
  destruct (Z.eqb_spec (r_rank rep) rank) as [-> | Hk]; [by rewrite (proj2 (Z.eqb_neq _ _)) |].
  rewrite map_find_set, Z.eqb_sym. destruct (Z.eqb_spec (r_rank rep) r) as [-> | Hne]; [cbn | done]. done.
Qed.

(** Receiving trackers one after the other. *)
Definition receive_all (t : ConnectionTracker) (os : list ConnectionTracker) : ConnectionTracker :=
  fold_left (fun t o => receive_peer_report o t) os t.

Definition shared (os : list ConnectionTracker) : list ConnectionReport := concat (map (fun o => map snd (peer_reports o)) os).

Lemma held_all t os r : r <> t_rank t -> held (receive_all t os) r = newest r (held t r) (shared os).
Proof.
  revert t. induction os as [| o os IH]; intros t Hr; [done |].
  change (receive_all t (o :: os)) with (receive_all (receive_peer_report o t) os). rewrite IH by done.
  change (shared (o :: os)) with (map snd (peer_reports o) ++ shared os). unfold newest. rewrite fold_left_app. f_equal.
  by apply take_reports.
Qed.

(** Reports are ordered by epoch and version. *)
Lemma newer_trans a b d : newer a b = true -> newer b d = true -> newer a d = true.
Proof. unfold newer. lia. Qed.

Lemma newest_spec r cur l :
  (newest r cur l = cur \/ newest r cur l ∈ l /\ r_rank (newest r cur l) = r /\ newer (newest r cur l) cur = true) /\
  newer cur (newest r cur l) = false /\ forall rep, rep ∈ l -> r_rank rep = r -> newer rep (newest r cur l) = false.
Proof.
  revert cur. induction l as [| rep l IH]; intros cur; [split; [by left |]; split; [unfold newest, newer; cbn; lia | set_solver] |].
  change (newest r cur (rep :: l)) with (newest r (if (r_rank rep =? r) && newer rep cur then rep else cur) l).
  destruct (IH (if (r_rank rep =? r) && newer rep cur then rep else cur)) as (H1 & H2 & H3).
  set (m := newest r _ l) in *. destruct (Z.eqb_spec (r_rank rep) r) as [Hr | Hr]; cbn in H1, H2;
    [destruct (newer rep cur) eqn:Hn |].
  - split; [right; destruct H1 as [-> | (? & ? & ?)]; (split; [set_solver |]); (split; [done |]); unfold newer in *; lia |].
    split; [unfold newer in *; lia |]. intros r' [-> |]%elem_of_cons ?; auto.
  - split; [destruct H1 as [-> | (? & ? & ?)]; [by left | right; split; [set_solver | done]] |]. split; [done |].
    intros r' [-> |]%elem_of_cons ?; [| auto]. unfold newer in *. lia.
  - split; [destruct H1 as [-> | (? & ? & ?)]; [by left | right; split; [set_solver | done]] |]. split; [done |].
    intros r' [-> |]%elem_of_cons ?; [done | auto].
Qed.

(** A rank does not issue two reports of one version. *)
Definition consistent (l : list ConnectionReport) : Prop := forall a b, a ∈ l -> b ∈ l -> r_rank a = r_rank b ->
  r_epoch a = r_epoch b -> r_epoch_version a = r_epoch_version b -> a = b.

Lemma newest_unique r cur l l' : consistent l -> (forall rep, rep ∈ l <-> rep ∈ l') -> newest r cur l = newest r cur l'.
Proof.
  intros Hc Hl. destruct (newest_spec r cur l) as (A1 & A2 & A3), (newest_spec r cur l') as (B1 & B2 & B3).
  set (a := newest r cur l) in *. set (b := newest r cur l') in *.
  destruct A1 as [A1 | (Ha & Har & Hac)], B1 as [B1 | (Hb & Hbr & Hbc)]; [congruence | | |]; [exfalso .. |].
  - specialize (A3 b ltac:(by apply Hl) Hbr). congruence.
  - specialize (B3 a ltac:(by apply Hl) Har). congruence.
  - pose proof (A3 b ltac:(by apply Hl) Hbr). pose proof (B3 a ltac:(by apply Hl) Har).
    apply Hc; [done | by apply Hl | congruence | unfold newer in *; lia ..].
Qed.

Definition demo_report (r e v : Z) : ConnectionReport :=
  {| r_rank := r; r_current := [(0, true)]; r_history := [(0, dZ 1)]; r_epoch := e; r_epoch_version := v |}.
Definition demo_tracker (r : Z) (l : list (Z * ConnectionReport)) : ConnectionTracker := with_peer_reports l (new_tracker r (dZ 100) 10).

(** ** Theorems *)

(** The operations of a tracker; what it receives has come over the network. *)
Inductive tracker_op :=
  | T_receive (o : ConnectionTracker)
  | T_epoch (e : Z)
  | T_live (peer : Z) (units : double)
  | T_dead (peer : Z) (units : double)
  | T_reset
  | T_rank_changed (r : Z)
  | T_rank_removed (r : Z).

Definition tracker_do (t : ConnectionTracker) (op : tracker_op) : ConnectionTracker :=
  match op with
  | T_receive o => receive_peer_report (decode_tracker 10 o) t
  | T_epoch e => increase_epoch e t
  | T_live p u => fst (report_live_connection p u t)
  | T_dead p u => fst (report_dead_connection p u t)
  | T_reset => notify_reset t
  | T_rank_changed r => notify_rank_changed r t
  | T_rank_removed r => notify_rank_removed r t
  end.

(** The trackers there are: new ones, those read back after a restart, and those
    that come from others by operations, where what is received is one of them. *)
Inductive tracker_run : ConnectionTracker -> Prop :=
  | run_new rank hl persist : tracker_run (new_tracker rank hl persist)
  | run_restart persist t : tracker_run t -> tracker_run (decode_tracker persist t)
  | run_op t op : tracker_run t -> (forall o, op = T_receive o -> tracker_run o) -> tracker_run (tracker_do t op).

Lemma tracker_run_ok t : tracker_run t -> tracker_ok t.
Proof.
  induction 1 as [rank hl persist | persist t _ IH | t op _ IH _ IHo]; [split; repeat constructor | by apply decode_ok |].
  destruct op; cbn.
  - by apply receive_ok; [apply decode_ok, IHo |].
  - by apply epoch_ok.
  - by apply connection_ok.
  - by apply connection_ok.
  - split; try constructor; apply no_report_ok.
  - by apply rank_changed_ok.
  - by apply rank_removed_ok.
Qed.

(** C35. Removing a rank fails no assertion.  In every tracker that comes about from
    new ones by reports, epochs, changes of ranks, resets, restarts and the receipt
    of each other's reports, a report has the same ranks in [current] and in
    [history]; so the assertions of [notify_rank_removed] hold for every rank, and
    the total score of a rank never looks at a link that is not there. *)
Theorem rank_removal_safe t : tracker_run t ->
  (forall removed, removal_asserts removed t = true) /\
  (forall removed, map fst (r_current (my_reports (notify_rank_removed removed t))) = map fst (r_history (my_reports (notify_rank_removed removed t)))) /\
  (forall e peer score, e ∈ peer_reports t -> map_find (r_history e.2) peer = Some score -> is_Some (map_find (r_current e.2) peer)).
Proof.
  intros [T1 T2 T3]%tracker_run_ok. split; [| split].
  - intros removed. by apply removal_asserts_ok.
  - intros removed. by apply close_gap_ranks, T3.
  - intros e peer score He Hs. rewrite Forall_forall in T2. apply (same_ranks_find _ _ peer (proj2 (T2 e He))). by exists score.
Qed.

(** A monitor that has heard from two others, and from the reports of one of them. *)
Definition demo_peer : ConnectionTracker := tracker_do (new_tracker 2 (dZ 100) 10) (T_live 0 (dZ 1)).

Definition demo_heard : ConnectionTracker :=
  tracker_do (tracker_do (tracker_do (new_tracker 0 (dZ 100) 10) (T_live 2 (dZ 1))) (T_dead 1 (dZ 1))) (T_receive demo_peer).

Lemma receive_eq a b : T_receive a = T_receive b -> b = a.
Proof. by intros [=]. Qed.

Lemma demo_heard_run : tracker_run demo_heard.
Proof.
  apply run_op; [by do 2 (apply run_op; [| done]); apply run_new |]. intros o ->%receive_eq. by apply run_op; [apply run_new |].
Qed.

Lemma rank_removal_safe_witness : removal_asserts 1 demo_heard = true /\ length (peer_reports demo_heard) = 2%nat.
Proof. split; [exact (proj1 (rank_removal_safe demo_heard demo_heard_run) 1) | by vm_compute]. Defined.

(** The exchange of connection scores converges: which trackers have been
    received decides what is held of every other rank, and neither their order
    nor how often each arrived matters; what is held never gets older. *)
Theorem gossip_converges t os os' r : r <> t_rank t -> consistent (shared os) -> (forall rep, rep ∈ shared os <-> rep ∈ shared os') ->
  held (receive_all t os) r = held (receive_all t os') r /\ newer (held t r) (held (receive_all t os) r) = false.
Proof.
  intros Hr Hc Hos. rewrite !held_all by done. split; [by apply newest_unique |]. by destruct (newest_spec r (held t r) (shared os)) as (_ & Hn & _).
Qed.

Lemma gossip_converges_witness : let a := demo_tracker 1 [(1, demo_report 1 3 2)] in let b := demo_tracker 2 [(1, demo_report 1 3 1); (2, demo_report 2 3 1)] in
  held (receive_all (demo_tracker 0 []) [a; b]) 1 = held (receive_all (demo_tracker 0 []) [b; a; b]) 1 /\
  newer (held (demo_tracker 0 []) 1) (held (receive_all (demo_tracker 0 []) [a; b]) 1) = false.
Proof.
  cbv zeta. apply (gossip_converges (demo_tracker 0 []) _ _ 1).
  - done.
  - intros x y. unfold shared. cbn. rewrite !elem_of_cons, !elem_of_nil. intros [-> | [-> | [-> | []]]] [-> | [-> | [-> | []]]]; cbn; intros; (done || lia).
  - intros rep. unfold shared. cbn. rewrite !elem_of_cons, !elem_of_nil. tauto.
Defined.

(** After its connection scores have been reset a monitor's reports no
    longer reach its peers: they carry rank -1, and a peer that receives them
    keeps what it held of the monitor. *)
Theorem reset_hides_reports persist t t' peer units : 0 <= t_rank t -> t_rank t' <> t_rank t ->
  let mine := fst (report_live_connection peer units (notify_reset t)) in
  held mine (t_rank t) = my_reports mine /\ r_rank (my_reports mine) = -1 /\
  held (receive_peer_report (decode_tracker persist mine) t') (t_rank t) = held t' (t_rank t).
Proof.
  intros Hr Hr' mine. split; [unfold held; cbn; by rewrite Z.eqb_refl |]. split; [done |].
  change (held (receive_all t' [decode_tracker persist mine]) (t_rank t) = held t' (t_rank t)). rewrite held_all by done.
  assert (Hs : shared [decode_tracker persist mine] = [my_reports mine]).
  { unfold shared, decode_tracker. change (t_rank mine) with (t_rank t). rewrite (proj2 (Z.leb_le _ _)) by done. cbn.
    by rewrite Z.ltb_irrefl, Z.eqb_refl. }
  rewrite Hs. unfold newest. cbn [fold_left]. change (r_rank (my_reports mine)) with (-1). by rewrite (proj2 (Z.eqb_neq _ _)) by lia.
Qed.

Lemma reset_hides_reports_witness : let mine := fst (report_live_connection 0 (dZ 1) (notify_reset (demo_tracker 1 []))) in
  held mine 1 = my_reports mine /\ r_rank (my_reports mine) = -1 /\
  held (receive_peer_report (decode_tracker 10 mine) (demo_tracker 0 [(1, demo_report 1 3 1)])) 1 = held (demo_tracker 0 [(1, demo_report 1 3 1)]) 1.
Proof. apply (reset_hides_reports 10 (demo_tracker 1 [])); cbn; lia. Defined.
