(* ===== verification/PingThms.v ===== *)
(** * Pings stay consistent

    The sets of peers that a monitor pings as alive and as dead stay disjoint, so
    no assertion of the pings fails, and when a rank leaves the monitor map the
    sets are renumbered correctly. *)

From stdpp Require Import gmap.
From S2P Require Import Prelude ConnectionTracker ConnectionThms ElectorPing.

(** ** Pings *)

(** What an elector does with its pings. *)
Inductive ping_call :=
  | C_begin (peer : Z)
  | C_check (peer : Z)
  | C_dead (peer : Z)
  | C_handle (from : Z) (m : MMonPing)
  | C_assimilate (t : ConnectionTracker)
  | C_reset
  | C_rank_changed (new_rank : Z)
  | C_rank_removed (removed : Z).

Definition ping_do (pc : ping_conf) (now : Z) (c : ping_call) (s : pinger) : option pinger :=
  match c with
  | C_begin peer => Some (begin_peer_ping pc now peer s)
  | C_check peer => Some (ping_check pc now peer s)
  | C_dead peer => dead_ping now peer s
  | C_handle from m => Some (handle_ping pc now from m s)
  | C_assimilate t => Some (assimilate_connection_reports t s)
  | C_reset => Some (with_tracker (notify_reset (peer_tracker s)) s)
  | C_rank_changed r => Some (elector_rank_changed r s)
  | C_rank_removed r => Some (elector_rank_removed pc now r s)
  end.

Fixpoint ping_run (cs : list (ping_conf * Z * ping_call)) (s : pinger) : option pinger :=
  match cs with
  | [] => Some s
  | (pc, now, c) :: cs' => s' ← ping_do pc now c s; ping_run cs' s'
  end.

(** No peer is pinged as alive and as dead. *)
Definition apart (s : pinger) : Prop := live_pinging s ## dead_pinging s.

Section Apart.
Context (pc : ping_conf) (now : Z).

Lemma report_sets r s : live_pinging (report r s) = live_pinging s /\ dead_pinging (report r s) = dead_pinging s.
Proof. unfold report. by destruct r as [t []]. Qed.

Lemma begin_peer_sets peer s : live_pinging (begin_peer_ping pc now peer s) =
    (if can_ping pc then {[peer]} ∪ live_pinging s else live_pinging s) /\
  dead_pinging (begin_peer_ping pc now peer s) =
    (if can_ping pc && negb (bool_decide (peer ∈ live_pinging s)) then dead_pinging s ∖ {[peer]} else dead_pinging s).
Proof.
  unfold begin_peer_ping. destruct (can_ping pc); cbn [negb andb]; [| by rewrite orb_true_r]. rewrite orb_false_r.
  case_bool_decide as H; [split; [set_solver | done] |].
  destruct (report_sets (report_live_connection peer (dZ 0) (peer_tracker s)) s) as [R1 R2]. revert R1 R2.
  generalize (report (report_live_connection peer (dZ 0) (peer_tracker s)) s). intros s1 <- <-. done.
Qed.

Lemma begin_dead_sets peer s : apart s -> live_pinging (begin_dead_ping peer s) = live_pinging s ∖ {[peer]} /\
  dead_pinging (begin_dead_ping peer s) = {[peer]} ∪ dead_pinging s.
Proof. intros Ha. unfold apart in Ha. unfold begin_dead_ping. case_bool_decide; cbn; [set_solver | done]. Qed.

Lemma report_dead_sets peer s : live_pinging (report_dead now peer s) = live_pinging s /\ dead_pinging (report_dead now peer s) = dead_pinging s.
Proof. unfold report_dead. apply report_sets. Qed.

Lemma begin_peer_apart peer s : apart s -> apart (begin_peer_ping pc now peer s).
Proof.
  unfold apart. intros Ha. destruct (begin_peer_sets peer s) as [-> ->]. destruct (can_ping pc); [| done]. cbn [andb].
  case_bool_decide; set_solver.
Qed.

Lemma begin_dead_apart peer s : apart s -> apart (begin_dead_ping peer s).
Proof. intros Ha. unfold apart. destruct (begin_dead_sets peer s Ha) as [-> ->]. unfold apart in Ha. set_solver. Qed.

Lemma ping_check_apart peer s : apart s -> apart (ping_check pc now peer s).
Proof.
  intros Ha. unfold ping_check. destruct (monmap_ranks pc <=? peer); [unfold apart in *; cbn; set_solver |].
  destruct (_ && _); [done |]. destruct (_ && _).
  - apply begin_dead_apart. unfold apart. by destruct (report_dead_sets peer s) as [-> ->].
  - by destruct (_ =? _).
Qed.

Lemma handle_ping_apart from m s : apart s -> apart (handle_ping pc now from m s).
Proof.
  intros Ha. apply (begin_peer_apart from) in Ha. unfold handle_ping. revert Ha. generalize (begin_peer_ping pc now from s). intros s1 Ha.
  destruct (p_op m); [done |]. unfold handle_ping_reply. destruct (_ && _); [done |]. 
  destruct (_ <? _); [| by destruct (dlt _ _)]. unfold apart.
  destruct (dlt _ _); cbn -[report]; match goal with |- context [report ?r ?x] => by destruct (report_sets r x) as [-> ->] end.
Qed.

Lemma renumber_apart removed s i : apart s -> apart (renumber pc now removed s i).
Proof.
  intros Ha. unfold renumber. case_bool_decide as Hl; [| case_bool_decide as Hd].
  - assert (H1 : apart (with_pinging (live_pinging s) (dead_pinging s ∖ {[i - 1]}) s)) by (unfold apart in *; cbn; set_solver).
    revert H1. generalize (with_pinging (live_pinging s) (dead_pinging s ∖ {[i - 1]}) s). intros s1 H1.
    assert (H2 : apart (if bool_decide (i - 1 ∈ live_pinging s1) then s1 else begin_peer_ping pc now (i - 1) s1))
      by (case_bool_decide; [done | by apply begin_peer_apart]).
    revert H2. generalize (if bool_decide (i - 1 ∈ live_pinging s1) then s1 else begin_peer_ping pc now (i - 1) s1). intros s2 H2.
    case_bool_decide; [done |]. unfold apart in *. cbn. set_solver.
  - assert (H1 : apart (with_pinging (live_pinging s ∖ {[i - 1]}) (dead_pinging s) s)) by (unfold apart in *; cbn; set_solver).
    revert H1. generalize (with_pinging (live_pinging s ∖ {[i - 1]}) (dead_pinging s) s). intros s1 H1.
    assert (H2 : apart (if bool_decide (i - 1 ∈ dead_pinging s1) then s1 else begin_dead_ping (i - 1) s1))
      by (case_bool_decide; [done | by apply begin_dead_apart]).
    revert H2. generalize (if bool_decide (i - 1 ∈ dead_pinging s1) then s1 else begin_dead_ping (i - 1) s1). intros s2 H2.
    case_bool_decide; [done |]. unfold apart in *. cbn. set_solver.
  - destruct (_ =? _); [| done]. unfold apart in *. cbn. set_solver.
Qed.

Lemma rank_removed_apart removed s : apart s -> apart (elector_rank_removed pc now removed s).
Proof.
  intros Ha. unfold elector_rank_removed. destruct (_ <? _); [| unfold apart in *; cbn; set_solver].
  assert (H1 : apart (with_tracker (notify_rank_removed removed (peer_tracker s)) s)) by done. revert H1.
  generalize (with_tracker (notify_rank_removed removed (peer_tracker s)) s). generalize (seqZ (removed + 1) (monmap_ranks pc - removed)).
  intros l. induction l as [| i l IH]; intros s1 H1; [done |]. cbn. by apply IH, renumber_apart.
Qed.

(** No call fails, and the sets stay apart. *)
Lemma ping_do_apart c s : apart s -> exists s', ping_do pc now c s = Some s' /\ apart s'.
Proof.
  intros Ha. destruct c; cbn; try (eexists; split; [done |]).
  - by apply begin_peer_apart.
  - by apply ping_check_apart.
  - unfold dead_ping. case_bool_decide as Hd; cbn; [| by exists s]. rewrite bool_decide_eq_false_2 by (unfold apart in Ha; set_solver).
    eexists. split; [done |]. unfold apart. cbn -[report_dead]. by destruct (report_dead_sets peer s) as [-> ->].
  - by apply handle_ping_apart.
  - done.
  - done.
  - unfold apart in *. cbn. set_solver.
  - by apply rank_removed_apart.
Qed.
End Apart.

(** ** Renumbering *)

(** Where rank [p] is, seen from the rank [i] the loop is at. *)
Ltac rank_cases p i removed :=
  destruct (Z.ltb_spec p (i - 1)), (Z.ltb_spec p (i + 1 - 1)), (Z.leb_spec i p), (Z.leb_spec (i + 1) p),
    (Z.eqb_spec p removed), (Z.ltb_spec p removed);
  try lia; try (assert (p = i) as -> by lia); try (assert (p = i - 1) as -> by lia);
  try replace (i - 1 + 1) with i by lia; intuition lia.

Section Renumber.
Context (pc : ping_conf) (now removed : Z) (L D : gset Z).
Hypothesis Hping : can_ping pc = true.
Hypothesis Hapart : L ## D.

(** The ranks above [removed] move down by one. *)
Definition moved_down (X : gset Z) (p : Z) : Prop := if p <? removed then p ∈ X else p + 1 ∈ X.

(** The loop has done the ranks below [i]; rank [i - 1] may still hold its old
    entry when rank [i] will give it the same. *)
Definition partly_moved (i : Z) (X Xi : gset Z) : Prop := forall p, p ∈ Xi <->
  if p <? i - 1 then moved_down X p else if i <=? p then p ∈ X else if p =? removed then p ∈ X else p ∈ X /\ i ∈ X.

Lemma renumber_live s i : i ∈ live_pinging s -> live_pinging (renumber pc now removed s i) =
    ({[i - 1]} ∪ live_pinging s) ∖ (if bool_decide (i + 1 ∈ live_pinging s) then ∅ else {[i]}) /\
  dead_pinging (renumber pc now removed s i) = dead_pinging s ∖ {[i - 1]}.
Proof.
  intros Hi. unfold renumber. rewrite bool_decide_eq_true_2 by done. set (s1 := with_pinging _ _ s).
  assert (H1 : live_pinging s1 = live_pinging s /\ dead_pinging s1 = dead_pinging s ∖ {[i - 1]}) by done. clearbody s1.
  set (s2 := if bool_decide (i - 1 ∈ live_pinging s1) then s1 else begin_peer_ping pc now (i - 1) s1).
  assert (H2 : live_pinging s2 = {[i - 1]} ∪ live_pinging s /\ dead_pinging s2 = dead_pinging s ∖ {[i - 1]}).
  { subst s2. destruct H1 as [H1 H1']. case_bool_decide as Hb; [split; [set_solver | done] |].
    destruct (begin_peer_sets pc now (i - 1) s1) as [-> ->]. rewrite Hping, bool_decide_eq_false_2 by done. cbn. set_solver. }
  clearbody s2. destruct H2 as [H2 H2'].
  rewrite (bool_decide_ext (i + 1 ∈ live_pinging s2) (i + 1 ∈ live_pinging s)) by (rewrite H2; set_unfold; intuition lia).
  case_bool_decide; cbn; rewrite ?H2, ?H2'; split; set_solver.
Qed.

Lemma renumber_dead s i : apart s -> i ∈ dead_pinging s -> live_pinging (renumber pc now removed s i) = live_pinging s ∖ {[i - 1]} /\
  dead_pinging (renumber pc now removed s i) =
    ({[i - 1]} ∪ dead_pinging s) ∖ (if bool_decide (i + 1 ∈ dead_pinging s) then ∅ else {[i]}).
Proof.
  intros Ha Hi. unfold renumber. rewrite bool_decide_eq_false_2 by (unfold apart in Ha; set_solver). rewrite bool_decide_eq_true_2 by done.
  set (s1 := with_pinging _ _ s).
  assert (H1 : live_pinging s1 = live_pinging s ∖ {[i - 1]} /\ dead_pinging s1 = dead_pinging s) by done. clearbody s1.
  set (s2 := if bool_decide (i - 1 ∈ dead_pinging s1) then s1 else begin_dead_ping (i - 1) s1).
  assert (H2 : live_pinging s2 = live_pinging s ∖ {[i - 1]} /\ dead_pinging s2 = {[i - 1]} ∪ dead_pinging s).
  { subst s2. destruct H1 as [H1 H1']. case_bool_decide as Hb; [split; [done | set_solver] |].
    destruct (begin_dead_sets (i - 1) s1) as [-> ->]; [| set_solver]. unfold apart in *. set_solver. }
  clearbody s2. destruct H2 as [H2 H2'].
  rewrite (bool_decide_ext (i + 1 ∈ dead_pinging s2) (i + 1 ∈ dead_pinging s)) by (rewrite H2'; set_unfold; intuition lia).
  case_bool_decide; cbn; rewrite ?H2, ?H2'; split; set_solver.
Qed.

Lemma partly_at i X Xi p : partly_moved i X Xi -> i <= p -> p ∈ Xi <-> p ∈ X.
Proof.
  intros H Hp. rewrite (H p). rewrite (proj2 (Z.ltb_ge p (i - 1))) by lia. by rewrite (proj2 (Z.leb_le i p)) by lia.
Qed.

(** The set that rank [i] is in. *)
Lemma partly_member i X Xi : removed < i -> partly_moved i X Xi -> i ∈ X ->
  partly_moved (i + 1) X (({[i - 1]} ∪ Xi) ∖ (if bool_decide (i + 1 ∈ Xi) then ∅ else {[i]})).
Proof.
  intros Hr H Hi p. rewrite (bool_decide_ext _ _ (partly_at i X Xi (i + 1) H ltac:(lia))).
  assert (Hset : p ∈ ({[i - 1]} ∪ Xi) ∖ (if bool_decide (i + 1 ∈ X) then ∅ else {[i]}) <-> (p = i - 1 \/ p ∈ Xi) /\ (p = i -> i + 1 ∈ X)).
  { case_bool_decide; set_solver. }
  rewrite Hset, (H p). unfold moved_down. clear Hset H.
  rank_cases p i removed.
Qed.

(** The other set. *)
Lemma partly_other i X Xi : removed < i -> partly_moved i X Xi -> i ∉ X -> partly_moved (i + 1) X (Xi ∖ {[i - 1]}).
Proof.
  intros Hr H Hi p. rewrite elem_of_difference, elem_of_singleton, (H p). unfold moved_down. clear H.
  rank_cases p i removed.
Qed.

(** A set that rank [i] is not in, where the loop leaves it alone. *)
Lemma partly_same i X Xi : removed < i - 1 -> partly_moved i X Xi -> i ∉ X -> partly_moved (i + 1) X Xi.
Proof.
  intros Hr H Hi p. rewrite (H p). unfold moved_down. clear H.
  rank_cases p i removed.
Qed.

Definition both_moved (i : Z) (s : pinger) : Prop := partly_moved i L (live_pinging s) /\ partly_moved i D (dead_pinging s) /\ apart s.

Lemma renumber_moves i s : removed < i -> both_moved i s -> both_moved (i + 1) (renumber pc now removed s i).
Proof.
  intros Hr (HL & HD & Ha). pose proof (renumber_apart pc now removed s i Ha) as Ha'.
  pose proof (partly_at i L _ i HL ltac:(lia)) as EL. pose proof (partly_at i D _ i HD ltac:(lia)) as ED.
  destruct (decide (i ∈ L)) as [Hi | HnL]; [| destruct (decide (i ∈ D)) as [Hi | HnD]].
  - destruct (renumber_live s i (proj2 EL Hi)) as [R1 R2]. split; [rewrite R1; by apply partly_member |].
    split; [rewrite R2; apply partly_other; [done | done | set_solver] | done].
  - destruct (renumber_dead s i Ha (proj2 ED Hi)) as [R1 R2]. split; [rewrite R1; by apply partly_other |].
    split; [rewrite R2; by apply partly_member | done].
  - unfold both_moved. unfold renumber in *. rewrite !bool_decide_eq_false_2 in * by naive_solver. destruct (Z.eqb_spec (i - 1) removed) as [He | He].
    + cbn. rewrite <- He. split; [by apply partly_other | split; [by apply partly_other |]]. by rewrite He.
    + split; [apply partly_same; [lia | done ..] | split; [apply partly_same; [lia | done ..] | done]].
Qed.

Lemma renumber_loop k : forall i s, removed < i -> both_moved i s ->
  both_moved (i + Z.of_nat k) (fold_left (renumber pc now removed) (seqZ i (Z.of_nat k)) s).
Proof.
  induction k as [| k IH]; intros i s Hi Hb; [by rewrite Z.add_0_r |].
  rewrite seqZ_cons by lia. cbn [fold_left]. replace (Z.pred (Z.of_nat (S k))) with (Z.of_nat k) by lia.
  replace (i + Z.of_nat (S k)) with (i + 1 + Z.of_nat k) by lia. replace (Z.succ i) with (i + 1) by lia.
  apply IH; [lia |]. by apply renumber_moves.
Qed.

Lemma partly_start X : partly_moved (removed + 1) X X.
Proof.
  intros p. unfold moved_down.
  destruct (Z.ltb_spec p (removed + 1 - 1)), (Z.leb_spec (removed + 1) p), (Z.eqb_spec p removed), (Z.ltb_spec p removed); try lia; done.
Qed.

Lemma partly_end n X Xi : removed < n -> (forall p, p ∈ X -> p <= n) -> partly_moved (n + 1) X Xi -> forall p, p ∈ Xi <-> moved_down X p.
Proof.
  intros Hn Hb H p. rewrite (H p). unfold moved_down. pose proof (Hb p). pose proof (Hb (p + 1)). pose proof (Hb (n + 1)).
  destruct (Z.ltb_spec p (n + 1 - 1)), (Z.leb_spec (n + 1) p), (Z.eqb_spec p removed), (Z.ltb_spec p removed); try lia; intuition lia.
Qed.
End Renumber.

Lemma rank_removed_moves pc now removed s : can_ping pc = true -> apart s -> removed <= monmap_ranks pc ->
  (forall p, p ∈ live_pinging s -> p <= monmap_ranks pc) -> (forall p, p ∈ dead_pinging s -> p <= monmap_ranks pc) ->
  let s' := elector_rank_removed pc now removed s in
  forall p, (p ∈ live_pinging s' <-> moved_down removed (live_pinging s) p) /\ (p ∈ dead_pinging s' <-> moved_down removed (dead_pinging s) p).
Proof.
  intros Hping Ha Hr HL HD s' p. subst s'. unfold elector_rank_removed. destruct (Z.ltb_spec removed (monmap_ranks pc)) as [Hlt | Hge].
  - set (s0 := with_tracker _ s). destruct (renumber_loop pc now removed (live_pinging s) (dead_pinging s) Hping Ha
      (Z.to_nat (monmap_ranks pc - removed)) (removed + 1) s0) as (H1 & H2 & _); [lia | by split_and!; try apply partly_start |].
    rewrite Z2Nat.id in H1, H2 by lia. replace (removed + 1 + (monmap_ranks pc - removed)) with (monmap_ranks pc + 1) in H1, H2 by lia.
    split; eapply partly_end; eauto.
  - cbn. unfold moved_down. rewrite !elem_of_difference, !elem_of_singleton. pose proof (HL p). pose proof (HL (p + 1)).
    pose proof (HD p). pose proof (HD (p + 1)). destruct (Z.ltb_spec p removed); split; intuition lia.
Qed.

(** ** Theorems *)

Definition demo_pinger (live dead : gset Z) : pinger := Pinger (demo_tracker 0 []) None live dead ∅ ∅ [] [] [].
Definition demo_ping_conf (n : Z) : ping_conf := {| ping_timeout := dZ 2; PING_DIVISOR := 2; monmap_ranks := n; can_ping := true |}.

(** Pinging never fails an assertion: from a state in which no peer is
    pinged both as alive and as dead, no sequence of the elector's calls,
    changes of the monitor map included, fails, and the sets stay disjoint. *)
Theorem pings_never_fail cs s : apart s -> exists s', ping_run cs s = Some s' /\ apart s'.
Proof.
  revert s. induction cs as [| [[pc now] c] cs IH]; intros s Ha; [by exists s |].
  destruct (ping_do_apart pc now c s Ha) as (s1 & Hs1 & Ha1). cbn. rewrite Hs1. by apply IH.
Qed.

Lemma pings_never_fail_witness : exists s', ping_run [(demo_ping_conf 3, 5, C_begin 1); (demo_ping_conf 3, 6000000000, C_check 1);
  (demo_ping_conf 3, 9000000000, C_dead 1); (demo_ping_conf 2, 9, C_rank_removed 0)] (demo_pinger ∅ ∅) = Some s' /\ apart s'.
Proof. apply pings_never_fail. unfold apart. set_solver. Defined.

(** When a rank leaves the monitor map, every peer above it is pinged under
    its new rank as it was before, the others under their old one, and nobody
    else is. *)
Theorem rank_removed_correct pc now removed s : can_ping pc = true -> apart s -> removed <= monmap_ranks pc ->
  (forall p, p ∈ live_pinging s -> p <= monmap_ranks pc) -> (forall p, p ∈ dead_pinging s -> p <= monmap_ranks pc) ->
  let s' := elector_rank_removed pc now removed s in
  forall p, (p ∈ live_pinging s' <-> (if p <? removed then p else p + 1) ∈ live_pinging s) /\
            (p ∈ dead_pinging s' <-> (if p <? removed then p else p + 1) ∈ dead_pinging s).
Proof.
  intros H1 H2 H3 H4 H5 s' p. destruct (rank_removed_moves pc now removed s H1 H2 H3 H4 H5 p) as [R1 R2].
  fold s' in R1, R2. rewrite R1, R2. unfold moved_down. by destruct (p <? removed).
Qed.

Lemma rank_removed_correct_witness : let s' := elector_rank_removed (demo_ping_conf 4) 5 1 (demo_pinger {[2; 4]} {[1; 3]}) in
  live_pinging s' = {[1; 3]} /\ dead_pinging s' = {[2]} /\
  forall p, (p ∈ live_pinging s' <-> (if p <? 1 then p else p + 1) ∈ live_pinging (demo_pinger {[2; 4]} {[1; 3]})) /\
            (p ∈ dead_pinging s' <-> (if p <? 1 then p else p + 1) ∈ dead_pinging (demo_pinger {[2; 4]} {[1; 3]})).
Proof.
  cbv zeta. split; [vm_compute; reflexivity |]. split; [vm_compute; reflexivity |]. apply rank_removed_correct.
  - done.
  - unfold apart. cbn. set_solver by lia.
  - cbn. lia.
  - cbn. intros p. rewrite elem_of_union, !elem_of_singleton. lia.
  - cbn. intros p. rewrite elem_of_union, !elem_of_singleton. lia.
Defined.
