(* ===== verification/Election.v ===== *)
(** * The monitors' elections

    [src/src/mon/ElectionLogic.cc] with the part of [Elector.cc] and
    [Monitor.cc] that owns it.  A [mon] is a monitor process with its elector:
    the node of [Paxos.v], whose [epoch] is [ElectionLogic::epoch], and the
    members of [ElectionLogic] and [Elector].

    The handlers are computations of [E].  A call into Paxos ([lift]) hands the
    messages it sends to the process at once, so the node's outbox is empty
    between two calls.

    What the model leaves out: changes of the monitor map, so ranks and their
    number are fixed and messages with another map or [fsid] do not occur; the
    metadata and commands that victory messages carry. *)

From stdpp Require Import strings.
From S2P Require Import Prelude MonitorDBStore Paxos ConnectionTracker ElectorPing.

Inductive election_strategy := CLASSIC | DISALLOW | CONNECTIVITY.

#[export] Instance election_strategy_eq : EqDecision election_strategy.
Proof. solve_decision. Defined.

(** ** Messages ([messages/MMonElection.h]) *)

Inductive election_op := OP_PROPOSE | OP_ACK | OP_NAK | OP_VICTORY.

#[export] Instance election_op_eq : EqDecision election_op.
Proof. solve_decision. Defined.

(** [em_sharing] is the tracker in [sharing_bl] of a proposal;
    [em_con_features] are the features of the connection the message comes over. *)
Record MMonElection := {
  em_op : election_op;
  em_epoch : Z;
  em_quorum : gset Z;
  em_con_features : Z;
  em_quorum_features : Z;
  em_mon_features : Z;
  em_mon_release : Z;
  em_sharing : option ConnectionTracker;
  em_scoring : ConnectionTracker;
  em_strategy : election_strategy
}.

(** ** The state of a monitor and its elector *)

(** [elector_info_t] *)
Record elector_info := { ei_cluster_features : Z; ei_mon_features : Z; ei_mon_release : Z }.

Record mon := Mon {
  m_node : node;
  m_paxos_out : list (Z * MMonPaxos);
  (* the key "election_epoch" of the store *)
  persisted_epoch : Z;
  (* ElectionLogic *)
  last_election_winner : Z;
  last_voted_for : Z;
  stable_peer_tracker : option ConnectionTracker;
  leader_peer_tracker : option ConnectionTracker;
  leader_acked : Z;
  strategy : election_strategy;
  participating : bool;
  electing_me : bool;
  acked_me : gset Z;
  (* Elector *)
  pings : pinger;
  peer_info : gmap Z elector_info;
  disallowed_leaders : gset Z;
  expire_event : bool;
  m_out : list (Z * MMonElection)
}.

Definition mon_eta (s : mon) : mon :=
  Mon (m_node s) (m_paxos_out s) (persisted_epoch s) (last_election_winner s) (last_voted_for s)
    (stable_peer_tracker s) (leader_peer_tracker s) (leader_acked s) (strategy s) (participating s)
    (electing_me s) (acked_me s) (pings s) (peer_info s) (disallowed_leaders s) (expire_event s) (m_out s).

Ltac mon_setter f :=
  let h := constr:(fun s : mon => ltac:(
    let t := eval cbv beta delta [mon_eta] in (mon_eta s) in
    let t' := eval pattern (f s) in t in
    match t' with ?g _ => exact g end)) in
  exact (fun v s => h s v).

Definition set_m_node (v : node) (s : mon) : mon := Eval cbv beta in (ltac:(mon_setter m_node) v s).
Definition set_m_paxos_out (v : list (Z * MMonPaxos)) (s : mon) : mon := Eval cbv beta in (ltac:(mon_setter m_paxos_out) v s).
Definition set_persisted_epoch (v : Z) (s : mon) : mon := Eval cbv beta in (ltac:(mon_setter persisted_epoch) v s).
Definition set_last_election_winner (v : Z) (s : mon) : mon := Eval cbv beta in (ltac:(mon_setter last_election_winner) v s).
Definition set_last_voted_for (v : Z) (s : mon) : mon := Eval cbv beta in (ltac:(mon_setter last_voted_for) v s).
Definition set_stable_peer_tracker (v : option ConnectionTracker) (s : mon) : mon := Eval cbv beta in (ltac:(mon_setter stable_peer_tracker) v s).
Definition set_leader_peer_tracker (v : option ConnectionTracker) (s : mon) : mon := Eval cbv beta in (ltac:(mon_setter leader_peer_tracker) v s).
Definition set_leader_acked (v : Z) (s : mon) : mon := Eval cbv beta in (ltac:(mon_setter leader_acked) v s).
Definition set_strategy (v : election_strategy) (s : mon) : mon := Eval cbv beta in (ltac:(mon_setter strategy) v s).
Definition set_participating (v : bool) (s : mon) : mon := Eval cbv beta in (ltac:(mon_setter participating) v s).
Definition set_electing_me (v : bool) (s : mon) : mon := Eval cbv beta in (ltac:(mon_setter electing_me) v s).
Definition set_acked_me (v : gset Z) (s : mon) : mon := Eval cbv beta in (ltac:(mon_setter acked_me) v s).
Definition set_pings (v : pinger) (s : mon) : mon := Eval cbv beta in (ltac:(mon_setter pings) v s).
Definition set_peer_info (v : gmap Z elector_info) (s : mon) : mon := Eval cbv beta in (ltac:(mon_setter peer_info) v s).
Definition set_disallowed_leaders (v : gset Z) (s : mon) : mon := Eval cbv beta in (ltac:(mon_setter disallowed_leaders) v s).
Definition set_expire_event (v : bool) (s : mon) : mon := Eval cbv beta in (ltac:(mon_setter expire_event) v s).
Definition set_m_out (v : list (Z * MMonElection)) (s : mon) : mon := Eval cbv beta in (ltac:(mon_setter m_out) v s).

(** ** Computations *)

Definition E (A : Type) : Type := mon -> option A * mon.

#[export] Instance E_ret : MRet E := fun A a s => (Some a, s).
#[export] Instance E_bind : MBind E := fun A B f m s =>
  match m s with
  | (Some a, s') => f a s'
  | (None, s') => (None, s')
  end.

Definition this : E mon := fun s => (Some s, s).
Definition update (f : mon -> mon) : E unit := fun s => (Some tt, f s).
Definition fail {A} : E A := fun s => (None, s).
Definition require (b : bool) : E unit := if b then mret tt else fail.
Definition provided (b : bool) (m : E unit) : E unit := if b then m else mret tt.

(** A call into the monitor or its Paxos. *)
Definition lift {A} (m : M A) : E A := fun s =>
  let '(o, n) := m (m_node s) in
  (o, set_m_node (set_outbox [] n) (set_m_paxos_out (m_paxos_out s ++ outbox n) s)).

Definition l_epoch (s : mon) : Z := epoch (m_node s).
Definition set_l_epoch (e : Z) (s : mon) : mon := set_m_node (set_epoch e (m_node s)) s.
Definition my_rank (s : mon) : Z := rank (m_node s).
Definition tracker (s : mon) : ConnectionTracker := peer_tracker (pings s).

Definition send_election (to : Z) (m : MMonElection) : E unit := update (fun s => set_m_out (m_out s ++ [(to, m)]) s).

(** ** Configuration

    [ever_participated] is [Monitor::has_ever_joined] and [metadata] what a new
    leader records first; they come with a step, like the time. *)

Record election_conf := {
  paxos_conf : conf;
  required_features : Z;
  required_mon_features : Z;
  supported_mon_features : Z;
  min_mon_release : Z;
  my_release : Z;
  CEPH_FEATURES_ALL : Z;
  ping_config : ping_conf;
  score_halflife : double;
  score_persist_interval : Z;
  ignore_propose_margin : double
}.

Record election_env := { paxos_env : env; wall_clock : Z; ever_participated : bool; metadata : string }.

Section Election.
Context (ec : election_conf) (ee : election_env).

Definition paxos_size : Z := monmap_size (paxos_conf ec).

(** ** [Elector] as the owner of the logic *)

Definition persist_epoch (e : Z) : E unit :=
  update (fun s => set_persisted_epoch e (set_pings (persist_connectivity_scores (pings s)) s)).
Definition is_current_member (r : Z) (s : mon) : bool := bool_decide (r ∈ quorum (m_node s)).
Definition is_disallowed (r : Z) (s : mon) : bool := bool_decide (r ∈ disallowed_leaders s).
Definition notify_bump_epoch : E unit := lift (join_election (paxos_conf ec) (paxos_env ee)).
Definition reset_election : E unit := lift (bootstrap (paxos_conf ec) (paxos_env ee)).
Definition reset_timer : E unit := update (set_expire_event true).
Definition cancel_timer : E unit := update (set_expire_event false).

(** What [new MMonElection] and the next lines set. *)
Definition election_msg (op : election_op) (e : Z) (s : mon) : MMonElection :=
  {| em_op := op; em_epoch := e; em_quorum := ∅; em_con_features := CEPH_FEATURES_ALL ec; em_quorum_features := 0;
     em_mon_features := supported_mon_features ec; em_mon_release := my_release ec; em_sharing := None;
     em_scoring := tracker s; em_strategy := strategy s |}.

Definition with_sharing (t : option ConnectionTracker) (m : MMonElection) : MMonElection :=
  {| em_op := em_op m; em_epoch := em_epoch m; em_quorum := em_quorum m; em_con_features := em_con_features m;
     em_quorum_features := em_quorum_features m; em_mon_features := em_mon_features m; em_mon_release := em_mon_release m;
     em_sharing := t; em_scoring := em_scoring m; em_strategy := em_strategy m |}.

Definition with_victory (q : gset Z) (info : elector_info) (m : MMonElection) : MMonElection :=
  {| em_op := em_op m; em_epoch := em_epoch m; em_quorum := q; em_con_features := em_con_features m;
     em_quorum_features := ei_cluster_features info; em_mon_features := ei_mon_features info;
     em_mon_release := ei_mon_release info; em_sharing := em_sharing m; em_scoring := em_scoring m;
     em_strategy := em_strategy m |}.

Definition propose_to_peers (e : Z) (bl : option ConnectionTracker) : E unit :=
  update (fun s => set_m_out (m_out s ++
    map (fun r => (r, with_sharing bl (election_msg OP_PROPOSE e s))) (filter (fun r => r <> my_rank s) (seqZ 0 paxos_size))) s).

Definition _start : E unit :=
  update (fun s => set_peer_info {[my_rank s := {| ei_cluster_features := CEPH_FEATURES_ALL ec;
    ei_mon_features := supported_mon_features ec; ei_mon_release := my_release ec |}]} s);;
  reset_timer.

Definition _defer_to (who : Z) : E unit :=
  s ← this;
  send_election who (election_msg OP_ACK (l_epoch s) s);;
  reset_timer.

(** What the members of a quorum have in common; [ceph_release_t::unknown] is 0. *)
Definition meet_info (a b : elector_info) : elector_info :=
  {| ei_cluster_features := Z.land (ei_cluster_features a) (ei_cluster_features b);
     ei_mon_features := Z.land (ei_mon_features a) (ei_mon_features b);
     ei_mon_release := if (ei_mon_release a =? 0) || (ei_mon_release b <? ei_mon_release a) then ei_mon_release b else ei_mon_release a |}.

Definition quorum_info (q : gset Z) (s : mon) : option elector_info :=
  fold_left (fun acc r => a ← acc; i ← peer_info s !! r; Some (meet_info a i)) (elements q)
    (Some {| ei_cluster_features := CEPH_FEATURES_ALL ec; ei_mon_features := supported_mon_features ec; ei_mon_release := 0 |}).

Definition message_victory (q : gset Z) : E unit :=
  s ← this;
  match quorum_info q s with
  | None => fail
  | Some info =>
      cancel_timer;;
      update (fun s => set_m_out (m_out s ++
        map (fun r => (r, with_victory q info (election_msg OP_VICTORY (l_epoch s) s)))
          (filter (fun r => r <> my_rank s) (elements q))) s);;
      lift (win_election q (metadata ee))
  end.

(** ** [ElectionLogic] *)

Definition init : E unit :=
  s ← this;
  if persisted_epoch s =? 0 then update (set_l_epoch 1)
  else if Z.odd (persisted_epoch s) then
    update (set_l_epoch (persisted_epoch s + 1));; persist_epoch (persisted_epoch s + 1)
  else update (set_l_epoch (persisted_epoch s)).

(** Epochs have 32 bits in the code and are unbounded here. *)
Definition bump_epoch (e : Z) : E unit :=
  s ← this;
  require (l_epoch s <=? e);;
  update (set_l_epoch e);;
  update (fun s => set_pings (with_tracker (increase_epoch e (tracker s)) (pings s)) s);;
  persist_epoch e;;
  update (fun s => set_acked_me ∅ (set_electing_me false s));;
  notify_bump_epoch.

Definition reset_stable_tracker : E unit := update (fun s => set_stable_peer_tracker (Some (tracker s)) s).

Definition clear_live_election_state : E unit :=
  update (fun s => set_leader_acked (-1) (set_electing_me false s));;
  reset_stable_tracker;;
  update (set_leader_peer_tracker None).

Definition start : E unit :=
  s ← this;
  if negb (participating s) then mret tt
  else
    update (set_acked_me ∅);;
    init;;
    s ← this;
    provided (Z.even (l_epoch s)) (bump_epoch (l_epoch s + 1));;
    update (fun s => set_acked_me ({[my_rank s]} ∪ acked_me s) s);;
    clear_live_election_state;;
    reset_stable_tracker;;
    update (set_electing_me true);;
    s ← this;
    propose_to_peers (l_epoch s) (if bool_decide (strategy s = CONNECTIVITY) then stable_peer_tracker s else None);;
    _start.

(** [Monitor::start_election], [Elector::trigger_new_election] *)
Definition start_election : E unit :=
  lift (join_election (paxos_conf ec) (paxos_env ee));;
  start.

Definition defer (who : Z) : E unit :=
  s ← this;
  require (if bool_decide (strategy s = CLASSIC) then who <? my_rank s else negb (is_disallowed who s));;
  provided (electing_me s) (update (fun s => set_electing_me false (set_acked_me ∅ s)));;
  update (set_leader_acked who);;
  _defer_to who.

Definition declare_victory : E unit :=
  update (fun s => set_last_election_winner (my_rank s) s);;
  update (fun s => set_last_voted_for (last_election_winner s) s);;
  clear_live_election_state;;
  s ← this;
  let new_quorum := acked_me s in
  update (set_acked_me ∅);;
  require (Z.odd (l_epoch s));;
  bump_epoch (l_epoch s + 1);;
  message_victory new_quorum.

Definition end_election_period : E unit :=
  s ← this;
  if electing_me s && (paxos_size / 2 <? Z.of_nat (size (acked_me s))) then declare_victory
  else if ever_participated ee then start
  else reset_election.

(** [true] when the proposal is to be dropped. *)
Definition propose_classic_prefix (from mepoch : Z) : E bool :=
  s ← this;
  if l_epoch s <? mepoch then bump_epoch mepoch;; mret false
  else if mepoch <? l_epoch s then
    provided (Z.even (l_epoch s) && negb (is_current_member from s)) start_election;;
    mret true
  else mret false.

Definition propose_classic_handler (from mepoch : Z) : E unit :=
  old ← propose_classic_prefix from mepoch;
  provided (negb old)
   (s ← this;
    if my_rank s <? from then
      if 0 <=? leader_acked s then require (leader_acked s <? from)
      else provided (negb (electing_me s)) start_election
    else
      provided ((leader_acked s <? 0) || (from <? leader_acked s) || (leader_acked s =? from)) (defer from)).

Definition propose_disallow_handler (from mepoch : Z) : E unit :=
  old ← propose_classic_prefix from mepoch;
  provided (negb old)
   (s ← this;
    let me_disallowed := is_disallowed (my_rank s) s in
    let from_disallowed := is_disallowed from s in
    let my_win := negb me_disallowed && ((my_rank s <? from) || from_disallowed) in
    let their_win := negb from_disallowed && ((from <? my_rank s) || me_disallowed) &&
                     ((leader_acked s <? 0) || (from <=? leader_acked s)) in
    if my_win then
      if 0 <=? leader_acked s then require ((leader_acked s <? from) || from_disallowed)
      else provided (negb (electing_me s)) start_election
    else provided their_win (defer from)).

Definition connectivity_election_score (r : Z) (s : mon) : double :=
  if is_disallowed r s then dZ (-1)
  else fst (get_total_connection_score r (default (tracker s) (stable_peer_tracker s))).

Definition connectivity_bump_epoch_in_election (mepoch : Z) : E unit :=
  s ← this;
  require (l_epoch s <? mepoch);;
  bump_epoch mepoch;;
  reset_stable_tracker;;
  s ← this;
  provided (dlt (connectivity_election_score (leader_acked s) s) (connectivity_election_score (my_rank s) s))
    (update (fun s => set_leader_peer_tracker None (set_leader_acked (-1) s))).

(** The best scorer, its score and the score of [last_voted_for]. *)
Definition scan_scores (s : mon) : Z * double * double :=
  fold_left (fun '(best, best_score, voted_score) i =>
    let score := connectivity_election_score i s in
    let '(best, best_score) := if dlt best_score score then (i, score) else (best, best_score) in
    (best, best_score, if (0 <=? last_voted_for s) && (i =? last_voted_for s) then score else voted_score))
    (seqZ 0 paxos_size) (0, dZ 0, dZ 0).

(** A proposal from outside the quorum that would not change our vote. *)
Definition is_flapping (from : Z) (s : mon) : bool :=
  Z.even (l_epoch s) && negb (last_election_winner s =? my_rank s) && negb (is_current_member from s) &&
  let '(best, best_score, voted_score) := scan_scores s in
  (best =? last_voted_for s) || dlt (dsub best_score voted_score) (ignore_propose_margin ec).

(** [a] beats [b] in the scores of [t]. *)
Definition outscores (a b : Z) (t : ConnectionTracker) : bool :=
  let sa := fst (get_total_connection_score a t) in
  let sb := fst (get_total_connection_score b t) in
  ((a <? b) && dge sa sb) || dlt sb sa.

(** The leader we acked has to defer to [from] as well. *)
Definition switch_leader (from : Z) (ct : ConnectionTracker) : E unit :=
  s ← this;
  match leader_peer_tracker s with
  | None => fail
  | Some lt =>
      if outscores from (leader_acked s) lt then defer from;; update (set_leader_peer_tracker (Some ct))
      else provided (outscores from (leader_acked s) (tracker s)) (bump_epoch (l_epoch s + 1);; start)
  end.

Definition propose_connectivity_prefix (from mepoch : Z) : E bool :=
  s ← this;
  if l_epoch s <? mepoch then connectivity_bump_epoch_in_election mepoch;; mret false
  else if mepoch <? l_epoch s then
    provided (Z.even (l_epoch s) && negb (is_current_member from s)) start_election;;
    mret true
  else mret false.

Definition connectivity_vote (from : Z) (ct : option ConnectionTracker) : E unit :=
  s ← this;
  let my_score := connectivity_election_score (my_rank s) s in
  let from_score := connectivity_election_score from s in
  let leader_score := if 0 <=? leader_acked s then connectivity_election_score (leader_acked s) s else dZ (-1) in
  let my_win := dge my_score (dZ 0) &&
                (((my_rank s <? from) && dge my_score from_score) || dlt from_score my_score) in
  let their_win := dge from_score (dZ 0) &&
                   (((from <? my_rank s) && dge from_score my_score) || dlt my_score from_score) &&
                   (((from <=? leader_acked s) && dge from_score leader_score) || dlt leader_score from_score) in
  if my_win then
    if 0 <=? leader_acked s then require (dge leader_score from_score)
    else provided (negb (electing_me s)) start_election
  else if their_win || (from =? leader_acked s) then
    match ct with
    | None => fail
    | Some ct =>
        if (0 <=? leader_acked s) && negb (from =? leader_acked s) then switch_leader from ct
        else defer from;; update (set_leader_peer_tracker (Some ct))
    end
  else mret tt.

Definition propose_connectivity_handler (from mepoch : Z) (ct : option ConnectionTracker) : E unit :=
  s ← this;
  provided (negb (is_flapping from s))
   (old ← propose_connectivity_prefix from mepoch;
    provided (negb old) (connectivity_vote from ct)).

Definition receive_propose (from mepoch : Z) (ct : option ConnectionTracker) : E unit :=
  s ← this;
  if from =? my_rank s then mret tt
  else
    match strategy s with
    | CLASSIC => propose_classic_handler from mepoch
    | DISALLOW => propose_disallow_handler from mepoch
    | CONNECTIVITY => propose_connectivity_handler from mepoch ct
    end.

Definition receive_ack (from from_epoch : Z) : E unit :=
  require (Z.odd from_epoch);;
  s ← this;
  if l_epoch s <? from_epoch then bump_epoch from_epoch;; start
  else if electing_me s then
    update (fun s => set_acked_me ({[from]} ∪ acked_me s) s);;
    s ← this;
    provided (Z.of_nat (size (acked_me s)) =? paxos_size) declare_victory
  else require (0 <=? leader_acked s).

Definition victory_makes_sense (from : Z) (s : mon) : bool :=
  match strategy s with
  | CLASSIC => from <? my_rank s
  | DISALLOW => (from <? my_rank s) || is_disallowed (my_rank s) s
  | CONNECTIVITY => dge (connectivity_election_score from s) (connectivity_election_score (my_rank s) s)
  end.

Definition receive_victory_claim (from from_epoch : Z) : E bool :=
  s ← this;
  let election_okay := victory_makes_sense from s in
  update (fun s => set_last_voted_for (leader_acked s) (set_last_election_winner from s));;
  clear_live_election_state;;
  s ← this;
  if negb election_okay then
    require (bool_decide (strategy s = CONNECTIVITY));;
    bump_epoch from_epoch;;
    start;;
    mret false
  else if negb (from_epoch =? l_epoch s + 1) then
    bump_epoch from_epoch;;
    start;;
    mret false
  else
    bump_epoch from_epoch;;
    mret true.

(** ** [Elector] handlers *)

(** The bits of [required] that [have] lacks. *)
Definition lacks (required have : Z) : bool := negb (Z.land (Z.lxor required have) required =? 0).

Definition nak_old_peer (from : Z) (m : MMonElection) : E unit :=
  s ← this;
  send_election from
    {| em_op := OP_NAK; em_epoch := em_epoch m; em_quorum := ∅; em_con_features := CEPH_FEATURES_ALL ec;
       em_quorum_features := required_features ec; em_mon_features := required_mon_features ec;
       em_mon_release := min_mon_release ec; em_sharing := None; em_scoring := tracker s; em_strategy := strategy s |}.

(** The last check answers with a NAK and goes on. *)
Definition handle_propose (from : Z) (m : MMonElection) : E unit :=
  require (Z.odd (em_epoch m));;
  if lacks (required_features ec) (em_con_features m) then nak_old_peer from m
  else if em_mon_release m <? min_mon_release ec then nak_old_peer from m
  else
    provided (lacks (required_mon_features ec) (em_mon_features m)) (nak_old_peer from m);;
    receive_propose from (em_epoch m) (decode_tracker 10 <$> em_sharing m).

Definition handle_ack (from : Z) (m : MMonElection) : E unit :=
  s ← this;
  require (em_epoch m =? l_epoch s);;
  if lacks (required_features ec) (em_con_features m) then mret tt
  else if lacks (required_mon_features ec) (em_mon_features m) then mret tt
  else
    provided (electing_me s)
      (update (fun s => set_peer_info (<[from := {| ei_cluster_features := em_con_features m;
         ei_mon_features := em_mon_features m; ei_mon_release := em_mon_release m |}]> (peer_info s)) s);;
       s ← this; require (bool_decide (acked_me s ⊆ dom (peer_info s))));;
    receive_ack from (em_epoch m).

Definition handle_victory (from : Z) (m : MMonElection) : E unit :=
  accept ← receive_victory_claim from (em_epoch m);
  provided accept
    (lift (lose_election (em_quorum m) from);;
     cancel_timer).

(** [exit(0)] *)
Definition handle_nak : E unit := fail.

Definition elector_dispatch (from : Z) (m : MMonElection) : E unit :=
  s ← this;
  if negb (participating s) then mret tt
  else if paxos_size <=? from then mret tt
  else if negb (bool_decide (em_strategy m = strategy s)) then mret tt
  else
    update (fun s => set_pings (begin_peer_ping (ping_config ec) (wall_clock ee) from
      (assimilate_connection_reports (em_scoring m) (pings s))) s);;
    match em_op m with
    | OP_PROPOSE => handle_propose from m
    | op =>
        s ← this;
        if em_epoch m <? l_epoch s then mret tt
        else
          match op with
          | OP_ACK => handle_ack from m
          | OP_VICTORY => handle_victory from m
          | _ => handle_nak
          end
    end.

(** [Monitor::dispatch_op] for [MSG_MON_ELECTION]; a monitor that synchronizes
    its store, which also drops the message, is not modelled. *)
Definition election_dispatch (from : Z) (m : MMonElection) : E unit :=
  s ← this;
  if is_probing (m_node s) then mret tt else elector_dispatch from m.

(** [ElectionLogic::declare_standalone_victory] and
    [Monitor::win_standalone_election] *)
Definition declare_standalone_victory : E unit :=
  s ← this;
  require ((paxos_size =? 1) && (my_rank s =? 0));;
  init;;
  s ← this;
  bump_epoch (l_epoch s + 1).

Definition win_standalone_election : E unit :=
  declare_standalone_victory;;
  lift (win_election {[0]} (metadata ee)).

(** The timer of [reset_timer]. *)
Definition election_expire : E unit := cancel_timer;; end_election_period.

(** [Monitor::set_elector_disallowed_leaders] *)
Definition set_elector_disallowed_leaders (dl : gset Z) (allow_election : bool) : E unit :=
  s ← this;
  let changed := negb (bool_decide (dl = disallowed_leaders s)) in
  update (set_disallowed_leaders dl);;
  provided (changed && allow_election) start.

(** The commands "quorum enter" and "quorum exit" *)
Definition quorum_enter : E unit := update (set_participating true);; start_election.
Definition quorum_exit : E unit := start_election;; update (set_participating false).

End Election.
