(* ===== verification/MonCluster.v ===== *)
(** * Monitors with their electors

    The cluster of [PaxosSystem.v] with the elections as the code runs them: the
    monitors exchange the messages of Paxos and of the elector, each kind in the
    order it was sent, and either kind may be lost.  A process that dies loses
    its memory and is started again on its disk. *)

From stdpp Require Import strings.
From S2P Require Import Prelude MonitorDBStore Paxos PaxosSystem ConnectionTracker ElectorPing Election.

Record cluster := Cluster {
  mons : gmap Z mon;
  paxos_net : gmap (Z * Z) (list MMonPaxos);
  elect_net : gmap (Z * Z) (list MMonElection)
}.

Definition echan (s : cluster) (i j : Z) : list MMonElection := default [] (elect_net s !! (i, j)).

(** What the pinging of peers does to a monitor; a ping may bring any scores. *)
Inductive ping_event := P_handle (from : Z) (m : MMonPing) | P_check (peer : Z) | P_dead (peer : Z) | P_reset.

Inductive event :=
  | EvPaxos (l : label)
  | EvDeliver (from to : Z)
  | EvDrop (from to : Z) (k : nat)
  | EvExpire (i : Z)
  | EvElect (i : Z)
  | EvDisallow (i : Z) (dl : gset Z) (allow_election : bool)
  | EvEnter (i : Z)
  | EvExit (i : Z)
  | EvStrategy (i : Z) (st : election_strategy)
  | EvPing (i : Z) (p : ping_event)
  | EvRestart (i : Z).

Section Cluster.
Context (ec : election_conf).

Definition epost (i : Z) (out : list (Z * MMonElection)) (nt : gmap (Z * Z) (list MMonElection)) : gmap (Z * Z) (list MMonElection) :=
  fold_left (fun nt '(to, m) => <[(i, to) := default [] (nt !! (i, to)) ++ [m]]> nt) out nt.

(** A process that fails an assertion, or exits. *)
Definition stop (s : mon) : mon := set_m_node (set_mstate MON_DOWN (m_node s)) s.

Definition ended {A} (r : option A * mon) : mon := match r.1 with Some _ => r.2 | None => stop r.2 end.

Definition sent (s : mon) : mon := set_m_out [] (set_m_paxos_out [] s).

Definition up (s : mon) : bool := negb (bool_decide (mstate (m_node s) = MON_DOWN)).

(** Running a handler on monitor [i]. *)
Definition crun (i : Z) (m : E unit) (s : cluster) : option cluster :=
  x ← mons s !! i;
  if up x then
    let x' := ended (m x) in
    Some (Cluster (<[i := sent x']> (mons s)) (post i (m_paxos_out x') (paxos_net s)) (epost i (m_out x') (elect_net s)))
  else None.

(** The Paxos steps that the elector has no part in. *)
Definition paxos_event (l : label) (ee : election_env) (s : cluster) : option cluster :=
  let c := paxos_conf ec in
  let e := paxos_env ee in
  match l with
  | LDeliver from to =>
      match default [] (paxos_net s !! (from, to)) with
      | [] => None
      | m :: q => crun to (lift (monitor_dispatch c e from m)) (Cluster (mons s) (<[(from, to) := q]> (paxos_net s)) (elect_net s))
      end
  | LDrop from to k =>
      Some (Cluster (mons s) (<[(from, to) := delete k (default [] (paxos_net s !! (from, to)))]> (paxos_net s)) (elect_net s))
  | LBootstrap i => crun i (lift (bootstrap c e)) s
  | LTimer i t =>
      x ← mons s !! i;
      _ ← check (timer_armed t (m_node x));
      crun i (lift (timer_fires c e t)) s
  | LApply i => crun i (lift io_apply) s
  | LComplete i => crun i (lift (io_complete c e)) s
  | LPropose i t f =>
      _ ← check (service_tx t && service_finisher f);
      crun i (lift (propose t f)) s
  | LTrigger i => crun i (lift (_ ← trigger_propose c; mret tt)) s
  | LPlug i b => crun i (lift (if b then plug else unplug)) s
  | LCrash i => crun i fail s
  | _ => None
  end.

Definition ping_step (p : ping_event) (ee : election_env) (s : pinger) : option pinger :=
  match p with
  | P_handle from m => Some (handle_ping (ping_config ec) (wall_clock ee) from m s)
  | P_check peer => Some (ping_check (ping_config ec) (wall_clock ee) peer s)
  | P_dead peer => dead_ping (wall_clock ee) peer s
  | P_reset => Some (with_tracker (notify_reset (peer_tracker s)) s)
  end.

Definition run_ping (p : ping_event) (ee : election_env) : E unit :=
  s ← this;
  match ping_step p ee (pings s) with
  | Some p' => update (set_pings p')
  | None => fail
  end.

(** [Elector::Elector] *)
Definition boot_pings (r : Z) (scores : option ConnectionTracker) : pinger :=
  Pinger (match scores with
          | Some t => decode_tracker (score_persist_interval ec) t
          | None => new_tracker r (score_halflife ec) (score_persist_interval ec)
          end) scores ∅ ∅ ∅ ∅ [] [] [].

Definition boot_mon (n : node) (persisted : Z) (scores : option ConnectionTracker) (st : election_strategy) : mon :=
  Mon n [] persisted (-1) (-1) None None (-1) st true false ∅ (boot_pings (rank n) scores) ∅ ∅ false [].

(** The epoch of a new process is 0 until [ElectionLogic::init] reads it. *)
Definition reboot (s : mon) : mon :=
  boot_mon (boot (set_epoch 0 (m_node s))) (persisted_epoch s) (persisted_scores (pings s)) (strategy s).

Definition cstep (ev : event) (ee : election_env) (s : cluster) : option cluster :=
  match ev with
  | EvPaxos l => paxos_event l ee s
  | EvDeliver from to =>
      match echan s from to with
      | [] => None
      | m :: q => crun to (election_dispatch ec ee from m) (Cluster (mons s) (paxos_net s) (<[(from, to) := q]> (elect_net s)))
      end
  | EvDrop from to k => Some (Cluster (mons s) (paxos_net s) (<[(from, to) := delete k (echan s from to)]> (elect_net s)))
  | EvExpire i =>
      x ← mons s !! i;
      _ ← check (expire_event x);
      crun i (election_expire ec ee) s
  | EvElect i => crun i (start_election ec ee) s
  | EvDisallow i dl allow => crun i (set_elector_disallowed_leaders ec ee dl allow) s
  | EvEnter i => crun i (quorum_enter ec ee) s
  | EvExit i => crun i (quorum_exit ec ee) s
  | EvStrategy i st => crun i (update (set_strategy st)) s
  | EvPing i p => crun i (run_ping p ee) s
  | EvRestart i =>
      x ← mons s !! i;
      Some (Cluster (<[i := reboot x]> (mons s)) (paxos_net s) (elect_net s))
  end.

Context (st0 : election_strategy).

Definition init_cluster : cluster :=
  Cluster (list_to_map (map (fun r => (r, boot_mon (fresh r 0 ∅) 0 None st0)) (seqZ 0 (monmap_size (paxos_conf ec))))) ∅ ∅.

Fixpoint cruns (evs : list (event * election_env)) (s : cluster) : option cluster :=
  match evs with
  | [] => Some s
  | (ev, ee) :: evs' => s' ← cstep ev ee s; cruns evs' s'
  end.

Definition callowed (ev : event) (s : cluster) : Prop :=
  match ev with
  | EvRestart i => forall x, mons s !! i = Some x -> promise_durable (m_node x)
  | _ => True
  end.

(** The states of the runs in which only monitors with a durable promise are
    restarted. *)
Inductive creachable : cluster -> Prop :=
  | creachable_init : creachable init_cluster
  | creachable_step ev ee s s' : creachable s -> callowed ev s -> cstep ev ee s = Some s' -> creachable s'.

End Cluster.
