(* ===== verification/MonClusterSim.v ===== *)
(** * Elections as Paxos sees them

    A handler of the elector that runs on one monitor of a reachable cluster is
    a sequence of steps of [PaxosSystem.v]: an epoch that is raised, an election
    that is joined, won or lost.  [ewp] states this for a computation and
    carries what the elector maintains. *)

From stdpp Require Import strings.
From S2P Require Import Prelude MonitorDBStore Paxos PaxosSystem PaxosSim PaxosRefine PaxosThms MonFrame.
From S2P Require Import ConnectionTracker ElectorPing Election MonCluster.

(** ** Resetting a monitor without a write under way *)

Lemma finish_epoch ep r fs n : fold_left (finish_context r) fs (set_epoch ep n) = set_epoch ep (fold_left (finish_context r) fs n).
Proof. revert n. induction fs as [| f fs IH]; intros n; [done |]. cbn. rewrite <- IH. by destruct f. Qed.

Lemma finish_fields r fs n : exists b l, fold_left (finish_context r) fs n = set_completed l (set_trimming b n).
Proof.
  revert n. induction fs as [| f fs IH]; intros n; cbn; [by exists (trimming n), (completed n); destruct n |].
  destruct (IH (finish_context r n f)) as (b & l & ->). destruct f; by eexists _, _.
Qed.

(** What [_reset] leaves of a node. *)
Definition wiped (n : node) : node :=
  fold_left (finish_context (- EAGAIN)) (committing_finishers n ++ pending_finishers n)
    (set_pending_finishers [] (set_committing_finishers [] (set_pending_proposal None (set_state STATE_RECOVERING
      (set_new_value bl_empty (set_collect_timeout_event false (set_accept_timeout_event false (set_lease_renew_event false
        (set_lease_ack_timeout_event false (set_lease_timeout_event false (set_quorum ∅ n))))))))))).

Definition joined (n : node) : node := set_mstate MON_ELECTING (wiped n).

Lemma wiped_epoch ep n : wiped (set_epoch ep n) = set_epoch ep (wiped n).
Proof. unfold wiped. rewrite <- finish_epoch. done. Qed.

Lemma joined_epoch ep n : joined (set_epoch ep n) = set_epoch ep (joined n).
Proof. unfold joined. by rewrite wiped_epoch. Qed.

Lemma wiped_fields n : epoch (wiped n) = epoch n /\ rank (wiped n) = rank n /\ outbox (wiped n) = outbox n /\
  mstate (wiped n) = mstate n /\ state (wiped n) = STATE_RECOVERING /\ forall t, timer_armed t (wiped n) = false.
Proof. unfold wiped. edestruct finish_fields as (b & l & ->). split_and!; try done. by intros []. Qed.

Lemma reset_idle fl n : writing n = false -> reset_with fl n = (Some tt, wiped n).
Proof.
  intros Hw. unfold reset_with, restart_with, mbind, M_bind, when, self, upd.
  unfold writing, is_writing, is_writing_previous in *. cbn. rewrite Hw.
  unfold reset_pending_committing_finishers, finish_contexts. destruct n. vm_compute. reflexivity.
Qed.

Lemma wait_idle fl n : writing n = false -> wait_for_paxos_write_with fl n = (Some tt, n).
Proof. intros Hw. unfold wait_for_paxos_write_with, mbind, M_bind, self, when. fold (writing n). by rewrite Hw. Qed.

Lemma join_idle c e n : writing n = false -> join_election c e n = (Some tt, joined n).
Proof. intros Hw. unfold join_election, mbind, M_bind. rewrite wait_idle by done. cbv beta iota. by rewrite reset_idle. Qed.

Lemma join_fields c e n o n' : join_election c e n = (o, n') ->
  epoch n' = epoch n /\ rank n' = rank n /\ (o = Some tt -> mstate n' = MON_ELECTING).
Proof.
  unfold join_election. set (m := wait_for_paxos_write_with (flush c e)). set (r := reset_with (flush c e)).
  destruct (keeps_wait _ (keeps_flush c e) n : keep n (m n).2) as (M1 & M2 & _). unfold mbind, M_bind.
  destruct (m n) as [[[] |] n1]; cbn in *; [| intros [= <- <-]; by split_and!].
  destruct (reset_keeps _ n1 (keeps_flush c e) : keep _ (r n1).2) as (R1 & R2 & _). cbn in R1, R2.
  destruct (r n1) as [[[] |] n2]; cbn in *; intros [= <- <-]; split_and!; cbn; congruence.
Qed.

Lemma bootstrap_idle c e n : writing n = false -> bootstrap c e n = (Some tt, wiped (set_mstate MON_PROBING n)).
Proof. intros Hw. unfold bootstrap, bootstrap_with, mbind, M_bind, upd. rewrite wait_idle by done. cbv beta iota. by rewrite reset_idle. Qed.

(** ** One monitor of a reachable cluster *)

Lemma outside_idle c s i n : conf_ok c -> reachable c s -> nodes s !! i = Some n -> outside n = true -> writing n = false /\ io_queue n = [].
Proof.
  intros Hok Hs Hi Hm. destruct (reachable_rel c Hok s Hs) as (a & Hr). destruct (r_nodes _ _ _ Hr i n Hi) as [[_ HL] _].
  unfold outside, is_probing, is_electing in Hm. unfold live_rel in HL. destruct (mstate n); try done; split; apply HL.
Qed.

Lemma post_app i p q T : post i (p ++ q) T = post i q (post i p T).
Proof. unfold post. by rewrite fold_left_app. Qed.

Lemma set_outbox_nil n : outbox n = [] -> set_outbox [] n = n.
Proof. destruct n; cbn. by intros ->. Qed.

(** A victory is declared in an even epoch. *)
Definition even_victory (m : MMonElection) : Prop := em_op m = OP_VICTORY -> Z.even (em_epoch m) = true.

(** The epoch in memory and the one on disk, which is 0 until the first
    election is over. *)
Definition bounded (persisted ep : Z) : Prop := 0 <= ep /\ (ep = persisted \/ persisted = 0 /\ ep <= 1).

Section Sim.
Context (ec : election_conf) (ee : election_env) (i : Z).
Context (N0 : gmap Z node) (T0 : gmap (Z * Z) (list MMonPaxos)).
Let c := paxos_conf ec.
Hypothesis Hconf : conf_ok c.

Definition sigma (n : node) (p : list (Z * MMonPaxos)) : sys := Sys (<[i := n]> N0) (post i p T0).

(** The Paxos state of the cluster while the monitor runs a handler. *)
Definition paxos_at (s : mon) : sys := sigma (m_node s) (m_paxos_out s).

Record ok (s : mon) : Prop := {
  ok_reach : reachable c (paxos_at s);
  ok_outbox : outbox (m_node s) = [];
  ok_rank : rank (m_node s) = i;
  ok_bound : bounded (persisted_epoch s) (l_epoch s);
  ok_even : outside (m_node s) = false -> up s = true -> Z.even (l_epoch s) = true /\ 0 < l_epoch s;
  ok_acked : acked_me s ⊆ ranks c;
  ok_out : Forall (fun e => even_victory e.2) (m_out s)
}.

Definition outcome {A} (Q : A -> mon -> Prop) (σ : sys) (r : option A * mon) : Prop :=
  match r with
  | (Some a, s) => later c σ (paxos_at s) /\ ok s /\ up s = true /\ Q a s
  | (None, s) => later c σ (paxos_at (stop s)) /\ ok (stop s)
  end.

Definition ewp {A} (m : E A) (Q : A -> mon -> Prop) (s : mon) : Prop := ok s -> up s = true -> outcome Q (paxos_at s) (m s).

(** *** Rules *)

Lemma outcome_later {A} (Q : A -> mon -> Prop) σ σ' r : later c σ σ' -> outcome Q σ' r -> outcome Q σ r.
Proof. unfold outcome. destruct r as [[] ?]; intros Hl [H ?]; split; try done; by etransitivity. Qed.

Lemma ewp_ret {A} (x : A) (Q : A -> mon -> Prop) s : Q x s -> ewp (mret x) Q s.
Proof. intros HQ Hs Hu. split; [apply rtc_refl | done]. Qed.

Lemma outcome_bind {A B} (m : E A) (f : A -> E B) Q σ s :
  outcome (fun a s' => ewp (f a) Q s') σ (m s) -> outcome Q σ ((m ≫= f) s).
Proof.
  unfold mbind, E_bind. destruct (m s) as [[a |] s']; [| done].
  intros (Hl & Hs' & Hu' & H). eapply outcome_later; [exact Hl | by apply H].
Qed.

Lemma ewp_bind {A B} (m : E A) (f : A -> E B) Q s : ewp m (fun a s' => ewp (f a) Q s') s -> ewp (m ≫= f) Q s.
Proof. intros H Hs Hu. by apply outcome_bind, H. Qed.

Lemma ewp_assoc {A B D} (m : E A) (f : A -> E B) (g : B -> E D) Q s :
  ewp (m ≫= fun x => f x ≫= g) Q s -> ewp ((m ≫= f) ≫= g) Q s.
Proof. unfold ewp, mbind, E_bind. by destruct (m s) as [[a |] s']. Qed.

Lemma ewp_this (Q : mon -> mon -> Prop) s : Q s s -> ewp this Q s.
Proof. intros HQ Hs Hu. split; [apply rtc_refl | done]. Qed.

Lemma ewp_mono {A} (m : E A) (Q Q' : A -> mon -> Prop) s : ewp m Q s -> (forall a s', Q a s' -> Q' a s') -> ewp m Q' s.
Proof. intros H HQ Hs Hu. specialize (H Hs Hu). unfold outcome in *. destruct (m s) as [[] ?]; naive_solver. Qed.

Lemma ewp_pre {A} (m : E A) (Q : A -> mon -> Prop) s : (ok s -> up s = true -> ewp m Q s) -> ewp m Q s.
Proof. intros H Hs Hu. by apply H. Qed.

(** An update that Paxos does not see. *)
Definition calm (f : mon -> mon) (s : mon) : Prop :=
  m_node (f s) = m_node s /\ m_paxos_out (f s) = m_paxos_out s /\ persisted_epoch (f s) = persisted_epoch s /\
  acked_me (f s) ⊆ ranks c /\ Forall (fun e => even_victory e.2) (m_out (f s)).

Lemma calm_ok f s : calm f s -> ok s -> ok (f s) /\ paxos_at (f s) = paxos_at s /\ up (f s) = up s.
Proof.
  intros (H1 & H2 & H3 & H5 & H6) []. assert (Hp : paxos_at (f s) = paxos_at s) by (unfold paxos_at; congruence).
  split; [| split; [done | by unfold up; rewrite H1]].
  split; unfold l_epoch, up in *; rewrite ?Hp, ?H1, ?H3; done.
Qed.

Lemma ewp_update f Q s : (ok s -> calm f s) -> (forall s', s' = f s -> Q tt s') -> ewp (update f) Q s.
Proof.
  intros Hf HQ Hs Hu. destruct (calm_ok f s (Hf Hs) Hs) as (Hs' & Hp & Hu'). cbn.
  split; [| split; [done | split; [congruence | auto]]]. rewrite Hp. apply rtc_refl.
Qed.

Lemma ewp_provided b m Q s : (b = true -> ewp m Q s) -> (b = false -> Q tt s) -> ewp (provided b m) Q s.
Proof. intros H1 H2. destruct b; [by apply H1 | by apply ewp_ret, H2]. Qed.

(** *** Steps of Paxos *)

Lemma node_at s : nodes (paxos_at s) !! i = Some (m_node s).
Proof. apply lookup_insert_eq. Qed.

Lemma run_at m s o n' : up s = true -> m (m_node s) = (o, n') ->
  let n := match o with Some _ => n' | None => set_mstate MON_DOWN n' end in
  run i m (paxos_at s) = Some (sigma (set_outbox [] n) (m_paxos_out s ++ outbox n)).
Proof.
  intros Hu Hm. unfold run, paxos_at. cbn. rewrite lookup_insert_eq. cbn. unfold up in Hu.
  rewrite bool_decide_eq_false_2 by (intros He; by rewrite He in Hu). rewrite Hm. cbn.
  unfold sigma. by rewrite insert_insert_eq, post_app.
Qed.

Definition not_restart (l : label) : Prop := match l with LRestart _ => False | _ => True end.

(** A call into Paxos from [s1], which stands for the step [l] from [s]. *)
Lemma lift_step l e m0 m s s1 : up s = true -> not_restart l -> m0 (m_node s) = m (m_node s1) -> m_paxos_out s1 = m_paxos_out s ->
  step c l e (paxos_at s) = run i m0 (paxos_at s) -> later c (paxos_at s) (paxos_at (ended (lift m s1))).
Proof.
  intros Hu Hl Hm Hp Hst. apply rtc_once. exists l, e. split; [by destruct l |]. rewrite Hst.
  destruct (m (m_node s1)) as [o n'] eqn:Hr. rewrite (run_at m0 s o n' Hu Hm).
  unfold lift. rewrite Hr, Hp. by destruct o.
Qed.

Lemma ewp_fail {A} (Q : A -> mon -> Prop) s : ewp fail Q s.
Proof.
  intros Hs Hu. assert (Hl : later c (paxos_at s) (paxos_at (stop s))).
  { apply rtc_once. exists (LCrash i), {| now := 0; need_bootstrap := false |}. split; [done |]. cbn.
    rewrite (run_at abort s None (m_node s) Hu eq_refl). cbn. unfold paxos_at, stop. cbn.
    rewrite (ok_outbox s Hs), app_nil_r. by rewrite set_outbox_nil by apply (ok_outbox s Hs). }
  split; [done |]. destruct Hs as [H1 H2 H3 H4 H5 H6 H7]. split; try done.
  by eapply later_reachable.
Qed.

Lemma ewp_require b Q s : (b = true -> Q tt s) -> ewp (require b) Q s.
Proof. intros HQ. destruct b; [by apply ewp_ret, HQ | apply ewp_fail]. Qed.

Lemma ended_ok {A} (r : option A * mon) (Q : A -> mon -> Prop) σ : later c σ (paxos_at (ended r)) -> ok (ended r) ->
  (forall a, r.1 = Some a -> up r.2 = true /\ Q a r.2) -> outcome Q σ r.
Proof. destruct r as [[a |] s]; cbn; [intros Hl Hs H; destruct (H a eq_refl); by split_and! | done]. Qed.

(** What a call into Paxos has to keep for the elector. *)
Lemma lift_ok {A} (m : M A) s o n' : reachable c (paxos_at (ended (lift m s))) -> m (m_node s) = (o, n') ->
  epoch n' = l_epoch s -> rank n' = i -> bounded (persisted_epoch s) (l_epoch s) ->
  (is_Some o -> outside n' = false -> Z.even (l_epoch s) = true /\ 0 < l_epoch s) ->
  acked_me s ⊆ ranks c -> Forall (fun e => even_victory e.2) (m_out s) ->
  ok (ended (lift m s)).
Proof.
  intros Hr Hm He Hk Hb Hev H1 H2. unfold ended, lift, l_epoch in *. rewrite Hm in *. cbn in *.
  destruct o; split; unfold l_epoch; cbn in *; rewrite ?He; try done; intros Ho _; by apply Hev.
Qed.

Lemma lift_keeps (m : M unit) (Q : unit -> mon -> Prop) σ s : keeps m -> ok s -> up s = true -> reachable c σ ->
  later c σ (paxos_at (ended (lift m s))) ->
  (forall s', electing_me s' = electing_me s -> acked_me s' = acked_me s -> Q tt s') -> outcome Q σ (lift m s).
Proof.
  intros Hk Hs Hu Hr Hlat HQ.
  destruct (m (m_node s)) as [o n'] eqn:Hm. pose proof (Hk (m_node s)) as (K1 & K2 & K3). rewrite Hm in K1, K2, K3. cbn in *.
  pose proof Hs as [S1 S2 S3 S4 S5 S6 S7]. apply ended_ok; [done | |].
  - eapply (lift_ok m s o n'); try done; [exact (later_reachable _ _ _ Hr Hlat) | by rewrite K2 |].
    intros _ Ho. unfold outside, is_probing, is_electing in Ho. destruct K3 as [[K3 _] | K3]; rewrite K3 in Ho; [by apply S5 | done].
  - intros [] _. unfold lift. rewrite Hm. split; [| by apply HQ]. unfold up in *. cbn. destruct K3 as [[-> _] | ->]; done.
Qed.

Lemma ewp_lift l e (m : M unit) Q s : keeps m -> not_restart l -> step c l e (paxos_at s) = run i m (paxos_at s) ->
  (forall s', electing_me s' = electing_me s -> acked_me s' = acked_me s -> Q tt s') -> ewp (lift m) Q s.
Proof.
  intros Hk Hl Hst HQ Hs Hu. apply lift_keeps; try done; [apply Hs |]. by apply (lift_step l e m m s s).
Qed.

Lemma ewp_bootstrap Q s : (forall s', electing_me s' = electing_me s -> acked_me s' = acked_me s -> Q tt s') ->
  ewp (reset_election ec ee) Q s.
Proof. apply (ewp_lift (LBootstrap i) (paxos_env ee)); [auto with frame | done | done]. Qed.

(** *** Epochs *)

(** The state in which [bump_epoch] calls [join_election]. *)
Definition bumped (e : Z) (s : mon) : mon :=
  set_acked_me ∅ (set_electing_me false (set_persisted_epoch e
    (set_pings (persist_connectivity_scores (with_tracker (increase_epoch e (tracker s)) (pings s))) (set_l_epoch e s)))).

Lemma bumped_node e s : m_node (bumped e s) = set_epoch e (m_node s).
Proof. reflexivity. Qed.

Lemma upd_then {A} f (m : M A) n : (upd f;; m) n = m (f n).
Proof. reflexivity. Qed.

Lemma bump_eq e s : l_epoch s <= e -> bump_epoch ec ee e s = lift (join_election c (paxos_env ee)) (bumped e s).
Proof.
  intros He. unfold bump_epoch, mbind, E_bind, this, require. apply Z.leb_le in He. rewrite He. reflexivity.
Qed.

Lemma bump_later e s : up s = true -> l_epoch s <= e ->
  later c (paxos_at s) (paxos_at (ended (lift (join_election c (paxos_env ee)) (bumped e s)))).
Proof.
  intros Hu He. apply (lift_step (LJoin i e) (paxos_env ee) (upd (set_epoch e);; join_election c (paxos_env ee))); [done | done | | done |].
  { by rewrite upd_then, bumped_node. }
  cbn [step]. rewrite node_at. cbn [mbind option_bind]. apply Z.leb_le in He. unfold l_epoch in He. rewrite He. reflexivity.
Qed.

Lemma lift_eq {A} (m : M A) s o n' : m (m_node s) = (o, n') ->
  lift m s = (o, set_m_node (set_outbox [] n') (set_m_paxos_out (m_paxos_out s ++ outbox n') s)).
Proof. unfold lift. by intros ->. Qed.

Lemma ewp_bump e Q s : (forall s', electing_me s' = false -> Q tt s') -> ewp (bump_epoch ec ee e) Q s.
Proof.
  intros HQ. apply ewp_pre. intros Hs Hu. destruct (Z.leb_spec (l_epoch s) e) as [He | He].
  2: { unfold bump_epoch. apply ewp_bind, ewp_this, ewp_bind, ewp_require. intros Hb. apply Z.leb_le in Hb. lia. }
  intros _ _. rewrite bump_eq by done. pose proof Hs as [S1 S2 S3 [S4 S4'] S5 S6 S7].
  destruct (join_election c (paxos_env ee) (m_node (bumped e s))) as [o n'] eqn:Hj.
  pose proof (join_fields _ _ _ _ _ Hj) as (J1 & J2 & J3). pose proof (bump_later e s Hu He) as Hl. apply ended_ok; [done | |].
  - eapply lift_ok; [by eapply later_reachable | exact Hj | by rewrite J1 | by rewrite J2 | unfold bounded; cbn; lia | | set_solver | done].
    intros [[] ->] Hr. unfold outside, is_probing, is_electing in Hr. by rewrite J3 in Hr.
  - rewrite (lift_eq _ _ _ _ Hj). cbn. intros [] ->. split; [| by apply HQ]. unfold up. cbn. by rewrite J3.
Qed.

Lemma set_epoch_id n : set_epoch (epoch n) n = n.
Proof. by destruct n. Qed.

Lemma ewp_join Q s : (forall s', electing_me s' = electing_me s -> acked_me s' = acked_me s -> Q tt s') ->
  ewp (notify_bump_epoch ec ee) Q s.
Proof.
  intros HQ Hs Hu. unfold notify_bump_epoch. fold c. pose proof Hs as [S1 S2 S3 S4 S5 S6 S7].
  destruct (join_election c (paxos_env ee) (m_node s)) as [o n'] eqn:Hj. pose proof (join_fields _ _ _ _ _ Hj) as (J1 & J2 & J3).
  assert (Hl : later c (paxos_at s) (paxos_at (ended (lift (join_election c (paxos_env ee)) s)))).
  { apply (lift_step (LJoin i (l_epoch s)) (paxos_env ee) (upd (set_epoch (l_epoch s));; join_election c (paxos_env ee))); try done.
    - rewrite upd_then. unfold l_epoch. by rewrite set_epoch_id.
    - cbn [step]. rewrite node_at. cbn [mbind option_bind]. unfold l_epoch. rewrite Z.leb_refl. reflexivity. }
  apply ended_ok; [done | |].
  - eapply lift_ok; [by eapply later_reachable | exact Hj | done | by rewrite J2 | done | | done | done].
    intros [[] ->] Hr. unfold outside, is_probing, is_electing in Hr. by rewrite J3 in Hr.
  - rewrite (lift_eq _ _ _ _ Hj). cbn. intros [] ->. split; [| by apply HQ]. unfold up. cbn. by rewrite J3.
Qed.

(** A monitor outside the quorum takes a new epoch. *)
Lemma ewp_epoch e (m : E unit) Q s s' : m s = (Some tt, s') -> m_node s' = set_epoch e (m_node s) ->
  m_paxos_out s' = m_paxos_out s -> acked_me s' = acked_me s -> m_out s' = m_out s ->
  outside (m_node s) = true -> l_epoch s <= e -> bounded (persisted_epoch s') e -> Q tt s' -> ewp m Q s.
Proof.
  intros Hm H1 H2 H4 H5 Ho He Hb HQ Hs Hu. pose proof Hs as [S1 S2 S3 S4 S5 S6 S7]. rewrite Hm.
  assert (Hl : later c (paxos_at s) (paxos_at s')).
  { apply rtc_once. exists (LEpoch i e), (paxos_env ee). split; [done |]. cbn. rewrite lookup_insert_eq. cbn.
    apply Z.leb_le in He. unfold l_epoch in He. rewrite Ho, He. cbn.
    rewrite (run_at (upd (set_epoch e)) s (Some tt) (set_epoch e (m_node s)) Hu eq_refl). cbn.
    rewrite set_outbox_nil by done. unfold paxos_at. by rewrite S2, app_nil_r, H1, H2. }
  split; [done |]. split; [| by unfold up in *; rewrite H1].
  split; unfold l_epoch in *; rewrite ?H1, ?H4, ?H5; try done; [by eapply later_reachable |].
  intros Hc. change (outside (m_node s) = false) in Hc. congruence.
Qed.

Lemma set_l_epoch_id s : set_l_epoch (l_epoch s) s = s.
Proof. unfold set_l_epoch, l_epoch. destruct s as [n]. cbn. by destruct n. Qed.

Lemma odd_outside s : ok s -> up s = true -> Z.even (l_epoch s) = false \/ l_epoch s = 0 -> outside (m_node s) = true.
Proof. intros Hs Hu He. destruct (outside (m_node s)) eqn:Ho; [done |]. destruct (ok_even s Hs Ho Hu). destruct He; [congruence | lia]. Qed.

Lemma ewp_init Q s : (forall s', Q tt s') -> ewp Election.init Q s.
Proof.
  intros HQ. apply ewp_pre. intros Hs Hu. pose proof Hs as [S1 S2 S3 [S4 S4'] S5 S6 S7].
  unfold Election.init. apply ewp_bind, ewp_this. destruct (Z.eqb_spec (persisted_epoch s) 0) as [Hp | Hp].
  - eapply (ewp_epoch 1); try done; cbn; [| lia | rewrite Hp; split; lia]. apply odd_outside; try done.
    assert (l_epoch s = 0 \/ l_epoch s = 1) as [-> | ->] by lia; auto.
  - assert (He : l_epoch s = persisted_epoch s) by lia. rewrite <- Z.negb_even, <- He.
    destruct (Z.even (l_epoch s)) eqn:Hev; cbn.
    + apply ewp_update; [| auto]. intros _. unfold calm. rewrite set_l_epoch_id. by split_and!.
    + eapply (ewp_epoch (l_epoch s + 1)); try done; cbn; [apply odd_outside; auto | lia | split; lia].
Qed.

(** *** Starting an election *)

(** A monitor that stands for leader has its own vote. *)
Definition mine (s : mon) : Prop := electing_me s = true -> i ∈ acked_me s.

Lemma in_ranks r : 0 <= r < monmap_size c -> r ∈ ranks c.
Proof. intros H. unfold ranks. apply elem_of_list_to_set, elem_of_seqZ. lia. Qed.

Hypothesis Hi : i ∈ ranks c.

Lemma ewp_send to m Q s : even_victory m -> (forall s', electing_me s' = electing_me s -> acked_me s' = acked_me s -> Q tt s') ->
  ewp (send_election to m) Q s.
Proof.
  intros Hm HQ. apply ewp_update; [intros []; split_and!; try done | by intros s' ->; apply HQ].
  cbn. apply Forall_app. by rewrite Forall_singleton.
Qed.

Ltac calm :=
  apply ewp_update;
    [let H := fresh "Hs" in intros H; split; [reflexivity |]; split; [reflexivity |]; split; [reflexivity |];
     split; cbn;
       lazymatch goal with
       | |- acked_me _ ⊆ _ => exact (ok_acked _ H)
       | |- ∅ ⊆ _ => apply empty_subseteq
       | |- Forall _ (m_out _) => exact (ok_out _ H)
       | |- _ => idtac
       end |
     let s' := fresh "s" in let H := fresh "Hs" in intros s' H].
Ltac step :=
  lazymatch goal with
  | |- ewp (mbind _ _) _ _ => apply ewp_bind
  | |- ewp this _ _ => apply ewp_this
  | |- ewp (update _) _ _ => calm
  | |- ewp (mret _) _ _ => apply ewp_ret
  end.

Lemma vote_ok r s : r ∈ ranks c -> ok s -> {[r]} ∪ acked_me s ⊆ ranks c.
Proof. intros Hr Hs. pose proof (ok_acked s Hs). clear Hconf Hi. set_solver. Qed.

Lemma vote_self s : ok s -> {[my_rank s]} ∪ acked_me s ⊆ ranks c.
Proof. intros Hs. apply vote_ok; [| done]. unfold my_rank. by rewrite (ok_rank s Hs). Qed.

Lemma sends_ok (l : list (Z * MMonElection)) s : ok s -> Forall (fun e => even_victory e.2) l -> Forall (fun e => even_victory e.2) (m_out s ++ l).
Proof. intros Hs Hl. apply Forall_app. split; [apply (ok_out s Hs) | done]. Qed.

Lemma ewp_start Q s : (forall s', mine s' -> Q tt s') -> mine s -> ewp (start ec ee) Q s.
Proof.
  intros HQ Hm. unfold start. apply ewp_bind, ewp_this. destruct (participating s); cbn [negb]; [| by apply ewp_ret, HQ].
  unfold clear_live_election_state, reset_stable_tracker. do 2 step. step. apply ewp_init. intros s1. do 2 step.
  match goal with |- ewp (_ ≫= ?f) _ _ => assert (Htail : forall s2, ewp (f tt) Q s2) end.
  { intros s2. do 2 step.
    { by apply vote_self. }
    apply ewp_pre. intros Hs3 _. repeat step. unfold propose_to_peers, _start, reset_timer. repeat step.
    { apply sends_ok; [done |]. apply Forall_fmap, Forall_true. by intros x. }
    apply HQ. intros _. subst. cbn. rewrite <- (ok_rank _ Hs3). set_solver. }
  apply ewp_bind, ewp_provided; intros _; [apply ewp_bump; intros; apply Htail | apply Htail].
Qed.

Lemma ewp_start_election Q s : (forall s', mine s' -> Q tt s') -> mine s -> ewp (start_election ec ee) Q s.
Proof.
  intros HQ Hm. unfold start_election. apply ewp_bind, ewp_join. intros s1 H1 H2. apply ewp_start; [done |].
  unfold mine. by rewrite H1, H2.
Qed.

Lemma ewp_defer who Q s : (forall s', mine s' -> Q tt s') -> mine s -> ewp (defer ec who) Q s.
Proof.
  intros HQ Hm. unfold defer. do 2 step. step. apply ewp_require. intros _.
  match goal with |- ewp (_ ≫= ?f) _ _ => assert (Htail : forall s2, mine s2 -> ewp (f tt) Q s2) end.
  { intros s2 Hm2. repeat step. unfold _defer_to, reset_timer. repeat step. apply ewp_send; [done |]. intros s3 H1 H2. step.
    apply HQ. unfold mine in *. subst. cbn in *. by rewrite H1, H2. }
  apply ewp_bind, ewp_provided; intros He; [| by apply Htail]. step. apply Htail. subst. by unfold mine.
Qed.
End Sim.
