(* ===== verification/MonClusterVote.v ===== *)
(** * Votes and victories

    The handlers of the elector keep its invariant and are steps of Paxos: a
    victory that is declared is one [LWin] by a majority, and one that is
    accepted is one [LLose]. *)

From stdpp Require Import strings.
From S2P Require Import Prelude MonitorDBStore Paxos PaxosSystem PaxosSim PaxosSimOps PaxosRefine PaxosThms MonFrame.
From S2P Require Import ConnectionTracker ElectorPing Election MonCluster MonClusterSim.

(** One step of a computation; what an update has to keep is left to prove
    only where the update concerns it. *)
Ltac calm :=
  apply ewp_update;
    [let H := fresh "Hs" in intros H; split; [reflexivity |]; split; [reflexivity |]; split; [reflexivity |];
     split; cbn;
       lazymatch goal with
       | |- acked_me _ ⊆ _ => exact (ok_acked _ _ _ _ _ H)
       | |- ∅ ⊆ _ => apply empty_subseteq
       | |- Forall _ (m_out _) => exact (ok_out _ _ _ _ _ H)
       | |- _ => idtac
       end |
     let s' := fresh "s" in let H := fresh "Hs" in intros s' H].
Ltac ewp_step :=
  lazymatch goal with
  | |- ewp _ _ _ _ (mbind _ _) _ _ => apply ewp_bind
  | |- ewp _ _ _ _ this _ _ => apply ewp_this
  | |- ewp _ _ _ _ (update _) _ _ => calm
  | |- ewp _ _ _ _ (mret _) _ _ => apply ewp_ret
  | |- ewp _ _ _ _ (require _) _ _ => apply ewp_require; intros ?
  | |- ewp _ _ _ _ fail _ _ => apply ewp_fail
  end.

Ltac ewp_if := match goal with |- ewp _ _ _ _ (if ?b then _ else _) _ _ => destruct b end.

Section Vote.
Context (ec : election_conf) (ee : election_env) (i : Z).
Context (N0 : gmap Z node) (T0 : gmap (Z * Z) (list MMonPaxos)).
Let c := paxos_conf ec.
Hypothesis Hconf : conf_ok c.
Hypothesis Hi : i ∈ ranks c.

Abbreviation ok := (ok ec i N0 T0).
Abbreviation ewp := (ewp ec i N0 T0).
Abbreviation outcome := (outcome ec i N0 T0).
Abbreviation paxos_at := (paxos_at i N0 T0).
Abbreviation mine := (mine i).

(** ** Taking a role *)

(** What winning and losing do to a node. *)
Definition takes_role (m : M unit) : Prop := forall n o n', m n = (o, n') ->
  epoch n' = epoch n /\ rank n' = rank n /\ (o = Some tt -> mstate n' <> MON_DOWN).

Lemma keeps_role m f : (forall n, epoch (f n) = epoch n /\ rank (f n) = rank n /\ mstate (f n) <> MON_DOWN) -> keeps m ->
  takes_role (upd f;; m).
Proof.
  intros Hf Hm n o n'. rewrite upd_then. intros Hr. pose proof (Hm (f n)) as (H1 & H2 & H3). rewrite Hr in *. cbn in *.
  destruct (Hf n) as (F1 & F2 & F3). split_and!; [congruence | congruence |]. intros _. destruct H3 as [[-> _] | ->]; done.
Qed.

Lemma win_role q md : takes_role (win_election q md).
Proof.
  intros n o n'. unfold win_election. unfold mbind at 1, M_bind at 1. cbn [self].
  unfold mbind at 1, M_bind at 1, Paxos.assert. destruct (is_electing n); [| intros [= <- <-]; by split_and!].
  apply keeps_role; [by intros |]. keeps.
Qed.

Lemma lose_role q l : takes_role (lose_election q l).
Proof. apply keeps_role; [by intros | auto with frame]. Qed.

(** A monitor outside the quorum joins and then takes its role, which is one
    step from before it joined. *)
Lemma ewp_role l m e s s1 (Q : unit -> mon -> Prop) : ok s -> up s = true -> outside (m_node s) = true -> l_epoch s <= e ->
  Z.even e = true -> 0 < e -> takes_role m -> not_restart l ->
  step c l (paxos_env ee) (paxos_at s) = run i (upd (set_epoch e);; join_election c (paxos_env ee);; m) (paxos_at s) ->
  m_node s1 = joined (set_epoch e (m_node s)) -> m_paxos_out s1 = m_paxos_out s -> persisted_epoch s1 = e ->
  acked_me s1 ⊆ ranks c -> Forall (fun x => even_victory x.2) (m_out s1) ->
  (forall s', electing_me s' = electing_me s1 -> Q tt s') -> outcome Q (paxos_at s) (lift m s1).
Proof.
  intros Hs Hu Ho Hle Hev Hpos Hrole Hl Hst H1 H2 H3 H4 H5 HQ. pose proof (wiped_fields (set_epoch e (m_node s))) as (W1 & W2 & W3 & _).
  destruct (outside_idle c _ i _ Hconf (ok_reach _ _ _ _ _ Hs) (node_at i N0 T0 s) Ho) as [Hw _].
  destruct (m (m_node s1)) as [o n'] eqn:Hm. pose proof (Hrole _ _ _ Hm) as (R1 & R2 & R3). rewrite H1 in R1, R2.
  change (epoch n' = epoch (wiped (set_epoch e (m_node s)))) in R1. change (rank n' = rank (wiped (set_epoch e (m_node s)))) in R2.
  rewrite W1 in R1. rewrite W2 in R2. cbn in R1, R2.
  assert (Hlat : later c (paxos_at s) (paxos_at (ended (lift m s1)))).
  { eapply (lift_step ec i N0 T0 l (paxos_env ee)); [done | done | | done | exact Hst].
    rewrite upd_then, H1. unfold mbind, M_bind. by rewrite join_idle. }
  apply ended_ok; [done | |].
  - assert (He : l_epoch s1 = e) by (unfold l_epoch; rewrite H1; exact W1).
    eapply lift_ok; [by eapply later_reachable, Hlat; apply Hs | exact Hm | by rewrite R1, He | rewrite R2; apply (ok_rank _ _ _ _ _ Hs) | | | done | done].
    + rewrite H3, He. split; [lia | by left].
    + by rewrite He.
  - rewrite (lift_eq _ _ _ _ Hm). cbn. intros [] ->. split; [| by apply HQ]. unfold up. cbn.
    rewrite bool_decide_eq_false_2 by auto. done.
Qed.

(** [bump_epoch] on a monitor outside the quorum. *)
Lemma bump_outside e s : ok s -> up s = true -> outside (m_node s) = true -> l_epoch s <= e ->
  exists s1, bump_epoch ec ee e s = (Some tt, s1) /\ m_node s1 = joined (set_epoch e (m_node s)) /\ m_paxos_out s1 = m_paxos_out s /\
    persisted_epoch s1 = e /\ acked_me s1 = ∅ /\ electing_me s1 = false /\ m_out s1 = m_out s.
Proof.
  intros Hs Hu Ho He. destruct (outside_idle c _ i _ Hconf (ok_reach _ _ _ _ _ Hs) (node_at i N0 T0 s) Ho) as [Hw _].
  rewrite bump_eq by done. rewrite (lift_eq _ _ _ _ (join_idle _ _ (m_node (bumped e s)) Hw)).
  pose proof (wiped_fields (set_epoch e (m_node s))) as (_ & _ & W3 & _). pose proof (ok_outbox _ _ _ _ _ Hs) as Hb.
  eexists. split; [done |]. cbn [m_node m_paxos_out persisted_epoch acked_me electing_me m_out set_m_node set_m_paxos_out]. rewrite bumped_node.
  assert (Hj : outbox (joined (set_epoch e (m_node s))) = []) by (etransitivity; [exact W3 | exact Hb]).
  rewrite Hj, app_nil_r. split_and!; try done. by apply set_outbox_nil.
Qed.

(** ** Declaring victory *)

Lemma ewp_crown q s (Q : unit -> mon -> Prop) : Z.odd (l_epoch s) = true -> majority c q = true -> i ∈ q -> q ⊆ ranks c ->
  (forall s', electing_me s' = false -> Q tt s') ->
  ewp (bump_epoch ec ee (l_epoch s + 1);; message_victory ec ee q) Q s.
Proof.
  intros Hodd Hmaj Hiq Hq HQ. apply ewp_pre. intros Hs Hu.
  assert (Ho : outside (m_node s) = true).
  { eapply odd_outside; [exact Hs | done |]. left. by rewrite <- Z.negb_odd, Hodd. }
  assert (Hev : Z.even (l_epoch s + 1) = true) by (by rewrite Z.even_add, <- Z.negb_odd, Hodd).
  pose proof (ok_bound _ _ _ _ _ Hs) as [Hb0 _].
  destruct (bump_outside (l_epoch s + 1) s Hs Hu Ho) as (s1 & Hb & H1 & H2 & H3 & H4 & H5 & H6); [lia |].
  intros _ _. destruct (quorum_info ec q s1) as [info |] eqn:Hinfo.
  2: { assert (Hf : ewp (bump_epoch ec ee (l_epoch s + 1);; fail) Q s) by (apply ewp_bind, ewp_bump; [done |]; intros; by apply ewp_fail).
       specialize (Hf Hs Hu). unfold mbind, E_bind, message_victory, this in *. rewrite Hb in *. unfold mbind, E_bind. by rewrite Hinfo. }
  set (msg (r : Z) := (r, with_victory q info (election_msg ec OP_VICTORY (l_epoch s + 1) s1))).
  assert (Hgoal : (bump_epoch ec ee (l_epoch s + 1);; message_victory ec ee q) s = lift (win_election q (metadata ee))
    (set_m_out (m_out s1 ++ map msg (filter (fun r => r <> my_rank s1) (elements q))) (set_expire_event false s1))).
  { unfold mbind, E_bind. rewrite Hb. unfold message_victory, mbind, E_bind, this. rewrite Hinfo.
    unfold cancel_timer, update, msg. assert (Hl : l_epoch s1 = l_epoch s + 1); [| rewrite <- Hl; reflexivity].
    unfold l_epoch at 1. rewrite H1. apply (wiped_fields (set_epoch (l_epoch s + 1) (m_node s))). }
  rewrite Hgoal. eapply (ewp_role (LWin i (l_epoch s + 1) q (metadata ee)) _ (l_epoch s + 1)); try done; [lia | lia | apply win_role | | | |].
  - cbn [step]. rewrite node_at. cbn [mbind option_bind]. unfold l_epoch. rewrite Ho, Hmaj, (proj2 (Z.ltb_lt _ _)) by lia.
    rewrite !bool_decide_eq_true_2 by done. reflexivity.
  - cbn. rewrite H4. apply empty_subseteq.
  - cbn. rewrite H6. apply Forall_app. split; [apply (ok_out _ _ _ _ _ Hs) |]. apply Forall_fmap, Forall_true. intros r _. done.
  - cbn. intros s' Hs'. apply HQ. by rewrite Hs'.
Qed.

Lemma ewp_declare_victory s (Q : unit -> mon -> Prop) : majority c (acked_me s) = true -> i ∈ acked_me s ->
  (forall s', mine s' -> Q tt s') -> ewp (declare_victory ec ee) Q s.
Proof.
  intros Hmaj Hiq HQ. apply ewp_pre. intros Hok _. unfold declare_victory, clear_live_election_state, reset_stable_tracker. do 16 ewp_step.
  subst. match goal with |- ewp _ _ ?x => apply (ewp_crown (acked_me s) x) end; try done; [apply (ok_acked _ _ _ _ _ Hok) |].
  intros s' Hs'. apply HQ. unfold MonClusterSim.mine. by rewrite Hs'.
Qed.

Lemma all_majority : majority c (ranks c) = true.
Proof.
  unfold majority. destruct Hconf as (Hs & _). rewrite size_ranks by done. apply Z.ltb_lt.
  apply Z.div_lt; lia.
Qed.

(** ** The handlers *)

Definition own_vote (_ : unit) (s : mon) : Prop := mine s.

Lemma mine_false s : electing_me s = false -> mine s.
Proof. unfold MonClusterSim.mine. congruence. Qed.

Lemma ewp_end_election_period s : mine s -> ewp (end_election_period ec ee) own_vote s.
Proof.
  intros Hm. unfold end_election_period. do 2 ewp_step.
  destruct (electing_me s && (paxos_size ec / 2 <? Z.of_nat (size (acked_me s)))) eqn:Hb.
  - apply andb_true_iff in Hb as [Hb1 Hb2]. apply ewp_declare_victory; [done | by apply Hm | done].
  - destruct (ever_participated ee); [by apply ewp_start |]. apply ewp_bootstrap. intros s' H1 H2. unfold own_vote, MonClusterSim.mine. by rewrite H1, H2.
Qed.

Lemma ewp_classic_prefix from mepoch s : mine s -> ewp (propose_classic_prefix ec ee from mepoch) (fun _ s' => mine s') s.
Proof.
  intros Hm. unfold propose_classic_prefix. do 2 ewp_step. destruct (l_epoch s <? mepoch).
  - ewp_step. apply ewp_bump; [done |]. intros s1 H1. ewp_step. by apply mine_false.
  - destruct (mepoch <? l_epoch s); [| by ewp_step]. ewp_step. apply ewp_provided; intros _; [| by ewp_step].
    apply ewp_start_election; [done | done | | done]. intros s1 H1. by ewp_step.
Qed.

Lemma ewp_classic from mepoch s : mine s -> ewp (propose_classic_handler ec ee from mepoch) own_vote s.
Proof.
  intros Hm. unfold propose_classic_handler. ewp_step. eapply ewp_mono; [by apply ewp_classic_prefix |]. intros b s1 Hm1.
  apply ewp_provided; intros _; [| done]. do 2 ewp_step. destruct (my_rank s1 <? from).
  - destruct (0 <=? leader_acked s1); [by ewp_step |]. apply ewp_provided; intros _; [by apply ewp_start_election | done].
  - apply ewp_provided; intros _; [by apply ewp_defer | done].
Qed.

Lemma ewp_disallow from mepoch s : mine s -> ewp (propose_disallow_handler ec ee from mepoch) own_vote s.
Proof.
  intros Hm. unfold propose_disallow_handler. ewp_step. eapply ewp_mono; [by apply ewp_classic_prefix |]. intros b s1 Hm1.
  apply ewp_provided; intros _; [| done]. do 2 ewp_step. case_match.
  - destruct (0 <=? leader_acked s1); [by ewp_step |]. apply ewp_provided; intros _; [by apply ewp_start_election | done].
  - apply ewp_provided; intros _; [by apply ewp_defer | done].
Qed.

Lemma ewp_connectivity_prefix from mepoch s : mine s -> ewp (propose_connectivity_prefix ec ee from mepoch) (fun _ s' => mine s') s.
Proof.
  intros Hm. unfold propose_connectivity_prefix, connectivity_bump_epoch_in_election, reset_stable_tracker. do 2 ewp_step.
  destruct (l_epoch s <? mepoch).
  - do 5 ewp_step. ewp_step. apply ewp_bump; [done |]. intros s1 H1. do 4 ewp_step. apply ewp_provided; intros _.
    + do 2 ewp_step. apply mine_false. by subst.
    + ewp_step. apply mine_false. by subst.
  - destruct (mepoch <? l_epoch s); [| by ewp_step]. ewp_step. apply ewp_provided; intros _; [| by ewp_step].
    apply ewp_start_election; [done | done | | done]. intros s1 H1. by ewp_step.
Qed.

Lemma ewp_defer_tracking from ct s : mine s -> ewp (defer ec from;; update (set_leader_peer_tracker (Some ct))) own_vote s.
Proof. intros Hm. ewp_step. apply ewp_defer; [| done]. intros s1 H1. ewp_step. by subst. Qed.

Lemma ewp_connectivity_vote from ct s : mine s -> ewp (connectivity_vote ec ee from ct) own_vote s.
Proof.
  intros Hm. unfold connectivity_vote, switch_leader. do 2 ewp_step. ewp_if.
  { destruct (0 <=? leader_acked s); [by ewp_step |]. apply ewp_provided; intros _; [by apply ewp_start_election | done]. }
  ewp_if; [| by ewp_step]. destruct ct as [ct |]; [| ewp_step]. ewp_if; [| by apply ewp_defer_tracking].
  do 2 ewp_step. destruct (leader_peer_tracker s); [| ewp_step]. ewp_if; [by apply ewp_defer_tracking |].
  apply ewp_provided; intros _; [| done]. ewp_step. apply ewp_bump; [done |]. intros s1 H1. apply ewp_start; try done. by apply mine_false.
Qed.

Lemma ewp_receive_propose from mepoch ct s : mine s -> ewp (receive_propose ec ee from mepoch ct) own_vote s.
Proof.
  intros Hm. unfold receive_propose. do 2 ewp_step. destruct (from =? my_rank s); [by ewp_step |].
  destruct (strategy s); [by apply ewp_classic | by apply ewp_disallow |].
  unfold propose_connectivity_handler. do 2 ewp_step. apply ewp_provided; intros _; [| done]. ewp_step.
  eapply ewp_mono; [by apply ewp_connectivity_prefix |]. intros b s1 Hm1. apply ewp_provided; intros _; [| done]. by apply ewp_connectivity_vote.
Qed.

Lemma ewp_handle_propose from m s : mine s -> ewp (handle_propose ec ee from m) own_vote s.
Proof.
  intros Hm. unfold handle_propose, nak_old_peer. do 2 ewp_step.
  assert (Hnak : forall s1 (Q : unit -> mon -> Prop), mine s1 -> (forall s', mine s' -> Q tt s') ->
    ewp (nak_old_peer ec from m) Q s1).
  { intros s1 Q H1 HQ. unfold nak_old_peer. do 2 ewp_step. apply ewp_send; [done |]. intros s2 E1 E2. apply HQ.
    unfold MonClusterSim.mine in *. by rewrite E1, E2. }
  ewp_if; [by apply Hnak |]. ewp_if; [by apply Hnak |]. ewp_step.
  apply ewp_provided; intros _; [apply Hnak; [done |]; intros s1 H1 |]; by apply ewp_receive_propose.
Qed.

(** A vote from every monitor is a victory. *)
Lemma ewp_receive_ack from e s : from ∈ ranks c -> mine s -> ewp (receive_ack ec ee from e) own_vote s.
Proof.
  intros Hf Hm. unfold receive_ack. do 4 ewp_step. destruct (l_epoch s <? e).
  { ewp_step. apply ewp_bump; [done |]. intros s1 H1. apply ewp_start; try done. by apply mine_false. }
  destruct (electing_me s) eqn:Hel; [| by ewp_step]. do 2 ewp_step.
  { by eapply vote_ok. }
  do 2 ewp_step. assert (Hm0 : mine s0) by (subst; intros _; cbn; specialize (Hm Hel); set_solver).
  apply ewp_provided; intros Hsz; [| done]. apply ewp_declare_victory; [| apply Hm0; by subst | done].
  unfold majority. apply Z.eqb_eq in Hsz. rewrite Hsz. apply Z.ltb_lt. destruct Hconf as (Hc & _). apply Z.div_lt; unfold paxos_size; fold c; lia.
Qed.

Lemma ewp_handle_ack from m s : from ∈ ranks c -> mine s -> ewp (handle_ack ec ee from m) own_vote s.
Proof.
  intros Hf Hm. unfold handle_ack. do 4 ewp_step. ewp_if; [by ewp_step |]. ewp_if; [by ewp_step |]. ewp_step.
  apply ewp_provided; intros _; [| by apply ewp_receive_ack]. do 5 ewp_step. apply ewp_receive_ack; [done |]. by subst.
Qed.

Lemma ewp_follow q e from s : Z.even e = true -> e = l_epoch s + 1 ->
  ewp ((bump_epoch ec ee e;; mret true) ≫= fun accept : bool => provided accept (lift (lose_election q from);; cancel_timer)) own_vote s.
Proof.
  intros Hev He. apply ewp_pre. intros Hs Hu. pose proof (ok_bound _ _ _ _ _ Hs) as [Hb0 _].
  assert (Ho : outside (m_node s) = true).
  { eapply odd_outside; [exact Hs | done |]. left. rewrite He, Z.even_add in Hev. by destruct (Z.even (l_epoch s)). }
  destruct (bump_outside e s Hs Hu Ho) as (s1 & Hb & H1 & H2 & H3 & H4 & H5 & H6); [lia |].
  intros _ _. unfold mbind at 1, E_bind at 1, mbind at 1, E_bind at 1. rewrite Hb. apply outcome_bind.
  eapply (ewp_role (LLose i e q from) _ e); try done; [lia | lia | apply lose_role | | | |].
  - cbn [step]. rewrite node_at. cbn [mbind option_bind]. unfold l_epoch in *. rewrite Ho, (proj2 (Z.ltb_lt _ _)) by lia. reflexivity.
  - rewrite H4. apply empty_subseteq.
  - rewrite H6. apply (ok_out _ _ _ _ _ Hs).
  - intros s2 Hs2. unfold cancel_timer. ewp_step. apply mine_false. subst. cbn. congruence.
Qed.

(** A claim of victory restarts the election, or is accepted. *)
Lemma ewp_handle_victory from m s : even_victory m -> em_op m = OP_VICTORY -> mine s -> ewp (handle_victory ec ee from m) own_vote s.
Proof.
  intros Hev Hop Hm. specialize (Hev Hop). apply ewp_pre. intros Hs Hu. unfold handle_victory, receive_victory_claim.
  set (okay := victory_makes_sense from s). set (lose (accept : bool) := provided accept (lift (lose_election (em_quorum m) from);; cancel_timer)).
  assert (Hre : forall s1, mine s1 -> ewp ((bump_epoch ec ee (em_epoch m);; start ec ee;; mret false) ≫= lose) own_vote s1).
  { intros s1 H1. do 2 ewp_step. apply ewp_bump; [done |]. intros s2 H2. ewp_step. apply ewp_start; [done | done | | by apply mine_false].
    intros s3 H3. ewp_step. by apply ewp_ret. }
  unfold clear_live_election_state, reset_stable_tracker. apply ewp_assoc. do 2 ewp_step. apply ewp_assoc. do 2 ewp_step. apply ewp_assoc.
  do 6 ewp_step. apply ewp_assoc. do 2 ewp_step. fold okay.
  match goal with |- ewp _ _ ?x => assert (Hx : mine x /\ m_node x = m_node s) by (subst; split; [by intros ? | done]) end.
  destruct Hx as [Hmx Hnx]. destruct okay; cbn [negb]; [| apply ewp_assoc; do 2 ewp_step; by apply Hre].
  destruct (Z.eqb_spec (em_epoch m) (l_epoch s3 + 1)) as [He |]; cbn [negb]; [| by apply Hre]. by apply ewp_follow.
Qed.

Lemma ewp_dispatch from m s : 0 <= from -> even_victory m -> mine s -> ewp (election_dispatch ec ee from m) own_vote s.
Proof.
  intros Hf Hev Hm. unfold election_dispatch. do 2 ewp_step. ewp_if; [by ewp_step |]. unfold elector_dispatch. do 2 ewp_step.
  ewp_if; [by ewp_step |]. destruct (Z.leb_spec (paxos_size ec) from) as [| Hlt]; [by ewp_step |]. ewp_if; [by ewp_step |].
  do 2 ewp_step. assert (Hr : from ∈ ranks c) by (apply in_ranks; done). assert (Hm0 : mine s0) by (by subst).
  destruct (em_op m) eqn:Hop; [by apply ewp_handle_propose | do 2 ewp_step; ewp_if; [by ewp_step |] ..].
  - by apply ewp_handle_ack.
  - apply ewp_fail.
  - by apply ewp_handle_victory.
Qed.

Lemma ewp_expire s : mine s -> ewp (election_expire ec ee) own_vote s.
Proof. intros Hm. unfold election_expire, cancel_timer. do 2 ewp_step. apply ewp_end_election_period. by subst. Qed.

Lemma ewp_set_disallowed dl allow s : mine s -> ewp (set_elector_disallowed_leaders ec ee dl allow) own_vote s.
Proof.
  intros Hm. unfold set_elector_disallowed_leaders. do 4 ewp_step.
  apply ewp_provided; intros _; [apply ewp_start; try done |]; by subst.
Qed.

Lemma ewp_enter s : mine s -> ewp (quorum_enter ec ee) own_vote s.
Proof. intros Hm. unfold quorum_enter. do 2 ewp_step. apply ewp_start_election; try done. by subst. Qed.

Lemma ewp_exit s : mine s -> ewp (quorum_exit ec ee) own_vote s.
Proof.
  intros Hm. unfold quorum_exit. ewp_step. apply ewp_start_election; [done | done | | done]. intros s1 H1. ewp_step. by subst.
Qed.

Lemma ewp_ping p s : mine s -> ewp (run_ping ec p ee) own_vote s.
Proof. intros Hm. unfold run_ping. do 2 ewp_step. destruct (ping_step ec p ee (pings s)); ewp_step. by subst. Qed.
End Vote.
