(* ===== verification/MonClusterRefine.v ===== *)
(** * Elections implement what Paxos assumes

    Every run of the monitors with their electors ([MonCluster.v]) is, seen from
    Paxos, a run of [PaxosSystem.v]: the elector raises epochs only upwards, a
    leader is outside any quorum before it wins, and its quorum is a majority it
    belongs to.  The one difference is a monitor that has been restarted and has
    not read its epoch from the disk yet ([unread]). *)

From stdpp Require Import strings.
From S2P Require Import Prelude MonitorDBStore Paxos PaxosSystem PaxosSim PaxosSimOps PaxosRefine PaxosThms MonFrame.
From S2P Require Import ConnectionTracker ElectorPing Election MonCluster MonClusterSim MonClusterVote.

(** ** The relation *)

(** A process that has not read its epoch. *)
Record unread (x : mon) : Prop := {
  u_epoch : epoch (m_node x) = 0;
  u_mstate : mstate (m_node x) = MON_PROBING \/ mstate (m_node x) = MON_DOWN;
  u_part : participating x = true;
  u_expire : expire_event x = false;
  u_electing : electing_me x = false;
  u_timers : forall t, timer_armed t (m_node x) = false;
  u_state : state (m_node x) = STATE_RECOVERING
}.

Section Refine.
Context (ec : election_conf).
Let c := paxos_conf ec.
Hypothesis Hconf : conf_ok c.

(** A process that has read its epoch. *)
Record live (i : Z) (x : mon) : Prop := {
  l_bound : bounded (persisted_epoch x) (l_epoch x);
  l_even : outside (m_node x) = false -> up x = true -> Z.even (l_epoch x) = true /\ 0 < l_epoch x;
  l_mine : up x = true -> mine i x
}.

Record mon_rel (i : Z) (x : mon) (n : node) : Prop := {
  mr_rank : rank (m_node x) = i;
  mr_in : i ∈ ranks c;
  mr_outbox : outbox (m_node x) = [];
  mr_sent : sent x = x;
  mr_acked : acked_me x ⊆ ranks c;
  mr_node : n = m_node x /\ live i x \/ unread x /\ exists ep, n = set_epoch ep (m_node x) /\ bounded (persisted_epoch x) ep
}.

Record crel (s : cluster) (σ : sys) : Prop := {
  cr_mons : forall i, option_Forall2 (mon_rel i) (mons s !! i) (nodes σ !! i);
  cr_net : net σ = paxos_net s;
  cr_elect : forall i j, Forall (fun m => even_victory m /\ 0 <= i) (echan s i j)
}.

Lemma sent_node n x : sent x = x -> sent (set_m_node n x) = set_m_node n x.
Proof. intros H. rewrite <- H. done. Qed.

(** ** Updating one monitor *)

Lemma epost_lookup i out nt x y :
  default [] (epost i out nt !! (x, y)) = default [] (nt !! (x, y)) ++ (if decide (x = i) then map snd (filter (fun e => e.1 = y) out) else []).
Proof.
  revert nt. induction out as [| [to m] out IH]; intros nt.
  { cbn. case_decide; by rewrite app_nil_r. }
  change (epost i ((to, m) :: out) nt) with (epost i out (<[(i, to) := default [] (nt !! (i, to)) ++ [m]]> nt)).
  rewrite IH, filter_cons. cbn [fst]. case_decide as Hx; [subst x |].
  - case_decide as Hy; [subst to |].
    + rewrite lookup_insert_eq. cbn. by rewrite <- app_assoc.
    + by rewrite lookup_insert_ne by congruence.
  - by rewrite lookup_insert_ne by congruence.
Qed.

Lemma crel_put s σ i x' n' nt : crel s σ -> mon_rel i (sent x') n' -> Forall (fun e => even_victory e.2) (m_out x') ->
  crel (Cluster (<[i := sent x']> (mons s)) nt (epost i (m_out x') (elect_net s))) (Sys (<[i := n']> (nodes σ)) nt).
Proof.
  intros [H1 H2 H3] Hx Hout. split; [| done |]; cbn.
  - intros j. destruct (decide (j = i)) as [-> |]; [rewrite !lookup_insert_eq; by constructor | by rewrite !lookup_insert_ne].
  - intros a b. unfold echan. cbn. rewrite epost_lookup. apply Forall_app. split; [apply H3 |]. case_decide as Ha; [| done]. subst a.
    apply Forall_fmap, Forall_forall. intros e [_ He]%list_elem_of_filter. rewrite Forall_forall in Hout. split; [by apply Hout |].
    pose proof (mr_in _ _ _ Hx) as Hi. unfold ranks in Hi. apply elem_of_list_to_set, elem_of_seqZ in Hi. lia.
Qed.

(** ** A monitor that has read its epoch *)

Section Live.
Context (s : cluster) (σ : sys) (i : Z) (x : mon).
Hypothesis Hrel : crel s σ.
Hypothesis Hreach : reachable c σ.
Hypothesis Hx : mons s !! i = Some x.
Hypothesis Hmr : mon_rel i x (m_node x).
Hypothesis Hlive : live i x.
Hypothesis Hn : nodes σ !! i = Some (m_node x).

Lemma live_at T : paxos_at i (nodes σ) T x = Sys (nodes σ) T.
Proof.
  unfold paxos_at, sigma. rewrite insert_id by done. f_equal. rewrite <- (mr_sent _ _ _ Hmr). done.
Qed.

Lemma live_ok T : reachable c (Sys (nodes σ) T) -> ok ec i (nodes σ) T x.
Proof.
  intros Hr. destruct Hmr as [R1 R2 R3 R4 R5 _], Hlive as [L1 L2 L3]. split; try done; [by rewrite live_at |].
  rewrite <- R4. constructor.
Qed.

Lemma live_outcome T r σ0 : outcome ec i (nodes σ) T (own_vote i) σ0 r ->
  exists σ', later c σ0 σ' /\
    crel (Cluster (<[i := sent (ended r)]> (mons s)) (post i (m_paxos_out (ended r)) T) (epost i (m_out (ended r)) (elect_net s))) σ'.
Proof.
  intros Ho. exists (paxos_at i (nodes σ) T (ended r)).
  assert (H : later c σ0 (paxos_at i (nodes σ) T (ended r)) /\ ok ec i (nodes σ) T (ended r) /\ (up (ended r) = true -> mine i (ended r))).
  { destruct r as [[[] |] x']; cbn in Ho |- *.
    - destruct Ho as (Hl & Hok & Hu & Hq). by split_and!.
    - destruct Ho as [Hl Hok]. by split_and!. }
  destruct H as (Hl & [K1 K2 K3 K4 K5 K6 K7] & Hm). split; [done |]. apply crel_put; [done | | done].
  pose proof (mr_in _ _ _ Hmr). split; try done. left. split; [done |]. by split.
Qed.

Lemma live_run m s' : ewp ec i (nodes σ) (paxos_net s) m (own_vote i) x -> crun i m s = Some s' ->
  exists σ', later c σ σ' /\ crel s' σ'.
Proof.
  intros Hm. unfold crun. rewrite Hx. cbn. destruct (up x) eqn:Hu; [| done]. intros [= <-].
  assert (Hs : Sys (nodes σ) (paxos_net s) = σ) by (rewrite <- (cr_net _ _ Hrel); by destruct σ).
  apply live_outcome. rewrite <- Hs at 2. rewrite <- live_at. apply Hm; [| done]. apply live_ok. by rewrite Hs.
Qed.

Lemma live_mine m : (up x = true -> mine i x -> ewp ec i (nodes σ) (paxos_net s) m (own_vote i) x) ->
  ewp ec i (nodes σ) (paxos_net s) m (own_vote i) x.
Proof. intros H. apply ewp_pre. intros _ Hu. apply H; [done |]. by apply (l_mine _ _ Hlive). Qed.

Lemma still_mine s1 : mine i x -> electing_me s1 = electing_me x -> acked_me s1 = acked_me x -> own_vote i tt s1.
Proof. unfold own_vote, mine. by intros H -> ->. Qed.

Lemma live_lift l e m s' : keeps m -> not_restart l ->
  step c l e (paxos_at i (nodes σ) (paxos_net s) x) = run i m (paxos_at i (nodes σ) (paxos_net s) x) ->
  crun i (lift m) s = Some s' -> exists σ', later c σ σ' /\ crel s' σ'.
Proof.
  intros Hk Hl Hst. apply live_run, live_mine. intros Hu Hm. apply (ewp_lift ec i _ _ l e); [done | done | done |].
  intros s1. by apply still_mine.
Qed.

Lemma live_deliver e from m q s' : default [] (paxos_net s !! (from, i)) = m :: q ->
  crun i (lift (monitor_dispatch c e from m)) (Cluster (mons s) (<[(from, i) := q]> (paxos_net s)) (elect_net s)) = Some s' ->
  exists σ', later c σ σ' /\ crel s' σ'.
Proof.
  intros Hq. unfold crun. cbn. rewrite Hx. cbn. destruct (up x) eqn:Hu; [| done]. intros [= <-].
  assert (Hch : chan σ from i = m :: q) by (unfold chan; by rewrite (cr_net _ _ Hrel)).
  set (T := <[(from, i) := q]> (paxos_net s)).
  assert (Hr : reachable c (Sys (nodes σ) T)).
  { eapply (reachable_step c (LDrop from i 0) e σ); [done | done |]. cbn. by rewrite Hch, (cr_net _ _ Hrel). }
  assert (Hl : later c σ (paxos_at i (nodes σ) T (ended (lift (monitor_dispatch c e from m) x)))).
  { apply rtc_once. exists (LDeliver from i), e. split; [done |]. cbn [step]. rewrite Hch, (cr_net _ _ Hrel). fold T. rewrite <- (live_at T).
    destruct (monitor_dispatch c e from m (m_node x)) as [o n'] eqn:Hm. rewrite (run_at i (nodes σ) T _ x o n' Hu Hm).
    rewrite (lift_eq _ _ _ _ Hm). by destruct o. }
  apply live_outcome. apply lift_keeps; try done; [auto with frame | by apply live_ok |].
  intros s1. apply still_mine. by apply (l_mine _ _ Hlive).
Qed.
End Live.

(** ** A monitor that has not *)

Section Unread.
Context (s : cluster) (σ : sys) (i : Z) (x : mon) (ep : Z).
Hypothesis Hrel : crel s σ.
Hypothesis Hreach : reachable c σ.
Hypothesis Hx : mons s !! i = Some x.
Hypothesis Hmr : mon_rel i x (set_epoch ep (m_node x)).
Hypothesis Hun : unread x.
Hypothesis Hn : nodes σ !! i = Some (set_epoch ep (m_node x)).
Hypothesis Hb : bounded (persisted_epoch x) ep.

Lemma unread_probing : up x = true -> mstate (m_node x) = MON_PROBING.
Proof. intros Hu. unfold up in Hu. destruct (u_mstate _ Hun) as [| Hd]; [done |]. by rewrite Hd in Hu. Qed.

Lemma unread_idle : up x = true -> writing (m_node x) = false /\ io_queue (m_node x) = [].
Proof.
  intros Hu. apply (outside_idle c σ i (set_epoch ep (m_node x)) Hconf Hreach Hn).
  unfold outside, is_probing. cbn. by rewrite unread_probing.
Qed.

(** The node is all that changes, and the monitor has still not read its epoch. *)
Lemma unread_node n1 nt : unread (set_m_node n1 x) -> rank n1 = i -> outbox n1 = [] -> 
  crel (Cluster (<[i := set_m_node n1 x]> (mons s)) nt (elect_net s)) (Sys (<[i := set_epoch ep n1]> (nodes σ)) nt).
Proof.
  intros Hu Hr Ho. assert (Hout : m_out x = []) by (by rewrite <- (mr_sent _ _ _ Hmr)).
  assert (Hs : sent (set_m_node n1 x) = set_m_node n1 x) by (apply sent_node, Hmr).
  pose proof (crel_put s σ i (set_m_node n1 x) (set_epoch ep n1) nt Hrel) as H. rewrite Hs in H. cbn in H. rewrite Hout in H. apply H; [| done].
  destruct Hmr as [R1 R2 R3 R4 R5 _]. split; try done. right. split; [done |]. by exists ep.
Qed.

Lemma crun_node m n1 o s' : up x = true -> m x = (o, set_m_node n1 x) -> crun i m s = Some s' ->
  s' = Cluster (<[i := set_m_node (match o with Some _ => n1 | None => set_mstate MON_DOWN n1 end) x]> (mons s)) (paxos_net s) (elect_net s).
Proof.
  intros Hu Hm. unfold crun. rewrite Hx. cbn. rewrite Hu, Hm. intros [= <-].
  assert (Hs : m_out x = [] /\ m_paxos_out x = []) by (split; by rewrite <- (mr_sent _ _ _ Hmr)).
  assert (Hs2 : forall k, sent (set_m_node k x) = set_m_node k x) by (intros k; apply sent_node, Hmr).
  destruct Hs as [H1 H2]. destruct o; cbn; unfold ended, stop; cbn; rewrite ?H1, ?H2.
  - by rewrite Hs2.
  - change (set_m_node (set_mstate MON_DOWN n1) (set_m_node n1 x)) with (set_m_node (set_mstate MON_DOWN n1) x). by rewrite Hs2.
Qed.

(** A step that Paxos takes with either epoch. *)
Lemma unread_run l e m0 (m : E unit) o n1 s' : m x = (o, set_m_node n1 x) -> not_restart l ->
  step c l e σ = run i m0 σ -> m0 (set_epoch ep (m_node x)) = (o, set_epoch ep n1) ->
  outbox n1 = [] -> rank n1 = i -> unread (set_m_node (match o with Some _ => n1 | None => set_mstate MON_DOWN n1 end) x) ->
  crun i m s = Some s' -> exists σ', later c σ σ' /\ crel s' σ'.
Proof.
  intros Hm Hl Hst H0 Ho Hr Hu' Hc. assert (Hu : up x = true) by (unfold crun in Hc; rewrite Hx in Hc; cbn in Hc; by destruct (up x)).
  rewrite (crun_node _ _ _ _ Hu Hm Hc). set (n2 := match o with Some _ => n1 | None => set_mstate MON_DOWN n1 end) in *.
  exists (Sys (<[i := set_epoch ep n2]> (nodes σ)) (paxos_net s)). split.
  - apply rtc_once. exists l, e. split; [by destruct l |]. rewrite Hst. unfold run. rewrite Hn. cbn.
    rewrite bool_decide_eq_false_2 by (by rewrite unread_probing). rewrite H0. rewrite (cr_net _ _ Hrel).
    assert (Hob : outbox (set_epoch ep n2) = []) by (by subst n2; destruct o).
    replace (match o with Some _ => set_epoch ep n1 | None => set_mstate MON_DOWN (set_epoch ep n1) end) with (set_epoch ep n2) by (by subst n2; destruct o).
    rewrite set_outbox_nil by done. by rewrite Hob.
  - apply unread_node; [done | |]; subst n2; by destruct o.
Qed.

Lemma set_m_node_id : set_m_node (m_node x) x = x.
Proof. by destruct x. Qed.

Lemma set_mon_id y : mons s !! i = Some y -> Cluster (<[i := y]> (mons s)) (paxos_net s) (elect_net s) = s.
Proof. intros Hy. rewrite insert_id by done. by destruct s. Qed.

Lemma crun_up m s' : crun i m s = Some s' -> up x = true.
Proof. unfold crun. rewrite Hx. cbn. by destruct (up x). Qed.

Lemma unread_noop m s' : m x = (Some tt, x) -> crun i m s = Some s' -> exists σ', later c σ σ' /\ crel s' σ'.
Proof.
  intros Hm Hc. rewrite <- set_m_node_id in Hm at 2. rewrite (crun_node m _ _ s' (crun_up _ _ Hc) Hm Hc).
  rewrite set_m_node_id, set_mon_id by done. exists σ. split; [apply rtc_refl | done].
Qed.

Lemma unread_down : unread (set_m_node (set_mstate MON_DOWN (m_node x)) x).
Proof. destruct Hun. split; try done. by right. Qed.

Lemma unread_fail m s' : m x = (None, x) -> crun i m s = Some s' -> exists σ', later c σ σ' /\ crel s' σ'.
Proof.
  intros Hm. rewrite <- set_m_node_id in Hm at 2.
  apply (unread_run (LCrash i) {| now := 0; need_bootstrap := false |} abort m None (m_node x)); try done; try apply Hmr. apply unread_down.
Qed.

Lemma unread_lift (m : M unit) o n1 : m (m_node x) = (o, n1) -> outbox n1 = [] -> lift m x = (o, set_m_node n1 x).
Proof.
  intros Hm Ho. rewrite (lift_eq _ _ _ _ Hm), Ho, set_outbox_nil by done. rewrite <- (mr_sent _ _ _ Hmr) at 3. 
  rewrite <- (mr_sent _ _ _ Hmr). done.
Qed.

Lemma unread_lift_run l e (m : M unit) o n1 s' : not_restart l -> step c l e σ = run i m σ ->
  m (m_node x) = (o, n1) -> m (set_epoch ep (m_node x)) = (o, set_epoch ep n1) -> outbox n1 = [] -> rank n1 = i ->
  unread (set_m_node (match o with Some _ => n1 | None => set_mstate MON_DOWN n1 end) x) ->
  crun i (lift m) s = Some s' -> exists σ', later c σ σ' /\ crel s' σ'.
Proof. intros Hl Hst H1 H2 Ho Hr Hu. apply (unread_run l e m _ o n1); try done. by apply unread_lift. Qed.

Lemma unread_wiped : unread (set_m_node (wiped (set_mstate MON_PROBING (m_node x))) x).
Proof.
  pose proof (wiped_fields (set_mstate MON_PROBING (m_node x))) as (W1 & W2 & W3 & W4 & W5 & W6). destruct Hun.
  split; cbn -[wiped]; try done; [by rewrite W1 | left; by rewrite W4].
Qed.

Lemma unread_bootstrap e s' : crun i (lift (bootstrap c e)) s = Some s' -> exists σ', later c σ σ' /\ crel s' σ'.
Proof.
  intros Hc. destruct (unread_idle (crun_up _ _ Hc)) as [Hw _].
  pose proof (wiped_fields (set_mstate MON_PROBING (m_node x))) as (W1 & W2 & W3 & _).
  revert Hc. apply (unread_lift_run (LBootstrap i) e _ (Some tt) (wiped (set_mstate MON_PROBING (m_node x)))); try done.
  - by apply bootstrap_idle.
  - rewrite <- wiped_epoch. by apply (bootstrap_idle c e (set_epoch ep (m_node x))).
  - rewrite W3. apply Hmr.
  - rewrite W2. apply Hmr.
  - apply unread_wiped.
Qed.

Lemma crun_ext m m' : m x = m' x -> crun i m s = crun i m' s.
Proof. intros Hm. unfold crun. rewrite Hx. cbn. by rewrite Hm. Qed.

Lemma lift_noop (m : M unit) : m (m_node x) = (Some tt, m_node x) -> lift m x = (Some tt, x).
Proof. intros Hm. rewrite (unread_lift m (Some tt) (m_node x)), set_m_node_id; [done | done | apply Hmr]. Qed.

Lemma unread_dispatch e from m s' : crun i (lift (monitor_dispatch c e from m)) s = Some s' -> exists σ', later c σ σ' /\ crel s' σ'.
Proof.
  intros Hc. pose proof (unread_probing (crun_up _ _ Hc)) as Hp. destruct (epoch (m_node x) <? m_epoch m) eqn:He.
  - rewrite (crun_ext _ (lift (bootstrap c e))) in Hc; [by eapply unread_bootstrap |].
    unfold lift, monitor_dispatch, mbind, M_bind, self. by rewrite He.
  - revert Hc. apply unread_noop, lift_noop. unfold monitor_dispatch, mbind, M_bind, self. rewrite He.
    destruct (negb _); [done |]. unfold dispatch, mbind, M_bind, self, is_leader, is_peon. by rewrite Hp.
Qed.

Lemma unread_paxos l ee s' : not_restart l -> (forall from to, l <> LDeliver from to) -> (forall from to k, l <> LDrop from to k) ->
  (match l with
   | LTimer j _ | LApply j | LComplete j | LPropose j _ _ | LTrigger j | LPlug j _ | LCrash j | LBootstrap j => j
   | _ => i
   end = i) -> paxos_event ec l ee s = Some s' -> exists σ', later c σ σ' /\ crel s' σ'.
Proof.
  intros Hl Hd Hdr Ht. destruct l as [| | | | | | j | j t | j | j | j t f | j | j b | j | j]; cbn [paxos_event] in *; try done;
    try (by exfalso; eapply Hd); try (by exfalso; eapply Hdr); subst j.
  - apply unread_bootstrap.
  - rewrite Hx. cbn. by rewrite (u_timers _ Hun).
  - intros Hc. destruct (unread_idle (crun_up _ _ Hc)) as [_ Hq]. revert Hc. apply unread_noop, lift_noop.
    unfold io_apply, mbind, M_bind, self. by rewrite Hq.
  - intros Hc. destruct (unread_idle (crun_up _ _ Hc)) as [_ Hq]. revert Hc. apply unread_noop, lift_noop.
    unfold io_complete, mbind, M_bind, self. by rewrite Hq.
  - unfold check. destruct (service_tx t && service_finisher f); [| done]. cbn [mbind option_bind]. intros Hc.
    pose proof (unread_probing (crun_up _ _ Hc)) as Hp. revert Hc. apply unread_fail. rewrite <- set_m_node_id at 2. apply unread_lift; [| apply Hmr].
    unfold propose, get_pending_transaction, mbind, M_bind, self, is_leader. by rewrite Hp.
  - apply unread_noop, lift_noop. unfold trigger_propose, mbind, M_bind, self, is_active. destruct (plugged (m_node x)); [done |].
    by rewrite (u_state _ Hun).
  - destruct Hun, Hmr as [R1 R2 R3 R4 R5 _]. assert (Hpl : exists o n1, (if b then plug else unplug) (m_node x) = (o, n1) /\
      (if b then plug else unplug) (set_epoch ep (m_node x)) = (o, set_epoch ep n1) /\ (n1 = m_node x \/ n1 = set_plugged b (m_node x))).
    { unfold plug, unplug, mbind, M_bind, self, Paxos.assert, mret, M_ret, abort, upd.
      destruct b, (plugged (m_node x)) eqn:Hp; cbn; rewrite ?Hp; cbn; eexists _, _; (split; [reflexivity |]); (split; [reflexivity |]); auto. }
    destruct Hpl as (o & n1 & H1 & H2 & H3).
    apply (unread_lift_run (LPlug i b) (paxos_env ee) _ o n1); try done; [by destruct H3; subst n1 | by destruct H3; subst n1 |].
    destruct H3; subst n1; destruct o; split; try done; by right.
  - by apply unread_fail.
Qed.

(** *** Reading the epoch *)

Abbreviation woken := (set_l_epoch ep x).

Lemma wake_rel : mon_rel i woken (m_node woken) /\ live i woken.
Proof.
  destruct Hmr as [R1 R2 R3 R4 R5 _], Hun. assert (Hl : live i woken).
  { split; [done | |].
    - intros Ho Hu. change (outside (m_node x) = false) in Ho. unfold outside, is_probing in Ho. by rewrite unread_probing in Ho.
    - intros _ He. cbn in He. congruence. }
  split; [| done]. split; try done; [| by left]. by apply sent_node.
Qed.

Lemma wake_run m s' : m x = m woken -> (mine i woken -> ewp ec i (nodes σ) (paxos_net s) m (own_vote i) woken) ->
  crun i m s = Some s' -> exists σ', later c σ σ' /\ crel s' σ'.
Proof.
  intros Hm Hw Hc. destruct wake_rel as [Hr Hl]. set (s1 := Cluster (<[i := woken]> (mons s)) (paxos_net s) (elect_net s)).
  assert (Hrel1 : crel s1 σ).
  { destruct Hrel as [H1 H2 H3]. split; [| done | done]. cbn. intros j. destruct (decide (j = i)) as [-> |].
    - rewrite lookup_insert_eq, Hn. by constructor.
    - by rewrite lookup_insert_ne. }
  eapply (live_run s1 σ i woken Hrel1 Hreach); try done; [by cbn; rewrite lookup_insert_eq | |].
  - apply Hw. intros He. cbn in He. by rewrite (u_electing _ Hun) in He.
  - unfold crun in *. rewrite Hx in Hc. cbn in Hc |- *. rewrite lookup_insert_eq. cbn. change (up woken) with (up x).
    destruct (up x); [| done]. rewrite <- Hm, insert_insert_eq. done.
Qed.

Lemma start_wakes ee y e : participating y = true -> start ec ee (set_l_epoch e y) = start ec ee y.
Proof.
  intros Hp. unfold start, mbind, E_bind, this, update. cbn [participating set_l_epoch set_m_node]. rewrite Hp. cbn [negb].
  assert (Hi : forall z, Election.init (set_l_epoch e z) = Election.init z).
  { intros z. unfold Election.init, mbind, E_bind, this. cbn [persisted_epoch set_l_epoch set_m_node]. by destruct (persisted_epoch z =? 0), (Z.odd (persisted_epoch z)). }
  change (set_acked_me ∅ (set_l_epoch e y)) with (set_l_epoch e (set_acked_me ∅ y)). by rewrite Hi.
Qed.

Lemma start_election_wakes ee y : writing (m_node y) = false -> participating y = true ->
  start_election ec ee (set_l_epoch ep y) = start_election ec ee y.
Proof.
  intros Hw Hp. set (J := join_election (paxos_conf ec) (paxos_env ee)).
  pose proof (join_idle (paxos_conf ec) (paxos_env ee) _ Hw : J (m_node y) = _) as H1.
  pose proof (join_idle (paxos_conf ec) (paxos_env ee) (set_epoch ep (m_node y)) Hw : J (set_epoch ep (m_node y)) = _) as H2.
  change (set_epoch ep (m_node y)) with (m_node (set_l_epoch ep y)) in H2 at 1.
  unfold start_election. fold J. unfold mbind, E_bind. rewrite (lift_eq J _ _ _ H1), (lift_eq J _ _ _ H2). clear H1 H2 J.
  rewrite joined_epoch. match goal with |- _ = start ec ee ?z => rewrite <- (start_wakes ee z ep) by done end.
  apply (f_equal (start ec ee)). generalize (joined (m_node y)). intros j. reflexivity.
Qed.

(** *** The elector's events *)

Lemma unread_update m x' s' : m x = (Some tt, x') -> m_node x' = m_node x -> persisted_epoch x' = persisted_epoch x -> sent x' = x' ->
  acked_me x' = acked_me x -> unread x' -> crun i m s = Some s' -> exists σ', later c σ σ' /\ crel s' σ'.
Proof.
  intros Hm H1 H2 H3 H4 H5. unfold crun. rewrite Hx. cbn. destruct (up x); [| done]. rewrite Hm. cbn. intros [= <-].
  assert (Ho : m_out x' = [] /\ m_paxos_out x' = []) by (by rewrite <- H3). destruct Ho as [-> ->]. cbn.
  exists σ. split; [apply rtc_refl |]. destruct Hmr as [R1 R2 R3 R4 R5 _], Hrel as [C1 C2 C3]. split; [| done | done]. cbn. intros j.
  destruct (decide (j = i)) as [-> |]; [| by rewrite lookup_insert_ne]. rewrite lookup_insert_eq, Hn. constructor. rewrite H3.
  split; rewrite ?H1, ?H4; try done. right. split; [done |]. exists ep. by rewrite H2.
Qed.

Lemma unread_elect ee s' : crun i (start_election ec ee) s = Some s' -> exists σ', later c σ σ' /\ crel s' σ'.
Proof.
  intros Hc. destruct (unread_idle (crun_up _ _ Hc)) as [Hw _]. revert Hc. apply wake_run.
  - symmetry. apply start_election_wakes; [done | apply Hun].
  - intros Hm. apply ewp_start_election; try done. apply Hmr.
Qed.

Lemma unread_enter ee s' : crun i (quorum_enter ec ee) s = Some s' -> exists σ', later c σ σ' /\ crel s' σ'.
Proof.
  intros Hc. destruct (unread_idle (crun_up _ _ Hc)) as [Hw _]. revert Hc. apply wake_run.
  - symmetry. apply (start_election_wakes ee (set_participating true x)); done.
  - intros Hm. apply ewp_enter; try done. apply Hmr.
Qed.

Lemma unread_exit ee s' : crun i (quorum_exit ec ee) s = Some s' -> exists σ', later c σ σ' /\ crel s' σ'.
Proof.
  intros Hc. destruct (unread_idle (crun_up _ _ Hc)) as [Hw _]. revert Hc. apply wake_run.
  - unfold quorum_exit, mbind, E_bind. by rewrite (start_election_wakes ee x Hw (u_part _ Hun)).
  - intros Hm. apply ewp_exit; try done. apply Hmr.
Qed.

Lemma unread_disallow ee dl allow s' : crun i (set_elector_disallowed_leaders ec ee dl allow) s = Some s' ->
  exists σ', later c σ σ' /\ crel s' σ'.
Proof.
  destruct (negb (bool_decide (dl = disallowed_leaders x)) && allow) eqn:Hgo.
  - apply wake_run; [| intros Hm; apply ewp_set_disallowed; try done; apply Hmr].
    unfold set_elector_disallowed_leaders, mbind, E_bind, this, update. cbn [disallowed_leaders set_l_epoch set_m_node]. rewrite Hgo.
    symmetry. apply (start_wakes ee (set_disallowed_leaders dl x) ep), Hun.
  - apply (unread_update _ (set_disallowed_leaders dl x)); try done; [| by rewrite <- (mr_sent _ _ _ Hmr) |].
    + unfold set_elector_disallowed_leaders, mbind, E_bind, this, update. by rewrite Hgo.
    + by destruct Hun.
Qed.

Lemma unread_ping ee p s' : crun i (run_ping ec p ee) s = Some s' -> exists σ', later c σ σ' /\ crel s' σ'.
Proof.
  destruct (ping_step ec p ee (pings x)) as [p' |] eqn:Hp.
  - apply (unread_update _ (set_pings p' x)); try done; [| by rewrite <- (mr_sent _ _ _ Hmr) | by destruct Hun].
    unfold run_ping, mbind, E_bind, this. by rewrite Hp.
  - apply unread_fail. unfold run_ping, mbind, E_bind, this. by rewrite Hp.
Qed.

Lemma unread_strategy st s' : crun i (update (set_strategy st)) s = Some s' -> exists σ', later c σ σ' /\ crel s' σ'.
Proof.
  apply (unread_update _ (set_strategy st x)); try done; [by rewrite <- (mr_sent _ _ _ Hmr) | by destruct Hun].
Qed.

Lemma unread_election ee from m s' : crun i (election_dispatch ec ee from m) s = Some s' -> exists σ', later c σ σ' /\ crel s' σ'.
Proof.
  intros Hc. pose proof (unread_probing (crun_up _ _ Hc)) as Hp. revert Hc. apply unread_noop.
  unfold election_dispatch, mbind, E_bind, this, is_probing. by rewrite Hp.
Qed.
End Unread.

(** ** The cluster *)

Lemma crel_cases s σ i x : crel s σ -> mons s !! i = Some x ->
  (mon_rel i x (m_node x) /\ live i x /\ nodes σ !! i = Some (m_node x)) \/
  exists ep, mon_rel i x (set_epoch ep (m_node x)) /\ unread x /\ nodes σ !! i = Some (set_epoch ep (m_node x)) /\
    bounded (persisted_epoch x) ep.
Proof.
  intros Hrel Hx. pose proof (cr_mons _ _ Hrel i) as Hi. rewrite Hx in Hi. inversion Hi as [? n Hmr Hx' Hn |]; subst.
  pose proof (mr_node _ _ _ Hmr) as [[-> Hl] | (Hu & ep & -> & Hb)]; [left; by split_and! | right; exists ep; by split_and!].
Qed.

Lemma crel_elect s σ from to q : crel s σ -> Forall (fun m => even_victory m /\ 0 <= from) q ->
  crel (Cluster (mons s) (paxos_net s) (<[(from, to) := q]> (elect_net s))) σ.
Proof.
  intros [H1 H2 H3] Hq. split; [done | done |]. intros a b. unfold echan. cbn.
  destruct (decide ((a, b) = (from, to))) as [[= -> ->] |]; [by rewrite lookup_insert_eq |]. rewrite lookup_insert_ne by done. apply H3.
Qed.

Lemma crel_paxos s σ q ft : crel s σ ->
  crel (Cluster (mons s) (<[ft := q]> (paxos_net s)) (elect_net s)) (Sys (nodes σ) (<[ft := q]> (net σ))).
Proof. intros [H1 H2 H3]. split; [done | cbn; by rewrite H2 | done]. Qed.

(** *** Restarts *)

Lemma boot_unread n : outbox (boot n) = [] /\ rank (boot n) = rank n /\ epoch (boot n) = epoch n /\
  (mstate (boot n) = MON_PROBING \/ mstate (boot n) = MON_DOWN) /\ (forall t, timer_armed t (boot n) = false) /\
  state (boot n) = STATE_RECOVERING.
Proof.
  unfold boot, Paxos.init, get_key, unless_None, Paxos.assert, mbind, M_bind, self, upd, abort, mret, M_ret. cbn.
  repeat (case_match; cbn; simplify_eq); split_and!; auto; by intros [].
Qed.

Lemma boot_epoch e n : boot (set_epoch e n) = set_epoch e (boot n).
Proof.
  unfold boot, Paxos.init, get_key, unless_None, Paxos.assert, is_consistent, mbind, M_bind, self, upd, abort, mret, M_ret. cbn.
  destruct (get_num (store n) paxos_name "last_pn"); cbn; [| done].
  destruct (get_num (store n) paxos_name "accepted_pn"); cbn; [| done].
  destruct (get_num (store n) paxos_name "last_committed"); cbn; [| done].
  destruct (get_num (store n) paxos_name "first_committed"); cbn; [| done]. match goal with |- context [if ?b then _ else _] => by destruct b end.
Qed.

Lemma restart_crel s σ i x : crel s σ -> mons s !! i = Some x -> promise_durable (m_node x) ->
  exists σ', later c σ σ' /\ crel (Cluster (<[i := reboot ec x]> (mons s)) (paxos_net s) (elect_net s)) σ'.
Proof.
  intros Hrel Hx Hd. set (b := boot (set_epoch 0 (m_node x))).
  assert (Hn : exists ep, nodes σ !! i = Some (set_epoch ep (m_node x)) /\ bounded (persisted_epoch x) ep /\ mon_rel i x (set_epoch ep (m_node x))).
  { destruct (crel_cases s σ i x Hrel Hx) as [(Hmr & Hl & Hn) | (ep & Hmr & Hu & Hn & Hb)]; [| by exists ep].
    exists (epoch (m_node x)). rewrite set_epoch_id. split_and!; try done. apply Hl. }
  destruct Hn as (ep & Hn & Hb & Hmr). exists (Sys (<[i := set_epoch ep b]> (nodes σ)) (paxos_net s)). split.
  - apply rtc_once. exists (LRestart i), {| now := 0; need_bootstrap := false |}. split.
    + intros n Hn'. rewrite Hn in Hn'. by injection Hn' as <-.
    + cbn [step]. rewrite Hn. cbn [mbind option_bind]. rewrite (cr_net _ _ Hrel). subst b. by rewrite <- boot_epoch.
  - pose proof (boot_unread (set_epoch 0 (m_node x))) as (B1 & B2 & B3 & B4 & B5 & B6). fold b in B1, B2, B3, B4, B5, B6.
    destruct Hrel as [H1 H2 H3]. split; [| done | done]. cbn. intros j.
    destruct (decide (j = i)) as [-> |]; [rewrite !lookup_insert_eq; constructor | by rewrite !lookup_insert_ne].
    destruct Hmr as [R1 R2 R3 R4 R5 _]. split; try done; [by rewrite <- R1 | right]. split; [by split | by exists ep].
Qed.

Lemma lookup_tabulate {A} (f : Z -> A) l i :
  (list_to_map (map (fun r => (r, f r)) l) : gmap Z A) !! i = (if decide (i ∈ l) then Some (f i) else None).
Proof.
  induction l as [| r l IH]; cbn; [done |]. destruct (decide (i = r)) as [-> |].
  - by rewrite lookup_insert_eq, decide_True by (by left).
  - rewrite lookup_insert_ne, IH by done. apply decide_ext. rewrite elem_of_cons. naive_solver.
Qed.

Lemma init_crel st0 : crel (init_cluster ec st0) (init_sys c).
Proof.
  split; [| done | intros a b; unfold echan; cbn; by rewrite lookup_empty].
  intros i. unfold init_cluster, init_sys. cbn [mons nodes]. rewrite !lookup_tabulate. fold c. case_decide as Hi; constructor.
  split; try done; [by apply elem_of_list_to_set |]. right.
  split; [split; try done; [by left | by intros []] |]. exists 0. split; [done |]. cbn. unfold bounded. lia.
Qed.

(** *** Every step *)

Lemma crun_mon i m s s' : crun i m s = Some s' -> exists x, mons s !! i = Some x.
Proof. unfold crun. destruct (mons s !! i) as [x |]; [by exists x | done]. Qed.

(** The events of one monitor, by whether it has read its epoch. *)
Lemma one_mon i m s σ s' : crel s σ -> reachable c σ ->
  (forall x, mons s !! i = Some x -> mon_rel i x (m_node x) -> live i x -> nodes σ !! i = Some (m_node x) ->
     crun i m s = Some s' -> exists σ', later c σ σ' /\ crel s' σ') ->
  (forall x ep, mons s !! i = Some x -> mon_rel i x (set_epoch ep (m_node x)) -> unread x ->
     nodes σ !! i = Some (set_epoch ep (m_node x)) -> bounded (persisted_epoch x) ep ->
     crun i m s = Some s' -> exists σ', later c σ σ' /\ crel s' σ') ->
  crun i m s = Some s' -> exists σ', later c σ σ' /\ crel s' σ'.
Proof.
  intros Hrel Hreach Hl Hu Hc. destruct (crun_mon _ _ _ _ Hc) as [x Hx].
  destruct (crel_cases s σ i x Hrel Hx) as [(H1 & H2 & H3) | (ep & H1 & H2 & H3 & H4)]; eauto.
Qed.

Lemma dispatch_sim from to ee s σ s' : crel s σ -> reachable c σ -> paxos_event ec (LDeliver from to) ee s = Some s' ->
  exists σ', later c σ σ' /\ crel s' σ'.
Proof.
  intros Hrel Hreach. cbn [paxos_event]. destruct (default [] _) as [| m q] eqn:Hq; [done |].
  set (s1 := Cluster (mons s) (<[(from, to) := q]> (paxos_net s)) (elect_net s)). intros Hc.
  destruct (crun_mon _ _ _ _ Hc) as [x Hx]. cbn in Hx.
  destruct (crel_cases s σ to x Hrel Hx) as [(H1 & H2 & H3) | (ep & H1 & H2 & H3 & H4)].
  { by eapply (live_deliver s σ to x). }
  set (σ1 := Sys (nodes σ) (<[(from, to) := q]> (net σ))). assert (Hd : may_step c σ σ1).
  { exists (LDrop from to 0), (paxos_env ee). split; [done |]. cbn. unfold chan, σ1. by rewrite (cr_net _ _ Hrel), Hq. }
  assert (Hrel1 : crel s1 σ1) by (by apply crel_paxos).
  assert (Hreach1 : reachable c σ1) by (eapply later_reachable; [exact Hreach | by apply rtc_once]).
  destruct (unread_dispatch s1 σ1 to x ep Hrel1 Hreach1 Hx H1 H2 H3 H4 _ from m s' Hc) as (σ' & Hl & Hr).
  exists σ'. split; [by eapply rtc_l | done].
Qed.

(** A step of Paxos at one monitor. *)
Lemma lifted_sim l j m ee s σ s' : crel s σ -> reachable c σ -> keeps m ->
  (match l with LBootstrap k | LTimer k _ | LApply k | LComplete k | LPropose k _ _ | LTrigger k | LPlug k _ => k = j | _ => False end) ->
  paxos_event ec l ee s = crun j (lift m) s ->
  (forall x, mons s !! j = Some x ->
     step c l (paxos_env ee) (paxos_at j (nodes σ) (paxos_net s) x) = run j m (paxos_at j (nodes σ) (paxos_net s) x)) ->
  paxos_event ec l ee s = Some s' -> exists σ', later c σ σ' /\ crel s' σ'.
Proof.
  intros Hrel Hreach Hk Hj He Hst Hc. assert (Hc' : crun j (lift m) s = Some s') by (by rewrite <- He).
  revert Hc'. apply one_mon; [done | done | intros x Hx Hmr Hl Hn | intros x ep Hx Hmr Hu Hn Hb].
  - apply (live_lift s σ j x Hrel Hreach Hx Hmr Hl Hn l (paxos_env ee)); [done | by destruct l | by apply Hst].
  - intros _. by apply (unread_paxos s σ j x ep Hrel Hreach Hx Hmr Hu Hn Hb l ee); destruct l.
Qed.

Lemma timer_sim j t ee s σ s' : crel s σ -> reachable c σ -> paxos_event ec (LTimer j t) ee s = Some s' ->
  exists σ', later c σ σ' /\ crel s' σ'.
Proof.
  intros Hrel Hreach Hc. destruct (mons s !! j) as [x |] eqn:Hx; [| by cbn in Hc; rewrite Hx in Hc].
  destruct (timer_armed t (m_node x)) eqn:Ht; [| by cbn in Hc; rewrite Hx in Hc; cbn in Hc; rewrite Ht in Hc].
  revert Hc. apply (lifted_sim _ j (timer_fires c (paxos_env ee) t)); try done; [by destruct t; auto with frame | |].
  - cbn. rewrite Hx. cbn. by rewrite Ht.
  - intros y [= <-]%(eq_trans (eq_sym Hx)). cbn [step]. rewrite node_at. cbn [mbind option_bind]. by rewrite Ht.
Qed.

Lemma paxos_event_sim l ee s σ s' : crel s σ -> reachable c σ -> paxos_event ec l ee s = Some s' -> exists σ', later c σ σ' /\ crel s' σ'.
Proof.
  intros Hrel Hreach. destruct l as [from to | from to k | | | | | j | j t | j | j | j t f | j | j b | j | j]; try done.
  - by apply dispatch_sim.
  - cbn. intros [= <-]. eexists. split; [| by apply crel_paxos]. apply rtc_once. exists (LDrop from to k), (paxos_env ee).
    split; [done |]. cbn. unfold chan. by rewrite (cr_net _ _ Hrel).
  - apply (lifted_sim _ j (bootstrap c (paxos_env ee))); auto with frame.
  - by apply timer_sim.
  - apply (lifted_sim _ j io_apply); auto with frame.
  - apply (lifted_sim _ j (io_complete c (paxos_env ee))); auto with frame.
  - destruct (service_tx t && service_finisher f) eqn:Ht; [| by cbn; rewrite Ht].
    apply (lifted_sim _ j (propose t f)); auto with frame; [cbn | intros x Hx; cbn [step]]; by rewrite Ht.
  - apply (lifted_sim _ j (_ ← trigger_propose c; mret tt)); auto with frame.
  - apply (lifted_sim _ j (if b then plug else unplug)); auto with frame.
  - cbn [paxos_event]. apply one_mon; [done | done | intros x Hx Hmr Hl Hn | intros x ep Hx Hmr Hu Hn Hb].
    + apply (live_run s σ j x); try done. apply ewp_fail.
    + by apply (unread_fail s σ j x ep).
Qed.

(** A step of the elector of one monitor. *)
Lemma elector_sim j m s σ s' : crel s σ -> reachable c σ ->
  (forall x, mons s !! j = Some x -> j ∈ ranks c -> mine j x -> ewp ec j (nodes σ) (paxos_net s) m (own_vote j) x) ->
  (forall x ep, mons s !! j = Some x -> mon_rel j x (set_epoch ep (m_node x)) -> unread x ->
     nodes σ !! j = Some (set_epoch ep (m_node x)) -> bounded (persisted_epoch x) ep ->
     crun j m s = Some s' -> exists σ', later c σ σ' /\ crel s' σ') ->
  crun j m s = Some s' -> exists σ', later c σ σ' /\ crel s' σ'.
Proof.
  intros Hrel Hreach Hm Hu. apply one_mon; [done | done | intros x Hx Hmr Hl Hn | done].
  apply (live_run s σ j x); try done. apply live_mine; [done |]. intros _ Hmine. apply Hm; [done | apply Hmr | done].
Qed.

Lemma election_sim from to ee s σ s' : crel s σ -> reachable c σ -> cstep ec (EvDeliver from to) ee s = Some s' ->
  exists σ', later c σ σ' /\ crel s' σ'.
Proof.
  intros Hrel Hreach. cbn [cstep]. destruct (echan s from to) as [| m q] eqn:Hq; [done |].
  pose proof (cr_elect _ _ Hrel from to) as Hf. rewrite Hq in Hf. apply Forall_cons in Hf as [[Hev Hf] Hqs].
  apply elector_sim; [by apply crel_elect | done | intros x Hx Hj Hm | intros x ep Hx Hmr Hu Hn Hb].
  - by apply ewp_dispatch.
  - eapply unread_election; try done. by apply crel_elect.
Qed.

Lemma cstep_sim ev ee s σ s' : crel s σ -> reachable c σ -> callowed ev s -> cstep ec ev ee s = Some s' ->
  exists σ', later c σ σ' /\ crel s' σ'.
Proof.
  intros Hrel Hreach Hal.
  destruct ev as [l | from to | from to k | j | j | j dl allow | j | j | j st | j p | j]; [| | | cbn [cstep] ..].
  - by apply paxos_event_sim.
  - by apply election_sim.
  - cbn. intros [= <-]. exists σ. split; [apply rtc_refl |]. apply crel_elect; [done |]. pose proof (cr_elect _ _ Hrel from to) as Hf.
    by apply Forall_delete.
  - destruct (mons s !! j) as [x |] eqn:Hx; [| done]. cbn. destruct (expire_event x) eqn:Hex; [| done]. cbn.
    apply elector_sim; [done | done | intros; by apply ewp_expire | intros y ep Hy Hmr Hu]. exfalso. simplify_eq.
    by rewrite (u_expire _ Hu) in Hex.
  - apply elector_sim; [done | done | intros; by apply ewp_start_election | intros; by eapply unread_elect].
  - apply elector_sim; [done | done | intros; by apply ewp_set_disallowed | intros; by eapply unread_disallow].
  - apply elector_sim; [done | done | intros; by apply ewp_enter | intros; by eapply unread_enter].
  - apply elector_sim; [done | done | intros; by apply ewp_exit | intros; by eapply unread_exit].
  - apply elector_sim; [done | done | intros x Hx Hj Hm; ewp_step; by subst | intros; by eapply unread_strategy].
  - apply elector_sim; [done | done | intros; by apply ewp_ping | intros; by eapply unread_ping].
  - destruct (mons s !! j) as [x |] eqn:Hx; [| done]. cbn. intros [= <-]. apply restart_crel; [done | done |]. by apply Hal.
Qed.

Lemma creachable_sim st0 s : creachable ec st0 s -> exists σ, reachable c σ /\ crel s σ.
Proof.
  induction 1 as [| ev ee s s' _ (σ & Hr & Hc) Hal Hst]; [exists (init_sys c); split; [constructor | apply init_crel] |].
  destruct (cstep_sim ev ee s σ s' Hc Hr Hal Hst) as (σ' & Hl & Hc'). exists σ'. split; [| done]. by eapply later_reachable.
Qed.
End Refine.
