(* ===== verification/MonClusterThms.v ===== *)
(** * What the monitors guarantee with their elections

    The monitors with their electors refine the cluster that Paxos assumes, so
    they agree on every committed version; a monitor is in one quorum of an
    epoch for good, and a leader has a majority.  Two monitors may still lead in
    the same epoch. *)

From stdpp Require Import strings relations.
From S2P Require Import Prelude MonitorDBStore Paxos PaxosSystem PaxosSpec PaxosInv PaxosDisk PaxosSim PaxosSimOps PaxosRefine PaxosThms MonFrame.
From S2P Require Import ConnectionTracker ElectorPing Election MonCluster MonClusterSim MonClusterVote MonClusterRefine.

(** One allowed event of the cluster, and a sequence of them. *)
Definition may_cstep (ec : election_conf) (s s' : cluster) : Prop := exists ev ee, callowed ev s /\ cstep ec ev ee s = Some s'.
Definition clater (ec : election_conf) : cluster -> cluster -> Prop := rtc (may_cstep ec).

Definition in_quorum (n : node) : bool := is_leader n || is_peon n.

Lemma clater_sim ec s s' σ : conf_ok (paxos_conf ec) -> crel ec s σ -> reachable (paxos_conf ec) σ -> clater ec s s' ->
  exists σ', later (paxos_conf ec) σ σ' /\ crel ec s' σ'.
Proof.
  intros Hok Hrel Hreach Hl. revert σ Hrel Hreach. induction Hl as [| s s1 s' (ev & ee & Hal & Hst) _ IH]; intros σ Hrel Hreach.
  - exists σ. split; [apply rtc_refl | done].
  - destruct (cstep_sim ec Hok ev ee s σ s1 Hrel Hreach Hal Hst) as (σ1 & H1 & Hrel1).
    destruct (IH σ1 Hrel1) as (σ2 & H2 & Hrel2); [by eapply later_reachable |]. exists σ2. split; [by etransitivity | done].
Qed.

(** The monitor of Paxos that a monitor stands for. *)
Lemma crel_node ec s σ i x : crel ec s σ -> mons s !! i = Some x -> exists n, nodes σ !! i = Some n /\ store n = store (m_node x) /\
  (in_quorum (m_node x) = true -> n = m_node x /\ live i x).
Proof.
  intros Hrel Hx. destruct (crel_cases ec s σ i x Hrel Hx) as [(_ & Hl & Hn) | (ep & _ & Hu & Hn & _)]; [by eexists |].
  eexists. split; [exact Hn |]. split; [done |]. unfold in_quorum, is_leader, is_peon. by destruct (u_mstate _ Hu) as [-> | ->].
Qed.

(** ** Quorums *)

Lemma leader_quorum c σ i n : conf_ok c -> reachable c σ -> nodes σ !! i = Some n -> mstate n = MON_LEADER ->
  i ∈ quorum n /\ quorum n ⊆ ranks c /\ majority c (quorum n) = true.
Proof.
  intros Hok Hs Hi Hm. destruct (reachable_rel c Hok σ Hs) as (a & Hr). destruct (r_nodes _ _ _ Hr i n Hi) as [[_ HL] _].
  unfold live_rel in HL. rewrite Hm in HL. destruct HL as (_ & _ & ph & Hrole & _).
  destruct (I_lead _ _ _ _ (r_inv _ _ _ Hr) i _ _ Hrole) as ([Hq Hmaj] & Hiq & _). split; [done |]. split; [done |].
  pose proof (size_ranks c (proj1 Hok)) as Hsz. unfold majority. apply Z.ltb_lt, Z.div_lt_upper_bound; lia.
Qed.

(** What a step may do to a monitor: a quorum is entered in a new epoch. *)
Definition ages (n n' : node) : Prop :=
  epoch n <= epoch n' /\
  (epoch n' = epoch n -> in_quorum n' = true -> mstate n' = mstate n /\ quorum n' = quorum n /\ leader n' = leader n).

#[export] Instance ages_preorder : PreOrder ages.
Proof.
  split; [by intros n |]. intros x y z [H1 H2] [H3 H4]. split; [lia |]. intros He Hq.
  destruct H4 as (E1 & E2 & E3); [lia | done |]. destruct H2 as (F1 & F2 & F3); [lia | | split_and!; congruence].
  unfold in_quorum, is_leader, is_peon in *. by rewrite <- E1.
Qed.

Lemma keep_ages n n' : keep n n' -> ages n n'.
Proof.
  intros (H1 & _ & H3). split; [lia |]. intros _ Hq. unfold in_quorum, is_leader, is_peon in Hq.
  destruct H3 as [[H3 H3'] | H3]; [| by rewrite H3 in Hq]. rewrite H3 in Hq. destruct H3' as [E | []]; [by rewrite E in Hq | done].
Qed.

Lemma outside_ages n n' : epoch n <= epoch n' -> in_quorum n' = false -> ages n n'.
Proof. intros He Hq. split; [done |]. congruence. Qed.

Lemma later_ages n n' : epoch n < epoch n' -> ages n n'.
Proof. intros He. split; lia. Qed.

(** What a handler leaves when it ends, or when an assertion fails. *)
Definition ages_run (m : M unit) (n : node) : Prop :=
  ages n (match (m n).1 with Some _ => (m n).2 | None => set_mstate MON_DOWN (m n).2 end).

Lemma run_ages i m σ σ' j n : (forall n, nodes σ !! i = Some n -> ages_run m n) -> run i m σ = Some σ' -> nodes σ !! j = Some n ->
  exists n', nodes σ' !! j = Some n' /\ ages n n'.
Proof.
  unfold run. intros Hm. destruct (nodes σ !! i) as [k |] eqn:Hi; [| done]. cbn. case_bool_decide; [done |].
  specialize (Hm k eq_refl). unfold ages_run in Hm. destruct (m k) as [o k'] eqn:Hk. intros [= <-] Hj. cbn.
  destruct (decide (j = i)) as [-> |]; [| exists n; by rewrite lookup_insert_ne].
  rewrite lookup_insert_eq. eexists. split; [done |]. simplify_eq. exact Hm.
Qed.

Lemma keeps_ages m n : keeps m -> ages_run m n.
Proof.
  intros Hk. unfold ages_run. specialize (Hk n). destruct (m n) as [[] n']; [by apply keep_ages |].
  apply outside_ages; [cbn; destruct Hk; cbn in *; lia | done].
Qed.

Lemma join_ages c e ep n : epoch n <= ep -> ages_run (upd (set_epoch ep);; join_election c e) n.
Proof.
  intros He. unfold ages_run. rewrite upd_then. destruct (join_election c e (set_epoch ep n)) as [o n'] eqn:Hj.
  pose proof (join_fields _ _ _ _ _ Hj) as (H1 & _ & H3). cbn in H1. apply outside_ages; [destruct o; cbn; lia |].
  unfold in_quorum, is_leader, is_peon. destruct o as [[] |]; cbn; [by rewrite H3 | done].
Qed.

Lemma role_ages c e ep m n : epoch n < ep -> takes_role m -> ages_run (upd (set_epoch ep);; join_election c e;; m) n.
Proof.
  intros He Hm. unfold ages_run. rewrite upd_then. unfold mbind, M_bind. destruct (join_election c e (set_epoch ep n)) as [o n1] eqn:Hj.
  pose proof (join_fields _ _ _ _ _ Hj) as (H1 & _). cbn in H1. destruct o as [[] |]; [| apply later_ages; cbn; lia].
  destruct (m n1) as [o n2] eqn:Hr. pose proof (Hm _ _ _ Hr) as (H2 & _). apply later_ages. destruct o; cbn; lia.
Qed.

Lemma boot_ages n : ages n (boot n).
Proof.
  destruct (boot_unread n) as (_ & _ & H1 & H2 & _). apply outside_ages; [lia |].
  unfold in_quorum, is_leader, is_peon. by destruct H2 as [-> | ->].
Qed.

(** A step with a condition on the monitor that takes it. *)
Lemma guarded_ages i b m σ σ' j n : (forall n, b n = true -> ages_run m n) ->
  (k ← nodes σ !! i; _ ← check (b k); run i m σ) = Some σ' -> nodes σ !! j = Some n -> exists n', nodes σ' !! j = Some n' /\ ages n n'.
Proof.
  intros Hm. destruct (nodes σ !! i) as [k |] eqn:Hi; [| done]. cbn. destruct (b k) eqn:Hb; [| done]. apply run_ages.
  intros k'. rewrite Hi. intros [= <-]. by apply Hm.
Qed.

Lemma step_ages c l e σ σ' j n : step c l e σ = Some σ' -> nodes σ !! j = Some n -> exists n', nodes σ' !! j = Some n' /\ ages n n'.
Proof.
  destruct l as [from to | from to k | i ep | i ep q md | i ep q l | i ep | i | i t | i | i | i t f | i | i b | i | i]; cbn [step];
    try (apply run_ages; intros; apply keeps_ages; auto with frame; fail).
  - destruct (chan σ from to) as [| m q]; [done |]. apply (run_ages _ _ (Sys (nodes σ) _)). intros k _. apply keeps_ages. auto with frame.
  - intros [= <-] Hj. by exists n.
  - apply guarded_ages. intros k Hk%Z.leb_le. by apply join_ages.
  - apply (guarded_ages i (fun k => outside k && (epoch k <? ep) && majority c q && bool_decide (i ∈ q) && bool_decide (q ⊆ ranks c))).
    intros k Hk. apply role_ages, win_role. lia.
  - apply (guarded_ages i (fun k => outside k && (epoch k <? ep))). intros k Hk. apply role_ages, lose_role. lia.
  - apply (guarded_ages i (fun k => outside k && (epoch k <=? ep))). intros k [Ho Hk%Z.leb_le]%andb_true_iff.
    apply outside_ages; [done |]. cbn. unfold outside, is_probing, is_electing, in_quorum, is_leader, is_peon in *. cbn. by destruct (mstate k).
  - apply guarded_ages. intros k _. apply keeps_ages. auto with frame.
  - destruct (check _); [| done]. cbn. apply run_ages. intros k _. apply keeps_ages. auto with frame.
  - destruct (nodes σ !! i) as [k |] eqn:Hi; [| done]. cbn. intros [= <-] Hj. cbn.
    destruct (decide (j = i)) as [-> |]; [| exists n; by rewrite lookup_insert_ne]. rewrite lookup_insert_eq. eexists. split; [done |].
    simplify_eq. apply boot_ages.
Qed.

Lemma later_steps_age c σ σ' j n : later c σ σ' -> nodes σ !! j = Some n -> exists n', nodes σ' !! j = Some n' /\ ages n n'.
Proof.
  intros Hl. revert n. induction Hl as [| σ σ1 σ' (l & e & _ & Hst) _ IH]; intros n Hn; [by exists n |].
  destruct (step_ages c l e σ σ1 j n Hst Hn) as (n1 & H1 & A1). destruct (IH n1 H1) as (n2 & H2 & A2). exists n2. split; [done |].
  by etransitivity.
Qed.

(** ** Runs *)

Definition demo_ec (n : Z) : election_conf :=
  {| paxos_conf := demo_conf n; required_features := 3; required_mon_features := 1; supported_mon_features := 7; min_mon_release := 15;
     my_release := 16; CEPH_FEATURES_ALL := 15; 
     ping_config := {| ping_timeout := dZ 2; PING_DIVISOR := 2; monmap_ranks := n; can_ping := true |};
     score_halflife := dZ 100; score_persist_interval := 10; ignore_propose_margin := dZ 0 |}.
Definition demo_ee : election_env := {| paxos_env := demo_env; wall_clock := 1; ever_participated := true; metadata := "v1" |}.

Definition run_events (ec : election_conf) (evs : list event) : option cluster :=
  cruns ec (map (fun ev => (ev, demo_ee)) evs) (init_cluster ec CLASSIC).

(** Two of three monitors elect rank 0, which commits its first transaction. *)
Definition classic_run : list event :=
  [EvElect 0; EvElect 1; EvDeliver 0 1; EvDeliver 1 0; EvDeliver 1 0; EvExpire 0; EvDeliver 0 1] ++
  map EvPaxos [LDeliver 0 1; LDeliver 1 0; LDeliver 0 1; LDeliver 0 1; LDeliver 1 0; LDeliver 1 0; LApply 0; LComplete 0; LDeliver 0 1].

Definition classic_state : cluster := Eval vm_compute in default (init_cluster (demo_ec 3) CLASSIC) (run_events (demo_ec 3) classic_run).
Definition classic_mon (i : Z) : mon := default (boot_mon (demo_ec 3) (fresh i 0 ∅) 0 None CLASSIC) (mons classic_state !! i).

(** Monitors 2 and 3 of five defer to 1 and then to 0, whose proposal reaches
    1 too late. *)
Definition two_leaders_run : list event :=
  map EvElect [0; 1; 2; 3; 4] ++
  [EvDeliver 1 2; EvDeliver 1 3; EvDeliver 2 1; EvDeliver 2 1; EvDeliver 3 1; EvDeliver 3 1;
   EvDeliver 0 2; EvDeliver 0 3; EvDeliver 2 0; EvDeliver 2 0; EvDeliver 3 0; EvDeliver 3 0; EvExpire 1; EvExpire 0].

Definition no_reboot (ev : event) : bool := match ev with EvRestart _ => false | _ => true end.

Lemma cruns_later ec evs s s' : forallb (fun p => no_reboot p.1) evs = true -> cruns ec evs s = Some s' -> clater ec s s'.
Proof.
  revert s. induction evs as [| [ev ee] evs IH]; intros s Hnr; [intros [= <-]; apply rtc_refl |]. cbn in *.
  apply andb_true_iff in Hnr as [Hev Hnr]. destruct (cstep ec ev ee s) as [s1 |] eqn:Hst; [| done]. cbn.
  intros Hr. eapply rtc_l; [| by apply IH]. exists ev, ee. split; [by destruct ev | done].
Qed.

Lemma clater_reachable ec st0 s s' : creachable ec st0 s -> clater ec s s' -> creachable ec st0 s'.
Proof. intros Hs Hl. induction Hl as [| s s1 s' (ev & ee & Hal & Hst) _ IH]; [done |]. apply IH. by eapply creachable_step. Qed.

Lemma classic_later : clater (demo_ec 3) (init_cluster (demo_ec 3) CLASSIC) classic_state.
Proof. apply (cruns_later _ (map (fun ev => (ev, demo_ee)) classic_run)); vm_compute; reflexivity. Qed.

Lemma classic_reachable : creachable (demo_ec 3) CLASSIC classic_state.
Proof. apply (clater_reachable _ _ (init_cluster (demo_ec 3) CLASSIC)); [constructor | exact classic_later]. Qed.

(** ** Theorems *)

(** C1. Agreement of the whole monitor: once some monitor has committed a
    version, every monitor that commits the version, then or later, commits a
    transaction with the same effect on every key, with the elections as the
    elector runs them. *)
Theorem monitors_agree ec st0 s s' i j x y v t u : conf_ok (paxos_conf ec) -> creachable ec st0 s -> clater ec s s' ->
  mons s !! i = Some x -> mons s' !! j = Some y ->
  committed_value (m_node x) v = Some t -> committed_value (m_node y) v = Some u -> tx_eqv t u.
Proof.
  intros Hok Hs Hl Hx Hy Ht Hu. destruct (creachable_sim ec Hok st0 s Hs) as (σ & Hreach & Hrel).
  destruct (clater_sim ec s s' σ Hok Hrel Hreach Hl) as (σ' & Hl' & Hrel').
  destruct (crel_node ec s σ i x Hrel Hx) as (n & Hn & Hsn & _). destruct (crel_node ec s' σ' j y Hrel' Hy) as (k & Hk & Hsk & _).
  apply (agree (paxos_conf ec) Hok σ σ' i j n k v); try done; unfold committed_value in *; by rewrite ?Hsn, ?Hsk.
Qed.

Lemma monitors_agree_witness :
  committed_value (m_node (classic_mon 0)) 1 = Some (demo_tx "v1") /\ committed_value (m_node (classic_mon 1)) 1 = Some (demo_tx "v1") /\
  tx_eqv (demo_tx "v1") (demo_tx "v1").
Proof.
  split; [vm_compute; reflexivity |]. split; [vm_compute; reflexivity |].
  apply (monitors_agree (demo_ec 3) CLASSIC classic_state classic_state 0 1 (classic_mon 0) (classic_mon 1) 1);
    [by split_and! | exact classic_reachable | apply rtc_refl | vm_compute; reflexivity ..].
Defined.

(** C3. The elector keeps what Paxos assumes of elections: every run of the
    monitors with their electors is a run of the cluster in which an election is
    its outcome, with the same messages and monitors, except that a restarted
    monitor that has not read its epoch from disk yet shows epoch 0. *)
Theorem elections_refine_paxos ec st0 s : conf_ok (paxos_conf ec) -> creachable ec st0 s ->
  exists σ, reachable (paxos_conf ec) σ /\ net σ = paxos_net s /\
    forall i x, mons s !! i = Some x -> exists n, nodes σ !! i = Some n /\
      (n = m_node x \/ in_quorum (m_node x) = false /\ l_epoch x = 0 /\ n = set_epoch (epoch n) (m_node x)).
Proof.
  intros Hok Hs. destruct (creachable_sim ec Hok st0 s Hs) as (σ & Hreach & Hrel). exists σ. split; [done |]. split; [apply Hrel |].
  intros i x Hx. destruct (crel_cases ec s σ i x Hrel Hx) as [(_ & _ & Hn) | (ep & _ & Hu & Hn & _)]; [eauto |].
  eexists. split; [exact Hn |]. right. split; [| by split; [apply Hu |]].
  unfold in_quorum, is_leader, is_peon. by destruct (u_mstate _ Hu) as [-> | ->].
Qed.

Lemma elections_refine_paxos_witness : exists σ, reachable (demo_conf 3) σ /\ net σ = paxos_net classic_state /\
  forall i x, mons classic_state !! i = Some x -> exists n, nodes σ !! i = Some n /\
    (n = m_node x \/ in_quorum (m_node x) = false /\ l_epoch x = 0 /\ n = set_epoch (epoch n) (m_node x)).
Proof. apply (elections_refine_paxos (demo_ec 3) CLASSIC); [by split_and! | exact classic_reachable]. Defined.

(** C9. A monitor that leads or follows does so in a positive even epoch that
    is on its disk, and a leader belongs to its quorum, which is a majority of
    the monitor map. *)
Theorem quorum_sound ec st0 s i x : conf_ok (paxos_conf ec) -> creachable ec st0 s -> mons s !! i = Some x ->
  in_quorum (m_node x) = true ->
  Z.even (l_epoch x) = true /\ 0 < l_epoch x /\ persisted_epoch x = l_epoch x /\
  (is_leader (m_node x) = true ->
     i ∈ quorum (m_node x) /\ quorum (m_node x) ⊆ ranks (paxos_conf ec) /\ majority (paxos_conf ec) (quorum (m_node x)) = true).
Proof.
  intros Hok Hs Hx Hq. destruct (creachable_sim ec Hok st0 s Hs) as (σ & Hreach & Hrel).
  destruct (crel_node ec s σ i x Hrel Hx) as (n & Hn & _ & Hlive). destruct (Hlive Hq) as [-> [L1 L2 _]].
  unfold in_quorum, is_leader, is_peon in Hq. destruct L2 as [He Hpos];
    [unfold outside, is_probing, is_electing | unfold up |]; [by destruct (mstate (m_node x)) .. |].
  split_and!; try done.
  - destruct L1 as [_ [-> | [H0 H1]]]; [done |]. assert (l_epoch x = 1) as H2 by lia. by rewrite H2 in He.
  - intros Hl%bool_decide_eq_true. by apply (leader_quorum (paxos_conf ec) σ).
Qed.

Lemma quorum_sound_witness :
  is_leader (m_node (classic_mon 0)) = true /\ majority (demo_conf 3) (quorum (m_node (classic_mon 0))) = true.
Proof.
  split; [vm_compute; reflexivity |].
  apply (quorum_sound (demo_ec 3) CLASSIC classic_state 0 (classic_mon 0));
    [by split_and! | exact classic_reachable | vm_compute; reflexivity ..].
Defined.

(** C8. Epochs order the quorums of a monitor: a later quorum has no smaller
    epoch, also when the monitor was restarted in between, and in the same epoch
    it is the same quorum with the same leader. *)
Theorem one_quorum_per_epoch ec st0 s s' i x x' : conf_ok (paxos_conf ec) -> creachable ec st0 s -> clater ec s s' ->
  mons s !! i = Some x -> mons s' !! i = Some x' -> in_quorum (m_node x) = true -> in_quorum (m_node x') = true ->
  l_epoch x <= l_epoch x' /\
  (l_epoch x' = l_epoch x ->
     mstate (m_node x') = mstate (m_node x) /\ quorum (m_node x') = quorum (m_node x) /\ leader (m_node x') = leader (m_node x)).
Proof.
  intros Hok Hs Hl Hx Hx' Hq Hq'. destruct (creachable_sim ec Hok st0 s Hs) as (σ & Hreach & Hrel).
  destruct (clater_sim ec s s' σ Hok Hrel Hreach Hl) as (σ' & Hl' & Hrel').
  destruct (crel_node ec s σ i x Hrel Hx) as (n & Hn & _ & H1). destruct (H1 Hq) as [-> _].
  destruct (crel_node ec s' σ' i x' Hrel' Hx') as (n' & Hn' & _ & H2). destruct (H2 Hq') as [-> _].
  destruct (later_steps_age _ σ σ' i _ Hl' Hn) as (k & Hk & [A1 A2]). rewrite Hn' in Hk. injection Hk as <-. split; [done |].
  intros He. by apply A2.
Qed.

(** Rank 0 is elected again, now with all three monitors. *)
Definition again_run : list event :=
  [EvElect 2; EvElect 0; EvDeliver 0 2; EvDeliver 0 2; EvDeliver 2 0; EvDeliver 2 0; EvDeliver 2 0; EvDeliver 0 1; EvDeliver 1 0;
   EvDeliver 0 1; EvDeliver 0 2].
Definition again_state : cluster := Eval vm_compute in
  default classic_state (cruns (demo_ec 3) (map (fun ev => (ev, demo_ee)) again_run) classic_state).
Definition again_mon (i : Z) : mon := default (classic_mon i) (mons again_state !! i).

Lemma again_later : clater (demo_ec 3) classic_state again_state.
Proof. apply (cruns_later _ (map (fun ev => (ev, demo_ee)) again_run)); vm_compute; reflexivity. Qed.

Lemma one_quorum_per_epoch_witness : in_quorum (m_node (again_mon 0)) = true /\ l_epoch (classic_mon 0) <= l_epoch (again_mon 0).
Proof.
  split; [vm_compute; reflexivity |].
  apply (one_quorum_per_epoch (demo_ec 3) CLASSIC classic_state again_state 0);
    [by split_and! | exact classic_reachable | exact again_later | vm_compute; reflexivity ..].
Defined.

Definition two_leaders_state : cluster := Eval vm_compute in
  default (init_cluster (demo_ec 5) CLASSIC) (run_events (demo_ec 5) two_leaders_run).
Definition two_leaders_mon (i : Z) : mon := default (classic_mon i) (mons two_leaders_state !! i).

(** C10. The elections do not keep two monitors from leading in one epoch: a
    peer defers to one monitor and then to one of lower rank, and both count it
    when their timers end. *)
Theorem two_leaders_one_epoch : exists s x y, run_events (demo_ec 5) two_leaders_run = Some s /\ mons s !! 0 = Some x /\ mons s !! 1 = Some y /\
  is_leader (m_node x) = true /\ is_leader (m_node y) = true /\ l_epoch x = 2 /\ l_epoch y = 2 /\
  quorum (m_node x) = {[0; 2; 3]} /\ quorum (m_node y) = {[1; 2; 3]}.
Proof. exists two_leaders_state, (two_leaders_mon 0), (two_leaders_mon 1). split_and!; vm_compute; reflexivity. Qed.
