(* ===== verification/ElectionLive.v ===== *)
(** * Elections come to an end

    Under the classic strategy the proposal of rank 0 wins: every peer defers to
    it whatever it has voted before, and when all have answered rank 0 leads and
    the others follow it.  This holds for every order in which the messages
    between rank 0 and its peers arrive, proposals, answers and victories mixed;
    nothing on the way fails an assertion. *)

From stdpp Require Import strings.
From S2P Require Import Prelude MonitorDBStore Paxos PaxosSystem PaxosDisk PaxosSim PaxosSimOps PaxosRefine PaxosThms MonFrame.
From S2P Require Import ConnectionTracker ElectorPing Election MonCluster MonClusterSim MonClusterVote MonClusterRefine MonClusterThms.

(** ** Total correctness

    The computation ends without a failed assertion, in a state of [Q]. *)

Definition ends {S A} (r : option A * S) (Q : A -> S -> Prop) : Prop := exists a s, r = (Some a, s) /\ Q a s.

Lemma ends_mono {S A} (r : option A * S) (Q Q' : A -> S -> Prop) : ends r Q -> (forall a s, Q a s -> Q' a s) -> ends r Q'.
Proof. intros (a & s & H & HQ) HQ'. exists a, s. auto. Qed.

Lemma ends_bindM {A B} (m : M A) (f : A -> M B) n Q : ends (m n) (fun a n' => ends (f a n') Q) -> ends ((m ≫= f) n) Q.
Proof. intros (a & n' & H & HQ). unfold mbind, M_bind. by rewrite H. Qed.

Lemma ends_bindE {A B} (m : E A) (f : A -> E B) s Q : ends (m s) (fun a s' => ends (f a s') Q) -> ends ((m ≫= f) s) Q.
Proof. intros (a & s' & H & HQ). unfold mbind, E_bind. by rewrite H. Qed.

Lemma ends_ret {S A} (a : A) (s : S) Q : Q a s -> ends (Some a, s) Q.
Proof. intros HQ. by exists a, s. Qed.

(** ** Taking the lead *)

(** A monitor of the map with nothing of its disk in the way of leading. *)
Definition sound_disk (n : node) : Prop :=
  match store n !! vkey (last_committed n + 1) with
  | None => True
  | Some bl => bl_nonempty bl = true /\ is_Some (get_num (store n) paxos_name "pending_v") /\ is_Some (get_num (store n) paxos_name "pending_pn")
  end.

Lemma outside_disk c σ i n : conf_ok c -> reachable c σ -> nodes σ !! i = Some n -> outside n = true -> sound_disk n.
Proof.
  intros Hok Hs Hi Ho. destruct (reachable_rel c Hok σ Hs) as (a & Hr). destruct (r_nodes _ _ _ Hr i n Hi) as [[Hb HL] _].
  assert (Hlc : last_committed n = PaxosSpec.a_lc (PaxosSpec.an a i)).
  { unfold outside, is_probing, is_electing in Ho. unfold live_rel in HL. destruct (mstate n); try done; apply HL. }
  destruct (b_disk _ _ _ _ Hb) as (_ & _ & _ & Hp). unfold sound_disk. rewrite Hlc. unfold disk_pend in Hp.
  destruct (PaxosSpec.a_pend _) as [[p x] |]; [| by rewrite Hp]. destruct Hp as (-> & -> & -> & _). done.
Qed.

Record leading (q : gset Z) (r e : Z) (n : node) : Prop := {
  ld_mstate : mstate n = MON_LEADER;
  ld_quorum : quorum n = q;
  ld_leader : leader n = r;
  ld_epoch : epoch n = e;
  ld_finishers : pending_finishers n = []
}.

Lemma ends_updM f n (Q : unit -> node -> Prop) : Q tt (f n) -> ends (upd f n) Q.
Proof. apply ends_ret. Qed.

Ltac ends_upds := repeat (first [apply ends_bindM, ends_updM | apply ends_updM]).

Lemma ends_pending_pn p n (Q : Z -> node -> Prop) : is_Some (get_num (store n) paxos_name "pending_v") ->
  is_Some (get_num (store n) paxos_name "pending_pn") -> (forall z, Q z n) -> ends (pending_pn_or p n) Q.
Proof.
  intros [v Hv] [z Hz] HQ. unfold pending_pn_or, get_key, mbind, M_bind, self, unless_None. rewrite Hv. cbn. rewrite Hz. by apply ends_ret.
Qed.

Lemma ends_collect q r e pn n (Q : unit -> node -> Prop) : leading q r e n -> sound_disk n -> (forall n', leading q r e n' -> Q tt n') ->
  ends (collect pn n) Q.
Proof.
  intros Hl Hd HQ. unfold collect. ends_upds. set (n1 := set_state STATE_RECOVERING n).
  assert (H1 : leading q r e n1 /\ sound_disk n1) by (split; [by destruct Hl | done]). clearbody n1. clear n Hl Hd. destruct H1 as [Hl Hd].
  apply ends_bindM, ends_ret, ends_bindM. unfold is_leader. rewrite (ld_mstate _ _ _ _ Hl). apply ends_ret. ends_upds.
  match goal with |- ends ((_ ≫= _) ?k) _ => set (n2 := k) end.
  assert (Hl2 : leading q r e n2 /\ store n2 = store n1) by (by destruct Hl). clearbody n2. destruct Hl2 as [Hl2 Hs2].
  apply ends_bindM. apply (ends_mono _ (fun _ => leading q r e)).
  - unfold exists_ver. fold (vkey (last_committed n1 + 1)). unfold sound_disk in Hd. case_bool_decide as Hex; [| by apply ends_ret].
    unfold when. destruct (store n1 !! vkey _) as [bl |] eqn:Hbl; [| by destruct Hex].
    destruct Hd as (Hb & Hv & Hp). apply ends_bindM, ends_pending_pn; [by rewrite Hs2 .. |]. intros z. ends_upds.
    unfold get_bl. fold (vkey (last_committed n1 + 1)). rewrite Hbl. cbn. rewrite Hb. apply ends_ret. by destruct Hl2.
  - intros _ n3 Hl3. apply ends_bindM. unfold get_new_proposal_number. apply ends_bindM, ends_ret. unfold run_tx. ends_upds.
    apply ends_ret. unfold send_quorum. ends_upds. apply HQ. by destruct Hl3.
Qed.

Lemma finish_leading q r e k fs n : leading q r e n -> sound_disk n ->
  leading q r e (fold_left (finish_context k) fs n) /\ sound_disk (fold_left (finish_context k) fs n).
Proof. intros [] Hd. destruct (finish_fields k fs n) as (b & l & ->). by split. Qed.

Lemma ends_win q e md n (Q : unit -> node -> Prop) : mstate n = MON_ELECTING -> epoch n = e -> sound_disk n -> size q <> 1%nat ->
  (forall n', leading q (rank n) e n' -> Q tt n') -> ends (win_election q md n) Q.
Proof.
  intros Hm He Hd Hq HQ. unfold win_election. apply ends_bindM, ends_ret, ends_bindM. unfold is_electing. rewrite Hm. apply ends_ret.
  ends_upds. unfold leader_init, cancel_events, reset_pending_committing_finishers. apply ends_bindM. ends_upds.
  match goal with |- ends (_ (fold_left ?f ?fs ?k)) _ => pose proof (finish_leading q (rank n) e (- EAGAIN) fs k) as Hf; set (n1 := fold_left f fs k) in * end.
  destruct Hf as [Hl1 Hd1]; [done | done |]. clearbody n1. apply ends_bindM, ends_ret. unfold quorum_size. rewrite (ld_quorum _ _ _ _ Hl1).
  rewrite (proj2 (Z.eqb_neq _ _)) by lia. ends_upds.
  apply (ends_collect q (rank n) e); [by destruct Hl1 | done |]. intros n2 Hl2.
  apply ends_bindM. unfold get_pending_transaction. apply ends_bindM, ends_ret, ends_bindM. unfold is_leader. rewrite (ld_mstate _ _ _ _ Hl2).
  apply ends_ret. destruct (pending_proposal n2) as [t |]; [apply ends_ret |].
  - ends_upds. apply HQ. by destruct Hl2.
  - ends_upds. rewrite (ld_finishers _ _ _ _ Hl2). apply ends_bindM, ends_ret, ends_ret. ends_upds. apply HQ. by destruct Hl2.
Qed.

(** ** Following *)

Record following (q : gset Z) (r e : Z) (n : node) : Prop := {
  fl_mstate : mstate n = MON_PEON;
  fl_quorum : quorum n = q;
  fl_leader : leader n = r;
  fl_epoch : epoch n = e
}.

Lemma ends_lose q l n (Q : unit -> node -> Prop) : (forall n', following q l (epoch n) n' -> outbox n' = outbox n -> Q tt n') ->
  ends (lose_election q l n) Q.
Proof.
  intros HQ. unfold lose_election, peon_init, cancel_events, reset_lease_timeout, reset_pending_committing_finishers. ends_upds.
  match goal with |- Q _ (fold_left (finish_context ?k) ?fs ?m) => destruct (finish_fields k fs m) as (b & l' & ->) end. apply HQ; [by split | done].
Qed.

(** ** The elector's handlers *)

(** A monitor accepts the messages of its own version. *)
Record compatible (ec : election_conf) : Prop := {
  cm_features : lacks (required_features ec) (CEPH_FEATURES_ALL ec) = false;
  cm_mon_features : lacks (required_mon_features ec) (supported_mon_features ec) = false;
  cm_release : min_mon_release ec <= my_release ec
}.

(** A monitor that takes part in elections: no write is under way, and it is
    past the probing. *)
Record ready (r e : Z) (x : mon) : Prop := {
  rd_rank : rank (m_node x) = r;
  rd_probing : is_probing (m_node x) = false;
  rd_up : up x = true;
  rd_idle : writing (m_node x) = false;
  rd_outbox : outbox (m_node x) = [];
  rd_part : participating x = true;
  rd_strategy : strategy x = CLASSIC;
  rd_epoch : l_epoch x = e
}.

Section Handlers.
Context (ec : election_conf) (ee : election_env).
Hypothesis Hcompat : compatible ec.
Hypothesis Hsize : 0 < paxos_size ec.

Record plain (op : election_op) (e : Z) (m : MMonElection) : Prop := {
  pl_op : em_op m = op;
  pl_epoch : em_epoch m = e;
  pl_features : em_con_features m = CEPH_FEATURES_ALL ec;
  pl_mon_features : em_mon_features m = supported_mon_features ec;
  pl_release : em_mon_release m = my_release ec;
  pl_strategy : em_strategy m = CLASSIC
}.

Lemma ends_updE f x (Q : unit -> mon -> Prop) : Q tt (f x) -> ends (update f x) Q.
Proof. apply ends_ret. Qed.
Lemma ends_this x (Q : mon -> mon -> Prop) : Q x x -> ends (this x) Q.
Proof. apply ends_ret. Qed.
Lemma ends_require b x (Q : unit -> mon -> Prop) : b = true -> Q tt x -> ends (require b x) Q.
Proof. intros ->. apply ends_ret. Qed.

Lemma ends_lift (m : M unit) x (Q : unit -> mon -> Prop) :
  ends (m (m_node x)) (fun _ n => Q tt (set_m_node (set_outbox [] n) (set_m_paxos_out (m_paxos_out x ++ outbox n) x))) -> ends (lift m x) Q.
Proof. intros ([] & n & H & HQ). rewrite (lift_eq _ _ _ _ H). by apply ends_ret. Qed.

(** What [join_election] and [bump_epoch] leave of a monitor. *)
Record moved (e : Z) (x x' : mon) : Prop := {
  mv_node : m_node x' = joined (set_epoch e (m_node x));
  mv_out : m_out x' = m_out x;
  mv_part : participating x' = participating x;
  mv_strategy : strategy x' = strategy x;
  mv_peers : peer_info x' = peer_info x;
  mv_acked : leader_acked x' = leader_acked x
}.

Lemma ends_bump e x (Q : unit -> mon -> Prop) : writing (m_node x) = false -> outbox (m_node x) = [] -> l_epoch x <= e ->
  (forall x', moved e x x' -> acked_me x' = ∅ -> Q tt x') -> ends (bump_epoch ec ee e x) Q.
Proof.
  intros Hw Ho He HQ. rewrite bump_eq by done. apply ends_lift. rewrite bumped_node.
  rewrite (join_idle (paxos_conf ec) (paxos_env ee) (set_epoch e (m_node x)) Hw). apply ends_ret.
  pose proof (wiped_fields (set_epoch e (m_node x))) as (_ & _ & W3 & _).
  assert (Hj : outbox (joined (set_epoch e (m_node x))) = []) by (etransitivity; [exact W3 | exact Ho]).
  apply HQ; [| reflexivity]. split; try reflexivity. cbn [m_node set_m_node set_m_paxos_out]. by apply set_outbox_nil.
Qed.

Lemma moved_ready r e e0 x x' : ready r e0 x -> moved e x x' -> ready r e x'.
Proof.
  intros [] []. pose proof (wiped_fields (set_epoch e (m_node x))) as (W1 & W2 & W3 & W4 & W5 & _).
  split; unfold l_epoch, up, is_probing, writing, is_writing, is_writing_previous in *; rewrite ?mv_node0, ?mv_part0, ?mv_strategy0; try done.
  - change (rank (wiped (set_epoch e (m_node x))) = r). by rewrite W2.
  - change (state (joined (set_epoch e (m_node x)))) with (state (wiped (set_epoch e (m_node x)))). by rewrite W5.
  - change (outbox (wiped (set_epoch e (m_node x))) = []). by rewrite W3.
Qed.

(** What comes before the handler of a message. *)
Lemma ends_dispatch r e from m x (Q : unit -> mon -> Prop) : ready r e x -> 0 <= from < paxos_size ec -> em_strategy m = CLASSIC ->
  (forall p, ends (match em_op m with
     | OP_PROPOSE => handle_propose ec ee from m
     | op =>
         s ← this;
         if em_epoch m <? l_epoch s then mret tt
         else
           match op with
           | OP_ACK => handle_ack ec ee from m
           | OP_VICTORY => handle_victory ec ee from m
           | _ => handle_nak
           end
     end (set_pings p x)) Q) -> ends (election_dispatch ec ee from m x) Q.
Proof.
  intros [] Hf Hm HQ. unfold election_dispatch, elector_dispatch. apply ends_bindE, ends_this. rewrite rd_probing0.
  apply ends_bindE, ends_this. rewrite rd_part0, rd_strategy0, Hm. cbn [negb]. rewrite (proj2 (Z.leb_gt _ _)) by lia.
  rewrite bool_decide_eq_true_2 by done. cbn [negb]. apply ends_bindE, ends_updE, HQ.
Qed.

(** A peer defers to rank 0. *)
Lemma ends_defer r e x (Q : unit -> mon -> Prop) : ready r e x -> 0 < r ->
  (forall x' a, ready r e x' -> m_out x' = m_out x ++ [(0, a)] -> plain OP_ACK e a -> Q tt x') -> ends (defer ec 0 x) Q.
Proof.
  intros Hx Hr HQ. unfold defer. apply ends_bindE, ends_this, ends_bindE. rewrite (rd_strategy _ _ _ Hx).
  apply ends_require; [unfold my_rank; rewrite (rd_rank _ _ _ Hx); by apply Z.ltb_lt |]. apply ends_bindE.
  apply (ends_mono _ (fun _ x' => ready r e x' /\ m_out x' = m_out x)).
  - destruct (electing_me x); [apply ends_updE | by apply ends_ret]. split; [by destruct Hx | done].
  - intros _ x1 [H1 Ho1]. apply ends_bindE, ends_updE. unfold _defer_to. apply ends_bindE, ends_this, ends_bindE, ends_updE, ends_updE.
    eapply HQ; [by destruct H1 | by rewrite <- Ho1 |]. split; try done; apply H1.
Qed.

Lemma ends_classic_prefix r e0 e x (Q : bool -> mon -> Prop) : ready r e0 x -> e0 <= e ->
  (forall x', ready r e x' -> m_out x' = m_out x -> Q false x') -> ends (propose_classic_prefix ec ee 0 e x) Q.
Proof.
  intros Hx He HQ. unfold propose_classic_prefix. apply ends_bindE, ends_this. rewrite (rd_epoch _ _ _ Hx).
  destruct (Z.ltb_spec e0 e) as [Hlt | Hge].
  - apply ends_bindE, ends_bump; [apply Hx | apply Hx | rewrite (rd_epoch _ _ _ Hx); lia |]. intros x' Hmv _. apply ends_ret, HQ; [| apply Hmv].
    by eapply moved_ready.
  - assert (e0 = e) as -> by lia. rewrite Z.ltb_irrefl. by apply ends_ret, HQ.
Qed.

Lemma ends_propose r e0 e m x (Q : unit -> mon -> Prop) : ready r e0 x -> e0 <= e -> 0 < r -> Z.odd e = true -> plain OP_PROPOSE e m ->
  (forall x' a, ready r e x' -> m_out x' = m_out x ++ [(0, a)] -> plain OP_ACK e a -> Q tt x') -> ends (election_dispatch ec ee 0 m x) Q.
Proof.
  intros Hx He Hr Hodd Hm HQ. apply (ends_dispatch r e0); [done | lia | apply Hm |]. intros p. rewrite (pl_op _ _ _ Hm).
  assert (Hy : ready r e0 (set_pings p x)) by (by destruct Hx). change (m_out x) with (m_out (set_pings p x)) in HQ.
  revert Hy HQ. generalize (set_pings p x) as y. clear x Hx p. intros y Hy HQ.
  unfold handle_propose. destruct Hm as [M1 M2 M3 M4 M5 M6], Hcompat as [C1 C2 C3].
  apply ends_bindE, ends_require; [by rewrite M2 |]. rewrite M2, M3, M4, M5, C1, C2. rewrite (proj2 (Z.ltb_ge _ _)) by done. cbn [provided].
  apply ends_bindE, ends_ret. unfold receive_propose. apply ends_bindE, ends_this. unfold my_rank. rewrite (rd_rank _ _ _ Hy), (rd_strategy _ _ _ Hy).
  rewrite (proj2 (Z.eqb_neq _ _)) by lia. unfold propose_classic_handler. apply ends_bindE, (ends_classic_prefix r e0); [done | done |].
  intros y1 H1 Ho1. cbn [negb provided]. apply ends_bindE, ends_this. unfold my_rank. rewrite (rd_rank _ _ _ H1), (proj2 (Z.ltb_ge _ _)) by lia.
  replace (_ || _ || _) with true by (symmetry; lia). apply (ends_defer r e); [done | done |]. intros y2 a. rewrite Ho1. apply HQ.
Qed.

(** It follows when rank 0 claims its victory. *)
Lemma ends_victory r e m q x (Q : unit -> mon -> Prop) : ready r e x -> 0 < r -> em_op m = OP_VICTORY -> em_epoch m = e + 1 -> em_quorum m = q ->
  em_strategy m = CLASSIC -> (forall x', following q 0 (e + 1) (m_node x') -> m_out x' = m_out x -> Q tt x') ->
  ends (election_dispatch ec ee 0 m x) Q.
Proof.
  intros Hx Hr M1 M2 M3 M4 HQ. apply (ends_dispatch r e); [done | lia | done |]. intros p. rewrite M1, M2.
  assert (Hy : ready r e (set_pings p x)) by (by destruct Hx). change (m_out x) with (m_out (set_pings p x)) in HQ.
  revert Hy HQ. generalize (set_pings p x) as y. clear x Hx p. intros y Hy HQ.
  apply ends_bindE, ends_this. rewrite (rd_epoch _ _ _ Hy), (proj2 (Z.ltb_ge _ _)) by lia. unfold handle_victory. apply ends_bindE.
  unfold receive_victory_claim. apply ends_bindE, ends_this. unfold victory_makes_sense, my_rank.
  rewrite (rd_strategy _ _ _ Hy), (rd_rank _ _ _ Hy), (proj2 (Z.ltb_lt _ _)) by lia. apply ends_bindE, ends_updE. unfold clear_live_election_state.
  apply ends_bindE, ends_bindE, ends_updE, ends_bindE, ends_updE, ends_updE, ends_bindE, ends_this. cbn [negb].
  match goal with |- ends (_ ?z) _ => assert (Hz : ready r e z /\ m_out z = m_out y) by (split; [by destruct Hy | done]); revert Hz; generalize z end.
  intros z [Hz Hoz]. rewrite M2, (rd_epoch _ _ _ Hz), Z.eqb_refl. cbn [negb].
  apply ends_bindE, ends_bump; [apply Hz | apply Hz | rewrite (rd_epoch _ _ _ Hz); lia |]. intros z1 Hmv _. apply ends_ret. cbn [provided].
  pose proof (moved_ready r (e + 1) e z z1 Hz Hmv) as H1. apply ends_bindE, ends_lift, ends_lose. intros n Hn Ho. apply ends_updE.
  assert (He1 : epoch (m_node z1) = e + 1) by apply H1. rewrite M3, He1 in Hn.
  apply HQ; [by destruct Hn | etransitivity; [apply Hmv | exact Hoz]].
Qed.

(** Rank 0 proposes itself: the epoch [ElectionLogic::start] proposes. *)
Definition next_epoch (persisted : Z) : Z := if persisted =? 0 then 1 else if Z.odd persisted then persisted + 2 else persisted + 1.

Lemma next_odd p : Z.odd (next_epoch p) = true.
Proof.
  unfold next_epoch. destruct (p =? 0); [done |]. destruct (Z.odd p) eqn:Hp; [by rewrite Z.odd_add, Hp |].
  by rewrite Z.odd_add, Hp.
Qed.

(** Rank 0 has the votes of [A]. *)
Record counting (e : Z) (A : gset Z) (x : mon) : Prop := {
  ct_ready : ready 0 e x;
  ct_mstate : mstate (m_node x) = MON_ELECTING;
  ct_electing : electing_me x = true;
  ct_acked : acked_me x = A;
  ct_peers : A ⊆ dom (peer_info x)
}.

(** A monitor of the classic strategy that has joined an election. *)
Record electing (r e : Z) (x : mon) : Prop := { el_ready : ready r e x; el_mstate : mstate (m_node x) = MON_ELECTING }.

Lemma moved_electing r e e0 x x' : ready r e0 x -> moved e x x' -> electing r e x'.
Proof. intros Hx Hmv. split; [by eapply moved_ready | by rewrite (mv_node _ _ _ Hmv)]. Qed.

Lemma ends_init r e0 x (Q : unit -> mon -> Prop) : electing r e0 x ->
  (forall x', electing r (if persisted_epoch x =? 0 then 1 else if Z.odd (persisted_epoch x) then persisted_epoch x + 1 else persisted_epoch x) x' ->
     m_out x' = m_out x -> acked_me x' = acked_me x -> Q tt x') -> ends (Election.init x) Q.
Proof.
  intros Hx HQ. unfold Election.init. apply ends_bindE, ends_this.
  assert (He : forall e, electing r e (set_l_epoch e x)) by (intros e; destruct Hx as [[] ?]; by split).
  destruct (persisted_epoch x =? 0); [by apply ends_updE, HQ |]. destruct (Z.odd (persisted_epoch x)); [| by apply ends_updE, HQ].
  apply ends_bindE, ends_updE, ends_updE, HQ; [| done | done]. specialize (He (persisted_epoch x + 1)). by destruct He as [[] ?].
Qed.

Lemma ends_next r e0 x (k : E unit) (Q : unit -> mon -> Prop) : electing r e0 x -> acked_me x = ∅ ->
  (forall x', electing r (next_epoch (persisted_epoch x)) x' -> m_out x' = m_out x -> acked_me x' = ∅ -> ends (k x') Q) ->
  ends ((Election.init;; s ← this; provided (Z.even (l_epoch s)) (bump_epoch ec ee (l_epoch s + 1));; k) x) Q.
Proof.
  intros Hx Ha HQ. apply ends_bindE, (ends_init r e0); [done |]. intros x1 H1 Ho1 Ha1. apply ends_bindE, ends_this, ends_bindE.
  rewrite (rd_epoch _ _ _ (el_ready _ _ _ H1)). unfold next_epoch in HQ.
  assert (Hb : forall e, electing r e x1 -> ends (bump_epoch ec ee (e + 1) x1) (fun _ x' => electing r (e + 1) x' /\ m_out x' = m_out x /\ acked_me x' = ∅)).
  { intros e [He _]. apply ends_bump; [apply He | apply He | rewrite (rd_epoch _ _ _ He); lia |]. intros x2 Hmv Ha2.
    split; [by eapply moved_electing | split; [| done]]. by rewrite (mv_out _ _ _ Hmv). }
  destruct (persisted_epoch x =? 0); [apply ends_ret, HQ; congruence |].
  destruct (Z.odd (persisted_epoch x)) eqn:Hp; [rewrite Z.even_add |]; rewrite <- Z.negb_odd, Hp; cbn [provided negb Z.even Bool.eqb];
    (eapply ends_mono; [by apply Hb |]); intros [] x2 (H2 & Ho2 & Ha2); apply HQ; try done.
  by replace (persisted_epoch x + 2) with (persisted_epoch x + 1 + 1) by lia.
Qed.

Lemma ends_join x (Q : unit -> mon -> Prop) : writing (m_node x) = false -> outbox (m_node x) = [] ->
  (forall x', moved (l_epoch x) x x' -> persisted_epoch x' = persisted_epoch x -> Q tt x') ->
  ends (lift (join_election (paxos_conf ec) (paxos_env ee)) x) Q.
Proof.
  intros Hw Ho HQ. apply ends_lift. rewrite (join_idle (paxos_conf ec) (paxos_env ee) (m_node x) Hw). apply ends_ret.
  pose proof (wiped_fields (m_node x)) as (_ & _ & W3 & _).
  assert (Hj : outbox (joined (m_node x)) = []) by (etransitivity; [exact W3 | exact Ho]).
  apply HQ; [| reflexivity]. split; try reflexivity. cbn [m_node set_m_node set_m_paxos_out]. unfold l_epoch. rewrite set_epoch_id. by apply set_outbox_nil.
Qed.

Lemma ends_call r e x (Q : unit -> mon -> Prop) : electing r e x ->
  (forall x' m, electing r e x' -> electing_me x' = electing_me x -> acked_me x' = acked_me x -> dom (peer_info x') = {[r]} ->
     m_out x' = m_out x ++ map (fun k => (k, m)) (filter (fun k => k <> r) (seqZ 0 (paxos_size ec))) -> plain OP_PROPOSE e m -> Q tt x') ->
  ends ((s ← this; propose_to_peers ec (l_epoch s) (if bool_decide (strategy s = CONNECTIVITY) then stable_peer_tracker s else None);;
         _start ec) x) Q.
Proof.
  intros [Hx Hm] HQ. pose proof Hx as []. apply ends_bindE, ends_this. rewrite rd_strategy0, bool_decide_eq_false_2 by done.
  unfold propose_to_peers, _start, reset_timer. apply ends_bindE, ends_updE, ends_bindE, ends_updE, ends_updE.
  change (rank (m_node x)) with (my_rank x) in rd_rank0.
  apply (HQ _ (with_sharing None (election_msg ec OP_PROPOSE (l_epoch x) x))); cbn; fold (my_rank x); rewrite ?rd_rank0; try done.
  rewrite dom_singleton_L. f_equal. exact rd_rank0.
Qed.

Lemma ends_start_election x (Q : unit -> mon -> Prop) : ready 0 (l_epoch x) x ->
  let e := next_epoch (persisted_epoch x) in
  (forall x' m, counting e {[0]} x' -> m_out x' = m_out x ++ map (fun r => (r, m)) (filter (fun r => r <> 0) (seqZ 0 (paxos_size ec))) ->
     plain OP_PROPOSE e m -> Q tt x') -> ends (start_election ec ee x) Q.
Proof.
  intros Hx e HQ. unfold start_election. apply ends_bindE, ends_join; [apply Hx | apply Hx |]. intros x1 Hmv Hp.
  pose proof (moved_electing _ _ _ _ _ Hx Hmv) as H1. unfold start. apply ends_bindE, ends_this.
  rewrite (rd_part _ _ _ (el_ready _ _ _ H1)). cbn [negb]. apply ends_bindE, ends_updE.
  apply (ends_next 0 (l_epoch x)); [by destruct H1 as [[] ?] | done |]. cbn [m_out persisted_epoch set_acked_me]. rewrite Hp. fold e.
  intros x2 H2 Ho2 Ha2. apply ends_bindE, ends_updE. unfold clear_live_election_state, reset_stable_tracker.
  apply ends_bindE, ends_bindE, ends_updE, ends_bindE, ends_updE, ends_updE, ends_bindE, ends_updE, ends_bindE, ends_updE.
  match goal with |- ends (_ ?z) _ => assert (Hz : electing 0 e z /\ m_out z = m_out x /\ acked_me z = {[0]} /\ electing_me z = true) end.
  { pose proof H2 as [[] Hm2]. split_and!; [by destruct H2 as [[] ?] | cbn; by rewrite Ho2, (mv_out _ _ _ Hmv) | cbn | done].
    unfold my_rank. rewrite rd_rank0, Ha2. set_solver. }
  destruct Hz as (Hz & Hoz & Haz & Hez). apply (ends_call 0 e); [done |]. intros x3 m H3 He3 Ha3 Hd3 Ho3 Hm.
  apply (HQ _ m); [| by rewrite Ho3, Hoz | done]. split; try apply H3; [by rewrite He3 | by rewrite Ha3 | by rewrite Hd3].
Qed.

(** Counting the votes. *)
Lemma quorum_info_total q x : q ⊆ dom (peer_info x) -> is_Some (quorum_info ec q x).
Proof.
  intros Hq. unfold quorum_info. assert (Hl : Forall (fun r => is_Some (peer_info x !! r)) (elements q)).
  { apply Forall_forall. intros r Hr%elem_of_elements. by apply elem_of_dom, Hq. }
  revert Hl. generalize (elements q) as l. intros l. match goal with |- context [fold_left _ _ (Some ?a)] => generalize a end.
  induction l as [| r l IH]; intros a Hl; [done |]. apply Forall_cons in Hl as [[i Hi] Hl]. cbn. rewrite Hi. by apply IH.
Qed.

Record claim (e : Z) (q : gset Z) (m : MMonElection) : Prop := {
  vc_op : em_op m = OP_VICTORY;
  vc_epoch : em_epoch m = e;
  vc_quorum : em_quorum m = q;
  vc_strategy : em_strategy m = CLASSIC
}.

Lemma joined_disk e n : sound_disk n -> sound_disk (joined (set_epoch e n)).
Proof. unfold sound_disk, joined, wiped. edestruct finish_fields as (b & l & ->). done. Qed.

Lemma ends_message q e x (Q : unit -> mon -> Prop) : electing 0 e x -> sound_disk (m_node x) -> q ⊆ dom (peer_info x) -> size q <> 1%nat ->
  (forall x' v, leading q 0 e (m_node x') -> m_out x' = m_out x ++ map (fun r => (r, v)) (filter (fun r => r <> 0) (elements q)) ->
     claim e q v -> Q tt x') -> ends (message_victory ec ee q x) Q.
Proof.
  intros [Hx Hm] Hd Hq Hsz HQ. unfold message_victory. apply ends_bindE, ends_this. destruct (quorum_info_total q x Hq) as [info ->].
  apply ends_bindE, ends_updE, ends_bindE, ends_updE. apply ends_lift. pose proof Hx as [].
  apply (ends_win q e); [done | done | done | done |]. cbn. rewrite rd_rank0. intros n Hn.
  change (rank (m_node x)) with (my_rank x) in rd_rank0.
  apply (HQ _ (with_victory q info (election_msg ec OP_VICTORY (l_epoch x) x))); [by destruct Hn | | by split].
  unfold my_rank in *. cbn in *. rewrite rd_rank0. reflexivity.
Qed.

Lemma ends_declare e A x (Q : unit -> mon -> Prop) : counting e A x -> sound_disk (m_node x) -> Z.odd e = true -> size A <> 1%nat ->
  (forall x' v, leading A 0 (e + 1) (m_node x') -> m_out x' = m_out x ++ map (fun r => (r, v)) (filter (fun r => r <> 0) (elements A)) ->
     claim (e + 1) A v -> Q tt x') -> ends (declare_victory ec ee x) Q.
Proof.
  intros [Hx Hm He Ha Hp] Hd Hodd Hsz HQ. unfold declare_victory, clear_live_election_state, reset_stable_tracker.
  apply ends_bindE, ends_updE, ends_bindE, ends_updE, ends_bindE, ends_bindE, ends_updE, ends_bindE, ends_updE, ends_updE.
  match goal with |- ends (_ ?z) _ =>
    assert (Hz : electing 0 e z /\ m_out z = m_out x /\ acked_me z = A /\ m_node z = m_node x /\ peer_info z = peer_info x)
      by (split; [by destruct Hx | done]); revert Hz; generalize z end.
  intros z (Hz & Hoz & Haz & Hnz & Hpz). apply ends_bindE, ends_this, ends_bindE, ends_updE. rewrite Haz.
  match goal with |- ends (_ ?y) _ =>
    assert (Hy : electing 0 e y /\ m_out y = m_out x /\ m_node y = m_node x /\ peer_info y = peer_info x)
      by (split; [by destruct Hz as [[] ?] | done]); revert Hy; generalize y end.
  intros y (Hy & Hoy & Hny & Hpy). rewrite (rd_epoch _ _ _ (el_ready _ _ _ Hz)). apply ends_bindE, ends_require; [done |].
  destruct Hy as [Hy _]. apply ends_bindE, ends_bump; [apply Hy | apply Hy | rewrite (rd_epoch _ _ _ Hy); lia |]. intros y1 Hmv _.
  apply (ends_message A (e + 1)); [by eapply moved_electing | | | done |].
  - rewrite (mv_node _ _ _ Hmv), Hny. by apply joined_disk.
  - by rewrite (mv_peers _ _ _ Hmv), Hpy.
  - intros x' v. rewrite (mv_out _ _ _ Hmv), Hoy. apply HQ.
Qed.

Lemma ends_ack e A p m x (Q : unit -> mon -> Prop) : counting e A x -> sound_disk (m_node x) -> Z.odd e = true -> 1 < paxos_size ec ->
  0 < p < paxos_size ec -> plain OP_ACK e m -> let A' := {[p]} ∪ A in
  (Z.of_nat (size A') <> paxos_size ec -> forall x', counting e A' x' -> m_node x' = m_node x -> m_out x' = m_out x -> Q tt x') ->
  (Z.of_nat (size A') = paxos_size ec -> forall x' v, leading A' 0 (e + 1) (m_node x') ->
     m_out x' = m_out x ++ map (fun r => (r, v)) (filter (fun r => r <> 0) (elements A')) -> claim (e + 1) A' v -> Q tt x') ->
  ends (election_dispatch ec ee p m x) Q.
Proof.
  intros Hx Hd Hodd Hn Hp Hm A' Hsome Hall. apply (ends_dispatch 0 e); [apply Hx | lia | apply Hm |]. intros pg.
  rewrite (pl_op _ _ _ Hm), (pl_epoch _ _ _ Hm). destruct Hx as [Hx Hms He Ha Hpi].
  apply ends_bindE, ends_this. change (l_epoch (set_pings pg x)) with (l_epoch x). rewrite (rd_epoch _ _ _ Hx), Z.ltb_irrefl.
  unfold handle_ack. apply ends_bindE, ends_this. change (l_epoch (set_pings pg x)) with (l_epoch x). 
  change (electing_me (set_pings pg x)) with (electing_me x). rewrite (rd_epoch _ _ _ Hx), He, (pl_epoch _ _ _ Hm).
  apply ends_bindE, ends_require; [by apply Z.eqb_eq |]. rewrite (pl_features _ _ _ Hm), (pl_mon_features _ _ _ Hm), (cm_features _ Hcompat), (cm_mon_features _ Hcompat).
  cbn [provided]. apply ends_bindE, ends_bindE, ends_updE, ends_bindE, ends_this, ends_require.
  { apply bool_decide_eq_true_2. cbn. rewrite Ha. etransitivity; [exact Hpi |]. rewrite dom_insert_L. set_solver. }
  unfold receive_ack. apply ends_bindE, ends_require; [done |]. apply ends_bindE, ends_this.
  match goal with |- ends (_ ?z) _ => assert (Hz : ready 0 e z /\ mstate (m_node z) = MON_ELECTING /\ electing_me z = true /\ acked_me z = A /\
    A' ⊆ dom (peer_info z) /\ m_out z = m_out x /\ m_node z = m_node x) end.
  { split_and!; try done; [by destruct Hx |]. cbn. rewrite dom_insert_L. set_solver. }
  revert Hz. match goal with |- _ -> ends (_ ?z) _ => generalize z end. intros z (Z1 & Z2 & Z3 & Z4 & Z5 & Z6 & Z7).
  rewrite (rd_epoch _ _ _ Z1), Z.ltb_irrefl, Z3. apply ends_bindE, ends_updE, ends_bindE, ends_this. cbn. rewrite Z4. fold A'.
  assert (Hc : counting e A' (set_acked_me A' z)) by (split; try done; by destruct Z1).
  destruct (Z.eqb_spec (Z.of_nat (size A')) (paxos_size ec)) as [Hs | Hs]; cbn [provided].
  - apply (ends_declare e A'); [done | by rewrite <- Z7 in Hd | done | lia |]. intros x' v. cbn. rewrite Z6. by apply Hall.
  - apply ends_ret, Hsome; try done.
Qed.
End Handlers.

(** ** The cluster *)

Section Cluster.
Context (ec : election_conf).
Hypothesis Hconf : conf_ok (paxos_conf ec).
Hypothesis Hcompat : compatible ec.

Lemma paxos_size_big : 1 < paxos_size ec.
Proof. apply Hconf. Qed.

Definition after (i : Z) (x' : mon) (s : cluster) : cluster :=
  Cluster (<[i := sent x']> (mons s)) (post i (m_paxos_out x') (paxos_net s)) (epost i (m_out x') (elect_net s)).

Lemma crun_ends i m s x (Q : mon -> Prop) : mons s !! i = Some x -> up x = true -> ends (m x) (fun _ => Q) ->
  exists x', crun i m s = Some (after i x' s) /\ Q x'.
Proof. intros Hx Hu ([] & x' & Hm & HQ). exists x'. unfold crun. rewrite Hx. cbn. rewrite Hu, Hm. done. Qed.

Lemma after_chan i x' s a b : echan (after i x' s) a b = echan s a b ++ (if decide (a = i) then map snd (filter (fun e => e.1 = b) (m_out x')) else []).
Proof. apply epost_lookup. Qed.

(** Taking the first message of a channel. *)
Definition pop (from to : Z) (q : list MMonElection) (s : cluster) : cluster :=
  Cluster (mons s) (paxos_net s) (<[(from, to) := q]> (elect_net s)).

Lemma pop_chan from to q s a b : echan (pop from to q s) a b = if decide (a = from /\ b = to) then q else echan s a b.
Proof.
  unfold echan, pop. cbn. case_decide as H; [destruct H as [-> ->]; by rewrite lookup_insert_eq |].
  rewrite lookup_insert_ne; [done |]. intros [= -> ->]. by destruct H.
Qed.

Lemma deliver_ends from to ee s m q x (Q : mon -> Prop) : echan s from to = m :: q -> mons s !! to = Some x -> up x = true ->
  ends (election_dispatch ec ee from m x) (fun _ => Q) ->
  exists x', cstep ec (EvDeliver from to) ee s = Some (after to x' (pop from to q s)) /\ Q x'.
Proof. intros Hq Hx Hu Hm. cbn [cstep]. rewrite Hq. by apply (crun_ends to _ (pop from to q s) x). Qed.

(** What concerns peer [p]. *)
Definition view (s : cluster) (p : Z) : option mon * list MMonElection * list MMonElection := (mons s !! p, echan s 0 p, echan s p 0).

Definition asked (e : Z) (s : cluster) (p : Z) : Prop := exists x e0 m,
  view s p = (Some x, [m], []) /\ ready p e0 x /\ e0 <= e /\ m_out x = [] /\ plain ec OP_PROPOSE e m.
Definition answered (e : Z) (s : cluster) (p : Z) : Prop := exists x a,
  view s p = (Some x, [], [a]) /\ ready p e x /\ m_out x = [] /\ plain ec OP_ACK e a.
Definition told (e : Z) (q : gset Z) (s : cluster) (p : Z) : Prop := exists x v,
  view s p = (Some x, [v], []) /\ ready p e x /\ m_out x = [] /\ claim (e + 1) q v.
Definition follows (e : Z) (q : gset Z) (s : cluster) (p : Z) : Prop := exists x,
  view s p = (Some x, [], []) /\ following q 0 (e + 1) (m_node x).

Lemma ready_sent r e x : ready r e x -> ready r e (sent x).
Proof. by intros []. Qed.

Lemma view_peer p x' l s : p <> 0 ->
  view (after p x' (pop 0 p l s)) p = (Some (sent x'), l, echan s p 0 ++ map snd (filter (fun e => e.1 = 0) (m_out x'))) /\
  mons (after p x' (pop 0 p l s)) !! 0 = mons s !! 0 /\
  forall q, q <> p -> q <> 0 -> view (after p x' (pop 0 p l s)) q = view s q.
Proof.
  intros Hp. unfold view. split; [| split].
  - rewrite !after_chan, !pop_chan. cbn. rewrite lookup_insert_eq. repeat case_decide; try lia; by rewrite app_nil_r.
  - cbn. by rewrite lookup_insert_ne.
  - intros q Hq Hq0. rewrite !after_chan, !pop_chan. cbn. rewrite lookup_insert_ne by done. repeat case_decide; try lia. by rewrite !app_nil_r.
Qed.

Lemma view_leader p x' l s q : q <> 0 ->
  view (after 0 x' (pop p 0 l s)) q =
    (mons s !! q, echan s 0 q ++ map snd (filter (fun e => e.1 = q) (m_out x')), if decide (q = p) then l else echan s q 0).
Proof.
  intros Hq. unfold view. rewrite !after_chan, !pop_chan. cbn. rewrite lookup_insert_ne by done.
  repeat case_decide; try lia; by rewrite !app_nil_r.
Qed.

(** A peer answers the proposal. *)
Lemma answer_step e ee s p : Z.odd e = true -> 0 < p -> asked e s p ->
  exists s', cstep ec (EvDeliver 0 p) ee s = Some s' /\ answered e s' p /\ mons s' !! 0 = mons s !! 0 /\
    forall q, q <> p -> q <> 0 -> view s' q = view s q.
Proof.
  intros Hodd Hp (x & e0 & m & Hv & Hx & He & Ho & Hm). unfold view in Hv. injection Hv as H1 H2 H3.
  destruct (deliver_ends 0 p ee s m [] x (fun x' => ready p e x' /\ exists a, m_out x' = [(0, a)] /\ plain ec OP_ACK e a) H2 H1 (rd_up _ _ _ Hx))
    as (x' & Hst & Hx' & a & Ho' & Ha).
  { apply (ends_propose ec ee Hcompat ltac:(pose proof paxos_size_big; lia) p e0 e); try done. intros x' a H4 H5 H6. split; [done |].
    exists a. split; [by rewrite H5, Ho | done]. }
  destruct (view_peer p x' [] s ltac:(lia)) as (V1 & V2 & V3). eexists. split; [exact Hst |]. split; [| done].
  exists (sent x'), a. rewrite V1, H3, Ho'. split; [done |]. split; [by apply ready_sent | done].
Qed.

(** A peer follows when it is told of the victory. *)
Lemma follow_step e q ee s p : 0 < p -> told e q s p ->
  exists s', cstep ec (EvDeliver 0 p) ee s = Some s' /\ follows e q s' p /\ mons s' !! 0 = mons s !! 0 /\
    forall k, k <> p -> k <> 0 -> view s' k = view s k.
Proof.
  intros Hp (x & v & Hv & Hx & Ho & Hm). unfold view in Hv. injection Hv as H1 H2 H3.
  destruct (deliver_ends 0 p ee s v [] x (fun x' => following q 0 (e + 1) (m_node x') /\ m_out x' = []) H2 H1 (rd_up _ _ _ Hx)) as (x' & Hst & Hx' & Ho').
  { apply (ends_victory ec ee ltac:(pose proof paxos_size_big; lia) p e v q); try done; try apply Hm. intros x' Hf Hx'. split; [done |]. by rewrite Hx'. }
  destruct (view_peer p x' [] s ltac:(lia)) as (V1 & V2 & V3). eexists. split; [exact Hst |]. split; [| done].
  exists (sent x'). by rewrite V1, H3, Ho'.
Qed.

(** Rank 0 counts a vote. *)
Definition counted (e : Z) (s : cluster) (p : Z) : Prop := exists x, view s p = (Some x, [], []) /\ ready p e x /\ m_out x = [].

Lemma mail_of {A} (v : A) (l : list Z) k : NoDup l ->
  map snd (filter (fun e => e.1 = k) (map (fun r => (r, v)) l)) = if decide (k ∈ l) then [v] else [].
Proof.
  induction l as [| r l IH]; intros Hnd; [done |]. apply NoDup_cons in Hnd as [Hr Hnd]. cbn [map]. rewrite filter_cons. cbn [fst].
  match goal with |- map snd (if ?d then _ else _) = _ => destruct d as [Hk | Hk] end; cbn [fst] in Hk; cbn [map snd]; rewrite IH by done.
  - subst k. rewrite decide_False, decide_True by (done || by left). done.
  - apply decide_ext. rewrite elem_of_cons. naive_solver.
Qed.

Lemma count_step e ee s p A x0 : Z.odd e = true -> mons s !! 0 = Some x0 -> m_out x0 = [] -> counting e A x0 -> sound_disk (m_node x0) ->
  0 < p < paxos_size ec -> answered e s p -> let A' := {[p]} ∪ A in exists s' x', cstep ec (EvDeliver p 0) ee s = Some s' /\
    mons s' !! 0 = Some x' /\ m_out x' = [] /\
    (Z.of_nat (size A') <> paxos_size ec -> counting e A' x' /\ m_node x' = m_node x0 /\ counted e s' p /\
       forall q, q <> p -> q <> 0 -> view s' q = view s q) /\
    (Z.of_nat (size A') = paxos_size ec -> leading A' 0 (e + 1) (m_node x') /\ exists v, claim (e + 1) A' v /\
       forall q, q <> 0 -> q ∈ A' -> view s' q = (mons s !! q, echan s 0 q ++ [v], if decide (q = p) then [] else echan s q 0)).
Proof.
  intros Hodd H0 Ho Hc Hd Hp (x & a & Hv & Hx & Hox & Ha) A'. unfold view in Hv. injection Hv as H1 H2 H3.
  pose proof paxos_size_big as Hbig.
  destruct (deliver_ends p 0 ee s a [] x0 (fun x' =>
    (Z.of_nat (size A') <> paxos_size ec -> counting e A' x' /\ m_node x' = m_node x0 /\ m_out x' = []) /\
    (Z.of_nat (size A') = paxos_size ec -> leading A' 0 (e + 1) (m_node x') /\ exists v, claim (e + 1) A' v /\
       m_out x' = map (fun r => (r, v)) (filter (fun r => r <> 0) (elements A')))) H3 H0) as (x' & Hst & Hx').
  { apply (ct_ready _ _ _ Hc). }
  { apply (ends_ack ec ee Hcompat ltac:(lia) e A p a x0); try done.
    - intros Hs y H4 H5 H6. split; [| done]. intros _. split; [done |]. by rewrite H6.
    - intros Hs y v H4 H5 H6. split; [done |]. intros _. split; [done |]. exists v. by rewrite H5, Ho. }
  eexists _, (sent x'). split; [exact Hst |]. split; [cbn; by rewrite lookup_insert_eq |]. split; [done |].
  destruct Hx' as [Hsome Hall]. split; intros Hs.
  - destruct (Hsome Hs) as (C1 & C2 & C3). split; [by destruct C1 as [[] ? ? ? ?] |]. split; [done |]. split.
    + exists x. rewrite view_leader by lia. by rewrite C3, H1, H2, decide_True.
    + intros q Hq Hq0. rewrite view_leader by done. rewrite C3, decide_False, app_nil_r by done. done.
  - destruct (Hall Hs) as (C1 & v & C2 & C3). split; [done |]. exists v. split; [done |]. intros q Hq Hqa. rewrite view_leader by done.
    rewrite C3, mail_of by (apply NoDup_filter, NoDup_elements). rewrite decide_True; [done |].
    apply list_elem_of_filter. split; [done | by apply elem_of_elements].
Qed.

(** Rank 0 asks everybody. *)
Lemma ask_step ee s x0 : mons s !! 0 = Some x0 -> m_out x0 = [] -> ready 0 (l_epoch x0) x0 ->
  let e := next_epoch (persisted_epoch x0) in exists s' x', cstep ec (EvElect 0) ee s = Some s' /\
    mons s' !! 0 = Some x' /\ m_out x' = [] /\ counting e {[0]} x' /\ exists m, plain ec OP_PROPOSE e m /\
    forall p, 0 < p < paxos_size ec -> view s' p = (mons s !! p, echan s 0 p ++ [m], echan s p 0).
Proof.
  intros H0 Ho Hr e.
  destruct (crun_ends 0 (start_election ec ee) s x0 (fun x' => counting e {[0]} x' /\ exists m, plain ec OP_PROPOSE e m /\
    m_out x' = map (fun r => (r, m)) (filter (fun r => r <> 0) (seqZ 0 (paxos_size ec)))) H0 (rd_up _ _ _ Hr)) as (x' & Hst & Hc & m & Hm & Ho').
  { apply ends_start_election; [done |]. intros x' m H1 H2 H3. split; [done |]. exists m. split; [done |]. by rewrite H2, Ho. }
  eexists _, (sent x'). split; [exact Hst |]. split; [cbn; by rewrite lookup_insert_eq |]. split; [done |].
  split; [by destruct Hc as [[] ? ? ? ?] |]. exists m. split; [done |]. intros p Hp. unfold view. rewrite !after_chan, Ho'. cbn.
  rewrite lookup_insert_ne by lia. destruct (decide (p = 0)); [lia |]. rewrite app_nil_r, mail_of by (apply NoDup_filter, NoDup_seqZ).
  rewrite (decide_True (P := 0 = 0)), decide_True; [done | | done]. apply list_elem_of_filter. split; [lia |]. apply elem_of_seqZ. lia.
Qed.

Definition peers : list Z := filter (fun p => p <> 0) (seqZ 0 (paxos_size ec)).

Lemma elem_of_peers p : p ∈ peers <-> 0 < p < paxos_size ec.
Proof. unfold peers. rewrite list_elem_of_filter, elem_of_seqZ. pose proof paxos_size_big. lia. Qed.

Lemma peers_NoDup : NoDup peers.
Proof. apply NoDup_filter, NoDup_seqZ. Qed.

(** Everybody takes part, in no later epoch, and no message is on its way to or
    from rank 0. *)
Record prepared (s : cluster) (x0 : mon) : Prop := {
  pp_leader : mons s !! 0 = Some x0 /\ ready 0 (l_epoch x0) x0;
  pp_peers : forall p, 0 < p < paxos_size ec -> exists x, mons s !! p = Some x /\ ready p (l_epoch x) x /\
    l_epoch x <= next_epoch (persisted_epoch x0);
  pp_quiet : forall p, 0 < p < paxos_size ec -> echan s 0 p = [] /\ echan s p 0 = []
}.

Lemma sent_out st0 s i x : creachable ec st0 s -> mons s !! i = Some x -> m_out x = [].
Proof.
  intros Hs Hx. destruct (creachable_sim ec Hconf st0 s Hs) as (σ & _ & Hrel).
  assert (Hmr : exists n, mon_rel ec i x n) by (destruct (crel_cases ec s σ i x Hrel Hx) as [(H & _) | (ep & H & _)]; eauto).
  destruct Hmr as (n & Hmr). by rewrite <- (mr_sent _ _ _ _ Hmr).
Qed.

Lemma electing_disk st0 s i x : creachable ec st0 s -> mons s !! i = Some x -> mstate (m_node x) = MON_ELECTING -> sound_disk (m_node x).
Proof.
  intros Hs Hx Hm. destruct (creachable_sim ec Hconf st0 s Hs) as (σ & Hreach & Hrel).
  destruct (crel_cases ec s σ i x Hrel Hx) as [(_ & _ & Hn) | (ep & _ & Hu & _)].
  - apply (outside_disk _ σ i _ Hconf Hreach Hn). unfold outside, is_probing, is_electing. by rewrite Hm.
  - by destruct (u_mstate _ Hu); congruence.
Qed.

(** The delivery of a message between rank 0 and a peer. *)
Definition between (ev : event) : Prop := exists p, 0 < p < paxos_size ec /\ (ev = EvDeliver 0 p \/ ev = EvDeliver p 0).

(** How many messages a peer still has to receive or to have received. *)
Definition voting_at (e : Z) (s : cluster) (p : Z) (w : nat) : Prop :=
  w = 3%nat /\ asked e s p \/ w = 2%nat /\ answered e s p \/ w = 1%nat /\ counted e s p.
Definition won_at (e : Z) (q : gset Z) (s : cluster) (p : Z) (w : nat) : Prop :=
  w = 1%nat /\ told e q s p \/ w = 0%nat /\ follows e q s p.

Record voting (e : Z) (s : cluster) (f : Z -> nat) (A : gset Z) (x0 : mon) : Prop := {
  vt_leader : mons s !! 0 = Some x0;
  vt_out : m_out x0 = [];
  vt_counting : counting e A x0;
  vt_disk : sound_disk (m_node x0);
  vt_peers : forall p, 0 < p < paxos_size ec -> voting_at e s p (f p) /\ (p ∈ A <-> f p = 1%nat);
  vt_votes : 0 ∈ A /\ A ⊆ ranks (paxos_conf ec) /\ A <> ranks (paxos_conf ec)
}.

Record won (e : Z) (s : cluster) (f : Z -> nat) (x0 : mon) : Prop := {
  wn_leader : mons s !! 0 = Some x0;
  wn_leading : leading (ranks (paxos_conf ec)) 0 (e + 1) (m_node x0);
  wn_peers : forall p, 0 < p < paxos_size ec -> won_at e (ranks (paxos_conf ec)) s p (f p)
}.

(** The election is under way, or won. *)
Definition under_way (e : Z) (s : cluster) (f : Z -> nat) : Prop := (exists A x0, voting e s f A x0) \/ exists x0, won e s f x0.

Definition less (f : Z -> nat) (p : Z) : Z -> nat := fun k => if decide (k = p) then (f p - 1)%nat else f k.

Lemma less_at f p : less f p p = (f p - 1)%nat.
Proof. unfold less. by rewrite decide_True. Qed.

Lemma less_other f p k : k <> p -> less f p k = f k.
Proof. intros Hk. unfold less. by rewrite decide_False. Qed.

Lemma elem_of_ranks p : p ∈ ranks (paxos_conf ec) <-> 0 <= p < paxos_size ec.
Proof. unfold ranks, paxos_size. rewrite elem_of_list_to_set, elem_of_seqZ. lia. Qed.

Lemma all_voted A : A ⊆ ranks (paxos_conf ec) -> Z.of_nat (size A) = paxos_size ec <-> A = ranks (paxos_conf ec).
Proof.
  intros Hsub. pose proof (size_ranks (paxos_conf ec) (proj1 Hconf)) as Hsz. unfold paxos_size in *. split; [| by intros ->]. intros Hs.
  destruct (decide (A = ranks (paxos_conf ec))) as [| Hne]; [done |]. assert (A ⊂ ranks (paxos_conf ec)) as Hss; [| apply subset_size in Hss; lia].
  split; [done |]. intros H. apply Hne. by apply (anti_symm (⊆)).
Qed.

(** What a peer has reached depends on its view only. *)
Lemma voting_view e s s' p w : view s' p = view s p -> voting_at e s p w -> voting_at e s' p w.
Proof. intros Hv. unfold voting_at, asked, answered, counted. by rewrite Hv. Qed.

Lemma won_view e q s s' p w : view s' p = view s p -> won_at e q s p w -> won_at e q s' p w.
Proof. intros Hv. unfold won_at, told, follows. by rewrite Hv. Qed.

(** A message of rank 0 is delivered. *)
Lemma down_step e ee s f p : Z.odd e = true -> under_way e s f -> 0 < p < paxos_size ec -> echan s 0 p <> [] ->
  exists s', cstep ec (EvDeliver 0 p) ee s = Some s' /\ under_way e s' (less f p) /\ (0 < f p)%nat.
Proof.
  intros Hodd [(A & x0 & [H0 Ho Hc Hd Hp HA]) | (x0 & [H0 Hl Hp])] Hpr Hne; pose proof (Hp p Hpr) as Hpp.
  - destruct Hpp as [[[Hw Hask] | [[_ (x & a & Hv & _)] | [_ (x & Hv & _)]]] HpA]; [| by injection Hv .. ].
    destruct (answer_step e ee s p Hodd ltac:(lia) Hask) as (s' & Hst & Hans & Hm & Hview). exists s'. split; [done |]. split; [| lia].
    left. exists A, x0. split; try done; [by rewrite Hm |]. intros k Hk. destruct (decide (k = p)) as [-> | Hkp].
    + rewrite less_at, Hw. split; [right; left; done |]. rewrite HpA, Hw. done.
    + rewrite less_other by done. destruct (Hp k Hk) as [Hk1 Hk2]. split; [| done]. apply (voting_view e s); [apply Hview; lia | done].
  - destruct Hpp as [[Hw Htold] | [_ (x & Hv & _)]]; [| by injection Hv].
    destruct (follow_step e _ ee s p ltac:(lia) Htold) as (s' & Hst & Hfol & Hm & Hview). exists s'. split; [done |]. split; [| lia].
    right. exists x0. split; [by rewrite Hm | done |]. intros k Hk. destruct (decide (k = p)) as [-> | Hkp].
    + rewrite less_at, Hw. by right.
    + rewrite less_other by done. apply (won_view e _ s); [apply Hview; lia | by apply Hp].
Qed.

(** An answer is delivered. *)
Lemma up_step e ee s f p : Z.odd e = true -> under_way e s f -> 0 < p < paxos_size ec -> echan s p 0 <> [] ->
  exists s', cstep ec (EvDeliver p 0) ee s = Some s' /\ under_way e s' (less f p) /\ (0 < f p)%nat.
Proof.
  intros Hodd [(A & x0 & [H0 Ho Hc Hd Hp (HA0 & HAs & _)]) | (x0 & [_ _ Hp])] Hpr Hne; pose proof (Hp p Hpr) as Hpp.
  2: { destruct Hpp as [[_ (x & v & Hv & _)] | [_ (x & Hv & _)]]; by injection Hv. }
  destruct Hpp as [[[_ (x & e0 & m & Hv & _)] | [[Hw Hans] | [_ (x & Hv & _)]]] HpA]; [by injection Hv | | by injection Hv].
  destruct (count_step e ee s p A x0 Hodd H0 Ho Hc Hd Hpr Hans) as (s' & x' & Hst & H0' & Ho' & Hsome & Hall).
  exists s'. split; [done |]. split; [| lia].
  assert ({[p]} ∪ A ⊆ ranks (paxos_conf ec)) as Hsub by (apply union_subseteq; split; [apply singleton_subseteq_l, elem_of_ranks; lia | done]).
  destruct (decide (Z.of_nat (size ({[p]} ∪ A)) = paxos_size ec)) as [Hs | Hs].
  - right. destruct (Hall Hs) as (Hl & v & Hcl & Hview). apply all_voted in Hs; [| done]. rewrite Hs in *. exists x'. split; [done | done |].
    intros k Hk. left. assert (k ∈ ranks (paxos_conf ec)) as Hin by (apply elem_of_ranks; lia).
    specialize (Hview k ltac:(lia) Hin). destruct (decide (k = p)) as [-> | Hkp].
    + rewrite less_at, Hw. split; [done |]. destruct Hans as (x & a & Ha & Hr & Hox & _). injection Ha as A1 A2 A3. exists x, v. by rewrite Hview, A1, A2.
    + rewrite less_other by done. destruct (Hp k Hk) as [Hk1 Hk2]. rewrite <- Hs in Hin. assert (f k = 1%nat) as Hfk by (apply Hk2; set_solver). split; [done |].
      destruct Hk1 as [[? _] | [[? _] | [_ (y & Hy & Hr & Hoy)]]]; [congruence | congruence |]. injection Hy as A1 A2 A3. exists y, v. by rewrite Hview, A1, A2, A3.
  - left. destruct (Hsome Hs) as (Hc' & Hn' & Hcp & Hview). exists ({[p]} ∪ A), x'. split; try done; [by rewrite Hn' | |].
    + intros k Hk. destruct (decide (k = p)) as [-> | Hkp].
      * rewrite less_at, Hw. split; [by right; right | set_solver].
      * rewrite less_other by done. destruct (Hp k Hk) as [Hk1 Hk2]. split; [apply (voting_view e s); [apply Hview; lia | done] | set_solver].
    + split; [set_solver |]. split; [done |]. intros E. apply Hs. by apply all_voted.
Qed.

(** The messages that are still to be delivered. *)
Definition load (f : Z -> nat) : nat := sum_list_with f peers.

Lemma load_less f p : 0 < p < paxos_size ec -> (0 < f p)%nat -> load f = S (load (less f p)).
Proof.
  intros Hp Hf. unfold load. pose proof peers_NoDup as Hnd. apply elem_of_peers in Hp. revert Hnd Hp. generalize peers as l.
  induction l as [| k l IH]; intros Hnd Hp; [by apply not_elem_of_nil in Hp |]. apply NoDup_cons in Hnd as [Hk Hnd]. cbn. destruct (decide (k = p)) as [-> | Hkp].
  - rewrite less_at. assert (sum_list_with (less f p) l = sum_list_with f l) as ->; [| lia]. clear IH Hp Hnd.
    induction l as [| j l IH]; [done |]. apply not_elem_of_cons in Hk as [Hj Hk]. cbn. by rewrite less_other, IH.
  - apply elem_of_cons in Hp as [-> | Hp]; [done |]. rewrite less_other, IH by done. lia.
Qed.

Lemma deliveries_end e evs s s' f : Z.odd e = true -> under_way e s f -> Forall (fun ev => between ev.1) evs -> cruns ec evs s = Some s' ->
  exists f', under_way e s' f' /\ load f = (length evs + load f')%nat.
Proof.
  intros Hodd. revert s f. induction evs as [| [ev ee] evs IH]; intros s f Hu Hall Hr; [injection Hr as ->; by exists f |].
  apply Forall_cons in Hall as [(p & Hp & Hev) Hall]. cbn [cruns] in Hr. destruct (cstep ec ev ee s) as [s1 |] eqn:Hst; [| done]. cbn [mbind option_bind] in Hr.
  assert (exists f1, under_way e s1 f1 /\ load f = S (load f1)) as (f1 & Hu1 & Hl).
  { cbn [fst] in Hev. destruct Hev as [-> | ->]; cbn [cstep] in Hst.
    - destruct (echan s 0 p) eqn:Hq; [done |]. destruct (down_step e ee s f p Hodd Hu Hp) as (s2 & Hst2 & Hu2 & Hf); [by rewrite Hq |].
      cbn [cstep] in Hst2. rewrite Hq in Hst2. rewrite Hst in Hst2. injection Hst2 as ->. exists (less f p). split; [done | by apply load_less].
    - destruct (echan s p 0) eqn:Hq; [done |]. destruct (up_step e ee s f p Hodd Hu Hp) as (s2 & Hst2 & Hu2 & Hf); [by rewrite Hq |].
      cbn [cstep] in Hst2. rewrite Hq in Hst2. rewrite Hst in Hst2. injection Hst2 as ->. exists (less f p). split; [done | by apply load_less]. }
  destruct (IH s1 f1 Hu1 Hall Hr) as (f' & Hu' & Hl'). exists f'. split; [done |]. cbn. lia.
Qed.

(** Rank 0 leads everybody in epoch [e]. *)
Definition elected (e : Z) (s : cluster) : Prop := forall i, i ∈ ranks (paxos_conf ec) -> exists x, mons s !! i = Some x /\
  (if decide (i = 0) then is_leader (m_node x) = true else is_peon (m_node x) = true) /\
  quorum (m_node x) = ranks (paxos_conf ec) /\ leader (m_node x) = 0 /\ l_epoch x = e.

Lemma quiet_elected e s f : under_way e s f -> (forall p, 0 < p < paxos_size ec -> echan s 0 p = [] /\ echan s p 0 = []) -> elected (e + 1) s.
Proof.
  intros [(A & x0 & [_ _ _ _ Hp (HA0 & HAs & HAn)]) | (x0 & [H0 [] Hp])] Hq.
  - exfalso. apply HAn, (anti_symm (⊆)); [done |]. intros p Hpr%elem_of_ranks. destruct (decide (p = 0)) as [-> |]; [done |].
    destruct (Hp p ltac:(lia)) as [Hv ->]. destruct (Hq p ltac:(lia)) as [E1 E2].
    destruct Hv as [[_ (x & e0 & m & Hv & _)] | [[_ (x & a & Hv & _)] | [? _]]]; [injection Hv as _ Hv _; congruence | injection Hv as _ _ Hv; congruence | done].
  - intros i Hi%elem_of_ranks. case_decide as Hi0.
    + subst i. exists x0. split_and!; try done. unfold is_leader. by rewrite ld_mstate0.
    + destruct (Hp i ltac:(lia)) as [[_ (x & v & Hv & _)] | [_ (x & Hv & [])]]; [injection Hv as _ Hv _; destruct (Hq i ltac:(lia)); congruence |].
      injection Hv as Hx _ _. exists x. split_and!; try done. unfold is_peon. by rewrite fl_mstate0.
Qed.

Lemma under_way_up e s f i : under_way e s f -> i ∈ ranks (paxos_conf ec) -> exists x, mons s !! i = Some x /\ up x = true.
Proof.
  intros Hu Hi%elem_of_ranks. destruct (decide (i = 0)) as [-> | Hi0].
  - destruct Hu as [(A & x0 & [H0 _ Hc _ _ _]) | (x0 & [H0 [] _])]; exists x0; (split; [done |]); [apply Hc | unfold up; by rewrite ld_mstate0].
  - destruct Hu as [(A & x0 & [_ _ _ _ Hp _]) | (x0 & [_ _ Hp])]; specialize (Hp i ltac:(lia)).
    + destruct Hp as [[[_ (x & e0 & m & Hv & Hr & _)] | [[_ (x & a & Hv & Hr & _)] | [_ (x & Hv & Hr & _)]]] _]; injection Hv as Hx _ _; exists x; (split; [done | apply Hr]).
    + destruct Hp as [[_ (x & v & Hv & Hr & _)] | [_ (x & Hv & [])]]; injection Hv as Hx _ _; exists x; (split; [done |]); [apply Hr | unfold up; by rewrite fl_mstate0].
Qed.

(** The proposal of rank 0. *)
Lemma election_starts st0 s x0 ee : creachable ec st0 s -> prepared s x0 ->
  exists s1, cstep ec (EvElect 0) ee s = Some s1 /\ under_way (next_epoch (persisted_epoch x0)) s1 (fun _ => 3%nat).
Proof.
  intros Hs [[H0 Hr0] Hpeers Hquiet]. set (e := next_epoch (persisted_epoch x0)).
  destruct (ask_step ee s x0 H0 (sent_out st0 s 0 x0 Hs H0) Hr0) as (s1 & x1 & Hst & H1 & Ho1 & Hc1 & m & Hm & Hv1). fold e in Hc1, Hm.
  exists s1. split; [done |]. left. exists {[0]}, x1. pose proof paxos_size_big.
  assert (Hs1 : creachable ec st0 s1) by (by eapply (creachable_step ec st0 (EvElect 0) ee s)).
  split; try done; [by apply (electing_disk st0 s1 0 x1 Hs1 H1), Hc1 | |].
  - intros p Hp. split; [| rewrite elem_of_singleton; lia]. left. split; [done |]. destruct (Hpeers p Hp) as (x & Hx & Hrx & Hle).
    exists x, (l_epoch x), m. rewrite Hv1, Hx by done. destruct (Hquiet p Hp) as [-> ->]. pose proof (sent_out st0 s p x Hs Hx). by split_and!.
  - split; [set_solver |]. split; [apply singleton_subseteq_l, elem_of_ranks; lia |]. intros E. assert (1 ∈ ranks (paxos_conf ec)) as H1r by (apply elem_of_ranks; lia).
    rewrite <- E in H1r. set_solver.
Qed.

Lemma load_start : load (fun _ => 3%nat) = Z.to_nat (3 * (paxos_size ec - 1)).
Proof.
  unfold load, peers. pose proof paxos_size_big. replace (paxos_size ec) with (1 + (paxos_size ec - 1)) at 1 by lia. rewrite seqZ_app by lia.
  rewrite filter_app, (filter_all _ (seqZ (0 + 1) _)) by (intros k Hk%elem_of_seqZ; lia).
  assert (forall l : list Z, sum_list_with (fun _ => 3%nat) l = (3 * length l)%nat) as -> by (induction l; cbn; lia). rewrite length_app, length_seqZ.
  change (length (filter _ (seqZ 0 1))) with 0%nat. lia.
Qed.
End Cluster.

(** ** Theorem *)

(** A cluster of three in which all three monitors have started an election and
    none of their messages arrived. *)
Definition stalled_run : list event :=
  [EvElect 0; EvElect 1; EvElect 2; EvDrop 0 1 0; EvDrop 0 2 0; EvDrop 1 0 0; EvDrop 2 0 0].
Definition stalled_state : cluster := Eval vm_compute in
  default (init_cluster (demo_ec 3) CLASSIC) (run_events (demo_ec 3) stalled_run).
Definition stalled_mon (i : Z) : mon := default (boot_mon (demo_ec 3) (fresh i 0 ∅) 0 None CLASSIC) (mons stalled_state !! i).

Lemma stalled_reachable : creachable (demo_ec 3) CLASSIC stalled_state.
Proof.
  apply (clater_reachable _ _ (init_cluster (demo_ec 3) CLASSIC)); [constructor |].
  apply (cruns_later _ (map (fun ev => (ev, demo_ee)) stalled_run)); vm_compute; reflexivity.
Qed.

Lemma stalled_prepared : prepared (demo_ec 3) stalled_state (stalled_mon 0).
Proof.
  split.
  - split; [vm_compute; reflexivity |]. split; vm_compute; reflexivity.
  - intros p Hp. assert (p = 1 \/ p = 2) as [-> | ->] by (cbn in Hp; lia);
      [exists (stalled_mon 1) | exists (stalled_mon 2)]; (split; [vm_compute; reflexivity |]); split; try (vm_compute; congruence); split; vm_compute; reflexivity.
  - intros p Hp. assert (p = 1 \/ p = 2) as [-> | ->] by (cbn in Hp; lia); vm_compute; split; reflexivity.
Qed.

(** C2. Liveness of classic elections.  In a state in which every monitor takes
    part under the classic strategy, in no later epoch, with no write under way and
    no election message between rank 0 and another monitor, rank 0 proposes itself.
    Consider any deliveries, one after the other, of election messages to and from
    rank 0: proposals, answers and victories in any interleaving, while nothing
    else happens.  They are at most three per peer; no monitor fails an assertion
    on the way; every message that is on its way can be delivered; and when none is
    left rank 0 leads all the others in the next epoch, with all of them in the
    quorum. *)
Theorem classic_election_succeeds ec st0 s x0 ee : conf_ok (paxos_conf ec) -> compatible ec -> creachable ec st0 s -> prepared ec s x0 ->
  exists s1, cstep ec (EvElect 0) ee s = Some s1 /\ forall evs s', Forall (fun ev => between ec ev.1) evs -> cruns ec evs s1 = Some s' ->
    Z.of_nat (length evs) <= 3 * (paxos_size ec - 1) /\
    (forall i, i ∈ ranks (paxos_conf ec) -> exists x, mons s' !! i = Some x /\ up x = true) /\
    (forall p ee', 0 < p < paxos_size ec -> (echan s' 0 p <> [] -> is_Some (cstep ec (EvDeliver 0 p) ee' s')) /\
                                         (echan s' p 0 <> [] -> is_Some (cstep ec (EvDeliver p 0) ee' s'))) /\
    ((forall p, 0 < p < paxos_size ec -> echan s' 0 p = [] /\ echan s' p 0 = []) -> elected ec (next_epoch (persisted_epoch x0) + 1) s').
Proof.
  intros Hok Hcm Hs Hp. pose proof (next_odd (persisted_epoch x0)) as Hodd. destruct (election_starts ec Hok Hcm st0 s x0 ee Hs Hp) as (s1 & Hst & Hu).
  exists s1. split; [done |]. intros evs s' Hall Hr. destruct (deliveries_end ec Hok Hcm _ evs s1 s' _ Hodd Hu Hall Hr) as (f' & Hu' & Hl).
  rewrite load_start in Hl by done. split; [pose proof (paxos_size_big ec Hok); lia |]. split; [intros i Hi; by apply (under_way_up ec _ s' f' i Hu') |]. split; [| by apply (quiet_elected ec _ s' f')].
  intros p ee' Hpr. split; intros Hq.
  - destruct (down_step ec Hok Hcm _ ee' s' f' p Hodd Hu' Hpr Hq) as (s2 & -> & _). done.
  - destruct (up_step ec Hok Hcm _ ee' s' f' p Hodd Hu' Hpr Hq) as (s2 & -> & _). done.
Qed.

Lemma cruns_tail ec ev ee evs s s1 s' : cstep ec ev ee s = Some s1 -> cruns ec ((ev, ee) :: evs) s = Some s' -> cruns ec evs s1 = Some s'.
Proof. intros H. cbn [cruns]. by rewrite H. Qed.

(** Rank 2 is told of the victory only after rank 1 follows, and answers before
    rank 1 has been asked. *)
Definition mixed_run : list event := [EvDeliver 0 2; EvDeliver 2 0; EvDeliver 0 1; EvDeliver 1 0; EvDeliver 0 1; EvDeliver 0 2].

Definition mixed_end : cluster := Eval vm_compute in default stalled_state (run_events (demo_ec 3) (stalled_run ++ EvElect 0 :: mixed_run)).

Lemma classic_election_succeeds_witness : run_events (demo_ec 3) (stalled_run ++ EvElect 0 :: mixed_run) = Some mixed_end /\ elected (demo_ec 3) 2 mixed_end.
Proof.
  split; [vm_compute; reflexivity |].
  destruct (classic_election_succeeds (demo_ec 3) CLASSIC stalled_state (stalled_mon 0) demo_ee) as (s1 & H1 & H).
  - by split_and!.
  - by split.
  - exact stalled_reachable.
  - exact stalled_prepared.
  - destruct (H (map (fun ev => (ev, demo_ee)) mixed_run) mixed_end) as (_ & _ & _ & Hq).
    + unfold mixed_run. cbn [map]. rewrite !Forall_cons. split_and!; [exists 2 | exists 2 | exists 1 | exists 1 | exists 1 | exists 2 | constructor]; (split; [done | auto]).
    + apply (cruns_tail _ _ _ _ _ _ _ H1). vm_compute. reflexivity.
    + apply Hq. intros p Hp. change (paxos_size (demo_ec 3)) with 3 in Hp. assert (p = 1 \/ p = 2) as [-> | ->] by lia; vm_compute; split; reflexivity.
Defined.
