(* ===== verification/PgLog.v ===== *)
(** * The log of a placement group

    [src/src/osd/PGLog.h], [PGLog.cc] and the types they work on from
    [osd_types.h]: the log of recent writes, the objects that are missing on this
    OSD, and the merge of the authoritative log into the local one when a group
    is brought up again.

    An assertion that fails is [None].  The handler of log entries
    ([LogEntryHandler], implemented by the backends) works on a store of a type
    of its own.  The index of the log by object is a map to copies of the
    entries; the other indexes and the recovery pointers are left out, and so are
    the regions of an object that recovery may skip ([ObjectCleanRegions]).  The
    reverse iterator [rollback_info_trimmed_to_riter] is the number of entries
    up to the one it points to, counted from the tail. *)

From stdpp Require Import gmap.
From S2P Require Import Prelude HObject.

#[export] Instance hobject_eq : EqDecision hobject_t.
Proof. solve_decision. Defined.

#[export] Instance hobject_countable : Countable hobject_t.
Proof.
  refine (inj_countable
    (fun o => [[snap o; hash o; if HObject.max o then 1 else 0; nibblewise_key_cache o; hash_reverse_bits o; pool o]; oid o; nspace o; key o])
    (fun l => match l with
              | [[b; c; d; e; f; g]; a; h; i] => Some (mk_hobject a b c (d =? 1) e f g h i)
              | _ => None
              end) _).
  by intros [? ? ? [] ? ? ? ? ?].
Defined.

(** ** Versions *)

Record eversion_t := EV { epoch : Z; version : Z }.

#[export] Instance eversion_eq : EqDecision eversion_t.
Proof. solve_decision. Defined.
#[export] Instance eversion_countable : Countable eversion_t.
Proof. refine (inj_countable' (fun e => (epoch e, version e)) (fun '(a, b) => EV a b) _). by intros []. Defined.

Definition ev_zero : eversion_t := EV 0 0.
Definition ev_max : eversion_t := EV (2 ^ 32 - 1) (2 ^ 64 - 1).
Definition ev_lt (l r : eversion_t) : bool := if epoch l =? epoch r then version l <? version r else epoch l <? epoch r.
Definition ev_le (l r : eversion_t) : bool := if epoch l =? epoch r then version l <=? version r else epoch l <=? epoch r.
Definition ev_maximum (l r : eversion_t) : eversion_t := if ev_lt l r then r else l.

(** ** Entries *)

Inductive log_op := MODIFY | CLONE | DELETE | LOST_REVERT | LOST_DELETE | LOST_MARK | PROMOTE | CLEAN | ERROR.

#[export] Instance log_op_eq : EqDecision log_op.
Proof. solve_decision. Defined.

Record osd_reqid_t := { r_name : Z; r_tid : Z; r_inc : Z }.

(** [can_rollback] is what [mod_desc] says. *)
Record pg_log_entry_t := {
  op : log_op;
  soid : hobject_t;
  e_version : eversion_t;
  prior_version : eversion_t;
  can_rollback : bool;
  reqid : osd_reqid_t;
  user_version : Z;
  return_code : Z;
  extra_reqids : list (osd_reqid_t * Z);
  extra_reqid_return_codes : gmap Z Z
}.

Definition is_clone (e : pg_log_entry_t) : bool := bool_decide (op e = CLONE).
Definition is_error (e : pg_log_entry_t) : bool := bool_decide (op e = ERROR).
Definition is_lost_delete (e : pg_log_entry_t) : bool := bool_decide (op e = LOST_DELETE).
Definition is_delete (e : pg_log_entry_t) : bool := match op e with DELETE | LOST_DELETE => true | _ => false end.
Definition is_update (e : pg_log_entry_t) : bool :=
  match op e with CLONE | MODIFY | PROMOTE | CLEAN | LOST_REVERT | LOST_MARK => true | _ => false end.

Record pg_log_dup_t := { d_reqid : osd_reqid_t; d_version : eversion_t; d_user_version : Z; d_return_code : Z }.

(** ** Missing objects *)

Record pg_missing_item := { need : eversion_t; have : eversion_t; item_delete : bool }.

Record pg_missing_set := Missing {
  items : gmap hobject_t pg_missing_item;
  rmissing : gmap Z hobject_t;
  changed : gset hobject_t;
  may_include_deletes : bool
}.

Definition is_missing (o : hobject_t) (m : pg_missing_set) : bool := bool_decide (is_Some (items m !! o)).

(** One item is set, the entry of its old version is erased from [rmissing]. *)
Definition put_item (o : hobject_t) (i : pg_missing_item) (m : pg_missing_set) : pg_missing_set :=
  Missing (<[o := i]> (items m)) (<[version (need i) := o]> (rmissing m)) ({[o]} ∪ changed m) (may_include_deletes m).

Definition erase_rmissing (v : Z) (m : pg_missing_set) : pg_missing_set :=
  Missing (items m) (delete v (rmissing m)) (changed m) (may_include_deletes m).

Definition add_next_event (e : pg_log_entry_t) (m : pg_missing_set) : pg_missing_set :=
  match items m !! soid e with
  | Some i =>
      let have := if bool_decide (prior_version e = ev_zero) || is_clone e then ev_zero else have i in
      put_item (soid e) {| need := e_version e; have := have; item_delete := is_delete e |} (erase_rmissing (version (need i)) m)
  | None =>
      let have := if bool_decide (prior_version e = ev_zero) || is_clone e then ev_zero else prior_version e in
      put_item (soid e) {| need := e_version e; have := have; item_delete := is_delete e |} m
  end.

Definition revise_need (o : hobject_t) (n : eversion_t) (del : bool) (m : pg_missing_set) : pg_missing_set :=
  match items m !! o with
  | Some i => put_item o {| need := n; have := have i; item_delete := del |} (erase_rmissing (version (need i)) m)
  | None => put_item o {| need := n; have := ev_zero; item_delete := del |} m
  end.

Definition revise_have (o : hobject_t) (h : eversion_t) (m : pg_missing_set) : pg_missing_set :=
  match items m !! o with
  | Some i => Missing (<[o := {| need := need i; have := h; item_delete := item_delete i |}]> (items m)) (rmissing m)
                ({[o]} ∪ changed m) (may_include_deletes m)
  | None => m
  end.

Definition missing_add (o : hobject_t) (n h : eversion_t) (del : bool) (m : pg_missing_set) : pg_missing_set :=
  put_item o {| need := n; have := h; item_delete := del |} m.

(** [rm] of an iterator, and [got]. *)
Definition rm_item (o : hobject_t) (m : pg_missing_set) : pg_missing_set :=
  match items m !! o with
  | Some i => Missing (delete o (items m)) (delete (version (need i)) (rmissing m)) ({[o]} ∪ changed m) (may_include_deletes m)
  | None => m
  end.

Definition missing_rm (o : hobject_t) (v : eversion_t) (m : pg_missing_set) : pg_missing_set :=
  match items m !! o with
  | Some i => if ev_le (need i) v then rm_item o m else m
  | None => m
  end.

Definition missing_got (o : hobject_t) (v : eversion_t) (m : pg_missing_set) : option pg_missing_set :=
  i ← items m !! o;
  if ev_le (need i) v || item_delete i then Some (rm_item o m) else None.

(** ** The log *)

Record IndexedLog := Log {
  head : eversion_t;
  tail : eversion_t;
  can_rollback_to : eversion_t;
  rollback_info_trimmed_to : eversion_t;
  log : list pg_log_entry_t;
  dups : list pg_log_dup_t;
  objects : gmap hobject_t pg_log_entry_t;
  trimmed_len : nat
}.

(** [pg_log_t], what is sent of a log. *)
Record pg_log_t := {
  o_head : eversion_t;
  o_tail : eversion_t;
  o_can_rollback_to : eversion_t;
  o_rollback_info_trimmed_to : eversion_t;
  o_log : list pg_log_entry_t;
  o_dups : list pg_log_dup_t
}.

Definition index_entry (m : gmap hobject_t pg_log_entry_t) (e : pg_log_entry_t) : gmap hobject_t pg_log_entry_t :=
  if is_error e then m else <[soid e := e]> m.

(** [index()] *)
Definition index_objects (l : list pg_log_entry_t) : gmap hobject_t pg_log_entry_t := fold_left index_entry l ∅.

(** [index(pg_log_entry_t&)] *)
Definition index_older (m : gmap hobject_t pg_log_entry_t) (e : pg_log_entry_t) : gmap hobject_t pg_log_entry_t :=
  if is_error e then m
  else
    match m !! soid e with
    | Some x => if ev_lt (e_version x) (e_version e) then <[soid e := e]> m else m
    | None => <[soid e := e]> m
    end.

(** [unindex(const pg_log_entry_t&)] *)
Definition unindex (m : gmap hobject_t pg_log_entry_t) (e : pg_log_entry_t) : gmap hobject_t pg_log_entry_t :=
  match m !! soid e with
  | Some x => if bool_decide (e_version x = e_version e) then delete (soid e) m else m
  | None => m
  end.

(** The number of entries up to the last one that is not above [v]. *)
Fixpoint count_trimmed (l : list pg_log_entry_t) (v : eversion_t) : nat :=
  match l with
  | [] => 0
  | e :: l' => let n := count_trimmed l' v in if (n =? 0)%nat && ev_lt v (e_version e) then 0 else S n
  end.

(** [IndexedLog(const pg_log_t&)] *)
Definition indexed (o : pg_log_t) : IndexedLog :=
  Log (o_head o) (o_tail o) (o_can_rollback_to o) (o_rollback_info_trimmed_to o) (o_log o) (o_dups o)
    (index_objects (o_log o)) (count_trimmed (o_log o) (o_rollback_info_trimmed_to o)).

Definition ev_min (l r : eversion_t) : eversion_t := if ev_lt r l then r else l.

(** The scan from the newest entry of [pg_log_t::rewind_from_head]; [rl] is the
    log in reverse.  [None]: the assertion fails. *)
Fixpoint rewind_scan (newhead : eversion_t) (rl divergent : list pg_log_entry_t) : option (list pg_log_entry_t * list pg_log_entry_t) :=
  match rl with
  | [] => Some ([], divergent)
  | p :: rl' =>
      if version (e_version p) <=? version newhead then Some (reverse rl, divergent)
      else if ev_lt newhead (e_version p) then rewind_scan newhead rl' (p :: divergent)
      else None
  end.

Definition rewind_from_head (newhead : eversion_t) (l : IndexedLog) : option (IndexedLog * list pg_log_entry_t) :=
  if ev_lt newhead (tail l) then None
  else
    '(kept, divergent) ← rewind_scan newhead (reverse (log l)) [];
    let rbt := ev_min (rollback_info_trimmed_to l) newhead in
    Some (Log newhead (tail l) (ev_min (can_rollback_to l) newhead) rbt kept (dups l) (index_objects kept) (count_trimmed kept rbt), divergent).

(** What the backends do with an entry.  [S] is their store. *)
Class LogEntryHandler (S : Type) := {
  h_rollback : pg_log_entry_t -> S -> S;
  h_rollforward : pg_log_entry_t -> S -> S;
  h_trim : pg_log_entry_t -> S -> S;
  h_remove : hobject_t -> S -> S;
  h_try_stash : hobject_t -> Z -> S -> S
}.

(** No handler. *)
#[export] Instance no_handler : LogEntryHandler unit :=
  {| h_rollback _ s := s; h_rollforward _ s := s; h_trim _ s := s; h_remove _ s := s; h_try_stash _ _ s := s |}.

(** The statistics, hit sets and purged snapshots of the info are left out. *)
Record pg_info_t := Info {
  last_update : eversion_t;
  last_complete : eversion_t;
  log_tail : eversion_t;
  last_user_version : Z;
  last_backfill : hobject_t
}.

(** What has to be written of the log; [trimmed_dups] holds versions instead of
    the keys made of them. *)
Record dirty_marks := Dirty {
  dirty_to : eversion_t;
  dirty_from : eversion_t;
  writeout_from : eversion_t;
  trimmed : gset eversion_t;
  dirty_to_dups : eversion_t;
  dirty_from_dups : eversion_t;
  write_from_dups : eversion_t;
  trimmed_dups : gset eversion_t;
  touched_log : bool;
  dirty_log : bool;
  may_include_deletes_in_missing_dirty : bool
}.

Record PGLog := PGL { missing : pg_missing_set; plog : IndexedLog; dirt : dirty_marks }.

Definition set_dirty_to (v : eversion_t) (d : dirty_marks) : dirty_marks :=
  Dirty v (dirty_from d) (writeout_from d) (trimmed d) (dirty_to_dups d) (dirty_from_dups d) (write_from_dups d) (trimmed_dups d) (touched_log d) (dirty_log d) (may_include_deletes_in_missing_dirty d).
Definition set_dirty_from (v : eversion_t) (d : dirty_marks) : dirty_marks :=
  Dirty (dirty_to d) v (writeout_from d) (trimmed d) (dirty_to_dups d) (dirty_from_dups d) (write_from_dups d) (trimmed_dups d) (touched_log d) (dirty_log d) (may_include_deletes_in_missing_dirty d).
Definition set_writeout_from (v : eversion_t) (d : dirty_marks) : dirty_marks :=
  Dirty (dirty_to d) (dirty_from d) v (trimmed d) (dirty_to_dups d) (dirty_from_dups d) (write_from_dups d) (trimmed_dups d) (touched_log d) (dirty_log d) (may_include_deletes_in_missing_dirty d).
Definition set_dirty_dups (to from : eversion_t) (d : dirty_marks) : dirty_marks :=
  Dirty (dirty_to d) (dirty_from d) (writeout_from d) (trimmed d) to from (write_from_dups d) (trimmed_dups d) (touched_log d) (dirty_log d) (may_include_deletes_in_missing_dirty d).

Definition mark_dirty_to (v : eversion_t) (d : dirty_marks) : dirty_marks := if ev_lt (dirty_to d) v then set_dirty_to v d else d.
Definition mark_dirty_from (v : eversion_t) (d : dirty_marks) : dirty_marks := if ev_lt v (dirty_from d) then set_dirty_from v d else d.
Definition mark_writeout_from (v : eversion_t) (d : dirty_marks) : dirty_marks := if ev_lt v (writeout_from d) then set_writeout_from v d else d.
Definition mark_dirty_to_dups (v : eversion_t) (d : dirty_marks) : dirty_marks :=
  if ev_lt (dirty_to_dups d) v then set_dirty_dups v (dirty_from_dups d) d else d.
Definition mark_dirty_from_dups (v : eversion_t) (d : dirty_marks) : dirty_marks :=
  if ev_lt v (dirty_from_dups d) then set_dirty_dups (dirty_to_dups d) v d else d.

Section Log.
Context {S : Type} `{LogEntryHandler S}.

(** The entries that [advance_can_rollback_to] passes. *)
Fixpoint passed (v : eversion_t) (l : list pg_log_entry_t) : list pg_log_entry_t :=
  match l with
  | [] => []
  | e :: l' => if ev_lt v (e_version e) then [] else e :: passed v l'
  end.

Definition advance_can_rollback_to (to : eversion_t) (f : pg_log_entry_t -> S -> S) (l : IndexedLog) (s : S) : IndexedLog * S :=
  let rbt := ev_maximum (rollback_info_trimmed_to l) to in
  let es := passed rbt (drop (trimmed_len l) (log l)) in
  (Log (head l) (tail l) (ev_maximum (can_rollback_to l) to) rbt (log l) (dups l) (objects l) (trimmed_len l + length es)%nat,
   fold_left (fun s e => f e s) es s).

Definition roll_forward_to (to : eversion_t) (l : IndexedLog) (s : S) : IndexedLog * S :=
  advance_can_rollback_to to h_rollforward l s.

(** [PGLog::roll_forward_to] *)
Definition pg_roll_forward_to (to : eversion_t) (p : PGLog) (s : S) : PGLog * S :=
  let dirty := ev_lt (can_rollback_to (plog p)) to || ev_lt (rollback_info_trimmed_to (plog p)) to in
  let '(l, s) := roll_forward_to to (plog p) s in
  let d := dirt p in
  (PGL (missing p) l
     (Dirty (dirty_to d) (dirty_from d) (writeout_from d) (trimmed d) (dirty_to_dups d) (dirty_from_dups d) (write_from_dups d) (trimmed_dups d)
        (touched_log d) (dirty_log d || dirty) (may_include_deletes_in_missing_dirty d)), s).

Definition skip_can_rollback_to_to_head (l : IndexedLog) : IndexedLog :=
  let rbt := ev_maximum (rollback_info_trimmed_to l) (head l) in
  let es := passed rbt (drop (trimmed_len l) (log l)) in
  Log (head l) (tail l) (ev_maximum (can_rollback_to l) (head l)) rbt (log l) (dups l) (objects l) (trimmed_len l + length es)%nat.

(** [add], for an entry that has been applied. *)
Definition log_add (e : pg_log_entry_t) (l : IndexedLog) : option IndexedLog :=
  if ev_lt (head l) (e_version e) && ((version (head l) =? 0) || (version (head l) <? version (e_version e))) then
    Some (Log (e_version e) (tail l) (can_rollback_to l) (rollback_info_trimmed_to l) (log l ++ [e]) (dups l)
            (index_entry (objects l) e) (trimmed_len l))
  else None.

(** ** Divergent entries *)

Definition above (o bound : hobject_t) : bool := 0 <? cmp o bound.

(** The entries without the errors; the assertions of the loop. *)
Fixpoint strip_errors (hoid : hobject_t) (first seen_non_error : bool) (last : eversion_t) (l : list pg_log_entry_t) : option (list pg_log_entry_t) :=
  match l with
  | [] => Some []
  | i :: l' =>
      if negb (bool_decide (soid i = hoid)) then None
      else
        let first_non_error := negb seen_non_error && negb (is_error i) in
        let seen_non_error := seen_non_error || negb (is_error i) in
        if negb first && negb (bool_decide (prior_version i = ev_zero)) && negb first_non_error &&
           negb (ev_lt last (e_version i) && (bool_decide (prior_version i = last) || is_error i)) then None
        else if is_error i then strip_errors hoid false seen_non_error last l'
        else entries ← strip_errors hoid false seen_non_error (e_version i) l'; Some (i :: entries)
  end.

Definition trim_all (es : list pg_log_entry_t) (s : S) : S := fold_left (fun s e => h_trim e s) es s.
Definition rollback_all (es : list pg_log_entry_t) (s : S) : S := fold_left (fun s e => h_rollback e s) (reverse es) s.
Definition remove_unless (b : bool) (o : hobject_t) (s : S) : S := if b then s else h_remove o s.

Definition _merge_object_divergent_entries (l : IndexedLog) (hoid : hobject_t) (orig_entries : list pg_log_entry_t)
    (last_backfill : hobject_t) (olog_can_rollback_to : eversion_t) (m : pg_missing_set) (s : S) : option (pg_missing_set * S) :=
  if above hoid last_backfill then Some (m, s)
  else
    match orig_entries with [] => None | _ =>
      entries ← strip_errors hoid true false ev_zero orig_entries;
      match entries, list.last entries with
      | first :: _, Some last =>
          let prior := prior_version first in
          let object_not_in_store := negb (is_missing hoid m) && is_delete last in
          match (match objects l !! hoid with Some x => if ev_le (e_version first) (e_version x) then Some x else None | None => None end) with
          | Some x =>
              (* case 1 *)
              if negb (ev_lt (e_version last) (e_version x)) then None
              else if (if is_update x || (may_include_deletes m && is_delete x)
                       then match items m !! hoid with Some i => bool_decide (need i = e_version x) | None => false end
                       else negb (is_missing hoid m)) then
                Some (revise_have hoid ev_zero m, trim_all entries (remove_unless object_not_in_store hoid s))
              else None
          | None =>
              if bool_decide (prior = ev_zero) || is_clone first then
                (* case 2 *)
                Some (rm_item hoid m, trim_all entries (remove_unless object_not_in_store hoid s))
              else
                match items m !! hoid with
                | Some i =>
                    (* case 3 *)
                    Some (if bool_decide (have i = prior) then rm_item hoid m else revise_need hoid prior false m, trim_all entries s)
                | None =>
                    if forallb (fun i => can_rollback i && ev_lt olog_can_rollback_to (e_version i)) entries then
                      (* case 4 *)
                      Some (m, rollback_all entries s)
                    else
                      (* case 5 *)
                      Some (missing_add hoid prior ev_zero false m, trim_all entries (remove_unless object_not_in_store hoid s))
                end
          end
      | _, _ => Some (m, s)
      end
    end.

(** [out_entries[soid].push_back(e)] on a [std::map] ordered by [hobject_t]. *)
Fixpoint split_insert (e : pg_log_entry_t) (m : list (hobject_t * list pg_log_entry_t)) : list (hobject_t * list pg_log_entry_t) :=
  match m with
  | [] => [(soid e, [e])]
  | (o, es) :: m' =>
      if cmp (soid e) o <? 0 then (soid e, [e]) :: m
      else if cmp (soid e) o =? 0 then (o, es ++ [e]) :: m'
      else (o, es) :: split_insert e m'
  end.

Definition split_by_object (es : list pg_log_entry_t) : list (hobject_t * list pg_log_entry_t) :=
  fold_left (fun m e => split_insert e m) es [].

Fixpoint merge_each (l : IndexedLog) (split : list (hobject_t * list pg_log_entry_t)) (last_backfill : hobject_t)
    (crt : eversion_t) (m : pg_missing_set) (s : S) : option (pg_missing_set * S) :=
  match split with
  | [] => Some (m, s)
  | (o, es) :: split' =>
      '(m, s) ← _merge_object_divergent_entries l o es last_backfill crt m s;
      merge_each l split' last_backfill crt m s
  end.

Definition _merge_divergent_entries (l : IndexedLog) (entries : list pg_log_entry_t) (last_backfill : hobject_t)
    (olog_can_rollback_to : eversion_t) (m : pg_missing_set) (s : S) : option (pg_missing_set * S) :=
  merge_each l (split_by_object entries) last_backfill olog_can_rollback_to m s.

(** One entry of [append_log_entries_update_missing]. *)
Definition append_entry (last_backfill : hobject_t) (maintain_rollback : bool) (p : pg_log_entry_t) (l : IndexedLog)
    (m : pg_missing_set) (s : S) : option (IndexedLog * pg_missing_set * S) :=
  l ← log_add p l;
  if above (soid p) last_backfill || is_error p then Some (l, m, s)
  else if may_include_deletes m then Some (l, add_next_event p m, s)
  else
    let m := if is_delete p then missing_rm (soid p) (e_version p) m else add_next_event p m in
    let s :=
      if maintain_rollback && is_lost_delete p && can_rollback p then h_try_stash (soid p) (version (e_version p)) s
      else if is_delete p then h_remove (soid p) s
      else s in
    Some (l, m, s).

Fixpoint append_each (last_backfill : hobject_t) (maintain_rollback : bool) (es : list pg_log_entry_t) (l : IndexedLog)
    (m : pg_missing_set) (s : S) : option (IndexedLog * pg_missing_set * S) :=
  match es with
  | [] => Some (l, m, s)
  | p :: es' =>
      '(l, m, s) ← append_entry last_backfill maintain_rollback p l m s;
      append_each last_backfill maintain_rollback es' l m s
  end.

Definition append_log_entries_update_missing (last_backfill : hobject_t) (entries : list pg_log_entry_t) (maintain_rollback : bool)
    (l : IndexedLog) (m : pg_missing_set) (s : S) : option (IndexedLog * pg_missing_set * S) :=
  match entries with
  | e :: _ => if ev_lt (head l) (e_version e) then append_each last_backfill maintain_rollback entries l m s else None
  | [] => Some (l, m, s)
  end.

(** [append_new_log_entries]; the recovery pointers are left out. *)
Definition append_new_log_entries (last_backfill : hobject_t) (entries : list pg_log_entry_t) (p : PGLog) (s : S) : option (PGLog * S) :=
  '(l, m, s) ← append_log_entries_update_missing last_backfill entries true (plog p) (missing p) s;
  Some (PGL m l (match entries with e :: _ => mark_writeout_from (e_version e) (dirt p) | [] => dirt p end), s).

(** ** Merging logs *)

Definition set_plog (l : IndexedLog) (p : PGLog) : PGLog := PGL (missing p) l (dirt p).
Definition set_missing (m : pg_missing_set) (p : PGLog) : PGLog := PGL m (plog p) (dirt p).
Definition set_dirt (d : dirty_marks) (p : PGLog) : PGLog := PGL (missing p) (plog p) d.
Definition set_last_update (v : eversion_t) (i : pg_info_t) : pg_info_t :=
  Info v (last_complete i) (log_tail i) (last_user_version i) (last_backfill i).
Definition set_last_complete (v : eversion_t) (i : pg_info_t) : pg_info_t :=
  Info (last_update i) v (log_tail i) (last_user_version i) (last_backfill i).
Definition set_log_tail (v : eversion_t) (i : pg_info_t) : pg_info_t :=
  Info (last_update i) (last_complete i) v (last_user_version i) (last_backfill i).
Definition set_last_user_version (v : Z) (i : pg_info_t) : pg_info_t :=
  Info (last_update i) (last_complete i) (log_tail i) v (last_backfill i).

Definition rewind_divergent_log (newhead : eversion_t) (info : pg_info_t) (p : PGLog) (s : S) : option (PGLog * pg_info_t * S) :=
  let original_crt := can_rollback_to (plog p) in
  let info := if ev_lt newhead (last_complete info) then set_last_complete newhead info else info in
  '(l, divergent) ← rewind_from_head newhead (plog p);
  let d := match divergent with e :: _ => mark_dirty_from (e_version e) (dirt p) | [] => dirt p end in
  let info := set_last_update newhead info in
  '(m, s) ← _merge_divergent_entries l divergent (last_backfill info) original_crt (missing p) s;
  Some (PGL m l d, info, s).

(** Extending the tail: the entries of the other log up to our tail. *)
Definition extend_tail (olog : pg_log_t) (p : PGLog) : PGLog :=
  let l := plog p in
  let old := passed (tail l) (o_log olog) in
  let last := match list.last old with Some e => e_version e | None => ev_zero end in
  PGL (missing p)
    (Log (head l) (o_tail olog) (can_rollback_to l) (rollback_info_trimmed_to l) (old ++ log l) (dups l)
       (fold_left index_older old (objects l)) (trimmed_len l + length old)%nat)
    (mark_dirty_to last (dirt p)).

(** The scan for the start point in the other log, from its end ([rl] is in
    reverse): the entries above [head], and the first one that is not. *)
Fixpoint find_start (head : eversion_t) (rl new : list pg_log_entry_t) : list pg_log_entry_t * option eversion_t :=
  match rl with
  | [] => (new, None)
  | e :: rl' => if ev_le (e_version e) head then (new, Some (e_version e)) else find_start head rl' (e :: new)
  end.

(** Extending the head; [entries] is what is left of the other log. *)
Definition extend_head (oinfo : pg_info_t) (o_head o_tail orig_tail : eversion_t) (entries : list pg_log_entry_t)
    (info : pg_info_t) (p : PGLog) (s : S) : option (PGLog * pg_info_t * S) :=
  let '(new_entries, found) := find_start (head (plog p)) (reverse entries) [] in
  let lower_bound := ev_maximum o_tail orig_tail in
  let lower_bound := match found with Some v => ev_maximum lower_bound v | None => lower_bound end in
  let d := mark_dirty_from lower_bound (dirt p) in
  let original_crt := can_rollback_to (plog p) in
  '(l, divergent) ← rewind_from_head lower_bound (plog p);
  let '(l, s) := roll_forward_to (head l) l s in
  '(l, m, s) ← append_log_entries_update_missing (last_backfill info) new_entries false l (missing p) s;
  '(m, s) ← _merge_divergent_entries l divergent (last_backfill info) original_crt m s;
  let l := Log o_head (tail l) (can_rollback_to l) (rollback_info_trimmed_to l) (log l) (dups l) (objects l) (trimmed_len l) in
  Some (PGL m (skip_can_rollback_to_to_head l) d,
        set_last_user_version (last_user_version oinfo) (set_last_update o_head info), s).

(** The requests of trimmed entries: the newer ones of the other log, in
    reverse, and its older ones. *)
Fixpoint newer_dups (v : eversion_t) (rl new : list pg_log_dup_t) : list pg_log_dup_t :=
  match rl with
  | [] => new
  | e :: rl' => if ev_le (d_version e) v then new else newer_dups v rl' (e :: new)
  end.

Fixpoint older_dups (v : eversion_t) (l : list pg_log_dup_t) : list pg_log_dup_t :=
  match l with
  | [] => []
  | e :: l' => if ev_le v (d_version e) then [] else e :: older_dups v l'
  end.

(** Popping the requests above [v] from the back ([rl] is in reverse). *)
Fixpoint pop_dups (v : eversion_t) (rl : list pg_log_dup_t) (d : dirty_marks) : list pg_log_dup_t * dirty_marks :=
  match rl with
  | [] => ([], d)
  | e :: rl' => if ev_lt v (d_version e) then pop_dups v rl' (mark_dirty_from_dups (d_version e) d) else (reverse rl, d)
  end.

Definition extend_dups_newer (odups ldups : list pg_log_dup_t) (d : dirty_marks) : list pg_log_dup_t * dirty_marks * bool :=
  match list.last odups, list.last ldups with
  | Some o, Some x =>
      if ev_lt (d_version x) (d_version o) then
        let new := newer_dups (d_version x) (reverse odups) [] in
        let last_shared := match new with e :: _ => d_version e | [] => ev_max end in
        (ldups ++ new, mark_dirty_from_dups last_shared d, true)
      else (ldups, d, false)
  | _, _ => (ldups, d, false)
  end.

Definition extend_dups_older (odups ldups : list pg_log_dup_t) (d : dirty_marks) : list pg_log_dup_t * dirty_marks * bool :=
  match odups, ldups with
  | o :: _, x :: _ =>
      if ev_lt (d_version o) (d_version x) then
        let old := older_dups (d_version x) odups in
        let last := match list.last old with Some e => d_version e | None => ev_zero end in
        (old ++ ldups, mark_dirty_to_dups last d, true)
      else (ldups, d, false)
  | _, _ => (ldups, d, false)
  end.

Definition set_dups (ds : list pg_log_dup_t) (l : IndexedLog) : IndexedLog :=
  Log (head l) (tail l) (can_rollback_to l) (rollback_info_trimmed_to l) (log l) ds (objects l) (trimmed_len l).

Definition merge_log_dups (odups : list pg_log_dup_t) (p : PGLog) : PGLog * bool :=
  let l := plog p in
  let '(ds, d, changed) :=
    match odups, dups l with
    | [], _ => (dups l, dirt p, false)
    | _, [] => (odups, set_dirty_dups ev_max ev_zero (dirt p), true)
    | _, _ =>
        let '(ds, d, changed) := extend_dups_newer odups (dups l) (dirt p) in
        let '(ds, d, changed') := extend_dups_older odups ds d in
        (ds, d, changed || changed')
    end in
  let overlap := match list.last ds with Some x => ev_lt (tail l) (d_version x) | None => false end in
  let '(ds, d) := if overlap then pop_dups (tail l) (reverse ds) d else (ds, d) in
  (PGL (missing p) (set_dups ds l) d, changed || overlap).

(** Divergent entries are thrown out and the head is extended.  The boolean says
    whether there were any changes. *)
Definition merge_heads (oinfo : pg_info_t) (olog : pg_log_t) (orig_tail : eversion_t) (entries : list pg_log_entry_t)
    (info : pg_info_t) (p : PGLog) (s : S) : option (PGLog * pg_info_t * S * bool) :=
  let divergent := ev_lt (o_head olog) (head (plog p)) in
  '(p, info, s) ← if divergent then rewind_divergent_log (o_head olog) info p s else Some (p, info, s);
  let newer := ev_lt (head (plog p)) (o_head olog) in
  '(p, info, s) ← if newer then extend_head oinfo (o_head olog) (o_tail olog) orig_tail entries info p s else Some (p, info, s);
  Some (p, info, s, divergent || newer).

(** The boolean says whether [dirty_info] and [dirty_big_info] are set. *)
Definition merge_log (oinfo : pg_info_t) (olog : pg_log_t) (info : pg_info_t) (p : PGLog) (s : S) : option (PGLog * pg_info_t * S * bool) :=
  let orig := plog p in
  if bool_decide (head orig = ev_zero) && negb (bool_decide (o_tail olog = ev_zero)) then None
  else if negb (ev_le (o_tail olog) (head orig) && ev_le (tail orig) (o_head olog)) then None
  else
    let orig_tail := tail orig in
    let longer := ev_lt (o_tail olog) orig_tail in
    let entries := if longer then drop (length (passed orig_tail (o_log olog))) (o_log olog) else o_log olog in
    let info := if longer then set_log_tail (o_tail olog) info else info in
    let p := if longer then extend_tail olog p else p in
    '(p, info, s, changed) ← merge_heads oinfo olog orig_tail entries info p s;
    let '(p, changed') := merge_log_dups (o_dups olog) p in
    Some (p, info, s, longer || changed || changed').

(** ** Trimming *)

Definition dup_of_entry (e : pg_log_entry_t) : pg_log_dup_t :=
  {| d_reqid := reqid e; d_version := e_version e; d_user_version := user_version e; d_return_code := return_code e |}.

(** The requests of an entry: its own and the extra ones. *)
Definition dups_of_entry (e : pg_log_entry_t) : list pg_log_dup_t :=
  dup_of_entry e ::
  imap (fun idx x =>
    {| d_reqid := fst x; d_version := e_version e; d_user_version := snd x;
       d_return_code := if 0 <=? return_code e then default (return_code e) (extra_reqid_return_codes e !! Z.of_nat idx) else return_code e |})
    (extra_reqids e).

(** The iterator after [pop_front]. *)
Definition pop_riter (e : pg_log_entry_t) (l : IndexedLog) : nat :=
  match trimmed_len l with
  | O => O
  | Datatypes.S n => match log l !! n with Some x => if bool_decide (e_version x = e_version e) then O else n | None => O end
  end.

Definition trim_entry (earliest_dup_version : Z) (e : pg_log_entry_t) (l : IndexedLog) (d : dirty_marks) : IndexedLog * dirty_marks :=
  let tracked := earliest_dup_version <=? version (e_version e) in
  (Log (head l) (tail l) (can_rollback_to l) (rollback_info_trimmed_to l) (List.tl (log l))
     (if tracked then dups l ++ dups_of_entry e else dups l) (unindex (objects l) e) (pop_riter e l),
   Dirty (dirty_to d) (dirty_from d) (writeout_from d) ({[e_version e]} ∪ trimmed d) (dirty_to_dups d) (dirty_from_dups d)
     (if tracked && ev_lt (e_version e) (write_from_dups d) then e_version e else write_from_dups d)
     (trimmed_dups d) (touched_log d) (dirty_log d) (may_include_deletes_in_missing_dirty d)).

Fixpoint trim_entries (earliest_dup_version : Z) (es : list pg_log_entry_t) (l : IndexedLog) (d : dirty_marks) : IndexedLog * dirty_marks :=
  match es with
  | [] => (l, d)
  | e :: es' => let '(l, d) := trim_entry earliest_dup_version e l d in trim_entries earliest_dup_version es' l d
  end.

Fixpoint trim_dups (max_dups fuel : nat) (ds : list pg_log_dup_t) (ts : gset eversion_t) : list pg_log_dup_t * gset eversion_t :=
  match fuel, ds with
  | Datatypes.S fuel, e :: ds' => if (max_dups <? length ds)%nat then trim_dups max_dups fuel ds' ({[d_version e]} ∪ ts) else (ds, ts)
  | _, _ => (ds, ts)
  end.

Definition set_trimmed_dups (ts : gset eversion_t) (d : dirty_marks) : dirty_marks :=
  Dirty (dirty_to d) (dirty_from d) (writeout_from d) (trimmed d) (dirty_to_dups d) (dirty_from_dups d) (write_from_dups d) ts (touched_log d) (dirty_log d) (may_include_deletes_in_missing_dirty d).

(** [IndexedLog::trim]; [dups_tracked] and [trim_max] are configured. *)
Definition log_trim (dups_tracked trim_max : nat) (s : eversion_t) (l : IndexedLog) (d : dirty_marks) : option (IndexedLog * dirty_marks) :=
  if negb (ev_le s (can_rollback_to l)) then None
  else
    newest ← list.last (log l);
    let earliest_dup_version :=
      if version (e_version newest) <? Z.of_nat dups_tracked then 0 else version (e_version newest) - Z.of_nat dups_tracked + 1 in
    let '(l, d) := trim_entries earliest_dup_version (passed s (log l)) l d in
    let '(ds, ts) := trim_dups dups_tracked trim_max (dups l) (trimmed_dups d) in
    let tl := if ev_lt (tail l) s then s else tail l in
    Some (Log (head l) tl (can_rollback_to l) (rollback_info_trimmed_to l) (log l) ds (objects l) (trimmed_len l), set_trimmed_dups ts d).

(** [PGLog::trim] *)
Definition pg_trim (dups_tracked trim_max : nat) (trim_to : eversion_t) (transaction_applied async : bool) (info : pg_info_t) (p : PGLog) : option (PGLog * pg_info_t) :=
  if ev_lt (tail (plog p)) trim_to then
    if transaction_applied && negb async && bool_decide (items (missing p) = ∅) && negb (ev_le trim_to (last_complete info)) then None
    else
      '(l, d) ← log_trim dups_tracked trim_max trim_to (plog p) (dirt p);
      Some (PGL (missing p) l d, set_log_tail (tail l) info)
  else Some (p, info).
End Log.

(** ** The log of a replica *)

(** The smallest version that is missing ([rmissing.begin()]). *)
Definition rmissing_begin (m : pg_missing_set) : option (Z * hobject_t) :=
  map_fold (fun v o acc => match acc with Some (w, _) => if v <? w then Some (v, o) else acc | None => Some (v, o) end) None (rmissing m).

Definition get_oldest_need (m : pg_missing_set) : option eversion_t :=
  if bool_decide (items m = ∅) then Some ev_zero
  else '(_, o) ← rmissing_begin m; i ← items m !! o; Some (need i).

(** The last version of the log that is not above [v], from the end. *)
Fixpoint first_non_divergent (v : eversion_t) (rl : list pg_log_entry_t) : option eversion_t :=
  match rl with
  | [] => None
  | e :: rl' => if ev_le (e_version e) v then Some (e_version e) else first_non_divergent v rl'
  end.

(** The last version below [v]. *)
Fixpoint complete_below (v last : eversion_t) (l : list pg_log_entry_t) : eversion_t :=
  match l with
  | [] => last
  | e :: l' => if ev_lt (e_version e) v then complete_below v (e_version e) l' else last
  end.

(** The point up to which the two logs are shared. *)
Definition replica_point (l : IndexedLog) (olog : pg_log_t) : eversion_t :=
  let limit := ev_maximum (o_tail olog) (tail l) in
  match first_non_divergent (o_head olog) (reverse (log l)) with
  | Some v => if ev_lt v limit then limit else v
  | None => limit
  end.

Definition proc_replica_log (l : IndexedLog) (oinfo : pg_info_t) (olog : pg_log_t) (omissing : pg_missing_set) : option (pg_info_t * pg_missing_set) :=
  if ev_lt (o_head olog) (tail l) then Some (oinfo, omissing)
  else if bool_decide (o_head olog = head l) then Some (oinfo, omissing)
  else
    let lu := replica_point l olog in
    '(folog, divergent) ← rewind_from_head lu (indexed olog);
    '(omissing, _) ← _merge_divergent_entries folog divergent (last_backfill oinfo) (o_can_rollback_to olog) omissing tt;
    let oinfo := if ev_lt lu (last_update oinfo) then set_last_update lu oinfo else oinfo in
    if bool_decide (items omissing = ∅) then Some (set_last_complete (last_update oinfo) oinfo, omissing)
    else
      '(_, o) ← rmissing_begin omissing;
      i ← items omissing !! o;
      Some (set_last_complete (complete_below (need i) ev_zero (o_log olog)) oinfo, omissing).
