(* ===== verification/PgLogSpec.v ===== *)
(** * What a placement-group log promises

    A log is the end of a history of writes.  [history] says what the write path
    guarantees of it; [index_objects] of a whole history finds the last event of
    an object.  [HandlerLaws] is what the log expects of the backend that stores
    the objects, and [agrees] is the invariant that ties the missing set and the
    store of one OSD to a history. *)

From stdpp Require Import gmap sorting.
From S2P Require Import Prelude HObject PgLog.

(** ** Versions *)

Lemma ev_lt_spec a b : ev_lt a b = true <-> epoch a < epoch b \/ epoch a = epoch b /\ version a < version b.
Proof. unfold ev_lt. destruct (Z.eqb_spec (epoch a) (epoch b)); lia. Qed.

Lemma ev_lt_false a b : ev_lt a b = false <-> epoch b < epoch a \/ epoch a = epoch b /\ version b <= version a.
Proof. unfold ev_lt. destruct (Z.eqb_spec (epoch a) (epoch b)); lia. Qed.

Lemma ev_le_spec a b : ev_le a b = true <-> epoch a < epoch b \/ epoch a = epoch b /\ version a <= version b.
Proof. unfold ev_le. destruct (Z.eqb_spec (epoch a) (epoch b)); lia. Qed.

Lemma ev_le_false a b : ev_le a b = false <-> epoch b < epoch a \/ epoch a = epoch b /\ version b < version a.
Proof. unfold ev_le. destruct (Z.eqb_spec (epoch a) (epoch b)); lia. Qed.

Lemma ev_ext a b : epoch a = epoch b -> version a = version b -> a = b.
Proof. destruct a, b. cbn. congruence. Qed.

(** [b] comes after [a] in a history, or is the same. *)
Definition newer_than (a b : eversion_t) : Prop := ev_lt a b = true /\ version a < version b.
Definition upto (a b : eversion_t) : Prop := ev_le a b = true /\ version a <= version b.

Ltac ev_bools :=
  repeat match goal with
  | H : negb _ = _ |- _ => apply negb_true_iff in H || apply negb_false_iff in H
  | H : context [ev_lt _ _ = true] |- _ => rewrite ev_lt_spec in H
  | H : context [ev_lt _ _ = false] |- _ => rewrite ev_lt_false in H
  | H : context [ev_le _ _ = true] |- _ => rewrite ev_le_spec in H
  | H : context [ev_le _ _ = false] |- _ => rewrite ev_le_false in H
  | |- context [ev_lt _ _ = true] => rewrite ev_lt_spec
  | |- context [ev_lt _ _ = false] => rewrite ev_lt_false
  | |- context [ev_le _ _ = true] => rewrite ev_le_spec
  | |- context [ev_le _ _ = false] => rewrite ev_le_false
  end.

(** Arithmetic on versions. *)
Ltac ev_lia := unfold newer_than, upto in *; ev_bools; cbn [epoch version ev_zero] in *; lia.

Lemma newer_than_trans a b c : newer_than a b -> newer_than b c -> newer_than a c.
Proof. ev_lia. Qed.
Lemma upto_refl a : upto a a.
Proof. ev_lia. Qed.
Lemma newer_than_neq a b : newer_than a b -> a <> b.
Proof. intros H ->. ev_lia. Qed.

Lemma ev_min_l a b : ev_lt a b = true -> ev_min a b = a.
Proof. intros. unfold ev_min. destruct (ev_lt b a) eqn:E; [ev_lia | done]. Qed.

Lemma ev_lt_dec a b : ev_lt a b = true \/ ev_le b a = true.
Proof. ev_lia. Qed.

(** ** Histories *)

(** What an event says of its object before and after it. *)
Definition before (e : pg_log_entry_t) : option eversion_t :=
  if bool_decide (prior_version e = ev_zero) || is_clone e then None else Some (prior_version e).
Definition after (e : pg_log_entry_t) : option eversion_t := if is_delete e then None else Some (e_version e).
Definition current (x : option pg_log_entry_t) : option eversion_t := x ≫= after.

(** Versions increase; an event names the version it replaces; the name of a
    clone is new. *)
Definition follows (x : option pg_log_entry_t) (e : pg_log_entry_t) : Prop :=
  before e = current x /\ (is_clone e = true -> x = None).

Inductive history : list pg_log_entry_t -> Prop :=
  | history_nil : history []
  | history_snoc L e :
      history L -> hobject_wf (soid e) -> newer_than ev_zero (e_version e) ->
      (forall x, x ∈ L -> newer_than (e_version x) (e_version e)) ->
      (is_error e = false -> follows (index_objects L !! soid e) e) ->
      history (L ++ [e]).

(** A list of entries in the order of their versions. *)
Definition in_order (L : list pg_log_entry_t) : Prop := StronglySorted (fun x y => newer_than (e_version x) (e_version y)) L.

Definition on (o : hobject_t) (e : pg_log_entry_t) : Prop := soid e = o /\ is_error e = false.
#[export] Instance on_dec o e : Decision (on o e) := _.

Lemma index_snoc L e : index_objects (L ++ [e]) = index_entry (index_objects L) e.
Proof. unfold index_objects. by rewrite fold_left_app. Qed.

Lemma index_entry_lookup m e o :
  index_entry m e !! o = if decide (on o e) then Some e else m !! o.
Proof.
  unfold index_entry. case_decide as H; destruct (is_error e) eqn:E; unfold on in H.
  - destruct H. congruence.
  - destruct H as [<- _]. apply lookup_insert_eq.
  - done.
  - apply lookup_insert_ne. naive_solver.
Qed.

(** The index holds the last event of each object. *)
Lemma index_lookup L o : index_objects L !! o = list.last (filter (on o) L).
Proof.
  induction L as [| e L IH] using rev_ind; [done |].
  rewrite index_snoc, index_entry_lookup, filter_app, filter_cons, filter_nil.
  case_decide; [by rewrite last_snoc | by rewrite app_nil_r].
Qed.

Lemma index_app L K o : index_objects (L ++ K) !! o = match index_objects K !! o with Some e => Some e | None => index_objects L !! o end.
Proof. rewrite !index_lookup, filter_app, last_app. done. Qed.

Lemma index_Some L o e : index_objects L !! o = Some e -> e ∈ L /\ on o e.
Proof. rewrite index_lookup. intros H%last_Some_elem_of. apply list_elem_of_filter in H. naive_solver. Qed.

Lemma index_None L o : index_objects L !! o = None <-> filter (on o) L = [].
Proof. rewrite index_lookup. apply last_None. Qed.

Lemma history_snoc_inv L e : history (L ++ [e]) ->
  history L /\ hobject_wf (soid e) /\ newer_than ev_zero (e_version e) /\
  (forall x, x ∈ L -> newer_than (e_version x) (e_version e)) /\
  (is_error e = false -> follows (index_objects L !! soid e) e).
Proof.
  intros H. inversion H as [E | ? ? ? ? ? ? ? E]; [by destruct L |].
  apply app_inj_tail in E as [<- <-]. done.
Qed.

Lemma history_app_l P D : history (P ++ D) -> history P.
Proof.
  induction D as [| e D IH] using rev_ind; [by rewrite app_nil_r |].
  rewrite app_assoc. intros [H _]%history_snoc_inv. auto.
Qed.

Lemma history_elem L e : history L -> e ∈ L -> hobject_wf (soid e) /\ newer_than ev_zero (e_version e).
Proof. induction 1; [by intros ?%elem_of_nil |].
  intros [| ->%list_elem_of_singleton]%elem_of_app; auto. Qed.

Lemma history_names P D : history (P ++ D) -> Forall (fun e => hobject_wf (soid e)) D.
Proof. intros Hh. rewrite Forall_forall. intros e He. eapply history_elem; [exact Hh |]. apply elem_of_app. by right. Qed.

Lemma in_order_app L K : in_order (L ++ K) <->
  (forall x y, x ∈ L -> y ∈ K -> newer_than (e_version x) (e_version y)) /\ in_order L /\ in_order K.
Proof. apply StronglySorted_app. Qed.

Lemma in_order_filter (Q : pg_log_entry_t -> Prop) `{!forall x, Decision (Q x)} L : in_order L -> in_order (filter Q L).
Proof.
  induction 1 as [| e L _ IH He]; [constructor |]. rewrite filter_cons. case_decide; [| done]. constructor; [done |].
  rewrite Forall_forall in *. intros x [_ Hx]%list_elem_of_filter. auto.
Qed.

Lemma history_in_order L : history L -> in_order L.
Proof.
  induction 1; [constructor |]. apply in_order_app. split_and!; [| done | repeat constructor].
  intros x y Hx ->%list_elem_of_singleton. auto.
Qed.

(** The events of one object, each of which follows the one before. *)
Fixpoint chain (x : option pg_log_entry_t) (ds : list pg_log_entry_t) : Prop :=
  match ds with
  | [] => True
  | d :: ds' => follows x d /\ chain (Some d) ds'
  end.

Lemma chain_snoc x ds d : chain x (ds ++ [d]) <-> chain x ds /\ follows (match list.last ds with Some y => Some y | None => x end) d.
Proof.
  revert x. induction ds as [| y ds IH]; intros x; cbn [app chain]; [cbn; tauto |].
  rewrite IH, last_cons. destruct (list.last ds); tauto.
Qed.

Lemma history_chain P D o : history (P ++ D) -> chain (index_objects P !! o) (filter (on o) D).
Proof.
  induction D as [| e D IH] using rev_ind; [done |]. rewrite app_assoc.
  intros (H & _ & _ & _ & He)%history_snoc_inv. rewrite filter_app, filter_cons, filter_nil.
  case_decide as Ho; [| rewrite app_nil_r; auto]. destruct Ho as [<- Hn]. apply chain_snoc. split; [auto |].
  specialize (He Hn). by rewrite index_app, (index_lookup D) in He.
Qed.

(** ** Ends of histories *)

(** What a log with tail [t] holds of a history. *)
Definition since (t : eversion_t) (L : list pg_log_entry_t) : list pg_log_entry_t := filter (fun e => ev_lt t (e_version e) = true) L.

Lemma since_app t L K : since t (L ++ K) = since t L ++ since t K.
Proof. apply filter_app. Qed.

Lemma since_all t L : (forall e, e ∈ L -> ev_lt t (e_version e) = true) -> since t L = L.
Proof. intros. by apply filter_all. Qed.

Lemma elem_since t L e : e ∈ since t L <-> ev_lt t (e_version e) = true /\ e ∈ L.
Proof. unfold since. by rewrite list_elem_of_filter. Qed.

Lemma since_since t u L : ev_le t u = true -> since u (since t L) = since u L.
Proof.
  intros. unfold since. rewrite list_filter_filter. apply list_filter_iff. intros x. split; [tauto |]. intros. split; first [done | ev_lia].
Qed.

Lemma passed_since t L : in_order L -> L = passed t L ++ since t L.
Proof.
  induction 1 as [| e L HL IH He]; [done |]. cbn [passed]. unfold since. rewrite filter_cons. destruct (ev_lt t (e_version e)) eqn:E.
  - rewrite decide_True by done. cbn [app]. f_equal. symmetry. apply since_all. intros x Hx.
    rewrite Forall_forall in He. apply He in Hx. ev_lia.
  - rewrite decide_False by done. cbn [app]. by f_equal.
Qed.

Lemma drop_passed t L : in_order L -> drop (length (passed t L)) L = since t L.
Proof. intros. rewrite (passed_since t L) at 2 by done. apply drop_app_length. Qed.

Lemma elem_passed t L e : e ∈ passed t L -> e ∈ L /\ ev_le (e_version e) t = true.
Proof.
  induction L as [| x L IH]; cbn [passed]; [by intros ?%elem_of_nil |]. destruct (ev_lt t (e_version x)) eqn:E; [by intros ?%elem_of_nil |].
  intros [-> | [? ?]%IH]%elem_of_cons; [split; [left | ev_lia] | split; [by right | done]].
Qed.

Lemma passed_app t L K : (forall e, e ∈ K -> ev_lt t (e_version e) = true) -> passed t (L ++ K) = passed t L.
Proof.
  intros HK. induction L as [| e L IH]; cbn [app passed]; [| by rewrite IH].
  destruct K as [| e K]; [done |]. cbn [passed]. by rewrite (HK e) by left.
Qed.

(** ** The backend *)

Class HandlerLaws (S : Type) `{LogEntryHandler S} := {
  (** the version of an object in the store *)
  visible : S -> hobject_t -> option eversion_t;
  (** the store can still undo an entry *)
  kept : S -> pg_log_entry_t -> Prop;
  rollback_undoes s e : kept s e -> visible s (soid e) = after e -> visible (h_rollback e s) (soid e) = before e;
  rollback_other s e o : o <> soid e -> visible (h_rollback e s) o = visible s o;
  rollback_keeps s e e' : e_version e' <> e_version e -> kept s e' -> kept (h_rollback e s) e';
  rollforward_visible s e o : visible (h_rollforward e s) o = visible s o;
  rollforward_keeps s e e' : e_version e' <> e_version e -> kept s e' -> kept (h_rollforward e s) e';
  trim_visible s e o : visible (h_trim e s) o = visible s o;
  trim_keeps s e e' : e_version e' <> e_version e -> kept s e' -> kept (h_trim e s) e';
  remove_visible s o : visible (h_remove o s) o = None;
  remove_other s o o' : o' <> o -> visible (h_remove o s) o' = visible s o';
  remove_keeps s o e : soid e <> o -> kept s e -> kept (h_remove o s) e;
  stash_visible s o v : visible (h_try_stash o v s) o = None;
  stash_other s o v o' : o' <> o -> visible (h_try_stash o v s) o' = visible s o';
  stash_keeps s o v e : soid e <> o -> kept s e -> kept (h_try_stash o v s) e
}.

(** ** The invariant *)

(** An object with last event [x], the item [i] of it in the missing set and the
    version [v] of it in the store; [dels]: deletions may be missing. *)
Definition object_ok (x : option pg_log_entry_t) (dels : bool) (i : option pg_missing_item) (v : option eversion_t) : Prop :=
  match i with
  | None => v = current x
  | Some i =>
      (have i <> ev_zero -> v = Some (have i)) /\
      exists e, x = Some e /\ need i = e_version e /\ item_delete i = is_delete e /\ (is_delete e = true -> dels = true)
  end.

(** Objects that are not missing are as the history leaves them; the others are
    needed as it leaves them, and are as [have] says.  Objects that are still to
    be backfilled do not count. *)
Definition agrees {S} `{HandlerLaws S} (L : list pg_log_entry_t) (bound : hobject_t) (m : pg_missing_set) (s : S) : Prop :=
  forall o, above o bound = false -> object_ok (index_objects L !! o) (may_include_deletes m) (items m !! o) (visible s o).
