(* ===== verification/PgLogMerge.v ===== *)
(** * Merging the divergent entries of one log

    [split_by_object] groups the entries by object, [strip_errors] keeps the
    events of one object, and [_merge_object_divergent_entries] brings the object
    back to what the history without them says, in each of its five cases. *)

From stdpp Require Import gmap sorting.
From S2P Require Import Prelude HObject PgLog PgLogSpec.

(** ** Grouping by object *)

Lemma cmp_lt_trans a b c : cmp a b < 0 -> cmp b c < 0 -> cmp a c < 0.
Proof.
  rewrite !cmp_spaceship, !spaceship_key. intros Hab Hbc.
  destruct (compare (order_key a) (order_key b)) eqn:E1; cbn in Hab; [lia | | lia].
  destruct (compare (order_key b) (order_key c)) eqn:E2; cbn in Hbc; [lia | | lia].
  by rewrite (compare_trans _ _ _ E1 E2).
Qed.

Lemma cmp_zero a b : hobject_wf a -> hobject_wf b -> cmp a b = 0 <-> a = b.
Proof.
  intros Ha Hb. rewrite cmp_spaceship, spaceship_key. split.
  - intros H. apply order_key_inj; try done. apply compare_eq. by destruct (compare _ _).
  - intros ->. by rewrite (proj2 (compare_eq _ _) eq_refl).
Qed.

Lemma cmp_opp a b : cmp b a = - cmp a b.
Proof. rewrite !cmp_spaceship, !spaceship_key, (compare_antisym (order_key a) (order_key b)). by destruct (compare (order_key a) _). Qed.

Definition sorted_groups (m : list (hobject_t * list pg_log_entry_t)) : Prop :=
  StronglySorted (fun a b => cmp a.1 b.1 < 0) m /\ Forall (fun a => hobject_wf a.1) m.

Fixpoint group (o : hobject_t) (m : list (hobject_t * list pg_log_entry_t)) : list pg_log_entry_t :=
  match m with
  | [] => []
  | (o', es) :: m' => if decide (o = o') then es else group o m'
  end.

Lemma group_above o m : hobject_wf o -> Forall (fun a => cmp o a.1 < 0) m -> group o m = [].
Proof.
  intros Ho. induction 1 as [| [o' es] m H _ IH]; [done |]. cbn [group]. rewrite decide_False; [done |].
  intros ->. cbn in H. pose proof (proj2 (cmp_zero o' o' Ho Ho) eq_refl). lia.
Qed.

(** Where [std::map] puts an object. *)
Lemma split_insert_keys e m a : a ∈ split_insert e m -> a.1 = soid e \/ exists b, b ∈ m /\ a.1 = b.1.
Proof.
  induction m as [| [o es] m IH]; cbn [split_insert].
  - intros ->%list_elem_of_singleton. by left.
  - destruct (cmp (soid e) o <? 0); [| destruct (cmp (soid e) o =? 0)]; intros [-> | H]%elem_of_cons; try (by left).
    + right. eauto.
    + right. exists (o, es). split; [left | done].
    + right. exists a. split; [by right | done].
    + right. exists (o, es). split; [left | done].
    + destruct (IH H) as [| (b & ? & ?)]; [by left | right]. exists b. split; [by right | done].
Qed.

Lemma split_insert_sorted e m : hobject_wf (soid e) -> sorted_groups m -> sorted_groups (split_insert e m).
Proof.
  intros He [Hs Hw]. split.
  - induction Hs as [| [o es] m Hs IH Ho]; cbn [split_insert]; [repeat constructor |]. apply Forall_cons in Hw as [Hwo Hw]. cbn in *.
    destruct (Z.ltb_spec (cmp (soid e) o) 0); [| destruct (Z.eqb_spec (cmp (soid e) o) 0)].
    + constructor; [by constructor |]. constructor; [done |]. eapply Forall_impl; [exact Ho |]. cbn. intros. by eapply cmp_lt_trans.
    + by constructor.
    + constructor; [auto |]. rewrite Forall_forall in *. intros a [-> | (b & Hb & ->)]%split_insert_keys; cbn.
      * rewrite cmp_opp. lia.
      * by apply Ho.
  - rewrite Forall_forall in *. intros a [-> | (b & Hb & ->)]%split_insert_keys; [done | auto].
Qed.

Lemma split_insert_group e m o : hobject_wf (soid e) -> sorted_groups m ->
  group o (split_insert e m) = if decide (o = soid e) then group o m ++ [e] else group o m.
Proof.
  intros He [Hs Hw]. induction Hs as [| [o' es] m Hs IH Ho]; cbn [split_insert group].
  - case_decide; done.
  - apply Forall_cons in Hw as [Hwo Hw]. cbn in *.
    destruct (Z.ltb_spec (cmp (soid e) o') 0); [| destruct (Z.eqb_spec (cmp (soid e) o') 0) as [E |]]; cbn [group].
    + destruct (decide (o = soid e)) as [-> |]; [| done].
      enough (group (soid e) ((o', es) :: m) = []) as E by (cbn [group] in E; by rewrite E).
      apply group_above; [done |]. constructor; [done |]. eapply Forall_impl; [exact Ho |]. cbn. intros. by eapply cmp_lt_trans.
    + apply cmp_zero in E as <-; [| done..]. by repeat case_decide.
    + rewrite IH by done. destruct (decide (o = o')) as [-> |]; [| done]. rewrite decide_False; [done |].
      intros ->. by rewrite (proj2 (cmp_zero _ _ He He) eq_refl) in *.
Qed.

Lemma split_insert_full e m : Forall (fun a => a.2 <> []) m -> Forall (fun a => a.2 <> []) (split_insert e m).
Proof.
  induction 1 as [| [o es] m Ho Hm IH]; cbn [split_insert]; [by apply Forall_singleton |].
  destruct (_ <? _); [by constructor; [| constructor] |]. destruct (_ =? _); constructor; try done. cbn. by intros [_ ?]%app_eq_nil.
Qed.

Lemma split_ok D : Forall (fun e => hobject_wf (soid e)) D ->
  sorted_groups (split_by_object D) /\ Forall (fun a => a.2 <> []) (split_by_object D) /\
  forall o, group o (split_by_object D) = filter (fun e => soid e = o) D.
Proof.
  induction D as [| e D IH] using rev_ind; [intros _; split_and!; [split | |]; by try constructor |].
  intros [HD He]%Forall_app. apply Forall_cons_1 in He as [He _]. destruct (IH HD) as (Hs & Hf & Hg).
  unfold split_by_object in *. rewrite fold_left_app. cbn [fold_left]. split; [| split].
  - by apply split_insert_sorted.
  - by apply split_insert_full.
  - intros o. rewrite split_insert_group, Hg, filter_app, filter_cons, filter_nil by done.
    destruct (decide (o = soid e)) as [-> |]; [by rewrite decide_True | by rewrite decide_False, app_nil_r].
Qed.

Lemma group_elem o es m : sorted_groups m -> (o, es) ∈ m -> group o m = es.
Proof.
  intros [Hs Hw]. induction Hs as [| [o' es'] m Hs IH Ho]; [by intros ?%elem_of_nil |].
  apply Forall_cons in Hw as [Hwo Hw]. intros [[= -> ->] | H]%elem_of_cons; cbn [group]; [by rewrite decide_True |].
  rewrite decide_False; [auto |]. intros ->. rewrite Forall_forall in Ho. specialize (Ho _ H). cbn in *.
  pose proof (proj2 (cmp_zero o' o' Hwo Hwo) eq_refl). lia.
Qed.

Lemma group_in o m : group o m <> [] -> (o, group o m) ∈ m.
Proof.
  induction m as [| [o' es] m IH]; cbn [group]; [done |]. case_decide as E; [subst; left | right; auto].
Qed.

Lemma sorted_groups_nodup m : sorted_groups m -> NoDup m.*1.
Proof.
  intros [Hs Hw]. induction Hs as [| [o es] m Hs IH Ho]; [constructor |]. apply Forall_cons in Hw as [Hwo Hw]. cbn in *.
  constructor; [| auto]. intros ([o' es'] & -> & H)%list_elem_of_fmap. rewrite Forall_forall in Ho. specialize (Ho _ H). cbn in *.
  pose proof (proj2 (cmp_zero o' o' Hwo Hwo) eq_refl). lia.
Qed.

Lemma split_elem D o es : Forall (fun e => hobject_wf (soid e)) D -> (o, es) ∈ split_by_object D ->
  es = filter (fun e => soid e = o) D /\ es <> [].
Proof.
  intros (Hs & Hf & Hg)%split_ok H. rewrite <- Hg, (group_elem _ _ _ Hs H). rewrite Forall_forall in Hf. split; [done | by apply (Hf _ H)].
Qed.

Lemma split_none D o : Forall (fun e => hobject_wf (soid e)) D -> ~ o ∈ (split_by_object D).*1 -> filter (fun e => soid e = o) D = [].
Proof.
  intros (Hs & _ & Hg)%split_ok Hn. destruct (filter _ D) eqn:Ef; [done |]. exfalso. apply Hn.
  apply (list_elem_of_fmap_2 fst _ (o, group o (split_by_object D))), group_in. by rewrite Hg, Ef.
Qed.

Lemma split_nodup D : Forall (fun e => hobject_wf (soid e)) D -> NoDup (split_by_object D).*1.
Proof. intros (Hs & _)%split_ok. by apply sorted_groups_nodup. Qed.

(** ** The events of one object *)

Lemma in_order_inj L x y : in_order L -> x ∈ L -> y ∈ L -> version (e_version x) = version (e_version y) -> x = y.
Proof.
  induction 1 as [| e L _ IH He]; [by intros ?%elem_of_nil |]. rewrite Forall_forall in He.
  intros [-> | Hx]%elem_of_cons [-> | Hy]%elem_of_cons E; [done | | | by apply IH].
  - apply He in Hy. ev_lia.
  - apply He in Hx. ev_lia.
Qed.

Lemma filter_on o (D : list pg_log_entry_t) : filter (on o) (filter (fun e => soid e = o) D) = filter (on o) D.
Proof. rewrite list_filter_filter. apply list_filter_iff. intros e. unfold on. tauto. Qed.

Lemma strip_errors_ok o first seen last x es :
  Forall (fun e => soid e = o /\ newer_than ev_zero (e_version e) /\ ev_lt last (e_version e) = true) es -> in_order es ->
  (seen = true -> exists y, x = Some y /\ e_version y = last) -> chain x (filter (on o) es) ->
  strip_errors o first seen last es = Some (filter (on o) es).
Proof.
  intros Hes Ho. revert first seen last x Hes.
  induction Ho as [| e es Ho IH He]; intros first seen last x Hes Hx; [done |].
  apply Forall_cons in Hes as [(Hs & Hz & Hl) Hes]. cbn [strip_errors]. rewrite bool_decide_eq_true_2 by done. cbn [negb].
  rewrite filter_cons. destruct (is_error e) eqn:Ee.
  - rewrite decide_False by (unfold on; rewrite Ee; intros [? ?]; done). intros Hc.
    rewrite Hl, orb_true_r. cbn [negb andb]. rewrite !andb_false_r. rewrite orb_false_r. by eapply IH.
  - rewrite decide_True by done. intros [[Hb Hcl] Hc].
    assert (negb first && negb (bool_decide (prior_version e = ev_zero)) && negb (negb seen && negb false) &&
      negb (ev_lt last (e_version e) && (bool_decide (prior_version e = last) || false)) = false) as ->.
    { destruct seen; [| by rewrite !andb_false_r]. destruct (Hx eq_refl) as (y & -> & Hy).
      rewrite Hl. unfold before in Hb. destruct (bool_decide_reflect (prior_version e = ev_zero)) as [| Hp]; [by rewrite andb_false_r |].
      destruct (is_clone e); [by specialize (Hcl eq_refl) |]. cbn in Hb. unfold after in Hb.
      destruct (is_delete y); [done |]. injection Hb as Hb. rewrite bool_decide_eq_true_2 by congruence. by rewrite andb_false_r. }
    rewrite orb_true_r. rewrite (IH false true (e_version e) (Some e)); [done | | by eauto | done].
    rewrite Forall_forall in *. intros d Hd. destruct (Hes _ Hd) as (? & ? & _). split_and!; try done. apply He. done.
Qed.

Section Backend.
Context {S : Type} `{HandlerLaws S}.
Implicit Types (s : S) (m : pg_missing_set).

Lemma trim_all_visible es s o : visible (trim_all es s) o = visible s o.
Proof. revert s. induction es as [| e es IH]; intros s; [done |]. unfold trim_all in *. cbn. rewrite IH. apply trim_visible. Qed.

Lemma trim_all_keeps es s e : Forall (fun d => e_version e <> e_version d) es -> kept s e -> kept (trim_all es s) e.
Proof.
  intros Hes. revert s. induction Hes as [| d es Hd _ IH]; intros s Hk; [done |]. unfold trim_all in *. cbn. apply IH. by apply trim_keeps.
Qed.

Lemma rollback_all_snoc es d s : rollback_all (es ++ [d]) s = rollback_all es (h_rollback d s).
Proof. unfold rollback_all. by rewrite reverse_snoc. Qed.

Lemma rollback_all_other o es s o' : Forall (fun d => soid d = o) es -> o' <> o -> visible (rollback_all es s) o' = visible s o'.
Proof.
  intros Hes Hn. revert s. induction es as [| d es IH] using rev_ind; intros s; [done |].
  apply Forall_app in Hes as [Hes Hd]. apply Forall_cons_1 in Hd as [Hd _]. rewrite rollback_all_snoc, IH by done.
  apply rollback_other. congruence.
Qed.

Lemma rollback_all_keeps es s e : Forall (fun d => e_version e <> e_version d) es -> kept s e -> kept (rollback_all es s) e.
Proof.
  revert s. induction es as [| d es IH] using rev_ind; intros s Hes Hk; [done |].
  apply Forall_app in Hes as [Hes Hd]. apply Forall_cons_1 in Hd as [Hd _]. rewrite rollback_all_snoc. apply IH; [done |]. by apply rollback_keeps.
Qed.

(** Rolling back the newest entry first undoes a chain of events. *)
Lemma rollback_all_undoes o x ds s : chain x ds -> in_order ds -> Forall (fun d => soid d = o) ds -> Forall (kept s) ds ->
  visible s o = current (match list.last ds with Some y => Some y | None => x end) -> visible (rollback_all ds s) o = current x.
Proof.
  revert s. induction ds as [| d ds IH] using rev_ind; intros s Hc Ho Hs Hk Hv; [done |].
  apply chain_snoc in Hc as [Hc [Hb _]]. apply in_order_app in Ho as (Hnew & Ho & _).
  apply Forall_app in Hs as [Hs Hd]. apply Forall_cons_1 in Hd as [Hd _]. apply Forall_app in Hk as [Hk Hkd]. apply Forall_cons_1 in Hkd as [Hkd _].
  rewrite last_snoc in Hv. rewrite rollback_all_snoc. apply IH; try done.
  - rewrite Forall_forall in *. intros y Hy. apply rollback_keeps; [| auto].
    apply newer_than_neq, Hnew; [done | by apply list_elem_of_singleton].
  - rewrite <- Hb, <- Hd. apply rollback_undoes; [done |]. by rewrite Hd.
Qed.

(** ** One object *)

(** Nothing but one object and its entries changes. *)
Record local_change (o : hobject_t) (es : list pg_log_entry_t) m s m' s' : Prop := {
  lc_dels : may_include_deletes m' = may_include_deletes m;
  lc_items o' : o' <> o -> items m' !! o' = items m !! o';
  lc_visible o' : o' <> o -> visible s' o' = visible s o';
  lc_kept e : soid e <> o -> Forall (fun d => e_version e <> e_version d) es -> kept s e -> kept s' e
}.

Definition newest (xn x : option pg_log_entry_t) : option pg_log_entry_t := match xn with Some e => Some e | None => x end.

(** [es] are the divergent entries of [o]; [x] is its last event before them, and
    [xn] the last one of the newer log, if any. *)
Record divergent_object (l : IndexedLog) (x xn : option pg_log_entry_t) (o : hobject_t) (es : list pg_log_entry_t) : Prop := {
  do_some : es <> [];
  do_entries : Forall (fun e => soid e = o /\ newer_than ev_zero (e_version e)) es;
  do_order : in_order es;
  do_chain : chain x (filter (on o) es);
  do_index :
    match xn with
    | Some e => objects l !! o = Some e /\ on o e /\ Forall (fun d => ev_lt (e_version d) (e_version e) = true) es
    | None => forall y, objects l !! o = Some y -> Forall (fun d => ev_lt (e_version y) (e_version d) = true) es
    end
}.

(** The newer log has been taken into account: the object is missing at its
    version, or deleted. *)
Definition claimed (e : pg_log_entry_t) (dels : bool) (i : option pg_missing_item) (v : option eversion_t) : Prop :=
  if is_delete e && negb dels then i = None /\ v = None
  else exists j, i = Some j /\ need j = e_version e /\ item_delete j = is_delete e.

Definition to_merge (crt : eversion_t) (x xn : option pg_log_entry_t) (o : hobject_t) (es : list pg_log_entry_t) m s : Prop :=
  match filter (on o) es, xn with
  | [], _ => object_ok (newest xn x) (may_include_deletes m) (items m !! o) (visible s o)
  | _, Some e => claimed e (may_include_deletes m) (items m !! o) (visible s o)
  | ds, None =>
      object_ok (list.last ds) (may_include_deletes m) (items m !! o) (visible s o) /\
      (items m !! o = None -> Forall (fun d => can_rollback d = true -> ev_lt crt (e_version d) = true -> kept s d) ds)
  end.

Lemma remove_unless_other b o s o' : o' <> o -> visible (remove_unless b o s) o' = visible s o'.
Proof. intros. destruct b; [done |]. by apply remove_other. Qed.

Lemma remove_unless_keeps b o s e : soid e <> o -> kept s e -> kept (remove_unless b o s) e.
Proof. intros. destruct b; [done |]. by apply remove_keeps. Qed.

(** What the cases do to the store: remove the object and trim its entries. *)
Lemma remove_trim_change b o es ds m s m' : may_include_deletes m' = may_include_deletes m ->
  (forall o', o' <> o -> items m' !! o' = items m !! o') -> (forall d, d ∈ ds -> d ∈ es) ->
  local_change o es m s m' (trim_all ds (remove_unless b o s)).
Proof.
  intros Hd Hi Hsub. split; [done | done | |].
  - intros o' Ho. rewrite trim_all_visible. by apply remove_unless_other.
  - intros e He Hes Hk. apply trim_all_keeps; [| by apply remove_unless_keeps].
    rewrite Forall_forall in *. auto.
Qed.

Lemma remove_unless_gone b o s : (b = true -> visible s o = None) -> visible (remove_unless b o s) o = None.
Proof. intros. destruct b; [auto |]. apply remove_visible. Qed.

Lemma is_missing_spec o m : is_missing o m = match items m !! o with Some _ => true | None => false end.
Proof.
  unfold is_missing. destruct (items m !! o); [by apply bool_decide_eq_true_2 |]. apply bool_decide_eq_false_2. by intros [].
Qed.

Lemma rm_item_other o m o' : o' <> o -> items (rm_item o m) !! o' = items m !! o'.
Proof. intros. unfold rm_item. destruct (items m !! o); [| done]. by apply lookup_delete_ne. Qed.
Lemma rm_item_same o m : items (rm_item o m) !! o = None.
Proof. unfold rm_item. destruct (items m !! o) eqn:E; [apply lookup_delete_eq | done]. Qed.
Lemma rm_item_dels o m : may_include_deletes (rm_item o m) = may_include_deletes m.
Proof. unfold rm_item. by destruct (items m !! o). Qed.
Lemma revise_have_other o h m o' : o' <> o -> items (revise_have o h m) !! o' = items m !! o'.
Proof. intros. unfold revise_have. destruct (items m !! o); [| done]. by apply lookup_insert_ne. Qed.
Lemma revise_have_dels o h m : may_include_deletes (revise_have o h m) = may_include_deletes m.
Proof. unfold revise_have. by destruct (items m !! o). Qed.
Lemma revise_need_other o n b m o' : o' <> o -> items (revise_need o n b m) !! o' = items m !! o'.
Proof. intros. unfold revise_need. destruct (items m !! o); by apply lookup_insert_ne. Qed.
Lemma revise_need_dels o n b m : may_include_deletes (revise_need o n b m) = may_include_deletes m.
Proof. unfold revise_need. by destruct (items m !! o). Qed.

(** Case 1: the newer log has an event of the object. *)
Lemma newer_event_ok e o ds (last : pg_log_entry_t) m s : on o e -> is_error e = false ->
  claimed e (may_include_deletes m) (items m !! o) (visible s o) ->
  (if is_update e || (may_include_deletes m && is_delete e)
   then match items m !! o with Some i => bool_decide (need i = e_version e) | None => false end
   else negb (is_missing o m)) = true /\
  object_ok (Some e) (may_include_deletes m) (items (revise_have o ev_zero m) !! o)
    (visible (trim_all ds (remove_unless (negb (is_missing o m) && is_delete last) o s)) o).
Proof.
  intros [_ _] He. rewrite trim_all_visible, is_missing_spec. unfold claimed, revise_have.
  assert (is_update e = negb (is_delete e)) as Hu by (unfold is_update, is_delete, is_error in *; destruct (op e); done).
  destruct (is_delete e && negb (may_include_deletes m)) eqn:Ed.
  - apply andb_true_iff in Ed as [Ed Em%negb_true_iff]. intros [Hi Hv]. rewrite Hu, Ed, Em, Hi. split; [done |].
    rewrite Hi. cbn [object_ok current mbind option_bind]. unfold after. rewrite Ed. by apply remove_unless_gone.
  - intros (j & Hj & Hn & Hdel). rewrite Hu, Hj. split.
    + rewrite (bool_decide_eq_true_2 (need j = _)) by done. by destruct (is_delete e), (may_include_deletes m).
    + cbn. rewrite lookup_insert_eq. cbn. split; [done |]. exists e. split_and!; try done.
      intros Hd. rewrite Hd in Ed. by destruct (may_include_deletes m).
Qed.

Lemma chain_first x d ds : chain x (d :: ds) -> current x = before d.
Proof. by intros [[] _]. Qed.

(** An event that is not a creation names the last event before it. *)
Lemma chain_prior x d ds : chain x (d :: ds) -> bool_decide (prior_version d = ev_zero) || is_clone d = false ->
  exists y, x = Some y /\ prior_version d = e_version y /\ is_delete y = false.
Proof.
  intros Hb%chain_first Hn. unfold before in Hb. rewrite Hn in Hb. destruct x as [y |]; [| done]. exists y. split; [done |].
  change (after y = Some (prior_version d)) in Hb. unfold after in Hb. destruct (is_delete y); [done |]. by injection Hb.
Qed.

Lemma object_ok_latest x dels i v : object_ok (Some x) dels i v -> i = None -> is_delete x = true -> v = None.
Proof. intros Hok -> Hd. cbn in Hok. rewrite Hok. change (after x = None). unfold after. by rewrite Hd. Qed.

(** Cases 2 to 5: the divergent events are the last ones. *)
Lemma undo_events_ok crt x o first ds last m s :
  chain x (first :: ds) -> in_order (first :: ds) -> Forall (fun d => soid d = o) (first :: ds) -> list.last (first :: ds) = Some last ->
  object_ok (Some last) (may_include_deletes m) (items m !! o) (visible s o) ->
  (items m !! o = None -> Forall (fun d => can_rollback d = true -> ev_lt crt (e_version d) = true -> kept s d) (first :: ds)) ->
  let b := negb (is_missing o m) && is_delete last in
  let es := first :: ds in
  let '(m', s') :=
    if bool_decide (prior_version first = ev_zero) || is_clone first then (rm_item o m, trim_all es (remove_unless b o s))
    else
      match items m !! o with
      | Some i => (if bool_decide (have i = prior_version first) then rm_item o m else revise_need o (prior_version first) false m, trim_all es s)
      | None =>
          if forallb (fun i => can_rollback i && ev_lt crt (e_version i)) es then (m, rollback_all es s)
          else (missing_add o (prior_version first) ev_zero false m, trim_all es (remove_unless b o s))
      end in
  local_change o es m s m' s' /\ object_ok x (may_include_deletes m) (items m' !! o) (visible s' o).
Proof.
  intros Hc Ho Hs Hl Hok Hk b es. pose proof (chain_first _ _ _ Hc) as Hb. unfold before in Hb.
  assert (b = true -> visible s o = None) as Hgone.
  { unfold b. rewrite is_missing_spec. destruct (items m !! o) eqn:E; [done |]. cbn [negb andb]. intros. by eapply object_ok_latest. }
  destruct (bool_decide (prior_version first = ev_zero) || is_clone first) eqn:Enew.
  - (* case 2 *) split; [apply remove_trim_change; [apply rm_item_dels | intros; by apply rm_item_other | done] |].
    rewrite rm_item_same, trim_all_visible. cbn [object_ok]. rewrite Hb. by apply remove_unless_gone.
  - destruct (chain_prior _ _ _ Hc Enew) as (y & -> & Hy & Hdel). apply orb_false_iff in Enew as [Hp%bool_decide_eq_false Hcl].
    assert (forall i, need i = prior_version first -> item_delete i = false -> (have i <> ev_zero -> visible s o = Some (have i)) ->
      object_ok (Some y) (may_include_deletes m) (Some i) (visible s o)) as Hneed.
    { intros i Hn Hd Hh. split; [done |]. exists y. rewrite Hdel. split_and!; try done. congruence. }
    destruct (items m !! o) as [i |] eqn:Ei; [| destruct (forallb _ es) eqn:Er].
    + (* case 3 *) destruct Hok as [Hh _]. case_bool_decide as Eh; (split; [apply (remove_trim_change true) |]); try done.
      * apply rm_item_dels. 
      * intros. by apply rm_item_other.
      * rewrite rm_item_same, trim_all_visible. cbn [object_ok]. rewrite Hb, <- Eh. apply Hh. congruence.
      * apply revise_need_dels.
      * intros. by apply revise_need_other.
      * rewrite trim_all_visible. unfold revise_need. rewrite Ei. cbn [put_item items]. rewrite lookup_insert_eq. by apply Hneed.
    + (* case 4 *) rewrite forallb_forall in Er. assert (Forall (kept s) es) as Hke.
      { specialize (Hk eq_refl). rewrite Forall_forall in *. intros d Hd. specialize (Er d). rewrite <- list_elem_of_In in Er.
        apply andb_true_iff in Er as [??]; auto. }
      split.
      * split; [done | done | |]; intros; [by eapply rollback_all_other | by apply rollback_all_keeps].
      * rewrite Ei. cbn [object_ok]. eapply rollback_all_undoes; [done.. |]. by rewrite (Hl : list.last es = Some last).
    + (* case 5 *) split; [apply remove_trim_change; [done | | done] |].
      * intros. by apply lookup_insert_ne.
      * unfold missing_add. cbn [put_item items]. rewrite lookup_insert_eq, trim_all_visible. cbn [object_ok need have item_delete].
        split; [done |]. exists y. rewrite Hdel. done.
Qed.

(** Merging the divergent entries of one object. *)
Lemma merge_object_ok l x xn o es bound crt m s :
  divergent_object l x xn o es -> (above o bound = false -> to_merge crt x xn o es m s) ->
  exists m' s', _merge_object_divergent_entries l o es bound crt m s = Some (m', s') /\ local_change o es m s m' s' /\
    (above o bound = false -> object_ok (newest xn x) (may_include_deletes m') (items m' !! o) (visible s' o)).
Proof.
  intros [Hne Hes Ho Hc Hi] Hm. unfold _merge_object_divergent_entries. destruct (above o bound); [by exists m, s |].
  specialize (Hm eq_refl). destruct es as [| e0 es0]; [done |]. set (es := e0 :: es0) in *.
  rewrite (strip_errors_ok o true false ev_zero x); [| | done | done | done].
  2:{ eapply Forall_impl; [exact Hes |]. intros e [? []]. done. }
  cbn [mbind option_bind]. unfold to_merge in Hm.
  assert (forall d, d ∈ filter (on o) es -> d ∈ es) as Hsub by (intros d [_ ?]%list_elem_of_filter; done).
  apply (in_order_filter (on o)) in Ho. assert (Forall (fun d => soid d = o) (filter (on o) es)) as Hson.
  { rewrite Forall_forall. by intros d [[] _]%list_elem_of_filter. }
  destruct (filter (on o) es) as [| first ds] eqn:Ef; [by exists m, s |].
  destruct (list.last (first :: ds)) as [last |] eqn:El; [| by apply last_None in El].
  assert (first ∈ es /\ last ∈ es) as [Hfirst Hlast].
  { split; apply Hsub; [left | by apply last_Some_elem_of]. }
  destruct xn as [e |].
  - destruct Hi as (-> & He & Hlt). rewrite Forall_forall in Hlt. pose proof (Hlt _ Hfirst). pose proof (Hlt _ Hlast).
    assert (ev_le (e_version first) (e_version e) = true) as -> by ev_lia.
    assert (ev_lt (e_version last) (e_version e) = true) as -> by done. cbn [negb].
    destruct (newer_event_ok e o (first :: ds) last m s) as [-> Hok]; [done | by destruct He | done |].
    eexists _, _. split; [reflexivity |]. split.
    + apply remove_trim_change; [apply revise_have_dels | intros; by apply revise_have_other | done].
    + intros _. by rewrite revise_have_dels.
  - assert (match objects l !! o with Some y => if ev_le (e_version first) (e_version y) then Some y else None | None => None end = None) as ->.
    { destruct (objects l !! o) as [y |]; [| done]. specialize (Hi y eq_refl). rewrite Forall_forall in Hi. specialize (Hi _ Hfirst).
      destruct (ev_le (e_version first) (e_version y)) eqn:E; [ev_lia | done]. }
    destruct Hm as [Hok Hk]. pose proof (undo_events_ok crt x o first ds last m s Hc Ho Hson El Hok Hk) as Hu. cbv zeta in Hu.
    assert (forall r : pg_missing_set * S, (let '(m', s') := r in local_change o (first :: ds) m s m' s' /\
        object_ok x (may_include_deletes m) (items m' !! o) (visible s' o)) ->
      exists m' s', Some r = Some (m', s') /\ local_change o es m s m' s' /\
        (false = false -> object_ok (newest None x) (may_include_deletes m') (items m' !! o) (visible s' o))) as Hr.
    { intros [m' s'] [[Hd Hi' Hv Hk'] Hx]. exists m', s'. split; [done |]. split; [split; try done | by rewrite Hd].
      intros e He Hall. apply Hk'; [done |]. rewrite Forall_forall in *. auto. }
    destruct (bool_decide (prior_version first = ev_zero) || is_clone first); [by apply Hr |].
    destruct (items m !! o); [by apply Hr |]. destruct (forallb _ _); by apply Hr.
Qed.

(** ** All objects *)

Lemma to_merge_frame crt x xn o es o' es' m s m' s' : local_change o' es' m s m' s' -> o <> o' ->
  Forall (fun d => soid d = o /\ Forall (fun d' => e_version d <> e_version d') es') es ->
  to_merge crt x xn o es m s -> to_merge crt x xn o es m' s'.
Proof.
  intros [Hd Hi Hv Hk] Hne Hes. unfold to_merge. rewrite Hd, Hi, Hv by done.
  destruct (filter (on o) es) as [| d ds] eqn:E; [done |]. destruct xn; [done |]. intros [Hok Hkept]. split; [done |].
  intros Hnone. specialize (Hkept Hnone). rewrite Forall_forall in *. intros y Hy ? ?.
  assert (y ∈ es) as Hye by (rewrite <- E in Hy; by apply list_elem_of_filter in Hy as [_ ?]).
  destruct (Hes _ Hye) as [<- ?]. apply Hk; [done.. |]. by apply Hkept.
Qed.

Lemma merge_each_ok l split bound crt (x xn : hobject_t -> option pg_log_entry_t) m s :
  NoDup split.*1 -> (forall o es, (o, es) ∈ split -> divergent_object l (x o) (xn o) o es) ->
  (forall o es o' es', (o, es) ∈ split -> (o', es') ∈ split -> o <> o' ->
    Forall (fun d => Forall (fun d' => e_version d <> e_version d') es') es) ->
  (forall o es, (o, es) ∈ split -> above o bound = false -> to_merge crt (x o) (xn o) o es m s) ->
  exists m' s', merge_each l split bound crt m s = Some (m', s') /\ may_include_deletes m' = may_include_deletes m /\
    (forall o, ~ o ∈ split.*1 -> items m' !! o = items m !! o /\ visible s' o = visible s o) /\
    (forall o, o ∈ split.*1 -> above o bound = false ->
      object_ok (newest (xn o) (x o)) (may_include_deletes m') (items m' !! o) (visible s' o)).
Proof.
  revert m s. induction split as [| [o es] split IH]; intros m s Hnd Hdiv Hv Hm.
  { exists m, s. split_and!; try done. by intros ? ?%elem_of_nil. }
  apply NoDup_cons in Hnd as [Hnot Hnd].
  destruct (merge_object_ok l (x o) (xn o) o es bound crt m s) as (m1 & s1 & E1 & Hl & Hok1).
  { apply Hdiv. left. }
  { apply Hm. left. }
  destruct (IH m1 s1 Hnd) as (m' & s' & E & Hd & Hout & Hin).
  { intros. apply Hdiv. by right. }
  { intros o1 es1 o2 es2 H1 H2. apply (Hv o1 es1 o2 es2); by right. }
  { intros o1 es1 H1 Hab. assert (o1 <> o) as Hne by (intros ->; apply Hnot; by apply (list_elem_of_fmap_2 fst _ (o, es1))).
    eapply to_merge_frame; [done | done | | apply Hm; [by right | done]].
    pose proof (do_entries _ _ _ _ _ (Hdiv o1 es1 ltac:(by right))) as He.
    specialize (Hv o1 es1 o es ltac:(by right) ltac:(left) Hne). rewrite Forall_forall in *. intros d Hd. by destruct (He _ Hd); auto. }
  destruct Hl as [Hd1 Hi1 Hv1 _]. exists m', s'. split_and!.
  - cbn [merge_each]. by rewrite E1.
  - congruence.
  - intros o1 Ho1. cbn in Ho1. rewrite elem_of_cons in Ho1. destruct (Hout o1) as [-> ->]; [tauto |]. split; [apply Hi1 | apply Hv1]; tauto.
  - intros o1. cbn. intros [-> | H1]%elem_of_cons Hab; [| by apply Hin].
    destruct (Hout o Hnot) as [-> ->]. rewrite Hd. by apply Hok1.
Qed.

(** The groups of the divergent entries [D] of [P ++ D], to be merged into a log
    that ends with [N]. *)
Lemma split_divergent P D N K l o es : history (P ++ D) -> (forall e, e ∈ K -> e ∈ P) -> objects l = index_objects (K ++ N) ->
  (forall d e, d ∈ D -> e ∈ N -> ev_lt (e_version d) (e_version e) = true) -> (o, es) ∈ split_by_object D ->
  divergent_object l (index_objects P !! o) (index_objects N !! o) o es.
Proof.
  intros Hh HK Hl HN Hin. pose proof (history_in_order _ Hh) as (HPD & _ & HoD)%in_order_app.
  apply split_elem in Hin as [-> Hne]; [| by apply (history_names P)].
  split; [done | | by apply in_order_filter | rewrite filter_on; by apply history_chain |].
  - rewrite Forall_forall. intros e [<- He]%list_elem_of_filter. split; [done |].
    eapply history_elem; [exact Hh |]. apply elem_of_app. by right.
  - rewrite Hl, index_app. destruct (index_objects N !! o) as [e |] eqn:En.
    + apply index_Some in En as [En Hon]. split_and!; [done | done |]. rewrite Forall_forall. intros d [_ Hd]%list_elem_of_filter. auto.
    + intros y [Hy _]%index_Some. rewrite Forall_forall. intros d [_ Hd]%list_elem_of_filter. by apply HPD; [apply HK |].
Qed.

(** The state before the divergent entries [D] of [P ++ D] are merged into a log
    of [P ++ N]. *)
Definition unmerged (P D N : list pg_log_entry_t) (crt : eversion_t) (o : hobject_t) m s : Prop :=
  match index_objects D !! o, index_objects N !! o with
  | None, _ => object_ok (index_objects (P ++ N) !! o) (may_include_deletes m) (items m !! o) (visible s o)
  | Some _, Some e => claimed e (may_include_deletes m) (items m !! o) (visible s o)
  | Some d, None =>
      object_ok (Some d) (may_include_deletes m) (items m !! o) (visible s o) /\
      (items m !! o = None ->
       forall e, e ∈ D -> on o e -> can_rollback e = true -> ev_lt crt (e_version e) = true -> kept s e)
  end.

Lemma merge_divergent_ok P D N K l bound crt m s :
  history (P ++ D) -> (forall e, e ∈ K -> e ∈ P) -> objects l = index_objects (K ++ N) ->
  (forall d e, d ∈ D -> e ∈ N -> ev_lt (e_version d) (e_version e) = true) ->
  (forall o, above o bound = false -> unmerged P D N crt o m s) ->
  exists m' s', _merge_divergent_entries l D bound crt m s = Some (m', s') /\ may_include_deletes m' = may_include_deletes m /\
    agrees (P ++ N) bound m' s'.
Proof.
  intros Hh HK Hl HN Hm. unfold _merge_divergent_entries.
  pose proof (history_names _ _ Hh) as Hw. pose proof (history_in_order _ Hh) as (_ & _ & HoD)%in_order_app.
  destruct (merge_each_ok l (split_by_object D) bound crt (fun o => index_objects P !! o) (fun o => index_objects N !! o) m s)
    as (m' & s' & E & Hd & Hout & Hin).
  - by apply split_nodup.
  - intros o es. by apply (split_divergent P D N K).
  - intros o es o' es' [-> _]%(split_elem _ _ _ Hw) [-> _]%(split_elem _ _ _ Hw) Hne. rewrite Forall_forall.
    intros d [<- Hd]%list_elem_of_filter. rewrite Forall_forall. intros d' [<- Hd']%list_elem_of_filter Heq.
    apply Hne. f_equal. apply (in_order_inj D); congruence.
  - intros o es [-> _]%(split_elem _ _ _ Hw) Hab. specialize (Hm o Hab). unfold unmerged in Hm. unfold to_merge. rewrite filter_on.
    rewrite (index_lookup D), index_app in Hm. destruct (filter (on o) D) as [| d ds] eqn:Ed; [done |].
    destruct (list.last (d :: ds)) eqn:El; [| by apply last_None in El].
    destruct (index_objects N !! o); [done |]. destruct Hm as [Hok Hk]. split; [done |].
    intros Hnone. specialize (Hk Hnone). rewrite Forall_forall. intros y Hy. rewrite <- Ed in Hy. apply list_elem_of_filter in Hy as [??]. auto.
  - exists m', s'. split_and!; [done | done |]. intros o Hab.
    destruct (decide (o ∈ (split_by_object D).*1)) as [Hi | Hn]; [rewrite index_app; by apply Hin |].
    destruct (Hout o Hn) as [-> ->]. rewrite Hd. specialize (Hm o Hab). unfold unmerged in Hm.
    assert (index_objects D !! o = None) as E0 by (apply index_None; by rewrite <- filter_on, split_none).
    by rewrite E0 in Hm.
Qed.
End Backend.
