(* ===== verification/PgLogAppend.v ===== *)
(** * Appending entries to a log

    [append_log_entries_update_missing]: the entries go to the log and its index,
    and the missing set and the store are told of each event. *)

From stdpp Require Import gmap sorting.
From S2P Require Import Prelude HObject PgLog PgLogSpec PgLogMerge.

(** What appending does to the log itself. *)
Record extends (l : IndexedLog) (N : list pg_log_entry_t) (l' : IndexedLog) : Prop := {
  ex_log : log l' = log l ++ N;
  ex_objects : objects l' = fold_left index_entry N (objects l);
  ex_head : head l' = match list.last N with Some e => e_version e | None => head l end;
  ex_tail : tail l' = tail l;
  ex_crt : can_rollback_to l' = can_rollback_to l;
  ex_rbt : rollback_info_trimmed_to l' = rollback_info_trimmed_to l;
  ex_dups : dups l' = dups l
}.

Lemma extends_nil l : extends l [] l.
Proof. split; try done. by rewrite app_nil_r. Qed.

Lemma log_add_ok e l : newer_than (head l) (e_version e) -> exists l', log_add e l = Some l' /\ extends l [e] l'.
Proof.
  intros [H1 H2]. unfold log_add. rewrite H1. assert ((version (head l) <? version (e_version e)) = true) as -> by lia.
  rewrite orb_true_r. cbn [andb]. eexists. split; [reflexivity |]. by split.
Qed.

Lemma extends_snoc l N e l1 l2 : extends l N l1 -> extends l1 [e] l2 -> extends l (N ++ [e]) l2.
Proof.
  intros [] []. split; try congruence.
  - rewrite ex_log1, ex_log0. by rewrite app_assoc.
  - by rewrite ex_objects1, ex_objects0, fold_left_app.
  - by rewrite ex_head1, last_snoc.
Qed.

Section Backend.
Context {S : Type} `{HandlerLaws S}.
Implicit Types (s : S) (m : pg_missing_set).

(** What the missing set and the store are told of one event. *)
Definition note (b : bool) (p : pg_log_entry_t) m s : pg_missing_set * S :=
  if may_include_deletes m then (add_next_event p m, s)
  else (if is_delete p then missing_rm (soid p) (e_version p) m else add_next_event p m,
        if b && is_lost_delete p && can_rollback p then h_try_stash (soid p) (version (e_version p)) s
        else if is_delete p then h_remove (soid p) s else s).

Lemma append_entry_note bound b p l l' m s : log_add p l = Some l' ->
  append_entry bound b p l m s =
  Some (if above (soid p) bound || is_error p then (l', m, s) else let '(m', s') := note b p m s in (l', m', s')).
Proof.
  intros E. unfold append_entry, note. rewrite E. cbn [mbind option_bind].
  destruct (above (soid p) bound || is_error p); [done |]. by destruct (may_include_deletes m).
Qed.

Lemma add_next_other e m o : o <> soid e -> items (add_next_event e m) !! o = items m !! o.
Proof. intros. unfold add_next_event. destruct (items m !! soid e); by apply lookup_insert_ne. Qed.
Lemma add_next_dels e m : may_include_deletes (add_next_event e m) = may_include_deletes m.
Proof. unfold add_next_event. by destruct (items m !! soid e). Qed.
Lemma missing_rm_other o v m o' : o' <> o -> items (missing_rm o v m) !! o' = items m !! o'.
Proof. intros. unfold missing_rm. destruct (items m !! o); [| done]. destruct (ev_le _ _); [by apply rm_item_other | done]. Qed.
Lemma missing_rm_dels o v m : may_include_deletes (missing_rm o v m) = may_include_deletes m.
Proof. unfold missing_rm. destruct (items m !! o); [| done]. destruct (ev_le _ _); [by apply rm_item_dels | done]. Qed.

Lemma note_change b p m s : let '(m', s') := note b p m s in
  may_include_deletes m' = may_include_deletes m /\
  (forall o, o <> soid p -> items m' !! o = items m !! o /\ visible s' o = visible s o) /\
  (forall e, soid e <> soid p -> kept s e -> kept s' e).
Proof.
  unfold note. destruct (may_include_deletes m) eqn:Ed; split_and!.
  - by rewrite add_next_dels.
  - intros. by rewrite add_next_other.
  - done.
  - destruct (is_delete p); [by rewrite missing_rm_dels | by rewrite add_next_dels].
  - intros o Ho. split; [destruct (is_delete p); [by rewrite missing_rm_other | by rewrite add_next_other] |].
    destruct (b && _ && _); [by apply stash_other |]. destruct (is_delete p); [by apply remove_other | done].
  - intros e He Hk. destruct (b && _ && _); [by apply stash_keeps |]. destruct (is_delete p); [by apply remove_keeps | done].
Qed.

Lemma add_next_item p m : exists i, items (add_next_event p m) !! soid p = Some i /\ need i = e_version p /\ item_delete i = is_delete p.
Proof. unfold add_next_event. destruct (items m !! soid p); cbn; eexists; by rewrite lookup_insert_eq. Qed.

(** Whatever was known of the object: afterwards it is missing at this event. *)
Lemma note_claims b p m s : is_error p = false ->
  (forall i, items m !! soid p = Some i -> ev_le (need i) (e_version p) = true) ->
  let '(m', s') := note b p m s in claimed p (may_include_deletes m) (items m' !! soid p) (visible s' (soid p)).
Proof.
  intros He Hn. unfold note, claimed. destruct (may_include_deletes m); cbn [negb].
  - rewrite andb_false_r. apply add_next_item.
  - rewrite andb_true_r. destruct (is_delete p) eqn:Ed; [| rewrite <- Ed; apply add_next_item]. split.
    + unfold missing_rm. destruct (items m !! soid p) as [i |] eqn:E; [| done]. rewrite (Hn i eq_refl). apply rm_item_same.
    + destruct (b && _ && _); [apply stash_visible | apply remove_visible].
Qed.

(** If the object was as its history says, it still is. *)
Lemma note_ok b p x m s : is_error p = false -> follows x p -> (forall y, x = Some y -> ev_lt (e_version y) (e_version p) = true) ->
  object_ok x (may_include_deletes m) (items m !! soid p) (visible s (soid p)) ->
  let '(m', s') := note b p m s in object_ok (Some p) (may_include_deletes m') (items m' !! soid p) (visible s' (soid p)).
Proof.
  intros He [Hb _] Hx Hok.
  assert (forall i, items m !! soid p = Some i -> ev_le (need i) (e_version p) = true) as Hn.
  { intros i Ei. rewrite Ei in Hok. destruct Hok as (_ & y & Hy & -> & _). specialize (Hx _ Hy). ev_lia. }
  assert (forall dels, (is_delete p = true -> dels = true) ->
    object_ok (Some p) dels (items (add_next_event p m) !! soid p) (visible s (soid p))) as Hadd.
  { intros dels Hd. unfold add_next_event. unfold before in Hb. destruct (items m !! soid p) as [i |]; cbn [put_item items]; rewrite lookup_insert_eq; cbn.
    - split; [| by exists p]. destruct (bool_decide _ || _); [done |]. by destruct Hok.
    - split; [| by exists p]. destruct (bool_decide _ || _); [done |]. cbn in Hok. congruence. }
  pose proof (note_claims b p m s He Hn) as Hcl. pose proof (note_change b p m s) as Hch. revert Hcl Hch. unfold note.
  destruct (may_include_deletes m) eqn:Ed; [intros _ (-> & _); by apply Hadd |].
  unfold claimed. rewrite andb_true_r. destruct (is_delete p) eqn:Edel.
  - intros [-> ->] _. cbn [object_ok current mbind option_bind]. unfold after. by rewrite Edel.
  - intros _ (-> & _). assert (is_lost_delete p = false) as ->.
    { unfold is_lost_delete, is_delete in *. by destruct (op p). }
    rewrite andb_false_r. cbn [andb]. by apply Hadd.
Qed.

(** What appending does to the missing set and the store. *)
Record appended (bound : hobject_t) (N : list pg_log_entry_t) m s m' s' : Prop := {
  ap_dels : may_include_deletes m' = may_include_deletes m;
  ap_other o : index_objects N !! o = None \/ above o bound = true -> items m' !! o = items m !! o /\ visible s' o = visible s o;
  ap_kept e : index_objects N !! soid e = None -> kept s e -> kept s' e;
  ap_claims o e : above o bound = false -> index_objects N !! o = Some e ->
    (forall i n, items m !! o = Some i -> n ∈ N -> ev_le (need i) (e_version n) = true) ->
    claimed e (may_include_deletes m') (items m' !! o) (visible s' o);
  ap_ok P o : above o bound = false -> history (P ++ N) ->
    object_ok (index_objects P !! o) (may_include_deletes m) (items m !! o) (visible s o) ->
    object_ok (index_objects (P ++ N) !! o) (may_include_deletes m') (items m' !! o) (visible s' o)
}.

Lemma appended_nil bound m s : appended bound [] m s m s.
Proof. split; try done. intros. by rewrite app_nil_r. Qed.

Lemma append_each_snoc bound b N p l m s :
  append_each bound b (N ++ [p]) l m s =
  '(l, m, s) ← append_each bound b N l m s; append_entry bound b p l m s.
Proof.
  revert l m s. induction N as [| e N IH]; intros l m s; cbn [app append_each mbind option_bind].
  - by destruct (append_entry bound b p l m s) as [[[? ?] ?] |].
  - destruct (append_entry bound b e l m s) as [[[? ?] ?] |]; [apply IH | done].
Qed.

(** An entry that is not an event of the model's concern changes nothing. *)
Lemma appended_skip bound N p m s m' s' : appended bound N m s m' s' -> above (soid p) bound || is_error p = true ->
  appended bound (N ++ [p]) m s m' s'.
Proof.
  intros [Hd Ho Hk Hc Hok] Hskip.
  assert (forall o, above o bound = false -> index_objects (N ++ [p]) !! o = index_objects N !! o) as Hidx.
  { intros o Hab. rewrite index_snoc, index_entry_lookup, decide_False; [done |]. intros [<- He]. rewrite Hab, He in Hskip. done. }
  split; [done | | | |].
  - intros o Hn. apply Ho. destruct (above o bound) eqn:E; [by right |]. rewrite Hidx in Hn by done. destruct Hn; [by left | done].
  - intros e. rewrite index_snoc, index_entry_lookup. case_decide; [done | auto].
  - intros o e Hab. rewrite Hidx by done. intros He Hn. apply Hc; [done.. |]. intros i n Hi Hin. apply (Hn i n Hi). apply elem_of_app. by left.
  - intros P o Hab Hh Hp. rewrite index_app, Hidx, <- index_app by done. apply Hok; [done | | done].
    rewrite app_assoc in Hh. by apply history_snoc_inv in Hh as [? _].
Qed.

Lemma appended_note bound b N p m s m1 s1 : in_order (N ++ [p]) -> appended bound N m s m1 s1 ->
  above (soid p) bound || is_error p = false -> let '(m', s') := note b p m1 s1 in appended bound (N ++ [p]) m s m' s'.
Proof.
  intros (Hlt & _)%in_order_app [Hd Ho Hk Hc Hok] [Hab He]%orb_false_iff.
  assert (forall n, n ∈ N -> ev_lt (e_version n) (e_version p) = true) as Hlt'.
  { intros n Hn. apply Hlt; [done | by apply list_elem_of_singleton]. }
  pose proof (note_change b p m1 s1) as Hch. pose proof (note_claims b p m1 s1 He) as Hcl.
  pose proof (fun x => note_ok b p x m1 s1 He) as Hn. destruct (note b p m1 s1) as [m' s']. destruct Hch as (Hd' & Ho' & Hk').
  split; [congruence | | | |].
  - intros o. rewrite index_snoc, index_entry_lookup. case_decide as Hon; [destruct Hon as [<- _]; intros []; congruence |].
    intros Hno. assert (o <> soid p) as Hne by (intros ->; by apply Hon). destruct (Ho' o Hne) as [-> ->]. by apply Ho.
  - intros e. rewrite index_snoc, index_entry_lookup. case_decide as Hon; [done |]. intros Hno Hkept. apply Hk'; [| auto].
    intros E. by apply Hon.
  - intros o e Hbo. rewrite index_snoc, index_entry_lookup, Hd'. case_decide as Hon.
    + destruct Hon as [<- _]. intros [= <-] Hi. apply Hcl. intros i Ei. destruct (index_objects N !! soid p) as [x |] eqn:Ex.
      * specialize (Hc _ _ Hbo Ex). rewrite Ei in Hc. apply index_Some in Ex as [Ex _]. specialize (Hlt' _ Ex). unfold claimed in Hc.
        destruct (_ && _); destruct Hc as [j Hj]; try done; try (intros; apply Hi; [done | apply elem_of_app; by left]).
        destruct Hj as ([= <-] & -> & _). ev_lia.
      * destruct (Ho (soid p)) as [E _]; [by left |]. apply Hi; [congruence |]. apply elem_of_app. right. by apply list_elem_of_singleton.
    + intros Hx Hi. assert (o <> soid p) as Hne by (intros ->; by apply Hon). destruct (Ho' o Hne) as [-> ->].
      apply Hc; [done.. |]. intros i n Ei Hin. apply (Hi i n Ei). apply elem_of_app. by left.
  - intros P o Hbo Hh Hp. rewrite app_assoc in *. apply history_snoc_inv in Hh as (Hh & _ & _ & HlP & Hf). rewrite index_snoc, index_entry_lookup.
    specialize (Hok P o Hbo Hh Hp). case_decide as Hon.
    + destruct Hon as [<- _]. apply (Hn _ (Hf He)); [| done]. intros y [Hy _]%index_Some. by apply HlP.
    + assert (o <> soid p) as Hne by (intros ->; by apply Hon). destruct (Ho' o Hne) as [-> ->]. by rewrite Hd'.
Qed.

Lemma append_each_ok bound b N l m s : in_order N -> (forall e, e ∈ N -> newer_than (head l) (e_version e)) ->
  exists l' m' s', append_each bound b N l m s = Some (l', m', s') /\ extends l N l' /\ appended bound N m s m' s'.
Proof.
  induction N as [| p N IH] using rev_ind; intros Ho Hn.
  - exists l, m, s. split; [done |]. split; [apply extends_nil | apply appended_nil].
  - pose proof Ho as (Hlt & HoN & _)%in_order_app. destruct IH as (l1 & m1 & s1 & E & Hl & Hm); [done | |].
    { intros e He. apply Hn, elem_of_app. by left. }
    destruct (log_add_ok p l1) as (l2 & Hadd & Hl2).
    { rewrite (ex_head _ _ _ Hl). assert (p ∈ [p]) as Hp by (by apply list_elem_of_singleton).
      destruct (list.last N) as [e |] eqn:El; [apply Hlt; [by apply last_Some_elem_of | done] | apply Hn, elem_of_app; by right]. }
    rewrite append_each_snoc, E. cbn [mbind option_bind]. rewrite (append_entry_note _ _ _ _ _ _ _ Hadd).
    pose proof (extends_snoc _ _ _ _ _ Hl Hl2). destruct (above (soid p) bound || is_error p) eqn:Esk.
    + exists l2, m1, s1. split_and!; [done | done |]. by apply appended_skip.
    + pose proof (appended_note bound b N p m s m1 s1 Ho Hm Esk) as Hnote. destruct (note b p m1 s1) as [m' s']. by exists l2, m', s'.
Qed.

Lemma append_entries_ok bound b N l m s : in_order N -> (forall e, e ∈ N -> newer_than (head l) (e_version e)) ->
  exists l' m' s', append_log_entries_update_missing bound N b l m s = Some (l', m', s') /\ extends l N l' /\ appended bound N m s m' s'.
Proof.
  intros Ho Hn. destruct (append_each_ok bound b N l m s Ho Hn) as (l' & m' & s' & E & H1 & H2). exists l', m', s'. split; [| done].
  unfold append_log_entries_update_missing. destruct N as [| e N]; [by injection E as <- <- <- |].
  by destruct (Hn e) as [-> _]; [left |].
Qed.
End Backend.
