(* ===== verification/PgLogThms.v ===== *)
(** * Merging logs is correct

    When a group is brought up again, an OSD whose log is an end of the history
    [P ++ D] is sent an end of the authoritative history [P ++ N] and runs
    [merge_log].  Afterwards it has the log of [P ++ N], and its missing set and
    its store agree with that history, whatever the backend can roll back. *)

From stdpp Require Import gmap sorting.
From S2P Require Import Prelude HObject PgLog PgLogSpec PgLogMerge PgLogAppend.

(** ** The log of a history *)

Record log_of (L : list pg_log_entry_t) (l : IndexedLog) : Prop := {
  lo_log : log l = since (tail l) L;
  lo_index : objects l = index_objects (log l);
  lo_head e : e ∈ L -> ev_le (e_version e) (head l) = true;
  lo_tail : ev_le (tail l) (head l) = true
}.

Lemma index_older_ok X Y : in_order (X ++ Y) -> fold_left index_older X (index_objects Y) = index_objects (X ++ Y).
Proof.
  induction X as [| e X IH] using rev_ind; [done |]. rewrite <- app_assoc. cbn [app]. intros Ho.
  pose proof Ho as (HX & HoX & HeY)%in_order_app. inversion_clear HeY as [| ? ? HoY HY]. rewrite Forall_forall in HY.
  rewrite fold_left_app. cbn [fold_left]. rewrite IH.
  2:{ apply in_order_app. split_and!; [| done | done]. intros x y Hx Hy. apply HX; [done | by right]. }
  apply map_eq. intros o. unfold index_older. rewrite (index_app X (e :: Y)), (index_app [e] Y o : index_objects (e :: Y) !! o = _).
  change (index_objects [e]) with (index_entry ∅ e). rewrite index_entry_lookup, lookup_empty. destruct (is_error e) eqn:Ee.
  - rewrite decide_False by (unfold on; rewrite Ee; by intros []). rewrite index_app. by destruct (index_objects Y !! o).
  - rewrite !index_app. destruct (decide (soid e = o)) as [<- | Hne].
    + rewrite decide_True by done. destruct (index_objects Y !! soid e) as [y |] eqn:EY.
      * assert (ev_lt (e_version y) (e_version e) = false) as -> by (apply index_Some in EY as [EY _]; apply HY in EY; ev_lia).
        by rewrite index_app, EY.
      * destruct (index_objects X !! soid e) as [x |] eqn:EX; [| apply lookup_insert_eq].
        assert (ev_lt (e_version x) (e_version e) = true) as -> by (apply index_Some in EX as [EX _]; apply HX; [done | left]).
        apply lookup_insert_eq.
    + rewrite decide_False by (by intros []).
      assert (forall M, <[soid e:=e]> M !! o = M !! o) as Hins by (intros; by apply lookup_insert_ne).
      destruct (index_objects Y !! soid e), (index_objects X !! soid e); repeat destruct (ev_lt _ _); rewrite ?Hins, index_app; by destruct (index_objects Y !! o).
Qed.

Lemma rewind_scan_new v D rl acc : (forall d, d ∈ D -> newer_than v (e_version d)) -> rewind_scan v (reverse D ++ rl) acc = rewind_scan v rl (D ++ acc).
Proof.
  revert acc. induction D as [| d D IH] using rev_ind; intros acc HD; [done |].
  rewrite reverse_snoc. cbn [app rewind_scan]. destruct (HD d) as [H1 H2]; [apply elem_of_app; right; by apply list_elem_of_singleton |].
  assert ((version (e_version d) <=? version v) = false) as -> by lia. rewrite H1, IH, <- app_assoc; [done |].
  intros x Hx. apply HD, elem_of_app. by left.
Qed.

Lemma rewind_ok v K D l : log l = K ++ D -> ev_le (tail l) v = true -> (forall k, k ∈ K -> version (e_version k) <= version v) ->
  (forall d, d ∈ D -> newer_than v (e_version d)) ->
  exists l', rewind_from_head v l = Some (l', D) /\ head l' = v /\ tail l' = tail l /\ log l' = K /\ objects l' = index_objects K.
Proof.
  intros Hl Ht HK HD. unfold rewind_from_head. assert (ev_lt v (tail l) = false) as -> by ev_lia.
  rewrite Hl, reverse_app, rewind_scan_new, app_nil_r by done.
  assert (rewind_scan v (reverse K) D = Some (K, D)) as ->; [| eexists; by split_and!].
  destruct K as [| k K _] using rev_ind; [done |]. rewrite reverse_snoc. cbn [rewind_scan].
  assert ((version (e_version k) <=? version v) = true) as ->.
  { apply Z.leb_le, HK, elem_of_app. right. by apply list_elem_of_singleton. }
  by rewrite <- reverse_snoc, reverse_involutive.
Qed.

Lemma find_start_ok h K N : (forall e, e ∈ K -> ev_le (e_version e) h = true) -> (forall e, e ∈ N -> ev_lt h (e_version e) = true) ->
  find_start h (reverse (K ++ N)) [] = (N, e_version <$> list.last K).
Proof.
  intros HK HN. rewrite reverse_app.
  assert (forall acc, find_start h (reverse N ++ reverse K) acc = find_start h (reverse K) (N ++ acc)) as ->.
  { induction N as [| n N IH] using rev_ind; intros acc; [done |]. rewrite reverse_snoc. cbn [app find_start].
    assert (ev_le (e_version n) h = false) as -> by (pose proof (HN n ltac:(apply elem_of_app; right; by apply list_elem_of_singleton)); ev_lia).
    rewrite IH, <- app_assoc; [done |]. intros e He. apply HN, elem_of_app. by left. }
  rewrite app_nil_r. destruct K as [| k K _] using rev_ind; [done |]. rewrite reverse_snoc, last_snoc. cbn [find_start fmap option_fmap option_map].
  by rewrite HK by (apply elem_of_app; right; by apply list_elem_of_singleton).
Qed.

(** ** Two logs with a common past *)

(** What peering guarantees when it asks for a merge: the histories part after
    the version [v], which is not below the tails; the newer entries come from a
    later interval than everything in the local log. *)
Record diverged (P D N : list pg_log_entry_t) (l : IndexedLog) (olog : pg_log_t) (v : eversion_t) : Prop := {
  dv_ours : history (P ++ D);
  dv_theirs : history (P ++ N);
  dv_olog : o_log olog = since (o_tail olog) (P ++ N);
  dv_ohead e : e ∈ P ++ N -> ev_le (e_version e) (o_head olog) = true;
  dv_fresh : head l = ev_zero -> o_tail olog = ev_zero;
  dv_overlap : ev_le (o_tail olog) (head l) = true /\ ev_le (tail l) (o_head olog) = true;
  dv_otail : ev_le (o_tail olog) (o_head olog) = true;
  dv_tails : upto (tail l) v /\ upto (o_tail olog) v;
  dv_past p : p ∈ P -> upto (e_version p) v /\
    (ev_le (e_version p) (tail l) = true -> version (e_version p) <= version (tail l)) /\
    (ev_le (e_version p) (o_tail olog) = true -> version (e_version p) <= version (o_tail olog));
  dv_part e : e ∈ D ++ N -> newer_than v (e_version e);
  dv_later e : e ∈ N -> ev_lt (head l) (e_version e) = true;
  dv_rewind : N = [] -> o_head olog = v
}.

(** The log and what is left of the other one after the tail is extended. *)
Lemma extend_tail_ok P D N p olog v : log_of (P ++ D) (plog p) -> diverged P D N (plog p) olog v ->
  let l := plog p in
  let longer := ev_lt (o_tail olog) (tail l) in
  let l' := plog (if longer then extend_tail olog p else p) in
  let low := ev_min (tail l) (o_tail olog) in
  log l' = since low P ++ D /\ objects l' = index_objects (log l') /\ head l' = head l /\ tail l' = low /\
  can_rollback_to l' = can_rollback_to l /\
  (if longer then drop (length (passed (tail l) (o_log olog))) (o_log olog) else o_log olog) =
  since (ev_maximum (o_tail olog) (tail l)) P ++ N.
Proof.
  intros [Hlog Hidx _ _] Hdv. destruct p as [m l d]. cbn [plog] in *.
  pose proof (dv_part _ _ _ _ _ _ Hdv) as Hpart. destruct (dv_tails _ _ _ _ _ _ Hdv) as [Ht Hot].
  assert (forall t E, upto t v -> (forall e, e ∈ E -> e ∈ D ++ N) -> since t E = E) as Hsince.
  { intros t E Hu HE. apply since_all. intros e He. apply HE, Hpart in He. ev_lia. }
  assert (since (tail l) (P ++ D) = since (tail l) P ++ D) as HPD.
  { rewrite since_app, (Hsince _ D); [done.. |]. intros. apply elem_of_app. by left. }
  assert (forall t, upto t v -> since t (P ++ N) = since t P ++ N) as HPN.
  { intros t Hu. rewrite since_app, (Hsince _ N); [done.. |]. intros. apply elem_of_app. by right. }
  rewrite (dv_olog _ _ _ _ _ _ Hdv), HPN by done. unfold ev_min, ev_maximum.
  destruct (ev_lt (o_tail olog) (tail l)) eqn:E; cbn [plog extend_tail log objects head tail can_rollback_to]; rewrite Hlog in *.
  - pose proof (history_in_order _ (dv_theirs _ _ _ _ _ _ Hdv)) as HoPN. pose proof HoPN as (_ & HoP & _)%in_order_app.
    pose proof (history_in_order _ (dv_ours _ _ _ _ _ _ Hdv)) as HoPD.
    assert (in_order (since (o_tail olog) P ++ N)) as Ho by (rewrite <- HPN by done; by apply in_order_filter).
    assert (since (tail l) (since (o_tail olog) P) = since (tail l) P) as Hss by (apply since_since; ev_lia).
    rewrite (dv_olog _ _ _ _ _ _ Hdv), HPN, (passed_app (tail l)) by (try done; intros e He; specialize (Hpart e ltac:(apply elem_of_app; by right)); ev_lia).
    assert (passed (tail l) (since (o_tail olog) P) ++ since (tail l) (P ++ D) = since (o_tail olog) P ++ D) as Hcat.
    { rewrite HPD, app_assoc. f_equal. rewrite <- Hss at 1. symmetry. apply passed_since. by apply in_order_filter. }
    rewrite Hcat. split_and!; try done.
    + rewrite Hidx, index_older_ok; [by rewrite Hcat |]. rewrite Hcat.
      assert (since (o_tail olog) (P ++ D) = since (o_tail olog) P ++ D) as <-
        by (rewrite since_app, (Hsince _ D); [done.. |]; intros; apply elem_of_app; by left).
      by apply in_order_filter.
    + rewrite <- (passed_app (tail l) _ N), drop_passed, since_app, Hss, (Hsince _ N); try done.
      * intros. apply elem_of_app. by right.
      * intros e He. specialize (Hpart e ltac:(apply elem_of_app; by right)). ev_lia.
  - by split_and!.
Qed.

Section Backend.
Context {S : Type} `{HandlerLaws S}.

(** The state of the group on one OSD. *)
Record pg_ok (L : list pg_log_entry_t) (info : pg_info_t) (p : PGLog) (s : S) : Prop := {
  po_log : log_of L (plog p);
  po_update : last_update info = head (plog p);
  po_tail : log_tail info = tail (plog p);
  po_complete : ev_le (last_complete info) (last_update info) = true;
  po_agrees : agrees L (last_backfill info) (missing p) s
}.

(** The backend can undo the entries that the log says it can, of objects that
    are here. *)
Definition undoable (D : list pg_log_entry_t) (bound : hobject_t) (crt : eversion_t) (m : pg_missing_set) (s : S) : Prop :=
  forall e, e ∈ D -> is_error e = false -> above (soid e) bound = false -> items m !! soid e = None ->
    can_rollback e = true -> ev_lt crt (e_version e) = true -> kept s e.

Lemma roll_forward_ok to l s l' s' : roll_forward_to to l s = (l', s') ->
  head l' = head l /\ tail l' = tail l /\ log l' = log l /\ objects l' = objects l /\
  (forall o, visible s' o = visible s o) /\
  (forall e, (forall x, x ∈ log l -> e_version e <> e_version x) -> kept s e -> kept s' e).
Proof.
  unfold roll_forward_to, advance_can_rollback_to. intros [= <- <-]. cbn [head tail log objects]. split_and!; try done.
  - intros o. generalize (passed (ev_maximum (rollback_info_trimmed_to l) to) (drop (trimmed_len l) (log l))). intros es. revert s.
    induction es as [| e es IH]; intros s; [done |]. cbn [fold_left]. rewrite IH. apply rollforward_visible.
  - intros e He. assert (Forall (fun x => e_version e <> e_version x) (passed (ev_maximum (rollback_info_trimmed_to l) to) (drop (trimmed_len l) (log l)))) as Hf.
    { rewrite Forall_forall. intros x [Hx%list_elem_of_In _]%elem_passed. apply He, list_elem_of_In.
      rewrite <- (take_drop (trimmed_len l) (log l)). apply in_or_app. by right. }
    revert s. induction Hf as [| x es Hx _ IH]; intros s Hk; [done |]. cbn [fold_left]. apply IH. by apply rollforward_keeps.
Qed.

(** The objects that are not above the bound, once [N] has been appended. *)
Lemma appended_unmerged P D N bound crt h m s m' s' :
  history (P ++ N) -> agrees (P ++ D) bound m s -> undoable D bound crt m s -> appended bound N m s m' s' ->
  (forall e, e ∈ P ++ D -> ev_le (e_version e) h = true) -> (forall e, e ∈ N -> ev_lt h (e_version e) = true) ->
  forall o, above o bound = false -> unmerged P D N crt o m' s'.
Proof.
  intros Hh Hag Hun [Hd Ho Hk Hc Hok] Hold Hnew o Hab. specialize (Hag o Hab). rewrite index_app in Hag. unfold unmerged.
  destruct (index_objects D !! o) as [d |] eqn:ED; [| by apply Hok].
  destruct (index_objects N !! o) as [e |] eqn:EN.
  - apply Hc; [done.. |]. intros i n Hi Hn. rewrite Hi in Hag. destruct Hag as (_ & y & [= <-] & -> & _).
    apply index_Some in ED as [ED _]. specialize (Hold d ltac:(apply elem_of_app; by right)). specialize (Hnew n Hn). ev_lia.
  - destruct (Ho o) as [-> ->]; [by left |]. rewrite Hd. split; [done |]. intros Hnone e He [<- Hne] Hcr Hcrt.
    apply Hk; [done |]. by apply Hun.
Qed.

(** Dropping [D] from the head of a log of [P ++ D]. *)
Lemma rewind_divergent_ok P D v low info p s : history (P ++ D) -> log (plog p) = since low P ++ D -> tail (plog p) = low ->
  (forall e, e ∈ P ++ D -> ev_le (e_version e) (head (plog p)) = true) -> ev_le low v = true ->
  (forall e, e ∈ P -> upto (e_version e) v) -> (forall e, e ∈ D -> newer_than v (e_version e)) -> log_tail info = low ->
  agrees (P ++ D) (last_backfill info) (missing p) s -> undoable D (last_backfill info) (can_rollback_to (plog p)) (missing p) s ->
  exists p' info' s', rewind_divergent_log v info p s = Some (p', info', s') /\ pg_ok P info' p' s' /\
    head (plog p') = v /\ tail (plog p') = low /\ last_backfill info' = last_backfill info.
Proof.
  intros Hh Hlog Ht Hhead Hlow HP HD Hlt Hag Hun. unfold rewind_divergent_log.
  destruct (rewind_ok v (since low P) D (plog p)) as (l & -> & Hhd & Htl & Hl & Hidx); [done | by rewrite Ht | | done |].
  { intros e [_ He]%elem_since. by destruct (HP _ He). }
  cbn [mbind option_bind].
  set (info1 := set_last_update v (if ev_lt v (last_complete info) then set_last_complete v info else info)).
  assert (last_backfill info1 = last_backfill info) as Hbf by (unfold info1; by destruct (ev_lt _ _)).
  destruct (merge_divergent_ok P D [] (since low P) l (last_backfill info) (can_rollback_to (plog p)) (missing p) s)
    as (m' & s' & E & Hd & Hag').
  { done. } { by intros e [_ He]%elem_since. } { by rewrite app_nil_r. } { by intros ? ? _ ?%elem_of_nil. }
  { eapply appended_unmerged; [| done | done | apply appended_nil | exact Hhead | by intros ? ?%elem_of_nil].
    rewrite app_nil_r. by eapply history_app_l. }
  rewrite app_nil_r in Hag'. rewrite Hbf, E. cbn [mbind option_bind]. eexists _, info1, s'. split; [reflexivity |]. split; [| cbn [plog]; by rewrite Htl].
  split; cbn [plog missing]; [split | | | |].
  - by rewrite Hl, Htl, Ht.
  - by rewrite Hidx, Hl.
  - intros e He. rewrite Hhd. by apply HP.
  - by rewrite Hhd, Htl, Ht.
  - by rewrite Hhd.
  - rewrite Htl, Ht. unfold info1. by destruct (ev_lt _ _).
  - unfold info1. destruct (ev_lt v (last_complete info)) eqn:Ev; cbn; ev_lia.
  - by rewrite Hbf.
Qed.

(** The cut point: the last shared entry above [u], or the higher tail. *)
Lemma cut_point u t P v lb : in_order P -> ev_le u t = true -> upto t v ->
  (forall e, e ∈ P -> upto (e_version e) v /\ (ev_le (e_version e) t = true -> version (e_version e) <= version t)) ->
  match list.last (since u P) with
  | Some k => lb = t /\ ev_le (e_version k) t = true \/ lb = e_version k /\ ev_le t (e_version k) = true
  | None => lb = t
  end ->
  ev_le t lb = true /\ upto lb v /\ forall e, e ∈ P -> upto (e_version e) lb.
Proof.
  intros Ho Hut Ht HP Hlb.
  assert (forall e, e ∈ P -> e ∈ passed u P \/ e ∈ since u P) as Hor.
  { intros e He. apply elem_of_app. by rewrite <- passed_since. }
  assert (forall e, e ∈ P -> ev_le (e_version e) t = true -> upto (e_version e) t) as Hup.
  { intros e He Hle. split; [done |]. by apply HP. }
  destruct (list.last (since u P)) as [k |] eqn:El.
  - apply last_Some in El as [K El]. assert (k ∈ since u P) as Hk by (rewrite El; apply elem_of_app; right; by apply list_elem_of_singleton).
    apply elem_since in Hk as [_ HkP].
    assert (forall e, e ∈ P -> upto (e_version e) (e_version k)) as Hbelow.
    { rewrite (passed_since u P Ho), El, app_assoc in Ho. apply in_order_app in Ho as (Hlast & _).
      intros e He. specialize (Hor e He). rewrite El, elem_of_app in Hor.
      assert (e ∈ passed u P ++ K \/ e = k) as [He' | ->]; [rewrite elem_of_app, <- (list_elem_of_singleton e k); tauto | | apply upto_refl].
      specialize (Hlast e k He' ltac:(by apply list_elem_of_singleton)). ev_lia. }
    destruct Hlb as [[-> Hle] | [-> Hle]]; split_and!; try done; [ev_lia | | by apply HP].
    intros e He. apply Hup; [done |]. specialize (Hbelow e He). ev_lia.
  - subst lb. apply last_None in El. split_and!; [ev_lia | done |]. rewrite El in Hor.
    intros e He. apply Hup; [done |]. destruct (Hor e He) as [[_ Hle]%elem_passed | []%elem_of_nil]. ev_lia.
Qed.

Lemma agrees_visible L bound m s s' : (forall o, visible s' o = visible s o) -> agrees L bound m s -> agrees L bound m s'.
Proof. intros Hv Hag o Hab. rewrite Hv. auto. Qed.

(** Replacing [D] by the newer entries [N]. *)
Lemma extend_head_ok P D N v low oinfo o_head o_tail orig_tail entries info p s :
  let t := ev_maximum o_tail orig_tail in
  history (P ++ D) -> history (P ++ N) -> log (plog p) = since low P ++ D -> tail (plog p) = low -> ev_le low t = true -> upto t v ->
  entries = since t P ++ N ->
  (forall e, e ∈ P ++ D -> ev_le (e_version e) (head (plog p)) = true) -> (forall e, e ∈ N -> ev_lt (head (plog p)) (e_version e) = true) ->
  (forall e, e ∈ P -> upto (e_version e) v /\ (ev_le (e_version e) t = true -> version (e_version e) <= version t)) ->
  (forall e, e ∈ D ++ N -> newer_than v (e_version e)) -> (forall e, e ∈ P ++ N -> ev_le (e_version e) o_head = true) -> ev_le low o_head = true ->
  log_tail info = low -> ev_le (last_complete info) o_head = true ->
  agrees (P ++ D) (last_backfill info) (missing p) s -> undoable D (last_backfill info) (can_rollback_to (plog p)) (missing p) s ->
  exists p' info' s', extend_head oinfo o_head o_tail orig_tail entries info p s = Some (p', info', s') /\ pg_ok (P ++ N) info' p' s' /\
    head (plog p') = o_head /\ tail (plog p') = low /\ last_backfill info' = last_backfill info.
Proof.
  intros t Hh HhN Hlog Ht Hlt Htv -> Hhead HN HP HDN Hoh Hlo Hltail Hlc Hag Hun.
  pose proof (history_in_order _ Hh) as (HPD & HoP & _)%in_order_app. pose proof (history_in_order _ HhN) as (_ & _ & HoN)%in_order_app.
  unfold extend_head. rewrite find_start_ok; [| | done].
  2:{ intros e [_ He]%elem_since. apply Hhead, elem_of_app. by left. }
  change (ev_maximum o_tail orig_tail) with t. cbv zeta.
  set (lb := match e_version <$> list.last (since t P) with Some w => ev_maximum t w | None => t end).
  destruct (cut_point t t P v lb) as (Htlb & Hlbv & HPlb); [done | ev_lia | done | done | |].
  { unfold lb, ev_maximum. destruct (list.last (since t P)) as [k |]; [| done]. cbn. destruct (ev_lt t (e_version k)) eqn:E; [right | left]; split; done || ev_lia. }
  destruct (rewind_ok lb (since low P) D (plog p)) as (l & -> & Hhd & Htl & Hl & Hidx); [done | rewrite Ht; ev_lia | | |].
  { intros e [_ He]%elem_since. by destruct (HPlb _ He). }
  { intros e He. specialize (HDN e ltac:(apply elem_of_app; by left)). ev_lia. }
  cbn [mbind option_bind]. destruct (roll_forward_to (head l) l s) as [l1 s1] eqn:Erf.
  apply roll_forward_ok in Erf as (Hhd1 & Htl1 & Hl1 & Hidx1 & Hv1 & Hk1).
  destruct (append_entries_ok (last_backfill info) false N l1 (missing p) s1) as (l2 & m2 & s2 & -> & Hex & Hap); [done | |].
  { intros e He. rewrite Hhd1, Hhd. specialize (HDN e ltac:(apply elem_of_app; by right)). ev_lia. }
  cbn [mbind option_bind]. destruct (merge_divergent_ok P D N (since low P) l2 (last_backfill info) (can_rollback_to (plog p)) m2 s2)
    as (m' & s' & -> & Hd & Hag').
  { done. } { by intros e [_ He]%elem_since. }
  { rewrite (ex_objects _ _ _ Hex), Hidx1, Hidx. unfold index_objects. by rewrite fold_left_app. }
  { intros d e Hd He. specialize (Hhead d ltac:(apply elem_of_app; by right)). specialize (HN e He). ev_lia. }
  { eapply appended_unmerged; [done | by eapply agrees_visible | | exact Hap | exact Hhead | exact HN].
    intros e He ? ? ? ? ?. apply Hk1; [| by apply Hun]. rewrite Hl. intros x [_ Hx]%elem_since E. by apply (newer_than_neq _ _ (HPD x e Hx He)). }
  cbn [mbind option_bind]. eexists _, _, _. split; [reflexivity |]. unfold skip_can_rollback_to_to_head. cbn [plog head tail log objects].
  rewrite (ex_tail _ _ _ Hex), Htl1, Htl, Ht. split; [| done].
  assert (since low (P ++ N) = since low P ++ N) as HsN.
  { rewrite since_app. f_equal. apply since_all. intros e He. specialize (HDN e ltac:(apply elem_of_app; by right)). ev_lia. }
  split; try done. split; cbn [plog head tail log objects]; try done.
  - by rewrite (ex_log _ _ _ Hex), Hl1, Hl, HsN.
  - rewrite (ex_objects _ _ _ Hex), (ex_log _ _ _ Hex), Hidx1, Hidx, Hl1, Hl. unfold index_objects. by rewrite fold_left_app.
Qed.

(** What the two logs determine of the heads, once the tail is extended. *)
Lemma merge_heads_ok P D N v low oinfo olog orig_tail info p s :
  let t := ev_maximum (o_tail olog) orig_tail in
  history (P ++ D) -> history (P ++ N) -> log_of (P ++ D) (plog p) -> log (plog p) = since low P ++ D -> tail (plog p) = low ->
  ev_le low t = true -> upto t v ->
  (forall e, e ∈ P -> upto (e_version e) v /\ (ev_le (e_version e) t = true -> version (e_version e) <= version t)) ->
  (forall e, e ∈ D ++ N -> newer_than v (e_version e)) -> (forall e, e ∈ P ++ N -> ev_le (e_version e) (o_head olog) = true) -> ev_le low (o_head olog) = true ->
  (forall e, e ∈ N -> ev_lt (head (plog p)) (e_version e) = true) -> (N = [] -> o_head olog = v) ->
  pg_ok (P ++ D) info p s -> undoable D (last_backfill info) (can_rollback_to (plog p)) (missing p) s ->
  exists p' info' s' changed, merge_heads oinfo olog orig_tail (since t P ++ N) info p s = Some (p', info', s', changed) /\
    pg_ok (P ++ N) info' p' s' /\ head (plog p') = o_head olog /\ tail (plog p') = low /\ last_backfill info' = last_backfill info.
Proof.
  intros t Hh HhN Hlo El Et Hlt Htv HP Hpart Hoh Hlow Hlater Hrew Hpg Hun. pose proof Hpg as [_ Hu Ht Hc Hag].
  pose proof (lo_head _ _ Hlo) as Hle. unfold merge_heads.
  assert (N = [] \/ ev_lt (head (plog p)) (o_head olog) = true) as HN.
  { destruct N as [| n N]; [by left | right]. specialize (Hlater n ltac:(left)). specialize (Hoh n ltac:(apply elem_of_app; right; left)). ev_lia. }
  destruct (ev_lt (o_head olog) (head (plog p))) eqn:Ediv; [| destruct (ev_lt (head (plog p)) (o_head olog)) eqn:Enew].
  - destruct HN as [-> | ?]; [| ev_lia]. rewrite !app_nil_r in *. specialize (Hrew eq_refl).
    destruct (rewind_divergent_ok P D (o_head olog) low info p s) as (p' & info' & s' & -> & Hok & Hhd & Htl & Hbf); try done.
    { rewrite Hrew. intros. by apply HP. } { rewrite Hrew. intros. by apply Hpart. } { congruence. }
    cbn [mbind option_bind]. rewrite Hhd. assert (ev_lt (o_head olog) (o_head olog) = false) as -> by ev_lia. by eexists _, _, _, _.
  - cbn [mbind option_bind]. rewrite Enew. rewrite Hu in Hc.
    destruct (extend_head_ok P D N v low oinfo (o_head olog) (o_tail olog) orig_tail (since t P ++ N) info p s)
      as (p' & info' & s' & -> & Hok & Hhd & Htl & Hbf); try done; [congruence | ev_lia |]. by eexists _, _, _, _.
  - destruct HN as [-> | ?]; [| ev_lia]. cbn [mbind option_bind]. rewrite Enew. specialize (Hrew eq_refl). subst v.
    assert (D = []) as ->.
    { destruct D as [| d D]; [done |]. specialize (Hpart d ltac:(left)). specialize (Hle d ltac:(apply elem_of_app; right; left)). ev_lia. }
    eexists _, _, _, _. split; [reflexivity |]. split_and!; try done. apply ev_ext; ev_lia.
Qed.

Lemma merge_dups_same odups p : let p' := fst (merge_log_dups odups p) in
  missing p' = missing p /\ head (plog p') = head (plog p) /\ tail (plog p') = tail (plog p) /\
  log (plog p') = log (plog p) /\ objects (plog p') = objects (plog p).
Proof.
  unfold merge_log_dups. destruct (match odups with [] => _ | _ => _ end) as [[ds d] c].
  destruct (match list.last ds with Some _ => _ | None => false end); [| done]. by destruct (pop_dups _ _ _).
Qed.

Lemma merge_dups_ok odups L info p s : pg_ok L info p s -> pg_ok L info (fst (merge_log_dups odups p)) s.
Proof.
  intros [[Hlog Hidx Hhead Htail] Hu Ht Hc Hag]. destruct (merge_dups_same odups p) as (Em & Eh & Et & El & Eo).
  split; [split | | | |]; rewrite ?Em, ?Eh, ?Et, ?El, ?Eo; done.
Qed.

Lemma merge_log_ok P D N v oinfo olog info p s :
  diverged P D N (plog p) olog v -> pg_ok (P ++ D) info p s ->
  undoable D (last_backfill info) (can_rollback_to (plog p)) (missing p) s ->
  exists p' info' s' changed, merge_log oinfo olog info p s = Some (p', info', s', changed) /\ pg_ok (P ++ N) info' p' s' /\
    head (plog p') = o_head olog /\ tail (plog p') = ev_min (tail (plog p)) (o_tail olog) /\ last_backfill info' = last_backfill info.
Proof.
  intros Hdv Hpg Hun. pose proof Hpg as [Hlo Hu Ht Hc Hag].
  destruct (extend_tail_ok P D N p olog v Hlo Hdv) as (El & Ei & Eh & Et & Ecrt & Een).
  destruct Hdv as [Hh HhN Holog Hoh Hfresh [Hov1 Hov2] Hot [Htv Hotv] Hpast Hpart Hlater Hrew]. unfold merge_log.
  assert (bool_decide (head (plog p) = ev_zero) && negb (bool_decide (o_tail olog = ev_zero)) = false) as ->.
  { destruct (bool_decide_reflect (head (plog p) = ev_zero)) as [E |]; [| done]. by rewrite (bool_decide_eq_true_2 _ (Hfresh E)). }
  rewrite Hov1, Hov2. cbn [andb negb]. rewrite Een. set (longer := ev_lt (o_tail olog) (tail (plog p))) in *.
  set (p1 := if longer then extend_tail olog p else p) in *. set (info1 := if longer then set_log_tail (o_tail olog) info else info).
  assert (missing p1 = missing p) as Em by (unfold p1; by destruct longer).
  assert (last_backfill info1 = last_backfill info /\ last_complete info1 = last_complete info /\ last_update info1 = last_update info)
    as (Ebf & Elc & Elu) by (unfold info1; by destruct longer).
  assert (log_tail info1 = ev_min (tail (plog p)) (o_tail olog)) as Etl.
  { unfold info1, ev_min, longer in *. by destruct (ev_lt (o_tail olog) (tail (plog p))). }
  set (low := ev_min (tail (plog p)) (o_tail olog)) in *.
  assert (ev_le low (o_tail olog) = true /\ ev_le low (tail (plog p)) = true) as [Hl1 Hl2].
  { unfold low, ev_min. destruct (ev_lt (o_tail olog) (tail (plog p))) eqn:E; ev_lia. }
  assert (pg_ok (P ++ D) info1 p1 s) as Hpg1.
  { split; [split | | | |]; rewrite ?Eh, ?Et, ?Em, ?Ebf, ?Elc, ?Elu; try done; try congruence.
    - rewrite El, since_app. f_equal. symmetry. apply since_all. intros e He. specialize (Hpart e ltac:(apply elem_of_app; by left)). ev_lia.
    - apply Hlo.
    - pose proof (lo_tail _ _ Hlo). ev_lia. }
  destruct (merge_heads_ok P D N v low oinfo olog (tail (plog p)) info1 p1 s) as (p' & info' & s' & c & -> & Hok & Hhd & Htl & Hbf); try done.
  - apply Hpg1.
  - unfold ev_maximum. destruct (ev_lt _ _); ev_lia.
  - unfold ev_maximum. by destruct (ev_lt _ _).
  - intros e He. destruct (Hpast e He) as (? & ? & ?). split; [done |]. unfold ev_maximum. by destruct (ev_lt _ _).
  - ev_lia.
  - by rewrite Eh.
  - by rewrite Ebf, Em, Ecrt.
  - cbn [mbind option_bind]. destruct (merge_dups_same (o_dups olog) p') as (_ & Eh' & Et' & _ & _).
    pose proof (merge_dups_ok (o_dups olog) _ _ _ _ Hok). destruct (merge_log_dups (o_dups olog) p') as [p'' c']. cbn [fst] in *.
    eexists _, _, _, _. split; [reflexivity |]. by rewrite Eh', Et', Hbf.
Qed.

(** C11. merging the authoritative log is correct, and no assertion fails.  The
    local log is an end of the history [P ++ D], the other one an end of
    [P ++ N].  Afterwards the log is the end of [P ++ N] from the lower of the
    two tails, with its index; the missing set and the store agree with
    [P ++ N]: an object that is not missing is stored as this history leaves it,
    and a missing one is needed at its last version. *)
Theorem merge_log_correct P D N v oinfo olog info p s :
  diverged P D N (plog p) olog v -> pg_ok (P ++ D) info p s ->
  undoable D (last_backfill info) (can_rollback_to (plog p)) (missing p) s ->
  exists p' info' s' changed, merge_log oinfo olog info p s = Some (p', info', s', changed) /\ pg_ok (P ++ N) info' p' s' /\
    head (plog p') = o_head olog /\ tail (plog p') = ev_min (tail (plog p)) (o_tail olog) /\ last_backfill info' = last_backfill info.
Proof. apply merge_log_ok. Qed.
End Backend.
