(* ===== verification/PgLogReplica.v ===== *)
(** * The log of a replica

    The primary runs [proc_replica_log] on the log and the missing set that a
    replica sent, without its objects, and gets the missing set that the replica
    has after it drops its divergent entries. *)

From stdpp Require Import gmap sorting.
From S2P Require Import Prelude HObject PgLog PgLogSpec PgLogMerge PgLogAppend PgLogThms.

(** ** The missing set does not depend on the backend *)

Section Independent.
Context {S1 S2 : Type} `{LogEntryHandler S1} `{LogEntryHandler S2}.

Lemma merge_object_missing l o es bound crt m (s1 : S1) (s2 : S2) :
  fst <$> _merge_object_divergent_entries l o es bound crt m s1 = fst <$> _merge_object_divergent_entries l o es bound crt m s2.
Proof.
  unfold _merge_object_divergent_entries. destruct (above o bound); [done |]. destruct es as [| e es]; [done |].
  destruct (strip_errors o true false ev_zero (e :: es)) as [ds |]; [| done]. cbn [mbind option_bind].
  destruct ds as [| first ds]; [done |]. destruct (list.last (first :: ds)) as [last |]; [| done].
  destruct (match objects l !! o with Some _ => _ | None => None end).
  - destruct (negb _); [done |]. by destruct (if is_update p || _ then _ else _).
  - destruct (_ || _); [done |]. destruct (items m !! o); [done |]. by destruct (forallb _ _).
Qed.

Lemma merge_each_missing l split bound crt m (s1 : S1) (s2 : S2) :
  fst <$> merge_each l split bound crt m s1 = fst <$> merge_each l split bound crt m s2.
Proof.
  revert m s1 s2. induction split as [| [o es] split IH]; intros m s1 s2; [done |]. cbn [merge_each].
  pose proof (merge_object_missing l o es bound crt m s1 s2) as Hm.
  destruct (_merge_object_divergent_entries l o es bound crt m s1) as [[m1 s1'] |],
    (_merge_object_divergent_entries l o es bound crt m s2) as [[m2 s2'] |]; try done.
  injection Hm as ->. apply IH.
Qed.
End Independent.

(** ** The index of the missing versions *)

(** [rmissing] is the inverse of [items], and each object is needed at a version
    of its own. *)
Record needs_ok (L : list pg_log_entry_t) (m : pg_missing_set) : Prop := {
  no_inverse v o : rmissing m !! v = Some o <-> exists i, items m !! o = Some i /\ version (need i) = v;
  no_event o i : items m !! o = Some i -> exists e, e ∈ L /\ on o e /\ e_version e = need i
}.

Lemma needs_inj L m o i o' i' : needs_ok L m -> items m !! o = Some i -> items m !! o' = Some i' ->
  version (need i) = version (need i') -> o = o'.
Proof.
  intros [Hr _] Hi Hi' E. assert (rmissing m !! version (need i) = Some o) as H1 by (apply Hr; eauto).
  assert (rmissing m !! version (need i) = Some o') as H2 by (apply Hr; eauto). congruence.
Qed.

Lemma needs_rm L o m : needs_ok L m -> needs_ok L (rm_item o m).
Proof.
  intros Hm. unfold rm_item. destruct (items m !! o) as [i |] eqn:Ei; [| done]. pose proof Hm as [Hr He]. split; cbn [items rmissing].
  - intros v o'. destruct (decide (v = version (need i))) as [-> | Hne].
    + rewrite lookup_delete_eq. split; [done |]. intros (j & Hj & Ej). apply lookup_delete_Some in Hj as [Hne Hj].
      by destruct Hne; eapply needs_inj.
    + rewrite lookup_delete_ne by done. rewrite Hr. split; intros (j & Hj & <-); exists j; (split; [| done]).
      * rewrite lookup_delete_ne; [done |]. intros ->. congruence.
      * by apply lookup_delete_Some in Hj as [_ ?].
  - intros o' j [_ Hj]%lookup_delete_Some. eauto.
Qed.

Lemma needs_have L o h m : needs_ok L m -> needs_ok L (revise_have o h m).
Proof.
  intros [Hr He]. unfold revise_have. destruct (items m !! o) as [i |] eqn:Ei; [| done]. split; cbn [items rmissing].
  - intros v o'. rewrite Hr. destruct (decide (o = o')) as [<- | Hne].
    + rewrite Ei, lookup_insert_eq. split; intros (j & [= <-] & <-); by eexists.
    + by rewrite lookup_insert_ne.
  - intros o' j. destruct (decide (o = o')) as [<- | Hne]; [| rewrite lookup_insert_ne by done; eauto].
    rewrite lookup_insert_eq. intros [= <-]. cbn. eauto.
Qed.

Lemma needs_ext L m m' : items m' = items m -> rmissing m' = rmissing m -> needs_ok L m -> needs_ok L m'.
Proof. intros Ei Er [Hr He]. split; [intros; by rewrite Ei, Er | intros ? ?; rewrite Ei; eauto]. Qed.

Lemma needs_put L o i m e : in_order L -> needs_ok L m -> items m !! o = None -> e ∈ L -> on o e -> e_version e = need i ->
  needs_ok L (put_item o i m).
Proof.
  intros Ho [Hr He] Hnone Hin Hon Ee. split; cbn [put_item items rmissing].
  - intros v o'. destruct (decide (version (need i) = v)) as [<- | Hv].
    + rewrite lookup_insert_eq. split; [intros [= <-]; exists i; by rewrite lookup_insert_eq |].
      intros (j & Hj & Ev). f_equal. destruct (decide (o = o')) as [| Hne]; [done |]. rewrite lookup_insert_ne in Hj by done.
      destruct (He _ _ Hj) as (e' & Hin' & [<- _] & Ee'). destruct Hon as [<- _]. f_equal. apply (in_order_inj L); [done.. |]. by rewrite Ee, Ee'.
    + rewrite lookup_insert_ne by done. rewrite Hr. destruct (decide (o = o')) as [<- | Hne]; [| by rewrite lookup_insert_ne].
      rewrite Hnone, lookup_insert_eq. by split; intros (j & [= <-] & ?).
  - intros o' j. destruct (decide (o = o')) as [<- | Hne]; [| rewrite lookup_insert_ne by done; eauto].
    rewrite lookup_insert_eq. intros [= <-]. eauto.
Qed.

Lemma needs_need L o n b m e : in_order L -> needs_ok L m -> e ∈ L -> on o e -> e_version e = n -> needs_ok L (revise_need o n b m).
Proof.
  intros Ho Hm Hin Hon En. unfold revise_need. destruct (items m !! o) as [i |] eqn:Ei; [| by eapply needs_put].
  pose proof (needs_put L o {| need := n; have := have i; item_delete := b |} (rm_item o m) e Ho (needs_rm L o m Hm)
    (rm_item_same o m) Hin Hon En) as Hput.
  eapply needs_ext; [| | exact Hput]; unfold rm_item; rewrite Ei; cbn [put_item items rmissing erase_rmissing]; [by rewrite insert_delete_eq | done].
Qed.

(** Dropping divergent entries keeps the index. *)
Lemma merge_object_needs {S} `{LogEntryHandler S} L l x xn o es bound crt m (s : S) m' s' :
  in_order L -> divergent_object l x xn o es -> (forall y, x = Some y -> y ∈ L /\ on o y) -> needs_ok L m ->
  _merge_object_divergent_entries l o es bound crt m s = Some (m', s') -> needs_ok L m'.
Proof.
  intros Ho [_ Hes Hoe Hc _] Hx Hm. unfold _merge_object_divergent_entries. destruct (above o bound); [by intros [= <- <-] |].
  destruct es as [| e es]; [done |]. rewrite (strip_errors_ok o true false ev_zero x); [| | done | done | done].
  2:{ eapply Forall_impl; [exact Hes |]. intros d [? []]. done. }
  cbn [mbind option_bind]. destruct (filter (on o) (e :: es)) as [| first ds]; [by intros [= <- <-] |].
  destruct (list.last (first :: ds)) as [last |]; [| by intros [= <- <-]].
  destruct (match objects l !! o with Some _ => _ | None => None end).
  - destruct (negb _); [done |]. destruct (if is_update p || _ then _ else _); [| done]. intros [= <- <-]. by apply needs_have.
  - destruct (bool_decide (prior_version first = ev_zero) || is_clone first) eqn:Enew; [intros [= <- <-]; by apply needs_rm |].
    destruct (chain_prior _ _ _ Hc Enew) as (y & -> & Hb & _). destruct (Hx y eq_refl) as [Hy Hon].
    destruct (items m !! o) as [i |] eqn:Ei.
    + intros [= <- <-]. destruct (bool_decide (have i = _)); [by apply needs_rm | by eapply needs_need].
    + destruct (forallb _ _); intros [= <- <-]; [done |]. by eapply needs_put.
Qed.

Lemma merge_divergent_needs {S} `{LogEntryHandler S} P D K l bound crt m (s : S) m' s' :
  history (P ++ D) -> (forall e, e ∈ K -> e ∈ P) -> objects l = index_objects K -> needs_ok (P ++ D) m ->
  _merge_divergent_entries l D bound crt m s = Some (m', s') -> needs_ok (P ++ D) m'.
Proof.
  intros Hh HK Hl. unfold _merge_divergent_entries.
  assert (forall o es, (o, es) ∈ split_by_object D -> divergent_object l (index_objects P !! o) None o es) as Hdiv.
  { intros o es Hin. apply (split_divergent P D [] K); [done | done | by rewrite app_nil_r | by intros ? ? _ ?%elem_of_nil | done]. }
  revert m s Hdiv. generalize (split_by_object D). intros split.
  induction split as [| [o es] split IH]; intros m s Hdiv Hm; cbn [merge_each]; [by intros [= <- <-] |].
  destruct (_merge_object_divergent_entries l o es bound crt m s) as [[m1 s1] |] eqn:E; [| done]. cbn [mbind option_bind].
  apply IH; [intros; apply Hdiv; by right |]. eapply merge_object_needs; [by apply history_in_order | apply Hdiv; left | | exact Hm | exact E].
  intros y [Hy Hon]%index_Some. split; [| done]. apply elem_of_app. by left.
Qed.

(** ** The oldest missing version *)

Lemma rmissing_begin_spec m :
  match rmissing_begin m with
  | Some (v, o) => rmissing m !! v = Some o /\ forall w, is_Some (rmissing m !! w) -> v <= w
  | None => rmissing m = ∅
  end.
Proof.
  unfold rmissing_begin. generalize (rmissing m) as r. clear m.
  apply (map_fold_weak_ind (fun (b : option (Z * hobject_t)) r => match b with Some (v, o) => r !! v = Some o /\ forall w, is_Some (r !! w) -> v <= w | None => r = ∅ end)).
  - done.
  - intros v o r b Hv IH. destruct b as [[w o'] |].
    + destruct IH as [Hw Hmin]. assert (v <> w) by congruence. destruct (Z.ltb_spec v w); split.
      * apply lookup_insert_eq.
      * intros u Hu. destruct (decide (u = v)) as [-> | Hne]; [lia |]. rewrite lookup_insert_ne in Hu by done. specialize (Hmin u Hu). lia.
      * by rewrite lookup_insert_ne.
      * intros u Hu. destruct (decide (u = v)) as [-> | Hne]; [lia |]. rewrite lookup_insert_ne in Hu by done. auto.
    + subst r. split; [apply lookup_insert_eq |]. intros u [x Hu]. apply lookup_insert_Some in Hu as [[-> _] | [_ Hu]]; [lia | done].
Qed.

(** With a sound index the oldest missing object is found. *)
Lemma oldest_found L m : in_order L -> needs_ok L m -> items m <> ∅ ->
  exists v o i, rmissing_begin m = Some (v, o) /\ items m !! o = Some i /\
    forall o' i', items m !! o' = Some i' -> ev_le (need i) (need i') = true.
Proof.
  intros Ho [Hr He] Hne. pose proof (rmissing_begin_spec m) as Hb. apply map_choose in Hne as (o1 & i1 & H1).
  destruct (rmissing_begin m) as [[v o] |].
  - destruct Hb as [Hv Hmin]. apply Hr in Hv as (i & Hi & <-). exists (version (need i)), o, i. split_and!; [done | done |].
    intros o' i' Hi'. specialize (Hmin (version (need i'))). assert (version (need i) <= version (need i')) as Hle.
    { apply Hmin. exists o'. apply Hr. eauto. }
    destruct (He _ _ Hi) as (e & Hine & _ & Ee). destruct (He _ _ Hi') as (e' & Hine' & _ & Ee'). rewrite <- Ee, <- Ee' in Hle |- *.
    apply list_elem_of_split in Hine as (L1 & L2 & ->). apply in_order_app in Ho as (HL1 & _ & Hcons). inversion_clear Hcons as [| ? ? _ HL2].
    rewrite Forall_forall in HL2. apply elem_of_app in Hine' as [Hx | [-> | Hx]%elem_of_cons]; [| ev_lia |].
    + specialize (HL1 e' e Hx ltac:(left)). ev_lia.
    + specialize (HL2 e' Hx). ev_lia.
  - assert (rmissing m !! version (need i1) = Some o1) as Hx by (apply Hr; eauto). by rewrite Hb in Hx.
Qed.

Lemma complete_below_lt v last es : ev_lt last v = true -> ev_lt (complete_below v last es) v = true.
Proof. revert last. induction es as [| e es IH]; intros last Hl; cbn [complete_below]; [done |]. destruct (ev_lt (e_version e) v) eqn:E; auto. Qed.

(** ** What the primary learns *)

Definition sent (l : IndexedLog) : pg_log_t :=
  {| o_head := head l; o_tail := tail l; o_can_rollback_to := can_rollback_to l;
     o_rollback_info_trimmed_to := rollback_info_trimmed_to l; o_log := log l; o_dups := dups l |}.

Lemma first_non_divergent_ok h K N : (forall e, e ∈ K -> ev_le (e_version e) h = true) -> (forall e, e ∈ N -> ev_lt h (e_version e) = true) ->
  first_non_divergent h (reverse (K ++ N)) = e_version <$> list.last K.
Proof.
  intros HK HN. induction N as [| n N IH] using rev_ind.
  - rewrite app_nil_r. destruct K as [| k K _] using rev_ind; [done |]. rewrite reverse_snoc, last_snoc. cbn.
    by rewrite HK by (apply elem_of_app; right; by apply list_elem_of_singleton).
  - rewrite app_assoc, reverse_snoc. cbn [first_non_divergent].
    assert (ev_le (e_version n) h = false) as -> by (pose proof (HN n ltac:(apply elem_of_app; right; by apply list_elem_of_singleton)); ev_lia).
    apply IH. intros e He. apply HN, elem_of_app. by left.
Qed.

Lemma rewind_inv {S} `{LogEntryHandler S} v info p (s : S) p' info' s' : rewind_divergent_log v info p s = Some (p', info', s') ->
  exists l D, rewind_from_head v (plog p) = Some (l, D) /\
    _merge_divergent_entries l D (last_backfill info) (can_rollback_to (plog p)) (missing p) s = Some (missing p', s').
Proof.
  unfold rewind_divergent_log. destruct (rewind_from_head v (plog p)) as [[l D] |]; [| done]. cbn [mbind option_bind].
  replace (last_backfill (set_last_update v _)) with (last_backfill info) by (by destruct (ev_lt _ _)).
  destruct (_merge_divergent_entries l D _ _ _ s) as [[m s1] |] eqn:E; [| done]. intros [= <- <- <-]. by exists l, D.
Qed.

Lemma replica_point_ok P D N v l olog : diverged P D N (indexed olog) (sent l) v -> log_of (P ++ D) (indexed olog) ->
  let lu := replica_point l olog in
  ev_le (o_tail olog) lu = true /\ ev_le lu (o_head olog) = true /\ upto lu v /\ forall e, e ∈ P -> upto (e_version e) lu.
Proof.
  intros [Hh HhN Holog _ _ [Hov _] _ [Htv Hotv] Hpast Hpart Hlater _] [_ _ Hhead Htail]. unfold replica_point.
  cbn [sent o_head o_tail o_log indexed head tail log] in *. rewrite Holog, since_app.
  assert (since (tail l) N = N) as ->.
  { apply since_all. intros e He. specialize (Hpart e ltac:(apply elem_of_app; by right)). ev_lia. }
  assert (forall e, e ∈ since (tail l) P -> ev_le (e_version e) (o_head olog) = true) as HPh.
  { intros e [_ He]%elem_since. apply Hhead, elem_of_app. by left. }
  rewrite first_non_divergent_ok by done. set (t := ev_maximum (o_tail olog) (tail l)).
  assert (ev_le (tail l) t = true /\ ev_le (o_tail olog) t = true /\ ev_le t (o_head olog) = true /\ upto t v) as (Ht1 & Ht2 & Hth & Htv').
  { unfold t, ev_maximum. destruct (ev_lt (o_tail olog) (tail l)) eqn:E; split_and!; try done; ev_lia. }
  set (lu := match e_version <$> list.last (since (tail l) P) with Some w => if ev_lt w t then t else w | None => t end).
  pose proof (history_in_order _ Hh) as (_ & HoP & _)%in_order_app.
  destruct (cut_point (tail l) t P v lu) as (Hc1 & Hc2 & Hc3); try done.
  - intros e He. destruct (Hpast e He) as (? & ? & ?). split; [done |]. unfold t, ev_maximum. by destruct (ev_lt _ _).
  - unfold lu. destruct (list.last (since (tail l) P)) as [k |]; [| done]. cbn. destruct (ev_lt (e_version k) t) eqn:E; [left | right]; split; done || ev_lia.
  - split_and!; try done; [ev_lia |]. unfold lu. destruct (list.last (since (tail l) P)) as [k |] eqn:El; [| done]. cbn.
    destruct (ev_lt (e_version k) t); [done |]. by apply HPh, last_Some_elem_of.
Qed.

Section Backend.
Context {S : Type} `{HandlerLaws S}.

(** Rewinding to a point that separates [P] and [D]. *)
Lemma rewind_point P D w info p (s : S) : history (P ++ D) -> pg_ok (P ++ D) info p s ->
  (forall e, e ∈ D -> ev_lt (tail (plog p)) (e_version e) = true) -> ev_le (tail (plog p)) w = true ->
  (forall e, e ∈ P -> upto (e_version e) w) -> (forall e, e ∈ D -> newer_than w (e_version e)) ->
  undoable D (last_backfill info) (can_rollback_to (plog p)) (missing p) s -> needs_ok (P ++ D) (missing p) ->
  exists l, rewind_from_head w (plog p) = Some (l, D) /\
  exists p' info' s', rewind_divergent_log w info p s = Some (p', info', s') /\ pg_ok P info' p' s' /\ needs_ok (P ++ D) (missing p') /\
    fst <$> _merge_divergent_entries l D (last_backfill info) (can_rollback_to (plog p)) (missing p) tt = Some (missing p').
Proof.
  intros Hh [Hlo Hu Ht Hc Hag] HDt Hw HP HD Hun Hneeds.
  assert (log (plog p) = since (tail (plog p)) P ++ D) as Hlog by (rewrite (lo_log _ _ Hlo), since_app; f_equal; by apply since_all).
  destruct (rewind_ok w (since (tail (plog p)) P) D (plog p)) as (l & El & _ & _ & _ & Hidx); [done | done | | done |].
  { intros e [_ He]%elem_since. by apply HP. }
  exists l. split; [done |].
  destruct (rewind_divergent_ok P D w (tail (plog p)) info p s) as (p' & info' & s' & E & Hok & _); try done; [apply Hlo |].
  destruct (rewind_inv _ _ _ _ _ _ _ E) as (l' & D' & El' & Em). rewrite El in El'. injection El' as <- <-.
  exists p', info', s'. split_and!; [done | done | |].
  - eapply merge_divergent_needs; [done | | exact Hidx | done | exact Em]. by intros e [_ He]%elem_since.
  - unfold _merge_divergent_entries in *. rewrite (merge_each_missing l _ _ _ _ tt s), Em. done.
Qed.

(** C13. the primary's view of a replica is right.  From the log and the missing
    set of a replica, an end of [P ++ D], it computes the point up to which the
    replica's log is shared and the missing set that the replica has once it
    drops its divergent entries, for every backend the replica may have; this
    missing set agrees with [P].  No assertion fails, and everything up to
    [last_complete] is present. *)
Theorem proc_replica_log_correct P D N v l oinfo olog p (s : S) :
  diverged P D N (plog p) (sent l) v -> plog p = indexed olog -> pg_ok (P ++ D) oinfo p s ->
  undoable D (last_backfill oinfo) (o_can_rollback_to olog) (missing p) s -> needs_ok (P ++ D) (missing p) ->
  exists oinfo' om', proc_replica_log l oinfo olog (missing p) = Some (oinfo', om') /\ needs_ok (P ++ D) om' /\
    (exists p' info' s', rewind_divergent_log (last_update oinfo') oinfo p s = Some (p', info', s') /\ missing p' = om' /\ pg_ok P info' p' s') /\
    (o_head olog <> head l -> forall o i, items om' !! o = Some i -> ev_lt (last_complete oinfo') (need i) = true).
Proof.
  intros Hdv Hp Hpg Hun Hneeds. pose proof Hpg as [Hlo Hu Ht Hc Hag]. unfold proc_replica_log. rewrite Hp in Hdv, Hlo.
  destruct (replica_point_ok P D N v l olog Hdv Hlo) as (Hw1 & Hw2 & Hw3 & HPw).
  destruct Hdv as [Hh HhN Holog Hoh _ [Hov1 Hov2] Hot [Htv Hotv] Hpast Hpart Hlater Hrew].
  cbn [sent o_head o_tail o_log indexed head tail log can_rollback_to] in *.
  assert (can_rollback_to (plog p) = o_can_rollback_to olog) as Ecrt by (by rewrite Hp). rewrite <- Ecrt in *.
  assert (ev_lt (o_head olog) (tail l) = false) as -> by ev_lia.
  assert (forall e, e ∈ D -> newer_than v (e_version e)) as HD by (intros; apply Hpart, elem_of_app; by left).
  assert (tail (plog p) = o_tail olog /\ head (plog p) = o_head olog) as [Etl Ehd] by (by rewrite Hp).
  assert (forall w, ev_le (o_tail olog) w = true -> (forall e, e ∈ P -> upto (e_version e) w) -> upto w v ->
    exists l', rewind_from_head w (indexed olog) = Some (l', D) /\
    exists p' info' s', rewind_divergent_log w oinfo p s = Some (p', info', s') /\ pg_ok P info' p' s' /\ needs_ok (P ++ D) (missing p') /\
      fst <$> _merge_divergent_entries l' D (last_backfill oinfo) (can_rollback_to (plog p)) (missing p) tt = Some (missing p')) as Hpoint.
  { intros w H1 H2 H3. rewrite <- Hp. apply rewind_point; try done; rewrite ?Etl; try done; intros e He; specialize (HD e He); ev_lia. }
  case_bool_decide as Eheads.
  - assert (N = []) as ->.
    { destruct N as [| n N]; [done |]. specialize (Hlater n ltac:(left)). specialize (Hoh n ltac:(apply elem_of_app; right; left)). rewrite <- Eheads in Hoh. ev_lia. }
    specialize (Hrew eq_refl). assert (D = []) as ->.
    { destruct D as [| d D]; [done |]. specialize (HD d ltac:(left)). pose proof (lo_head _ _ Hlo d ltac:(apply elem_of_app; right; left)).
      cbn [indexed head] in *. rewrite Eheads, Hrew in *. ev_lia. }
    destruct (Hpoint v) as (l' & _ & p' & info' & s' & E & Hok & Hn & [= Em]); [ev_lia | intros; by apply Hpast | apply upto_refl |].
    exists oinfo, (missing p). split_and!; [done | done | | done]. exists p', info', s'. by rewrite Hu, Ehd, Eheads, Hrew.
  - destruct (Hpoint (replica_point l olog)) as (l' & -> & p' & info' & s' & E & Hok & Hn & Em); [done | done | done |]. cbn [mbind option_bind].
    destruct (_merge_divergent_entries l' D _ _ _ tt) as [[om []] |]; [| done]. injection Em as ->. cbn [mbind option_bind].
    set (oinfo1 := if ev_lt (replica_point l olog) (last_update oinfo) then _ else _).
    assert (last_update oinfo1 = replica_point l olog) as E1.
    { unfold oinfo1. destruct (ev_lt (replica_point l olog) (last_update oinfo)) eqn:El; [done |]. rewrite Hu, Ehd in *. apply ev_ext; ev_lia. }
    case_bool_decide as Eempty.
    + eexists _, _. split; [done |]. cbn. rewrite E1. split_and!; [done | by exists p', info', s' |]. intros _ o i. by rewrite Eempty.
    + destruct (oldest_found (P ++ D) (missing p')) as (w & o & i & -> & Hi & Hmin); [by apply history_in_order | done | done |].
      cbn [mbind option_bind]. rewrite Hi. cbn [mbind option_bind]. eexists _, _. split; [done |]. cbn. rewrite E1. split_and!; [done | by exists p', info', s' |].
      intros _ o' i' Hi'. assert (ev_lt (complete_below (need i) ev_zero (o_log olog)) (need i) = true) as Hlt.
      { apply complete_below_lt. destruct (no_event _ _ Hn _ _ Hi) as (e & He & _ & <-). by apply (history_elem _ _ Hh He). }
      specialize (Hmin _ _ Hi'). ev_lia.
Qed.
End Backend.
