(* ===== verification/PgLogExample.v ===== *)
(** * A backend, and two logs

    A store that keeps the version of each object and a journal of what it can
    undo satisfies [HandlerLaws].  The logs below part after two shared writes;
    on them the theorems are instantiated, and the index of the missing versions
    is shown to lose an object. *)

From stdpp Require Import gmap sorting.
From S2P Require Import Prelude HObject PgLog PgLogSpec PgLogMerge PgLogAppend PgLogThms PgLogReplica.

Record journal := Journal { j_objects : gmap hobject_t eversion_t; j_undo : gset (hobject_t * eversion_t) }.

Definition j_set (o : hobject_t) (v : option eversion_t) (s : journal) : journal :=
  Journal (match v with Some v => <[o := v]> (j_objects s) | None => delete o (j_objects s) end) (j_undo s).
Definition j_forget (e : pg_log_entry_t) (s : journal) : journal := Journal (j_objects s) (j_undo s ∖ {[(soid e, e_version e)]}).
Definition j_drop (o : hobject_t) (s : journal) : journal := j_set o None (Journal (j_objects s) (filter (fun x => x.1 <> o) (j_undo s))).

#[export] Instance journal_handler : LogEntryHandler journal := {|
  h_rollback e s := j_set (soid e) (before e) s;
  h_rollforward e s := j_forget e s;
  h_trim e s := j_forget e s;
  h_remove o s := j_drop o s;
  h_try_stash o _ s := j_drop o s
|}.

Lemma j_set_same o v s : j_objects (j_set o v s) !! o = v.
Proof. destruct v; cbn; [apply lookup_insert_eq | apply lookup_delete_eq]. Qed.
Lemma j_set_other o v s o' : o' <> o -> j_objects (j_set o v s) !! o' = j_objects s !! o'.
Proof. intros. destruct v; cbn; [by apply lookup_insert_ne | by apply lookup_delete_ne]. Qed.

#[export] Instance journal_laws : HandlerLaws journal.
Proof.
  refine {| visible s o := j_objects s !! o; kept s e := (soid e, e_version e) ∈ j_undo s |}; cbn.
  - intros. apply j_set_same.
  - intros. by apply j_set_other.
  - done.
  - done.
  - intros s e e' Hne Hk. set_solver.
  - done.
  - intros s e e' Hne Hk. set_solver.
  - intros. apply (j_set_same o None).
  - intros. by apply (j_set_other o None).
  - intros s o e Hne Hk. apply elem_of_filter. by split.
  - intros. apply (j_set_same o None).
  - intros. by apply (j_set_other o None).
  - intros s o v e Hne Hk. apply elem_of_filter. by split.
Defined.

(** ** Histories that can be checked *)

Definition followsb (x : option pg_log_entry_t) (e : pg_log_entry_t) : bool :=
  bool_decide (before e = current x) && (negb (is_clone e) || match x with None => true | Some _ => false end).

Definition newerb (a b : eversion_t) : bool := ev_lt a b && (version a <? version b).

Fixpoint historyb (L es : list pg_log_entry_t) : bool :=
  match es with
  | [] => true
  | e :: es' =>
      newerb ev_zero (e_version e) && forallb (fun x => newerb (e_version x) (e_version e)) L &&
      (is_error e || followsb (index_objects L !! soid e) e) && historyb (L ++ [e]) es'
  end.

Lemma newerb_ok a b : newerb a b = true -> newer_than a b.
Proof. intros [? ?]%andb_true_iff. split; [done | lia]. Qed.

Lemma historyb_ok L es : history L -> Forall (fun e => hobject_wf (soid e)) es -> historyb L es = true -> history (L ++ es).
Proof.
  intros HL Hw. revert L HL. induction Hw as [| e es He Hw IH]; intros L HL; cbn [historyb]; [by rewrite app_nil_r |].
  intros [[[H1 H2]%andb_true_iff H3]%andb_true_iff H4]%andb_true_iff. change (L ++ e :: es) with (L ++ [e] ++ es). rewrite app_assoc.
  apply IH; [| done]. constructor; [done | done | by apply newerb_ok | |].
  - rewrite forallb_forall in H2. intros x Hx. by apply newerb_ok, H2, list_elem_of_In.
  - intros Hne. rewrite Hne in H3. cbn [orb] in H3. apply andb_true_iff in H3 as [H3 H5]. split; [by apply bool_decide_eq_true in H3 |].
    intros Hc. rewrite Hc in H5. by destruct (index_objects L !! soid e).
Qed.

(** ** Two logs *)

Definition ex_name (n : Z) : hobject_t := make_hobject [n] [] CEPH_NOSNAP n 5 [].

Definition ex_entry (k : log_op) (n : Z) (v prior : eversion_t) (rollback : bool) : pg_log_entry_t :=
  {| op := k; soid := ex_name n; e_version := v; prior_version := prior; can_rollback := rollback;
     reqid := {| r_name := 1; r_tid := version v; r_inc := 0 |}; user_version := version v; return_code := 0;
     extra_reqids := []; extra_reqid_return_codes := ∅ |}.

(** Objects 1 and 2 are created.  Then this OSD writes 1, deletes 2 and creates
    3, while the others create 4 and 3. *)
Definition ex_past : list pg_log_entry_t := [ex_entry MODIFY 1 (EV 1 1) ev_zero true; ex_entry MODIFY 2 (EV 1 2) ev_zero true].
Definition ex_ours : list pg_log_entry_t :=
  [ex_entry MODIFY 1 (EV 1 3) (EV 1 1) true; ex_entry DELETE 2 (EV 1 4) (EV 1 2) false; ex_entry MODIFY 3 (EV 1 5) ev_zero true].
Definition ex_theirs : list pg_log_entry_t := [ex_entry MODIFY 4 (EV 2 3) ev_zero true; ex_entry MODIFY 3 (EV 2 4) ev_zero true].

Definition ex_log (tl hd crt : eversion_t) (L : list pg_log_entry_t) : pg_log_t :=
  {| o_head := hd; o_tail := tl; o_can_rollback_to := crt; o_rollback_info_trimmed_to := crt; o_log := since tl L; o_dups := [] |}.

Definition ex_olog : pg_log_t := ex_log ev_zero (EV 2 4) (EV 2 2) (ex_past ++ ex_theirs).
Definition clean_marks : dirty_marks := Dirty ev_zero ev_max ev_max ∅ ev_zero ev_max ev_max ∅ true false false.
Definition no_missing : pg_missing_set := Missing ∅ ∅ ∅ false.
Definition ex_pglog : PGLog := PGL no_missing (indexed (ex_log (EV 1 1) (EV 1 5) (EV 1 2) (ex_past ++ ex_ours))) clean_marks.
Definition ex_info (head tl : eversion_t) : pg_info_t := Info head head tl 0 hobject_max.

(** A store that has everything of a history. *)
Definition stored (L : list pg_log_entry_t) (undo : gset (hobject_t * eversion_t)) : journal := Journal (omap after (index_objects L)) undo.

Definition ex_store : journal := stored (ex_past ++ ex_ours) {[(ex_name 1, EV 1 3); (ex_name 3, EV 1 5)]}.

Lemma stored_agrees L bound m undo : items m = ∅ -> agrees L bound m (stored L undo).
Proof. intros E o _. rewrite E. apply lookup_omap. Qed.

Ltac each_entry :=
  let e := fresh "e" in let He := fresh "He" in
  intros e He; repeat (apply elem_of_cons in He as [-> | He]); [.. | by apply elem_of_nil in He].

Ltac check := repeat split; vm_compute; try reflexivity; try (intros; discriminate).

Lemma ex_history D : D = ex_ours \/ D = ex_theirs -> history (ex_past ++ D).
Proof.
  intros H. apply (historyb_ok []); [constructor | | by destruct H; subst; vm_compute].
  rewrite Forall_forall. destruct H; subst; each_entry; by apply make_hobject_wf.
Qed.

Lemma ex_diverged : diverged ex_past ex_ours ex_theirs (plog ex_pglog) ex_olog (EV 1 2).
Proof.
  split; try (apply ex_history; tauto); try (by check); try (each_entry; by check).
Qed.

Lemma ex_pg_ok : pg_ok (ex_past ++ ex_ours) (ex_info (EV 1 5) (EV 1 1)) ex_pglog ex_store.
Proof. split; [split; [done | done | each_entry; by check | by check] | by check | by check | by check |]. by apply stored_agrees. Qed.

Lemma j_kept s e : kept s e <-> (soid e, e_version e) ∈ j_undo s.
Proof. done. Qed.

Lemma ex_undoable : undoable ex_ours hobject_max (EV 1 2) no_missing ex_store.
Proof.
  each_entry; intros; try discriminate; apply j_kept; unfold ex_store, stored; cbn [j_undo];
    [apply elem_of_union_l | apply elem_of_union_r]; by apply elem_of_singleton.
Qed.

Lemma merge_log_correct_witness : exists p' info' s' changed,
  merge_log (ex_info (EV 2 4) ev_zero) ex_olog (ex_info (EV 1 5) (EV 1 1)) ex_pglog ex_store = Some (p', info', s', changed) /\
  pg_ok (ex_past ++ ex_theirs) info' p' s' /\ head (plog p') = EV 2 4 /\ tail (plog p') = ev_zero /\ last_backfill info' = hobject_max.
Proof.
  exact (merge_log_correct ex_past ex_ours ex_theirs (EV 1 2) (ex_info (EV 2 4) ev_zero) ex_olog (ex_info (EV 1 5) (EV 1 1)) ex_pglog ex_store
    ex_diverged ex_pg_ok ex_undoable).
Defined.

(** The primary has the other log, and this OSD is a replica. *)
Definition ex_primary : IndexedLog := indexed ex_olog.

Lemma ex_needs : needs_ok (ex_past ++ ex_ours) no_missing.
Proof. split; [| done]. intros v o. split; [done |]. by intros (i & ? & _). Qed.

Lemma proc_replica_log_correct_witness : exists oinfo' om',
  proc_replica_log ex_primary (ex_info (EV 1 5) (EV 1 1)) (ex_log (EV 1 1) (EV 1 5) (EV 1 2) (ex_past ++ ex_ours)) no_missing = Some (oinfo', om') /\
  needs_ok (ex_past ++ ex_ours) om' /\
  (exists p' info' s', rewind_divergent_log (last_update oinfo') (ex_info (EV 1 5) (EV 1 1)) ex_pglog ex_store = Some (p', info', s') /\
    missing p' = om' /\ pg_ok ex_past info' p' s') /\
  (EV 1 5 <> EV 2 4 -> forall o i, items om' !! o = Some i -> ev_lt (last_complete oinfo') (need i) = true).
Proof.
  exact (proc_replica_log_correct ex_past ex_ours ex_theirs (EV 1 2) ex_primary (ex_info (EV 1 5) (EV 1 1))
    (ex_log (EV 1 1) (EV 1 5) (EV 1 2) (ex_past ++ ex_ours)) ex_pglog ex_store ex_diverged eq_refl ex_pg_ok ex_undoable ex_needs).
Defined.

(** ** A missing object that is not in the index *)

(** Object 1 is written as 1'3 in the divergent history, but not recovered yet;
    the others write object 2 as 2'3. *)
Definition clash_ours : list pg_log_entry_t := [ex_entry MODIFY 1 (EV 1 3) (EV 1 1) true].
Definition clash_theirs : list pg_log_entry_t := [ex_entry MODIFY 2 (EV 2 3) (EV 1 2) true].
Definition clash_missing : pg_missing_set := add_next_event (ex_entry MODIFY 1 (EV 1 3) (EV 1 1) true) no_missing.
Definition clash_pglog : PGLog := PGL clash_missing (indexed (ex_log ev_zero (EV 1 3) (EV 1 2) (ex_past ++ clash_ours))) clean_marks.
Definition clash_olog : pg_log_t := ex_log ev_zero (EV 2 3) (EV 2 2) (ex_past ++ clash_theirs).
Definition clash_store : journal := stored ex_past ∅.

Lemma clash_diverged : diverged ex_past clash_ours clash_theirs (plog clash_pglog) clash_olog (EV 1 2).
Proof.
  assert (forall D, D = clash_ours \/ D = clash_theirs -> history (ex_past ++ D)) as Hh.
  { intros D H. apply (historyb_ok []); [constructor | | by destruct H; subst; vm_compute].
    rewrite Forall_forall. destruct H; subst; each_entry; by apply make_hobject_wf. }
  split; try (apply Hh; tauto); try (by check); try (each_entry; by check).
Qed.

Lemma clash_put : clash_missing = put_item (ex_name 1) {| need := EV 1 3; have := EV 1 1; item_delete := false |} no_missing.
Proof. unfold clash_missing, add_next_event. cbn [items no_missing]. by rewrite lookup_empty. Qed.

Lemma clash_pg_ok : pg_ok (ex_past ++ clash_ours) (ex_info (EV 1 3) ev_zero) clash_pglog clash_store.
Proof.
  split; [split; [done | done | each_entry; by check | by check] | by check | by check | by check |].
  intros o _. cbn [clash_pglog missing]. rewrite clash_put. cbn [items put_item no_missing]. destruct (decide (o = ex_name 1)) as [-> | Hne].
  - rewrite lookup_insert_eq. split; [intros _; vm_compute; reflexivity |].
    exists (ex_entry MODIFY 1 (EV 1 3) (EV 1 1) true). split; [vm_compute; reflexivity | done].
  - rewrite lookup_insert_ne by done. cbn [object_ok]. unfold clash_store, stored. cbn [visible journal_laws j_objects].
    rewrite lookup_omap, index_app. change (index_objects clash_ours) with (index_entry ∅ (ex_entry MODIFY 1 (EV 1 3) (EV 1 1) true)).
    rewrite index_entry_lookup, decide_False; [done |]. intros [E _]. by apply Hne.
Qed.

Lemma clash_needs : needs_ok (ex_past ++ clash_ours) clash_missing.
Proof.
  rewrite clash_put. apply (needs_put _ _ _ no_missing (ex_entry MODIFY 1 (EV 1 3) (EV 1 1) true)); [| | done | | done | done].
  - apply history_in_order. apply clash_diverged.
  - split; [| done]. intros v o. split; [done |]. by intros (i & ? & _).
  - apply elem_of_app. right. left.
Qed.

Lemma clash_run :
  match merge_log (ex_info (EV 2 3) ev_zero) clash_olog (ex_info (EV 1 3) ev_zero) clash_pglog clash_store with
  | Some (p', _, _, _) => bool_decide (need <$> items (missing p') !! ex_name 2 = Some (EV 2 3)) &&
      bool_decide (rmissing (missing p') = ∅) && bool_decide (get_oldest_need (missing p') = None)
  | None => false
  end = true.
Proof. vm_compute. reflexivity. Qed.

(** C36. [rmissing] is keyed by the number of a version without its epoch.  When
    a divergent entry and a new one have the same number, merging the divergent
    one erases the key of the other object: it stays missing, but recovery, which
    walks [rmissing], does not find it, and [get_oldest_need] reads past its
    end. *)
Theorem merge_log_loses_missing :
  diverged ex_past clash_ours clash_theirs (plog clash_pglog) clash_olog (EV 1 2) /\
  pg_ok (ex_past ++ clash_ours) (ex_info (EV 1 3) ev_zero) clash_pglog clash_store /\
  needs_ok (ex_past ++ clash_ours) clash_missing /\
  exists p' info' s' changed,
    merge_log (ex_info (EV 2 3) ev_zero) clash_olog (ex_info (EV 1 3) ev_zero) clash_pglog clash_store = Some (p', info', s', changed) /\
    need <$> items (missing p') !! ex_name 2 = Some (EV 2 3) /\ rmissing (missing p') = ∅ /\ get_oldest_need (missing p') = None.
Proof.
  split; [apply clash_diverged |]. split; [apply clash_pg_ok |]. split; [apply clash_needs |].
  pose proof clash_run as H.
  destruct (merge_log _ _ _ _ _) as [[[[p' info'] s'] changed] |]; [| done]. exists p', info', s', changed. split; [done |].
  apply andb_true_iff in H as [[H1 H2]%andb_true_iff H3]. split_and!; by eapply bool_decide_eq_true.
Qed.
