(* ===== verification/PgLogDisk.v ===== *)
(** * The log on disk

    [write_log_and_missing] and [read_log_and_missing] of [PGLog.cc] and
    [PGLog.h]: the log of a group is kept under keys of an object, and only the
    keys that the dirty marks name are written.  The keys made of versions are
    the versions themselves, whose order the zero-padded names have; the values
    are not encoded.  [divergent_priors], which old releases wrote, and the
    checks of debug builds are left out. *)

From stdpp Require Import gmap sorting.
From S2P Require Import Prelude HObject PgLog PgLogSpec PgLogMerge.

Record omap := Omap {
  k_log : gmap eversion_t pg_log_entry_t;
  k_dups : gmap eversion_t pg_log_dup_t;
  k_missing : gmap hobject_t pg_missing_item;
  k_may_include_deletes : bool;
  k_can_rollback_to : option eversion_t;
  k_rollback_info_trimmed_to : option eversion_t
}.

Section Keys.
Context {A : Type}.
Implicit Types (m : gmap eversion_t A) (l : list A).

(** [omap_rmkeyrange] removes [[first, last)]. *)
Definition omap_rmkeyrange (first last : eversion_t) m : gmap eversion_t A :=
  filter (fun kv => ev_le first kv.1 && ev_lt kv.1 last = false) m.
Definition omap_rmkeys (ks : gset eversion_t) m : gmap eversion_t A := filter (fun kv => ~ kv.1 ∈ ks) m.
Definition omap_setkeys (ver : A -> eversion_t) l m : gmap eversion_t A := fold_left (fun m a => <[ver a := a]> m) l m.

Fixpoint while (f : A -> bool) l : list A :=
  match l with
  | [] => []
  | a :: l' => if f a then a :: while f l' else []
  end.

(** What is written of the entries, or of the requests: the ranges that are
    dirty are cleared and written again, and the end is written. *)
Definition write_range (ver : A -> eversion_t) (to from writeout : eversion_t) (removed : gset eversion_t) l m : gmap eversion_t A :=
  let m := if bool_decide (to = ev_zero) then m else omap_rmkeyrange ev_zero to m in
  let m := if bool_decide (to = ev_max) || bool_decide (from = ev_max) then m else omap_rmkeyrange from ev_max m in
  let m := omap_rmkeys removed m in
  let old := while (fun a => ev_le (ver a) to) l in
  let new := while (fun a => (ev_le from (ver a) || ev_le writeout (ver a)) && ev_le to (ver a)) (reverse l) in
  omap_setkeys ver new (omap_setkeys ver old m).
End Keys.

Definition is_dirty (m : pg_missing_set) (d : dirty_marks) : bool :=
  dirty_log d || negb (bool_decide (dirty_to d = ev_zero)) || negb (bool_decide (dirty_from d = ev_max)) ||
  negb (bool_decide (writeout_from d = ev_max)) || negb (bool_decide (trimmed d = ∅)) || negb (bool_decide (changed m = ∅)) ||
  negb (bool_decide (trimmed_dups d = ∅)) || negb (bool_decide (dirty_to_dups d = ev_zero)) ||
  negb (bool_decide (dirty_from_dups d = ev_max)) || negb (bool_decide (write_from_dups d = ev_max)) ||
  may_include_deletes_in_missing_dirty d.

Definition needs_write (p : PGLog) : bool := negb (touched_log (dirt p)) || is_dirty (missing p) (dirt p).

Definition undirty (p : PGLog) : PGLog :=
  let m := missing p in
  PGL (Missing (items m) (rmissing m) ∅ (may_include_deletes m)) (plog p)
    (Dirty ev_zero ev_max ev_max ∅ ev_zero ev_max ev_max ∅ true false (may_include_deletes_in_missing_dirty (dirt p))).

(** The items that changed. *)
Definition write_missing (m : pg_missing_set) (k : gmap hobject_t pg_missing_item) : gmap hobject_t pg_missing_item :=
  set_fold (fun o k => match items m !! o with Some i => <[o := i]> k | None => delete o k end) k (changed m).

Definition _write_log_and_missing (require_rollback : bool) (p : PGLog) (k : omap) : PGLog * omap :=
  let l := plog p in
  let d := dirt p in
  (PGL (missing p) l
     (Dirty (dirty_to d) (dirty_from d) (writeout_from d) ∅ (dirty_to_dups d) (dirty_from_dups d) (write_from_dups d) ∅ (touched_log d) (dirty_log d) false),
   Omap (write_range e_version (dirty_to d) (dirty_from d) (writeout_from d) (trimmed d) (log l) (k_log k))
     (write_range d_version (dirty_to_dups d) (dirty_from_dups d) (write_from_dups d) (trimmed_dups d) (dups l) (k_dups k))
     (write_missing (missing p) (k_missing k))
     (k_may_include_deletes k || may_include_deletes_in_missing_dirty d)
     (if require_rollback then Some (can_rollback_to l) else k_can_rollback_to k)
     (if require_rollback then Some (rollback_info_trimmed_to l) else k_rollback_info_trimmed_to k)).

Definition write_log_and_missing (require_rollback : bool) (p : PGLog) (k : omap) : PGLog * omap :=
  if needs_write p then let '(p, k) := _write_log_and_missing require_rollback p k in (undirty p, k) else (p, k).

(** ** Reading *)

(** The values in the order of their keys. *)
Definition key_le {A} (a b : eversion_t * A) : Prop := ev_le a.1 b.1 = true.
#[export] Instance key_le_dec {A} (a b : eversion_t * A) : Decision (key_le a b) := decide (ev_le a.1 b.1 = true).
Definition omap_values {A} (m : gmap eversion_t A) : list A := (merge_sort key_le (map_to_list m)).*2.

(** The assertions on the entries and on the requests. *)
Fixpoint entries_ascend (es : list pg_log_entry_t) : bool :=
  match es with
  | e :: (e' :: _) as es' => (version (e_version e) <? version (e_version e')) && (epoch (e_version e) <=? epoch (e_version e')) && entries_ascend es'
  | _ => true
  end.
Fixpoint dups_ascend (ds : list pg_log_dup_t) : bool :=
  match ds with
  | d :: (d' :: _) as ds' => ev_lt (d_version d) (d_version d') && dups_ascend ds'
  | _ => true
  end.

(** [no_shard]: the group of a replicated pool. *)
Definition read_log_and_missing (no_shard : bool) (info : pg_info_t) (k : omap) : option (IndexedLog * pg_missing_set) :=
  let entries := omap_values (k_log k) in
  let ds := omap_values (k_dups k) in
  if negb (entries_ascend entries && dups_ascend ds) then None
  else if negb (k_may_include_deletes k) && negb (bool_decide (map_Forall (fun _ i => item_delete i = false) (k_missing k))) then None
  else
    let crt := default (last_update info) (k_can_rollback_to k) in
    let rbt := default ev_zero (k_rollback_info_trimmed_to k) in
    if no_shard && negb (bool_decide (rbt = ev_zero)) then None
    else
      let rbt := if no_shard then last_update info else rbt in
      Some (indexed {| o_head := last_update info; o_tail := log_tail info; o_can_rollback_to := crt; o_rollback_info_trimmed_to := rbt;
                       o_log := entries; o_dups := ds |},
            Missing (k_missing k) (map_fold (fun o i r => <[version (need i) := o]> r) ∅ (k_missing k)) ∅ (k_may_include_deletes k)).

(** ** What the marks promise *)

Definition valid (v : eversion_t) : Prop := ev_lt ev_zero v = true /\ ev_lt v ev_max = true.

Section Ranges.
Context {A : Type} (ver : A -> eversion_t).
Implicit Types (m : gmap eversion_t A) (l : list A).

Definition ascending (l : list A) : Prop := StronglySorted (fun a b => ev_lt (ver a) (ver b) = true) l.

(** Everything of [l] that is not on disk is marked, and so is everything on disk
    that is not in [l]. *)
Record covered (to from writeout : eversion_t) (removed : gset eversion_t) l m : Prop := {
  cv_new a : a ∈ l -> ev_le (ver a) to = true \/ ev_le from (ver a) = true \/ ev_le writeout (ver a) = true \/
    m !! ver a = Some a /\ ~ ver a ∈ removed;
  cv_old v b : m !! v = Some b -> (exists a, a ∈ l /\ ver a = v) \/ v ∈ removed \/ ev_lt v to = true \/ ev_le from v = true;
  cv_keys v b : m !! v = Some b -> valid v
}.

Lemma covered_marks to from w r l m to' from' w' : covered to from w r l m -> ev_le to to' = true -> ev_le from' from = true -> ev_le w' w = true ->
  covered to' from' w' r l m.
Proof.
  intros [Hn Ho Hk] Ht Hf Hw. split; [| | done].
  - intros a Ha. destruct (Hn a Ha) as [? | [? | [? | ?]]]; [left; ev_lia | right; left; ev_lia | do 2 right; left; ev_lia | tauto].
  - intros v b Hb. destruct (Ho v b Hb) as [? | [? | [? | ?]]]; [tauto | tauto | do 2 right; left; ev_lia | do 3 right; ev_lia].
Qed.

(** The list changes only where it is marked. *)
Lemma covered_change to from w r l l' m : covered to from w r l m ->
  (forall a, a ∈ l' -> a ∈ l \/ ev_le (ver a) to = true \/ ev_le from (ver a) = true \/ ev_le w (ver a) = true) ->
  (forall a, a ∈ l -> a ∈ l' \/ ev_lt (ver a) to = true \/ ev_le from (ver a) = true) -> covered to from w r l' m.
Proof.
  intros [Hn Ho Hk] Hnew Hold. split; [| | done].
  - intros a Ha. destruct (Hnew a Ha); [auto | tauto].
  - intros v b Hb. destruct (Ho v b Hb) as [(a & Ha & <-) |]; [| tauto]. destruct (Hold a Ha); [left; eauto | tauto].
Qed.

Lemma covered_clean l m : (forall a, a ∈ l -> valid (ver a)) -> (forall v a, m !! v = Some a <-> a ∈ l /\ ver a = v) ->
  covered ev_zero ev_max ev_max ∅ l m.
Proof.
  intros Hv Hm. split.
  - intros a Ha. do 3 right. split; [by apply Hm | set_solver].
  - intros v b Hb%Hm. left. naive_solver.
  - intros v b [Hb <-]%Hm. auto.
Qed.

(** ** Writing *)

Definition distinct (l : list A) : Prop := forall a b, a ∈ l -> b ∈ l -> ver a = ver b -> a = b.

Lemma ascending_distinct l : ascending l -> distinct l.
Proof.
  induction 1 as [| e l _ IH He]; [by intros a b ?%elem_of_nil |]. rewrite Forall_forall in He.
  intros a b [-> | Ha]%elem_of_cons [-> | Hb]%elem_of_cons E; [done | | | by apply IH].
  - apply He in Hb. rewrite E in Hb. ev_lia.
  - apply He in Ha. rewrite E in Ha. ev_lia.
Qed.

Lemma setkeys_spec l m v a : distinct l ->
  omap_setkeys ver l m !! v = Some a <-> a ∈ l /\ ver a = v \/ ~ (exists b, b ∈ l /\ ver b = v) /\ m !! v = Some a.
Proof.
  induction l as [| b l IH] using rev_ind; intros Hd.
  - cbn. split; [intros; right; split; [by intros (b & ?%elem_of_nil & _) | done] | by intros [[?%elem_of_nil _] | [_ ?]]].
  - unfold omap_setkeys in *. rewrite fold_left_app. cbn [fold_left].
    assert (b ∈ l ++ [b]) as Hb by (apply elem_of_app; right; by apply list_elem_of_singleton).
    destruct (decide (ver b = v)) as [<- | Hne].
    + rewrite lookup_insert_eq. split; [intros [= <-]; by left |]. intros [[Ha E] | [Hn _]]; [by rewrite (Hd a b) | destruct Hn; eauto].
    + rewrite lookup_insert_ne by done. rewrite IH.
      2:{ intros x y Hx Hy. apply Hd; apply elem_of_app; by left. }
      setoid_rewrite elem_of_app. setoid_rewrite list_elem_of_singleton. split.
      * intros [[? ?] | [Hn ?]]; [tauto | right; split; [| done]]. intros (x & [? | ->] & ?); [apply Hn; eauto | done].
      * intros [[[? | ->] ?] | [Hn ?]]; [tauto | done | right; split; [| done]]. intros (x & ? & ?). apply Hn. eauto.
Qed.

Lemma elem_while (R : A -> A -> Prop) f l a : StronglySorted R l -> (forall x y, R x y -> f y = true -> f x = true) ->
  a ∈ while f l <-> a ∈ l /\ f a = true.
Proof.
  intros Hs Hf. induction Hs as [| x l Hs IH Hx]; cbn [while]; [split; [by intros ?%elem_of_nil | by intros [?%elem_of_nil _]] |].
  rewrite Forall_forall in Hx. destruct (f x) eqn:E.
  - rewrite !elem_of_cons, IH. split; [intros [-> | [? ?]]; auto | intros [[-> | ?] ?]; auto].
  - split; [by intros ?%elem_of_nil |]. rewrite elem_of_cons. intros [[-> | Ha] Hfa]; [congruence |]. rewrite (Hf x a) in E; [done | auto | done].
Qed.

Lemma ascending_reverse l : ascending l -> StronglySorted (fun a b => ev_lt (ver b) (ver a) = true) (reverse l).
Proof.
  induction 1 as [| e l _ IH He]; [constructor |]. rewrite reverse_cons. apply StronglySorted_app. split_and!; [| done | repeat constructor].
  rewrite Forall_forall in He. intros x y Hx ->%list_elem_of_singleton. rewrite elem_of_reverse in Hx. by apply He.
Qed.

Lemma rmkeyrange_spec first last m v b : omap_rmkeyrange first last m !! v = Some b <-> m !! v = Some b /\ ev_le first v && ev_lt v last = false.
Proof. apply map_lookup_filter_Some. Qed.

(** What is left when the dirty ranges are cleared. *)
Lemma cleared_spec to from m v b : valid v ->
  let m1 := if bool_decide (to = ev_zero) then m else omap_rmkeyrange ev_zero to m in
  (if bool_decide (to = ev_max) || bool_decide (from = ev_max) then m1 else omap_rmkeyrange from ev_max m1) !! v = Some b <->
  m !! v = Some b /\ ev_lt v to = false /\ ev_le from v = false.
Proof.
  intros [Hz Hm]. assert (ev_le ev_zero v = true) as Hz' by ev_lia.
  assert ((if bool_decide (to = ev_zero) then m else omap_rmkeyrange ev_zero to m) !! v = Some b <-> m !! v = Some b /\ ev_lt v to = false) as H1.
  { case_bool_decide as E; [| rewrite rmkeyrange_spec, Hz'; tauto]. split; [| tauto]. intros. split; [done |]. rewrite E. ev_lia. }
  cbv zeta. destruct (bool_decide_reflect (to = ev_max)) as [-> | Hto]; cbn [orb].
  - rewrite H1. split; [intros [? ?]; congruence | tauto].
  - destruct (bool_decide_reflect (from = ev_max)) as [-> | Hfrom]; [| rewrite rmkeyrange_spec, H1, Hm, andb_true_r; tauto].
    rewrite H1. assert (ev_le ev_max v = false) as -> by ev_lia. tauto.
Qed.

(** After writing, the disk has exactly the list. *)
Lemma write_range_ok to from w r l m : ascending l -> (forall a, a ∈ l -> valid (ver a)) -> covered to from w r l m ->
  forall v a, write_range ver to from w r l m !! v = Some a <-> a ∈ l /\ ver a = v.
Proof.
  intros Hl Hval [Hn Ho Hk] v a. unfold write_range.
  set (m2 := if bool_decide (to = ev_max) || _ then _ else _). set (old := while _ l). set (new := while _ (reverse l)).
  assert (forall b, b ∈ old <-> b ∈ l /\ ev_le (ver b) to = true) as Hold.
  { intros b. apply elem_while with (R := fun a b => ev_lt (ver a) (ver b) = true); [done |]. cbn. intros. ev_lia. }
  assert (forall b, b ∈ new <-> b ∈ l /\ (ev_le from (ver b) || ev_le w (ver b)) && ev_le to (ver b) = true) as Hnew.
  { intros b. rewrite <- (elem_of_reverse b l). apply elem_while with (R := fun a b => ev_lt (ver b) (ver a) = true); [by apply ascending_reverse |].
    cbn. intros x y Hxy. rewrite !andb_true_iff, !orb_true_iff. intros [[? | ?] ?]; (split; [| ev_lia]); [left | right]; ev_lia. }
  pose proof (ascending_distinct l Hl) as Hd. assert (distinct old /\ distinct new) as [Hdo Hdn].
  { split; intros x y Hx Hy; [apply Hold in Hx as [? _], Hy as [? _] | apply Hnew in Hx as [? _], Hy as [? _]]; by apply Hd. }
  assert (forall b, omap_rmkeys r m2 !! v = Some b <-> m !! v = Some b /\ ~ v ∈ r /\ ev_lt v to = false /\ ev_le from v = false) as Hm.
  { intros b. unfold omap_rmkeys. rewrite map_lookup_filter_Some. cbn [fst]. split.
    - intros [Hb Hr]. assert (valid v) as Hv.
      { destruct (m !! v) as [c |] eqn:E; [by eapply Hk |]. exfalso. revert Hb. unfold m2.
        repeat case_bool_decide; cbn [orb]; rewrite ?rmkeyrange_spec, ?E; intros; destruct_and?; done. }
      apply cleared_spec in Hb; [tauto | done].
    - intros (Hb & Hr & Hlt & Hle). split; [| done]. apply cleared_spec; [by eapply Hk | done]. }
  rewrite (setkeys_spec new), (setkeys_spec old), Hm by done. split.
  - intros [[[? _]%Hnew ?] | [Hn1 [[[? _]%Hold ?] | [Hn2 (Ha & Hr & Hto & Hfrom)]]]]; try done.
    destruct (Ho v a Ha) as [(a0 & Ha0 & <-) | [? | [? | ?]]]; [| done | congruence | congruence].
    assert (~ a0 ∈ new /\ ~ a0 ∈ old) as [H1 H2] by (split; intros ?; [apply Hn1 | apply Hn2]; eauto). rewrite Hnew in H1. rewrite Hold in H2.
    destruct (Hn a0 Ha0) as [? | [? | [Hw | [E _]]]]; [tauto | congruence | | split; congruence].
    destruct H1. split; [done |]. rewrite Hw, orb_true_r. cbn [andb]. ev_lia.
  - intros [Ha <-]. destruct ((ev_le from (ver a) || ev_le w (ver a)) && ev_le to (ver a)) eqn:En; [left; by rewrite Hnew |].
    right. split; [intros (b & [Hb Eb]%Hnew & E); rewrite E in Eb; congruence |].
    destruct (ev_le (ver a) to) eqn:Eo; [left; by rewrite Hold |].
    right. split; [intros (b & [Hb Eb]%Hold & E); rewrite E in Eb; congruence |].
    assert (ev_le to (ver a) = true) as Et by ev_lia. rewrite Et, andb_true_r in En. apply orb_false_iff in En as [Ef Ew].
    destruct (Hn a Ha) as [? | [? | [? | [? ?]]]]; [congruence.. |]. split_and!; try done. ev_lia.
Qed.

(** ** Reading back *)

Lemma omap_values_ok l m : ascending l -> (forall v a, m !! v = Some a <-> a ∈ l /\ ver a = v) -> omap_values m = l.
Proof.
  intros Hl Hm. unfold omap_values.
  assert (merge_sort key_le (map_to_list m) = (fun a => (ver a, a)) <$> l) as ->.
  { apply (StronglySorted_unique_strong key_le).
    - intros [v a] [w b] Hx Hy. rewrite merge_sort_Permutation in Hx. apply elem_of_map_to_list in Hx. rewrite list_elem_of_fmap in Hy.
      destruct Hy as (c & [= -> ->] & Hc). unfold key_le. cbn. intros H1 H2. assert (v = ver c) as -> by (apply ev_ext; ev_lia).
      apply Hm in Hx as [Ha E]. by rewrite (ascending_distinct l Hl a c Ha Hc E).
    - apply Sorted_StronglySorted; [| apply Sorted_merge_sort].
      + intros x y z. unfold key_le. ev_lia.
      + intros x y. unfold key_le. ev_lia.
    - clear Hm. induction Hl as [| a l Hl IH Ha]; cbn; constructor; [done |]. apply Forall_fmap. eapply Forall_impl; [exact Ha |].
      intros b. unfold key_le. cbn. ev_lia.
    - rewrite merge_sort_Permutation. apply NoDup_Permutation.
      + apply NoDup_map_to_list.
      + apply NoDup_fmap; [by intros ? ? [=] |]. clear Hm. induction Hl as [| a l Hl IH Ha]; constructor; [| done].
        intros Hin. rewrite Forall_forall in Ha. apply Ha in Hin. ev_lia.
      + intros [v a]. rewrite elem_of_map_to_list, list_elem_of_fmap, Hm. split; [intros [? <-]; by exists a | intros (b & [= -> ->] & ?); done]. }
  rewrite <- list_fmap_compose. apply list_fmap_id.
Qed.
End Ranges.

Lemma write_missing_ok m k o : write_missing m k !! o = if decide (o ∈ changed m) then items m !! o else k !! o.
Proof.
  revert o. set (Q (r : gmap hobject_t pg_missing_item) (X : gset hobject_t) := forall o, r !! o = if decide (o ∈ X) then items m !! o else k !! o).
  change (Q (write_missing m k) (changed m)). unfold write_missing. apply set_fold_ind_L; unfold Q.
  - intros o'. rewrite decide_False; [done | set_solver].
  - intros o1 X r Ho1 IH o'. destruct (decide (o' = o1)) as [-> | Hne].
    + rewrite decide_True by set_solver. destruct (items m !! o1); [apply lookup_insert_eq | apply lookup_delete_eq].
    + assert ((match items m !! o1 with Some i => <[o1:=i]> r | None => delete o1 r end) !! o' = r !! o') as ->.
      { destruct (items m !! o1); [by apply lookup_insert_ne | by apply lookup_delete_ne]. }
      rewrite IH. destruct (decide (o' ∈ X)); [rewrite decide_True | rewrite decide_False]; set_solver.
Qed.
