(* ===== verification/PgLogPersist.v ===== *)
(** * The log on disk stays in step

    Every operation marks what it changes, so that [write_log_and_missing] makes
    the disk equal to the memory, and [read_log_and_missing] gets it back. *)

From stdpp Require Import gmap sorting.
From S2P Require Import Prelude HObject PgLog PgLogSpec PgLogMerge PgLogAppend PgLogThms PgLogDisk.

(** ** The missing set *)

(** A deletion is missing only where this is allowed. *)
Definition deletes_ok (m : pg_missing_set) : Prop := forall o i, items m !! o = Some i -> item_delete i = true -> may_include_deletes m = true.

(** What changes of the missing set is remembered. *)
Record tracks (m m' : pg_missing_set) : Prop := {
  tr_changed : changed m ⊆ changed m';
  tr_items o : o ∈ changed m' \/ items m' !! o = items m !! o;
  tr_dels : may_include_deletes m' = may_include_deletes m;
  tr_deletes : deletes_ok m -> deletes_ok m'
}.

#[export] Instance tracks_preorder : PreOrder tracks.
Proof.
  split; [intros m; split; auto |]. intros a b c [H1 H2 H3 H7] [H4 H5 H6 H8]. split; [set_solver | | congruence | auto].
  intros o. destruct (H5 o) as [| ->]; [by left |]. destruct (H2 o); [left; set_solver | by right].
Qed.

Lemma tracks_put o i m : (item_delete i = true -> may_include_deletes m = true) -> tracks m (put_item o i m).
Proof.
  intros Hi. split; cbn; [set_solver | | done |].
  - intros o'. destruct (decide (o' = o)) as [-> |]; [left; set_solver | right; by apply lookup_insert_ne].
  - intros Hok o' j. cbn. destruct (decide (o = o')) as [<- |]; [rewrite lookup_insert_eq; intros [= <-]; done |].
    rewrite lookup_insert_ne by done. apply Hok.
Qed.

Lemma tracks_erase v m : tracks m (erase_rmissing v m).
Proof. by split; auto. Qed.

Lemma tracks_put_erase o i v m : (item_delete i = true -> may_include_deletes m = true) -> tracks m (put_item o i (erase_rmissing v m)).
Proof. intros. etrans; [apply tracks_erase | by apply tracks_put]. Qed.

Lemma tracks_rm o m : tracks m (rm_item o m).
Proof.
  unfold rm_item. destruct (items m !! o); [| done]. split; cbn; [set_solver | | done |].
  - intros o'. destruct (decide (o' = o)) as [-> |]; [left; set_solver | right; by apply lookup_delete_ne].
  - intros Hok o' j Hj. cbn in Hj. apply lookup_delete_Some in Hj as [_ Hj]. by apply (Hok o').
Qed.

Lemma tracks_have o h m : tracks m (revise_have o h m).
Proof.
  unfold revise_have. destruct (items m !! o) as [i |] eqn:Ei; [| done]. split; cbn; [set_solver | | done |].
  - intros o'. destruct (decide (o' = o)) as [-> |]; [left; set_solver | right; by apply lookup_insert_ne].
  - intros Hok o' j. cbn. destruct (decide (o = o')) as [<- |]; [rewrite lookup_insert_eq; intros [= <-]; apply (Hok o i Ei) |].
    rewrite lookup_insert_ne by done. apply Hok.
Qed.

Create HintDb tracks.
#[export] Hint Resolve tracks_put tracks_put_erase tracks_rm tracks_have : tracks.

Lemma tracks_next e m : (is_delete e = true -> may_include_deletes m = true) -> tracks m (add_next_event e m).
Proof. intros. unfold add_next_event. destruct (items m !! soid e); auto with tracks. Qed.

Lemma tracks_need o n m : tracks m (revise_need o n false m).
Proof. unfold revise_need. destruct (items m !! o); [by apply tracks_put_erase | by apply tracks_put]. Qed.

Lemma tracks_missing_rm o v m : tracks m (missing_rm o v m).
Proof. unfold missing_rm. destruct (items m !! o); [| done]. destruct (ev_le _ _); [auto with tracks | done]. Qed.

Lemma tracks_got o v m m' : missing_got o v m = Some m' -> tracks m m'.
Proof. unfold missing_got. destruct (items m !! o); [| done]. cbn. destruct (_ || _); [| done]. intros [= <-]. auto with tracks. Qed.

#[export] Hint Resolve tracks_next tracks_need tracks_missing_rm : tracks.

Section Backend.
Context {S : Type} `{LogEntryHandler S}.
Implicit Types (s : S) (m : pg_missing_set).

Lemma merge_object_tracks l o es bound crt m s m' s' : _merge_object_divergent_entries l o es bound crt m s = Some (m', s') -> tracks m m'.
Proof.
  unfold _merge_object_divergent_entries. destruct (above o bound); [by intros [= <- <-] |]. destruct es as [| e es]; [done |].
  destruct (strip_errors o true false ev_zero (e :: es)) as [ds |]; [| done]. cbn [mbind option_bind].
  destruct ds as [| first ds]; [by intros [= <- <-] |]. destruct (list.last (first :: ds)) as [last |]; [| by intros [= <- <-]].
  destruct (match objects l !! o with Some _ => _ | None => None end).
  - destruct (negb _); [done |]. destruct (if is_update p || _ then _ else _); [| done]. intros [= <- <-]. auto with tracks.
  - destruct (bool_decide (prior_version first = ev_zero) || _); [intros [= <- <-]; auto with tracks |]. destruct (items m !! o).
    + intros [= <- <-]. destruct (bool_decide _); auto with tracks.
    + destruct (forallb _ _); intros [= <- <-]; [done | by apply tracks_put].
Qed.

Lemma merge_each_tracks l split bound crt m s m' s' : merge_each l split bound crt m s = Some (m', s') -> tracks m m'.
Proof.
  revert m s. induction split as [| [o es] split IH]; intros m s; cbn [merge_each]; [by intros [= <- <-] |].
  destruct (_merge_object_divergent_entries l o es bound crt m s) as [[m1 s1] |] eqn:E; [| done]. cbn [mbind option_bind]. intros E1.
  etrans; [by eapply merge_object_tracks | by eapply IH].
Qed.

(** ** The entries *)

Lemma append_entry_tracks bound b p l m s l' m' s' : append_entry bound b p l m s = Some (l', m', s') ->
  tracks m m' /\ log_add p l = Some l'.
Proof.
  unfold append_entry. destruct (log_add p l) as [l1 |]; [| done]. cbn [mbind option_bind].
  destruct (above (soid p) bound || is_error p); [by intros [= <- <- <-] |].
  destruct (may_include_deletes m) eqn:Em; intros [= <- <- <-]; (split; [| done]); [auto with tracks |].
  destruct (is_delete p) eqn:Ed; [auto with tracks |]. apply tracks_next. congruence.
Qed.

(** The log grows by entries that are above its head. *)
Lemma append_each_log bound b N l m s l' m' s' : append_each bound b N l m s = Some (l', m', s') ->
  tracks m m' /\ log l' = log l ++ N /\ dups l' = dups l /\ tail l' = tail l /\ ev_le (head l) (head l') = true /\ forall e, e ∈ N -> ev_lt (head l) (e_version e) = true.
Proof.
  revert l m s. induction N as [| p N IH]; intros l m s; cbn [append_each].
  - intros [= <- <- <-]. rewrite app_nil_r. split_and!; try done; [ev_lia | by intros e ?%elem_of_nil].
  - destruct (append_entry bound b p l m s) as [[[l1 m1] s1] |] eqn:E; [| done]. cbn [mbind option_bind].
    intros (Ht & Hl & Hd & Htl & Hhd & Hn)%IH. apply append_entry_tracks in E as [Ht1 Ha]. unfold log_add in Ha.
    destruct (ev_lt (head l) (e_version p) && _) eqn:Ec; [| done]. apply andb_true_iff in Ec as [Ec _]. injection Ha as <-. cbn in *.
    split_and!; [by etrans | by rewrite Hl, <- app_assoc | done | done | ev_lia |].
    intros e [-> | He]%elem_of_cons; [done |]. specialize (Hn e He). ev_lia.
Qed.

Lemma append_entries_log bound b N l m s l' m' s' : append_log_entries_update_missing bound N b l m s = Some (l', m', s') ->
  tracks m m' /\ log l' = log l ++ N /\ dups l' = dups l /\ tail l' = tail l /\ ev_le (head l) (head l') = true /\ forall e, e ∈ N -> ev_lt (head l) (e_version e) = true.
Proof.
  unfold append_log_entries_update_missing. destruct N as [| e N].
  - intros [= <- <- <-]. rewrite app_nil_r. split_and!; try done; [ev_lia | by intros e ?%elem_of_nil].
  - destruct (ev_lt _ _); [| done]. apply append_each_log.
Qed.
End Backend.

Lemma rewind_scan_split v rl acc K D : rewind_scan v rl acc = Some (K, D) ->
  exists D', reverse rl = K ++ D' /\ D = D' ++ acc /\ forall d, d ∈ D' -> ev_lt v (e_version d) = true.
Proof.
  revert acc. induction rl as [| p rl IH]; intros acc; cbn [rewind_scan].
  - intros [= <- <-]. exists []. split_and!; try done. by intros d ?%elem_of_nil.
  - destruct (_ <=? _); [intros [= <- <-]; exists []; rewrite app_nil_r; split_and!; try done; by intros d ?%elem_of_nil |].
    destruct (ev_lt v (e_version p)) eqn:E; [| done]. intros (D' & E1 & E2 & HD)%IH. exists (D' ++ [p]). rewrite reverse_cons, E1, E2, <- !app_assoc. split_and!; try done.
    intros d [Hd | ->%list_elem_of_singleton]%elem_of_app; auto.
Qed.

Lemma rewind_split v l l' D : rewind_from_head v l = Some (l', D) ->
  log l = log l' ++ D /\ dups l' = dups l /\ head l' = v /\ forall d, d ∈ D -> ev_lt v (e_version d) = true.
Proof.
  unfold rewind_from_head. destruct (ev_lt v (tail l)); [done |]. destruct (rewind_scan v (reverse (log l)) []) as [[K E] |] eqn:Er; [| done].
  cbn [mbind option_bind]. intros [= <- <-]. apply rewind_scan_split in Er as (D' & E1 & -> & HD). rewrite reverse_involutive in E1.
  rewrite app_nil_r in *. done.
Qed.

(** ** Memory and disk *)

Record synced (k : omap) (p : PGLog) : Prop := {
  sy_log : covered e_version (dirty_to (dirt p)) (dirty_from (dirt p)) (writeout_from (dirt p)) (trimmed (dirt p)) (log (plog p)) (k_log k);
  sy_dups : covered d_version (dirty_to_dups (dirt p)) (dirty_from_dups (dirt p)) (write_from_dups (dirt p)) (trimmed_dups (dirt p))
              (dups (plog p)) (k_dups k);
  sy_missing o : o ∈ changed (missing p) \/ k_missing k !! o = items (missing p) !! o;
  sy_deletes : if may_include_deletes_in_missing_dirty (dirt p) then may_include_deletes (missing p) = true
               else k_may_include_deletes k = may_include_deletes (missing p)
}.

(** A log in order: the entries between its tail and its head, the requests of
    older ones up to its tail.  Entries with extra requests are excluded: the
    requests of one entry have the same key. *)
Record log_sane (p : PGLog) : Prop := {
  ls_tail : ev_le (tail (plog p)) (head (plog p)) = true;
  ls_order : in_order (log (plog p));
  ls_entry e : e ∈ log (plog p) -> valid (e_version e) /\ ev_lt (tail (plog p)) (e_version e) = true /\ extra_reqids e = [];
  ls_dups : ascending d_version (dups (plog p));
  ls_dup d : d ∈ dups (plog p) -> valid (d_version d) /\ ev_le (d_version d) (tail (plog p)) = true;
  ls_deletes : deletes_ok (missing p)
}.

Lemma in_order_ascending L : in_order L -> ascending e_version L.
Proof. intros H. induction H as [| e L _ IH He]; constructor; [done |]. eapply Forall_impl; [exact He |]. by intros x []. Qed.

(** The disk holds exactly what is in memory. *)
Record stored_exactly (k : omap) (p : PGLog) : Prop := {
  se_log v e : k_log k !! v = Some e <-> e ∈ log (plog p) /\ e_version e = v;
  se_dups v d : k_dups k !! v = Some d <-> d ∈ dups (plog p) /\ d_version d = v;
  se_missing : k_missing k = items (missing p);
  se_deletes : k_may_include_deletes k = may_include_deletes (missing p)
}.

Lemma covered_exact {A} (ver : A -> eversion_t) l m : (forall a, a ∈ l -> valid (ver a)) -> covered ver ev_zero ev_max ev_max ∅ l m ->
  forall v a, m !! v = Some a <-> a ∈ l /\ ver a = v.
Proof.
  intros Hv [Hn Ho Hk] v a.
  assert (forall b, b ∈ l -> m !! ver b = Some b) as Hin.
  { intros b Hb. destruct (Hv b Hb). destruct (Hn b Hb) as [? | [? | [? | [? _]]]]; [ev_lia.. | done]. }
  split; [| intros [? <-]; auto]. intros Ha. destruct (Hk v a Ha). destruct (Ho v a Ha) as [(b & Hb & <-) | [? | [? | ?]]]; [| set_solver | ev_lia | ev_lia].
  rewrite (Hin b Hb) in Ha. by injection Ha as ->.
Qed.

Lemma write_exact rr k p : synced k p -> log_sane p -> stored_exactly (snd (write_log_and_missing rr p k)) p.
Proof.
  intros [Hl Hd Hm Hdel] [_ Ho Hentry Hdo Hdup _]. unfold write_log_and_missing. destruct (needs_write p) eqn:En; cbn [snd _write_log_and_missing].
  - split; cbn [k_log k_dups k_missing k_may_include_deletes].
    + apply write_range_ok; [by apply in_order_ascending | intros; by apply Hentry | done].
    + apply write_range_ok; [done | intros; by apply Hdup | done].
    + apply map_eq. intros o. rewrite write_missing_ok. case_decide; [done |]. by destruct (Hm o).
    + destruct (may_include_deletes_in_missing_dirty _); [by rewrite orb_true_r | by rewrite orb_false_r].
  - unfold needs_write in En. apply orb_false_iff in En as [_ En]. unfold is_dirty in En. repeat apply orb_false_iff in En as [En ?].
    repeat match goal with H : negb (bool_decide _) = false |- _ => apply negb_false_iff, bool_decide_eq_true in H; rewrite H in * end.
    split.
    + apply covered_exact; [intros; by apply Hentry | done].
    + apply covered_exact; [intros; by apply Hdup | done].
    + apply map_eq. intros o. destruct (Hm o); [set_solver | done].
    + match goal with H : may_include_deletes_in_missing_dirty _ = false |- _ => by rewrite H in Hdel end.
Qed.

Lemma entries_ascend_ok L : in_order L -> entries_ascend L = true.
Proof.
  induction 1 as [| e L HL IH He]; [done |]. cbn [entries_ascend]. destruct L as [| e' L]; [done |]. apply Forall_cons in He as [He _]. rewrite IH, andb_true_r.
  apply andb_true_iff. split; [apply Z.ltb_lt | apply Z.leb_le]; ev_lia.
Qed.

Lemma dups_ascend_ok L : ascending d_version L -> dups_ascend L = true.
Proof.
  induction 1 as [| e L HL IH He]; [done |]. cbn [dups_ascend]. destruct L as [| e' L]; [done |]. apply Forall_cons in He as [He _]. by rewrite IH, He.
Qed.

(** Writing keeps memory and disk in step. *)
Lemma write_synced rr k p : synced k p -> log_sane p -> let '(p', k') := write_log_and_missing rr p k in synced k' p' /\ log_sane p'.
Proof.
  intros Hs Hl. pose proof (write_exact rr k p Hs Hl) as Hex. unfold write_log_and_missing in *. destruct (needs_write p); [| done].
  cbn [_write_log_and_missing snd] in *. destruct Hl as [Htail Ho Hentry Hdo Hdup Hi]. split; [| by split]. destruct Hex as [El Ed Em Edel].
  split; cbn [undirty dirt plog missing changed items may_include_deletes dirty_to dirty_from writeout_from trimmed dirty_to_dups dirty_from_dups
              write_from_dups trimmed_dups may_include_deletes_in_missing_dirty] in *.
  - apply covered_clean; [intros; by apply Hentry | done].
  - apply covered_clean; [intros; by apply Hdup | done].
  - intros o. right. by rewrite Em.
  - done.
Qed.

(** ** The operations *)

(** The marks of the requests, and of the missing set. *)
Definition dups_marks (d : dirty_marks) := (dirty_to_dups d, dirty_from_dups d, write_from_dups d, trimmed_dups d, may_include_deletes_in_missing_dirty d).

(** Only the entries and their marks change. *)
Lemma synced_entries k p m' l' d' : synced k p -> tracks (missing p) m' ->
  covered e_version (dirty_to d') (dirty_from d') (writeout_from d') (trimmed d') (log l') (k_log k) -> dups l' = dups (plog p) ->
  dups_marks d' = dups_marks (dirt p) -> synced k (PGL m' l' d').
Proof.
  intros [Hl Hd Hm Hdel] [Hc Hi Ht _] Hl' E1 [= E2 E3 E4 E5 E6]. split; cbn [plog dirt missing]; rewrite ?E1, ?E2, ?E3, ?E4, ?E5, ?E6, ?Ht; try done.
  intros o. destruct (Hi o) as [| ->]; [by left |]. destruct (Hm o); [left; set_solver | by right].
Qed.

(** Marks only widen. *)
Lemma mark_to_ok v d : let d' := mark_dirty_to v d in
  (ev_le (dirty_to d) (dirty_to d') = true /\ ev_le v (dirty_to d') = true) /\
  dirty_from d' = dirty_from d /\ writeout_from d' = writeout_from d /\ trimmed d' = trimmed d /\ dups_marks d' = dups_marks d.
Proof. unfold mark_dirty_to. destruct (ev_lt (dirty_to d) v) eqn:E; cbn [set_dirty_to dirty_to]; (split; [ev_lia | done]). Qed.
Lemma mark_from_ok v d : let d' := mark_dirty_from v d in
  (ev_le (dirty_from d') (dirty_from d) = true /\ ev_le (dirty_from d') v = true) /\
  dirty_to d' = dirty_to d /\ writeout_from d' = writeout_from d /\ trimmed d' = trimmed d /\ dups_marks d' = dups_marks d.
Proof. unfold mark_dirty_from. destruct (ev_lt v (dirty_from d)) eqn:E; cbn [set_dirty_from dirty_from]; (split; [ev_lia | done]). Qed.
Lemma mark_writeout_ok v d : let d' := mark_writeout_from v d in
  (ev_le (writeout_from d') (writeout_from d) = true /\ ev_le (writeout_from d') v = true) /\
  dirty_to d' = dirty_to d /\ dirty_from d' = dirty_from d /\ trimmed d' = trimmed d /\ dups_marks d' = dups_marks d.
Proof. unfold mark_writeout_from. destruct (ev_lt v (writeout_from d)) eqn:E; cbn [set_writeout_from writeout_from]; (split; [ev_lia | done]). Qed.
Lemma ev_le_refl v : ev_le v v = true.
Proof. ev_lia. Qed.

Lemma last_max {A} (ver : A -> eversion_t) l a x : ascending ver l -> list.last l = Some x -> a ∈ l -> ev_le (ver a) (ver x) = true.
Proof.
  intros Hl Hx Ha. apply last_Some in Hx as [l0 ->]. apply StronglySorted_app in Hl as (Hlt & _).
  apply elem_of_app in Ha as [Ha | ->%list_elem_of_singleton]; [| ev_lia].
  specialize (Hlt a x Ha ltac:(by apply list_elem_of_singleton)). cbn in Hlt. ev_lia.
Qed.

Lemma first_min {A} (ver : A -> eversion_t) x l a : ascending ver (x :: l) -> a ∈ x :: l -> ev_le (ver x) (ver a) = true.
Proof.
  intros Hl. inversion_clear Hl as [| ? ? _ Hx]. rewrite Forall_forall in Hx. intros [-> | Ha]%elem_of_cons; [ev_lia |]. apply Hx in Ha. ev_lia.
Qed.

Lemma ascending_app {A} (ver : A -> eversion_t) l1 l2 : ascending ver (l1 ++ l2) <->
  (forall a b, a ∈ l1 -> b ∈ l2 -> ev_lt (ver a) (ver b) = true) /\ ascending ver l1 /\ ascending ver l2.
Proof. apply StronglySorted_app. Qed.

Lemma passed_ascending t L : ascending e_version L -> ascending e_version (passed t L).
Proof.
  induction 1 as [| e L HL IH He]; cbn [passed]; [constructor |]. destruct (ev_lt t (e_version e)); constructor; [done |].
  rewrite Forall_forall in *. intros x [Hx _]%elem_passed. by apply He.
Qed.

Lemma extend_tail_synced k olog p : ascending e_version (o_log olog) -> synced k p -> synced k (extend_tail olog p).
Proof.
  intros Ha Hs. unfold extend_tail. set (old := passed (tail (plog p)) (o_log olog)).
  set (v := match list.last old with Some e => e_version e | None => ev_zero end).
  destruct (mark_to_ok v (dirt p)) as ([H1 H2] & E1 & E2 & E3 & E4). apply synced_entries with (p := p); try done. rewrite E1, E2, E3.
  apply covered_change with (l := log (plog p)).
  - apply covered_marks with (1 := sy_log _ _ Hs); [done | apply ev_le_refl..].
  - intros e [He | He]%elem_of_app; [right; left | by left].
    assert (ascending e_version old) as Hold by (by apply passed_ascending).
    destruct (list.last old) as [x |] eqn:El; [| apply last_None in El; rewrite El in He; by apply elem_of_nil in He].
    pose proof (last_max _ _ _ _ Hold El He). unfold v in *. ev_lia.
  - intros e He. left. apply elem_of_app. by right.
Qed.

(** Entries above a mark come and go. *)
Lemma synced_from k p m' l' v K D N : synced k p -> tracks (missing p) m' -> log (plog p) = K ++ D -> log l' = K ++ N -> dups l' = dups (plog p) ->
  (forall e, e ∈ D -> ev_le v (e_version e) = true) -> (forall e, e ∈ N -> ev_le v (e_version e) = true) ->
  synced k (PGL m' l' (mark_dirty_from v (dirt p))).
Proof.
  intros Hs Ht El El' Ed HD HN. destruct (mark_from_ok v (dirt p)) as ([H1 H2] & E1 & E2 & E3 & E4).
  apply synced_entries with (p := p); try done. rewrite E1, E2, E3, El'.
  apply covered_change with (l := log (plog p)).
  - apply covered_marks with (1 := sy_log _ _ Hs); [apply ev_le_refl | done | apply ev_le_refl].
  - intros e [He | He]%elem_of_app; [left; rewrite El; apply elem_of_app; by left | do 2 right; left].
    specialize (HN e He). ev_lia.
  - rewrite El. intros e [He | He]%elem_of_app; [left; apply elem_of_app; by left | do 2 right]. specialize (HD e He). ev_lia.
Qed.

Section Steps.
Context {S : Type} `{LogEntryHandler S}.
Implicit Types (s : S).

Lemma rewind_rest v info p s p' info' s' : rewind_divergent_log v info p s = Some (p', info', s') ->
  tracks (missing p) (missing p') /\ dups (plog p') = dups (plog p).
Proof.
  unfold rewind_divergent_log. destruct (rewind_from_head v (plog p)) as [[l D] |] eqn:E; [| done]. cbn [mbind option_bind].
  destruct (_merge_divergent_entries l D _ _ _ s) as [[m s1] |] eqn:Em; [| done]. intros [= <- _ _].
  apply merge_each_tracks in Em. by apply rewind_split in E as (_ & Ed & _).
Qed.

Lemma rewind_synced k v info p s p' info' s' : ascending e_version (log (plog p)) -> rewind_divergent_log v info p s = Some (p', info', s') ->
  synced k p -> synced k p'.
Proof.
  intros Ha. unfold rewind_divergent_log. destruct (rewind_from_head v (plog p)) as [[l D] |] eqn:E; [| done]. cbn [mbind option_bind].
  destruct (_merge_divergent_entries l D _ _ _ s) as [[m s1] |] eqn:Em; [| done]. intros [= <- _ _] Hs.
  apply merge_each_tracks in Em. apply rewind_split in E as (El & Ed & _ & _). rewrite El in Ha. apply ascending_app in Ha as (_ & _ & HaD).
  destruct D as [| d D].
  - apply synced_entries with (p := p); try done. rewrite app_nil_r in El. rewrite <- El. apply Hs.
  - apply (synced_from k p m l (e_version d) (log l) (d :: D) []); try done; [by rewrite app_nil_r | | by intros e ?%elem_of_nil].
    intros e He. by eapply first_min.
Qed.

Lemma extend_head_synced k oinfo o_head o_tail orig_tail entries info p s p' info' s' :
  extend_head oinfo o_head o_tail orig_tail entries info p s = Some (p', info', s') -> synced k p -> synced k p'.
Proof.
  unfold extend_head. destruct (find_start _ _ _) as [N found]. set (lb := match found with Some w => _ | None => _ end).
  destruct (rewind_from_head lb (plog p)) as [[l D] |] eqn:E; [| done]. cbn [mbind option_bind].
  unfold roll_forward_to, advance_can_rollback_to. set (l1 := Log _ _ _ _ _ _ _ _).
  destruct (append_log_entries_update_missing _ N false l1 _ _) as [[[l2 m2] s2] |] eqn:Ea; [| done]. cbn [mbind option_bind].
  destruct (_merge_divergent_entries l2 D _ _ _ s2) as [[m3 s3] |] eqn:Em; [| done]. intros [= <- _ _] Hs.
  apply merge_each_tracks in Em. apply append_entries_log in Ea as (Ht & El2 & Ed2 & _ & _ & HN). apply rewind_split in E as (El & Ed & Eh & HD). cbn in El2, Ed2, HN.
  apply (synced_from k p m3 _ lb (log l) D N); try done.
  - by etrans.
  - cbn. by rewrite Ed2.
  - intros e He. specialize (HD e He). ev_lia.
  - intros e He. specialize (HN e He). rewrite Eh in HN. ev_lia.
Qed.

Lemma extend_head_rest oinfo o_head o_tail orig_tail entries info p s p' info' s' :
  extend_head oinfo o_head o_tail orig_tail entries info p s = Some (p', info', s') ->
  tracks (missing p) (missing p') /\ dups (plog p') = dups (plog p).
Proof.
  unfold extend_head. destruct (find_start _ _ _) as [N found]. set (lb := match found with Some w => _ | None => _ end).
  destruct (rewind_from_head lb (plog p)) as [[l D] |] eqn:E; [| done]. cbn [mbind option_bind].
  unfold roll_forward_to, advance_can_rollback_to. set (l1 := Log _ _ _ _ _ _ _ _).
  destruct (append_log_entries_update_missing _ N false l1 _ _) as [[[l2 m2] s2] |] eqn:Ea; [| done]. cbn [mbind option_bind].
  destruct (_merge_divergent_entries l2 D _ _ _ s2) as [[m3 s3] |] eqn:Em; [| done]. intros [= <- _ _].
  apply merge_each_tracks in Em. apply append_entries_log in Ea as (Ht & _ & Ed2 & _). apply rewind_split in E as (_ & Ed & _). cbn in *.
  split; [by etrans | by rewrite Ed2].
Qed.

Lemma merge_heads_rest oinfo olog orig_tail entries info p s p' info' s' c :
  merge_heads oinfo olog orig_tail entries info p s = Some (p', info', s', c) -> tracks (missing p) (missing p') /\ dups (plog p') = dups (plog p).
Proof.
  unfold merge_heads. destruct (if ev_lt (o_head olog) _ then _ else _) as [[[p1 info1] s1] |] eqn:E1; [| done]. cbn [mbind option_bind].
  destruct (if ev_lt (head (plog p1)) _ then _ else _) as [[[p2 info2] s2] |] eqn:E2; [| done]. intros [= <- _ _ _].
  assert (tracks (missing p) (missing p1) /\ dups (plog p1) = dups (plog p)) as [Ht1 Ed1].
  { destruct (ev_lt (o_head olog) _); [by eapply rewind_rest | by injection E1 as <- _ _]. }
  assert (tracks (missing p1) (missing p2) /\ dups (plog p2) = dups (plog p1)) as [Ht2 Ed2].
  { destruct (ev_lt (head (plog p1)) _); [by eapply extend_head_rest | by injection E2 as <- _ _]. }
  split; [by etrans | congruence].
Qed.

Lemma merge_heads_synced k oinfo olog orig_tail entries info p s p' info' s' c : ascending e_version (log (plog p)) ->
  merge_heads oinfo olog orig_tail entries info p s = Some (p', info', s', c) -> synced k p -> synced k p'.
Proof.
  intros Ha. unfold merge_heads. destruct (if ev_lt (o_head olog) _ then _ else _) as [[[p1 info1] s1] |] eqn:E1; [| done]. cbn [mbind option_bind].
  destruct (if ev_lt (head (plog p1)) _ then _ else _) as [[[p2 info2] s2] |] eqn:E2; [| done]. intros [= <- _ _ _] Hs.
  assert (synced k p1) as Hs1 by (destruct (ev_lt (o_head olog) _); [by eapply rewind_synced | by injection E1 as <- _ _]).
  destruct (ev_lt (head (plog p1)) _); [by eapply extend_head_synced | by injection E2 as <- _ _].
Qed.
End Steps.

(** ** The requests *)

Definition other_marks (d : dirty_marks) := (dirty_to d, dirty_from d, writeout_from d, trimmed d, may_include_deletes_in_missing_dirty d).

Definition dups_covered (d : dirty_marks) (ds : list pg_log_dup_t) (m : gmap eversion_t pg_log_dup_t) : Prop :=
  covered d_version (dirty_to_dups d) (dirty_from_dups d) (write_from_dups d) (trimmed_dups d) ds m.

(** One part of [merge_log_dups]: the requests [ds'] are requests of [ds] or of
    the other log, still in order, and what changed is marked. *)
Record dups_merged (odups ds : list pg_log_dup_t) (d : dirty_marks) (ds' : list pg_log_dup_t) (d' : dirty_marks) : Prop := {
  dm_order : ascending d_version ds';
  dm_from x : x ∈ ds' -> x ∈ ds \/ x ∈ odups;
  dm_covered m : dups_covered d ds m -> dups_covered d' ds' m;
  dm_other : other_marks d' = other_marks d
}.

Lemma dups_merged_refl odups ds d : ascending d_version ds -> dups_merged odups ds d ds d.
Proof. by split; auto. Qed.

Lemma dups_merged_trans odups ds d ds1 d1 ds2 d2 : dups_merged odups ds d ds1 d1 -> dups_merged odups ds1 d1 ds2 d2 -> dups_merged odups ds d ds2 d2.
Proof.
  intros [H1 H2 H3 H4] [H5 H6 H7 H8]. split; [done | | auto | congruence]. intros x [Hx |]%H6; [by apply H2 | by right].
Qed.

Lemma mark_to_dups_ok v d : let d' := mark_dirty_to_dups v d in
  ev_le (dirty_to_dups d) (dirty_to_dups d') = true /\ ev_le v (dirty_to_dups d') = true /\ dirty_from_dups d' = dirty_from_dups d /\
  write_from_dups d' = write_from_dups d /\ trimmed_dups d' = trimmed_dups d /\ other_marks d' = other_marks d.
Proof. unfold mark_dirty_to_dups. destruct (ev_lt (dirty_to_dups d) v) eqn:E; cbn [set_dirty_dups dirty_to_dups]; split_and!; try done; ev_lia. Qed.
Lemma mark_from_dups_ok v d : let d' := mark_dirty_from_dups v d in
  ev_le (dirty_from_dups d') (dirty_from_dups d) = true /\ ev_le (dirty_from_dups d') v = true /\ dirty_to_dups d' = dirty_to_dups d /\
  write_from_dups d' = write_from_dups d /\ trimmed_dups d' = trimmed_dups d /\ other_marks d' = other_marks d.
Proof. unfold mark_dirty_from_dups. destruct (ev_lt v (dirty_from_dups d)) eqn:E; cbn [set_dirty_dups dirty_from_dups]; split_and!; try done; ev_lia. Qed.

(** Requests from [v] on come and go. *)
Lemma dups_mark_from v d a b ds' m : (forall x, x ∈ b -> ev_le v (d_version x) = true) -> (forall x, x ∈ ds' -> x ∈ a \/ ev_le v (d_version x) = true) ->
  (forall x, x ∈ a -> x ∈ ds') -> dups_covered d (a ++ b) m -> dups_covered (mark_dirty_from_dups v d) ds' m.
Proof.
  intros Hb Hnew Hold Hc. destruct (mark_from_dups_ok v d) as (H1 & H2 & E1 & E2 & E3 & _). unfold dups_covered in *. rewrite E1, E2, E3.
  apply covered_change with (l := a ++ b).
  - apply covered_marks with (1 := Hc); [apply ev_le_refl | done | apply ev_le_refl].
  - intros x [Hx | Hx]%Hnew; [left; apply elem_of_app; by left | do 2 right; left; ev_lia].
  - intros x [Hx | Hx]%elem_of_app; [left; auto | do 2 right]. specialize (Hb x Hx). ev_lia.
Qed.

(** An ascending list, cut at a version. *)
Lemma ascending_cut {A} (ver : A -> eversion_t) v l : ascending ver l -> exists a b, l = a ++ b /\
  (forall x, x ∈ a -> ev_le (ver x) v = true) /\ (forall x, x ∈ b -> ev_lt v (ver x) = true).
Proof.
  induction 1 as [| x l Hl (a & b & -> & Ha & Hb) Hx]; [exists [], []; split_and!; try done; by intros x ?%elem_of_nil |].
  destruct (ev_lt v (ver x)) eqn:E.
  - exists [], (x :: a ++ b). split_and!; [done | by intros y ?%elem_of_nil |]. rewrite Forall_forall in Hx.
    intros y [-> | Hy]%elem_of_cons; [done |]. apply Hx in Hy. ev_lia.
  - exists (x :: a), b. split_and!; [done | | done]. intros y [-> | Hy]%elem_of_cons; [ev_lia | auto].
Qed.

Lemma newer_dups_ok v a b acc : (forall x, x ∈ a -> ev_le (d_version x) v = true) -> (forall x, x ∈ b -> ev_lt v (d_version x) = true) ->
  newer_dups v (reverse (a ++ b)) acc = b ++ acc.
Proof.
  intros Ha. revert acc. induction b as [| x b IH] using rev_ind; intros acc Hb.
  - rewrite app_nil_r. destruct a as [| y a _] using rev_ind; [done |]. rewrite reverse_snoc. cbn [newer_dups].
    by rewrite Ha by (apply elem_of_app; right; by apply list_elem_of_singleton).
  - rewrite app_assoc, reverse_snoc. cbn [newer_dups]. specialize (Hb x ltac:(apply elem_of_app; right; by apply list_elem_of_singleton)) as Hx.
    assert (ev_le (d_version x) v = false) as -> by ev_lia. rewrite IH; [by rewrite <- app_assoc |]. intros y Hy. apply Hb, elem_of_app. by left.
Qed.

Lemma pop_dups_ok v a b d m : (forall x, x ∈ a -> ev_le (d_version x) v = true) -> (forall x, x ∈ b -> ev_lt v (d_version x) = true) ->
  exists d', pop_dups v (reverse (a ++ b)) d = (a, d') /\ (dups_covered d (a ++ b) m -> dups_covered d' a m) /\ other_marks d' = other_marks d.
Proof.
  intros Ha. revert d. induction b as [| x b IH] using rev_ind; intros d Hb.
  - exists d. rewrite app_nil_r. split; [| done]. destruct a as [| y a _] using rev_ind; [done |]. rewrite reverse_snoc. cbn [pop_dups].
    assert (ev_lt v (d_version y) = false) as -> by (specialize (Ha y ltac:(apply elem_of_app; right; by apply list_elem_of_singleton)); ev_lia).
    by rewrite <- reverse_snoc, reverse_involutive.
  - rewrite app_assoc, reverse_snoc. cbn [pop_dups]. rewrite Hb by (apply elem_of_app; right; by apply list_elem_of_singleton).
    destruct (IH (mark_dirty_from_dups (d_version x) d)) as (d' & -> & Hc & Eo); [intros y Hy; apply Hb, elem_of_app; by left |].
    exists d'. split; [done |]. split; [| rewrite Eo; apply (mark_from_dups_ok (d_version x) d)]. intros Hcov. apply Hc.
    eapply (dups_mark_from (d_version x) d (a ++ b) [x]); [| | | exact Hcov]; auto. intros y ->%list_elem_of_singleton. apply ev_le_refl.
Qed.

Lemma extend_newer_ok odups ds d : ascending d_version odups -> ascending d_version ds ->
  let '(ds', d', _) := extend_dups_newer odups ds d in dups_merged odups ds d ds' d'.
Proof.
  intros Ho Hd. unfold extend_dups_newer. destruct (list.last odups) as [o |] eqn:Elo; [| by apply dups_merged_refl].
  destruct (list.last ds) as [x |] eqn:El; [| by apply dups_merged_refl]. destruct (ev_lt (d_version x) (d_version o)); [| by apply dups_merged_refl].
  destruct (ascending_cut d_version (d_version x) odups Ho) as (a & b & -> & Ha & Hb). rewrite newer_dups_ok, app_nil_r by done.
  apply ascending_app in Ho as (_ & _ & Hob). split.
  - apply ascending_app. split_and!; [| done | done]. intros y z Hy Hz. pose proof (last_max _ _ _ _ Hd El Hy). specialize (Hb z Hz). ev_lia.
  - intros y [Hy | Hy]%elem_of_app; [by left | right; apply elem_of_app; by right].
  - intros m Hc. destruct b as [| z b].
    + rewrite app_nil_r. eapply (dups_mark_from _ d ds []); [by intros y ?%elem_of_nil | auto | auto | by rewrite app_nil_r].
    + eapply (dups_mark_from _ d ds []); [by intros y ?%elem_of_nil | | | by rewrite app_nil_r].
      * intros y [Hy | Hy]%elem_of_app; [by left | right]. by eapply first_min.
      * intros y Hy. apply elem_of_app. by left.
  - destruct b; apply mark_from_dups_ok.
Qed.

Lemma older_dups_sub v l x : x ∈ older_dups v l -> x ∈ l /\ ev_lt (d_version x) v = true.
Proof.
  induction l as [| y l IH]; cbn [older_dups]; [by intros ?%elem_of_nil |]. destruct (ev_le v (d_version y)) eqn:E; [by intros ?%elem_of_nil |].
  intros [-> | [? ?]%IH]%elem_of_cons; [split; [left | ev_lia] | split; [by right | done]].
Qed.

Lemma older_dups_ascending v l : ascending d_version l -> ascending d_version (older_dups v l).
Proof.
  induction 1 as [| y l Hl IH Hy]; cbn [older_dups]; [constructor |]. destruct (ev_le v (d_version y)); constructor; [done |].
  rewrite Forall_forall in *. intros x [Hx _]%older_dups_sub. by apply Hy.
Qed.

Lemma extend_older_ok odups ds d : ascending d_version odups -> ascending d_version ds ->
  let '(ds', d', _) := extend_dups_older odups ds d in dups_merged odups ds d ds' d'.
Proof.
  intros Ho Hd. unfold extend_dups_older. destruct odups as [| o odups]; [by apply dups_merged_refl |].
  destruct ds as [| x ds]; [by apply dups_merged_refl |]. destruct (ev_lt (d_version o) (d_version x)); [| by apply dups_merged_refl].
  set (old := older_dups (d_version x) (o :: odups)). assert (ascending d_version old) as Hold by (by apply older_dups_ascending).
  set (v := match list.last old with Some e => d_version e | None => ev_zero end). destruct (mark_to_dups_ok v d) as (H1 & H2 & E1 & E2 & E3 & E4).
  split.
  - apply ascending_app. split_and!; [| done | done]. intros y z [_ Hy]%older_dups_sub Hz. pose proof (first_min _ _ _ _ Hd Hz). ev_lia.
  - intros y [[Hy _]%older_dups_sub | Hy]%elem_of_app; [by right | by left].
  - intros m Hc. unfold dups_covered in *. rewrite E1, E2, E3. apply covered_change with (l := x :: ds).
    + apply covered_marks with (1 := Hc); [done | apply ev_le_refl..].
    + intros y [Hy | Hy]%elem_of_app; [right; left | by left].
      destruct (list.last old) as [z |] eqn:El; [| apply last_None in El; rewrite El in Hy; by apply elem_of_nil in Hy].
      pose proof (last_max _ _ _ _ Hold El Hy). unfold v in *. ev_lia.
    + intros y Hy. left. apply elem_of_app. by right.
  - done.
Qed.

(** All requests of the other log, when there are none here. *)
Lemma copy_dups_ok odups d m : (forall x, x ∈ odups -> valid (d_version x)) -> dups_covered d [] m -> dups_covered (set_dirty_dups ev_max ev_zero d) odups m.
Proof.
  intros Hv [_ _ Hk]. split; cbn; [| | done].
  - intros x Hx. left. destruct (Hv x Hx). ev_lia.
  - intros v b Hb. destruct (Hk v b Hb). tauto.
Qed.

Lemma merge_dups_sane odups p : ascending d_version odups -> (forall x, x ∈ odups -> valid (d_version x)) -> ascending d_version (dups (plog p)) ->
  let p' := fst (merge_log_dups odups p) in
  ascending d_version (dups (plog p')) /\ (forall x, x ∈ dups (plog p') -> ev_le (d_version x) (tail (plog p)) = true /\ (x ∈ dups (plog p) \/ x ∈ odups)) /\
  (forall m, dups_covered (dirt p) (dups (plog p)) m -> dups_covered (dirt p') (dups (plog p')) m) /\ other_marks (dirt p') = other_marks (dirt p).
Proof.
  intros Ho Hv Hd. unfold merge_log_dups. set (r := match odups with [] => _ | _ => _ end).
  assert (let '(ds, d, _) := r in dups_merged odups (dups (plog p)) (dirt p) ds d) as Hr.
  { unfold r. destruct odups as [| o odups]; [by apply dups_merged_refl |]. destruct (dups (plog p)) as [| x ds] eqn:Ed.
    - split; [done | by right | intros m; by apply copy_dups_ok | done].
    - pose proof (extend_newer_ok (o :: odups) (x :: ds) (dirt p) Ho Hd) as H1. destruct (extend_dups_newer _ _ _) as [[ds1 d1] c1].
      pose proof (extend_older_ok (o :: odups) ds1 d1 Ho (dm_order _ _ _ _ _ H1)) as H2. destruct (extend_dups_older _ _ _) as [[ds2 d2] c2].
      by eapply dups_merged_trans. }
  destruct r as [[ds d] c]. destruct Hr as [Hds Hfrom Hcov Hother].
  destruct (ascending_cut d_version (tail (plog p)) ds Hds) as (a & b & -> & Ha & Hb).
  assert (exists d', (if match list.last (a ++ b) with Some x => ev_lt (tail (plog p)) (d_version x) | None => false end
      then pop_dups (tail (plog p)) (reverse (a ++ b)) d else (a ++ b, d)) = (a, d') /\
    (forall m, dups_covered d (a ++ b) m -> dups_covered d' a m) /\ other_marks d' = other_marks d) as (d' & E & Hc' & Eo').
  { destruct b as [| z b _] using rev_ind.
    - exists d. rewrite app_nil_r. split; [| done]. destruct (list.last a) as [x |] eqn:El; [| done].
      assert (ev_lt (tail (plog p)) (d_version x) = false) as -> by (apply last_Some_elem_of, Ha in El; ev_lia). done.
    - rewrite app_assoc, last_snoc, Hb, <- app_assoc by (apply elem_of_app; right; by apply list_elem_of_singleton).
      destruct (pop_dups_ok (tail (plog p)) a (b ++ [z]) d ∅ Ha Hb) as (d' & E & _ & Eo). exists d'. split; [done |]. split; [| done].
      intros m. destruct (pop_dups_ok (tail (plog p)) a (b ++ [z]) d m Ha Hb) as (d2 & E2 & Hm & _). rewrite E in E2. by injection E2 as <-. }
  rewrite E. cbn [fst plog dirt set_dups dups]. apply ascending_app in Hds as (_ & HaA & _). split_and!.
  - done.
  - intros x Hx. split; [auto |]. apply Hfrom, elem_of_app. by left.
  - intros m Hm. apply Hc', Hcov, Hm.
  - congruence.
Qed.

(** ** Every operation *)

Section Operations.
Context {S : Type} `{HandlerLaws S}.
Implicit Types (s : S).

(** A log as it is sent. *)
Record olog_sane (olog : pg_log_t) : Prop := {
  os_entry e : e ∈ o_log olog -> valid (e_version e) /\ extra_reqids e = [];
  os_order : ascending d_version (o_dups olog);
  os_dup d : d ∈ o_dups olog -> valid (d_version d)
}.

Lemma merge_log_step k P D N v oinfo olog info p s p' info' s' c :
  diverged P D N (plog p) olog v -> pg_ok (P ++ D) info p s -> undoable D (last_backfill info) (can_rollback_to (plog p)) (missing p) s ->
  olog_sane olog -> log_sane p -> synced k p -> merge_log oinfo olog info p s = Some (p', info', s', c) -> log_sane p' /\ synced k p'.
Proof.
  intros Hdv Hpg Hun [Hoe Hoo Hod] [Htail Ho Hentry Hdo Hdup Hdel] Hs Hrun.
  destruct (merge_log_ok P D N v oinfo olog info p s Hdv Hpg Hun) as (p2 & info2 & s2 & c2 & Hrun2 & [Hlo _ _ _ _] & Hhd & Htl & _).
  rewrite Hrun in Hrun2. injection Hrun2 as <- <- <- <-. revert Hrun. unfold merge_log.
  destruct (bool_decide _ && _); [done |]. destruct (negb _); [done |].
  destruct (extend_tail_ok P D N p olog v (po_log _ _ _ _ Hpg) Hdv) as (El & _ & _ & _ & _ & _).
  set (longer := ev_lt (o_tail olog) (tail (plog p))) in *. set (p1 := if longer then extend_tail olog p else p) in *.
  pose proof (history_in_order _ (dv_theirs _ _ _ _ _ _ Hdv)) as HoN. pose proof (history_in_order _ (dv_ours _ _ _ _ _ _ Hdv)) as HoD.
  assert (synced k p1) as Hs1.
  { unfold p1. destruct longer; [| done]. apply extend_tail_synced; [| done]. rewrite (dv_olog _ _ _ _ _ _ Hdv). by apply in_order_ascending, in_order_filter. }
  assert (missing p1 = missing p /\ dups (plog p1) = dups (plog p)) as [Em1 Ed1] by (unfold p1; by destruct longer).
  destruct (merge_heads oinfo olog _ _ _ p1 s) as [[[[p3 info3] s3] c3] |] eqn:E; [| done]. cbn [mbind option_bind].
  destruct (merge_heads_rest _ _ _ _ _ _ _ _ _ _ _ E) as [Ht Ed3].
  assert (ascending e_version (log (plog p1))) as Hasc.
  { rewrite El. apply in_order_ascending. apply in_order_app in HoD as (HPD & HoP & HoD). apply in_order_app. split_and!; [| by apply in_order_filter | done].
    intros x y [_ Hx]%elem_since Hy. auto. }
  pose proof (merge_heads_synced k _ _ _ _ _ _ _ _ _ _ _ Hasc E Hs1) as Hs3.
  intros Hrun. assert (p' = fst (merge_log_dups (o_dups olog) p3)) as -> by (destruct (merge_log_dups (o_dups olog) p3); by injection Hrun as <- _ _ _).
  destruct (merge_dups_same (o_dups olog) p3) as (Em & _ & Et & Elg & _).
  destruct (merge_dups_sane (o_dups olog) p3 Hoo Hod) as (Hd1 & Hd2 & Hd3 & Hd4); [by rewrite Ed3, Ed1 |].
  set (p' := fst (merge_log_dups (o_dups olog) p3)) in *. split.
  - split.
    + apply Hlo.
    + rewrite (lo_log _ _ Hlo). by apply in_order_filter.
    + intros e He. rewrite (lo_log _ _ Hlo) in He. pose proof He as [Hlt _]%elem_since. rewrite Htl in He.
      assert (e ∈ log (plog p) \/ e ∈ o_log olog) as [He' | He'].
      { apply elem_since in He as [He HPN]. rewrite (lo_log _ _ (po_log _ _ _ _ Hpg)), (dv_olog _ _ _ _ _ _ Hdv), !elem_since. unfold ev_min in He.
        destruct (ev_lt (o_tail olog) (tail (plog p))); [by right |]. apply elem_of_app in HPN as [HP | HN].
        - left. split; [done |]. apply elem_of_app. by left.
        - right. split; [| apply elem_of_app; by right]. destruct (dv_tails _ _ _ _ _ _ Hdv) as [_ Hot].
          pose proof (dv_part _ _ _ _ _ _ Hdv e ltac:(apply elem_of_app; by right)). ev_lia. }
      * destruct (Hentry e He') as (? & _ & ?). done.
      * by destruct (Hoe e He').
    + done.
    + intros x Hx. destruct (Hd2 x Hx) as [Hle [Hin | Hin]]; (split; [| by rewrite Et]); [| auto]. rewrite Ed3, Ed1 in Hin. by apply Hdup.
    + rewrite Em. apply Ht. by rewrite Em1.
  - destruct Hs3 as [Hs3 Hs4 Hs5 Hs6]. injection Hd4 as E1 E2 E3 E4 E5. split; rewrite ?Em, ?Elg, ?E1, ?E2, ?E3, ?E4, ?E5; try done. by apply Hd3.
Qed.

Lemma append_step k bound es p s p' s' : in_order (log (plog p) ++ es) -> (forall e, e ∈ es -> valid (e_version e) /\ extra_reqids e = []) ->
  log_sane p -> synced k p -> append_new_log_entries bound es p s = Some (p', s') -> log_sane p' /\ synced k p'.
Proof.
  intros Ho Hes [Htail _ Hentry Hdo Hdup Hdel] Hs. unfold append_new_log_entries.
  destruct (append_log_entries_update_missing _ _ _ _ _ _) as [[[l m] s1] |] eqn:E; [| done]. cbn [mbind option_bind]. intros [= <- <-].
  apply append_entries_log in E as (Ht & El & Ed & Etl & Hhd & Hn). split.
  - split; cbn [plog missing]; rewrite ?El, ?Ed, ?Etl; try done; [ev_lia | | by apply Ht].
    intros e [He | He]%elem_of_app; [auto |]. specialize (Hn e He). destruct (Hes e He). split_and!; try done. ev_lia.
  - destruct es as [| e es]; [apply synced_entries with (p := p); try done; rewrite El, app_nil_r; apply Hs |].
    destruct (mark_writeout_ok (e_version e) (dirt p)) as ([H1 H2] & E1 & E2 & E3 & E4). apply synced_entries with (p := p); try done.
    rewrite E1, E2, E3, El. apply covered_change with (l := log (plog p)).
    + apply covered_marks with (1 := sy_log _ _ Hs); [apply ev_le_refl.. | done].
    + intros x [Hx | Hx]%elem_of_app; [by left | do 3 right]. apply in_order_app in Ho as (_ & _ & Ho%in_order_ascending).
      pose proof (first_min _ _ _ _ Ho Hx). ev_lia.
    + intros x Hx. left. apply elem_of_app. by left.
Qed.

Lemma rewind_step k v info p s p' info' s' : log_sane p -> synced k p -> rewind_divergent_log v info p s = Some (p', info', s') ->
  log_sane p' /\ synced k p'.
Proof.
  intros [Htail Ho Hentry Hdo Hdup Hdel] Hs E. split; [| by eapply rewind_synced; [apply in_order_ascending | |]].
  destruct (rewind_rest _ _ _ _ _ _ _ E) as [Ht Ed].
  assert (exists D, log (plog p) = log (plog p') ++ D /\ tail (plog p') = tail (plog p) /\ ev_le (tail (plog p)) (head (plog p')) = true) as (D & El & Etl & Hhd).
  { revert E. unfold rewind_divergent_log. destruct (rewind_from_head v (plog p)) as [[l D] |] eqn:E; [| done]. cbn [mbind option_bind].
    destruct (_merge_divergent_entries l D _ _ _ s) as [[m s1] |]; [| done]. intros [= <- _ _]. exists D. cbn [plog].
    pose proof E as (El & _ & Eh & _)%rewind_split. split; [done |]. rewrite Eh. revert E. unfold rewind_from_head.
    destruct (ev_lt v (tail (plog p))) eqn:Ev; [done |]. destruct (rewind_scan v _ _) as [[K E] |]; [| done]. cbn. intros [= <- _]. cbn. split; [done | ev_lia]. }
  rewrite El in Ho. apply in_order_app in Ho as (_ & Ho & _). split; rewrite ?Etl, ?Ed; try done; [| by apply Ht].
  intros e He. apply Hentry. rewrite El. apply elem_of_app. by left.
Qed.
End Operations.

(** ** Trimming *)

(** Elements leave the list and their versions are removed. *)
Lemma covered_remove {A} (ver : A -> eversion_t) to from w r r' a b m : distinct ver (a ++ b) -> covered ver to from w r (a ++ b) m ->
  (forall v, v ∈ r' <-> v ∈ r \/ exists x, x ∈ a /\ ver x = v) -> (forall x y, x ∈ a -> y ∈ b -> ver x <> ver y) -> covered ver to from w r' b m.
Proof.
  intros Hd [Hn Ho Hk] Hr Hab. split; [| | done].
  - intros x Hx. destruct (Hn x) as [? | [? | [? | [? Hnr]]]]; [apply elem_of_app; by right | tauto.. |].
    do 3 right. split; [done |]. rewrite Hr. intros [? | (y & Hy & E)]; [done | by apply (Hab y x)].
  - intros v c Hc. rewrite Hr. destruct (Ho v c Hc) as [(x & [Hx | Hx]%elem_of_app & <-) | [? | ?]]; [| | tauto | tauto].
    + right. left. right. eauto.
    + left. eauto.
Qed.

Lemma ascending_apart {A} (ver : A -> eversion_t) a b : ascending ver (a ++ b) -> forall x y, x ∈ a -> y ∈ b -> ver x <> ver y.
Proof. intros (Hlt & _)%ascending_app x y Hx Hy E. specialize (Hlt x y Hx Hy). rewrite E in Hlt. ev_lia. Qed.

(** What trimming the entries [es] at the tail does. *)
Record trims (es : list pg_log_entry_t) (l : IndexedLog) (d : dirty_marks) (l' : IndexedLog) (d' : dirty_marks) : Prop := {
  ts_fields : head l' = head l /\ tail l' = tail l;
  ts_dups : exists new, dups l' = dups l ++ new /\ (forall x, x ∈ new -> exists e, e ∈ es /\ d_version x = e_version e /\
      ev_le (write_from_dups d') (d_version x) = true) /\ ascending d_version new;
  ts_trimmed v : v ∈ trimmed d' <-> v ∈ trimmed d \/ exists e, e ∈ es /\ e_version e = v;
  ts_write : ev_le (write_from_dups d') (write_from_dups d) = true;
  ts_marks : (dirty_to d', dirty_from d', writeout_from d', may_include_deletes_in_missing_dirty d') =
             (dirty_to d, dirty_from d, writeout_from d, may_include_deletes_in_missing_dirty d);
  ts_dmarks : (dirty_to_dups d', dirty_from_dups d', trimmed_dups d') = (dirty_to_dups d, dirty_from_dups d, trimmed_dups d)
}.

Lemma trim_entries_ok v es rest l d : log l = es ++ rest -> in_order es -> (forall e, e ∈ es -> extra_reqids e = []) ->
  let '(l', d') := trim_entries v es l d in log l' = rest /\ trims es l d l' d'.
Proof.
  intros El Ho. revert l d El. induction Ho as [| e es Ho IH He]; intros l d El Hex; cbn [trim_entries].
  - split; [done |]. split; try done; [| | ev_lia].
    + exists []. rewrite app_nil_r. split_and!; try done; [by intros x ?%elem_of_nil | constructor].
    + intros w. split; [tauto |]. intros [? | (x & ?%elem_of_nil & _)]; done.
  - destruct (trim_entry v e l d) as [l1 d1] eqn:E1. specialize (IH l1 d1).
    assert (log l1 = es ++ rest) as El1 by (unfold trim_entry in E1; injection E1 as <- <-; cbn; by rewrite El).
    specialize (IH El1 ltac:(intros x Hx; apply Hex; by right)). destruct (trim_entries v es l1 d1) as [l2 d2]. destruct IH as [E2 [[Hh Ht] (new & Hd & Hnew & Hasc) Htr Hw Hm Hdm]].
    unfold trim_entry in E1. injection E1 as <- <-. cbn in *. split; [done |].
    assert (dups_of_entry e = [dup_of_entry e]) as Edup by (unfold dups_of_entry; by rewrite Hex by left). rewrite Edup in Hd.
    set (c := v <=? version (e_version e)) in *. rewrite Forall_forall in He. split; try done.
    + destruct c; cbn [andb] in *.
      * exists (dup_of_entry e :: new). split_and!; [by rewrite Hd, <- app_assoc | |].
        -- intros x [-> | Hx]%elem_of_cons; [| destruct (Hnew x Hx) as (y & Hy & ?); exists y; split; [by right | done]].
           exists e. split_and!; [left | done |]. cbn. destruct (ev_lt (e_version e) (write_from_dups d)) eqn:Ew; ev_lia.
        -- constructor; [done |]. rewrite Forall_forall. intros x Hx. destruct (Hnew x Hx) as (y & Hy & -> & _). by apply He.
      * exists new. split_and!; [done | | done]. intros x Hx. destruct (Hnew x Hx) as (y & Hy & ?). exists y. split; [by right | done].
    + intros w. rewrite Htr, elem_of_union, elem_of_singleton. split.
      * intros [[-> | ?] | (x & Hx & <-)]; [right; exists e; split; [left | done] | by left | right; exists x; split; [by right | done]].
      * intros [? | (x & [-> | Hx]%elem_of_cons & <-)]; [tauto | tauto | right; eauto].
    + destruct c; cbn [andb] in *; [| done]. destruct (ev_lt (e_version e) (write_from_dups d)) eqn:Ew; ev_lia.
Qed.

Lemma trim_dups_ok max fuel ds ts : exists old, ds = old ++ fst (trim_dups max fuel ds ts) /\
  forall v, v ∈ snd (trim_dups max fuel ds ts) <-> v ∈ ts \/ exists x, x ∈ old /\ d_version x = v.
Proof.
  revert ds ts. induction fuel as [| fuel IH]; intros ds ts; cbn [trim_dups].
  - exists []. split; [done |]. intros v. split; [tauto |]. intros [? | (x & ?%elem_of_nil & _)]; done.
  - destruct ds as [| e ds]; [| destruct (max <? _)%nat].
    + exists []. split; [done |]. intros v. split; [tauto |]. intros [? | (x & ?%elem_of_nil & _)]; done.
    + destruct (IH ds ({[d_version e]} ∪ ts)) as (old & E & Hv). exists (e :: old). split; [by rewrite <- app_comm_cons, <- E |].
      intros v. rewrite Hv, elem_of_union, elem_of_singleton. split.
      * intros [[-> | ?] | (x & Hx & <-)]; [right; exists e; split; [left | done] | by left | right; exists x; split; [by right | done]].
      * intros [? | (x & [-> | Hx]%elem_of_cons & <-)]; [tauto | tauto | right; eauto].
    + exists []. split; [done |]. intros v. split; [tauto |]. intros [? | (x & ?%elem_of_nil & _)]; done.
Qed.

Lemma trim_step k n max to applied async info p p' info' : ev_le to (head (plog p)) = true -> log_sane p -> synced k p ->
  pg_trim n max to applied async info p = Some (p', info') -> log_sane p' /\ synced k p'.
Proof.
  intros Hto [Htail Ho Hentry Hdo Hdup Hdel] [Hs Hsd Hsm Hsdel]. unfold pg_trim. destruct (ev_lt (tail (plog p)) to) eqn:Et; [| by intros [= <- <-]].
  destruct (_ && _); [done |]. unfold log_trim. destruct (negb _); [done |]. destruct (list.last (log (plog p))) as [newest |]; [| done].
  cbn [mbind option_bind]. set (v := if version (e_version newest) <? _ then _ else _).
  pose proof (passed_since to (log (plog p)) Ho) as Ecut. pose proof Ho as Hcut. rewrite Ecut in Hcut. apply in_order_app in Hcut as (Hlt & Hop & Hos).
  pose proof (trim_entries_ok v (passed to (log (plog p))) (since to (log (plog p))) (plog p) (dirt p) Ecut Hop) as Htr.
  specialize (Htr ltac:(intros e [He _]%elem_passed; by apply Hentry)).
  destruct (trim_entries v _ (plog p) (dirt p)) as [l1 d1]. destruct Htr as [El [[Eh Etl] (new & Ed & Hnew & Hasc) Htrim Hw [= M1 M2 M3 M4] [= D1 D2 D3]]].
  destruct (trim_dups_ok n max (dups l1) (trimmed_dups d1)) as (old & Eold & Hts). destruct (trim_dups n max (dups l1) (trimmed_dups d1)) as [ds ts]. cbn [fst snd] in *.
  cbn [mbind option_bind]. rewrite Etl, Et. intros [= <- <-].
  assert (ascending d_version (dups l1)) as Hd1.
  { rewrite Ed. apply ascending_app. split_and!; [| done | done]. intros x y Hx Hy. destruct (Hnew y Hy) as (e & [He _]%elem_passed & -> & _).
    destruct (Hdup x Hx) as [_ ?]. destruct (Hentry e He) as (_ & ? & _). ev_lia. }
  assert (forall x, x ∈ dups l1 -> valid (d_version x) /\ ev_le (d_version x) to = true) as Hval.
  { rewrite Ed. intros x [Hx | Hx]%elem_of_app.
    - destruct (Hdup x Hx). split; [done | ev_lia].
    - destruct (Hnew x Hx) as (e & [He Hle]%elem_passed & -> & _). by destruct (Hentry e He). }
  split.
  - split; cbn [plog missing head tail log dups].
    + by rewrite Eh.
    + by rewrite El.
    + rewrite El. intros e [Hgt He]%elem_since. by destruct (Hentry e He) as (? & _ & ?).
    + rewrite Eold in Hd1. by apply ascending_app in Hd1 as (_ & _ & ?).
    + intros x Hx. apply Hval. rewrite Eold. apply elem_of_app. by right.
    + done.
  - split; cbn [plog missing dirt log dups set_trimmed_dups dirty_to dirty_from writeout_from trimmed dirty_to_dups dirty_from_dups write_from_dups trimmed_dups
                may_include_deletes_in_missing_dirty]; rewrite ?M1, ?M2, ?M3, ?M4, ?D1, ?D2; try done.
    + rewrite El. rewrite Ecut in Hs. eapply covered_remove; [| exact Hs | done |].
      * apply ascending_distinct, in_order_ascending. by rewrite <- Ecut.
      * apply ascending_apart, in_order_ascending. by rewrite <- Ecut.
    + eapply (covered_remove d_version _ _ _ (trimmed_dups (dirt p)) ts old ds).
      * rewrite <- Eold. by apply ascending_distinct.
      * rewrite <- Eold. apply covered_change with (l := dups (plog p)).
        -- apply covered_marks with (1 := Hsd); [apply ev_le_refl | apply ev_le_refl | done].
        -- rewrite Ed. intros x [Hx | Hx]%elem_of_app; [by left | do 3 right]. by destruct (Hnew x Hx) as (? & _ & _ & ?).
        -- rewrite Ed. intros x Hx. left. apply elem_of_app. by left.
      * intros w. by rewrite Hts, D3.
      * apply ascending_apart. by rewrite <- Eold.
Qed.
