(* ===== verification/PgLogRestart.v ===== *)
(** * A group reads back what it wrote

    Whatever sequence of operations a group goes through, its log, the requests
    of trimmed entries and its missing set are the same after they are written,
    the OSD restarts and they are read. *)

From stdpp Require Import gmap sorting relations.
From S2P Require Import Prelude HObject PgLog PgLogSpec PgLogMerge PgLogAppend PgLogThms PgLogReplica PgLogExample PgLogDisk PgLogPersist.

(** ** Reading *)

Lemma read_exact no_shard info k p : stored_exactly k p -> log_sane p -> last_update info = head (plog p) -> log_tail info = tail (plog p) ->
  (no_shard = true -> k_rollback_info_trimmed_to k = None) ->
  exists l m, read_log_and_missing no_shard info k = Some (l, m) /\
    head l = head (plog p) /\ tail l = tail (plog p) /\ log l = log (plog p) /\ dups l = dups (plog p) /\ objects l = index_objects (log l) /\
    items m = items (missing p) /\ may_include_deletes m = may_include_deletes (missing p) /\
    can_rollback_to l = default (head (plog p)) (k_can_rollback_to k).
Proof.
  intros [El Ed Em Edel] [_ Ho Hentry Hdo Hdup Hok] Hu Ht Hns. unfold read_log_and_missing.
  rewrite (omap_values_ok e_version (log (plog p)) (k_log k)) by (by try apply in_order_ascending).
  rewrite (omap_values_ok d_version (dups (plog p)) (k_dups k)) by done.
  rewrite entries_ascend_ok, dups_ascend_ok by done. cbn [andb negb].
  assert (negb (k_may_include_deletes k) && negb (bool_decide (map_Forall (fun _ i => item_delete i = false) (k_missing k))) = false) as ->.
  { rewrite Edel. destruct (may_include_deletes (missing p)) eqn:E; [done |]. rewrite bool_decide_eq_true_2; [done |].
    rewrite Em. intros o i Hi. destruct (item_delete i) eqn:Ei; [| done]. rewrite (Hok o i Hi Ei) in E. done. }
  assert (no_shard && negb (bool_decide (default ev_zero (k_rollback_info_trimmed_to k) = ev_zero)) = false) as ->.
  { destruct no_shard; [| done]. by rewrite Hns. }
  eexists _, _. split; [reflexivity |]. by rewrite <- Hu, <- Ht, Em, Edel.
Qed.

(** ** Steps *)

Section Steps.
Context {S : Type} `{HandlerLaws S}.

(** What a group does with its log between two restarts. *)
Inductive pg_step : PGLog * omap -> PGLog * omap -> Prop :=
  | step_append bound es p k (s : S) p' s' :
      in_order (log (plog p) ++ es) -> (forall e, e ∈ es -> valid (e_version e) /\ extra_reqids e = []) ->
      append_new_log_entries bound es p s = Some (p', s') -> pg_step (p, k) (p', k)
  | step_merge P D N v oinfo olog info p k (s : S) p' info' s' changed :
      diverged P D N (plog p) olog v -> pg_ok (P ++ D) info p s -> undoable D (last_backfill info) (can_rollback_to (plog p)) (missing p) s ->
      olog_sane olog -> merge_log oinfo olog info p s = Some (p', info', s', changed) -> pg_step (p, k) (p', k)
  | step_rewind v info p k (s : S) p' info' s' :
      rewind_divergent_log v info p s = Some (p', info', s') -> pg_step (p, k) (p', k)
  | step_trim tracked max to applied async info p k p' info' :
      ev_le to (head (plog p)) = true -> pg_trim tracked max to applied async info p = Some (p', info') -> pg_step (p, k) (p', k)
  | step_recover o v p k m' : missing_got o v (missing p) = Some m' -> pg_step (p, k) (set_missing m' p, k)
  | step_roll_forward to p k (s : S) : pg_step (p, k) (fst (pg_roll_forward_to to p s), k)
  | step_write require_rollback p k : pg_step (p, k) (write_log_and_missing require_rollback p k).

Lemma synced_missing k p m' : synced k p -> tracks (missing p) m' -> synced k (set_missing m' p).
Proof. intros Hs Ht. apply synced_entries with (p := p); try done. apply Hs. Qed.

Lemma pg_step_keeps x y : pg_step x y -> log_sane x.1 -> synced x.2 x.1 -> log_sane y.1 /\ synced y.2 y.1.
Proof.
  destruct 1 as [bound es p k s p' s' Ho He E | P D N v oinfo olog info p k s p' info' s' c Hdv Hpg Hun Hol E | v info p k s p' info' s' E
    | n max to a b info p k p' info' Hto E | o v p k m' E | to p k s | rr p k]; cbn [fst snd]; intros Hl Hs.
  - by eapply append_step.
  - by eapply merge_log_step.
  - by eapply rewind_step.
  - by eapply trim_step.
  - apply tracks_got in E. split; [| by apply synced_missing]. destruct Hl. split; try done. by apply E.
  - destruct Hl, Hs. by split; split.
  - pose proof (write_synced rr k p Hs Hl). destruct (write_log_and_missing rr p k). tauto.
Qed.

Lemma pg_steps_keep x y : rtc pg_step x y -> log_sane x.1 -> synced x.2 x.1 -> log_sane y.1 /\ synced y.2 y.1.
Proof. induction 1 as [| x y z Hxy _ IH]; [done |]. intros Hl Hs. destruct (pg_step_keeps x y Hxy Hl Hs). auto. Qed.

(** C12. the log survives a restart.  After any sequence of appends, merges with
    diverged logs, rewinds, trims, recoveries and partial writes, one more write
    makes the disk hold everything: reading it gives the entries, the requests, the
    missing objects and the bounds that were in memory.  So every operation marks
    what it changes, although only marked keys are written.  This is for logs in
    order whose entries have no extra requests, in memory, appended or received:
    the extra requests of an entry share its key, and one of them is lost. *)
Theorem log_survives_restart p0 k0 p k require_rollback no_shard info :
  log_sane p0 -> synced k0 p0 -> rtc pg_step (p0, k0) (p, k) ->
  last_update info = head (plog p) -> log_tail info = tail (plog p) ->
  let k' := snd (write_log_and_missing require_rollback p k) in
  (no_shard = true -> k_rollback_info_trimmed_to k' = None) ->
  exists l m, read_log_and_missing no_shard info k' = Some (l, m) /\
    head l = head (plog p) /\ tail l = tail (plog p) /\ log l = log (plog p) /\ dups l = dups (plog p) /\ objects l = index_objects (log l) /\
    items m = items (missing p) /\ may_include_deletes m = may_include_deletes (missing p) /\
    (needs_write p = true -> require_rollback = true -> can_rollback_to l = can_rollback_to (plog p)).
Proof.
  intros Hl0 Hs0 Hrun Hu Ht k' Hns. destruct (pg_steps_keep _ _ Hrun Hl0 Hs0) as [Hl Hs].
  destruct (read_exact no_shard info k' p) as (l & m & E & H1 & H2 & H3 & H4 & H5 & H6 & H7 & H8); try done; [by apply write_exact |].
  exists l, m. split_and!; try done. intros Hw ->. rewrite H8. unfold k', write_log_and_missing. by rewrite Hw.
Qed.
End Steps.

(** A new group merges a log, trims it and writes. *)
Definition empty_omap : omap := Omap ∅ ∅ ∅ false None None.

Lemma ex_synced : synced empty_omap (PGL no_missing (indexed (ex_log ev_zero ev_zero ev_zero [])) clean_marks).
Proof. split; [split; try done; by intros a ?%elem_of_nil | split; try done; by intros a ?%elem_of_nil | by right | done]. Qed.

Definition ex_new : PGLog := PGL no_missing (indexed (ex_log ev_zero ev_zero ev_zero [])) clean_marks.
Definition ex_written : PGLog :=
  match append_new_log_entries hobject_max (ex_past ++ ex_ours) ex_new (stored [] ∅) with Some (p, _) => p | None => ex_new end.
Definition ex_restart_info : pg_info_t := ex_info (EV 1 5) ev_zero.

Lemma ex_sane : log_sane ex_new.
Proof. split; try done; [constructor | by intros e ?%elem_of_nil | constructor | by intros e ?%elem_of_nil]. Qed.

Lemma ex_step : pg_step (S := journal) (ex_new, empty_omap) (ex_written, empty_omap).
Proof.
  apply (step_append hobject_max (ex_past ++ ex_ours) ex_new empty_omap (stored [] ∅) _
    match append_new_log_entries hobject_max (ex_past ++ ex_ours) ex_new (stored [] ∅) with Some (_, s) => s | None => stored [] ∅ end).
  - apply history_in_order, (ex_history ex_ours). by left.
  - each_entry; by check.
  - unfold ex_written. destruct (append_new_log_entries _ _ _ _) as [[p s] |] eqn:E; [done |]. exfalso. revert E. vm_compute. discriminate.
Qed.

Lemma log_survives_restart_witness : exists l m,
  read_log_and_missing true ex_restart_info (snd (write_log_and_missing false ex_written empty_omap)) = Some (l, m) /\
  head l = head (plog ex_written) /\ tail l = tail (plog ex_written) /\ log l = log (plog ex_written) /\ dups l = dups (plog ex_written) /\
  objects l = index_objects (log l) /\ items m = items (missing ex_written) /\ may_include_deletes m = may_include_deletes (missing ex_written) /\
  (needs_write ex_written = true -> false = true -> can_rollback_to l = can_rollback_to (plog ex_written)).
Proof.
  refine (log_survives_restart (S := journal) ex_new empty_omap ex_written empty_omap false true ex_restart_info ex_sane ex_synced
    (rtc_once _ _ ex_step) _ _ _); vm_compute; reflexivity.
Defined.

(** ** Requests of one entry *)

(** An entry that answers two requests, and one after it. *)
Definition two_requests : pg_log_entry_t :=
  {| op := MODIFY; soid := ex_name 1; e_version := EV 1 1; prior_version := ev_zero; can_rollback := true;
     reqid := {| r_name := 1; r_tid := 10; r_inc := 0 |}; user_version := 1; return_code := 0;
     extra_reqids := [({| r_name := 2; r_tid := 20; r_inc := 0 |}, 1)]; extra_reqid_return_codes := ∅ |}.
Definition request_log : PGLog :=
  PGL no_missing (indexed (ex_log ev_zero (EV 1 2) (EV 1 2) [two_requests; ex_entry MODIFY 2 (EV 1 2) ev_zero true])) clean_marks.
Definition request_disk : omap := Omap (omap_setkeys e_version (log (plog request_log)) ∅) ∅ ∅ false None None.

Lemma request_run :
  match pg_trim 3000 100 (EV 1 1) true false (ex_info (EV 1 2) ev_zero) request_log with
  | Some (p, info) =>
      bool_decide (map (fun d => r_tid (d_reqid d)) (dups (plog p)) = [10; 20]) &&
      match read_log_and_missing true info (snd (write_log_and_missing false p request_disk)) with
      | Some (l, _) => bool_decide (map (fun d => r_tid (d_reqid d)) (dups l) = [10])
      | None => false
      end
  | None => false
  end = true.
Proof. vm_compute. reflexivity. Qed.

(** C37. the key of a request is made of its version, and the extra requests of an
    entry have the version of the entry.  When such an entry is trimmed, its two
    requests are remembered in memory, but only one of them is there after a
    restart: a retry of the other one is executed again. *)
Theorem extra_requests_lost :
  synced request_disk request_log /\
  exists p info l m, pg_trim 3000 100 (EV 1 1) true false (ex_info (EV 1 2) ev_zero) request_log = Some (p, info) /\
    map (fun d => r_tid (d_reqid d)) (dups (plog p)) = [10; 20] /\
    read_log_and_missing true info (snd (write_log_and_missing false p request_disk)) = Some (l, m) /\
    map (fun d => r_tid (d_reqid d)) (dups l) = [10].
Proof.
  split.
  - split; [| split; try done; by intros a ?%elem_of_nil | by right | done].
    apply covered_clean; [each_entry; by check |]. intros v a. unfold request_disk. cbn [k_log]. rewrite setkeys_spec.
    + rewrite lookup_empty. naive_solver.
    + apply ascending_distinct. repeat constructor.
  - pose proof request_run as H. destruct (pg_trim _ _ _ _ _ _ _) as [[p info] |]; [| done]. apply andb_true_iff in H as [H1 H2].
    destruct (read_log_and_missing _ _ _) as [[l m] |] eqn:E; [| done].
    exists p, info, l, m. split_and!; try done; by eapply bool_decide_eq_true.
Qed.
