(* ===== verification/ClsQueue.v ===== *)
(** * The queue object class

    [src/src/cls/queue]: a queue of byte strings in one object.  The object starts
    with a head that is encoded into its first [max_head_size] bytes; the rest,
    up to [queue_size], is a ring.  A method of a class reads and writes the
    object through the calls of [src/src/osd/objclass.cc]; what it writes takes
    effect only if it does not return an error. *)

From stdpp Require Import base list.
From S2P Require Import Prelude.

Local Open Scope Z_scope.

(** ** Encoding *)

(** Integers are little endian ([include/encoding.h]). *)
Fixpoint le (n : nat) (v : Z) : list Z :=
  match n with O => [] | S n => v mod 256 :: le n (v / 256) end.

Fixpoint unle (bs : list Z) : Z :=
  match bs with [] => 0 | b :: bs => b + 256 * unle bs end.

(** [None] is a [buffer::error]. *)
Definition decoder (A : Type) : Type := list Z -> option (A * list Z).

#[export] Instance decoder_ret : MRet decoder := fun A a bs => Some (a, bs).
#[export] Instance decoder_bind : MBind decoder := fun A B f d bs =>
  match d bs with Some (a, rest) => f a rest | None => None end.

Definition decode_le (n : nat) : decoder Z := fun bs =>
  if (length bs <? n)%nat then None else Some (unle (take n bs), drop n bs).

Definition encode_bl (bl : list Z) : list Z := le 4 (u32 (zlen bl)) ++ bl.

Definition decode_bytes (n : Z) : decoder (list Z) := fun bs =>
  if zlen bs <? n then None else Some (take (Z.to_nat n) bs, drop (Z.to_nat n) bs).

Definition decode_bl : decoder (list Z) := len ← decode_le 4; decode_bytes len.

(** ENCODE_START and ENCODE_FINISH. *)
Definition encode_struct (v compat : Z) (body : list Z) : list Z := [v; compat] ++ le 4 (u32 (zlen body)) ++ body.

(** DECODE_START and DECODE_FINISH. *)
Definition decode_fail {A} : decoder A := fun _ => None.

Definition decode_within {A} (len : Z) (body : decoder A) : decoder A := fun bs =>
  if zlen bs <? len then None
  else
    match body bs with
    | None => None
    | Some (a, rest) =>
        let used := zlen bs - zlen rest in
        if len <? used then None else Some (a, drop (Z.to_nat (len - used)) rest)
    end.

Definition decode_struct {A} (v : Z) (body : decoder A) : decoder A :=
  _ ← decode_le 1;
  compat ← decode_le 1;
  if v <? compat then decode_fail else (len ← decode_le 4; decode_within len body).

(** ** Errors *)

Definition ENOENT : Z := 2.
Definition EAGAIN : Z := 11.
Definition EEXIST : Z := 17.
Definition EINVAL : Z := 22.
Definition EFBIG : Z := 27.
Definition ENOSPC : Z := 28.
Definition ENODATA : Z := 61.

(** ** The object a method works on

    [xattr] is the attribute that the two-phase queue uses. *)

Record object := Obj { data : list Z; xattr : option (list Z) }.

(** A computation returns a value or a negative error number. *)
Definition cls (A : Type) : Type := object -> res ((A + Z) * object).

#[export] Instance cls_ret : MRet cls := fun A a o => Ok (inl a, o).
#[export] Instance cls_bind : MBind cls := fun A B f m o =>
  match m o with
  | Ok (inl a, o) => f a o
  | Ok (inr e, o) => Ok (inr e, o)
  | Fault => Fault
  | NoFuel => NoFuel
  end.

Definition throw {A} (e : Z) : cls A := fun o => Ok (inr (- e), o).

(** The result of a computation as a value. *)
Definition attempt {A} (m : cls A) : cls (A + Z) := fun o =>
  match m o with Ok (r, o) => Ok (inl r, o) | Fault => Fault | NoFuel => NoFuel end.

(** The effect of a method: nothing if it returns an error. *)
Definition call {A} (m : cls A) (o : object) : res ((A + Z) * object) :=
  match m o with Ok (inr e, _) => Ok (inr e, o) | r => r end.

Definition write_at (off : nat) (bl d : list Z) : list Z :=
  take off (d ++ replicate (off - length d) 0) ++ bl ++ drop (off + length bl) d.

Definition zero_at (off len : nat) (d : list Z) : list Z :=
  take off d ++ replicate (length (take len (drop off d))) 0 ++ drop (off + len) d.

Section Methods.
Context (osd_max_object_size : Z).

(** The calls on an existing object that was never truncated, in a pool without
    aligned appends, with no limit on the size of attributes ([osd_max_attr_size]
    is 0, the default).  They take [int], which is extended to 64 bits. *)
Definition extent (z : Z) : Z := u64 (s32 z).

Definition check_offset_and_length (off len : Z) : bool :=
  negb ((osd_max_object_size <=? off) || (osd_max_object_size <? len) || (osd_max_object_size <? u64 (off + len))).

(** Length 0 reads the whole object. *)
Definition cls_cxx_read2 (ofs len : Z) : cls (list Z) := fun o =>
  let size := zlen (data o) in
  let off := extent ofs in
  let len := if extent len =? 0 then size else extent len in
  let len := if size <=? off then 0 else if size <? u64 (off + len) then size - off else len in
  Ok (inl (take (Z.to_nat len) (drop (Z.to_nat off) (data o))), o).

Definition cls_cxx_write2 (ofs len : Z) (bl : list Z) : cls unit := fun o =>
  if negb (extent len =? zlen bl) then throw EINVAL o
  else if negb (check_offset_and_length (extent ofs) (extent len)) then throw EFBIG o
  else Ok (inl tt, Obj (write_at (Z.to_nat (extent ofs)) bl (data o)) (xattr o)).

Definition cls_cxx_write_zero (ofs len : Z) : cls unit := fun o =>
  if negb (check_offset_and_length (extent ofs) (extent len)) then throw EFBIG o
  else Ok (inl tt, Obj (zero_at (Z.to_nat (extent ofs)) (Z.to_nat (extent len)) (data o)) (xattr o)).

Definition cls_cxx_getxattr : cls (list Z) := fun o =>
  match xattr o with Some bl => Ok (inl bl, o) | None => throw ENODATA o end.

Definition cls_cxx_setxattr (bl : list Z) : cls unit := fun o => Ok (inl tt, Obj (data o) (Some bl)).

(** ** Markers *)

Record cls_queue_marker := Marker { offset : Z; gen : Z }.

(** [std::to_string] of a 64-bit number, which has at most 20 digits. *)
Fixpoint digits (fuel : nat) (n : Z) (acc : list Z) : list Z :=
  match fuel with
  | O => acc
  | S fuel =>
      let acc := (48 + n mod 10) :: acc in
      if n / 10 =? 0 then acc else digits fuel (n / 10) acc
  end.

Definition to_string (n : Z) : list Z := digits 20 n [].

Definition to_str (m : cls_queue_marker) : list Z := to_string (gen m) ++ [47] ++ to_string (offset m).

(** The characters before the first NUL. *)
Fixpoint c_str (s : list Z) : list Z :=
  match s with [] => [] | c :: s => if c =? 0 then [] else c :: c_str s end.

Definition isspace (c : Z) : bool := (c =? 32) || ((9 <=? c) && (c <=? 13)).
Definition isdigit (c : Z) : bool := (48 <=? c) && (c <=? 57).

Fixpoint skip_spaces (s : list Z) : list Z :=
  match s with [] => [] | c :: s' => if isspace c then skip_spaces s' else s end.

Fixpoint scan_digits (s : list Z) (n : Z) : Z * list Z :=
  match s with
  | [] => (n, [])
  | c :: s' => if isdigit c then scan_digits s' (10 * n + (c - 48)) else (n, s)
  end.

Definition sign (s : list Z) : bool * list Z :=
  match s with
  | c :: t => if c =? 43 then (false, t) else if c =? 45 then (true, t) else (false, s)
  | [] => (false, s)
  end.

(** [strtoull (s, &end, 10)]: the number, what is left of the string and whether
    the number is out of range. *)
Definition strtoull (s : list Z) : Z * list Z * bool :=
  let '(negative, t) := sign (skip_spaces s) in
  match t with
  | c :: _ =>
      if isdigit c then
        let '(n, rest) := scan_digits t 0 in
        if 2 ^ 64 <=? n then (2 ^ 64 - 1, rest, true) else (if negative : bool then u64 (- n) else n, rest, false)
      else (0, s, false)
  | [] => (0, s, false)
  end.

(** [from_str] on a marker of zeros; its result is not used by the callers. *)
Definition from_str (str : list Z) : cls_queue_marker :=
  let '(g, rest, range) := strtoull str in
  if (range : bool) || (length rest =? length str)%nat then Marker 0 g
  else
    match rest with
    | c :: str => if c =? 47 then Marker (fst (fst (strtoull str))) g else Marker 0 g
    | [] => Marker 0 g
    end.

(** ** The head *)

Definition QUEUE_HEAD_SIZE_1K : Z := 1024.
Definition QUEUE_HEAD_START : Z := 57005.
Definition QUEUE_ENTRY_START : Z := 48879.
Definition QUEUE_ENTRY_OVERHEAD : Z := 10.

Record cls_queue_head := Head {
  max_head_size : Z;
  front : cls_queue_marker;
  tail : cls_queue_marker;
  queue_size : Z;
  max_urgent_data_size : Z;
  bl_urgent_data : list Z
}.

Definition set_front (m : cls_queue_marker) (h : cls_queue_head) : cls_queue_head :=
  Head (max_head_size h) m (tail h) (queue_size h) (max_urgent_data_size h) (bl_urgent_data h).
Definition set_tail (m : cls_queue_marker) (h : cls_queue_head) : cls_queue_head :=
  Head (max_head_size h) (front h) m (queue_size h) (max_urgent_data_size h) (bl_urgent_data h).
Definition set_urgent_data (bl : list Z) (h : cls_queue_head) : cls_queue_head :=
  Head (max_head_size h) (front h) (tail h) (queue_size h) (max_urgent_data_size h) bl.

Definition encode_marker (m : cls_queue_marker) : list Z := encode_struct 1 1 (le 8 (gen m) ++ le 8 (offset m)).

Definition decode_marker : decoder cls_queue_marker :=
  decode_struct 1 (g ← decode_le 8; o ← decode_le 8; mret (Marker o g)).

Definition encode_head (h : cls_queue_head) : list Z :=
  encode_struct 1 1
    (le 8 (max_head_size h) ++ encode_marker (front h) ++ encode_marker (tail h) ++ le 8 (queue_size h) ++
     le 8 (max_urgent_data_size h) ++ encode_bl (bl_urgent_data h)).

Definition decode_head : decoder cls_queue_head :=
  decode_struct 1
    (m ← decode_le 8; f ← decode_marker; t ← decode_marker; q ← decode_le 8; u ← decode_le 8; bl ← decode_bl;
     mret (Head m f t q u bl)).

Definition queue_write_head (h : cls_queue_head) : cls unit :=
  let bl_head := encode_head h in
  let bl := le 2 QUEUE_HEAD_START ++ le 8 (zlen bl_head) ++ bl_head in
  if max_head_size h <? zlen bl then throw EINVAL else cls_cxx_write2 0 (zlen bl) bl.

Definition queue_read_head : cls cls_queue_head :=
  bl_head ← cls_cxx_read2 0 1024;
  if zlen bl_head =? 0 then throw EINVAL
  else
    match decode_le 2 bl_head with
    | None => throw EINVAL
    | Some (queue_head_start, it) =>
        if negb (queue_head_start =? QUEUE_HEAD_START) then throw EINVAL
        else
          match decode_le 8 it with
          | None => throw EINVAL
          | Some (encoded_len, it) =>
              bl_remaining_head ← if 1024 - QUEUE_ENTRY_OVERHEAD <? encoded_len
                                  then cls_cxx_read2 1024 (encoded_len - (1024 - QUEUE_ENTRY_OVERHEAD))
                                  else mret [];
              match decode_head (it ++ bl_remaining_head) with
              | Some (h, _) => mret h
              | None => throw EINVAL
              end
          end
    end.

(** [op_queue_size], [op_max_urgent_data_size] and [op_urgent_data] are the fields
    of [cls_queue_init_op].  Without urgent data in the op, that of a new
    [cls_queue_head] stays, which is empty; what the failed decoding of a damaged
    head may have left there is not modelled. *)
Definition queue_init (op_queue_size op_max_urgent_data_size : Z) (op_urgent_data : list Z) : cls unit :=
  r ← attempt queue_read_head;
  match r with
  | inl _ => throw EEXIST
  | inr e =>
      if negb (e =? - EINVAL) then (fun o => Ok (inr e, o))
      else
        let max_head := u64 (QUEUE_HEAD_SIZE_1K + op_max_urgent_data_size) in
        let start := Marker max_head 0 in
        let urgent := if 0 <? zlen op_urgent_data then op_urgent_data else [] in
        queue_write_head (Head max_head start start (u64 (op_queue_size + max_head)) op_max_urgent_data_size urgent)
  end.

Definition queue_get_capacity : cls Z :=
  h ← queue_read_head; mret (u64 (queue_size h - max_head_size h)).

(** ** Adding entries *)

Definition entry_bytes (bl_data : list Z) : list Z := le 2 QUEUE_ENTRY_START ++ le 8 (zlen bl_data) ++ bl_data.

Definition at_end (h : cls_queue_head) (m : cls_queue_marker) : cls_queue_marker :=
  if offset m =? queue_size h then Marker (max_head_size h) (u64 (gen m + 1)) else m.

(** One round of the loop. *)
Definition enqueue_entry (bl_data : list Z) (h : cls_queue_head) : cls cls_queue_head :=
  let bl := entry_bytes bl_data in
  let t := tail h in
  t ← (if offset (front h) <=? offset t then
         if u64 (offset t + zlen bl) <=? queue_size h then
           cls_cxx_write2 (offset t) (zlen bl) bl;;
           mret (Marker (u64 (offset t + zlen bl)) (gen t))
         else
           let free_space_available := u64 (u64 (queue_size h - offset t) + u64 (offset (front h) - max_head_size h)) in
           if zlen bl <=? free_space_available then
             let size_before_wrap := u64 (queue_size h - offset t) in
             let bl_data_before_wrap := take (Z.to_nat size_before_wrap) bl in
             let bl := drop (Z.to_nat size_before_wrap) bl in
             cls_cxx_write2 (offset t) (zlen bl_data_before_wrap) bl_data_before_wrap;;
             cls_cxx_write2 (max_head_size h) (zlen bl) bl;;
             mret (Marker (u64 (max_head_size h + zlen bl)) (u64 (gen t + 1)))
           else throw ENOSPC
       else
         if u64 (offset t + zlen bl) <=? offset (front h) then
           cls_cxx_write2 (offset t) (zlen bl) bl;;
           mret (Marker (u64 (offset t + zlen bl)) (gen t))
         else throw ENOSPC);
  mret (set_tail (at_end h t) h).

Fixpoint enqueue_each (bl_data_vec : list (list Z)) (h : cls_queue_head) : cls cls_queue_head :=
  match bl_data_vec with
  | [] => mret h
  | d :: ds => h ← enqueue_entry d h; enqueue_each ds h
  end.

Definition queue_enqueue (bl_data_vec : list (list Z)) (h : cls_queue_head) : cls cls_queue_head :=
  if (offset (front h) =? offset (tail h)) && (gen (tail h) =? u64 (gen (front h) + 1)) then throw ENOSPC
  else enqueue_each bl_data_vec h.

(** ** Listing entries *)

Record cls_queue_entry := Entry { e_data : list Z; e_marker : list Z }.

(** What the loops of [queue_list_entries] carry from chunk to chunk. *)
Record listing := Listing {
  offset_populated : bool;
  entry_start_processed : bool;
  data_size : Z;
  num_ops : Z;
  bl : list Z;
  last_marker : list Z;
  entries : list cls_queue_entry
}.

(** The entries of one chunk.  [it] is the iterator on the chunk.  [None] is an
    invalid entry. *)
Fixpoint list_chunk (fuel : nat) (max entry_start_offset g : Z) (chunk : list Z) (it index size_to_process : Z)
    (s : listing) : res (option (Z * listing)) :=
  match fuel with
  | O => NoFuel
  | S fuel =>
      if negb (it =? index) then Fault
      else
        let marker := if offset_populated s then last_marker s else to_str (Marker (u64 (entry_start_offset + index)) g) in
        let stop index processed dsize rest :=
          Ok (Some (index, Listing true processed dsize (num_ops s) rest marker (entries s))) in
        let read_data it index size_to_process dsize :=
          if dsize <=? size_to_process then
            let d := take (Z.to_nat dsize) (drop (Z.to_nat it) chunk) in
            let index := u32 (index + zlen d) in
            let size_to_process := u64 (size_to_process - zlen d) in
            let s := Listing false false 0 (u64 (num_ops s + 1)) [] [] (entries s ++ [Entry d marker]) in
            if num_ops s =? max then Ok (Some (index, s))
            else if index <? zlen chunk then list_chunk fuel max entry_start_offset g chunk (it + zlen d) index size_to_process s
            else Ok (Some (index, s))
          else stop index true dsize (take (Z.to_nat size_to_process) (drop (Z.to_nat it) chunk)) in
        if entry_start_processed s then read_data it index size_to_process (data_size s)
        else if QUEUE_ENTRY_OVERHEAD <=? size_to_process then
          match decode_le 2 (drop (Z.to_nat it) chunk) with
          | None => Ok None
          | Some (entry_start, rest) =>
              if negb (entry_start =? QUEUE_ENTRY_START) then Ok None
              else
                match decode_le 8 rest with
                | None => Ok None
                | Some (dsize, _) => read_data (it + 10) (u32 (u32 (index + 2) + 8)) (u64 (u64 (size_to_process - 2) - 8)) dsize
                end
          end
        else stop index false (data_size s) (take (Z.to_nat size_to_process) (drop (Z.to_nat index) chunk))
  end.

(** The chunks.  The result is the next marker, whether there are more entries,
    and the entries. *)
Fixpoint list_chunks (fuel : nat) (h : cls_queue_head) (max start_offset g contiguous_data_size : Z) (wrap_around : bool)
    (s : listing) : cls (cls_queue_marker * bool * list cls_queue_entry) :=
  match fuel with
  | O => fun _ => NoFuel
  | S fuel =>
      let size_to_read := if 1024 <? contiguous_data_size then 1024 else contiguous_data_size in
      if size_to_read =? 0 then mret (tail h, false, entries s)
      else
        bl_chunk ← cls_cxx_read2 start_offset size_to_read;
        let entry_start_offset := u64 (start_offset - zlen (bl s)) in
        let chunk := bl s ++ bl_chunk in
        let s := Listing (offset_populated s) (entry_start_processed s) (data_size s) (num_ops s) [] (last_marker s) (entries s) in
        r ← (fun o => r ← list_chunk (S (length chunk)) max entry_start_offset g chunk 0 0 (zlen chunk) s; Ok (inl r, o));
        match r with
        | None => throw EINVAL
        | Some (index, s) =>
            if num_ops s =? max then mret (Marker (u64 (entry_start_offset + index)) g, true, entries s)
            else
              let start_offset := u64 (start_offset + size_to_read) in
              let contiguous_data_size := u64 (contiguous_data_size - size_to_read) in
              let next start_offset g contiguous_data_size wrap_around :=
                if num_ops s <? max then list_chunks fuel h max start_offset g contiguous_data_size wrap_around s
                else mret (Marker 0 0, true, entries s) in
              if contiguous_data_size =? 0 then
                if wrap_around then next (max_head_size h) (u64 (g + 1)) (u64 (offset (tail h) - max_head_size h)) false
                else mret (tail h, false, entries s)
              else next start_offset g contiguous_data_size wrap_around
        end
  end.

Record cls_queue_list_ret := ListRet { is_truncated : bool; next_marker : list Z; ret_entries : list cls_queue_entry }.

Definition marker_eqb (a b : cls_queue_marker) : bool := (offset a =? offset b) && (gen a =? gen b).

Definition queue_list_entries (max : Z) (start_marker : list Z) (h : cls_queue_head) : cls cls_queue_list_ret :=
  if marker_eqb (front h) (tail h) then mret (ListRet false (to_str (front h)) [])
  else
    let start := from_str (c_str start_marker) in
    let start := if offset start =? 0 then front h else start in
    let '(contiguous_data_size, wrap_around) :=
      if offset (front h) <? offset (tail h) then (u64 (offset (tail h) - offset start), false)
      else if offset (front h) <=? offset start then (u64 (queue_size h - offset start), true)
      else if offset start <=? offset (tail h) then (u64 (offset (tail h) - offset start), false)
      else (0, false) in
    '(next, truncated, es) ← list_chunks (S (S (Z.to_nat (queue_size h)))) h max (offset start) (gen start)
                               contiguous_data_size wrap_around (Listing false false 0 0 [] [] []);
    let next := at_end h next in
    mret (ListRet (truncated && negb (marker_eqb next (tail h))) (to_str next) es).

(** ** Removing entries *)

Definition zero_unless_empty (off len : Z) : cls unit := if 0 <? len then cls_cxx_write_zero off len else mret tt.

Definition queue_remove_entries (end_marker : list Z) (h : cls_queue_head) : cls cls_queue_head :=
  if marker_eqb (front h) (tail h) then mret h
  else
    let e := from_str (c_str end_marker) in
    let f := front h in
    (if (offset f <? offset e) && (gen e =? gen f) then
       zero_unless_empty (offset f) (u64 (offset e - offset f))
     else if (offset e <=? offset f) && (gen e =? u64 (gen f + 1)) then
       zero_unless_empty (offset f) (u64 (queue_size h - offset f));;
       zero_unless_empty (max_head_size h) (u64 (offset e - max_head_size h))
     else if marker_eqb f e then mret tt
     else throw EINVAL);;
    mret (set_front (at_end h e) h).

(** ** The methods of the class *)

Definition cls_queue_enqueue (bl_data_vec : list (list Z)) : cls unit :=
  h ← queue_read_head; h ← queue_enqueue bl_data_vec h; queue_write_head h.

Definition cls_queue_list_entries (max : Z) (start_marker : list Z) : cls cls_queue_list_ret :=
  h ← queue_read_head; queue_list_entries max start_marker h.

Definition cls_queue_remove_entries (end_marker : list Z) : cls unit :=
  h ← queue_read_head; h ← queue_remove_entries end_marker h; queue_write_head h.
End Methods.
