(* ===== verification/ClsQueueThms.v ===== *)
(** * The queue object class: correctness

    A queue is a stream of bytes whose byte [a] is kept at [a] modulo the
    capacity.  [queue] relates an object to the entries it holds and to the
    position of the first one in the stream. *)

From stdpp Require Import base list.
From S2P Require Import Prelude ClsQueue.

Local Open Scope Z_scope.

(** ** Encodings *)

Lemma length_le n v : length (le n v) = n.
Proof. revert v. induction n as [| n IH]; intros v; [done |]. cbn. by rewrite IH. Qed.

Lemma zlen_le n v : zlen (le n v) = Z.of_nat n.
Proof. unfold zlen. by rewrite length_le. Qed.

Lemma unle_le n v : 0 <= v < 2 ^ (8 * Z.of_nat n) -> unle (le n v) = v.
Proof.
  revert v. induction n as [| n IH]; intros v Hv; cbn [le unle].
  - change (2 ^ (8 * Z.of_nat 0)) with 1 in Hv. lia.
  - rewrite IH.
    + pose proof (Z.div_mod v 256). lia.
    + replace (2 ^ (8 * Z.of_nat (S n))) with (256 * 2 ^ (8 * Z.of_nat n)) in Hv
        by (replace (8 * Z.of_nat (S n)) with (8 + 8 * Z.of_nat n) by lia; rewrite Z.pow_add_r by lia; done).
      split; [apply Z.div_pos; lia | apply Z.div_lt_upper_bound; lia].
Qed.

Lemma decode_le_app n v rest : 0 <= v < 2 ^ (8 * Z.of_nat n) -> decode_le n (le n v ++ rest) = Some (v, rest).
Proof.
  intros Hv. unfold decode_le. rewrite length_app, length_le. destruct (Nat.ltb_spec (n + length rest) n); [lia |].
  rewrite take_app_length', drop_app_length' by (by rewrite length_le). by rewrite unle_le.
Qed.

(** [decodes d bs a]: [d] reads [a] from [bs] and leaves what follows. *)
Definition decodes {A} (d : decoder A) (bs : list Z) (a : A) : Prop := forall rest, d (bs ++ rest) = Some (a, rest).

Lemma decodes_le n v : 0 <= v < 2 ^ (8 * Z.of_nat n) -> decodes (decode_le n) (le n v) v.
Proof. intros Hv rest. by apply decode_le_app. Qed.

Lemma decodes_ret {A} (a : A) : decodes (mret a) [] a.
Proof. by intros rest. Qed.

Lemma decodes_bind {A B} (d : decoder A) (f : A -> decoder B) bs bs' a b :
  decodes d bs a -> decodes (f a) bs' b -> decodes (d ≫= f) (bs ++ bs') b.
Proof. intros Hd Hf rest. rewrite <- app_assoc. unfold mbind, decoder_bind. rewrite Hd. apply Hf. Qed.

Lemma decodes_bl bl : zlen bl < 2 ^ 32 -> decodes decode_bl (encode_bl bl) bl.
Proof.
  intros Hl. assert (0 <= zlen bl) by (unfold zlen; lia). apply (decodes_bind _ _ _ _ (zlen bl)).
  - unfold u32. rewrite Z.mod_small by lia. apply decodes_le. lia.
  - intros rest. unfold decode_bytes. rewrite zlen_app. destruct (Z.ltb_spec (zlen bl + zlen rest) (zlen bl)); [unfold zlen in *; lia |].
    unfold zlen. rewrite Nat2Z.id. by rewrite take_app_length, drop_app_length.
Qed.

Lemma decodes_struct {A} v compat (d : decoder A) bs a :
  0 <= v < 256 -> 0 <= compat <= v -> zlen bs < 2 ^ 32 -> decodes d bs a -> decodes (decode_struct v d) (encode_struct v compat bs) a.
Proof.
  intros Hv Hc Hl Hd. assert (0 <= zlen bs) by (unfold zlen; lia).
  change (encode_struct v compat bs) with ([v] ++ [compat] ++ le 4 (u32 (zlen bs)) ++ bs).
  assert (forall x, 0 <= x < 256 -> [x] = le 1 x) as E1 by (intros x Hx; cbn; by rewrite Z.mod_small).
  unfold decode_struct. apply (decodes_bind _ _ _ _ v); [rewrite E1 by done; by apply decodes_le |].
  apply (decodes_bind _ _ _ _ compat); [rewrite E1 by lia; apply decodes_le; lia |].
  destruct (Z.ltb_spec v compat); [lia |]. apply (decodes_bind _ _ _ _ (zlen bs)).
  - unfold u32. rewrite Z.mod_small by lia. apply decodes_le. lia.
  - intros rest. unfold decode_within. rewrite zlen_app. pose proof (Hd rest) as ->.
    replace (zlen bs + zlen rest - zlen rest) with (zlen bs) by lia.
    destruct (Z.ltb_spec (zlen bs + zlen rest) (zlen bs)); [unfold zlen in *; lia |].
    rewrite Z.ltb_irrefl, Z.sub_diag. done.
Qed.

(** ** Markers as strings *)

Definition u64_marker (m : cls_queue_marker) : Prop := 0 <= offset m < 2 ^ 64 /\ 0 <= gen m < 2 ^ 64.

Lemma digit_ok n : isdigit (48 + n mod 10) = true.
Proof. pose proof (Z.mod_pos_bound n 10). unfold isdigit. apply andb_true_iff. split; apply Z.leb_le; lia. Qed.

Lemma digits_head fuel n c acc : isdigit c = true -> exists c' s, digits fuel n (c :: acc) = c' :: s /\ isdigit c' = true.
Proof.
  revert n c acc. induction fuel as [| fuel IH]; intros n c acc Hc; cbn [digits]; [eauto |].
  destruct (n / 10 =? 0); [eexists _, _; split; [done | apply digit_ok] | apply IH, digit_ok].
Qed.

Lemma scan_digits_digits fuel n m acc : 0 <= n < 10 ^ Z.of_nat fuel -> fuel <> O ->
  exists k, 0 <= k /\ scan_digits (digits fuel n acc) m = scan_digits acc (m * 10 ^ k + n).
Proof.
  revert n m acc. induction fuel as [| fuel IH]; intros n m acc Hn Hf; [done |]. cbn [digits].
  pose proof (Z.div_mod n 10). assert (forall x, scan_digits (48 + n mod 10 :: acc) x = scan_digits acc (10 * x + n mod 10)) as Hstep.
  { intros x. cbn [scan_digits]. rewrite digit_ok. f_equal. lia. }
  destruct (Z.eqb_spec (n / 10) 0) as [E | E].
  - exists 1. rewrite Hstep. split; [lia |]. f_equal. lia.
  - assert (0 <= n / 10 < 10 ^ Z.of_nat fuel) as Hd.
    { rewrite Nat2Z.inj_succ, Z.pow_succ_r in Hn by lia. split; [apply Z.div_pos; lia | apply Z.div_lt_upper_bound; lia]. }
    destruct (IH (n / 10) m (48 + n mod 10 :: acc)) as (k & Hk & ->); [done | intros ->; cbn in Hd; lia |].
    exists (k + 1). rewrite Hstep, Z.pow_add_r by lia. split; [lia |]. f_equal. lia.
Qed.

Lemma digits_app fuel n acc acc' : digits fuel n (acc ++ acc') = digits fuel n acc ++ acc'.
Proof.
  revert n acc. induction fuel as [| fuel IH]; intros n acc; [done |]. cbn [digits].
  destruct (n / 10 =? 0); [done |]. apply (IH _ (_ :: _)).
Qed.

Lemma strtoull_to_string n rest : 0 <= n < 2 ^ 64 -> (forall c s, rest = c :: s -> isdigit c = false) ->
  strtoull (to_string n ++ rest) = (n, rest, false) /\ length rest <> length (to_string n ++ rest).
Proof.
  intros Hn Hrest. unfold to_string. rewrite <- digits_app. cbn [app].
  assert (exists c s, digits 20 n rest = c :: s /\ isdigit c = true) as (c & s & E & Hc).
  { cbn [digits]. destruct (n / 10 =? 0); [eexists _, _; split; [done | apply digit_ok] | apply (digits_head 19), digit_ok]. }
  destruct (scan_digits_digits 20 n 0 rest) as (k & _ & Hs); [lia | done |].
  assert (scan_digits rest (0 * 10 ^ k + n) = (n, rest)) as Hr.
  { destruct rest as [| x rest]; cbn [scan_digits]; [f_equal; lia |]. rewrite (Hrest x rest eq_refl). f_equal; lia. }
  rewrite Hr, E in Hs. rewrite E. split.
  - unfold strtoull. assert (isspace c = false /\ c <> 43 /\ c <> 45) as (Hsp & H43 & H45).
    { unfold isdigit, isspace in *. bool_hyps. split_and!; [| lia | lia].
      apply orb_false_iff. split; [apply Z.eqb_neq; lia | apply andb_false_iff; right; apply Z.leb_gt; lia]. }
    cbn [skip_spaces]. rewrite Hsp. cbn [sign]. rewrite (proj2 (Z.eqb_neq c 43) H43), (proj2 (Z.eqb_neq c 45) H45).
    rewrite Hc, Hs. destruct (Z.leb_spec (2 ^ 64) n); [lia | done].
  - intros El. cbn [scan_digits] in Hs. rewrite Hc in Hs.
    assert (forall l m, (length (snd (scan_digits l m)) <= length l)%nat) as Hlen.
    { induction l as [| x l IH]; intros m; cbn; [done |]. destruct (isdigit x); cbn; [specialize (IH (10 * m + (x - 48))) |]; lia. }
    specialize (Hlen s (10 * 0 + (c - 48))). rewrite Hs in Hlen. cbn [snd length] in *. lia.
Qed.

Lemma c_str_id s : Forall (fun c => c <> 0) s -> c_str s = s.
Proof. induction 1 as [| c s Hc _ IH]; [done |]. cbn. destruct (Z.eqb_spec c 0); [done | by rewrite IH]. Qed.

Lemma digits_nonzero fuel n acc : Forall (fun c => c <> 0) acc -> Forall (fun c => c <> 0) (digits fuel n acc).
Proof.
  revert n acc. induction fuel as [| fuel IH]; intros n acc Ha; [done |]. cbn [digits].
  assert (Forall (fun c => c <> 0) (48 + n mod 10 :: acc)) by (constructor; [pose proof (Z.mod_pos_bound n 10); lia | done]).
  destruct (n / 10 =? 0); auto.
Qed.

Lemma from_to_str m : u64_marker m -> from_str (c_str (to_str m)) = m.
Proof.
  intros [Ho Hg]. rewrite c_str_id.
  2: { unfold to_str, to_string. rewrite !Forall_app. split_and!; [| by constructor |]; by apply digits_nonzero. }
  unfold from_str, to_str.
  destruct (strtoull_to_string (gen m) ([47] ++ to_string (offset m))) as [-> Hl]; [done | by intros c s [= <- _] |].
  apply Nat.eqb_neq in Hl. rewrite Hl. cbn [orb app]. pose proof (strtoull_to_string (offset m) []) as [E _]; [done | done |].
  rewrite app_nil_r in E. rewrite E. by destruct m.
Qed.

(** ** Reading and writing the object *)

Lemma extent_id z : 0 <= z < 2 ^ 31 -> extent z = z.
Proof. intros Hz. unfold extent. rewrite s32_id by (unfold is_s32; lia). apply u64_id. lia. Qed.

Lemma read2_ok off len o : 0 <= off < 2 ^ 31 -> 0 < len < 2 ^ 31 ->
  cls_cxx_read2 off len o = Ok (inl (take (Z.to_nat len) (drop (Z.to_nat off) (data o))), o).
Proof.
  intros Ho Hl. unfold cls_cxx_read2. rewrite !extent_id by lia. destruct (Z.eqb_spec len 0); [lia |].
  rewrite u64_id by lia. pose proof (zlen_nonneg (data o)). do 3 f_equal. unfold zlen in *.
  destruct (Z.leb_spec (Z.of_nat (length (data o))) off); [by rewrite drop_ge by lia; rewrite !take_nil |].
  destruct (Z.ltb_spec (Z.of_nat (length (data o))) (off + len)); [| done].
  rewrite !take_ge; [done | rewrite length_drop; lia..].
Qed.

Lemma lookup_write_at_in off bl d j : (off <= j < off + length bl)%nat -> write_at off bl d !! j = bl !! (j - off)%nat.
Proof.
  intros Hj. unfold write_at.
  assert (length (take off (d ++ replicate (off - length d) 0)) = off) as El by (rewrite length_take, length_app, length_replicate; lia).
  rewrite lookup_app_r by lia. rewrite El, lookup_app_l by lia. done.
Qed.

Lemma lookup_write_at_out off bl d j b : d !! j = Some b -> ~ (off <= j < off + length bl)%nat -> write_at off bl d !! j = Some b.
Proof.
  intros Hd Hj. pose proof (lookup_lt_Some _ _ _ Hd). unfold write_at.
  assert (length (take off (d ++ replicate (off - length d) 0)) = off) as El by (rewrite length_take, length_app, length_replicate; lia).
  destruct (decide (j < off)%nat).
  - rewrite lookup_app_l, lookup_take_lt by lia. by apply lookup_app_l_Some.
  - rewrite lookup_app_r by lia. rewrite El, lookup_app_r by lia. rewrite lookup_drop. rewrite <- Hd. f_equal. lia.
Qed.

Lemma length_write_at off bl d : length (write_at off bl d) = Nat.max (length d) (off + length bl).
Proof. unfold write_at. rewrite !length_app, length_take, length_app, length_replicate, length_drop. lia. Qed.

Lemma lookup_zero_at_out off len d j b : d !! j = Some b -> ~ (off <= j < off + len)%nat -> zero_at off len d !! j = Some b.
Proof.
  intros Hd Hj. pose proof (lookup_lt_Some _ _ _ Hd). unfold zero_at.
  destruct (decide (j < off)%nat).
  - rewrite lookup_app_l by (rewrite length_take; lia). by rewrite lookup_take_lt by lia.
  - rewrite lookup_app_r by (rewrite length_take; lia). rewrite length_take, lookup_app_r by (rewrite length_replicate, length_take, length_drop; lia).
    rewrite length_replicate, length_take, length_drop, lookup_drop. rewrite <- Hd. f_equal. lia.
Qed.

Lemma length_zero_at off len d : length (zero_at off len d) = length d.
Proof. unfold zero_at. rewrite !length_app, length_replicate, !length_take, !length_drop. lia. Qed.

Section Limit.
Context (osd_max_object_size : Z).

Lemma write2_ok off bl o : 0 <= off < osd_max_object_size -> zlen bl < 2 ^ 31 -> off + zlen bl <= osd_max_object_size -> off < 2 ^ 31 ->
  cls_cxx_write2 osd_max_object_size off (zlen bl) bl o = Ok (inl tt, Obj (write_at (Z.to_nat off) bl (data o)) (xattr o)).
Proof.
  intros Ho Hl Hm H31. pose proof (zlen_nonneg bl). unfold cls_cxx_write2, check_offset_and_length.
  rewrite !extent_id, Z.eqb_refl, u64_id by lia. cbn [negb].
  rewrite (proj2 (Z.leb_gt _ _)), !(proj2 (Z.ltb_ge _ _)) by lia. done.
Qed.

Lemma write_zero_ok off len o : 0 <= off < osd_max_object_size -> 0 <= len < 2 ^ 31 -> off + len <= osd_max_object_size -> off < 2 ^ 31 ->
  cls_cxx_write_zero osd_max_object_size off len o = Ok (inl tt, Obj (zero_at (Z.to_nat off) (Z.to_nat len) (data o)) (xattr o)).
Proof.
  intros Ho Hl Hm H31. unfold cls_cxx_write_zero, check_offset_and_length. rewrite !extent_id, u64_id by lia.
  rewrite (proj2 (Z.leb_gt _ _)), !(proj2 (Z.ltb_ge _ _)) by lia. done.
Qed.

(** ** The head *)

Definition head_bytes (h : cls_queue_head) : list Z := le 2 QUEUE_HEAD_START ++ le 8 (zlen (encode_head h)) ++ encode_head h.

Record head_wf (h : cls_queue_head) : Prop := {
  hw_size : zlen (head_bytes h) <= max_head_size h < queue_size h;
  hw_small : queue_size h < 2 ^ 31;
  hw_front : u64_marker (front h);
  hw_tail : u64_marker (tail h);
  hw_urgent : 0 <= max_urgent_data_size h < 2 ^ 64
}.

Lemma zlen_encode_head h : zlen (encode_head h) = 78 + zlen (bl_urgent_data h).
Proof. unfold encode_head, encode_marker, encode_bl, encode_struct. rewrite !zlen_app, !zlen_le. unfold zlen. cbn [length]. lia. Qed.

Lemma zlen_head_bytes h : zlen (head_bytes h) = 88 + zlen (bl_urgent_data h).
Proof. unfold head_bytes. rewrite !zlen_app, !zlen_le, zlen_encode_head. lia. Qed.

Lemma decodes_marker m : u64_marker m -> decodes decode_marker (encode_marker m) m.
Proof.
  intros [Ho Hg]. apply decodes_struct; [lia | lia | rewrite zlen_app, !zlen_le; lia |].
  rewrite <- (app_nil_r (le 8 (offset m))). destruct m as [o g].
  apply (decodes_bind _ _ _ _ g); [by apply decodes_le |]. apply (decodes_bind _ _ _ _ o); [by apply decodes_le |]. apply decodes_ret.
Qed.

Lemma decodes_head h : head_wf h -> decodes decode_head (encode_head h) h.
Proof.
  intros [Hsz Hsm Hf Ht Hu]. rewrite zlen_head_bytes in Hsz. pose proof (zlen_nonneg (bl_urgent_data h)). apply decodes_struct; [lia | lia | |].
  - unfold encode_marker, encode_bl, encode_struct. rewrite !zlen_app, !zlen_le. change (zlen [1; 1]) with 2. lia.
  - destruct h as [m f t q u bl]. cbn [max_head_size front tail queue_size max_urgent_data_size bl_urgent_data] in *. rewrite <- (app_nil_r (encode_bl bl)).
    repeat (eapply decodes_bind; [first [by apply decodes_marker | apply decodes_bl; lia | apply decodes_le; lia] |]). apply decodes_ret.
Qed.

Lemma read_head_ok h o rest : head_wf h -> data o = head_bytes h ++ rest -> queue_read_head o = Ok (inl h, o).
Proof.
  intros Hw Hd. pose proof (hw_size h Hw) as Hs. rewrite zlen_head_bytes in Hs. pose proof (hw_small h Hw).
  pose proof (zlen_nonneg (bl_urgent_data h)). pose proof (zlen_encode_head h) as Hl.
  unfold queue_read_head. unfold mbind at 1, cls_bind at 1. rewrite read2_ok by lia. change (drop (Z.to_nat 0) (data o)) with (data o).
  set (e := encode_head h) in *. change (Z.to_nat 1024) with 1024%nat.
  assert (take 1024 (data o) = le 2 QUEUE_HEAD_START ++ le 8 (zlen e) ++ take 1014 (e ++ rest)) as ->.
  { rewrite Hd. unfold head_bytes. fold e. rewrite <- !app_assoc.
    rewrite !take_app, !length_le. rewrite !(take_ge (le _ _)) by (rewrite length_le; lia). done. }
  rewrite zlen_app, zlen_le. destruct (Z.eqb_spec (Z.of_nat 2 + zlen (le 8 (zlen e) ++ take 1014 (e ++ rest))) 0);
    [pose proof (zlen_nonneg (le 8 (zlen e) ++ take 1014 (e ++ rest))); lia |].
  rewrite decode_le_app by done. rewrite Z.eqb_refl. cbn [negb]. rewrite decode_le_app by lia.
  unfold QUEUE_ENTRY_OVERHEAD. unfold zlen in Hl, Hs. destruct (Z.ltb_spec (1024 - 10) (zlen e)) as [Hb | Hb]; unfold zlen in Hb.
  - unfold mbind, cls_bind. rewrite read2_ok by (unfold zlen; lia).
    assert (take 1014 (e ++ rest) ++ take (Z.to_nat (zlen e - (1024 - 10))) (drop (Z.to_nat 1024) (data o)) = e) as ->.
    { rewrite take_app_le by lia. rewrite Hd. unfold head_bytes. fold e. rewrite <- !app_assoc, !drop_app, !length_le.
      rewrite !(drop_ge (le _ _)) by (rewrite length_le; lia). cbn [app Nat.sub]. change (Z.to_nat 1024 - 2 - 8)%nat with 1014%nat.
      rewrite take_app_le by (rewrite length_drop; unfold zlen; lia). rewrite (take_ge (drop _ _)) by (rewrite length_drop; unfold zlen; lia).
      apply take_drop. }
    pose proof (decodes_head h Hw []) as E. rewrite app_nil_r in E. fold e in E. by rewrite E.
  - unfold mbind, cls_bind, mret, cls_ret. rewrite app_nil_r, take_app_ge by lia.
    pose proof (decodes_head h Hw) as E. fold e in E. by rewrite E.
Qed.

Lemma write_head_ok h o : head_wf h -> queue_size h <= osd_max_object_size ->
  queue_write_head osd_max_object_size h o = Ok (inl tt, Obj (write_at 0 (head_bytes h) (data o)) (xattr o)).
Proof.
  intros Hw Hm. pose proof (hw_size h Hw). pose proof (hw_small h Hw). pose proof (zlen_nonneg (head_bytes h)).
  unfold queue_write_head. fold (head_bytes h). destruct (Z.ltb_spec (max_head_size h) (zlen (head_bytes h))); [lia |].
  apply (write2_ok 0); lia.
Qed.

Lemma write_at_0 bl d : write_at 0 bl d = bl ++ drop (length bl) d.
Proof. done. Qed.

(** ** The ring *)

Definition cap (h : cls_queue_head) : Z := queue_size h - max_head_size h.
Definition mark (h : cls_queue_head) (a : Z) : cls_queue_marker := Marker (max_head_size h + a mod cap h) (u64 (a / cap h)).
Definition pos (h : cls_queue_head) (a : Z) : nat := Z.to_nat (max_head_size h + a mod cap h).

(** The bytes of the stream from [a] on. *)
Definition holds (h : cls_queue_head) (d : list Z) (a : Z) (bs : list Z) : Prop :=
  forall i b, bs !! i = Some b -> d !! pos h (a + Z.of_nat i) = Some b.

Lemma mod_near C a i : 0 < C -> 0 <= i <= C ->
  (a mod C + i < C /\ (a + i) mod C = a mod C + i /\ (a + i) / C = a / C) \/
  (C <= a mod C + i /\ (a + i) mod C = a mod C + i - C /\ (a + i) / C = a / C + 1).
Proof.
  intros HC Hi. pose proof (Z.mod_pos_bound a C HC). pose proof (Z.div_mod a C ltac:(lia)) as E.
  destruct (decide (a mod C + i < C)); [left | right]; (split; [lia |]).
  - assert (a + i = C * (a / C) + (a mod C + i)) as Es by lia.
    split; [symmetry; apply (Z.mod_unique _ _ (a / C)) | symmetry; apply (Z.div_unique _ _ _ (a mod C + i))]; lia.
  - assert (a + i = C * (a / C + 1) + (a mod C + i - C)) as Es by lia.
    split; [symmetry; apply (Z.mod_unique _ _ (a / C + 1)) | symmetry; apply (Z.div_unique _ _ _ (a mod C + i - C))]; lia.
Qed.

Lemma mod_differ C x y : 0 < y - x < C -> x mod C <> y mod C.
Proof.
  intros H E. destruct (mod_near C x (y - x)) as [[_ [Em _]] | [_ [Em _]]]; [lia | lia | |];
    replace (x + (y - x)) with y in Em by lia; lia.
Qed.

Lemma holds_app h d a bs bs' : holds h d a (bs ++ bs') <-> holds h d a bs /\ holds h d (a + zlen bs) bs'.
Proof.
  unfold holds, zlen. split.
  - intros H. split; intros i b Hi.
    + apply H. by apply lookup_app_l_Some.
    + rewrite <- Z.add_assoc, <- Nat2Z.inj_add. apply H. rewrite lookup_app_r by lia. rewrite <- Hi. f_equal. lia.
  - intros [H H'] i b Hi. apply lookup_app_Some in Hi as [Hi | [Hl Hi]]; [by apply H |].
    replace (a + Z.of_nat i) with (a + Z.of_nat (length bs) + Z.of_nat (i - length bs)) by lia. by apply H'.
Qed.

Lemma holds_mono h d d' a bs : holds h d a bs ->
  (forall i b, (i < length bs)%nat -> d !! pos h (a + Z.of_nat i) = Some b -> d' !! pos h (a + Z.of_nat i) = Some b) -> holds h d' a bs.
Proof. intros H Hd i b Hi. apply Hd; [by eapply lookup_lt_Some | by apply H]. Qed.

Section Ring.
Context (h : cls_queue_head) (Hh : 0 <= max_head_size h < queue_size h).

Lemma cap_pos : 0 < cap h.
Proof. unfold cap. lia. Qed.

Lemma pos_near a i : a mod cap h + Z.of_nat i < cap h -> pos h (a + Z.of_nat i) = (pos h a + i)%nat.
Proof.
  intros Hi. pose proof cap_pos. pose proof (Z.mod_pos_bound a (cap h)). unfold pos.
  destruct (mod_near (cap h) a (Z.of_nat i)) as [(_ & -> & _) | ?]; lia.
Qed.

(** Writing after the last byte, up to the end of the ring. *)
Lemma holds_write d f bs bl : holds h d f bs -> zlen bs + zlen bl <= cap h -> (f + zlen bs) mod cap h + zlen bl <= cap h ->
  holds h (write_at (pos h (f + zlen bs)) bl d) f (bs ++ bl).
Proof.
  intros H Hfit Hend. pose proof cap_pos. apply holds_app. split.
  - eapply holds_mono; [exact H |]. intros i b Hi Hb. apply lookup_write_at_out; [exact Hb |]. intros [H1 H2].
    destruct (Nat.le_exists_sub _ _ H1) as (j & Ej & _). unfold zlen in *.
    assert (pos h (f + Z.of_nat i) = pos h (f + Z.of_nat (length bs) + Z.of_nat j)) as E by (rewrite (pos_near (f + Z.of_nat (length bs))); lia).
    unfold pos in E. apply (mod_differ (cap h) (f + Z.of_nat i) (f + Z.of_nat (length bs) + Z.of_nat j)); [lia |].
    pose proof (Z.mod_pos_bound (f + Z.of_nat i) (cap h)). pose proof (Z.mod_pos_bound (f + Z.of_nat (length bs) + Z.of_nat j) (cap h)). lia.
  - intros i b Hi. pose proof (lookup_lt_Some _ _ _ Hi). unfold zlen in *. rewrite pos_near by lia.
    rewrite lookup_write_at_in by lia. rewrite <- Hi. f_equal. lia.
Qed.

(** Reading up to the end of the ring. *)
Lemma holds_read d a bs n : holds h d a bs -> (n <= length bs)%nat -> a mod cap h + Z.of_nat n <= cap h ->
  take n (drop (pos h a) d) = take n bs.
Proof.
  intros H Hn Hend. apply list_eq. intros i. destruct (decide (i < n)%nat); [| by rewrite !lookup_take_ge by lia].
  rewrite !lookup_take_lt, lookup_drop by lia. destruct (lookup_lt_is_Some_2 bs i ltac:(lia)) as [b Hb]. rewrite Hb.
  rewrite <- pos_near by lia. by apply H.
Qed.

Lemma pos_offset a : Z.to_nat (offset (mark h a)) = pos h a.
Proof. done. Qed.

Lemma mark_u64 a : queue_size h < 2 ^ 31 -> u64_marker (mark h a).
Proof.
  intros. pose proof cap_pos. pose proof (Z.mod_pos_bound a (cap h)). unfold u64_marker, mark, u64, cap in *. cbn [offset gen].
  split; [lia | apply Z.mod_pos_bound; lia].
Qed.

Lemma mark_bounds a : max_head_size h <= offset (mark h a) < queue_size h.
Proof. pose proof cap_pos. pose proof (Z.mod_pos_bound a (cap h)). unfold mark, cap in *. cbn [offset]. lia. Qed.
End Ring.

Lemma u64_succ g : u64 (u64 g + 1) = u64 (g + 1).
Proof. unfold u64. by rewrite Zplus_mod_idemp_l. Qed.

(** Moving a marker on, up to the end of the ring. *)
Lemma mark_advance h a n : 0 <= max_head_size h < queue_size h -> 0 <= n -> a mod cap h + n <= cap h ->
  at_end h (Marker (max_head_size h + a mod cap h + n) (u64 (a / cap h))) = mark h (a + n).
Proof.
  intros Hh Hn Hend. pose proof (cap_pos h Hh). pose proof (Z.mod_pos_bound a (cap h)). unfold at_end, mark. cbn [offset gen].
  destruct (mod_near (cap h) a n) as [(? & -> & ->) | (? & -> & ->)]; [lia | lia | |].
  - destruct (Z.eqb_spec (max_head_size h + a mod cap h + n) (queue_size h)); [unfold cap in *; lia |]. f_equal. lia.
  - destruct (Z.eqb_spec (max_head_size h + a mod cap h + n) (queue_size h)); [| unfold cap in *; lia].
    rewrite u64_succ. f_equal. unfold cap in *. lia.
Qed.

(** ** Queues *)

Definition stream (es : list (list Z)) : list Z := concat (entry_bytes <$> es).

Lemma stream_app es es' : stream (es ++ es') = stream es ++ stream es'.
Proof. unfold stream. by rewrite fmap_app, concat_app. Qed.

Lemma stream_cons e es : stream (e :: es) = entry_bytes e ++ stream es.
Proof. done. Qed.

Lemma stream_one e : stream [e] = entry_bytes e.
Proof. rewrite stream_cons. apply app_nil_r. Qed.

Lemma zlen_entry d : zlen (entry_bytes d) = 10 + zlen d.
Proof. unfold entry_bytes. rewrite !zlen_app, !zlen_le. lia. Qed.

(** The ring holds the entries [es], and the first of them is at [f]. *)
Record ring (h : cls_queue_head) (d : list Z) (f : Z) (es : list (list Z)) : Prop := {
  rg_wf : head_wf h;
  rg_max : queue_size h <= osd_max_object_size;
  rg_front : front h = mark h f;
  rg_tail : tail h = mark h (f + zlen (stream es));
  rg_fits : zlen (stream es) <= cap h;
  rg_bytes : holds h d f (stream es)
}.

(** The object of a queue. *)
Definition queue (h : cls_queue_head) (o : object) (f : Z) (es : list (list Z)) : Prop :=
  (exists rest, data o = head_bytes h ++ rest) /\ ring h (data o) f es.

Lemma ring_geometry h d f es : ring h d f es -> 0 <= max_head_size h < queue_size h /\ queue_size h < 2 ^ 31 /\ queue_size h <= osd_max_object_size.
Proof. intros [Hw ? _ _ _ _]. pose proof (hw_size h Hw). pose proof (hw_small h Hw). pose proof (zlen_nonneg (head_bytes h)). lia. Qed.

Lemma ring_set_tail h d d' f es es' : ring h d f es -> zlen (stream (es ++ es')) <= cap h -> holds h d' f (stream (es ++ es')) ->
  ring (set_tail (mark h (f + zlen (stream (es ++ es')))) h) d' f (es ++ es').
Proof.
  intros Hr Hfit Hb. destruct (ring_geometry _ _ _ _ Hr) as (? & ? & _). destruct Hr as [[Hs Hsm Hf Ht Hu] Hm Hfr _ _ _].
  split; [split; try done; by apply mark_u64 | done..].
Qed.

(** Where the tail is, seen from the front. *)
Lemma ring_tail_near h d f es : ring h d f es ->
  let n := zlen (stream es) in
  (f mod cap h + n < cap h /\ (f + n) mod cap h = f mod cap h + n /\ (f + n) / cap h = f / cap h) \/
  (cap h <= f mod cap h + n /\ (f + n) mod cap h = f mod cap h + n - cap h /\ (f + n) / cap h = f / cap h + 1).
Proof.
  intros Hr. destruct (ring_geometry _ _ _ _ Hr) as (Hg & _). apply mod_near; [by apply cap_pos |].
  split; [apply zlen_nonneg | apply Hr].
Qed.

Lemma enqueue_entry_ok h o f es e : ring h (data o) f es -> zlen (stream (es ++ [e])) <= cap h ->
  exists d', enqueue_entry osd_max_object_size e h o = Ok (inl (set_tail (mark h (f + zlen (stream (es ++ [e])))) h), Obj d' (xattr o)) /\
    ring (set_tail (mark h (f + zlen (stream (es ++ [e])))) h) d' f (es ++ [e]).
Proof.
  intros Hr Hfit. destruct (ring_geometry _ _ _ _ Hr) as (Hg & H31 & Hmax). pose proof (cap_pos h Hg) as HC.
  pose proof (ring_tail_near _ _ _ _ Hr) as Hnear. cbv zeta in Hnear.
  assert (stream (es ++ [e]) = stream es ++ entry_bytes e) as Es by (by rewrite stream_app, stream_one).
  rewrite Es in *. rewrite zlen_app in *. pose proof (zlen_nonneg (stream es)). pose proof (zlen_entry e) as HL. pose proof (zlen_nonneg e).
  set (t := f + zlen (stream es)) in *. set (b := entry_bytes e) in *.
  pose proof (Z.mod_pos_bound f (cap h) HC). pose proof (Z.mod_pos_bound t (cap h) HC) as HT.
  assert (max_head_size h + cap h = queue_size h) as HQ by (unfold cap; lia).
  assert (forall d', holds h d' f (stream es ++ b) -> ring (set_tail (mark h (f + (zlen (stream es) + zlen b))) h) d' f (es ++ [e])) as Hdone.
  { intros d' Hb. replace (zlen (stream es) + zlen b) with (zlen (stream (es ++ [e]))) by (rewrite Es, zlen_app; done).
    eapply ring_set_tail; [exact Hr | by rewrite Es, zlen_app | by rewrite Es]. }
  replace (f + (zlen (stream es) + zlen b)) with (t + zlen b) in * by lia.
  unfold enqueue_entry. fold b. rewrite (rg_front _ _ _ _ Hr), (rg_tail _ _ _ _ Hr). fold t.
  change (offset (mark h f)) with (max_head_size h + f mod cap h). change (offset (mark h t)) with (max_head_size h + t mod cap h).
  change (gen (mark h t)) with (u64 (t / cap h)).
  destruct (Z.leb_spec (max_head_size h + f mod cap h) (max_head_size h + t mod cap h)) as [Hft | Hft].
  - rewrite u64_id by lia. destruct (Z.leb_spec (max_head_size h + t mod cap h + zlen b) (queue_size h)) as [Hlin | Hwrap].
    + unfold mbind, cls_bind, mret, cls_ret. rewrite write2_ok by lia. eexists. rewrite mark_advance by lia. split; [done |].
      apply Hdone, holds_write; [done | apply Hr | lia | fold t; lia].
    + assert (cap h - t mod cap h < zlen b) as Hb by lia.
      rewrite (u64_id (queue_size h - (max_head_size h + t mod cap h))), (u64_id (max_head_size h + f mod cap h - max_head_size h)) by lia.
      rewrite (u64_id (queue_size h - (max_head_size h + t mod cap h) + _)) by lia.
      destruct (Z.leb_spec (zlen b) (queue_size h - (max_head_size h + t mod cap h) + (max_head_size h + f mod cap h - max_head_size h))); [| lia].
      replace (queue_size h - (max_head_size h + t mod cap h)) with (cap h - t mod cap h) by lia.
      set (n := Z.to_nat (cap h - t mod cap h)).
      assert (zlen (take n b) = cap h - t mod cap h) as Ht1 by (unfold zlen in *; rewrite length_take; lia).
      assert (zlen (drop n b) = zlen b - (cap h - t mod cap h)) as Ht2 by (unfold zlen in *; rewrite length_drop; lia).
      unfold mbind, cls_bind, mret, cls_ret. rewrite write2_ok by lia. rewrite write2_ok by lia. cbn [data xattr].
      destruct (mod_near (cap h) t (cap h - t mod cap h)) as [? | (_ & Em & Ed)]; [lia | lia | lia |].
      set (t1 := t + (cap h - t mod cap h)) in *. eexists. rewrite Ht2, u64_succ, <- Ed, u64_id by lia.
      replace (max_head_size h + (zlen b - (cap h - t mod cap h))) with (max_head_size h + t1 mod cap h + (zlen b - (cap h - t mod cap h))) by lia.
      rewrite mark_advance by lia. replace (t1 + (zlen b - (cap h - t mod cap h))) with (t + zlen b) by (unfold t1; lia).
      split; [reflexivity |]. apply Hdone.
      replace (stream es ++ b) with ((stream es ++ take n b) ++ drop n b) by (by rewrite <- app_assoc, take_drop).
      assert (f + zlen (stream es ++ take n b) = t1) as Et1 by (rewrite zlen_app; unfold t1; lia).
      replace (Z.to_nat (max_head_size h)) with (pos h (f + zlen (stream es ++ take n b))) by (rewrite Et1; unfold pos; lia).
      apply holds_write; [done | | rewrite zlen_app; lia | rewrite Et1; lia].
      apply holds_write; [done | apply Hr | lia | fold t; lia].
  - rewrite u64_id by lia. destruct (Z.leb_spec (max_head_size h + t mod cap h + zlen b) (max_head_size h + f mod cap h)); [| lia].
    unfold mbind, cls_bind, mret, cls_ret. rewrite write2_ok by lia. eexists. rewrite mark_advance by lia. split; [done |].
    apply Hdone, holds_write; [done | apply Hr | lia | fold t; lia].
Qed.

Lemma enqueue_entry_full h o f es e : ring h (data o) f es -> zlen (stream es) < cap h -> cap h < zlen (stream (es ++ [e])) -> zlen e < 2 ^ 32 ->
  enqueue_entry osd_max_object_size e h o = Ok (inr (- ENOSPC), o).
Proof.
  intros Hr Hfull Hfit Hsmall. destruct (ring_geometry _ _ _ _ Hr) as (Hg & H31 & Hmax). pose proof (cap_pos h Hg) as HC.
  pose proof (ring_tail_near _ _ _ _ Hr) as Hnear. cbv zeta in Hnear.
  rewrite stream_app, stream_one, zlen_app in Hfit.
  pose proof (zlen_nonneg (stream es)). pose proof (zlen_entry e) as HL. pose proof (zlen_nonneg e).
  set (t := f + zlen (stream es)) in *. set (b := entry_bytes e) in *.
  pose proof (Z.mod_pos_bound f (cap h) HC). pose proof (Z.mod_pos_bound t (cap h) HC) as HT.
  assert (max_head_size h + cap h = queue_size h) as HQ by (unfold cap; lia).
  unfold enqueue_entry. fold b. rewrite (rg_front _ _ _ _ Hr), (rg_tail _ _ _ _ Hr). fold t.
  change (offset (mark h f)) with (max_head_size h + f mod cap h). change (offset (mark h t)) with (max_head_size h + t mod cap h).
  change (gen (mark h t)) with (u64 (t / cap h)). rewrite u64_id by lia. unfold mbind, cls_bind.
  destruct (Z.leb_spec (max_head_size h + f mod cap h) (max_head_size h + t mod cap h)) as [Hft | Hft].
  - rewrite (proj2 (Z.leb_gt _ _)) by lia.
    rewrite (u64_id (queue_size h - (max_head_size h + t mod cap h))), (u64_id (max_head_size h + f mod cap h - max_head_size h)) by lia.
    rewrite u64_id by lia. by rewrite (proj2 (Z.leb_gt _ _)) by lia.
  - by rewrite (proj2 (Z.leb_gt _ _)) by lia.
Qed.

Lemma set_tail_same h : set_tail (tail h) h = h.
Proof. by destruct h. Qed.

Lemma enqueue_each_ok ds h o f es : ring h (data o) f es -> zlen (stream (es ++ ds)) <= cap h ->
  exists d', enqueue_each osd_max_object_size ds h o = Ok (inl (set_tail (mark h (f + zlen (stream (es ++ ds)))) h), Obj d' (xattr o)) /\
    ring (set_tail (mark h (f + zlen (stream (es ++ ds)))) h) d' f (es ++ ds).
Proof.
  revert h o es. induction ds as [| e ds IH]; intros h o es Hr Hfit.
  - rewrite app_nil_r. rewrite <- (rg_tail _ _ _ _ Hr), set_tail_same. exists (data o). by destruct o.
  - change (e :: ds) with ([e] ++ ds) in *. rewrite app_assoc in *.
    assert (zlen (stream (es ++ [e])) <= cap h) as Hfit1.
    { rewrite (stream_app (es ++ [e])), zlen_app in Hfit. pose proof (zlen_nonneg (stream ds)). lia. }
    destruct (enqueue_entry_ok h o f es e Hr Hfit1) as (d1 & E1 & Hr1).
    destruct (IH _ (Obj d1 (xattr o)) _ Hr1) as (d2 & E2 & Hr2); [exact Hfit |].
    exists d2. cbn [app enqueue_each]. unfold mbind, cls_bind. rewrite E1, E2. by split.
Qed.

(** Some of the entries fill the queue exactly, and there are more. *)
Definition exact_fill (h : cls_queue_head) (es ds : list (list Z)) : Prop :=
  exists p q, ds = p ++ q /\ p <> [] /\ q <> [] /\ zlen (stream (es ++ p)) = cap h.

Lemma enqueue_each_full ds h o f es : ring h (data o) f es -> zlen (stream es) < cap h -> cap h < zlen (stream (es ++ ds)) ->
  ~ exact_fill h es ds -> Forall (fun e => zlen e < 2 ^ 32) ds ->
  exists o', enqueue_each osd_max_object_size ds h o = Ok (inr (- ENOSPC), o').
Proof.
  revert h o es. induction ds as [| e ds IH]; intros h o es Hr Hfree Hfull Hx Hsmall; [rewrite app_nil_r in Hfull; lia |].
  apply Forall_cons_1 in Hsmall as [He Hsmall]. cbn [enqueue_each]. unfold mbind, cls_bind.
  destruct (decide (cap h < zlen (stream (es ++ [e])))) as [Hf | Hf]; [rewrite (enqueue_entry_full h o f es e) by done; eauto |].
  assert (e :: ds = [e] ++ ds) as Ecat by done. rewrite Ecat, app_assoc in Hfull.
  destruct (enqueue_entry_ok h o f es e Hr) as (d1 & E1 & Hr1); [lia |]. rewrite E1. eapply (IH _ (Obj d1 (xattr o))); [exact Hr1 | | done | | done].
  - enough (zlen (stream (es ++ [e])) < cap h) by done. destruct ds as [| d ds]; [rewrite app_nil_r in Hfull; lia |].
    assert (zlen (stream (es ++ [e])) <> cap h); [| lia]. intros E. apply Hx. by exists [e], (d :: ds).
  - intros (p & q & -> & Hp & Hq & E). apply Hx. exists (e :: p), q. split_and!; [done | done | done |].
    etransitivity; [| exact E]. by rewrite <- app_assoc.
Qed.

(** The tests of the code. *)
Lemma u64_succ_neq g : u64 g <> u64 (g + 1).
Proof. unfold u64. apply mod_differ. lia. Qed.

Lemma ring_full_test h d f es : ring h d f es ->
  (offset (front h) =? offset (tail h)) && (gen (tail h) =? u64 (gen (front h) + 1)) = (zlen (stream es) =? cap h).
Proof.
  intros Hr. destruct (ring_geometry _ _ _ _ Hr) as (Hg & _ & _). pose proof (cap_pos h Hg) as HC.
  pose proof (Z.mod_pos_bound f (cap h) HC). pose proof (zlen_nonneg (stream es)). pose proof (rg_fits _ _ _ _ Hr).
  rewrite (rg_front _ _ _ _ Hr), (rg_tail _ _ _ _ Hr). unfold mark. cbn [offset gen]. rewrite u64_succ.
  destruct (ring_tail_near _ _ _ _ Hr) as [(Hn & -> & ->) | (Hn & -> & ->)].
  - pose proof (u64_succ_neq (f / cap h)). rewrite (proj2 (Z.eqb_neq (u64 (f / cap h)) _)) by done.
    rewrite andb_false_r. symmetry. apply Z.eqb_neq. lia.
  - rewrite Z.eqb_refl, andb_true_r. destruct (Z.eqb_spec (zlen (stream es)) (cap h)); [apply Z.eqb_eq | apply Z.eqb_neq]; lia.
Qed.

Lemma mark_eqb h x y : 0 <= max_head_size h < queue_size h -> 0 <= y - x <= cap h -> marker_eqb (mark h x) (mark h y) = (x =? y).
Proof.
  intros Hg Hxy. pose proof (cap_pos h Hg) as HC. pose proof (Z.mod_pos_bound x (cap h) HC). unfold marker_eqb, mark. cbn [offset gen].
  replace y with (x + (y - x)) at 1 2 by lia. destruct (mod_near (cap h) x (y - x)) as [(Hn & -> & ->) | (Hn & -> & ->)]; [lia | lia | |].
  - rewrite Z.eqb_refl, andb_true_r. destruct (Z.eqb_spec x y); [apply Z.eqb_eq | apply Z.eqb_neq]; lia.
  - rewrite (proj2 (Z.eqb_neq (u64 (x / cap h)) _)) by apply u64_succ_neq. rewrite andb_false_r. symmetry. apply Z.eqb_neq. lia.
Qed.

Lemma ring_empty_test h d f es : ring h d f es -> marker_eqb (front h) (tail h) = (zlen (stream es) =? 0).
Proof.
  intros Hr. destruct (ring_geometry _ _ _ _ Hr) as (Hg & _ & _). pose proof (zlen_nonneg (stream es)). pose proof (rg_fits _ _ _ _ Hr).
  rewrite (rg_front _ _ _ _ Hr), (rg_tail _ _ _ _ Hr), mark_eqb by (done || lia).
  destruct (Z.eqb_spec (zlen (stream es)) 0); [apply Z.eqb_eq | apply Z.eqb_neq]; lia.
Qed.

(** ** Methods that change the queue *)

Lemma queue_stored h d x f es : ring h d f es ->
  exists o', queue_write_head osd_max_object_size h (Obj d x) = Ok (inl tt, o') /\ queue h o' f es /\ xattr o' = x.
Proof.
  intros Hr. eexists. rewrite write_head_ok by apply Hr. split; [reflexivity |]. split; [| done]. split.
  - cbn [data]. rewrite write_at_0. eauto.
  - destruct Hr as [Hw Hm Hf Ht Hfit Hb]. split; try done. cbn [data]. eapply holds_mono; [exact Hb |]. intros i b _ Hd.
    apply lookup_write_at_out; [exact Hd |]. pose proof (hw_size h Hw). pose proof (zlen_nonneg (head_bytes h)).
    pose proof (Z.mod_pos_bound (f + Z.of_nat i) (cap h)). unfold pos, cap, zlen in *. lia.
Qed.

Lemma queue_read h o f es : queue h o f es -> queue_read_head o = Ok (inl h, o).
Proof. intros [[rest Hd] Hr]. eapply read_head_ok; [apply Hr | exact Hd]. Qed.

Lemma queue_enqueue_ok ds h o f es : ring h (data o) f es -> (ds = [] -> zlen (stream es) < cap h) -> zlen (stream (es ++ ds)) <= cap h ->
  exists d', queue_enqueue osd_max_object_size ds h o = Ok (inl (set_tail (mark h (f + zlen (stream (es ++ ds)))) h), Obj d' (xattr o)) /\
    ring (set_tail (mark h (f + zlen (stream (es ++ ds)))) h) d' f (es ++ ds).
Proof.
  intros Hr Hds Hfit. unfold queue_enqueue. rewrite (ring_full_test _ _ _ _ Hr). destruct (Z.eqb_spec (zlen (stream es)) (cap h)) as [E | E].
  - destruct ds as [| e ds]; [specialize (Hds eq_refl); lia |]. rewrite stream_app, stream_cons, !zlen_app, zlen_entry in Hfit.
    pose proof (zlen_nonneg e). pose proof (zlen_nonneg (stream ds)). lia.
  - by apply enqueue_each_ok.
Qed.

Lemma cls_enqueue_ok ds h o f es : queue h o f es -> (ds = [] -> zlen (stream es) < cap h) -> zlen (stream (es ++ ds)) <= cap h ->
  exists o', call (cls_queue_enqueue osd_max_object_size ds) o = Ok (inl tt, o') /\ xattr o' = xattr o /\
    queue (set_tail (mark h (f + zlen (stream (es ++ ds)))) h) o' f (es ++ ds).
Proof.
  intros Hq Hds Hfit. unfold call, cls_queue_enqueue. unfold mbind, cls_bind. rewrite (queue_read _ _ _ _ Hq).
  destruct (queue_enqueue_ok ds h o f es (proj2 Hq) Hds Hfit) as (d' & -> & Hr').
  destruct (queue_stored _ _ (xattr o) _ _ Hr') as (o' & -> & Hq' & Hx). eauto.
Qed.

Lemma cls_enqueue_full ds h o f es : queue h o f es -> zlen (stream es) = cap h \/ cap h < zlen (stream (es ++ ds)) -> ~ exact_fill h es ds ->
  Forall (fun e => zlen e < 2 ^ 32) ds -> call (cls_queue_enqueue osd_max_object_size ds) o = Ok (inr (- ENOSPC), o).
Proof.
  intros Hq Hfull Hx Hsmall. pose proof Hq as [_ Hr]. unfold call, cls_queue_enqueue. unfold mbind, cls_bind. rewrite (queue_read _ _ _ _ Hq).
  unfold queue_enqueue. rewrite (ring_full_test _ _ _ _ Hr). destruct (Z.eqb_spec (zlen (stream es)) (cap h)); [done |].
  pose proof (rg_fits _ _ _ _ Hr). destruct (enqueue_each_full ds h o f es) as (o' & ->); [done | lia | lia | done..].
Qed.

(** Zeroing bytes that have been removed. *)
Lemma holds_zero h d f len a bs : 0 <= max_head_size h < queue_size h -> holds h d a bs -> 0 <= len -> f mod cap h + len <= cap h ->
  f + len <= a -> a + zlen bs <= f + cap h -> holds h (zero_at (pos h f) (Z.to_nat len) d) a bs.
Proof.
  intros Hg H Hl Hend Ha Hbs. pose proof (cap_pos h Hg). eapply holds_mono; [exact H |]. intros i b Hi Hb.
  apply lookup_zero_at_out; [exact Hb |]. intros [H1 H2]. destruct (Nat.le_exists_sub _ _ H1) as (j & Ej & _). unfold zlen in *.
  assert (pos h (a + Z.of_nat i) = pos h (f + Z.of_nat j)) as E by (rewrite (pos_near h Hg f); lia).
  unfold pos in E. apply (mod_differ (cap h) (f + Z.of_nat j) (a + Z.of_nat i)); [lia |].
  pose proof (Z.mod_pos_bound (a + Z.of_nat i) (cap h)). pose proof (Z.mod_pos_bound (f + Z.of_nat j) (cap h)). lia.
Qed.

Lemma zero_ok off len o : 0 <= off < osd_max_object_size -> 0 <= len < 2 ^ 31 -> off + len <= osd_max_object_size -> off < 2 ^ 31 ->
  zero_unless_empty osd_max_object_size off len o = Ok (inl tt, Obj (zero_at (Z.to_nat off) (Z.to_nat len) (data o)) (xattr o)).
Proof.
  intros. unfold zero_unless_empty. destruct (Z.ltb_spec 0 len); [by apply write_zero_ok |].
  replace len with 0 by lia. unfold zero_at. rewrite take_0, Nat.add_0_r. cbn [length replicate app]. rewrite take_drop. by destruct o.
Qed.

(** The position of the entry [k]. *)
Definition at_entry (f : Z) (es : list (list Z)) (k : nat) : Z := f + zlen (stream (take k es)).

Lemma at_entry_bounds f es k : f <= at_entry f es k <= f + zlen (stream es).
Proof.
  unfold at_entry. rewrite <- (take_drop k es) at 3. rewrite stream_app, zlen_app.
  pose proof (zlen_nonneg (stream (take k es))). pose proof (zlen_nonneg (stream (drop k es))). lia.
Qed.

Lemma stream_from f es k : zlen (stream es) = at_entry f es k - f + zlen (stream (drop k es)).
Proof. unfold at_entry. rewrite <- (take_drop k es) at 1. rewrite stream_app, zlen_app. lia. Qed.

Lemma holds_from h d f es k : holds h d f (stream es) -> holds h d (at_entry f es k) (stream (drop k es)).
Proof. intros H. rewrite <- (take_drop k es), stream_app in H. by apply holds_app in H as [_ H]. Qed.

Lemma ring_set_front h d d' f es k : ring h d f es -> holds h d' (at_entry f es k) (stream (drop k es)) ->
  ring (set_front (mark h (at_entry f es k)) h) d' (at_entry f es k) (drop k es).
Proof.
  intros Hr Hb. destruct (ring_geometry _ _ _ _ Hr) as (Hg & ? & _). destruct Hr as [[Hs Hsm Hf Ht Hu] Hm _ Htl Hfit _].
  pose proof (stream_from f es k). pose proof (at_entry_bounds f es k). split; try done.
  - split; try done. by apply mark_u64.
  - cbn [tail set_front]. rewrite Htl. unfold mark. do 3 f_equal; unfold at_entry in *; lia.
  - enough (zlen (stream (drop k es)) <= cap h) by done. lia.
Qed.

Lemma remove_entries_ok k h o f es : ring h (data o) f es ->
  exists d', queue_remove_entries osd_max_object_size (to_str (mark h (at_entry f es k))) h o =
      Ok (inl (set_front (mark h (at_entry f es k)) h), Obj d' (xattr o)) /\ holds h d' (at_entry f es k) (stream (drop k es)).
Proof.
  intros Hr. destruct (ring_geometry _ _ _ _ Hr) as (Hg & H31 & Hmax). pose proof (cap_pos h Hg) as HC.
  pose proof (holds_from _ _ _ _ k (rg_bytes _ _ _ _ Hr)) as Hb. pose proof (at_entry_bounds f es k) as Hk. pose proof (rg_fits _ _ _ _ Hr) as Hfit.
  pose proof (stream_from f es k) as Hlen.
  unfold queue_remove_entries. rewrite (ring_empty_test _ _ _ _ Hr), from_to_str by (by apply mark_u64).
  set (a := at_entry f es k) in *. pose proof (mark_bounds h Hg a) as Ha. pose proof (Z.mod_pos_bound f (cap h) HC) as HF.
  assert (max_head_size h + cap h = queue_size h) as HQ by (unfold cap; lia).
  destruct (Z.eqb_spec (zlen (stream es)) 0) as [E | E].
  { exists (data o). replace a with f in * by lia. rewrite <- (rg_front _ _ _ _ Hr). by destruct h, o. }
  assert (at_end h (mark h a) = mark h a) as -> by (unfold at_end; destruct (Z.eqb_spec (offset (mark h a)) (queue_size h)); [lia | done]).
  rewrite (rg_front _ _ _ _ Hr). unfold marker_eqb, mark in *. cbn [offset gen] in *. rewrite u64_succ.
  replace a with (f + (a - f)) in Ha |- * by lia.
  destruct (mod_near (cap h) f (a - f)) as [(Hn & -> & ->) | (Hn & -> & ->)]; [lia | lia | |].
  - rewrite (proj2 (Z.eqb_neq (u64 (f / cap h)) (u64 (f / cap h + 1)))) by apply u64_succ_neq.
    rewrite Z.eqb_refl, !andb_true_r, andb_false_r. unfold mbind, cls_bind.
    destruct (Z.ltb_spec (max_head_size h + f mod cap h) (max_head_size h + (f mod cap h + (a - f)))).
    + rewrite u64_id, zero_ok by lia. eexists. split; [reflexivity |].
      replace (f + (a - f)) with a by lia. change (Z.to_nat (max_head_size h + f mod cap h)) with (pos h f).
      apply holds_zero; [done | done | lia..].
    + rewrite (proj2 (Z.eqb_eq _ _)) by lia. exists (data o). replace (f + (a - f)) with a by lia. by destruct o.
  - rewrite (proj2 (Z.eqb_neq (u64 (f / cap h + 1)) (u64 (f / cap h)))) by (intros ?; by apply (u64_succ_neq (f / cap h))).
    rewrite andb_false_r, Z.eqb_refl, andb_true_r. rewrite (proj2 (Z.leb_le _ _)) by lia. unfold mbind, cls_bind.
    rewrite !u64_id, !zero_ok by lia. eexists. split; [reflexivity |]. cbn [data]. replace (f + (a - f)) with a by lia.
    set (len := queue_size h - (max_head_size h + f mod cap h)).
    destruct (mod_near (cap h) f len) as [? | (_ & Em & _)]; [lia | lia | lia |].
    replace (Z.to_nat (max_head_size h)) with (pos h (f + len)) by (unfold pos; lia).
    apply holds_zero; [done | | lia..]. apply (holds_zero h _ f len); [done | done | lia..].
Qed.

Lemma cls_remove_ok k h o f es : queue h o f es ->
  exists o', call (cls_queue_remove_entries osd_max_object_size (to_str (mark h (at_entry f es k)))) o = Ok (inl tt, o') /\
    xattr o' = xattr o /\ queue (set_front (mark h (at_entry f es k)) h) o' (at_entry f es k) (drop k es).
Proof.
  intros Hq. pose proof Hq as [_ Hr]. unfold call, cls_queue_remove_entries. unfold mbind, cls_bind. rewrite (queue_read _ _ _ _ Hq).
  destruct (remove_entries_ok k h o f es Hr) as (d' & -> & Hb).
  destruct (queue_stored _ _ (xattr o) _ _ (ring_set_front _ _ _ _ _ _ Hr Hb)) as (o' & -> & Hq' & Hx). eauto.
Qed.

(** ** Bounds

    What is written stays inside of the ring, also when the entries do not fit. *)

Record in_area (h : cls_queue_head) : Prop := {
  ia_wf : head_wf h;
  ia_max : queue_size h <= osd_max_object_size;
  ia_front : max_head_size h <= offset (front h) < queue_size h;
  ia_tail : max_head_size h <= offset (tail h) < queue_size h
}.

(** [d'] differs from [d] only inside of the ring. *)
Definition kept (h : cls_queue_head) (d d' : list Z) : Prop :=
  (length d <= length d' <= Nat.max (length d) (Z.to_nat (queue_size h)))%nat /\
  forall (j : nat) b, d !! j = Some b -> Z.of_nat j < max_head_size h \/ queue_size h <= Z.of_nat j -> d' !! j = Some b.

Lemma kept_refl h d : kept h d d.
Proof. split; [lia | done]. Qed.

Lemma kept_trans h d1 d2 d3 : kept h d1 d2 -> kept h d2 d3 -> kept h d1 d3.
Proof. intros [Hl1 H1] [Hl2 H2]. split; [lia |]. eauto. Qed.

Lemma write_kept h off bl d : 0 <= max_head_size h <= off -> off + zlen bl <= queue_size h -> kept h d (write_at (Z.to_nat off) bl d).
Proof.
  intros Ho Hl. unfold zlen in Hl. split; [rewrite length_write_at; lia |]. intros j b Hj Hout. apply lookup_write_at_out; [done | lia].
Qed.

Lemma area_set_tail h m : in_area h -> max_head_size h <= offset m <= queue_size h -> 0 <= gen m < 2 ^ 64 -> in_area (set_tail (at_end h m) h).
Proof.
  intros [[Hs Hsm Hf Ht Hu] Hm Hfr Htl] Hoff Hgen. pose proof (zlen_nonneg (head_bytes h)).
  assert (max_head_size h <= offset (at_end h m) < queue_size h /\ 0 <= gen (at_end h m) < 2 ^ 64) as [H1 H2].
  { unfold at_end. destruct (Z.eqb_spec (offset m) (queue_size h)); cbn [offset gen]; [| lia]. split; [lia | unfold u64; apply Z.mod_pos_bound; lia]. }
  split; [split | | |]; try done. cbn [tail set_tail]. split; lia.
Qed.

Definition area_step (h : cls_queue_head) (o : object) (r : res ((cls_queue_head + Z) * object)) : Prop :=
  exists a d', r = Ok (a, Obj d' (xattr o)) /\ kept h (data o) d' /\ (a = inr (- ENOSPC) \/ exists m, a = inl (set_tail m h) /\ in_area (set_tail m h)).

Lemma enqueue_entry_area e h o : in_area h -> zlen e < 2 ^ 32 -> area_step h o (enqueue_entry osd_max_object_size e h o).
Proof.
  intros Ha He. pose proof Ha as [[Hs H31 Hf Ht Hu] Hm Hfr Htl]. pose proof (zlen_nonneg (head_bytes h)). pose proof (zlen_nonneg e).
  pose proof (zlen_entry e) as HL. set (b := entry_bytes e) in *. destruct Ht as [_ Hgt]. unfold enqueue_entry. fold b.
  set (F := offset (front h)) in *. set (T := offset (tail h)) in *. unfold mbind, cls_bind, mret, cls_ret.
  assert (forall d', kept h (data o) d' -> area_step h o (Ok (inr (- ENOSPC), Obj d' (xattr o)))) as Hfull by (intros d' Hk; exists (inr (- ENOSPC)), d'; eauto).
  assert (forall d' off g, kept h (data o) d' -> max_head_size h <= off <= queue_size h -> 0 <= g < 2 ^ 64 ->
    area_step h o (Ok (inl (set_tail (at_end h (Marker off g)) h), Obj d' (xattr o)))) as Hdone.
  { intros d' off g Hk Hoff Hg. eexists _, d'. split; [done |]. split; [done |]. right. eexists. split; [done |]. by apply area_set_tail. }
  assert (area_step h o (throw ENOSPC o)) as Hthrow by (destruct o; apply Hfull, kept_refl).
  rewrite (u64_id (T + zlen b)) by lia. destruct (Z.leb_spec F T) as [Hft | Hft].
  - destruct (Z.leb_spec (T + zlen b) (queue_size h)) as [Hlin | Hwrap].
    + rewrite write2_ok by lia. apply Hdone; [apply write_kept; lia | lia | done].
    + rewrite (u64_id (queue_size h - T)), (u64_id (F - max_head_size h)), (u64_id (_ + _)) by lia.
      destruct (Z.leb_spec (zlen b) (queue_size h - T + (F - max_head_size h))); [| done].
      set (n := Z.to_nat (queue_size h - T)).
      assert (zlen (take n b) = queue_size h - T) as Hz1 by (unfold zlen in *; rewrite length_take; lia).
      assert (zlen (drop n b) = zlen b - (queue_size h - T)) as Hz2 by (unfold zlen in *; rewrite length_drop; lia).
      rewrite !write2_ok by lia. cbn [data xattr]. rewrite u64_id by lia. apply Hdone; [| lia | unfold u64; apply Z.mod_pos_bound; lia].
      eapply kept_trans; apply write_kept; lia.
  - destruct (Z.leb_spec (T + zlen b) F); [| done]. rewrite write2_ok by lia. apply Hdone; [apply write_kept; lia | lia | done].
Qed.

Lemma enqueue_each_area ds : forall h o, in_area h -> Forall (fun e => zlen e < 2 ^ 32) ds -> area_step h o (enqueue_each osd_max_object_size ds h o).
Proof.
  induction ds as [| e ds IH]; intros h o Ha Hsmall; cbn [enqueue_each].
  - exists (inl h), (data o). split; [by destruct o |]. split; [apply kept_refl |]. right. exists (tail h). by rewrite set_tail_same.
  - apply Forall_cons_1 in Hsmall as [He Hsmall]. destruct (enqueue_entry_area e h o Ha He) as (a & d1 & E1 & Hk1 & Hcase).
    unfold mbind, cls_bind. rewrite E1. destruct Hcase as [-> | (m & -> & Ha1)]; [by exists (inr (- ENOSPC)), d1; eauto |].
    destruct (IH _ (Obj d1 (xattr o)) Ha1 Hsmall) as (a2 & d2 & E2 & Hk2 & Hcase2). exists a2, d2. rewrite E2. split; [done |].
    split; [by eapply kept_trans |]. destruct Hcase2 as [-> | (m2 & -> & Ha2)]; [by left | right; by exists m2].
Qed.

(** C16. no entries make a queue write outside of its ring.  For every head with
    offsets in the ring, enqueuing any entries fails with ENOSPC and without
    effect, or changes the head and bytes between [max_head_size] and
    [queue_size] only, never makes the object longer than [queue_size], and leaves
    the offsets in the ring. *)
Theorem enqueue_in_bounds h o rest ds : data o = head_bytes h ++ rest -> in_area h -> Forall (fun e => zlen e < 2 ^ 32) ds ->
  call (cls_queue_enqueue osd_max_object_size ds) o = Ok (inr (- ENOSPC), o) \/
  exists o' m rest', call (cls_queue_enqueue osd_max_object_size ds) o = Ok (inl tt, o') /\
    data o' = head_bytes (set_tail m h) ++ rest' /\ in_area (set_tail m h) /\
    (length (data o') <= Nat.max (length (data o)) (Z.to_nat (queue_size h)))%nat /\
    forall (j : nat) b, data o !! j = Some b -> zlen (head_bytes h) <= Z.of_nat j < max_head_size h \/ queue_size h <= Z.of_nat j -> data o' !! j = Some b.
Proof.
  intros Hd Ha Hsmall. pose proof (hw_size h (ia_wf h Ha)) as Hs. unfold call, cls_queue_enqueue, mbind, cls_bind.
  rewrite (read_head_ok h o rest (ia_wf h Ha) Hd). unfold queue_enqueue. destruct (_ && _); [by left |].
  destruct (enqueue_each_area ds h o Ha Hsmall) as (a & d' & -> & [Hl Hk] & Hcase). destruct Hcase as [-> | (m & -> & Ha')]; [by left |]. right.
  rewrite write_head_ok by apply Ha'. eexists _, m, _. split; [reflexivity |]. cbn [data]. rewrite write_at_0 at 1.
  assert (zlen (head_bytes (set_tail m h)) = zlen (head_bytes h)) as El by (by rewrite !zlen_head_bytes).
  split; [done |]. split; [done |]. split.
  - rewrite length_write_at. unfold zlen in *. lia.
  - intros j b Hj Hout. apply lookup_write_at_out; [apply Hk; [done | lia] |]. unfold zlen in *. lia.
Qed.
End Limit.

Lemma enqueue_in_bounds_witness :
  let h := Head 1024 (Marker 1050 0) (Marker 1040 1) 1074 0 [] in
  let o := Obj (head_bytes h) None in
  call (cls_queue_enqueue 134217728 [[]; [1; 2; 3]]) o = Ok (inr (- ENOSPC), o) \/
  exists o' m rest', call (cls_queue_enqueue 134217728 [[]; [1; 2; 3]]) o = Ok (inl tt, o') /\
    data o' = head_bytes (set_tail m h) ++ rest' /\ in_area 134217728 (set_tail m h) /\
    (length (data o') <= Nat.max (length (data o)) (Z.to_nat (queue_size h)))%nat /\
    forall (j : nat) b, data o !! j = Some b -> zlen (head_bytes h) <= Z.of_nat j < max_head_size h \/ queue_size h <= Z.of_nat j -> data o' !! j = Some b.
Proof.
  apply (enqueue_in_bounds 134217728 _ _ []); [by rewrite app_nil_r | | by repeat constructor].
  split; [split; [vm_compute; done | done | split; cbn; lia | split; cbn; lia | cbn; lia] | done | cbn; lia | cbn; lia].
Defined.
