(* ===== verification/ClsQueueList.v ===== *)
(** * The queue object class: listing

    [queue_list_entries] reads the ring in chunks of 1024 bytes, and keeps what a
    chunk has of an incomplete entry for the next one. *)

From stdpp Require Import base list.
From S2P Require Import Prelude ClsQueue ClsQueueThms.

Local Open Scope Z_scope.

Lemma prefix_take_app {A} k (l new : list A) : new `prefix_of` drop k l -> take k l ++ new `prefix_of` l.
Proof. intros [x Ex]. exists x. by rewrite <- app_assoc, <- Ex, take_drop. Qed.

Section Listing.
Context (h : cls_queue_head) (Hg : 0 <= max_head_size h < queue_size h) (H31 : queue_size h < 2 ^ 31).

(** The entries with their markers, when the first is at [p]. *)
Fixpoint listed (p : Z) (es : list (list Z)) : list cls_queue_entry :=
  match es with
  | [] => []
  | e :: es => Entry e (to_str (mark h p)) :: listed (p + zlen (entry_bytes e)) es
  end.

Lemma listed_app p es es' : listed p (es ++ es') = listed p es ++ listed (p + zlen (stream es)) es'.
Proof.
  revert p. induction es as [| e es IH]; intros p; cbn [listed app]; [by rewrite Z.add_0_r |].
  rewrite IH, stream_cons, zlen_app, Z.add_assoc. done.
Qed.

(** The entries [es] from [p] on are still to be listed, and the bytes up to [r]
    have been read. *)
Inductive pending : listing -> list (list Z) -> Z -> Z -> Prop :=
  | pending_none ds n lm out es p : pending (Listing false false ds n [] lm out) es p p
  | pending_start ds n out es p (k : nat) : (k < 10)%nat -> es <> [] ->
      pending (Listing true false ds n (take k (stream es)) (to_str (mark h p)) out) es p (p + Z.of_nat k)
  | pending_data n out e es p (k : nat) : (k < length e)%nat ->
      pending (Listing true true (zlen e) n (take k e) (to_str (mark h p)) out) (e :: es) p (p + 10 + Z.of_nat k).

Lemma pending_end s es p : pending s es p (p + zlen (stream es)) -> es = [].
Proof.
  intros H. inversion H as [ds n lm out es' p' E1 E2 E3 E4 | ds n out es' p' k Hk Hlt E1 E2 E3 E4 | n out e es' p' k Hk E1 E2 E3 E4]; subst.
  - destruct es as [| e es]; [done |]. rewrite stream_cons, zlen_app, zlen_entry in *. pose proof (zlen_nonneg e). pose proof (zlen_nonneg (stream es)). lia.
  - destruct es as [| e es]; [done |]. rewrite stream_cons, zlen_app, zlen_entry in *. pose proof (zlen_nonneg e). pose proof (zlen_nonneg (stream es)). lia.
  - rewrite stream_cons, zlen_app, zlen_entry in *. pose proof (zlen_nonneg (stream es')). unfold zlen in *. lia.
Qed.

(** ** One chunk *)

Section Chunk.
Context (max eso g : Z) (chunk : list Z) (Hmax : max < 2 ^ 64) (Hchunk : zlen chunk < 2 ^ 32).

(** What is left of the chunk from [i] on is the beginning of [bs]. *)
Definition left_of (i : nat) (bs : list Z) : Prop := (i <= length chunk)%nat /\ drop i chunk `prefix_of` bs.

Lemma left_skip i bs bs' : left_of i (bs ++ bs') -> (i + length bs <= length chunk)%nat ->
  take (length bs) (drop i chunk) = bs /\ left_of (i + length bs) bs'.
Proof.
  intros [Hi Hp] Hl. destruct Hp as [x Ex].
  assert (take (length bs) (drop i chunk) = bs) as E.
  { rewrite <- (take_app_length bs bs') at 2. rewrite Ex, take_app_le by (rewrite length_drop; lia). done. }
  split; [done |]. split; [done |]. exists x. rewrite <- drop_drop.
  apply (app_inv_head bs). rewrite app_assoc, <- E at 1. rewrite E at 1.
  rewrite Ex. f_equal. by rewrite <- (take_drop (length bs) (drop i chunk)), E at 1.
Qed.

Lemma left_part i bs bs' : left_of i (bs ++ bs') -> (length chunk <= i + length bs)%nat -> drop i chunk = take (length chunk - i) bs.
Proof.
  intros [Hi [x Ex]] Hl. rewrite <- (take_app_le bs bs') by lia. rewrite Ex, take_app_le by (rewrite length_drop; lia).
  by rewrite take_ge by (rewrite length_drop; lia).
Qed.

Definition marker_of (s : listing) (i : nat) : list Z :=
  if offset_populated s then last_marker s else to_str (Marker (u64 (eso + Z.of_nat i)) g).

(** The header of an entry is there. *)
Lemma chunk_header fuel i s e es : entry_start_processed s = false -> left_of i (stream (e :: es)) -> (i + 10 <= length chunk)%nat -> zlen e < 2 ^ 64 ->
  list_chunk (S fuel) max eso g chunk (Z.of_nat i) (Z.of_nat i) (Z.of_nat (length chunk - i)) s =
  list_chunk (S fuel) max eso g chunk (Z.of_nat (i + 10)) (Z.of_nat (i + 10)) (Z.of_nat (length chunk - (i + 10)))
    (Listing true true (zlen e) (num_ops s) [] (marker_of s i) (entries s)) /\ left_of (i + 10) (e ++ stream es).
Proof.
  intros Hs Hleft Hi He. pose proof (zlen_nonneg e).
  rewrite stream_cons in Hleft. unfold entry_bytes in Hleft. rewrite <- !app_assoc in Hleft.
  assert (drop i chunk = le 2 QUEUE_ENTRY_START ++ le 8 (zlen e) ++ drop (i + 10) chunk) as Ed.
  { destruct (left_skip i (le 2 QUEUE_ENTRY_START) _ Hleft) as [E1 Hl1]; [rewrite length_le; lia |]. rewrite length_le in *.
    destruct (left_skip (i + 2) (le 8 (zlen e)) _ Hl1) as [E2 _]; [rewrite length_le; lia |]. rewrite length_le in *.
    rewrite <- (take_drop 2 (drop i chunk)), E1, drop_drop. f_equal.
    rewrite <- (take_drop 8 (drop (i + 2) chunk)), E2, drop_drop. do 2 f_equal. lia. }
  split.
  - cbn [list_chunk]. rewrite !Z.eqb_refl, Hs. cbn [negb entry_start_processed offset_populated num_ops last_marker entries data_size].
    unfold QUEUE_ENTRY_OVERHEAD. rewrite (proj2 (Z.leb_le 10 _)) by lia. rewrite !Nat2Z.id, Ed.
    rewrite decode_le_app by done. rewrite Z.eqb_refl. cbn [negb]. rewrite decode_le_app by lia.
    unfold zlen in Hchunk. fold (marker_of s i).
    rewrite (u32_id (Z.of_nat i + 2)) by (unfold is_u32; lia). rewrite (u32_id (Z.of_nat i + 2 + 8)) by (unfold is_u32; lia).
    rewrite (u64_id (Z.of_nat (length chunk - i) - 2)) by lia. rewrite u64_id by lia.
    replace (Z.of_nat (length chunk - i) - 2 - 8) with (Z.of_nat (length chunk - (i + 10))) by lia.
    replace (Z.of_nat i + 2 + 8) with (Z.of_nat (i + 10)) by lia. replace (Z.of_nat i + 10) with (Z.of_nat (i + 10)) by lia.
    by rewrite !Nat2Z.id.
  - destruct (left_skip i (le 2 QUEUE_ENTRY_START) _ Hleft) as [_ Hl1]; [rewrite length_le; lia |]. rewrite length_le in *.
    destruct (left_skip (i + 2) (le 8 (zlen e)) _ Hl1) as [_ Hl2]; [rewrite length_le; lia |]. rewrite length_le in *.
    replace (i + 10)%nat with (i + 2 + 8)%nat by lia. exact Hl2.
Qed.

(** What a chunk gives: [max] entries have been listed, and [idx] is behind the
    last of them, or the chunk has been read.  The chunk begins at [b]. *)
Definition chunk_result (es : list (list Z)) (p r : Z) (n : Z) (out : list cls_queue_entry) (b : Z) (res : res (option (Z * listing))) : Prop :=
  exists done rest idx s', res = Ok (Some (idx, s')) /\ es = done ++ rest /\ entries s' = out ++ listed p done /\ num_ops s' = n + zlen done /\
    (num_ops s' = max /\ idx = p + zlen (stream done) - b /\ done <> [] /\ idx <= zlen chunk \/
     num_ops s' < max /\ pending s' rest (p + zlen (stream done)) r).

Lemma chunk_short fuel i s es p out : entry_start_processed s = false -> (i + 10 > length chunk)%nat -> (i < length chunk)%nat ->
  left_of i (stream es) -> marker_of s i = to_str (mark h p) -> num_ops s < max -> out = entries s ->
  chunk_result es p (p + Z.of_nat (length chunk - i)) (num_ops s) out (p - Z.of_nat i)
    (list_chunk (S fuel) max eso g chunk (Z.of_nat i) (Z.of_nat i) (Z.of_nat (length chunk - i)) s).
Proof.
  intros Hs Hi Hlt Hleft Hm Hn ->. cbn [list_chunk]. rewrite Z.eqb_refl, Hs. cbn [negb]. fold (marker_of s i). rewrite Hm.
  unfold QUEUE_ENTRY_OVERHEAD. rewrite (proj2 (Z.leb_gt 10 _)) by lia. rewrite !Nat2Z.id, take_ge by (rewrite length_drop; lia).
  exists [], es. do 2 eexists. split; [reflexivity |]. cbn [entries num_ops listed]. rewrite app_nil_r.
  split_and!; [done | done | unfold zlen; cbn; lia |]. right. split; [done |].
  change (zlen (stream [])) with 0. rewrite Z.add_0_r. destruct Hleft as [_ [x Ex]].
  assert (drop i chunk = take (length chunk - i) (stream es)) as ->.
  { rewrite Ex, take_app_le by (rewrite length_drop; lia). by rewrite take_ge by (rewrite length_drop; lia). }
  apply pending_start; [lia |]. intros ->. apply (f_equal length) in Ex. rewrite length_app, length_drop in Ex. cbn in Ex. lia.
Qed.

Lemma chunk_result_cons e es p r n out b R :
  chunk_result es (p + zlen (entry_bytes e)) r (n + 1) (out ++ [Entry e (to_str (mark h p))]) b R -> chunk_result (e :: es) p r n out b R.
Proof.
  intros (done & rest & idx & s' & -> & -> & Ho & Hn & H). exists (e :: done), rest, idx, s'. cbn [listed].
  rewrite <- app_assoc in Ho. rewrite stream_cons, zlen_app, Z.add_assoc. split_and!; [done | done | done | |].
  - rewrite Hn. unfold zlen. cbn [length]. lia.
  - destruct H as [(Hm & Hi & Hd & Hl) | H]; [left | right]; done.
Qed.

(** The data of an entry, and what follows. *)
Lemma chunk_data fuel : forall es i e p n b0 out, (length chunk - i < fuel)%nat -> left_of i (e ++ stream es) -> 0 <= n < max ->
  Forall (fun x => zlen x < 2 ^ 64) es ->
  (forall j : nat, (i + length e <= j < length chunk)%nat -> Marker (u64 (eso + Z.of_nat j)) g = mark h (p + 10 + (Z.of_nat j - Z.of_nat i))) ->
  chunk_result (e :: es) p (p + 10 + Z.of_nat (length chunk - i)) n out (p + 10 - Z.of_nat i)
    (list_chunk fuel max eso g chunk (Z.of_nat i) (Z.of_nat i) (Z.of_nat (length chunk - i)) (Listing true true (zlen e) n b0 (to_str (mark h p)) out)).
Proof.
  induction fuel as [| fuel IH]; intros es i e p n b0 out Hfuel Hleft Hn Hsmall Hmark; [lia |].
  pose proof (proj1 Hleft) as Hi. pose proof Hchunk as Hc. unfold zlen in Hc. cbn [list_chunk].
  rewrite Z.eqb_refl. cbn [negb entry_start_processed offset_populated last_marker num_ops entries data_size]. rewrite !Nat2Z.id.
  destruct (Z.leb_spec (zlen e) (Z.of_nat (length chunk - i))) as [Hle | Hgt]; [unfold zlen in Hle |- * | unfold zlen in Hgt |- *].
  2: { exists [], (e :: es). do 2 eexists. split; [reflexivity |]. cbn [entries num_ops listed length]. rewrite app_nil_r.
       split_and!; [done | done | unfold zlen; cbn; lia |]. right. split; [lia |]. change (zlen (stream [])) with 0. rewrite Z.add_0_r.
       rewrite take_ge by (rewrite length_drop; lia). rewrite (left_part i e (stream es)) by (done || lia). apply pending_data. lia. }
  rewrite Nat2Z.id. destruct (left_skip i e (stream es) Hleft) as [-> Hleft']; [lia |].
  rewrite <- Nat2Z.inj_add, u32_id by (unfold is_u32; lia). rewrite !(u64_id (n + 1)) by lia.
  assert (zlen (entry_bytes e) = 10 + Z.of_nat (length e)) as He by apply zlen_entry.
  destruct (Z.eqb_spec (n + 1) max) as [Em | Em].
  { exists [e], es. do 2 eexists. split; [reflexivity |]. cbn [entries num_ops listed length]. rewrite stream_one, He. unfold zlen.
    split_and!; [done | done | cbn; lia |]. left. split_and!; [lia | lia | done | lia]. }
  apply chunk_result_cons. destruct (Z.ltb_spec (Z.of_nat (i + length e)) (Z.of_nat (length chunk))) as [Hlt | Hge].
  2: { exists [], es. do 2 eexists. split; [reflexivity |]. cbn [entries num_ops listed length]. rewrite app_nil_r.
       split_and!; [done | done | unfold zlen; cbn; lia |]. right. split; [lia |]. change (zlen (stream [])) with 0.
       replace (p + 10 + Z.of_nat (length chunk - i)) with (p + zlen (entry_bytes e) + 0) by lia. apply pending_none. }
  rewrite u64_id by lia. replace (Z.of_nat (length chunk - i) - Z.of_nat (length e)) with (Z.of_nat (length chunk - (i + length e))) by lia.
  set (s2 := Listing false false 0 (n + 1) [] [] _).
  assert (marker_of s2 (i + length e) = to_str (mark h (p + zlen (entry_bytes e)))) as Hm2.
  { unfold marker_of, s2. cbn [offset_populated]. rewrite Hmark by lia. do 2 f_equal. lia. }
  destruct fuel as [| fuel]; [lia |]. destruct (decide (i + length e + 10 <= length chunk)%nat) as [Hh | Hh].
  - destruct es as [| e' es]; [destruct Hleft' as [_ [x Ex]]; apply (f_equal length) in Ex; rewrite length_app, length_drop in Ex; cbn in Ex; lia |].
    apply Forall_cons_1 in Hsmall as [He' Hsmall]. destruct (chunk_header fuel (i + length e) s2 e' es) as [-> Hleft2]; [done | done | done | done |].
    rewrite Hm2. cbn [num_ops entries s2].
    replace (p + 10 + Z.of_nat (length chunk - i)) with (p + zlen (entry_bytes e) + 10 + Z.of_nat (length chunk - (i + length e + 10))) by lia.
    replace (p + 10 - Z.of_nat i) with (p + zlen (entry_bytes e) + 10 - Z.of_nat (i + length e + 10)) by lia.
    apply IH; [lia | done | lia | done |]. intros j Hj. rewrite Hmark by lia. f_equal. lia.
  - replace (p + 10 + Z.of_nat (length chunk - i)) with (p + zlen (entry_bytes e) + Z.of_nat (length chunk - (i + length e))) by lia.
    replace (p + 10 - Z.of_nat i) with (p + zlen (entry_bytes e) - Z.of_nat (i + length e)) by lia.
    apply (chunk_short fuel (i + length e) s2); [done | lia | lia | done | done | cbn; lia | done].
Qed.

Lemma chunk_fresh s es p : entry_start_processed s = false -> left_of 0 (stream es) -> chunk <> [] -> marker_of s 0 = to_str (mark h p) ->
  0 <= num_ops s < max -> Forall (fun x => zlen x < 2 ^ 64) es ->
  (forall j : nat, (10 <= j < length chunk)%nat -> Marker (u64 (eso + Z.of_nat j)) g = mark h (p + Z.of_nat j)) ->
  chunk_result es p (p + zlen chunk) (num_ops s) (entries s) p (list_chunk (S (length chunk)) max eso g chunk 0 0 (zlen chunk) s).
Proof.
  intros Hs Hleft Hne Hm Hn Hsmall Hmark. assert (length chunk <> 0)%nat as Hlen by (by destruct chunk).
  unfold zlen. replace (length chunk) with (length chunk - 0)%nat at 1 3 by lia. change 0 with (Z.of_nat 0).
  destruct (decide (10 <= length chunk)%nat) as [H10 | H10].
  - destruct es as [| e es]; [destruct Hleft as [_ [x Ex]]; apply (f_equal length) in Ex; rewrite length_app, drop_0 in Ex; cbn in Ex; lia |].
    apply Forall_cons_1 in Hsmall as [He Hsmall]. destruct (chunk_header (length chunk) 0 s e es) as [-> Hleft2]; [done | done | lia | done |]. rewrite Hm.
    replace (p + Z.of_nat (length chunk - 0)) with (p + 10 + Z.of_nat (length chunk - (0 + 10))) by lia.
    replace p with (p + 10 - Z.of_nat (0 + 10)) at 3 by lia.
    apply chunk_data; [lia | done | done | done |]. intros j Hj. rewrite Hmark by lia. f_equal. lia.
  - replace p with (p - Z.of_nat 0) at 3 by lia. apply chunk_short; [done | lia | lia | done | done | lia | done].
Qed.

(** A chunk is what was left of the last one and the bytes [new] that follow. *)
Lemma chunk_ok s es p r new : pending s es p r -> chunk = bl s ++ new -> new <> [] -> new `prefix_of` drop (Z.to_nat (r - p)) (stream es) ->
  0 <= num_ops s < max -> Forall (fun x => zlen x < 2 ^ 64) es ->
  (forall j : nat, (length (bl s) <= j < length chunk)%nat -> Marker (u64 (eso + Z.of_nat j)) g = mark h (r + (Z.of_nat j - Z.of_nat (length (bl s))))) ->
  chunk_result es p (r + zlen new) (num_ops s) (entries s) (r - zlen (bl s))
    (list_chunk (S (length chunk)) max eso g chunk 0 0 (zlen chunk)
       (Listing (offset_populated s) (entry_start_processed s) (data_size s) (num_ops s) [] (last_marker s) (entries s))).
Proof.
  intros Hp Ec Hne Hnew Hn Hsmall Hmark. assert (chunk <> []) as Hne' by (rewrite Ec; by destruct (bl s)).
  destruct Hp as [ds n lm out es p | ds n out es p k Hk Hes | n out e es p k Hk];
    cbn [bl offset_populated entry_start_processed data_size num_ops last_marker entries] in *.
  - rewrite Z.sub_diag in Hnew. cbn [app] in Ec. subst new.
    replace (p - zlen []) with p by (unfold zlen; cbn; lia).
    apply (chunk_fresh (Listing false false ds n [] lm out)); [done | by split; [lia |] | done | | done | done |].
    + unfold marker_of. cbn [offset_populated]. rewrite Hmark; [| cbn; destruct chunk; [done | cbn; lia]]. do 2 f_equal. cbn. lia.
    + intros j Hj. rewrite Hmark by (cbn; lia). f_equal. cbn. lia.
  - replace (Z.to_nat (p + Z.of_nat k - p)) with k in Hnew by lia.
    assert (length (take k (stream es)) = k) as Hlk.
    { rewrite length_take. destruct es as [| e es]; [done |]. pose proof (zlen_entry e). rewrite stream_cons, length_app. unfold zlen in *. lia. }
    assert (zlen chunk = Z.of_nat k + zlen new) as Hlen by (rewrite Ec, zlen_app; unfold zlen in *; lia).
    replace (p + Z.of_nat k + zlen new) with (p + zlen chunk) by lia.
    replace (p + Z.of_nat k - zlen (take k (stream es))) with p by (unfold zlen; lia).
    apply (chunk_fresh (Listing true false ds n [] (to_str (mark h p)) out)); [done | | done | done | done | done |].
    + split; [lia |]. rewrite drop_0, Ec. by apply prefix_take_app.
    + intros j Hj. rewrite Hmark by lia. f_equal. lia.
  - assert (length (take k e) = k) as Hlk by (rewrite length_take; lia).
    assert (length chunk = k + length new)%nat as Hlen by (rewrite Ec, length_app; lia).
    replace (p + 10 + Z.of_nat k + zlen new) with (p + 10 + Z.of_nat (length chunk - 0)) by (unfold zlen; lia).
    replace (p + 10 + Z.of_nat k - zlen (take k e)) with (p + 10 - Z.of_nat 0) by (unfold zlen; lia).
    replace (zlen chunk) with (Z.of_nat (length chunk - 0)) by (unfold zlen; lia). change 0 with (Z.of_nat 0).
    apply Forall_cons_1 in Hsmall as [He Hsmall]. apply chunk_data; [lia | | lia | done |].
    + split; [lia |]. rewrite drop_0, Ec. rewrite stream_cons in Hnew.
      replace (Z.to_nat (p + 10 + Z.of_nat k - p)) with (length (entry_bytes e) - length e + k)%nat in Hnew by (pose proof (zlen_entry e); unfold zlen in *; lia).
      assert (drop (length (entry_bytes e) - length e + k) (entry_bytes e ++ stream es) = drop k (e ++ stream es)) as Ed.
      { unfold entry_bytes. rewrite <- !app_assoc, !length_app, !length_le. replace (2 + (8 + length e) - length e + k)%nat with (10 + k)%nat by lia.
        rewrite <- drop_drop. change 10%nat with (2 + 8)%nat. rewrite <- drop_drop. by rewrite !drop_app_length' by (by rewrite length_le). }
      rewrite Ed in Hnew. rewrite <- (take_app_le e (stream es) k) by lia. by apply prefix_take_app.
    + intros j Hj. rewrite Hmark by lia. f_equal. lia.
Qed.
End Chunk.

Lemma pending_before s e es p r : pending s (e :: es) p r -> p <= r < p + zlen (entry_bytes e).
Proof.
  intros H. pose proof (zlen_entry e). pose proof (zlen_nonneg e).
  inversion H as [ds n lm out es' p' E1 E2 E3 E4 | ds n out es' p' k Hk Hlt E1 E2 E3 E4 | n out e' es' p' k Hk E1 E2 E3 E4]; subst; unfold zlen in *; lia.
Qed.

(** ** All chunks *)

Lemma at_end_mark a : at_end h (mark h a) = mark h a.
Proof. pose proof (mark_bounds h Hg a). unfold at_end. destruct (Z.eqb_spec (offset (mark h a)) (queue_size h)); [lia | done]. Qed.

Lemma mark_near r x : 0 <= x -> r mod cap h + x < cap h -> mark h (r + x) = Marker (offset (mark h r) + x) (gen (mark h r)).
Proof.
  intros Hx Hlt. pose proof (cap_pos h Hg). pose proof (Z.mod_pos_bound r (cap h)). unfold mark. cbn [offset gen].
  destruct (mod_near (cap h) r x) as [(_ & -> & ->) | ?]; [lia | lia | f_equal; lia | lia].
Qed.

(** The offset of a byte of a chunk that begins [n] bytes before the offset [o]. *)
Lemma chunk_offset o n j : 0 <= n -> 0 <= o + (j - n) < 2 ^ 64 -> u64 (u64 (o - n) + j) = o + (j - n).
Proof. intros Hn Hj. unfold u64 in *. rewrite Zplus_mod_idemp_l. replace (o - n + j) with (o + (j - n)) by lia. by apply Z.mod_small. Qed.

Lemma pending_bl s es p r : pending s es p r -> p <= r /\ zlen (bl s) <= r - p.
Proof. intros [ds n lm out es' p' | ds n out es' p' k Hk Hes | n out e es' p' k Hk]; cbn [bl]; unfold zlen; rewrite ?length_take; cbn; lia. Qed.

(** What is left to read: up to the end of the ring, if the rest wraps around. *)
Definition to_read (wrap : bool) (r t cont : Z) : Prop :=
  if wrap then cont = cap h - r mod cap h /\ r + cont <= t else cont = t - r /\ r mod cap h + cont <= cap h.

Section Object.
Context (o : object) (max t : Z) (Hmax : 0 < max < 2 ^ 64) (Htail : tail h = mark h t).

(** The bytes that are read are those of the stream. *)
Lemma read_stream es p r n : holds h (data o) p (stream es) -> p <= r -> r + n <= p + zlen (stream es) -> 0 < n <= 1024 -> r mod cap h + n <= cap h ->
  exists new, cls_cxx_read2 (offset (mark h r)) n o = Ok (inl new, o) /\ zlen new = n /\ new `prefix_of` drop (Z.to_nat (r - p)) (stream es).
Proof.
  intros Hb Hr Hn H1024 Hend. pose proof (mark_bounds h Hg r). rewrite read2_ok by lia. eexists. split; [reflexivity |].
  assert (holds h (data o) r (drop (Z.to_nat (r - p)) (stream es))) as Hb'.
  { rewrite <- (take_drop (Z.to_nat (r - p)) (stream es)) in Hb. apply holds_app in Hb as [_ Hb].
    replace (p + zlen (take (Z.to_nat (r - p)) (stream es))) with r in Hb by (unfold zlen in *; rewrite length_take; lia). done. }
  rewrite (pos_offset h r), (holds_read h Hg _ r _ (Z.to_nat n) Hb'); [| unfold zlen in *; rewrite length_drop; lia | lia].
  split; [unfold zlen in *; rewrite length_take, length_drop; lia | apply prefix_take].
Qed.

Lemma list_chunks_ok fuel : forall s es p r cont wrap, pending s es p r -> holds h (data o) p (stream es) -> zlen (stream es) <= cap h ->
  t = p + zlen (stream es) -> r <= t -> Forall (fun x => zlen x < 2 ^ 64) es -> 0 <= num_ops s < max -> to_read wrap r t cont ->
  (Z.to_nat (t - r) < fuel)%nat ->
  exists done rest next truncated,
    list_chunks fuel h max (offset (mark h r)) (gen (mark h r)) cont wrap s o = Ok (inl (next, truncated, entries s ++ listed p done), o) /\
    es = done ++ rest /\ at_end h next = mark h (p + zlen (stream done)) /\
    (truncated = true /\ num_ops s + zlen done = max \/ truncated = false /\ rest = [] /\ num_ops s + zlen done < max).
Proof.
  induction fuel as [| fuel IH]; intros s es p r cont wrap Hp Hb Hcap Ht Hrt Hsmall Hn Hread Hfuel; [lia |].
  pose proof (cap_pos h Hg) as HC. pose proof (Z.mod_pos_bound r (cap h) HC) as Hmod. pose proof (pending_bl _ _ _ _ Hp) as [Hpr Hbl].
  pose proof (mark_bounds h Hg r) as Hoff. pose proof (zlen_nonneg (bl s)) as Hbl0.
  assert (0 <= cont /\ r + cont <= t /\ r mod cap h + cont <= cap h) as (Hc0 & Hct & Hcc) by (unfold to_read in Hread; destruct wrap; lia).
  cbn [list_chunks]. set (n := if 1024 <? cont then 1024 else cont).
  assert (n = Z.min 1024 cont) as En by (unfold n; destruct (Z.ltb_spec 1024 cont); lia). clearbody n.
  destruct (Z.eqb_spec n 0) as [E0 | E0].
  { assert (r = t) as -> by (unfold to_read in Hread; destruct wrap; lia). rewrite Ht in Hp. apply pending_end in Hp as ->.
    exists [], [], (tail h), false. cbn [listed]. rewrite app_nil_r, Htail, at_end_mark. split_and!; [done | done | by rewrite Ht |].
    right. split_and!; [done | done | unfold zlen; cbn; lia]. }
  destruct (read_stream es p r n Hb) as (new & Hrd & Hnew & Hpre); [lia | lia | lia | lia |].
  unfold mbind, cls_bind, mret, cls_ret. rewrite Hrd.
  assert (new <> []) as Hne by (intros ->; unfold zlen in Hnew; cbn in Hnew; lia).
  assert (forall x, 0 <= x < n -> mark h (r + x) = Marker (offset (mark h r) + x) (gen (mark h r))) as Hmk by (intros x Hx; apply mark_near; lia).
  assert (zlen (bl s ++ new) < 2 ^ 32) as Hlen by (rewrite zlen_app; unfold cap in *; lia).
  destruct (chunk_ok max (u64 (offset (mark h r) - zlen (bl s))) (gen (mark h r)) (bl s ++ new) ltac:(lia) Hlen s es p r new Hp eq_refl Hne Hpre Hn Hsmall)
    as (done & rest & idx & s' & El & -> & Hent & Hnum & Hcase).
  { intros j Hj. rewrite length_app in Hj. unfold zlen in *. rewrite chunk_offset, Hmk by lia. done. }
  rewrite El. unfold res_bind. destruct Hcase as [(Em & Ei & Hd & Hidx) | (Hlt & Hp')].
  { rewrite Em, Z.eqb_refl. exists done, rest. do 2 eexists. rewrite Hent. split_and!; [reflexivity | done | | left; split; [done | lia]].
    destruct done as [| e done]; [done |]. cbn [app] in Hp. pose proof (pending_before _ _ _ _ _ Hp) as [_ Hbef].
    rewrite stream_cons, zlen_app in Ei |- *. pose proof (zlen_nonneg (stream done)). rewrite zlen_app in Hidx.
    set (x := p + (zlen (entry_bytes e) + zlen (stream done)) - r).
    replace (p + (zlen (entry_bytes e) + zlen (stream done))) with (r + x) by (unfold x; lia).
    rewrite chunk_offset by (unfold cap in *; lia).
    replace (offset (mark h r) + (idx - zlen (bl s))) with (max_head_size h + r mod cap h + x) by (unfold x, mark; cbn [offset]; lia).
    apply mark_advance; [done | unfold x; lia | unfold x; lia]. }
  rewrite (proj2 (Z.eqb_neq (num_ops s') max)) by lia. rewrite (proj2 (Z.ltb_lt (num_ops s') max)) by lia.
  rewrite stream_app, zlen_app in *. apply holds_app in Hb as [_ Hb']. apply Forall_app in Hsmall as [_ Hsmall']. pose proof (zlen_nonneg (stream done)). pose proof (zlen_nonneg done).
  assert (forall cont' wrap', to_read wrap' (r + n) t cont' ->
    exists done' rest' next truncated,
      list_chunks fuel h max (offset (mark h (r + n))) (gen (mark h (r + n))) cont' wrap' s' o = Ok (inl (next, truncated, entries s ++ listed p done'), o) /\
      done ++ rest = done' ++ rest' /\ at_end h next = mark h (p + zlen (stream done')) /\
      (truncated = true /\ num_ops s + zlen done' = max \/ truncated = false /\ rest' = [] /\ num_ops s + zlen done' < max)) as Hnext.
  { intros cont' wrap' Hread'. rewrite Hnew in Hp'.
    destruct (IH s' rest _ (r + n) cont' wrap' Hp' Hb') as (done' & rest' & next & tr & E & -> & Hnx & Hend); [lia | lia | lia | done | lia | done | lia |].
    exists (done ++ done'), rest', next, tr. rewrite E, Hent, listed_app, <- !app_assoc, stream_app, !zlen_app. split_and!; [done | done | by rewrite Z.add_assoc in * |].
    destruct Hend as [[? ?] | (? & ? & ?)]; [left | right; split_and!]; try done; [split; [done | lia] | lia]. }
  rewrite (u64_id (cont - n)) by (unfold cap in *; lia).
  destruct (Z.eqb_spec (cont - n) 0) as [Ec | Ec].
  - destruct wrap; cbn [to_read] in Hread.
    + destruct (mod_near (cap h) r n) as [? | (_ & Em & Ed)]; [lia | lia | lia |].
      destruct (mod_near (cap h) (r + n) (t - (r + n))) as [(_ & Et & _) | ?]; [lia | lia | | lia].
      replace (r + n + (t - (r + n))) with t in Et by lia.
      assert (offset (mark h (r + n)) = max_head_size h) as E1 by (unfold mark; cbn [offset]; lia).
      assert (gen (mark h (r + n)) = u64 (gen (mark h r) + 1)) as E2 by (unfold mark; cbn [gen]; by rewrite u64_succ, Ed).
      assert (u64 (offset (tail h) - max_head_size h) = t - (r + n)) as -> by (rewrite Htail, u64_id; unfold mark, cap in *; cbn [offset]; lia).
      rewrite E1, E2 in Hnext. apply Hnext. unfold to_read. lia.
    + assert (r + zlen new = p + zlen (stream done) + zlen (stream rest)) as Er by lia. rewrite Er in Hp'. apply pending_end in Hp' as ->.
      change (zlen (stream [])) with 0 in *. exists done, [], (tail h), false. rewrite Hent, Htail, at_end_mark. split_and!; [done | done | f_equal; lia | right; split_and!; [done | done | lia]].
  - assert (mark h (r + n) = Marker (offset (mark h r) + n) (gen (mark h r))) as Em by (apply mark_near; lia).
    rewrite u64_id by lia. rewrite Em in Hnext. apply Hnext. unfold to_read in *. destruct (mod_near (cap h) r n) as [(_ & Em' & _) | ?]; [lia | lia | | destruct wrap; lia]. destruct wrap; lia.
Qed.
End Object.
End Listing.

(** ** The listing *)

Section Queue.
Context (osd_max_object_size : Z).
Abbreviation ring := (ring osd_max_object_size).
Abbreviation queue := (queue osd_max_object_size).

Lemma stream_nil es : zlen (stream es) = 0 <-> es = [].
Proof.
  split; [| by intros ->]. destruct es as [| e es]; [done |]. rewrite stream_cons, zlen_app, zlen_entry.
  pose proof (zlen_nonneg e). pose proof (zlen_nonneg (stream es)). lia.
Qed.

Lemma at_entry_end f es k : at_entry f es k = f + zlen (stream es) <-> (length es <= k)%nat.
Proof.
  pose proof (stream_from f es k) as E. pose proof (stream_nil (drop k es)) as Hn. rewrite <- length_zero_iff_nil, length_drop in Hn. lia.
Qed.

Lemma at_entry_add f es k n : at_entry f es (k + n) = at_entry f es k + zlen (stream (take n (drop k es))).
Proof. unfold at_entry. rewrite <- take_take_drop, stream_app, zlen_app. lia. Qed.

Lemma ring_small h d f es : ring h d f es -> Forall (fun e => zlen e < 2 ^ 31) es.
Proof.
  intros Hr. destruct (ring_geometry _ _ _ _ _ Hr) as (Hg & H31 & _). pose proof (rg_fits _ _ _ _ _ Hr) as Hfit. unfold cap in Hfit.
  apply Forall_forall. intros e He. apply list_elem_of_split in He as (l1 & l2 & ->). rewrite stream_app, stream_cons, !zlen_app, zlen_entry in Hfit.
  pose proof (zlen_nonneg (stream l1)). pose proof (zlen_nonneg (stream l2)). lia.
Qed.

(** The string [m] names the entry [k].  The end of a full queue cannot be named:
    its offset is that of the front. *)
Definition names (h : cls_queue_head) (f : Z) (es : list (list Z)) (m : list Z) (k : nat) : Prop :=
  m = [] /\ k = O \/
  m = to_str (mark h (at_entry f es k)) /\ (k <= length es)%nat /\ ~ (zlen (stream es) = cap h /\ k = length es).

(** The start of a listing, and how much is contiguous. *)
Lemma list_start h d f es k m : ring h d f es -> es <> [] -> names h f es m k ->
  let start := from_str (c_str m) in
  let start := if offset start =? 0 then front h else start in
  start = mark h (at_entry f es k) /\
  exists cont wrap, to_read h wrap (at_entry f es k) (f + zlen (stream es)) cont /\
    (if offset (front h) <? offset (tail h) then (u64 (offset (tail h) - offset start), false)
     else if offset (front h) <=? offset start then (u64 (queue_size h - offset start), true)
     else if offset start <=? offset (tail h) then (u64 (offset (tail h) - offset start), false)
     else (0, false)) = (cont, wrap).
Proof.
  intros Hr Hes Hm. destruct (ring_geometry _ _ _ _ _ Hr) as (Hg & H31 & _). pose proof (cap_pos h Hg) as HC.
  pose proof (hw_size _ (rg_wf _ _ _ _ _ Hr)) as Hhs. rewrite zlen_head_bytes in Hhs. pose proof (zlen_nonneg (bl_urgent_data h)).
  assert ((if offset (from_str (c_str m)) =? 0 then front h else from_str (c_str m)) = mark h (at_entry f es k)) as Es.
  { destruct Hm as [[-> ->] | [-> _]]; [cbn; rewrite (rg_front _ _ _ _ _ Hr); unfold at_entry; by rewrite Z.add_0_r |].
    rewrite from_to_str by (by apply mark_u64). pose proof (mark_bounds h Hg (at_entry f es k)). destruct (Z.eqb_spec (offset (mark h (at_entry f es k))) 0); [lia | done]. }
  cbv zeta. rewrite Es. split; [done |]. rewrite (rg_front _ _ _ _ _ Hr), (rg_tail _ _ _ _ _ Hr).
  pose proof (at_entry_bounds f es k) as Hb. pose proof (rg_fits _ _ _ _ _ Hr) as Hfit. pose proof (at_entry_end f es k) as Hend.
  assert (zlen (stream es) <> 0) as Hne by (by rewrite stream_nil). pose proof (zlen_nonneg (stream es)) as H0.
  pose proof (ring_tail_near _ _ _ _ _ Hr) as Hnear. cbv zeta in Hnear.
  set (p := at_entry f es k) in *. set (n := zlen (stream es)) in *. unfold mark, to_read. cbn [offset].
  pose proof (Z.mod_pos_bound f (cap h) HC) as HF. assert (max_head_size h + cap h = queue_size h) as HQ by (unfold cap; lia).
  replace p with (f + (p - f)) by lia.
  destruct Hnear as [(Hn & -> & _) | (Hn & -> & _)];
    (destruct (mod_near (cap h) f (p - f)) as [(Hp & Ep & _) | (Hp & Ep & _)]; [lia | lia | |]; rewrite Ep).
  - rewrite (proj2 (Z.ltb_lt _ _)) by lia. do 2 eexists. split; [| reflexivity]. rewrite u64_id by lia. lia.
  - lia.
  - rewrite (proj2 (Z.ltb_ge _ _)), (proj2 (Z.leb_le _ _)) by lia. do 2 eexists. split; [| reflexivity]. rewrite u64_id by lia. lia.
  - assert (p - f <> cap h) as Hnf.
    { intros Ef. destruct Hm as [[-> ->] | (_ & Hk & Hx)]; [assert (p = f) by (unfold p, at_entry; change (zlen (stream (take 0 es))) with 0; lia); lia |].
      apply Hx. split; [lia |]. apply Nat.le_antisymm; [done |]. apply Hend. lia. }
    rewrite (proj2 (Z.ltb_ge _ _)), (proj2 (Z.leb_gt _ _)), (proj2 (Z.leb_le _ _)) by lia. do 2 eexists. split; [| reflexivity]. rewrite u64_id by lia. lia.
Qed.

(** The answer to a listing from entry [k]. *)
Definition answer (h : cls_queue_head) (f : Z) (es : list (list Z)) (k : nat) (max : Z) : cls_queue_list_ret :=
  let n := Nat.min (Z.to_nat max) (length es - k) in
  ListRet (bool_decide (k + n < length es)%nat) (to_str (mark h (at_entry f es (k + n)))) (listed h (at_entry f es k) (take n (drop k es))).

Lemma list_entries_ok h o f es k m max : ring h (data o) f es -> names h f es m k -> 0 < max < 2 ^ 64 ->
  queue_list_entries max m h o = Ok (inl (answer h f es k max), o).
Proof.
  intros Hr Hm Hmax. destruct (ring_geometry _ _ _ _ _ Hr) as (Hg & H31 & _). unfold queue_list_entries, answer.
  rewrite (ring_empty_test _ _ _ _ _ Hr). destruct (Z.eqb_spec (zlen (stream es)) 0) as [E | E].
  { apply stream_nil in E as ->. assert (k = 0%nat) as -> by (destruct Hm as [[_ ->] | (_ & Hk & _)]; [done | cbn in Hk; lia]).
    rewrite Nat.min_0_r. cbn. rewrite (rg_front _ _ _ _ _ Hr). unfold at_entry. cbn. by rewrite Z.add_0_r. }
  assert (es <> []) as Hes by (by rewrite <- stream_nil). pose proof (list_start h (data o) f es k m Hr Hes Hm) as (Es & cont & wrap & Hread & Ec).
  cbv zeta in Es, Ec. rewrite Es in *. rewrite Ec. clear Ec. pose proof (at_entry_bounds f es k) as Hb. pose proof (stream_from f es k) as Hlen.
  pose proof (rg_fits _ _ _ _ _ Hr) as Hfit. pose proof (zlen_nonneg (stream (drop k es))).
  destruct (list_chunks_ok h Hg H31 o max (f + zlen (stream es)) Hmax (rg_tail _ _ _ _ _ Hr) (S (S (Z.to_nat (queue_size h))))
    (Listing false false 0 0 [] [] []) (drop k es) (at_entry f es k) (at_entry f es k) cont wrap)
    as (done & rest & next & tr & E1 & Ed & En & Hcase).
  - apply pending_none.
  - by apply holds_from, Hr.
  - lia.
  - lia.
  - lia.
  - eapply Forall_impl; [by apply Forall_drop, (ring_small _ _ _ _ Hr) |]. cbn. lia.
  - cbn. lia.
  - done.
  - unfold cap in *. lia.
  - unfold mbind, cls_bind, mret, cls_ret. rewrite E1. cbn [entries app num_ops] in *. rewrite En, (rg_tail _ _ _ _ _ Hr).
    assert (length es - k = length done + length rest)%nat as El by (rewrite <- length_drop, Ed, length_app; done).
    set (n := Nat.min (Z.to_nat max) (length es - k)).
    assert (done = take n (drop k es)) as ->.
    { rewrite Ed. assert (n = length done) as ->; [| by rewrite take_app_length].
      unfold zlen in Hcase. destruct Hcase as [[_ Hn] | (_ & -> & Hn)]; cbn [length] in *; lia. }
    rewrite <- at_entry_add. do 4 f_equal. pose proof (at_entry_bounds f es (k + n)) as Hb2. pose proof (at_entry_end f es (k + n)) as Hend.
    rewrite mark_eqb by (done || lia). destruct Hcase as [[-> Hn] | (-> & -> & Hn)]; cbn [andb].
    + destruct (Z.eqb_spec (at_entry f es (k + n)) (f + zlen (stream es))) as [Ee | Ee]; cbn [negb]; symmetry; [apply bool_decide_eq_false | apply bool_decide_eq_true]; lia.
    + symmetry. apply bool_decide_eq_false. rewrite length_take, length_drop in El. cbn [length] in El. lia.
Qed.

(** ** The queue is a first-in, first-out queue *)

Lemma fits_no_fill h es ds : zlen (stream (es ++ ds)) <= cap h -> ~ exact_fill h es ds.
Proof.
  intros Hfit (p & q & -> & _ & Hq & E). rewrite app_assoc, stream_app, zlen_app in Hfit.
  apply Hq, stream_nil. pose proof (zlen_nonneg (stream q)). lia.
Qed.

(** A request names an entry by its number, counted from the front; the client
    has the marker of the entry from a listing, [None] is the empty marker. *)
Inductive request :=
  | Enqueue (ds : list (list Z))
  | List_entries (k : option nat) (max : Z)
  | Remove_entries (k : nat).

Inductive response := Done | Listed (r : cls_queue_list_ret) | Failed (e : Z).

(** The abstract queue: the position of the front in the stream, and the entries.
    A call to enqueue fails when the queue is full, also if it adds nothing. *)
Definition fifo : Type := Z * list (list Z).

Definition fifo_serve (h : cls_queue_head) (q : fifo) (r : request) : response * fifo :=
  let '(f, es) := q in
  match r with
  | Enqueue ds => if (zlen (stream es) <? cap h) && (zlen (stream (es ++ ds)) <=? cap h) then (Done, (f, es ++ ds)) else (Failed (- ENOSPC), q)
  | List_entries k max => (Listed (answer h f es (default O k) max), q)
  | Remove_entries k => (Done, (at_entry f es k, drop k es))
  end.

(** The calls with such answers.  Left out are to enqueue entries of which the
    first ones fill the ring exactly (see the end of this file), to list no
    entries ([max] = 0), and to list from the end of a full queue, whose marker has
    the offset of the front. *)
Definition request_ok (h : cls_queue_head) (q : fifo) (r : request) : Prop :=
  let '(f, es) := q in
  match r with
  | Enqueue ds => Forall (fun e => zlen e < 2 ^ 32) ds /\ ~ exact_fill h es ds
  | List_entries k max => 0 < max < 2 ^ 64 /\ (forall i, k = Some i -> (i <= length es)%nat /\ ~ (zlen (stream es) = cap h /\ i = length es))
  | Remove_entries k => True
  end.

Definition finish {A} (f : A -> response) (r : res ((A + Z) * object)) : res (response * object) :=
  match r with
  | Ok (inl a, o) => Ok (f a, o)
  | Ok (inr e, o) => Ok (Failed e, o)
  | Fault => Fault
  | NoFuel => NoFuel
  end.

Definition serve (h : cls_queue_head) (q : fifo) (r : request) (o : object) : res (response * object) :=
  let '(f, es) := q in
  match r with
  | Enqueue ds => finish (fun _ => Done) (call (cls_queue_enqueue osd_max_object_size ds) o)
  | List_entries k max =>
      finish Listed (call (cls_queue_list_entries max (match k with Some k => to_str (mark h (at_entry f es k)) | None => [] end)) o)
  | Remove_entries k => finish (fun _ => Done) (call (cls_queue_remove_entries osd_max_object_size (to_str (mark h (at_entry f es k)))) o)
  end.

(** [h] and [h'] are heads of the same ring. *)
Definition same_ring (h h' : cls_queue_head) : Prop := max_head_size h = max_head_size h' /\ queue_size h = queue_size h'.

Lemma same_ring_mark h h' a : same_ring h h' -> mark h a = mark h' a.
Proof. intros [E1 E2]. unfold mark, cap. by rewrite E1, E2. Qed.

Lemma same_ring_cap h h' : same_ring h h' -> cap h = cap h'.
Proof. intros [E1 E2]. unfold cap. by rewrite E1, E2. Qed.

Lemma listed_same h h' p es : same_ring h h' -> listed h p es = listed h' p es.
Proof. intros Hs. revert p. induction es as [| e es IH]; intros p; cbn [listed]; [done |]. by rewrite IH, (same_ring_mark _ _ _ Hs). Qed.

Lemma answer_same h h' f es k max : same_ring h h' -> answer h f es k max = answer h' f es k max.
Proof. intros Hs. unfold answer. by rewrite (listed_same _ _ _ _ Hs), (same_ring_mark _ _ _ Hs). Qed.

Lemma serve_ok h0 h q r o : same_ring h0 h -> queue h o q.1 q.2 -> request_ok h0 q r ->
  exists o' h', serve h0 q r o = Ok ((fifo_serve h0 q r).1, o') /\ same_ring h0 h' /\ queue h' o' (fifo_serve h0 q r).2.1 (fifo_serve h0 q r).2.2.
Proof.
  intros Hs Hq. destruct q as [f es]. cbn [fst snd] in Hq. pose proof (same_ring_cap _ _ Hs) as Ec. destruct r as [ds | k max | k]; cbn [request_ok fifo_serve serve].
  - intros (Hsmall & Hx). pose proof (rg_fits _ _ _ _ _ (proj2 Hq)) as Hfits.
    destruct ((zlen (stream es) <? cap h0) && (zlen (stream (es ++ ds)) <=? cap h0)) eqn:E; [apply andb_prop in E as [Hfree Hfit] | apply andb_false_iff in E as Hfull].
    + destruct (cls_enqueue_ok _ ds h o f es Hq) as (o' & -> & _ & Hq'); [lia | lia |]. by exists o', (set_tail (mark h (f + zlen (stream (es ++ ds)))) h).
    + rewrite (cls_enqueue_full _ ds h o f es Hq); [by exists o, h | lia | | done]. unfold exact_fill in *. by rewrite <- Ec.
  - intros [Hmax Hk]. assert (names h f es (match k with Some k => to_str (mark h0 (at_entry f es k)) | None => [] end) (default O k)) as Hn.
    { destruct k as [k |]; [right | by left]. cbn [default]. rewrite (same_ring_mark _ _ _ Hs), <- Ec. split; [done |]. by apply Hk. }
    exists o, h. unfold call, cls_queue_list_entries, mbind, cls_bind. rewrite (queue_read _ _ _ _ _ Hq).
    rewrite (list_entries_ok h o f es _ _ max (proj2 Hq) Hn Hmax). cbn [finish fst snd]. by rewrite (answer_same _ _ _ _ _ _ Hs).
  - intros _. rewrite (same_ring_mark _ _ _ Hs). destruct (cls_remove_ok _ k h o f es Hq) as (o' & -> & _ & Hq'). by exists o', (set_front (mark h (at_entry f es k)) h).
Qed.

Fixpoint serve_all (h : cls_queue_head) (q : fifo) (rs : list request) (o : object) : res (list response * object) :=
  match rs with
  | [] => Ok ([], o)
  | r :: rs =>
      '(a, o) ← serve h q r o;
      '(l, o) ← serve_all h (fifo_serve h q r).2 rs o;
      Ok (a :: l, o)
  end.

Fixpoint fifo_all (h : cls_queue_head) (q : fifo) (rs : list request) : list response :=
  match rs with [] => [] | r :: rs => (fifo_serve h q r).1 :: fifo_all h (fifo_serve h q r).2 rs end.

Fixpoint all_ok (h : cls_queue_head) (q : fifo) (rs : list request) : Prop :=
  match rs with [] => True | r :: rs => request_ok h q r /\ all_ok h (fifo_serve h q r).2 rs end.

Lemma serve_all_ok h0 rs : forall h q o, same_ring h0 h -> queue h o q.1 q.2 -> all_ok h0 q rs ->
  exists o', serve_all h0 q rs o = Ok (fifo_all h0 q rs, o').
Proof.
  induction rs as [| r rs IH]; intros h q o Hs Hq; cbn [all_ok serve_all fifo_all]; [eauto |]. intros [Hr Hrs].
  destruct (serve_ok h0 h q r o Hs Hq Hr) as (o1 & h1 & -> & Hs1 & Hq1). res_simpl.
  destruct (IH h1 _ o1 Hs1 Hq1 Hrs) as [o2 ->]. res_simpl. eauto.
Qed.

(** The head of a new queue. *)
Definition new_head (size urgent_size : Z) (urgent : list Z) : cls_queue_head :=
  let m := QUEUE_HEAD_SIZE_1K + urgent_size in Head m (Marker m 0) (Marker m 0) (size + m) urgent_size urgent.

Lemma init_ok size urgent_size urgent x : 0 < size -> 0 <= urgent_size -> zlen urgent + 88 <= 1024 + urgent_size ->
  size + (1024 + urgent_size) < 2 ^ 31 -> size + (1024 + urgent_size) <= osd_max_object_size ->
  exists o, call (queue_init osd_max_object_size size urgent_size urgent) (Obj [] x) = Ok (inl tt, o) /\ queue (new_head size urgent_size urgent) o 0 [] /\ xattr o = x.
Proof.
  intros Hsz Hu Hurg H31 Hmax.
  assert (queue_read_head (Obj [] x) = Ok (inr (- EINVAL), Obj [] x)) as Er.
  { unfold queue_read_head, mbind, cls_bind. rewrite read2_ok by lia. done. }
  unfold call, queue_init, attempt, mbind, cls_bind. rewrite Er, Z.eqb_refl. cbn [negb]. unfold QUEUE_HEAD_SIZE_1K. rewrite !u64_id by lia.
  assert ((if 0 <? zlen urgent then urgent else []) = urgent) as -> by (destruct urgent; done).
  assert (0 mod (size + (1024 + urgent_size) - (1024 + urgent_size)) = 0) as E0 by apply Zmod_0_l.
  assert (ring (new_head size urgent_size urgent) [] 0 []) as Hr.
  { unfold new_head, QUEUE_HEAD_SIZE_1K. split; cbn [queue_size max_head_size front tail]; [| done | | | | done].
    - split; cbn [queue_size max_head_size front tail max_urgent_data_size]; [rewrite zlen_head_bytes; cbn; lia | lia | | | lia]; split; cbn; lia.
    - unfold mark, cap. cbn [queue_size max_head_size]. rewrite E0. f_equal. lia.
    - unfold mark, cap. cbn [queue_size max_head_size]. change (0 + zlen (stream [])) with 0. rewrite E0. f_equal. lia.
    - change (zlen (stream [])) with 0. unfold cap. cbn [queue_size max_head_size]. lia. }
  destruct (queue_stored _ _ _ x _ _ Hr) as (o & E & Hq & Hx). unfold new_head, QUEUE_HEAD_SIZE_1K in E. exists o. by rewrite E.
Qed.

(** C14. a queue is a first-in, first-out queue.  After [queue_init] of a queue
    below 2 GiB, a sequence of calls to enqueue, list and remove is answered as by
    a list of entries: enqueuing appends or fails with ENOSPC without effect,
    listing from a marker returns the entries that follow in order, each with its
    marker, and removing drops the entries before the marker.  The chunks that
    listing reads and the wrap around of the ring are not visible, no assertion
    fails and every loop ends.  The calls are those of [request_ok]: an enqueue
    call has no proper first part that fills the ring exactly and no entry of
    4 GiB, a listing asks for at least one entry and does not start at the end of a
    full queue, and markers come from listings of the entries now in the queue. *)
Theorem queue_is_fifo size urgent_size urgent x rs : 0 < size -> 0 <= urgent_size -> zlen urgent + 88 <= 1024 + urgent_size ->
  size + (1024 + urgent_size) < 2 ^ 31 -> size + (1024 + urgent_size) <= osd_max_object_size ->
  all_ok (new_head size urgent_size urgent) (0, []) rs ->
  exists o o', call (queue_init osd_max_object_size size urgent_size urgent) (Obj [] x) = Ok (inl tt, o) /\
    serve_all (new_head size urgent_size urgent) (0, []) rs o = Ok (fifo_all (new_head size urgent_size urgent) (0, []) rs, o').
Proof.
  intros Hsz Hu Hurg H31 Hmax Hok. destruct (init_ok size urgent_size urgent x) as (o & Ho & Hq & _); [done.. |].
  destruct (serve_all_ok (new_head size urgent_size urgent) rs _ (0, []) o (conj eq_refl eq_refl) Hq Hok) as [o' Ho']. eauto.
Qed.
End Queue.

Definition ex_max : Z := 134217728.
Definition ex_head : cls_queue_head := new_head 50 0 [].
Definition ex_requests : list request := [Enqueue [[1; 2; 3; 4; 5]; [6; 7]]; List_entries None 1; Remove_entries 1; Enqueue [[8; 9; 10; 11; 12; 13; 14]]; List_entries (Some 1%nat) 5].

Lemma queue_is_fifo_witness : exists o o', call (queue_init ex_max 50 0 []) (Obj [] None) = Ok (inl tt, o) /\
  serve_all ex_max ex_head (0, []) ex_requests o = Ok (fifo_all ex_head (0, []) ex_requests, o').
Proof.
  apply (queue_is_fifo ex_max 50 0 [] None ex_requests); [done | done | done | done | done |].
  cbn [all_ok ex_requests]. split_and!; [| | | | | done].
  - split; [by repeat constructor | by apply fits_no_fill].
  - split; [done |]. by intros i [=].
  - done.
  - split; [by repeat constructor | by apply fits_no_fill].
  - vm_compute. split; [done |]. intros i [= <-]. split; [lia | by intros [? _]].
Defined.

(** ** Enqueuing several entries *)

Definition ex_object : object :=
  match call (queue_init ex_max 50 0 []) (Obj [] None) with
  | Ok (_, o) =>
      match serve_all ex_max ex_head (0, []) [Enqueue [[1; 2; 3; 4; 5]; [6; 7]]; Remove_entries 1; Enqueue [[8; 9; 10; 11; 12; 13; 14; 15; 16; 17; 18; 19; 20]]] o with
      | Ok (_, o) => o
      | _ => o
      end
  | _ => Obj [] None
  end.

Definition ex_overwritten : object :=
  match call (cls_queue_enqueue ex_max [[21; 22; 23; 24; 25]; [26; 27; 28]]) ex_object with Ok (_, o) => o | _ => ex_object end.

Definition ex_listed (o : object) : list (list Z) :=
  match call (cls_queue_list_entries 10 []) o with Ok (inl l, _) => e_data <$> ret_entries l | _ => [] end.

(** C38. whether the queue is full is tested before the first entry only.  When an
    entry fills the queue exactly and another one follows in the same call, the
    tail has the offset of the front, the space behind it is taken to be free, and
    the call succeeds: the entries that were in the queue are overwritten. *)
Theorem enqueue_overwrites_front :
  ex_listed ex_object = [[6; 7]; [8; 9; 10; 11; 12; 13; 14; 15; 16; 17; 18; 19; 20]] /\
  call (cls_queue_enqueue ex_max [[21; 22; 23; 24; 25]; [26; 27; 28]]) ex_object = Ok (inl tt, ex_overwritten) /\
  ex_listed ex_overwritten = [[26; 27; 28]].
Proof. vm_compute. done. Qed.
