(* ===== verification/Cls2pcQueue.v ===== *)
(** * The two-phase queue object class

    [src/src/cls/2pc_queue]: space of a queue is reserved first, and the data is
    added when the reservation is committed.  The reservations are kept in the
    urgent data of the head, and in an attribute of the object when there are too
    many of them. *)

From stdpp Require Import base list gmap.
From S2P Require Import Prelude ClsQueue ClsQueueThms.

Local Open Scope Z_scope.

(** ** Data *)

(** Times are nanoseconds. *)
Record cls_2pc_reservation := Reservation { r_size : Z; r_timestamp : Z }.

Abbreviation cls_2pc_reservations := (gmap Z cls_2pc_reservation).

Record cls_2pc_urgent_data := Urgent {
  reserved_size : Z;
  last_id : Z;
  reservations : cls_2pc_reservations;
  has_xattrs : bool
}.

Definition encode_time (t : Z) : list Z := le 4 (u32 (t / 10 ^ 9)) ++ le 4 (u32 (t mod 10 ^ 9)).
Definition decode_time : decoder Z := s ← decode_le 4; ns ← decode_le 4; mret (s * 10 ^ 9 + ns).

Definition encode_reservation (r : cls_2pc_reservation) : list Z := encode_struct 1 1 (le 8 (r_size r) ++ encode_time (r_timestamp r)).
Definition decode_reservation : decoder cls_2pc_reservation :=
  decode_struct 1 (s ← decode_le 8; t ← decode_time; mret (Reservation s t)).

Section Class.
(** The order in which an unordered map is iterated. *)
Context (iterate : cls_2pc_reservations -> list (Z * cls_2pc_reservation)).
Context (osd_max_object_size : Z).

Definition encode_pair (p : Z * cls_2pc_reservation) : list Z := le 4 p.1 ++ encode_reservation p.2.

Definition encode_reservations (m : cls_2pc_reservations) : list Z :=
  le 4 (u32 (Z.of_nat (size m))) ++ concat (encode_pair <$> iterate m).

Fixpoint decode_pairs (n : nat) (m : cls_2pc_reservations) : decoder cls_2pc_reservations :=
  match n with
  | O => mret m
  | S n => k ← decode_le 4; r ← decode_reservation; decode_pairs n (<[k := r]> m)
  end.

Definition decode_reservations : decoder cls_2pc_reservations := n ← decode_le 4; decode_pairs (Z.to_nat n) ∅.

Definition encode_urgent (u : cls_2pc_urgent_data) : list Z :=
  encode_struct 1 1 (le 8 (reserved_size u) ++ le 4 (last_id u) ++ encode_reservations (reservations u) ++ le 1 (if has_xattrs u then 1 else 0)).

Definition decode_urgent : decoder cls_2pc_urgent_data :=
  decode_struct 1
    (s ← decode_le 8; i ← decode_le 4; m ← decode_reservations; x ← decode_le 1; mret (Urgent s i m (negb (x =? 0)))).

(** ** Methods *)

Definition cls_2pc_queue_init (op_queue_size : Z) : cls unit :=
  queue_init osd_max_object_size op_queue_size 23552 (encode_urgent (Urgent 0 0 ∅ false)).

Definition read_urgent (h : cls_queue_head) : cls cls_2pc_urgent_data :=
  match decode_urgent (bl_urgent_data h) with Some (u, _) => mret u | None => throw EINVAL end.

(** The reservations in the attribute, if there is one. *)
Definition read_xattr : cls (option cls_2pc_reservations) :=
  r ← attempt cls_cxx_getxattr;
  match r with
  | inl bl => match decode_reservations bl with Some (m, _) => mret (Some m) | None => throw EINVAL end
  | inr e => if (e =? - ENOENT) || (e =? - ENODATA) then mret None else (fun o => Ok (inr e, o))
  end.

Definition write_urgent (u : cls_2pc_urgent_data) (h : cls_queue_head) : cls unit :=
  queue_write_head osd_max_object_size (set_urgent_data (encode_urgent u) h).

Definition remaining_size (h : cls_queue_head) : Z :=
  if offset (front h) <=? offset (tail h)
  then u64 (u64 (queue_size h - offset (tail h)) + u64 (offset (front h) - max_head_size h))
  else u64 (offset (front h) - offset (tail h)).

(** The last reservation is kept in the attribute instead. *)
Definition spill (res_size now : Z) (u : cls_2pc_urgent_data) (h : cls_queue_head) : cls unit :=
  x ← read_xattr;
  let xattr_reservations := default ∅ x in
  match xattr_reservations !! last_id u with
  | Some _ => throw EAGAIN
  | None =>
      cls_cxx_setxattr (encode_reservations (<[last_id u := Reservation res_size now]> xattr_reservations));;
      write_urgent (Urgent (reserved_size u) (last_id u) (delete (last_id u) (reservations u)) true) h
  end.

(** [now] and [now'] are what the two calls of the clock return. *)
Definition cls_2pc_queue_reserve (res_size res_entries now now' : Z) : cls Z :=
  if res_size =? 0 then throw EINVAL
  else if res_entries =? 0 then throw EINVAL
  else
    h ← queue_read_head;
    u ← read_urgent h;
    let overhead := u32 (res_entries * QUEUE_ENTRY_OVERHEAD) in
    if remaining_size h <? u64 (u64 (res_size + reserved_size u) + overhead) then throw ENOSPC
    else
      let id := u32 (last_id u + 1) in
      match reservations u !! id with
      | Some _ => throw EAGAIN
      | None =>
          let u := Urgent (u64 (reserved_size u + u64 (res_size + overhead))) id (<[id := Reservation res_size now]> (reservations u)) (has_xattrs u) in
          (if max_urgent_data_size h <? zlen (encode_urgent u) then spill res_size now' u h else write_urgent u h);;
          mret id
      end.

Definition data_length (ds : list (list Z)) : Z := fold_left (fun sum d => u64 (sum + zlen d)) ds 0.

(** Adding the data of a reservation; [update] removes the reservation. *)
Definition commit_data (r : cls_2pc_reservation) (ds : list (list Z)) (h : cls_queue_head) (update : cls cls_2pc_urgent_data) : cls unit :=
  if r_size r <? data_length ds then throw EINVAL
  else
    h ← queue_enqueue osd_max_object_size ds h;
    u ← update;
    write_urgent u h.

Definition without (r : cls_2pc_reservation) (m : cls_2pc_reservations) (u : cls_2pc_urgent_data) : cls_2pc_urgent_data :=
  Urgent (u64 (reserved_size u - r_size r)) (last_id u) m (has_xattrs u).

Definition cls_2pc_queue_commit (id : Z) (ds : list (list Z)) : cls unit :=
  h ← queue_read_head;
  u ← read_urgent h;
  match reservations u !! id with
  | Some r => commit_data r ds h (mret (without r (delete id (reservations u)) u))
  | None =>
      if negb (has_xattrs u) then throw ENOENT
      else
        x ← read_xattr;
        match x ≫= (fun m => r ← m !! id; Some (m, r)) with
        | None => throw ENOENT
        | Some (m, r) =>
            commit_data r ds h (cls_cxx_setxattr (encode_reservations (delete id m));; mret (without r (reservations u) u))
        end
  end.

Definition cls_2pc_queue_abort (id : Z) : cls unit :=
  h ← queue_read_head;
  u ← read_urgent h;
  match reservations u !! id with
  | Some r => write_urgent (without r (delete id (reservations u)) u) h
  | None =>
      if negb (has_xattrs u) then mret tt
      else
        x ← read_xattr;
        match x ≫= (fun m => r ← m !! id; Some (m, r)) with
        | None => mret tt
        | Some (m, r) => cls_cxx_setxattr (encode_reservations (delete id m));; write_urgent (without r (reservations u) u) h
        end
  end.

Definition cls_2pc_queue_list_reservations : cls cls_2pc_reservations :=
  h ← queue_read_head;
  u ← read_urgent h;
  if negb (has_xattrs u) then mret (reservations u)
  else (x ← read_xattr; mret (reservations u ∪ default ∅ x)).

Definition stale (t : Z) (m : cls_2pc_reservations) : cls_2pc_reservations := filter (fun p => r_timestamp p.2 < t) m.
Definition fresh (t : Z) (m : cls_2pc_reservations) : cls_2pc_reservations := filter (fun p => ~ r_timestamp p.2 < t) m.
Definition total_size (m : cls_2pc_reservations) : Z := map_fold (fun _ r s => r_size r + s) 0 m.

(** [stale_time] is a time that has been encoded. *)
Definition cls_2pc_queue_expire_reservations (stale_time : Z) : cls unit :=
  h ← queue_read_head;
  u ← read_urgent h;
  x ← (if has_xattrs u then read_xattr else mret None);
  let xm := default ∅ x in
  (if bool_decide (stale stale_time xm = ∅) then mret tt else cls_cxx_setxattr (encode_reservations (fresh stale_time xm)));;
  if bool_decide (stale stale_time (reservations u) = ∅) && bool_decide (stale stale_time xm = ∅) then mret tt
  else
    write_urgent (Urgent (u64 (reserved_size u - u64 (total_size (stale stale_time (reservations u)) + total_size (stale stale_time xm))))
                    (last_id u) (fresh stale_time (reservations u)) (has_xattrs u)) h.

Definition cls_2pc_queue_list_entries (max : Z) (start_marker : list Z) : cls cls_queue_list_ret :=
  h ← queue_read_head; queue_list_entries max start_marker h.

Definition cls_2pc_queue_remove_entries (end_marker : list Z) : cls unit := cls_queue_remove_entries osd_max_object_size end_marker.
End Class.
