(* ===== verification/Cls2pcThms.v ===== *)
(** * The two-phase queue object class: correctness *)

From stdpp Require Import base list gmap fin_maps.
From S2P Require Import Prelude ClsQueue ClsQueueThms ClsQueueList Cls2pcQueue.

Local Open Scope Z_scope.

(** ** Encodings *)

Definition res_wf (r : cls_2pc_reservation) : Prop := 0 <= r_size r < 2 ^ 64 /\ 0 <= r_timestamp r < 2 ^ 32 * 10 ^ 9.
Definition map_wf (m : cls_2pc_reservations) : Prop := map_Forall (fun k r => 0 <= k < 2 ^ 32 /\ res_wf r) m /\ Z.of_nat (size m) < 2 ^ 32.

Lemma decodes_time t : 0 <= t < 2 ^ 32 * 10 ^ 9 -> decodes decode_time (encode_time t) t.
Proof.
  intros Ht. pose proof (Z.div_mod t (10 ^ 9)) as E. pose proof (Z.mod_pos_bound t (10 ^ 9)).
  assert (0 <= t / 10 ^ 9 < 2 ^ 32) by (split; [apply Z.div_pos; lia | apply Z.div_lt_upper_bound; lia]).
  unfold encode_time, u32. rewrite !Z.mod_small by lia. rewrite <- (app_nil_r (le 4 (t mod 10 ^ 9))).
  apply (decodes_bind _ _ _ _ (t / 10 ^ 9)); [apply decodes_le; lia |]. apply (decodes_bind _ _ _ _ (t mod 10 ^ 9)); [apply decodes_le; lia |].
  replace t with (t / 10 ^ 9 * 10 ^ 9 + t mod 10 ^ 9) at 3 by lia. apply decodes_ret.
Qed.

Lemma zlen_encode_time t : zlen (encode_time t) = 8.
Proof. unfold encode_time. rewrite zlen_app, !zlen_le. done. Qed.

Lemma decodes_reservation r : res_wf r -> decodes decode_reservation (encode_reservation r) r.
Proof.
  intros [Hs Ht]. apply decodes_struct; [lia | lia | rewrite zlen_app, zlen_le, zlen_encode_time; lia |].
  rewrite <- (app_nil_r (encode_time (r_timestamp r))). destruct r as [s t].
  apply (decodes_bind _ _ _ _ s); [by apply decodes_le |]. apply (decodes_bind _ _ _ _ t); [by apply decodes_time |]. apply decodes_ret.
Qed.

Lemma zlen_encode_pair p : zlen (encode_pair p) = 26.
Proof. unfold encode_pair, encode_reservation, encode_struct. rewrite !zlen_app, !zlen_le, zlen_encode_time. done. Qed.

Definition pair_wf (p : Z * cls_2pc_reservation) : Prop := 0 <= p.1 < 2 ^ 32 /\ res_wf p.2.

Lemma decodes_pairs l m : Forall pair_wf l ->
  decodes (decode_pairs (length l) m) (concat (encode_pair <$> l)) (foldl (fun m p => <[p.1 := p.2]> m) m l).
Proof.
  intros Hl. revert m. induction Hl as [| [k r] l [Hk Hr] _ IH]; intros m; [apply decodes_ret |].
  cbn [fmap list_fmap concat foldl length decode_pairs]. unfold encode_pair at 1. cbn [fst snd]. rewrite <- app_assoc.
  apply (decodes_bind _ _ _ _ k); [by apply decodes_le |]. apply (decodes_bind _ _ _ _ r); [by apply decodes_reservation |]. apply IH.
Qed.

Lemma foldl_insert (l : list (Z * cls_2pc_reservation)) (m : cls_2pc_reservations) :
  foldl (fun m p => <[p.1 := p.2]> m) m l = list_to_map (reverse l) ∪ m.
Proof.
  revert m. induction l as [| [k r] l IH]; intros m; cbn [foldl].
  - symmetry. apply (left_id_L ∅ (∪) m).
  - rewrite IH, reverse_cons, list_to_map_app, <- assoc_L by apply _. f_equal. cbn [list_to_map foldr fst snd].
    rewrite <- insert_union_l. f_equal. symmetry. apply (left_id_L ∅ (∪) m).
Qed.

(** ** Sums over maps *)

Definition total {V} (w : V -> Z) (m : gmap Z V) : Z := map_fold (fun _ v s => w v + s) 0 m.

Lemma total_insert {V} (w : V -> Z) m k v : m !! k = None -> total w (<[k := v]> m) = w v + total w m.
Proof. intros Hk. unfold total. rewrite map_fold_insert_L; [done | | done]. intros. lia. Qed.

Lemma total_delete {V} (w : V -> Z) m k v : m !! k = Some v -> total w m = w v + total w (delete k m).
Proof. intros Hk. rewrite <- (insert_delete_id m k v Hk) at 1. apply total_insert, lookup_delete_eq. Qed.

Lemma total_fmap {V W} (f : V -> W) (w : W -> Z) (m : gmap Z V) : total w (f <$> m) = total (fun v => w (f v)) m.
Proof.
  induction m as [| k v m Hk IH] using map_ind; [by rewrite fmap_empty |].
  rewrite fmap_insert, !total_insert; [by rewrite IH | done | by rewrite lookup_fmap, Hk].
Qed.

Lemma total_union {V} (w : V -> Z) (m1 m2 : gmap Z V) : m1 ##ₘ m2 -> total w (m1 ∪ m2) = total w m1 + total w m2.
Proof.
  induction m1 as [| k v m Hk IH] using map_ind; intros Hd; [by rewrite (left_id_L ∅ (∪)) |].
  apply map_disjoint_insert_l in Hd as [Hk2 Hd]. rewrite <- insert_union_l, !total_insert; [rewrite IH by done; lia | done |].
  by apply lookup_union_None.
Qed.

Lemma totals_bounds {V} (w : V -> Z) m : map_Forall (fun _ v => 1 <= w v) m -> Z.of_nat (size m) <= total w m.
Proof.
  induction m as [| k v m Hk IH] using map_ind; [done |]. intros [Hv Hm]%map_Forall_insert; [| done].
  rewrite map_size_insert_None, total_insert by done. specialize (IH Hm). lia.
Qed.

Lemma total_split {V} (w : V -> Z) (P : Z * V -> Prop) `{!forall x, Decision (P x)} m : total w m = total w (filter P m) + total w (filter (fun x => ~ P x) m).
Proof.
  rewrite <- total_union by apply map_disjoint_filter_complement. by rewrite map_filter_union_complement.
Qed.

Lemma totals_mono {V} (w w' : V -> Z) m : map_Forall (fun _ v => w v <= w' v) m -> total w m <= total w' m.
Proof.
  induction m as [| k v m Hk IH] using map_ind; [done |]. intros [Hv Hm]%map_Forall_insert; [| done].
  rewrite !total_insert by done. specialize (IH Hm). lia.
Qed.

Section Class.
Context (iterate : cls_2pc_reservations -> list (Z * cls_2pc_reservation)) (Hiter : forall m, iterate m ≡ₚ map_to_list m).
Context (osd_max_object_size : Z).

Abbreviation encode_reservations := (encode_reservations iterate).
Abbreviation encode_urgent := (encode_urgent iterate).

Lemma length_iterate m : length (iterate m) = size m.
Proof. rewrite (Permutation_length (Hiter m)). by rewrite length_map_to_list. Qed.

Lemma zlen_encode_reservations m : zlen (encode_reservations m) = 4 + 26 * Z.of_nat (size m).
Proof.
  unfold Cls2pcQueue.encode_reservations. rewrite zlen_app, zlen_le, <- length_iterate.
  induction (iterate m) as [| p l IH]; [done |]. cbn [fmap list_fmap concat length]. rewrite zlen_app, zlen_encode_pair. unfold zlen in *. lia.
Qed.

Lemma decodes_reservations m : map_wf m -> decodes decode_reservations (encode_reservations m) m.
Proof.
  intros [Hm Hs]. unfold Cls2pcQueue.encode_reservations, u32. rewrite Z.mod_small by lia.
  apply (decodes_bind _ _ _ _ (Z.of_nat (size m))); [apply decodes_le; lia |]. rewrite Nat2Z.id, <- length_iterate.
  assert (foldl (fun m p => <[p.1 := p.2]> m) ∅ (iterate m) = m) as E.
  { rewrite foldl_insert. etransitivity; [apply (right_id_L ∅ (∪)) |].
    assert (reverse (iterate m) ≡ₚ map_to_list m) as Hp by (by rewrite reverse_Permutation).
    rewrite (list_to_map_proper _ (map_to_list m)); [apply list_to_map_to_list | | done]. rewrite Hp. apply NoDup_fst_map_to_list. }
  rewrite <- E at 3. apply decodes_pairs. rewrite (Hiter m). apply Forall_forall. intros [k r] Hk. apply elem_of_map_to_list in Hk. by apply (Hm k r).
Qed.

Definition urgent_wf (u : cls_2pc_urgent_data) : Prop := 0 <= reserved_size u < 2 ^ 64 /\ 0 <= last_id u < 2 ^ 32 /\ map_wf (reservations u).

Lemma zlen_encode_urgent u : zlen (encode_urgent u) = 23 + 26 * Z.of_nat (size (reservations u)).
Proof. unfold Cls2pcQueue.encode_urgent, encode_struct. rewrite !zlen_app, !zlen_le, zlen_encode_reservations. change (zlen [1; 1]) with 2. lia. Qed.

Lemma decodes_urgent u : urgent_wf u -> zlen (encode_urgent u) < 2 ^ 31 -> decodes decode_urgent (encode_urgent u) u.
Proof.
  intros (Hs & Hi & Hm) Hl. rewrite zlen_encode_urgent in Hl.
  apply decodes_struct; [lia | lia | rewrite !zlen_app, !zlen_le, zlen_encode_reservations; lia |].
  destruct u as [s i m x]. cbn [reserved_size last_id reservations has_xattrs] in *. rewrite <- (app_nil_r (le 1 _)).
  apply (decodes_bind _ _ _ _ s); [by apply decodes_le |]. apply (decodes_bind _ _ _ _ i); [by apply decodes_le |].
  apply (decodes_bind _ _ _ _ m); [by apply decodes_reservations |]. apply (decodes_bind _ _ _ _ (if x then 1 else 0)); [apply decodes_le; destruct x; lia |].
  destruct x; apply decodes_ret.
Qed.

(** ** Reservations *)

(** A reservation with the number of entries it was made for, which the class
    does not record. *)
Record grant := Grant { g_size : Z; g_entries : Z; g_time : Z }.

Definition weight (g : grant) : Z := g_size g + 10 * g_entries g.
Definition recorded (g : grant) : cls_2pc_reservation := Reservation (g_size g) (g_time g).
Definition grant_wf (k : Z) (g : grant) : Prop := 0 <= k < 2 ^ 32 /\ 0 < g_size g < 2 ^ 64 /\ 0 < g_entries g /\ 0 <= g_time g < 2 ^ 32 * 10 ^ 9.

Section Queue.
Context (capacity : Z).

(** A queue with the reservations [out], kept in [u] and in [xm]. *)
Record reserved_in (h : cls_queue_head) (u : cls_2pc_urgent_data) (xm : cls_2pc_reservations) (o : object) (f : Z) (es : list (list Z))
    (out : gmap Z grant) : Prop := {
  ri_queue : queue osd_max_object_size h o f es;
  ri_head : max_head_size h = 24576 /\ queue_size h = capacity + 24576 /\ max_urgent_data_size h = 23552;
  ri_urgent : bl_urgent_data h = encode_urgent u;
  ri_len : zlen (encode_urgent u) <= 23552;
  ri_range : 0 <= reserved_size u <= capacity /\ 0 <= last_id u < 2 ^ 32;
  ri_xattr : xattr o = None /\ xm = ∅ \/ xattr o = Some (encode_reservations xm) /\ has_xattrs u = true;
  ri_disj : reservations u ##ₘ xm;
  ri_out : recorded <$> out = reservations u ∪ xm;
  ri_wf : map_Forall grant_wf out;
  ri_reserved : total weight out <= reserved_size u;
  ri_free : total weight out <= capacity - zlen (stream es)
}.

Definition reserved (o : object) (f : Z) (es : list (list Z)) (out : gmap Z grant) : Prop := exists h u xm, reserved_in h u xm o f es out.

Section State.
Context (h : cls_queue_head) (u : cls_2pc_urgent_data) (xm : cls_2pc_reservations) (o : object) (f : Z) (es : list (list Z)) (out : gmap Z grant).
Context (Hri : reserved_in h u xm o f es out).

Lemma ri_ring : ring osd_max_object_size h (data o) f es.
Proof. apply Hri. Qed.

Lemma ri_cap : cap h = capacity /\ 0 < capacity < 2 ^ 31.
Proof.
  destruct (ri_head _ _ _ _ _ _ _ Hri) as (E1 & E2 & _). destruct (ring_geometry _ _ _ _ _ ri_ring) as (? & ? & _). unfold cap. lia.
Qed.

Lemma ri_few : Z.of_nat (size (reservations u)) + Z.of_nat (size xm) < 2 ^ 31.
Proof.
  assert (Z.of_nat (size out) <= total weight out) as H.
  { apply totals_bounds. eapply map_Forall_impl; [apply Hri |]. intros k g (_ & Hs & He & _). unfold weight. lia. }
  pose proof (ri_free _ _ _ _ _ _ _ Hri). pose proof ri_cap. pose proof (zlen_nonneg (stream es)).
  rewrite <- Nat2Z.inj_add, <- map_size_disj_union by apply Hri. rewrite <- (ri_out _ _ _ _ _ _ _ Hri), map_size_fmap. lia.
Qed.

Lemma ri_kept k r : (reservations u ∪ xm) !! k = Some r -> 0 <= k < 2 ^ 32 /\ res_wf r.
Proof.
  rewrite <- (ri_out _ _ _ _ _ _ _ Hri), lookup_fmap. intros (g & Hg & ->)%fmap_Some.
  destruct (ri_wf _ _ _ _ _ _ _ Hri k g Hg) as (Hk & Hs & _ & Ht). split; [done |]. unfold res_wf. cbn. lia.
Qed.

Lemma ri_urgent_wf : urgent_wf u.
Proof.
  destruct (ri_range _ _ _ _ _ _ _ Hri) as [Hr Hl]. pose proof ri_few. pose proof ri_cap. split; [lia |]. split; [done |]. split; [| lia].
  intros k r Hk. apply ri_kept. by apply lookup_union_Some_l.
Qed.

Lemma ri_xm_wf : map_wf xm.
Proof.
  pose proof ri_few. split; [| lia]. intros k r Hk. apply ri_kept. apply lookup_union_Some_r; [apply Hri | done].
Qed.

Lemma read_urgent_ok o' : read_urgent h o' = Ok (inl u, o').
Proof.
  unfold read_urgent. rewrite (ri_urgent _ _ _ _ _ _ _ Hri). pose proof (ri_len _ _ _ _ _ _ _ Hri).
  pose proof (decodes_urgent u ri_urgent_wf ltac:(lia) []) as E. rewrite app_nil_r in E. by rewrite E.
Qed.

Definition xattr_map : option cls_2pc_reservations := match xattr o with Some _ => Some xm | None => None end.

Lemma xattr_map_default : default ∅ xattr_map = xm.
Proof. unfold xattr_map. by destruct (ri_xattr _ _ _ _ _ _ _ Hri) as [[-> ->] | [-> _]]. Qed.

Lemma read_xattr_ok o' : xattr o' = xattr o -> read_xattr o' = Ok (inl xattr_map, o').
Proof.
  intros Eo. unfold read_xattr, attempt, cls_cxx_getxattr, mbind, cls_bind, xattr_map. rewrite Eo.
  destruct (ri_xattr _ _ _ _ _ _ _ Hri) as [[-> _] | [-> _]]; [done |].
  pose proof (decodes_reservations xm ri_xm_wf []) as Ed. rewrite app_nil_r in Ed. by rewrite Ed.
Qed.

(** The head with other reservations. *)
Lemma write_urgent_ok h' o1 f' es' u' : ring osd_max_object_size h' (data o1) f' es' -> max_head_size h' = 24576 -> zlen (encode_urgent u') <= 23552 ->
  exists o', write_urgent iterate osd_max_object_size u' h' o1 = Ok (inl tt, o') /\ xattr o' = xattr o1 /\
    queue osd_max_object_size (set_urgent_data (encode_urgent u') h') o' f' es'.
Proof.
  intros Hr Hm Hl. destruct o1 as [d x]. destruct (queue_stored osd_max_object_size (set_urgent_data (encode_urgent u') h') d x f' es') as (o' & E & Hq & Hx); [| eauto].
  destruct Hr as [[Hs Hsm Hf Ht Hu] Hmx Hfr Htl Hfit Hb]. split; try done. split; try done.
  rewrite zlen_head_bytes in *. cbn [max_head_size bl_urgent_data set_urgent_data queue_size]. lia.
Qed.

Lemma remaining_ok : zlen (stream es) < capacity -> remaining_size h = capacity - zlen (stream es).
Proof.
  intros Hfree. pose proof ri_ring as Hr. destruct (ring_geometry _ _ _ _ _ Hr) as (Hg & H31 & _). destruct ri_cap as [Ec Hc].
  pose proof (ring_tail_near _ _ _ _ _ Hr) as Hnear. cbv zeta in Hnear. pose proof (zlen_nonneg (stream es)).
  pose proof (Z.mod_pos_bound f (cap h)). assert (max_head_size h + cap h = queue_size h) as HQ by (unfold cap; lia).
  unfold remaining_size. rewrite (rg_front _ _ _ _ _ Hr), (rg_tail _ _ _ _ _ Hr). unfold mark. cbn [offset].
  destruct Hnear as [(Hn & -> & _) | (Hn & -> & _)].
  - rewrite (proj2 (Z.leb_le _ _)) by lia. rewrite (u64_id (queue_size h - _)), (u64_id (_ - max_head_size h)), u64_id by lia. lia.
  - rewrite (proj2 (Z.leb_gt _ _)) by lia. rewrite u64_id by lia. lia.
Qed.

Lemma out_lookup id g : out !! id = Some g ->
  reservations u !! id = Some (recorded g) /\ xm !! id = None \/
  reservations u !! id = None /\ xm !! id = Some (recorded g) /\ xattr_map = Some xm /\ has_xattrs u = true.
Proof.
  intros Hg. assert ((reservations u ∪ xm) !! id = Some (recorded g)) as E by (by rewrite <- (ri_out _ _ _ _ _ _ _ Hri), lookup_fmap, Hg).
  apply lookup_union_Some in E as [E | E]; [| | apply Hri].
  - left. split; [done |]. by apply (map_disjoint_Some_l _ _ _ _ (ri_disj _ _ _ _ _ _ _ Hri) E).
  - right. pose proof (map_disjoint_Some_r _ _ _ _ (ri_disj _ _ _ _ _ _ _ Hri) E).
    destruct (ri_xattr _ _ _ _ _ _ _ Hri) as [[_ E0] | [Ex Eh]]; [by rewrite E0, lookup_empty in E |]. unfold xattr_map. by rewrite Ex.
Qed.

Lemma out_lookup_None id : out !! id = None <-> reservations u !! id = None /\ xm !! id = None.
Proof. rewrite <- lookup_union_None, <- (ri_out _ _ _ _ _ _ _ Hri), lookup_fmap, fmap_None. done. Qed.

(** ** Making a reservation *)

Lemma reserve_ok res_size res_entries now now' : 0 <= res_size < 2 ^ 63 -> 0 <= res_entries -> res_entries * 10 < 2 ^ 32 ->
  0 <= now < 2 ^ 32 * 10 ^ 9 -> 0 <= now' < 2 ^ 32 * 10 ^ 9 -> zlen (stream es) < capacity ->
  exists r o', call (cls_2pc_queue_reserve iterate osd_max_object_size res_size res_entries now now') o = Ok (r, o') /\
    ((exists e, r = inr e /\ o' = o) \/
     exists id t, r = inl id /\ (out !! id = None -> reserved o' f es (<[id := Grant res_size res_entries t]> out))).
Proof.
  intros Hs He Ho Hnow Hnow' Hfree. destruct ri_cap as [Ec Hcap]. destruct (ri_range _ _ _ _ _ _ _ Hri) as [Hres Hid].
  pose proof (ri_free _ _ _ _ _ _ _ Hri) as Hf. pose proof (ri_reserved _ _ _ _ _ _ _ Hri) as Hw. destruct (ri_head _ _ _ _ _ _ _ Hri) as (Eh & Eq & Eu).
  unfold cls_2pc_queue_reserve. destruct (Z.eqb_spec res_size 0); [eexists _, o; split; [done |]; left; eauto |].
  destruct (Z.eqb_spec res_entries 0); [eexists _, o; split; [done |]; left; eauto |].
  unfold call, mbind, cls_bind. rewrite (queue_read _ _ _ _ _ (ri_queue _ _ _ _ _ _ _ Hri)), read_urgent_ok, remaining_ok by done.
  unfold QUEUE_ENTRY_OVERHEAD. rewrite (u32_id (res_entries * 10)) by (unfold is_u32; lia).
  rewrite (u64_id (res_size + reserved_size u)), (u64_id (res_size + reserved_size u + _)) by lia.
  destruct (Z.ltb_spec (capacity - zlen (stream es)) (res_size + reserved_size u + res_entries * 10)); [eexists _, o; split; [done |]; left; eauto |].
  set (id := u32 (last_id u + 1)). assert (0 <= id < 2 ^ 32) as Hid' by apply u32_range.
  destruct (reservations u !! id) as [r |] eqn:Er; [eexists _, o; split; [done |]; left; eauto |].
  rewrite (u64_id (res_size + res_entries * 10)), (u64_id (reserved_size u + _)) by lia.
  set (u' := Urgent _ id _ _). rewrite Eu. pose proof (zlen_nonneg (stream es)).
  assert (forall t, 0 <= t < 2 ^ 32 * 10 ^ 9 -> out !! id = None -> map_Forall grant_wf (<[id := Grant res_size res_entries t]> out) /\
    total weight (<[id := Grant res_size res_entries t]> out) = res_size + 10 * res_entries + total weight out) as Hgr.
  { intros t Ht Hn. split; [| by rewrite total_insert]. apply map_Forall_insert_2; [| apply Hri]. unfold grant_wf. cbn. lia. }
  destruct (Z.ltb_spec 23552 (zlen (encode_urgent u'))) as [Hlong | Hshort].
  - unfold spill, mbind, cls_bind. rewrite read_xattr_ok by done. rewrite xattr_map_default. cbn [last_id u'].
    destruct (xm !! id) as [r |] eqn:Ex; [eexists _, o; split; [done |]; left; eauto |]. cbn [cls_cxx_setxattr].
    set (u2 := Urgent _ _ _ _). set (o1 := Obj (data o) _).
    assert (reservations u2 = reservations u) as E2 by (cbn; by rewrite delete_insert_id).
    destruct (write_urgent_ok h o1 f es u2) as (o' & -> & Hx & Hq); [apply ri_ring | done | rewrite zlen_encode_urgent, E2, <- zlen_encode_urgent; apply Hri |].
    do 2 eexists. split; [reflexivity |]. right. exists id, now'. split; [done |]. intros Hn. destruct (Hgr now' Hnow' Hn) as [Hg1 Hg2].
    exists (set_urgent_data (encode_urgent u2) h), u2, (<[id := Reservation res_size now']> xm). split; rewrite ?E2; try done.
    + rewrite zlen_encode_urgent, E2, <- zlen_encode_urgent. apply Hri.
    + cbn. lia.
    + right. by rewrite Hx.
    + apply map_disjoint_insert_r_2; [done | apply Hri].
    + rewrite fmap_insert, (ri_out _ _ _ _ _ _ _ Hri). by rewrite insert_union_r.
    + rewrite Hg2. cbn. lia.
    + rewrite Hg2. lia.
  - destruct (write_urgent_ok h o f es u') as (o' & -> & Hx & Hq); [apply ri_ring | done | done |].
    do 2 eexists. split; [reflexivity |]. right. exists id, now. split; [done |]. intros Hn. destruct (Hgr now Hnow Hn) as [Hg1 Hg2].
    apply out_lookup_None in Hn as [_ Hxn].
    exists (set_urgent_data (encode_urgent u') h), u', xm. split; try done.
    + cbn. lia.
    + rewrite Hx. apply Hri.
    + cbn. apply map_disjoint_insert_l_2; [done | apply Hri].
    + cbn. rewrite fmap_insert, (ri_out _ _ _ _ _ _ _ Hri). by rewrite insert_union_l.
    + rewrite Hg2. cbn. lia.
    + rewrite Hg2. lia.
Qed.

(** ** Ending a reservation *)

Lemma weights_nonneg out' : map_Forall grant_wf out' -> 0 <= total weight out'.
Proof.
  intros Hw. transitivity (Z.of_nat (size out')); [lia |]. apply totals_bounds. eapply map_Forall_impl; [apply Hw |].
  intros k g (_ & ? & ? & _). unfold weight. lia.
Qed.

Definition same_layout (h' : cls_queue_head) : Prop :=
  max_head_size h' = max_head_size h /\ queue_size h' = queue_size h /\ max_urgent_data_size h' = max_urgent_data_size h.

(** The head and the attribute with fewer reservations. *)
Lemma settle_ok h' o1 es' out' m xm' s : ring osd_max_object_size h' (data o1) f es' -> same_layout h' ->
  xattr o1 = None /\ xm' = ∅ \/ xattr o1 = Some (encode_reservations xm') /\ has_xattrs u = true ->
  m ##ₘ xm' -> (size m <= size (reservations u))%nat -> recorded <$> out' = m ∪ xm' -> map_Forall grant_wf out' ->
  total weight out' <= s <= reserved_size u -> total weight out' <= capacity - zlen (stream es') ->
  exists o', write_urgent iterate osd_max_object_size (Urgent s (last_id u) m (has_xattrs u)) h' o1 = Ok (inl tt, o') /\ reserved o' f es' out'.
Proof.
  intros Hr (Em & Eq & Eu) Hx Hd Hsz Hout Hwf Hs Hfree. destruct (ri_range _ _ _ _ _ _ _ Hri) as [Hres Hid].
  destruct (ri_head _ _ _ _ _ _ _ Hri) as (Eh & Eqs & Euu). pose proof (weights_nonneg out' Hwf). set (u' := Urgent s _ m _).
  assert (zlen (encode_urgent u') <= 23552) as Hlen.
  { pose proof (ri_len _ _ _ _ _ _ _ Hri) as Hl. rewrite zlen_encode_urgent in *. cbn. lia. }
  destruct (write_urgent_ok h' o1 f es' u') as (o' & -> & Hxo & Hq); [done | lia | done |].
  exists o'. split; [done |]. exists (set_urgent_data (encode_urgent u') h'), u', xm'.
  split; try done; cbn [max_head_size queue_size max_urgent_data_size set_urgent_data reserved_size last_id reservations has_xattrs u']; [lia | lia | by rewrite Hxo | lia].
Qed.

(** A reservation is dropped from where it is kept. *)
Lemma drop_ok id g h' o1 es' : out !! id = Some g -> ring osd_max_object_size h' (data o1) f es' -> same_layout h' ->
  total weight (delete id out) <= capacity - zlen (stream es') -> xattr o1 = xattr o ->
  exists m o2 o', (if decide (is_Some (reservations u !! id)) then m = delete id (reservations u) /\ o2 = o1
                  else m = reservations u /\ o2 = Obj (data o1) (Some (encode_reservations (delete id xm)))) /\
    write_urgent iterate osd_max_object_size (without (recorded g) m u) h' o2 = Ok (inl tt, o') /\ reserved o' f es' (delete id out).
Proof.
  intros Hg Hr Hlay Hfree Hx. destruct (ri_range _ _ _ _ _ _ _ Hri) as [Hres _]. destruct ri_cap as [_ Hcap].
  pose proof (ri_reserved _ _ _ _ _ _ _ Hri) as Hw. rewrite (total_delete weight out id g Hg) in Hw. unfold weight in Hw at 1.
  destruct (ri_wf _ _ _ _ _ _ _ Hri id g Hg) as (Hk & Hgs & Hge & Hgt).
  assert (map_Forall grant_wf (delete id out)) as Hwf by apply map_Forall_delete, Hri. pose proof (weights_nonneg _ Hwf).
  assert (u64 (reserved_size u - r_size (recorded g)) = reserved_size u - g_size g) as Eres by (apply u64_id; cbn; lia).
  assert (recorded <$> delete id out = delete id (reservations u) ∪ delete id xm) as Ho by (by rewrite fmap_delete, (ri_out _ _ _ _ _ _ _ Hri), delete_union).
  unfold without. rewrite Eres. destruct (out_lookup id g Hg) as [[E1 E2] | (E1 & E2 & _ & Eh2)]; rewrite E1.
  - rewrite (delete_id xm) in Ho by done.
    destruct (settle_ok h' o1 es' (delete id out) (delete id (reservations u)) xm (reserved_size u - g_size g) Hr Hlay) as (o' & E & Hres'); try done.
    + rewrite Hx. apply Hri.
    + apply map_disjoint_delete_l, Hri.
    + rewrite map_size_delete_Some by eauto. lia.
    + lia.
    + eexists _, _, o'. by rewrite decide_True by eauto.
  - rewrite (delete_id (reservations u)) in Ho by done. set (o2 := Obj (data o1) (Some (encode_reservations (delete id xm)))).
    destruct (settle_ok h' o2 es' (delete id out) (reservations u) (delete id xm) (reserved_size u - g_size g) Hr Hlay) as (o' & E & Hres'); try done.
    + by right.
    + apply map_disjoint_delete_r, Hri.
    + lia.
    + eexists _, _, o'. by rewrite decide_False by (by intros [? [=]]).
Qed.

Lemma data_length_ok (ds : list (list Z)) acc : 0 <= acc -> acc + zlen (concat ds) < 2 ^ 64 -> fold_left (fun sum d => u64 (sum + zlen d)) ds acc = acc + zlen (concat ds).
Proof.
  revert acc. induction ds as [| d ds IH]; intros acc Ha Hb; cbn [fold_left concat] in *; [unfold zlen; cbn; lia |].
  rewrite zlen_app in *. pose proof (zlen_nonneg d). pose proof (zlen_nonneg (concat ds)). rewrite u64_id by lia. rewrite IH by lia. lia.
Qed.

Lemma zlen_stream (ds : list (list Z)) : zlen (stream ds) = zlen (concat ds) + 10 * zlen ds.
Proof.
  induction ds as [| d ds IH]; [done |]. rewrite stream_cons, zlen_app, zlen_entry, IH. cbn [concat]. rewrite zlen_app. unfold zlen. cbn [length]. lia.
Qed.

Lemma commit_ok id g ds : out !! id = Some g -> ds <> [] -> zlen ds <= g_entries g -> zlen (concat ds) <= g_size g ->
  exists o', call (cls_2pc_queue_commit iterate osd_max_object_size id ds) o = Ok (inl tt, o') /\ reserved o' f (es ++ ds) (delete id out).
Proof.
  intros Hg Hds Hn Hlen. pose proof (ri_wf _ _ _ _ _ _ _ Hri id g Hg) as (_ & Hgs & Hge & _).
  pose proof (ri_free _ _ _ _ _ _ _ Hri) as Hf. rewrite (total_delete weight out id g Hg) in Hf. destruct ri_cap as [Ec _].
  pose proof (zlen_nonneg (concat ds)).
  assert (total weight (delete id out) <= capacity - zlen (stream (es ++ ds))) as Hfree.
  { rewrite stream_app, zlen_app, (zlen_stream ds). unfold weight in Hf at 1. lia. }
  pose proof (weights_nonneg _ (map_Forall_delete _ _ id (ri_wf _ _ _ _ _ _ _ Hri))).
  destruct (queue_enqueue_ok osd_max_object_size ds h o f es ri_ring) as (d' & Eenq & Hr'); [done | lia |].
  destruct (drop_ok id g _ (Obj d' (xattr o)) (es ++ ds) Hg Hr') as (m & o2 & o' & Hm & Ew & Hres'); [done | done | done |].
  exists o'. split; [| done]. unfold call, cls_2pc_queue_commit, mbind, cls_bind.
  rewrite (queue_read _ _ _ _ _ (ri_queue _ _ _ _ _ _ _ Hri)), read_urgent_ok.
  assert ((r_size (recorded g) <? data_length ds) = false) as Eld.
  { apply Z.ltb_ge. unfold data_length. rewrite data_length_ok by lia. cbn. lia. }
  destruct (out_lookup id g Hg) as [[E1 E2] | (E1 & E2 & Exm & Eh2)]; rewrite E1 in Hm |- *.
  - rewrite decide_True in Hm by eauto. destruct Hm as [-> ->]. unfold commit_data, mbind, cls_bind, mret, cls_ret. rewrite Eld, Eenq. by rewrite Ew.
  - rewrite decide_False in Hm by (by intros [? [=]]). destruct Hm as [-> ->]. rewrite Eh2. cbn [negb]. rewrite read_xattr_ok, Exm by done.
    cbn [mbind option_bind]. rewrite E2. cbn [mbind option_bind]. unfold commit_data, mbind, cls_bind, mret, cls_ret. rewrite Eld, Eenq.
    unfold cls_cxx_setxattr. cbn [data] in *. by rewrite Ew.
Qed.

(** A commit of a reservation that is not there, or of more data than was reserved. *)
Lemma commit_refused id ds : (forall g, out !! id = Some g -> g_size g < zlen (concat ds) < 2 ^ 64) ->
  exists e, call (cls_2pc_queue_commit iterate osd_max_object_size id ds) o = Ok (inr e, o).
Proof.
  intros Hbad. unfold call, cls_2pc_queue_commit, mbind, cls_bind.
  rewrite (queue_read _ _ _ _ _ (ri_queue _ _ _ _ _ _ _ Hri)), read_urgent_ok. destruct (out !! id) as [g |] eqn:Hg.
  - specialize (Hbad g eq_refl). assert ((r_size (recorded g) <? data_length ds) = true) as Eld.
    { apply Z.ltb_lt. unfold data_length. rewrite data_length_ok by lia. cbn. lia. }
    destruct (out_lookup id g Hg) as [[-> _] | (-> & E2 & Exm & ->)]; [unfold commit_data; rewrite Eld; cbn; eauto |].
    cbn [negb]. rewrite read_xattr_ok, Exm by done. cbn [mbind option_bind]. rewrite E2. cbn [mbind option_bind]. unfold commit_data. rewrite Eld. cbn. eauto.
  - apply out_lookup_None in Hg as [-> Ex]. destruct (has_xattrs u); cbn [negb]; [| cbn; eauto]. rewrite read_xattr_ok by done.
    unfold xattr_map. destruct (xattr o); cbn; [rewrite Ex |]; eauto.
Qed.

Lemma abort_ok id : exists o', call (cls_2pc_queue_abort iterate osd_max_object_size id) o = Ok (inl tt, o') /\ reserved o' f es (delete id out).
Proof.
  unfold call, cls_2pc_queue_abort, mbind, cls_bind. rewrite (queue_read _ _ _ _ _ (ri_queue _ _ _ _ _ _ _ Hri)), read_urgent_ok.
  destruct (out !! id) as [g |] eqn:Hg.
  - pose proof (ri_free _ _ _ _ _ _ _ Hri) as Hf. rewrite (total_delete weight out id g Hg) in Hf. unfold weight in Hf at 1.
    destruct (ri_wf _ _ _ _ _ _ _ Hri id g Hg) as (_ & Hgs & Hge & _).
    destruct (drop_ok id g h o es Hg ri_ring) as (m & o2 & o' & Hm & Ew & Hres'); [done | lia | done |].
    exists o'. split; [| done]. destruct (out_lookup id g Hg) as [[E1 E2] | (E1 & E2 & Exm & Eh2)]; rewrite E1 in Hm |- *.
    + rewrite decide_True in Hm by eauto. destruct Hm as [-> ->]. by rewrite Ew.
    + rewrite decide_False in Hm by (by intros [? [=]]). destruct Hm as [-> ->]. rewrite Eh2. cbn [negb]. rewrite read_xattr_ok, Exm by done.
      cbn [mbind option_bind]. rewrite E2. cbn [mbind option_bind]. unfold cls_cxx_setxattr. by rewrite Ew.
  - exists o. rewrite (delete_id out) by done. split; [| by exists h, u, xm]. apply out_lookup_None in Hg as [-> Ex].
    destruct (has_xattrs u); cbn [negb]; [| done]. rewrite read_xattr_ok by done.
    unfold xattr_map. destruct (xattr o); cbn; [by rewrite Ex | done].
Qed.

Lemma remove_ok k : exists o', call (cls_2pc_queue_remove_entries osd_max_object_size (to_str (mark h (at_entry f es k)))) o = Ok (inl tt, o') /\
  reserved o' (at_entry f es k) (drop k es) out.
Proof.
  destruct (cls_remove_ok osd_max_object_size k h o f es) as (o' & E & Hx & Hq); [apply Hri |]. exists o'. split; [done |].
  exists (set_front (mark h (at_entry f es k)) h), u, xm. destruct Hri. split; try done; [by rewrite Hx |].
  rewrite (stream_from f es k) in *. unfold at_entry in *. pose proof (zlen_nonneg (stream (take k es))). lia.
Qed.

(** Reservations older than [t] are dropped. *)
Definition kept (t : Z) (out : gmap Z grant) : gmap Z grant := filter (fun p => ~ g_time p.2 < t) out.

Lemma filter_recorded (P : Z -> Prop) `{!forall x, Decision (P x)} (m : gmap Z grant) :
  filter (fun p => P (r_timestamp p.2)) (recorded <$> m) = recorded <$> filter (fun p => P (g_time p.2)) m.
Proof. by rewrite (map_filter_fmap _ recorded). Qed.

Lemma kept_recorded t : recorded <$> kept t out = fresh t (reservations u) ∪ fresh t xm.
Proof.
  unfold fresh. rewrite <- map_filter_union by apply Hri. rewrite <- (ri_out _ _ _ _ _ _ _ Hri).
  symmetry. pose proof (filter_recorded (fun x => ~ x < t) out) as E. exact E.
Qed.

Lemma stale_total t : total_size (stale t (reservations u)) + total_size (stale t xm) + total weight (kept t out) <= total weight out.
Proof.
  rewrite (total_split weight (fun p => g_time p.2 < t) out). change (filter (fun p => ~ g_time p.2 < t) out) with (kept t out).
  change total_size with (total r_size). unfold stale. rewrite <- total_union by (apply map_disjoint_filter, Hri).
  rewrite <- map_filter_union by apply Hri. rewrite <- (ri_out _ _ _ _ _ _ _ Hri).
  pose proof (filter_recorded (fun x => x < t) out) as E. etransitivity; [apply Z.add_le_mono_r, Z.eq_le_incl; etransitivity; [apply (f_equal (total r_size) E) | apply total_fmap] |].
  apply Z.add_le_mono_r, totals_mono. intros k g [Hg _]%map_lookup_filter_Some. destruct (ri_wf _ _ _ _ _ _ _ Hri k g Hg) as (_ & ? & ? & _).
  unfold weight. cbn. lia.
Qed.

Lemma kept_fresh t m : stale t m = ∅ -> fresh t m = m.
Proof. intros E. rewrite <- (map_filter_union_complement (fun p => r_timestamp p.2 < t) m) at 2. fold (stale t m) (fresh t m). by rewrite E, (left_id_L ∅ (∪)). Qed.

Lemma expire_ok t : exists o', call (cls_2pc_queue_expire_reservations iterate osd_max_object_size t) o = Ok (inl tt, o') /\ reserved o' f es (kept t out).
Proof.
  unfold call, cls_2pc_queue_expire_reservations, mbind, cls_bind. rewrite (queue_read _ _ _ _ _ (ri_queue _ _ _ _ _ _ _ Hri)), read_urgent_ok.
  assert (exists x, (if has_xattrs u then read_xattr else mret None) o = Ok (inl x, o) /\ default ∅ x = xm) as (x & -> & ->).
  { destruct (has_xattrs u) eqn:Eh; [exists xattr_map; by rewrite read_xattr_ok, xattr_map_default by done |]. exists None. split; [done |].
    destruct (ri_xattr _ _ _ _ _ _ _ Hri) as [[_ ->] | [_ ?]]; [done | congruence]. }
  pose proof (stale_total t) as Hst. pose proof (ri_reserved _ _ _ _ _ _ _ Hri). pose proof (ri_free _ _ _ _ _ _ _ Hri). destruct ri_cap as [_ Hcap].
  destruct (ri_range _ _ _ _ _ _ _ Hri) as [Hres _].
  assert (map_Forall grant_wf (kept t out)) as Hwf by (intros k g [Hg _]%map_lookup_filter_Some; by apply (ri_wf _ _ _ _ _ _ _ Hri)).
  pose proof (weights_nonneg _ Hwf).
  assert (forall m, m ⊆ reservations u ∪ xm -> 0 <= total_size (stale t m)) as Hnn.
  { intros m Hm. change (0 <= total r_size (stale t m)). transitivity (Z.of_nat (size (stale t m))); [lia |]. apply totals_bounds.
    intros k r [Hr _]%map_lookup_filter_Some. apply (lookup_weaken _ _ _ _ Hr) in Hm. rewrite <- (ri_out _ _ _ _ _ _ _ Hri), lookup_fmap in Hm.
    apply fmap_Some in Hm as (g & Hg & ->). destruct (ri_wf _ _ _ _ _ _ _ Hri k g Hg) as (_ & ? & _). cbn. lia. }
  pose proof (Hnn (reservations u) ltac:(apply map_union_subseteq_l)). pose proof (Hnn xm ltac:(apply map_union_subseteq_r, Hri)).
  set (o1 := if bool_decide (stale t xm = ∅) then o else Obj (data o) (Some (encode_reservations (fresh t xm)))).
  assert ((if bool_decide (stale t xm = ∅) then mret tt else cls_cxx_setxattr (encode_reservations (fresh t xm))) o = Ok (inl tt, o1)) as ->
    by (unfold o1; by case_bool_decide).
  destruct (bool_decide (stale t (reservations u) = ∅) && bool_decide (stale t xm = ∅)) eqn:Enone.
  - apply andb_true_iff in Enone as [E1%bool_decide_eq_true E2]. unfold o1. rewrite E2. apply bool_decide_eq_true in E2. exists o. split; [done |].
    exists h, u, xm. pose proof (kept_recorded t) as Ek. rewrite !kept_fresh in Ek by done. destruct Hri. split; try done; lia.
  - assert (u64 (total_size (stale t (reservations u)) + total_size (stale t xm)) = total_size (stale t (reservations u)) + total_size (stale t xm)) as ->
      by (apply u64_id; lia).
    set (s := total_size (stale t (reservations u)) + total_size (stale t xm)) in *. rewrite (u64_id (_ - s)) by lia.
    destruct (settle_ok h o1 es (kept t out) (fresh t (reservations u)) (fresh t xm) (reserved_size u - s)) as (o' & -> & Hr'); try done.
    + unfold o1. destruct (bool_decide (stale t xm = ∅)); apply ri_ring.
    + unfold o1. destruct (bool_decide_reflect (stale t xm = ∅)) as [Ex | Ex]; [rewrite kept_fresh by done; apply Hri |]. right. split; [done |].
      destruct (ri_xattr _ _ _ _ _ _ _ Hri) as [[_ E0] | [_ ?]]; [| done]. by rewrite E0 in Ex.
    + apply map_disjoint_filter, Hri.
    + apply map_subseteq_size, map_filter_subseteq.
    + apply kept_recorded.
    + lia.
    + lia.
    + eauto.
Qed.

Lemma list_reservations_ok : call cls_2pc_queue_list_reservations o = Ok (inl (recorded <$> out), o).
Proof.
  unfold call, cls_2pc_queue_list_reservations, mbind, cls_bind. rewrite (queue_read _ _ _ _ _ (ri_queue _ _ _ _ _ _ _ Hri)), read_urgent_ok, (ri_out _ _ _ _ _ _ _ Hri).
  destruct (has_xattrs u) eqn:Eh; cbn [negb]; [by rewrite read_xattr_ok, xattr_map_default by done |].
  destruct (ri_xattr _ _ _ _ _ _ _ Hri) as [[_ ->] | [_ ?]]; [by rewrite (right_id_L ∅ (∪)) | congruence].
Qed.

Lemma list_ok max : 0 < max < 2 ^ 64 -> call (cls_2pc_queue_list_entries max []) o = Ok (inl (answer h f es 0 max), o).
Proof.
  intros Hmax. unfold call, cls_2pc_queue_list_entries, mbind, cls_bind. rewrite (queue_read _ _ _ _ _ (ri_queue _ _ _ _ _ _ _ Hri)).
  rewrite (list_entries_ok osd_max_object_size h o f es 0 [] max ri_ring); [done | by left | done].
Qed.
End State.

Lemma listed_data h p es : e_data <$> listed h p es = es.
Proof. revert p. induction es as [| e es IH]; intros p; cbn; [done |]. by rewrite IH. Qed.

(** ** Clients of the queue *)

Context (Hcapacity : 0 < capacity) (H31 : capacity + 24576 < 2 ^ 31) (Hmax : capacity + 24576 <= osd_max_object_size).

Definition reserve_args (res_size res_entries now now' : Z) : Prop :=
  0 <= res_size < 2 ^ 63 /\ 0 <= res_entries /\ res_entries * 10 < 2 ^ 32 /\ 0 <= now < 2 ^ 32 * 10 ^ 9 /\ 0 <= now' < 2 ^ 32 * 10 ^ 9.

(** Successful calls on a queue; a call that fails has no effect.  The queue has
    the entries [es], and the clients hold the reservations [out]. *)
Inductive runs : object -> list (list Z) -> gmap Z grant -> Prop :=
  | runs_init o : call (cls_2pc_queue_init iterate osd_max_object_size capacity) (Obj [] None) = Ok (inl tt, o) -> runs o [] ∅
  | runs_reserve o es out s n now now' id o' m t : runs o es out -> reserve_args s n now now' -> zlen (stream es) < capacity ->
      call (cls_2pc_queue_reserve iterate osd_max_object_size s n now now') o = Ok (inl id, o') -> out !! id = None ->
      call cls_2pc_queue_list_reservations o' = Ok (inl m, o') -> m !! id = Some (Reservation s t) ->
      runs o' es (<[id := Grant s n t]> out)
  | runs_commit o es out id g ds o' : runs o es out -> out !! id = Some g -> ds <> [] -> zlen ds <= g_entries g -> zlen (concat ds) <= g_size g ->
      call (cls_2pc_queue_commit iterate osd_max_object_size id ds) o = Ok (inl tt, o') -> runs o' (es ++ ds) (delete id out)
  | runs_abort o es out id o' : runs o es out -> call (cls_2pc_queue_abort iterate osd_max_object_size id) o = Ok (inl tt, o') -> runs o' es (delete id out)
  | runs_expire o es out t o' : runs o es out -> call (cls_2pc_queue_expire_reservations iterate osd_max_object_size t) o = Ok (inl tt, o') ->
      runs o' es (kept t out)
  | runs_remove o es out max l o' : runs o es out -> 0 < max < 2 ^ 64 -> call (cls_2pc_queue_list_entries max []) o = Ok (inl l, o) ->
      call (cls_2pc_queue_remove_entries osd_max_object_size (next_marker l)) o = Ok (inl tt, o') ->
      runs o' (drop (length (ret_entries l)) es) out.

Lemma init_reserved o : call (cls_2pc_queue_init iterate osd_max_object_size capacity) (Obj [] None) = Ok (inl tt, o) -> reserved o 0 [] ∅.
Proof.
  intros Ei. set (u := Urgent 0 0 ∅ false). assert (zlen (encode_urgent u) = 23) as El by (by rewrite zlen_encode_urgent).
  destruct (init_ok osd_max_object_size capacity 23552 (encode_urgent u) None) as (o' & Eo & Hq & Hx); [lia.. |].
  unfold cls_2pc_queue_init in Ei. fold u in Ei. rewrite Eo in Ei. injection Ei as ->.
  exists (new_head capacity 23552 (encode_urgent u)), u, ∅. split; try done; [by rewrite El | cbn; lia | by left | change (zlen (stream [])) with 0; change (total weight ∅) with 0; lia].
Qed.

Lemma runs_reserved o es out : runs o es out -> exists f, reserved o f es out.
Proof.
  induction 1 as [o E | o es out s n now now' id o' m t _ [f (h & u & xm & Hri)] (Hs & Hn & Hn' & Hnow & Hnow') Hfree E Hid Em Hm
    | o es out id g ds o' _ [f (h & u & xm & Hri)] Hg Hds Hn Hlen E | o es out id o' _ [f (h & u & xm & Hri)] E
    | o es out t o' _ [f (h & u & xm & Hri)] E | o es out max l o' _ [f (h & u & xm & Hri)] Hl El E].
  - exists 0. by apply init_reserved.
  - exists f. destruct (reserve_ok _ _ _ _ _ _ _ Hri s n now now') as (r & o1 & E1 & Hr); [done.. |]. rewrite E in E1. injection E1 as <- <-.
    destruct Hr as [(e & [=] & _) | (id' & t' & [= <-] & Hr)]. specialize (Hr Hid). destruct Hr as (h' & u' & xm' & Hri').
    rewrite (list_reservations_ok _ _ _ _ _ _ _ Hri') in Em. injection Em as <-. rewrite fmap_insert, lookup_insert_eq in Hm. injection Hm as <-. by exists h', u', xm'.
  - exists f. destruct (commit_ok _ _ _ _ _ _ _ Hri id g ds) as (o1 & E1 & Hr); [done.. |]. rewrite E in E1. by injection E1 as <-.
  - exists f. destruct (abort_ok _ _ _ _ _ _ _ Hri id) as (o1 & E1 & Hr). rewrite E in E1. by injection E1 as <-.
  - exists f. destruct (expire_ok _ _ _ _ _ _ _ Hri t) as (o1 & E1 & Hr). rewrite E in E1. by injection E1 as <-.
  - rewrite (list_ok _ _ _ _ _ _ _ Hri) in El by done. injection El as <-. unfold answer in *. cbn [next_marker ret_entries] in *. rewrite Nat.add_0_l in E.
    destruct (remove_ok _ _ _ _ _ _ _ Hri (Nat.min (Z.to_nat max) (length es - 0))) as (o1 & E1 & Hr). rewrite E in E1. injection E1 as <-.
    eexists. rewrite <- (length_fmap e_data), listed_data, length_take, drop_0. replace (Nat.min _ (length es)) with (Nat.min (Z.to_nat max) (length es - 0)) by lia. exact Hr.
Qed.

(** C15. a reservation is honoured.  After the calls of [runs] since the queue was
    made, every reservation that is still held can be committed, with at most the
    bytes and the entries that were reserved: the call succeeds, the data is at the
    end of the queue, and the reservation is the only one that is gone.  In [runs]
    clients reserve, commit, abort, expire and remove what they have listed, in any
    order, but nobody reserves while the queue is completely full (see the end of
    this file), nobody commits more bytes or entries than were
    reserved, the 32-bit counter of the reservations gives out no number that is
    still held, a reservation is for less than 2^63 bytes and 2^32 / 10 entries,
    and the object of the queue is below 2 GiB. *)
Theorem reservation_honoured o es out id g ds max : runs o es out -> out !! id = Some g ->
  ds <> [] -> zlen ds <= g_entries g -> zlen (concat ds) <= g_size g -> zlen (es ++ ds) <= max < 2 ^ 64 ->
  exists o' l, call (cls_2pc_queue_commit iterate osd_max_object_size id ds) o = Ok (inl tt, o') /\
    call (cls_2pc_queue_list_entries max []) o' = Ok (inl l, o') /\ e_data <$> ret_entries l = es ++ ds /\ is_truncated l = false /\
    call cls_2pc_queue_list_reservations o' = Ok (inl (recorded <$> delete id out), o').
Proof.
  intros [f (h & u & xm & Hri)]%runs_reserved Hg Hds Hn Hlen Hmx. destruct (commit_ok _ _ _ _ _ _ _ Hri id g ds) as (o' & E & h' & u' & xm' & Hri'); [done.. |].
  assert (0 < zlen (es ++ ds)) by (rewrite zlen_app; destruct ds; [done |]; unfold zlen; cbn [length]; lia).
  eexists o', _. split; [done |]. split; [apply (list_ok _ _ _ _ _ _ _ Hri'); lia |]. split_and!; [| | apply (list_reservations_ok _ _ _ _ _ _ _ Hri')].
  - unfold answer. cbn [ret_entries]. rewrite listed_data, drop_0. apply take_ge. unfold zlen in *. lia.
  - unfold answer. cbn [is_truncated]. apply bool_decide_eq_false. unfold zlen in *. lia.
Qed.
End Queue.
End Class.

Definition after {A} (r : res ((A + Z) * object)) : object := match r with Ok (_, o) => o | _ => Obj [] None end.

Definition ex_new : object := after (call (cls_2pc_queue_init map_to_list ex_max 50) (Obj [] None)).
Definition ex_reserve (s : Z) (o : object) : object := after (call (cls_2pc_queue_reserve map_to_list ex_max s 1 1000 2000) o).
Definition ex_commit (id : Z) (ds : list (list Z)) (o : object) : object := after (call (cls_2pc_queue_commit map_to_list ex_max id ds) o).

Definition ex_abort (id : Z) (o : object) : object := after (call (cls_2pc_queue_abort map_to_list ex_max id) o).

Definition ex_held : object := ex_abort 1 (ex_reserve 10 (ex_reserve 5 ex_new)).

Lemma reservation_honoured_witness : exists o' l, call (cls_2pc_queue_commit map_to_list ex_max 2 [[4; 5; 6; 7]]) ex_held = Ok (inl tt, o') /\
  call (cls_2pc_queue_list_entries 100 []) o' = Ok (inl l, o') /\ e_data <$> ret_entries l = [[4; 5; 6; 7]] /\ is_truncated l = false /\
  call cls_2pc_queue_list_reservations o' = Ok (inl ∅, o').
Proof.
  assert (runs map_to_list ex_max 50 ex_new [] ∅) as H0 by (constructor; by vm_compute).
  assert (reserve_args 5 1 1000 2000 /\ reserve_args 10 1 1000 2000) as [Ha1 Ha2] by (unfold reserve_args; lia).
  assert (runs map_to_list ex_max 50 (ex_reserve 5 ex_new) [] {[1 := Grant 5 1 1000]}) as H1.
  { eapply (runs_reserve _ _ _ _ _ _ _ _ _ _ 1 _ {[1 := Reservation 5 1000]} 1000 H0 Ha1); by vm_compute. }
  assert (runs map_to_list ex_max 50 (ex_reserve 10 (ex_reserve 5 ex_new)) [] {[2 := Grant 10 1 1000; 1 := Grant 5 1 1000]}) as H2.
  { eapply (runs_reserve _ _ _ _ _ _ _ _ _ _ 2 _ {[2 := Reservation 10 1000; 1 := Reservation 5 1000]} 1000 H1 Ha2); by vm_compute. }
  assert (runs map_to_list ex_max 50 ex_held [] {[2 := Grant 10 1 1000]}) as H3.
  { apply (runs_abort _ _ _ _ _ _ 1 _ H2); by vm_compute. }
  apply (reservation_honoured map_to_list (fun m => reflexivity _) ex_max 50 ltac:(lia) ltac:(lia) ltac:(vm_compute; congruence)
    ex_held [] {[2 := Grant 10 1 1000]} 2 (Grant 10 1 1000) [[4; 5; 6; 7]] 100 H3); by vm_compute.
Defined.

(** ** The space that is reserved *)

(** A reservation of five bytes for one entry, which is given up. *)
Definition ex_give_up (id : Z) (o : object) : object := ex_abort id (ex_reserve 5 o).

Definition ex_leaked : object := ex_give_up 4 (ex_give_up 3 (ex_give_up 2 (ex_give_up 1 ex_new))).

(** C39. the space counted as reserved leaks.  Making a reservation counts the
    overhead of its entries; ending it, here by an abort, does not give the
    overhead back.  A queue of 50 bytes in which four reservations were made and
    aborted is empty and has no reservations, but refuses to reserve a single
    byte for lack of space, which a new queue does not. *)
Theorem reservations_leak :
  call cls_2pc_queue_list_reservations ex_leaked = Ok (inl ∅, ex_leaked) /\
  call (cls_2pc_queue_list_entries 100 []) ex_leaked = Ok (inl (ListRet false (to_str (Marker 24576 0)) []), ex_leaked) /\
  call (cls_2pc_queue_reserve map_to_list ex_max 1 1 1000 2000) ex_leaked = Ok (inr (- ENOSPC), ex_leaked) /\
  call (cls_2pc_queue_reserve map_to_list ex_max 1 1 1000 2000) ex_new = Ok (inl 1, ex_reserve 1 ex_new).
Proof. vm_compute. done. Qed.

Definition ex_full : object := ex_commit 1 [replicate 40 7] (ex_reserve 40 ex_new).

Definition result {A} (r : res ((A + Z) * object)) : option (A + Z) := match r with Ok (a, _) => Some a | _ => None end.

(** C0: a full queue makes reservations.  When the queue is completely full the
    tail has the offset of the front and the whole capacity is taken to be free:
    the reservation is made, and committing it fails for lack of space. *)
Theorem full_queue_reserves :
  result (call (cls_2pc_queue_reserve map_to_list ex_max 20 1 1000 2000) ex_full) = Some (inl 2) /\
  result (call (cls_2pc_queue_commit map_to_list ex_max 2 [replicate 20 8]) (ex_reserve 20 ex_full)) = Some (inr (- ENOSPC)).
Proof. vm_compute. done. Qed.
