(* ===== verification/Allocator.v ===== *)
(** * The AVL and hybrid allocators

    The allocators of free space of a device, [src/src/os/bluestore/AvlAllocator.h],
    [AvlAllocator.cc], [HybridAllocator.h] and [HybridAllocator.cc].  The free ranges
    are kept in two trees, by offset and by size.  The hybrid allocator limits the
    number of ranges and hands the smallest over to a bitmap allocator, which is a
    class here. *)

From stdpp Require Import base list.
From S2P Require Import Prelude IntervalSet.

Local Open Scope Z_scope.

(** ** Integers ([include/intarith.h]) *)

Definition p2align (x align : Z) : Z := Z.land x (u64 (- align)).
Definition p2roundup (x align : Z) : Z := u64 (- Z.land (u64 (- x)) (u64 (- align))).
Definition has_single_bit (x : Z) : bool := negb (x =? 0) && (Z.land x (x - 1) =? 0).
Definition cbits64 (v : Z) : Z := if v =? 0 then 0 else Z.log2 v + 1.

Definition ENOSPC : Z := 28.

(** An assertion. *)
Definition ensure (b : bool) : res unit := if b then Ok tt else Fault.

(** ** Ranges and their trees *)

Record range_seg_t := Seg { r_start : Z; r_end : Z }.

#[export] Instance range_seg_eq : EqDecision range_seg_t.
Proof. solve_decision. Defined.

Definition r_length (r : range_seg_t) : Z := u64 (r_end r - r_start r).

Definition before (l r : range_seg_t) : bool := r_end l <=? r_start r.

Definition shorter (l r : range_seg_t) : bool :=
  if r_length l <? r_length r then true
  else if r_length r <? r_length l then false
  else r_start l <? r_start r.

(** A tree is the list of its elements in order, an iterator is the element it
    is at, [None] at the end.  What precedes a bound, and the rest. *)
Fixpoint span (p : range_seg_t -> bool) (t : list range_seg_t) : list range_seg_t * list range_seg_t :=
  match t with
  | [] => ([], [])
  | r :: t' => if p r then let '(l, m) := span p t' in (r :: l, m) else ([], t)
  end.

Definition lower_bound (key : range_seg_t) (t : list range_seg_t) : list range_seg_t * list range_seg_t := span (fun r => before r key) t.
Definition upper_bound (key : range_seg_t) (t : list range_seg_t) : list range_seg_t * list range_seg_t := span (fun r => negb (before key r)) t.

Definition tree_find (key : range_seg_t) (t : list range_seg_t) : option range_seg_t :=
  match (lower_bound key t).2 with r :: _ => if before key r then None else Some r | [] => None end.

(** Elements are named by their value, an element that is not in the tree is a
    dangling iterator. *)
Fixpoint tree_erase (r : range_seg_t) (t : list range_seg_t) : res (list range_seg_t) :=
  match t with
  | [] => Fault
  | x :: t => if decide (x = r) then Ok t else (t ← tree_erase r t; Ok (x :: t))
  end.

Fixpoint tree_set (r r' : range_seg_t) (t : list range_seg_t) : res (list range_seg_t) :=
  match t with
  | [] => Fault
  | x :: t => if decide (x = r) then Ok (r' :: t) else (t ← tree_set r r' t; Ok (x :: t))
  end.

Fixpoint insert_before (pos : option range_seg_t) (r : range_seg_t) (t : list range_seg_t) : res (list range_seg_t) :=
  match t with
  | [] => match pos with None => Ok [r] | Some _ => Fault end
  | x :: t' => if decide (pos = Some x) then Ok (r :: t) else (t' ← insert_before pos r t'; Ok (x :: t'))
  end.

Fixpoint tree_next (r : range_seg_t) (t : list range_seg_t) : res (option range_seg_t) :=
  match t with
  | [] => Fault
  | x :: t => if decide (x = r) then Ok (head t) else tree_next r t
  end.

Fixpoint size_insert (r : range_seg_t) (t : list range_seg_t) : list range_seg_t :=
  match t with
  | [] => [r]
  | x :: t' => if shorter r x then r :: t else x :: size_insert r t'
  end.

(** ** State *)

Record avl := Avl {
  range_tree : list range_seg_t;
  range_size_tree : list range_seg_t;
  num_free : Z;
  lbas : list Z
}.

Definition set_range_tree (t : list range_seg_t) (a : avl) : avl := Avl t (range_size_tree a) (num_free a) (lbas a).

(** [range_count_cap] is 0 in an AVL allocator. *)
Record avl_conf := Conf {
  device_size : Z;
  block_size : Z;
  range_size_alloc_threshold : Z;
  range_size_alloc_free_pct : Z;
  max_search_count : Z;
  max_search_bytes : Z;
  range_count_cap : Z
}.

Definition MAX_LBAS : nat := 64.
Definition avl_new : avl := Avl [] [] 0 (replicate MAX_LBAS 0).

(** An extent: offset and length. *)
Abbreviation extent := (Z * Z)%type.

Section Avl.
(** [B] is the state that a derived class adds, [_spillover_range] is virtual. *)
Context (c : avl_conf) {B : Type} (_spillover_range : Z -> Z -> B -> res B).

Definition _range_size_tree_rm (r : range_seg_t) (a : avl) : res avl :=
  ensure (r_length r <=? num_free a);;
  t ← tree_erase r (range_size_tree a);
  Ok (Avl (range_tree a) t (u64 (num_free a - r_length r)) (lbas a)).

Definition _lowest_size_available (a : avl) : Z := match range_size_tree a with r :: _ => r_length r | [] => 0 end.

Definition size_tree_add (r : range_seg_t) (a : avl) : avl :=
  Avl (range_tree a) (size_insert r (range_size_tree a)) (u64 (num_free a + r_length r)) (lbas a).

(** The smallest range is handed over. *)
Definition remove_lowest (a : avl) (b : B) : res (avl * B) :=
  match range_size_tree a with
  | [] => Fault
  | r :: _ =>
      a ← _range_size_tree_rm r a;
      b ← _spillover_range (r_start r) (r_end r) b;
      t ← tree_erase r (range_tree a);
      Ok (set_range_tree t a, b)
  end.

Definition _try_insert_range (start end_ : Z) (insert_pos : option (option range_seg_t)) (s : avl * B) : res (bool * (avl * B)) :=
  let '(a, b) := s in
  let r := (range_count_cap c =? 0) || (zlen (range_size_tree a) <? range_count_cap c) in
  let lowest := negb r && (_lowest_size_available a <? u64 (end_ - start)) in
  if negb r && negb lowest then
    b ← _spillover_range start end_ b;
    Ok (false, (a, b))
  else
    a ← match insert_pos with
        | Some pos => t ← insert_before pos (Seg start end_) (range_tree a); Ok (size_tree_add (Seg start end_) (set_range_tree t a))
        | None => Ok a
        end;
    s ← (if lowest then remove_lowest a b else Ok (a, b));
    Ok (true, s).

Definition _range_size_tree_try_insert (r : range_seg_t) (s : avl * B) : res (avl * B) :=
  '(ok, (a, b)) ← _try_insert_range (r_start r) (r_end r) None s;
  if ok : bool then Ok (size_tree_add r a, b)
  else (t ← tree_erase r (range_tree a); Ok (set_range_tree t a, b)).

Definition _add_to_tree (start size : Z) (s : avl * B) : res (avl * B) :=
  let '(a, b) := s in
  ensure (negb (size =? 0));;
  let end_ := u64 (start + size) in
  let '(l, m) := upper_bound (Seg start end_) (range_tree a) in
  let rs_before := last l in
  let rs_after := head m in
  let merge_before := match rs_before with Some r => r_end r =? start | None => false end in
  let merge_after := match rs_after with Some r => r_start r =? end_ | None => false end in
  match rs_before, rs_after, merge_before, merge_after with
  | Some rb, Some ra, true, true =>
      a ← _range_size_tree_rm rb a;
      a ← _range_size_tree_rm ra a;
      let r := Seg (r_start rb) (r_end ra) in
      t ← tree_set ra r (range_tree a);
      t ← tree_erase rb t;
      _range_size_tree_try_insert r (set_range_tree t a, b)
  | Some rb, _, true, _ =>
      a ← _range_size_tree_rm rb a;
      t ← tree_set rb (Seg (r_start rb) end_) (range_tree a);
      _range_size_tree_try_insert (Seg (r_start rb) end_) (set_range_tree t a, b)
  | _, Some ra, _, true =>
      a ← _range_size_tree_rm ra a;
      t ← tree_set ra (Seg start (r_end ra)) (range_tree a);
      _range_size_tree_try_insert (Seg start (r_end ra)) (set_range_tree t a, b)
  | _, _, _, _ =>
      '(_, s) ← _try_insert_range start end_ (Some rs_after) (a, b);
      Ok s
  end.

Definition _process_range_removal (start end_ : Z) (rs : range_seg_t) (s : avl * B) : res (avl * B) :=
  let '(a, b) := s in
  let left_over := negb (r_start rs =? start) in
  let right_over := negb (r_end rs =? end_) in
  a ← _range_size_tree_rm rs a;
  if left_over && right_over then
    insert_pos ← tree_next rs (range_tree a);
    t ← tree_set rs (Seg (r_start rs) start) (range_tree a);
    '(_, s) ← _try_insert_range end_ (r_end rs) (Some insert_pos) (set_range_tree t a, b);
    _range_size_tree_try_insert (Seg (r_start rs) start) s
  else if left_over then
    t ← tree_set rs (Seg (r_start rs) start) (range_tree a);
    _range_size_tree_try_insert (Seg (r_start rs) start) (set_range_tree t a, b)
  else if right_over then
    t ← tree_set rs (Seg end_ (r_end rs)) (range_tree a);
    _range_size_tree_try_insert (Seg end_ (r_end rs)) (set_range_tree t a, b)
  else
    t ← tree_erase rs (range_tree a);
    Ok (set_range_tree t a, b).

Definition _remove_from_tree (start size : Z) (s : avl * B) : res (avl * B) :=
  let '(a, b) := s in
  let end_ := u64 (start + size) in
  ensure (negb (size =? 0));;
  ensure (size <=? num_free a);;
  match tree_find (Seg start end_) (range_tree a) with
  | None => Fault
  | Some rs =>
      ensure (r_start rs <=? start);;
      ensure (end_ <=? r_end rs);;
      _process_range_removal start end_ rs s
  end.

(** ** Choosing a range *)

(** What a search of ranges ends with: an offset, giving up, or the end, with the
    number of ranges and of bytes searched. *)
Inductive pick := Found (offset : Z) | GaveUp | Exhausted (search_count search_bytes : Z).

(** The searches from the cursor to the end ([bytes] is the start of the first
    range) and from the beginning to the cursor. *)
Fixpoint search_after (first size align cursor search_count search_bytes : Z) (l : list range_seg_t) : pick * Z :=
  match l with
  | [] => (Exhausted search_count search_bytes, cursor)
  | rs :: l =>
      let offset := p2roundup (r_start rs) align in
      let cursor := u64 (offset + size) in
      if u64 (offset + size) <=? r_end rs then (Found offset, cursor)
      else
        let search_count := if 0 <? max_search_count c then u32 (search_count + 1) else search_count in
        if (0 <? max_search_count c) && (max_search_count c <? search_count) then (GaveUp, cursor)
        else
          let search_bytes := u64 (r_start rs - first) in
          if (0 <? max_search_bytes c) && (max_search_bytes c <? search_bytes) then (GaveUp, cursor)
          else search_after first size align cursor search_count search_bytes l
  end.

Fixpoint search_before (size align cursor search_count search_bytes : Z) (l : list range_seg_t) : pick * Z :=
  match l with
  | [] => (Exhausted search_count search_bytes, cursor)
  | rs :: l =>
      let offset := p2roundup (r_start rs) align in
      let cursor := u64 (offset + size) in
      if u64 (offset + size) <=? r_end rs then (Found offset, cursor)
      else
        let search_count := if 0 <? max_search_count c then u32 (search_count + 1) else search_count in
        if (0 <? max_search_count c) && (max_search_count c <? search_count) then (GaveUp, cursor)
        else if (0 <? max_search_bytes c) && (max_search_bytes c <? u64 (search_bytes + r_start rs)) then (GaveUp, cursor)
        else search_before size align cursor search_count search_bytes l
  end.

(** The offset, if any, and the new cursor. *)
Definition _pick_block_after (cursor size align : Z) (a : avl) : option Z * Z :=
  let '(l, m) := lower_bound (Seg cursor size) (range_tree a) in
  let first := match m with r :: _ => r_start r | [] => 0 end in
  match search_after first size align cursor 0 0 m with
  | (Found offset, cursor) => (Some offset, cursor)
  | (GaveUp, cursor) => (None, cursor)
  | (Exhausted search_count search_bytes, cursor) =>
      if cursor =? 0 then (None, cursor)
      else
        match search_before size align cursor search_count search_bytes l with
        | (Found offset, cursor) => (Some offset, cursor)
        | (_, cursor) => (None, cursor)
        end
  end.

Fixpoint first_fit (size align : Z) (l : list range_seg_t) : option Z :=
  match l with
  | [] => None
  | rs :: l =>
      let offset := p2roundup (r_start rs) align in
      if u64 (offset + size) <=? r_end rs then Some offset else first_fit size align l
  end.

Definition _pick_block_fits (size align : Z) (a : avl) : option Z :=
  first_fit size align (span (fun r => shorter r (Seg 0 size)) (range_size_tree a)).2.

(** The loop over smaller and smaller sizes: the offset and the size. *)
Fixpoint fit_smaller (fuel : nat) (size unit : Z) (a : avl) : res (option (Z * Z)) :=
  match fuel with
  | O => NoFuel
  | S fuel =>
      match _pick_block_fits size unit a with
      | Some start => Ok (Some (start, size))
      | None =>
          let size := p2align (Z.shiftr size 1) unit in
          if unit <=? size then fit_smaller fuel size unit a else Ok None
      end
  end.

(** ** Allocating *)

Definition largest (a : avl) : Z := match last (range_size_tree a) with Some r => r_length r | None => 0 end.

(** First fit from the cursor of the size's alignment. *)
Definition cursor_pick (size unit : Z) (a : avl) : res (option Z * avl) :=
  let align := Z.land size (u64 (- size)) in
  ensure (negb (align =? 0));;
  cursor ← rd (lbas a) (cbits64 align - 1);
  let '(start, cursor) := _pick_block_after cursor size unit a in
  lbas' ← wr (lbas a) (cbits64 align - 1) cursor;
  Ok (start, Avl (range_tree a) (range_size_tree a) (num_free a) lbas').

(** One extent; [None] is -ENOSPC. *)
Definition _allocate_extent (size unit : Z) (s : avl * B) : res (option extent * (avl * B)) :=
  let '(a, b) := s in
  let max_size := largest a in
  if (max_size <? size) && (max_size <? unit) then Ok (None, s)
  else
    let force_range_size_alloc := max_size <? size in
    let size := if force_range_size_alloc then p2align max_size unit else size in
    ensure (negb force_range_size_alloc || (0 <? size));;
    let free_pct := s32 (u64 (num_free a * 100) / u64 (device_size c)) in
    '(start, a) ← (if force_range_size_alloc || (max_size <? range_size_alloc_threshold c) || (free_pct <? range_size_alloc_free_pct c)
                  then Ok (None, a) else cursor_pick size unit a);
    found ← match start with Some start => Ok (Some (start, size)) | None => fit_smaller 65 size unit a end;
    match found with
    | None => Ok (None, (a, b))
    | Some (start, size) =>
        s ← _remove_from_tree start size (a, b);
        Ok (Some (start, size), s)
    end.

(** What is allocated and the extents, whose length has 32 bits. *)
Fixpoint allocate_loop (fuel : nat) (want unit max_alloc_size allocated : Z) (extents : list extent) (s : avl * B) : res (Z * list extent * (avl * B)) :=
  match fuel with
  | O => NoFuel
  | S fuel =>
      if want <=? allocated then Ok (allocated, extents, s)
      else
        '(r, s) ← _allocate_extent (Z.min max_alloc_size (u64 (want - allocated))) unit s;
        match r with
        | None => Ok (allocated, extents, s)
        | Some e => allocate_loop fuel want unit max_alloc_size (u64 (allocated + e.2)) (extents ++ [(e.1, u32 e.2)]) s
        end
  end.

(** The result, and the extents that are added. *)
Definition _allocate (want unit max_alloc_size : Z) (s : avl * B) : res (Z * list extent * (avl * B)) :=
  '(allocated, extents, s) ← allocate_loop (S (Z.to_nat want)) want unit max_alloc_size 0 [] s;
  Ok (if allocated =? 0 then - ENOSPC else allocated, extents, s).

(** The largest length of an extent, limited to what 32 bits hold. *)
Definition extent_limit (want max_alloc_size : Z) : Z :=
  let max_alloc_size := if max_alloc_size =? 0 then want else max_alloc_size in
  if 2 ^ 32 - 1 <=? max_alloc_size then p2align (2 ^ 32 - 1) (block_size c) else max_alloc_size.

Definition allocate (want unit max_alloc_size : Z) (s : avl * B) : res (Z * list extent * (avl * B)) :=
  ensure (has_single_bit unit);;
  ensure (want mod unit =? 0);;
  _allocate want unit (extent_limit want max_alloc_size) s.

(** ** Releasing *)

(** [add] is the virtual [_add_to_tree]. *)
Context (add : Z -> Z -> avl * B -> res (avl * B)).

Fixpoint release_extents (release_set : list extent) (s : avl * B) : res (avl * B) :=
  match release_set with
  | [] => Ok s
  | (offset, length) :: l => s ← add offset length s; release_extents l s
  end.

Fixpoint release_map (release_set : list extent) (s : avl * B) : res (avl * B) :=
  match release_set with
  | [] => Ok s
  | (offset, length) :: l =>
      ensure (u64 (offset + length) <=? u64 (device_size c));;
      s ← add offset length s;
      release_map l s
  end.

Definition release (release_set : interval_set) (s : avl * B) : res (avl * B) := release_map (is_m release_set) s.

Definition init_add_free (offset length : Z) (s : avl * B) : res (avl * B) :=
  if length =? 0 then Ok s
  else (ensure (u64 (offset + length) <=? u64 (device_size c));; add offset length s).

Definition init_rm_free (offset length : Z) (s : avl * B) : res (avl * B) :=
  if length =? 0 then Ok s
  else (ensure (u64 (offset + length) <=? u64 (device_size c));; _remove_from_tree offset length s).

(** [cb] is called with every part of the range and whether it was in the tree. *)
Context (cb : Z -> Z -> bool -> B -> res B).

Fixpoint try_remove_loop (fuel : nat) (start end_ : Z) (rs : range_seg_t) (s : avl * B) : res (Z * (avl * B)) :=
  match fuel with
  | O => NoFuel
  | S fuel =>
      let '(a, b) := s in
      next_rs ← tree_next rs (range_tree a);
      '(start, b) ← (if start <? r_start rs then (b ← cb start (u64 (r_start rs - start)) false b; Ok (r_start rs, b)) else Ok (start, b));
      let range_end := Z.min (r_end rs) end_ in
      '(a, b) ← _process_range_removal start range_end rs (a, b);
      b ← cb start (u64 (range_end - start)) true b;
      match next_rs with
      | None => Ok (range_end, (a, b))
      | Some rs =>
          ensure (bool_decide (rs ∈ range_tree a));;
          if (r_start rs <? end_) && (range_end <? end_) then try_remove_loop fuel range_end end_ rs (a, b) else Ok (range_end, (a, b))
      end
  end.

Definition _try_remove_from_tree (start size : Z) (s : avl * B) : res (avl * B) :=
  let '(a, b) := s in
  let end_ := u64 (start + size) in
  ensure (negb (size =? 0));;
  match tree_find (Seg start end_) (range_tree a) with
  | None => b ← cb start size false b; Ok (a, b)
  | Some rs =>
      if end_ <=? r_start rs then b ← cb start size false b; Ok (a, b)
      else
        '(start, (a, b)) ← try_remove_loop (S (length (range_tree a))) start end_ rs s;
        if start <? end_ then (b ← cb start (u64 (end_ - start)) false b; Ok (a, b)) else Ok (a, b)
  end.
End Avl.

(** The class as it is: nothing is spilled over. *)
Definition avl_spillover_range (start end_ : Z) (b : unit) : res unit := Fault.
Definition avl_add_to_tree (c : avl_conf) : Z -> Z -> avl * unit -> res (avl * unit) := _add_to_tree c avl_spillover_range.

(** ** The hybrid allocator *)

(** The methods of [BitmapAllocator] that it uses. *)
Class Bitmap (Bm : Type) := {
  bm_new : Z -> Z -> Bm;
  bm_get_free : Bm -> Z;
  bm_allocate : Z -> Z -> Z -> Z -> Bm -> res (Z * list extent * Bm);
  bm_release : list extent -> Bm -> res Bm;
  bm_init_add_free : Z -> Z -> Bm -> res Bm;
  bm_init_rm_free : Z -> Z -> Bm -> res Bm;
  claim_free_to_left : Z -> Bm -> res (Z * Bm);
  claim_free_to_right : Z -> Bm -> res (Z * Bm)
}.

Section Hybrid.
Context (c : avl_conf) {Bm : Type} `{!Bitmap Bm}.

Definition hybrid_spillover_range (start end_ : Z) (bmap_alloc : option Bm) : res (option Bm) :=
  let size := u64 (end_ - start) in
  ensure (negb (size =? 0));;
  bm ← bm_init_add_free start size (default (bm_new (device_size c) (block_size c)) bmap_alloc);
  Ok (Some bm).

Definition hybrid_add_to_tree (start size : Z) (s : avl * option Bm) : res (avl * option Bm) :=
  match s with
  | (a, None) => _add_to_tree c hybrid_spillover_range start size s
  | (a, Some bm) =>
      '(head, bm) ← claim_free_to_left start bm;
      '(tail, bm) ← claim_free_to_right (u64 (start + size)) bm;
      ensure (head <=? start);;
      _add_to_tree c hybrid_spillover_range (u64 (start - head)) (u64 (size + u64 (head + tail))) (a, Some bm)
  end.

Definition or_enospc (r : Z) : Z := if r =? 0 then - ENOSPC else r.

(** The bitmap first, or the AVL trees first; what the first one did not have
    comes from the other. *)
Definition bitmap_first (want unit max_alloc_size hint : Z) (a : avl) (bm : Bm) : res (Z * list extent * (avl * option Bm)) :=
  '(r, extents, bm) ← bm_allocate want unit max_alloc_size hint bm;
  '(r, extents, bm) ← (if r <? 0 then (bm ← bm_release extents bm; Ok (0, [], bm)) else Ok (r, extents, bm));
  if r <? want then
    '(r2, extents2, s) ← _allocate c hybrid_spillover_range (want - r) unit max_alloc_size (a, Some bm);
    Ok (or_enospc (if r2 <? 0 then r2 else r + r2), extents ++ extents2, s)
  else Ok (or_enospc r, extents, (a, Some bm)).

Definition avl_first (want unit max_alloc_size hint : Z) (s : avl * option Bm) : res (Z * list extent * (avl * option Bm)) :=
  '(r, extents, s) ← _allocate c hybrid_spillover_range want unit max_alloc_size s;
  '(r, extents, (a, b)) ← (if r <? 0 then (s ← release_extents hybrid_add_to_tree extents s; Ok (0, [], s)) else Ok (r, extents, s));
  if r <? want then
    match b with
    | Some bm =>
        '(r2, extents2, bm) ← bm_allocate (want - r) unit max_alloc_size hint bm;
        Ok (or_enospc (if r2 <? 0 then r2 else r + r2), extents ++ extents2, (a, Some bm))
    | None => Ok (or_enospc r, extents, (a, None))
    end
  else Ok (or_enospc r, extents, (a, b)).

(** The extents are those that the call adds to the vector of the caller.  The
    iterator that the code keeps into that vector is used after a part has failed,
    and then that part has added nothing, so that it is still valid. *)
Definition hybrid_allocate (want unit max_alloc_size hint : Z) (s : avl * option Bm) : res (Z * list extent * (avl * option Bm)) :=
  ensure (has_single_bit unit);;
  ensure (want mod unit =? 0);;
  let max_alloc_size := extent_limit c want max_alloc_size in
  match s with
  | (a, Some bm) =>
      if negb (bm_get_free bm =? 0) && (want <? _lowest_size_available a) then bitmap_first want unit max_alloc_size hint a bm
      else avl_first want unit max_alloc_size hint s
  | (a, None) => avl_first want unit max_alloc_size hint s
  end.

Definition hybrid_get_free (s : avl * option Bm) : Z := u64 (match s.2 with Some bm => bm_get_free bm | None => 0 end + num_free s.1).

Definition hybrid_release : interval_set -> avl * option Bm -> res (avl * option Bm) := release c hybrid_add_to_tree.
Definition hybrid_init_add_free : Z -> Z -> avl * option Bm -> res (avl * option Bm) := init_add_free c hybrid_add_to_tree.

Definition rm_free_part (offset length : Z) (found : bool) (bmap_alloc : option Bm) : res (option Bm) :=
  if found then Ok bmap_alloc
  else match bmap_alloc with Some bm => bm ← bm_init_rm_free offset length bm; Ok (Some bm) | None => Fault end.

Definition hybrid_init_rm_free (offset length : Z) (s : avl * option Bm) : res (avl * option Bm) :=
  if length =? 0 then Ok s else _try_remove_from_tree c hybrid_spillover_range rm_free_part offset length s.
End Hybrid.
