(* ===== verification/AllocatorThms.v ===== *)
(** * The AVL allocator: the two trees, and what is free

    Every operation keeps the trees in agreement and changes the set of free bytes
    as it should, whatever a derived class does with ranges that spill over. *)

From stdpp Require Import base list sorting.
From S2P Require Import Prelude IntervalSet IntervalSetSpec Allocator.

Local Open Scope Z_scope.

(** ** Powers of two *)

Lemma p2align_pow x k : 0 <= x < 2 ^ 64 -> 0 <= k < 64 -> p2align x (2 ^ k) = x / 2 ^ k * 2 ^ k.
Proof.
  intros Hx Hk. unfold p2align, u64. assert (0 < 2 ^ k < 2 ^ 64) as H by (split; [apply Z.pow_pos_nonneg | apply Z.pow_lt_mono_r]; lia).
  rewrite (Z.mod_opp_l_nz) by (rewrite ?Z.mod_small; lia). rewrite (Z.mod_small (2 ^ k)) by lia.
  replace (2 ^ 64 - 2 ^ k) with (Z.shiftl (Z.ones (64 - k)) k).
  2:{ rewrite Z.shiftl_mul_pow2, Z.ones_equiv, Z.mul_pred_l, <- Z.pow_add_r by lia. f_equal. f_equal. lia. }
  rewrite <- Z.shiftr_div_pow2, <- Z.shiftl_mul_pow2 by lia.
  apply Z.bits_inj'. intros i Hi. rewrite Z.land_spec, !Z.shiftl_spec by lia. destruct (Z.lt_ge_cases i k) as [Hl | Hg].
  - rewrite !(Z.testbit_neg_r _ (i - k)) by lia. by rewrite andb_false_r.
  - rewrite Z.shiftr_spec by lia. replace (i - k + k) with i by lia. destruct (Z.lt_ge_cases i 64) as [H64 | H64].
    + rewrite Z.ones_spec_low by lia. by rewrite andb_true_r.
    + rewrite Z.ones_spec_high by lia. rewrite andb_false_r. symmetry. apply Z.bits_above_log2; [lia |].
      destruct (Z.eq_dec x 0) as [-> | Hz]; [cbn; lia |]. apply Z.log2_lt_pow2; [lia |]. eapply Z.lt_le_trans; [apply Hx |]. apply Z.pow_le_mono_r; lia.
Qed.

Lemma p2roundup_pow x k : 0 <= x -> 0 <= k < 64 -> x + 2 ^ k <= 2 ^ 64 ->
  exists q, p2roundup x (2 ^ k) = q * 2 ^ k /\ x <= q * 2 ^ k < x + 2 ^ k.
Proof.
  intros Hx Hk Hb. assert (0 < 2 ^ k) as Hp by (apply Z.pow_pos_nonneg; lia).
  exists (- (- x / 2 ^ k)). pose proof (Z.div_mod (- x) (2 ^ k) ltac:(lia)) as Hd. pose proof (Z.mod_pos_bound (- x) (2 ^ k) Hp) as Hm.
  split; [| lia]. change (u64 (- p2align (u64 (- x)) (2 ^ k)) = - (- x / 2 ^ k) * 2 ^ k). rewrite p2align_pow by (done || (apply Z.mod_pos_bound; lia)).
  assert (u64 (- x) / 2 ^ k * 2 ^ k = (- x / 2 ^ k) * 2 ^ k \/ u64 (- x) / 2 ^ k * 2 ^ k = (- x / 2 ^ k) * 2 ^ k + 2 ^ 64) as [-> | ->].
  { destruct (Z.eq_dec x 0) as [-> | Hz]; [left; done | right].
    assert (u64 (- x) = - x + 2 ^ (64 - k) * 2 ^ k) as ->.
    { rewrite <- Z.pow_add_r by lia. replace (64 - k + k) with 64 by lia. unfold u64. rewrite <- (Z_mod_plus_full (- x) 1). apply Z.mod_small. lia. }
    rewrite Z.div_add by lia. rewrite Z.mul_add_distr_r, <- Z.pow_add_r by lia. replace (64 - k + k) with 64 by lia. done. }
  - rewrite u64_id by lia. lia.
  - replace (- (- x / 2 ^ k * 2 ^ k + 2 ^ 64)) with (- (- x / 2 ^ k) * 2 ^ k + (- 1) * 2 ^ 64) by lia. unfold u64. rewrite Z_mod_plus_full. apply Z.mod_small. lia.
Qed.

Lemma single_bit_pow x : 0 <= x < 2 ^ 64 -> has_single_bit x = true -> exists k, x = 2 ^ k /\ 0 <= k < 64.
Proof.
  intros Hx [Hz Hl]%andb_true_iff. apply negb_true_iff, Z.eqb_neq in Hz. apply Z.eqb_eq in Hl.
  pose proof (Z.log2_spec x ltac:(lia)) as [H1 H2]. pose proof (Z.log2_nonneg x). exists (Z.log2 x).
  split; [| split; [done |]; apply Z.log2_lt_pow2; lia].
  destruct (Z.eq_dec x (2 ^ Z.log2 x)) as [E | E]; [done | exfalso].
  assert (Z.log2 (x - 1) = Z.log2 x) as El by (apply Z.log2_unique; lia).
  assert (Z.testbit (Z.land x (x - 1)) (Z.log2 x) = true) as Hb.
  { rewrite Z.land_spec, Z.bit_log2 by lia. rewrite <- El. by rewrite Z.bit_log2 by lia. }
  by rewrite Hl, Z.bits_0 in Hb.
Qed.

(** The lowest bit of a size names one of the cursors. *)
Lemma low_bit_index x : 0 < x < 2 ^ 64 -> Z.land x (u64 (- x)) <> 0 /\ 0 <= cbits64 (Z.land x (u64 (- x))) - 1 < 64.
Proof.
  intros Hx. assert (u64 (- x) = 2 ^ 64 - x) as E by (unfold u64; rewrite <- (Z_mod_plus_full (- x) 1); rewrite Z.mod_small; lia).
  assert (Z.land x (u64 (- x)) <> 0) as Hn.
  { rewrite E. intros Hl. pose proof (Z.add_nocarry_lxor x (2 ^ 64 - x) Hl) as Ha.
    assert (Z.lxor x (2 ^ 64 - x) < 2 ^ 64); [| lia]. apply Z.log2_lt_pow2; [lia |]. eapply Z.le_lt_trans; [apply Z.log2_lxor; lia |].
    apply Z.max_lub_lt; apply Z.log2_lt_pow2; lia. }
  split; [done |]. unfold cbits64. rewrite (proj2 (Z.eqb_neq _ _)) by done.
  assert (0 <= Z.land x (u64 (- x))) by (apply Z.land_nonneg; lia). pose proof (Z.log2_nonneg (Z.land x (u64 (- x)))).
  assert (Z.log2 (Z.land x (u64 (- x))) < 64); [| lia]. eapply Z.le_lt_trans; [apply Z.log2_land; rewrite ?E; lia |].
  apply Z.min_lt_iff. left. apply Z.log2_lt_pow2; lia.
Qed.

(** ** Lists of ranges *)

Definition cov (t : list range_seg_t) (x : Z) : Prop := exists r, r ∈ t /\ r_start r <= x < r_end r.

Lemma cov_nil x : ~ cov [] x.
Proof. intros (r & Hr & _). by apply elem_of_nil in Hr. Qed.

Lemma cov_cons r t x : cov (r :: t) x <-> r_start r <= x < r_end r \/ cov t x.
Proof.
  unfold cov. split.
  - intros (r' & Hr & Hx). apply elem_of_cons in Hr as [-> | Hr]; eauto.
  - intros [Hx | (r' & Hr & Hx)]; [exists r | exists r']; (split; [apply elem_of_cons |]); auto.
Qed.

Lemma cov_app t t' x : cov (t ++ t') x <-> cov t x \/ cov t' x.
Proof. induction t as [| r t IH]; cbn [app]; [| rewrite !cov_cons, IH; tauto]. split; [auto | intros [[]%cov_nil | ?]; done]. Qed.

Lemma cov_perm t t' x : t ≡ₚ t' -> cov t x <-> cov t' x.
Proof. intros Hp. unfold cov. by setoid_rewrite Hp. Qed.

Fixpoint bytes (t : list range_seg_t) : Z := match t with [] => 0 | r :: t => r_end r - r_start r + bytes t end.

Lemma bytes_app t t' : bytes (t ++ t') = bytes t + bytes t'.
Proof. induction t as [| r t IH]; cbn [bytes app]; [done |]. rewrite IH. lia. Qed.

Lemma bytes_perm t t' : t ≡ₚ t' -> bytes t = bytes t'.
Proof. induction 1; cbn [bytes]; lia. Qed.

Definition apart (a b : range_seg_t) : Prop := r_end a < r_start b.

Section Trees.
(** [D] bounds the ranges, [g] divides their ends. *)
Context (D g : Z).

Definition seg_ok (r : range_seg_t) : Prop := 0 <= r_start r < r_end r /\ r_end r <= D /\ (g | r_start r) /\ (g | r_end r).
Definition tree_ok (t : list range_seg_t) : Prop := Forall seg_ok t /\ StronglySorted apart t.

Lemma tree_app l m : tree_ok (l ++ m) <-> tree_ok l /\ tree_ok m /\ (forall x y, x ∈ l -> y ∈ m -> apart x y).
Proof. unfold tree_ok. rewrite Forall_app, StronglySorted_app. naive_solver. Qed.

Lemma tree_cons r m : tree_ok (r :: m) <-> seg_ok r /\ tree_ok m /\ (forall y, y ∈ m -> apart r y).
Proof. unfold tree_ok. rewrite Forall_cons, StronglySorted_cons, !Forall_forall. naive_solver. Qed.

Lemma tree_mid l r m : tree_ok (l ++ r :: m) <->
  tree_ok l /\ seg_ok r /\ tree_ok m /\ (forall x, x ∈ l -> apart x r) /\ (forall y, y ∈ m -> apart r y).
Proof.
  rewrite tree_app, tree_cons. split.
  - intros (Hl & (Hr & Hm & Hrm) & Hlm). split_and!; try done. intros x Hx. apply Hlm; [done |]. by left.
  - intros (Hl & Hr & Hm & Hlr & Hrm). split_and!; try done. intros x y Hx [-> | Hy]%elem_of_cons; [auto |].
    specialize (Hlr x Hx). specialize (Hrm y Hy). destruct Hr. unfold apart in *. lia.
Qed.

Lemma tree_seg t r : tree_ok t -> r ∈ t -> seg_ok r.
Proof. intros [Ht _] Hr. rewrite Forall_forall in Ht. auto. Qed.

Lemma tree_cov t x : tree_ok t -> cov t x -> 0 <= x < D.
Proof. intros Ht (r & Hr & Hx). destruct (tree_seg t r Ht Hr) as (? & ? & _). lia. Qed.

(** A range is between its neighbours. *)
Lemma mid_not_in l r m : tree_ok (l ++ r :: m) -> (r ∉ l) /\ (r ∉ m).
Proof.
  intros (_ & Hr & _ & Hl & Hm)%tree_mid. destruct Hr. unfold apart in *. split; intros Hin; [specialize (Hl r Hin) | specialize (Hm r Hin)]; lia.
Qed.

Lemma mid_cov l r m x : tree_ok (l ++ r :: m) -> r_start r <= x < r_end r -> ~ cov (l ++ m) x.
Proof.
  intros (_ & _ & _ & Hl & Hm)%tree_mid Hx (y & [Hy | Hy]%elem_of_app & Hyx); [specialize (Hl y Hy) | specialize (Hm y Hy)]; unfold apart in *; lia.
Qed.

Lemma tree_drop l r m : tree_ok (l ++ r :: m) -> tree_ok (l ++ m).
Proof.
  intros (Hl & Hr & Hm & Hlr & Hrm)%tree_mid. apply tree_app. split_and!; try done. intros x y Hx Hy.
  specialize (Hlr x Hx). specialize (Hrm y Hy). destruct Hr. unfold apart in *. lia.
Qed.

Lemma tree_NoDup t : tree_ok t -> NoDup t.
Proof.
  induction t as [| r t IH]; [constructor |]. intros H. pose proof (mid_not_in [] r t H) as [_ Hn]. apply tree_cons in H as (_ & Ht & _).
  constructor; auto.
Qed.

Lemma bytes_bound t lo : tree_ok t -> 0 <= lo <= D -> (forall r, r ∈ t -> lo <= r_start r) -> 0 <= bytes t <= D - lo.
Proof.
  revert lo. induction t as [| r t IH]; intros lo Ht Hlo Hge; cbn [bytes]; [lia |]. apply tree_cons in Ht as ((Hr & HD & _) & Ht & Ha).
  assert (lo <= r_start r) by (apply Hge; by left). destruct (IH (r_end r) Ht) as [? ?]; [lia | | lia].
  intros y Hy. specialize (Ha y Hy). unfold apart in Ha. lia.
Qed.

(** ** Operations on trees *)

Lemma erase_mid l r m : r ∉ l -> tree_erase r (l ++ r :: m) = Ok (l ++ m).
Proof.
  intros Hn. induction l as [| x l IH]; cbn [app tree_erase]; [by rewrite decide_True |].
  apply not_elem_of_cons in Hn as [Hx Hn]. rewrite decide_False by done. by rewrite IH.
Qed.

Lemma set_mid l r r' m : r ∉ l -> tree_set r r' (l ++ r :: m) = Ok (l ++ r' :: m).
Proof.
  intros Hn. induction l as [| x l IH]; cbn [app tree_set]; [by rewrite decide_True |].
  apply not_elem_of_cons in Hn as [Hx Hn]. rewrite decide_False by done. by rewrite IH.
Qed.

Lemma next_mid l r m : r ∉ l -> tree_next r (l ++ r :: m) = Ok (head m).
Proof.
  intros Hn. induction l as [| x l IH]; cbn [app tree_next]; [by rewrite decide_True |].
  apply not_elem_of_cons in Hn as [Hx Hn]. rewrite decide_False by done. auto.
Qed.

Lemma insert_mid l r m : tree_ok (l ++ m) -> insert_before (head m) r (l ++ m) = Ok (l ++ r :: m).
Proof.
  intros Ht. assert (forall x, head m = Some x -> x ∉ l) as Hn.
  { intros x Hx Hl. destruct m as [| y m]; [done |]. injection Hx as ->. by apply mid_not_in in Ht as [? _]. }
  clear Ht. induction l as [| x l IH]; cbn [app insert_before].
  - destruct m as [| y m]; [done |]. cbn. by rewrite decide_True.
  - rewrite decide_False by (intros E; apply (Hn x E); by left). rewrite IH; [done |]. intros y Hy Hl. apply (Hn y Hy). by right.
Qed.

Lemma span_app p t : t = (span p t).1 ++ (span p t).2.
Proof. induction t as [| r t IH]; cbn [span]; [done |]. destruct (p r); [| done]. destruct (span p t) as [l m]. cbn in *. by f_equal. Qed.

Lemma span_all p t r : r ∈ (span p t).1 -> p r = true.
Proof.
  induction t as [| x t IH]; cbn [span]; [intros []%elem_of_nil |]. destruct (p x) eqn:E; [| intros []%elem_of_nil].
  destruct (span p t) as [l m]. cbn in *. intros [-> | Hr]%elem_of_cons; auto.
Qed.

Lemma span_head p t r m : (span p t).2 = r :: m -> p r = false.
Proof.
  induction t as [| x t IH]; cbn [span]; [done |]. destruct (p x) eqn:E; [destruct (span p t) as [l k]; cbn in *; auto |].
  cbn. by intros [= -> _].
Qed.

(** A range that contains the key is found. *)
Lemma find_in t r start end_ : tree_ok t -> r ∈ t -> r_start r <= start -> start < end_ <= r_end r -> tree_find (Seg start end_) t = Some r.
Proof.
  intros Ht Hr Hs He. unfold tree_find, lower_bound. pose proof (span_app (fun r => before r (Seg start end_)) t) as E.
  pose proof (span_all (fun r => before r (Seg start end_)) t) as Hall.
  pose proof (span_head (fun r => before r (Seg start end_)) t) as Hh. destruct (span _ t) as [l m]. cbn [fst snd] in *. subst t.
  apply elem_of_app in Hr as [Hr | Hr].
  { apply Hall in Hr. apply Z.leb_le in Hr. cbn in Hr. lia. }
  destruct m as [| x m]; [by apply elem_of_nil in Hr |]. specialize (Hh x m eq_refl). unfold before in *. cbn in *. apply Z.leb_gt in Hh.
  apply elem_of_cons in Hr as [-> | Hr]; [by rewrite (proj2 (Z.leb_gt _ _)) by lia |].
  apply tree_app in Ht as (_ & (Hx & _ & Hxm)%tree_cons & _). specialize (Hxm r Hr). destruct Hx. unfold apart in *. lia.
Qed.

(** The place of a range that is disjoint from the others. *)
Lemma upper_place t start end_ : tree_ok t -> start < end_ -> (forall x, start <= x < end_ -> ~ cov t x) ->
  exists l m, upper_bound (Seg start end_) t = (l, m) /\ t = l ++ m /\ (forall r, r ∈ l -> r_end r <= start) /\ (forall r, r ∈ m -> end_ <= r_start r).
Proof.
  intros Ht Hse Hd. unfold upper_bound. pose proof (span_app (fun r => negb (before (Seg start end_) r)) t) as E.
  pose proof (span_all (fun r => negb (before (Seg start end_) r)) t) as Hall.
  pose proof (span_head (fun r => negb (before (Seg start end_) r)) t) as Hh. destruct (span _ t) as [l m]. cbn [fst snd] in *.
  exists l, m. split_and!; [done | done | |].
  - intros r Hr. specialize (Hall r Hr). apply negb_true_iff, Z.leb_gt in Hall. cbn in Hall.
    assert (r ∈ t) as Hrt by (subst t; apply elem_of_app; by left). destruct (tree_seg t r Ht Hrt) as (? & _).
    destruct (Z.le_gt_cases (r_end r) start) as [| Hgt]; [done |]. exfalso. apply (Hd (Z.max start (r_start r))); [lia |]. exists r. split; [done | lia].
  - intros r Hr. destruct m as [| x m]; [by apply elem_of_nil in Hr |]. specialize (Hh x m eq_refl). apply negb_false_iff, Z.leb_le in Hh. cbn in Hh.
    apply elem_of_cons in Hr as [-> | Hr]; [done |]. subst t. apply tree_app in Ht as (_ & (Hx & _ & Hxm)%tree_cons & _).
    specialize (Hxm r Hr). destruct Hx. unfold apart in *. lia.
Qed.
End Trees.

(** ** The state *)

(** What a derived class promises of the ranges that are handed over: [bfree] is
    what it holds, and nothing gets lost.  The ends of the ranges are multiples
    of [g]. *)
Class SpillLaws (c : avl_conf) (g : Z) {B : Type} (_spillover_range : Z -> Z -> B -> res B) := {
  bfree : B -> Z -> Prop;
  binv : B -> Prop;
  spillover_ok : range_count_cap c <> 0 -> forall start end_ b, binv b -> seg_ok (device_size c) g (Seg start end_) ->
    (forall x, start <= x < end_ -> ~ bfree b x) ->
    exists b', _spillover_range start end_ b = Ok b' /\ binv b' /\ forall x, bfree b' x <-> bfree b x \/ start <= x < end_
}.

Section State.
Context (c : avl_conf) (g : Z) {B : Type} (_spillover_range : Z -> Z -> B -> res B) `{!SpillLaws c g _spillover_range}.
Context (HD : 0 < device_size c <= 2 ^ 62) (Hcap : 0 <= range_count_cap c).

Abbreviation seg_ok := (seg_ok (device_size c) g).
Abbreviation tree_ok := (tree_ok (device_size c) g).

Definition sfree (s : avl * B) (x : Z) : Prop := cov (range_tree s.1) x \/ bfree s.2 x.

Definition not_longer (r r' : range_seg_t) : Prop := r_length r <= r_length r'.

(** The ranges [out] are in the tree by offset but not in the tree by size. *)
Record inv (out : list range_seg_t) (s : avl * B) : Prop := {
  i_tree : tree_ok (range_tree s.1);
  i_perm : range_tree s.1 ≡ₚ out ++ range_size_tree s.1;
  i_sized : StronglySorted not_longer (range_size_tree s.1);
  i_num : num_free s.1 = bytes (range_size_tree s.1);
  i_lbas : length (lbas s.1) = MAX_LBAS;
  i_binv : binv s.2;
  i_disj : forall x, cov (range_tree s.1) x -> ~ bfree s.2 x
}.

Abbreviation good := (inv []).

Lemma length_ok r : seg_ok r -> r_length r = r_end r - r_start r.
Proof. intros (Hr & He & _). apply u64_id. lia. Qed.

Lemma inv_seg out s r : inv out s -> r ∈ out ++ range_size_tree s.1 -> seg_ok r.
Proof. intros Hi Hr. rewrite <- (i_perm _ _ Hi) in Hr. by apply (tree_seg _ _ _ _ (i_tree _ _ Hi)). Qed.

Lemma bytes_nonneg t : (forall r, r ∈ t -> seg_ok r) -> 0 <= bytes t.
Proof.
  induction t as [| r t IH]; cbn [bytes]; [done |]. intros H. destruct (H r ltac:(by left)) as [? _].
  specialize (IH (fun r' Hr' => H r' ltac:(by right))). lia.
Qed.

Lemma bytes_of_inv out s : inv out s -> 0 <= bytes out /\ 0 <= bytes (range_size_tree s.1) /\ bytes out + bytes (range_size_tree s.1) <= device_size c.
Proof.
  intros Hi. pose proof (bytes_bound _ _ (range_tree s.1) 0 (i_tree _ _ Hi) ltac:(lia)) as Hb.
  rewrite (bytes_perm _ _ (i_perm _ _ Hi)), bytes_app in Hb. split_and!.
  - apply bytes_nonneg. intros r Hr. apply (inv_seg _ _ _ Hi). apply elem_of_app. by left.
  - apply bytes_nonneg. intros r Hr. apply (inv_seg _ _ _ Hi). apply elem_of_app. by right.
  - destruct Hb as [_ ?]; [| lia]. intros r Hr. destruct (tree_seg _ _ _ _ (i_tree _ _ Hi) Hr) as [? _]. lia.
Qed.

Lemma sized_app l m : StronglySorted not_longer (l ++ m) <->
  (forall x y, x ∈ l -> y ∈ m -> not_longer x y) /\ StronglySorted not_longer l /\ StronglySorted not_longer m.
Proof. rewrite StronglySorted_app. done. Qed.

(** A range is taken out of the tree by size. *)
Lemma rm_ok out a b r : inv out (a, b) -> r ∈ range_size_tree a ->
  exists a', _range_size_tree_rm r a = Ok a' /\ inv (r :: out) (a', b) /\ range_tree a' = range_tree a.
Proof.
  intros Hi Hr. pose proof (inv_seg _ _ r Hi ltac:(apply elem_of_app; by right)) as Hok.
  pose proof (bytes_of_inv _ _ Hi) as (H00 & H0 & H1). destruct Hi as [Ht Hp Hs Hn Hl Hb Hd]. cbn [fst snd] in *.
  pose proof (length_ok r Hok) as El. apply list_elem_of_split in Hr as (l & m & E). rewrite E in *.
  assert (r ∉ l) as Hrl.
  { pose proof (tree_NoDup _ _ _ Ht) as Hnd. rewrite Hp in Hnd. apply NoDup_app in Hnd as (_ & _ & Hnd). apply NoDup_app in Hnd as (_ & Hnd & _).
    intros Hin. apply (Hnd r Hin). by left. }
  assert (0 <= bytes l /\ 0 <= bytes m) as [Hbl Hbm].
  { split; apply bytes_nonneg; intros r' Hr'; apply (tree_seg _ _ _ _ Ht); rewrite Hp; apply elem_of_app; right; apply elem_of_app; [by left | right; by right]. }
  rewrite bytes_app in *. cbn [bytes] in *. unfold _range_size_tree_rm, ensure. rewrite (proj2 (Z.leb_le _ _)) by (destruct Hok; lia). res_simpl.
  rewrite E, erase_mid by done. res_simpl. eexists. split; [reflexivity |]. split; [| done]. split; cbn [fst snd range_tree range_size_tree num_free lbas]; try done.
  - rewrite Hp. cbn [app]. rewrite (assoc_L (++)), <- Permutation_middle. by rewrite <- (assoc_L (++)).
  - apply sized_app in Hs as (Hlm & Hl' & Hm'). inversion Hm' as [| ? ? Hm2 _]. apply sized_app. split_and!; [| done | done].
    intros x y Hx Hy. apply Hlm; [done |]. by right.
  - rewrite bytes_app, u64_id; destruct Hok; lia.
Qed.

Lemma size_insert_perm r t : size_insert r t ≡ₚ r :: t.
Proof. induction t as [| x t IH]; cbn [size_insert]; [done |]. destruct (shorter r x); [done |]. rewrite IH. apply Permutation_swap. Qed.

Lemma size_insert_sized r t : StronglySorted not_longer t -> StronglySorted not_longer (size_insert r t).
Proof.
  induction t as [| x t IH]; cbn [size_insert]; [repeat constructor |]. intros H. inversion H as [| ? ? Ht Hx]. subst. unfold shorter.
  assert (r_length r <= r_length x -> StronglySorted not_longer (r :: x :: t)) as Hle.
  { intros Hrx. constructor; [done |]. constructor; [done |]. eapply Forall_impl; [exact Hx |]. unfold not_longer. lia. }
  assert (r_length x <= r_length r -> StronglySorted not_longer (x :: size_insert r t)) as Hge.
  { intros Hxr. constructor; [auto |]. rewrite size_insert_perm. apply Forall_cons. split; [exact Hxr | done]. }
  destruct (Z.ltb_spec (r_length r) (r_length x)); [apply Hle; lia |]. destruct (Z.ltb_spec (r_length x) (r_length r)); [apply Hge; lia |].
  destruct (_ <? _); [apply Hle | apply Hge]; lia.
Qed.

(** A range is put back into the tree by size. *)
Lemma back_ok out a b r : inv (r :: out) (a, b) -> inv out (size_tree_add r a, b).
Proof.
  intros Hi. pose proof (inv_seg _ _ r Hi ltac:(by left)) as Hok. pose proof (bytes_of_inv _ _ Hi) as (H0 & H1 & H2). cbn [bytes] in *.
  destruct Hi as [Ht Hp Hs Hn Hl Hb Hd]. cbn [fst snd] in *. split; cbn [fst snd range_tree range_size_tree num_free lbas size_tree_add]; try done.
  - rewrite size_insert_perm, Hp. cbn [app]. by rewrite Permutation_middle.
  - by apply size_insert_sized.
  - rewrite (bytes_perm _ _ (size_insert_perm r _)), Hn, length_ok by done. cbn [bytes]. rewrite u64_id; [lia |].
    assert (0 <= bytes out); [| destruct Hok; lia].
    apply bytes_nonneg. intros r' Hr'. apply (tree_seg _ _ _ _ Ht). rewrite Hp. right. apply elem_of_app. by left.
Qed.

(** A range that is not in the tree by size changes. *)
Lemma change_ok out a b l r m r' : inv (r :: out) (a, b) -> range_tree a = l ++ r :: m -> tree_ok (l ++ r' :: m) ->
  (forall x, r_start r' <= x < r_end r' -> ~ bfree b x) -> inv (r' :: out) (set_range_tree (l ++ r' :: m) a, b).
Proof.
  intros [Ht Hp Hs Hn Hl Hb Hd] E Ht' Hx. cbn [fst snd] in *. rewrite E in *. split; cbn [fst snd range_tree range_size_tree num_free lbas set_range_tree]; try done.
  - rewrite <- Permutation_middle in Hp |- *. cbn [app] in *. constructor. by apply Permutation_cons_inv in Hp.
  - intros x. rewrite cov_app, cov_cons. intros [H | [H | H]]; [apply Hd | by apply Hx | apply Hd]; rewrite cov_app, cov_cons; auto.
Qed.

(** It leaves the tree. *)
Lemma leave_ok out a b b' l r m : inv (r :: out) (a, b) -> range_tree a = l ++ r :: m -> binv b' ->
  (forall x, bfree b' x -> bfree b x \/ r_start r <= x < r_end r) -> inv out (set_range_tree (l ++ m) a, b').
Proof.
  intros [Ht Hp Hs Hn Hl Hb Hd] E Hb' Hx. cbn [fst snd] in *. rewrite E in *. split; cbn [fst snd range_tree range_size_tree num_free lbas set_range_tree]; try done.
  - by eapply tree_drop.
  - rewrite <- Permutation_middle in Hp. by apply Permutation_cons_inv in Hp.
  - intros x Hc [Hf | Hr]%Hx; [| by eapply mid_cov]. apply (Hd x); [| done]. rewrite cov_app, cov_cons. rewrite cov_app in Hc. tauto.
Qed.

(** It enters the tree. *)
Lemma enter_ok out a b l r m : inv out (a, b) -> range_tree a = l ++ m -> tree_ok (l ++ r :: m) ->
  (forall x, r_start r <= x < r_end r -> ~ bfree b x) -> inv (r :: out) (set_range_tree (l ++ r :: m) a, b).
Proof.
  intros [Ht Hp Hs Hn Hl Hb Hd] E Ht' Hx. cbn [fst snd] in *. rewrite E in *. split; cbn [fst snd range_tree range_size_tree num_free lbas set_range_tree]; try done.
  - rewrite <- Permutation_middle. cbn [app]. by constructor.
  - intros x. rewrite cov_app, cov_cons. intros [H | [H | H]]; [apply Hd | by apply Hx | apply Hd]; rewrite cov_app; auto.
Qed.

Lemma in_tree out s r : inv out s -> r ∈ out ++ range_size_tree s.1 -> exists l m, range_tree s.1 = l ++ r :: m /\ r ∉ l.
Proof.
  intros Hi Hr. rewrite <- (i_perm _ _ Hi) in Hr. apply list_elem_of_split in Hr as (l & m & E). exists l, m. split; [done |].
  pose proof (i_tree _ _ Hi) as Ht. rewrite E in Ht. by apply mid_not_in in Ht as [? _].
Qed.

Lemma out_disj out s r x : inv out s -> r ∈ out ++ range_size_tree s.1 -> r_start r <= x < r_end r -> ~ bfree s.2 x.
Proof. intros Hi Hr Hx. apply (i_disj _ _ Hi). exists r. split; [by rewrite (i_perm _ _ Hi) | done]. Qed.

Lemma seg_eta r : Seg (r_start r) (r_end r) = r.
Proof. by destruct r. Qed.

Lemma remove_lowest_ok out a b : inv out (a, b) -> range_size_tree a <> [] -> range_count_cap c <> 0 ->
  exists s', remove_lowest _spillover_range a b = Ok s' /\ inv out s' /\ forall x, sfree s' x <-> sfree (a, b) x.
Proof.
  intros Hi Hne Hc. unfold remove_lowest. destruct (range_size_tree a) as [| r t] eqn:E; [done |].
  assert (r ∈ range_size_tree a) as Hr by (rewrite E; by left). destruct (rm_ok _ _ _ r Hi Hr) as (a1 & -> & Hi1 & Et). res_simpl.
  destruct (spillover_ok Hc (r_start r) (r_end r) b (i_binv _ _ Hi)) as (b' & -> & Hb' & Hf).
  { rewrite seg_eta. apply (inv_seg _ _ _ Hi). apply elem_of_app. by right. }
  { intros x Hx. apply (out_disj _ _ r x Hi); [apply elem_of_app; by right | done]. }
  res_simpl. destruct (in_tree _ _ r Hi1 ltac:(by left)) as (l & m & El & Hn). cbn [fst] in El. rewrite El, erase_mid by done. res_simpl.
  eexists. split; [reflexivity |]. split; [eapply (leave_ok _ _ _ _ _ _ _ Hi1 El Hb'); intros x Hx; by apply Hf |].
  intros x. unfold sfree. cbn [fst snd set_range_tree range_tree]. rewrite <- Et, El, !cov_app, cov_cons, Hf. tauto.
Qed.

Lemma full_nonempty a : negb ((range_count_cap c =? 0) || (zlen (range_size_tree a) <? range_count_cap c)) = true ->
  range_count_cap c <> 0 /\ range_size_tree a <> [].
Proof.
  intros [H1 H2]%negb_true_iff%orb_false_iff. apply Z.eqb_neq in H1. apply Z.ltb_ge in H2. split; [done |]. intros E0. rewrite E0 in H2.
  change (zlen []) with 0 in H2. lia.
Qed.

(** A new range, before the next one. *)
Lemma try_insert_new out a b l m start end_ : inv out (a, b) -> range_tree a = l ++ m -> tree_ok (l ++ Seg start end_ :: m) ->
  (forall x, start <= x < end_ -> ~ bfree b x) ->
  exists ok s', _try_insert_range c _spillover_range start end_ (Some (head m)) (a, b) = Ok (ok, s') /\ inv out s' /\
    forall x, sfree s' x <-> sfree (a, b) x \/ start <= x < end_.
Proof.
  intros Hi E Ht Hd. unfold _try_insert_range. set (r := _ || _). set (lowest := negb r && (_ <? _)).
  pose proof (full_nonempty a : negb r = true -> _) as Hfull.
  destruct (negb r && negb lowest) eqn:Espill.
  - apply andb_true_iff in Espill as [Hr _]. destruct (Hfull Hr) as [Hc _].
    destruct (spillover_ok Hc start end_ b (i_binv _ _ Hi)) as (b' & -> & Hb' & Hf); [by apply tree_mid in Ht as (_ & ? & _) | done |].
    res_simpl. eexists _, _. split; [reflexivity |]. split.
    + destruct Hi. split; try done. cbn [fst snd] in *. intros x Hx [Hb | Hb]%Hf; [by apply (i_disj0 x) |]. rewrite E in Hx. by apply (mid_cov _ _ _ _ _ x Ht Hb).
    + intros x. unfold sfree. cbn [fst snd]. rewrite Hf. tauto.
  - rewrite E, (insert_mid (device_size c) g) by (rewrite <- E; apply Hi). res_simpl. pose proof (back_ok _ _ _ _ (enter_ok _ _ _ _ _ _ Hi E Ht Hd)) as Hi2.
    set (a2 := size_tree_add _ _) in *. assert (forall x, sfree (a2, b) x <-> sfree (a, b) x \/ start <= x < end_) as Hs.
    { intros x. unfold sfree. cbn [fst snd a2 size_tree_add set_range_tree range_tree]. rewrite E, !cov_app, cov_cons. cbn. tauto. }
    destruct lowest eqn:El; res_simpl; [| eauto]. apply andb_true_iff in El as [Hr _]. destruct (Hfull Hr) as [Hc Hne].
    destruct (remove_lowest_ok _ _ _ Hi2) as (s' & -> & Hi3 & Hs'); [| done |].
    { cbn. intros E0. pose proof (size_insert_perm (Seg start end_) (range_size_tree a)) as Hp. rewrite E0 in Hp. by apply Permutation_nil_cons in Hp. }
    res_simpl. eexists _, _. split; [reflexivity |]. split; [done |]. intros x. by rewrite Hs', Hs.
Qed.

(** A range goes back into the tree by size, or is handed over. *)
Lemma try_insert_ok out a b r : inv (r :: out) (a, b) ->
  exists s', _range_size_tree_try_insert c _spillover_range r (a, b) = Ok s' /\ inv out s' /\ forall x, sfree s' x <-> sfree (a, b) x.
Proof.
  intros Hi. unfold _range_size_tree_try_insert, _try_insert_range. set (q := _ || _). set (lowest := negb q && (_ <? _)).
  pose proof (full_nonempty a : negb q = true -> _) as Hfull.
  destruct (negb q && negb lowest) eqn:Espill.
  - apply andb_true_iff in Espill as [Hr _]. destruct (Hfull Hr) as [Hc _].
    destruct (spillover_ok Hc (r_start r) (r_end r) b (i_binv _ _ Hi)) as (b' & -> & Hb' & Hf).
    { rewrite seg_eta. apply (inv_seg _ _ _ Hi). by left. }
    { intros x Hx. apply (out_disj _ _ r x Hi); [by left | done]. }
    res_simpl. destruct (in_tree _ _ r Hi ltac:(by left)) as (l & m & E & Hn). cbn [fst] in E. rewrite E, erase_mid by done. res_simpl.
    eexists. split; [reflexivity |]. split; [eapply (leave_ok _ _ _ _ _ _ _ Hi E Hb'); intros x Hx; by apply Hf |].
    intros x. unfold sfree. cbn [fst snd set_range_tree range_tree]. rewrite E, !cov_app, cov_cons, Hf. tauto.
  - res_simpl. destruct lowest eqn:El; res_simpl; [| eexists; split; [reflexivity |]; split; [by apply back_ok | done]].
    apply andb_true_iff in El as [Hr _]. destruct (Hfull Hr) as [Hc Hne]. destruct (remove_lowest_ok _ _ _ Hi Hne Hc) as ([a' b'] & -> & Hi' & Hs). res_simpl.
    eexists. split; [reflexivity |]. split; [by apply back_ok | done].
Qed.

(** ** Adding a range *)

Lemma inv_out out out' s : out ≡ₚ out' -> inv out s -> inv out' s.
Proof. intros Hp Hi. split; try apply Hi. by rewrite <- Hp, (i_perm _ _ Hi). Qed.

Lemma gap_before l start : tree_ok l -> (forall r, r ∈ l -> r_end r <= start) -> (forall r, last l = Some r -> r_end r <> start) ->
  forall r, r ∈ l -> r_end r < start.
Proof.
  intros Ht Hle Hlast r Hr. destruct (last l) as [rb |] eqn:E; [| by apply last_None in E as ->; apply elem_of_nil in Hr].
  apply last_Some in E as [l' ->]. assert (r_end rb < start) as Hb.
  { specialize (Hlast rb eq_refl). specialize (Hle rb ltac:(apply elem_of_app; right; by left)). lia. }
  apply elem_of_app in Hr as [Hr | Hr]; [| by apply list_elem_of_singleton in Hr as ->].
  apply tree_mid in Ht as (_ & (? & _) & _ & Ha & _). specialize (Ha r Hr). unfold apart in Ha. lia.
Qed.

Lemma gap_after m end_ : tree_ok m -> (forall r, r ∈ m -> end_ <= r_start r) -> (forall r, head m = Some r -> r_start r <> end_) ->
  forall r, r ∈ m -> end_ < r_start r.
Proof.
  intros Ht Hle Hhead r Hr. destruct m as [| ra m]; [by apply elem_of_nil in Hr |]. assert (end_ < r_start ra) as Hb.
  { specialize (Hhead ra eq_refl). specialize (Hle ra ltac:(by left)). lia. }
  apply elem_of_cons in Hr as [-> | Hr]; [done |]. apply tree_cons in Ht as ((? & _) & _ & Ha). specialize (Ha r Hr). unfold apart in Ha. lia.
Qed.

(** A range grows into the free space next to it. *)
Lemma grow_ok a b l r m r' : inv [r] (a, b) -> range_tree a = l ++ r :: m -> tree_ok (l ++ r' :: m) ->
  (forall x, r_start r' <= x < r_end r' -> ~ bfree b x) ->
  exists t s', tree_set r r' (range_tree a) = Ok t /\ _range_size_tree_try_insert c _spillover_range r' (set_range_tree t a, b) = Ok s' /\ good s' /\
    forall x, sfree s' x <-> (cov (l ++ m) x \/ r_start r' <= x < r_end r') \/ bfree b x.
Proof.
  intros Hi E Ht' Hd. pose proof (i_tree _ _ Hi) as Ht. cbn [fst] in Ht. rewrite E in Ht.
  rewrite E, set_mid by (by apply mid_not_in in Ht as [? _]).
  destruct (try_insert_ok _ _ _ _ (change_ok _ _ _ _ _ _ _ Hi E Ht' Hd)) as (s' & Es & Hg & Hs). exists (l ++ r' :: m), s'. split_and!; try done.
  intros x. rewrite Hs. unfold sfree. cbn [fst snd set_range_tree range_tree]. rewrite !cov_app, cov_cons. tauto.
Qed.

Lemma in_sized r a b : good (a, b) -> r ∈ range_tree a -> r ∈ range_size_tree a.
Proof. intros Hi. by rewrite (i_perm _ _ Hi). Qed.

Definition divides_ends (start end_ : Z) : Prop := (g | start)%Z /\ (g | end_)%Z.

Section Add.
Context (a : avl) (b : B) (start end_ : Z) (l m : list range_seg_t).
Context (Hi : good (a, b)) (E : range_tree a = l ++ m) (Hseg : seg_ok (Seg start end_)) (Hdb : forall x, start <= x < end_ -> ~ bfree b x).
Context (Hl : forall r, r ∈ l -> r_end r <= start) (Hm : forall r, r ∈ m -> end_ <= r_start r).

Definition added (s' : avl * B) : Prop := good s' /\ forall x, sfree s' x <-> sfree (a, b) x \/ start <= x < end_.

Lemma add_parts : tree_ok l /\ tree_ok m /\ (forall x y, x ∈ l -> y ∈ m -> apart x y).
Proof. pose proof (i_tree _ _ Hi) as Ht. cbn [fst] in Ht. rewrite E in Ht. by apply tree_app. Qed.

Lemma neighbour_disj r x : r ∈ l ++ m -> r_start r <= x < r_end r -> ~ bfree b x.
Proof. intros Hr Hx. apply (i_disj _ _ Hi). exists r. cbn [fst]. by rewrite E. Qed.

(** The range starts where the one before ends. *)
Lemma add_before rb : last l = Some rb -> r_end rb = start -> (forall r, head m = Some r -> r_start r <> end_) ->
  exists a' t s', _range_size_tree_rm rb a = Ok a' /\ tree_set rb (Seg (r_start rb) end_) (range_tree a') = Ok t /\
    _range_size_tree_try_insert c _spillover_range (Seg (r_start rb) end_) (set_range_tree t a', b) = Ok s' /\ added s'.
Proof.
  intros [l' El]%last_Some Hb Ha. destruct add_parts as (Htl & Htm & Hlm). pose proof E as E0. rewrite El, <- (assoc_L (++)) in E0. cbn [app] in E0.
  assert (rb ∈ l) as Hrb by (rewrite El; apply elem_of_app; right; by left).
  destruct (rm_ok _ _ _ rb Hi) as (a1 & E1 & Hi1 & Et); [apply (in_sized _ _ _ Hi); rewrite E0; apply elem_of_app; right; by left |].
  rewrite E0 in Et. rewrite El in Htl. apply tree_mid in Htl as (Htl & (Hr1 & Hr2 & Hr3 & _) & _ & Hll & _). pose proof Hseg as (Hs1 & Hs2 & Hs3 & Hs4). cbn in Hs1, Hs2, Hs4.
  destruct (grow_ok a1 b l' rb m (Seg (r_start rb) end_) Hi1 Et) as (t & s' & Est & Es & Hg & Hs).
  - assert (seg_ok (Seg (r_start rb) end_)) by (split; cbn; [lia |]; done). apply tree_mid. split_and!; try done. intros y Hy. by apply (gap_after m).
  - intros x Hx. cbn in Hx. destruct (Z.lt_ge_cases x start) as [Hlt | Hge]; [| apply Hdb; lia].
    apply (neighbour_disj rb); [apply elem_of_app; by left | lia].
  - exists a1, t, s'. split_and!; try done. split; [done |]. intros x. rewrite Hs. unfold sfree. cbn [fst snd r_start r_end]. rewrite E0, !cov_app, cov_cons.
    assert (r_start rb <= x < end_ <-> r_start rb <= x < r_end rb \/ start <= x < end_) by lia. tauto.
Qed.

(** The range ends where the one behind starts. *)
Lemma add_after ra m' : m = ra :: m' -> r_start ra = end_ -> (forall r, last l = Some r -> r_end r <> start) ->
  exists a' t s', _range_size_tree_rm ra a = Ok a' /\ tree_set ra (Seg start (r_end ra)) (range_tree a') = Ok t /\
    _range_size_tree_try_insert c _spillover_range (Seg start (r_end ra)) (set_range_tree t a', b) = Ok s' /\ added s'.
Proof.
  intros Em Ha Hb. destruct add_parts as (Htl & Htm & Hlm). pose proof E as E0. assert (ra ∈ m) as Hra by (rewrite Em; by left).
  destruct (rm_ok _ _ _ ra Hi) as (a1 & E1 & Hi1 & Et); [apply (in_sized _ _ _ Hi); rewrite E0; apply elem_of_app; by right |].
  rewrite Em in E0, Htm. rewrite E0 in Et. apply tree_cons in Htm as ((Hr1 & Hr2 & _ & Hr3) & Htm & Hmm). pose proof Hseg as (Hs1 & Hs2 & Hs3 & Hs4). cbn in Hs1, Hs2, Hs3.
  destruct (grow_ok a1 b l ra m' (Seg start (r_end ra)) Hi1 Et) as (t & s' & Est & Es & Hg & Hs).
  - assert (seg_ok (Seg start (r_end ra))) by (split; cbn; [lia |]; done). apply tree_mid. split_and!; try done. intros y Hy. by apply (gap_before l).
  - intros x Hx. cbn in Hx. destruct (Z.lt_ge_cases x end_) as [Hlt | Hge]; [apply Hdb; lia |].
    apply (neighbour_disj ra); [apply elem_of_app; by right | lia].
  - exists a1, t, s'. split_and!; try done. split; [done |]. intros x. rewrite Hs. unfold sfree. cbn [fst snd r_start r_end]. rewrite E0, !cov_app, cov_cons.
    assert (start <= x < r_end ra <-> r_start ra <= x < r_end ra \/ start <= x < end_) by lia. tauto.
Qed.

(** It fills the gap between two ranges. *)
Lemma add_between rb ra m' : last l = Some rb -> m = ra :: m' -> r_end rb = start -> r_start ra = end_ ->
  exists a1 a2 t t' s', _range_size_tree_rm rb a = Ok a1 /\ _range_size_tree_rm ra a1 = Ok a2 /\
    tree_set ra (Seg (r_start rb) (r_end ra)) (range_tree a2) = Ok t /\ tree_erase rb t = Ok t' /\
    _range_size_tree_try_insert c _spillover_range (Seg (r_start rb) (r_end ra)) (set_range_tree t' a2, b) = Ok s' /\ added s'.
Proof.
  intros [l' El]%last_Some Em Hb Ha. destruct add_parts as (Htl & Htm & Hlm). pose proof E as E0. rewrite El, Em, <- (assoc_L (++)) in E0. cbn [app] in E0.
  assert (rb ∈ l) as Hrb by (rewrite El; apply elem_of_app; right; by left). assert (ra ∈ m) as Hra by (rewrite Em; by left).
  pose proof (i_tree _ _ Hi) as Ht. cbn [fst] in Ht. rewrite E0 in Ht. pose proof (mid_not_in _ _ _ _ _ Ht) as [Hn1 Hn2].
  destruct (rm_ok _ _ _ rb Hi) as (a1 & E1 & Hi1 & Et1); [apply (in_sized _ _ _ Hi); rewrite E0; apply elem_of_app; right; by left |].
  assert (ra ∈ range_size_tree a1) as Hra1.
  { assert (ra ∈ range_tree a1) as H by (rewrite Et1, E0; apply elem_of_app; right; right; by left). rewrite (i_perm _ _ Hi1) in H.
    apply elem_of_cons in H as [-> | H]; [| done]. destruct Hn2. by left. }
  destruct (rm_ok _ _ _ ra Hi1 Hra1) as (a2 & E2 & Hi2 & Et2). rewrite Et1, E0 in Et2.
  assert (ra ∉ l' ++ [rb]) as Hn3.
  { assert (l' ++ rb :: ra :: m' = (l' ++ [rb]) ++ ra :: m') as Ea by (by rewrite <- (assoc_L (++))). rewrite Ea in Ht. by apply mid_not_in in Ht as [? _]. }
  pose proof (tree_seg _ _ _ _ Htl Hrb) as (Hb1 & Hb2 & Hb3 & _). pose proof (tree_seg _ _ _ _ Htm Hra) as (Ha1 & Ha2 & _ & Ha3).
  apply (inv_out _ [rb; ra]) in Hi2; [| by apply Permutation_swap].
  pose proof (leave_ok _ _ _ b _ _ _ Hi2 Et2 (i_binv _ _ Hi) (fun x => @or_introl _ _)) as Hi3. pose proof (tree_drop _ _ _ _ _ Ht) as Ht3.
  pose proof Hseg as (Hs1 & _). cbn in Hs1.
  destruct (grow_ok _ b l' ra m' (Seg (r_start rb) (r_end ra)) Hi3 eq_refl) as (t & s' & Est & Es & Hg & Hs).
  - apply tree_mid in Ht as (Hl' & _ & (_ & Hm' & Ham)%tree_cons & Hlb & _). 
    assert (seg_ok (Seg (r_start rb) (r_end ra))) by (split; cbn; [lia |]; done). by apply tree_mid.
  - intros x Hx. cbn in Hx. destruct (Z.lt_ge_cases x start) as [Hlt | Hge]; [apply (neighbour_disj rb); [apply elem_of_app; by left | lia] |].
    destruct (Z.lt_ge_cases x end_) as [Hlt | Hge']; [apply Hdb; lia | apply (neighbour_disj ra); [apply elem_of_app; by right | lia]].
  - cbn [range_tree set_range_tree] in Est. rewrite set_mid in Est by (by apply mid_not_in in Ht3 as [? _]). injection Est as <-.
    exists a1, a2, ((l' ++ [rb]) ++ Seg (r_start rb) (r_end ra) :: m'), (l' ++ Seg (r_start rb) (r_end ra) :: m'), s'. split_and!; try done.
    + rewrite Et2. change (rb :: ra :: m') with ([rb] ++ ra :: m'). rewrite (assoc_L (++)). by apply set_mid.
    + rewrite <- (assoc_L (++)). by apply erase_mid.
    + split; [done |]. intros x. rewrite Hs. unfold sfree. cbn [fst snd r_start r_end]. rewrite E0, !cov_app, !cov_cons.
      assert (r_start rb <= x < r_end ra <-> r_start rb <= x < r_end rb \/ r_start ra <= x < r_end ra \/ start <= x < end_) by lia. tauto.
Qed.

(** It touches no range. *)
Lemma add_apart : (forall r, last l = Some r -> r_end r <> start) -> (forall r, head m = Some r -> r_start r <> end_) ->
  exists ok s', _try_insert_range c _spillover_range start end_ (Some (head m)) (a, b) = Ok (ok, s') /\ added s'.
Proof.
  intros Hb Ha. destruct add_parts as (Htl & Htm & Hlm). destruct (try_insert_new _ _ _ l m start end_ Hi E) as (ok & s' & Es & Hg & Hs).
  - apply tree_mid. split_and!; try done; [by apply gap_before | by apply gap_after].
  - done.
  - by exists ok, s'.
Qed.
End Add.

Lemma add_ok a b start size : good (a, b) -> 0 <= start -> 0 < size -> start + size <= device_size c -> divides_ends start (start + size) ->
  (forall x, start <= x < start + size -> ~ sfree (a, b) x) ->
  exists s', _add_to_tree c _spillover_range start size (a, b) = Ok s' /\ added a b start (start + size) s'.
Proof.
  intros Hi H0 Hs HDs [Hg1 Hg2] Hd. unfold _add_to_tree, ensure. rewrite (proj2 (Z.eqb_neq _ _)) by lia. cbn [negb]. res_simpl. rewrite u64_id by lia.
  set (end_ := start + size) in *. destruct (upper_place _ _ (range_tree a) start end_ (i_tree _ _ Hi)) as (l & m & -> & E & Hl & Hm); [lia | |].
  { intros x Hx Hc. apply (Hd x Hx). by left. }
  assert (forall x, start <= x < end_ -> ~ bfree b x) as Hdb by (intros x Hx Hb; apply (Hd x Hx); by right).
  assert (seg_ok (Seg start end_)) as Hseg by (split; cbn; lia || auto).
  pose proof (add_before a b start end_ l m Hi E Hseg Hdb Hm) as Hbefore. pose proof (add_after a b start end_ l m Hi E Hseg Hdb Hl) as Hafter.
  pose proof (add_between a b start end_ l m Hi E Hseg Hdb) as Hbetween. pose proof (add_apart a b start end_ l m Hi E Hseg Hdb Hl Hm) as Hapart.
  destruct (last l) as [rb |] eqn:El; [destruct (Z.eqb_spec (r_end rb) start) as [Eb | Eb] |]; (destruct m as [| ra m'] eqn:Em; cbn [head];
    [| destruct (Z.eqb_spec (r_start ra) end_) as [Ea | Ea]]).
  all: cbn [head] in *.
  2: { destruct (Hbetween rb ra m') as (a1 & a2 & t & t' & s' & -> & E2 & E3 & E4 & Hs'); [done.. |]. res_simpl. rewrite E2. res_simpl. rewrite E3. res_simpl.
    rewrite E4. res_simpl. eauto. }
  1, 2: destruct (Hbefore rb) as (a1 & t & s' & -> & E2 & Hs'); [congruence.. |]; res_simpl; rewrite E2; res_simpl; eauto.
  2, 5: destruct (Hafter ra m') as (a1 & t & s' & -> & E2 & Hs'); [congruence.. |]; res_simpl; rewrite E2; res_simpl; eauto.
  all: destruct Hapart as (ok & s' & -> & Hs'); [congruence.. |]; res_simpl; eauto.
Qed.

(** ** Removing a range *)

Definition removed (a : avl) (b : B) (start end_ : Z) (s' : avl * B) : Prop :=
  good s' /\ forall x, sfree s' x <-> sfree (a, b) x /\ ~ start <= x < end_.

Section Remove.
Context (a : avl) (b : B) (start end_ : Z) (l : list range_seg_t) (rs : range_seg_t) (m : list range_seg_t).
Context (Hi : good (a, b)) (E : range_tree a = l ++ rs :: m) (Hin : r_start rs <= start) (Hse : start < end_ <= r_end rs) (Hg : divides_ends start end_).

Lemma rest_free x : (cov (l ++ m) x \/ r_start rs <= x < start \/ end_ <= x < r_end rs) \/ bfree b x <-> sfree (a, b) x /\ ~ start <= x < end_.
Proof.
  pose proof (i_tree _ _ Hi) as Ht. cbn [fst] in Ht. rewrite E in Ht. unfold sfree. cbn [fst snd]. rewrite E, (cov_app l (rs :: m)), cov_cons, cov_app.
  assert (start <= x < end_ -> ~ bfree b x) as Hb.
  { intros Hx. apply (i_disj _ _ Hi). exists rs. cbn [fst]. rewrite E. split; [apply elem_of_app; right; by left | lia]. }
  assert (start <= x < end_ -> ~ (cov l x \/ cov m x)) as Hc by (intros Hx; rewrite <- cov_app; apply (mid_cov _ _ _ _ _ x Ht); lia).
  assert (r_start rs <= x < r_end rs <-> r_start rs <= x < start \/ start <= x < end_ \/ end_ <= x < r_end rs) by lia.
  assert (start <= x < end_ -> ~ (r_start rs <= x < start \/ end_ <= x < r_end rs)) by lia. tauto.
Qed.

Lemma rs_disj x : r_start rs <= x < r_end rs -> ~ bfree b x.
Proof. intros Hx. apply (i_disj _ _ Hi). exists rs. cbn [fst]. rewrite E. split; [apply elem_of_app; right; by left | done]. Qed.

Lemma part_ok s e : r_start rs <= s < e /\ e <= r_end rs -> divides_ends s e -> tree_ok (l ++ Seg s e :: m).
Proof.
  intros Hs [Hgs Hge]. pose proof (i_tree _ _ Hi) as Ht. cbn [fst] in Ht. rewrite E in Ht. apply tree_mid in Ht as (Hl & (Hr1 & Hr2 & _) & Hm & Hlr & Hrm).
  assert (seg_ok (Seg s e)) by (split; cbn; [lia |]; split; [lia | done]). apply tree_mid. split_and!; try done; intros y Hy.
  - specialize (Hlr y Hy). unfold apart in *. cbn. lia.
  - specialize (Hrm y Hy). unfold apart in *. cbn. lia.
Qed.

Lemma process_ok : exists s', _process_range_removal c _spillover_range start end_ rs (a, b) = Ok s' /\ removed a b start end_ s'.
Proof.
  unfold _process_range_removal. assert (rs ∈ range_tree a) as Hrs by (rewrite E; apply elem_of_app; right; by left).
  destruct (rm_ok _ _ _ rs Hi (in_sized _ _ _ Hi Hrs)) as (a1 & -> & Hi1 & Et). res_simpl. rewrite E in Et.
  pose proof (i_tree _ _ Hi) as Ht. cbn [fst] in Ht. rewrite E in Ht. pose proof (mid_not_in _ _ _ _ _ Ht) as [Hn _].
  pose proof (tree_seg _ _ _ _ (i_tree _ _ Hi) Hrs) as (Hr1 & Hr2 & Hgs & Hge). destruct Hg as [Hg1 Hg2].
  assert (r_start rs <> start -> tree_ok (l ++ Seg (r_start rs) start :: m)) as Hleft by (intros; apply part_ok; [lia | done]).
  assert (r_end rs <> end_ -> tree_ok (l ++ Seg end_ (r_end rs) :: m)) as Hright by (intros; apply part_ok; [lia | done]).
  destruct (Z.eqb_spec (r_start rs) start) as [El | El], (Z.eqb_spec (r_end rs) end_) as [Er | Er]; cbn [negb andb].
  - rewrite Et, erase_mid by done. res_simpl. eexists. split; [reflexivity |]. split; [apply (leave_ok _ _ _ _ _ _ _ Hi1 Et (i_binv _ _ Hi)); auto |].
    intros x. rewrite <- rest_free. unfold sfree. cbn [fst snd set_range_tree range_tree].
    assert (~ (r_start rs <= x < start \/ end_ <= x < r_end rs)) by lia. tauto.
  - destruct (grow_ok a1 b l rs m (Seg end_ (r_end rs)) Hi1 Et (Hright Er)) as (t & s' & -> & Es & Hg' & Hs).
    { intros x Hx. apply rs_disj. cbn in Hx. lia. }
    res_simpl. exists s'. split; [done |]. split; [done |]. intros x. rewrite Hs, <- rest_free. cbn. assert (~ r_start rs <= x < start) by lia. tauto.
  - destruct (grow_ok a1 b l rs m (Seg (r_start rs) start) Hi1 Et (Hleft El)) as (t & s' & -> & Es & Hg' & Hs).
    { intros x Hx. apply rs_disj. cbn in Hx. lia. }
    res_simpl. exists s'. split; [done |]. split; [done |]. intros x. rewrite Hs, <- rest_free. cbn. assert (~ end_ <= x < r_end rs) by lia. tauto.
  - rewrite Et, next_mid, set_mid by done. res_simpl.
    assert (inv [Seg (r_start rs) start] (set_range_tree (l ++ Seg (r_start rs) start :: m) a1, b)) as Hi2.
    { apply (change_ok _ _ _ _ rs _ _ Hi1 Et (Hleft El)). intros x Hx. apply rs_disj. cbn in Hx. lia. }
    destruct (try_insert_new _ _ _ (l ++ [Seg (r_start rs) start]) m end_ (r_end rs) Hi2) as (ok & [a3 b3] & -> & Hi3 & Hs3).
    { cbn. by rewrite <- (assoc_L (++)). }
    { rewrite <- (assoc_L (++)). cbn [app]. specialize (Hleft El). specialize (Hright Er).
      apply tree_mid in Hleft as (? & ? & ? & ? & ?), Hright as (? & ? & ? & ? & ?). apply tree_mid. split_and!; try done.
      - apply tree_cons. split_and!; done.
      - intros y [-> | Hy]%elem_of_cons; [unfold apart; cbn; lia | auto]. }
    { intros x Hx. apply rs_disj. lia. }
    res_simpl. destruct (try_insert_ok _ _ _ _ Hi3) as (s' & -> & Hg' & Hs). exists s'. split; [done |]. split; [done |].
    intros x. rewrite Hs, Hs3, <- rest_free. unfold sfree. cbn [fst snd set_range_tree range_tree]. rewrite !cov_app, cov_cons. cbn. tauto.
Qed.
End Remove.

Lemma remove_range_ok a b start size : good (a, b) -> 0 < size -> divides_ends start (start + size) ->
  (exists r, r ∈ range_tree a /\ r_start r <= start /\ start + size <= r_end r) ->
  exists s', _remove_from_tree c _spillover_range start size (a, b) = Ok s' /\ removed a b start (start + size) s'.
Proof.
  intros Hi Hs Hg (r & Hr & Hs1 & Hs2). pose proof (i_tree _ _ Hi) as Ht. pose proof (tree_seg _ _ _ _ Ht Hr) as (Hr1 & Hr2 & _). cbn [fst] in Ht.
  unfold _remove_from_tree, ensure. rewrite u64_id by lia. rewrite (proj2 (Z.eqb_neq _ _)) by lia. cbn [negb]. res_simpl.
  assert (size <= num_free a) as Hnf.
  { pose proof (i_num _ _ Hi) as En. pose proof (bytes_perm _ _ (i_perm _ _ Hi)) as Ep. cbn [fst app] in En, Ep. rewrite En, <- Ep.
    apply list_elem_of_split in Hr as (l & m & E). rewrite E in Ht |- *. rewrite bytes_app. cbn [bytes].
    assert (0 <= bytes l /\ 0 <= bytes m); [| lia]. apply tree_mid in Ht as (Hl & _ & Hm & _).
    split; apply bytes_nonneg; intros y Hy; [apply (tree_seg _ _ _ _ Hl Hy) | apply (tree_seg _ _ _ _ Hm Hy)]. }
  rewrite (proj2 (Z.leb_le _ _)) by done. res_simpl. rewrite (find_in _ _ _ r start (start + size) Ht Hr) by lia.
  rewrite !(proj2 (Z.leb_le _ _)) by done. res_simpl. apply list_elem_of_split in Hr as (l & m & E). apply (process_ok a b start (start + size) l r m Hi E); [done | lia | done].
Qed.
End State.
