(* ===== verification/AllocatorRun.v ===== *)
(** * The allocators: allocating, and runs

    The searches of the AVL allocator find ranges that fit; what is allocated is
    free, disjoint and aligned; an allocator in use never hands out a byte twice. *)

From stdpp Require Import base list sorting.
From S2P Require Import Prelude IntervalSet IntervalSetSpec Allocator AllocatorThms.

Local Open Scope Z_scope.

(** ** Searching *)

(** [size] bytes of [r] at an offset that [unit] divides. *)
Definition fits (size unit : Z) (r : range_seg_t) (offset : Z) : Prop := (unit | offset)%Z /\ r_start r <= offset /\ offset + size <= r_end r.

Section Search.
Context (c : avl_conf) (g : Z) (HD : 0 < device_size c <= 2 ^ 62).
Context (k : Z) (Hk : 0 <= k <= 63).

Abbreviation seg_ok := (seg_ok (device_size c) g).

Lemma pow_range : 0 < 2 ^ k <= 2 ^ 63.
Proof. split; [apply Z.pow_pos_nonneg; lia | apply Z.pow_le_mono_r; lia]. Qed.

(** The first offset in a range. *)
Lemma first_offset r size : seg_ok r -> 0 <= size <= 2 ^ 62 ->
  (2 ^ k | p2roundup (r_start r) (2 ^ k))%Z /\ r_start r <= p2roundup (r_start r) (2 ^ k) /\
  u64 (p2roundup (r_start r) (2 ^ k) + size) = p2roundup (r_start r) (2 ^ k) + size /\
  forall o, (2 ^ k | o)%Z -> r_start r <= o -> p2roundup (r_start r) (2 ^ k) <= o.
Proof.
  intros (Hr & He & _) Hs. pose proof pow_range as Hp. destruct (p2roundup_pow (r_start r) k) as (q & -> & Hq); [lia.. |].
  split_and!; [apply Z.divide_factor_r | lia | apply u64_id; lia |].
  intros o [q' ->] Ho. apply Z.mul_le_mono_nonneg_r; [lia |]. apply Z.lt_succ_r, (Z.mul_lt_mono_pos_r (2 ^ k)); lia.
Qed.

Lemma first_fit_test r size : seg_ok r -> 0 <= size <= 2 ^ 62 ->
  (u64 (p2roundup (r_start r) (2 ^ k) + size) <=? r_end r) = true <-> fits size (2 ^ k) r (p2roundup (r_start r) (2 ^ k)).
Proof. intros Hr Hs. destruct (first_offset r size Hr Hs) as (Hd & Hle & -> & _). rewrite Z.leb_le. unfold fits. tauto. Qed.

Lemma no_fit r size : seg_ok r -> 0 <= size <= 2 ^ 62 ->
  (u64 (p2roundup (r_start r) (2 ^ k) + size) <=? r_end r) = false -> forall o, ~ fits size (2 ^ k) r o.
Proof.
  intros Hr Hs. destruct (first_offset r size Hr Hs) as (_ & _ & -> & Hleast). intros Hn%Z.leb_gt o (Hd & Ho & He). specialize (Hleast o Hd Ho). lia.
Qed.

Lemma search_after_found size l : 0 <= size <= 2 ^ 62 -> Forall seg_ok l -> forall first cursor n nb o cursor',
  search_after c first size (2 ^ k) cursor n nb l = (Found o, cursor') -> exists r, r ∈ l /\ fits size (2 ^ k) r o.
Proof.
  intros Hs. induction 1 as [| r l Hr _ IH]; intros first cursor n nb o cursor'; cbn [search_after]; [done |].
  destruct (_ <=? r_end r) eqn:E.
  - intros [= <- _]. exists r. split; [by left | by apply first_fit_test].
  - destruct (_ && _); [done |]. destruct (_ && _); [done |]. intros (r' & Hr' & Hf)%IH. exists r'. split; [by right | done].
Qed.

Lemma search_before_found size l : 0 <= size <= 2 ^ 62 -> Forall seg_ok l -> forall cursor n nb o cursor',
  search_before c size (2 ^ k) cursor n nb l = (Found o, cursor') -> exists r, r ∈ l /\ fits size (2 ^ k) r o.
Proof.
  intros Hs. induction 1 as [| r l Hr _ IH]; intros cursor n nb o cursor'; cbn [search_before]; [done |].
  destruct (_ <=? r_end r) eqn:E.
  - intros [= <- _]. exists r. split; [by left | by apply first_fit_test].
  - destruct (_ && _); [done |]. destruct (_ && _); [done |]. intros (r' & Hr' & Hf)%IH. exists r'. split; [by right | done].
Qed.

Lemma pick_after_found a cursor size o cursor' : Forall seg_ok (range_tree a) -> 0 <= size <= 2 ^ 62 ->
  _pick_block_after c cursor size (2 ^ k) a = (Some o, cursor') -> exists r, r ∈ range_tree a /\ fits size (2 ^ k) r o.
Proof.
  intros Ht Hs. unfold _pick_block_after, lower_bound. pose proof (span_app (fun r => before r (Seg cursor size)) (range_tree a)) as E.
  destruct (span _ _) as [l m]. cbn [fst snd] in E. rewrite E in Ht |- *. apply Forall_app in Ht as [Hl Hm].
  destruct (search_after _ _ _ _ _ _ _ m) as [[o1 | | n1 b1] c1] eqn:E1; [intros [= <- <-] | done |].
  - destruct (search_after_found _ _ Hs Hm _ _ _ _ _ _ E1) as (r & Hr & Hf). exists r. split; [apply elem_of_app; by right | done].
  - destruct (c1 =? 0); [done |]. destruct (search_before _ _ _ _ _ _ l) as [[o2 | |] c2] eqn:E2; [intros [= <- <-] | done | done].
    destruct (search_before_found _ _ Hs Hl _ _ _ _ _ E2) as (r & Hr & Hf). exists r. split; [apply elem_of_app; by left | done].
Qed.

Lemma first_fit_spec size l : 0 <= size <= 2 ^ 62 -> Forall seg_ok l ->
  match first_fit size (2 ^ k) l with
  | Some o => exists r, r ∈ l /\ fits size (2 ^ k) r o
  | None => forall r o, r ∈ l -> ~ fits size (2 ^ k) r o
  end.
Proof.
  intros Hs. induction 1 as [| r l Hr Hl IH]; cbn [first_fit]; [intros r o []%elem_of_nil |]. destruct (_ <=? r_end r) eqn:E.
  - exists r. split; [by left | by apply first_fit_test].
  - destruct (first_fit size (2 ^ k) l) as [o |].
    + destruct IH as (r' & Hr' & Hf). exists r'. split; [by right | done].
    + intros r' o [-> | Hr']%elem_of_cons; [by apply no_fit | auto].
Qed.

Lemma pick_fits_spec a size : Forall seg_ok (range_size_tree a) -> 0 <= size <= 2 ^ 62 ->
  match _pick_block_fits size (2 ^ k) a with
  | Some o => exists r, r ∈ range_size_tree a /\ fits size (2 ^ k) r o
  | None => forall r o, r ∈ range_size_tree a -> ~ fits size (2 ^ k) r o
  end.
Proof.
  intros Ht Hs. unfold _pick_block_fits. pose proof (span_app (fun r => shorter r (Seg 0 size)) (range_size_tree a)) as E.
  pose proof (span_all (fun r => shorter r (Seg 0 size)) (range_size_tree a)) as Hall. destruct (span _ _) as [l m]. cbn [fst snd] in *.
  rewrite E in Ht |- *. apply Forall_app in Ht as [Hl Hm]. pose proof (first_fit_spec size m Hs Hm) as Hf. destruct (first_fit _ _ m) as [o |].
  - destruct Hf as (r & Hr & Hf). exists r. split; [apply elem_of_app; by right | done].
  - intros r o [Hr | Hr]%elem_of_app; [| auto]. specialize (Hall r Hr). rewrite Forall_forall in Hl. specialize (Hl r Hr).
    pose proof (length_ok c g HD r Hl) as El. destruct Hl as (Hl & _). unfold shorter in Hall. rewrite El in Hall.
    assert (r_length (Seg 0 size) = size) as Es by (unfold r_length; cbn; rewrite Z.sub_0_r; apply u64_id; lia). rewrite Es in Hall. cbn in Hall.
    intros (_ & Ho & He). destruct (Z.ltb_spec (r_end r - r_start r) size); [lia |]. destruct (Z.ltb_spec size (r_end r - r_start r)); [done |].
    apply Z.ltb_lt in Hall. lia.
Qed.

(** Smaller and smaller sizes. *)
Lemma fit_smaller_spec a fuel : Forall seg_ok (range_size_tree a) -> (g | 2 ^ k)%Z -> forall size, 0 < size <= 2 ^ 62 -> size < 2 ^ Z.of_nat fuel -> (g | size)%Z ->
  exists found, fit_smaller fuel size (2 ^ k) a = Ok found /\
    match found with
    | Some (o, n) => 0 < n <= size /\ (g | n)%Z /\ ((2 ^ k | size)%Z -> (2 ^ k | n)%Z) /\ exists r, r ∈ range_size_tree a /\ fits n (2 ^ k) r o
    | None => (2 ^ k | size)%Z -> forall r o, r ∈ range_size_tree a -> ~ fits (2 ^ k) (2 ^ k) r o
    end.
Proof.
  intros Ht Hgk. pose proof pow_range as Hp. induction fuel as [| fuel IH]; intros size Hs Hf Hg; [cbn in Hf; lia |]. cbn [fit_smaller].
  pose proof (pick_fits_spec a size Ht ltac:(lia)) as Hpick. destruct (_pick_block_fits size (2 ^ k) a) as [o |].
  { eexists. split; [reflexivity |]. cbn. split_and!; try done; lia. }
  rewrite Z.shiftr_div_pow2 by lia. change (2 ^ 1) with 2. assert (0 <= size / 2 <= size) as Hh by (split; [apply Z.div_pos | apply Z.div_le_upper_bound]; lia).
  rewrite p2align_pow by lia. set (size' := size / 2 / 2 ^ k * 2 ^ k).
  assert (0 <= size' <= size / 2) as Hs'.
  { unfold size'. pose proof (Z.mul_div_le (size / 2) (2 ^ k) ltac:(lia)). pose proof (Z.div_pos (size / 2) (2 ^ k)). nia. }
  destruct (Z.leb_spec (2 ^ k) size') as [Hle | Hgt].
  - rewrite Nat2Z.inj_succ, Z.pow_succ_r in Hf by lia. assert (2 * (size / 2) <= size) by (apply Z.mul_div_le; lia).
    destruct (IH size') as (found & -> & Hfound); [lia | lia | unfold size'; by apply Z.divide_mul_r |].
    assert ((2 ^ k | size')%Z) as Hd by apply Z.divide_factor_r. exists found. split; [done |]. destruct found as [[o n] |]; [| auto].
    destruct Hfound as (? & ? & ? & ?). split_and!; try done; lia || auto.
  - exists None. split; [done |]. intros [q Hq] r o Hr Hfit. assert (q = 1) as ->; [| apply (Hpick r o Hr); rewrite Hq; by rewrite Z.mul_1_l].
    assert (0 < q) by nia. destruct (Z.eq_dec q 1) as [| Hne]; [done |]. exfalso.
    assert (2 ^ k <= size / 2) by (apply Z.div_le_lower_bound; nia). assert (1 <= size / 2 / 2 ^ k) by (apply Z.div_le_lower_bound; lia).
    unfold size' in Hgt. nia.
Qed.
End Search.

(** ** Allocating *)

(** Two extents have no byte in common. *)
Definition disjoint_extents (e e' : Z * Z) : Prop := e.1 + e.2 <= e'.1 \/ e'.1 + e'.2 <= e.1.

Lemma covers_disjoint o n es : 0 < n -> Forall (fun e : Z * Z => 0 < e.2) es -> (forall x, covers es x -> ~ o <= x < o + n) -> Forall (disjoint_extents (o, n)) es.
Proof.
  intros Hn Hes Hc. rewrite Forall_forall in Hes |- *. intros [o' n'] He. specialize (Hes _ He). cbn in Hes. unfold disjoint_extents. cbn.
  destruct (Z.le_gt_cases (o + n) o'); [by left |]. destruct (Z.le_gt_cases (o' + n') o); [by right |]. exfalso.
  apply (Hc (Z.max o o')); [exists o', n'; split; [done | lia] | lia].
Qed.

Section Allocate.
Context (c : avl_conf) (g : Z) {B : Type} (_spillover_range : Z -> Z -> B -> res B) `{!SpillLaws c g _spillover_range}.
Context (HD : 0 < device_size c <= 2 ^ 62) (Hcap : 0 <= range_count_cap c).

Abbreviation good := (inv c g _spillover_range []).
Abbreviation sfree := (sfree c g _spillover_range).
Abbreviation removed := (removed c g _spillover_range).

Section Unit.
Context (k : Z) (Hk : 0 <= k <= 63) (Hgk : (g | 2 ^ k)%Z).

(** Nothing that is aligned and as long as the unit is left. *)
Definition used_up (s : avl * B) : Prop := forall r o, r ∈ range_tree s.1 -> ~ fits (2 ^ k) (2 ^ k) r o.

Definition extent_post (a : avl) (b : B) (size : Z) (found : option (Z * Z)) (s' : avl * B) : Prop :=
  match found with
  | Some (o, n) => 0 < n <= size /\ (2 ^ k | o)%Z /\ (g | n)%Z /\ ((2 ^ k | size)%Z -> (2 ^ k | n)%Z) /\
      (forall x, o <= x < o + n -> cov (range_tree a) x) /\ 0 <= o /\ o + n <= device_size c /\ removed a b o (o + n) s'
  | None => good s' /\ range_tree s'.1 = range_tree a /\ s'.2 = b /\ ((2 ^ k | size)%Z -> used_up s')
  end.

Lemma good_segs a b : good (a, b) -> Forall (seg_ok (device_size c) g) (range_tree a) /\ Forall (seg_ok (device_size c) g) (range_size_tree a).
Proof. intros Hi. pose proof (i_tree _ _ _ _ _ Hi) as [Ht _]. split; [done |]. by rewrite <- (i_perm _ _ _ _ _ Hi). Qed.

Lemma largest_spec a b : good (a, b) -> 0 <= largest a <= device_size c /\ forall r, r ∈ range_tree a -> r_end r - r_start r <= largest a.
Proof.
  intros Hi. destruct (good_segs a b Hi) as [Ht Hs]. pose proof (i_sized _ _ _ _ _ Hi) as Hsort. pose proof (i_perm _ _ _ _ _ Hi) as Hp. cbn [fst app] in *.
  unfold largest. destruct (last (range_size_tree a)) as [x |] eqn:E.
  - apply last_Some in E as [l E]. rewrite E in *. apply Forall_app in Hs as [Hl Hx]. apply Forall_cons in Hx as [Hx _]. rewrite (length_ok c g HD x Hx).
    split; [destruct Hx as (? & ? & _); lia |]. intros r Hr. rewrite Hp in Hr. apply elem_of_app in Hr as [Hr | Hr%list_elem_of_singleton]; [| by subst].
    apply StronglySorted_app in Hsort as (Hsort & _ & _). specialize (Hsort r x Hr ltac:(by left)). unfold not_longer in Hsort.
    rewrite Forall_forall in Hl. rewrite !(length_ok c g HD) in Hsort by auto. done.
  - apply last_None in E. rewrite E in Hp. apply Permutation_nil_r in Hp. rewrite Hp. split; [lia |]. intros r []%elem_of_nil.
Qed.

Lemma set_lbas_good a b lb : good (a, b) -> length lb = MAX_LBAS -> good (Avl (range_tree a) (range_size_tree a) (num_free a) lb, b).
Proof. intros [] Hl. by split. Qed.

Lemma cursor_pick_ok a b size : good (a, b) -> 0 < size <= 2 ^ 62 ->
  exists start a', cursor_pick c size (2 ^ k) a = Ok (start, a') /\ good (a', b) /\ range_tree a' = range_tree a /\
    forall o, start = Some o -> exists r, r ∈ range_tree a /\ fits size (2 ^ k) r o.
Proof.
  intros Hi Hs. unfold cursor_pick, ensure. destruct (low_bit_index size ltac:(lia)) as [Hn Hidx]. set (align := Z.land size _) in *.
  rewrite (proj2 (Z.eqb_neq _ _)) by done. cbn [negb]. res_simpl. pose proof (i_lbas _ _ _ _ _ Hi) as Hlb. cbn [fst] in Hlb.
  assert (zlen (lbas a) = 64) as Hz by (unfold zlen; by rewrite Hlb). destruct (rd_in_range (lbas a) (cbits64 align - 1)) as [cur ->]; [lia |]. res_simpl.
  destruct (_pick_block_after c cur size (2 ^ k) a) as [start cur'] eqn:E.
  assert (wr (lbas a) (cbits64 align - 1) cur' = Ok (<[Z.to_nat (cbits64 align - 1) := cur']> (lbas a))) as -> by (apply wr_Ok; split; [lia | done]). res_simpl.
  eexists _, _. split; [reflexivity |]. split; [apply set_lbas_good; [done | by rewrite length_insert] |]. split; [done |].
  intros o ->. destruct (good_segs a b Hi) as [Ht _]. apply (pick_after_found c g HD k Hk a cur size o cur'); [done | lia | done].
Qed.

Lemma take_ok a a' b o n size : good (a', b) -> range_tree a' = range_tree a -> 0 < n <= size -> (g | n)%Z -> ((2 ^ k | size)%Z -> (2 ^ k | n)%Z) ->
  (exists r, r ∈ range_tree a /\ fits n (2 ^ k) r o) ->
  exists s', _remove_from_tree c _spillover_range o n (a', b) = Ok s' /\ extent_post a b size (Some (o, n)) s'.
Proof.
  intros Hi Et Hn Hg Hdiv (r & Hr & Hd & Ho & He). assert ((g | o)%Z) as Hgo by (etransitivity; [exact Hgk | done]).
  destruct (remove_range_ok c g _spillover_range HD Hcap a' b o n Hi) as (s' & Es & [Hg' Hs']); [lia | split; [done | by apply Z.divide_add_r] | exists r; by rewrite Et |].
  exists s'. split; [done |]. cbn. pose proof (good_segs _ _ Hi) as [Ht _]. rewrite Et, Forall_forall in Ht. destruct (Ht r Hr) as (? & ? & _).
  split_and!; try done; try lia.
  - intros x Hx. exists r. split; [done | lia].
  - split; [done |]. intros x. rewrite Hs'. unfold AllocatorThms.sfree. cbn [fst]. by rewrite Et.
Qed.

Lemma extent_spec a b size : good (a, b) -> 0 < size < 2 ^ 63 -> (g | size)%Z ->
  exists found s', _allocate_extent c _spillover_range size (2 ^ k) (a, b) = Ok (found, s') /\ extent_post a b size found s'.
Proof.
  intros Hi Hs Hg. pose proof (pow_range k Hk) as Hp. destruct (largest_spec a b Hi) as [Hmax Hlong]. unfold _allocate_extent.
  destruct ((largest a <? size) && (largest a <? 2 ^ k)) eqn:Enone.
  { apply andb_true_iff in Enone as [_ Hlt%Z.ltb_lt]. eexists None, _. split; [reflexivity |]. cbn. split_and!; try done. intros _ r o Hr (_ & ? & ?).
    specialize (Hlong r Hr). lia. }
  set (size' := if largest a <? size then p2align (largest a) (2 ^ k) else size).
  assert (0 < size' <= 2 ^ 62 /\ size' <= size /\ (g | size')%Z /\ ((2 ^ k | size)%Z -> (2 ^ k | size')%Z)) as (Hs' & Hle & Hg' & Hd').
  { unfold size'. destruct (Z.ltb_spec (largest a) size) as [Hlt | Hge]; cbn [andb] in Enone; [| split_and!; try done; lia].
    apply Z.ltb_ge in Enone. rewrite p2align_pow by lia. assert (1 <= largest a / 2 ^ k) by (apply Z.div_le_lower_bound; lia).
    pose proof (Z.mul_div_le (largest a) (2 ^ k) ltac:(lia)). split_and!; [nia | nia | nia | by apply Z.divide_mul_r | intros _; apply Z.divide_factor_r]. }
  unfold ensure. rewrite (proj2 (Z.ltb_lt 0 size')) by lia. rewrite orb_true_r. res_simpl.
  set (choice := if _ || _ || _ then _ else _).
  assert (exists start a', choice = Ok (start, a') /\ good (a', b) /\ range_tree a' = range_tree a /\
    forall o, start = Some o -> exists r, r ∈ range_tree a /\ fits size' (2 ^ k) r o) as (start & a' & -> & Hi' & Et & Hstart).
  { unfold choice. destruct (_ || _ || _); [by eexists None, a |]. by apply cursor_pick_ok. }
  res_simpl. destruct start as [o |].
  - res_simpl. destruct (take_ok a a' b o size' size Hi' Et) as (s' & -> & Hpost); [lia | done | done | by apply Hstart |]. res_simpl. eauto.
  - destruct (good_segs a' b Hi') as [_ Hst].
    destruct (fit_smaller_spec c g HD k Hk a' 65 Hst Hgk size' ltac:(lia) ltac:(cbn; lia) Hg') as (found & -> & Hfound). res_simpl.
    pose proof (i_perm _ _ _ _ _ Hi') as Hperm. cbn [fst app] in Hperm. destruct found as [[o n] |].
    + destruct Hfound as (Hn & Hgn & Hdn & r & Hr & Hfit). destruct (take_ok a a' b o n size Hi' Et) as (s' & -> & Hpost); [lia | done | auto | | ].
      { exists r. split; [by rewrite <- Et, Hperm | done]. }
      res_simpl. eauto.
    + eexists None, _. split; [reflexivity |]. cbn. split_and!; try done. intros Hd r o Hr. cbn in Hr. rewrite Hperm in Hr. by apply Hfound; [apply Hd' |].
Qed.

(** What is allocated was free, once. *)
Record alloc_post (s : avl * B) (lim : Z) (es : list (Z * Z)) (s' : avl * B) : Prop := {
  ap_good : good s';
  ap_free : forall x, sfree s' x <-> sfree s x /\ ~ covers es x;
  ap_was : forall x, covers es x -> sfree s x;
  ap_disj : StronglySorted disjoint_extents es;
  ap_each : Forall (fun e => 0 < e.2 <= lim /\ (2 ^ k | e.1)%Z /\ (g | e.2)%Z /\ 0 <= e.1 /\ e.1 + e.2 <= device_size c) es
}.

Lemma post_nil s lim : good s -> alloc_post s lim [] s.
Proof.
  intros Hi. split; [done | | | constructor | constructor].
  - intros x. pose proof (covers_nil x). tauto.
  - intros x []%covers_nil.
Qed.

Lemma post_cons a b lim size o n s1 es s' : 0 < size <= lim -> extent_post a b size (Some (o, n)) s1 -> alloc_post s1 lim es s' ->
  alloc_post (a, b) lim ((o, n) :: es) s'.
Proof.
  intros Hsz (Hn & Hd & Hg & _ & Hc & Ho & He & Hg1 & Hf1) [Hg' Hf' Hw' Hdis Hall]. split; [done | | | |].
  - intros x. rewrite Hf', Hf1, covers_cons. cbn [fst snd]. tauto.
  - intros x [Hx | Hx]%covers_cons; [left; by apply Hc |]. by apply Hw', Hf1 in Hx as [? _].
  - constructor; [done |]. apply covers_disjoint; [lia | eapply Forall_impl; [exact Hall |]; cbn; lia |]. intros x Hx. by apply Hw', Hf1 in Hx as [_ ?].
  - constructor; [| done]. cbn [fst snd]. split_and!; try done; lia.
Qed.

Section Loop.
Context (want lim : Z) (Hwant : 0 < want < 2 ^ 63) (Hlim : 0 < lim < 2 ^ 32) (Hglim : (g | lim)%Z) (Hgwant : (g | want)%Z).

Lemma loop_spec fuel : forall allocated es0 s, good s -> 0 <= allocated <= want -> want - allocated < Z.of_nat fuel -> (g | allocated)%Z ->
  exists es s', allocate_loop c _spillover_range fuel want (2 ^ k) lim allocated es0 s = Ok (allocated + total es, es0 ++ es, s') /\
    allocated + total es <= want /\ alloc_post s lim es s' /\
    ((2 ^ k | lim)%Z -> (2 ^ k | want - allocated)%Z -> Forall (fun e => (2 ^ k | e.2)%Z) es /\ (allocated + total es < want -> used_up s')).
Proof.
  induction fuel as [| fuel IH]; intros A es0 [a b] Hi HA Hf HgA; [lia |]. cbn [allocate_loop]. destruct (Z.leb_spec want A) as [Hge | Hlt].
  { exists [], (a, b). cbn [total]. rewrite Z.add_0_r, app_nil_r. split_and!; [done | lia | by apply post_nil |]. intros _ _. split; [constructor | lia]. }
  rewrite (u64_id (want - A)) by lia. set (size := Z.min lim (want - A)). assert (0 < size <= lim /\ size <= want - A) as [Hsz Hsw] by lia.
  assert ((g | size)%Z) as Hgs by (unfold size; destruct (Z.min_spec lim (want - A)) as [[_ ->] | [_ ->]]; [done | by apply Z.divide_sub_r]).
  destruct (extent_spec a b size Hi ltac:(lia) Hgs) as (found & [a1 b1] & -> & Hpost). res_simpl. destruct found as [[o n] |].
  - pose proof Hpost as (Hn & _ & Hgn & Hdn & _ & _ & _ & Hg1 & _). cbn [fst snd]. unfold u32. rewrite (Z.mod_small n), (u64_id (A + n)) by lia.
    destruct (IH (A + n) (es0 ++ [(o, n)]) (a1, b1) Hg1) as (es & s' & -> & Htot & Hes & Hdiv); [lia | lia | by apply Z.divide_add_r |].
    exists ((o, n) :: es), s'. cbn [total]. rewrite <- (assoc_L (++)). split_and!; [f_equal; f_equal; f_equal; lia | lia | by eapply post_cons |].
    intros Hl Hw. assert ((2 ^ k | size)%Z) as Hs by (unfold size; by destruct (Z.min_spec lim (want - A)) as [[_ ->] | [_ ->]]).
    specialize (Hdn Hs). destruct (Hdiv Hl) as [Hall Hend]; [replace (want - (A + n)) with (want - A - n) by lia; by apply Z.divide_sub_r |].
    split; [by constructor |]. intros Hr. apply Hend. lia.
  - destruct Hpost as (Hg1 & Et & Eb & Hup). exists [], (a1, b1). cbn [total] in *. rewrite Z.add_0_r, app_nil_r. cbn in Et, Eb. subst b1. split_and!; [done | lia | |].
    + split; [done | | intros x []%covers_nil | constructor | constructor]. intros x. unfold AllocatorThms.sfree. cbn [fst snd]. rewrite Et. pose proof (covers_nil x). tauto.
    + intros Hl Hw. split; [constructor |]. intros _. apply Hup. unfold size. by destruct (Z.min_spec lim (want - A)) as [[_ ->] | [_ ->]].
Qed.

(** The result: what was allocated, or that there is no space. *)
Definition result_of (r : Z) (es : list (Z * Z)) : Prop := r = total es /\ 0 < r <= want \/ r = - ENOSPC /\ es = [].

Lemma total_pos es : Forall (fun e : Z * Z => 0 < e.2) es -> 0 <= total es /\ (total es = 0 -> es = []).
Proof. induction 1 as [| [o n] es He _ IH]; cbn [total]; [done |]. cbn in He. split; [lia |]. lia. Qed.

Lemma allocate_spec s : good s ->
  exists r es s', _allocate c _spillover_range want (2 ^ k) lim s = Ok (r, es, s') /\ result_of r es /\ alloc_post s lim es s' /\
    ((2 ^ k | lim)%Z -> (2 ^ k | want)%Z -> Forall (fun e => (2 ^ k | e.2)%Z) es /\ (r < want -> used_up s')).
Proof.
  intros Hi. unfold _allocate. destruct (loop_spec (S (Z.to_nat want)) 0 [] s Hi) as (es & s' & -> & Htot & Hes & Hdiv); [lia | lia | apply Z.divide_0_r |].
  res_simpl. rewrite Z.add_0_l in *. cbn [app]. eexists _, es, s'. split; [reflexivity |].
  assert (Forall (fun e : Z * Z => 0 < e.2) es) as Hpos by (eapply Forall_impl; [apply Hes |]; cbn; lia). destruct (total_pos es Hpos) as [H0 Hz].
  split; [| split; [done |]].
  - unfold result_of. destruct (Z.eqb_spec (total es) 0) as [E | E]; [right; auto | left; split; [done | lia]].
  - intros Hl Hw. destruct (Hdiv Hl) as [Hall Hend]; [by rewrite Z.sub_0_r |]. split; [done |]. rewrite Z.sub_0_r in *. intros Hr. apply Hend.
    destruct (Z.eqb_spec (total es) 0) as [E | E]; [lia | done].
Qed.
End Loop.

Lemma alloc_post_app s lim es1 s1 es2 s2 : alloc_post s lim es1 s1 -> alloc_post s1 lim es2 s2 -> alloc_post s lim (es1 ++ es2) s2.
Proof.
  intros [Hg1 Hf1 Hw1 Hd1 He1] [Hg2 Hf2 Hw2 Hd2 He2]. split; [done | | | |].
  - intros x. rewrite Hf2, Hf1, covers_app. tauto.
  - intros x [Hx | Hx]%covers_app; [auto |]. by apply Hw2, Hf1 in Hx as [? _].
  - apply StronglySorted_app. split_and!; [| done | done]. intros [o n] e Ho He. assert (Forall (fun e : Z * Z => 0 < e.2) es2) as Hp2 by (eapply Forall_impl; [exact He2 |]; cbn; lia).
    rewrite Forall_forall in He1. specialize (He1 _ Ho). cbn in He1.
    assert (Forall (disjoint_extents (o, n)) es2) as Hall; [| rewrite Forall_forall in Hall; auto].
    apply covers_disjoint; [lia | done |]. intros x Hx Hox. apply Hw2, Hf1 in Hx as [_ Hx]. apply Hx. exists o, n. done.
  - by apply Forall_app.
Qed.
End Unit.
End Allocate.

(** ** Releasing *)

Section Release.
Context (c : avl_conf) (g : Z) {B : Type} (_spillover_range : Z -> Z -> B -> res B) `{!SpillLaws c g _spillover_range}.
Context (HD : 0 < device_size c <= 2 ^ 62).

Abbreviation good := (inv c g _spillover_range []).
Abbreviation sfree := (sfree c g _spillover_range).

(** What [_add_to_tree] does. *)
Definition add_spec (add : Z -> Z -> avl * B -> res (avl * B)) : Prop :=
  forall o n s, good s -> 0 <= o -> 0 < n -> o + n <= device_size c -> divides_ends g o (o + n) -> (forall x, o <= x < o + n -> ~ sfree s x) ->
  exists s', add o n s = Ok s' /\ good s' /\ forall x, sfree s' x <-> sfree s x \/ o <= x < o + n.

Lemma release_ok add m : add_spec add -> forall lo s, good s -> 0 <= lo -> runs_from lo m ->
  Forall (fun e => e.1 + e.2 <= device_size c /\ divides_ends g e.1 (e.1 + e.2)) m -> (forall x, covers m x -> ~ sfree s x) ->
  exists s', release_map c add m s = Ok s' /\ good s' /\ forall x, sfree s' x <-> sfree s x \/ covers m x.
Proof.
  intros Hadd. induction m as [| [o n] m IH]; intros lo s Hi Hlo; cbn [release_map runs_from].
  - intros _ _ _. exists s. split_and!; try done. intros x. pose proof (covers_nil x). tauto.
  - intros (Hle & Hn & Hend & Hruns) [[HDe Hg] Hall]%Forall_cons Hd. cbn [fst snd] in *. unfold ensure.
    rewrite (u64_id (o + n)), (u64_id (device_size c)), (proj2 (Z.leb_le _ _)) by lia. res_simpl.
    destruct (Hadd o n s Hi) as (s1 & -> & Hi1 & Hs1); [lia.. | done | intros x Hx; apply Hd, covers_cons; by left |]. res_simpl.
    destruct (IH (o + n + 1) s1 Hi1) as (s' & Es & Hi' & Hs'); [lia | done | done | | exists s'; split_and!; try done].
    + intros x Hx [Hf | Hf]%Hs1; [apply (Hd x); [apply covers_cons; by right | done] |]. destruct (runs_from_covers _ _ _ Hruns Hx). lia.
    + intros x. rewrite Hs', Hs1, covers_cons. cbn. tauto.
Qed.
End Release.

(** ** Free bytes *)

#[export] Instance cov_dec t x : Decision (cov t x).
Proof. apply list_exist_dec. intros r. apply _. Defined.

Lemma count_disjoint (P Q : Z -> Prop) `{!forall x, Decision (P x), !forall x, Decision (Q x), !forall x, Decision (P x \/ Q x)} l :
  (forall x, P x -> ~ Q x) -> length (filter (fun x => P x \/ Q x) l) = (length (filter P l) + length (filter Q l))%nat.
Proof.
  intros Hd. induction l as [| x l IH]; [done |]. rewrite !filter_cons. specialize (Hd x).
  destruct (decide (P x \/ Q x)), (decide (P x)), (decide (Q x)); cbn [length]; try tauto; lia.
Qed.

Lemma count_none (P : Z -> Prop) `{!forall x, Decision (P x)} l : (forall x, x ∈ l -> ~ P x) -> length (filter P l) = 0%nat.
Proof. intros Hno. induction l as [| x l IH]; [done |]. rewrite filter_cons_False by (apply Hno; by left). apply IH. intros y Hy. apply Hno. by right. Qed.

Lemma count_range s e D : 0 <= s <= e -> e <= D -> Z.of_nat (length (filter (fun x => s <= x < e) (seqZ 0 D))) = e - s.
Proof.
  intros Hs He. replace D with (s + ((e - s) + (D - e))) by lia. rewrite !seqZ_app, !filter_app, !length_app by lia.
  rewrite (count_none _ (seqZ 0 s)), (count_none _ (seqZ (_ + (e - s)) _)) by (intros x Hx%elem_of_seqZ; lia).
  rewrite filter_all by (intros x Hx%elem_of_seqZ; lia). rewrite length_seqZ. lia.
Qed.

Lemma bytes_count D g t : tree_ok D g t -> bytes t = Z.of_nat (length (filter (cov t) (seqZ 0 D))).
Proof.
  induction t as [| r t IH]; intros Ht; cbn [bytes].
  - by rewrite count_none by (intros x _; apply cov_nil).
  - pose proof (mid_cov D g [] r t) as Hmid. cbn [app] in Hmid. pose proof Ht as ((Hr & HrD & _) & Ht' & _)%tree_cons.
    assert (filter (cov (r :: t)) (seqZ 0 D) = filter (fun x => r_start r <= x < r_end r \/ cov t x) (seqZ 0 D)) as ->
      by (apply list_filter_iff; intros x; by rewrite cov_cons).
    rewrite (count_disjoint (fun x => r_start r <= x < r_end r) (cov t)), Nat2Z.inj_add, count_range, <- IH by (done || lia || (intros x Hx; by apply Hmid)). done.
Qed.

(** ** Requests *)

(** A configuration whose blocks are a power of two. *)
Definition conf_ok (c : avl_conf) : Prop := 0 < device_size c <= 2 ^ 62 /\ exists j, 0 <= j < 32 /\ block_size c = 2 ^ j.

Definition request_ok (want unit max_alloc_size : Z) : Prop :=
  0 < want < 2 ^ 63 /\ 0 <= unit < 2 ^ 64 /\ has_single_bit unit = true /\ want mod unit = 0 /\ 0 <= max_alloc_size < 2 ^ 64.

Lemma request_unit want unit max_alloc_size : request_ok want unit max_alloc_size -> exists k, unit = 2 ^ k /\ 0 <= k <= 63 /\ (unit | want)%Z.
Proof.
  intros (Hw & Hu & Hb & Hm & _). destruct (single_bit_pow unit Hu Hb) as (k & -> & Hk). exists k. split; [done |]. split; [lia |].
  apply Z.mod_divide; [| done]. pose proof (Z.pow_pos_nonneg 2 k). lia.
Qed.

Lemma limit_range c want unit max_alloc_size : conf_ok c -> request_ok want unit max_alloc_size -> 0 < extent_limit c want max_alloc_size < 2 ^ 32.
Proof.
  intros [_ (j & Hj & Eb)] (Hw & _ & _ & _ & Hm). unfold extent_limit. set (m := if max_alloc_size =? 0 then want else max_alloc_size).
  assert (0 < m) by (unfold m; destruct (Z.eqb_spec max_alloc_size 0); lia). destruct (Z.leb_spec (2 ^ 32 - 1) m); [| lia].
  rewrite Eb, p2align_pow by lia. assert (0 < 2 ^ j <= 2 ^ 31) as Hp by (split; [apply Z.pow_pos_nonneg | apply Z.pow_le_mono_r]; lia).
  assert (1 <= (2 ^ 32 - 1) / 2 ^ j) by (apply Z.div_le_lower_bound; lia). pose proof (Z.mul_div_le (2 ^ 32 - 1) (2 ^ j) ltac:(lia)). nia.
Qed.

(** Free bytes that follow each other are in one range. *)
Lemma contiguous D g t o n : tree_ok D g t -> 0 < n -> (forall x, o <= x < o + n -> cov t x) -> exists r, r ∈ t /\ r_start r <= o /\ o + n <= r_end r.
Proof.
  intros Ht Hn Hc. destruct (Hc o ltac:(lia)) as (r & Hr & Ho). exists r. split_and!; [done | lia |].
  destruct (Z.le_gt_cases (o + n) (r_end r)) as [| Hgt]; [done |]. exfalso. destruct (Hc (r_end r) ltac:(lia)) as (r' & Hr' & Ho').
  apply list_elem_of_split in Hr as (l & m & ->). apply tree_mid in Ht as (_ & _ & _ & Hl & Hm).
  apply elem_of_app in Hr' as [Hr' | [-> | Hr']%elem_of_cons]; [specialize (Hl r' Hr') | lia | specialize (Hm r' Hr')]; unfold apart in *; lia.
Qed.

(** ** The AVL allocator *)

Section AvlRun.
Context (c : avl_conf) (Hc : conf_ok c) (Hcap : range_count_cap c = 0).

(** Nothing is ever handed over. *)
#[local] Instance avl_laws : SpillLaws c 1 avl_spillover_range.
Proof. refine {| bfree := fun _ _ => False; binv := fun _ => True |}. done. Defined.

(** A run: the allocator is given free [space], and clients hold some of it. *)
Inductive avl_run : avl * unit -> (Z -> Prop) -> (Z -> Prop) -> Prop :=
  | run_new : avl_run (avl_new, tt) (fun _ => False) (fun _ => False)
  | run_add s space held o n s' : avl_run s space held -> 0 <= o -> 0 < n -> o + n <= device_size c -> (forall x, o <= x < o + n -> ~ space x) ->
      init_add_free c (avl_add_to_tree c) o n s = Ok s' -> avl_run s' (fun x => space x \/ o <= x < o + n) held
  | run_rm s space held o n s' : avl_run s space held -> 0 < n -> (forall x, o <= x < o + n -> space x /\ ~ held x) ->
      init_rm_free c avl_spillover_range o n s = Ok s' -> avl_run s' space (fun x => held x \/ o <= x < o + n)
  | run_allocate s space held want unit max_alloc_size r es s' : avl_run s space held -> request_ok want unit max_alloc_size ->
      allocate c avl_spillover_range want unit max_alloc_size s = Ok (r, es, s') -> avl_run s' space (fun x => held x \/ covers es x)
  | run_release s space held set s' : avl_run s space held -> iset_ok set -> (forall x, x ∈ set -> held x) ->
      release c (avl_add_to_tree c) set s = Ok s' -> avl_run s' space (fun x => held x /\ ~ x ∈ set).

Abbreviation good := (inv c 1 avl_spillover_range []).

Lemma avl_sfree s x : sfree c 1 avl_spillover_range s x <-> cov (range_tree s.1) x.
Proof. unfold sfree. cbn. tauto. Qed.

Lemma avl_add_spec : add_spec c 1 avl_spillover_range (avl_add_to_tree c).
Proof.
  intros o n [a []] Hi Ho Hn HD Hg Hd. destruct (add_ok c 1 avl_spillover_range (proj1 Hc) ltac:(lia) a tt o n Hi Ho Hn HD Hg Hd) as (s' & E & Hg' & Hs).
  by exists s'.
Qed.

Lemma one_divides o n : divides_ends 1 o n.
Proof. split; apply Z.divide_1_l. Qed.

Lemma avl_allocate_ok s want unit max_alloc_size : good s -> request_ok want unit max_alloc_size ->
  exists k r es s', unit = 2 ^ k /\ allocate c avl_spillover_range want unit max_alloc_size s = Ok (r, es, s') /\ result_of want r es /\
    alloc_post c 1 avl_spillover_range k s (extent_limit c want max_alloc_size) es s' /\
    ((unit | extent_limit c want max_alloc_size)%Z -> Forall (fun e => (unit | e.2)%Z) es /\ (r < want -> used_up k s')).
Proof.
  intros Hi Hr. destruct (request_unit _ _ _ Hr) as (k & Eu & Hk & Hd). pose proof (limit_range c _ _ _ Hc Hr) as Hlim. pose proof Hr as (Hw & _ & Hb & Hm & _).
  unfold allocate, ensure. rewrite Hb, (proj2 (Z.eqb_eq _ _) Hm). res_simpl. subst unit.
  destruct (allocate_spec c 1 avl_spillover_range (proj1 Hc) ltac:(lia) k Hk (Z.divide_1_l _) want _ Hw Hlim (Z.divide_1_l _) (Z.divide_1_l _) s Hi)
    as (r & es & s' & E & Hres & Hpost & Hdiv). exists k, r, es, s'. split_and!; auto.
Qed.

(** What a run keeps. *)
Lemma run_inv s space held : avl_run s space held ->
  good s /\ (forall x, cov (range_tree s.1) x <-> space x /\ ~ held x) /\ (forall x, held x -> space x) /\ (forall x, space x -> 0 <= x < device_size c).
Proof.
  induction 1 as [| s space held o n s' _ (Hi & Hf & Hh & Hsp) Ho Hn HD Hd E | s space held o n s' _ (Hi & Hf & Hh & Hsp) Hn Hd E
    | s space held want unit max r es s' _ (Hi & Hf & Hh & Hsp) Hr E | s space held set s' _ (Hi & Hf & Hh & Hsp) [Hruns _] Hd E].
  - split_and!; [| intros x; cbn; pose proof (cov_nil x); tauto | done | done]. split; try done; cbn [avl_new fst range_tree range_size_tree]; [split; constructor | constructor | intros x []%cov_nil].
  - unfold init_add_free, ensure in E. rewrite (proj2 (Z.eqb_neq _ _)), !u64_id, (proj2 (Z.leb_le _ _)) in E by (destruct Hc; lia). cbn in E.
    destruct (avl_add_spec o n s Hi Ho Hn HD (one_divides _ _)) as (s1 & E1 & Hi1 & Hs1); [intros x Hx Hfx; apply avl_sfree, Hf in Hfx; apply (Hd x Hx); tauto |].
    rewrite E1 in E. injection E as <-. split_and!; [done | | auto | intros x [? | ?]; [auto | lia]].
    intros x. specialize (Hs1 x). rewrite !avl_sfree, Hf in Hs1. rewrite Hs1. specialize (Hd x). specialize (Hh x). tauto.
  - assert (exists r, r ∈ range_tree s.1 /\ r_start r <= o /\ o + n <= r_end r) as Hex.
    { apply (contiguous (device_size c) 1); [apply Hi | done |]. intros x Hx. by apply Hf, Hd. }
    pose proof (Hsp o ltac:(apply Hd; lia)). pose proof (Hsp (o + n - 1) (proj1 (Hd (o + n - 1) ltac:(lia)))).
    unfold init_rm_free, ensure in E. rewrite (proj2 (Z.eqb_neq _ _)), !u64_id, (proj2 (Z.leb_le _ _)) in E by (destruct Hc; lia). cbn in E. destruct s as [a []].
    destruct (remove_range_ok c 1 avl_spillover_range (proj1 Hc) ltac:(lia) a tt o n Hi Hn (one_divides _ _) Hex) as (s1 & E1 & Hi1 & Hs1). rewrite E1 in E. injection E as <-.
    split_and!; [done | | intros x [? | Hx]; [auto | by apply Hd] | done]. intros x. specialize (Hs1 x). rewrite !avl_sfree, Hf in Hs1. rewrite Hs1. tauto.
  - destruct (avl_allocate_ok s want unit max Hi Hr) as (k & r1 & es1 & s1 & _ & E1 & _ & [Hi1 Hs1 Hw1 _ _] & _). rewrite E1 in E. injection E as <- <- <-.
    split_and!; [done | | | done].
    + intros x. specialize (Hs1 x). rewrite !avl_sfree, Hf in Hs1. rewrite Hs1. tauto.
    + intros x [Hx | Hx]; [auto |]. apply Hw1, avl_sfree, Hf in Hx. tauto.
  - destruct (release_ok c 1 avl_spillover_range (proj1 Hc) (avl_add_to_tree c) (is_m set) avl_add_spec 0 s Hi) as (s1 & E1 & Hi1 & Hs1); [done | done | | |].
    + rewrite Forall_forall. intros [o n] He. split; [| apply one_divides]. cbn. destruct (runs_from_elem _ _ _ _ Hruns He) as (? & ? & _).
      assert ((o + n - 1) ∈ set) as Hx by (exists o, n; split; [done | lia]). apply Hd, Hh, Hsp in Hx. lia.
    + intros x Hx Hfx. apply avl_sfree, Hf in Hfx. apply Hfx, Hd, Hx.
    + unfold release in E. rewrite E1 in E. injection E as <-. split_and!; [done | | intros x [? _]; auto | done].
      intros x. specialize (Hs1 x). rewrite !avl_sfree, Hf in Hs1. rewrite Hs1. specialize (Hd x). specialize (Hh x). change (covers (is_m set) x) with (x ∈ set) in *.
      destruct (covers_dec (is_m set) x) as [Hx | Hx]; change (covers (is_m set) x) with (x ∈ set) in Hx; tauto.
Qed.

Lemma avl_free_count s : good s -> num_free s.1 = Z.of_nat (length (filter (cov (range_tree s.1)) (seqZ 0 (device_size c)))).
Proof.
  intros Hi. rewrite (i_num _ _ _ _ _ Hi), <- (bytes_count _ _ _ (i_tree _ _ _ _ _ Hi)). symmetry. apply bytes_perm. apply Hi.
Qed.

(** C17. no byte is allocated twice.  Whatever clients have allocated and released
    (only what they hold), every request is served without a failing assertion:
    the extents are disjoint, aligned, inside the device and nobody holds a byte
    of them; the result is their total length, at most what was wanted, or
    -ENOSPC and no extent.  What is released is taken back, and the free bytes
    the allocator reports are the bytes that nobody holds. *)
Theorem avl_never_allocates_twice s space held : avl_run s space held ->
  (forall want unit max_alloc_size, request_ok want unit max_alloc_size ->
    exists r es s', allocate c avl_spillover_range want unit max_alloc_size s = Ok (r, es, s') /\
      (forall x, covers es x -> space x /\ ~ held x) /\ StronglySorted disjoint_extents es /\
      Forall (fun e => (unit | e.1)%Z /\ 0 < e.2 < 2 ^ 32 /\ 0 <= e.1 /\ e.1 + e.2 <= device_size c) es /\
      (r = total es /\ 0 < r <= want \/ r = - ENOSPC /\ es = [])) /\
  (forall set, iset_ok set -> (forall x, x ∈ set -> held x) -> exists s', release c (avl_add_to_tree c) set s = Ok s') /\
  (forall x, cov (range_tree s.1) x <-> space x /\ ~ held x) /\
  num_free s.1 = Z.of_nat (length (filter (cov (range_tree s.1)) (seqZ 0 (device_size c)))).
Proof.
  intros (Hi & Hf & Hh & Hsp)%run_inv. split_and!; [| | done | by apply avl_free_count].
  - intros want unit max Hr. destruct (avl_allocate_ok s want unit max Hi Hr) as (k & r & es & s' & -> & E & Hres & [_ _ Hw Hd Hall] & _).
    pose proof (limit_range c _ _ _ Hc Hr). exists r, es, s'. split_and!; try done.
    + intros x Hx. by apply Hf, avl_sfree, Hw.
    + eapply Forall_impl; [exact Hall |]. cbn. intros e (? & ? & _ & ? & ?). split_and!; try done; lia.
  - intros set [Hruns _] Hd.
    destruct (release_ok c 1 avl_spillover_range (proj1 Hc) (avl_add_to_tree c) (is_m set) avl_add_spec 0 s Hi) as (s1 & E1 & _); [done | done | | | by exists s1].
    + rewrite Forall_forall. intros [o n] He. split; [| apply one_divides]. cbn. destruct (runs_from_elem _ _ _ _ Hruns He) as (? & ? & _).
      assert ((o + n - 1) ∈ set) as Hx by (exists o, n; split; [done | lia]). apply Hd, Hh, Hsp in Hx. lia.
    + intros x Hx Hfx. apply avl_sfree, Hf in Hfx. apply Hfx, Hd, Hx.
Qed.

(** C18. an allocation falls short only when nothing suitable is left.  When the
    unit divides the largest extent that may be allocated, the extents are made
    of whole units, and if less than wanted is allocated there is no aligned unit
    left all of whose bytes are free. *)
Theorem avl_allocates_what_there_is s space held want unit max_alloc_size r es s' : avl_run s space held -> request_ok want unit max_alloc_size ->
  (unit | extent_limit c want max_alloc_size)%Z -> allocate c avl_spillover_range want unit max_alloc_size s = Ok (r, es, s') ->
  Forall (fun e => (unit | e.2)%Z) es /\
  (r < want -> forall o, (unit | o)%Z -> ~ forall x, o <= x < o + unit -> space x /\ ~ held x /\ ~ covers es x).
Proof.
  intros (Hi & Hf & _)%run_inv Hr Hlim E. destruct (avl_allocate_ok s want unit max_alloc_size Hi Hr) as (k & r1 & es1 & s1 & -> & E1 & _ & [Hi1 Hs1 _ _ _] & Hdiv).
  rewrite E1 in E. injection E as <- <- <-. destruct (Hdiv Hlim) as [Hall Hup]. split; [done |]. intros Hlt o Ho Hfree. destruct (request_unit _ _ _ Hr) as (k' & Ek & Hk' & _).
  destruct (contiguous (device_size c) 1 (range_tree s1.1) o (2 ^ k)) as (rs & Hrs & H1 & H2); [apply Hi1 | rewrite Ek; apply Z.pow_pos_nonneg; lia | |].
  - intros x Hx. specialize (Hs1 x). rewrite !avl_sfree, Hf in Hs1. apply Hs1. destruct (Hfree x Hx) as (? & ? & ?). done.
  - by apply (Hup Hlt rs o Hrs).
Qed.
End AvlRun.

(** ** Examples *)

(** A device of 100 bytes with blocks of 4. *)
Definition ex_conf : avl_conf := Conf 100 4 0 0 0 0 0.

Lemma ex_conf_ok : conf_ok ex_conf.
Proof. split; [cbn; lia |]. exists 2. done. Qed.

Definition served {A} (r : res (A * (avl * unit))) : avl * unit := match r with Ok (_, s) => s | _ => (avl_new, tt) end.
Definition ex_avl : avl * unit := match init_add_free ex_conf (avl_add_to_tree ex_conf) 2 97 (avl_new, tt) with Ok s => s | _ => (avl_new, tt) end.
Definition ex_avl_used : avl * unit := served (allocate ex_conf avl_spillover_range 24 4 16 ex_avl).

Lemma ex_avl_run : avl_run ex_conf ex_avl_used (fun x => False \/ 2 <= x < 2 + 97) (fun x => False \/ covers [(4, 16); (20, 8)] x).
Proof.
  assert (avl_run ex_conf ex_avl (fun x => False \/ 2 <= x < 2 + 97) (fun _ => False)) as H0.
  { apply (run_add ex_conf _ _ _ 2 97 _ (run_new ex_conf)); [lia | lia | cbn; lia | auto | by vm_compute]. }
  apply (run_allocate ex_conf _ _ _ 24 4 16 24 [(4, 16); (20, 8)] _ H0); [split_and!; done || lia | by vm_compute].
Qed.

Lemma avl_never_allocates_twice_witness : exists r es s', allocate ex_conf avl_spillover_range 64 8 0 ex_avl_used = Ok (r, es, s') /\
  forall x, covers es x -> (False \/ 2 <= x < 2 + 97) /\ ~ (False \/ covers [(4, 16); (20, 8)] x).
Proof.
  destruct (avl_never_allocates_twice ex_conf ex_conf_ok eq_refl ex_avl_used _ _ ex_avl_run) as [H _].
  destruct (H 64 8 0) as (r & es & s' & E & Hx & _); [split_and!; done || lia |]. exists r, es, s'. split; [exact E | exact Hx].
Defined.

Lemma avl_allocates_what_there_is_witness : Forall (fun e : extent => (8 | e.2)%Z) [(32, 64)] /\ (64 < 72 -> forall o, (8 | o)%Z -> ~ forall x, o <= x < o + 8 ->
  (False \/ 2 <= x < 2 + 97) /\ ~ (False \/ covers [(4, 16); (20, 8)] x) /\ ~ covers [(32, 64)] x).
Proof.
  apply (avl_allocates_what_there_is ex_conf ex_conf_ok eq_refl ex_avl_used _ _ 72 8 0 64 [(32, 64)]
    (served (allocate ex_conf avl_spillover_range 72 8 0 ex_avl_used)) ex_avl_run); [split_and!; done || lia | by exists 9 | by vm_compute].
Defined.

Definition ex_double : avl * unit :=
  match release ex_conf (avl_add_to_tree ex_conf) (mk_iset [(8, 8)] 8) ex_avl with Ok s => s | _ => (avl_new, tt) end.

(** C0: releasing bytes that are free is not detected.  The comment in
    [_add_to_tree] says that it makes sure of not overlapping with a neighbour, but
    nothing is compared: after free bytes are released once more the allocator
    reports more free bytes than the device has, and a later allocation, which
    finds the ranges out of order, fails an assertion. *)
Theorem double_release_undetected :
  num_free ex_avl.1 = 97 /\ release ex_conf (avl_add_to_tree ex_conf) (mk_iset [(8, 8)] 8) ex_avl = Ok ex_double /\ num_free ex_double.1 = 105 /\
  allocate ex_conf avl_spillover_range 100 4 0 ex_double = Fault.
Proof. vm_compute. done. Qed.
