(* ===== verification/HybridRun.v ===== *)
(** * The hybrid allocator

    [HybridAllocator] over any bitmap allocator that keeps the promises of a class:
    no byte is handed out twice, whatever moves between the trees and the bitmap. *)

From stdpp Require Import base list sorting gmap.
From S2P Require Import Prelude IntervalSet IntervalSetSpec Allocator AllocatorThms AllocatorRun.

Local Open Scope Z_scope.

(** What the bitmap allocator promises, for ranges whose ends are multiples of
    [g] and units up to [bm_max_unit] (its [l2_granularity]). *)
Class BitmapLaws (c : avl_conf) (g : Z) (Bm : Type) `{!Bitmap Bm} := {
  bm_free : Bm -> Z -> Prop;
  bm_inv : Bm -> Prop;
  bm_max_unit : Z;
  bm_new_ok : bm_inv (bm_new (device_size c) (block_size c)) /\ forall x, ~ bm_free (bm_new (device_size c) (block_size c)) x;
  bm_init_add_free_ok o n b : bm_inv b -> seg_ok (device_size c) g (Seg o (o + n)) -> (forall x, o <= x < o + n -> ~ bm_free b x) ->
    exists b', bm_init_add_free o n b = Ok b' /\ bm_inv b' /\ forall x, bm_free b' x <-> bm_free b x \/ o <= x < o + n;
  bm_allocate_ok want k lim hint b : bm_inv b -> 0 < want < 2 ^ 63 -> 0 <= k <= 63 -> (g | 2 ^ k)%Z -> 2 ^ k <= bm_max_unit ->
    (2 ^ k | want)%Z -> 0 < lim < 2 ^ 32 -> (2 ^ k | lim)%Z ->
    exists r es b', bm_allocate want (2 ^ k) lim hint b = Ok (r, es, b') /\ bm_inv b' /\ result_of want r es /\
      (forall x, bm_free b' x <-> bm_free b x /\ ~ covers es x) /\ (forall x, covers es x -> bm_free b x) /\ StronglySorted disjoint_extents es /\
      Forall (fun e => 0 < e.2 <= lim /\ (2 ^ k | e.1)%Z /\ (2 ^ k | e.2)%Z /\ 0 <= e.1 /\ e.1 + e.2 <= device_size c) es;
  bm_release_nil b : bm_inv b -> exists b', bm_release [] b = Ok b' /\ bm_inv b' /\ forall x, bm_free b' x <-> bm_free b x;
  claim_left_ok o b : bm_inv b -> 0 <= o <= device_size c -> (g | o)%Z ->
    exists h b', claim_free_to_left o b = Ok (h, b') /\ bm_inv b' /\ 0 <= h <= o /\ (g | h)%Z /\ (forall x, o - h <= x < o -> bm_free b x) /\
      forall x, bm_free b' x <-> bm_free b x /\ ~ o - h <= x < o;
  claim_right_ok o b : bm_inv b -> 0 <= o <= device_size c -> (g | o)%Z ->
    exists t b', claim_free_to_right o b = Ok (t, b') /\ bm_inv b' /\ 0 <= t <= device_size c - o /\ (g | t)%Z /\ (forall x, o <= x < o + t -> bm_free b x) /\
      forall x, bm_free b' x <-> bm_free b x /\ ~ o <= x < o + t
}.

Section HybridRun.
Context (c : avl_conf) (Hc : conf_ok c) (Hcap : 0 <= range_count_cap c) {Bm : Type} `{!Bitmap Bm, !BitmapLaws c (block_size c) Bm}.

Abbreviation g := (block_size c).
Abbreviation spill := (hybrid_spillover_range c (Bm := Bm)).

#[local] Instance hybrid_laws : SpillLaws c g spill.
Proof.
  refine {| bfree := fun b x => match b with Some bm => bm_free bm x | None => False end; binv := fun b => match b with Some bm => bm_inv bm | None => True end |}.
  intros _ start end_ b Hb Hseg Hd. unfold hybrid_spillover_range, ensure. destruct Hc as [HD _]. pose proof Hseg as (Hr & He & _). cbn in Hr, He.
  rewrite u64_id by lia. rewrite (proj2 (Z.eqb_neq _ _)) by lia. cbn [negb]. res_simpl. set (bm := default _ b).
  assert (bm_inv bm /\ forall x, bm_free bm x <-> match b with Some bm => bm_free bm x | None => False end) as [Hbm Hf].
  { destruct b as [b |]; [done |]. destruct bm_new_ok as [? Hn]. split; [done |]. intros x. specialize (Hn x). unfold bm. cbn. tauto. }
  destruct (bm_init_add_free_ok start (end_ - start) bm Hbm) as (b' & -> & Hb' & Hf'); [by replace (start + (end_ - start)) with end_ by lia | |].
  - intros x Hx. rewrite Hf. apply Hd. lia.
  - res_simpl. exists (Some b'). split; [done |]. split; [done |]. intros x. rewrite Hf', Hf. replace (start + (end_ - start)) with end_ by lia. done.
Defined.

Abbreviation good := (inv c g spill []).
Abbreviation sfree := (sfree c g spill).

(** The bitmap gets smaller. *)
Lemma good_bm a bm bm' : good (a, Some bm) -> bm_inv bm' -> (forall x, bm_free bm' x -> bm_free bm x) -> good (a, Some bm').
Proof. intros [] Hb Hf. split; try done. cbn in *. intros x Hx Hx'. by apply (i_disj x Hx), Hf. Qed.

Lemma hybrid_add_spec : add_spec c g spill (hybrid_add_to_tree c).
Proof.
  destruct Hc as [HD _]. intros o n [a [bm |]] Hi Ho Hn HDo [Hg1 Hg2] Hd; cbn [hybrid_add_to_tree].
  2: { destruct (add_ok c g spill HD Hcap a None o n Hi Ho Hn HDo (conj Hg1 Hg2) Hd) as (s' & E & Hg' & Hs). by exists s'. }
  destruct (claim_left_ok o bm (i_binv _ _ _ _ _ Hi) ltac:(lia) Hg1) as (h & bm1 & -> & Hb1 & Hh & Hgh & Hl & Hf1). res_simpl. rewrite (u64_id (o + n)) by lia.
  destruct (claim_right_ok (o + n) bm1 Hb1 ltac:(lia) Hg2) as (t & bm2 & -> & Hb2 & Ht & Hgt & Hr & Hf2). res_simpl. unfold ensure.
  rewrite (proj2 (Z.leb_le _ _)) by lia. res_simpl. rewrite (u64_id (o - h)), (u64_id (h + t)), u64_id by lia.
  assert (good (a, Some bm2)) as Hi2 by (apply (good_bm a bm); [done | done |]; intros x Hx; apply Hf1; by apply Hf2 in Hx as [? _]).
  pose proof (i_disj _ _ _ _ _ Hi) as Hdis. cbn [fst snd bfree hybrid_laws] in Hdis.
  assert (forall x, sfree (a, Some bm) x <-> cov (range_tree a) x \/ bm_free bm x) as Hsf by done.
  destruct (add_ok c g spill HD Hcap a (Some bm2) (o - h) (n + (h + t)) Hi2) as (s' & E & Hg' & Hs); [lia | lia | lia | | |].
  - replace (o - h + (n + (h + t))) with (o + n + t) by lia. split; [by apply Z.divide_sub_r | by apply Z.divide_add_r].
  - intros x Hx [Hcv | Hbf]; cbn [fst snd bfree hybrid_laws] in *.
    + apply (Hdis x Hcv). destruct (Z.lt_ge_cases x o); [apply Hl; lia |]. destruct (Z.lt_ge_cases x (o + n)); [exfalso; apply (Hd x ltac:(lia)); by left |].
      specialize (Hr x ltac:(lia)). by apply Hf1 in Hr as [? _].
    + apply Hf2 in Hbf as [[Hbf Hn1]%Hf1 Hn2]. apply (Hd x); [lia | by right].
  - exists s'. split; [done |]. split; [done |]. intros x. rewrite Hs. replace (o - h + (n + (h + t))) with (o + n + t) by lia.
    unfold AllocatorThms.sfree. cbn [fst snd bfree hybrid_laws]. rewrite Hf2, Hf1. specialize (Hl x). specialize (Hr x). rewrite Hf1 in Hr.
    assert (o - h <= x < o + n + t <-> o - h <= x < o \/ o <= x < o + n \/ o + n <= x < o + n + t) by lia.
    destruct (decide (o - h <= x < o)), (decide (o + n <= x < o + n + t)); tauto.
Qed.

Section Request.
Context (k want lim hint : Z) (Hk : 0 <= k <= 63) (Hwant : 0 < want < 2 ^ 63) (Hlim : 0 < lim < 2 ^ 32).
Context (Hgk : (g | 2 ^ k)%Z) (Hku : 2 ^ k <= bm_max_unit) (Hkw : (2 ^ k | want)%Z) (Hkl : (2 ^ k | lim)%Z).

Abbreviation post := (alloc_post c g spill k).

(** -ENOSPC can come with extents: the caller releases them. *)
Definition hybrid_result (r : Z) (es : list (Z * Z)) : Prop := r = total es /\ 0 < r <= want \/ r = - ENOSPC.

Lemma bitmap_part want' a bm : good (a, Some bm) -> 0 < want' <= want -> (2 ^ k | want')%Z ->
  exists r es bm', bm_allocate want' (2 ^ k) lim hint bm = Ok (r, es, bm') /\ result_of want' r es /\ post (a, Some bm) lim es (a, Some bm') /\ (2 ^ k | total es)%Z.
Proof.
  intros Hi Hw Hd. destruct (bm_allocate_ok want' k lim hint bm (i_binv _ _ _ _ _ Hi) ltac:(lia) Hk Hgk Hku Hd Hlim Hkl)
    as (r & es & bm' & E & Hb' & Hres & Hf & Hwas & Hdis & Hall). exists r, es, bm'. split; [done |]. split; [done |].
  pose proof (i_disj _ _ _ _ _ Hi) as Hdj. cbn [fst snd bfree hybrid_laws] in Hdj. split.
  - split; [apply (good_bm a bm); [done | done |]; intros x Hx; by apply Hf in Hx as [? _] | | | done |].
    + intros x. unfold AllocatorThms.sfree. cbn [fst snd bfree hybrid_laws]. rewrite Hf. specialize (Hdj x). specialize (Hwas x). tauto.
    + intros x Hx. right. by apply Hwas.
    + eapply Forall_impl; [exact Hall |]. cbn. intros e ([? ?] & ? & ? & ? & ?). split_and!; try done. by etransitivity.
  - clear -Hall. induction Hall as [| [o n] es (_ & _ & Hn & _) _ IH]; cbn [total]; [apply Z.divide_0_r |]. by apply Z.divide_add_r.
Qed.

Lemma avl_part want' s : good s -> 0 < want' <= want -> (2 ^ k | want')%Z -> exists r es s', _allocate c spill want' (2 ^ k) lim s = Ok (r, es, s') /\ result_of want' r es /\ post s lim es s' /\ (2 ^ k | total es)%Z.
Proof.
  intros Hi Hw Hd. destruct (allocate_spec c g spill (proj1 Hc) Hcap k Hk Hgk want' lim ltac:(lia) Hlim ltac:(by etransitivity) ltac:(by etransitivity) s Hi) as (r & es & s' & E & Hres & Hpost & Hdiv).
  exists r, es, s'. split_and!; try done. destruct (Hdiv Hkl Hd) as [Hall _]. clear -Hall.
  induction Hall as [| [o n] es Hn _ IH]; cbn [total]; [apply Z.divide_0_r |]. by apply Z.divide_add_r.
Qed.

Lemma result_nonneg want' r es : result_of want' r es -> (r <? 0) = true /\ es = [] \/ (r <? 0) = false /\ r = total es /\ 0 < r <= want'.
Proof. intros [[-> ?] | [-> ->]]; [right; split; [apply Z.ltb_ge; lia | done] | left; done]. Qed.

Lemma result_join r es r2 es2 : r = total es -> 0 <= r < want -> result_of (want - r) r2 es2 ->
  hybrid_result (or_enospc (if r2 <? 0 then r2 else r + r2)) (es ++ es2).
Proof.
  intros Er Hr Hres. unfold hybrid_result, or_enospc. destruct (result_nonneg _ _ _ Hres) as [[-> ->] | (-> & E2 & H2)].
  - destruct Hres as [[-> ?] | [-> _]]; [cbn in *; lia | by right].
  - left. rewrite (proj2 (Z.eqb_neq _ _)) by lia. rewrite total_app. lia.
Qed.

Lemma result_enospc r es : r = total es -> 0 <= r <= want -> hybrid_result (or_enospc r) es.
Proof. intros Er Hr. unfold hybrid_result, or_enospc. destruct (Z.eqb_spec r 0); [by right | left; lia]. Qed.

Lemma bitmap_first_ok a bm : good (a, Some bm) ->
  exists r es s', bitmap_first c want (2 ^ k) lim hint a bm = Ok (r, es, s') /\ hybrid_result r es /\ post (a, Some bm) lim es s'.
Proof.
  intros Hi. unfold bitmap_first. destruct (bitmap_part want a bm Hi ltac:(lia) Hkw) as (r & es & bm1 & -> & Hres & Hpost & Hd). res_simpl.
  assert (exists r' es' bm2, (if r <? 0 then bm ← bm_release es bm1; Ok (0, [], bm) else Ok (r, es, bm1)) = Ok (r', es', bm2) /\ r' = total es' /\ 0 <= r' <= want /\
    (2 ^ k | r')%Z /\ post (a, Some bm) lim es' (a, Some bm2)) as (r' & es' & bm2 & -> & Er & Hr & Hdr & Hpost').
  { destruct (result_nonneg _ _ _ Hres) as [[-> ->] | (-> & E & Hr)]; [| exists r, es, bm1; rewrite <- E in Hd; split_and!; done || lia].
    destruct (bm_release_nil bm1 (i_binv _ _ _ _ _ (ap_good _ _ _ _ _ _ _ _ Hpost))) as (bm2 & -> & Hb2 & Hf2). exists 0, [], bm2.
    split_and!; try done; [lia |]. destruct Hpost as [Hg Hf Hw Hds Ha]. split; try done.
    - apply (good_bm a bm1); [done | done |]. intros x. apply Hf2.
    - intros x. rewrite <- Hf. unfold AllocatorThms.sfree. cbn [fst snd bfree hybrid_laws]. by rewrite Hf2. }
  res_simpl. destruct (Z.ltb_spec r' want) as [Hlt | Hge].
  - destruct (avl_part (want - r') (a, Some bm2) (ap_good _ _ _ _ _ _ _ _ Hpost') ltac:(lia) ltac:(by apply Z.divide_sub_r)) as (r2 & es2 & s' & -> & Hres2 & Hpost2 & _).
    res_simpl. eexists _, _, s'. split; [reflexivity |]. split; [apply result_join; [done | lia | done] | exact (alloc_post_app c g spill (proj1 Hc) k Hk _ _ _ _ _ _ Hpost' Hpost2)].
  - eexists _, _, _. split; [reflexivity |]. split; [apply result_enospc; [done | lia] | done].
Qed.

Lemma avl_first_ok s : good s -> exists r es s', avl_first c want (2 ^ k) lim hint s = Ok (r, es, s') /\ hybrid_result r es /\ post s lim es s'.
Proof.
  intros Hi. unfold avl_first. destruct (avl_part want s Hi ltac:(lia) Hkw) as (r & es & s1 & -> & Hres & Hpost & Hd). res_simpl.
  assert (exists r' es', (if r <? 0 then s ← release_extents (hybrid_add_to_tree c) es s1; Ok (0, [], s) else Ok (r, es, s1)) = Ok (r', es', s1) /\ r' = total es' /\
    0 <= r' <= want /\ (2 ^ k | r')%Z /\ post s lim es' s1) as (r' & es' & -> & Er & Hr & Hdr & Hpost').
  { destruct (result_nonneg _ _ _ Hres) as [[-> ->] | (-> & E & Hr)]; [| exists r, es; rewrite <- E in Hd; split_and!; done || lia].
    exists 0, []. cbn [release_extents]. res_simpl. split_and!; try done. lia. }
  res_simpl. destruct s1 as [a1 b1]. destruct (Z.ltb_spec r' want) as [Hlt | Hge].
  - destruct b1 as [bm |]; [| eexists _, _, _; split; [reflexivity |]; split; [apply result_enospc; [done | lia] | done]].
    destruct (bitmap_part (want - r') a1 bm (ap_good _ _ _ _ _ _ _ _ Hpost') ltac:(lia) ltac:(by apply Z.divide_sub_r)) as (r2 & es2 & bm2 & -> & Hres2 & Hpost2 & _).
    res_simpl. eexists _, _, _. split; [reflexivity |]. split; [apply result_join; [done | lia | done] | exact (alloc_post_app c g spill (proj1 Hc) k Hk _ _ _ _ _ _ Hpost' Hpost2)].
  - eexists _, _, _. split; [reflexivity |]. split; [apply result_enospc; [done | lia] | done].
Qed.
End Request.

(** A request in whole blocks: the unit is a multiple of the block size and at most
    the largest of the bitmap, and the longest extent is a multiple of the unit. *)
Definition hybrid_request (want unit max_alloc_size : Z) : Prop :=
  request_ok want unit max_alloc_size /\ (g | unit)%Z /\ unit <= bm_max_unit /\ (unit | extent_limit c want max_alloc_size)%Z.

Lemma hybrid_allocate_ok s want unit max_alloc_size hint : good s -> hybrid_request want unit max_alloc_size ->
  exists k r es s', unit = 2 ^ k /\ hybrid_allocate c want unit max_alloc_size hint s = Ok (r, es, s') /\ hybrid_result want r es /\
    alloc_post c g spill k s (extent_limit c want max_alloc_size) es s'.
Proof.
  intros Hi (Hr & Hgu & Hu & Hl). destruct (request_unit _ _ _ Hr) as (k & -> & Hk & Hd). pose proof (limit_range c _ _ _ Hc Hr) as Hlim. pose proof Hr as (Hw & _ & Hb & Hm & _).
  unfold hybrid_allocate, ensure. rewrite Hb, (proj2 (Z.eqb_eq _ _) Hm). res_simpl.
  destruct (avl_first_ok k want (extent_limit c want max_alloc_size) hint Hk Hw Hlim Hgu Hu Hd Hl s Hi) as (r & es & s' & Ea & Ha).
  destruct s as [a [bm |]]; [| by exists k, r, es, s'].
  destruct (_ && _); [| by exists k, r, es, s'].
  destruct (bitmap_first_ok k want (extent_limit c want max_alloc_size) hint Hk Hw Hlim Hgu Hu Hd Hl a bm Hi) as (r' & es' & s2 & Eb & Hbm). by exists k, r', es', s2.
Qed.

Definition release_request (held : Z -> Prop) (set : interval_set) : Prop :=
  iset_ok set /\ (forall x, x ∈ set -> held x) /\ Forall (fun e => divides_ends g e.1 (e.1 + e.2)) (is_m set).

(** A run: ranges are given and released in whole blocks. *)
Inductive hybrid_run : avl * option Bm -> (Z -> Prop) -> (Z -> Prop) -> Prop :=
  | hybrid_run_new : hybrid_run (avl_new, None) (fun _ => False) (fun _ => False)
  | hybrid_run_add s space held o n s' : hybrid_run s space held -> 0 <= o -> 0 < n -> o + n <= device_size c -> divides_ends g o (o + n) ->
      (forall x, o <= x < o + n -> ~ space x) ->
      hybrid_init_add_free c o n s = Ok s' -> hybrid_run s' (fun x => space x \/ o <= x < o + n) held
  | hybrid_run_allocate s space held want unit max_alloc_size hint r es s' : hybrid_run s space held -> hybrid_request want unit max_alloc_size ->
      hybrid_allocate c want unit max_alloc_size hint s = Ok (r, es, s') -> hybrid_run s' space (fun x => held x \/ covers es x)
  | hybrid_run_release s space held set s' : hybrid_run s space held -> release_request held set ->
      hybrid_release c set s = Ok s' -> hybrid_run s' space (fun x => held x /\ ~ x ∈ set).

Definition hybrid_free (s : avl * option Bm) (x : Z) : Prop := cov (range_tree s.1) x \/ match s.2 with Some bm => bm_free bm x | None => False end.

Lemma hybrid_sfree s x : sfree s x <-> hybrid_free s x.
Proof. done. Qed.

Lemma hybrid_release_ok s space held set : good s -> (forall x, hybrid_free s x <-> space x /\ ~ held x) -> (forall x, held x -> 0 <= x < device_size c) ->
  release_request held set -> exists s', hybrid_release c set s = Ok s' /\ good s' /\ forall x, hybrid_free s' x <-> hybrid_free s x \/ x ∈ set.
Proof.
  intros Hi Hf Hh ([Hruns _] & Hd & Hg).
  destruct (release_ok c g spill (proj1 Hc) (hybrid_add_to_tree c) (is_m set) hybrid_add_spec 0 s Hi) as (s' & E & Hi' & Hs); [done | done | | | by exists s'].
  - rewrite Forall_forall in Hg |- *. intros [o n] He. split; [| by apply (Hg _ He)]. cbn. destruct (runs_from_elem _ _ _ _ Hruns He) as (? & ? & _).
    assert ((o + n - 1) ∈ set) as Hx by (exists o, n; split; [done | lia]). apply Hd, Hh in Hx. lia.
  - intros x Hx Hfx. apply hybrid_sfree, Hf in Hfx. apply Hfx, Hd, Hx.
Qed.

Lemma hybrid_run_inv s space held : hybrid_run s space held ->
  good s /\ (forall x, hybrid_free s x <-> space x /\ ~ held x) /\ (forall x, held x -> space x) /\ (forall x, space x -> 0 <= x < device_size c).
Proof.
  induction 1 as [| s space held o n s' _ (Hi & Hf & Hh & Hsp) Ho Hn HD Hg Hd E
    | s space held want unit max hint r es s' _ (Hi & Hf & Hh & Hsp) Hr E | s space held set s' _ (Hi & Hf & Hh & Hsp) Hd E].
  - split_and!; [| intros x; unfold hybrid_free; cbn; pose proof (cov_nil x); tauto | done | done].
    split; try done; cbn [avl_new fst range_tree range_size_tree]; [split; constructor | constructor | intros x []%cov_nil].
  - unfold hybrid_init_add_free, init_add_free, ensure in E. rewrite (proj2 (Z.eqb_neq _ _)), !u64_id, (proj2 (Z.leb_le _ _)) in E by (destruct Hc; lia). cbn in E.
    destruct (hybrid_add_spec o n s Hi Ho Hn HD Hg) as (s1 & E1 & Hi1 & Hs1); [intros x Hx Hfx; apply hybrid_sfree, Hf in Hfx; apply (Hd x Hx); tauto |].
    rewrite E1 in E. injection E as <-. split_and!; [done | | auto | intros x [? | ?]; [auto | lia]].
    intros x. specialize (Hs1 x). rewrite !hybrid_sfree, Hf in Hs1. rewrite Hs1. specialize (Hd x). specialize (Hh x). tauto.
  - destruct (hybrid_allocate_ok s want unit max hint Hi Hr) as (k & r1 & es1 & s1 & _ & E1 & _ & [Hi1 Hs1 Hw1 _ _]). rewrite E1 in E. injection E as <- <- <-.
    split_and!; [done | | | done].
    + intros x. specialize (Hs1 x). rewrite !hybrid_sfree, Hf in Hs1. rewrite Hs1. tauto.
    + intros x [Hx | Hx]; [auto |]. apply Hw1, hybrid_sfree, Hf in Hx. tauto.
  - destruct (hybrid_release_ok s space held set Hi Hf (fun x Hx => Hsp x (Hh x Hx)) Hd) as (s1 & E1 & Hi1 & Hs1). rewrite E1 in E. injection E as <-.
    destruct Hd as (_ & Hd & _). split_and!; [done | | intros x [? _]; auto | done]. intros x. rewrite Hs1, Hf. specialize (Hd x). specialize (Hh x).
    destruct (covers_dec (is_m set) x) as [Hx | Hx]; change (covers (is_m set) x) with (x ∈ set) in Hx; tauto.
Qed.

(** C19. the hybrid allocator hands out no byte twice either.  Over any bitmap
    allocator that keeps its promises, whatever moves between the trees and the
    bitmap because the number of ranges is limited, every [hybrid_request] is served
    without a failing assertion, its extents are disjoint, aligned and held by
    nobody, the result is their total length or -ENOSPC, and what is free in the
    trees and in the bitmap together is what nobody holds.  A [hybrid_request] has
    a unit that is a power of two and a multiple of the block size, that divides
    the length wanted and the limit on an extent, and that is not above the largest
    unit of the bitmap; the limit is not so for every maximal size a caller gives. *)
Theorem hybrid_never_allocates_twice s space held : hybrid_run s space held ->
  (forall want unit max_alloc_size hint, hybrid_request want unit max_alloc_size ->
    exists r es s', hybrid_allocate c want unit max_alloc_size hint s = Ok (r, es, s') /\
      (forall x, covers es x -> space x /\ ~ held x) /\ StronglySorted disjoint_extents es /\
      Forall (fun e => (unit | e.1)%Z /\ 0 < e.2 < 2 ^ 32 /\ 0 <= e.1 /\ e.1 + e.2 <= device_size c) es /\
      (r = total es /\ 0 < r <= want \/ r = - ENOSPC)) /\
  (forall set, release_request held set -> exists s', hybrid_release c set s = Ok s') /\
  (forall x, hybrid_free s x <-> space x /\ ~ held x).
Proof.
  intros (Hi & Hf & Hh & Hsp)%hybrid_run_inv. split_and!; [| | done].
  - intros want unit max hint Hr. destruct (hybrid_allocate_ok s want unit max hint Hi Hr) as (k & r & es & s' & -> & E & Hres & [_ _ Hw Hd Hall]).
    pose proof (limit_range c _ _ _ Hc (proj1 Hr)). exists r, es, s'. split_and!; try done.
    + intros x Hx. by apply Hf, hybrid_sfree, Hw.
    + eapply Forall_impl; [exact Hall |]. cbn. intros e (? & ? & _ & ? & ?). split_and!; try done; lia.
  - intros set Hd. destruct (hybrid_release_ok s space held set Hi Hf (fun x Hx => Hsp x (Hh x Hx)) Hd) as (s1 & E1 & _). by exists s1.
Qed.
End HybridRun.

(** ** A bitmap *)

(** A bitmap allocator that satisfies the class: the numbers of the free blocks.
    It allocates one block at a time. *)
Record bitmap := MkBitmap { bm_block : Z; bm_blocks : gset Z }.

Definition blocks_of (b o n : Z) : gset Z := list_to_set (seqZ (o / b) (n / b)).

#[export] Instance bitmap_ops : Bitmap bitmap := {|
  bm_new _ b := MkBitmap b ∅;
  bm_get_free m := bm_block m * Z.of_nat (size (bm_blocks m));
  bm_allocate _ unit _ _ m :=
    match elements (bm_blocks m) with
    | q :: _ => if unit =? bm_block m then Ok (bm_block m, [(q * bm_block m, bm_block m)], MkBitmap (bm_block m) (bm_blocks m ∖ {[q]})) else Ok (- ENOSPC, [], m)
    | [] => Ok (- ENOSPC, [], m)
    end;
  bm_release es m := Ok (MkBitmap (bm_block m) (bm_blocks m ∪ ⋃ ((fun e => blocks_of (bm_block m) e.1 e.2) <$> es)));
  bm_init_add_free o n m := Ok (MkBitmap (bm_block m) (bm_blocks m ∪ blocks_of (bm_block m) o n));
  bm_init_rm_free o n m := Ok (MkBitmap (bm_block m) (bm_blocks m ∖ blocks_of (bm_block m) o n));
  claim_free_to_left _ m := Ok (0, m);
  claim_free_to_right _ m := Ok (0, m)
|}.

Lemma elem_of_blocks b o n x : 0 < b -> (b | o)%Z -> (b | o + n)%Z -> 0 <= n -> x / b ∈ blocks_of b o n <-> o <= x < o + n.
Proof.
  intros Hb [q ->] [q' Hq'] Hn. assert (n = (q' - q) * b) as -> by lia. unfold blocks_of. rewrite elem_of_list_to_set, elem_of_seqZ, !Z.div_mul by lia.
  pose proof (Z.div_mod x b ltac:(lia)). pose proof (Z.mod_pos_bound x b Hb). nia.
Qed.

Definition bitmap_laws c (Hc : 0 < block_size c < 2 ^ 32) : BitmapLaws c (block_size c) bitmap.
Proof.
  refine {| bm_free m x := x / bm_block m ∈ bm_blocks m;
            bm_inv m := bm_block m = block_size c /\ forall q, q ∈ bm_blocks m -> 0 <= q /\ (q + 1) * block_size c <= device_size c;
            bm_max_unit := block_size c |}.
  - split; [split; [done |]; intros q; set_solver | intros x; cbn; set_solver].
  - intros o n [b m] [Eb Hm] (Hr & He & Hg1 & Hg2) Hd. cbn in *. subst b. eexists. split; [reflexivity |]. cbn. split; [split; [done |] |].
    + intros q [Hq | Hq]%elem_of_union; [auto |]. assert (q * block_size c / block_size c ∈ blocks_of (block_size c) o n) as Hq' by (by rewrite Z.div_mul by lia).
      apply elem_of_blocks in Hq'; [| lia | done | done | lia]. destruct Hg2 as [z Hz]. rewrite Hz in *.
      assert (q < z) by (apply (Z.mul_lt_mono_pos_r (block_size c)); lia). split; [apply (Z.mul_nonneg_cancel_r _ (block_size c)); lia |].
      etransitivity; [apply Z.mul_le_mono_nonneg_r; [lia |] | exact He]. lia.
    + intros x. rewrite elem_of_union, elem_of_blocks by (done || lia). done.
  - intros want k lim hint [b m] [Eb Hm] Hw Hk Hg Hu Hkw Hlim Hkl. cbn in *. subst b.
    assert (exists r es b', Ok (- ENOSPC, [], MkBitmap (block_size c) m) = Ok (r, es, b') /\
      (bm_block b' = block_size c /\ forall q, q ∈ bm_blocks b' -> 0 <= q /\ (q + 1) * block_size c <= device_size c) /\ result_of want r es /\
      (forall x, x / bm_block b' ∈ bm_blocks b' <-> x / block_size c ∈ m /\ ~ covers es x) /\ (forall x, covers es x -> x / block_size c ∈ m) /\
      StronglySorted disjoint_extents es /\ Forall (fun e => 0 < e.2 <= lim /\ (2 ^ k | e.1)%Z /\ (2 ^ k | e.2)%Z /\ 0 <= e.1 /\ e.1 + e.2 <= device_size c) es) as Hfail.
    { eexists _, _, _. split; [reflexivity |]. split_and!; try done; [by right | | intros x []%covers_nil | constructor].
      intros x. pose proof (covers_nil x). cbn. tauto. }
    destruct (elements m) as [| q l] eqn:Eq; [done |]. destruct (Z.eqb_spec (2 ^ k) (block_size c)) as [Ek | Ek]; [| done]. clear Hfail.
    assert (q ∈ m) as Hq by (apply elem_of_elements; rewrite Eq; by left). destruct (Hm q Hq) as [Hq0 HqD].
    assert (forall x, covers [(q * block_size c, block_size c)] x <-> x / block_size c = q) as Hcov.
    { intros x. rewrite covers_cons. pose proof (covers_nil x). cbn [fst snd]. pose proof (Z.div_mod x (block_size c) ltac:(lia)).
      pose proof (Z.mod_pos_bound x (block_size c) ltac:(lia)). split; [intros [Hx | ?]; [| done] | intros <-; left; lia].
      symmetry. apply (Z.div_unique_pos x (block_size c) q (x - q * block_size c)); lia. }
    rewrite Ek in *. assert (0 < block_size c <= want) as Hbw by (split; [lia |]; apply Z.divide_pos_le; [lia | done]).
    eexists _, _, _. split; [reflexivity |]. cbn. split_and!; try done.
    + intros q' [Hq' _]%elem_of_difference. auto.
    + left. cbn. lia.
    + intros x. rewrite elem_of_difference, elem_of_singleton, Hcov. done.
    + intros x. rewrite Hcov. by intros ->.
    + repeat constructor.
    + apply Forall_singleton. cbn. split_and!; [lia | apply Z.divide_pos_le; [lia | done] | apply Z.divide_factor_r | done | nia | lia].
  - intros [b m] [Eb Hm]. cbn in *. eexists. split; [reflexivity |]. cbn. rewrite (right_id_L ∅ (∪)). done.
  - intros o [b m] [Eb Hm] Ho Hg. cbn in *. exists 0, (MkBitmap b m). split_and!; try done; [lia | apply Z.divide_0_r | lia |]. intros x. cbn.
    assert (~ o - 0 <= x < o) by lia. tauto.
  - intros o [b m] [Eb Hm] Ho Hg. cbn in *. exists 0, (MkBitmap b m). split_and!; try done; [lia | apply Z.divide_0_r | lia |]. intros x. cbn.
    assert (~ o <= x < o + 0) by lia. tauto.
Defined.

(** ** Examples *)

(** A device of 100 bytes with blocks of 4, and at most [cap] ranges in the trees. *)
Definition ex_hybrid_conf (cap : Z) : avl_conf := Conf 100 4 0 0 0 0 cap.

Lemma ex_hybrid_conf_ok cap : conf_ok (ex_hybrid_conf cap).
Proof. split; [cbn; lia |]. exists 2. done. Qed.

Definition ex_hybrid_laws (cap : Z) : BitmapLaws (ex_hybrid_conf cap) 4 bitmap := bitmap_laws (ex_hybrid_conf cap) ltac:(cbn; lia).

Definition ex_add (cap o n : Z) (s : avl * option bitmap) : avl * option bitmap :=
  match hybrid_init_add_free (ex_hybrid_conf cap) o n s with Ok s => s | _ => s end.

Definition ex_hybrid : avl * option bitmap := ex_add 2 48 4 (ex_add 2 16 24 (ex_add 2 0 8 (avl_new, None))).

Definition ex_space (x : Z) : Prop := ((False \/ 0 <= x < 0 + 8) \/ 16 <= x < 16 + 24) \/ 48 <= x < 48 + 4.

Lemma ex_hybrid_run : hybrid_run (ex_hybrid_conf 2) (BitmapLaws0 := ex_hybrid_laws 2) ex_hybrid ex_space (fun _ => False).
Proof.
  pose proof (hybrid_run_new (ex_hybrid_conf 2) (BitmapLaws0 := ex_hybrid_laws 2)) as H0.
  assert (divides_ends 4 0 (0 + 8) /\ divides_ends 4 16 (16 + 24) /\ divides_ends 4 48 (48 + 4)) as (Hd1 & Hd2 & Hd3)
    by (unfold divides_ends; split_and!; by apply Z.mod_divide).
  eapply (hybrid_run_add _ _ _ _ 0 8) in H0; [| lia | lia | cbn; lia | exact Hd1 | intros x; lia | by vm_compute].
  eapply (hybrid_run_add _ _ _ _ 16 24) in H0; [| lia | lia | cbn; lia | exact Hd2 | intros x; lia | by vm_compute].
  eapply (hybrid_run_add _ _ _ _ 48 4) in H0; [| lia | lia | cbn; lia | exact Hd3 | intros x; lia | by vm_compute].
  exact H0.
Qed.

Lemma hybrid_never_allocates_twice_witness : exists r es s', hybrid_allocate (ex_hybrid_conf 2) 12 4 0 0 ex_hybrid = Ok (r, es, s') /\
  forall x, covers es x -> ex_space x /\ ~ False.
Proof.
  destruct (hybrid_never_allocates_twice (ex_hybrid_conf 2) (ex_hybrid_conf_ok 2) ltac:(cbn; lia) ex_hybrid _ _ ex_hybrid_run) as [H _].
  destruct (H 12 4 0 0) as (r & es & s' & E & Hx & _); [| exists r, es, s'; split; [exact E | exact Hx]].
  split; [split_and!; done || lia |]. split; [by exists 1 |]. split; [cbn; lia | by exists 3].
Defined.

(** C40. the hybrid allocator reads a range that it has deleted.
    [_try_remove_from_tree] keeps an iterator to the next range while a range is
    split in two; when the limit on ranges is reached the split hands over the
    smallest range, which can be that next one, and the loop's condition then
    reads it.  With room for one more range the same call succeeds. *)
Theorem init_rm_free_reads_deleted_range :
  range_tree (ex_add 2 60 4 (ex_add 2 0 40 (avl_new, None))).1 = [Seg 0 40; Seg 60 64] /\
  hybrid_init_rm_free (ex_hybrid_conf 2) 16 8 (ex_add 2 60 4 (ex_add 2 0 40 (avl_new, None))) = Fault /\
  (exists s, hybrid_init_rm_free (ex_hybrid_conf 3) 16 8 (ex_add 2 60 4 (ex_add 2 0 40 (avl_new, None))) = Ok s /\ range_tree s.1 = [Seg 0 16; Seg 24 40; Seg 60 64]).
Proof. split; [by vm_compute |]. split; [by vm_compute |]. eexists. split; by vm_compute. Qed.
